(* ===== verification/_CoqProject ===== *)
-Q . S2P
Prelude.v
Wire.v
ProtoTypes.v
ProtoValid.v
ProtoSafety.v
ProtoEncode.v
ProtoDecode.v
ProtoRoundTrip.v
ProtoTheorems.v
HistorySync.v
HistorySyncTheorems.v
HistoryService.v
HistoryServiceTheorems.v
FileOs.v
UnixPath.v
FileTransfer.v
FileTransferTheorems.v
ManualTransfer.v
ManualTransferTheorems.v
ManualTransferSafety.v
ManualTransferSender.v
ManualTransferDelivery.v
ManualTransferRetry.v
PeerProfile.v
PeerProfileTheorems.v
PluginApi.v
TransferManager.v
TransferManagerTheorems.v
TransferManagerSafety.v
FileOffers.v
TransferService.v
TransferServiceTheorems.v
TransferDelivery.v
Layout.v
LayoutTheorems.v
InputCapture.v
Capture.v
CaptureTheorems.v
CaptureSafety.v
ClientManager.v
ClientService.v
ClientTheorems.v
ClientBarriers.v
InputEmulation.v
Clipboard.v
ClipboardTheorems.v
Emulation.v
EmulationTask.v
EmulationTheorems.v
ListenTheorems.v
ListenSafety.v
EmulationSystem.v
EmulationSafety.v
ClipboardService.v
ClipboardServiceTheorems.v
ClipboardDelivery.v
Actions.v
PluginRouting.v
Manifest.v
Supervisor.v
SupervisorExample.v
SupervisorTheorems.v
SupervisorSafety.v
SupervisorBounds.v
HistoryDb.v
HistoryWorker.v
HistoryDbTheorems.v
HistoryDbSafety.v
HistoryConvergence.v
HistoryQueries.v
HistoryReplica.v
PackageDigest.v
PackageDigestTheorems.v
PluginTrust.v
PluginDiscovery.v
PackageStore.v
PluginRegistry.v
PluginService.v
PluginConsent.v
ConsentTheorems.v
