(* ===== verification/Prelude.v ===== *)
(** * Syntra: a verification development of its peer protocol and daemon core

    Syntra shares one keyboard and mouse, the clipboard, clipboard history and
    files between computers.  Each computer runs a daemon
    ([crates/syntra-core]); daemons talk over authenticated DTLS datagrams in
    the protocol of [crates/syntra-proto]; a user interface and a command line
    talk to the local daemon in the protocol of [crates/syntra-api].

    This development models the code that decides what the daemon does with the
    bytes and messages of other computers, and proves what that code promises.

    ** The program and the files that model it

    - [Wire], [ProtoTypes], [ProtoValid], [ProtoEncode], [ProtoDecode]: the peer
      protocol, [crates/syntra-proto/src/wire.rs] and [lib.rs].  One definition
      per primitive of [wire.rs], per validation function, per arm of
      [ProtoEvent::encode] and of [ProtoEvent::decode]; the types are the
      source's enums and structs, the input events those of
      [crates/syntra-input-event/src/lib.rs].  Strings are their UTF-8 bytes
      ([rstring]), floating point numbers their bit patterns.
    - [HistorySync]: [crates/syntra-core/src/history_sync.rs], the reassembly of
      clipboard history records from datagrams and the clear boundaries.
    - [HistoryService]: the coordinator of a global clear (same source file) and
      the daemon's history handlers ([service/history_reconcile.rs], the history
      arms of [service/peers.rs], the connection events of [service/input.rs],
      the expiry and deadline arms of the main loop in [service/mod.rs]).  Its
      state is the part of [Service] these handlers use; the history database is
      behind the class [HistoryStore].
    - [HistoryDb], [HistoryWorker]: the history database, [crates/syntra-store].
      [HistoryDb] is [lib.rs]: the tables as finite maps by primary key and one
      definition per statement and per operation; [HistoryWorker] is [worker.rs],
      the thread that owns it, with every command and the summaries for the
      interface.  The JSON of serde is behind the class [StoreJson], the scaling of
      pictures behind [Thumbnails].  [HistoryReplica] makes the worker an instance
      of [HistoryStore], which joins it to the service.
    - [ManualTransfer]: [crates/syntra-core/src/manual_transfer.rs], the state
      machine that offers a file to a peer, decides on an offer and moves the
      bytes by pull requests, with its retries, time-outs and route changes.
      The machine calls files through the class [TransferFiles], and its lemmas
      use only the laws [FilesModel] of [ManualTransferTheorems].
      [ManualTransferSafety] fills the class in with the operations of
      [FileTransfer] ([transfer_files]) and proves the laws of them
      ([transfer_model]); what is left open is the operating system ([Os],
      [TransferOs], with [OsLaws]: what a call reports of the bytes it read).
    - [PeerProfile]: [crates/syntra-core/src/peer_profile.rs], the device name
      and picture sent in chunks, and the daemon's handlers that ask for
      profiles and accept them ([service/peers.rs]); the cache on disk is a
      parameter.
    - [UnixPath], [FileOs], [FileTransfer]: [crates/syntra-core/src/file_transfer.rs],
      which collects the files of a selection, reads them in ranges and writes
      received ones.  [UnixPath] is what the source uses of [std::path];
      [FileOs] is the class of file systems ([Os]) and hashes ([Sha256]);
      [FileTransferTheorems] has an instance in memory, to run examples.
    - [PluginApi], [TransferManager], [TransferService]: the clipboard files.
      [PluginApi] has the messages of [crates/syntra-plugin-api/src/lib.rs];
      [TransferManager] the tables of [transfer_manager.rs] with every operation;
      [TransferService] the daemon around them ([service/transfers.rs] and the
      arms of [service/peers.rs], [service/input.rs] and [service/frontend.rs]
      that belong to it).  Plugin processes are commands that go out and events
      that come in; which plugin provides mounted files is a parameter.
    - [Layout]: [crates/syntra-api/src/layout.rs], the monitors of all devices in
      one plane, their crossings, validation and snapping, on [i64] with its
      overflow (a panic or a wrap-around, by the build) and on [f64] with its
      rounding (module [F64]).
    - [InputCapture], [Capture]: the captured pointer.  [InputCapture] is the
      wrapper [crates/syntra-input-capture/src/lib.rs] (class [CaptureBackend] for
      the platform); [Capture] is the task of
      [crates/syntra-core/src/capture.rs]: edges and how hard they are pushed,
      entering a device, its acknowledgement, forwarding, hand-off and release,
      in a monad of state, errors and panics over the class [CaptureWorld].  A
      run gives each stimulus the world it comes in.
    - [ClientManager], [ClientService]: the configured devices.  [ClientManager]
      is the table of [crates/syntra-core/src/client.rs]; [ClientService] the
      daemon around it: [service/clients.rs], the arms of [service/frontend.rs]
      and [service/input.rs] that call it, loading and saving the clients of the
      configuration, and the start of the main loop in [service/mod.rs].  What it
      does outside its state is a list of effects; its requests to the capture
      task are those of [Capture].
    - [InputEmulation], [Emulation], [EmulationTask], [EmulationSystem]: the
      pointer of another device on this screen.  [InputEmulation] is the wrapper
      [crates/syntra-input-emulation/src/lib.rs] (class [EmulationBackend] for the
      platform); [Emulation] the listen task of [crates/syntra-core/src/emulation.rs]:
      entries, input, hand-off, clipboards in chunks, the watchdog; [EmulationTask]
      the task of the same file that owns the back end; [EmulationSystem] the two
      with the queue, the events and the cells between them, in any order of steps.
    - [Clipboard], [ClipboardService]: copied text and images.  [Clipboard] is
      [crates/syntra-core/src/clipboard.rs], the thread that reads the desktop and
      the one that writes it, step by step; [ClipboardService] the daemon around
      it ([service/clipboard_sync.rs] and the clipboard arms of [service/input.rs]
      and [service/mod.rs]).
    - [PluginRouting], [Supervisor]: plugin processes.
      [PluginRouting] is [plugins/routing.rs] with the capabilities of
      [crates/syntra-plugin-api/src/manifest.rs], and
      [plugins/process.rs]: environment, diagnostic lines, process groups;
      [Supervisor] is [plugins/supervisor.rs], its commands, process events and
      the tasks of a launch as steps in any order.  JSON and base64 are behind
      the class [PluginCodec]; the package on disk and the start of a process are
      the [World] of a step.  [Actions] has the state transformers with effects
      these files are written in, and triples over them.
    - [Manifest], [PackageDigest], [PluginTrust], [PluginDiscovery],
      [PackageStore], [PluginRegistry], [PluginService]: which plugins there are and
      which may start.  [Manifest] is [crates/syntra-plugin-api/src/manifest.rs] (serde
      behind the class [ManifestJson]); [PackageDigest] is [package.rs] beside it,
      call by call over the class [PackageFs], so that files may change between
      two calls; [PluginTrust], [PluginDiscovery] and [PluginRegistry] are
      [plugins/trust.rs], [discovery.rs] and [registry.rs]: the state with every
      operation, its cache of digests included; [PackageStore] is
      [package_store.rs], call by call, any of which may fail; [PluginService] the
      plugin requests of [service/frontend.rs], the results of blocking jobs and the
      start of the main loop.  A handler reads one [Moment]: the clock, the disk,
      digests of packages and which writes fail.

    Effects are explicit: a handler takes the state and returns the new state
    with the messages and notifications it emits, in order; errors are values of
    [result]; a panic is a value of [call]; clocks and random draws are
    arguments.  Integers are [Z] with the source's width checks, wrap-around and
    saturation written out.

    ** What is proved

    - The protocol ([ProtoTheorems], [ProtoSafety]): encoding then decoding
      gives the message back (C1); what was decoded encodes to bytes that
      decode to the same message (C2); nothing follows a message unnoticed
      ([decode_trailing]); an encoded message fits a datagram and starts with its
      id (C4); an accepted clipboard path stays inside its directory (C6); an accepted file name is
      portable ([validate_manual_file_name_portable]); a decoded manifest is within
      its limits ([decode_manifest_sound]).
    - History ([HistorySyncTheorems], [HistoryServiceTheorems]): reassembly
      never exceeds its memory budget nor panics (C10) and delivers the record
      that was sent under any order and repetition of datagrams (C11); a clear
      enters its second phase exactly when the last participant answered, with the
      merge of all their boundaries ([clear_boundary_phase]); an invariant of the service under
      any interleaving of messages, connections, ticks and deadlines (C14); and a
      counterexample to the acknowledgement count reported after a clear
      ([clear_overcounts_acknowledgements]).
    - The history database ([HistoryDbSafety], [HistoryReplica],
      [HistoryConvergence], [HistoryQueries]): what an acknowledged clear hides
      stays hidden, and its content is gone, whatever the daemon does afterwards
      (C7); records merged in any order and multiplicity leave the same tables
      (C9); a search finds the records in which the query occurs, each text taken
      up to its first NUL as SQLite takes it, pinned records first, and its
      pages list them all (C23).  [AtTheLimit] runs the database at its limit of
      a thousand records: sequences are given again and dismissed records return.
    - Manual transfers ([ManualTransferSafety], [ManualTransferDelivery],
      [ManualTransferRetry]): bounded bookkeeping (C17); terminal states are
      final and progress is monotone (C18); nothing is written without consent
      (C19); over a network that loses, repeats, delays and reorders messages a
      completed file is the bytes the sender read, as many as it announced (C20),
      and a sender completes only after its receiver (C21); a source edited
      between two reads without a change of its length, time and inode goes
      unnoticed, so these are not always the bytes it had at the offer; a silent peer costs a bounded number of
      messages and is given up (C22).
    - Profiles ([PeerProfileTheorems]): reassembly is bounded and delivers only
      valid profiles ([profiles_bounded]); a profile reaches the peer under any order and
      repetition of its chunks (C24); the profiles the daemon holds are valid
      and unsolicited data is ignored ([profiles_invariant]); unanswered requests end
      ([profile_requests_end]).
    - Clipboard files ([TransferManagerSafety], [TransferServiceTheorems],
      [TransferDelivery], [FileOffers]): the tables agree after any operations
      (C27); a plugin gets exactly the ranges it asked for (C28); rejected
      operations change nothing (C29); a paste delivers the file of the other
      daemon (C30); a lost peer leaves nothing behind (C31); the offer of a
      selection is a manifest of what is on disk (C34).
    - Layout ([LayoutTheorems]): with every rounding of [f64], a crossing enters
      at the place it left and leads back to it, up to the error stated there;
      by rounding the very end of an edge may not lead back
      ([end_does_not_lead_back]) (C32).  On a plane whose sums fit [i64] a layout
      is accepted exactly when it is usable (C33); beyond it the check panics or
      its verdict changes ([far_layout_panics_or_wraps]).
    - Capture ([CaptureTheorems], [CaptureSafety]): what the task sends is a run
      of the entry automaton, so input reaches only a device that acknowledged
      (C35); the task does not panic and its session is consistent, unless a
      capture is destroyed while in use (C36), which does make it panic
      ([destroyed_while_pushed_panics]); an entry nobody acknowledges ends (C37).
    - Clients ([ClientTheorems], [ClientBarriers]): in every reachable state at
      most one client is active per edge and the captures of the capture task,
      which runs beside the service, are exactly those of the active clients and
      of the devices that came in (C38); saved clients survive loading and
      saving ([config_round_trip]).
    - Emulation ([ListenSafety], [EmulationSafety], [EmulationTheorems]): control
      of this screen is given and used by right, and told (C5); whoever loses
      control lets go of every key and button, whatever fails, and a peer in
      control was heard lately (C8); what the back end holds is accounted for, peer
      by peer (C40).
    - Clipboards ([ClipboardDelivery], [ClipboardTheorems]): a clipboard arrives
      at another device as it was copied, or not at all (C12); what a peer sent is
      not sent back, what the user copies is shared once, a newer copy is not
      overwritten (C15).
    - Plugins ([SupervisorSafety], [SupervisorBounds]): a frame reaches the daemon
      only if a process of the plugin wrote it since the plugin was last stopped,
      within an approval given since then (C3); what is started is a regular,
      executable file, and of an installed plugin its package has at that moment
      the approved digest (C13; a bundled one is started unchecked); crash loops end and what a plugin can cost is bounded (C26).  The
      generation of a process is a counter of 64 bits that wraps: C3 and C13 hold
      for histories of fewer than 2^64 - 2 steps.  [SupervisorExample] runs the
      supervisor and shows marks and ranges that outlive their process.
    - The plugin registry ([PackageDigestTheorems], [ConsentTheorems],
      [PackageStore]): a digest
      stands for the identity, arguments, capabilities, settings and every file of a
      package (C16), given that SHA-256 does not collide on the two and the
      operating system reads no more bytes than asked for; the daemon starts a plugin
      only if it is of the distribution or the user switched it on and approved the
      digest its package has at that moment (C25), given that serde reads back
      what it wrote.  C13 continues where C25 ends: the supervisor compares the
      digest once more.  Installing a package is all or nothing, whichever calls fail and whenever the daemon dies,
      and when the sources stand still what is installed is the manifest, the
      executable and every resource that was read (C39), and removing one touches no other ([uninstall_removes_one]).  The
      modules [MemoryFs], [DropInPlugin] and [Installing] run all three.

    The other files hold the lemmas: [ProtoRoundTrip] (decoding of each encoded
    body), [ManualTransferTheorems] (the invariant of a record and of the table
    of transfers, kept by every operation), [ManualTransferSender] (what a
    sender says about its file is true), [FileTransferTheorems] (what reading and writing a file does,
    and reading one that nobody changes), [TransferManagerTheorems] (the invariant of the tables
    of clipboard files, kept by every operation), [ListenTheorems] (what each
    handler of the listen task does to the controllers and says about them),
    [ClipboardServiceTheorems] (the ids of streams, echoes of the back end),
    [SupervisorTheorems] (what one turn of the supervisor may do),
    [HistoryDbTheorems] (what every row of the history is, kept by every command), [PluginConsent] (what a launch relies on, and which actions leave it
    as it is).  This file holds what all share: the
    [result] monad and its notations, fixed-width arithmetic, lists and the
    development's tactics and hints.

    ** Bounds and fuel

    Recursion is on lists, except [chunks] ([slice::chunks], fuel the length of
    the list, each round consuming at least one byte), [evict] (the [while] loop
    of [store], fuel the length of the queue, each round removing one element),
    the loops of the decoder over a counted number of entries, which recurse on
    that count, [collect_entry] (fuel the limit of entries of a manifest, one of
    which every call adds: [collect_entry_fuel] shows that more changes nothing),
    [fill] (as many rounds as bytes were asked for, each reading at least one),
    [allocate_loop] (two rounds more than ids are in use, see [allocate_rounds]),
    [read_exactly] (as many rounds as bytes remain, each reading at least one),
    [walk] (the source's limit on nested directories), [copy_tree] (as many levels
    as a path of the system can have names),
    [trim_prefixes] and
    [clipboard_chunks] (fuel the length of the text).  No theorem is of the form
    "if enough fuel was given".

    ** Not modelled

    The platform back ends of capture and emulation, the network and DTLS layers,
    the user interface, configuration and the discovery of peers (platform calls and input and
    output); the Android touchpad; the texts of [Display] implementations; log
    lines.  Floating point sums of the capture task are exact rationals.  Of the
    wrapper of emulation, how hard a peer's own pointer must push an edge is left
    to the back ends that ask for it.  Of the supervisor, the error stream is
    read line by line by its environment, and the grace period of a process that
    is ended is not modelled.  Of the registry, [PluginService] takes the results
    of copying and deleting packages as they come ([PackageStore] is not run inside
    it), the descriptive texts of the interface are left out, and a command the
    supervisor's full queue refuses counts as sent.  What is left is glue around
    platform calls. *)

From Stdlib Require Export ZArith Lia.
From stdpp Require Export strings gmap prelude.

Open Scope Z_scope.

(** ** Results

    Rust's [Result<A, E>].  [let*] is the [?] operator: the error of the first
    failing call is the error of the whole block. *)

Inductive result (E A : Type) : Type :=
| Ok (a : A)
| Err (e : E).

Arguments Ok {E A} a.
Arguments Err {E A} e.

Declare Scope syntra_scope.
Delimit Scope syntra_scope with syntra.

Notation "'let*' p ':=' m 'in' k" :=
  (match m with Ok p => k | Err e => Err e end)
  (at level 10, p strict pattern, m at level 200, k at level 200,
   format "'[v' 'let*'  p  ':='  m  'in' '//' k ']'") : syntra_scope.

(** [guard c e k]: [if c { return Err(e) }] followed by [k]. *)
Notation "'fail_if' c 'with' e 'in' k" :=
  (if c then Err e else k)
  (at level 10, c at level 200, e at level 200, k at level 200,
   format "'[v' 'fail_if'  c  'with'  e  'in' '//' k ']'") : syntra_scope.

Open Scope syntra_scope.

Definition is_ok {E A} (r : result E A) : bool :=
  match r with Ok _ => true | Err _ => false end.

(** [Option::ok_or]. *)
Definition ok_or {E A} (o : option A) (e : E) : result E A :=
  match o with Some a => Ok a | None => Err e end.

(** ** Machine integers

    An unsigned [w]-bit integer is a [Z] in [[0, 2^w)]; the range is a boolean
    so that a type invariant over records of such fields computes. *)

Definition is_uint (w : Z) (v : Z) : bool := (0 <=? v) && (v <? 2 ^ w).
Abbreviation is_u8 := (is_uint 8).
Abbreviation is_u16 := (is_uint 16).
Abbreviation is_u32 := (is_uint 32).
Abbreviation is_u64 := (is_uint 64).
Definition is_i32 (v : Z) : bool := (- 2 ^ 31 <=? v) && (v <? 2 ^ 31).

Definition u32_max : Z := 2 ^ 32 - 1.
Definition u64_max : Z := 2 ^ 64 - 1.
(** The targets of the daemon are 64-bit: [usize] has 64 bits. *)
Definition usize_max : Z := 2 ^ 64 - 1.

(** [checked_add] and [checked_mul] of [u64]/[usize], and [saturating_add],
    [saturating_sub]. *)
Definition checked_add (a b : Z) : option Z :=
  if a + b <=? u64_max then Some (a + b) else None.
Definition checked_mul (a b : Z) : option Z :=
  if a * b <=? u64_max then Some (a * b) else None.
Definition saturating_add (a b : Z) : Z := Z.min (a + b) u64_max.
Definition saturating_sub (a b : Z) : Z := Z.max (a - b) 0.

(** [usize::div_ceil]: the quotient rounded up, for a positive divisor. *)
Definition div_ceil (a b : Z) : Z :=
  if a mod b =? 0 then a / b else a / b + 1.

(** Length of a vector or slice, as a [usize]. *)
Definition len {A} (l : list A) : Z := Z.of_nat (length l).

(** ** Bytes and strings

    A byte is a [u8]; a Rust [String] is the list of its UTF-8 bytes. *)
Abbreviation bytes := (list Z) (only parsing).
Abbreviation rstring := (list Z) (only parsing).

(** The bytes of an ASCII string literal. *)
Definition str (s : string) : list Z :=
  (fun a => Z.of_N (Ascii.N_of_ascii a)) <$> String.list_ascii_of_string s.
Arguments str s%_string : simpl never.

Definition all_u8 (l : list Z) : bool := forallb is_u8 l.

(** ** Automation

    [boolsplit] turns boolean guards of the code into propositions for [lia];
    [inv_ok H] runs through the guards of a fallible operation that [H] says
    returned. *)

Ltac boolsplit :=
  repeat match goal with
  | H : _ && _ = true |- _ => apply andb_prop in H; destruct H
  | H : _ || _ = false |- _ => apply orb_false_elim in H; destruct H
  | H : negb _ = true |- _ => apply negb_true_iff in H
  | H : negb _ = false |- _ => apply negb_false_iff in H
  end.

Ltac boolgoal :=
  repeat match goal with
  | |- _ && _ = true => apply andb_true_intro; split
  | |- _ || _ = false => apply orb_false_intro
  | |- negb _ = true => apply negb_true_iff
  | |- negb _ = false => apply negb_false_iff
  | |- (_ <=? _) = true => apply Z.leb_le
  | |- (_ <? _) = true => apply Z.ltb_lt
  | |- (_ =? _) = true => apply Z.eqb_eq
  | |- (_ <=? _) = false => apply Z.leb_gt
  | |- (_ <? _) = false => apply Z.ltb_ge
  | |- (_ =? _) = false => apply Z.eqb_neq
  end.

(** Rewrites with the boolean facts of the context. *)
Ltac rewrite_bools :=
  repeat match goal with
  | H : ?b = true |- context [?b] => rewrite H
  | H : ?b = false |- context [?b] => rewrite H
  end.

Ltac zbool :=
  unfold is_uint, is_i32, u32_max, u64_max, usize_max, len in *;
  boolsplit; boolgoal; lia.

Ltac inv_ok H :=
  cbn beta iota zeta in H;
  lazymatch type of H with
  | Ok ?a = Ok ?a => clear H
  | Ok _ = Ok _ => injection H; clear H; intros; subst
  | Err _ = Ok _ => discriminate H
  | Ok _ = Err _ => discriminate H
  | context [match ?x with _ => _ end] =>
      lazymatch x with
      | context [match ?y with _ => _ end] => destruct y eqn:?; inv_ok H
      | _ => destruct x eqn:?; inv_ok H
      end
  | _ => idtac
  end.

(** Rewriting of readers over what writers wrote ([wire]), and of the lengths
    of byte strings ([len]). *)
Create Rewrite HintDb wire.
Create Rewrite HintDb len.
Create HintDb syntra.

(** ** Lists and lengths *)

Section len.
Context {A : Type}.
Implicit Types l : list A.

Lemma len_nil : len (@nil A) = 0.
Proof. reflexivity. Qed.

Lemma len_cons (x : A) l : len (x :: l) = 1 + len l.
Proof. unfold len. simpl. lia. Qed.

Lemma len_app l k : len (l ++ k) = len l + len k.
Proof. unfold len. rewrite length_app. lia. Qed.

Lemma len_nonneg l : 0 <= len l.
Proof. unfold len. lia. Qed.

Lemma len_zero_iff l : len l = 0 <-> l = [].
Proof. unfold len. destruct l; simpl; split; intros; try done; lia. Qed.

Lemma len_take n l : len (take n l) = Z.min (Z.of_nat n) (len l).
Proof. unfold len. rewrite length_take. lia. Qed.

Lemma len_drop n l : len (drop n l) = Z.max 0 (len l - Z.of_nat n).
Proof. unfold len. rewrite length_drop. lia. Qed.
End len.

#[export] Hint Rewrite @len_nil @len_cons @len_app @len_take @len_drop : len.
#[export] Hint Resolve len_nonneg : syntra.

Lemma all_u8_app l k : all_u8 (l ++ k) = all_u8 l && all_u8 k.
Proof. apply forallb_app. Qed.

Lemma all_u8_cons x l : all_u8 (x :: l) = is_u8 x && all_u8 l.
Proof. reflexivity. Qed.

Lemma forallb_Forall {A} (f : A -> bool) l :
  forallb f l = true <-> Forall (fun x => f x = true) l.
Proof. by rewrite forallb_forall, List.Forall_forall. Qed.

Lemma existsb_Forall {A} (f : A -> bool) l :
  existsb f l = false <-> Forall (fun x => f x = false) l.
Proof.
  induction l as [|x l IH]; cbn; [done|]. by rewrite orb_false_iff, Forall_cons, IH.
Qed.

(** ** Checked arithmetic *)

Lemma checked_add_Some a b c : checked_add a b = Some c -> c = a + b /\ c <= u64_max.
Proof. unfold checked_add. destruct (Z.leb_spec (a + b) u64_max); intros [= <-]; auto. Qed.

Lemma ok_or_Ok {E A} (o : option A) (e : E) a : ok_or o e = Ok a -> o = Some a.
Proof. destruct o; cbn; congruence. Qed.

(** ** Rounded-up division *)

Lemma div_ceil_spec a b :
  0 <= a -> 0 < b -> b * (div_ceil a b - 1) < a + (if a =? 0 then 1 else 0) * b
                     /\ a <= b * div_ceil a b.
Proof.
  intros Ha Hb. unfold div_ceil.
  pose proof (Z.div_mod a b ltac:(lia)). pose proof (Z.mod_pos_bound a b Hb).
  destruct (Z.eqb_spec (a mod b) 0); destruct (Z.eqb_spec a 0); nia.
Qed.

Lemma div_ceil_pos a b : 0 < a -> 0 < b -> 0 < div_ceil a b.
Proof.
  intros Ha Hb. pose proof (div_ceil_spec a b ltac:(lia) Hb). nia.
Qed.

Lemma div_ceil_unique a b q :
  0 < a -> 0 < b -> b * (q - 1) < a <= b * q -> div_ceil a b = q.
Proof.
  intros Ha Hb Hq. pose proof (div_ceil_spec a b ltac:(lia) Hb) as Hs.
  destruct (Z.eqb_spec a 0); nia.
Qed.

(** ** Times *)

(** Each time is at least [period] after the one before, the first after
    [last]. *)
Fixpoint spaced_by (period last : Z) (times : list Z) : Prop :=
  match times with
  | [] => True
  | now :: times => last + period <= now /\ spaced_by period now times
  end.

(** ** Hash tables

    The iteration order of [HashMap] and [HashSet] is not specified: the code
    that iterates is modelled over every order. *)
Class HashOrder := {
  hash_order {A : Type} : list A -> list A;
  hash_order_perm {A : Type} (l : list A) : hash_order l ≡ₚ l;
}.

Lemma elem_of_hash_order `{!HashOrder} {A} (x : A) l : x ∈ hash_order l <-> x ∈ l.
Proof. by rewrite hash_order_perm. Qed.

(** One such order, to run examples. *)
#[local] Program Instance list_order : HashOrder := {
  hash_order := fun _ l => l;
}.
Next Obligation. done. Qed.
