(* ===== verification/Wire.v ===== *)
(** * Byte-level primitives of the peer protocol

    [crates/syntra-proto/src/wire.rs]: big-endian scalars, booleans and
    optional values.  A writer takes the buffer built so far and returns it
    extended ([&mut Vec<u8>]); a reader takes the rest of the datagram and
    returns the value with what is left ([&mut &[u8]]). *)

From S2P Require Import Prelude.

(** [ProtocolError] of [crates/syntra-proto/src/lib.rs]; an integer that is no
    [EventType] or [Position] is carried by the [TryFromPrimitiveError]. *)
Inductive ProtocolError : Type :=
| InvalidEventId (number : Z)
| InvalidPosition (number : Z)
| Truncated
| TooLarge (actual limit : Z)
| InvalidChunkCount (expected actual : Z)
| InvalidPath (path : rstring)
| InvalidManifest (why : string)
| LengthOverflow
| InvalidProgress (completed total : Z)
| TrailingBytes (count : Z)
| InvalidBoolean (value : Z)
| InvalidCancelReason (value : Z)
| InvalidFileChunk (why : string)
| InvalidHistory (why : string)
| InvalidProfile (why : string).

Definition presult := result ProtocolError.

(** ** Big-endian integers ([to_be_bytes], [from_be_bytes]) *)

Fixpoint to_be_bytes (n : nat) (v : Z) : bytes :=
  match n with
  | O => []
  | S m => Z.land (Z.shiftr v (8 * Z.of_nat m)) 255 :: to_be_bytes m v
  end.

Definition from_be_bytes (bs : bytes) : Z :=
  fold_left (fun acc b => acc * 256 + b) bs 0.

(** The two's complement reading of [i32::from_be_bytes]. *)
Definition to_signed32 (v : Z) : Z := if v <? 2 ^ 31 then v else v - 2 ^ 32.

(** ** UTF-8 ([std::str::from_utf8])

    The byte sequences of the Unicode standard (table 3-7), which is what
    [from_utf8] accepts. *)

Definition between (lo hi b : Z) : bool := (lo <=? b) && (b <=? hi).
Definition cont (b : Z) : bool := between 128 191 b.

Fixpoint utf8_valid (bs : bytes) : bool :=
  match bs with
  | [] => true
  | b0 :: r0 =>
      if between 0 127 b0 then utf8_valid r0
      else match r0 with
      | [] => false
      | b1 :: r1 =>
          if between 194 223 b0 then cont b1 && utf8_valid r1
          else match r1 with
          | [] => false
          | b2 :: r2 =>
              if between 224 239 b0 then
                (if b0 =? 224 then between 160 191 b1
                 else if b0 =? 237 then between 128 159 b1
                 else cont b1)
                && cont b2 && utf8_valid r2
              else match r2 with
              | [] => false
              | b3 :: r3 =>
                  between 240 244 b0
                  && (if b0 =? 240 then between 144 191 b1
                      else if b0 =? 244 then between 128 143 b1
                      else cont b1)
                  && cont b2 && cont b3 && utf8_valid r3
              end
          end
      end
  end.

(** [String::from_utf8] with its error mapped to [e]. *)
Definition from_utf8 (bs : bytes) (e : ProtocolError) : presult rstring :=
  if utf8_valid bs then Ok bs else Err e.

(** ** Readers *)

(** Splits [n] bytes off the front of the buffer. *)
Definition take_bytes (buf : bytes) (n : Z) : presult (bytes * bytes) :=
  fail_if len buf <? n with Truncated in
  Ok (take (Z.to_nat n) buf, drop (Z.to_nat n) buf).

Definition get_u8 (buf : bytes) : presult (Z * bytes) :=
  let* (v, buf) := take_bytes buf 1 in
  Ok (default 0 (head v), buf).

Definition get_u16 (buf : bytes) : presult (Z * bytes) :=
  let* (v, buf) := take_bytes buf 2 in
  Ok (from_be_bytes v, buf).

Definition get_u32 (buf : bytes) : presult (Z * bytes) :=
  let* (v, buf) := take_bytes buf 4 in
  Ok (from_be_bytes v, buf).

Definition get_u64 (buf : bytes) : presult (Z * bytes) :=
  let* (v, buf) := take_bytes buf 8 in
  Ok (from_be_bytes v, buf).

Definition get_i32 (buf : bytes) : presult (Z * bytes) :=
  let* (v, buf) := take_bytes buf 4 in
  Ok (to_signed32 (from_be_bytes v), buf).

(** An [f64] is its 64-bit pattern: [from_be_bytes] and [to_be_bytes] of [f64]
    are those of [to_bits]. *)
Definition get_f64 (buf : bytes) : presult (Z * bytes) :=
  let* (v, buf) := take_bytes buf 8 in
  Ok (from_be_bytes v, buf).

Definition get_bool (buf : bytes) : presult (bool * bytes) :=
  let* (v, buf) := get_u8 buf in
  if v =? 0 then Ok (false, buf)
  else if v =? 1 then Ok (true, buf)
  else Err (InvalidBoolean v).

Definition get_optional_u64 (buf : bytes) : presult (option Z * bytes) :=
  let* (present, buf) := get_bool buf in
  if present : bool then
    let* (v, buf) := get_u64 buf in
    Ok (Some v, buf)
  else Ok (None, buf).

Definition get_optional_string (buf : bytes) : presult (option rstring * bytes) :=
  let* (n, buf) := get_u16 buf in
  if n =? 0 then Ok (None, buf)
  else
    let* (raw, buf) := take_bytes buf n in
    let* value := from_utf8 raw (InvalidHistory "non-UTF-8 error string") in
    Ok (Some value, buf).

(** ** Writers *)

Definition put_u8 (buf : bytes) (v : Z) : bytes := buf ++ [v].
Definition put_u16 (buf : bytes) (v : Z) : bytes := buf ++ to_be_bytes 2 v.
Definition put_u32 (buf : bytes) (v : Z) : bytes := buf ++ to_be_bytes 4 v.
Definition put_u64 (buf : bytes) (v : Z) : bytes := buf ++ to_be_bytes 8 v.
Definition put_i32 (buf : bytes) (v : Z) : bytes := buf ++ to_be_bytes 4 v.
Definition put_f64 (buf : bytes) (v : Z) : bytes := buf ++ to_be_bytes 8 v.
(** [extend_from_slice] *)
Definition put_bytes (buf : bytes) (v : bytes) : bytes := buf ++ v.
Definition put_bool (buf : bytes) (v : bool) : bytes := put_u8 buf (Z.b2z v).

Definition put_optional_u64 (buf : bytes) (v : option Z) : bytes :=
  let buf := put_bool buf (bool_decide (is_Some v)) in
  match v with Some v => put_u64 buf v | None => buf end.

Definition put_optional_string (buf : bytes) (v : option rstring) : presult bytes :=
  match v with
  | None => Ok (put_u16 buf 0)
  | Some v =>
      fail_if (len v =? 0) || (65535 <? len v)
        with InvalidHistory "invalid error string" in
      Ok (put_bytes (put_u16 buf (len v)) v)
  end.

(** ** What a reader finds where a writer wrote *)

Lemma length_to_be_bytes n v : length (to_be_bytes n v) = n.
Proof. induction n; simpl; congruence. Qed.

Lemma len_to_be_bytes n v : len (to_be_bytes n v) = Z.of_nat n.
Proof. unfold len. by rewrite length_to_be_bytes. Qed.
#[export] Hint Rewrite len_to_be_bytes : len.

Lemma fold_be_acc bs acc :
  fold_left (fun acc b => acc * 256 + b) bs acc
  = acc * 256 ^ len bs + from_be_bytes bs.
Proof.
  unfold from_be_bytes. revert acc.
  induction bs as [|x bs IH]; intros acc; simpl.
  - rewrite len_nil. lia.
  - rewrite IH, (IH (0 * 256 + x)), len_cons, Z.pow_add_r by auto with syntra lia. lia.
Qed.

Lemma from_be_bytes_cons x bs :
  from_be_bytes (x :: bs) = x * 256 ^ len bs + from_be_bytes bs.
Proof. unfold from_be_bytes at 1. simpl. by rewrite fold_be_acc. Qed.

Lemma from_be_bytes_bound bs :
  all_u8 bs = true -> 0 <= from_be_bytes bs < 256 ^ len bs.
Proof.
  induction bs as [|x bs IH]; intros H.
  - cbv. by split.
  - rewrite all_u8_cons in H. boolsplit. specialize (IH ltac:(done)).
    rewrite from_be_bytes_cons, len_cons, Z.pow_add_r by auto with syntra lia.
    unfold is_uint in *. boolsplit. nia.
Qed.

Lemma to_be_bytes_head n v :
  Z.land (Z.shiftr v (8 * Z.of_nat n)) 255 = (v / 256 ^ Z.of_nat n) mod 256.
Proof.
  change 255 with (Z.ones 8).
  rewrite Z.land_ones, Z.shiftr_div_pow2, Z.pow_mul_r by lia. reflexivity.
Qed.

Lemma all_u8_to_be_bytes n v : all_u8 (to_be_bytes n v) = true.
Proof.
  induction n as [|n IH]; cbn [to_be_bytes]; [done|].
  rewrite all_u8_cons, IH, to_be_bytes_head.
  pose proof (Z.mod_pos_bound (v / 256 ^ Z.of_nat n) 256 ltac:(lia)).
  unfold is_uint. lia.
Qed.

Lemma from_to_be_bytes n v :
  from_be_bytes (to_be_bytes n v) = v mod 256 ^ Z.of_nat n.
Proof.
  induction n as [|n IH]; cbn [to_be_bytes].
  - rewrite Z.mod_1_r. reflexivity.
  - rewrite from_be_bytes_cons, len_to_be_bytes, IH, to_be_bytes_head.
    rewrite Nat2Z.inj_succ, Z.pow_succ_r, (Z.mul_comm 256) by lia.
    rewrite Z.rem_mul_r by lia. lia.
Qed.

Lemma to_be_bytes_mod n v w :
  v mod 256 ^ Z.of_nat n = w mod 256 ^ Z.of_nat n -> to_be_bytes n v = to_be_bytes n w.
Proof.
  induction n as [|n IH]; intros H; cbn [to_be_bytes]; [done|].
  rewrite Nat2Z.inj_succ, Z.pow_succ_r, (Z.mul_comm 256), !Z.rem_mul_r in H by lia.
  set (p := 256 ^ Z.of_nat n) in *. assert (0 < p) by (subst p; lia).
  assert (v mod p = w mod p) as Hp.
  { apply (f_equal (fun x => x mod p)) in H.
    rewrite !(Z.mul_comm p), !Z.mod_add, !Z.mod_mod in H by lia. done. }
  f_equal; [rewrite !to_be_bytes_head; fold p; nia | by apply IH].
Qed.

(** Re-encoding the integer read from [n] bytes gives the bytes back. *)
Lemma to_from_be_bytes bs :
  all_u8 bs = true -> to_be_bytes (length bs) (from_be_bytes bs) = bs.
Proof.
  induction bs as [|x bs IH]; intros H; [done|].
  rewrite all_u8_cons in H. apply andb_prop in H as [Hx H].
  pose proof (from_be_bytes_bound bs H).
  cbn [to_be_bytes length]. rewrite from_be_bytes_cons.
  f_equal.
  - rewrite to_be_bytes_head. change (Z.of_nat (length bs)) with (len bs).
    rewrite Z.div_add_l, Z.div_small, Z.add_0_r by lia.
    apply Z.mod_small. unfold is_uint in Hx. lia.
  - etransitivity; [apply to_be_bytes_mod | by apply IH].
    change (Z.of_nat (length bs)) with (len bs).
    by rewrite Z.add_comm, Z.mod_add by lia.
Qed.

#[global] Opaque to_be_bytes from_be_bytes.
#[global] Arguments take_bytes : simpl never.
#[global] Arguments Z.b2z : simpl never.

Lemma take_bytes_app n a r :
  n = len a -> take_bytes (a ++ r) n = Ok (a, r).
Proof.
  intros ->. unfold take_bytes, len. rewrite length_app, Nat2Z.id.
  destruct (Z.ltb_spec (Z.of_nat (length a + length r)) (Z.of_nat (length a))); [lia|].
  by rewrite take_app_length, drop_app_length.
Qed.

Lemma take_bytes_inv buf n a r :
  take_bytes buf n = Ok (a, r) -> 0 <= n -> buf = a ++ r /\ len a = n.
Proof.
  unfold take_bytes. intros H Hn. case_match; simplify_eq.
  rewrite take_drop, len_take. split; [done|].
  destruct (Z.ltb_spec (len buf) n); [done|]. lia.
Qed.

Lemma get_u8_cons v r : get_u8 (v :: r) = Ok (v, r).
Proof.
  change (v :: r) with ([v] ++ r). unfold get_u8. by rewrite take_bytes_app.
Qed.

Section get_put.
Context (n : nat) (v : Z) (r : bytes).

Lemma take_to_be_bytes :
  take_bytes (to_be_bytes n v ++ r) (Z.of_nat n) = Ok (to_be_bytes n v, r).
Proof. apply take_bytes_app. by rewrite len_to_be_bytes. Qed.

Lemma from_to_be_bytes_small :
  is_uint (8 * Z.of_nat n) v = true -> from_be_bytes (to_be_bytes n v) = v.
Proof.
  unfold is_uint. intros H. boolsplit. rewrite Z.pow_mul_r in * by lia.
  rewrite from_to_be_bytes, Z.mod_small; [done|].
  change (2 ^ 8) with 256 in *. lia.
Qed.
End get_put.

Lemma get_put_u16 v r : is_u16 v = true -> get_u16 (to_be_bytes 2 v ++ r) = Ok (v, r).
Proof.
  intros. unfold get_u16. rewrite (take_to_be_bytes 2).
  by rewrite from_to_be_bytes_small.
Qed.

Lemma get_put_u32 v r : is_u32 v = true -> get_u32 (to_be_bytes 4 v ++ r) = Ok (v, r).
Proof.
  intros. unfold get_u32. rewrite (take_to_be_bytes 4).
  by rewrite from_to_be_bytes_small.
Qed.

Lemma get_put_u64 v r : is_u64 v = true -> get_u64 (to_be_bytes 8 v ++ r) = Ok (v, r).
Proof.
  intros. unfold get_u64. rewrite (take_to_be_bytes 8).
  by rewrite from_to_be_bytes_small.
Qed.

Lemma get_put_f64 v r : is_u64 v = true -> get_f64 (to_be_bytes 8 v ++ r) = Ok (v, r).
Proof. exact (get_put_u64 v r). Qed.

Lemma get_put_i32 v r : is_i32 v = true -> get_i32 (to_be_bytes 4 v ++ r) = Ok (v, r).
Proof.
  intros H. unfold get_i32. rewrite (take_to_be_bytes 4), from_to_be_bytes.
  change (256 ^ Z.of_nat 4) with (2 ^ 32). unfold to_signed32, is_i32 in *.
  do 2 f_equal. boolsplit.
  destruct (Z.ltb_spec v 0).
  - rewrite <- (Z.mod_add v 1), Z.mod_small by lia.
    destruct (Z.ltb_spec (v + 1 * 2 ^ 32) (2 ^ 31)); lia.
  - rewrite Z.mod_small by lia. destruct (Z.ltb_spec v (2 ^ 31)); lia.
Qed.

Lemma get_put_bool (v : bool) r : get_bool (Z.b2z v :: r) = Ok (v, r).
Proof. unfold get_bool. rewrite get_u8_cons. by destruct v. Qed.

Lemma put_optional_u64_read buf v :
  default true (is_u64 <$> v) = true ->
  exists s, put_optional_u64 buf v = buf ++ s /\ get_optional_u64 s = Ok (v, []).
Proof.
  intros H. unfold put_optional_u64, put_bool, put_u8, put_u64, get_optional_u64.
  destruct v as [v|]; simpl in *.
  - rewrite <- app_assoc. eexists; split; [done|]. cbn [app].
    rewrite (get_put_bool true), <- (app_nil_r (to_be_bytes 8 v)), get_put_u64 by done. done.
  - eexists; split; [done|]. by rewrite (get_put_bool false).
Qed.

Lemma put_optional_string_read buf v bs :
  default true (utf8_valid <$> v) = true ->
  put_optional_string buf v = Ok bs ->
  exists s, bs = buf ++ s /\ get_optional_string s = Ok (v, []).
Proof.
  unfold put_optional_string, get_optional_string, put_bytes, put_u16.
  intros Hu H. destruct v as [v|]; inv_ok H; eexists; (split; [by rewrite <- ?app_assoc|]).
  - boolsplit. rewrite get_put_u16 by zbool.
    pose proof (len_nonneg v). destruct (Z.eqb_spec (len v) 0); [lia|].
    rewrite <- (app_nil_r v) at 1. rewrite take_bytes_app by done.
    unfold from_utf8. cbn in Hu. by rewrite Hu.
  - by rewrite <- (app_nil_r (to_be_bytes 2 0)), get_put_u16.
Qed.

(** ** What a reader consumed

    The value read is in the range of its type, and writing it gives back the
    bytes consumed. *)

Section read.
Context (buf r : bytes).
Hypothesis Hbuf : all_u8 buf = true.

Lemma take_bytes_read n a :
  0 <= n -> take_bytes buf n = Ok (a, r) ->
  buf = a ++ r /\ len a = n /\ all_u8 a = true /\ all_u8 r = true.
Proof using Hbuf.
  intros Hn H. apply take_bytes_inv in H as [-> Hl]; [|done].
  rewrite all_u8_app in Hbuf. boolsplit. done.
Qed.

Lemma read_be n a :
  take_bytes buf (Z.of_nat n) = Ok (a, r) ->
  buf = to_be_bytes n (from_be_bytes a) ++ r
  /\ is_uint (8 * Z.of_nat n) (from_be_bytes a) = true /\ all_u8 r = true.
Proof using Hbuf.
  intros H. apply take_bytes_read in H as (-> & Hl & Ha & Hr); [|lia].
  assert (length a = n) as <- by (unfold len in Hl; lia).
  rewrite to_from_be_bytes by done. split_and!; [done| |done].
  pose proof (from_be_bytes_bound a Ha). unfold len in *.
  unfold is_uint. rewrite Z.pow_mul_r by lia. change (2 ^ 8) with 256. zbool.
Qed.

Lemma get_u8_read v : get_u8 buf = Ok (v, r) -> buf = v :: r /\ is_u8 v = true /\ all_u8 r = true.
Proof using Hbuf.
  unfold get_u8. intros H. destruct (take_bytes buf 1) as [[a r']|] eqn:E; simplify_eq.
  apply take_bytes_read in E as (-> & Hl & Ha & Hr); [|lia].
  destruct a as [|x [|]]; unfold len in Hl; simpl in Hl; try lia.
  simpl in *. boolsplit. done.
Qed.

Lemma get_u16_read v :
  get_u16 buf = Ok (v, r) -> buf = to_be_bytes 2 v ++ r /\ is_u16 v = true /\ all_u8 r = true.
Proof using Hbuf. unfold get_u16. intros H. inv_ok H. by apply (read_be 2). Qed.

Lemma get_u32_read v :
  get_u32 buf = Ok (v, r) -> buf = to_be_bytes 4 v ++ r /\ is_u32 v = true /\ all_u8 r = true.
Proof using Hbuf. unfold get_u32. intros H. inv_ok H. by apply (read_be 4). Qed.

Lemma get_u64_read v :
  get_u64 buf = Ok (v, r) -> buf = to_be_bytes 8 v ++ r /\ is_u64 v = true /\ all_u8 r = true.
Proof using Hbuf. unfold get_u64. intros H. inv_ok H. by apply (read_be 8). Qed.

Lemma get_f64_read v :
  get_f64 buf = Ok (v, r) -> buf = to_be_bytes 8 v ++ r /\ is_u64 v = true /\ all_u8 r = true.
Proof using Hbuf. exact (get_u64_read v). Qed.

Lemma get_i32_read v :
  get_i32 buf = Ok (v, r) -> buf = to_be_bytes 4 v ++ r /\ is_i32 v = true /\ all_u8 r = true.
Proof using Hbuf.
  unfold get_i32. intros H. destruct (take_bytes buf 4) as [[b r']|] eqn:E; simplify_eq.
  apply (read_be 4) in E as (-> & Hv & Hr).
  change (8 * Z.of_nat 4) with 32 in Hv. unfold to_signed32, is_i32.
  split_and!; [f_equal; apply to_be_bytes_mod | | done];
    change (256 ^ Z.of_nat 4) with (2 ^ 32); case_match; [done| |zbool..].
  replace (from_be_bytes b - 2 ^ 32) with (from_be_bytes b + (-1) * 2 ^ 32) by lia.
  by rewrite Z.mod_add.
Qed.

Lemma get_bool_read (v : bool) :
  get_bool buf = Ok (v, r) -> buf = Z.b2z v :: r /\ all_u8 r = true.
Proof using Hbuf.
  unfold get_bool. intros H. inv_ok H; apply get_u8_read in Heqp as (-> & _ & Hr);
    match goal with E : (_ =? _) = true |- _ => apply Z.eqb_eq in E; subst end; done.
Qed.
End read.

(** The same with nothing after the value. *)
Lemma take_bytes_all n a : n = len a -> take_bytes a n = Ok (a, []).
Proof. intros ->. rewrite <- (app_nil_r a) at 1. by apply take_bytes_app. Qed.

Lemma get_put_u32_end v : is_u32 v = true -> get_u32 (to_be_bytes 4 v) = Ok (v, []).
Proof. rewrite <- (app_nil_r (to_be_bytes 4 v)). apply get_put_u32. Qed.

Lemma get_put_u64_end v : is_u64 v = true -> get_u64 (to_be_bytes 8 v) = Ok (v, []).
Proof. rewrite <- (app_nil_r (to_be_bytes 8 v)). apply get_put_u64. Qed.

Lemma get_put_f64_end v : is_u64 v = true -> get_f64 (to_be_bytes 8 v) = Ok (v, []).
Proof. exact (get_put_u64_end v). Qed.

Lemma get_put_i32_end v : is_i32 v = true -> get_i32 (to_be_bytes 4 v) = Ok (v, []).
Proof. rewrite <- (app_nil_r (to_be_bytes 4 v)). apply get_put_i32. Qed.

#[export] Hint Rewrite get_u8_cons get_put_bool : wire.
#[export] Hint Rewrite get_put_u16 get_put_u32 get_put_u64 get_put_f64 get_put_i32
  get_put_u32_end get_put_u64_end get_put_f64_end get_put_i32_end
  using (assumption || zbool) : wire.
#[export] Hint Rewrite take_bytes_app take_bytes_all
  using (first [reflexivity | assumption | symmetry; assumption | zbool]) : wire.

(** Inverts every reader that returned, in the order of the datagram. *)
Ltac read_step :=
  match goal with
  | A : all_u8 ?b = true, H : get_u8 ?b = Ok (?v, ?r) |- _ =>
      destruct (get_u8_read b r A v H) as (-> & ? & ?); clear H A
  | A : all_u8 ?b = true, H : get_u16 ?b = Ok (?v, ?r) |- _ =>
      destruct (get_u16_read b r A v H) as (-> & ? & ?); clear H A
  | A : all_u8 ?b = true, H : get_u32 ?b = Ok (?v, ?r) |- _ =>
      destruct (get_u32_read b r A v H) as (-> & ? & ?); clear H A
  | A : all_u8 ?b = true, H : get_u64 ?b = Ok (?v, ?r) |- _ =>
      destruct (get_u64_read b r A v H) as (-> & ? & ?); clear H A
  | A : all_u8 ?b = true, H : get_f64 ?b = Ok (?v, ?r) |- _ =>
      destruct (get_f64_read b r A v H) as (-> & ? & ?); clear H A
  | A : all_u8 ?b = true, H : get_i32 ?b = Ok (?v, ?r) |- _ =>
      destruct (get_i32_read b r A v H) as (-> & ? & ?); clear H A
  | A : all_u8 ?b = true, H : get_bool ?b = Ok (?v, ?r) |- _ =>
      destruct (get_bool_read b r A v H) as (-> & ?); clear H A
  | A : all_u8 ?b = true, H : take_bytes ?b ?n = Ok (?v, ?r) |- _ =>
      destruct (take_bytes_read b r A n v ltac:(zbool) H) as (-> & ? & ? & ?); clear H A
  end.
Ltac read_all := repeat read_step.

Lemma get_optional_u64_read buf v r :
  all_u8 buf = true -> get_optional_u64 buf = Ok (v, r) ->
  (forall pre, put_optional_u64 pre v ++ r = pre ++ buf)
  /\ default true (is_u64 <$> v) = true /\ all_u8 r = true.
Proof.
  intros Hbuf H. unfold get_optional_u64 in H. inv_ok H; read_all;
    (split_and!; [intros pre|done..]);
    cbn; unfold put_bool, put_u8, put_u64; by rewrite <- !app_assoc.
Qed.

Lemma get_optional_string_read buf v r :
  all_u8 buf = true -> get_optional_string buf = Ok (v, r) ->
  (forall pre, exists s, put_optional_string pre v = Ok s /\ s ++ r = pre ++ buf)
  /\ default true (utf8_valid <$> v) = true /\ all_u8 r = true.
Proof.
  intros Hbuf H. unfold get_optional_string, from_utf8 in H. inv_ok H; read_all;
    (split_and!; [intros pre|done..]); unfold put_optional_string.
  - replace z with 0 by lia. eexists; split; [done|]. unfold put_u16. by rewrite <- app_assoc.
  - subst z. match goal with |- context [if ?c then _ else _] => destruct c eqn:E end.
    { apply orb_prop in E as [|]; zbool. }
    eexists; split; [done|]. unfold put_bytes, put_u16. by rewrite <- !app_assoc.
Qed.
