(* ===== verification/ProtoTypes.v ===== *)
(** * The peer protocol: messages

    The data of [crates/syntra-proto/src/lib.rs] (limits, the message set
    [ProtoEvent] and its wire ids [EventType]) and of
    [crates/syntra-input-event/src/lib.rs] (the input events carried by it),
    with the type invariant of every message: each field in the range of its
    Rust type, strings valid UTF-8, byte arrays of their length. *)

From S2P Require Import Prelude Wire.

(** ** Limits *)

Definition MAX_DATAGRAM_SIZE : Z := 16 * 1024.
Definition CAP_RETURN_POSITION : Z := 1.
Definition MAX_CLIPBOARD_SIZE : Z := 64 * 1024 * 1024.
Definition CLIPBOARD_CHUNK_HEADER_SIZE : Z := 1 + 8 + 4.
Definition MAX_CLIPBOARD_CHUNK_SIZE : Z := MAX_DATAGRAM_SIZE - CLIPBOARD_CHUNK_HEADER_SIZE.
Definition MAX_CLIPBOARD_PATH_SIZE : Z := 1024.
Definition MAX_CLIPBOARD_MANIFEST_ENTRIES : Z := 256.
Definition CLIPBOARD_FILE_CHUNK_HEADER_SIZE : Z := 1 + 8 + 8 + 8 + 8.
Definition SAFE_DATAGRAM_SIZE : Z := 1200.
Definition MAX_CLIPBOARD_FILE_CHUNK_SIZE : Z :=
  SAFE_DATAGRAM_SIZE - CLIPBOARD_FILE_CHUNK_HEADER_SIZE.
Definition MAX_MANUAL_FILE_CHUNK_SIZE : Z := SAFE_DATAGRAM_SIZE - (1 + 8 + 8).
Definition MAX_MANUAL_FILE_NAME_SIZE : Z := 1024.
Definition MAX_MANUAL_FILE_ERROR_SIZE : Z := 512.
Definition MAX_HISTORY_RECORD_SIZE : Z := 48 * 1024 * 1024.
Definition HISTORY_CHUNK_HEADER_SIZE : Z := 1 + 8 + 8 + 4.
Definition MAX_HISTORY_CHUNK_SIZE : Z := SAFE_DATAGRAM_SIZE - HISTORY_CHUNK_HEADER_SIZE.
Definition MAX_HISTORY_BOUNDARY_ENTRIES : Z := 100.
Definition MAX_HISTORY_DEVICE_ID_SIZE : Z := 128.
Definition MAX_PROFILE_NAME_SIZE : Z := 128.
Definition MAX_PROFILE_SIZE : Z := 128 * 128 * 4.
Definition PROFILE_CHUNK_HEADER_SIZE : Z := 1 + 8 + 4.
Definition MAX_PROFILE_CHUNK_SIZE : Z := SAFE_DATAGRAM_SIZE - PROFILE_CHUNK_HEADER_SIZE.
Definition MAX_HANDOFF_TARGET : Z := 128.

(** Unfolds every limit, for [lia]. *)
Ltac limits :=
  unfold MAX_DATAGRAM_SIZE, MAX_CLIPBOARD_SIZE, MAX_CLIPBOARD_CHUNK_SIZE,
    CLIPBOARD_CHUNK_HEADER_SIZE, MAX_CLIPBOARD_PATH_SIZE,
    MAX_CLIPBOARD_MANIFEST_ENTRIES, MAX_CLIPBOARD_FILE_CHUNK_SIZE,
    CLIPBOARD_FILE_CHUNK_HEADER_SIZE, MAX_MANUAL_FILE_CHUNK_SIZE,
    MAX_MANUAL_FILE_NAME_SIZE, MAX_MANUAL_FILE_ERROR_SIZE,
    MAX_HISTORY_RECORD_SIZE, MAX_HISTORY_CHUNK_SIZE, HISTORY_CHUNK_HEADER_SIZE,
    MAX_HISTORY_BOUNDARY_ENTRIES, MAX_HISTORY_DEVICE_ID_SIZE,
    MAX_PROFILE_NAME_SIZE, MAX_PROFILE_SIZE, MAX_PROFILE_CHUNK_SIZE,
    PROFILE_CHUNK_HEADER_SIZE, MAX_HANDOFF_TARGET, SAFE_DATAGRAM_SIZE in *.

(** ** Enumerations and records *)

Module ManualDecision.
Inductive t := Pending | Accepted | Declined.
#[global] Instance t_eq_dec : EqDecision t.
Proof. solve_decision. Defined.
End ManualDecision.

Module ClipboardEntryKind.
Inductive t := File | Directory.
#[global] Instance t_eq_dec : EqDecision t.
Proof. solve_decision. Defined.
End ClipboardEntryKind.

Module ClipboardCancelReason.
Inductive t := User | IoError | Protocol.
#[global] Instance t_eq_dec : EqDecision t.
Proof. solve_decision. Defined.
End ClipboardCancelReason.

Module Position.
Inductive t := Left | Right | Top | Bottom.
#[global] Instance t_eq_dec : EqDecision t.
Proof. solve_decision. Defined.

(** [position as u8] *)
Definition to_u8 (p : t) : Z :=
  match p with Left => 0 | Right => 1 | Top => 2 | Bottom => 3 end.

(** [TryFromPrimitive] *)
Definition try_from (v : Z) : presult t :=
  if v =? 0 then Ok Left
  else if v =? 1 then Ok Right
  else if v =? 2 then Ok Top
  else if v =? 3 then Ok Bottom
  else Err (InvalidPosition v).

Lemma side_round_trip p : try_from (to_u8 p) = Ok p.
Proof. by destruct p. Qed.
End Position.

Record ClipboardManifestEntry := {
  entry_file_id : Z;
  entry_path : rstring;
  entry_kind : ClipboardEntryKind.t;
  entry_size : Z;
}.

Record ClipboardCapabilities := {
  cap_text : bool;
  cap_image : bool;
  cap_files : bool;
}.

(** ** Input events ([syntra-input-event]) *)

Module PointerEvent.
Inductive t :=
| Motion (time dx dy : Z)
| Button (time button state : Z)
| Axis (time axis value : Z)
| AxisDiscrete120 (axis value : Z).
End PointerEvent.

Module KeyboardEvent.
Inductive t :=
| Key (time key state : Z)
| Modifiers (depressed latched locked group : Z).
End KeyboardEvent.

Module InputEvent.
Inductive t :=
| Pointer (e : PointerEvent.t)
| Keyboard (e : KeyboardEvent.t).
End InputEvent.

(** ** The message set *)

Module ProtoEvent.
Inductive t :=
| Enter (side : Position.t)
| Leave (serial : Z)
| InputCapabilities (caps : Z)
| LeaveAt (along : Z)
| Handoff (target : rstring) (side : Position.t)
| EnterVia (side : Position.t) (via : rstring)
| EnterAt (side : Position.t) (along : Z)
| Ack (serial : Z)
| Input (event : InputEvent.t)
| Ping
| Pong (alive : bool)
| Hello (commit : bytes)
| ProfileChanged
| ProfileRequest (request_id : Z)
| ProfileStart (request_id width height total_len chunks : Z) (display_name : rstring)
| ProfileChunk (request_id index : Z) (data : bytes)
| ClipboardStart (transfer_id total_len chunks : Z)
| ClipboardImageStart (transfer_id width height total_len chunks : Z)
| ClipboardChunk (transfer_id index : Z) (data : bytes)
| ClipboardCaps (c : ClipboardCapabilities)
| ClipboardManifest (transfer_id : Z) (entries : list ClipboardManifestEntry)
| ClipboardFileRequest (transfer_id file_id request_id offset length : Z)
| ClipboardFileChunk (transfer_id file_id request_id offset : Z) (data : bytes)
| ClipboardFileComplete (transfer_id file_id request_id size : Z) (digest : bytes)
| ClipboardTransferCancel (transfer_id : Z) (file_id : option Z)
    (reason : ClipboardCancelReason.t)
| ClipboardTransferProgress (transfer_id file_id completed total : Z)
| HistorySyncRequest (request_id offset : Z)
| HistoryRecordStart (request_id record_id total_len chunks : Z)
| HistoryRecordChunk (request_id record_id index : Z) (data : bytes)
| ManualFileOffer (transfer_id : Z) (file_name : rstring) (size : Z)
| ManualFileDecision (transfer_id : Z) (decision : ManualDecision.t)
| ManualFileRequest (transfer_id offset length : Z)
| ManualFileChunk (transfer_id offset : Z) (data : bytes)
| ManualFileComplete (transfer_id : Z) (sha256 : bytes)
| ManualFileResult (transfer_id : Z) (success : bool) (error : option rstring)
| ManualFileCancel (transfer_id : Z)
| HistorySyncPageEnd (request_id : Z) (next_offset : option Z)
| HistoryClearBoundaryRequest (operation_id : bytes)
| HistoryClearBoundary (operation_id : bytes) (boundary : list (rstring * Z))
| HistoryClearApply (operation_id : bytes) (boundary : list (rstring * Z))
| HistoryClearAck (operation_id : bytes) (affected : Z) (error : option rstring).
End ProtoEvent.
Abbreviation ProtoEvent := ProtoEvent.t (only parsing).

(** ** Wire ids *)

Module EventType.
Inductive t :=
| PointerMotion | PointerButton | PointerAxis | PointerAxisValue120
| KeyboardKey | KeyboardModifiers | Ping | Pong | Enter | Leave | Ack | Hello
| ClipboardStart | ClipboardChunk | ClipboardImageStart | ClipboardCapabilities
| ClipboardManifest | ClipboardFileRequest | ClipboardFileChunk
| ClipboardFileComplete | ClipboardTransferCancel | ClipboardTransferProgress
| HistorySyncRequest | HistoryRecordStart | HistoryRecordChunk
| HistorySyncPageEnd | HistoryClearBoundaryRequest | HistoryClearBoundary
| HistoryClearApply | HistoryClearAck | ProfileStart | ProfileChunk
| ProfileRequest | ProfileChanged | ManualFileOffer | ManualFileDecision
| ManualFileRequest | ManualFileChunk | ManualFileComplete | ManualFileResult
| ManualFileCancel | Handoff | EnterVia | EnterAt | InputCapabilities | LeaveAt.

#[global] Instance t_eq_dec : EqDecision t.
Proof. solve_decision. Defined.

(** The variants in declaration order: [#[repr(u8)]] numbers them from zero. *)
Definition variants : list t :=
  [PointerMotion; PointerButton; PointerAxis; PointerAxisValue120;
   KeyboardKey; KeyboardModifiers; Ping; Pong; Enter; Leave; Ack; Hello;
   ClipboardStart; ClipboardChunk; ClipboardImageStart; ClipboardCapabilities;
   ClipboardManifest; ClipboardFileRequest; ClipboardFileChunk;
   ClipboardFileComplete; ClipboardTransferCancel; ClipboardTransferProgress;
   HistorySyncRequest; HistoryRecordStart; HistoryRecordChunk;
   HistorySyncPageEnd; HistoryClearBoundaryRequest; HistoryClearBoundary;
   HistoryClearApply; HistoryClearAck; ProfileStart; ProfileChunk;
   ProfileRequest; ProfileChanged; ManualFileOffer; ManualFileDecision;
   ManualFileRequest; ManualFileChunk; ManualFileComplete; ManualFileResult;
   ManualFileCancel; Handoff; EnterVia; EnterAt; InputCapabilities; LeaveAt].

(** [event_type as u8] *)
Definition to_u8 (ty : t) : Z :=
  Z.of_nat (default O (fst <$> list_find (eq ty) variants)).

(** [TryFromPrimitive] *)
Definition try_from (v : Z) : presult t :=
  match variants !! Z.to_nat v with
  | Some ty => if 0 <=? v then Ok ty else Err (InvalidEventId v)
  | None => Err (InvalidEventId v)
  end.

Lemma try_from_to_u8 ty : try_from (to_u8 ty) = Ok ty.
Proof. by destruct ty. Qed.

Lemma to_u8_inj ty ty' : to_u8 ty = to_u8 ty' -> ty = ty'.
Proof.
  intros H. apply (f_equal try_from) in H. rewrite !try_from_to_u8 in H. congruence.
Qed.

Lemma variants_to_u8 n ty : variants !! n = Some ty -> to_u8 ty = Z.of_nat n.
Proof. do 46 (destruct n as [|n]; [by intros [= <-]|]). done. Qed.

Lemma try_from_inv v ty : try_from v = Ok ty -> to_u8 ty = v.
Proof.
  unfold try_from. intros H. destruct (variants !! Z.to_nat v) eqn:E; [|done].
  destruct (Z.leb_spec 0 v); [|done]. injection H as <-.
  rewrite (variants_to_u8 _ _ E). lia.
Qed.
End EventType.

(** [ProtoEvent::event_type] *)
Definition event_type (e : ProtoEvent) : EventType.t :=
  match e with
  | ProtoEvent.Input (InputEvent.Pointer (PointerEvent.Motion _ _ _)) => EventType.PointerMotion
  | ProtoEvent.Input (InputEvent.Pointer (PointerEvent.Button _ _ _)) => EventType.PointerButton
  | ProtoEvent.Input (InputEvent.Pointer (PointerEvent.Axis _ _ _)) => EventType.PointerAxis
  | ProtoEvent.Input (InputEvent.Pointer (PointerEvent.AxisDiscrete120 _ _)) =>
      EventType.PointerAxisValue120
  | ProtoEvent.Input (InputEvent.Keyboard (KeyboardEvent.Key _ _ _)) => EventType.KeyboardKey
  | ProtoEvent.Input (InputEvent.Keyboard (KeyboardEvent.Modifiers _ _ _ _)) =>
      EventType.KeyboardModifiers
  | ProtoEvent.Ping => EventType.Ping
  | ProtoEvent.Pong _ => EventType.Pong
  | ProtoEvent.ClipboardCaps _ => EventType.ClipboardCapabilities
  | ProtoEvent.ClipboardManifest _ _ => EventType.ClipboardManifest
  | ProtoEvent.ClipboardFileRequest _ _ _ _ _ => EventType.ClipboardFileRequest
  | ProtoEvent.ClipboardFileChunk _ _ _ _ _ => EventType.ClipboardFileChunk
  | ProtoEvent.ClipboardFileComplete _ _ _ _ _ => EventType.ClipboardFileComplete
  | ProtoEvent.ClipboardTransferCancel _ _ _ => EventType.ClipboardTransferCancel
  | ProtoEvent.ClipboardTransferProgress _ _ _ _ => EventType.ClipboardTransferProgress
  | ProtoEvent.HistorySyncRequest _ _ => EventType.HistorySyncRequest
  | ProtoEvent.HistoryRecordStart _ _ _ _ => EventType.HistoryRecordStart
  | ProtoEvent.HistoryRecordChunk _ _ _ _ => EventType.HistoryRecordChunk
  | ProtoEvent.HistorySyncPageEnd _ _ => EventType.HistorySyncPageEnd
  | ProtoEvent.HistoryClearBoundaryRequest _ => EventType.HistoryClearBoundaryRequest
  | ProtoEvent.HistoryClearBoundary _ _ => EventType.HistoryClearBoundary
  | ProtoEvent.HistoryClearApply _ _ => EventType.HistoryClearApply
  | ProtoEvent.HistoryClearAck _ _ _ => EventType.HistoryClearAck
  | ProtoEvent.Enter _ => EventType.Enter
  | ProtoEvent.Leave _ => EventType.Leave
  | ProtoEvent.Handoff _ _ => EventType.Handoff
  | ProtoEvent.EnterVia _ _ => EventType.EnterVia
  | ProtoEvent.EnterAt _ _ => EventType.EnterAt
  | ProtoEvent.InputCapabilities _ => EventType.InputCapabilities
  | ProtoEvent.LeaveAt _ => EventType.LeaveAt
  | ProtoEvent.Ack _ => EventType.Ack
  | ProtoEvent.Hello _ => EventType.Hello
  | ProtoEvent.ClipboardStart _ _ _ => EventType.ClipboardStart
  | ProtoEvent.ClipboardImageStart _ _ _ _ _ => EventType.ClipboardImageStart
  | ProtoEvent.ProfileRequest _ => EventType.ProfileRequest
  | ProtoEvent.ProfileChanged => EventType.ProfileChanged
  | ProtoEvent.ProfileStart _ _ _ _ _ _ => EventType.ProfileStart
  | ProtoEvent.ProfileChunk _ _ _ => EventType.ProfileChunk
  | ProtoEvent.ClipboardChunk _ _ _ => EventType.ClipboardChunk
  | ProtoEvent.ManualFileOffer _ _ _ => EventType.ManualFileOffer
  | ProtoEvent.ManualFileDecision _ _ => EventType.ManualFileDecision
  | ProtoEvent.ManualFileRequest _ _ _ => EventType.ManualFileRequest
  | ProtoEvent.ManualFileChunk _ _ _ => EventType.ManualFileChunk
  | ProtoEvent.ManualFileComplete _ _ => EventType.ManualFileComplete
  | ProtoEvent.ManualFileResult _ _ _ => EventType.ManualFileResult
  | ProtoEvent.ManualFileCancel _ => EventType.ManualFileCancel
  end.

(** ** The type invariant of a message *)

(** [[u8; n]] *)
Definition is_array (n : Z) (a : bytes) : bool := (len a =? n) && all_u8 a.
(** [Option<A>] *)
Definition is_option {A} (p : A -> bool) (o : option A) : bool := default true (p <$> o).

Definition wf_entry (e : ClipboardManifestEntry) : bool :=
  is_u64 (entry_file_id e) && utf8_valid (entry_path e) && is_u64 (entry_size e).

Definition wf_boundary (b : list (rstring * Z)) : bool :=
  forallb (fun '(device, sequence) => utf8_valid device && is_u64 sequence) b.

Definition wf_input (e : InputEvent.t) : bool :=
  match e with
  | InputEvent.Pointer (PointerEvent.Motion time dx dy) =>
      is_u32 time && is_u64 dx && is_u64 dy
  | InputEvent.Pointer (PointerEvent.Button time button state) =>
      is_u32 time && is_u32 button && is_u32 state
  | InputEvent.Pointer (PointerEvent.Axis time axis value) =>
      is_u32 time && is_u8 axis && is_u64 value
  | InputEvent.Pointer (PointerEvent.AxisDiscrete120 axis value) =>
      is_u8 axis && is_i32 value
  | InputEvent.Keyboard (KeyboardEvent.Key time key state) =>
      is_u32 time && is_u32 key && is_u8 state
  | InputEvent.Keyboard (KeyboardEvent.Modifiers depressed latched locked group) =>
      is_u32 depressed && is_u32 latched && is_u32 locked && is_u32 group
  end.

Definition wf_event (e : ProtoEvent) : bool :=
  match e with
  | ProtoEvent.Enter _ | ProtoEvent.Ping | ProtoEvent.Pong _
  | ProtoEvent.ProfileChanged | ProtoEvent.ClipboardCaps _ => true
  | ProtoEvent.Leave v | ProtoEvent.Ack v | ProtoEvent.InputCapabilities v
  | ProtoEvent.LeaveAt v | ProtoEvent.EnterAt _ v => is_u32 v
  | ProtoEvent.Handoff s _ | ProtoEvent.EnterVia _ s => utf8_valid s
  | ProtoEvent.Input e => wf_input e
  | ProtoEvent.Hello commit => is_array 8 commit
  | ProtoEvent.ProfileRequest id | ProtoEvent.ManualFileCancel id
  | ProtoEvent.ManualFileDecision id _ => is_u64 id
  | ProtoEvent.ProfileStart id width height total chunks name =>
      is_u64 id && is_u32 width && is_u32 height && is_u32 total && is_u32 chunks
      && utf8_valid name
  | ProtoEvent.ProfileChunk id index data | ProtoEvent.ClipboardChunk id index data =>
      is_u64 id && is_u32 index && all_u8 data
  | ProtoEvent.ClipboardStart id total chunks => is_u64 id && is_u32 total && is_u32 chunks
  | ProtoEvent.ClipboardImageStart id width height total chunks =>
      is_u64 id && is_u32 width && is_u32 height && is_u32 total && is_u32 chunks
  | ProtoEvent.ClipboardManifest id entries => is_u64 id && forallb wf_entry entries
  | ProtoEvent.ClipboardFileRequest id file request offset length =>
      is_u64 id && is_u64 file && is_u64 request && is_u64 offset && is_u64 length
  | ProtoEvent.ClipboardFileChunk id file request offset data =>
      is_u64 id && is_u64 file && is_u64 request && is_u64 offset && all_u8 data
  | ProtoEvent.ClipboardFileComplete id file request size digest =>
      is_u64 id && is_u64 file && is_u64 request && is_u64 size && is_array 32 digest
  | ProtoEvent.ClipboardTransferCancel id file _ => is_u64 id && is_option is_u64 file
  | ProtoEvent.ClipboardTransferProgress id file completed total =>
      is_u64 id && is_u64 file && is_u64 completed && is_u64 total
  | ProtoEvent.HistorySyncRequest id offset => is_u64 id && is_u64 offset
  | ProtoEvent.HistoryRecordStart id record total chunks =>
      is_u64 id && is_u64 record && is_u32 total && is_u32 chunks
  | ProtoEvent.HistoryRecordChunk id record index data =>
      is_u64 id && is_u64 record && is_u32 index && all_u8 data
  | ProtoEvent.ManualFileOffer id name size => is_u64 id && utf8_valid name && is_u64 size
  | ProtoEvent.ManualFileRequest id offset length => is_u64 id && is_u64 offset && is_u32 length
  | ProtoEvent.ManualFileChunk id offset data => is_u64 id && is_u64 offset && all_u8 data
  | ProtoEvent.ManualFileComplete id sha256 => is_u64 id && is_array 32 sha256
  | ProtoEvent.ManualFileResult id _ error => is_u64 id && is_option utf8_valid error
  | ProtoEvent.HistorySyncPageEnd id next => is_u64 id && is_option is_u64 next
  | ProtoEvent.HistoryClearBoundaryRequest op => is_array 16 op
  | ProtoEvent.HistoryClearBoundary op b | ProtoEvent.HistoryClearApply op b =>
      is_array 16 op && wf_boundary b
  | ProtoEvent.HistoryClearAck op affected error =>
      is_array 16 op && is_u64 affected && is_option utf8_valid error
  end.
