(* ===== verification/ProtoValid.v ===== *)
(** * The peer protocol: validation

    The validators of [crates/syntra-proto/src/lib.rs] that both directions of
    the codec run, the portable file names and relative paths they admit, and
    the chunk validator a receiver keeps per outstanding range request. *)

From S2P Require Import Prelude Wire ProtoTypes.

(** ** String operations of the standard library, on UTF-8 bytes *)

Definition SLASH : Z := 47.
Definition BACKSLASH : Z := 92.
Definition COLON : Z := 58.
Definition DOT : Z := 46.
Definition SPACE : Z := 32.

Definition contains (c : Z) (s : rstring) : bool := existsb (Z.eqb c) s.
Definition starts_with (c : Z) (s : rstring) : bool :=
  match s with x :: _ => x =? c | [] => false end.
Definition ends_with (c : Z) (s : rstring) : bool :=
  match last s with Some x => x =? c | None => false end.
Definition is_ascii_control (b : Z) : bool := (b <? 32) || (b =? 127).

(** [str::split] at an ASCII character: never empty, the pieces in order. *)
Fixpoint split (c : Z) (s : rstring) : list rstring :=
  match s with
  | [] => [[]]
  | x :: s =>
      if x =? c then [] :: split c s
      else match split c s with
           | piece :: rest => (x :: piece) :: rest
           | [] => [[x]]
           end
  end.

(** [trim_end_matches] of one ASCII character. *)
Fixpoint trim_start_matches (c : Z) (s : rstring) : rstring :=
  match s with
  | x :: s' => if x =? c then trim_start_matches c s' else s
  | [] => []
  end.
Definition trim_end_matches (c : Z) (s : rstring) : rstring :=
  rev (trim_start_matches c (rev s)).

Definition to_ascii_lowercase (b : Z) : Z := if between 65 90 b then b + 32 else b.
Definition eq_ignore_ascii_case (s t : rstring) : bool :=
  bool_decide (to_ascii_lowercase <$> s = to_ascii_lowercase <$> t).

(** [is_char_boundary], [str::get(..n)] and [str::get(n..)]. *)
Definition is_char_boundary (s : rstring) (n : nat) : bool :=
  match n with
  | O => true
  | _ => match s !! n with
         | Some b => negb (cont b)
         | None => bool_decide (n = length s)
         end
  end.
Definition get_to (s : rstring) (n : nat) : option rstring :=
  if is_char_boundary s n then Some (take n s) else None.
Definition get_from (s : rstring) (n : nat) : option rstring :=
  if is_char_boundary s n then Some (drop n s) else None.

Definition str_eqb (s t : rstring) : bool := bool_decide (s = t).

(** ** Portable file names *)

Definition forbidden_name_byte (b : Z) : bool :=
  existsb (Z.eqb b) (str "<>:|?*" ++ [34]).

(** ["¹" | "²" | "³"] are the two-byte sequences C2 B9, C2 B2 and C2 B3. *)
Definition device_suffixes : list rstring :=
  [str "1"; str "2"; str "3"; str "4"; str "5"; str "6"; str "7"; str "8"; str "9";
   [194; 185]; [194; 178]; [194; 179]].

Definition reserved_stem (stem : rstring) : bool :=
  existsb (eq_ignore_ascii_case stem) [str "CON"; str "PRN"; str "AUX"; str "NUL"]
  || match get_to stem 3 with
     | Some prefix =>
         (eq_ignore_ascii_case prefix (str "COM") || eq_ignore_ascii_case prefix (str "LPT"))
         && match get_from stem 3 with
            | Some suffix => existsb (str_eqb suffix) device_suffixes
            | None => false
            end
     | None => false
     end.

Definition validate_manual_file_name (name : rstring) : presult unit :=
  fail_if (len name =? 0)
          || (MAX_MANUAL_FILE_NAME_SIZE <? len name)
          || str_eqb name (str ".")
          || str_eqb name (str "..")
          || starts_with SLASH name
          || contains SLASH name
          || contains BACKSLASH name
          || ends_with DOT name
          || ends_with SPACE name
          || existsb (fun b => (b =? 0) || is_ascii_control b) name
          || existsb forbidden_name_byte name
    with InvalidPath name in
  let stem := trim_end_matches SPACE (default name (head (split DOT name))) in
  fail_if reserved_stem stem with InvalidPath name in
  Ok tt.

(** ** Relative paths of a clipboard manifest *)

Definition validate_path (path : rstring) : presult unit :=
  fail_if MAX_CLIPBOARD_PATH_SIZE <? len path
    with TooLarge (len path) MAX_CLIPBOARD_PATH_SIZE in
  fail_if (len path =? 0)
          || starts_with SLASH path
          || ends_with SLASH path
          || existsb (fun byte => (byte =? BACKSLASH) || (byte =? COLON) || (byte =? 0)) path
    with InvalidPath path in
  fail_if existsb (fun part => (len part =? 0) || str_eqb part (str ".") || str_eqb part (str ".."))
            (split SLASH path)
    with InvalidPath path in
  Ok tt.

(** ** Sizes, ranges and chunk counts *)

Definition validate_history_start (total_len chunks : Z) : presult unit :=
  fail_if (total_len =? 0) || (MAX_HISTORY_RECORD_SIZE <? total_len)
    with TooLarge total_len MAX_HISTORY_RECORD_SIZE in
  let expected := div_ceil total_len MAX_HISTORY_CHUNK_SIZE in
  fail_if negb (chunks =? expected) with InvalidChunkCount expected chunks in
  Ok tt.

Definition validate_clipboard_start (total_len chunks : Z) : presult unit :=
  fail_if MAX_CLIPBOARD_SIZE <? total_len with TooLarge total_len MAX_CLIPBOARD_SIZE in
  let expected := if total_len =? 0 then 0 else div_ceil total_len MAX_CLIPBOARD_CHUNK_SIZE in
  fail_if negb (chunks =? expected) with InvalidChunkCount expected chunks in
  Ok tt.

Definition validate_file_position (value : Z) : presult unit :=
  fail_if MAX_CLIPBOARD_SIZE <? value with TooLarge value MAX_CLIPBOARD_SIZE in
  Ok tt.

Definition validate_file_chunk (offset data_len : Z) : presult unit :=
  fail_if data_len =? 0 with InvalidFileChunk "empty chunk" in
  fail_if MAX_CLIPBOARD_FILE_CHUNK_SIZE <? data_len
    with TooLarge data_len MAX_CLIPBOARD_FILE_CHUNK_SIZE in
  let* _ := validate_file_position offset in
  let* end_ := ok_or (checked_add offset data_len) LengthOverflow in
  validate_file_position end_.

Definition validate_progress (completed total : Z) : presult unit :=
  let* _ := validate_file_position total in
  fail_if total <? completed with InvalidProgress completed total in
  Ok tt.

Definition get_nonzero_file_id (buf : bytes) : presult (Z * bytes) :=
  let* (v, buf) := get_u64 buf in
  fail_if v =? 0 with InvalidFileChunk "zero file id" in
  Ok (v, buf).

Definition get_nonzero_request_id (buf : bytes) : presult (Z * bytes) :=
  let* (v, buf) := get_u64 buf in
  fail_if v =? 0 with InvalidFileChunk "zero request id" in
  Ok (v, buf).

Definition validate_clipboard_image (width height total_len chunks : Z) : presult unit :=
  let* expected_len :=
    ok_or (pixels ← checked_mul width height; checked_mul pixels 4)
          (TooLarge usize_max MAX_CLIPBOARD_SIZE) in
  fail_if negb (expected_len =? total_len) with TooLarge total_len expected_len in
  validate_clipboard_start total_len chunks.

Definition validate_ids (file_id request_id : Z) : presult unit :=
  fail_if file_id =? 0 with InvalidFileChunk "zero file id" in
  fail_if request_id =? 0 with InvalidFileChunk "zero request id" in
  Ok tt.

Definition validate_request (offset length : Z) : presult unit :=
  let* _ := validate_file_position offset in
  fail_if (length =? 0) || (MAX_CLIPBOARD_FILE_CHUNK_SIZE <? length)
    with InvalidFileChunk "invalid request length" in
  let* end_ := ok_or (checked_add offset length) LengthOverflow in
  validate_file_position end_.

(** ** The chunk validator of one range request *)

Record ClipboardFileChunkValidator := {
  v_transfer_id : Z;
  v_file_id : Z;
  v_request_id : Z;
  v_offset : Z;
  v_length : Z;
  v_chunk_received : bool;
  v_chunk_end : option Z;
  v_eof : bool;
  v_complete : bool;
}.

Module ChunkValidator.

Definition new (transfer_id file_id request_id offset length : Z)
    : presult ClipboardFileChunkValidator :=
  fail_if file_id =? 0 with InvalidFileChunk "zero file id" in
  let* _ := validate_request offset length in
  fail_if request_id =? 0 with InvalidFileChunk "zero request id" in
  Ok {| v_transfer_id := transfer_id; v_file_id := file_id; v_request_id := request_id;
        v_offset := offset; v_length := length; v_chunk_received := false;
        v_chunk_end := None; v_eof := false; v_complete := false |}.

(** [(transfer_id, file_id, request_id) != (self...)] *)
Definition same_identity (v : ClipboardFileChunkValidator) (transfer_id file_id request_id : Z) : bool :=
  (transfer_id =? v_transfer_id v) && (file_id =? v_file_id v) && (request_id =? v_request_id v).

Definition validate_chunk (v : ClipboardFileChunkValidator)
    (transfer_id file_id request_id offset data_len : Z)
    : presult ClipboardFileChunkValidator :=
  fail_if v_complete v || v_chunk_received v with InvalidFileChunk "duplicate chunk" in
  fail_if negb (same_identity v transfer_id file_id request_id)
    with InvalidFileChunk "unexpected transfer identity" in
  fail_if negb (offset =? v_offset v) with InvalidFileChunk "unexpected offset" in
  let* _ := validate_file_chunk offset data_len in
  fail_if v_length v <? data_len with InvalidFileChunk "chunk exceeds requested length" in
  let* chunk_end := ok_or (checked_add offset data_len) LengthOverflow in
  Ok {| v_transfer_id := v_transfer_id v; v_file_id := v_file_id v;
        v_request_id := v_request_id v; v_offset := v_offset v; v_length := v_length v;
        v_chunk_received := true; v_chunk_end := Some chunk_end;
        v_eof := data_len <? v_length v; v_complete := v_complete v |}.

Definition validate_complete (v : ClipboardFileChunkValidator)
    (transfer_id file_id request_id size : Z) : presult ClipboardFileChunkValidator :=
  fail_if v_complete v with InvalidFileChunk "duplicate completion" in
  fail_if negb (same_identity v transfer_id file_id request_id)
    with InvalidFileChunk "unexpected transfer identity" in
  let* _ :=
    if v_chunk_received v then
      fail_if negb (v_eof v) || negb (bool_decide (v_chunk_end v = Some size))
        with InvalidFileChunk "inconsistent completion size" in
      Ok tt
    else
      fail_if negb (size =? v_offset v)
        with InvalidFileChunk "completion before end of file" in
      Ok tt in
  let* _ := validate_file_position size in
  Ok {| v_transfer_id := v_transfer_id v; v_file_id := v_file_id v;
        v_request_id := v_request_id v; v_offset := v_offset v; v_length := v_length v;
        v_chunk_received := v_chunk_received v; v_chunk_end := v_chunk_end v;
        v_eof := v_eof v; v_complete := true |}.

End ChunkValidator.
