(* ===== verification/ProtoSafety.v ===== *)
(** * The peer protocol: what validation guarantees

    A manifest path accepted from a peer names a file strictly below the
    receive directory, an accepted manual file name is one portable component,
    and the messages a chunk validator accepts for a range request are one
    chunk, then one matching completion. *)

From S2P Require Import Prelude Wire ProtoTypes ProtoValid.

(** ** Paths *)

(** The components of [p] joined by [/]. *)
Fixpoint join (c : Z) (parts : list rstring) : rstring :=
  match parts with
  | [] => []
  | [part] => part
  | part :: rest => part ++ c :: join c rest
  end.

(** Lexical resolution of a relative path below the directory [root]: what the
    operating system makes of the components, [..] leaving a directory. *)
Definition resolve (root : list rstring) (path : rstring) : list rstring :=
  fold_left (fun dir part =>
      if (len part =? 0) || str_eqb part (str ".") then dir
      else if str_eqb part (str "..") then take (pred (length dir)) dir
      else dir ++ [part])
    (split SLASH path) root.

Definition path_byte (b : Z) : bool :=
  negb ((b =? BACKSLASH) || (b =? COLON) || (b =? 0)).

Definition safe_component (part : rstring) : bool :=
  negb (len part =? 0) && negb (str_eqb part (str ".")) && negb (str_eqb part (str ".."))
  && negb (contains SLASH part) && forallb path_byte part.

Section split_join.
Context (c : Z).
Implicit Types s part : rstring.

Lemma split_nonempty s : split c s <> [].
Proof. destruct s as [|x s]; cbn; [done|]. destruct (x =? c), (split c s); done. Qed.

Lemma join_cons part rest :
  rest <> [] -> join c (part :: rest) = part ++ c :: join c rest.
Proof. by destruct rest. Qed.

Lemma join_split s : join c (split c s) = s.
Proof.
  induction s as [|x s IH]; [done|]. cbn [split]. pose proof (split_nonempty s).
  destruct (Z.eqb_spec x c) as [->|].
  - rewrite join_cons by done. by rewrite IH.
  - destruct (split c s) as [|part rest] eqn:E; [done|]. destruct rest.
    + cbn in *. by rewrite IH.
    + rewrite join_cons in * by done. rewrite <- IH. done.
Qed.

Lemma split_part part : contains c part = false -> split c part = [part].
Proof.
  induction part as [|x part IH]; [done|]. unfold contains. cbn. intros H. boolsplit.
  destruct (Z.eqb_spec x c); [lia|]. by rewrite IH.
Qed.

Lemma split_app part s :
  contains c part = false -> split c (part ++ c :: s) = part :: split c s.
Proof.
  induction part as [|x part IH]; unfold contains; cbn; intros H; [by rewrite Z.eqb_refl|].
  boolsplit. destruct (Z.eqb_spec x c); [lia|]. by rewrite IH.
Qed.

Lemma split_join parts :
  parts <> [] -> Forall (fun part => contains c part = false) parts ->
  split c (join c parts) = parts.
Proof.
  intros Hne H. induction H as [|part rest Hp Hrest IH]; [done|].
  destruct (decide (rest = [])) as [->|Hr].
  - by apply split_part.
  - rewrite join_cons, split_app by done. by rewrite IH.
Qed.

Lemma split_no_sep s : Forall (fun part => contains c part = false) (split c s).
Proof.
  induction s as [|x s IH]; cbn; [by repeat constructor|].
  destruct (Z.eqb_spec x c); [by constructor|].
  destruct (split c s) as [|part rest]; [by repeat constructor; unfold contains; cbn; boolgoal; [lia|]|].
  apply Forall_cons in IH as [Hp Hr]. constructor; [|done].
  unfold contains in *. cbn. boolgoal; [lia | done].
Qed.

Lemma forallb_join f parts :
  f c = true -> forallb f (join c parts) = forallb (forallb f) parts.
Proof.
  intros Hc. induction parts as [|part rest IH]; [done|]. destruct (decide (rest = [])) as [->|Hr].
  - cbn. by rewrite andb_true_r.
  - rewrite join_cons by done. rewrite forallb_app. cbn [forallb]. by rewrite Hc, IH.
Qed.

Definition plain (part : rstring) : Prop := part <> [] /\ contains c part = false.

Lemma plain_ends part : plain part -> starts_with c part = false /\ ends_with c part = false.
Proof.
  intros [Hne Hc]. split.
  - destruct part as [|x part]; [done|]. unfold contains in Hc. cbn in *. boolsplit. lia.
  - unfold ends_with. destruct (last part) as [x|] eqn:E; [|done].
    apply last_Some_elem_of in E. unfold contains in Hc.
    destruct (Z.eqb_spec x c) as [->|]; [|done]. rewrite <- Hc. symmetry.
    apply existsb_exists. exists c. rewrite <- list_elem_of_In. split; [done | lia].
Qed.

Lemma join_ends parts :
  parts <> [] -> Forall plain parts ->
  join c parts <> [] /\ starts_with c (join c parts) = false
  /\ ends_with c (join c parts) = false.
Proof.
  intros Hne H. induction H as [|part rest Hp Hrest IH]; [done|].
  destruct (plain_ends part Hp) as [Hs He]. destruct Hp as [Hpne _].
  destruct (decide (rest = [])) as [->|Hr]; [by cbn|].
  destruct (IH Hr) as (Hj & _ & Hend). rewrite join_cons by done. split_and!.
  - by destruct part.
  - by destruct part.
  - unfold ends_with in *. rewrite last_app. destruct (join c rest); [done|].
    change (last (c :: z :: l)) with (last (z :: l)). by destruct (last (z :: l)).
Qed.
End split_join.

Lemma existsb_negb {A} (f g : A -> bool) l :
  (forall x, g x = negb (f x)) -> existsb f l = negb (forallb g l).
Proof.
  intros H. induction l as [|x l IH]; [done|]. cbn. rewrite IH, H. by destruct (f x), (forallb g l).
Qed.

Lemma safe_component_plain part : safe_component part = true -> plain SLASH part.
Proof.
  unfold safe_component. intros H. boolsplit. split; [|done]. intros ->. discriminate.
Qed.

Definition safe_parts (parts : list rstring) : Prop :=
  parts <> [] /\ Forall (fun part => safe_component part = true) parts.

Lemma safe_parts_plain parts : safe_parts parts -> parts <> [] /\ Forall (plain SLASH) parts.
Proof. intros [Hne H]. split; [done|]. eapply Forall_impl; [done | apply safe_component_plain]. Qed.

Lemma forallb_split f s : f SLASH = true ->
  forallb f s = forallb (forallb f) (split SLASH s).
Proof. intros H. rewrite <- (join_split SLASH s) at 1. by apply forallb_join. Qed.

(** The path checks, in terms of the components. *)
Lemma safe_parts_checks path :
  safe_parts (split SLASH path) <->
    existsb (fun byte => (byte =? BACKSLASH) || (byte =? COLON) || (byte =? 0)) path = false
    /\ existsb (fun part => (len part =? 0) || str_eqb part (str ".") || str_eqb part (str ".."))
         (split SLASH path) = false.
Proof.
  unfold safe_parts.
  rewrite (existsb_negb _ path_byte), (forallb_split path_byte) by done.
  rewrite (existsb_negb _ (fun part => negb ((len part =? 0) || str_eqb part (str ".")
    || str_eqb part (str "..")))) by done.
  rewrite !negb_false_iff, !forallb_forall. setoid_rewrite <- list_elem_of_In.
  rewrite Forall_forall. pose proof (split_no_sep SLASH path) as Hsep. rewrite Forall_forall in Hsep.
  split.
  - intros [_ H]. split; intros part Hp; specialize (H part Hp); unfold safe_component in H;
      boolsplit; [done | by rewrite_bools].
  - intros [H1 H2]. split; [apply split_nonempty|]. intros part Hp. unfold safe_component.
    specialize (H1 part Hp). specialize (H2 part Hp). specialize (Hsep part Hp). cbn in Hsep.
    boolsplit. by rewrite_bools.
Qed.

Lemma validate_path_parts path :
  validate_path path = Ok tt <->
  len path <= MAX_CLIPBOARD_PATH_SIZE /\ safe_parts (split SLASH path).
Proof.
  rewrite safe_parts_checks. unfold validate_path.
  destruct (Z.ltb_spec MAX_CLIPBOARD_PATH_SIZE (len path)); [split; [done|lia]|]. split.
  - intros H'. inv_ok H'. boolsplit. done.
  - intros (_ & Hb & Hp). pose proof (proj2 (safe_parts_checks path) (conj Hb Hp)) as Hsafe.
    apply safe_parts_plain in Hsafe as [Hne Hplain].
    destruct (join_ends SLASH _ Hne Hplain) as (Hj & Hs & He). rewrite join_split in *.
    rewrite Hs, He, Hb, Hp. destruct (Z.eqb_spec (len path) 0) as [E|]; [|done].
    by apply len_zero_iff in E.
Qed.

Lemma resolve_safe root path :
  safe_parts (split SLASH path) -> resolve root path = root ++ split SLASH path.
Proof.
  intros [_ H]. unfold resolve. revert root. induction H as [|part rest Hp Hrest IH];
    intros root; cbn [fold_left]; [by rewrite app_nil_r|].
  unfold safe_component in Hp. boolsplit.
  rewrite_bools. cbn [orb]. rewrite IH. by rewrite <- app_assoc.
Qed.

(** C6: paths of a clipboard manifest.  [validate_path] accepts exactly the
    [/]-separated sequences of components that are not empty, not [.] or [..]
    and free of [\], [:] and NUL, of at most 1024 bytes; and resolving an
    accepted path from any directory gives the file named by those components
    below that directory, at least one level down: no accepted manifest writes
    outside, or over, the directory it is received into. *)
Theorem validate_path_contained path :
  (validate_path path = Ok tt <->
    len path <= MAX_CLIPBOARD_PATH_SIZE
    /\ exists parts, safe_parts parts /\ path = join SLASH parts)
  /\ (validate_path path = Ok tt ->
      forall root, exists part rest,
        resolve root path = root ++ part :: rest
        /\ forallb safe_component (part :: rest) = true).
Proof.
  rewrite validate_path_parts. split.
  - split; intros [Hl H]; (split; [done|]).
    + exists (split SLASH path). by rewrite join_split.
    + destruct H as (parts & Hs & ->). rewrite split_join; [done | apply Hs |].
      apply safe_parts_plain in Hs as [_ Hs]. eapply Forall_impl; [done|]. by intros part [].
  - intros [_ Hs] root. rewrite (resolve_safe root path Hs).
    destruct Hs as [Hne Hs]. destruct (split SLASH path) as [|part rest]; [done|].
    exists part, rest. split; [done|].
    by apply forallb_Forall.
Qed.

Lemma validate_path_contained_witness :
  resolve [str "inbox"] (str "photos/2024/a.png")
    = [str "inbox"; str "photos"; str "2024"; str "a.png"]
  /\ exists part rest, resolve [str "inbox"] (str "photos/2024/a.png")
       = [str "inbox"] ++ part :: rest
       /\ forallb safe_component (part :: rest) = true.
Proof.
  split; [vm_compute; reflexivity|].
  apply (proj2 (validate_path_contained (str "photos/2024/a.png"))).
  vm_compute; reflexivity.
Defined.

(** ** Manual file names *)

Definition devices : list rstring :=
  [str "CON"; str "PRN"; str "AUX"; str "NUL"]
  ++ (app (str "COM") <$> device_suffixes) ++ (app (str "LPT") <$> device_suffixes).

(** What the receiver may assume of a manual file name. *)
Definition portable_name (name : rstring) : Prop :=
  split SLASH name = [name] /\ resolve [] name = [name] /\ resolve [] name <> []
  /\ Forall (fun b => 32 <= b /\ b <> 127 /\ b <> BACKSLASH /\ b <> COLON) name
  /\ ends_with DOT name = false /\ ends_with SPACE name = false
  /\ 0 < len name <= MAX_MANUAL_FILE_NAME_SIZE.

Lemma accepted_name_portable name :
  validate_manual_file_name name = Ok tt -> portable_name name.
Proof.
  unfold validate_manual_file_name, portable_name. intros H. inv_ok H. clear Heqb0. boolsplit.
  assert (split SLASH name = [name]) as E by (by apply split_part).
  assert (resolve [] name = [name]) as ER.
  { unfold resolve. rewrite E. cbn [fold_left]. by rewrite_bools. }
  rewrite ER. split_and!; try done; try zbool.
  repeat match goal with U : contains _ _ = false |- _ => unfold contains in U end.
  rewrite !existsb_Forall in *. rewrite !Forall_forall in *. intros b Hb.
  repeat match goal with U : forall x, _ -> _ = false |- _ => specialize (U b Hb); cbn beta in U end.
  match goal with F : forbidden_name_byte b = false |- _ =>
    change (existsb (Z.eqb b) [60; 62; 58; 124; 63; 42; 34] = false) in F; cbn [existsb] in F end.
  unfold is_ascii_control, COLON in *. boolsplit. lia.
Qed.

Lemma to_ascii_lowercase_fixed x y :
  to_ascii_lowercase x = y -> between 97 122 y = false -> x = y.
Proof. unfold to_ascii_lowercase, between. destruct (_ && _) eqn:E; lia. Qed.

Lemma lowercase_fixed s t :
  to_ascii_lowercase <$> s = t -> Forall (fun y => between 97 122 y = false) t -> s = t.
Proof.
  intros <- H. induction s as [|x s IH]; [done|]. apply Forall_cons in H as [Hx Hs].
  cbn. f_equal; [by eapply to_ascii_lowercase_fixed | by apply IH].
Qed.

Lemma eq_ignore_ascii_case_refl_dot base d :
  eq_ignore_ascii_case base d = true -> In d devices -> contains DOT base = false
  /\ contains SPACE base = false /\ base <> [].
Proof.
  unfold eq_ignore_ascii_case. rewrite bool_decide_eq_true. intros E Hd.
  assert (forall c, c = DOT \/ c = SPACE -> contains c base = contains c (to_ascii_lowercase <$> d)) as Hc.
  { intros c Hc. rewrite <- E. clear E. induction base as [|x base IH]; [done|].
    unfold contains in *. cbn. rewrite IH. f_equal.
    unfold to_ascii_lowercase, between, DOT, SPACE in *. destruct (_ && _) eqn:?; lia. }
  rewrite !Hc by auto.
  assert (Forall (fun d => contains DOT (to_ascii_lowercase <$> d) = false
    /\ contains SPACE (to_ascii_lowercase <$> d) = false /\ (to_ascii_lowercase <$> d) <> []) devices) as HF
    by (vm_compute; repeat constructor; discriminate).
  rewrite List.Forall_forall in HF. destruct (HF d Hd) as (? & ? & Hne). split_and!; [done..|].
  intros ->. by apply Hne.
Qed.

Lemma port_char_boundary base suffix :
  drop 3 base = suffix -> In suffix device_suffixes -> is_char_boundary base 3 = true.
Proof.
  intros Hs Hin. cbn [is_char_boundary].
  replace (base !! 3%nat) with (suffix !! O) by (by rewrite <- Hs, lookup_drop).
  assert (Forall (fun s => match s !! O with Some b => negb (cont b) | None => false end = true)
    device_suffixes) as HF by (vm_compute; repeat constructor).
  rewrite List.Forall_forall in HF. specialize (HF suffix Hin). by destruct (suffix !! O).
Qed.

Lemma reserved_port base prefix suffix :
  In prefix [str "COM"; str "LPT"] -> In suffix device_suffixes ->
  eq_ignore_ascii_case base (prefix ++ suffix) = true -> reserved_stem base = true.
Proof.
  unfold eq_ignore_ascii_case at 1. rewrite bool_decide_eq_true, fmap_app. intros Hp Hs E.
  assert (length (to_ascii_lowercase <$> prefix) = 3%nat) as H3
    by (by destruct Hp as [<-|[<-|[]]]).
  assert (drop 3 base = suffix) as Hd.
  { assert (Forall (fun s => to_ascii_lowercase <$> s = s
      /\ Forall (fun y => between 97 122 y = false) s) device_suffixes) as HF
      by (vm_compute; repeat constructor).
    rewrite List.Forall_forall in HF. destruct (HF suffix Hs) as [Hfix Hlow].
    apply lowercase_fixed; [|done]. rewrite fmap_drop, E, <- H3, drop_app_length. done. }
  assert (eq_ignore_ascii_case (take 3 base) prefix = true) as Ht.
  { unfold eq_ignore_ascii_case. apply bool_decide_eq_true.
    by rewrite fmap_take, E, <- H3, take_app_length. }
  unfold reserved_stem, get_to, get_from. rewrite (port_char_boundary base suffix Hd Hs).
  apply orb_true_intro. right. apply andb_true_intro. split.
  - destruct Hp as [<-|[<-|[]]]; rewrite Ht; [done | by rewrite orb_true_r].
  - apply existsb_exists. exists suffix. split; [done|]. unfold str_eqb. by apply bool_decide_eq_true.
Qed.

Lemma reserved_stem_device base d :
  eq_ignore_ascii_case base d = true -> In d devices -> reserved_stem base = true.
Proof.
  unfold devices. rewrite !in_app_iff. intros E [Hd|[Hd|Hd]].
  - unfold reserved_stem. apply orb_true_intro. left. apply existsb_exists. eauto.
  - apply in_map_iff in Hd as (suffix & <- & Hs). eapply reserved_port; [..|exact E]; cbn; auto.
  - apply in_map_iff in Hd as (suffix & <- & Hs). eapply reserved_port; [..|exact E]; cbn; auto.
Qed.

Lemma trim_end_spaces base n :
  contains SPACE base = false -> trim_end_matches SPACE (base ++ repeat SPACE n) = base.
Proof.
  intros H. unfold trim_end_matches. rewrite rev_app_distr, rev_repeat.
  induction n as [|n IH]; cbn [repeat app trim_start_matches]; [|exact IH].
  destruct (rev base) as [|x r] eqn:E.
  - rewrite <- (rev_involutive base), E. done.
  - cbn [trim_start_matches]. destruct (Z.eqb_spec x SPACE) as [->|].
    + exfalso. unfold contains in H. rewrite existsb_Forall, List.Forall_forall in H.
      specialize (H SPACE). rewrite in_rev, E in H. by specialize (H (or_introl eq_refl)).
    + by rewrite <- E, rev_involutive.
Qed.

Lemma device_name_rejected base d n tail :
  In d devices -> eq_ignore_ascii_case base d = true -> (tail = [] \/ exists ext, tail = DOT :: ext) ->
  is_ok (validate_manual_file_name (base ++ repeat SPACE n ++ tail)) = false.
Proof.
  intros Hd E Ht. destruct (eq_ignore_ascii_case_refl_dot base d E Hd) as (Hdot & Hsp & _).
  unfold validate_manual_file_name.
  match goal with |- context [if ?c then Err _ else _] => destruct c end; [done|].
  assert (contains DOT (base ++ repeat SPACE n) = false) as Hdn.
  { unfold contains in *. rewrite existsb_app, Hdot. cbn. by induction n. }
  assert (head (split DOT (base ++ repeat SPACE n ++ tail)) = Some (base ++ repeat SPACE n)) as ->.
  { rewrite app_assoc. destruct Ht as [->|[ext ->]].
    - by rewrite app_nil_r, split_part.
    - by rewrite split_app. }
  unfold default, from_option, id. rewrite trim_end_spaces by done.
  by rewrite (reserved_stem_device base d).
Qed.

(** Names of manually sent files.  An accepted name is one path component
    (it resolves to a file directly inside the download directory) without
    control bytes, separators or drive colon and without a trailing dot or
    space; and no name that Windows reads as a device is accepted: the device
    names in any letter case, followed by spaces, alone or with any extension. *)
Theorem validate_manual_file_name_portable name :
  (validate_manual_file_name name = Ok tt -> portable_name name)
  /\ (forall base d n tail, In d devices -> eq_ignore_ascii_case base d = true ->
      (tail = [] \/ exists ext, tail = DOT :: ext) -> name = base ++ repeat SPACE n ++ tail ->
      is_ok (validate_manual_file_name name) = false).
Proof.
  split; [apply accepted_name_portable|]. intros base d n tail Hd E Ht ->.
  by apply (device_name_rejected base d).
Qed.

Lemma validate_manual_file_name_portable_witness :
  portable_name (str "report 1.tar.gz")
  /\ is_ok (validate_manual_file_name (str "cOm1  .txt")) = false.
Proof.
  split.
  - apply (proj1 (validate_manual_file_name_portable (str "report 1.tar.gz"))).
    vm_compute; reflexivity.
  - apply (proj2 (validate_manual_file_name_portable (str "cOm1  .txt"))
      (str "cOm1") (str "COM1") 2%nat (str ".txt")).
    + vm_compute. tauto.
    + vm_compute. reflexivity.
    + right. exists (str "txt"). reflexivity.
    + reflexivity.
Defined.

(** ** The chunk validator of a range request *)

Inductive range_message :=
| RangeChunk (transfer_id file_id request_id offset data_len : Z)
| RangeComplete (transfer_id file_id request_id size : Z).

Definition validate_message (v : ClipboardFileChunkValidator) (m : range_message)
    : presult ClipboardFileChunkValidator :=
  match m with
  | RangeChunk t f r offset data_len => ChunkValidator.validate_chunk v t f r offset data_len
  | RangeComplete t f r size => ChunkValidator.validate_complete v t f r size
  end.

(** The messages accepted out of a sequence a peer sends; a refused message
    leaves the validator as it was. *)
Fixpoint accepted_messages (v : ClipboardFileChunkValidator) (ms : list range_message)
    : list range_message :=
  match ms with
  | [] => []
  | m :: ms =>
      match validate_message v m with
      | Ok v' => m :: accepted_messages v' ms
      | Err _ => accepted_messages v ms
      end
  end.

(** The three phases of a validator. *)
Inductive phase (v : ClipboardFileChunkValidator) : option Z -> bool -> Prop :=
| waiting : v_chunk_received v = false -> v_complete v = false -> phase v None false
| received n : v_chunk_received v = true -> v_complete v = false ->
    0 < n <= v_length v -> v_chunk_end v = Some (v_offset v + n) ->
    v_eof v = (n <? v_length v) -> phase v (Some n) false
| completed n : v_complete v = true -> phase v n true.

Definition same_range (v w : ClipboardFileChunkValidator) : Prop :=
  v_transfer_id v = v_transfer_id w /\ v_file_id v = v_file_id w
  /\ v_request_id v = v_request_id w /\ v_offset v = v_offset w /\ v_length v = v_length w.

Lemma same_identity_eq v t f r :
  ChunkValidator.same_identity v t f r = true ->
  t = v_transfer_id v /\ f = v_file_id v /\ r = v_request_id v.
Proof. unfold ChunkValidator.same_identity. intros H. boolsplit. lia. Qed.

Ltac validator_inv H :=
  unfold ChunkValidator.validate_chunk, ChunkValidator.validate_complete in H;
  inv_ok H; boolsplit;
  match goal with E : ChunkValidator.same_identity _ _ _ _ = true |- _ =>
    apply same_identity_eq in E as (-> & -> & ->) end.

Lemma validate_chunk_accepts v t f r offset n v' :
  0 <= n ->
  ChunkValidator.validate_chunk v t f r offset n = Ok v' ->
  RangeChunk t f r offset n
    = RangeChunk (v_transfer_id v) (v_file_id v) (v_request_id v) (v_offset v) n
  /\ v_chunk_received v = false /\ v_complete v = false /\ 0 < n <= v_length v
  /\ same_range v v' /\ phase v' (Some n) false.
Proof.
  intros Hn H. validator_inv H.
  assert (n <> 0) by (match goal with E : validate_file_chunk _ _ = _ |- _ =>
    unfold validate_file_chunk in E; inv_ok E; lia end).
  match goal with E : ok_or (checked_add _ _) _ = Ok _ |- _ =>
    apply ok_or_Ok, checked_add_Some in E as [-> _] end.
  assert (offset = v_offset v) as -> by lia.
  unfold same_range. split_and!; cbn; try done; try lia.
  apply received; cbn; try done; try lia.
Qed.

Lemma validate_complete_accepts v c t f r size v' :
  phase v c false ->
  ChunkValidator.validate_complete v t f r size = Ok v' ->
  RangeComplete t f r size
    = RangeComplete (v_transfer_id v) (v_file_id v) (v_request_id v)
        (v_offset v + default 0 c)
  /\ default true ((fun n => n <? v_length v) <$> c) = true
  /\ phase v' c true.
Proof.
  intros Hp H. validator_inv H; inversion Hp; subst; try congruence;
    (split_and!; [| | by constructor]); cbn.
  - apply bool_decide_eq_true in H0. congruence.
  - congruence.
  - f_equal. lia.
  - done.
Qed.

(** [data_len] is a [usize]. *)
Definition wf_message (m : range_message) : bool :=
  match m with RangeChunk _ _ _ _ data_len => 0 <=? data_len | RangeComplete _ _ _ _ => true end.

Lemma accepted_completed v c ms : phase v c true -> accepted_messages v ms = [].
Proof.
  intros Hp. inversion Hp as [| |? Hc]; subst.
  induction ms as [|[] ms IH]; [done|..]; cbn [accepted_messages validate_message];
    unfold ChunkValidator.validate_chunk, ChunkValidator.validate_complete; rewrite Hc; done.
Qed.

Lemma accepted_received v n ms :
  phase v (Some n) false ->
  accepted_messages v ms = []
  \/ n < v_length v /\ accepted_messages v ms =
      [RangeComplete (v_transfer_id v) (v_file_id v) (v_request_id v) (v_offset v + n)].
Proof.
  intros Hp. induction ms as [|m ms IH]; [by left|]. cbn [accepted_messages].
  destruct (validate_message v m) as [v'|e] eqn:E; [|exact IH]. right.
  destruct m; cbn [validate_message] in E.
  - unfold ChunkValidator.validate_chunk in E. inversion Hp as [|? Hr| ]; subst.
    rewrite Hr, orb_true_r in E. discriminate.
  - destruct (validate_complete_accepts _ _ _ _ _ _ _ Hp E) as (-> & Hn & Hc).
    rewrite (accepted_completed v' _ ms Hc). cbn in *. split; [lia | done].
Qed.

(** A range request accepts one answer.  Whatever messages a peer sends for
    an outstanding request, in whatever order and however often, the validator
    accepts one of: nothing; one chunk at the requested offset, not longer than
    requested; such a chunk that is shorter than requested, then one completion
    whose size is where the chunk ended; or, without a chunk, one completion
    whose size is the requested offset. *)
Theorem range_request_language t f r offset length v ms :
  ChunkValidator.new t f r offset length = Ok v -> forallb wf_message ms = true ->
  let chunk n := RangeChunk t f r offset n in
  let complete size := RangeComplete t f r size in
  accepted_messages v ms = []
  \/ accepted_messages v ms = [complete offset]
  \/ exists n, 0 < n <= length /\
      (accepted_messages v ms = [chunk n]
       \/ n < length /\ accepted_messages v ms = [chunk n; complete (offset + n)]).
Proof.
  intros Hnew Hms chunk complete. unfold ChunkValidator.new in Hnew. inv_ok Hnew.
  match goal with |- context [accepted_messages ?v _] => set (w := v) end.
  assert (phase w None false) as Hp by (by constructor).
  induction ms as [|m ms IH]; [by left|]. cbn [forallb accepted_messages] in *. boolsplit.
  destruct (validate_message w m) as [v'|e] eqn:E; [|by apply IH].
  destruct m; cbn [validate_message wf_message] in *; right.
  - right. apply validate_chunk_accepts in E
      as (-> & _ & _ & Hn & (Ht & Hf & Hr & Ho & Hl) & Hp'); [|lia]. subst w. cbn in *.
    exists data_len. split; [done|].
    destruct (accepted_received v' _ ms Hp') as [->|[Hlt ->]]; [by left|]. right.
    rewrite <- Ht, <- Hf, <- Hr, <- Ho. cbn. split; [lia | done].
  - left. destruct (validate_complete_accepts w _ _ _ _ _ _ Hp E) as (-> & _ & Hc).
    rewrite (accepted_completed v' _ ms Hc). cbn. by rewrite Z.add_0_r.
Qed.

Definition sample_validator : ClipboardFileChunkValidator :=
  {| v_transfer_id := 1; v_file_id := 2; v_request_id := 3; v_offset := 100; v_length := 50;
     v_chunk_received := false; v_chunk_end := None; v_eof := false; v_complete := false |}.
Definition sample_messages : list range_message :=
  [RangeChunk 1 2 3 99 50; RangeChunk 1 2 3 100 20; RangeChunk 1 2 3 100 20;
   RangeComplete 1 2 3 150; RangeComplete 1 2 3 120].

Lemma range_request_language_witness :
  accepted_messages sample_validator sample_messages
    = [RangeChunk 1 2 3 100 20; RangeComplete 1 2 3 120]
  /\ (accepted_messages sample_validator sample_messages = []
      \/ accepted_messages sample_validator sample_messages = [RangeComplete 1 2 3 100]
      \/ exists n, 0 < n <= 50 /\
         (accepted_messages sample_validator sample_messages = [RangeChunk 1 2 3 100 n]
          \/ n < 50 /\ accepted_messages sample_validator sample_messages
               = [RangeChunk 1 2 3 100 n; RangeComplete 1 2 3 (100 + n)])).
Proof.
  split; [vm_compute; reflexivity|].
  apply (range_request_language 1 2 3 100 50 sample_validator sample_messages);
    vm_compute; reflexivity.
Defined.
