(* ===== verification/ProtoEncode.v ===== *)
(** * The peer protocol: the encoder

    [ProtoEvent::encode] of [crates/syntra-proto/src/lib.rs].  Each arm of its
    [match] that validates or loops is a definition of its own, taking the
    buffer that already holds the event id. *)

From S2P Require Import Prelude Wire ProtoTypes ProtoValid.

Definition zero_transfer_id : ProtocolError := InvalidFileChunk "zero transfer id".

(** ** Manual file transfers *)

Definition encode_manual_offer (buf : bytes) (transfer_id : Z) (file_name : rstring) (size : Z) : presult bytes :=
  fail_if transfer_id =? 0 with zero_transfer_id in
  let* _ := validate_manual_file_name file_name in
  let buf := put_u64 buf transfer_id in
  let buf := put_u16 buf (len file_name) in
  let buf := put_bytes buf file_name in
  Ok (put_u64 buf size).

Definition manual_decision_to_u8 (d : ManualDecision.t) : Z :=
  match d with
  | ManualDecision.Pending => 0
  | ManualDecision.Accepted => 1
  | ManualDecision.Declined => 2
  end.

Definition encode_manual_decision (buf : bytes) (transfer_id : Z) (decision : ManualDecision.t) : presult bytes :=
  fail_if transfer_id =? 0 with zero_transfer_id in
  Ok (put_u8 (put_u64 buf transfer_id) (manual_decision_to_u8 decision)).

Definition encode_manual_request (buf : bytes) (transfer_id offset length : Z) : presult bytes :=
  fail_if (transfer_id =? 0) || negb (between 1 MAX_MANUAL_FILE_CHUNK_SIZE length)
    with InvalidFileChunk "invalid manual request" in
  Ok (put_u32 (put_u64 (put_u64 buf transfer_id) offset) length).

Definition encode_manual_chunk (buf : bytes) (transfer_id offset : Z) (data : bytes) : presult bytes :=
  fail_if (transfer_id =? 0) || (len data =? 0) || (MAX_MANUAL_FILE_CHUNK_SIZE <? len data)
    with InvalidFileChunk "invalid manual chunk" in
  Ok (put_bytes (put_u64 (put_u64 buf transfer_id) offset) data).

Definition encode_manual_complete (buf : bytes) (transfer_id : Z) (sha256 : bytes) : presult bytes :=
  fail_if transfer_id =? 0 with zero_transfer_id in
  Ok (put_bytes (put_u64 buf transfer_id) sha256).

(** [error.as_ref().is_some_and(|e| e.len() > MAX_MANUAL_FILE_ERROR_SIZE)] *)
Definition oversized_error (error : option rstring) : bool :=
  match error with Some e => MAX_MANUAL_FILE_ERROR_SIZE <? len e | None => false end.

Definition encode_manual_result (buf : bytes) (transfer_id : Z) (success : bool) (error : option rstring)
    : presult bytes :=
  fail_if transfer_id =? 0 with zero_transfer_id in
  fail_if oversized_error error
    with TooLarge (len (default [] error)) MAX_MANUAL_FILE_ERROR_SIZE in
  let buf := put_bool (put_u64 buf transfer_id) success in
  put_optional_string buf error.

Definition encode_manual_cancel (buf : bytes) (transfer_id : Z) : presult bytes :=
  fail_if transfer_id =? 0 with zero_transfer_id in
  Ok (put_u64 buf transfer_id).

(** ** Input events *)

Definition encode_input (buf : bytes) (e : InputEvent.t) : bytes :=
  match e with
  | InputEvent.Pointer (PointerEvent.Motion time dx dy) =>
      put_f64 (put_f64 (put_u32 buf time) dx) dy
  | InputEvent.Pointer (PointerEvent.Button time button state) =>
      put_u32 (put_u32 (put_u32 buf time) button) state
  | InputEvent.Pointer (PointerEvent.Axis time axis value) =>
      put_f64 (put_u8 (put_u32 buf time) axis) value
  | InputEvent.Pointer (PointerEvent.AxisDiscrete120 axis value) =>
      put_i32 (put_u8 buf axis) value
  | InputEvent.Keyboard (KeyboardEvent.Key time key state) =>
      put_u8 (put_u32 (put_u32 buf time) key) state
  | InputEvent.Keyboard (KeyboardEvent.Modifiers depressed latched locked group) =>
      put_u32 (put_u32 (put_u32 (put_u32 buf depressed) latched) locked) group
  end.

(** [Handoff { target, side } | EnterVia { side, via: target }]: the target is
    cut to [MAX_HANDOFF_TARGET] bytes. *)
Definition encode_handoff (buf : bytes) (side : Position.t) (target : rstring) : bytes :=
  let n := Z.min (len target) MAX_HANDOFF_TARGET in
  let buf := put_u8 buf (Position.to_u8 side) in
  put_bytes (put_u16 buf n) (take (Z.to_nat n) target).

(** ** Profiles *)

(** [width.checked_mul(height).and_then(|v| v.checked_mul(4))] *)
Definition profile_pixels (width height : Z) : option Z :=
  v ← checked_mul width height; checked_mul v 4.

(** The metadata test shared by both directions of [ProfileStart]. *)
Definition invalid_profile_metadata (name_len width height total_len chunks : Z) : bool :=
  let empty := (width =? 0) && (height =? 0) && (total_len =? 0) && (chunks =? 0) in
  let pixels := profile_pixels width height in
  (MAX_PROFILE_NAME_SIZE <? name_len)
  || (128 <? width) || (128 <? height)
  || (MAX_PROFILE_SIZE <? total_len)
  || (negb empty && ((chunks =? 0) || negb (bool_decide (pixels = Some total_len))))
  || (empty && negb (bool_decide (pixels = Some 0))).

Definition encode_profile_request (buf : bytes) (request_id : Z) : presult bytes :=
  fail_if request_id =? 0 with InvalidProfile "zero request id" in
  Ok (put_u64 buf request_id).

Definition encode_profile_start (buf : bytes) (request_id width height total_len chunks : Z)
    (display_name : rstring) : presult bytes :=
  fail_if (request_id =? 0)
          || invalid_profile_metadata (len display_name) width height total_len chunks
    with InvalidProfile "invalid profile metadata" in
  let buf := put_u64 buf request_id in
  let buf := put_u32 (put_u32 buf width) height in
  let buf := put_u32 (put_u32 buf total_len) chunks in
  Ok (put_bytes (put_u8 buf (len display_name)) display_name).

Definition encode_profile_chunk (buf : bytes) (request_id index : Z) (data : bytes) : presult bytes :=
  fail_if (request_id =? 0) || (len data =? 0) || (MAX_PROFILE_CHUNK_SIZE <? len data)
    with TooLarge (PROFILE_CHUNK_HEADER_SIZE + len data) SAFE_DATAGRAM_SIZE in
  Ok (put_bytes (put_u32 (put_u64 buf request_id) index) data).

(** ** Clipboard *)

Definition encode_clipboard_start (buf : bytes) (transfer_id total_len chunks : Z) : presult bytes :=
  let* _ := validate_clipboard_start total_len chunks in
  Ok (put_u32 (put_u32 (put_u64 buf transfer_id) total_len) chunks).

Definition encode_clipboard_image_start (buf : bytes) (transfer_id width height total_len chunks : Z)
    : presult bytes :=
  let* _ := validate_clipboard_image width height total_len chunks in
  let buf := put_u32 (put_u32 (put_u64 buf transfer_id) width) height in
  Ok (put_u32 (put_u32 buf total_len) chunks).

Definition encode_clipboard_chunk (buf : bytes) (transfer_id index : Z) (data : bytes) : presult bytes :=
  let actual := CLIPBOARD_CHUNK_HEADER_SIZE + len data in
  fail_if MAX_DATAGRAM_SIZE <? actual with TooLarge actual MAX_DATAGRAM_SIZE in
  Ok (put_bytes (put_u32 (put_u64 buf transfer_id) index) data).

Definition encode_clipboard_caps (buf : bytes) (c : ClipboardCapabilities) : bytes :=
  put_bool (put_bool (put_bool buf (cap_text c)) (cap_image c)) (cap_files c).

Definition is_directory (k : ClipboardEntryKind.t) : bool :=
  bool_decide (k = ClipboardEntryKind.Directory).

(** One round of the loop of [encode_manifest], with the variables [previous]
    and [total] it carries. *)
Fixpoint encode_entries (buf : bytes) (previous total : Z) (entries : list ClipboardManifestEntry)
    : presult bytes :=
  match entries with
  | [] => Ok buf
  | entry :: entries =>
      let* _ := validate_path (entry_path entry) in
      fail_if (entry_file_id entry =? 0) || (entry_file_id entry <=? previous)
        with InvalidManifest "file ids must increase" in
      let* total := ok_or (checked_add total (entry_size entry)) LengthOverflow in
      fail_if MAX_CLIPBOARD_SIZE <? total with TooLarge usize_max MAX_CLIPBOARD_SIZE in
      fail_if is_directory (entry_kind entry) && negb (entry_size entry =? 0)
        with InvalidManifest "directory size" in
      let buf := put_u64 buf (entry_file_id entry) in
      let buf := put_bool buf (negb (is_directory (entry_kind entry))) in
      let buf := put_u16 buf (len (entry_path entry)) in
      let buf := put_bytes buf (entry_path entry) in
      let buf := put_u64 buf (entry_size entry) in
      encode_entries buf (entry_file_id entry) total entries
  end.

Definition encode_manifest (buf : bytes) (transfer_id : Z) (entries : list ClipboardManifestEntry)
    : presult bytes :=
  fail_if (len entries =? 0) || (MAX_CLIPBOARD_MANIFEST_ENTRIES <? len entries)
    with InvalidManifest "entry count" in
  let buf := put_u32 (put_u64 buf transfer_id) (len entries) in
  let* buf := encode_entries buf 0 0 entries in
  fail_if MAX_DATAGRAM_SIZE <? len buf with TooLarge (len buf) MAX_DATAGRAM_SIZE in
  Ok buf.

Definition encode_file_request (buf : bytes) (transfer_id file_id request_id offset length : Z)
    : presult bytes :=
  let* _ := validate_ids file_id request_id in
  let* _ := validate_request offset length in
  let buf := put_u64 (put_u64 (put_u64 buf transfer_id) file_id) request_id in
  Ok (put_u64 (put_u64 buf offset) length).

Definition encode_file_chunk (buf : bytes) (transfer_id file_id request_id offset : Z) (data : bytes)
    : presult bytes :=
  let* _ := validate_ids file_id request_id in
  let* _ := validate_file_chunk offset (len data) in
  let buf := put_u64 (put_u64 (put_u64 buf transfer_id) file_id) request_id in
  Ok (put_bytes (put_u64 buf offset) data).

Definition encode_file_complete (buf : bytes) (transfer_id file_id request_id size : Z) (digest : bytes)
    : presult bytes :=
  let* _ := validate_ids file_id request_id in
  let* _ := validate_file_position size in
  let buf := put_u64 (put_u64 (put_u64 buf transfer_id) file_id) request_id in
  Ok (put_bytes (put_u64 buf size) digest).

Definition cancel_reason_to_u8 (r : ClipboardCancelReason.t) : Z :=
  match r with
  | ClipboardCancelReason.User => 0
  | ClipboardCancelReason.IoError => 1
  | ClipboardCancelReason.Protocol => 2
  end.

Definition encode_transfer_cancel (buf : bytes) (transfer_id : Z) (file_id : option Z)
    (reason : ClipboardCancelReason.t) : bytes :=
  let buf := put_u64 (put_u64 buf transfer_id) (default 0 file_id) in
  put_u8 buf (cancel_reason_to_u8 reason).

Definition encode_transfer_progress (buf : bytes) (transfer_id file_id completed total : Z) : presult bytes :=
  fail_if total <? completed with InvalidProgress completed total in
  Ok (put_u64 (put_u64 (put_u64 (put_u64 buf transfer_id) file_id) completed) total).

(** ** History *)

Definition encode_history_record_start (buf : bytes) (request_id record_id total_len chunks : Z)
    : presult bytes :=
  let* _ := validate_history_start total_len chunks in
  Ok (put_u32 (put_u32 (put_u64 (put_u64 buf request_id) record_id) total_len) chunks).

Definition encode_history_record_chunk (buf : bytes) (request_id record_id index : Z) (data : bytes)
    : presult bytes :=
  fail_if (len data =? 0) || (MAX_HISTORY_CHUNK_SIZE <? len data)
    with TooLarge (len data) MAX_HISTORY_CHUNK_SIZE in
  Ok (put_bytes (put_u32 (put_u64 (put_u64 buf request_id) record_id) index) data).

Fixpoint encode_boundary_entries (buf : bytes) (boundary : list (rstring * Z)) : presult bytes :=
  match boundary with
  | [] => Ok buf
  | (device_id, sequence) :: boundary =>
      fail_if (len device_id =? 0) || (MAX_HISTORY_DEVICE_ID_SIZE <? len device_id)
        with InvalidHistory "invalid boundary device id" in
      let buf := put_bytes (put_u16 buf (len device_id)) device_id in
      encode_boundary_entries (put_u64 buf sequence) boundary
  end.

Definition encode_history_boundary (buf : bytes) (boundary : list (rstring * Z)) : presult bytes :=
  fail_if MAX_HISTORY_BOUNDARY_ENTRIES <? len boundary
    with InvalidHistory "too many boundary entries" in
  let* buf := encode_boundary_entries (put_u16 buf (len boundary)) boundary in
  fail_if MAX_DATAGRAM_SIZE <? len buf with TooLarge (len buf) MAX_DATAGRAM_SIZE in
  Ok buf.

(** ** The encoder *)

(** The [match] of [encode]: the body of each message appended to the id. *)
Definition encode_body (buf : bytes) (e : ProtoEvent) : presult bytes :=
  match e with
  | ProtoEvent.ManualFileOffer id name size => encode_manual_offer buf id name size
  | ProtoEvent.ManualFileDecision id decision => encode_manual_decision buf id decision
  | ProtoEvent.ManualFileRequest id offset length => encode_manual_request buf id offset length
  | ProtoEvent.ManualFileChunk id offset data => encode_manual_chunk buf id offset data
  | ProtoEvent.ManualFileComplete id sha256 => encode_manual_complete buf id sha256
  | ProtoEvent.ManualFileResult id success error => encode_manual_result buf id success error
  | ProtoEvent.ManualFileCancel id => encode_manual_cancel buf id
  | ProtoEvent.Input e => Ok (encode_input buf e)
  | ProtoEvent.Ping | ProtoEvent.ProfileChanged => Ok buf
  | ProtoEvent.Pong alive => Ok (put_bool buf alive)
  | ProtoEvent.Enter side => Ok (put_u8 buf (Position.to_u8 side))
  | ProtoEvent.Leave serial | ProtoEvent.Ack serial => Ok (put_u32 buf serial)
  | ProtoEvent.InputCapabilities bits => Ok (put_u32 buf bits)
  | ProtoEvent.LeaveAt along => Ok (put_u32 buf along)
  | ProtoEvent.EnterAt side along => Ok (put_u32 (put_u8 buf (Position.to_u8 side)) along)
  | ProtoEvent.Handoff target side | ProtoEvent.EnterVia side target =>
      Ok (encode_handoff buf side target)
  | ProtoEvent.Hello commit => Ok (put_bytes buf commit)
  | ProtoEvent.ProfileRequest id => encode_profile_request buf id
  | ProtoEvent.ProfileStart id width height total chunks name =>
      encode_profile_start buf id width height total chunks name
  | ProtoEvent.ProfileChunk id index data => encode_profile_chunk buf id index data
  | ProtoEvent.ClipboardStart id total chunks => encode_clipboard_start buf id total chunks
  | ProtoEvent.ClipboardImageStart id width height total chunks =>
      encode_clipboard_image_start buf id width height total chunks
  | ProtoEvent.ClipboardChunk id index data => encode_clipboard_chunk buf id index data
  | ProtoEvent.ClipboardCaps c => Ok (encode_clipboard_caps buf c)
  | ProtoEvent.ClipboardManifest id entries => encode_manifest buf id entries
  | ProtoEvent.ClipboardFileRequest id file request offset length =>
      encode_file_request buf id file request offset length
  | ProtoEvent.ClipboardFileChunk id file request offset data =>
      encode_file_chunk buf id file request offset data
  | ProtoEvent.ClipboardFileComplete id file request size digest =>
      encode_file_complete buf id file request size digest
  | ProtoEvent.ClipboardTransferCancel id file reason =>
      Ok (encode_transfer_cancel buf id file reason)
  | ProtoEvent.ClipboardTransferProgress id file completed total =>
      encode_transfer_progress buf id file completed total
  | ProtoEvent.HistorySyncRequest id offset => Ok (put_u64 (put_u64 buf id) offset)
  | ProtoEvent.HistoryRecordStart id record total chunks =>
      encode_history_record_start buf id record total chunks
  | ProtoEvent.HistoryRecordChunk id record index data =>
      encode_history_record_chunk buf id record index data
  | ProtoEvent.HistorySyncPageEnd id next => Ok (put_optional_u64 (put_u64 buf id) next)
  | ProtoEvent.HistoryClearBoundaryRequest op => Ok (put_bytes buf op)
  | ProtoEvent.HistoryClearBoundary op boundary | ProtoEvent.HistoryClearApply op boundary =>
      encode_history_boundary (put_bytes buf op) boundary
  | ProtoEvent.HistoryClearAck op affected error =>
      put_optional_string (put_u64 (put_bytes buf op) affected) error
  end.

(** [ProtoEvent::encode] *)
Definition encode (e : ProtoEvent) : presult bytes :=
  let* buf := encode_body [EventType.to_u8 (event_type e)] e in
  fail_if MAX_DATAGRAM_SIZE <? len buf with TooLarge (len buf) MAX_DATAGRAM_SIZE in
  Ok buf.
