(* ===== verification/ProtoDecode.v ===== *)
(** * The peer protocol: the decoder

    [ProtoEvent::decode] of [crates/syntra-proto/src/lib.rs].  Each arm of its
    [match] on the event id is a reader of the rest of the datagram; the arms
    that take all that is left ([buf.to_vec()], [std::mem::take]) leave the
    empty slice. *)

From S2P Require Import Prelude Wire ProtoTypes ProtoValid ProtoEncode.

(** ** [f32] positions along an edge, as bit patterns *)

Definition F32_ONE : Z := 1065353216.

(** [f32::is_finite]: the exponent is not all ones. *)
Definition f32_is_finite (bits : Z) : bool :=
  negb (Z.land (Z.shiftr bits 23) 255 =? 255).

(** The order of finite [f32] values is the order of this integer (sign and
    magnitude; the two zeros are equal). *)
Definition f32_key (bits : Z) : Z :=
  if bits <? 2 ^ 31 then bits else - (bits - 2 ^ 31).
Definition f32_lt (a b : Z) : bool := f32_key a <? f32_key b.

(** [f32::clamp(0.0, 1.0)] *)
Definition f32_clamp01 (bits : Z) : Z :=
  let bits := if f32_lt bits 0 then 0 else bits in
  if f32_lt F32_ONE bits then F32_ONE else bits.

(** [f32::from_bits] checked finite and clamped to the edge. *)
Definition get_along (buf : bytes) : presult (Z * bytes) :=
  let* (along, buf) := get_u32 buf in
  fail_if negb (f32_is_finite along) with Truncated in
  Ok (f32_clamp01 along, buf).

Definition get_position (buf : bytes) : presult (Position.t * bytes) :=
  let* (v, buf) := get_u8 buf in
  let* side := Position.try_from v in
  Ok (side, buf).

(** ** Input and control messages *)

Definition decode_motion (buf : bytes) : presult (ProtoEvent * bytes) :=
  let* (time, buf) := get_u32 buf in
  let* (dx, buf) := get_f64 buf in
  let* (dy, buf) := get_f64 buf in
  Ok (ProtoEvent.Input (InputEvent.Pointer (PointerEvent.Motion time dx dy)), buf).

Definition decode_button (buf : bytes) : presult (ProtoEvent * bytes) :=
  let* (time, buf) := get_u32 buf in
  let* (button, buf) := get_u32 buf in
  let* (state, buf) := get_u32 buf in
  Ok (ProtoEvent.Input (InputEvent.Pointer (PointerEvent.Button time button state)), buf).

Definition decode_axis (buf : bytes) : presult (ProtoEvent * bytes) :=
  let* (time, buf) := get_u32 buf in
  let* (axis, buf) := get_u8 buf in
  let* (value, buf) := get_f64 buf in
  Ok (ProtoEvent.Input (InputEvent.Pointer (PointerEvent.Axis time axis value)), buf).

Definition decode_axis120 (buf : bytes) : presult (ProtoEvent * bytes) :=
  let* (axis, buf) := get_u8 buf in
  let* (value, buf) := get_i32 buf in
  Ok (ProtoEvent.Input (InputEvent.Pointer (PointerEvent.AxisDiscrete120 axis value)), buf).

Definition decode_key (buf : bytes) : presult (ProtoEvent * bytes) :=
  let* (time, buf) := get_u32 buf in
  let* (key, buf) := get_u32 buf in
  let* (state, buf) := get_u8 buf in
  Ok (ProtoEvent.Input (InputEvent.Keyboard (KeyboardEvent.Key time key state)), buf).

Definition decode_modifiers (buf : bytes) : presult (ProtoEvent * bytes) :=
  let* (depressed, buf) := get_u32 buf in
  let* (latched, buf) := get_u32 buf in
  let* (locked, buf) := get_u32 buf in
  let* (group, buf) := get_u32 buf in
  Ok (ProtoEvent.Input (InputEvent.Keyboard
        (KeyboardEvent.Modifiers depressed latched locked group)), buf).

Definition decode_pong (buf : bytes) : presult (ProtoEvent * bytes) :=
  let* (v, buf) := get_u8 buf in
  Ok (ProtoEvent.Pong (negb (v =? 0)), buf).

Definition decode_enter (buf : bytes) : presult (ProtoEvent * bytes) :=
  let* (side, buf) := get_position buf in
  Ok (ProtoEvent.Enter side, buf).

Definition decode_serial (make : Z -> ProtoEvent) (buf : bytes) : presult (ProtoEvent * bytes) :=
  let* (v, buf) := get_u32 buf in
  Ok (make v, buf).

(** The common body of [Handoff] and [EnterVia]. *)
Definition decode_handoff (make : Position.t -> rstring -> ProtoEvent) (buf : bytes)
    : presult (ProtoEvent * bytes) :=
  let* (side, buf) := get_position buf in
  let* (n, buf) := get_u16 buf in
  fail_if MAX_HANDOFF_TARGET <? n with Truncated in
  let* (raw, buf) := take_bytes buf n in
  let* target := from_utf8 raw Truncated in
  Ok (make side target, buf).

Definition decode_leave_at (buf : bytes) : presult (ProtoEvent * bytes) :=
  let* (along, buf) := get_along buf in
  Ok (ProtoEvent.LeaveAt along, buf).

Definition decode_enter_at (buf : bytes) : presult (ProtoEvent * bytes) :=
  let* (side, buf) := get_position buf in
  let* (along, buf) := get_along buf in
  Ok (ProtoEvent.EnterAt side along, buf).

Definition decode_hello (buf : bytes) : presult (ProtoEvent * bytes) :=
  let* (commit, buf) := take_bytes buf 8 in
  Ok (ProtoEvent.Hello commit, buf).

(** ** Profiles *)

Definition decode_profile_request (buf : bytes) : presult (ProtoEvent * bytes) :=
  let* (request_id, buf) := get_nonzero_request_id buf in
  Ok (ProtoEvent.ProfileRequest request_id, buf).

Definition decode_profile_start (buf : bytes) : presult (ProtoEvent * bytes) :=
  let* (request_id, buf) := get_nonzero_request_id buf in
  let* (width, buf) := get_u32 buf in
  let* (height, buf) := get_u32 buf in
  let* (total_len, buf) := get_u32 buf in
  let* (chunks, buf) := get_u32 buf in
  let* (name_len, buf) := get_u8 buf in
  fail_if invalid_profile_metadata name_len width height total_len chunks
    with InvalidProfile "invalid profile metadata" in
  let* (raw, buf) := take_bytes buf name_len in
  let* display_name := from_utf8 raw (InvalidProfile "profile name is not UTF-8") in
  Ok (ProtoEvent.ProfileStart request_id width height total_len chunks display_name, buf).

Definition decode_profile_chunk (buf : bytes) : presult (ProtoEvent * bytes) :=
  let* (request_id, buf) := get_nonzero_request_id buf in
  let* (index, buf) := get_u32 buf in
  fail_if (len buf =? 0) || (MAX_PROFILE_CHUNK_SIZE <? len buf)
    with TooLarge (PROFILE_CHUNK_HEADER_SIZE + len buf) SAFE_DATAGRAM_SIZE in
  Ok (ProtoEvent.ProfileChunk request_id index buf, []).

(** ** Clipboard *)

Definition decode_clipboard_start (buf : bytes) : presult (ProtoEvent * bytes) :=
  let* (transfer_id, buf) := get_u64 buf in
  let* (total_len, buf) := get_u32 buf in
  let* (chunks, buf) := get_u32 buf in
  let* _ := validate_clipboard_start total_len chunks in
  Ok (ProtoEvent.ClipboardStart transfer_id total_len chunks, buf).

Definition decode_clipboard_image_start (buf : bytes) : presult (ProtoEvent * bytes) :=
  let* (transfer_id, buf) := get_u64 buf in
  let* (width, buf) := get_u32 buf in
  let* (height, buf) := get_u32 buf in
  let* (total_len, buf) := get_u32 buf in
  let* (chunks, buf) := get_u32 buf in
  let* _ := validate_clipboard_image width height total_len chunks in
  Ok (ProtoEvent.ClipboardImageStart transfer_id width height total_len chunks, buf).

Definition decode_clipboard_chunk (buf : bytes) : presult (ProtoEvent * bytes) :=
  let* (transfer_id, buf) := get_u64 buf in
  let* (index, buf) := get_u32 buf in
  Ok (ProtoEvent.ClipboardChunk transfer_id index buf, []).

Definition decode_clipboard_caps (buf : bytes) : presult (ProtoEvent * bytes) :=
  let* (text, buf) := get_bool buf in
  let* (image, buf) := get_bool buf in
  let* (files, buf) := get_bool buf in
  Ok (ProtoEvent.ClipboardCaps {| cap_text := text; cap_image := image; cap_files := files |}, buf).

Definition get_entry_kind (buf : bytes) : presult (ClipboardEntryKind.t * bytes) :=
  let* (v, buf) := get_u8 buf in
  if v =? 0 then Ok (ClipboardEntryKind.Directory, buf)
  else if v =? 1 then Ok (ClipboardEntryKind.File, buf)
  else Err (InvalidBoolean v).

(** The loop of [decode_manifest], [n] rounds to go. *)
Fixpoint decode_entries (n : nat) (buf : bytes) (previous total : Z)
    : presult (list ClipboardManifestEntry * bytes) :=
  match n with
  | O => Ok ([], buf)
  | S n =>
      let* (file_id, buf) := get_u64 buf in
      fail_if (file_id =? 0) || (file_id <=? previous)
        with InvalidManifest "file ids must increase" in
      let* (kind, buf) := get_entry_kind buf in
      let* (path_len, buf) := get_u16 buf in
      fail_if MAX_CLIPBOARD_PATH_SIZE <? path_len
        with TooLarge path_len MAX_CLIPBOARD_PATH_SIZE in
      let* (raw, buf) := take_bytes buf path_len in
      let* path := from_utf8 raw (InvalidPath (str "non-UTF-8 path")) in
      let* _ := validate_path path in
      let* (size, buf) := get_u64 buf in
      fail_if is_directory kind && negb (size =? 0) with InvalidManifest "directory size" in
      let* total := ok_or (checked_add total size) LengthOverflow in
      let* _ := validate_file_position total in
      let* (entries, buf) := decode_entries n buf file_id total in
      Ok ({| entry_file_id := file_id; entry_path := path; entry_kind := kind;
             entry_size := size |} :: entries, buf)
  end.

Definition decode_manifest (buf : bytes) : presult (ProtoEvent * bytes) :=
  let* (transfer_id, buf) := get_u64 buf in
  let* (count, buf) := get_u32 buf in
  fail_if (count =? 0) || (MAX_CLIPBOARD_MANIFEST_ENTRIES <? count)
    with InvalidManifest "entry count" in
  let* (entries, buf) := decode_entries (Z.to_nat count) buf 0 0 in
  Ok (ProtoEvent.ClipboardManifest transfer_id entries, buf).

Definition decode_file_request (buf : bytes) : presult (ProtoEvent * bytes) :=
  let* (transfer_id, buf) := get_u64 buf in
  let* (file_id, buf) := get_nonzero_file_id buf in
  let* (request_id, buf) := get_nonzero_request_id buf in
  let* (offset, buf) := get_u64 buf in
  let* (length, buf) := get_u64 buf in
  let* _ := validate_request offset length in
  Ok (ProtoEvent.ClipboardFileRequest transfer_id file_id request_id offset length, buf).

Definition decode_file_chunk (buf : bytes) : presult (ProtoEvent * bytes) :=
  let* (transfer_id, buf) := get_u64 buf in
  let* (file_id, buf) := get_nonzero_file_id buf in
  let* (request_id, buf) := get_nonzero_request_id buf in
  let* (offset, buf) := get_u64 buf in
  let* _ := validate_file_chunk offset (len buf) in
  Ok (ProtoEvent.ClipboardFileChunk transfer_id file_id request_id offset buf, []).

Definition decode_file_complete (buf : bytes) : presult (ProtoEvent * bytes) :=
  let* (transfer_id, buf) := get_u64 buf in
  let* (file_id, buf) := get_nonzero_file_id buf in
  let* (request_id, buf) := get_nonzero_request_id buf in
  let* (size, buf) := get_u64 buf in
  let* _ := validate_file_position size in
  let* (digest, buf) := take_bytes buf 32 in
  Ok (ProtoEvent.ClipboardFileComplete transfer_id file_id request_id size digest, buf).

Definition get_cancel_reason (buf : bytes) : presult (ClipboardCancelReason.t * bytes) :=
  let* (v, buf) := get_u8 buf in
  if v =? 0 then Ok (ClipboardCancelReason.User, buf)
  else if v =? 1 then Ok (ClipboardCancelReason.IoError, buf)
  else if v =? 2 then Ok (ClipboardCancelReason.Protocol, buf)
  else Err (InvalidCancelReason v).

(** [match get_u64(&mut buf)? { 0 => None, file_id => Some(file_id) }] *)
Definition nonzero (v : Z) : option Z := if v =? 0 then None else Some v.

Definition decode_transfer_cancel (buf : bytes) : presult (ProtoEvent * bytes) :=
  let* (transfer_id, buf) := get_u64 buf in
  let* (file_id, buf) := get_u64 buf in
  let* (reason, buf) := get_cancel_reason buf in
  Ok (ProtoEvent.ClipboardTransferCancel transfer_id (nonzero file_id) reason, buf).

Definition decode_transfer_progress (buf : bytes) : presult (ProtoEvent * bytes) :=
  let* (transfer_id, buf) := get_u64 buf in
  let* (file_id, buf) := get_nonzero_file_id buf in
  let* (completed, buf) := get_u64 buf in
  let* (total, buf) := get_u64 buf in
  let* _ := validate_progress completed total in
  Ok (ProtoEvent.ClipboardTransferProgress transfer_id file_id completed total, buf).

(** ** History *)

Definition decode_history_sync_request (buf : bytes) : presult (ProtoEvent * bytes) :=
  let* (request_id, buf) := get_u64 buf in
  let* (offset, buf) := get_u64 buf in
  Ok (ProtoEvent.HistorySyncRequest request_id offset, buf).

Definition decode_history_record_start (buf : bytes) : presult (ProtoEvent * bytes) :=
  let* (request_id, buf) := get_u64 buf in
  let* (record_id, buf) := get_u64 buf in
  let* (total_len, buf) := get_u32 buf in
  let* (chunks, buf) := get_u32 buf in
  let* _ := validate_history_start total_len chunks in
  Ok (ProtoEvent.HistoryRecordStart request_id record_id total_len chunks, buf).

Definition decode_history_record_chunk (buf : bytes) : presult (ProtoEvent * bytes) :=
  let* (request_id, buf) := get_u64 buf in
  let* (record_id, buf) := get_u64 buf in
  let* (index, buf) := get_u32 buf in
  fail_if (len buf =? 0) || (MAX_HISTORY_CHUNK_SIZE <? len buf)
    with TooLarge (len buf) MAX_HISTORY_CHUNK_SIZE in
  Ok (ProtoEvent.HistoryRecordChunk request_id record_id index buf, []).

Fixpoint decode_boundary_entries (n : nat) (buf : bytes) : presult (list (rstring * Z) * bytes) :=
  match n with
  | O => Ok ([], buf)
  | S n =>
      let* (size, buf) := get_u16 buf in
      fail_if (size =? 0) || (MAX_HISTORY_DEVICE_ID_SIZE <? size)
        with InvalidHistory "invalid boundary device id" in
      let* (raw, buf) := take_bytes buf size in
      let* device_id := from_utf8 raw (InvalidHistory "non-UTF-8 boundary device id") in
      let* (sequence, buf) := get_u64 buf in
      let* (boundary, buf) := decode_boundary_entries n buf in
      Ok ((device_id, sequence) :: boundary, buf)
  end.

Definition decode_history_boundary (buf : bytes) : presult (list (rstring * Z) * bytes) :=
  let* (count, buf) := get_u16 buf in
  fail_if MAX_HISTORY_BOUNDARY_ENTRIES <? count
    with InvalidHistory "too many boundary entries" in
  decode_boundary_entries (Z.to_nat count) buf.

Definition decode_clear_boundary_request (buf : bytes) : presult (ProtoEvent * bytes) :=
  let* (operation_id, buf) := take_bytes buf 16 in
  Ok (ProtoEvent.HistoryClearBoundaryRequest operation_id, buf).

Definition decode_clear_boundary (make : bytes -> list (rstring * Z) -> ProtoEvent) (buf : bytes)
    : presult (ProtoEvent * bytes) :=
  let* (operation_id, buf) := take_bytes buf 16 in
  let* (boundary, buf) := decode_history_boundary buf in
  Ok (make operation_id boundary, buf).

Definition decode_clear_ack (buf : bytes) : presult (ProtoEvent * bytes) :=
  let* (operation_id, buf) := take_bytes buf 16 in
  let* (affected, buf) := get_u64 buf in
  let* (error, buf) := get_optional_string buf in
  Ok (ProtoEvent.HistoryClearAck operation_id affected error, buf).

Definition decode_page_end (buf : bytes) : presult (ProtoEvent * bytes) :=
  let* (request_id, buf) := get_u64 buf in
  let* (next_offset, buf) := get_optional_u64 buf in
  Ok (ProtoEvent.HistorySyncPageEnd request_id next_offset, buf).

(** ** Manual file transfers *)

Definition decode_manual_offer (buf : bytes) : presult (ProtoEvent * bytes) :=
  let* (transfer_id, buf) := get_u64 buf in
  fail_if transfer_id =? 0 with zero_transfer_id in
  let* (name_len, buf) := get_u16 buf in
  fail_if (name_len =? 0) || (MAX_MANUAL_FILE_NAME_SIZE <? name_len)
    with InvalidFileChunk "invalid manual file name" in
  let* (raw, buf) := take_bytes buf name_len in
  let* name := from_utf8 raw (InvalidFileChunk "invalid manual file name") in
  let* _ := validate_manual_file_name name in
  let* (size, buf) := get_u64 buf in
  Ok (ProtoEvent.ManualFileOffer transfer_id name size, buf).

Definition get_manual_decision (buf : bytes) : presult (ManualDecision.t * bytes) :=
  let* (v, buf) := get_u8 buf in
  if v =? 0 then Ok (ManualDecision.Pending, buf)
  else if v =? 1 then Ok (ManualDecision.Accepted, buf)
  else if v =? 2 then Ok (ManualDecision.Declined, buf)
  else Err (InvalidFileChunk "invalid manual decision").

Definition decode_manual_decision (buf : bytes) : presult (ProtoEvent * bytes) :=
  let* (transfer_id, buf) := get_u64 buf in
  fail_if transfer_id =? 0 with zero_transfer_id in
  let* (decision, buf) := get_manual_decision buf in
  Ok (ProtoEvent.ManualFileDecision transfer_id decision, buf).

Definition decode_manual_request (buf : bytes) : presult (ProtoEvent * bytes) :=
  let* (transfer_id, buf) := get_u64 buf in
  let* (offset, buf) := get_u64 buf in
  let* (length, buf) := get_u32 buf in
  fail_if (transfer_id =? 0) || negb (between 1 MAX_MANUAL_FILE_CHUNK_SIZE length)
    with InvalidFileChunk "invalid manual request" in
  Ok (ProtoEvent.ManualFileRequest transfer_id offset length, buf).

Definition decode_manual_chunk (buf : bytes) : presult (ProtoEvent * bytes) :=
  let* (transfer_id, buf) := get_u64 buf in
  let* (offset, buf) := get_u64 buf in
  fail_if (transfer_id =? 0) || (len buf =? 0) || (MAX_MANUAL_FILE_CHUNK_SIZE <? len buf)
    with InvalidFileChunk "invalid manual chunk" in
  Ok (ProtoEvent.ManualFileChunk transfer_id offset buf, []).

Definition decode_manual_complete (buf : bytes) : presult (ProtoEvent * bytes) :=
  let* (transfer_id, buf) := get_u64 buf in
  fail_if transfer_id =? 0 with zero_transfer_id in
  let* (sha256, buf) := take_bytes buf 32 in
  Ok (ProtoEvent.ManualFileComplete transfer_id sha256, buf).

Definition decode_manual_result (buf : bytes) : presult (ProtoEvent * bytes) :=
  let* (transfer_id, buf) := get_u64 buf in
  fail_if transfer_id =? 0 with zero_transfer_id in
  let* (success, buf) := get_bool buf in
  let* (error, buf) := get_optional_string buf in
  fail_if oversized_error error
    with TooLarge (len (default [] error)) MAX_MANUAL_FILE_ERROR_SIZE in
  Ok (ProtoEvent.ManualFileResult transfer_id success error, buf).

Definition decode_manual_cancel (buf : bytes) : presult (ProtoEvent * bytes) :=
  let* (transfer_id, buf) := get_u64 buf in
  fail_if transfer_id =? 0 with zero_transfer_id in
  Ok (ProtoEvent.ManualFileCancel transfer_id, buf).

(** ** The decoder *)

(** The [match] of [decode] on the event id. *)
Definition decode_body (ty : EventType.t) (buf : bytes) : presult (ProtoEvent * bytes) :=
  match ty with
  | EventType.PointerMotion => decode_motion buf
  | EventType.PointerButton => decode_button buf
  | EventType.PointerAxis => decode_axis buf
  | EventType.PointerAxisValue120 => decode_axis120 buf
  | EventType.KeyboardKey => decode_key buf
  | EventType.KeyboardModifiers => decode_modifiers buf
  | EventType.Ping => Ok (ProtoEvent.Ping, buf)
  | EventType.Pong => decode_pong buf
  | EventType.Enter => decode_enter buf
  | EventType.Leave => decode_serial ProtoEvent.Leave buf
  | EventType.Handoff => decode_handoff (fun side target => ProtoEvent.Handoff target side) buf
  | EventType.InputCapabilities => decode_serial ProtoEvent.InputCapabilities buf
  | EventType.LeaveAt => decode_leave_at buf
  | EventType.EnterAt => decode_enter_at buf
  | EventType.EnterVia => decode_handoff ProtoEvent.EnterVia buf
  | EventType.Ack => decode_serial ProtoEvent.Ack buf
  | EventType.Hello => decode_hello buf
  | EventType.ProfileChanged => Ok (ProtoEvent.ProfileChanged, buf)
  | EventType.ProfileRequest => decode_profile_request buf
  | EventType.ProfileStart => decode_profile_start buf
  | EventType.ProfileChunk => decode_profile_chunk buf
  | EventType.ClipboardStart => decode_clipboard_start buf
  | EventType.ClipboardImageStart => decode_clipboard_image_start buf
  | EventType.ClipboardChunk => decode_clipboard_chunk buf
  | EventType.ClipboardCapabilities => decode_clipboard_caps buf
  | EventType.ClipboardManifest => decode_manifest buf
  | EventType.ClipboardFileRequest => decode_file_request buf
  | EventType.ClipboardFileChunk => decode_file_chunk buf
  | EventType.ClipboardFileComplete => decode_file_complete buf
  | EventType.ClipboardTransferCancel => decode_transfer_cancel buf
  | EventType.ClipboardTransferProgress => decode_transfer_progress buf
  | EventType.HistorySyncRequest => decode_history_sync_request buf
  | EventType.HistoryRecordStart => decode_history_record_start buf
  | EventType.HistoryRecordChunk => decode_history_record_chunk buf
  | EventType.ManualFileOffer => decode_manual_offer buf
  | EventType.ManualFileDecision => decode_manual_decision buf
  | EventType.ManualFileRequest => decode_manual_request buf
  | EventType.ManualFileChunk => decode_manual_chunk buf
  | EventType.ManualFileComplete => decode_manual_complete buf
  | EventType.ManualFileResult => decode_manual_result buf
  | EventType.ManualFileCancel => decode_manual_cancel buf
  | EventType.HistorySyncPageEnd => decode_page_end buf
  | EventType.HistoryClearBoundaryRequest => decode_clear_boundary_request buf
  | EventType.HistoryClearBoundary => decode_clear_boundary ProtoEvent.HistoryClearBoundary buf
  | EventType.HistoryClearApply => decode_clear_boundary ProtoEvent.HistoryClearApply buf
  | EventType.HistoryClearAck => decode_clear_ack buf
  end.

(** [ProtoEvent::decode] *)
Definition decode (buf : bytes) : presult ProtoEvent :=
  fail_if MAX_DATAGRAM_SIZE <? len buf with TooLarge (len buf) MAX_DATAGRAM_SIZE in
  let* (id, buf) := get_u8 buf in
  let* ty := EventType.try_from id in
  let* (event, buf) := decode_body ty buf in
  fail_if negb (len buf =? 0) with TrailingBytes (len buf) in
  Ok event.
