(* ===== verification/ProtoRoundTrip.v ===== *)
(** * The peer protocol: what the decoder makes of an encoded message

    [wire_image] says, for every message the encoder accepts, what the decoder
    of the peer returns; the theorems relate [encode], [decode] and it. *)

From S2P Require Import Prelude Wire ProtoTypes ProtoValid ProtoEncode ProtoDecode.

(** ** The image of a message

    All messages arrive as they were sent except: positions along an edge are
    clamped (and refused when not finite), hand-off targets are cut, a
    cancelled file [Some 0] is [None], and progress reports are checked more
    strictly by the receiver than by the sender. *)

Definition along_image (make : Z -> ProtoEvent) (along : Z) : presult ProtoEvent :=
  if f32_is_finite along then Ok (make (f32_clamp01 along)) else Err Truncated.

Definition handoff_image (make : rstring -> ProtoEvent) (target : rstring) : presult ProtoEvent :=
  let cut := take (Z.to_nat MAX_HANDOFF_TARGET) target in
  if utf8_valid cut then Ok (make cut) else Err Truncated.

Definition wire_image (e : ProtoEvent) : presult ProtoEvent :=
  match e with
  | ProtoEvent.LeaveAt along => along_image ProtoEvent.LeaveAt along
  | ProtoEvent.EnterAt side along => along_image (ProtoEvent.EnterAt side) along
  | ProtoEvent.Handoff target side =>
      handoff_image (fun target => ProtoEvent.Handoff target side) target
  | ProtoEvent.EnterVia side via => handoff_image (ProtoEvent.EnterVia side) via
  | ProtoEvent.ClipboardTransferCancel id file reason =>
      Ok (ProtoEvent.ClipboardTransferCancel id (file ≫= nonzero) reason)
  | ProtoEvent.ClipboardTransferProgress id file completed total =>
      fail_if file =? 0 with InvalidFileChunk "zero file id" in
      let* _ := validate_progress completed total in
      Ok e
  | _ => Ok e
  end.

(** The messages whose image is themselves. *)
Definition canonical (e : ProtoEvent) : bool :=
  match e with
  | ProtoEvent.LeaveAt along | ProtoEvent.EnterAt _ along =>
      f32_is_finite along && (f32_clamp01 along =? along)
  | ProtoEvent.Handoff target _ | ProtoEvent.EnterVia _ target =>
      len target <=? MAX_HANDOFF_TARGET
  | ProtoEvent.ClipboardTransferCancel _ file _ => negb (bool_decide (file = Some 0))
  | ProtoEvent.ClipboardTransferProgress _ file _ total =>
      negb (file =? 0) && (total <=? MAX_CLIPBOARD_SIZE)
  | _ => true
  end.

(** ** Manifest and boundary loops *)

Ltac wirenorm :=
  unfold put_bool, put_u8, put_u16, put_u32, put_u64, put_i32, put_f64, put_bytes in *;
  rewrite <- ?app_assoc in *; cbn [app] in *.

(** Runs the decoder over what the encoder wrote, with the encoder's guards. *)
Ltac replay :=
  repeat first
    [ progress autorewrite with wire
    | match goal with
      | H : ?x = Ok _ |- context [?x] => rewrite H
      | H : ?x = false |- context [?x] => rewrite H
      | H : ?x = true |- context [?x] => rewrite H
      | H : len ?x = ?n |- context [len ?x =? ?n] => rewrite (proj2 (Z.eqb_eq _ _) H)
      end
    | rewrite <- app_assoc
    | progress cbn beta iota zeta delta [orb andb negb app] ].

Lemma validate_path_len p u :
  validate_path p = Ok u ->
  is_u16 (len p) = true /\ (MAX_CLIPBOARD_PATH_SIZE <? len p) = false.
Proof. unfold validate_path. intros H. inv_ok H. split; [limits; zbool | done]. Qed.

Lemma get_put_entry_kind k r :
  get_entry_kind (Z.b2z (negb (is_directory k)) :: r) = Ok (k, r).
Proof. unfold get_entry_kind. rewrite get_u8_cons. by destruct k. Qed.
#[export] Hint Rewrite get_put_entry_kind : wire.

Lemma encode_entries_decode es : forall buf prev total bs,
  forallb wf_entry es = true ->
  encode_entries buf prev total es = Ok bs ->
  exists body, bs = buf ++ body /\
    forall r, decode_entries (length es) (body ++ r) prev total = Ok (es, r).
Proof.
  induction es as [|e es IH]; intros buf prev total bs Hwf H; cbn [encode_entries forallb] in *.
  - inv_ok H. exists []. by rewrite app_nil_r.
  - boolsplit. inv_ok H. apply IH in H as (body & -> & Hbody); [|done].
    match goal with W : wf_entry e = true |- _ => unfold wf_entry in W end. boolsplit.
    match goal with E : validate_path _ = _ |- _ => destruct (validate_path_len _ _ E) end.
    wirenorm. eexists; split; [reflexivity|]. intros r.
    cbn [decode_entries length]. unfold from_utf8, validate_file_position.
    replay. rewrite Hbody. by destruct e.
Qed.

Lemma encode_boundary_decode b : forall buf bs,
  wf_boundary b = true ->
  encode_boundary_entries buf b = Ok bs ->
  exists body, bs = buf ++ body /\
    forall r, decode_boundary_entries (length b) (body ++ r) = Ok (b, r).
Proof.
  induction b as [|[device sequence] b IH]; intros buf bs Hwf H;
    cbn [encode_boundary_entries wf_boundary forallb] in *.
  - inv_ok H. exists []. by rewrite app_nil_r.
  - apply andb_prop in Hwf as [Hd Hb]. boolsplit. inv_ok H.
    apply IH in H as (body & -> & Hbody); [|done]. boolsplit.
    assert (is_u16 (len device) = true) by (limits; zbool).
    wirenorm. eexists; split; [reflexivity|]. intros r.
    cbn [decode_boundary_entries length]. unfold from_utf8.
    replay. by rewrite Hbody.
Qed.

Lemma get_put_position p r : get_position (Position.to_u8 p :: r) = Ok (p, r).
Proof. unfold get_position. rewrite get_u8_cons. by rewrite Position.side_round_trip. Qed.

Lemma get_put_cancel_reason c r : get_cancel_reason (cancel_reason_to_u8 c :: r) = Ok (c, r).
Proof. unfold get_cancel_reason. rewrite get_u8_cons. by destruct c. Qed.

Lemma get_put_manual_decision d r :
  get_manual_decision (manual_decision_to_u8 d :: r) = Ok (d, r).
Proof. unfold get_manual_decision. rewrite get_u8_cons. by destruct d. Qed.

#[export] Hint Rewrite get_put_position get_put_cancel_reason get_put_manual_decision : wire.

(** What is left after the body must be nothing. *)
Definition finish (r : presult (ProtoEvent * bytes)) : presult ProtoEvent :=
  let* (event, buf) := r in
  fail_if negb (len buf =? 0) with TrailingBytes (len buf) in
  Ok event.

Definition body_image (e : ProtoEvent) (id : Z) (bs : bytes) : Prop :=
  exists body, bs = id :: body /\ finish (decode_body (event_type e) body) = wire_image e.

(** The arms of the two [match]es. *)
Create HintDb codec.
#[export] Hint Unfold
  encode_manual_offer encode_manual_decision encode_manual_request encode_manual_chunk
  encode_manual_complete encode_manual_result encode_manual_cancel encode_input
  encode_handoff encode_profile_request encode_profile_start encode_profile_chunk
  encode_clipboard_start encode_clipboard_image_start encode_clipboard_chunk
  encode_clipboard_caps encode_manifest encode_file_request encode_file_chunk
  encode_file_complete encode_transfer_cancel encode_transfer_progress
  encode_history_record_start encode_history_record_chunk encode_history_boundary
  validate_ids : codec.
#[export] Hint Unfold
  decode_motion decode_button decode_axis decode_axis120 decode_key decode_modifiers
  decode_pong decode_enter decode_serial decode_handoff decode_leave_at
  decode_enter_at decode_hello decode_profile_request decode_profile_start
  decode_profile_chunk decode_clipboard_start decode_clipboard_image_start
  decode_clipboard_chunk decode_clipboard_caps decode_manifest decode_file_request
  decode_file_chunk decode_file_complete decode_transfer_cancel
  decode_transfer_progress decode_history_sync_request decode_history_record_start
  decode_history_record_chunk decode_history_boundary decode_clear_boundary_request
  decode_clear_boundary decode_clear_ack decode_page_end decode_manual_offer
  decode_manual_decision decode_manual_request decode_manual_chunk
  decode_manual_complete decode_manual_result decode_manual_cancel get_nonzero_file_id
  get_nonzero_request_id get_along from_utf8 : codec.

Ltac codec_arm :=
  wirenorm; eexists; split; [reflexivity|];
  cbn [decode_body event_type wire_image]; unfold finish; autounfold with codec;
  replay; try done.

Lemma validate_manual_file_name_len name u :
  validate_manual_file_name name = Ok u ->
  is_u16 (len name) = true
  /\ (len name =? 0) || (MAX_MANUAL_FILE_NAME_SIZE <? len name) = false.
Proof.
  unfold validate_manual_file_name. intros H. inv_ok H. boolsplit.
  split; [limits|]; zbool.
Qed.

Lemma handoff_image_cut make target :
  let n := Z.min (len target) MAX_HANDOFF_TARGET in
  let cut := take (Z.to_nat n) target in
  is_u16 n = true /\ (MAX_HANDOFF_TARGET <? n) = false /\ n = len cut /\
  handoff_image make target = (if utf8_valid cut then Ok (make cut) else Err Truncated).
Proof.
  intros n cut. subst n cut. split_and!; [limits; zbool | zbool | |].
  - rewrite len_take. limits. zbool.
  - unfold handoff_image. destruct (Z.min_spec (len target) MAX_HANDOFF_TARGET) as [[? ->]|[? ->]];
      [|done].
    rewrite !take_ge by (limits; zbool). done.
Qed.

(** The arms that need more than replaying the guards. *)
Section arms.
Context (id : Z) (bs : bytes).

Lemma handoff_arm (side : Position.t) target make :
  exists body, encode_handoff [id] side target = id :: body /\
    finish (decode_handoff make body) = handoff_image (make side) target.
Proof.
  destruct (handoff_image_cut (make side) target) as (? & ? & ? & ->).
  autounfold with codec. wirenorm. eexists; split; [reflexivity|]. unfold finish.
  replay. by destruct (utf8_valid _).
Qed.

Lemma manifest_arm transfer_id entries :
  is_u64 transfer_id = true -> forallb wf_entry entries = true ->
  encode_manifest [id] transfer_id entries = Ok bs ->
  exists body, bs = id :: body /\
    finish (decode_manifest body) = Ok (ProtoEvent.ClipboardManifest transfer_id entries).
Proof.
  intros Hid Hwf H. unfold encode_manifest in H. inv_ok H. boolsplit.
  match goal with E : encode_entries _ _ _ _ = _ |- _ =>
    destruct (encode_entries_decode _ _ _ _ _ Hwf E) as (body & -> & Hbody) end.
  assert (is_u32 (len entries) = true) by (limits; zbool).
  wirenorm. eexists; split; [reflexivity|]. unfold finish, decode_manifest.
  replay. unfold len. rewrite Nat2Z.id, <- (app_nil_r body), Hbody. done.
Qed.

Lemma boundary_arm op boundary make :
  is_array 16 op = true -> wf_boundary boundary = true ->
  encode_history_boundary (put_bytes [id] op) boundary = Ok bs ->
  exists body, bs = id :: body /\
    finish (decode_clear_boundary make body) = Ok (make op boundary).
Proof.
  intros Hop Hwf H. unfold encode_history_boundary in H. unfold is_array in Hop. inv_ok H. boolsplit.
  match goal with E : encode_boundary_entries _ _ = _ |- _ =>
    destruct (encode_boundary_decode _ _ _ Hwf E) as (body & -> & Hbody) end.
  assert (is_u16 (len boundary) = true) by (limits; zbool).
  wirenorm. eexists; split; [reflexivity|].
  unfold finish, decode_clear_boundary, decode_history_boundary.
  replay. unfold len. rewrite Nat2Z.id, <- (app_nil_r body), Hbody. done.
Qed.

Lemma manual_offer_arm transfer_id name size :
  is_u64 transfer_id = true -> utf8_valid name = true -> is_u64 size = true ->
  encode_manual_offer [id] transfer_id name size = Ok bs ->
  exists body, bs = id :: body /\
    finish (decode_manual_offer body) = Ok (ProtoEvent.ManualFileOffer transfer_id name size).
Proof.
  intros Hid Hname Hsize H. unfold encode_manual_offer in H. inv_ok H.
  match goal with E : validate_manual_file_name _ = _ |- _ =>
    destruct (validate_manual_file_name_len _ _ E) end.
  wirenorm. eexists; split; [reflexivity|]. unfold finish. autounfold with codec. replay. done.
Qed.

Lemma manual_result_arm transfer_id success error :
  is_u64 transfer_id = true -> is_option utf8_valid error = true ->
  encode_manual_result [id] transfer_id success error = Ok bs ->
  exists body, bs = id :: body /\
    finish (decode_manual_result body) = Ok (ProtoEvent.ManualFileResult transfer_id success error).
Proof.
  intros Hid He H. unfold encode_manual_result in H. inv_ok H.
  apply put_optional_string_read in H as (s & -> & Hs); [|done].
  wirenorm. eexists; split; [reflexivity|]. unfold finish, decode_manual_result. replay. done.
Qed.

Lemma clear_ack_arm op affected error :
  is_array 16 op = true -> is_u64 affected = true -> is_option utf8_valid error = true ->
  put_optional_string (put_u64 (put_bytes [id] op) affected) error = Ok bs ->
  exists body, bs = id :: body /\
    finish (decode_clear_ack body) = Ok (ProtoEvent.HistoryClearAck op affected error).
Proof.
  intros Hop Ha He H. apply put_optional_string_read in H as (s & -> & Hs); [|done].
  unfold is_array in Hop. boolsplit.
  wirenorm. eexists; split; [reflexivity|]. unfold finish, decode_clear_ack. replay. done.
Qed.

Lemma page_end_arm request_id next :
  is_u64 request_id = true -> is_option is_u64 next = true ->
  exists body, put_optional_u64 (put_u64 [id] request_id) next = id :: body /\
    finish (decode_page_end body) = Ok (ProtoEvent.HistorySyncPageEnd request_id next).
Proof.
  intros Hid Hn. destruct (put_optional_u64_read (put_u64 [id] request_id) next Hn) as (s & -> & Hs).
  wirenorm. eexists; split; [reflexivity|]. unfold finish, decode_page_end. replay. done.
Qed.

Lemma transfer_cancel_arm transfer_id file reason :
  is_u64 transfer_id = true -> is_option is_u64 file = true ->
  exists body, encode_transfer_cancel [id] transfer_id file reason = id :: body /\
    finish (decode_transfer_cancel body)
    = Ok (ProtoEvent.ClipboardTransferCancel transfer_id (file ≫= nonzero) reason).
Proof.
  intros Hid Hf. autounfold with codec. wirenorm. eexists; split; [reflexivity|].
  assert (is_u64 (default 0 file) = true) by (by destruct file).
  unfold finish. replay. by destruct file.
Qed.

End arms.

#[export] Hint Resolve handoff_arm manifest_arm boundary_arm manual_offer_arm manual_result_arm
  clear_ack_arm page_end_arm transfer_cancel_arm : codec.

Lemma body_round_trip e id bs :
  wf_event e = true -> encode_body [id] e = Ok bs -> body_image e id bs.
Proof.
  intros Hwf H. unfold body_image.
  destruct e; cbn [wf_event encode_body event_type decode_body wire_image] in *;
    boolsplit;
    try match goal with e : InputEvent.t |- _ => destruct e as [[]|[]] end;
    try (eauto with codec; fail);
    try (injection H as <-; eauto with codec; fail).
  all: autounfold with codec in H; cbn [wf_input encode_input] in *; unfold is_array in *;
    boolsplit; inv_ok H; boolsplit; try (codec_arm; fail).
  - codec_arm. unfold along_image. by destruct (f32_is_finite along).
  - codec_arm. unfold along_image. by destruct (f32_is_finite along).
  - codec_arm. by destruct alive.
  - codec_arm. by destruct c.
  - codec_arm. destruct (file_id =? 0); [done|]. replay.
    by destruct (validate_progress completed total).
Qed.

Lemma encode_decode_image e bs :
  wf_event e = true -> encode e = Ok bs -> decode bs = wire_image e.
Proof.
  intros Hwf H. unfold encode in H. inv_ok H.
  match goal with E : encode_body _ _ = _ |- _ =>
    destruct (body_round_trip _ _ _ Hwf E) as (body & -> & Hbody) end.
  unfold decode. replay. rewrite EventType.try_from_to_u8. exact Hbody.
Qed.

Lemma handoff_image_canonical make target :
  utf8_valid target = true -> len target <= MAX_HANDOFF_TARGET ->
  handoff_image make target = Ok (make target).
Proof.
  intros Hu Hl. unfold handoff_image. rewrite take_ge by (limits; zbool). by rewrite Hu.
Qed.

Lemma canonical_image e bs :
  wf_event e = true -> encode e = Ok bs -> canonical e = true -> wire_image e = Ok e.
Proof.
  intros Hwf H Hc. destruct e; cbn [canonical wire_image wf_event] in *; try done; boolsplit.
  - unfold along_image. replay. do 2 f_equal. lia.
  - apply handoff_image_canonical; [done | lia].
  - apply handoff_image_canonical; [done | lia].
  - unfold along_image. replay. do 2 f_equal. lia.
  - destruct file_id as [f|]; [|done]. simpl. unfold nonzero.
    destruct (Z.eqb_spec f 0) as [->|]; [by case_bool_decide | done].
  - unfold encode in H. cbn [encode_body] in H. autounfold with codec in H. inv_ok H.
    unfold validate_progress, validate_file_position.
    destruct (Z.ltb_spec MAX_CLIPBOARD_SIZE total); [lia|]. replay. done.
Qed.

(** ** What the decoder accepts

    A decoded message satisfies the type invariant, is canonical, and encoding
    it gives back the datagram: bit for bit, except for the two kinds of body
    the decoder normalises. *)

Definition normalising (e : ProtoEvent) : bool :=
  match e with
  | ProtoEvent.Pong _ | ProtoEvent.LeaveAt _ | ProtoEvent.EnterAt _ _ => true
  | _ => false
  end.

Ltac eval_rhs :=
  match goal with |- _ = ?y => let v := eval vm_compute in y in change y with v end.

Section read_enums.
Context (buf r : bytes).
Hypothesis Hbuf : all_u8 buf = true.

Lemma get_entry_kind_read k :
  get_entry_kind buf = Ok (k, r) ->
  buf = Z.b2z (negb (is_directory k)) :: r /\ all_u8 r = true.
Proof using Hbuf.
  unfold get_entry_kind. intros H. inv_ok H; read_all; (split; [f_equal; eval_rhs; lia | done]).
Qed.

Lemma get_position_read p :
  get_position buf = Ok (p, r) -> buf = Position.to_u8 p :: r /\ all_u8 r = true.
Proof using Hbuf.
  unfold get_position, Position.try_from. intros H.
  inv_ok H; read_all; (split; [f_equal; eval_rhs; lia | done]).
Qed.

Lemma get_cancel_reason_read c :
  get_cancel_reason buf = Ok (c, r) -> buf = cancel_reason_to_u8 c :: r /\ all_u8 r = true.
Proof using Hbuf.
  unfold get_cancel_reason. intros H. inv_ok H; read_all; (split; [f_equal; eval_rhs; lia | done]).
Qed.

Lemma get_manual_decision_read d :
  get_manual_decision buf = Ok (d, r) -> buf = manual_decision_to_u8 d :: r /\ all_u8 r = true.
Proof using Hbuf.
  unfold get_manual_decision. intros H. inv_ok H; read_all; (split; [f_equal; eval_rhs; lia | done]).
Qed.
End read_enums.

Ltac read_more :=
  repeat first
    [ read_step
    | match goal with
      | A : all_u8 ?b = true, H : get_entry_kind ?b = Ok (?v, ?r) |- _ =>
          destruct (get_entry_kind_read b r A v H) as (-> & ?); clear H A
      | A : all_u8 ?b = true, H : get_position ?b = Ok (?v, ?r) |- _ =>
          destruct (get_position_read b r A v H) as (-> & ?); clear H A
      | A : all_u8 ?b = true, H : get_cancel_reason ?b = Ok (?v, ?r) |- _ =>
          destruct (get_cancel_reason_read b r A v H) as (-> & ?); clear H A
      | A : all_u8 ?b = true, H : get_manual_decision ?b = Ok (?v, ?r) |- _ =>
          destruct (get_manual_decision_read b r A v H) as (-> & ?); clear H A
      end ].

Lemma decode_entries_read n : forall buf prev total es r,
  all_u8 buf = true ->
  decode_entries n buf prev total = Ok (es, r) ->
  length es = n /\ forallb wf_entry es = true /\ all_u8 r = true /\
  forall pre, exists bs, encode_entries pre prev total es = Ok bs /\ bs ++ r = pre ++ buf.
Proof.
  induction n as [|n IH]; intros buf prev total es r Hbuf H; cbn [decode_entries] in H.
  - inv_ok H. split_and!; try done. intros pre. by exists pre.
  - unfold from_utf8, validate_file_position in H. inv_ok H; read_more.
    match goal with E : decode_entries n _ _ _ = _ |- _ =>
      apply IH in E as (Hn & Hes & Hr & Henc); [|done] end.
    split_and!; [cbn; lia | cbn; unfold wf_entry; cbn; by replay | done |].
    intros pre. cbn [encode_entries entry_path entry_file_id entry_size entry_kind].
    subst. replay. edestruct Henc as (bs & -> & Hbs). eexists; split; [done|].
    rewrite Hbs. by wirenorm.
Qed.

Lemma decode_boundary_read n : forall buf b r,
  all_u8 buf = true ->
  decode_boundary_entries n buf = Ok (b, r) ->
  length b = n /\ wf_boundary b = true /\ all_u8 r = true /\
  forall pre, exists bs, encode_boundary_entries pre b = Ok bs /\ bs ++ r = pre ++ buf.
Proof.
  induction n as [|n IH]; intros buf b r Hbuf H; cbn [decode_boundary_entries] in H.
  - inv_ok H. split_and!; try done. intros pre. by exists pre.
  - unfold from_utf8 in H. inv_ok H; read_more.
    match goal with E : decode_boundary_entries n _ = _ |- _ =>
      apply IH in E as (Hn & Hes & Hr & Henc); [|done] end.
    split_and!; [cbn; lia | cbn; by replay | done |].
    intros pre. cbn [encode_boundary_entries].
    subst. replay. edestruct Henc as (bs & -> & Hbs). eexists; split; [done|].
    rewrite Hbs. by wirenorm.
Qed.

(** What accepting a body says of the message: [n] is the length of the body. *)
Definition accepted (e : ProtoEvent) (id : Z) (body : bytes) : Prop :=
  wf_event e = true /\ canonical e = true /\
  exists bs, encode_body [id] e = Ok bs /\ len bs = 1 + len body /\
    (normalising e = false -> bs = id :: body).

Lemma f32_clamp01_stable z :
  is_u32 z = true -> f32_is_finite z = true ->
  is_u32 (f32_clamp01 z) = true /\ f32_is_finite (f32_clamp01 z) = true
  /\ f32_clamp01 (f32_clamp01 z) = f32_clamp01 z.
Proof.
  intros Hz Hf. unfold f32_clamp01.
  destruct (f32_lt z 0) eqn:Hlow; [done|].
  destruct (f32_lt F32_ONE z) eqn:Hhigh; [done|].
  cbn zeta. rewrite Hlow, Hhigh. done.
Qed.

(** Closes an arm whose encoding is the very bytes read. *)
Ltac accept_bytes :=
  eexists; split; [reflexivity|]; wirenorm; rewrite ?app_nil_r;
  split; [by autorewrite with len; lia | done].
Ltac accept_arm :=
  unfold is_array;
  split; [done|]; split; [by replay|]; split; [by replay|];
  replay; accept_bytes.

Lemma along_accepted id make ty pre (along : Z) :
  (forall along, event_type (make along) = ty
     /\ canonical (make along) = f32_is_finite along && (f32_clamp01 along =? along)
     /\ wf_event (make along) = is_u32 along
     /\ normalising (make along) = true
     /\ encode_body [id] (make along) = Ok (put_u32 (id :: pre) along)) ->
  is_u32 along = true -> f32_is_finite along = true ->
  event_type (make (f32_clamp01 along)) = ty /\ accepted (make (f32_clamp01 along)) id (pre ++ to_be_bytes 4 along).
Proof.
  intros Hmake Hu Hf. unfold accepted.
  destruct (Hmake (f32_clamp01 along)) as (-> & -> & -> & -> & ->).
  destruct (f32_clamp01_stable along Hu Hf) as (-> & -> & ->).
  split_and!; [done..| by rewrite Z.eqb_refl |].
  eexists; split; [reflexivity|]. wirenorm. by autorewrite with len.
Qed.

Section accepted_arms.
Context (id : Z) (body : bytes).
Hypothesis Hbody : all_u8 body = true.
Hypothesis Hlen : 1 + len body <= MAX_DATAGRAM_SIZE.

Lemma clipboard_chunk_accepted e :
  decode_clipboard_chunk body = Ok (e, []) ->
  event_type e = EventType.ClipboardChunk /\ accepted e id body.
Proof using Hbody Hlen.
  unfold decode_clipboard_chunk, accepted. intros H. inv_ok H. read_more.
  cbn [event_type wf_event canonical encode_body normalising]. unfold encode_clipboard_chunk.
  match goal with |- context [if ?c then Err _ else _] =>
    assert (c = false) by (autorewrite with len in Hlen; limits; zbool) end.
  accept_arm.
Qed.

Lemma transfer_cancel_accepted e :
  decode_transfer_cancel body = Ok (e, []) ->
  event_type e = EventType.ClipboardTransferCancel /\ accepted e id body.
Proof using Hbody Hlen.
  unfold decode_transfer_cancel, accepted, nonzero. intros H.
  destruct (get_u64 body) as [[v b]|] eqn:E1; [|done]. destruct (get_u64 b) as [[f b']|] eqn:E2; [|done].
  inv_ok H. read_more. cbn [event_type wf_event canonical encode_body normalising].
  unfold encode_transfer_cancel.
  destruct (Z.eqb_spec f 0) as [->|Hf]; cbn [default]; [accept_arm|].
  assert (is_option is_u64 (Some f) = true) by done.
  assert (bool_decide (Some f = Some 0) = false) by (apply bool_decide_eq_false; congruence).
  accept_arm.
Qed.

Lemma transfer_progress_accepted e :
  decode_transfer_progress body = Ok (e, []) ->
  event_type e = EventType.ClipboardTransferProgress /\ accepted e id body.
Proof using Hbody Hlen.
  autounfold with codec. unfold accepted, validate_progress, validate_file_position.
  intros H. inv_ok H. read_more.
  match goal with E : (if _ <? _ then _ else _) = _ |- _ => inv_ok E end.
  cbn [event_type wf_event canonical encode_body normalising]. autounfold with codec.
  match goal with H : (MAX_CLIPBOARD_SIZE <? ?t) = false |- _ =>
    assert ((t <=? MAX_CLIPBOARD_SIZE) = true) by zbool end.
  accept_arm.
Qed.

Lemma manifest_accepted e :
  decode_manifest body = Ok (e, []) ->
  event_type e = EventType.ClipboardManifest /\ accepted e id body.
Proof using Hbody Hlen.
  unfold decode_manifest, accepted. intros H. inv_ok H. read_more.
  match goal with E : decode_entries _ _ _ _ = _ |- _ =>
    apply decode_entries_read in E as (Hn & Hes & _ & Henc); [|done] end.
  cbn [event_type wf_event canonical encode_body normalising]. unfold encode_manifest.
  match goal with |- context [len ?es =? 0] => replace (len es) with z0 by (unfold len; zbool) end.
  split; [done|]. split; [by replay|]. split; [done|]. replay.
  edestruct Henc as (bs & -> & Hbs). rewrite app_nil_r in Hbs. subst bs. replay.
  wirenorm. rewrite len_cons.
  match goal with |- context [if ?c then Err _ else _] => assert (c = false) by zbool end.
  replay. eexists; split; [done|]. by rewrite len_cons.
Qed.

Lemma page_end_accepted e :
  decode_page_end body = Ok (e, []) ->
  event_type e = EventType.HistorySyncPageEnd /\ accepted e id body.
Proof using Hbody Hlen.
  unfold decode_page_end, accepted. intros H. inv_ok H. read_more.
  match goal with E : get_optional_u64 _ = _ |- _ =>
    apply get_optional_u64_read in E as (Hput & Hn & _); [|done] end.
  cbn [event_type wf_event canonical encode_body normalising].
  split; [done|]. split; [by replay|]. split; [done|].
  specialize (Hput (put_u64 [id] z)). rewrite app_nil_r in Hput. rewrite Hput. accept_bytes.
Qed.

Lemma boundary_accepted make ty e :
  (forall op b, event_type (make op b) = ty /\ canonical (make op b) = true
     /\ wf_event (make op b) = is_array 16 op && wf_boundary b
     /\ normalising (make op b) = false
     /\ encode_body [id] (make op b) = encode_history_boundary (put_bytes [id] op) b) ->
  decode_clear_boundary make body = Ok (e, []) ->
  event_type e = ty /\ accepted e id body.
Proof using Hbody Hlen.
  unfold decode_clear_boundary, decode_history_boundary, accepted. intros Hmake H.
  inv_ok H. read_more.
  match goal with E : decode_boundary_entries _ _ = Ok (?b, _) |- _ =>
    apply decode_boundary_read in E as (Hn & Hes & _ & Henc); [|done] end.
  match goal with |- event_type (make ?op ?b) = _ /\ _ =>
    destruct (Hmake op b) as (-> & -> & -> & -> & ->) end.
  unfold is_array, encode_history_boundary.
  match goal with |- context [MAX_HISTORY_BOUNDARY_ENTRIES <? len ?es] =>
    replace (len es) with z by (unfold len; zbool) end.
  split; [done|]. split; [by replay|]. split; [done|]. replay.
  edestruct Henc as (bs & -> & Hbs). rewrite app_nil_r in Hbs. subst bs. replay.
  wirenorm. rewrite len_cons.
  match goal with |- context [if ?c then Err _ else _] => assert (c = false) by zbool end.
  replay. eexists; split; [done|]. by rewrite len_cons.
Qed.

Lemma clear_ack_accepted e :
  decode_clear_ack body = Ok (e, []) ->
  event_type e = EventType.HistoryClearAck /\ accepted e id body.
Proof using Hbody Hlen.
  unfold decode_clear_ack, accepted. intros H. inv_ok H. read_more.
  match goal with E : get_optional_string _ = _ |- _ =>
    apply get_optional_string_read in E as (Hput & Hn & _); [|done] end.
  cbn [event_type wf_event canonical encode_body normalising]. unfold is_array.
  split; [done|]. split; [by replay|]. split; [done|].
  edestruct Hput as (bs & -> & Hbs). rewrite app_nil_r in Hbs. subst bs. accept_bytes.
Qed.

Lemma manual_result_accepted e :
  decode_manual_result body = Ok (e, []) ->
  event_type e = EventType.ManualFileResult /\ accepted e id body.
Proof using Hbody Hlen.
  unfold decode_manual_result, accepted. intros H. inv_ok H. read_more.
  match goal with E : get_optional_string _ = _ |- _ =>
    apply get_optional_string_read in E as (Hput & Hn & _); [|done] end.
  cbn [event_type wf_event canonical encode_body normalising]. unfold encode_manual_result.
  split; [done|]. split; [by replay|]. split; [done|]. replay.
  edestruct Hput as (bs & -> & Hbs). rewrite app_nil_r in Hbs. subst bs. accept_bytes.
Qed.

Lemma handoff_accepted make ty e :
  (forall side target, event_type (make side target) = ty
     /\ canonical (make side target) = (len target <=? MAX_HANDOFF_TARGET)
     /\ wf_event (make side target) = utf8_valid target
     /\ normalising (make side target) = false
     /\ encode_body [id] (make side target) = Ok (encode_handoff [id] side target)) ->
  decode_handoff make body = Ok (e, []) ->
  event_type e = ty /\ accepted e id body.
Proof using Hbody Hlen.
  autounfold with codec. unfold accepted. intros Hmake H. inv_ok H. read_more.
  match goal with |- event_type (make ?s ?t) = _ /\ _ =>
    destruct (Hmake s t) as (-> & -> & -> & -> & ->);
    assert (Z.min (len t) MAX_HANDOFF_TARGET = len t) as -> by zbool;
    assert ((len t <=? MAX_HANDOFF_TARGET) = true) by zbool;
    rewrite (take_ge t) by zbool
  end.
  subst. accept_arm.
Qed.

End accepted_arms.

Section body_accepted.
Context (id : Z) (body : bytes).
Hypothesis Hbody : all_u8 body = true.
Hypothesis Hlen : 1 + len body <= MAX_DATAGRAM_SIZE.

Lemma body_accepted ty e :
  decode_body ty body = Ok (e, []) -> event_type e = ty /\ accepted e id body.
Proof using Hbody Hlen.
  intros H. destruct ty; cbn [decode_body] in H;
    eauto using clipboard_chunk_accepted, transfer_cancel_accepted, transfer_progress_accepted,
      manifest_accepted, page_end_accepted, clear_ack_accepted, manual_result_accepted.
  all: try (eapply boundary_accepted; [done|done| |exact H]; intros; split_and!; reflexivity).
  all: try (eapply handoff_accepted; [done|done| |exact H]; intros; split_and!; reflexivity).
  all: autounfold with codec in H; inv_ok H; read_more; subst.
  all: try (unfold accepted; cbn [event_type wf_event canonical encode_body normalising wf_input encode_input];
    autounfold with codec; accept_arm; fail).
  all: boolsplit; rewrite app_nil_r.
  - by apply (along_accepted id (ProtoEvent.EnterAt t) _ [_]).
  - by apply (along_accepted id ProtoEvent.LeaveAt _ []).
Qed.
End body_accepted.
