(* ===== verification/ProtoTheorems.v ===== *)
(** * The peer protocol: its theorems

    Round trip, acceptance, framing and size of the datagram codec, proved from
    the arms of [ProtoRoundTrip]. *)

From S2P Require Import Prelude Wire ProtoTypes ProtoValid ProtoEncode ProtoDecode.
From S2P Require Import ProtoRoundTrip.

(** ** Reading a prefix

    A reader that succeeded does the same on a longer buffer and leaves the
    rest.  All bodies are read by such readers, except the chunk bodies, which
    take what is left of the datagram. *)

Class PrefixReader {A} (f : bytes -> presult (A * bytes)) : Prop :=
  prefix_read : forall buf v r x, f buf = Ok (v, r) -> f (buf ++ x) = Ok (v, r ++ x).

Lemma take_bytes_prefix buf n v r x :
  take_bytes buf n = Ok (v, r) -> take_bytes (buf ++ x) n = Ok (v, r ++ x).
Proof.
  unfold take_bytes. intros H. inv_ok H. rewrite len_app.
  pose proof (len_nonneg x). destruct (Z.ltb_spec (len buf + len x) n); [lia|].
  unfold len in *. by rewrite take_app_le, drop_app_le by lia.
Qed.

Ltac prefix_step :=
  match goal with
  | E : take_bytes ?b ?n = Ok (?v, ?r) |- context [take_bytes (?b ++ ?x) ?n] =>
      rewrite (take_bytes_prefix b n v r x E)
  | E : ?f ?b = Ok (?v, ?r) |- context [?f (?b ++ ?x)] =>
      rewrite (prefix_read (f := f) b v r x E)
  | H : ?x = Ok _ |- context [?x] => rewrite H
  | H : ?x = false |- context [?x] => rewrite H
  | H : ?x = true |- context [?x] => rewrite H
  end.

Ltac prefix_reader := intros buf v r x H; inv_ok H; repeat prefix_step; done.

#[global] Instance get_u8_prefix : PrefixReader get_u8.
Proof. unfold get_u8. prefix_reader. Qed.
#[global] Instance get_u16_prefix : PrefixReader get_u16.
Proof. unfold get_u16. prefix_reader. Qed.
#[global] Instance get_u32_prefix : PrefixReader get_u32.
Proof. unfold get_u32. prefix_reader. Qed.
#[global] Instance get_u64_prefix : PrefixReader get_u64.
Proof. unfold get_u64. prefix_reader. Qed.
#[global] Instance get_i32_prefix : PrefixReader get_i32.
Proof. unfold get_i32. prefix_reader. Qed.
#[global] Instance get_f64_prefix : PrefixReader get_f64.
Proof. unfold get_f64. prefix_reader. Qed.
#[global] Instance get_bool_prefix : PrefixReader get_bool.
Proof. unfold get_bool. prefix_reader. Qed.
#[global] Instance get_optional_u64_prefix : PrefixReader get_optional_u64.
Proof. unfold get_optional_u64. prefix_reader. Qed.
#[global] Instance get_optional_string_prefix : PrefixReader get_optional_string.
Proof. unfold get_optional_string. prefix_reader. Qed.
#[global] Instance get_position_prefix : PrefixReader get_position.
Proof. unfold get_position. prefix_reader. Qed.
#[global] Instance get_entry_kind_prefix : PrefixReader get_entry_kind.
Proof. unfold get_entry_kind. prefix_reader. Qed.
#[global] Instance get_cancel_reason_prefix : PrefixReader get_cancel_reason.
Proof. unfold get_cancel_reason. prefix_reader. Qed.
#[global] Instance get_manual_decision_prefix : PrefixReader get_manual_decision.
Proof. unfold get_manual_decision. prefix_reader. Qed.

Lemma decode_entries_prefix n : forall buf prev total es r x,
  decode_entries n buf prev total = Ok (es, r) ->
  decode_entries n (buf ++ x) prev total = Ok (es, r ++ x).
Proof.
  induction n as [|n IH]; intros buf prev total es r x H; cbn [decode_entries] in *.
  - by inv_ok H.
  - inv_ok H. repeat prefix_step.
    match goal with E : decode_entries n _ _ _ = _ |- _ => by rewrite (IH _ _ _ _ _ x E) end.
Qed.

#[global] Instance decode_boundary_entries_prefix n : PrefixReader (decode_boundary_entries n).
Proof.
  induction n as [|n IH]; intros buf b r x H; cbn [decode_boundary_entries] in *.
  - by inv_ok H.
  - inv_ok H. by repeat prefix_step.
Qed.

#[global] Instance decode_history_boundary_prefix : PrefixReader decode_history_boundary.
Proof. unfold decode_history_boundary. prefix_reader. Qed.

#[global] Instance decode_manifest_prefix : PrefixReader decode_manifest.
Proof.
  unfold decode_manifest. intros buf v r x H. inv_ok H. repeat prefix_step.
  match goal with E : decode_entries _ _ _ _ = _ |- _ =>
    by rewrite (decode_entries_prefix _ _ _ _ _ _ x E) end.
Qed.

(** The bodies that take the rest of the datagram. *)
Definition takes_rest (ty : EventType.t) : bool :=
  match ty with
  | EventType.ProfileChunk | EventType.ClipboardChunk | EventType.ClipboardFileChunk
  | EventType.HistoryRecordChunk | EventType.ManualFileChunk => true
  | _ => false
  end.

Lemma decode_body_prefix ty buf e r x :
  takes_rest ty = false ->
  decode_body ty buf = Ok (e, r) -> decode_body ty (buf ++ x) = Ok (e, r ++ x).
Proof.
  intros Hty H. destruct ty; try discriminate Hty; cbn [decode_body] in *;
    try (by apply prefix_read);
    autounfold with codec in *; inv_ok H; by repeat prefix_step.
Qed.

(** ** Encoding, then decoding *)

Lemma image_canonical e : wire_image e = Ok e -> canonical e = true.
Proof.
  destruct e; cbn [canonical wire_image]; try done;
    unfold along_image, handoff_image; intros H.
  1,4: destruct (f32_is_finite _); [|done]; injection H as E; rewrite E; cbn; lia.
  1,2: destruct (utf8_valid _); [|done]; injection H as E;
    apply (f_equal len) in E; rewrite len_take in E; limits; zbool.
  - injection H as E. destruct file_id as [f|]; [|done]. cbn in E.
    apply negb_true_iff, bool_decide_eq_false. intros [= ->]. discriminate E.
  - unfold validate_progress, validate_file_position in H.
    destruct (file_id =? 0); [done|].
    destruct (MAX_CLIPBOARD_SIZE <? total) eqn:E; [done|]. cbn. lia.
Qed.

(** C1: sending a message of the protocol through the wire format.  The peer
    decodes the datagram that [encode] wrote to the image of the message, so
    every field of every kind of message arrives; and the message arrives
    exactly as it was sent if, and only if, it is canonical (its edge position
    finite and in [[0,1]], its hand-off target within 128 bytes, its progress
    within the receiver's limits). *)
Theorem encode_decode_round_trip e bs :
  wf_event e = true -> encode e = Ok bs ->
  decode bs = wire_image e /\ (decode bs = Ok e <-> canonical e = true).
Proof.
  intros Hwf H. rewrite (encode_decode_image e bs Hwf H). split; [done|].
  split; [apply image_canonical | by apply (canonical_image e bs)].
Qed.

Definition sample_chunk : ProtoEvent :=
  ProtoEvent.ClipboardFileChunk 7 3 2 1024 [1; 2; 255].

Lemma encode_decode_round_trip_witness :
  decode [18; 0;0;0;0;0;0;0;7; 0;0;0;0;0;0;0;3; 0;0;0;0;0;0;0;2; 0;0;0;0;0;0;4;0; 1;2;255]
  = Ok sample_chunk.
Proof.
  apply (encode_decode_round_trip sample_chunk); vm_compute; reflexivity.
Defined.

(** ** Decoding, then encoding *)

Lemma decode_split bs e :
  all_u8 bs = true -> decode bs = Ok e ->
  exists id body, bs = id :: body /\ is_u8 id = true /\ all_u8 body = true
    /\ 1 + len body <= MAX_DATAGRAM_SIZE
    /\ EventType.try_from id = Ok (event_type e)
    /\ decode_body (event_type e) body = Ok (e, [])
    /\ accepted e id body.
Proof.
  intros Hu H. unfold decode in H. inv_ok H. read_more.
  match goal with E : decode_body ?ty ?body = Ok (e, ?r) |- _ =>
    assert (r = []) as -> by (apply len_zero_iff; boolsplit; lia);
    assert (1 + len body <= MAX_DATAGRAM_SIZE) by (rewrite len_cons in *; lia);
    destruct (body_accepted z body ltac:(done) ltac:(done) ty e E) as [? Hacc]; subst ty
  end.
  eauto 10.
Qed.

(** C2: what the decoder accepts.  A datagram that [decode] turns into a
    message gives a value of the message type, which is canonical, can be sent
    again by [encode] (the encoder's validation never refuses what the decoder
    accepted), in a datagram of the same length that decodes to the same
    message; and that datagram is the received one bit for bit, except where
    the decoder normalises (the truth value of [Pong], clamped positions). *)
Theorem decode_reencode bs e :
  all_u8 bs = true -> decode bs = Ok e ->
  wf_event e = true /\ canonical e = true /\
  exists bs', encode e = Ok bs' /\ len bs' = len bs /\ decode bs' = Ok e
    /\ (normalising e = false -> bs' = bs).
Proof.
  intros Hu H. destruct (decode_split bs e Hu H)
    as (id & body & -> & _ & _ & Hlen & Hid & _ & Hwf & Hc & bs' & Henc & Hl & Hbs).
  apply EventType.try_from_inv in Hid as <-.
  assert (encode e = Ok bs') as He.
  { unfold encode. rewrite Henc. destruct (Z.ltb_spec MAX_DATAGRAM_SIZE (len bs')); [lia|done]. }
  split_and!; [done..|]. exists bs'. split_and!; [done | by rewrite len_cons | | done].
  by rewrite (encode_decode_image e bs' Hwf He), (canonical_image e bs').
Qed.

Lemma decode_reencode_witness :
  wf_event (ProtoEvent.Pong true) = true /\ canonical (ProtoEvent.Pong true) = true /\
  exists bs', encode (ProtoEvent.Pong true) = Ok bs' /\ len bs' = len [7; 200]
    /\ decode bs' = Ok (ProtoEvent.Pong true)
    /\ (normalising (ProtoEvent.Pong true) = false -> bs' = [7; 200]).
Proof.
  apply (decode_reencode [7; 200]); vm_compute; reflexivity.
Defined.

(** ** Framing *)

(** Framing is strict.  Bytes appended to a datagram whose body is not a
    chunk are never ignored: the decoder answers [TrailingBytes] with their
    number, or [TooLarge] when the datagram got too long. *)
Theorem decode_trailing bs e x :
  decode bs = Ok e -> takes_rest (event_type e) = false -> all_u8 bs = true -> x <> [] ->
  decode (bs ++ x) =
    if MAX_DATAGRAM_SIZE <? len (bs ++ x)
    then Err (TooLarge (len (bs ++ x)) MAX_DATAGRAM_SIZE) else Err (TrailingBytes (len x)).
Proof.
  intros H Hty Hu Hx.
  destruct (decode_split bs e Hu H) as (id & body & -> & _ & _ & _ & Hid & Hbody & _).
  unfold decode. destruct (MAX_DATAGRAM_SIZE <? len ((id :: body) ++ x)); [done|].
  cbn [app]. rewrite get_u8_cons, Hid, (decode_body_prefix _ _ _ _ x Hty Hbody). cbn [app].
  destruct (Z.eqb_spec (len x) 0) as [E|]; [|done]. by apply len_zero_iff in E.
Qed.

Lemma decode_trailing_witness :
  decode ([10; 0; 0; 0; 9] ++ [0]) = Err (TrailingBytes 1).
Proof.
  apply (decode_trailing [10; 0; 0; 0; 9] (ProtoEvent.Ack 9) [0]);
    [vm_compute; reflexivity.. | discriminate].
Defined.

(** ** Size and bytes of a datagram *)

Ltac byte_range :=
  repeat match goal with
  | H : context [if ?c then _ else _] |- _ => destruct c eqn:?
  end;
  unfold cont, between in *; zbool.

Lemma utf8_valid_u8_upto n : forall s,
  (length s <= n)%nat -> utf8_valid s = true -> all_u8 s = true.
Proof.
  induction n as [|n IH]; intros s Hn H; [by destruct s; cbn in Hn; try lia|].
  assert (forall s', utf8_valid s' = true -> (length s' < length s)%nat -> all_u8 s' = true)
    as Hs by (intros; apply IH; [lia | done]).
  clear IH. destruct s as [|b0 r0]; [done|]. cbn [utf8_valid] in H.
  destruct (between 0 127 b0) eqn:?; [|destruct r0 as [|b1 r1]; [done|]];
    [|destruct (between 194 223 b0) eqn:?; [|destruct r1 as [|b2 r2]; [done|]]];
    [| |destruct (between 224 239 b0) eqn:?; [|destruct r2 as [|b3 r3]; [done|]]];
    boolsplit;
    match goal with U : utf8_valid _ = true |- _ => apply Hs in U; [|cbn; lia] end;
    rewrite ?all_u8_cons; boolgoal; try done; byte_range.
Qed.

Lemma utf8_valid_u8 s : utf8_valid s = true -> all_u8 s = true.
Proof. by apply (utf8_valid_u8_upto (length s)). Qed.

Lemma all_u8_take n s : all_u8 s = true -> all_u8 (take n s) = true.
Proof. rewrite <- (take_drop n s) at 1. rewrite all_u8_app. intros H. by boolsplit. Qed.

Lemma is_u8_b2z b : is_u8 (Z.b2z b) = true.
Proof. by destruct b. Qed.

Lemma is_u8_position p : is_u8 (Position.to_u8 p) = true.
Proof. by destruct p. Qed.

Lemma is_u8_cancel_reason c : is_u8 (cancel_reason_to_u8 c) = true.
Proof. by destruct c. Qed.

Lemma is_u8_manual_decision d : is_u8 (manual_decision_to_u8 d) = true.
Proof. by destruct d. Qed.

Create Rewrite HintDb u8.
#[export] Hint Rewrite is_u8_position is_u8_cancel_reason is_u8_manual_decision : u8.
#[export] Hint Rewrite all_u8_app all_u8_cons all_u8_to_be_bytes is_u8_b2z : u8.

Ltac u8_bytes :=
  wirenorm; autorewrite with u8; boolgoal;
  try done; eauto using utf8_valid_u8, all_u8_take.

Lemma encode_entries_u8 es : forall buf prev total bs,
  all_u8 buf = true -> forallb wf_entry es = true ->
  encode_entries buf prev total es = Ok bs -> all_u8 bs = true.
Proof.
  induction es as [|e es IH]; intros buf prev total bs Hbuf Hwf H;
    cbn [encode_entries forallb] in *; [by inv_ok H|].
  unfold wf_entry in Hwf. boolsplit. inv_ok H. eapply IH in H; [done| |done].
  u8_bytes.
Qed.

Lemma encode_boundary_u8 b : forall buf bs,
  all_u8 buf = true -> wf_boundary b = true ->
  encode_boundary_entries buf b = Ok bs -> all_u8 bs = true.
Proof.
  induction b as [|[device sequence] b IH]; intros buf bs Hbuf Hwf H;
    cbn [encode_boundary_entries wf_boundary forallb] in *; [by inv_ok H|].
  apply andb_prop in Hwf as [Hd Hb]. boolsplit. inv_ok H. eapply IH in H; [done| |done].
  u8_bytes.
Qed.

Lemma put_optional_u64_u8 buf v :
  all_u8 buf = true -> all_u8 (put_optional_u64 buf v) = true.
Proof. intros. unfold put_optional_u64. destruct v; u8_bytes. Qed.

Lemma put_optional_string_u8 buf v bs :
  all_u8 buf = true -> is_option utf8_valid v = true ->
  put_optional_string buf v = Ok bs -> all_u8 bs = true.
Proof.
  unfold is_option, put_optional_string. intros Hbuf Hv H.
  destruct v; cbn in Hv; inv_ok H; u8_bytes.
Qed.

Lemma encode_body_u8 e id bs :
  is_u8 id = true -> wf_event e = true -> encode_body [id] e = Ok bs -> all_u8 bs = true.
Proof.
  intros Hid Hwf H.
  destruct e; cbn [wf_event encode_body] in *;
    try match goal with e : InputEvent.t |- _ => destruct e as [[]|[]] end;
    autounfold with codec in H; cbn [wf_input encode_input] in *; unfold is_array in *;
    boolsplit; inv_ok H;
    try (u8_bytes; try (destruct_all bool; done); fail);
    try (eapply put_optional_string_u8; [| |eassumption]; [u8_bytes | done]).
  - boolsplit. match goal with E : invalid_profile_metadata _ _ _ _ _ = false |- _ =>
      unfold invalid_profile_metadata in E; boolsplit end.
    assert (is_u8 (len display_name) = true) by (limits; zbool). u8_bytes.
  - eapply encode_entries_u8; [| |eassumption]; [u8_bytes | done].
  - by apply put_optional_u64_u8; u8_bytes.
  - eapply encode_boundary_u8; [| |eassumption]; [u8_bytes | done].
  - eapply encode_boundary_u8; [| |eassumption]; [u8_bytes | done].
Qed.

(** The kinds of message that may need a datagram larger than
    [SAFE_DATAGRAM_SIZE], which the network may fragment. *)
Definition may_fragment (ty : EventType.t) : bool :=
  match ty with
  | EventType.ClipboardChunk | EventType.ClipboardManifest | EventType.HistoryClearBoundary
  | EventType.HistoryClearApply | EventType.HistoryClearAck => true
  | _ => false
  end.

Lemma encode_body_safe e id bs :
  wf_event e = true -> encode_body [id] e = Ok bs -> may_fragment (event_type e) = false ->
  len bs <= SAFE_DATAGRAM_SIZE.
Proof.
  intros Hwf H Hf.
  destruct e; try discriminate Hf; cbn [wf_event encode_body] in *;
    try match goal with e : InputEvent.t |- _ => destruct e as [[]|[]] end;
    autounfold with codec in H; unfold is_array, put_optional_u64, put_optional_string in *;
    cbn [wf_input encode_input] in *; boolsplit; inv_ok H; boolsplit;
    wirenorm; autorewrite with len; try (limits; zbool).
  - unfold invalid_profile_metadata in *. boolsplit. limits; zbool.
  - match goal with E : validate_file_chunk _ _ = Ok _ |- _ =>
      unfold validate_file_chunk in E; inv_ok E end. boolsplit. limits; zbool.
  - match goal with E : validate_manual_file_name _ = Ok _ |- _ =>
      destruct (validate_manual_file_name_len _ _ E) end. boolsplit. limits; zbool.
  - unfold oversized_error in *. limits; zbool.
  - destruct next_offset; autorewrite with len; limits; zbool.
Qed.

(** C4: what goes on the wire.  An encoded message is a non-empty string of
    bytes that starts with the id of its kind, within [MAX_DATAGRAM_SIZE]; and
    within [SAFE_DATAGRAM_SIZE], the size that is not fragmented, for all kinds
    but five: every chunk of a file, of a record or of a picture fits. *)
Theorem encode_datagram e bs :
  wf_event e = true -> encode e = Ok bs ->
  (exists body, bs = EventType.to_u8 (event_type e) :: body) /\ all_u8 bs = true
  /\ len bs <= (if may_fragment (event_type e) then MAX_DATAGRAM_SIZE else SAFE_DATAGRAM_SIZE).
Proof.
  intros Hwf H. unfold encode in H. inv_ok H.
  match goal with E : encode_body _ _ = _ |- _ =>
    destruct (body_round_trip _ _ _ Hwf E) as (body & Hbody & _);
    split_and!; [by exists body | eapply encode_body_u8; [|exact Hwf|exact E] |] end.
  - by destruct (event_type e).
  - destruct (may_fragment (event_type e)) eqn:Hf; [lia|].
    by eapply encode_body_safe.
Qed.

Lemma encode_datagram_witness :
  exists bs, encode (ProtoEvent.ManualFileChunk 1 0 (repeat 170 1183)) = Ok bs
    /\ len bs <= SAFE_DATAGRAM_SIZE.
Proof.
  eexists. split; [vm_compute; reflexivity|].
  apply (encode_datagram (ProtoEvent.ManualFileChunk 1 0 (repeat 170 1183)));
    vm_compute; reflexivity.
Defined.

(** ** Event ids *)

(** The id space.  The ids of the kinds of message are distinct, they are
    exactly the 46 values below 46, and a datagram that starts with any other
    byte is refused with [InvalidEventId]. *)
Theorem event_ids :
  (forall ty ty', EventType.to_u8 ty = EventType.to_u8 ty' -> ty = ty')
  /\ (forall id, is_u8 id = true ->
      (exists ty, EventType.to_u8 ty = id) <-> id < 46)
  /\ (forall id body, is_u8 id = true -> 46 <= id -> len (id :: body) <= MAX_DATAGRAM_SIZE ->
      decode (id :: body) = Err (InvalidEventId id)).
Proof.
  split_and!; [apply EventType.to_u8_inj | |].
  - intros id Hid. split.
    + intros [ty <-]. by destruct ty.
    + intros Hlt. destruct (lookup_lt_is_Some_2 EventType.variants (Z.to_nat id)) as [ty Hty];
        [vm_compute (length _); zbool|].
      exists ty. rewrite (EventType.variants_to_u8 _ _ Hty). zbool.
  - intros id body Hid Hge Hlen. unfold decode. destruct (Z.ltb_spec MAX_DATAGRAM_SIZE (len (id :: body))); [lia|].
    rewrite get_u8_cons. unfold EventType.try_from.
    by rewrite lookup_ge_None_2 by (vm_compute (length _); zbool).
Qed.

Lemma event_ids_witness :
  is_u8 46 = true /\ decode [46; 0] = Err (InvalidEventId 46).
Proof.
  split; [reflexivity|].
  apply (proj2 (proj2 event_ids)); [reflexivity | lia | vm_compute; discriminate].
Defined.


(** ** Manifests *)

(** The files of a manifest, each with an id above the last one, all together
    within the size limit. *)
Fixpoint sound_entries (previous total : Z) (entries : list ClipboardManifestEntry) : Prop :=
  match entries with
  | [] => total <= MAX_CLIPBOARD_SIZE
  | e :: entries =>
      previous < entry_file_id e
      /\ validate_path (entry_path e) = Ok tt
      /\ (entry_kind e = ClipboardEntryKind.Directory -> entry_size e = 0)
      /\ sound_entries (entry_file_id e) (total + entry_size e) entries
  end.

Lemma encode_entries_sound es : forall buf prev total bs,
  0 <= prev -> total <= MAX_CLIPBOARD_SIZE ->
  forallb wf_entry es = true -> encode_entries buf prev total es = Ok bs ->
  sound_entries prev total es.
Proof.
  induction es as [|e es IH]; intros buf prev total bs Hprev Ht Hwf H;
    cbn [encode_entries forallb sound_entries] in *; [done|].
  unfold wf_entry in Hwf. boolsplit. inv_ok H. boolsplit.
  match goal with E : validate_path _ = Ok ?u |- _ => destruct u end.
  match goal with E : ok_or _ _ = Ok _ |- _ => apply ok_or_Ok, checked_add_Some in E as [-> _] end.
  split_and!; [lia | done | |].
  - intros Hk. unfold is_directory in *. rewrite Hk in *.
    rewrite bool_decide_eq_true_2 in * by done. cbn [andb] in *. boolsplit. lia.
  - eapply IH; [| |done|eassumption]; lia.
Qed.

(** Manifests.  A manifest that [decode] accepts lists between 1 and 256
    entries with positive, strictly increasing file ids, every path passing
    [validate_path], directories without content, and at most 64 MiB in all:
    a receiver can key files by id and bound what it stores from it. *)
Theorem decode_manifest_sound bs transfer_id entries :
  all_u8 bs = true -> decode bs = Ok (ProtoEvent.ClipboardManifest transfer_id entries) ->
  sound_entries 0 0 entries /\ 1 <= len entries <= MAX_CLIPBOARD_MANIFEST_ENTRIES.
Proof.
  intros Hu H. destruct (decode_split _ _ Hu H)
    as (id & body & _ & _ & _ & _ & _ & _ & Hwf & _ & bs' & Henc & _).
  cbn [encode_body wf_event] in *. unfold encode_manifest in Henc. inv_ok Henc. boolsplit.
  split; [|pose proof (len_nonneg entries); lia].
  eapply encode_entries_sound; [| |done|eassumption]; limits; lia.
Qed.

Definition sample_manifest : ProtoEvent :=
  ProtoEvent.ClipboardManifest 9
    [ {| entry_file_id := 1; entry_path := str "docs"; entry_kind := ClipboardEntryKind.Directory;
         entry_size := 0 |};
      {| entry_file_id := 4; entry_path := str "docs/a.txt"; entry_kind := ClipboardEntryKind.File;
         entry_size := 12 |} ].

Lemma decode_manifest_sound_witness :
  exists entries, sound_entries 0 0 entries /\ 1 <= len entries <= MAX_CLIPBOARD_MANIFEST_ENTRIES.
Proof.
  eexists. eapply (decode_manifest_sound
    (match encode sample_manifest with Ok bs => bs | Err _ => [] end) 9);
    vm_compute; reflexivity.
Defined.
