(* ===== verification/HistorySync.v ===== *)
(** * History synchronisation: chunked records

    [Reassembler], [record_events] and the clear boundary operations of
    [crates/syntra-core/src/history_sync.rs].  The peer type [P] and the codec
    of a record (the [bincode] crate) are parameters. *)

From stdpp Require Import sorting.
From S2P Require Import Prelude ProtoTypes ProtoValid.

Definition PAGE_SIZE : Z := 8.
(** Times are in milliseconds. *)
Definition CLEAR_TIMEOUT : Z := 5 * 1000.
Definition MAX_PENDING_RECORDS : Z := 8.
Definition MAX_PENDING_BYTES : Z := MAX_HISTORY_RECORD_SIZE.

(** What a call does: return, or panic (an [expect] on [None]). *)
Inductive call (A : Type) : Type :=
| Returned (a : A)
| Panicked.
Arguments Returned {A} a.
Arguments Panicked {A}.

Record PendingRecord := {
  p_received : Z;
  p_total_len : Z;
  p_chunks : list (option bytes);
  p_started : Z;
}.

(** [slice::chunks]: pieces of [n] elements, the last one shorter. *)
Fixpoint chunks_fuel (fuel : nat) (n : nat) (l : bytes) : list bytes :=
  match fuel, l with
  | S fuel, _ :: _ => take n l :: chunks_fuel fuel n (drop n l)
  | _, _ => []
  end.
Definition chunks (n : Z) (l : bytes) : list bytes := chunks_fuel (length l) (Z.to_nat n) l.

(** [for chunk in record.chunks { bytes.extend(chunk.expect(..)) }] *)
Fixpoint gather (slots : list (option bytes)) : option bytes :=
  match slots with
  | [] => Some []
  | None :: _ => None
  | Some data :: slots => app data <$> gather slots
  end.

Section history_sync.
Context {P : Type} `{Countable P}.
Context {Event : Type}.
(** [history_codec().serialize] and [deserialize]; the error of the first is its message. *)
Context (serialize : Event -> result string bytes).
Context (deserialize : bytes -> option Event).

Abbreviation key := (P * Z * Z)%type (only parsing).

Record Reassembler := {
  records : gmap (P * Z * Z) PendingRecord;
  pending_bytes : Z;
}.

Definition empty_reassembler : Reassembler := {| records := ∅; pending_bytes := 0 |}.

(** [Reassembler::start]; [now] is [Instant::now()]. *)
Definition start (r : Reassembler) (peer : P) (request_id record_id total_len chunks now : Z)
    : Reassembler * result string unit :=
  if (total_len =? 0) || (MAX_HISTORY_RECORD_SIZE <? total_len)
  then (r, Err "history record exceeds pending limits"%string)
  else
  let expected := div_ceil total_len MAX_HISTORY_CHUNK_SIZE mod 2 ^ 32 in
  if negb (chunks =? expected) then (r, Err "invalid history record chunk count"%string)
  else
  let key := (peer, request_id, record_id) in
  match records r !! key with
  | Some previous =>
      if (p_total_len previous =? total_len) && (len (p_chunks previous) =? chunks)
      then (r, Ok tt) else (r, Err "conflicting history record start"%string)
  | None =>
      if (MAX_PENDING_RECORDS <=? Z.of_nat (size (records r)))
         || (MAX_PENDING_BYTES <? saturating_add (pending_bytes r) total_len)
      then (r, Err "history record exceeds pending limits"%string)
      else
        ({| records := <[key := {| p_received := 0; p_total_len := total_len;
                                   p_chunks := replicate (Z.to_nat chunks) None;
                                   p_started := now |}]> (records r);
            pending_bytes := pending_bytes r + total_len |}, Ok tt)
  end.

(** [self.records.remove(&key)] with its bytes given back. *)
Definition remove (r : Reassembler) (k : P * Z * Z) (record : PendingRecord) : Reassembler :=
  {| records := delete k (records r);
     pending_bytes := saturating_sub (pending_bytes r) (p_total_len record) |}.

(** The length chunk [index] of a record must have. *)
Definition expected_len (record : PendingRecord) (index : Z) : Z :=
  if index + 1 =? len (p_chunks record)
  then p_total_len record - MAX_HISTORY_CHUNK_SIZE * (len (p_chunks record) - 1)
  else MAX_HISTORY_CHUNK_SIZE.

(** [Reassembler::chunk] *)
Definition chunk (r : Reassembler) (peer : P) (request_id record_id index : Z) (data : bytes)
    : Reassembler * call (result string (option Event)) :=
  let key := (peer, request_id, record_id) in
  match records r !! key with
  | None => (r, Returned (Ok None))
  | Some record =>
      if len (p_chunks record) <=? index
      then (r, Returned (Err "invalid history record chunk index"%string))
      else if negb (len data =? expected_len record index)
      then (remove r key record, Returned (Err "invalid history record chunk length"%string))
      else
      match p_chunks record !! Z.to_nat index with
      | Some (Some previous) =>
          if bool_decide (previous = data) then (r, Returned (Ok None))
          else (r, Returned (Err "conflicting duplicate history record chunk"%string))
      | _ =>
          let record := {| p_received := p_received record + 1;
                           p_total_len := p_total_len record;
                           p_chunks := <[Z.to_nat index := Some data]> (p_chunks record);
                           p_started := p_started record |} in
          let r := {| records := <[key := record]> (records r);
                      pending_bytes := pending_bytes r |} in
          if negb (p_received record =? len (p_chunks record)) then (r, Returned (Ok None))
          else
          let r := remove r key record in
          match gather (p_chunks record) with
          | None => (r, Panicked)
          | Some bytes =>
              match deserialize bytes with
              | Some event => (r, Returned (Ok (Some event)))
              | None => (r, Returned (Err "invalid serialized history record"%string))
              end
          end
      end
  end.

(** [HashMap::retain] with the bytes of every dropped record given back; the
    fold visits the dropped records in some order. *)
Definition retain (keep : P * Z * Z -> PendingRecord -> bool) (r : Reassembler)
    : Reassembler * Z :=
  let dropped := filter (fun '(k, record) => keep k record = false) (records r) in
  ({| records := filter (fun '(k, record) => keep k record = true) (records r);
      pending_bytes := map_fold (fun _ record left => saturating_sub left (p_total_len record))
                         (pending_bytes r) dropped |},
   Z.of_nat (size dropped)).

Definition peer_lost (r : Reassembler) (peer : P) : Reassembler :=
  fst (retain (fun '(candidate, _, _) _ => negb (bool_decide (candidate = peer))) r).

Definition finish_request (r : Reassembler) (peer : P) (request_id : Z) : Reassembler * Z :=
  retain (fun '(candidate, candidate_request, _) _ =>
            negb (bool_decide (candidate = peer)) || negb (candidate_request =? request_id)) r.

(** [duration_since] saturates at zero. *)
Definition expire (r : Reassembler) (now : Z) : Reassembler * Z :=
  retain (fun _ record => saturating_sub now (p_started record) <? CLEAR_TIMEOUT) r.

(** [record_events] *)
Definition record_events (request_id record_id : Z) (record : Event)
    : result string (list ProtoEvent) :=
  let* bytes := serialize record in
  fail_if (len bytes =? 0) || (MAX_HISTORY_RECORD_SIZE <? len bytes)
    with "serialized history record exceeds protocol limit"%string in
  fail_if u32_max <? len bytes with "history record is too large"%string in
  let total_len := len bytes in
  let count := div_ceil total_len MAX_HISTORY_CHUNK_SIZE in
  Ok (ProtoEvent.HistoryRecordStart request_id record_id total_len count
      :: imap (fun index data =>
                 ProtoEvent.HistoryRecordChunk request_id record_id (Z.of_nat index) data)
              (chunks MAX_HISTORY_CHUNK_SIZE bytes)).
End history_sync.

Arguments Reassembler P {_ _}.

(** ** Clear boundaries

    [ClearBoundary] is a [BTreeMap] from device ids to sequence numbers: its
    iteration is in the byte order of the ids. *)

Abbreviation ClearBoundary := (gmap rstring Z) (only parsing).

(** [entry(origin).and_modify(max).or_insert(sequence)] *)
Definition raise_boundary (boundary : gmap rstring Z) (entry : rstring * Z) : gmap rstring Z :=
  let '(origin, sequence) := entry in
  match boundary !! origin with
  | Some known => <[origin := Z.max known sequence]> boundary
  | None => <[origin := sequence]> boundary
  end.

(** [Ord] of strings: the lexicographic order of the bytes. *)
Fixpoint str_le (s t : rstring) : bool :=
  match s, t with
  | [], _ => true
  | _ :: _, [] => false
  | x :: s, y :: t => (x <? y) || ((x =? y) && str_le s t)
  end.

Definition entry_le (a b : rstring * Z) : Prop := str_le (fst a) (fst b) = true.
#[global] Instance entry_le_dec : RelDecision entry_le.
Proof. intros a b. unfold entry_le. apply _. Defined.

(** [boundary.iter()] *)
Definition iter_boundary (boundary : gmap rstring Z) : list (rstring * Z) :=
  merge_sort entry_le (map_to_list boundary).

Definition boundary_to_wire (boundary : gmap rstring Z) : list (rstring * Z) :=
  iter_boundary boundary.

Definition boundary_from_wire (entries : list (rstring * Z)) : gmap rstring Z :=
  fold_left raise_boundary entries ∅.

Definition union_boundary (target source : gmap rstring Z) : gmap rstring Z :=
  fold_left raise_boundary (iter_boundary source) target.
