(* ===== verification/HistorySyncTheorems.v ===== *)
(** * History synchronisation: reassembly theorems

    The reassembler keeps its memory within its budget, never panics, and
    turns the events of a record back into that record, in whatever order and
    with whatever duplicates they arrive, between the messages of other
    records and peers. *)

From S2P Require Import Prelude Wire ProtoTypes ProtoValid ProtoEncode ProtoDecode.
From S2P Require Import ProtoRoundTrip HistorySync.

Abbreviation CHUNK := MAX_HISTORY_CHUNK_SIZE (only parsing).

(** ** Pieces of a byte string *)

Lemma chunks_fuel_lookup n : (0 < n)%nat -> forall fuel l i,
  (length l <= fuel)%nat ->
  chunks_fuel fuel n l !! i =
    if decide (i * n < length l)%nat then Some (take n (drop (i * n) l)) else None.
Proof.
  intros Hn. induction fuel as [|fuel IH]; intros l i Hl.
  - destruct l; cbn in Hl; [|lia]. cbn. by rewrite lookup_nil.
  - destruct l as [|x l]; [by cbn|]. cbn [chunks_fuel]. destruct i as [|i].
    + rewrite Nat.mul_0_l. cbn [lookup]. rewrite decide_True by (cbn; lia). done.
    + cbn [lookup list_lookup]. rewrite IH by (rewrite length_drop; cbn in *; lia).
      rewrite length_drop, drop_drop.
      replace (n + i * n)%nat with (S i * n)%nat by lia.
      destruct (decide (i * n < length (x :: l) - n)%nat);
        destruct (decide (S i * n < length (x :: l))%nat); try done; lia.
Qed.

Section chunks.
Context (n : Z) (l : bytes).
Hypothesis Hn : 0 < n.

Lemma chunks_lookup i :
  chunks n l !! i = if decide (Z.of_nat i * n < len l)
                    then Some (take (Z.to_nat n) (drop (i * Z.to_nat n) l)) else None.
Proof using Hn.
  unfold chunks, len. rewrite chunks_fuel_lookup by lia.
  destruct (decide _), (decide _); try done; nia.
Qed.

Lemma chunks_concat : concat (chunks n l) = l.
Proof using Hn.
  unfold chunks. generalize (le_n (length l)). generalize (length l) at 2 3.
  assert (0 < Z.to_nat n)%nat as Hn' by lia. revert Hn'. generalize (Z.to_nat n). clear Hn. intros m Hm.
  intros fuel. revert l. induction fuel as [|fuel IH]; intros l Hl.
  - destruct l; [done | cbn in Hl; lia].
  - destruct l as [|x l]; [done|]. cbn [chunks_fuel concat].
    rewrite IH by (rewrite length_drop; cbn in *; lia). apply take_drop.
Qed.

Lemma chunks_count : l <> [] -> len (chunks n l) = div_ceil (len l) n.
Proof using Hn.
  intros Hl. symmetry. assert (0 < len l) by (rewrite <- len_zero_iff in Hl; pose proof (len_nonneg l); lia).
  apply div_ceil_unique; [lia..|].
  pose proof (chunks_lookup (length (chunks n l))) as Hlast.
  rewrite lookup_ge_None_2 in Hlast by lia. destruct (decide _) as [|Hge]; [done|].
  assert (length (chunks n l) <> O) as Hne.
  { intros E. rewrite E in Hge. lia. }
  pose proof (chunks_lookup (pred (length (chunks n l)))) as Hprev.
  destruct (lookup_lt_is_Some_2 (chunks n l) (pred (length (chunks n l)))) as [d Hd]; [lia|].
  rewrite Hd in Hprev. destruct (decide _) as [Hlt|]; [|done].
  unfold len in *. nia.
Qed.

Lemma chunks_piece i d :
  chunks n l !! i = Some d ->
  len d = if Z.of_nat i + 1 =? len (chunks n l) then len l - n * (len (chunks n l) - 1) else n.
Proof using Hn.
  intros Hd. pose proof Hd as Hi. apply lookup_lt_Some in Hi.
  rewrite chunks_lookup in Hd. destruct (decide _) as [Hlt|]; [|done]. injection Hd as <-.
  assert (l <> []) as Hl by (intros ->; unfold len in *; cbn in *; lia).
  rewrite chunks_count in * by done.
  assert (0 < len l) as Hpos by (rewrite <- len_zero_iff in Hl; pose proof (len_nonneg l); lia).
  pose proof (div_ceil_spec (len l) n ltac:(lia) Hn) as Hc.
  assert (Z.of_nat i < div_ceil (len l) n) by (rewrite <- chunks_count by done; unfold len; lia).
  rewrite len_take, len_drop. destruct (Z.eqb_spec (len l) 0); [lia|].
  destruct (Z.eqb_spec (Z.of_nat i + 1) (div_ceil (len l) n)) as [E|]; nia.
Qed.
End chunks.

(** ** Slots *)

Fixpoint count_some (slots : list (option bytes)) : Z :=
  match slots with
  | [] => 0
  | Some _ :: slots => 1 + count_some slots
  | None :: slots => count_some slots
  end.

Lemma count_some_bounds slots : 0 <= count_some slots <= len slots.
Proof. induction slots as [|[]]; cbn; rewrite ?len_cons; unfold len in *; cbn; lia. Qed.

Lemma count_some_replicate n : count_some (replicate n None) = 0.
Proof. by induction n. Qed.

Lemma count_some_insert slots i data :
  slots !! i = Some None -> count_some (<[i := Some data]> slots) = count_some slots + 1.
Proof.
  revert i. induction slots as [|s slots IH]; intros [|i] E; cbn in *; try done.
  - injection E as ->. lia.
  - destruct s; rewrite IH by done; lia.
Qed.

Lemma count_some_full slots :
  count_some slots = len slots <-> Forall is_Some slots.
Proof.
  induction slots as [|[d|] slots IH]; [done|..]; rewrite len_cons, Forall_cons; cbn [count_some].
  - rewrite <- IH. split; [split; [by eexists | lia] | intros []; lia].
  - pose proof (count_some_bounds slots). split; [lia|]. intros [[] _]; done.
Qed.

Lemma gather_full slots : Forall is_Some slots -> exists data, gather slots = Some data.
Proof.
  induction 1 as [|s slots [d ->] Hs [data IH]]; cbn; [by eexists|]. rewrite IH. by eexists.
Qed.

(** The slots of a record of which some of the [parts] arrived. *)
Definition partial (parts : list bytes) (slots : list (option bytes)) : Prop :=
  Forall2 (fun part slot => slot = None \/ slot = Some part) parts slots.

Lemma partial_replicate parts : partial parts (replicate (length parts) None).
Proof. induction parts; cbn; constructor; auto. Qed.

Lemma partial_insert parts slots i part :
  partial parts slots -> parts !! i = Some part -> partial parts (<[i := Some part]> slots).
Proof.
  intros Hp Hi. rewrite <- (list_insert_id parts i part Hi). apply Forall2_insert; auto.
Qed.

Lemma partial_gather parts slots :
  partial parts slots -> Forall is_Some slots -> gather slots = Some (concat parts).
Proof.
  induction 1 as [|part slot parts slots [->| ->] Hps IH]; intros Hs; [done|..];
    apply Forall_cons in Hs as [Hs1 Hs2].
  - by destruct Hs1.
  - cbn. by rewrite IH.
Qed.

(** ** The invariant of the reassembler *)

Section wf.
Context {P : Type} `{Countable P}.
Implicit Types r : Reassembler P.

Record wf_record (record : PendingRecord) : Prop := {
  wf_total : 0 < p_total_len record <= MAX_HISTORY_RECORD_SIZE;
  wf_count : len (p_chunks record) = div_ceil (p_total_len record) CHUNK;
  wf_received : p_received record = count_some (p_chunks record);
  wf_incomplete : p_received record < len (p_chunks record);
  wf_slots : forall i data, p_chunks record !! i = Some (Some data) ->
    len data = expected_len record (Z.of_nat i);
}.

Definition total_bytes (m : gmap (P * Z * Z) PendingRecord) : Z :=
  map_fold (fun _ record sum => p_total_len record + sum) 0 m.

Record wf_reassembler r : Prop := {
  wf_few : Z.of_nat (size (records r)) <= MAX_PENDING_RECORDS;
  wf_sum : pending_bytes r = total_bytes (records r);
  wf_budget : pending_bytes r <= MAX_PENDING_BYTES;
  wf_records : map_Forall (fun _ => wf_record) (records r);
}.

Lemma total_bytes_insert m k record :
  m !! k = None -> total_bytes (<[k := record]> m) = p_total_len record + total_bytes m.
Proof. intros Hk. unfold total_bytes. rewrite map_fold_insert_L; [done | intros; lia | done]. Qed.

Lemma total_bytes_delete m k record :
  m !! k = Some record -> total_bytes m = p_total_len record + total_bytes (delete k m).
Proof.
  intros Hk. rewrite <- (insert_delete_id m k record Hk) at 1.
  rewrite total_bytes_insert; [done | apply lookup_delete_eq].
Qed.

Lemma total_bytes_replace m k old new :
  m !! k = Some old -> p_total_len new = p_total_len old ->
  total_bytes (<[k := new]> m) = total_bytes m.
Proof.
  intros Hk Ht. rewrite <- insert_delete_eq, total_bytes_insert by apply lookup_delete_eq.
  rewrite Ht. symmetry. by apply total_bytes_delete.
Qed.

Lemma total_bytes_nonneg m : map_Forall (fun _ => wf_record) m -> 0 <= total_bytes m.
Proof.
  intros Hm. induction m as [|k record m Hk IH] using map_ind; [done|].
  apply map_Forall_insert in Hm as [[] Hm]; [|done].
  rewrite total_bytes_insert by done. specialize (IH Hm). lia.
Qed.

(** Records dropped from the map give back exactly their bytes. *)
Lemma give_back m p :
  map_Forall (fun _ => wf_record) m -> total_bytes m <= p ->
  map_fold (fun _ record left => saturating_sub left (p_total_len record)) p m
  = p - total_bytes m.
Proof.
  unfold total_bytes. rewrite !map_fold_foldr. intros Hm Hp.
  assert (Forall (fun '(_, record) => 0 < p_total_len record) (map_to_list m)) as Hpos.
  { apply Forall_forall. intros [k record] Hin. apply elem_of_map_to_list in Hin.
    apply (wf_total _ (Hm k record Hin)). }
  revert Hp. induction Hpos as [|[k record] l Hr Hl IH]; cbn; [lia|]. intros Hp.
  rewrite IH; unfold saturating_sub; lia.
Qed.

Lemma total_bytes_filter (keep : P * Z * Z -> PendingRecord -> bool) m :
  total_bytes m = total_bytes (filter (fun '(k, record) => keep k record = true) m)
                  + total_bytes (filter (fun '(k, record) => keep k record = false) m).
Proof.
  induction m as [|k record m Hk IH] using map_ind; [done|].
  rewrite total_bytes_insert, IH by done. destruct (keep k record) eqn:E.
  - rewrite map_filter_insert_True, map_filter_insert_False, delete_id by (done || congruence).
    rewrite total_bytes_insert; [lia|]. apply map_lookup_filter_None_2. by left.
  - rewrite map_filter_insert_False, delete_id, map_filter_insert_True by (done || congruence).
    rewrite total_bytes_insert; [lia|]. apply map_lookup_filter_None_2. by left.
Qed.

Lemma empty_reassembler_wf : wf_reassembler empty_reassembler.
Proof. split; cbn; [done | done | done | apply map_Forall_empty]. Qed.

Lemma retain_wf keep r : wf_reassembler r -> wf_reassembler (fst (retain keep r)).
Proof.
  intros [Hfew Hsum Hbudget Hrec]. unfold retain. cbn.
  pose proof (total_bytes_filter keep (records r)) as Hf.
  assert (forall b, map_Forall (fun _ => wf_record)
    (filter (fun '(k, record) => keep k record = b) (records r))) as Hsub.
  { intros b k record Hk. apply map_lookup_filter_Some in Hk as [Hk _]. by apply (Hrec k). }
  pose proof (total_bytes_nonneg _ (Hsub true)). pose proof (total_bytes_nonneg _ (Hsub false)).
  split; cbn.
  - pose proof (map_filter_subseteq (fun '(k, record) => keep k record = true) (records r)) as Hs.
    apply map_subseteq_size in Hs. lia.
  - rewrite give_back; [lia | done | lia].
  - rewrite give_back; [lia | done | lia].
  - done.
Qed.

Lemma history_chunk_pos : 0 < CHUNK.
Proof. done. Qed.

Lemma start_count total :
  0 < total <= MAX_HISTORY_RECORD_SIZE ->
  div_ceil total CHUNK mod 2 ^ 32 = div_ceil total CHUNK /\ 0 < div_ceil total CHUNK.
Proof.
  intros Ht. pose proof (div_ceil_pos total CHUNK ltac:(lia) history_chunk_pos).
  pose proof (div_ceil_spec total CHUNK ltac:(lia) history_chunk_pos) as Hs.
  destruct (Z.eqb_spec total 0); [lia|]. limits. rewrite Z.mod_small by lia. lia.
Qed.

Lemma start_wf r peer request_id record_id total_len count now :
  is_u32 total_len = true -> wf_reassembler r ->
  wf_reassembler (fst (start r peer request_id record_id total_len count now)).
Proof.
  intros Hu Hwf. pose proof Hwf as [Hfew Hsum Hbudget Hrec]. unfold start.
  destruct ((total_len =? 0) || _) eqn:E1; [done|]. boolsplit.
  destruct (start_count total_len) as [-> Hpos]; [zbool|].
  destruct (negb (count =? _)) eqn:E2; [done|].
  destruct (records r !! _) as [previous|] eqn:Hk; [by destruct (_ && _)|].
  destruct ((MAX_PENDING_RECORDS <=? _) || _) eqn:E3; [done|].
  unfold saturating_add in *. boolsplit. assert (count = div_ceil total_len CHUNK) as -> by lia.
  split; cbn.
  - rewrite map_size_insert_None by done. unfold MAX_PENDING_RECORDS in *. lia.
  - rewrite total_bytes_insert by done. cbn. lia.
  - unfold MAX_PENDING_BYTES, u64_max in *. limits. lia.
  - apply map_Forall_insert; [done|]. split; [|done]. split; cbn; try zbool.
    + unfold len. rewrite length_replicate. lia.
    + by rewrite count_some_replicate.
    + unfold len. rewrite length_replicate. lia.
    + intros i data Hi. apply lookup_replicate in Hi as [? _]. done.
Qed.

Lemma remove_wf r k record :
  wf_reassembler r -> records r !! k = Some record -> wf_reassembler (remove r k record).
Proof.
  intros [Hfew Hsum Hbudget Hrec] Hk. unfold remove.
  pose proof (total_bytes_delete _ _ _ Hk) as Ht.
  assert (map_Forall (fun _ => wf_record) (delete k (records r))) as Hd
    by (by apply map_Forall_delete).
  pose proof (total_bytes_nonneg _ Hd). pose proof (wf_total _ (Hrec k record Hk)).
  split; cbn; [| unfold saturating_sub; lia | unfold saturating_sub; lia | done].
  rewrite map_size_delete_Some by eauto. lia.
Qed.

(** Storing a new chunk, before the record is checked for completeness. *)
Definition store (record : PendingRecord) (i : nat) (data : bytes) : PendingRecord :=
  {| p_received := p_received record + 1; p_total_len := p_total_len record;
     p_chunks := <[i := Some data]> (p_chunks record); p_started := p_started record |}.

Lemma store_expected record i data : expected_len (store record i data) = expected_len record.
Proof. unfold expected_len, len. cbn. by rewrite length_insert. Qed.

Lemma store_received record i data :
  wf_record record -> p_chunks record !! i = Some None ->
  p_received (store record i data) = count_some (p_chunks (store record i data)).
Proof. intros [] Hi. cbn. rewrite count_some_insert by done. lia. Qed.

Lemma slot_store_wf record i data :
  wf_record record -> p_chunks record !! i = Some None ->
  len data = expected_len record (Z.of_nat i) ->
  p_received (store record i data) <> len (p_chunks (store record i data)) ->
  wf_record (store record i data).
Proof.
  intros Hwf Hi Hd Hne. pose proof (store_received record i data Hwf Hi) as Hr.
  pose proof (count_some_bounds (p_chunks (store record i data))).
  destruct Hwf as [Ht Hc Hrec Hinc Hs]. split; try done; try lia.
  - cbn. unfold len in *. by rewrite length_insert.
  - intros j d Hj. rewrite store_expected. cbn in Hj.
    destruct (decide (i = j)) as [<-|Hij].
    + rewrite list_lookup_insert_eq in Hj by (by apply lookup_lt_Some in Hi). congruence.
    + rewrite list_lookup_insert_ne in Hj by done. by apply Hs.
Qed.

(** The slot a valid index names. *)
Lemma slot_of record index :
  0 <= index -> index < len (p_chunks record) ->
  exists slot, p_chunks record !! Z.to_nat index = Some slot.
Proof. intros H0 Hlt. apply lookup_lt_is_Some_2. unfold len in *. lia. Qed.

Section chunk_op.
Context {Event : Type} (deserialize : bytes -> option Event).

Lemma chunk_wf r peer request_id record_id index data :
  0 <= index -> wf_reassembler r ->
  let '(r', outcome) := chunk deserialize r peer request_id record_id index data in
  wf_reassembler r' /\ outcome <> Panicked.
Proof.
  intros Hi Hwf. unfold chunk. destruct (records r !! _) as [record|] eqn:Hk; [|done].
  pose proof (wf_records _ Hwf _ _ Hk) as Hrec.
  destruct (Z.leb_spec (len (p_chunks record)) index); [done|].
  destruct (negb _) eqn:Hlen; [split; [by apply remove_wf | done]|]. boolsplit.
  destruct (slot_of record index) as [slot Hslot]; [lia..|]. rewrite Hslot.
  destruct slot as [previous|]; [by case_bool_decide|].
  change {| p_received := p_received record + 1; p_total_len := p_total_len record;
     p_chunks := <[Z.to_nat index:=Some data]> (p_chunks record); p_started := p_started record |}
    with (store record (Z.to_nat index) data).
  set (record' := store record (Z.to_nat index) data).
  assert (len data = expected_len record (Z.of_nat (Z.to_nat index))) as Hd
    by (rewrite Z2Nat.id by lia; lia).
  destruct (negb (p_received record' =? _)) eqn:Hfull; boolsplit.
  - split; [|done]. destruct Hwf as [Hfew Hsum Hbudget Hall]. split; cbn.
    + by rewrite map_size_insert_Some by eauto.
    + by rewrite (total_bytes_replace _ _ record).
    + done.
    + apply map_Forall_insert_2; [|done]. apply slot_store_wf; try done. by apply Z.eqb_neq.
  - assert (remove {| records := <[(peer, request_id, record_id) := record']> (records r);
                      pending_bytes := pending_bytes r |} (peer, request_id, record_id) record'
            = remove r (peer, request_id, record_id) record) as ->
      by (unfold remove; cbn; by rewrite delete_insert_eq).
    assert (Forall is_Some (p_chunks record')) as Hfull'.
    { apply count_some_full. unfold record'. rewrite <- store_received by done. fold record'. lia. }
    destruct (gather_full _ Hfull') as [bytes ->].
    destruct (deserialize bytes); (split; [by apply remove_wf | done]).
Qed.
End chunk_op.
End wf.

(** ** Bytes held *)

Definition slot_bytes (slots : list (option bytes)) : Z :=
  foldr (fun slot sum => len (default [] slot) + sum) 0 slots.

Lemma slot_bytes_app s t : slot_bytes (s ++ t) = slot_bytes s + slot_bytes t.
Proof. unfold slot_bytes. induction s as [|x s IH]; [done|]. cbn [app foldr]. lia. Qed.

Lemma slot_bytes_bound slots m :
  0 <= m -> (forall i d, slots !! i = Some (Some d) -> len d <= m) ->
  slot_bytes slots <= m * len slots.
Proof.
  intros Hm. induction slots as [|s slots IH]; intros Hs; [unfold len, slot_bytes; cbn [length foldr]; lia|].
  rewrite len_cons. unfold slot_bytes. cbn [foldr]. fold (slot_bytes slots).
  specialize (IH (fun i => Hs (S i))).
  assert (len (default [] s) <= m) by (destruct s; [by apply (Hs O) | done]). lia.
Qed.

Lemma record_slot_bytes record : wf_record record -> slot_bytes (p_chunks record) <= p_total_len record.
Proof.
  intros [Ht Hc _ Hinc Hs]. destruct (p_chunks record) as [|s slots _] eqn:E using rev_ind.
  { unfold slot_bytes. cbn. lia. }
  rewrite slot_bytes_app, len_app in *. unfold expected_len in Hs. rewrite E, len_app, len_cons, len_nil in *.
  pose proof (div_ceil_spec (p_total_len record) CHUNK ltac:(lia) history_chunk_pos) as [Hd _].
  destruct (Z.eqb_spec (p_total_len record) 0); [lia|].
  assert (slot_bytes slots <= CHUNK * len slots) as Hslots.
  { apply slot_bytes_bound; [done|]. intros i d Hi. pose proof (lookup_lt_Some _ _ _ Hi).
    rewrite (Hs i d) by (by apply lookup_app_l_Some).
    destruct (Z.eqb_spec (Z.of_nat i + 1) (len slots + (1 + 0))); [unfold len in *; lia | done]. }
  assert (len (default [] s) <= p_total_len record - CHUNK * len slots) as Hlast.
  { rewrite <- Hc in Hd. destruct s as [d|];
      [|change (default [] None) with (@nil Z); rewrite len_nil; limits; lia].
    change (default [] (Some d)) with d.
    rewrite (Hs (length slots) d) by (by rewrite list_lookup_middle).
    destruct (Z.eqb_spec (Z.of_nat (length slots) + 1) (len slots + (1 + 0))); [lia|].
    unfold len in *. lia. }
  unfold slot_bytes at 2. cbn [foldr]. lia.
Qed.

(** ** Sequences of operations *)

Section runs.
Context {P : Type} `{Countable P} {Event : Type} (deserialize : bytes -> option Event).
Implicit Types r : Reassembler P.

Inductive reassembler_op :=
| OpStart (peer : P) (request_id record_id total_len count now : Z)
| OpChunk (peer : P) (request_id record_id index : Z) (data : bytes)
| OpPeerLost (peer : P)
| OpFinish (peer : P) (request_id : Z)
| OpExpire (now : Z).

Definition wf_op (o : reassembler_op) : bool :=
  match o with
  | OpStart _ _ _ total_len count _ => is_u32 total_len && is_u32 count
  | OpChunk _ _ _ index data => is_u32 index && all_u8 data
  | _ => true
  end.

(** What an operation delivers to the history store. *)
Definition step r (o : reassembler_op) : Reassembler P * call (option Event) :=
  match o with
  | OpStart peer request_id record_id total_len count now =>
      (fst (start r peer request_id record_id total_len count now), Returned None)
  | OpChunk peer request_id record_id index data =>
      let '(r, outcome) := chunk deserialize r peer request_id record_id index data in
      (r, match outcome with
          | Returned (Ok event) => Returned event
          | Returned (Err _) => Returned None
          | Panicked => Panicked
          end)
  | OpPeerLost peer => (peer_lost r peer, Returned None)
  | OpFinish peer request_id => (fst (finish_request r peer request_id), Returned None)
  | OpExpire now => (fst (expire r now), Returned None)
  end.

Fixpoint run r (ops : list reassembler_op) : Reassembler P * list (call (option Event)) :=
  match ops with
  | [] => (r, [])
  | o :: ops =>
      let '(r, outcome) := step r o in
      let '(r, outcomes) := run r ops in
      (r, outcome :: outcomes)
  end.

Lemma step_wf r o :
  wf_op o = true -> wf_reassembler r ->
  wf_reassembler (fst (step r o)) /\ snd (step r o) <> Panicked.
Proof.
  intros Ho Hwf. destruct o; cbn [step wf_op] in *; boolsplit.
  - split; [by apply start_wf | done].
  - pose proof (chunk_wf deserialize r peer request_id record_id index data) as Hc.
    destruct (chunk _ _ _ _ _ _ _) as [r' outcome]. destruct Hc as [Hr Hp]; [zbool | done |].
    split; [done|]. by destruct outcome as [[]|].
  - split; [by apply retain_wf | done].
  - split; [by apply retain_wf | done].
  - split; [by apply retain_wf | done].
Qed.

(** The bytes of all chunks held. *)
Definition held_bytes r : Z :=
  map_fold (fun _ record sum => slot_bytes (p_chunks record) + sum) 0 (records r).

Lemma held_bytes_le r : wf_reassembler r -> held_bytes r <= pending_bytes r.
Proof.
  intros [_ -> _ Hrec]. unfold held_bytes, total_bytes. revert Hrec.
  induction (records r) as [|k record m Hk IH] using map_ind; intros Hm; [done|].
  apply map_Forall_insert in Hm as [Hr Hm]; [|done].
  rewrite !map_fold_insert_L by (done || intros; lia).
  specialize (IH Hm). pose proof (record_slot_bytes record Hr). lia.
Qed.

Lemma run_wf ops : forall r,
  forallb wf_op ops = true -> wf_reassembler r ->
  wf_reassembler (fst (run r ops)) /\ Forall (fun outcome => outcome <> Panicked) (snd (run r ops)).
Proof.
  induction ops as [|o ops IH]; intros r Hops Hwf; cbn [run forallb] in *; [done|]. boolsplit.
  destruct (step_wf r o) as [Hr Ho]; [done..|]. destruct (step r o) as [r' outcome]. cbn in *.
  destruct (IH r') as [Hr' Hos]; [done..|]. destruct (run r' ops) as [r'' outcomes]. cbn in *.
  split; [done | by constructor].
Qed.
End runs.
Arguments reassembler_op : clear implicits.

(** C10: the reassembler under any traffic.  Whatever sequence of record
    starts, chunks, lost peers, page ends and expiries it is given, no call
    panics (in particular the [expect]s hold), at most 8 records are pending,
    [pending_bytes] is exactly the sum of their lengths, and the bytes it holds
    for peers stay within that sum and within 48 MiB. *)
Theorem reassembler_bounded {P : Type} `{Countable P} {Event : Type}
    (deserialize : bytes -> option Event) (ops : list (reassembler_op P)) :
  forallb wf_op ops = true ->
  let '(r, outcomes) := run deserialize empty_reassembler ops in
  Forall (fun outcome => outcome <> Panicked) outcomes
  /\ Z.of_nat (size (records r)) <= MAX_PENDING_RECORDS
  /\ pending_bytes r = total_bytes (records r)
  /\ held_bytes r <= pending_bytes r <= MAX_PENDING_BYTES.
Proof.
  intros Hops. pose proof (run_wf deserialize ops empty_reassembler Hops empty_reassembler_wf) as Hr.
  destruct (run _ _ _) as [r outcomes]. destruct Hr as [Hwf Ho]. pose proof (held_bytes_le r Hwf).
  destruct Hwf. auto.
Qed.

Lemma reassembler_bounded_witness :
  let '(r, outcomes) := run (P := Z) (fun bytes => Some bytes) empty_reassembler
    [OpStart 1 2 3 4 1 0; OpChunk 1 2 3 0 [7; 8; 9; 10]; OpStart 1 2 4 5 1 0; OpExpire 9] in
  Forall (fun outcome => outcome <> Panicked) outcomes
  /\ Z.of_nat (size (records r)) <= MAX_PENDING_RECORDS
  /\ pending_bytes r = total_bytes (records r)
  /\ held_bytes r <= pending_bytes r <= MAX_PENDING_BYTES.
Proof.
  apply (reassembler_bounded (P := Z) (fun bytes => Some bytes)
    [OpStart 1 2 3 4 1 0; OpChunk 1 2 3 0 [7; 8; 9; 10]; OpStart 1 2 4 5 1 0; OpExpire 9]).
  vm_compute; reflexivity.
Defined.

(** ** Reassembly of one record *)

Section reassembly.
Context {P : Type} `{Countable P} {Event : Type} (deserialize : bytes -> option Event).
Context (peer : P) (request_id record_id started : Z) (data : bytes) (event : Event).
Hypothesis Hevent : deserialize data = Some event.
Hypothesis Hdata : 0 < len data <= MAX_HISTORY_RECORD_SIZE.

Let k : P * Z * Z := (peer, request_id, record_id).
Let parts : list bytes := chunks CHUNK data.

(** Messages that are not about the record, and timer ticks within its time. *)
Definition other_op (o : reassembler_op P) : Prop :=
  match o with
  | OpStart p q i _ _ _ | OpChunk p q i _ _ => (p, q, i) <> k
  | OpPeerLost p => p <> peer
  | OpFinish p q => (p, q) <> (peer, request_id)
  | OpExpire now => saturating_sub now started < CLEAR_TIMEOUT
  end.

Definition part_op (i : nat) (part : bytes) : reassembler_op P :=
  OpChunk peer request_id record_id (Z.of_nat i) part.

Definition traffic_op (o : reassembler_op P) : Prop :=
  other_op o \/ exists i part, parts !! i = Some part /\ o = part_op i part.

(** The events handed to the history store by messages about the record. *)
Fixpoint deliveries (r : Reassembler P) (ops : list (reassembler_op P)) : list Event :=
  match ops with
  | [] => []
  | o :: ops =>
      let '(r', outcome) := step deserialize r o in
      match o, outcome with
      | OpChunk p q i _ _, Returned (Some e) => if bool_decide ((p, q, i) = k) then [e] else []
      | _, _ => []
      end ++ deliveries r' ops
  end.

Record pending (r : Reassembler P) (record : PendingRecord) : Prop := {
  pending_lookup : records r !! k = Some record;
  pending_started : p_started record = started;
  pending_total : p_total_len record = len data;
  pending_partial : partial parts (p_chunks record);
}.

Lemma retain_lookup keep r :
  (forall record, records r !! k = Some record -> keep k record = true) ->
  records (fst (retain keep r)) !! k = records r !! k.
Proof.
  intros Hkeep. cbn. destruct (records r !! k) as [record|] eqn:E.
  - apply map_lookup_filter_Some_2; [done | by apply Hkeep].
  - apply map_lookup_filter_None_2. by left.
Qed.

Lemma start_other r p q i total count now :
  (p, q, i) <> k -> records (fst (start r p q i total count now)) !! k = records r !! k.
Proof.
  intros Hk. unfold start. repeat case_match; try done. cbn. by rewrite lookup_insert_ne.
Qed.

Lemma chunk_other r p q i index d :
  (p, q, i) <> k -> records (fst (chunk deserialize r p q i index d)) !! k = records r !! k.
Proof.
  intros Hk. unfold chunk, remove. repeat case_match; simplify_eq; try done; cbn;
    by rewrite ?lookup_delete_ne, ?lookup_insert_ne.
Qed.

Lemma step_other r o :
  (forall record, records r !! k = Some record -> p_started record = started) ->
  other_op o -> records (fst (step deserialize r o)) !! k = records r !! k.
Proof.
  intros Hs Ho. destruct o; cbn [step other_op] in *.
  - by apply start_other.
  - pose proof (chunk_other r peer0 request_id0 record_id0 index data0 Ho) as Hc.
    by destruct (chunk _ _ _ _ _ _ _) as [r' [[[]|]|]].
  - apply retain_lookup. intros record _. unfold k. by rewrite bool_decide_eq_false_2.
  - apply retain_lookup. intros record _. unfold k. apply orb_true_iff. rewrite !negb_true_iff.
    destruct (decide (peer = peer0)) as [<-|Hp]; [|left; by apply bool_decide_eq_false_2].
    right. apply Z.eqb_neq. congruence.
  - apply retain_lookup. intros record Hr. rewrite (Hs record Hr). by apply Z.ltb_lt.
Qed.

Lemma other_deliveries r o ops :
  other_op o -> deliveries r (o :: ops) = deliveries (fst (step deserialize r o)) ops.
Proof.
  intros Ho. cbn [deliveries]. destruct (step deserialize r o) as [r' outcome]. cbn [fst].
  destruct o; try done. destruct outcome as [[e|]|]; try done.
  by rewrite bool_decide_eq_false_2.
Qed.

(** *** Once the record is complete *)

Lemma done_absent r ops :
  records r !! k = None -> Forall traffic_op ops ->
  deliveries r ops = [] /\ records (fst (run deserialize r ops)) !! k = None.
Proof.
  intros Hk Hops. revert r Hk. induction Hops as [|o ops [Ho|(i & part & _ & ->)] _ IH];
    intros r Hk; [done|..].
  - pose proof (step_other r o ltac:(intros; congruence) Ho) as Hs. rewrite Hk in Hs.
    destruct (IH _ Hs) as [Hd Hf]. rewrite (other_deliveries r o ops Ho), Hd. split; [done|].
    cbn [run]. destruct (step deserialize r o) as [r' ?]. cbn in Hf. by destruct (run _ r' ops).
  - assert (step deserialize r (part_op i part) = (r, Returned None)) as Es.
    { unfold part_op. cbn [step]. unfold chunk. fold k. by rewrite Hk. }
    cbn [deliveries run]. rewrite Es. cbn [app]. destruct (IH r Hk) as [-> Hf].
    split; [done|]. by destruct (run _ r ops).
Qed.

(** *** While it is not *)

Lemma parts_nonempty : data <> [].
Proof using Hdata. intros E. apply len_zero_iff in E. lia. Qed.

Lemma parts_partial_len slots : partial parts slots -> len slots = len parts.
Proof. intros Hp. apply Forall2_length in Hp. unfold len. lia. Qed.

Lemma pending_expected r record i part :
  pending r record -> parts !! i = Some part -> expected_len record (Z.of_nat i) = len part.
Proof using Hdata.
  intros [_ _ Ht Hp] Hi. rewrite (chunks_piece CHUNK data history_chunk_pos i part Hi).
  unfold expected_len. rewrite Ht, (parts_partial_len _ Hp). done.
Qed.

(** A chunk of the record that is not there yet. *)
Lemma own_chunk_new r record i part :
  wf_reassembler r -> pending r record -> parts !! i = Some part ->
  p_chunks record !! i = Some None ->
  let record' := store record i part in
  (pending {| records := <[k := record']> (records r); pending_bytes := pending_bytes r |} record'
   /\ step deserialize r (part_op i part)
      = ({| records := <[k := record']> (records r); pending_bytes := pending_bytes r |},
         Returned None))
  \/ exists r', records r' !! k = None
     /\ step deserialize r (part_op i part) = (r', Returned (Some event)).
Proof using Hdata Hevent.
  intros Hwf Hpend Hi Hslot record'. pose proof (pending_expected r record i part Hpend Hi) as He.
  pose proof Hpend as [Hk Hs Ht Hp]. pose proof (wf_records _ Hwf _ _ Hk) as Hrec.
  pose proof (parts_partial_len _ Hp) as Hn.
  assert (partial parts (p_chunks record')) as Hp' by (by apply partial_insert).
  unfold part_op. cbn [step]. unfold chunk. fold k. rewrite Hk, He, Z.eqb_refl, Nat2Z.id, Hslot.
  pose proof (lookup_lt_Some _ _ _ Hslot).
  destruct (Z.leb_spec (len (p_chunks record)) (Z.of_nat i)); [unfold len in *; lia|].
  cbn [negb]. fold (store record i part). fold record'.
  destruct (Z.eqb_spec (p_received record') (len (p_chunks record'))) as [Hfull|]; cbn [negb].
  - right. assert (Forall is_Some (p_chunks record')) as Hall.
    { apply count_some_full. rewrite <- Hfull. symmetry. by apply store_received. }
    rewrite (partial_gather parts) by done.
    unfold parts. rewrite (chunks_concat CHUNK data history_chunk_pos), Hevent.
    eexists; split; [|done]. cbn. apply lookup_delete_eq.
  - left. split; [|done]. split; cbn; try done. apply lookup_insert_eq.
Qed.
(** A chunk of the record that is there already. *)
Lemma own_chunk_duplicate r record i part d :
  pending r record -> parts !! i = Some part -> p_chunks record !! i = Some (Some d) ->
  step deserialize r (part_op i part) = (r, Returned None).
Proof using Hdata.
  intros Hpend Hi Hslot. pose proof (pending_expected r record i part Hpend Hi) as He.
  pose proof Hpend as [Hk Hs Ht Hp]. pose proof (lookup_lt_Some _ _ _ Hslot).
  destruct (Forall2_lookup_lr _ _ _ _ _ _ Hp Hi Hslot) as [|[= ->]]; [done|].
  unfold part_op. cbn [step]. unfold chunk. fold k. rewrite Hk, He, Z.eqb_refl, Nat2Z.id, Hslot.
  destruct (Z.leb_spec (len (p_chunks record)) (Z.of_nat i)); [unfold len in *; lia|].
  cbn [negb]. by rewrite bool_decide_eq_true_2.
Qed.

Definition filled (record : PendingRecord) (i : nat) : Prop :=
  exists d, p_chunks record !! i = Some (Some d).

Definition finished (r : Reassembler P) (ops : list (reassembler_op P)) : Prop :=
  deliveries r ops = [event] /\ records (fst (run deserialize r ops)) !! k = None.

Definition unfinished (r : Reassembler P) (record : PendingRecord) (ops : list (reassembler_op P)) : Prop :=
  deliveries r ops = [] /\ exists record', pending (fst (run deserialize r ops)) record'
  /\ wf_record record' /\ (forall i, filled record i -> filled record' i)
  /\ (forall i part, parts !! i = Some part -> In (part_op i part) ops -> filled record' i).

(** One message about which [step] says nothing was delivered. *)
Lemma quiet_step r r' record record' o ops :
  step deserialize r o = (r', Returned None) ->
  (forall i, filled record i -> filled record' i) ->
  (forall i part, parts !! i = Some part -> o = part_op i part -> filled record' i) ->
  finished r' ops \/ unfinished r' record' ops -> finished r (o :: ops) \/ unfinished r record (o :: ops).
Proof.
  unfold finished, unfinished. intros Es Hmono Hown Hr'.
  assert (deliveries r (o :: ops) = deliveries r' ops) as Ed.
  { cbn [deliveries]. rewrite Es. by destruct o. }
  assert (fst (run deserialize r (o :: ops)) = fst (run deserialize r' ops)) as Er.
  { cbn [run]. rewrite Es. by destruct (run _ r' ops). }
  rewrite Ed, Er. destruct Hr' as [|(Hd & last & Hp & Hw & Hm & Hc)]; [by left|]. right.
  split; [done|]. exists last. split_and!; [done..| by eauto |].
  intros i part Hi [->|Hin]; eauto.
Qed.

Lemma run_pending ops : forall r record,
  wf_reassembler r -> pending r record -> forallb wf_op ops = true -> Forall traffic_op ops ->
  finished r ops \/ unfinished r record ops.
Proof using Hdata Hevent.
  induction ops as [|o ops IH]; intros r record Hwf Hpend Hops Ht.
  { right. split; [done|]. exists record. split_and!; [done | | done | done].
    by apply (wf_records _ Hwf k), Hpend. }
  cbn [forallb] in Hops. boolsplit. apply Forall_cons in Ht as [Hto Ht].
  destruct (step_wf deserialize r o ltac:(done) Hwf) as [Hwf' _].
  destruct Hto as [Ho|(i & part & Hi & ->)].
  - pose proof (step_other r o) as Hs. rewrite (pending_lookup _ _ Hpend) in Hs.
    specialize (Hs ltac:(intros ? [= <-]; apply Hpend) Ho).
    assert (pending (fst (step deserialize r o)) record) as Hpend' by (by destruct Hpend; split).
    specialize (IH _ record Hwf' Hpend' ltac:(done) Ht).
    unfold finished, unfinished in *. rewrite (other_deliveries r o ops Ho).
    assert (fst (run deserialize r (o :: ops)) = fst (run deserialize (fst (step deserialize r o)) ops)) as ->.
    { cbn [run]. destruct (step deserialize r o) as [r' ?]. cbn [fst]. by destruct (run _ r' ops). }
    destruct IH as [|(Hd & last & Hp & Hw & Hm & Hc)]; [by left|]. right. split; [done|].
    exists last. split_and!; [done..|]. intros j d Hj [->|Hin]; [|by eauto]. done.
  - destruct (lookup_lt_is_Some_2 (p_chunks record) i) as [[d|] Hslot].
    { apply lookup_lt_Some in Hi. rewrite <- (Forall2_length _ _ _ (pending_partial _ _ Hpend)). done. }
    + pose proof (own_chunk_duplicate r record i part d Hpend Hi Hslot) as Es.
      eapply quiet_step; [exact Es | done | | by apply IH].
      intros j d' Hj Hop. injection Hop as Hij _. apply Nat2Z.inj in Hij as <-. by exists d.
    + destruct (own_chunk_new r record i part Hwf Hpend Hi Hslot)
        as [[Hpend' Es]|(r' & Hk' & Es)]; rewrite Es in Hwf'; cbn [fst] in Hwf'.
      * pose proof (lookup_lt_Some _ _ _ Hslot).
        eapply quiet_step; [exact Es | | | by apply IH].
        -- intros j [d Hj]. unfold filled. cbn. destruct (decide (i = j)) as [<-|].
           ++ exists part. by apply list_lookup_insert_eq.
           ++ exists d. by rewrite list_lookup_insert_ne.
        -- intros j d Hj Hop. injection Hop as Hij _. apply Nat2Z.inj in Hij as <-.
           exists part. by apply list_lookup_insert_eq.
      * left. destruct (done_absent r' ops Hk' Ht) as [Hd Hf]. unfold finished.
        cbn [deliveries run]. rewrite Es. unfold part_op at 1. rewrite bool_decide_eq_true_2 by done.
        rewrite Hd. split; [done|]. by destruct (run _ r' ops).
Qed.

(** Every part delivered, the record is complete. *)
Lemma run_complete ops r record :
  wf_reassembler r -> pending r record -> forallb wf_op ops = true -> Forall traffic_op ops ->
  (forall i part, parts !! i = Some part -> In (part_op i part) ops) ->
  finished r ops.
Proof using Hdata Hevent.
  intros Hwf Hpend Hops Ht Hcover.
  destruct (run_pending ops r record Hwf Hpend Hops Ht) as [|(_ & last & [_ _ _ Hp] & Hw & _ & Hc)]; [done|].
  exfalso. apply (Z.lt_irrefl (p_received last)). rewrite (wf_received _ Hw) at 2.
  replace (count_some (p_chunks last)) with (len (p_chunks last)); [by apply (wf_incomplete _ Hw)|].
  symmetry. apply count_some_full, Forall_lookup_2. intros i slot Hslot.
  destruct (lookup_lt_is_Some_2 parts i) as [part Hi].
  { rewrite (Forall2_length _ _ _ Hp). by apply lookup_lt_Some in Hslot. }
  destruct (Hc i part Hi (Hcover i part Hi)) as [d Hd]. rewrite Hd in Hslot.
  injection Hslot as <-. by eexists.
Qed.

(** The record as [start] leaves it. *)
Lemma start_pending r now :
  now = started -> records r !! k = None -> Z.of_nat (size (records r)) < MAX_PENDING_RECORDS ->
  pending_bytes r + len data <= MAX_PENDING_BYTES -> 
  exists record, pending (fst (start r peer request_id record_id (len data)
    (div_ceil (len data) CHUNK) now)) record.
Proof using Hdata.
  intros -> Hk Hsize Hbytes. destruct (start_count (len data) Hdata) as [Hmod Hpos].
  unfold start. fold k. rewrite Hmod, Hk, Z.eqb_refl.
  assert ((len data =? 0) || (MAX_HISTORY_RECORD_SIZE <? len data) = false) as -> by zbool.
  assert ((MAX_PENDING_RECORDS <=? Z.of_nat (size (records r)))
    || (MAX_PENDING_BYTES <? saturating_add (pending_bytes r) (len data)) = false) as ->
    by (unfold saturating_add; zbool).
  eexists. split; cbn [fst negb records]; [apply lookup_insert_eq | done | done |].
  cbn [p_chunks]. rewrite <- (chunks_count CHUNK data history_chunk_pos parts_nonempty).
  unfold len. rewrite Nat2Z.id. apply partial_replicate.
Qed.
End reassembly.

(** ** From a record to a record, through the wire *)

(** The calls the daemon makes for a received message about a record. *)
Definition op_of_event {P} (peer : P) (now : Z) (e : ProtoEvent) : option (reassembler_op P) :=
  match e with
  | ProtoEvent.HistoryRecordStart request_id record_id total_len count =>
      Some (OpStart peer request_id record_id total_len count now)
  | ProtoEvent.HistoryRecordChunk request_id record_id index data =>
      Some (OpChunk peer request_id record_id index data)
  | _ => None
  end.

(** The event arrives as it was sent, in one unfragmented datagram. *)
Definition survives_wire (e : ProtoEvent) : Prop :=
  exists bs, encode e = Ok bs /\ len bs <= SAFE_DATAGRAM_SIZE /\ decode bs = Ok e.

Lemma survives_wire_intro e bs :
  wf_event e = true -> canonical e = true -> encode_body [EventType.to_u8 (event_type e)] e = Ok bs ->
  len bs <= SAFE_DATAGRAM_SIZE -> survives_wire e.
Proof.
  intros Hwf Hc Hb Hl. exists bs.
  assert (encode e = Ok bs) as He.
  { unfold encode. rewrite Hb. destruct (Z.ltb_spec MAX_DATAGRAM_SIZE (len bs)); [limits; lia | done]. }
  split_and!; [done..|]. by rewrite (encode_decode_image e bs), (canonical_image e bs).
Qed.

Lemma start_survives request_id record_id total :
  is_u64 request_id = true -> is_u64 record_id = true -> 0 < total <= MAX_HISTORY_RECORD_SIZE ->
  survives_wire (ProtoEvent.HistoryRecordStart request_id record_id total (div_ceil total CHUNK)).
Proof.
  intros Hq Hi Ht. destruct (start_count total Ht) as [Hmod Hpos].
  assert (div_ceil total CHUNK < 2 ^ 32) by (rewrite <- Hmod; apply Z.mod_pos_bound; lia).
  eapply survives_wire_intro; [cbn; limits; zbool | done | |].
  - cbn [encode_body]. unfold encode_history_record_start, validate_history_start.
    rewrite Z.eqb_refl.
    assert ((total =? 0) || (MAX_HISTORY_RECORD_SIZE <? total) = false) as -> by zbool. done.
  - wirenorm. autorewrite with len. limits. lia.
Qed.

Lemma chunk_survives request_id record_id index data :
  is_u64 request_id = true -> is_u64 record_id = true -> is_u32 index = true ->
  all_u8 data = true -> 0 < len data <= CHUNK ->
  survives_wire (ProtoEvent.HistoryRecordChunk request_id record_id index data).
Proof.
  intros Hq Hi Hx Hd Hl. eapply survives_wire_intro; [cbn; by rewrite_bools | done | |].
  - cbn [encode_body]. unfold encode_history_record_chunk.
    assert ((len data =? 0) || (CHUNK <? len data) = false) as -> by zbool. done.
  - wirenorm. autorewrite with len. limits. lia.
Qed.

Lemma all_u8_concat ls : all_u8 (concat ls) = forallb all_u8 ls.
Proof. induction ls as [|l ls IH]; [done|]. cbn. by rewrite all_u8_app, IH. Qed.

Lemma part_bytes (data part : bytes) i :
  all_u8 data = true -> len data <= MAX_HISTORY_RECORD_SIZE -> chunks CHUNK data !! i = Some part ->
  all_u8 part = true /\ 0 < len part <= CHUNK /\ is_u32 (Z.of_nat i) = true.
Proof.
  intros Hd Hl Hi. split.
  { rewrite <- (chunks_concat CHUNK data history_chunk_pos), all_u8_concat, forallb_Forall in Hd.
    by eapply Forall_lookup_1 in Hd. }
  rewrite (chunks_lookup CHUNK data history_chunk_pos) in Hi.
  destruct (decide _) as [Hlt|]; [|done]. injection Hi as <-. rewrite len_take, len_drop.
  split_and!; limits; [lia..|zbool].
Qed.

Section end_to_end.
Context {P : Type} `{Countable P} {Event : Type}.
Context (serialize : Event -> result string bytes) (deserialize : bytes -> option Event).
(** What the daemon relies on of the codec: bytes out, and a round trip. *)
Hypothesis serialize_bytes : forall event bs, serialize event = Ok bs -> all_u8 bs = true.
Hypothesis codec_round_trip : forall event bs, serialize event = Ok bs -> deserialize bs = Some event.

Lemma record_events_inv request_id record_id event events :
  record_events serialize request_id record_id event = Ok events ->
  exists data, serialize event = Ok data /\ 0 < len data <= MAX_HISTORY_RECORD_SIZE
  /\ events = ProtoEvent.HistoryRecordStart request_id record_id (len data) (div_ceil (len data) CHUNK)
      :: imap (fun index part => ProtoEvent.HistoryRecordChunk request_id record_id (Z.of_nat index) part)
           (chunks CHUNK data).
Proof.
  unfold record_events. intros Hr. inv_ok Hr. boolsplit. eexists.
  split_and!; [done | pose proof (len_nonneg a); lia | lia | done].
Qed.

(** C11: a history record reaches the peer.  The events [record_events] makes
    of a record all fit in unfragmented datagrams and survive the wire format;
    and a receiver that has room for the record and got its start hands exactly
    that record to its store, exactly once, when all of its chunks arrive,
    in any order and any number of times each, between any messages about other
    records and peers, as long as the record does not time out, its peer is not
    lost and its page is not ended. *)
Theorem history_record_reassembled request_id record_id event first rest
    (r : Reassembler P) (peer : P) (now : Z) (ops : list (reassembler_op P)) :
  is_u64 request_id = true -> is_u64 record_id = true ->
  record_events serialize request_id record_id event = Ok (first :: rest) ->
  wf_reassembler r -> records r !! (peer, request_id, record_id) = None ->
  Z.of_nat (size (records r)) < MAX_PENDING_RECORDS ->
  (forall data, serialize event = Ok data -> pending_bytes r + len data <= MAX_PENDING_BYTES) ->
  forallb wf_op ops = true ->
  Forall (fun o => other_op peer request_id record_id now o
                   \/ exists e, e ∈ rest /\ op_of_event peer now e = Some o) ops ->
  (forall e, e ∈ rest -> exists o, o ∈ ops /\ op_of_event peer now e = Some o) ->
  Forall survives_wire (first :: rest)
  /\ exists o, op_of_event peer now first = Some o
     /\ deliveries deserialize peer request_id record_id (fst (step deserialize r o)) ops = [event].
Proof using serialize_bytes codec_round_trip.
  intros Hq Hi Hr Hwf Hk Hsize Hroom Hops Htraffic Hall.
  destruct (record_events_inv _ _ _ _ Hr) as (data & Hser & Hdata & [= -> ->]).
  split.
  - constructor; [by apply start_survives|]. apply Forall_forall. intros e He.
    apply elem_of_lookup_imap in He as (i & part & -> & Hpart).
    destruct (part_bytes data part i (serialize_bytes _ _ Hser) ltac:(lia) Hpart) as (? & ? & ?).
    by apply chunk_survives.
  - eexists; split; [reflexivity|]. cbn [step fst].
    destruct (start_pending peer request_id record_id now data Hdata r now) as [record Hpend];
      [done..| by apply Hroom |].
    eapply run_complete; [by apply codec_round_trip | done | | exact Hpend | done | |].
    + apply start_wf; [limits; zbool | done].
    + eapply Forall_impl; [exact Htraffic|]. intros o [Ho|(e & He & Heo)]; [by left|]. right.
      apply elem_of_lookup_imap in He as (i & part & -> & Hpart).
      cbn in Heo. injection Heo as <-. by exists i, part.
    + intros i part Hpart. destruct (Hall (ProtoEvent.HistoryRecordChunk request_id record_id (Z.of_nat i) part))
        as (o & Ho & Heo).
      { apply elem_of_lookup_imap. eauto. }
      cbn in Heo. injection Heo as <-. by apply list_elem_of_In.
Qed.
End end_to_end.

(** A codec with the assumed properties, and a record of two chunks arriving
    out of order, one of them twice. *)
Definition sample_serialize (event : bytes) : result string bytes :=
  if all_u8 event then Ok event else Err "not bytes"%string.
Definition sample_record : bytes := repeat 5 1200.
Definition sample_part (i : Z) (n : nat) : ProtoEvent :=
  ProtoEvent.HistoryRecordChunk 1 0 i (repeat 5 n).
Definition sample_traffic : list (reassembler_op Z) :=
  [OpChunk 9 1 0 1 (repeat 5 21); OpStart 9 1 1 4 1 0; OpChunk 9 1 0 0 (repeat 5 1179);
   OpChunk 9 1 0 1 (repeat 5 21)].

Lemma sample_serialize_bytes event bs : sample_serialize event = Ok bs -> all_u8 bs = true.
Proof. unfold sample_serialize. destruct (all_u8 event) eqn:E; congruence. Qed.

Lemma sample_round_trip event bs : sample_serialize event = Ok bs -> Some bs = Some event.
Proof. unfold sample_serialize. destruct (all_u8 event); congruence. Qed.

Lemma history_record_reassembled_witness :
  exists o, op_of_event 9 0 (ProtoEvent.HistoryRecordStart 1 0 1200 2) = Some o
    /\ deliveries Some 9 1 0 (fst (step Some empty_reassembler o)) sample_traffic = [sample_record].
Proof.
  apply (history_record_reassembled (P := Z) sample_serialize Some
           sample_serialize_bytes sample_round_trip 1 0 sample_record
           (ProtoEvent.HistoryRecordStart 1 0 1200 2)
           [sample_part 0 1179; sample_part 1 21] empty_reassembler 9 0 sample_traffic).
  - reflexivity.
  - reflexivity.
  - vm_compute. reflexivity.
  - exact empty_reassembler_wf.
  - reflexivity.
  - vm_compute. reflexivity.
  - intros data [= <-]. vm_compute. discriminate.
  - vm_compute. reflexivity.
  - repeat apply Forall_cons_2; try apply Forall_nil_2.
    + right. exists (sample_part 1 21). split; [right; left | reflexivity].
    + left. vm_compute. discriminate.
    + right. exists (sample_part 0 1179). split; [left | reflexivity].
    + right. exists (sample_part 1 21). split; [right; left | reflexivity].
  - intros e He. apply list_elem_of_In in He as [<-|[<-|[]]].
    + exists (OpChunk 9 1 0 0 (repeat 5 1179)). split; [right; right; left | reflexivity].
    + exists (OpChunk 9 1 0 1 (repeat 5 21)). split; [left | reflexivity].
Defined.
