(* ===== verification/HistoryService.v ===== *)
(** * History synchronisation: the service

    [ClearCoordinator] of [crates/syntra-core/src/history_sync.rs], and the
    handlers of the daemon that use it and the reassembler
    ([crates/syntra-core/src/service/history_reconcile.rs], the history arms of
    [handle_peer_protocol] in [service/peers.rs] and the clear deadline of the
    main loop in [service/mod.rs]).  The history store is an interface. *)

From S2P Require Import Prelude ProtoTypes HistorySync.

(** ** The coordinator of a global clear *)

Section coordinator.
Context {P : Type} `{Countable P}.

Record ClearCoordinator := {
  operation_id : bytes;
  boundary : gmap rstring Z;
  awaiting_boundaries : gset P;
  peer_count : Z;
  participants : gset P;
  awaiting_acks : gset P;
  affected : Z;
  errors : list rstring;
  deadline : Z;
  applying : bool;
}.

Definition new_coordinator (operation : bytes) (peers : gset P) (b : gmap rstring Z) (now : Z)
    : ClearCoordinator :=
  {| operation_id := operation; boundary := b; awaiting_boundaries := peers;
     peer_count := Z.of_nat (size peers); participants := peers; awaiting_acks := ∅;
     affected := 0; errors := []; deadline := now + CLEAR_TIMEOUT; applying := false |}.

Definition add_boundary (c : ClearCoordinator) (peer : P) (b : gmap rstring Z)
    : ClearCoordinator * bool :=
  if bool_decide (peer ∈ awaiting_boundaries c) then
    let c := {| operation_id := operation_id c; boundary := union_boundary (boundary c) b;
                awaiting_boundaries := awaiting_boundaries c ∖ {[peer]};
                peer_count := peer_count c; participants := participants c;
                awaiting_acks := awaiting_acks c; affected := affected c; errors := errors c;
                deadline := deadline c; applying := applying c |} in
    (c, bool_decide (awaiting_boundaries c = ∅))
  else (c, false).

Definition begin_apply (c : ClearCoordinator) (peers : gset P) (local_affected now : Z)
    : ClearCoordinator :=
  {| operation_id := operation_id c; boundary := boundary c;
     awaiting_boundaries := awaiting_boundaries c; peer_count := peer_count c;
     participants := participants c; awaiting_acks := peers; affected := local_affected;
     errors := errors c; deadline := now + CLEAR_TIMEOUT; applying := true |}.

Definition add_ack (c : ClearCoordinator) (peer : P) (n : Z) (error : option rstring)
    : ClearCoordinator * bool :=
  if bool_decide (peer ∈ awaiting_acks c) then
    let c := {| operation_id := operation_id c; boundary := boundary c;
                awaiting_boundaries := awaiting_boundaries c; peer_count := peer_count c;
                participants := participants c; awaiting_acks := awaiting_acks c ∖ {[peer]};
                affected := saturating_add (affected c) n;
                errors := errors c ++ option_list error;
                deadline := deadline c; applying := applying c |} in
    (c, bool_decide (awaiting_acks c = ∅))
  else (c, false).

Definition peer_disconnected : rstring := str "peer disconnected during global clear".

(** [awaiting_boundaries.remove(peer) || awaiting_acks.remove(peer)]: the
    second set is touched only when the peer was not in the first. *)
Definition coordinator_peer_lost (c : ClearCoordinator) (peer : P) : ClearCoordinator :=
  let in_boundaries := bool_decide (peer ∈ awaiting_boundaries c) in
  let in_acks := bool_decide (peer ∈ awaiting_acks c) in
  {| operation_id := operation_id c; boundary := boundary c;
     awaiting_boundaries := awaiting_boundaries c ∖ {[peer]}; peer_count := peer_count c;
     participants := participants c;
     awaiting_acks := if in_boundaries then awaiting_acks c else awaiting_acks c ∖ {[peer]};
     affected := affected c;
     errors := errors c ++ (if in_boundaries || in_acks then [peer_disconnected] else []);
     deadline := deadline c; applying := applying c |}.
End coordinator.
Arguments ClearCoordinator P {_ _}.

(** ** The service *)

(** [enum Peer]; a socket address is a number here. *)
Inductive Peer := Capture (handle : Z) | Emulation (addr : Z).
#[global] Instance Peer_eq_dec : EqDecision Peer.
Proof. solve_decision. Defined.
#[global] Instance Peer_countable : Countable Peer.
Proof.
  refine (inj_countable' (fun p => match p with Capture h => inl h | Emulation a => inr a end)
    (fun s => match s with inl h => Capture h | inr a => Emulation a end) _).
  by intros [].
Defined.

(** [hex_operation]: two lower-case hexadecimal digits per byte. *)
Definition hex_digit (n : Z) : Z := if n <? 10 then 48 + n else 87 + n.
Definition hex_operation (operation : bytes) : rstring :=
  flat_map (fun byte => [hex_digit (byte / 16); hex_digit (byte mod 16)]) operation.

(** What the service asks of the history store; errors are messages. *)
Class HistoryStore (Store Event : Type) := {
  snapshot_boundary : Store -> result rstring (gmap rstring Z);
  apply_clear : Store -> rstring -> gmap rstring Z -> Store * result rstring Z;
  import : Store -> Event -> Store * result rstring unit;
  export : Store -> Z -> Z -> result rstring (list Event * option Z);
}.

(** Texts the service makes for the frontend. *)
Inductive clear_error :=
| StoreError (message : rstring)
| PeerErrors (messages : list rstring)
| ClearTimedOut (missing : Z).

Inductive output :=
| Send (peer : Peer) (event : ProtoEvent)
| HistoryClearResult (operation : rstring) (affected peers_acknowledged : Z) (error : option clear_error)
| ClearAlreadyRunning
| SyncStopped (discarded : Z)
| HistoryError (message : rstring).

Section service.
Context {Store Event : Type} `{!HistoryStore Store Event}.
Context (serialize : Event -> result string bytes) (deserialize : bytes -> option Event).

Record HistoryState := {
  store : Store;
  authenticated : gmap Peer rstring;
  connected : gset Peer;
  reassembler : Reassembler Peer;
  progress : gmap Peer (Z * Z * Z);
  next_request : Z;
  clear : option (ClearCoordinator rstring);
}.

Definition with_store (s : HistoryState) (st : Store) : HistoryState :=
  {| store := st; authenticated := authenticated s; connected := connected s; reassembler := reassembler s;
     progress := progress s; next_request := next_request s; clear := clear s |}.
Definition with_reassembler (s : HistoryState) (r : Reassembler Peer) : HistoryState :=
  {| store := store s; authenticated := authenticated s; connected := connected s; reassembler := r;
     progress := progress s; next_request := next_request s; clear := clear s |}.
Definition with_progress (s : HistoryState) (p : gmap Peer (Z * Z * Z)) : HistoryState :=
  {| store := store s; authenticated := authenticated s; connected := connected s; reassembler := reassembler s;
     progress := p; next_request := next_request s; clear := clear s |}.
Definition with_clear (s : HistoryState) (c : option (ClearCoordinator rstring)) : HistoryState :=
  {| store := store s; authenticated := authenticated s; connected := connected s; reassembler := reassembler s;
     progress := progress s; next_request := next_request s; clear := c |}.

(** Handlers return the new state and what they send, in order; a panic of the
    reassembler ends the daemon. *)
Abbreviation effects := (HistoryState * list output)%type (only parsing).

Definition is_capture (entry : Peer * rstring) : bool :=
  match fst entry with Capture _ => true | Emulation _ => false end.

(** [connected_authenticated_peers]: one route per identity, a later insertion
    replacing an earlier one, capture routes first. *)
Definition connected_authenticated_peers (s : HistoryState) : gmap rstring Peer :=
  let routes := map_to_list (authenticated s) in
  let ordered := List.filter is_capture routes
                 ++ List.filter (fun entry => negb (is_capture entry)) routes in
  fold_left (fun m '(peer, identity) => <[identity := peer]> m) ordered ∅.

(** [wrapping_add(1)] *)
Definition next_history_request_id (s : HistoryState) : HistoryState * Z :=
  let id := (next_request s + 1) mod 2 ^ 64 in
  ({| store := store s; authenticated := authenticated s; connected := connected s; reassembler := reassembler s;
      progress := progress s; next_request := id; clear := clear s |}, id).

Definition request_history_sync (s : HistoryState) (peer : Peer) (offset : Z) : effects :=
  let (s, request_id) := next_history_request_id s in
  (with_progress s (<[peer := (request_id, offset, 0)]> (progress s)),
   [Send peer (ProtoEvent.HistorySyncRequest request_id offset)]).

Definition broadcast_history_record (s : HistoryState) (record : Event) : effects :=
  let (s, request_id) := next_history_request_id s in
  match record_events serialize request_id 0 record with
  | Err _ => (s, [])
  | Ok events =>
      (s, flat_map (fun '(_, peer) =>
             (Send peer <$> events) ++ [Send peer (ProtoEvent.HistorySyncPageEnd request_id None)])
           (map_to_list (connected_authenticated_peers s)))
  end.

Definition send_history_page (s : HistoryState) (peer : Peer) (request_id offset : Z) : list output :=
  match export (store s) offset PAGE_SIZE with
  | Err _ => []
  | Ok (page, next_offset) =>
      concat (imap (fun record_id record =>
                match record_events serialize request_id (Z.of_nat record_id) record with
                | Ok events => Send peer <$> events
                | Err _ => []
                end) page)
      ++ [Send peer (ProtoEvent.HistorySyncPageEnd request_id next_offset)]
  end.

Definition finish_local_only_clear (s : HistoryState) (c : ClearCoordinator rstring) : effects :=
  let operation := hex_operation (operation_id c) in
  let (st, result) := apply_clear (store s) operation (boundary c) in
  (with_store s st,
   [match result with
    | Ok n => HistoryClearResult operation n 0 None
    | Err error => HistoryClearResult operation 0 0 (Some (StoreError error))
    end]).

(** [start_global_history_clear]; the operation id is a hash of the identity,
    the clock and a request id. *)
Definition start_global_history_clear (s : HistoryState) (operation : Z -> bytes) (now : Z) : effects :=
  match clear s with
  | Some _ => (s, [ClearAlreadyRunning])
  | None =>
      match snapshot_boundary (store s) with
      | Err error => (s, [HistoryError error])
      | Ok b =>
          let (s, request_id) := next_history_request_id s in
          let operation := operation request_id in
          let peers := connected_authenticated_peers s in
          let coordinator := new_coordinator operation (dom peers) b now in
          if bool_decide (peers = ∅) then finish_local_only_clear s coordinator
          else
            (with_clear s (Some coordinator),
             (fun '(_, peer) => Send peer (ProtoEvent.HistoryClearBoundaryRequest operation))
               <$> map_to_list peers)
      end
  end.

(** ** Messages *)

Definition on_record_start (s : HistoryState) (peer : Peer)
    (request_id record_id total_len count now : Z) : effects :=
  (with_reassembler s
     (fst (start (reassembler s) peer request_id record_id total_len count now)), []).

(** A finished record goes to the store; its refusal is only logged. *)
Definition on_record_chunk (s : HistoryState) (peer : Peer)
    (request_id record_id index : Z) (data : bytes) : call effects :=
  let (r, outcome) := chunk deserialize (reassembler s) peer request_id record_id index data in
  let s := with_reassembler s r in
  match outcome with
  | Panicked => Panicked
  | Returned (Ok (Some record)) => Returned (with_store s (fst (import (store s) record)), [])
  | Returned _ => Returned (s, [])
  end.

Definition on_page_end (s : HistoryState) (peer : Peer) (request_id : Z) (next_offset : option Z)
    : effects :=
  let (r, discarded) := finish_request (reassembler s) peer request_id in
  let s := with_reassembler s r in
  match progress s !! peer with
  | None => (s, [])
  | Some (active_request, page_offset, retries) =>
      if negb (active_request =? request_id) then (s, [])
      else if negb (discarded =? 0) then
        if 3 <=? retries then
          (with_progress s (delete peer (progress s)), [SyncStopped discarded])
        else
          let (s, retry_request) := next_history_request_id s in
          (with_progress s (<[peer := (retry_request, page_offset, retries + 1)]> (progress s)),
           [Send peer (ProtoEvent.HistorySyncRequest retry_request page_offset)])
      else
        match next_offset with
        | Some offset =>
            (with_progress s (<[peer := (request_id, offset, 0)]> (progress s)),
             [Send peer (ProtoEvent.HistorySyncRequest request_id offset)])
        | None => (with_progress s (delete peer (progress s)), [])
        end
  end.

Definition on_clear_boundary_request (s : HistoryState) (peer : Peer) (operation : bytes) : effects :=
  (s, [Send peer match snapshot_boundary (store s) with
                 | Ok b => ProtoEvent.HistoryClearBoundary operation (boundary_to_wire b)
                 | Err error => ProtoEvent.HistoryClearAck operation 0 (Some error)
                 end]).

(** The second phase of a clear: local deletion, then a request to every
    participant that has a route. *)
Definition apply_global_clear (s : HistoryState) (c : ClearCoordinator rstring)
    (operation : bytes) (now : Z) : effects :=
  let (st, result) := apply_clear (store s) (hex_operation operation) (boundary c) in
  let s := with_store s st in
  match result with
  | Ok n =>
      let c := begin_apply c (participants c) n now in
      let routes := connected_authenticated_peers s in
      (with_clear s (Some c),
       omap (fun identity =>
               (fun peer => Send peer (ProtoEvent.HistoryClearApply operation (boundary_to_wire (boundary c))))
                 <$> routes !! identity)
            (elements (participants c)))
  | Err error => (s, [HistoryClearResult (hex_operation operation) 0 0 (Some (StoreError error))])
  end.

Definition on_clear_boundary (s : HistoryState) (identity : rstring) (operation : bytes)
    (entries : list (rstring * Z)) (now : Z) : effects :=
  match clear s with
  | None => (s, [])
  | Some c =>
      if bool_decide (operation_id c = operation) then
        let (c, ready) := add_boundary c identity (boundary_from_wire entries) in
        if ready : bool then apply_global_clear (with_clear s None) c operation now
        else (with_clear s (Some c), [])
      else (s, [])
  end.

Definition on_clear_apply (s : HistoryState) (peer : Peer) (operation : bytes)
    (entries : list (rstring * Z)) : effects :=
  let (st, result) := apply_clear (store s) (hex_operation operation) (boundary_from_wire entries) in
  (with_store s st,
   [Send peer match result with
              | Ok n => ProtoEvent.HistoryClearAck operation n None
              | Err error => ProtoEvent.HistoryClearAck operation 0 (Some error)
              end]).

Definition peer_errors (c : ClearCoordinator rstring) : option clear_error :=
  match errors c with [] => None | messages => Some (PeerErrors messages) end.

Definition on_clear_ack (s : HistoryState) (identity : rstring) (operation : bytes)
    (n : Z) (error : option rstring) : effects :=
  match clear s with
  | None => (s, [])
  | Some c =>
      if bool_decide (operation_id c = operation) && applying c then
        let (c, finished) := add_ack c identity n error in
        if finished : bool then
          (with_clear s None,
           [HistoryClearResult (hex_operation operation) (affected c) (peer_count c mod 2 ^ 32) (peer_errors c)])
        else (with_clear s (Some c), [])
      else (s, [])
  end.

(** The history arms of [handle_peer_protocol]: messages of peers without a
    certificate identity are dropped. *)
Definition handle_history (s : HistoryState) (peer : Peer) (e : ProtoEvent) (now : Z) : call effects :=
  match authenticated s !! peer with
  | None => Returned (s, [])
  | Some identity =>
      match e with
      | ProtoEvent.HistorySyncRequest request_id offset =>
          Returned (s, send_history_page s peer request_id offset)
      | ProtoEvent.HistoryRecordStart request_id record_id total_len count =>
          Returned (on_record_start s peer request_id record_id total_len count now)
      | ProtoEvent.HistoryRecordChunk request_id record_id index data =>
          on_record_chunk s peer request_id record_id index data
      | ProtoEvent.HistorySyncPageEnd request_id next_offset =>
          Returned (on_page_end s peer request_id next_offset)
      | ProtoEvent.HistoryClearBoundaryRequest operation =>
          Returned (on_clear_boundary_request s peer operation)
      | ProtoEvent.HistoryClearBoundary operation entries =>
          Returned (on_clear_boundary s identity operation entries now)
      | ProtoEvent.HistoryClearApply operation entries =>
          Returned (on_clear_apply s peer operation entries)
      | ProtoEvent.HistoryClearAck operation n error =>
          Returned (on_clear_ack s identity operation n error)
      | _ => Returned (s, [])
      end
  end.

(** [history_peer_lost]: the identity may still be reachable over another
    route, which is then asked again.  The manual transfers refresh their own
    routes ([refresh_routes] of [ManualTransfer]). *)
Definition history_peer_lost (s : HistoryState) (peer : Peer) : effects :=
  let identity := authenticated s !! peer in
  let s := {| store := store s; authenticated := delete peer (authenticated s);
              connected := connected s ∖ {[peer]};
              reassembler := peer_lost (reassembler s) peer;
              progress := delete peer (progress s);
              next_request := next_request s; clear := clear s |} in
  match identity with
  | None => (s, [])
  | Some identity =>
      match connected_authenticated_peers s !! identity with
      | Some route =>
          (s, match clear s with
              | None => []
              | Some c =>
                  if bool_decide (identity ∈ awaiting_boundaries c)
                  then [Send route (ProtoEvent.HistoryClearBoundaryRequest (operation_id c))]
                  else if bool_decide (identity ∈ awaiting_acks c)
                  then [Send route (ProtoEvent.HistoryClearApply (operation_id c)
                                      (boundary_to_wire (boundary c)))]
                  else []
              end)
      | None => (with_clear s ((fun c => coordinator_peer_lost c identity) <$> clear s), [])
      end
  end.

(** The history part of [EmulationEvent::Connected]: a peer with a certificate
    identity is asked for its history from the start. *)
Definition emulation_connected (s : HistoryState) (addr : Z) (fingerprint : rstring) : effects :=
  let peer := Emulation addr in
  request_history_sync
    {| store := store s; authenticated := <[peer := fingerprint]> (authenticated s);
       connected := {[peer]} ∪ connected s; reassembler := reassembler s;
       progress := progress s; next_request := next_request s; clear := clear s |} peer 0.

(** The history part of [ICaptureEvent::PeerStateChanged]; [alive] is what the
    client manager says. *)
Definition capture_state_changed (s : HistoryState) (handle : Z) (alive : bool) : effects :=
  let peer := Capture handle in
  if alive then
    if bool_decide (peer ∈ connected s) then (s, [])
    else
      request_history_sync
        {| store := store s; authenticated := authenticated s;
           connected := {[peer]} ∪ connected s; reassembler := reassembler s;
           progress := progress s; next_request := next_request s; clear := clear s |} peer 0
  else history_peer_lost s peer.

(** The deadline arm of the main loop. *)
Definition clear_deadline (s : HistoryState) (now : Z) : effects :=
  match clear s with
  | Some c =>
      if deadline c <=? now then
        let missing :=
          Z.max (Z.of_nat (size (if applying c then awaiting_acks c else awaiting_boundaries c)))
                (len (errors c)) in
        (with_clear s None,
         [HistoryClearResult (hex_operation (operation_id c)) (if applying c then affected c else 0)
            (saturating_sub (peer_count c) missing mod 2 ^ 32) (Some (ClearTimedOut missing))])
      else (s, [])
  | None => (s, [])
  end.

(** The expiry of records on the profile tick. *)
Definition history_tick (s : HistoryState) (now : Z) : HistoryState :=
  with_reassembler s (fst (expire (reassembler s) now)).
End service.
Arguments HistoryState Store : clear implicits.
