(* ===== verification/HistoryServiceTheorems.v ===== *)
(** * History synchronisation: service theorems

    Clear boundaries form a join semilattice, so the boundary of a global clear
    does not depend on the order peers answer in; pages are retried a bounded
    number of times and never skipped. *)

From stdpp Require Import sorting.
From S2P Require Import Prelude ProtoTypes HistorySync HistorySyncTheorems HistoryService.

#[local] Set Warnings "-clear-no-such-hyp".

(** ** Boundaries *)

(** The join of two entries. *)
Definition join_entry (a b : option Z) : option Z := union_with (fun x y => Some (Z.max x y)) a b.

(** The entries for one device. *)
Definition entries_of (device : rstring) (entries : list (rstring * Z)) : list Z :=
  snd <$> filter (fun e => fst e = device) entries.

Lemma raise_lookup (b : gmap rstring Z) (device : rstring) origin sequence :
  raise_boundary b (origin, sequence) !! device
  = if decide (origin = device) then join_entry (b !! device) (Some sequence) else b !! device.
Proof.
  cbn. destruct (decide (origin = device)) as [<-|Hne].
  - destruct (b !! origin) eqn:E; by rewrite lookup_insert_eq.
  - destruct (b !! origin); by rewrite lookup_insert_ne.
Qed.

Lemma fold_raise_lookup (device : rstring) entries : forall b,
  fold_left raise_boundary entries b !! device
  = fold_left (fun a sequence => join_entry a (Some sequence)) (entries_of device entries) (b !! device).
Proof.
  induction entries as [|[origin sequence] entries IH]; intros b; [done|].
  cbn [fold_left]. rewrite IH, raise_lookup. unfold entries_of. rewrite filter_cons. cbn [fst].
  by destruct (decide (origin = device)).
Qed.

Lemma iter_boundary_perm (b : gmap rstring Z) : iter_boundary b ≡ₚ map_to_list b.
Proof. apply merge_sort_Permutation. Qed.

Lemma entries_of_perm device entries entries' :
  entries ≡ₚ entries' -> entries_of device entries ≡ₚ entries_of device entries'.
Proof. intros Hp. unfold entries_of. by rewrite Hp. Qed.

Lemma entries_of_none device entries :
  (forall v, (device, v) ∉ entries) -> entries_of device entries = [].
Proof.
  intros Hn. induction entries as [|[origin v] entries IH]; [done|]. unfold entries_of in *.
  rewrite filter_cons. cbn. destruct (decide (origin = device)) as [->|].
  - exfalso. apply (Hn v). by left.
  - apply IH. intros v' Hv'. apply (Hn v'). by right.
Qed.

Lemma entries_of_map (device : rstring) (b : gmap rstring Z) :
  entries_of device (map_to_list b) = option_list (b !! device).
Proof.
  destruct (b !! device) as [v|] eqn:E; cbn.
  - apply Permutation_singleton_r. rewrite <- (insert_delete_id b device v E).
    rewrite (entries_of_perm _ _ _ (map_to_list_insert (delete device b) device v ltac:(apply lookup_delete_eq))).
    unfold entries_of. rewrite filter_cons_True by done. cbn. fold (entries_of device (map_to_list (delete device b))).
    rewrite entries_of_none; [done|]. intros v' Hin.
    apply elem_of_map_to_list in Hin. by rewrite lookup_delete_eq in Hin.
  - apply entries_of_none. intros v Hin. apply elem_of_map_to_list in Hin. congruence.
Qed.

Lemma union_boundary_lookup (target source : gmap rstring Z) (device : rstring) :
  union_boundary target source !! device = join_entry (target !! device) (source !! device).
Proof.
  unfold union_boundary. rewrite fold_raise_lookup.
  assert (entries_of device (iter_boundary source) = option_list (source !! device)) as ->.
  { pose proof (entries_of_perm device _ _ (iter_boundary_perm source)) as Hp.
    rewrite entries_of_map in Hp. destruct (source !! device); cbn in *;
      [by apply Permutation_singleton_r in Hp | by apply Permutation_nil_r in Hp]. }
  destruct (source !! device), (target !! device); done.
Qed.

Lemma join_entry_comm a b : join_entry a b = join_entry b a.
Proof. destruct a, b; cbn; try done. f_equal. lia. Qed.

Lemma join_entry_assoc a b c : join_entry a (join_entry b c) = join_entry (join_entry a b) c.
Proof. destruct a, b, c; cbn; try done. f_equal. lia. Qed.

Lemma raise_comm (b : gmap rstring Z) e e' :
  raise_boundary (raise_boundary b e) e' = raise_boundary (raise_boundary b e') e.
Proof.
  destruct e as [o s], e' as [o' s']. apply map_eq. intros device. rewrite !raise_lookup.
  destruct (decide (o = device)), (decide (o' = device)); try done.
  rewrite <- !join_entry_assoc. f_equal. apply join_entry_comm.
Qed.

(** The order of the entries on the wire does not matter. *)
#[global] Instance fold_raise_proper : Proper ((≡ₚ) ==> (=) ==> (=)) (fold_left raise_boundary).
Proof.
  intros l l' Hp b _ <-. revert b. induction Hp as [|e l l' _ IH|e e' l|l l' l'' _ IH1 _ IH2]; intros b; cbn.
  - done.
  - apply IH.
  - by rewrite raise_comm.
  - by rewrite IH1.
Qed.

#[global] Instance boundary_from_wire_proper : Proper ((≡ₚ) ==> (=)) boundary_from_wire.
Proof. intros l l' Hp. unfold boundary_from_wire. by rewrite Hp. Qed.

(** Clear boundaries.  Sending a boundary and reading it back gives the
    same boundary, however the entries are reordered on the way; merging
    boundaries takes the larger sequence per device, and is commutative,
    associative and idempotent with the empty boundary as its unit; so merging
    never lowers what a device has already agreed to clear. *)
Theorem boundary_semilattice (a b c : gmap rstring Z) :
  (forall entries, entries ≡ₚ boundary_to_wire a -> boundary_from_wire entries = a)
  /\ (forall device, union_boundary a b !! device = join_entry (a !! device) (b !! device))
  /\ union_boundary a b = union_boundary b a
  /\ union_boundary a (union_boundary b c) = union_boundary (union_boundary a b) c
  /\ union_boundary a a = a /\ union_boundary ∅ a = a
  /\ (forall device v, a !! device = Some v ->
      exists w, union_boundary a b !! device = Some w /\ v <= w).
Proof.
  assert (union_boundary ∅ a = a) as Hunit.
  { apply map_eq. intros device. rewrite union_boundary_lookup, lookup_empty. by destruct (a !! device). }
  split_and!.
  - intros entries ->. exact Hunit.
  - intros device. apply union_boundary_lookup.
  - apply map_eq. intros device. rewrite !union_boundary_lookup. apply join_entry_comm.
  - apply map_eq. intros device. rewrite !union_boundary_lookup. apply join_entry_assoc.
  - apply map_eq. intros device. rewrite union_boundary_lookup. destruct (a !! device); cbn; [|done].
    f_equal. lia.
  - exact Hunit.
  - intros device v Hv. rewrite union_boundary_lookup, Hv.
    destruct (b !! device); cbn; eexists; (split; [done | lia]).
Qed.

Lemma boundary_semilattice_witness :
  boundary_from_wire [(str "b", 4); (str "a", 7)] = {[str "a" := 7; str "b" := 4]}.
Proof.
  apply (boundary_semilattice {[str "a" := 7; str "b" := 4]} ∅ ∅).
  replace (boundary_to_wire {[str "a" := 7; str "b" := 4]}) with [(str "a", 7); (str "b", 4)]
    by (vm_compute; reflexivity).
  apply perm_swap.
Defined.

(** ** The first phase of a global clear *)

Section set_facts.
Context {P : Type} `{Countable P}.
Implicit Types (X Y : gset P) (p : P).

Lemma difference_step X Y p : (X ∖ {[p]}) ∖ Y = X ∖ ({[p]} ∪ Y).
Proof. set_solver. Qed.

Lemma difference_skip X Y p : p ∉ X -> X ∖ Y = X ∖ ({[p]} ∪ Y).
Proof. set_solver. Qed.

Lemma covered_step X Y p :
  p ∈ X -> (X ∖ {[p]} = ∅ \/ (X ∖ {[p]} <> ∅ /\ X ∖ {[p]} ⊆ Y)) <-> (X <> ∅ /\ X ⊆ {[p]} ∪ Y).
Proof.
  intros Hp. split.
  - intros Hc. split; [set_solver|]. intros q Hq. destruct (decide (q = p)); [set_solver|].
    destruct Hc as [E|[_ Hs]]; [|set_solver]. assert (q ∈ X ∖ {[p]}) by set_solver. set_solver.
  - intros [_ Hs]. destruct (decide (X ∖ {[p]} = ∅)); [by left | right]. split; [done | set_solver].
Qed.

Lemma covered_skip X Y p : p ∉ X -> X ⊆ Y <-> X ⊆ {[p]} ∪ Y.
Proof. set_solver. Qed.
End set_facts.

Section clear_phase.
Context {P : Type} `{Countable P}.
Implicit Types c : ClearCoordinator P.

(** Answers arriving one after the other, with what [add_boundary] says of each. *)
Fixpoint collect c (reports : list (P * gmap rstring Z)) : ClearCoordinator P * list bool :=
  match reports with
  | [] => (c, [])
  | (peer, report) :: reports =>
      let (c, ready) := add_boundary c peer report in
      let (c, flags) := collect c reports in
      (c, ready :: flags)
  end.

Definition reporters (reports : list (P * gmap rstring Z)) : gset P := list_to_set (fst <$> reports).

(** The reports that count: the first of each peer that is still awaited. *)
Fixpoint counted (awaited : gset P) (reports : list (P * gmap rstring Z)) : list (gmap rstring Z) :=
  match reports with
  | [] => []
  | (peer, report) :: reports =>
      if bool_decide (peer ∈ awaited) then report :: counted (awaited ∖ {[peer]}) reports
      else counted awaited reports
  end.

Lemma add_boundary_cases c peer report :
  ((peer ∈ awaiting_boundaries c)
   /\ awaiting_boundaries (fst (add_boundary c peer report)) = awaiting_boundaries c ∖ {[peer]}
   /\ boundary (fst (add_boundary c peer report)) = union_boundary (boundary c) report
   /\ snd (add_boundary c peer report) = bool_decide (awaiting_boundaries c ∖ {[peer]} = ∅))
  \/ ((peer ∉ awaiting_boundaries c) /\ add_boundary c peer report = (c, false)).
Proof.
  unfold add_boundary. destruct (decide (peer ∈ awaiting_boundaries c)) as [Hin|Hout].
  - left. by rewrite (bool_decide_eq_true_2 _ Hin).
  - right. by rewrite (bool_decide_eq_false_2 _ Hout).
Qed.

Lemma collect_state reports : forall c,
  let c' := fst (collect c reports) in
  awaiting_boundaries c' = awaiting_boundaries c ∖ reporters reports
  /\ boundary c' = fold_left union_boundary (counted (awaiting_boundaries c) reports) (boundary c).
Proof.
  induction reports as [|[peer report] reports IH]; intros c; cbn zeta.
  { unfold reporters. cbn. split; [set_solver | done]. }
  cbn [collect counted]. unfold reporters in *. cbn [fmap list_fmap fst list_to_set].
  destruct (add_boundary_cases c peer report) as [(Hin & Ha & Hb & _)|(Hout & E)].
  - rewrite (bool_decide_eq_true_2 _ Hin).
    destruct (add_boundary c peer report) as [c1 ready]. cbn [fst] in *.
    destruct (IH c1) as [IHa IHb]. destruct (collect c1 reports) as [c2 flags]. cbn [fst] in *.
    rewrite IHa, IHb, Ha, Hb. split; [apply difference_step | done].
  - rewrite E, (bool_decide_eq_false_2 _ Hout).
    destruct (IH c) as [IHa IHb]. destruct (collect c reports) as [c2 flags]. cbn [fst] in *.
    rewrite IHa, IHb. split; [by apply difference_skip | done].
Qed.

Lemma collect_ready reports : forall c,
  In true (snd (collect c reports)) <->
  awaiting_boundaries c <> ∅ /\ awaiting_boundaries c ⊆ reporters reports.
Proof.
  induction reports as [|[peer report] reports IH]; intros c.
  { unfold reporters. cbn. split; [done | set_solver]. }
  cbn [collect]. unfold reporters in *. cbn [fmap list_fmap fst list_to_set].
  destruct (add_boundary_cases c peer report) as [(Hin & Ha & _ & Hr)|(Hout & E)].
  - destruct (add_boundary c peer report) as [c1 ready]. cbn [fst snd] in *. specialize (IH c1).
    destruct (collect c1 reports) as [c2 flags]. cbn [snd In] in *. rewrite IH, Ha, Hr.
    rewrite <- (covered_step _ _ peer Hin). by rewrite bool_decide_eq_true.
  - rewrite E. specialize (IH c). destruct (collect c reports) as [c2 flags]. cbn [snd In] in *.
    rewrite IH, <- (covered_skip _ _ peer Hout). intuition congruence.
Qed.

Lemma fold_union_lookup (device : rstring) bs : forall b : gmap rstring Z,
  fold_left union_boundary bs b !! device
  = fold_left join_entry ((fun r : gmap rstring Z => r !! device) <$> bs) (b !! device).
Proof.
  induction bs as [|r bs IH]; intros b; [done|]. cbn. rewrite IH. f_equal. apply union_boundary_lookup.
Qed.

Lemma fold_union_perm bs bs' : bs ≡ₚ bs' -> forall b,
  fold_left union_boundary bs b = fold_left union_boundary bs' b.
Proof.
  induction 1 as [|r l l' _ IH|r r' l|l l' l'' _ IH1 _ IH2]; intros b; cbn; try done.
  - f_equal. apply map_eq. intros device. rewrite !union_boundary_lookup, <- !join_entry_assoc.
    f_equal. apply join_entry_comm.
  - by rewrite IH1.
Qed.

Lemma counted_all reports : forall awaited,
  NoDup (fst <$> reports) -> reporters reports ⊆ awaited -> counted awaited reports = snd <$> reports.
Proof.
  unfold reporters. induction reports as [|[peer report] reports IH]; intros awaited Hnd Hsub; [done|].
  cbn [fmap list_fmap fst snd list_to_set counted] in *. apply NoDup_cons in Hnd as [Hnin Hnd].
  rewrite bool_decide_eq_true_2 by set_solver. rewrite IH; [done | done |].
  intros q Hq. apply elem_of_difference. split; [set_solver|].
  rewrite elem_of_singleton. intros ->. by rewrite elem_of_list_to_set in Hq.
Qed.
End clear_phase.

(** The first phase of a global clear.  However answers of peers (several
    of one peer, answers of strangers) interleave, the coordinator asks for the
    second phase exactly when the last participant has answered, the boundary
    it then applies is the merge of the local one with the first answer of
    every participant, and that boundary does not depend on the order of the
    answers. *)
Theorem clear_boundary_phase {P : Type} `{Countable P} (operation : bytes) (peers : gset P)
    (local : gmap rstring Z) (now : Z) (reports : list (P * gmap rstring Z)) :
  let c0 := new_coordinator operation peers local now in
  let c := fst (collect c0 reports) in
  (In true (snd (collect c0 reports)) <-> peers <> ∅ /\ peers ⊆ reporters reports)
  /\ awaiting_boundaries c = peers ∖ reporters reports
  /\ (forall device, boundary c !! device
      = fold_left join_entry ((fun r : gmap rstring Z => r !! device) <$> counted peers reports) (local !! device))
  /\ (forall reports', NoDup (fst <$> reports) -> reporters reports ⊆ peers -> reports' ≡ₚ reports ->
      boundary (fst (collect c0 reports')) = boundary c).
Proof.
  intros c0 c. destruct (collect_state reports c0) as [Ha Hb]. fold c in Ha, Hb. split_and!.
  - apply collect_ready.
  - exact Ha.
  - intros device. rewrite Hb. apply fold_union_lookup.
  - intros reports' Hnd Hsub Hp. destruct (collect_state reports' c0) as [_ Hb']. rewrite Hb, Hb'.
    apply fold_union_perm. cbn [c0 awaiting_boundaries new_coordinator].
    rewrite !counted_all; [by rewrite Hp | done | done | by rewrite Hp |].
    unfold reporters in *. by rewrite Hp.
Qed.

Lemma clear_boundary_phase_witness :
  let c0 := new_coordinator [] {[1; 2]} {[str "me" := 5]} 0 in
  boundary (fst (collect c0 [(2, {[str "a" := 3]}); (1, {[str "a" := 9]})]))
  = boundary (fst (collect c0 [(1, {[str "a" := 9]}); (2, {[str "a" := 3]})])).
Proof.
  apply (clear_boundary_phase (P := Z) [] {[1; 2]} {[str "me" := 5]} 0
    [(1, {[str "a" := 9]}); (2, {[str "a" := 3]})]).
  - repeat constructor; set_solver.
  - unfold reporters. cbn. set_solver.
  - apply perm_swap.
Defined.

(** ** The service as a state machine *)

Section service_runs.
Context {Store Event : Type} `{!HistoryStore Store Event}.
Context (serialize : Event -> result string bytes) (deserialize : bytes -> option Event).
Implicit Types s : HistoryState Store.

(** What can happen to the history part of the daemon. *)
Inductive service_step : HistoryState Store -> list output -> HistoryState Store -> Prop :=
| step_message s peer e now s' out :
    wf_event e = true ->
    handle_history serialize deserialize s peer e now = Returned (s', out) -> service_step s out s'
| step_sync s peer offset s' out :
    request_history_sync s peer offset = (s', out) -> service_step s out s'
| step_broadcast s record s' out :
    broadcast_history_record serialize s record = (s', out) -> service_step s out s'
| step_clear s operation now s' out :
    start_global_history_clear s operation now = (s', out) -> service_step s out s'
| step_lost s peer s' out : history_peer_lost s peer = (s', out) -> service_step s out s'
| step_deadline s now s' out : clear_deadline s now = (s', out) -> service_step s out s'
| step_tick s now : service_step s [] (history_tick s now)
| step_connected s addr fingerprint s' out :
    emulation_connected s addr fingerprint = (s', out) -> service_step s out s'
| step_alive s handle alive s' out :
    capture_state_changed s handle alive = (s', out) -> service_step s out s'
| step_authenticated s peer identity :
    service_step s []
      {| store := store s; authenticated := <[peer := identity]> (authenticated s);
         connected := connected s; reassembler := reassembler s; progress := progress s; next_request := next_request s;
         clear := clear s |}.

Record wf_clear (c : ClearCoordinator rstring) : Prop := {
  wf_awaiting : awaiting_boundaries c ⊆ participants c;
  wf_acks : awaiting_acks c ⊆ participants c;
  wf_peers : peer_count c = Z.of_nat (size (participants c));
  wf_phase : if applying c then awaiting_boundaries c = ∅ else awaiting_acks c = ∅;
}.

Record wf_service s : Prop := {
  ws_reassembler : wf_reassembler (reassembler s);
  ws_retries : map_Forall (fun _ '(_, _, retries) => 0 <= retries <= 3) (progress s);
  ws_clear : forall c, clear s = Some c -> wf_clear c;
}.

Lemma add_boundary_wf c peer b : wf_clear c -> wf_clear (fst (add_boundary c peer b)).
Proof.
  intros [Ha Hk Hp Hph]. unfold add_boundary. case_bool_decide as Hin; [|done].
  split; cbn; [set_solver | done | done |]. destruct (applying c); set_solver.
Qed.

Lemma add_ack_wf c peer n error : wf_clear c -> wf_clear (fst (add_ack c peer n error)).
Proof.
  intros [Ha Hk Hp Hph]. unfold add_ack. case_bool_decide as Hin; [|done].
  split; cbn; [done | set_solver | done |]. destruct (applying c); set_solver.
Qed.

Lemma peer_lost_wf c peer : wf_clear c -> wf_clear (coordinator_peer_lost c peer).
Proof.
  intros [Ha Hk Hp Hph]. unfold coordinator_peer_lost.
  split; cbn; [set_solver | case_bool_decide; set_solver | done |].
  destruct (applying c); [set_solver|]. case_bool_decide; set_solver.
Qed.

Lemma new_coordinator_wf operation peers b now : wf_clear (new_coordinator operation peers b now).
Proof. split; cbn; set_solver. Qed.

Lemma begin_apply_wf c n now :
  wf_clear c -> awaiting_boundaries c = ∅ -> wf_clear (begin_apply c (participants c) n now).
Proof. intros [Ha Hk Hp Hph] E. split; cbn; [set_solver | set_solver | done | done]. Qed.

Lemma add_boundary_ready (c : ClearCoordinator rstring) peer b c' :
  add_boundary c peer b = (c', true) -> awaiting_boundaries c' = ∅ /\ participants c' = participants c.
Proof.
  unfold add_boundary. case_bool_decide; [|done]. intros [= <- E]. apply bool_decide_eq_true in E. done.
Qed.

Section preserved.
Context (s : HistoryState Store).
Hypothesis Hwf : wf_service s.

Lemma ws_with_reassembler r : wf_reassembler r -> wf_service (with_reassembler s r).
Proof using Hwf. intros Hr. destruct Hwf. split; done. Qed.

Lemma ws_with_store st : wf_service (with_store s st).
Proof using Hwf. destruct Hwf. split; done. Qed.

Lemma ws_with_clear c : (forall c', c = Some c' -> wf_clear c') -> wf_service (with_clear s c).
Proof using Hwf. intros Hc. destruct Hwf. split; done. Qed.

Lemma ws_with_progress p :
  map_Forall (fun _ '(_, _, retries) => 0 <= retries <= 3) p -> wf_service (with_progress s p).
Proof using Hwf. intros Hp. destruct Hwf. split; done. Qed.

Lemma ws_next : wf_service (fst (next_history_request_id s)).
Proof using Hwf. destruct Hwf. split; done. Qed.
End preserved.

Hint Resolve ws_with_reassembler ws_with_store ws_with_clear ws_with_progress ws_next retain_wf
  add_boundary_wf add_ack_wf peer_lost_wf new_coordinator_wf : syntra.

Lemma on_page_end_wf s peer request_id next :
  wf_service s -> wf_service (fst (on_page_end s peer request_id next)).
Proof.
  intros Hwf. unfold on_page_end. pose proof (ws_reassembler _ Hwf) as Hr.
  pose proof (ws_retries _ Hwf) as Hp. unfold finish_request in *.
  match goal with |- context [retain ?f ?r] =>
    pose proof (retain_wf f r Hr) as Hr'; destruct (retain f r) as [r' discarded]; cbn [fst] in Hr' end.
  pose proof (ws_with_reassembler s Hwf _ Hr') as Hs. cbn [progress with_reassembler].
  destruct (progress s !! peer) as [[[active offset] retries]|] eqn:E; [|done].
  pose proof (map_Forall_lookup_1 _ _ _ _ Hp E) as Hret. cbn in Hret.
  destruct (negb (active =? request_id)); [done|]. destruct (negb (discarded =? 0)).
  - destruct (Z.leb_spec 3 retries); cbn.
    + apply ws_with_progress; [done|]. by apply map_Forall_delete.
    + apply ws_with_progress; [exact (ws_next _ Hs)|]. apply map_Forall_insert_2; [lia | done].
  - destruct next as [next|]; cbn; (apply ws_with_progress; [done|]).
    + apply map_Forall_insert_2; [lia | done].
    + by apply map_Forall_delete.
Qed.

Lemma on_clear_boundary_wf s identity operation entries now :
  wf_service s -> wf_service (fst (on_clear_boundary s identity operation entries now)).
Proof.
  intros Hwf. unfold on_clear_boundary. destruct (clear s) as [c|] eqn:E; [|done].
  case_bool_decide; [|done]. pose proof (ws_clear _ Hwf c E) as Hc.
  pose proof (add_boundary_wf c identity (boundary_from_wire entries) Hc) as Hc'.
  destruct (add_boundary c identity _) as [c' ready] eqn:Ea. cbn [fst] in Hc'. destruct ready.
  - destruct (add_boundary_ready _ _ _ _ Ea) as [Hempty _]. unfold apply_global_clear.
    destruct (apply_clear _ _ _) as [st [n|error]]; cbn [fst].
    + apply ws_with_clear; [by do 2 apply ws_with_store || apply ws_with_clear|].
      intros ? [= <-]. by apply begin_apply_wf.
    + apply ws_with_store. by apply ws_with_clear.
  - apply ws_with_clear; [done|]. by intros ? [= <-].
Qed.

Lemma on_clear_ack_wf s identity operation n error :
  wf_service s -> wf_service (fst (on_clear_ack s identity operation n error)).
Proof.
  intros Hwf. unfold on_clear_ack. destruct (clear s) as [c|] eqn:E; [|done].
  destruct (bool_decide _ && applying c); [|done].
  pose proof (add_ack_wf c identity n error (ws_clear _ Hwf c E)) as Hc.
  destruct (add_ack c identity n error) as [c' finished]. cbn [fst] in Hc.
  destruct finished; (apply ws_with_clear; [done|]); [done | by intros ? [= <-]].
Qed.

Lemma start_global_history_clear_wf s operation now :
  wf_service s -> wf_service (fst (start_global_history_clear s operation now)).
Proof.
  intros Hwf. unfold start_global_history_clear. destruct (clear s) as [c|] eqn:E; [done|].
  destruct (snapshot_boundary (store s)); [|done]. pose proof (ws_next _ Hwf) as Hn.
  destruct (next_history_request_id s) as [s' request_id]. cbn [fst] in Hn.
  case_bool_decide; unfold finish_local_only_clear.
  - destruct (apply_clear _ _ _). by apply ws_with_store.
  - apply ws_with_clear; [done|]. intros ? [= <-]. apply new_coordinator_wf.
Qed.

Lemma history_peer_lost_wf s peer :
  wf_service s -> wf_service (fst (history_peer_lost s peer)).
Proof.
  intros [Hr Hp Hc]. unfold history_peer_lost.
  set (s' := Build_HistoryState _ _ _ _ _ _ _).
  assert (wf_service s') as Hs' by (split; [by apply retain_wf | by apply map_Forall_delete | done]).
  destruct (authenticated s !! peer) as [identity|]; [|done].
  destruct (connected_authenticated_peers s' !! identity); [done|].
  apply ws_with_clear; [done|]. intros c Hc'. destruct (clear s') as [c0|] eqn:E; [|done].
  injection Hc' as <-. by apply peer_lost_wf, Hc.
Qed.

Lemma request_history_sync_wf s peer offset :
  wf_service s -> wf_service (fst (request_history_sync s peer offset)).
Proof.
  intros Hwf. apply ws_with_progress; [by apply ws_next|]. apply map_Forall_insert_2; [lia | apply Hwf].
Qed.

Lemma handle_history_wf s peer e now :
  wf_service s -> wf_event e = true ->
  exists s' out, handle_history serialize deserialize s peer e now = Returned (s', out) /\ wf_service s'.
Proof.
  intros Hwf He. unfold handle_history.
  assert (forall p : HistoryState Store * list output, wf_service (fst p) ->
    exists s' out, Returned p = Returned (s', out) /\ wf_service s') as Hret
    by (intros [s' out] Hs; eauto).
  destruct (authenticated s !! peer) as [identity|]; [|by apply Hret].
  destruct e; try (by apply Hret); cbn [wf_event] in He; boolsplit.
  - apply Hret, ws_with_reassembler; [done|]. apply start_wf; [done|]. apply Hwf.
  - unfold on_record_chunk.
    pose proof (chunk_wf deserialize (reassembler s) peer request_id record_id index data) as Hc.
    destruct (chunk _ _ _ _ _ _ _) as [r outcome]. destruct Hc as [Hr Hp]; [zbool | apply Hwf |].
    destruct outcome as [[[record|]|]|]; [apply Hret, ws_with_store | apply Hret | apply Hret | done];
      by apply ws_with_reassembler.
  - apply Hret. by apply on_page_end_wf.
  - apply Hret. by apply on_clear_boundary_wf.
  - apply Hret. unfold on_clear_apply. destruct (apply_clear _ _ _). by apply ws_with_store.
  - apply Hret. by apply on_clear_ack_wf.
Qed.

Lemma service_step_wf s out s' : wf_service s -> service_step s out s' -> wf_service s'.
Proof.
  intros Hwf Hs. destruct Hs as [s peer e now s' out He E|s peer offset s' out E|s record s' out E
    |s operation now s' out E|s peer s' out E|s now s' out E|s now|s addr fingerprint s' out E
    |s handle alive s' out E|s peer identity].
  - destruct (handle_history_wf s peer e now Hwf He) as (s1 & out1 & E1 & H1). congruence.
  - pose proof (request_history_sync_wf s peer offset Hwf) as Hc. by rewrite E in Hc.
  - unfold broadcast_history_record in E. cbn in E.
    destruct (record_events _ _ _ _); injection E as <- <-; by apply ws_next.
  - pose proof (start_global_history_clear_wf s operation now Hwf) as Hc. by rewrite E in Hc.
  - pose proof (history_peer_lost_wf s peer Hwf) as Hc. by rewrite E in Hc.
  - unfold clear_deadline in E. destruct (clear s); [|by injection E as <- <-].
    destruct (deadline c <=? now); injection E as <- <-; [by apply ws_with_clear | done].
  - apply ws_with_reassembler; [done|]. apply retain_wf, Hwf.
  - unfold emulation_connected in E. match type of E with request_history_sync ?s0 _ _ = _ =>
      pose proof (request_history_sync_wf s0 (Emulation addr) 0) as Hc end.
    rewrite E in Hc. apply Hc. destruct Hwf. split; done.
  - unfold capture_state_changed in E. destruct alive.
    + case_bool_decide; [by injection E as <- <-|]. match type of E with request_history_sync ?s0 _ _ = _ =>
        pose proof (request_history_sync_wf s0 (Capture handle) 0) as Hc end.
      rewrite E in Hc. apply Hc. destruct Hwf. split; done.
    + pose proof (history_peer_lost_wf s (Capture handle) Hwf) as Hc. by rewrite E in Hc.
  - destruct Hwf. split; done.
Qed.

(** States reached from a fresh daemon, with everything sent on the way. *)
Inductive reachable (st : Store) (first_request : Z) : list output -> HistoryState Store -> Prop :=
| reach_start :
    reachable st first_request []
      {| store := st; authenticated := ∅; connected := ∅; reassembler := empty_reassembler; progress := ∅;
         next_request := first_request; clear := None |}
| reach_step sent s out s' :
    reachable st first_request sent s -> service_step s out s' ->
    reachable st first_request (sent ++ out) s'.

Lemma reachable_wf st first_request sent s : reachable st first_request sent s -> wf_service s.
Proof.
  induction 1 as [|sent s out s' _ IH Hs]; [|by eapply service_step_wf].
  split; cbn; [apply empty_reassembler_wf | apply map_Forall_empty | done].
Qed.
End service_runs.

(** C14: the history service under any interleaving of messages, requests,
    lost peers, ticks and deadlines.  In every reachable state the reassembler
    is within its budget, no page has been retried more than 3 times, the
    participants of a running clear are counted, and its second phase runs only
    when no participant's boundary is outstanding; and every message of any
    peer is handled without a panic. *)
Theorem service_invariant {Store Event : Type} `{!HistoryStore Store Event}
    (serialize : Event -> result string bytes) (deserialize : bytes -> option Event)
    (st : Store) (first_request : Z) sent (s : HistoryState Store) :
  reachable serialize deserialize st first_request sent s ->
  wf_service s
  /\ forall peer e now, wf_event e = true ->
     exists s' out, handle_history serialize deserialize s peer e now = Returned (s', out).
Proof.
  intros Hr. pose proof (reachable_wf _ _ _ _ _ _ Hr) as Hwf. split; [done|]. intros peer e now He.
  destruct (handle_history_wf serialize deserialize s peer e now Hwf He) as (s' & out & E & _). eauto.
Qed.

(** A store for examples: it counts the records it was given. *)
#[local] Instance counting_store : HistoryStore Z bytes := {
  snapshot_boundary := fun n => Ok {[str "me" := n]};
  apply_clear := fun n _ _ => (0, Ok n);
  import := fun n _ => (n + 1, Ok tt);
  export := fun _ _ _ => Ok ([], None);
}.

Lemma service_invariant_witness :
  wf_service (history_tick (Store := Z)
    {| store := 0; authenticated := ∅; connected := ∅; reassembler := empty_reassembler; progress := ∅;
       next_request := 7; clear := None |} 3).
Proof.
  apply (service_invariant (Store := Z) sample_serialize Some 0 7 ([] ++ [])).
  apply reach_step with (s := {| store := 0; authenticated := ∅; connected := ∅; reassembler := empty_reassembler;
    progress := ∅; next_request := 7; clear := None |}).
  - apply reach_start.
  - apply step_tick.
Defined.

(** ** Pages that arrive incomplete *)

Section pages.
Context {Store Event : Type} `{!HistoryStore Store Event}.
Implicit Types s : HistoryState Store.

(** A record of the request is still incomplete. *)
Definition incomplete (r : Reassembler Peer) (peer : Peer) (request_id : Z) : Prop :=
  exists record_id, is_Some (records r !! (peer, request_id, record_id)).

Lemma incomplete_discarded r peer request_id :
  incomplete r peer request_id -> 0 < snd (finish_request r peer request_id).
Proof.
  intros (record_id & record & Hk). unfold finish_request, retain. cbn [snd].
  match goal with |- context [size ?m] => assert (m !! (peer, request_id, record_id) = Some record) as Hm end.
  { apply map_lookup_filter_Some_2; [done|]. rewrite Z.eqb_refl, bool_decide_eq_true_2 by done. done. }
  match goal with |- context [size ?m] => destruct (size m) eqn:E end; [|lia].
  apply map_size_empty_inv in E. rewrite E in Hm. by rewrite lookup_empty in Hm.
Qed.

(** The end of a page, with what arrived for it in the meantime. *)
Definition page_round s (r : Reassembler Peer) (peer : Peer) (next : option Z)
    : HistoryState Store * list output :=
  match progress s !! peer with
  | Some (request_id, _, _) => on_page_end (with_reassembler s r) peer request_id next
  | None => (s, [])
  end.

Lemma page_round_failed s r peer request_id offset retries next :
  progress s !! peer = Some (request_id, offset, retries) -> incomplete r peer request_id ->
  let id := (next_request s + 1) mod 2 ^ 64 in
  let '(s', out) := page_round s r peer next in
  if 3 <=? retries
  then progress s' !! peer = None /\ exists n, out = [SyncStopped n]
  else progress s' !! peer = Some (id, offset, retries + 1) /\ next_request s' = id
       /\ out = [Send peer (ProtoEvent.HistorySyncRequest id offset)].
Proof.
  intros Hp Hinc id. unfold page_round, on_page_end. rewrite Hp. cbn [reassembler with_reassembler].
  pose proof (incomplete_discarded r peer request_id Hinc) as Hd.
  destruct (finish_request r peer request_id) as [r' discarded]. cbn [snd progress with_reassembler] in *.
  rewrite Hp, Z.eqb_refl. destruct (Z.eqb_spec discarded 0); [lia|]. cbn [negb].
  destruct (Z.leb_spec 3 retries); cbn.
  - split; [apply lookup_delete_eq | by eexists].
  - split; [apply lookup_insert_eq | done].
Qed.
End pages.

(** An incomplete page is asked for again, from the same offset and under
    a new request id, three times; when it is incomplete a fourth time the
    synchronisation with that peer stops and the user is told.  Records are
    never skipped silently, and a peer that never completes a page is not
    asked forever. *)
Theorem page_retries {Store Event : Type} `{!HistoryStore Store Event} (s : HistoryState Store)
    (peer : Peer) (request_id offset : Z) (next : option Z) (r0 r1 r2 r3 : Reassembler Peer) :
  let id k := (next_request s + k) mod 2 ^ 64 in
  progress s !! peer = Some (request_id, offset, 0) ->
  incomplete r0 peer request_id -> incomplete r1 peer (id 1) -> incomplete r2 peer (id 2) ->
  incomplete r3 peer (id 3) ->
  let '(s1, out0) := page_round s r0 peer next in
  let '(s2, out1) := page_round s1 r1 peer next in
  let '(s3, out2) := page_round s2 r2 peer next in
  let '(s4, out3) := page_round s3 r3 peer next in
  out0 ++ out1 ++ out2 =
    [Send peer (ProtoEvent.HistorySyncRequest (id 1) offset);
     Send peer (ProtoEvent.HistorySyncRequest (id 2) offset);
     Send peer (ProtoEvent.HistorySyncRequest (id 3) offset)]
  /\ (exists n, out3 = [SyncStopped n]) /\ progress s4 !! peer = None.
Proof.
  intros id Hp H0 H1 H2 H3. subst id. cbn beta in *.
  pose proof (page_round_failed s r0 peer request_id offset 0 next Hp H0) as F0.
  destruct (page_round s r0 peer next) as [s1 out0]. destruct F0 as (P1 & N1 & ->).
  pose proof (page_round_failed s1 r1 peer _ offset _ next P1 H1) as F1.
  destruct (page_round s1 r1 peer next) as [s2 out1]. destruct F1 as (P2 & N2 & ->).
  rewrite N1, Zplus_mod_idemp_l, <- Z.add_assoc in P2, N2. cbn in P2.
  pose proof (page_round_failed s2 r2 peer _ offset _ next P2 H2) as F2.
  destruct (page_round s2 r2 peer next) as [s3 out2]. destruct F2 as (P3 & N3 & ->).
  rewrite N2, Zplus_mod_idemp_l, <- Z.add_assoc in P3, N3. cbn in P3.
  pose proof (page_round_failed s3 r3 peer _ offset _ next P3 H3) as F3.
  destruct (page_round s3 r3 peer next) as [s4 out3]. destruct F3 as (P4 & O4).
  split_and!; [|done..]. cbn [app]. by rewrite N1, N2, !Zplus_mod_idemp_l, <- !Z.add_assoc.
Qed.

Definition sample_pending (request_id : Z) : Reassembler Peer :=
  {| records := {[ (Capture 1, request_id, 0) :=
       {| p_received := 0; p_total_len := 4; p_chunks := [None]; p_started := 0 |} ]};
     pending_bytes := 4 |}.

Lemma sample_incomplete request_id : incomplete (sample_pending request_id) (Capture 1) request_id.
Proof. exists 0. cbn. rewrite lookup_singleton_eq. by eexists. Qed.

Definition sample_service : HistoryState Z :=
  {| store := 0; authenticated := ∅; connected := ∅; reassembler := empty_reassembler;
     progress := {[Capture 1 := (20, 64, 0)]}; next_request := 20; clear := None |}.

Lemma page_retries_witness :
  let '(s1, out0) := page_round sample_service (sample_pending 20) (Capture 1) None in
  let '(s2, out1) := page_round s1 (sample_pending 21) (Capture 1) None in
  let '(s3, out2) := page_round s2 (sample_pending 22) (Capture 1) None in
  let '(s4, out3) := page_round s3 (sample_pending 23) (Capture 1) None in
  out0 ++ out1 ++ out2 =
    [Send (Capture 1) (ProtoEvent.HistorySyncRequest 21 64);
     Send (Capture 1) (ProtoEvent.HistorySyncRequest 22 64);
     Send (Capture 1) (ProtoEvent.HistorySyncRequest 23 64)]
  /\ (exists n, out3 = [SyncStopped n]) /\ progress s4 !! Capture 1 = None.
Proof.
  apply (page_retries sample_service (Capture 1) 20 64 None (sample_pending 20)
    (sample_pending 21) (sample_pending 22) (sample_pending 23));
    [reflexivity | apply sample_incomplete..].
Defined.

(** ** What is reported of a clear *)

(** Two participants in the second phase of a clear; one is lost, the other
    acknowledges. *)
Definition sample_clear : HistoryState Z :=
  {| store := 0; authenticated := {[Capture 1 := str "a"; Capture 2 := str "b"]}; connected := {[Capture 1; Capture 2]};
     reassembler := empty_reassembler; progress := ∅; next_request := 1;
     clear := Some (begin_apply
       (fst (collect (new_coordinator [1] {[str "a"; str "b"]} ∅ 0) [(str "a", ∅); (str "b", ∅)]))
       {[str "a"; str "b"]} 0 0) |}.

(** A clear that lost a participant in its second phase is reported as
    acknowledged by all of them: after one of two peers disconnects and the
    other acknowledges, the result names 2 acknowledging peers (and the
    disconnection as an error), although one acknowledgement was received. *)
Theorem clear_overcounts_acknowledgements :
  let s := fst (history_peer_lost sample_clear (Capture 1)) in
  snd (on_clear_ack s (str "b") [1] 5 None)
  = [HistoryClearResult (hex_operation [1]) 5 2 (Some (PeerErrors [peer_disconnected]))].
Proof. vm_compute. reflexivity. Qed.
