(* ===== verification/FileOs.v ===== *)
(** * Files: errors and the operating system

    The errors of [crates/syntra-core/src/file_transfer.rs], and the calls of
    the operating system its functions make, as the class [Os]. *)

From S2P Require Import Prelude.

(** ** Errors *)

Module IoKind.
Inductive t := AlreadyExists | NotFound | Other.
#[global] Instance t_eq_dec : EqDecision t.
Proof. solve_decision. Defined.
End IoKind.

(** [io::Error]: its [kind] as far as the code looks at it, and its text. *)
Record IoError := { io_kind : IoKind.t; io_message : rstring }.

Inductive TransferError :=
| Io (already_exists : bool) (message : rstring)
| InvalidUri (uri : rstring)
| UnsafePath (path : rstring)
| UnsupportedEntry (path : rstring)
| TooManyEntries
| TransferTooLarge
| StaleTransfer (transfer_id : Z)
| UnknownFile (transfer_id file_id : Z)
| UnexpectedOffset (file_id expected actual : Z)
| SizeMismatch (file_id expected actual : Z)
| DigestMismatch (file_id : Z)
| TransferCancelled
| SourceChanged (file_id : Z).

(** [#[from] io::Error] *)
Definition from_io (e : IoError) : TransferError :=
  Io (bool_decide (io_kind e = IoKind.AlreadyExists)) (io_message e).
(** [?] on an [io::Result] *)
Definition io {A} (r : result IoError A) : result TransferError A :=
  match r with Ok a => Ok a | Err e => Err (from_io e) end.

(** ** The operating system *)

Module FileKind.
Inductive t := Regular | Directory | Symlink | Special.
#[global] Instance t_eq_dec : EqDecision t.
Proof. solve_decision. Defined.
End FileKind.

(** [std::fs::Metadata]; [md_modified] is [modified().ok()]. *)
Record Metadata := {
  md_kind : FileKind.t;
  md_len : Z;
  md_modified : option Z;
  md_dev : Z;
  md_ino : Z;
}.

Definition is_file (m : Metadata) : bool := bool_decide (md_kind m = FileKind.Regular).
Definition is_dir (m : Metadata) : bool := bool_decide (md_kind m = FileKind.Directory).
Definition is_symlink (m : Metadata) : bool := bool_decide (md_kind m = FileKind.Symlink).

(** A [Handle] is an open file with its cursor; a [FileIdentity] what
    [same_file::Handle] compares.  Calls that change the file system return it. *)
Class Os (FS : Type) := {
  Handle : Type;
  FileIdentity : Type;
  identity_eqb : FileIdentity -> FileIdentity -> bool;
  (** [Path::display] *)
  path_display : rstring -> rstring;
  symlink_metadata : FS -> rstring -> result IoError Metadata;
  canonicalize : FS -> rstring -> result IoError rstring;
  (** [read_dir]: the names of the children, each may fail *)
  read_dir : FS -> rstring -> result IoError (list (result IoError rstring));
  (** open for reading with [O_NOFOLLOW] *)
  open_nofollow : FS -> rstring -> result IoError Handle;
  handle_metadata : FS -> Handle -> result IoError Metadata;
  seek : FS -> Handle -> Z -> result IoError Handle;
  (** at most that many bytes from the cursor, which moves *)
  read : FS -> Handle -> Z -> Handle * result IoError bytes;
  create_dir_all : FS -> rstring -> FS * result IoError unit;
  create_dir : FS -> rstring -> FS * result IoError unit;
  (** [create_new]: open for reading and writing a file that did not exist *)
  create_new : FS -> rstring -> FS * result IoError Handle;
  try_clone : FS -> Handle -> result IoError Handle;
  identity_from_file : FS -> Handle -> result IoError FileIdentity;
  identity_from_path : FS -> rstring -> result IoError FileIdentity;
  write_all : FS -> Handle -> bytes -> FS * Handle * result IoError unit;
  flush : FS -> Handle -> FS * result IoError unit;
  sync_data : FS -> Handle -> FS * result IoError unit;
  (** results ignored by the code *)
  remove_file : FS -> rstring -> FS;
  remove_dir : FS -> rstring -> FS;
}.

(** SHA-256 of the [sha2] crate.  A hasher is the bytes it absorbed. *)
Class Sha256 := sha256_of : bytes -> bytes.
