(* ===== verification/UnixPath.v ===== *)
(** * Paths of the standard library on Unix

    What [file_transfer.rs] uses of [std::path]: a path is its bytes; it is
    compared, stripped and taken apart by components. *)

From S2P Require Import Prelude Wire ProtoValid.

Module Component.
Inductive t := RootDir | CurDir | ParentDir | Normal (name : rstring).
#[global] Instance t_eq_dec : EqDecision t.
Proof. solve_decision. Defined.
End Component.
Abbreviation Component := Component.t (only parsing).

(** A piece between separators: empty pieces and [.] are skipped. *)
Definition piece_component (piece : rstring) : option Component :=
  if (len piece =? 0) || str_eqb piece (str ".") then None
  else if str_eqb piece (str "..") then Some Component.ParentDir
  else Some (Component.Normal piece).

(** [Path::components]: a leading [.] of a relative path is kept. *)
Definition components (path : rstring) : list Component :=
  if starts_with SLASH path then Component.RootDir :: omap piece_component (split SLASH path)
  else
    match split SLASH path with
    | first :: rest =>
        (if str_eqb first (str ".") then [Component.CurDir] else omap piece_component [first])
        ++ omap piece_component rest
    | [] => []
    end.

Definition path_is_absolute (path : rstring) : bool := starts_with SLASH path.

(** [Path::file_name] *)
Definition file_name (path : rstring) : option rstring :=
  match last (components path) with
  | Some (Component.Normal name) => Some name
  | _ => None
  end.

(** [OsStr::to_str] *)
Definition to_str (path : rstring) : option rstring :=
  if utf8_valid path then Some path else None.

(** [PathBuf::push]; [Path::join] pushes to a copy. *)
Definition push (path part : rstring) : rstring :=
  if starts_with SLASH part then part
  else if (len path =? 0) || ends_with SLASH path then path ++ part
  else path ++ SLASH :: part.

(** [Component::as_os_str] *)
Definition as_os_str (c : Component) : rstring :=
  match c with
  | Component.RootDir => [SLASH]
  | Component.CurDir => str "."
  | Component.ParentDir => str ".."
  | Component.Normal name => name
  end.

(** [Path::parent], as components. *)
Definition parent (path : rstring) : option (list Component) :=
  match last (components path) with
  | Some Component.RootDir | None => None
  | Some _ => Some (removelast (components path))
  end.

(** [Path::strip_prefix] and [Path::starts_with], on components. *)
Fixpoint strip_components (prefix path : list Component) : option (list Component) :=
  match prefix, path with
  | [], _ => Some path
  | c :: prefix, d :: path => if bool_decide (c = d) then strip_components prefix path else None
  | _ :: _, [] => None
  end.
Definition path_starts_with (path root : rstring) : bool :=
  bool_decide (is_Some (strip_components (components root) (components path))).
(** [==] of paths *)
Definition path_eqb (p q : rstring) : bool := bool_decide (components p = components q).

Definition is_normal (c : Component) : bool :=
  match c with Component.Normal _ => true | _ => false end.

(** ** Lemmas *)

Lemma strip_components_Some prefix path rest :
  strip_components prefix path = Some rest <-> path = prefix ++ rest.
Proof.
  revert path. induction prefix as [|c prefix IH]; intros path; cbn; [naive_solver|].
  destruct path as [|d path]; [done|]. case_bool_decide as E.
  - subst. rewrite IH. naive_solver.
  - split; [done|]. intros [= <-]. done.
Qed.

Lemma path_starts_with_spec path root :
  path_starts_with path root = true
  <-> exists rest, components path = components root ++ rest.
Proof.
  unfold path_starts_with, is_Some. rewrite bool_decide_eq_true.
  by setoid_rewrite strip_components_Some.
Qed.
