(* ===== verification/FileTransfer.v ===== *)
(** * Files offered to and received from a peer

    [crates/syntra-core/src/file_transfer.rs]: building an offer from a
    selection, reading it in chunks while checking that the source did not
    change, and writing an incoming transfer.  The operating system is the class
    [Os], the digest the class [Sha256]. *)

From stdpp Require Import sorting.
From S2P Require Import Prelude Wire ProtoTypes ProtoValid UnixPath FileOs.

Section file_transfer.
Context {FS : Type} `{!Os FS} `{!Sha256} `{!HashOrder}.

(** ** Data *)

Record SourceIdentity := {
  si_len : Z;
  si_modified : option Z;
  si_dev : Z;
  si_ino : Z;
}.

Record FileOffer := {
  o_transfer_id : Z;
  o_entries : list ClipboardManifestEntry;
  o_sources : gmap Z (rstring * SourceIdentity);
}.

Record OutgoingFile := {
  of_file_id : Z;
  of_file : Handle;
  of_offset : Z;
  of_size : Z;
  of_identity : SourceIdentity;
  of_hasher : bytes;
  of_cancelled : bool;
}.

Record IncomingFile := {
  if_file : Handle;
  if_expected : Z;
  if_offset : Z;
  if_hasher : bytes;
}.

Record IncomingTransfer := {
  it_transfer_id : Z;
  it_destination : rstring;
  it_entries : gmap Z ClipboardManifestEntry;
  it_files : gmap Z IncomingFile;
  (** a [HashMap] and a [HashSet] of paths, without repetition *)
  it_created_files : list (rstring * FileIdentity);
  it_created_dirs : list rstring;
  it_cancelled : bool;
  it_finished : bool;
}.

(** ** Source identity *)

Definition from_metadata (m : Metadata) : SourceIdentity :=
  {| si_len := md_len m; si_modified := md_modified m; si_dev := md_dev m; si_ino := md_ino m |}.

Definition identity_matches (i : SourceIdentity) (m : Metadata) : bool :=
  if negb (si_len i =? md_len m)
     || bool_decide (si_modified i = None)
     || bool_decide (md_modified m = None)
     || negb (bool_decide (si_modified i = md_modified m))
  then false
  else (si_dev i =? md_dev m) && (si_ino i =? md_ino m).

(** ** Paths and URIs *)

Definition validate_relative_path (path : rstring) : result TransferError unit :=
  let* encoded := ok_or (to_str path) (UnsafePath (path_display path)) in
  fail_if (len encoded =? 0) || (MAX_CLIPBOARD_PATH_SIZE <? len encoded)
          || contains BACKSLASH encoded || contains 0 encoded
    with UnsafePath encoded in
  fail_if existsb (fun c => negb (is_normal c)) (components path) with UnsafePath encoded in
  Ok tt.

Definition ensure_contained (root path : rstring) : result TransferError unit :=
  fail_if negb (path_starts_with path root) || path_eqb path root
    with UnsafePath (path_display path) in
  Ok tt.

Definition hex (value : Z) : option Z :=
  if (48 <=? value) && (value <=? 57) then Some (value - 48)
  else if (97 <=? value) && (value <=? 102) then Some (value - 97 + 10)
  else if (65 <=? value) && (value <=? 70) then Some (value - 65 + 10)
  else None.

(** The loop over the bytes of the encoded path. *)
Fixpoint percent_decode (s : rstring) : option rstring :=
  match s with
  | [] => Some []
  | b :: s1 =>
      if b =? 37 then
        match s1 with
        | h :: l :: s2 =>
            high ← hex h; low ← hex l; rest ← percent_decode s2;
            Some (Z.lor (Z.shiftl high 4) low :: rest)
        | _ => None
        end
      else rest ← percent_decode s1; Some (b :: rest)
  end.

(** [str::strip_prefix] *)
Definition strip_prefix (prefix s : rstring) : option rstring :=
  if bool_decide (take (length prefix) s = prefix) then Some (drop (length prefix) s) else None.

Definition file_uri_to_path (uri : rstring) : result TransferError rstring :=
  let* encoded := ok_or (strip_prefix (str "file://") uri) (InvalidUri uri) in
  let* encoded :=
    match strip_prefix (str "localhost/") encoded with
    | Some path => Ok (SLASH :: path)
    | None => if starts_with SLASH encoded then Ok encoded else Err (InvalidUri uri)
    end in
  let* decoded := ok_or (percent_decode encoded) (InvalidUri uri) in
  fail_if contains 0 decoded with InvalidUri uri in
  fail_if negb (path_is_absolute decoded) with InvalidUri uri in
  Ok decoded.

(** [str::trim]: the characters of Unicode's [White_Space], as UTF-8. *)
Definition white_space : list rstring :=
  [[9]; [10]; [11]; [12]; [13]; [32]; [194; 133]; [194; 160]; [225; 154; 128]]
  ++ ((fun b => [226; 128; b]) <$> [128; 129; 130; 131; 132; 133; 134; 135; 136; 137; 138])
  ++ [[226; 128; 168]; [226; 128; 169]; [226; 128; 175]; [226; 129; 159]; [227; 128; 128]].

Fixpoint trim_prefixes (fuel : nat) (patterns : list rstring) (s : rstring) : rstring :=
  match fuel with
  | O => s
  | S fuel =>
      match List.find (fun w => bool_decide (take (length w) s = w)) patterns with
      | Some w => trim_prefixes fuel patterns (drop (length w) s)
      | None => s
      end
  end.
Definition trim (s : rstring) : rstring :=
  let s := trim_prefixes (length s) white_space s in
  rev (trim_prefixes (length s) (rev (A:=Z) <$> white_space) (rev s)).

(** [str::lines]: split at line feeds, without a final empty line; a carriage
    return before the line feed is removed. *)
Definition lines (text : rstring) : list rstring :=
  let pieces := split 10 text in
  let pieces := if bool_decide (last pieces = Some []) then removelast pieces else pieces in
  (fun line => if ends_with 13 line then removelast line else line) <$> pieces.

(** ** Building an offer *)

(** [from_regular_file] *)
Definition from_regular_file (fs : FS) (transfer_id : Z) (path : rstring)
    : result TransferError FileOffer :=
  fail_if transfer_id =? 0 with StaleTransfer transfer_id in
  let* metadata := io (symlink_metadata fs path) in
  fail_if is_symlink metadata || negb (is_file metadata) with UnsupportedEntry path in
  let* name := ok_or (name ← file_name path; to_str name) (UnsafePath (str "invalid file name")) in
  fail_if negb (is_ok (validate_manual_file_name name)) with UnsafePath (str "invalid file name") in
  let entry := {| entry_file_id := 1; entry_path := name;
                  entry_kind := ClipboardEntryKind.File; entry_size := md_len metadata |} in
  Ok {| o_transfer_id := transfer_id; o_entries := [entry];
        o_sources := {[1 := (path, from_metadata metadata)]} |}.

(** The mutable arguments of [collect_entry]. *)
Record Collected := {
  c_next_id : Z;
  c_total : Z;
  c_entries : list ClipboardManifestEntry;
  c_sources : gmap Z (rstring * SourceIdentity);
}.

(** [children.sort_by_key(|entry| entry.file_name())]: the order of bytes. *)
Fixpoint bytes_le (a b : rstring) : bool :=
  match a, b with
  | [], _ => true
  | _ :: _, [] => false
  | x :: a, y :: b => if x =? y then bytes_le a b else x <? y
  end.
Definition name_le (a b : rstring) : Prop := bytes_le a b = true.
#[global] Instance name_le_dec : RelDecision name_le.
Proof. intros a b. unfold name_le. solve_decision. Defined.

(** [collect::<Result<_, _>>()]: the first error. *)
Fixpoint collect_results {E A} (l : list (result E A)) : result E (list A) :=
  match l with
  | [] => Ok []
  | r :: l => let* a := r in let* l := collect_results l in Ok (a :: l)
  end.

(** The loop of [collect_entry] over the children of a directory. *)
Fixpoint collect_children (collect : rstring -> rstring -> Collected -> result TransferError Collected)
    (source relative : rstring) (children : list rstring) (c : Collected)
    : result TransferError Collected :=
  match children with
  | [] => Ok c
  | child :: children =>
      let* c := collect (push source child) (push relative child) c in
      collect_children collect source relative children c
  end.

(** [collect_entry].  Every nested call is made after an entry was added, and
    no call is made once [MAX_CLIPBOARD_MANIFEST_ENTRIES] are there: [fuel] is
    the depth of the nesting, see [collect_entry_fuel]. *)
Fixpoint collect_entry (fuel : nat) (fs : FS) (source relative : rstring) (c : Collected)
    : result TransferError Collected :=
  fail_if MAX_CLIPBOARD_MANIFEST_ENTRIES <=? len (c_entries c) with TooManyEntries in
  let* _ := validate_relative_path relative in
  let* metadata := io (symlink_metadata fs source) in
  fail_if is_symlink metadata with UnsupportedEntry source in
  let id := c_next_id c in
  let* next_id := ok_or (checked_add (c_next_id c) 1) TooManyEntries in
  let* path := ok_or (to_str relative) (UnsafePath (path_display relative)) in
  if is_file metadata then
    let* total := ok_or (checked_add (c_total c) (md_len metadata)) TransferTooLarge in
    fail_if MAX_CLIPBOARD_SIZE <? total with TransferTooLarge in
    let entry := {| entry_file_id := id; entry_path := path;
                    entry_kind := ClipboardEntryKind.File; entry_size := md_len metadata |} in
    Ok {| c_next_id := next_id; c_total := total; c_entries := c_entries c ++ [entry];
          c_sources := <[id := (source, from_metadata metadata)]> (c_sources c) |}
  else if is_dir metadata then
    let entry := {| entry_file_id := id; entry_path := path;
                    entry_kind := ClipboardEntryKind.Directory; entry_size := 0 |} in
    let c := {| c_next_id := next_id; c_total := c_total c;
                c_entries := c_entries c ++ [entry]; c_sources := c_sources c |} in
    let* children := io (read_dir fs source) in
    let* children := io (collect_results children) in
    let children := merge_sort name_le children in
    match fuel with
    | O => Err TooManyEntries
    | S fuel => collect_children (collect_entry fuel fs) source relative children c
    end
  else Err (UnsupportedEntry source).

(** Deep enough for every selection. *)
Definition COLLECT_FUEL : nat := Z.to_nat MAX_CLIPBOARD_MANIFEST_ENTRIES.

(** The loop of [from_paths], with [names]. *)
Fixpoint collect_roots (fs : FS) (roots : list rstring) (names : gset rstring) (c : Collected)
    : result TransferError Collected :=
  match roots with
  | [] => Ok c
  | root :: roots =>
      let* metadata := io (symlink_metadata fs root) in
      fail_if is_symlink metadata with UnsupportedEntry root in
      let* base := ok_or (name ← file_name root; to_str name) (UnsafePath (path_display root)) in
      let* _ := validate_relative_path base in
      fail_if bool_decide (base ∈ names) with UnsafePath (str "duplicate root name " ++ base) in
      let* c := collect_entry COLLECT_FUEL fs root base c in
      collect_roots fs roots ({[base]} ∪ names) c
  end.

Definition from_paths (fs : FS) (transfer_id : Z) (roots : list rstring)
    : result TransferError FileOffer :=
  let* c := collect_roots fs roots ∅
              {| c_next_id := 1; c_total := 0; c_entries := []; c_sources := ∅ |} in
  Ok {| o_transfer_id := transfer_id; o_entries := c_entries c; o_sources := c_sources c |}.

(** The loop over the lines of [from_uri_list]. *)
Fixpoint uri_roots (lines : list rstring) : result TransferError (list rstring) :=
  match lines with
  | [] => Ok []
  | line :: lines =>
      let line := trim (trim_end_matches 13 line) in
      if (len line =? 0) || starts_with 35 line then uri_roots lines
      else
        let* root := file_uri_to_path line in
        let* roots := uri_roots lines in
        Ok (root :: roots)
  end.

Definition from_uri_list (fs : FS) (transfer_id : Z) (text : rstring)
    : result TransferError FileOffer :=
  let* roots := uri_roots (lines text) in
  fail_if len roots =? 0 with InvalidUri (str "empty URI list") in
  from_paths fs transfer_id roots.

(** ** Reading an offered file *)

(** [FileOffer::open] *)
Definition open (fs : FS) (offer : FileOffer) (file_id offset : Z)
    : result TransferError OutgoingFile :=
  let* entry := ok_or (List.find (fun e => entry_file_id e =? file_id) (o_entries offer))
                  (UnknownFile (o_transfer_id offer) file_id) in
  fail_if negb (bool_decide (entry_kind entry = ClipboardEntryKind.File))
          || (entry_size entry <? offset)
    with UnexpectedOffset file_id (entry_size entry) offset in
  let* (path, ident) := ok_or (o_sources offer !! file_id)
                             (UnknownFile (o_transfer_id offer) file_id) in
  let* file := io (open_nofollow fs path) in
  let* metadata := io (handle_metadata fs file) in
  fail_if negb (is_file metadata) || negb (identity_matches ident metadata)
    with SourceChanged file_id in
  let* file := io (seek fs file offset) in
  Ok {| of_file_id := file_id; of_file := file; of_offset := offset;
        of_size := entry_size entry; of_identity := ident; of_hasher := [];
        of_cancelled := false |}.

Definition set_file (f : OutgoingFile) (file : Handle) : OutgoingFile :=
  {| of_file_id := of_file_id f; of_file := file; of_offset := of_offset f;
     of_size := of_size f; of_identity := of_identity f; of_hasher := of_hasher f;
     of_cancelled := of_cancelled f |}.

(** [if !self.identity.matches(&self.file.metadata().await?)] *)
Definition check_identity (fs : FS) (f : OutgoingFile) : result TransferError unit :=
  let* metadata := io (handle_metadata fs (of_file f)) in
  fail_if negb (identity_matches (of_identity f) metadata) with SourceChanged (of_file_id f) in
  Ok tt.

(** The loop that fills the buffer; [data] is what was read so far.  Every
    round reads at least one byte, so [requested] rounds are enough. *)
Fixpoint fill (rounds : nat) (fs : FS) (f : OutgoingFile) (requested : Z) (data : bytes)
    : OutgoingFile * result TransferError bytes :=
  if requested <=? len data then (f, Ok data)
  else
    match rounds with
    | O => (f, Ok data)
    | S rounds =>
        match check_identity fs f with
        | Err e => (f, Err e)
        | Ok _ =>
            let (file, read) := read fs (of_file f) (requested - len data) in
            let f := set_file f file in
            match io read with
            | Err e => (f, Err e)
            | Ok chunk =>
                if len chunk =? 0 then (f, Err (SourceChanged (of_file_id f)))
                else
                  match check_identity fs f with
                  | Err e => (f, Err e)
                  | Ok _ => fill rounds fs f requested (data ++ chunk)
                  end
            end
        end
    end.

Definition next_chunk_bounded (fs : FS) (f : OutgoingFile) (max_len : Z)
    : OutgoingFile * result TransferError (option (Z * bytes)) :=
  if of_cancelled f then (f, Err TransferCancelled)
  else if of_offset f =? of_size f then (f, Ok None)
  else if (max_len =? 0) || (Z.max MAX_CLIPBOARD_FILE_CHUNK_SIZE MAX_MANUAL_FILE_CHUNK_SIZE <? max_len)
  then (f, Err (UnexpectedOffset (of_file_id f) (of_offset f) (of_offset f)))
  else
    match check_identity fs f with
    | Err e => (f, Err e)
    | Ok _ =>
        let requested := Z.min (of_size f - of_offset f) max_len in
        let (f, filled) := fill (Z.to_nat requested) fs f requested [] in
        match filled with
        | Err e => (f, Err e)
        | Ok data =>
            let offset := of_offset f in
            match checked_add (of_offset f) (len data) with
            | None => (f, Err TransferTooLarge)
            | Some next =>
                ({| of_file_id := of_file_id f; of_file := of_file f; of_offset := next;
                    of_size := of_size f; of_identity := of_identity f;
                    of_hasher := of_hasher f ++ data; of_cancelled := of_cancelled f |},
                 Ok (Some (offset, data)))
            end
        end
    end.

Definition finalize_digest (fs : FS) (f : OutgoingFile) : result TransferError bytes :=
  fail_if negb (of_offset f =? of_size f)
    with SizeMismatch (of_file_id f) (of_size f) (of_offset f) in
  let* _ := check_identity fs f in
  Ok (sha256_of (of_hasher f)).

Definition is_eof (f : OutgoingFile) : bool := of_offset f =? of_size f.

(** ** Writing an incoming transfer *)

(** [owns_created_file] *)
Definition owns_created_file (fs : FS) (path : rstring) (ident : FileIdentity) : bool :=
  match symlink_metadata fs path with Ok m => is_file m | Err _ => false end
  && match identity_from_path fs path with
     | Ok current => identity_eqb current ident
     | Err _ => false
     end.

(** [Drop for CreatedFileGuard], armed *)
Definition drop_guard (fs : FS) (path : rstring) (ident : FileIdentity) : FS :=
  if owns_created_file fs path ident then remove_file fs path else fs.

(** The loop of [IncomingTransfer::new], with [paths], [total], [previous]. *)
Fixpoint check_entries (size_limit : option Z) (entries : list ClipboardManifestEntry)
    (by_id : gmap Z ClipboardManifestEntry) (paths : gset rstring) (total previous : Z)
    : result TransferError (gmap Z ClipboardManifestEntry) :=
  match entries with
  | [] => Ok by_id
  | entry :: entries =>
      fail_if (entry_file_id entry =? 0) || (entry_file_id entry <=? previous)
              || bool_decide (entry_path entry ∈ paths)
        with UnsafePath (entry_path entry) in
      let* _ := validate_relative_path (entry_path entry) in
      fail_if bool_decide (entry_kind entry = ClipboardEntryKind.Directory)
              && negb (entry_size entry =? 0)
        with SizeMismatch (entry_file_id entry) 0 (entry_size entry) in
      let* total := ok_or (checked_add total (entry_size entry)) TransferTooLarge in
      fail_if match size_limit with Some max => max <? total | None => false end
        with TransferTooLarge in
      check_entries size_limit entries (<[entry_file_id entry := entry]> by_id)
        ({[entry_path entry]} ∪ paths) total (entry_file_id entry)
  end.

(** [IncomingTransfer::new] *)
Definition incoming_new (fs : FS) (transfer_id : Z) (entries : list ClipboardManifestEntry)
    (destination : rstring) (size_limit : option Z) : result TransferError IncomingTransfer :=
  fail_if (len entries =? 0) || (MAX_CLIPBOARD_MANIFEST_ENTRIES <? len entries)
    with TooManyEntries in
  let* destination := io (canonicalize fs destination) in
  let* by_id := check_entries size_limit entries ∅ ∅ 0 0 in
  Ok {| it_transfer_id := transfer_id; it_destination := destination; it_entries := by_id;
        it_files := ∅; it_created_files := []; it_created_dirs := [];
        it_cancelled := false; it_finished := false |}.

Definition ensure_active (i : IncomingTransfer) : result TransferError unit :=
  if it_cancelled i then Err TransferCancelled else Ok tt.

Definition set_files (i : IncomingTransfer) (files : gmap Z IncomingFile) : IncomingTransfer :=
  {| it_transfer_id := it_transfer_id i; it_destination := it_destination i;
     it_entries := it_entries i; it_files := files; it_created_files := it_created_files i;
     it_created_dirs := it_created_dirs i; it_cancelled := it_cancelled i;
     it_finished := it_finished i |}.
Definition set_created_files (i : IncomingTransfer) (created : list (rstring * FileIdentity))
    : IncomingTransfer :=
  {| it_transfer_id := it_transfer_id i; it_destination := it_destination i;
     it_entries := it_entries i; it_files := it_files i; it_created_files := created;
     it_created_dirs := it_created_dirs i; it_cancelled := it_cancelled i;
     it_finished := it_finished i |}.
Definition set_created_dirs (i : IncomingTransfer) (created : list rstring) : IncomingTransfer :=
  {| it_transfer_id := it_transfer_id i; it_destination := it_destination i;
     it_entries := it_entries i; it_files := it_files i; it_created_files := it_created_files i;
     it_created_dirs := created; it_cancelled := it_cancelled i;
     it_finished := it_finished i |}.
Definition set_finished (i : IncomingTransfer) : IncomingTransfer :=
  {| it_transfer_id := it_transfer_id i; it_destination := it_destination i;
     it_entries := it_entries i; it_files := it_files i; it_created_files := it_created_files i;
     it_created_dirs := it_created_dirs i; it_cancelled := it_cancelled i;
     it_finished := true |}.

(** The loop of [create_parents] over the remaining components. *)
Fixpoint create_below (fs : FS) (i : IncomingTransfer) (current : rstring)
    (relative : list Component) : FS * IncomingTransfer * result TransferError unit :=
  match relative with
  | [] => (fs, i, Ok tt)
  | component :: relative =>
      let current := push current (as_os_str component) in
      match symlink_metadata fs current with
      | Ok metadata =>
          if is_symlink metadata || negb (is_dir metadata)
          then (fs, i, Err (UnsafePath (path_display current)))
          else create_below fs i current relative
      | Err error =>
          if bool_decide (io_kind error = IoKind.NotFound) then
            let (fs, created) := create_dir fs current in
            match io created with
            | Err e => (fs, i, Err e)
            | Ok _ =>
                let dirs := if existsb (path_eqb current) (it_created_dirs i)
                            then it_created_dirs i else it_created_dirs i ++ [current] in
                create_below fs (set_created_dirs i dirs) current relative
            end
          else (fs, i, Err (from_io error))
      end
  end.

(** [create_parents], on the components of its path. *)
Definition create_parents (fs : FS) (i : IncomingTransfer) (path : list Component)
    : FS * IncomingTransfer * result TransferError unit :=
  match strip_components (components (it_destination i)) path with
  | None => (fs, i, Err (UnsafePath (path_display (foldl push [] (as_os_str <$> path)))))
  | Some relative => create_below fs i (it_destination i) relative
  end.

(** Opening the target of an entry and the guard around it. *)
Definition create_target (fs : FS) (target : rstring)
    : FS * result TransferError (Handle * FileIdentity) :=
  let (fs, created) := create_new fs target in
  match io created with
  | Err e => (fs, Err e)
  | Ok file =>
      match try_clone fs file with
      | Err error =>
          (match identity_from_file fs file with
           | Ok ident => drop_guard fs target ident
           | Err _ => fs
           end, Err (from_io error))
      | Ok writer =>
          match identity_from_file fs file with
          | Err error =>
              (match identity_from_file fs writer with
               | Ok ident => drop_guard fs target ident
               | Err _ => fs
               end, Err (from_io error))
          | Ok ident => (fs, Ok (writer, ident))
          end
      end
  end.

(** One round of the loop of [prepare]. *)
Definition prepare_entry (fs : FS) (i : IncomingTransfer) (entry : ClipboardManifestEntry)
    : FS * IncomingTransfer * result TransferError (list (Z * Z)) :=
  let target := push (it_destination i) (entry_path entry) in
  match ensure_contained (it_destination i) target with
  | Err e => (fs, i, Err e)
  | Ok _ =>
      match entry_kind entry with
      | ClipboardEntryKind.Directory =>
          let '(fs, i, created) := create_parents fs i (components target) in
          (fs, i, let* _ := created in Ok [])
      | ClipboardEntryKind.File =>
          match parent target with
          | None => (fs, i, Err (UnsafePath (entry_path entry)))
          | Some parent =>
              let '(fs, i, created) := create_parents fs i parent in
              match created with
              | Err e => (fs, i, Err e)
              | Ok _ =>
                  let (fs, opened) := create_target fs target in
                  match opened with
                  | Err e => (fs, i, Err e)
                  | Ok (file, ident) =>
                      let kept := List.filter (fun '(p, _) => negb (path_eqb p target))
                                    (it_created_files i) in
                      let i := set_created_files i (kept ++ [(target, ident)]) in
                      let incoming := {| if_file := file; if_expected := entry_size entry;
                                         if_offset := 0; if_hasher := [] |} in
                      (fs, set_files i (<[entry_file_id entry := incoming]> (it_files i)),
                       Ok [(entry_file_id entry, 0)])
                  end
              end
          end
      end
  end.

Fixpoint prepare_entries (fs : FS) (i : IncomingTransfer) (entries : list ClipboardManifestEntry)
    (requests : list (Z * Z)) : FS * IncomingTransfer * result TransferError (list (Z * Z)) :=
  match entries with
  | [] => (fs, i, Ok requests)
  | entry :: entries =>
      let '(fs, i, prepared) := prepare_entry fs i entry in
      match prepared with
      | Err e => (fs, i, Err e)
      | Ok more => prepare_entries fs i entries (requests ++ more)
      end
  end.

Definition id_le (a b : ClipboardManifestEntry) : Prop := entry_file_id a <= entry_file_id b.
#[local] Instance id_le_dec : RelDecision id_le.
Proof. intros a b. unfold id_le. apply _. Defined.

(** [IncomingTransfer::prepare] *)
Definition prepare (fs : FS) (i : IncomingTransfer)
    : FS * IncomingTransfer * result TransferError (list (Z * Z)) :=
  match ensure_active i with
  | Err e => (fs, i, Err e)
  | Ok _ =>
      let entries := merge_sort id_le (hash_order (snd <$> map_to_list (it_entries i))) in
      prepare_entries fs i entries []
  end.

(** [IncomingTransfer::write_chunk] *)
Definition write_chunk (fs : FS) (i : IncomingTransfer) (file_id offset : Z) (data : bytes)
    : FS * IncomingTransfer * result TransferError unit :=
  let checks :=
    let* _ := ensure_active i in
    fail_if (len data =? 0)
            || (Z.max MAX_CLIPBOARD_FILE_CHUNK_SIZE MAX_MANUAL_FILE_CHUNK_SIZE <? len data)
      with UnexpectedOffset file_id offset offset in
    let* incoming := ok_or (it_files i !! file_id) (UnknownFile (it_transfer_id i) file_id) in
    fail_if negb (offset =? if_offset incoming)
      with UnexpectedOffset file_id (if_offset incoming) offset in
    let* next := ok_or (checked_add offset (len data)) TransferTooLarge in
    fail_if if_expected incoming <? next
      with SizeMismatch file_id (if_expected incoming) next in
    Ok (incoming, next) in
  match checks with
  | Err e => (fs, i, Err e)
  | Ok (incoming, next) =>
      let '(fs, file, written) := write_all fs (if_file incoming) data in
      let update hasher offset :=
        set_files i (<[file_id := {| if_file := file; if_expected := if_expected incoming;
                                     if_offset := offset; if_hasher := hasher |}]> (it_files i)) in
      match io written with
      | Err e => (fs, update (if_hasher incoming) (if_offset incoming), Err e)
      | Ok _ => (fs, update (if_hasher incoming ++ data) next, Ok tt)
      end
  end.

(** [IncomingTransfer::finalize_file] *)
Definition finalize_file (fs : FS) (i : IncomingTransfer) (file_id size : Z) (digest : bytes)
    : FS * IncomingTransfer * result TransferError unit :=
  let checks :=
    let* _ := ensure_active i in
    let* incoming := ok_or (it_files i !! file_id) (UnknownFile (it_transfer_id i) file_id) in
    fail_if negb (size =? if_expected incoming) || negb (if_offset incoming =? if_expected incoming)
      with SizeMismatch file_id size (if_offset incoming) in
    Ok incoming in
  match checks with
  | Err e => (fs, i, Err e)
  | Ok incoming =>
      let (fs, flushed) := flush fs (if_file incoming) in
      match io flushed with
      | Err e => (fs, i, Err e)
      | Ok _ =>
          let (fs, synced) := sync_data fs (if_file incoming) in
          match io synced with
          | Err e => (fs, i, Err e)
          | Ok _ =>
              if bool_decide (sha256_of (if_hasher incoming) = digest)
              then (fs, set_files i (delete file_id (it_files i)), Ok tt)
              else (fs, i, Err (DigestMismatch file_id))
          end
      end
  end.

(** [IncomingTransfer::finish] *)
Definition finish (i : IncomingTransfer) : IncomingTransfer * result TransferError unit :=
  match ensure_active i with
  | Err e => (i, Err e)
  | Ok _ =>
      if bool_decide (it_files i = ∅) then (set_finished i, Ok tt)
      else (i, Err TransferCancelled)
  end.

Definition deeper (a b : rstring) : Prop := len (components b) <= len (components a).
#[local] Instance deeper_dec : RelDecision deeper.
Proof. intros a b. unfold deeper. apply _. Defined.

(** [Drop for IncomingTransfer] *)
Definition drop_incoming (fs : FS) (i : IncomingTransfer) : FS :=
  if it_finished i then fs
  else
    let fs := foldl (fun fs '(path, ident) => drop_guard fs path ident) fs
                (hash_order (it_created_files i)) in
    foldl remove_dir fs (merge_sort deeper (hash_order (it_created_dirs i))).
End file_transfer.
