(* ===== verification/FileTransferTheorems.v ===== *)
(** * Files: what is read is what the file holds

    [serves] says what the operating system does for a regular file that nobody
    changes; reading an offered file then yields its bytes, in pieces of any
    size the system chooses. *)

From S2P Require Import Prelude Wire ProtoTypes ProtoValid UnixPath FileOs FileTransfer.

(** ** A file system in memory *)

Inductive node := DirNode | FileNode (content : bytes).
#[global] Instance node_eq_dec : EqDecision node.
Proof. solve_decision. Defined.

Abbreviation ram := (gmap rstring node).

(** An open file: its path, its content when it was opened, its cursor. *)
Record ram_handle := { mh_path : rstring; mh_content : bytes; mh_cursor : Z }.

Definition not_found : IoError := {| io_kind := IoKind.NotFound; io_message := str "not found" |}.
Definition exists_already : IoError :=
  {| io_kind := IoKind.AlreadyExists; io_message := str "exists" |}.
Definition other_error : IoError := {| io_kind := IoKind.Other; io_message := str "error" |}.

Definition path_number (path : rstring) : Z := Zpos (encode path).

(** The modification time is a number of the content, so that it changes with it. *)
Definition node_metadata (path : rstring) (n : node) : Metadata :=
  match n with
  | DirNode => {| md_kind := FileKind.Directory; md_len := 0; md_modified := Some 0; md_dev := 0;
                  md_ino := path_number path |}
  | FileNode content =>
      {| md_kind := FileKind.Regular; md_len := len content; md_modified := Some (path_number content);
         md_dev := 0; md_ino := path_number path |}
  end.

Definition ram_metadata (fs : ram) (path : rstring) : result IoError Metadata :=
  match fs !! path with Some n => Ok (node_metadata path n) | None => Err not_found end.

Definition ram_read (fs : ram) (h : ram_handle) (n : Z)
    : ram_handle * result IoError bytes :=
  match fs !! mh_path h with
  | Some (FileNode content) =>
      let data := take (Z.to_nat n) (drop (Z.to_nat (mh_cursor h)) content) in
      ({| mh_path := mh_path h; mh_content := mh_content h; mh_cursor := mh_cursor h + len data |},
       Ok data)
  | _ => (h, Err other_error)
  end.

Definition ram_write (fs : ram) (h : ram_handle) (data : bytes)
    : ram * ram_handle * result IoError unit :=
  match fs !! mh_path h with
  | Some (FileNode content) =>
      let at_ := Z.to_nat (mh_cursor h) in
      let content := take at_ content ++ data ++ drop (at_ + length data) content in
      (<[mh_path h := FileNode content]> fs,
       {| mh_path := mh_path h; mh_content := mh_content h; mh_cursor := mh_cursor h + len data |},
       Ok tt)
  | _ => (fs, h, Err other_error)
  end.

(** The names directly below a directory. *)
Definition ram_children (fs : ram) (path : rstring) : list rstring :=
  omap (fun p => match strip_prefix (push path []) p with
                 | Some name =>
                     if contains SLASH name || bool_decide (piece_component name <> Some (Component.Normal name))
                     then None else Some name
                 | None => None
                 end) (fst <$> map_to_list fs).

#[global] Instance ram_os : Os ram := {
  Handle := ram_handle;
  FileIdentity := rstring;
  identity_eqb := str_eqb;
  path_display := fun path => path;
  symlink_metadata := ram_metadata;
  canonicalize := fun fs path => if bool_decide (fs !! path = Some DirNode) then Ok path else Err not_found;
  read_dir := fun fs path =>
    if bool_decide (fs !! path = Some DirNode) then Ok (Ok <$> ram_children fs path) else Err not_found;
  open_nofollow := fun fs path =>
    match fs !! path with
    | Some (FileNode content) => Ok {| mh_path := path; mh_content := content; mh_cursor := 0 |}
    | _ => Err not_found
    end;
  handle_metadata := fun fs h => ram_metadata fs (mh_path h);
  seek := fun _ h pos => Ok {| mh_path := mh_path h; mh_content := mh_content h; mh_cursor := pos |};
  read := ram_read;
  create_dir_all := fun fs path => (<[path := DirNode]> fs, Ok tt);
  create_dir := fun fs path =>
    match fs !! path with
    | Some _ => (fs, Err exists_already)
    | None => (<[path := DirNode]> fs, Ok tt)
    end;
  create_new := fun fs path =>
    match fs !! path with
    | Some _ => (fs, Err exists_already)
    | None => (<[path := FileNode []]> fs, Ok {| mh_path := path; mh_content := []; mh_cursor := 0 |})
    end;
  try_clone := fun _ h => Ok h;
  identity_from_file := fun _ h => Ok (mh_path h);
  identity_from_path := fun fs path =>
    match fs !! path with Some _ => Ok path | None => Err not_found end;
  write_all := ram_write;
  flush := fun fs _ => (fs, Ok tt);
  sync_data := fun fs _ => (fs, Ok tt);
  remove_file := fun fs path => delete path fs;
  remove_dir := fun fs path => delete path fs;
}.

(** A digest of 32 bytes, to run the examples. *)
#[global] Instance checksum_digest : Sha256 :=
  fun data => replicate 32 (fold_left (fun sum b => (sum * 31 + b) mod 256) data 7).

(** ** Reading a file *)

(** The bytes of a range. *)
Definition slice (content : bytes) (offset length : Z) : bytes :=
  take (Z.to_nat length) (drop (Z.to_nat offset) content).

Lemma len_slice content offset length :
  0 <= offset -> 0 <= length -> offset + length <= len content -> len (slice content offset length) = length.
Proof. intros. unfold slice. autorewrite with len. lia. Qed.

Lemma slice_app content offset n m :
  0 <= offset -> 0 <= n -> 0 <= m ->
  slice content offset n ++ slice content (offset + n) m = slice content offset (n + m).
Proof.
  intros. unfold slice. rewrite !Z2Nat.inj_add, <- drop_drop by lia.
  by rewrite take_take_drop.
Qed.

(** A file at [path] whose content stays [content] and whose metadata stays
    [ident]: it can be opened, and a handle at a position inside the file reads
    some bytes from there, at least one and at most as many as asked for. *)
Record serves {FS : Type} `{!Os FS} (fs : FS) (path : rstring) (ident : SourceIdentity)
    (content : bytes) := {
  sv_at : Handle -> Z -> Prop;
  sv_open : exists h, open_nofollow fs path = Ok h /\ sv_at h 0;
  sv_metadata h p : sv_at h p ->
    exists m, handle_metadata fs h = Ok m /\ is_file m = true /\ identity_matches ident m = true;
  sv_seek h p q : sv_at h p -> 0 <= q -> exists h', seek fs h q = Ok h' /\ sv_at h' q;
  sv_read h p n : sv_at h p -> 0 <= p < len content -> 0 < n ->
    exists h' k, read fs h n = (h', Ok (slice content p k)) /\ 0 < k <= n
    /\ p + k <= len content /\ sv_at h' (p + k);
}.

Section reading.
Context {FS : Type} `{!Os FS} `{!Sha256}.
Variables (fs : FS) (path : rstring) (ident : SourceIdentity) (content : bytes).
Hypothesis file : serves fs path ident content.

(** An open file of the offer, read up to [of_offset]. *)
Definition reads_at (f : OutgoingFile) (p : Z) : Prop :=
  sv_at _ _ _ _ file (of_file f) p /\ of_identity f = ident.

Lemma check_identity_ok f p : reads_at f p -> check_identity fs f = Ok tt.
Proof.
  intros [Hh Hi]. destruct (sv_metadata _ _ _ _ file _ _ Hh) as (m & Hm & _ & Hid).
  unfold check_identity. rewrite Hm. cbn. by rewrite Hi, Hid.
Qed.

(** The loop fills the buffer, however short the reads are. *)
Lemma fill_ok rounds f start done_ requested :
  reads_at f (start + done_) -> 0 <= start -> 0 <= done_ <= requested ->
  start + requested <= len content -> requested - done_ <= Z.of_nat rounds ->
  exists f', fill rounds fs f requested (slice content start done_)
             = (f', Ok (slice content start requested))
  /\ reads_at f' (start + requested)
  /\ of_file_id f' = of_file_id f /\ of_offset f' = of_offset f /\ of_size f' = of_size f
  /\ of_hasher f' = of_hasher f /\ of_cancelled f' = of_cancelled f.
Proof.
  revert f done_. induction rounds as [|rounds IH]; intros f done_ Hr Hs Hd Hlen Hrounds;
    cbn [fill]; rewrite len_slice by lia.
  - assert (done_ = requested) as -> by lia. rewrite Z.leb_refl. by exists f.
  - destruct (Z.leb_spec requested done_).
    { assert (done_ = requested) as -> by lia. by exists f. }
    rewrite (check_identity_ok _ _ Hr). destruct Hr as [Hh Hi].
    destruct (sv_read _ _ _ _ file _ (start + done_) (requested - done_) Hh)
      as (h' & k & Hread & Hk & Hk2 & Hh'); [lia | lia |].
    rewrite Hread. cbn [io]. rewrite len_slice by lia.
    destruct (Z.eqb_spec k 0); [lia|].
    assert (reads_at (set_file f h') (start + (done_ + k))) as Hr'.
    { split; [|done]. cbn. by replace (start + (done_ + k)) with (start + done_ + k) by lia. }
    rewrite (check_identity_ok _ _ Hr'), slice_app by lia.
    destruct (IH (set_file f h') (done_ + k) Hr') as (f' & Hf & Hrest); [lia | lia | lia | lia |].
    by exists f'.
Qed.

(** One chunk: the next bytes, as many as asked for or as remain. *)
Lemma next_chunk_reads f max_len :
  reads_at f (of_offset f) -> of_size f = len content -> of_cancelled f = false ->
  0 <= of_offset f < len content -> len content <= u64_max ->
  0 < max_len <= Z.max MAX_CLIPBOARD_FILE_CHUNK_SIZE MAX_MANUAL_FILE_CHUNK_SIZE ->
  let n := Z.min (len content - of_offset f) max_len in
  exists f', next_chunk_bounded fs f max_len
             = (f', Ok (Some (of_offset f, slice content (of_offset f) n)))
  /\ reads_at f' (of_offset f') /\ of_offset f' = of_offset f + n /\ of_size f' = of_size f
  /\ of_file_id f' = of_file_id f /\ of_cancelled f' = false
  /\ of_hasher f' = of_hasher f ++ slice content (of_offset f) n.
Proof.
  intros Hr Hsz Hc Hoff Hmax Hlen n. unfold next_chunk_bounded. rewrite Hc, Hsz.
  destruct (Z.eqb_spec (of_offset f) (len content)); [lia|].
  destruct (Z.eqb_spec max_len 0); [lia|].
  destruct (Z.ltb_spec (Z.max MAX_CLIPBOARD_FILE_CHUNK_SIZE MAX_MANUAL_FILE_CHUNK_SIZE) max_len); [lia|].
  cbn [orb]. rewrite (check_identity_ok _ _ Hr). fold n.
  destruct (fill_ok (Z.to_nat n) f (of_offset f) 0 n) as (f' & Hf & Hr' & Hid & Ho & Hs & Hh & Hcc);
    [by rewrite Z.add_0_r | lia | lia | lia | lia |].
  change (slice content (of_offset f) 0) with (@nil Z) in Hf. rewrite Hf. cbn [fst snd].
  rewrite Ho, len_slice by lia. unfold checked_add.
  destruct (Z.leb_spec (of_offset f + n) u64_max); [|lia].
  eexists. split; [done|]. cbn. rewrite Hs, Hid, Hcc, Hh.
  split; [|by split_and!]. destruct Hr' as [Hh' Hi']. by split.
Qed.

(** An offered file opens at any position inside it. *)
Lemma open_reads offer f e offset :
  List.find (fun e => entry_file_id e =? f) (o_entries offer) = Some e ->
  entry_kind e = ClipboardEntryKind.File -> entry_size e = len content ->
  o_sources offer !! f = Some (path, ident) -> 0 <= offset <= len content ->
  exists out, open fs offer f offset = Ok out /\ reads_at out (of_offset out)
  /\ of_offset out = offset /\ of_size out = len content /\ of_file_id out = f
  /\ of_cancelled out = false /\ of_hasher out = [].
Proof.
  intros Hf Hk Hs Hsrc Hoff. unfold open. rewrite Hf. cbn [ok_or].
  rewrite bool_decide_eq_true_2 by done. cbn [negb orb].
  destruct (Z.ltb_spec (entry_size e) offset); [lia|]. rewrite Hsrc. cbn [ok_or].
  destruct (sv_open _ _ _ _ file) as (h & Ho & Hh). rewrite Ho. cbn [io].
  destruct (sv_metadata _ _ _ _ file _ _ Hh) as (m & Hm & Hfile & Hid). rewrite Hm. cbn [io].
  rewrite Hfile, Hid. cbn [negb orb].
  destruct (sv_seek _ _ _ _ file _ _ offset Hh ltac:(lia)) as (h' & Hseek & Hh').
  rewrite Hseek. cbn [io]. eexists. split; [done|]. cbn. split_and!; try done.
Qed.
End reading.

(** A file in memory is such a file. *)
Definition ram_serves (fs : ram) path content :
  fs !! path = Some (FileNode content) ->
  serves fs path (from_metadata (node_metadata path (FileNode content))) content.
Proof.
  intros Hp. refine {| sv_at := fun (h : Handle) p => mh_path h = path /\ mh_cursor h = p |}.
  - cbn. rewrite Hp. by eexists.
  - intros h p [Hh _]. cbn. unfold ram_metadata. rewrite Hh, Hp. eexists. split; [done|].
    split; [done|]. unfold identity_matches. cbn. by rewrite Z.eqb_refl, Pos.eqb_refl, bool_decide_eq_true_2.
  - intros h p q [Hh _] _. cbn. by eexists.
  - intros h p n [Hh <-] Hlen Hn. cbn. unfold ram_read. rewrite Hh, Hp.
    set (k := Z.min n (len content - mh_cursor h)).
    assert (take (Z.to_nat n) (drop (Z.to_nat (mh_cursor h)) content) = slice content (mh_cursor h) k) as E.
    { unfold slice, k. destruct (Z.min_spec n (len content - mh_cursor h)) as [[_ ->]|[Hle ->]]; [done|].
      rewrite !take_ge; [done | |]; rewrite length_drop; unfold len in *; lia. }
    rewrite E. eexists _, k. split; [done|]. split; [lia|]. split; [lia|]. cbn.
    rewrite len_slice by lia. done.
Defined.
