(* ===== verification/ManualTransfer.v ===== *)
(** * Manual file transfers: the state machine

    [crates/syntra-core/src/manual_transfer.rs]: offering a file to a peer,
    deciding on an offer, the pull protocol that moves its bytes, and the
    retries and time-outs of both sides.  Files are behind the interface
    [TransferFiles]; the types of the frontend API are those of
    [crates/syntra-api/src/lib.rs]. *)

From stdpp Require Import sorting.
From S2P Require Import Prelude ProtoTypes ProtoValid FileOs.

Notation "x |> f" := (f x) (at level 61, left associativity, only parsing) : syntra_scope.

(** ** Constants; times are in milliseconds *)

Definition MAX_RECORDS : Z := 32.
Definition MAX_TERMINAL : Z := 100.
Definition MAX_RETRIES : Z := 3.
Definition APPROVAL_TIMEOUT : Z := 600 * 1000.
Definition RETRY_TIMEOUT : Z := 5 * 1000.
Definition PROGRESS_INTERVAL : Z := 100.
Definition REMOTE_PREPARATION_ERROR : rstring := str "destination unavailable".
Definition REMOTE_TRANSFER_ERROR : rstring := str "file transfer failed".
Definition REMOTE_NOT_ACCEPTED_ERROR : rstring := str "transfer not accepted".

(** ** Types of the frontend API *)

Module ManualTransferState.
Inductive t := Offering | AwaitingAcceptance | Transferring | Completed | Declined | Cancelled | Failed.
#[global] Instance t_eq_dec : EqDecision t.
Proof. solve_decision. Defined.
End ManualTransferState.

Module Direction.
Inductive t := Sending | Receiving.
#[global] Instance t_eq_dec : EqDecision t.
Proof. solve_decision. Defined.
End Direction.

(** ** Files

    The operations of [file_transfer.rs] as this module calls them; each may
    change the file system [FS]. *)

Definition FILE_ID : Z := 1.

Class TransferFiles (FS : Type) := {
  Path : Type;
  is_absolute : Path -> bool;
  path_join : Path -> rstring -> Path;
  empty_path : Path;
  (** [TransferError::to_string] *)
  display : TransferError -> rstring;
  (** [FileOffer::from_regular_file] in a blocking task (the outer
      error is that the task failed), its single entry, and [open(FILE_ID, 0)] *)
  FileOffer : Type;
  from_regular_file : FS -> Z -> Path -> result rstring (result TransferError FileOffer);
  offer_entry : FileOffer -> rstring * Z;
  OutgoingFile : Type;
  open_offer : FS -> FileOffer -> result TransferError OutgoingFile;
  next_chunk_bounded : FS -> OutgoingFile -> Z -> OutgoingFile * result TransferError (option (Z * bytes));
  finalize_digest : FS -> OutgoingFile -> result TransferError bytes;
  (** [create_dir_all], [IncomingTransfer::new] and [prepare] for one file;
      [write_chunk]; [finalize_file] then [finish]; and [Drop] *)
  IncomingTransfer : Type;
  prepare_incoming : FS -> Z -> rstring -> Z -> Path -> FS * result TransferError IncomingTransfer;
  destination_path : IncomingTransfer -> Path;
  incoming_write : FS -> IncomingTransfer -> Z -> bytes -> FS * IncomingTransfer * result TransferError unit;
  incoming_finish : FS -> IncomingTransfer -> Z -> bytes -> FS * IncomingTransfer * result TransferError unit;
  drop_incoming : FS -> IncomingTransfer -> FS;
  (** [tempfile]: a directory removed when it is dropped *)
  TempDir : Type;
  tempdir_in : FS -> Path -> FS * result rstring TempDir;
  tempdir_path : TempDir -> Path;
  drop_tempdir : FS -> TempDir -> FS;
  rename : FS -> Path -> Path -> FS * result rstring unit;
  symlink_metadata_ok : FS -> Path -> bool;
}.

Section manual_transfer.
Context {FS : Type} `{!TransferFiles FS}.
Context {P : Type}.

(** ** Records *)

Record TransferRecord := {
  r_peer : P;
  r_fingerprint : rstring;
  r_id : Z;
  r_name : rstring;
  r_size : Z;
  r_transferred : Z;
  r_direction : Direction.t;
  r_state : ManualTransferState.t;
  r_destination : option Path;
  r_error : option rstring;
  r_offer : option FileOffer;
  r_outgoing : option OutgoingFile;
  r_incoming : option IncomingTransfer;
  r_replacement : option (TempDir * Path);
  r_last_activity : Z;
  r_last_notification : Z;
  r_approval_deadline : Z;
  r_retries : Z;
  r_cached_request : option (Z * Z);
  r_cached_response : option ProtoEvent;
  r_retry_event : option ProtoEvent;
  r_final_digest : option bytes;
  r_early_digest : option bytes;
  r_final_result : option (bool * option rstring);
}.

(** Assignment to a field. *)
Definition set_peer (v : P) (r : TransferRecord) : TransferRecord :=
  Build_TransferRecord v (r_fingerprint r) (r_id r) (r_name r) (r_size r) (r_transferred r)
     (r_direction r) (r_state r) (r_destination r) (r_error r) (r_offer r) (r_outgoing r)
     (r_incoming r) (r_replacement r) (r_last_activity r) (r_last_notification r)
     (r_approval_deadline r) (r_retries r) (r_cached_request r) (r_cached_response r)
     (r_retry_event r) (r_final_digest r) (r_early_digest r) (r_final_result r).
Definition set_transferred (v : Z) (r : TransferRecord) : TransferRecord :=
  Build_TransferRecord (r_peer r) (r_fingerprint r) (r_id r) (r_name r) (r_size r) v (r_direction r)
     (r_state r) (r_destination r) (r_error r) (r_offer r) (r_outgoing r) (r_incoming r)
     (r_replacement r) (r_last_activity r) (r_last_notification r) (r_approval_deadline r)
     (r_retries r) (r_cached_request r) (r_cached_response r) (r_retry_event r)
     (r_final_digest r) (r_early_digest r) (r_final_result r).
Definition set_state (v : ManualTransferState.t) (r : TransferRecord) : TransferRecord :=
  Build_TransferRecord (r_peer r) (r_fingerprint r) (r_id r) (r_name r) (r_size r) (r_transferred r)
     (r_direction r) v (r_destination r) (r_error r) (r_offer r) (r_outgoing r) (r_incoming r)
     (r_replacement r) (r_last_activity r) (r_last_notification r) (r_approval_deadline r)
     (r_retries r) (r_cached_request r) (r_cached_response r) (r_retry_event r)
     (r_final_digest r) (r_early_digest r) (r_final_result r).
Definition set_destination (v : option Path) (r : TransferRecord) : TransferRecord :=
  Build_TransferRecord (r_peer r) (r_fingerprint r) (r_id r) (r_name r) (r_size r) (r_transferred r)
     (r_direction r) (r_state r) v (r_error r) (r_offer r) (r_outgoing r) (r_incoming r)
     (r_replacement r) (r_last_activity r) (r_last_notification r) (r_approval_deadline r)
     (r_retries r) (r_cached_request r) (r_cached_response r) (r_retry_event r)
     (r_final_digest r) (r_early_digest r) (r_final_result r).
Definition set_error (v : option rstring) (r : TransferRecord) : TransferRecord :=
  Build_TransferRecord (r_peer r) (r_fingerprint r) (r_id r) (r_name r) (r_size r) (r_transferred r)
     (r_direction r) (r_state r) (r_destination r) v (r_offer r) (r_outgoing r) (r_incoming r)
     (r_replacement r) (r_last_activity r) (r_last_notification r) (r_approval_deadline r)
     (r_retries r) (r_cached_request r) (r_cached_response r) (r_retry_event r)
     (r_final_digest r) (r_early_digest r) (r_final_result r).
Definition set_offer (v : option FileOffer) (r : TransferRecord) : TransferRecord :=
  Build_TransferRecord (r_peer r) (r_fingerprint r) (r_id r) (r_name r) (r_size r) (r_transferred r)
     (r_direction r) (r_state r) (r_destination r) (r_error r) v (r_outgoing r) (r_incoming r)
     (r_replacement r) (r_last_activity r) (r_last_notification r) (r_approval_deadline r)
     (r_retries r) (r_cached_request r) (r_cached_response r) (r_retry_event r)
     (r_final_digest r) (r_early_digest r) (r_final_result r).
Definition set_outgoing (v : option OutgoingFile) (r : TransferRecord) : TransferRecord :=
  Build_TransferRecord (r_peer r) (r_fingerprint r) (r_id r) (r_name r) (r_size r) (r_transferred r)
     (r_direction r) (r_state r) (r_destination r) (r_error r) (r_offer r) v (r_incoming r)
     (r_replacement r) (r_last_activity r) (r_last_notification r) (r_approval_deadline r)
     (r_retries r) (r_cached_request r) (r_cached_response r) (r_retry_event r)
     (r_final_digest r) (r_early_digest r) (r_final_result r).
Definition set_incoming (v : option IncomingTransfer) (r : TransferRecord) : TransferRecord :=
  Build_TransferRecord (r_peer r) (r_fingerprint r) (r_id r) (r_name r) (r_size r) (r_transferred r)
     (r_direction r) (r_state r) (r_destination r) (r_error r) (r_offer r) (r_outgoing r) v
     (r_replacement r) (r_last_activity r) (r_last_notification r) (r_approval_deadline r)
     (r_retries r) (r_cached_request r) (r_cached_response r) (r_retry_event r)
     (r_final_digest r) (r_early_digest r) (r_final_result r).
Definition set_replacement (v : option (TempDir * Path)) (r : TransferRecord) : TransferRecord :=
  Build_TransferRecord (r_peer r) (r_fingerprint r) (r_id r) (r_name r) (r_size r) (r_transferred r)
     (r_direction r) (r_state r) (r_destination r) (r_error r) (r_offer r) (r_outgoing r)
     (r_incoming r) v (r_last_activity r) (r_last_notification r) (r_approval_deadline r)
     (r_retries r) (r_cached_request r) (r_cached_response r) (r_retry_event r)
     (r_final_digest r) (r_early_digest r) (r_final_result r).
Definition set_last_activity (v : Z) (r : TransferRecord) : TransferRecord :=
  Build_TransferRecord (r_peer r) (r_fingerprint r) (r_id r) (r_name r) (r_size r) (r_transferred r)
     (r_direction r) (r_state r) (r_destination r) (r_error r) (r_offer r) (r_outgoing r)
     (r_incoming r) (r_replacement r) v (r_last_notification r) (r_approval_deadline r)
     (r_retries r) (r_cached_request r) (r_cached_response r) (r_retry_event r)
     (r_final_digest r) (r_early_digest r) (r_final_result r).
Definition set_last_notification (v : Z) (r : TransferRecord) : TransferRecord :=
  Build_TransferRecord (r_peer r) (r_fingerprint r) (r_id r) (r_name r) (r_size r) (r_transferred r)
     (r_direction r) (r_state r) (r_destination r) (r_error r) (r_offer r) (r_outgoing r)
     (r_incoming r) (r_replacement r) (r_last_activity r) v (r_approval_deadline r)
     (r_retries r) (r_cached_request r) (r_cached_response r) (r_retry_event r)
     (r_final_digest r) (r_early_digest r) (r_final_result r).
Definition set_retries (v : Z) (r : TransferRecord) : TransferRecord :=
  Build_TransferRecord (r_peer r) (r_fingerprint r) (r_id r) (r_name r) (r_size r) (r_transferred r)
     (r_direction r) (r_state r) (r_destination r) (r_error r) (r_offer r) (r_outgoing r)
     (r_incoming r) (r_replacement r) (r_last_activity r) (r_last_notification r)
     (r_approval_deadline r) v (r_cached_request r) (r_cached_response r) (r_retry_event r)
     (r_final_digest r) (r_early_digest r) (r_final_result r).
Definition set_cached_request (v : option (Z * Z)) (r : TransferRecord) : TransferRecord :=
  Build_TransferRecord (r_peer r) (r_fingerprint r) (r_id r) (r_name r) (r_size r) (r_transferred r)
     (r_direction r) (r_state r) (r_destination r) (r_error r) (r_offer r) (r_outgoing r)
     (r_incoming r) (r_replacement r) (r_last_activity r) (r_last_notification r)
     (r_approval_deadline r) (r_retries r) v (r_cached_response r) (r_retry_event r)
     (r_final_digest r) (r_early_digest r) (r_final_result r).
Definition set_cached_response (v : option ProtoEvent) (r : TransferRecord) : TransferRecord :=
  Build_TransferRecord (r_peer r) (r_fingerprint r) (r_id r) (r_name r) (r_size r) (r_transferred r)
     (r_direction r) (r_state r) (r_destination r) (r_error r) (r_offer r) (r_outgoing r)
     (r_incoming r) (r_replacement r) (r_last_activity r) (r_last_notification r)
     (r_approval_deadline r) (r_retries r) (r_cached_request r) v (r_retry_event r)
     (r_final_digest r) (r_early_digest r) (r_final_result r).
Definition set_retry_event (v : option ProtoEvent) (r : TransferRecord) : TransferRecord :=
  Build_TransferRecord (r_peer r) (r_fingerprint r) (r_id r) (r_name r) (r_size r) (r_transferred r)
     (r_direction r) (r_state r) (r_destination r) (r_error r) (r_offer r) (r_outgoing r)
     (r_incoming r) (r_replacement r) (r_last_activity r) (r_last_notification r)
     (r_approval_deadline r) (r_retries r) (r_cached_request r) (r_cached_response r) v
     (r_final_digest r) (r_early_digest r) (r_final_result r).
Definition set_final_digest (v : option bytes) (r : TransferRecord) : TransferRecord :=
  Build_TransferRecord (r_peer r) (r_fingerprint r) (r_id r) (r_name r) (r_size r) (r_transferred r)
     (r_direction r) (r_state r) (r_destination r) (r_error r) (r_offer r) (r_outgoing r)
     (r_incoming r) (r_replacement r) (r_last_activity r) (r_last_notification r)
     (r_approval_deadline r) (r_retries r) (r_cached_request r) (r_cached_response r)
     (r_retry_event r) v (r_early_digest r) (r_final_result r).
Definition set_early_digest (v : option bytes) (r : TransferRecord) : TransferRecord :=
  Build_TransferRecord (r_peer r) (r_fingerprint r) (r_id r) (r_name r) (r_size r) (r_transferred r)
     (r_direction r) (r_state r) (r_destination r) (r_error r) (r_offer r) (r_outgoing r)
     (r_incoming r) (r_replacement r) (r_last_activity r) (r_last_notification r)
     (r_approval_deadline r) (r_retries r) (r_cached_request r) (r_cached_response r)
     (r_retry_event r) (r_final_digest r) v (r_final_result r).
Definition set_final_result (v : option (bool * option rstring)) (r : TransferRecord) : TransferRecord :=
  Build_TransferRecord (r_peer r) (r_fingerprint r) (r_id r) (r_name r) (r_size r) (r_transferred r)
     (r_direction r) (r_state r) (r_destination r) (r_error r) (r_offer r) (r_outgoing r)
     (r_incoming r) (r_replacement r) (r_last_activity r) (r_last_notification r)
     (r_approval_deadline r) (r_retries r) (r_cached_request r) (r_cached_response r)
     (r_retry_event r) (r_final_digest r) (r_early_digest r) v.

Abbreviation RecordKey := (rstring * Z)%type (only parsing).

Record ManualTransfers := {
  m_records : gmap (rstring * Z) TransferRecord;
  m_terminal : list (rstring * Z);
}.

Definition new_transfers : ManualTransfers := {| m_records := ∅; m_terminal := [] |}.

Record ManualTransferStatus := {
  st_fingerprint : rstring;
  st_id : Z;
  st_name : rstring;
  st_size : Z;
  st_transferred : Z;
  st_direction : Direction.t;
  st_state : ManualTransferState.t;
  st_destination : option Path;
  st_error : option rstring;
}.

Record IncomingFileOffer := {
  of_fingerprint : rstring;
  of_id : Z;
  of_name : rstring;
  of_size : Z;
  of_directory : Path;
}.

Inductive FrontendEvent :=
| Status (status : ManualTransferStatus)
| Offer (offer : IncomingFileOffer)
| TransferErrorEvent (message : rstring).

Inductive ManualAction :=
| Send (peer : P) (event : ProtoEvent)
| Notify (event : FrontendEvent).

Record FileReceiveSettings := {
  auto_accept : bool;
  download_directory : Path;
}.

(** ** Helpers *)

Definition is_terminal (state : ManualTransferState.t) : bool :=
  match state with
  | ManualTransferState.Completed | ManualTransferState.Declined
  | ManualTransferState.Cancelled | ManualTransferState.Failed => true
  | _ => false
  end.

Definition state_is (r : TransferRecord) (state : ManualTransferState.t) : bool :=
  bool_decide (r_state r = state).
Definition direction_is (r : TransferRecord) (direction : Direction.t) : bool :=
  bool_decide (r_direction r = direction).

Definition request (transfer_id offset : Z) : ProtoEvent :=
  ProtoEvent.ManualFileRequest transfer_id offset MAX_MANUAL_FILE_CHUNK_SIZE.

Definition peer_failure (peer : P) (transfer_id : Z) (error : rstring) : ManualAction :=
  Send peer (ProtoEvent.ManualFileResult transfer_id false (Some error)).

Definition local_source_error (error : TransferError) : rstring :=
  match error with
  | UnsupportedEntry _ => str "only regular files can be sent"
  | UnsafePath _ => str "the file name is not portable"
  | _ => display error
  end.

Definition local_receive_error (error : TransferError) : rstring :=
  match error with
  | Io true _ => str "a file with this name already exists"
  | _ => display error
  end.

Definition sanitize_remote_error (error : option rstring) : rstring :=
  match error with
  | Some (b :: e) => b :: e
  | _ => str "remote peer rejected the file"
  end.

Definition status (r : TransferRecord) : ManualTransferStatus :=
  {| st_fingerprint := r_fingerprint r; st_id := r_id r; st_name := r_name r; st_size := r_size r;
     st_transferred := r_transferred r; st_direction := r_direction r; st_state := r_state r;
     st_destination := r_destination r; st_error := r_error r |}.

Definition notify (r : TransferRecord) : ManualAction := Notify (Status (status r)).
Definition send (r : TransferRecord) (event : ProtoEvent) : ManualAction := Send (r_peer r) event.

Definition offer_snapshot (r : TransferRecord) : IncomingFileOffer :=
  {| of_fingerprint := r_fingerprint r; of_id := r_id r; of_name := r_name r; of_size := r_size r;
     of_directory := default empty_path (r_destination r) |}.

Definition offer_response (r : TransferRecord) : ProtoEvent :=
  match r_state r with
  | ManualTransferState.AwaitingAcceptance =>
      ProtoEvent.ManualFileDecision (r_id r) ManualDecision.Pending
  | ManualTransferState.Transferring =>
      ProtoEvent.ManualFileDecision (r_id r) ManualDecision.Accepted
  | ManualTransferState.Declined =>
      ProtoEvent.ManualFileDecision (r_id r) ManualDecision.Declined
  | ManualTransferState.Cancelled => ProtoEvent.ManualFileCancel (r_id r)
  | _ =>
      let (success, error) := default (false, Some REMOTE_TRANSFER_ERROR) (r_final_result r) in
      ProtoEvent.ManualFileResult (r_id r) success error
  end.

Definition is_active (r : TransferRecord) : bool := negb (is_terminal (r_state r)).

Definition active_count (m : ManualTransfers) : Z :=
  Z.of_nat (size (filter (fun '(_, r) => is_active r = true) (m_records m))).

Definition record_key (r : TransferRecord) : rstring * Z := (r_fingerprint r, r_id r).

(** The [while] loop of [store]: the oldest terminal records go. *)
Fixpoint evict (fuel : nat) (m : ManualTransfers) : ManualTransfers :=
  match fuel with
  | O => m
  | S fuel =>
      if MAX_TERMINAL <? len (m_terminal m) then
        match m_terminal m with
        | oldest :: rest =>
            evict fuel {| m_records := delete oldest (m_records m); m_terminal := rest |}
        | [] => m
        end
      else m
  end.

Definition store (m : ManualTransfers) (r : TransferRecord) : ManualTransfers :=
  let key := record_key r in
  let terminal :=
    if is_terminal (r_state r) && negb (bool_decide (key ∈ m_terminal m))
    then m_terminal m ++ [key] else m_terminal m in
  evict (length terminal) {| m_records := <[key := r]> (m_records m); m_terminal := terminal |}.

(** [self.records.remove(&key)] *)
Definition take_record (m : ManualTransfers) (key : rstring * Z) : ManualTransfers :=
  {| m_records := delete key (m_records m); m_terminal := m_terminal m |}.

Definition progress (r : TransferRecord) (now : Z) : TransferRecord * list ManualAction :=
  if (r_transferred r =? r_size r)
     || (PROGRESS_INTERVAL <=? saturating_sub now (r_last_notification r))
  then let r := r |> set_last_notification now in (r, [notify r])
  else (r, []).

(** Assigning [None] drops what was there. *)
Definition drop_opt {A} (drop : FS -> A -> FS) (fs : FS) (o : option A) : FS :=
  match o with Some a => drop fs a | None => fs end.

Definition terminal (fs : FS) (r : TransferRecord) (state : ManualTransferState.t)
    (error : option rstring) (now : Z) : FS * TransferRecord :=
  let r := r |> set_state state |> set_error error |> set_retries 0 |> set_last_activity now
             |> set_cached_response None |> set_outgoing None |> set_offer None in
  let fs := drop_opt drop_incoming fs (r_incoming r) in
  let r := r |> set_incoming None in
  let fs := drop_opt (fun fs p => drop_tempdir fs (fst p)) fs (r_replacement r) in
  let r := r |> set_replacement None in
  (fs, r |> set_retry_event
         match state with
         | ManualTransferState.Declined =>
             Some (ProtoEvent.ManualFileDecision (r_id r) ManualDecision.Declined)
         | ManualTransferState.Cancelled => Some (ProtoEvent.ManualFileCancel (r_id r))
         | _ => None
         end).

(** [fail(record, error, true, now)]: every caller reports to the peer. *)
Definition fail (fs : FS) (r : TransferRecord) (error : rstring) (now : Z)
    : FS * TransferRecord * list ManualAction :=
  let (fs, r) := terminal fs r ManualTransferState.Failed (Some error) now in
  let r := r |> set_retry_event (Some (offer_response r)) in
  (fs, r, [notify r; peer_failure (r_peer r) (r_id r) REMOTE_TRANSFER_ERROR]).

(** ** Sending *)

(** [next_transfer_id]; [draws] are the results of [getrandom], of which at
    most 16 are used. *)
Fixpoint pick_id (m : ManualTransfers) (draws : list (option Z)) : option Z :=
  match draws with
  | [] => None
  | None :: _ => None
  | Some id :: draws =>
      if negb (id =? 0)
         && negb (bool_decide (id ∈ (snd <$> (map_to_list (m_records m)).*1)))
      then Some id else pick_id m draws
  end.
Definition next_transfer_id (m : ManualTransfers) (draws : list (option Z)) : option Z :=
  pick_id m (take 16 draws).

Definition sending_record (peer : P) (fingerprint : rstring) (id : Z) (offer : FileOffer)
    (wire : ProtoEvent) (now : Z) : TransferRecord :=
  let (name, size) := offer_entry offer in
  {| r_peer := peer; r_fingerprint := fingerprint; r_id := id; r_name := name; r_size := size;
     r_transferred := 0; r_direction := Direction.Sending; r_state := ManualTransferState.Offering;
     r_destination := None; r_error := None; r_offer := Some offer; r_outgoing := None;
     r_incoming := None; r_replacement := None; r_last_activity := now; r_last_notification := now;
     r_approval_deadline := now + APPROVAL_TIMEOUT; r_retries := 0; r_cached_request := None;
     r_cached_response := None; r_retry_event := Some wire; r_final_digest := None;
     r_early_digest := None; r_final_result := None |}.

(** The loop of [send_files] over the paths, each with its random draws. *)
Fixpoint send_files (fs : FS) (m : ManualTransfers) (peer : P) (fingerprint : rstring)
    (paths : list (Path * list (option Z))) (now : Z) : ManualTransfers * list ManualAction :=
  match paths with
  | [] => (m, [])
  | (path, draws) :: paths =>
      if MAX_RECORDS <=? active_count m then
        (m, [Notify (TransferErrorEvent (str "too many active file transfers"))])
      else
      match next_transfer_id m draws with
      | None => (m, [Notify (TransferErrorEvent (str "could not create a file transfer identifier"))])
      | Some id =>
          match from_regular_file fs id path with
          | Ok (Ok offer) =>
              let (name, size) := offer_entry offer in
              let wire := ProtoEvent.ManualFileOffer id name size in
              let r := sending_record peer fingerprint id offer wire now in
              let (m, actions) := send_files fs (store m r) peer fingerprint paths now in
              (m, [Send peer wire; notify r] ++ actions)
          | Ok (Err error) =>
              let (m, actions) := send_files fs m peer fingerprint paths now in
              (m, Notify (TransferErrorEvent (local_source_error error)) :: actions)
          | Err error =>
              let (m, actions) := send_files fs m peer fingerprint paths now in
              (m, Notify (TransferErrorEvent (str "file source preparation failed: " ++ error)) :: actions)
          end
      end
  end.

(** The source of a sender, opened at the first request. *)
Definition ensure_source (fs : FS) (r : TransferRecord) : result rstring (TransferRecord * OutgoingFile) :=
  match r_outgoing r with
  | Some source => Ok (r, source)
  | None =>
      match r_offer r with
      | None => Err (str "file source unavailable")
      | Some offer =>
          match open_offer fs offer with
          | Ok source => Ok (r |> set_outgoing (Some source), source)
          | Err error => Err (local_source_error error)
          end
      end
  end.

(** The answer to a request at the position of the source. *)
Definition read_source (fs : FS) (r : TransferRecord) (source : OutgoingFile) (offset length : Z)
    : TransferRecord * result TransferError ProtoEvent :=
  if offset =? r_size r then
    match finalize_digest fs source with
    | Ok sha256 =>
        (r |> set_final_digest (Some sha256), Ok (ProtoEvent.ManualFileComplete (r_id r) sha256))
    | Err error => (r, Err error)
    end
  else
    let (source, chunk) := next_chunk_bounded fs source length in
    let r := r |> set_outgoing (Some source) in
    match chunk with
    | Ok (Some (chunk_offset, data)) =>
        if (chunk_offset =? offset) && negb (len data =? 0) then
          (r |> set_transferred (offset + len data),
           Ok (ProtoEvent.ManualFileChunk (r_id r) offset data))
        else (r, Err (SourceChanged FILE_ID))
    | Ok None => (r, Err (SourceChanged FILE_ID))
    | Err error => (r, Err error)
    end.

Definition is_complete (event : ProtoEvent) : bool :=
  match event with ProtoEvent.ManualFileComplete _ _ => true | _ => false end.

Definition send_chunk (fs : FS) (r : TransferRecord) (offset length now : Z)
    : FS * TransferRecord * list ManualAction :=
  if is_terminal (r_state r) then (fs, r, [])
  else if negb (direction_is r Direction.Sending)
          || negb (state_is r ManualTransferState.Transferring)
  then (fs, r, [peer_failure (r_peer r) (r_id r) REMOTE_NOT_ACCEPTED_ERROR])
  else if (length =? 0) || (MAX_MANUAL_FILE_CHUNK_SIZE <? length) || (r_size r <? offset)
  then fail fs r (str "invalid file request") now
  else
  match (if bool_decide (r_cached_request r = Some (offset, length))
         then r_cached_response r else None) with
  | Some response =>
      let r := r |> set_last_activity now |> set_retries 0 in
      (fs, r, [send r response])
  | None =>
      if offset <? r_transferred r then (fs, r, [])
      else if negb (offset =? r_transferred r)
      then fail fs r (str "unexpected file offset") now
      else
      match ensure_source fs r with
      | Err error => fail fs r error now
      | Ok (r, source) =>
          let (r, read) := read_source fs r source offset length in
          match read with
          | Err error => fail fs r (local_source_error error) now
          | Ok response =>
              let r := r |> set_cached_request (Some (offset, length))
                         |> set_cached_response (Some response)
                         |> set_retry_event (if is_complete response then Some response else None)
                         |> set_last_activity now |> set_retries 0 in
              let sent := send r response in
              let (r, actions) := progress r now in
              (fs, r, sent :: actions)
          end
      end
  end.

(** ** Receiving *)

Definition pending_response (r : TransferRecord) : list ManualAction :=
  [send r (ProtoEvent.ManualFileDecision (r_id r) ManualDecision.Pending); notify r;
   Notify (Offer (offer_snapshot r))].

(** The preparation block of [prepare_receiver]. *)
Definition prepare_directory (fs : FS) (r : TransferRecord) (directory : Path)
    : FS * result TransferError IncomingTransfer :=
  if is_absolute directory then prepare_incoming fs (r_id r) (r_name r) (r_size r) directory
  else (fs, Err (Io false (str "destination must be an absolute directory"))).

Definition already_exists (error : TransferError) : bool :=
  match error with Io exists_ _ => exists_ | _ => false end.

Definition prepare_receiver (fs : FS) (r : TransferRecord) (directory : Path) (now : Z)
    (automatic : bool) : FS * TransferRecord * list ManualAction :=
  if negb (direction_is r Direction.Receiving)
     || negb (state_is r ManualTransferState.AwaitingAcceptance)
  then (fs, r, [])
  else if r_approval_deadline r <=? now then fail fs r (str "file offer expired") now
  else
  let (fs, preparation) := prepare_directory fs r directory in
  match preparation with
  | Ok incoming =>
      let accepted := ProtoEvent.ManualFileDecision (r_id r) ManualDecision.Accepted in
      let r := r |> set_destination (Some (path_join (destination_path incoming) (r_name r)))
                 |> set_incoming (Some incoming) |> set_state ManualTransferState.Transferring
                 |> set_error None |> set_last_activity now |> set_last_notification now
                 |> set_retries 0 |> set_retry_event (Some accepted) in
      (fs, r, [send r accepted; notify r])
  | Err error =>
      let message := local_receive_error error in
      if automatic && already_exists error
         && symlink_metadata_ok fs (path_join directory (r_name r)) then
        let r := r |> set_error (Some message) |> set_destination (Some directory) in
        (fs, r, pending_response r)
      else if automatic then
        let (fs, r) := terminal fs r ManualTransferState.Failed (Some message) now in
        let r := r |> set_final_result (Some (false, Some REMOTE_PREPARATION_ERROR)) in
        let r := r |> set_retry_event (Some (offer_response r)) in
        (fs, r, [peer_failure (r_peer r) (r_id r) REMOTE_PREPARATION_ERROR; notify r])
      else
        let r := r |> set_error (Some message) in
        (fs, r, [notify r])
  end.

Definition receiving_record (peer : P) (fingerprint : rstring) (id : Z) (name : rstring) (size : Z)
    (settings : FileReceiveSettings) (now : Z) : TransferRecord :=
  {| r_peer := peer; r_fingerprint := fingerprint; r_id := id; r_name := name; r_size := size;
     r_transferred := 0; r_direction := Direction.Receiving;
     r_state := ManualTransferState.AwaitingAcceptance;
     r_destination := Some (download_directory settings); r_error := None; r_offer := None;
     r_outgoing := None; r_incoming := None; r_replacement := None; r_last_activity := now;
     r_last_notification := now; r_approval_deadline := now + APPROVAL_TIMEOUT; r_retries := 0;
     r_cached_request := None; r_cached_response := None; r_retry_event := None;
     r_final_digest := None; r_early_digest := None; r_final_result := None |}.

Definition receive_offer (fs : FS) (m : ManualTransfers) (peer : P) (fingerprint : rstring)
    (id : Z) (name : rstring) (size : Z) (settings : FileReceiveSettings) (now : Z)
    : FS * ManualTransfers * list ManualAction :=
  if (id =? 0) || negb (is_ok (validate_manual_file_name name))
  then (fs, m, [peer_failure peer id (str "invalid file offer")])
  else
  let key := (fingerprint, id) in
  match m_records m !! key with
  | Some r =>
      if negb (direction_is r Direction.Receiving) || negb (str_eqb (r_name r) name)
         || negb (r_size r =? size)
      then (fs, m, [peer_failure peer id (str "conflicting file offer")])
      else
        let r := r |> set_peer peer in
        (fs, {| m_records := <[key := r]> (m_records m); m_terminal := m_terminal m |},
         [send r (offer_response r)])
  | None =>
      if MAX_RECORDS <=? active_count m
      then (fs, m, [peer_failure peer id (str "too many active file transfers")])
      else
      let r := receiving_record peer fingerprint id name size settings now in
      let '(fs, r, actions) :=
        if auto_accept settings
        then prepare_receiver fs r (download_directory settings) now true
        else (fs, r, pending_response r) in
      let actions := match actions with [] => [notify r] | _ => actions end in
      (fs, store m r, actions)
  end.

Definition finish_receiver (fs : FS) (r : TransferRecord) (incoming : IncomingTransfer)
    (digest : bytes) (now : Z) : FS * TransferRecord * list ManualAction :=
  let '(fs, incoming, result) := incoming_finish fs incoming (r_size r) digest in
  let r := r |> set_incoming (Some incoming) in
  match result with
  | Err error => fail fs r (local_receive_error error) now
  | Ok _ =>
      let (fs, renamed) :=
        match r_replacement r with
        | Some (staging, target) => rename fs (path_join (tempdir_path staging) (r_name r)) target
        | None => (fs, Ok tt)
        end in
      match renamed with
      | Err error => fail fs r error now
      | Ok _ =>
          let (fs, r) := terminal fs r ManualTransferState.Completed None now in
          let r := r |> set_final_result (Some (true, None)) in
          let r := r |> set_retry_event (Some (offer_response r)) in
          (fs, r, [send r (ProtoEvent.ManualFileResult (r_id r) true None); notify r])
      end
  end.

Definition write_chunk (fs : FS) (r : TransferRecord) (offset : Z) (data : bytes) (now : Z)
    : FS * TransferRecord * list ManualAction :=
  if negb (direction_is r Direction.Receiving) then (fs, r, [])
  else if is_terminal (r_state r) then
    (fs, r, match r_final_result r with Some _ => [send r (offer_response r)] | None => [] end)
  else
  match (if state_is r ManualTransferState.Transferring then r_incoming r else None) with
  | None => (fs, r, [peer_failure (r_peer r) (r_id r) REMOTE_NOT_ACCEPTED_ERROR])
  | Some incoming =>
      match checked_add offset (len data) with
      | None => fail fs r (str "invalid file chunk") now
      | Some end_ =>
          if (len data =? 0) || (MAX_MANUAL_FILE_CHUNK_SIZE <? len data) || (r_size r <? end_)
          then fail fs r (str "invalid file chunk") now
          else if negb (offset =? r_transferred r) then
            if (offset <? r_transferred r) && (r_transferred r <? end_)
            then fail fs r (str "overlapping file chunk") now
            else (fs, r, [send r (request (r_id r) (r_transferred r))])
          else
          let '(fs, incoming, write) := incoming_write fs incoming offset data in
          let r := r |> set_incoming (Some incoming) in
          match write with
          | Err error => fail fs r (local_receive_error error) now
          | Ok _ =>
              let r := r |> set_transferred end_ |> set_last_activity now |> set_retries 0 in
              match (if end_ =? r_size r then r_early_digest r else None) with
              | Some digest => finish_receiver fs (r |> set_early_digest None) incoming digest now
              | None =>
                  let pull := request (r_id r) (r_transferred r) in
                  let r := r |> set_retry_event (Some pull) in
                  let sent := send r pull in
                  let (r, actions) := progress r now in
                  (fs, r, sent :: actions)
              end
          end
      end
  end.

Definition complete_receiver (fs : FS) (r : TransferRecord) (digest : bytes) (now : Z)
    : FS * TransferRecord * list ManualAction :=
  if negb (direction_is r Direction.Receiving) then (fs, r, [])
  else if is_terminal (r_state r) then (fs, r, [send r (offer_response r)])
  else
  match (if state_is r ManualTransferState.Transferring then r_incoming r else None) with
  | None => (fs, r, [peer_failure (r_peer r) (r_id r) REMOTE_NOT_ACCEPTED_ERROR])
  | Some incoming =>
      if negb (r_transferred r =? r_size r) then
        if match r_early_digest r with
           | Some previous => negb (bool_decide (previous = digest))
           | None => false
           end
        then fail fs r (str "conflicting file digest") now
        else
          let r := r |> set_early_digest (Some digest) in
          (fs, r, [send r (request (r_id r) (r_transferred r))])
      else finish_receiver fs r incoming digest now
  end.

(** ** Decisions and results *)

Definition decision (fs : FS) (r : TransferRecord) (d : ManualDecision.t) (now : Z)
    : FS * TransferRecord * list ManualAction :=
  if is_terminal (r_state r) then (fs, r, [])
  else
  match r_direction r, d with
  | Direction.Sending, ManualDecision.Pending =>
      if negb (state_is r ManualTransferState.Offering) then (fs, r, [])
      else
        let r := r |> set_state ManualTransferState.AwaitingAcceptance |> set_retry_event None
                   |> set_retries 0 in
        (fs, r, [notify r])
  | Direction.Sending, ManualDecision.Accepted =>
      let changed := negb (state_is r ManualTransferState.Transferring) in
      if (r_approval_deadline r <=? now) && changed then fail fs r (str "file offer expired") now
      else
        let r := if changed
                 then r |> set_state ManualTransferState.Transferring |> set_retry_event None
                        |> set_last_activity now |> set_retries 0 |> set_error None
                 else r in
        (fs, r, send r (ProtoEvent.ManualFileDecision (r_id r) ManualDecision.Accepted)
                :: (if changed then [notify r] else []))
  | Direction.Receiving, ManualDecision.Accepted =>
      if negb (state_is r ManualTransferState.Transferring) then (fs, r, [])
      else
        let first_ack := match r_retry_event r with
                         | Some (ProtoEvent.ManualFileDecision _ _) => true
                         | _ => false
                         end in
        let pull := request (r_id r) (r_transferred r) in
        let r := r |> set_retry_event (Some pull) in
        let r := if first_ack then r |> set_last_activity now |> set_retries 0 else r in
        (fs, r, [send r pull])
  | Direction.Sending, ManualDecision.Declined =>
      let (fs, r) := terminal fs r ManualTransferState.Declined None now in
      (fs, r, [notify r])
  | Direction.Receiving, _ => (fs, r, [])
  end.

Definition receive_result (fs : FS) (r : TransferRecord) (success : bool) (error : option rstring)
    (now : Z) : FS * TransferRecord * list ManualAction :=
  if is_terminal (r_state r) then (fs, r, [])
  else if negb success then
    let (fs, r) := terminal fs r ManualTransferState.Failed (Some (sanitize_remote_error error)) now in
    let r := r |> set_retry_event (Some (offer_response r)) in
    (fs, r, [notify r])
  else if direction_is r Direction.Sending && state_is r ManualTransferState.Transferring
          && (r_transferred r =? r_size r) && bool_decide (is_Some (r_final_digest r)) then
    let (fs, r) := terminal fs r ManualTransferState.Completed None now in
    let r := r |> set_final_result (Some (true, None)) in
    let r := r |> set_retry_event (Some (offer_response r)) in
    (fs, r, [notify r])
  else (fs, r, []).

Definition receive_cancel (fs : FS) (r : TransferRecord) (now : Z)
    : FS * TransferRecord * list ManualAction :=
  if is_terminal (r_state r) then (fs, r, [])
  else
    let (fs, r) := terminal fs r ManualTransferState.Cancelled None now in
    (fs, r, [notify r]).

(** ** Messages *)

(** The transfer a message is about. *)
Definition event_transfer_id (event : ProtoEvent) : option Z :=
  match event with
  | ProtoEvent.ManualFileDecision id _ | ProtoEvent.ManualFileRequest id _ _
  | ProtoEvent.ManualFileChunk id _ _ | ProtoEvent.ManualFileComplete id _
  | ProtoEvent.ManualFileResult id _ _ | ProtoEvent.ManualFileCancel id => Some id
  | _ => None
  end.

(** The answer to a message about a transfer that is not known. *)
Definition unknown_transfer (peer : P) (id : Z) (event : ProtoEvent) : list ManualAction :=
  match event with
  | ProtoEvent.ManualFileRequest _ _ _ | ProtoEvent.ManualFileChunk _ _ _
  | ProtoEvent.ManualFileComplete _ _ => [peer_failure peer id REMOTE_NOT_ACCEPTED_ERROR]
  | ProtoEvent.ManualFileDecision _ ManualDecision.Accepted =>
      [Send peer (ProtoEvent.ManualFileCancel id)]
  | _ => []
  end.

(** The [match] of [handle_protocol] on a record that is known. *)
Definition record_event (fs : FS) (r : TransferRecord) (event : ProtoEvent) (now : Z)
    : FS * TransferRecord * list ManualAction :=
  match event with
  | ProtoEvent.ManualFileDecision _ d => decision fs r d now
  | ProtoEvent.ManualFileRequest _ offset length => send_chunk fs r offset length now
  | ProtoEvent.ManualFileChunk _ offset data => write_chunk fs r offset data now
  | ProtoEvent.ManualFileComplete _ sha256 => complete_receiver fs r sha256 now
  | ProtoEvent.ManualFileResult _ success error => receive_result fs r success error now
  | ProtoEvent.ManualFileCancel _ => receive_cancel fs r now
  | _ => (fs, r, [])
  end.

Definition handle_protocol (fs : FS) (m : ManualTransfers) (peer : P) (fingerprint : rstring)
    (event : ProtoEvent) (settings : FileReceiveSettings) (now : Z)
    : FS * ManualTransfers * list ManualAction :=
  match event with
  | ProtoEvent.ManualFileOffer id name size =>
      receive_offer fs m peer fingerprint id name size settings now
  | _ =>
      match event_transfer_id event with
      | None => (fs, m, [])
      | Some id =>
          let key := (fingerprint, id) in
          match m_records m !! key with
          | None => (fs, m, unknown_transfer peer id event)
          | Some r =>
              let '(fs, r, actions) := record_event fs (r |> set_peer peer) event now in
              (fs, store (take_record m key) r, actions)
          end
      end
  end.

(** ** Requests of the user *)

Definition accept (fs : FS) (m : ManualTransfers) (fingerprint : rstring) (id : Z)
    (directory : Path) (now : Z) : FS * ManualTransfers * list ManualAction :=
  let key := (fingerprint, id) in
  match m_records m !! key with
  | None => (fs, m, [])
  | Some r =>
      let '(fs, r, actions) := prepare_receiver fs r directory now false in
      (fs, store (take_record m key) r, actions)
  end.

(** The destination shown for a file that will replace another one. *)
Definition redirect_status (directory : Path) (action : ManualAction) : ManualAction :=
  match action with
  | Notify (Status s) =>
      Notify (Status {| st_fingerprint := st_fingerprint s; st_id := st_id s; st_name := st_name s;
                        st_size := st_size s; st_transferred := st_transferred s;
                        st_direction := st_direction s; st_state := st_state s;
                        st_destination := Some directory; st_error := st_error s |})
  | _ => action
  end.

Definition overwrite_staged (fs : FS) (r : TransferRecord) (directory : Path) (now : Z)
    : FS * TransferRecord * list ManualAction :=
  let target := path_join directory (r_name r) in
  let (fs, staging) :=
    if is_absolute directory then tempdir_in fs directory
    else (fs, Err (str "destination must be an absolute directory")) in
  match staging with
  | Ok staging =>
      let '(fs, r, actions) := prepare_receiver fs r (tempdir_path staging) now false in
      if state_is r ManualTransferState.Transferring then
        (fs, r |> set_destination (Some directory) |> set_replacement (Some (staging, target)),
         redirect_status directory <$> actions)
      else (drop_tempdir fs staging, r, actions)
  | Err error =>
      let r := r |> set_error (Some error) in
      (fs, r, [notify r])
  end.

Definition overwrite (fs : FS) (m : ManualTransfers) (fingerprint : rstring) (id : Z)
    (directory : Path) (now : Z) : FS * ManualTransfers * list ManualAction :=
  let key := (fingerprint, id) in
  match m_records m !! key with
  | None => (fs, m, [])
  | Some r =>
      let m := take_record m key in
      if negb (direction_is r Direction.Receiving)
         || negb (state_is r ManualTransferState.AwaitingAcceptance)
      then (fs, store m r, [])
      else
        let '(fs, r, actions) := overwrite_staged fs r directory now in
        (fs, store m r, actions)
  end.

Definition decline (fs : FS) (m : ManualTransfers) (fingerprint : rstring) (id now : Z)
    : FS * ManualTransfers * list ManualAction :=
  let key := (fingerprint, id) in
  match m_records m !! key with
  | None => (fs, m, [])
  | Some r =>
      let m := take_record m key in
      if direction_is r Direction.Receiving && state_is r ManualTransferState.AwaitingAcceptance then
        let (fs, r) := terminal fs r ManualTransferState.Declined None now in
        (fs, store m r,
         [send r (ProtoEvent.ManualFileDecision id ManualDecision.Declined); notify r])
      else (fs, store m r, [])
  end.

Definition cancel (fs : FS) (m : ManualTransfers) (fingerprint : rstring) (id now : Z)
    : FS * ManualTransfers * list ManualAction :=
  let key := (fingerprint, id) in
  match m_records m !! key with
  | None => (fs, m, [])
  | Some r =>
      let m := take_record m key in
      if negb (is_terminal (r_state r)) then
        let (fs, r) := terminal fs r ManualTransferState.Cancelled None now in
        (fs, store m r, [send r (ProtoEvent.ManualFileCancel id); notify r])
      else (fs, store m r, [])
  end.

(** ** Time and routes *)

Definition retry (r : TransferRecord) (now : Z) : TransferRecord * list ManualAction :=
  let r := r |> set_retries (r_retries r + 1) |> set_last_activity now in
  (r, match r_retry_event r with Some event => [send r event] | None => [] end).

(** A record given up by [tick]. *)
Definition abandon (fs : FS) (r : TransferRecord) (message : rstring) (now : Z)
    : FS * TransferRecord * list ManualAction :=
  let cancelled := send r (ProtoEvent.ManualFileCancel (r_id r)) in
  let (fs, r) := terminal fs r ManualTransferState.Failed (Some message) now in
  (fs, r, [cancelled; notify r]).

Definition tick_record (fs : FS) (r : TransferRecord) (now : Z)
    : FS * TransferRecord * list ManualAction :=
  let due := RETRY_TIMEOUT <=? saturating_sub now (r_last_activity r) in
  if is_terminal (r_state r) then
    if (r_retries r <? MAX_RETRIES) && due
    then let (r, actions) := retry r now in (fs, r, actions) else (fs, r, [])
  else if (state_is r ManualTransferState.Offering || state_is r ManualTransferState.AwaitingAcceptance)
          && (r_approval_deadline r <=? now)
  then abandon fs r (str "file offer expired") now
  else if negb (state_is r ManualTransferState.AwaitingAcceptance) && due then
    if MAX_RETRIES <=? r_retries r then abandon fs r (str "file transfer timed out") now
    else let (r, actions) := retry r now in (fs, r, actions)
  else (fs, r, []).

(** The loop of [tick] and [refresh_routes] over the keys, in the order the
    map gave them; a key evicted on the way is skipped. *)
Fixpoint for_records (step : FS -> TransferRecord -> FS * TransferRecord * list ManualAction)
    (fs : FS) (m : ManualTransfers) (keys : list (rstring * Z))
    : FS * ManualTransfers * list ManualAction :=
  match keys with
  | [] => (fs, m, [])
  | key :: keys =>
      match m_records m !! key with
      | None => for_records step fs m keys
      | Some r =>
          let '(fs, r, actions) := step fs r in
          let '(fs, m, more) := for_records step fs (store (take_record m key) r) keys in
          (fs, m, actions ++ more)
      end
  end.

Definition keys (m : ManualTransfers) : list (rstring * Z) := (map_to_list (m_records m)).*1.

Definition tick (fs : FS) (m : ManualTransfers) (now : Z) : FS * ManualTransfers * list ManualAction :=
  for_records (fun fs r => tick_record fs r now) fs m (keys m).

Definition route_record (routes : gmap rstring P) (fs : FS) (r : TransferRecord) (now : Z)
    : FS * TransferRecord * list ManualAction :=
  match routes !! r_fingerprint r with
  | Some peer => (fs, r |> set_peer peer, [])
  | None =>
      if negb (is_terminal (r_state r)) then
        let (fs, r) := terminal fs r ManualTransferState.Failed (Some (str "peer disconnected")) now in
        (fs, r, [notify r])
      else (fs, r, [])
  end.

Definition refresh_routes (fs : FS) (m : ManualTransfers) (routes : gmap rstring P) (now : Z)
    : FS * ManualTransfers * list ManualAction :=
  for_records (fun fs r => route_record routes fs r now) fs m (keys m).

(** ** Views *)

Definition deadline_le (a b : TransferRecord) : Prop := r_approval_deadline a <= r_approval_deadline b.
#[global] Instance deadline_le_dec : RelDecision deadline_le.
Proof. intros a b. unfold deadline_le. apply _. Defined.

Definition snapshot (m : ManualTransfers) : list ManualTransferStatus :=
  status <$> merge_sort deadline_le (map_to_list (m_records m)).*2.

Definition pending_offers (m : ManualTransfers) : list IncomingFileOffer :=
  offer_snapshot <$> merge_sort deadline_le
    (filter (fun r => direction_is r Direction.Receiving
                      && state_is r ManualTransferState.AwaitingAcceptance = true)
       (map_to_list (m_records m)).*2).
End manual_transfer.

Arguments TransferRecord FS {_} P.
Arguments ManualTransfers FS {_} P.
Arguments ManualAction FS {_} P.
