(* ===== verification/ManualTransferTheorems.v ===== *)
(** * Manual file transfers: records

    What the file operations promise ([FilesModel]), the invariant of a
    transfer record and that every operation on a record keeps it and never
    leaves a terminal state. *)

From S2P Require Import Prelude ProtoTypes ProtoValid FileOs ManualTransfer.

(** ** What the state machine relies on of files

    [taken] is what was read from an opened source so far, [expected] the size it
    was offered with, [received] what was written to an incoming file.  Nothing is
    said about the content of a source: it may be another one at every read.  The
    predicates are the invariants of the three objects. *)
Class FilesModel (FS : Type) `{!TransferFiles FS} := {
  sha256 : bytes -> bytes;
  taken : OutgoingFile -> bytes;
  expected : OutgoingFile -> Z;
  received : IncomingTransfer -> bytes;
  sound_offer : FileOffer -> Prop;
  sound_source : OutgoingFile -> Prop;
  sound_incoming : IncomingTransfer -> Prop;
  from_regular_file_ok fs id path offer :
    from_regular_file fs id path = Ok (Ok offer) ->
    sound_offer offer /\ validate_manual_file_name (fst (offer_entry offer)) = Ok tt
    /\ 0 <= snd (offer_entry offer);
  open_offer_ok fs offer s :
    sound_offer offer -> open_offer fs offer = Ok s ->
    sound_source s /\ taken s = [] /\ expected s = snd (offer_entry offer);
  next_chunk_ok fs s n s' offset data :
    sound_source s -> next_chunk_bounded fs s n = (s', Ok (Some (offset, data))) ->
    sound_source s' /\ offset = len (taken s) /\ taken s' = taken s ++ data
    /\ expected s' = expected s /\ len (taken s') <= expected s;
  finalize_digest_ok fs s digest :
    sound_source s -> finalize_digest fs s = Ok digest ->
    digest = sha256 (taken s) /\ len (taken s) = expected s;
  prepare_incoming_ok fs fs' id name size directory i :
    prepare_incoming fs id name size directory = (fs', Ok i) -> sound_incoming i /\ received i = [];
  incoming_write_ok fs fs' i i' offset data :
    sound_incoming i -> incoming_write fs i offset data = (fs', i', Ok tt) ->
    sound_incoming i' /\ received i' = received i ++ data;
  incoming_finish_ok fs fs' i i' size digest :
    sound_incoming i -> incoming_finish fs i size digest = (fs', i', Ok tt) ->
    len (received i) = size /\ sha256 (received i) = digest;
}.

Section records.
Context {FS : Type} `{!TransferFiles FS} `{!FilesModel FS} {P : Type}.
Implicit Types r : TransferRecord FS P.

(** ** The invariant of a record *)

Record wf_record r : Prop := {
  wr_bounds : 0 <= r_transferred r <= r_size r;
  wr_retries : 0 <= r_retries r <= MAX_RETRIES;
  wr_sender : r_direction r = Direction.Sending -> r_incoming r = None;
  wr_receiver : r_direction r = Direction.Receiving ->
    r_outgoing r = None /\ r_offer r = None /\ r_state r <> ManualTransferState.Offering;
  wr_incoming : r_direction r = Direction.Receiving ->
    (r_state r = ManualTransferState.Transferring <-> is_Some (r_incoming r));
  wr_waiting : r_direction r = Direction.Receiving ->
    r_state r = ManualTransferState.AwaitingAcceptance -> r_transferred r = 0;
  wr_received i : r_incoming r = Some i -> sound_incoming i /\ len (received i) = r_transferred r;
  wr_source s : r_outgoing r = Some s ->
    sound_source s /\ len (taken s) = r_transferred r /\ expected s = r_size r;
  wr_offer o : r_offer r = Some o -> sound_offer o /\ snd (offer_entry o) = r_size r;
  wr_fresh : r_outgoing r = None -> r_direction r = Direction.Sending ->
    is_terminal (r_state r) = false -> r_transferred r = 0;
  wr_terminal : is_terminal (r_state r) = true ->
    r_outgoing r = None /\ r_offer r = None /\ r_incoming r = None;
  wr_replacement : r_replacement r = None \/ is_Some (r_incoming r);
}.

(** What never changes in a record. *)
Definition same_transfer r r' : Prop :=
  r_fingerprint r' = r_fingerprint r /\ r_id r' = r_id r /\ r_name r' = r_name r
  /\ r_size r' = r_size r /\ r_direction r' = r_direction r
  /\ r_approval_deadline r' = r_approval_deadline r.

(** One operation on a record. *)
Record evolves r r' : Prop := {
  ev_same : same_transfer r r';
  ev_wf : wf_record r';
  ev_absorbing : is_terminal (r_state r) = true -> r_state r' = r_state r;
  ev_monotone : r_transferred r <= r_transferred r';
}.

Lemma same_refl r : same_transfer r r.
Proof. by unfold same_transfer. Qed.

Lemma evolves_refl r : wf_record r -> evolves r r.
Proof. intros H. split; [apply same_refl | done | done | lia]. Qed.

(** An operation that touches neither the state nor the files. *)
Record touches_only r r' : Prop := {
  to_same : same_transfer r r';
  to_state : r_state r' = r_state r;
  to_transferred : r_transferred r' = r_transferred r;
  to_retries : 0 <= r_retries r' <= MAX_RETRIES;
  to_outgoing : r_outgoing r' = r_outgoing r;
  to_offer : r_offer r' = r_offer r;
  to_incoming : r_incoming r' = r_incoming r;
  to_replacement : r_replacement r' = r_replacement r;
}.

Lemma touches_evolves r r' : wf_record r -> touches_only r r' -> evolves r r'.
Proof.
  intros W [S Est Etr Hre Eou Eof Ein Erep]. pose proof S as (_ & _ & _ & Esz & Edir & _).
  split; [done | | done | lia]. destruct W.
  split; rewrite ?Est, ?Etr, ?Eou, ?Eof, ?Ein, ?Erep, ?Esz, ?Edir; done.
Qed.

(** The record [r1] that a failing operation on [r] leaves: the files may be in
    any state. *)
Definition advanced r r1 : Prop :=
  same_transfer r r1 /\ r_transferred r <= r_transferred r1 <= r_size r.

Lemma advanced_refl r : wf_record r -> advanced r r.
Proof. intros [Hb]. split; [apply same_refl | lia]. Qed.

(** Reaching a terminal state releases every file. *)
Lemma terminal_evolves fs r r1 state error now :
  wf_record r -> is_terminal (r_state r) = false -> is_terminal state = true -> advanced r r1 ->
  let r' := snd (terminal fs r1 state error now) in
  evolves r r' /\ r_state r' = state /\ r_retries r' = 0 /\ r_peer r' = r_peer r1
  /\ r_transferred r' = r_transferred r1 /\ r_final_result r' = r_final_result r1.
Proof.
  intros W Hr Hs [S Ht] r'. split; [|done]. destruct W.
  pose proof S as (_ & _ & _ & Esz & Edir & _).
  split; [exact S | | by rewrite Hr | cbn; lia].
  split; cbn; try done; try (by left).
  - rewrite Esz. lia.
  - intros _. split_and!; [done..|]. by destruct state.
  - intros _. split; [|by intros []]. intros ->. discriminate.
  - intros _ ->. discriminate.
  - intros _ _. rewrite Hs. discriminate.
Qed.

(** Recording what to answer changes nothing else. *)
Lemma annotated_evolves r r' result event :
  evolves r r' -> evolves r (r' |> set_final_result result |> set_retry_event event).
Proof. intros [S W A M]. split; [exact S | | exact A | exact M]. destruct W. split; assumption. Qed.

Lemma answered_evolves r r' event : evolves r r' -> evolves r (r' |> set_retry_event event).
Proof. intros [S W A M]. split; [exact S | | exact A | exact M]. destruct W. split; assumption. Qed.

Lemma fail_evolves fs r r1 error now :
  wf_record r -> is_terminal (r_state r) = false -> advanced r r1 ->
  let '(_, r', _) := fail fs r1 error now in
  evolves r r' /\ r_state r' = ManualTransferState.Failed.
Proof.
  intros W Hr Ha. unfold fail.
  destruct (terminal_evolves fs r r1 ManualTransferState.Failed (Some error) now W Hr eq_refl Ha)
    as (E & Hst & _).
  destruct (terminal fs r1 _ _ now) as [fs' r']. cbn [snd] in *.
  split; [by apply answered_evolves | exact Hst].
Qed.

(** An outcome of an operation, as a predicate on its last record. *)
Definition outcome_evolves r (o : FS * TransferRecord FS P * list (ManualAction FS P)) : Prop :=
  evolves r (snd (fst o)).

Lemma fail_outcome fs r r1 error now :
  wf_record r -> is_terminal (r_state r) = false -> advanced r r1 ->
  outcome_evolves r (fail fs r1 error now).
Proof.
  intros W Hr Ha. pose proof (fail_evolves fs r r1 error now W Hr Ha) as Hf.
  destruct (fail fs r1 error now) as [[fs' r'] actions]. apply Hf.
Qed.

Lemma touch_outcome fs r r' actions :
  wf_record r -> touches_only r r' -> outcome_evolves r (fs, r', actions).
Proof. intros W T. by apply touches_evolves. Qed.

Lemma same_outcome fs r actions : wf_record r -> outcome_evolves r (fs, r, actions).
Proof. intros W. by apply evolves_refl. Qed.

Lemma progress_touches r now : wf_record r -> touches_only r (fst (progress r now)).
Proof.
  intros W. unfold progress. destruct (_ || _); cbn [fst]; split; try done; apply W.
Qed.

Lemma progress_outcome fs r r1 now action :
  evolves r r1 ->
  outcome_evolves r (let (r2, actions) := progress r1 now in (fs, r2, action :: actions)).
Proof.
  intros [S W A M]. pose proof (touches_evolves _ _ W (progress_touches r1 now W)) as [S2 W2 A2 M2].
  destruct (progress r1 now) as [r2 actions]. cbn [fst] in *. unfold outcome_evolves. cbn [fst snd].
  split; [| done | | lia].
  - unfold same_transfer in *. intuition congruence.
  - intros Ht. rewrite A2, A; [done | done |]. by rewrite (A Ht).
Qed.

#[local] Hint Resolve advanced_refl fail_outcome same_outcome touch_outcome : syntra.

(** ** Operations without files *)

Lemma terminal_outcome fs r state error now actions :
  wf_record r -> is_terminal (r_state r) = false -> is_terminal state = true ->
  outcome_evolves r (let (fs, r) := terminal fs r state error now in (fs, r, actions r)).
Proof.
  intros W Hr Hs.
  destruct (terminal_evolves fs r r state error now W Hr Hs (advanced_refl r W)) as (E & _).
  by destruct (terminal fs r state error now).
Qed.

Lemma state_is_spec r state : state_is r state = true <-> r_state r = state.
Proof. apply bool_decide_eq_true. Qed.

Lemma direction_is_spec r direction : direction_is r direction = true <-> r_direction r = direction.
Proof. apply bool_decide_eq_true. Qed.

(** A sender that goes on to [state], its files untouched. *)
Lemma sender_state_evolves r r' state :
  wf_record r -> is_terminal (r_state r) = false -> r_direction r = Direction.Sending ->
  is_terminal state = false ->
  same_transfer r r' -> r_state r' = state -> r_transferred r' = r_transferred r ->
  0 <= r_retries r' <= MAX_RETRIES -> r_outgoing r' = r_outgoing r -> r_offer r' = r_offer r ->
  r_incoming r' = r_incoming r -> r_replacement r' = r_replacement r -> evolves r r'.
Proof.
  intros W Hr Hd Hs S Est Etr Hre Eou Eof Ein Erep. pose proof S as (_ & _ & _ & Esz & Edir & _).
  split; [done | | by rewrite Hr | lia]. destruct W.
  split; rewrite ?Est, ?Etr, ?Eou, ?Eof, ?Ein, ?Erep, ?Esz, ?Edir; try done; try congruence; auto.
Qed.

Lemma decision_outcome fs r d now : wf_record r -> outcome_evolves r (decision fs r d now).
Proof.
  intros W. unfold decision. destruct (is_terminal (r_state r)) eqn:Ht; [by apply same_outcome|].
  destruct (r_direction r) eqn:Hd, d; try (by apply same_outcome).
  - destruct (negb (state_is r _)); [by apply same_outcome|].
    apply (sender_state_evolves _ _ ManualTransferState.AwaitingAcceptance); try done.
  - destruct (_ && negb _); [by apply fail_outcome; try apply advanced_refl|].
    destruct (negb (state_is r _)); [|by apply same_outcome].
    apply (sender_state_evolves _ _ ManualTransferState.Transferring); try done.
  - by apply (terminal_outcome fs r _ None now (fun r => [notify r])).
  - destruct (negb (state_is r _)); [by apply same_outcome|].
    apply touch_outcome; [done|].
    destruct (r_retry_event r) as [[]|]; split; try done; apply W.
Qed.

Lemma receive_cancel_outcome fs r now : wf_record r -> outcome_evolves r (receive_cancel fs r now).
Proof.
  intros W. unfold receive_cancel. destruct (is_terminal (r_state r)) eqn:Ht; [by apply same_outcome|].
  by apply (terminal_outcome fs r _ None now (fun r => [notify r])).
Qed.

Lemma receive_result_outcome fs r success error now :
  wf_record r -> outcome_evolves r (receive_result fs r success error now).
Proof.
  intros W. unfold receive_result.
  destruct (is_terminal (r_state r)) eqn:Ht; [by apply same_outcome|].
  destruct (negb success).
  - destruct (terminal_evolves fs r r ManualTransferState.Failed (Some (sanitize_remote_error error))
      now W Ht eq_refl (advanced_refl r W)) as (E & _).
    destruct (terminal fs r _ _ now) as [fs' r']. by apply answered_evolves.
  - destruct (_ && _); [|by apply same_outcome].
    destruct (terminal_evolves fs r r ManualTransferState.Completed None
      now W Ht eq_refl (advanced_refl r W)) as (E & _).
    destruct (terminal fs r _ _ now) as [fs' r']. by apply annotated_evolves.
Qed.

Lemma retry_outcome fs r now :
  wf_record r -> r_retries r < MAX_RETRIES ->
  outcome_evolves r (let (r, actions) := retry r now in (fs, r, actions)).
Proof.
  intros W Hr. apply touch_outcome; [done|]. pose proof (wr_retries _ W).
  split; try done. cbn. lia.
Qed.

Lemma abandon_outcome fs r message now :
  wf_record r -> is_terminal (r_state r) = false -> outcome_evolves r (abandon fs r message now).
Proof.
  intros W Ht. unfold abandon.
  by apply (terminal_outcome fs r _ (Some message) now
    (fun r' => [send r (ProtoEvent.ManualFileCancel (r_id r)); notify r'])).
Qed.

Lemma tick_record_outcome fs r now : wf_record r -> outcome_evolves r (tick_record fs r now).
Proof.
  intros W. unfold tick_record. destruct (is_terminal (r_state r)) eqn:Ht.
  - destruct (_ && _) eqn:E; [|by apply same_outcome]. boolsplit. apply retry_outcome; [done | lia].
  - destruct (_ && (_ <=? now)); [by apply abandon_outcome|].
    destruct (negb _ && _); [|by apply same_outcome].
    destruct (Z.leb_spec MAX_RETRIES (r_retries r)); [by apply abandon_outcome | by apply retry_outcome].
Qed.

Lemma set_peer_touches r peer : wf_record r -> touches_only r (r |> set_peer peer).
Proof. intros W. split; try done; apply W. Qed.

Lemma route_record_outcome routes fs r now :
  wf_record r -> outcome_evolves r (route_record routes fs r now).
Proof.
  intros W. unfold route_record. destruct (routes !! r_fingerprint r).
  - apply touch_outcome; [done|]. by apply set_peer_touches.
  - destruct (is_terminal (r_state r)) eqn:Ht; cbn [negb]; [by apply same_outcome|].
    by apply (terminal_outcome fs r _ (Some (str "peer disconnected")) now (fun r => [notify r])).
Qed.

(** ** Operations on files *)

(** A sender that has its source open. *)
Lemma ensure_source_evolves fs r r' s :
  wf_record r -> is_terminal (r_state r) = false -> r_direction r = Direction.Sending ->
  ensure_source fs r = Ok (r', s) ->
  evolves r r' /\ r_outgoing r' = Some s /\ r_state r' = r_state r /\ r_transferred r' = r_transferred r
  /\ sound_source s /\ len (taken s) = r_transferred r /\ expected s = r_size r.
Proof.
  intros W Ht Hd H. unfold ensure_source in H. destruct (r_outgoing r) as [s0|] eqn:Ho.
  - injection H as <- <-. destruct (wr_source _ W s0 Ho) as (? & ? & ?). split; [by apply evolves_refl | done].
  - destruct (r_offer r) as [o|] eqn:Hof; [|done]. destruct (open_offer fs o) as [s0|] eqn:E; [|done].
    injection H as <- <-. destruct (wr_offer _ W o Hof) as [So Hsz].
    destruct (open_offer_ok _ _ _ So E) as (Ss & Hp & Hl).
    pose proof (wr_fresh _ W Ho Hd Ht) as H0. rewrite Hsz in Hl.
    assert (len (taken s0) = r_transferred r) as Hlen by by rewrite Hp, H0.
    split; [|split_and!; done]. split; [done | | by rewrite Ht | cbn; lia].
    destruct W. split; cbn; try done.
    + intros Hd'. congruence.
    + intros s' [= <-]. done.
    + intros Ht'. congruence.
Qed.

(** Reading moves the source and the record together. *)
Lemma read_source_evolves fs r s offset length r' read :
  wf_record r -> is_terminal (r_state r) = false -> r_direction r = Direction.Sending ->
  r_outgoing r = Some s -> offset = r_transferred r ->
  read_source fs r s offset length = (r', read) ->
  advanced r r' /\ match read with Ok _ => evolves r r' | Err _ => True end.
Proof.
  intros W Ht Hd Ho -> H. destruct (wr_source _ W s Ho) as (Ss & Hp & Hl). pose proof (wr_bounds _ W) as Hb.
  assert (advanced r r) as Hadv by (by apply advanced_refl).
  unfold read_source in H. destruct (Z.eqb_spec (r_transferred r) (r_size r)).
  - destruct (finalize_digest fs s); injection H as <- <-; [|done].
    split; [exact Hadv|]. apply touches_evolves; [done|]. split; try done. apply W.
  - destruct (next_chunk_bounded fs s length) as [s' chunk] eqn:En.
    destruct chunk as [[[o d]|]|]; [|injection H as <- <-; by split..].
    destruct (_ && _) eqn:E; injection H as <- <-; [|by split]. boolsplit.
    destruct (next_chunk_ok _ _ _ _ _ _ Ss En) as (Ss' & -> & Hp' & Hs' & Hle).
    rewrite Hp', len_app in Hle. pose proof (len_nonneg d).
    split; [split; [done | cbn; lia]|]. split; [done | | by rewrite Ht | cbn; lia].
    destruct W. split; cbn; try done; try congruence.
    + lia.
    + intros i Hi. rewrite (wr_sender0 Hd) in Hi. done.
    + intros s0 [= <-]. rewrite Hs', Hp', len_app. split_and!; [done|lia|lia].
Qed.

Lemma evolves_trans r r1 r2 : evolves r r1 -> evolves r1 r2 -> evolves r r2.
Proof.
  intros [S1 W1 A1 M1] [S2 W2 A2 M2]. split; [| done | | lia].
  - unfold same_transfer in *. intuition congruence.
  - intros Ht. rewrite A2, A1; [done | done |]. by rewrite (A1 Ht).
Qed.

Lemma outcome_trans r r1 o : evolves r r1 -> outcome_evolves r1 o -> outcome_evolves r o.
Proof. apply evolves_trans. Qed.

Lemma send_chunk_outcome fs r offset length now :
  wf_record r -> outcome_evolves r (send_chunk fs r offset length now).
Proof.
  intros W. unfold send_chunk. destruct (is_terminal (r_state r)) eqn:Ht; [by apply same_outcome|].
  destruct (_ || _) eqn:Hg; [by apply same_outcome|]. boolsplit.
  match goal with E : direction_is _ _ = true |- _ => apply direction_is_spec in E; rename E into Hd end.
  assert (advanced r r) as Hadv by (by apply advanced_refl).
  destruct ((_ =? 0) || _ || _); [by apply fail_outcome|].
  destruct (if bool_decide _ then r_cached_response r else None) as [response|].
  { apply touch_outcome; [done|]. by split. }
  destruct (offset <? r_transferred r); [by apply same_outcome|].
  destruct (Z.eqb_spec offset (r_transferred r)) as [E|]; cbn [negb]; [|by apply fail_outcome].
  destruct (ensure_source fs r) as [[r1 s]|error] eqn:Es; [|by apply fail_outcome].
  destruct (ensure_source_evolves fs r r1 s W Ht Hd Es) as (E1 & Ho1 & Hst1 & Htr1 & _).
  destruct (read_source fs r1 s offset length) as [r2 read] eqn:Er.
  destruct (read_source_evolves fs r1 s offset length r2 read) as [Hadv2 Hread]; try done.
  { apply E1. } { by rewrite Hst1. }
  { destruct (ev_same _ _ E1) as (_ & _ & _ & _ & -> & _). done. } { congruence. }
  destruct read as [response|error]; apply (outcome_trans r r1 _ E1).
  - apply progress_outcome. apply (evolves_trans _ r2); [done|]. pose proof (ev_wf _ _ Hread) as W2.
    apply touches_evolves; [done|]. by split.
  - apply fail_outcome; [apply E1 | by rewrite Hst1 | done].
Qed.

Lemma finish_receiver_outcome fs r r1 i digest now :
  wf_record r -> is_terminal (r_state r) = false -> advanced r r1 ->
  outcome_evolves r (finish_receiver fs r1 i digest now).
Proof.
  intros W Ht Hadv. unfold finish_receiver.
  destruct (incoming_finish fs i (r_size r1) digest) as [[fs1 i'] result].
  assert (advanced r (r1 |> set_incoming (Some i'))) as Ha by exact Hadv.
  destruct result as [u|error]; [|by apply fail_outcome].
  destruct (match r_replacement _ with Some _ => _ | None => _ end) as [fs2 renamed].
  destruct renamed as [u2|error]; [|by apply fail_outcome].
  destruct (terminal_evolves fs2 r _ ManualTransferState.Completed None now W Ht eq_refl Ha) as (E & _).
  destruct (terminal fs2 _ _ _ now) as [fs3 r3]. by apply annotated_evolves.
Qed.

(** The receiver whose file is being written. *)
Lemma receiving_incoming r i :
  wf_record r ->
  (if state_is r ManualTransferState.Transferring then r_incoming r else None) = Some i ->
  r_state r = ManualTransferState.Transferring /\ r_incoming r = Some i
  /\ sound_incoming i /\ len (received i) = r_transferred r.
Proof.
  intros W H. destruct (state_is r _) eqn:E; [|done]. apply state_is_spec in E.
  split; [done|]. split; [done|]. by apply (wr_received _ W).
Qed.

(** The record after [data] was written to the file. *)
Lemma written_evolves r i i' fs fs' offset data now :
  wf_record r -> r_direction r = Direction.Receiving ->
  r_state r = ManualTransferState.Transferring -> r_incoming r = Some i ->
  incoming_write fs i offset data = (fs', i', Ok tt) ->
  r_transferred r + len data <= r_size r ->
  evolves r (r |> set_incoming (Some i') |> set_transferred (r_transferred r + len data)
               |> set_last_activity now |> set_retries 0).
Proof.
  intros W Hd Hs Hi Hw Hle. destruct (wr_received _ W i Hi) as [Si Hli].
  destruct (incoming_write_ok _ _ _ _ _ _ Si Hw) as [Si' Hr].
  pose proof (len_nonneg data). pose proof (wr_bounds _ W).
  split; [done | | by rewrite Hs | cbn; lia].
  destruct W. split; cbn; try done; try congruence.
  - lia.
  - intros i0 [= <-]. rewrite Hr, len_app. split; [done|lia].
  - intros s Hs'. destruct (wr_receiver0 Hd) as [E _]. congruence.
  - rewrite Hs. done.
  - right. by eexists.
Qed.

Lemma write_chunk_outcome fs r offset data now :
  wf_record r -> outcome_evolves r (write_chunk fs r offset data now).
Proof.
  intros W. unfold write_chunk. destruct (direction_is r _) eqn:Hd; cbn [negb]; [|by apply same_outcome].
  apply direction_is_spec in Hd.
  destruct (is_terminal (r_state r)) eqn:Ht; [by apply same_outcome|].
  assert (advanced r r) as Hadv by (by apply advanced_refl).
  destruct (if state_is r _ then r_incoming r else None) as [i|] eqn:Hi; [|by apply same_outcome].
  destruct (receiving_incoming r i W Hi) as (Hst & Hin & _).
  destruct (checked_add offset (len data)) as [end_|] eqn:Hadd; [|by apply fail_outcome].
  apply checked_add_Some in Hadd as [-> _].
  destruct ((_ =? 0) || _ || _) eqn:Hg; [by apply fail_outcome|]. boolsplit.
  destruct (Z.eqb_spec offset (r_transferred r)) as [->|]; cbn [negb].
  2: { destruct (_ && _); [by apply fail_outcome | by apply same_outcome]. }
  destruct (incoming_write fs i _ data) as [[fs1 i'] write] eqn:Hw.
  destruct write as [[]|error]; [|by apply fail_outcome].
  pose proof (written_evolves r i i' fs fs1 _ data now W Hd Hst Hin Hw ltac:(lia)) as Hev.
  destruct (if _ =? _ then _ else None) as [digest|].
  - apply finish_receiver_outcome; [done | done |]. split; [exact (ev_same _ _ Hev)|].
    pose proof (wr_bounds _ (ev_wf _ _ Hev)) as Hb. pose proof (ev_monotone _ _ Hev) as Hm.
    split; [exact Hm | apply Hb].
  - apply progress_outcome. by apply answered_evolves.
Qed.

Lemma complete_receiver_outcome fs r digest now :
  wf_record r -> outcome_evolves r (complete_receiver fs r digest now).
Proof.
  intros W. unfold complete_receiver.
  destruct (negb (direction_is r _)); [by apply same_outcome|].
  destruct (is_terminal (r_state r)) eqn:Ht; [by apply same_outcome|].
  assert (advanced r r) as Hadv by (by apply advanced_refl).
  destruct (if state_is r _ then r_incoming r else None) as [i|]; [|by apply same_outcome].
  destruct (negb _); [|by apply finish_receiver_outcome].
  destruct (match r_early_digest r with Some _ => _ | None => false end); [by apply fail_outcome|].
  apply touch_outcome; [done|]. split; try done. apply W.
Qed.

Lemma accepted_evolves r r' i :
  wf_record r -> r_direction r = Direction.Receiving ->
  r_state r = ManualTransferState.AwaitingAcceptance -> r_transferred r = 0 -> sound_incoming i /\ received i = [] ->
  same_transfer r r' -> r_state r' = ManualTransferState.Transferring ->
  r_transferred r' = r_transferred r -> r_retries r' = 0 -> r_outgoing r' = r_outgoing r ->
  r_offer r' = r_offer r -> r_incoming r' = Some i -> evolves r r'.
Proof.
  intros W Hd Hs H0 [Si Hi] S Est Etr Hre Eou Eof Ein. pose proof S as (_ & _ & _ & Esz & Edir & _).
  split; [done | | by rewrite Hs | lia]. destruct W.
  split; rewrite ?Est, ?Etr, ?Eou, ?Eof, ?Ein, ?Esz, ?Edir, ?Hre; try done; try congruence.
  all: first [ intros i' [= <-]; rewrite Hi, len_nil; by split | right; by eexists
             | intros _; split; [by eexists | done]
             | intros Hd'; destruct (wr_receiver0 Hd') as (-> & -> & _); done ].
Qed.

Lemma prepare_receiver_outcome fs r directory now automatic :
  wf_record r -> outcome_evolves r (prepare_receiver fs r directory now automatic).
Proof.
  intros W. unfold prepare_receiver. destruct (_ || _) eqn:Hg; [by apply same_outcome|]. boolsplit.
  match goal with E : direction_is _ _ = true |- _ => apply direction_is_spec in E; rename E into Hd end.
  match goal with E : state_is _ _ = true |- _ => apply state_is_spec in E; rename E into Hs end.
  assert (is_terminal (r_state r) = false) as Ht by (by rewrite Hs).
  destruct (r_approval_deadline r <=? now); [by apply fail_outcome; try apply advanced_refl|].
  destruct (prepare_directory fs r directory) as [fs1 preparation] eqn:Hp.
  destruct preparation as [i|error].
  - assert (sound_incoming i /\ received i = []) as Hi.
    { unfold prepare_directory in Hp. destruct (is_absolute directory); [|done].
      by eapply prepare_incoming_ok. }
    apply (accepted_evolves r _ i); try done. by apply (wr_waiting _ W).
  - destruct (_ && _ && _).
    + apply touch_outcome; [done|]. split; try done. apply W.
    + destruct automatic.
      * destruct (terminal_evolves fs1 r r ManualTransferState.Failed (Some (local_receive_error error))
          now W Ht eq_refl (advanced_refl r W)) as (E & _).
        destruct (terminal fs1 r _ _ now) as [fs2 r2]. by apply annotated_evolves.
      * apply touch_outcome; [done|]. split; try done. apply W.
Qed.

Lemma overwrite_staged_outcome fs r directory now :
  wf_record r -> r_direction r = Direction.Receiving ->
  outcome_evolves r (overwrite_staged fs r directory now).
Proof.
  intros W Hd. unfold overwrite_staged.
  destruct (if is_absolute directory then _ else _) as [fs1 [staging|error]].
  - pose proof (prepare_receiver_outcome fs1 r (tempdir_path staging) now false W) as Ho.
    destruct (prepare_receiver fs1 r _ now false) as [[fs2 r2] actions].
    unfold outcome_evolves in *. cbn [fst snd] in *.
    destruct (state_is r2 _) eqn:Hs; [|done]. apply state_is_spec in Hs.
    destruct Ho as [S W2 A M]. split; [exact S | | exact A | exact M].
    destruct S as (_ & _ & _ & _ & Edir & _). rewrite Hd in Edir.
    destruct W2. split; try assumption. right. by apply wr_incoming0.
  - apply touch_outcome; [done|]. split; try done. apply W.
Qed.

Lemma record_event_outcome fs r event now : wf_record r -> outcome_evolves r (record_event fs r event now).
Proof.
  intros W. destruct event; cbn [record_event]; try (by apply same_outcome).
  - by apply decision_outcome.
  - by apply send_chunk_outcome.
  - by apply write_chunk_outcome.
  - by apply complete_receiver_outcome.
  - by apply receive_result_outcome.
  - by apply receive_cancel_outcome.
Qed.

(** ** The invariant of all transfers *)

Implicit Types m : ManualTransfers FS P.

Record wf_transfers m : Prop := {
  wt_records k r : m_records m !! k = Some r -> record_key r = k /\ wf_record r;
  wt_nodup : NoDup (m_terminal m);
  wt_terminal k : k ∈ m_terminal m <->
    exists r, m_records m !! k = Some r /\ is_terminal (r_state r) = true;
  wt_few : len (m_terminal m) <= MAX_TERMINAL;
  wt_active : active_count m <= MAX_RECORDS;
}.

Lemma new_transfers_wf : wf_transfers new_transfers.
Proof.
  split; cbn; try done.
  - apply NoDup_nil_2.
  - intros k. split; [by intros ?%not_elem_of_nil | by intros (r & Hr & _)].
Qed.

(** Forgetting the oldest terminal record. *)
Lemma evict_wf m :
  (forall k r, m_records m !! k = Some r -> record_key r = k /\ wf_record r) ->
  NoDup (m_terminal m) ->
  (forall k, k ∈ m_terminal m <-> exists r, m_records m !! k = Some r /\ is_terminal (r_state r) = true) ->
  len (m_terminal m) <= MAX_TERMINAL + 1 -> active_count m <= MAX_RECORDS ->
  wf_transfers (evict (length (m_terminal m)) m).
Proof.
  intros Hr Hnd Ht Hl Ha. destruct (Z.ltb_spec MAX_TERMINAL (len (m_terminal m))) as [Hlong|Hshort].
  - destruct m as [recs term]. cbn [m_terminal m_records] in *.
    destruct term as [|oldest rest]; [unfold len in Hlong; cbn in Hlong; unfold MAX_TERMINAL in Hlong; lia|].
    cbn [evict length m_terminal m_records].
    destruct (Z.ltb_spec MAX_TERMINAL (len (oldest :: rest))); [|lia]. rewrite len_cons in *.
    apply NoDup_cons in Hnd as [Hnin Hnd].
    assert (evict (length rest) {| m_records := delete oldest recs; m_terminal := rest |}
            = {| m_records := delete oldest recs; m_terminal := rest |}) as ->.
    { destruct (length rest); [done|]. cbn [evict m_terminal].
      destruct (Z.ltb_spec MAX_TERMINAL (len rest)); [lia | done]. }
    split; cbn [m_records m_terminal]; [| done | | lia |].
    + intros k r Hk. apply lookup_delete_Some in Hk as [_ Hk]. by apply Hr.
    + intros k. specialize (Ht k). rewrite elem_of_cons in Ht. split.
      * intros Hk. destruct (proj1 Ht (or_intror Hk)) as (r & Hk' & Hterm). exists r.
        split; [|done]. rewrite lookup_delete_ne; [done|]. intros ->. done.
      * intros (r & Hk & Hterm). apply lookup_delete_Some in Hk as [Hne Hk].
        destruct (proj2 Ht) as [->|]; [by exists r | done | done].
    + unfold active_count in *. cbn [m_records] in *.
      rewrite map_filter_delete. pose proof (map_size_delete oldest
        (filter (fun '(_, r) => is_active r = true) recs)) as Hd.
      destruct (_ !! oldest); cbn in Hd; lia.
  - destruct (length (m_terminal m)); cbn [evict].
    + split; try done.
    + destruct (Z.ltb_spec MAX_TERMINAL (len (m_terminal m))); [lia|]. by split.
Qed.

(** Storing a record under a key that is vacant in the map. *)
Lemma store_wf m r :
  (forall k r, m_records m !! k = Some r -> record_key r = k /\ wf_record r) ->
  NoDup (m_terminal m) -> len (m_terminal m) <= MAX_TERMINAL ->
  (forall k, k <> record_key r -> k ∈ m_terminal m <->
    exists r, m_records m !! k = Some r /\ is_terminal (r_state r) = true) ->
  (record_key r ∈ m_terminal m -> is_terminal (r_state r) = true) ->
  wf_record r -> m_records m !! record_key r = None ->
  active_count m + (if is_active r then 1 else 0) <= MAX_RECORDS ->
  wf_transfers (store m r).
Proof.
  intros Hr Hnd Hl Ht Hkey Hwf Hnone Ha. unfold store.
  match goal with |- context [if is_terminal (r_state r) && ?b then _ else _] =>
    set (term := if is_terminal (r_state r) && b then _ else _) end.
  assert (forall k, k ∈ term <-> k ∈ m_terminal m \/ (k = record_key r /\ is_terminal (r_state r) = true)) as Hin.
  { intros k. unfold term. destruct (is_terminal (r_state r)) eqn:E; cbn [andb]; [|intuition congruence].
    case_bool_decide as Hb; cbn [negb]; [intuition congruence|].
    rewrite elem_of_app, list_elem_of_singleton. intuition congruence. }
  apply (evict_wf {| m_records := <[record_key r := r]> (m_records m); m_terminal := term |});
    cbn [m_records m_terminal].
  - intros k r' Hk. apply lookup_insert_Some in Hk as [[<- <-]|[_ Hk]]; [done | by apply Hr].
  - unfold term. destruct (_ && _) eqn:E; [|done]. boolsplit.
    apply NoDup_app. split_and!; [done | | apply NoDup_singleton].
    intros k Hk ->%list_elem_of_singleton. by case_bool_decide.
  - intros k. rewrite Hin. destruct (decide (k = record_key r)) as [->|Hne].
    + rewrite lookup_insert_eq. split.
      * intros Hk. exists r. split; [done|]. destruct Hk as [Hk|[_ Hk]]; [by apply Hkey | done].
      * intros (r' & [= <-] & Hterm). by right.
    + rewrite lookup_insert_ne by done. rewrite <- (Ht k Hne).
      split; [intros [?|[? _]]; [done | congruence] | auto].
  - unfold term. destruct (_ && _); [|lia]. rewrite len_app, len_cons, len_nil. lia.
  - unfold active_count in *. cbn [m_records]. destruct (is_active r) eqn:E.
    + rewrite map_filter_insert_True by done. rewrite map_size_insert_None; [lia|].
      apply map_lookup_filter_None_2. by left.
    + rewrite map_filter_insert_False by congruence. rewrite delete_id by done. lia.
Qed.

Lemma same_key r r' : same_transfer r r' -> record_key r' = record_key r.
Proof. intros (E1 & E2 & _). unfold record_key. congruence. Qed.

Lemma active_take m k r :
  m_records m !! k = Some r ->
  active_count (take_record m k) + (if is_active r then 1 else 0) = active_count m.
Proof.
  intros Hk. unfold active_count, take_record. cbn [m_records]. rewrite map_filter_delete.
  set (f := filter (fun '(_, r) => is_active r = true) (m_records m)).
  destruct (is_active r) eqn:E.
  - assert (f !! k = Some r) as Hf by (by apply map_lookup_filter_Some_2).
    rewrite map_size_delete_Some by eauto.
    assert (size f <> O) by (intros E0%map_size_empty_inv; by rewrite E0, lookup_empty in Hf). lia.
  - assert (f !! k = None) as Hf.
    { apply map_lookup_filter_None_2. right. intros r' Hr'. simplify_eq. congruence. }
    rewrite map_size_delete_None by done. lia.
Qed.

(** A record taken out, worked on and stored again. *)
Lemma restore_wf m k r r' :
  wf_transfers m -> m_records m !! k = Some r -> evolves r r' ->
  wf_transfers (store (take_record m k) r').
Proof.
  intros W Hk [S Wr A _]. destruct (wt_records _ W k r Hk) as [Hkey _].
  pose proof (same_key r r' S) as Hkey'. rewrite Hkey in Hkey'.
  assert (forall q, q ∈ m_terminal m <->
    exists r0, m_records m !! q = Some r0 /\ is_terminal (r_state r0) = true) as Ht by apply W.
  apply store_wf; cbn [take_record m_records m_terminal]; try apply W.
  - intros q r0 Hq. apply lookup_delete_Some in Hq as [_ Hq]. by apply W.
  - intros q Hne. rewrite Hkey' in Hne. rewrite lookup_delete_ne by done. apply Ht.
  - rewrite Hkey'. intros (r0 & Hr0 & Hterm)%Ht. simplify_eq. by rewrite (A Hterm).
  - exact Wr.
  - rewrite Hkey'. apply lookup_delete_eq.
  - pose proof (active_take m k r Hk) as Ha. pose proof (wt_active _ W).
    unfold is_active in *. destruct (is_terminal (r_state r)) eqn:E; cbn [negb] in *.
    + rewrite (A eq_refl), E. cbn [negb]. lia.
    + destruct (negb (is_terminal (r_state r'))); lia.
Qed.

Definition transfers_of (o : FS * ManualTransfers FS P * list (ManualAction FS P)) : ManualTransfers FS P :=
  snd (fst o).

(** The shape of most operations. *)
Lemma restore_outcome m k r o :
  wf_transfers m -> m_records m !! k = Some r -> outcome_evolves r o ->
  wf_transfers (transfers_of (let '(fs, r, actions) := o in (fs, store (take_record m k) r, actions))).
Proof. destruct o as [[fs r'] actions]. intros W Hk Ho. by apply (restore_wf m k r). Qed.

Lemma fresh_key_wf m r :
  wf_transfers m -> wf_record r -> m_records m !! record_key r = None ->
  active_count m < MAX_RECORDS -> wf_transfers (store m r).
Proof.
  intros W Wr Hk Ha. pose proof W as [H1 H2 H3 H4 H5]. apply store_wf; try done.
  - intros (r0 & Hr0 & _)%H3. congruence.
  - destruct (is_active r); lia.
Qed.

Lemma for_records_wf step : 
  (forall fs r, wf_record r -> outcome_evolves r (step fs r)) ->
  forall keys fs m, wf_transfers m -> wf_transfers (transfers_of (for_records step fs m keys)).
Proof.
  intros Hstep. induction keys as [|k keys IH]; intros fs m W; cbn [for_records]; [done|].
  destruct (m_records m !! k) as [r|] eqn:Hk; [|by apply IH].
  pose proof (Hstep fs r (proj2 (wt_records _ W k r Hk))) as Ho.
  destruct (step fs r) as [[fs1 r1] actions].
  specialize (IH fs1 (store (take_record m k) r1) (restore_wf m k r r1 W Hk Ho)).
  by destruct (for_records step fs1 _ keys) as [[fs2 m2] more].
Qed.

Lemma pick_id_fresh m draws id :
  pick_id m draws = Some id -> id <> 0 /\ forall fingerprint, m_records m !! (fingerprint, id) = None.
Proof.
  induction draws as [|[d|] draws IH]; cbn; try done. destruct (_ && _) eqn:E; [|exact IH].
  intros [= <-]. boolsplit. split; [lia|]. intros fingerprint.
  match goal with B : bool_decide _ = false |- _ => apply bool_decide_eq_false in B; rename B into Hn end.
  destruct (m_records m !! (fingerprint, d)) as [r|] eqn:Hk; [|done]. exfalso. apply Hn.
  apply list_elem_of_fmap. exists (fingerprint, d). split; [done|].
  apply list_elem_of_fmap. exists ((fingerprint, d), r). split; [done|]. by apply elem_of_map_to_list.
Qed.

Lemma sending_record_wf peer fingerprint id offer wire now :
  sound_offer offer -> 0 <= snd (offer_entry offer) ->
  wf_record (sending_record peer fingerprint id offer wire now).
Proof.
  intros So Hs. unfold sending_record. destruct (offer_entry offer) as [name n] eqn:E. cbn in Hs.
  split; cbn; try done; try lia.
  - intros o [= <-]. by rewrite E.
  - by left.
Qed.

Lemma receiving_record_wf peer fingerprint id name size settings now :
  0 <= size -> wf_record (receiving_record peer fingerprint id name size settings now).
Proof.
  intros Hs. split; cbn; try done; try lia; try (by left).
Qed.

Lemma send_files_wf fs peer fingerprint paths now : forall m,
  wf_transfers m -> wf_transfers (fst (send_files fs m peer fingerprint paths now)).
Proof.
  induction paths as [|[path draws] paths IH]; intros m W; cbn [send_files]; [done|].
  destruct (Z.leb_spec MAX_RECORDS (active_count m)); [done|].
  destruct (next_transfer_id m draws) as [id|] eqn:Hid; [|done].
  apply pick_id_fresh in Hid as [_ Hfresh].
  destruct (from_regular_file fs id path) as [[offer|error]|error] eqn:Hf.
  - pose proof (from_regular_file_ok _ _ _ _ Hf) as (So & _ & Hsize).
    destruct (offer_entry offer) as [name n] eqn:He. cbn [snd] in Hsize.
    set (r := sending_record peer fingerprint id offer _ now).
    assert (wf_transfers (store m r)) as Ws.
    { apply fresh_key_wf; [done | apply sending_record_wf; [done|by rewrite He] | | done].
      unfold record_key, r, sending_record. rewrite He. cbn. apply Hfresh. }
    specialize (IH _ Ws). by destruct (send_files fs (store m r) peer fingerprint paths now).
  - specialize (IH m W). by destruct (send_files fs m peer fingerprint paths now).
  - specialize (IH m W). by destruct (send_files fs m peer fingerprint paths now).
Qed.

(** ** Operations on all transfers *)

Lemma active_replace m k r r' :
  m_records m !! k = Some r -> is_active r' = is_active r ->
  active_count {| m_records := <[k := r']> (m_records m); m_terminal := m_terminal m |} = active_count m.
Proof.
  intros Hk Hr. rewrite <- (active_take m k r Hk).
  rewrite <- (active_take {| m_records := <[k := r']> (m_records m); m_terminal := m_terminal m |} k r')
    by apply lookup_insert_eq.
  rewrite Hr. unfold active_count, take_record. cbn [m_records]. by rewrite delete_insert_eq.
Qed.

Lemma receive_offer_wf fs m peer fingerprint id name size settings now :
  wf_transfers m -> 0 <= size ->
  wf_transfers (transfers_of (receive_offer fs m peer fingerprint id name size settings now)).
Proof.
  intros W Hs. unfold receive_offer. destruct (_ || _); [done|].
  destruct (m_records m !! (fingerprint, id)) as [r|] eqn:Hk.
  - destruct (_ || _ || _); [done|]. cbn [transfers_of fst snd].
    destruct (wt_records _ W _ _ Hk) as [Hkey Wr].
    pose proof (touches_evolves _ _ Wr (set_peer_touches r peer Wr)) as [S Wr' _ _].
    destruct W as [H1 H2 H3 H4 H5]. split; cbn [m_records m_terminal]; try done.
    + intros k r' [[<- <-]|[_ Hk']]%lookup_insert_Some; [done | by apply H1].
    + intros k. rewrite H3. destruct (decide ((fingerprint, id) = k)) as [<-|Hne].
      * rewrite lookup_insert_eq, Hk. split; intros (r0 & [= <-] & Ht); by eexists.
      * by rewrite lookup_insert_ne.
    + by rewrite (active_replace m _ r).
  - destruct (Z.leb_spec MAX_RECORDS (active_count m)); [done|].
    set (r := receiving_record peer fingerprint id name size settings now).
    assert (wf_record r) as Wr by (by apply receiving_record_wf).
    assert (outcome_evolves r (if auto_accept settings
      then prepare_receiver fs r (download_directory settings) now true
      else (fs, r, pending_response r))) as Ho.
    { destruct (auto_accept settings); [by apply prepare_receiver_outcome | by apply same_outcome]. }
    destruct (if auto_accept settings then _ else _) as [[fs1 r1] actions].
    apply fresh_key_wf; [done | apply Ho | | done]. rewrite (same_key r r1 (ev_same _ _ Ho)). exact Hk.
Qed.

Lemma handle_protocol_wf fs m peer fingerprint event settings now :
  wf_transfers m -> wf_event event = true ->
  wf_transfers (transfers_of (handle_protocol fs m peer fingerprint event settings now)).
Proof.
  intros W He.
  assert (forall id, wf_transfers (transfers_of match m_records m !! (fingerprint, id) with
    | None => (fs, m, unknown_transfer peer id event)
    | Some r => let '(fs, r, actions) := record_event fs (r |> set_peer peer) event now in
                (fs, store (take_record m (fingerprint, id)) r, actions) end)) as Hknown.
  { intros id. destruct (m_records m !! (fingerprint, id)) as [r|] eqn:Hk; [|done].
    destruct (wt_records _ W _ _ Hk) as [_ Wr].
    pose proof (touches_evolves _ _ Wr (set_peer_touches r peer Wr)) as E.
    apply (restore_outcome m _ r); [done | done |]. apply (outcome_trans r _ _ E).
    apply record_event_outcome, E. }
  unfold handle_protocol. destruct event; cbn [event_transfer_id]; try done; try apply Hknown.
  cbn [wf_event] in He. boolsplit. apply receive_offer_wf; [done | zbool].
Qed.

Lemma accept_wf fs m fingerprint id directory now :
  wf_transfers m -> wf_transfers (transfers_of (accept fs m fingerprint id directory now)).
Proof.
  intros W. unfold accept. destruct (m_records m !! (fingerprint, id)) as [r|] eqn:Hk; [|done].
  apply (restore_outcome m _ r); [done | done |]. apply prepare_receiver_outcome. by apply (wt_records _ W _ _ Hk).
Qed.

Lemma restore_same_wf m k r :
  wf_transfers m -> m_records m !! k = Some r -> wf_transfers (store (take_record m k) r).
Proof. intros W Hk. apply (restore_wf m k r); [done | done |]. apply evolves_refl. by apply (wt_records _ W _ _ Hk). Qed.

Lemma overwrite_wf fs m fingerprint id directory now :
  wf_transfers m -> wf_transfers (transfers_of (overwrite fs m fingerprint id directory now)).
Proof.
  intros W. unfold overwrite. destruct (m_records m !! (fingerprint, id)) as [r|] eqn:Hk; [|done].
  destruct (wt_records _ W _ _ Hk) as [_ Wr].
  destruct (_ || _) eqn:Hg; [by apply restore_same_wf|]. boolsplit.
  apply (restore_outcome m _ r); [done | done |].
  apply overwrite_staged_outcome; [done|]. by apply direction_is_spec.
Qed.

Lemma terminal_restore_wf fs m k r state error now actions :
  wf_transfers m -> m_records m !! k = Some r -> is_terminal (r_state r) = false ->
  is_terminal state = true ->
  wf_transfers (transfers_of (let (fs, r) := terminal fs r state error now in
    (fs, store (take_record m k) r, actions r))).
Proof.
  intros W Hk Hr Hs. destruct (wt_records _ W _ _ Hk) as [_ Wr].
  destruct (terminal_evolves fs r r state error now Wr Hr Hs (advanced_refl r Wr)) as (E & _).
  destruct (terminal fs r state error now) as [fs' r']. by apply (restore_wf m k r).
Qed.

Lemma decline_wf fs m fingerprint id now :
  wf_transfers m -> wf_transfers (transfers_of (decline fs m fingerprint id now)).
Proof.
  intros W. unfold decline. destruct (m_records m !! (fingerprint, id)) as [r|] eqn:Hk; [|done].
  destruct (_ && _) eqn:Hg; [|by apply restore_same_wf]. boolsplit.
  match goal with E : state_is _ _ = true |- _ => apply state_is_spec in E; rename E into Hs end.
  apply (terminal_restore_wf fs m _ r _ None now
    (fun r => [send r (ProtoEvent.ManualFileDecision id ManualDecision.Declined); notify r]));
    [done | done | by rewrite Hs | done].
Qed.

Lemma cancel_wf fs m fingerprint id now :
  wf_transfers m -> wf_transfers (transfers_of (cancel fs m fingerprint id now)).
Proof.
  intros W. unfold cancel. destruct (m_records m !! (fingerprint, id)) as [r|] eqn:Hk; [|done].
  destruct (is_terminal (r_state r)) eqn:Ht; cbn [negb]; [by apply restore_same_wf|].
  by apply (terminal_restore_wf fs m _ r _ None now
    (fun r => [send r (ProtoEvent.ManualFileCancel id); notify r])).
Qed.

(** ** The daemon's transfers under any sequence of events *)

Inductive transfer_step : FS * ManualTransfers FS P -> list (ManualAction FS P) -> FS * ManualTransfers FS P -> Prop :=
| ts_message fs m peer fingerprint event settings now fs' m' actions :
    wf_event event = true ->
    handle_protocol fs m peer fingerprint event settings now = (fs', m', actions) ->
    transfer_step (fs, m) actions (fs', m')
| ts_send fs m peer fingerprint paths now m' actions :
    send_files fs m peer fingerprint paths now = (m', actions) ->
    transfer_step (fs, m) actions (fs, m')
| ts_accept fs m fingerprint id directory now fs' m' actions :
    accept fs m fingerprint id directory now = (fs', m', actions) ->
    transfer_step (fs, m) actions (fs', m')
| ts_overwrite fs m fingerprint id directory now fs' m' actions :
    overwrite fs m fingerprint id directory now = (fs', m', actions) ->
    transfer_step (fs, m) actions (fs', m')
| ts_decline fs m fingerprint id now fs' m' actions :
    decline fs m fingerprint id now = (fs', m', actions) -> transfer_step (fs, m) actions (fs', m')
| ts_cancel fs m fingerprint id now fs' m' actions :
    cancel fs m fingerprint id now = (fs', m', actions) -> transfer_step (fs, m) actions (fs', m')
| ts_tick fs m order now fs' m' actions :
    for_records (fun fs r => tick_record fs r now) fs m order = (fs', m', actions) ->
    order ≡ₚ keys m -> transfer_step (fs, m) actions (fs', m')
| ts_routes fs m order routes now fs' m' actions :
    for_records (fun fs r => route_record routes fs r now) fs m order = (fs', m', actions) ->
    order ≡ₚ keys m -> transfer_step (fs, m) actions (fs', m')
| ts_world fs m fs' : transfer_step (fs, m) [] (fs', m).

Lemma transfer_step_wf s actions s' :
  transfer_step s actions s' -> wf_transfers (snd s) -> wf_transfers (snd s').
Proof.
  intros Hs W. destruct Hs; cbn [snd] in *;
    try match goal with E : ?o = (_, ?m2, _) |- wf_transfers ?m2 =>
      replace m2 with (transfers_of o) by (by rewrite E) end;
    try match goal with E : ?o = (?m2, _) |- wf_transfers ?m2 =>
      replace m2 with (fst o) by (by rewrite E) end.
  - by apply handle_protocol_wf.
  - by apply send_files_wf.
  - by apply accept_wf.
  - by apply overwrite_wf.
  - by apply decline_wf.
  - by apply cancel_wf.
  - apply for_records_wf; [|done]. intros. by apply tick_record_outcome.
  - apply for_records_wf; [|done]. intros. by apply route_record_outcome.
  - done.
Qed.

Inductive transfers_reachable : FS * ManualTransfers FS P -> Prop :=
| tr_start fs : transfers_reachable (fs, new_transfers)
| tr_step s actions s' :
    transfers_reachable s -> transfer_step s actions s' -> transfers_reachable s'.

Lemma transfers_reachable_wf s : transfers_reachable s -> wf_transfers (snd s).
Proof.
  induction 1 as [fs|s actions s' _ IH Hs]; [apply new_transfers_wf | by eapply transfer_step_wf].
Qed.

Lemma records_bound m : wf_transfers m -> Z.of_nat (size (m_records m)) <= MAX_RECORDS + MAX_TERMINAL.
Proof.
  intros W. pose proof (wt_active _ W) as Ha. pose proof (wt_few _ W) as Hf.
  set (active := dom (filter (fun '(_, r) => is_active r = true) (m_records m))).
  assert (dom (m_records m) ⊆ active ∪ list_to_set (m_terminal m)) as Hsub.
  { intros k Hk. apply elem_of_dom in Hk as [r Hk]. apply elem_of_union.
    destruct (is_active r) eqn:E.
    - left. apply elem_of_dom. exists r. by apply map_lookup_filter_Some_2.
    - right. apply elem_of_list_to_set, (wt_terminal _ W). exists r. split; [done|].
      unfold is_active in E. by apply negb_false_iff in E. }
  apply subseteq_size in Hsub. rewrite size_dom in Hsub.
  pose proof (size_union_alt active (list_to_set (m_terminal m))) as Hu.
  pose proof (size_list_to_set (C := gset (rstring * Z)) (m_terminal m) (wt_nodup _ W)) as Ht.
  assert (size (list_to_set (m_terminal m) ∖ active) <= size (list_to_set (C := gset (rstring * Z)) (m_terminal m)))%nat
    by apply subseteq_size, subseteq_difference_l, reflexivity.
  unfold active in *. rewrite size_dom in Hu. unfold active_count, len in *. lia.
Qed.

(** ** What a step does to a known transfer *)

Lemma evict_lookup fuel : forall m k r,
  m_records (evict fuel m) !! k = Some r -> m_records m !! k = Some r.
Proof.
  induction fuel as [|fuel IH]; intros m k r Hk; cbn [evict] in Hk; [done|].
  destruct (_ <? _); [|done]. destruct (m_terminal m) as [|oldest rest]; [done|].
  apply IH in Hk. cbn in Hk. by apply lookup_delete_Some in Hk as [_ Hk].
Qed.

Lemma store_lookup m r k r' :
  m_records (store m r) !! k = Some r' ->
  (k = record_key r /\ r' = r) \/ (k <> record_key r /\ m_records m !! k = Some r').
Proof.
  unfold store. intros Hk%evict_lookup. cbn in Hk. apply lookup_insert_Some in Hk as [[<- <-]|[Hne Hk]]; auto.
Qed.

(** Every transfer of [m'] was one of [m] and went on from there. *)
Definition continues m m' : Prop :=
  forall k r', m_records m' !! k = Some r' -> exists r, m_records m !! k = Some r /\ evolves r r'.

Lemma continues_refl m : wf_transfers m -> continues m m.
Proof. intros W k r Hk. exists r. split; [done|]. apply evolves_refl. by apply (wt_records _ W _ _ Hk). Qed.

Lemma continues_trans m1 m2 m3 : continues m1 m2 -> continues m2 m3 -> continues m1 m3.
Proof.
  intros H1 H2 k r3 H3. destruct (H2 k r3 H3) as (r2 & Hr2 & E2). destruct (H1 k r2 Hr2) as (r1 & Hr1 & E1).
  exists r1. split; [done | by apply (evolves_trans _ r2)].
Qed.

Lemma restore_continues m k r r' :
  wf_transfers m -> m_records m !! k = Some r -> evolves r r' -> continues m (store (take_record m k) r').
Proof.
  intros W Hk E q r2 Hq. destruct (wt_records _ W _ _ Hk) as [Hkey _].
  apply store_lookup in Hq as [[-> ->]|[Hne Hq]].
  - exists r. rewrite (same_key r r' (ev_same _ _ E)), Hkey. done.
  - cbn [take_record m_records] in Hq. apply lookup_delete_Some in Hq as [_ Hq]. by apply continues_refl.
Qed.

Lemma restore_outcome_continues m k r o :
  wf_transfers m -> m_records m !! k = Some r -> outcome_evolves r o ->
  continues m (transfers_of (let '(fs, r, actions) := o in (fs, store (take_record m k) r, actions))).
Proof. destruct o as [[fs r'] actions]. intros W Hk Ho. by apply (restore_continues m k r). Qed.

Lemma for_records_continues step :
  (forall fs r, wf_record r -> outcome_evolves r (step fs r)) ->
  forall keys fs m, wf_transfers m -> continues m (transfers_of (for_records step fs m keys)).
Proof.
  intros Hstep. induction keys as [|k keys IH]; intros fs m W; cbn [for_records]; [by apply continues_refl|].
  destruct (m_records m !! k) as [r|] eqn:Hk; [|by apply IH].
  pose proof (Hstep fs r (proj2 (wt_records _ W k r Hk))) as Ho.
  destruct (step fs r) as [[fs1 r1] actions].
  specialize (IH fs1 (store (take_record m k) r1) (restore_wf m k r r1 W Hk Ho)).
  pose proof (restore_continues m k r r1 W Hk Ho) as Hc.
  destruct (for_records step fs1 _ keys) as [[fs2 m2] more]. by eapply continues_trans.
Qed.

(** Storing a transfer that is not terminal forgets nothing. *)
Lemma store_active_lookup m r :
  wf_transfers m -> is_terminal (r_state r) = false ->
  m_records (store m r) = <[record_key r := r]> (m_records m).
Proof.
  intros W Hr. unfold store. rewrite Hr. cbn [andb]. destruct (length (m_terminal m)); [done|].
  cbn [evict m_terminal]. pose proof (wt_few _ W).
  destruct (Z.ltb_spec MAX_TERMINAL (len (m_terminal m))); [lia | done].
Qed.

Lemma send_files_keeps fs peer fingerprint paths now : forall m k r,
  wf_transfers m -> m_records m !! k = Some r ->
  m_records (fst (send_files fs m peer fingerprint paths now)) !! k = Some r.
Proof.
  induction paths as [|[path draws] paths IH]; intros m k r W Hk; cbn [send_files]; [done|].
  pose proof (send_files_wf fs peer fingerprint [(path, draws)] now m W) as W1. cbn [send_files] in W1.
  destruct (Z.leb_spec MAX_RECORDS (active_count m)); [done|].
  destruct (next_transfer_id m draws) as [id|] eqn:Hid; [|done].
  apply pick_id_fresh in Hid as [_ Hfresh].
  destruct (from_regular_file fs id path) as [[offer|error]|error] eqn:Hf.
  - destruct (offer_entry offer) as [name n] eqn:He.
    set (r1 := sending_record peer fingerprint id offer _ now) in *.
    assert (m_records (store m r1) !! k = Some r) as Hk1.
    { rewrite store_active_lookup; [|done|unfold r1, sending_record; by rewrite He].
      rewrite lookup_insert_ne; [done|]. unfold record_key, r1, sending_record. rewrite He. cbn.
      intros <-. by rewrite Hfresh in Hk. }
    specialize (IH (store m r1) k r W1 Hk1).
    by destruct (send_files fs (store m r1) peer fingerprint paths now).
  - specialize (IH m k r W Hk). by destruct (send_files fs m peer fingerprint paths now).
  - specialize (IH m k r W Hk). by destruct (send_files fs m peer fingerprint paths now).
Qed.

(** Every transfer of [m] that [m'] still knows went on from where it was. *)
Definition keeps m m' : Prop :=
  forall k r r', m_records m !! k = Some r -> m_records m' !! k = Some r' -> evolves r r'.

Lemma continues_keeps m m' : continues m m' -> keeps m m'.
Proof. intros H k r r' Hk Hk'. destruct (H k r' Hk') as (r0 & Hr0 & E). congruence. Qed.

Lemma receive_offer_keeps fs m peer fingerprint id name size settings now :
  wf_transfers m -> 0 <= size ->
  keeps m (transfers_of (receive_offer fs m peer fingerprint id name size settings now)).
Proof.
  intros W Hs. assert (keeps m m) as Hrefl by (by apply continues_keeps, continues_refl).
  unfold receive_offer. destruct (_ || _); [done|].
  destruct (m_records m !! (fingerprint, id)) as [r|] eqn:Hk.
  - destruct (_ || _ || _); [done|]. intros k r1 r2 H1 H2.
    cbn [transfers_of fst snd m_records] in H2.
    apply lookup_insert_Some in H2 as [[<- <-]|[_ H2]]; [|by eapply Hrefl]. simplify_eq.
    destruct (wt_records _ W _ _ Hk) as [_ Wr]. by apply touches_evolves, set_peer_touches.
  - destruct (_ <=? _); [done|].
    set (r := receiving_record peer fingerprint id name size settings now).
    assert (forall o : FS * TransferRecord FS P * list (ManualAction FS P),
      same_transfer r (snd (fst o)) ->
      keeps m (transfers_of (let '(fs1, r1, actions) := o in
        (fs1, store m r1, match actions with [] => [notify r1] | _ => actions end)))) as Hnew.
    { intros [[fs1 r1] actions] S k r2 r3 H2 H3. cbn [transfers_of fst snd] in *.
      apply store_lookup in H3 as [[-> ->]|[_ H3]]; [|by eapply Hrefl].
      rewrite (same_key r r1 S) in H2. change (record_key r) with (fingerprint, id) in H2. congruence. }
    apply Hnew. destruct (auto_accept settings); [|apply same_refl].
    apply (prepare_receiver_outcome fs r). by apply receiving_record_wf.
Qed.

Lemma handle_protocol_keeps fs m peer fingerprint event settings now :
  wf_transfers m -> wf_event event = true ->
  keeps m (transfers_of (handle_protocol fs m peer fingerprint event settings now)).
Proof.
  intros W He. assert (keeps m m) as Hrefl by (by apply continues_keeps, continues_refl).
  assert (forall id, keeps m (transfers_of match m_records m !! (fingerprint, id) with
    | None => (fs, m, unknown_transfer peer id event)
    | Some r => let '(fs, r, actions) := record_event fs (r |> set_peer peer) event now in
                (fs, store (take_record m (fingerprint, id)) r, actions) end)) as Hknown.
  { intros id. destruct (m_records m !! (fingerprint, id)) as [r|] eqn:Hk; [|done].
    destruct (wt_records _ W _ _ Hk) as [_ Wr].
    pose proof (touches_evolves _ _ Wr (set_peer_touches r peer Wr)) as E.
    apply continues_keeps, (restore_outcome_continues m _ r); [done | done |].
    apply (outcome_trans r _ _ E). apply record_event_outcome, E. }
  unfold handle_protocol. destruct event; cbn [event_transfer_id]; try done; try apply Hknown.
  cbn [wf_event] in He. boolsplit. apply receive_offer_keeps; [done | zbool].
Qed.

Lemma terminal_restore_continues fs m k r state error now actions :
  wf_transfers m -> m_records m !! k = Some r -> is_terminal (r_state r) = false ->
  is_terminal state = true ->
  continues m (transfers_of (let (fs, r) := terminal fs r state error now in
    (fs, store (take_record m k) r, actions r))).
Proof.
  intros W Hk Hr Hs. destruct (wt_records _ W _ _ Hk) as [_ Wr].
  destruct (terminal_evolves fs r r state error now Wr Hr Hs (advanced_refl r Wr)) as (E & _).
  destruct (terminal fs r state error now) as [fs' r']. by apply (restore_continues m k r).
Qed.

Lemma restore_same_continues m k r :
  wf_transfers m -> m_records m !! k = Some r -> continues m (store (take_record m k) r).
Proof.
  intros W Hk. apply (restore_continues m k r); [done | done |]. apply evolves_refl.
  by apply (wt_records _ W _ _ Hk).
Qed.

(** The requests of the user touch one known transfer. *)
Lemma user_request_continues fs m fingerprint id directory now :
  wf_transfers m ->
  continues m (transfers_of (accept fs m fingerprint id directory now))
  /\ continues m (transfers_of (overwrite fs m fingerprint id directory now))
  /\ continues m (transfers_of (decline fs m fingerprint id now))
  /\ continues m (transfers_of (cancel fs m fingerprint id now)).
Proof.
  intros W. unfold accept, overwrite, decline, cancel.
  destruct (m_records m !! (fingerprint, id)) as [r|] eqn:Hk; [|split_and!; by apply continues_refl].
  destruct (wt_records _ W _ _ Hk) as [_ Wr]. split_and!.
  - apply (restore_outcome_continues m _ r); [done | done |]. by apply prepare_receiver_outcome.
  - destruct (_ || _) eqn:Hg; [by apply restore_same_continues|]. boolsplit.
    apply (restore_outcome_continues m _ r); [done | done |].
    apply overwrite_staged_outcome; [done|]. by apply direction_is_spec.
  - destruct (_ && _) eqn:Hg; [|by apply restore_same_continues]. boolsplit.
    match goal with E : state_is _ _ = true |- _ => apply state_is_spec in E; rename E into Hs end.
    apply (terminal_restore_continues fs m _ r _ None now
      (fun r => [send r (ProtoEvent.ManualFileDecision id ManualDecision.Declined); notify r]));
      [done | done | by rewrite Hs | done].
  - destruct (is_terminal (r_state r)) eqn:Ht; cbn [negb]; [by apply restore_same_continues|].
    by apply (terminal_restore_continues fs m _ r _ None now
      (fun r => [send r (ProtoEvent.ManualFileCancel id); notify r])).
Qed.

Lemma transfer_step_keeps s actions s' :
  transfer_step s actions s' -> wf_transfers (snd s) -> keeps (snd s) (snd s').
Proof.
  intros Hs W. destruct Hs; cbn [snd] in *;
    try match goal with E : ?o = (_, ?m2, _) |- keeps _ ?m2 =>
      replace m2 with (transfers_of o) by (by rewrite E) end.
  - by apply handle_protocol_keeps.
  - intros k r r' Hk Hk'. pose proof (send_files_keeps fs peer fingerprint paths now m k r W Hk) as Hs.
    match goal with E : send_files _ _ _ _ _ _ = _ |- _ => rewrite E in Hs end. cbn in Hs.
    simplify_eq. apply evolves_refl. by apply (wt_records _ W _ _ Hk).
  - apply continues_keeps. by apply (user_request_continues fs m fingerprint id directory now).
  - apply continues_keeps. by apply (user_request_continues fs m fingerprint id directory now).
  - apply continues_keeps. by apply (user_request_continues fs m fingerprint id empty_path now).
  - apply continues_keeps. by apply (user_request_continues fs m fingerprint id empty_path now).
  - apply continues_keeps, for_records_continues; [|done]. intros. by apply tick_record_outcome.
  - apply continues_keeps, for_records_continues; [|done]. intros. by apply route_record_outcome.
  - by apply continues_keeps, continues_refl.
Qed.
End records.
