(* ===== verification/ManualTransferSafety.v ===== *)
(** * Manual file transfers: safety

    That the operations of [file_transfer.rs] are what the state machine relies on
    of files; then bounded memory, terminal states that are final, no file before
    consent, bounded retries. *)

From S2P Require Import Prelude Wire UnixPath ProtoTypes ProtoValid FileOs FileTransfer FileTransferTheorems ManualTransfer ManualTransferTheorems.

(** ** Files

    The interface of the state machine, filled in with the operations of
    [FileTransfer] over any operating system. *)

(** What else the module calls: the texts of errors, the failure of a blocking
    task, temporary directories and renaming. *)
Class TransferOs (FS : Type) := {
  error_text : TransferError -> rstring;
  blocking_error : FS -> option rstring;
  os_tempdir : Type;
  os_tempdir_in : FS -> rstring -> FS * result rstring os_tempdir;
  os_tempdir_path : os_tempdir -> rstring;
  os_drop_tempdir : FS -> os_tempdir -> FS;
  os_rename : FS -> rstring -> rstring -> FS * result rstring unit;
}.

(** Documented behaviour of the operating system: sizes are not negative, and a
    read returns no more than was asked for. *)
Class OsLaws (FS : Type) `{!Os FS} := {
  metadata_len fs path m : symlink_metadata fs path = Ok m -> 0 <= md_len m;
  read_len fs h n h' data : 0 <= n -> read fs h n = (h', Ok data) -> len data <= n;
}.

Section files.
Context {FS : Type} {os : Os FS} {hash : Sha256} {order : HashOrder} {others : TransferOs FS}.

(** [&offer.entries[0]] *)
Definition first_entry (o : FileTransfer.FileOffer) : rstring * Z :=
  match o_entries o with e :: _ => (entry_path e, entry_size e) | [] => ([], 0) end.

(** The block [preparation] of [prepare_receiver], for an absolute directory; a
    transfer that could not be prepared is dropped. *)
Definition prepare_file (fs : FS) (id : Z) (name : rstring) (size : Z) (directory : rstring)
    : FS * result TransferError FileTransfer.IncomingTransfer :=
  let (fs, created) := create_dir_all fs directory in
  match io created with
  | Err e => (fs, Err e)
  | Ok _ =>
      let entry := {| entry_file_id := FILE_ID; entry_path := name;
                      entry_kind := ClipboardEntryKind.File; entry_size := size |} in
      match incoming_new fs id [entry] directory None with
      | Err e => (fs, Err e)
      | Ok i =>
          let '(fs, i, prepared) := prepare fs i in
          match prepared with
          | Err e => (FileTransfer.drop_incoming fs i, Err e)
          | Ok _ => (fs, Ok i)
          end
      end
  end.

(** [finalize_file] and then [finish] *)
Definition finish_file (fs : FS) (i : FileTransfer.IncomingTransfer) (size : Z) (digest : bytes)
    : FS * FileTransfer.IncomingTransfer * result TransferError unit :=
  let '(fs, i, finalized) := finalize_file fs i FILE_ID size digest in
  match finalized with
  | Err e => (fs, i, Err e)
  | Ok _ => let (i, finished) := finish i in (fs, i, finished)
  end.

#[global] Instance transfer_files : TransferFiles FS := {
  Path := rstring;
  is_absolute := path_is_absolute;
  path_join := push;
  empty_path := [];
  display := error_text;
  FileOffer := FileTransfer.FileOffer;
  from_regular_file := fun fs id path =>
    match blocking_error fs with
    | Some error => Err error
    | None => Ok (FileTransfer.from_regular_file fs id path)
    end;
  offer_entry := first_entry;
  OutgoingFile := FileTransfer.OutgoingFile;
  open_offer := fun fs o => open fs o FILE_ID 0;
  next_chunk_bounded := FileTransfer.next_chunk_bounded;
  finalize_digest := FileTransfer.finalize_digest;
  IncomingTransfer := FileTransfer.IncomingTransfer;
  prepare_incoming := prepare_file;
  destination_path := it_destination;
  incoming_write := fun fs i offset data => FileTransfer.write_chunk fs i FILE_ID offset data;
  incoming_finish := finish_file;
  drop_incoming := FileTransfer.drop_incoming;
  TempDir := os_tempdir;
  tempdir_in := os_tempdir_in;
  tempdir_path := os_tempdir_path;
  drop_tempdir := os_drop_tempdir;
  rename := os_rename;
  symlink_metadata_ok := fun fs path => is_ok (symlink_metadata fs path);
}.

(** What was written to the one file of a transfer; its offset counts it. *)
Definition received_by (i : FileTransfer.IncomingTransfer) : bytes :=
  match it_files i !! FILE_ID with Some f => if_hasher f | None => [] end.
Definition counted (i : FileTransfer.IncomingTransfer) : Prop :=
  forall id f, it_files i !! id = Some f -> if_offset f = len (if_hasher f).
(** The bytes taken from a source are those its offset counts, and no more than
    were offered. *)
Definition within_size (s : FileTransfer.OutgoingFile) : Prop :=
  of_offset s = len (of_hasher s) /\ len (of_hasher s) <= FileTransfer.of_size s.
Definition one_entry (o : FileTransfer.FileOffer) : Prop :=
  exists e, o_entries o = [e] /\ entry_file_id e = FILE_ID.

Lemma fill_kept {laws : OsLaws FS} rounds fs f requested data f' out :
  fill rounds fs f requested data = (f', Ok out) ->
  of_offset f' = of_offset f /\ FileTransfer.of_size f' = FileTransfer.of_size f
  /\ of_hasher f' = of_hasher f /\ len out <= Z.max (len data) requested.
Proof.
  revert f data. induction rounds as [|rounds IH]; intros f data; cbn [fill].
  - destruct (requested <=? len data); intros [= <- <-]; split_and!; try done; lia.
  - destruct (Z.leb_spec requested (len data)); [intros [= <- <-]; split_and!; try done; lia|].
    destruct (check_identity fs f); [|done]. destruct (read fs (of_file f) _) as [h r] eqn:Er.
    destruct r as [chunk|]; [|done]. cbn [io]. destruct (len chunk =? 0); [done|].
    destruct (check_identity fs (set_file f h)); [|done].
    pose proof (read_len fs (of_file f) (requested - len data) h chunk ltac:(lia) Er). intros (H1 & H2 & H3 & H4)%IH. rewrite len_app in H4.
    split_and!; try done. lia.
Qed.

Lemma chunk_taken {laws : OsLaws FS} fs s n s' offset data :
  within_size s -> FileTransfer.next_chunk_bounded fs s n = (s', Ok (Some (offset, data))) ->
  within_size s' /\ offset = len (of_hasher s) /\ of_hasher s' = of_hasher s ++ data
  /\ FileTransfer.of_size s' = FileTransfer.of_size s /\ len (of_hasher s') <= FileTransfer.of_size s.
Proof.
  intros [Ho Hs]. unfold FileTransfer.next_chunk_bounded.
  destruct (of_cancelled s); [done|]. destruct (of_offset s =? FileTransfer.of_size s); [done|].
  destruct (_ || _); [done|]. destruct (check_identity fs s); [|done].
  destruct (fill _ fs s _ []) as [f [out|]] eqn:Ef; [|done]. unfold checked_add.
  destruct (_ <=? _); [|done]. intros [= <- <- <-].
  apply fill_kept in Ef as (E1 & E2 & E3 & El). rewrite len_nil in El.
  unfold within_size. cbn. rewrite E1, E2, E3, len_app. split_and!; try done; lia.
Qed.

(** Making directories leaves the files of a transfer alone. *)
Lemma create_below_files relative fs i current fs' i' r :
  create_below fs i current relative = (fs', i', r) -> it_files i' = it_files i.
Proof.
  revert fs i current. induction relative as [|c relative IH]; intros fs i current; cbn [create_below].
  - by intros [= _ <- _].
  - destruct (symlink_metadata fs _) as [m|e].
    + destruct (_ || _); [by intros [= _ <- _]|]. apply IH.
    + destruct (bool_decide _); [|by intros [= _ <- _]].
      destruct (create_dir fs _) as [fs1 created]. destruct (io created); [|by intros [= _ <- _]].
      by intros H%IH.
Qed.

Lemma prepare_entry_files fs i entry fs' i' r :
  (forall id f, it_files i !! id = Some f -> if_offset f = 0 /\ if_hasher f = []) ->
  prepare_entry fs i entry = (fs', i', r) ->
  forall id f, it_files i' !! id = Some f -> if_offset f = 0 /\ if_hasher f = [].
Proof.
  intros Hi. unfold prepare_entry, create_parents.
  destruct (ensure_contained _ _); [|by intros [= _ <- _]]. destruct (entry_kind entry).
  - destruct (parent _) as [above|]; [|by intros [= _ <- _]].
    destruct (strip_components _ above) as [relative|]; [|by intros [= _ <- _]].
    destruct (create_below fs i _ relative) as [[fs1 i1] created] eqn:E1. apply create_below_files in E1.
    destruct created; [|intros [= _ <- _]; by rewrite E1].
    destruct (create_target fs1 _) as [fs2 [[h ident]|e]]; intros [= _ <- _]; [|by rewrite E1].
    cbn. rewrite E1. intros id f [[_ <-]|[_ H]]%lookup_insert_Some; [done|]. by eapply Hi.
  - destruct (strip_components _ _) as [relative|]; [|by intros [= _ <- _]].
    destruct (create_below fs i _ relative) as [[fs1 i1] created] eqn:E1. apply create_below_files in E1.
    intros [= _ <- _]. by rewrite E1.
Qed.

Lemma prepare_entries_files entries fs i requests fs' i' r :
  (forall id f, it_files i !! id = Some f -> if_offset f = 0 /\ if_hasher f = []) ->
  prepare_entries fs i entries requests = (fs', i', r) ->
  forall id f, it_files i' !! id = Some f -> if_offset f = 0 /\ if_hasher f = [].
Proof.
  revert fs i requests. induction entries as [|e entries IH]; intros fs i requests Hi; cbn [prepare_entries].
  - by intros [= _ <- _].
  - destruct (prepare_entry fs i e) as [[fs1 i1] prepared] eqn:E.
    pose proof (prepare_entry_files _ _ _ _ _ _ Hi E) as H1. destruct prepared; [by apply IH|by intros [= _ <- _]].
Qed.

(** A prepared transfer has received nothing. *)
Lemma prepared_empty fs id name size directory fs' i :
  prepare_file fs id name size directory = (fs', Ok i) -> counted i /\ received_by i = [].
Proof.
  unfold prepare_file. destruct (create_dir_all fs directory) as [fs1 created]. destruct (io created); [|done].
  destruct (incoming_new fs1 id _ directory None) as [i0|] eqn:E0; [|done].
  assert (it_files i0 = ∅) as Hempty by (unfold incoming_new in E0; by inv_ok E0).
  destruct (prepare fs1 i0) as [[fs2 i2] prepared] eqn:E2. destruct prepared as [requests|]; [|done]. intros [= _ <-].
  assert (H : forall id f, it_files i2 !! id = Some f -> if_offset f = 0 /\ if_hasher f = []).
  { unfold prepare in E2. destruct (ensure_active i0); [|done]. eapply prepare_entries_files; [|exact E2].
    intros id' f. by rewrite Hempty, lookup_empty. }
  split; [intros id' f Hf; by destruct (H id' f Hf) as [-> ->]|]. unfold received_by.
  destruct (it_files i2 !! FILE_ID) as [f|] eqn:Ef; [by apply (H FILE_ID f)|done].
Qed.

Lemma chunk_received fs i offset data fs' i' :
  counted i -> FileTransfer.write_chunk fs i FILE_ID offset data = (fs', i', Ok tt) ->
  counted i' /\ received_by i' = received_by i ++ data.
Proof.
  intros Hc. unfold FileTransfer.write_chunk, received_by.
  destruct (ensure_active i); [|done]. destruct (_ || _); [done|].
  destruct (it_files i !! FILE_ID) as [f|] eqn:Ef; [|done]. cbn [ok_or].
  destruct (Z.eqb_spec offset (if_offset f)) as [->|]; [|done]. cbn [negb].
  unfold checked_add. destruct (_ <=? u64_max); [|done]. cbn [ok_or]. destruct (_ <? _); [done|].
  destruct (write_all fs (if_file f) data) as [[fs1 h] w]. destruct (io w); [|done]. intros [= _ <-]. split.
  - intros id f'. cbn. intros [[_ <-]|[_ H]]%lookup_insert_Some; [|by eapply Hc]. cbn. rewrite len_app. by rewrite (Hc FILE_ID f Ef).
  - cbn. by rewrite lookup_insert_eq.
Qed.

Lemma finished_whole fs i size digest fs' i' :
  counted i -> finish_file fs i size digest = (fs', i', Ok tt) ->
  len (received_by i) = size /\ sha256_of (received_by i) = digest.
Proof.
  intros Hc. unfold finish_file, finalize_file, received_by.
  destruct (ensure_active i); [|done]. destruct (it_files i !! FILE_ID) as [f|] eqn:Ef; [|done]. cbn [ok_or].
  destruct (negb (size =? if_expected f) || _) eqn:E; [done|]. boolsplit.
  destruct (flush fs (if_file f)) as [fs1 fl]. destruct (io fl); [|done].
  destruct (sync_data fs1 (if_file f)) as [fs2 sy]. destruct (io sy); [|done].
  case_bool_decide as Hd; [|done]. intros _. split; [|done]. rewrite <- (Hc FILE_ID f Ef). lia.
Qed.

(** [file_transfer.rs] is what the state machine relies on of files, whatever
    happens to the files between the calls. *)
#[global] Program Instance transfer_model {laws : OsLaws FS} : FilesModel FS := {
  sha256 := sha256_of;
  taken := of_hasher;
  expected := FileTransfer.of_size;
  received := received_by;
  sound_offer := one_entry;
  sound_source := within_size;
  sound_incoming := counted;
}.
Next Obligation.
  intros laws fs id path offer. cbn. destruct (blocking_error fs); [done|]. intros [= H].
  unfold FileTransfer.from_regular_file in H. inv_ok H. cbn. split; [by eexists|]. split.
  - match goal with E : negb (is_ok ?v) = false |- _ => by destruct v as [[]|] end.
  - destruct (symlink_metadata fs path) as [m|] eqn:Em; [|done]. apply metadata_len in Em. cbn in *. by simplify_eq.
Qed.
Next Obligation.
  intros laws fs offer s (e & He & Hid) H. cbn in H. unfold open in H. rewrite He in H. cbn in H.
  rewrite Hid in H. cbn in H. inv_ok H. cbn in *. boolsplit. unfold first_entry. rewrite He. cbn.
  split; [|done]. split; [done|]. cbn. rewrite len_nil. lia.
Qed.
Next Obligation. intros laws fs s n s' offset data. by apply chunk_taken. Qed.
Next Obligation.
  intros laws fs s digest [Ho Hs] H. cbn in H. unfold FileTransfer.finalize_digest in H. inv_ok H. boolsplit.
  split; [done|]. lia.
Qed.
Next Obligation. intros laws fs fs' id name size directory i. apply prepared_empty. Qed.
Next Obligation. intros laws fs fs' i i' offset data. apply chunk_received. Qed.
Next Obligation. intros laws fs fs' i i' size digest. apply finished_whole. Qed.
End files.

(** The file system in memory, to run the examples: a file of three bytes and a
    directory. *)
#[global] Program Instance ram_laws : OsLaws ram := {}.
Next Obligation.
  intros fs path m. cbn. unfold ram_metadata. destruct (fs !! path) as [[]|]; [..|done]; intros [= <-]; cbn; [done|].
  apply len_nonneg.
Qed.
Next Obligation.
  intros fs h n h' data Hn. cbn. unfold ram_read. destruct (fs !! _) as [[]|]; [done| |done]. intros [= _ <-].
  rewrite len_take. lia.
Qed.
#[global] Instance ram_transfers : TransferOs ram := {
  error_text := fun _ => str "error";
  blocking_error := fun _ => None;
  os_tempdir := unit;
  os_tempdir_in := fun fs _ => (fs, Ok tt);
  os_tempdir_path := fun _ => str "/tmp";
  os_drop_tempdir := fun fs _ => fs;
  os_rename := fun fs _ _ => (fs, Ok tt);
}.
#[local] Existing Instance list_order.
Definition sample_path : rstring := str "/a.txt".
Definition sample_files : ram := {[ sample_path := FileNode [1; 2; 3]; str "/inbox" := DirNode ]}.
Definition sample_source : @Path ram transfer_files := sample_path.
Definition sample_offer : @FileOffer ram transfer_files :=
  match from_regular_file sample_files 5 sample_source with
  | Ok (Ok offer) => offer
  | _ => {| FileTransfer.o_transfer_id := 0; FileTransfer.o_entries := []; FileTransfer.o_sources := ∅ |}
  end.

(** ** Reachable states *)

(** C17: bookkeeping of transfers.  After any sequence of messages, user
    requests, ticks (visiting the records in any order) and route changes, the
    daemon knows at most 132 transfers, at most 32 of them active; the queue of
    finished transfers lists exactly the terminal records, each once; and every
    record is filed under its peer and id, has transferred no more than its
    size, has been retried at most 3 times, writes to a file exactly when it is
    a receiver in the transferring state, and holds no file once it is terminal. *)
Theorem transfers_bounded {FS P : Type} `{!TransferFiles FS} `{!FilesModel FS}
    (fs : FS) (m : ManualTransfers FS P) :
  transfers_reachable (fs, m) ->
  Z.of_nat (size (m_records m)) <= MAX_RECORDS + MAX_TERMINAL
  /\ active_count m <= MAX_RECORDS
  /\ NoDup (m_terminal m)
  /\ (forall k, k ∈ m_terminal m <->
       exists r, m_records m !! k = Some r /\ is_terminal (r_state r) = true)
  /\ (forall k r, m_records m !! k = Some r ->
       k = (r_fingerprint r, r_id r) /\ 0 <= r_transferred r <= r_size r
       /\ r_retries r <= MAX_RETRIES
       /\ (is_Some (r_incoming r) <->
           r_direction r = Direction.Receiving /\ r_state r = ManualTransferState.Transferring)
       /\ (is_terminal (r_state r) = true ->
           r_outgoing r = None /\ r_offer r = None /\ r_incoming r = None /\ r_replacement r = None)).
Proof.
  intros Hr. pose proof (transfers_reachable_wf _ Hr) as W. cbn [snd] in W.
  split_and!; [by apply records_bound | apply W | apply W | apply W |].
  intros k r Hk. destruct (wt_records _ W k r Hk) as [<- Wr].
  pose proof (wr_bounds _ Wr). pose proof (wr_retries _ Wr).
  pose proof (wr_incoming _ Wr) as Hin. pose proof (wr_sender _ Wr) as Hsend.
  split_and!; try done; try lia.
  - split; [|intros [Hd Hs]; by apply Hin]. intros Hi. destruct (r_direction r) eqn:Hd.
    + rewrite (Hsend eq_refl) in Hi. by destruct Hi.
    + split; [done|]. by apply Hin.
  - intros Ht. destruct (wr_terminal _ Wr Ht) as (Ho & Hf & Hi). split_and!; try done.
    destruct (wr_replacement _ Wr) as [|Hs]; [done|]. rewrite Hi in Hs. by destruct Hs.
Qed.

Lemma transfers_bounded_witness :
  active_count (FS := ram) (P := Z) new_transfers <= MAX_RECORDS.
Proof.
  apply (transfers_bounded (FS := ram) (P := Z) sample_files new_transfers). apply tr_start.
Defined.

(** C18: what a step can do to a transfer.  No message, user request, tick or
    route change alters which file a transfer is about, its direction or its
    approval deadline (a repeated offer does not extend it), takes back
    transferred bytes, or changes the state of a transfer that is completed,
    declined, cancelled or failed. *)
Theorem transfers_only_advance {FS P : Type} `{!TransferFiles FS} `{!FilesModel FS}
    (s s' : FS * ManualTransfers FS P) actions k r r' :
  transfers_reachable s -> transfer_step s actions s' ->
  m_records (snd s) !! k = Some r -> m_records (snd s') !! k = Some r' ->
  same_transfer r r' /\ r_transferred r <= r_transferred r'
  /\ (is_terminal (r_state r) = true -> r_state r' = r_state r).
Proof.
  intros Hr Hs Hk Hk'. pose proof (transfers_reachable_wf _ Hr) as W.
  by destruct (transfer_step_keeps _ _ _ Hs W k r r' Hk Hk').
Qed.

(** A file offered by this device, and its cancellation. *)
Definition sample_key : rstring * Z := (str "peer", 5).
Definition sample_selection : list (@Path ram _ * list (option Z)) := [(sample_source, [Some 5])].
Definition sample_offered : ManualTransfers ram Z :=
  fst (send_files sample_files new_transfers 9 (str "peer") sample_selection 0).
Definition sample_cancelled : ManualTransfers ram Z :=
  snd (fst (cancel sample_files sample_offered (str "peer") 5 10)).

Lemma sample_offered_reachable :
  transfers_reachable (FS := ram) (P := Z) (sample_files, sample_offered).
Proof.
  eapply tr_step; [apply tr_start|].
  apply (ts_send (FS := ram) (P := Z) sample_files new_transfers 9 (str "peer") sample_selection 0).
  apply surjective_pairing.
Qed.

Lemma some_of_bool {A} (o : option A) : bool_decide (is_Some o) = true -> exists a, o = Some a.
Proof. rewrite bool_decide_eq_true. by intros [a ->]; exists a. Qed.

Lemma sample_offered_lookup : exists r, m_records sample_offered !! sample_key = Some r.
Proof. apply some_of_bool. vm_compute. reflexivity. Qed.

Lemma sample_cancelled_lookup : exists r, m_records sample_cancelled !! sample_key = Some r.
Proof. apply some_of_bool. vm_compute. reflexivity. Qed.

Lemma sample_cancel_step : exists fs actions,
  transfer_step (FS := ram) (P := Z) (sample_files, sample_offered) actions (fs, sample_cancelled).
Proof.
  unfold sample_cancelled.
  destruct (cancel sample_files sample_offered (str "peer") 5 10) as [[fs m] actions] eqn:E.
  exists fs, actions. by eapply ts_cancel.
Qed.

Lemma transfers_only_advance_witness :
  exists r r', m_records sample_offered !! sample_key = Some r
    /\ m_records sample_cancelled !! sample_key = Some r' /\ same_transfer r r'.
Proof.
  destruct sample_offered_lookup as [r E]. destruct sample_cancelled_lookup as [r' E'].
  destruct sample_cancel_step as (fs & actions & Hs).
  exists r, r'. split; [exact E|]. split; [exact E'|].
  exact (proj1 (transfers_only_advance _ _ actions sample_key r r'
    sample_offered_reachable Hs E E')).
Defined.

(** ** Consent *)

Section consent.
Context {FS P : Type} `{!TransferFiles FS} `{!FilesModel FS}.
Implicit Types r : TransferRecord FS P.

(** The operation leaves the file system alone and opens no incoming file. *)
Definition untouched (fs : FS) r (o : FS * TransferRecord FS P * list (ManualAction FS P)) : Prop :=
  fst (fst o) = fs
  /\ (r_direction r = Direction.Receiving -> r_state (snd (fst o)) <> ManualTransferState.Transferring).

Lemma idle_no_files r :
  wf_record r -> r_state r <> ManualTransferState.Transferring ->
  r_incoming r = None /\ r_replacement r = None.
Proof.
  intros W Hs. assert (r_incoming r = None) as Hi.
  { destruct (r_direction r) eqn:Hd; [by apply (wr_sender _ W)|].
    destruct (r_incoming r) eqn:E; [|done]. exfalso. apply Hs. apply (wr_incoming _ W Hd). by rewrite E. }
  split; [done|]. destruct (wr_replacement _ W) as [|Hr]; [done|]. rewrite Hi in Hr. by destruct Hr.
Qed.

Lemma idle_terminal fs r state error now :
  wf_record r -> r_state r <> ManualTransferState.Transferring ->
  fst (terminal fs r state error now) = fs /\ r_state (snd (terminal fs r state error now)) = state.
Proof.
  intros W Hs. destruct (idle_no_files r W Hs) as [Hi Hr]. unfold terminal. cbn [fst snd].
  split; [|done]. cbn. by rewrite Hi, Hr.
Qed.

Lemma idle_terminal_outcome fs r state error now actions :
  wf_record r -> r_state r <> ManualTransferState.Transferring -> is_terminal state = true ->
  untouched fs r (let (fs, r) := terminal fs r state error now in (fs, r, actions r)).
Proof.
  intros W Hs Ht. destruct (idle_terminal fs r state error now W Hs) as [E1 E2].
  destruct (terminal fs r state error now) as [fs' r']. cbn in *. split; [done|].
  intros _. cbn. rewrite E2. by intros ->.
Qed.

Lemma idle_fail fs r error now :
  wf_record r -> r_state r <> ManualTransferState.Transferring -> untouched fs r (fail fs r error now).
Proof.
  intros W Hs. unfold fail.
  destruct (idle_terminal fs r ManualTransferState.Failed (Some error) now W Hs) as [E1 E2].
  destruct (terminal fs r _ _ now) as [fs' r']. cbn in *. split; [done|]. intros _. cbn. by rewrite E2.
Qed.

Lemma idle_same fs r actions :
  r_state r <> ManualTransferState.Transferring -> untouched fs r (fs, r, actions).
Proof. by split. Qed.

(** A message about a transfer that is not under way. *)
Lemma record_event_idle fs r event now :
  wf_record r -> r_state r <> ManualTransferState.Transferring ->
  untouched fs r (record_event fs r event now).
Proof.
  intros W Hs. assert (state_is r ManualTransferState.Transferring = false) as Es
    by (by apply bool_decide_eq_false).
  destruct event; cbn [record_event]; try (by apply idle_same).
  - unfold ManualTransfer.decision. destruct (is_terminal (r_state r)); [by apply idle_same|].
    destruct (r_direction r) eqn:Hd, decision; try (by apply idle_same).
    + destruct (negb _); [by apply idle_same|]. split; [done|]. by rewrite Hd.
    + rewrite Es. cbn [negb]. destruct (_ && true); [by apply idle_fail|]. split; [done|]. by rewrite Hd.
    + by apply (idle_terminal_outcome fs r _ None now (fun r => [notify r])).
    + rewrite Es. by apply idle_same.
  - unfold send_chunk. destruct (is_terminal (r_state r)); [by apply idle_same|].
    rewrite Es, orb_true_r. by apply idle_same.
  - unfold write_chunk. destruct (negb _); [by apply idle_same|].
    destruct (is_terminal (r_state r)); [by apply idle_same|]. rewrite Es. by apply idle_same.
  - unfold complete_receiver. destruct (negb _); [by apply idle_same|].
    destruct (is_terminal (r_state r)); [by apply idle_same|]. rewrite Es. by apply idle_same.
  - unfold receive_result. destruct (is_terminal (r_state r)); [by apply idle_same|].
    rewrite Es, andb_false_r. cbn [andb]. destruct (negb success); [|by apply idle_same].
    destruct (idle_terminal fs r ManualTransferState.Failed (Some (sanitize_remote_error error)) now W Hs)
      as [E1 E2].
    destruct (terminal fs r _ _ now) as [fs' r']. cbn in *. split; [done|]. intros _. cbn. by rewrite E2.
  - unfold receive_cancel. destruct (is_terminal (r_state r)); [by apply idle_same|].
    by apply (idle_terminal_outcome fs r _ None now (fun r => [notify r])).
Qed.
(** Receiving transfers that are under way were so before. *)
Definition consented (m m' : ManualTransfers FS P) : Prop :=
  forall k r', m_records m' !! k = Some r' -> r_direction r' = Direction.Receiving ->
    r_state r' = ManualTransferState.Transferring ->
    exists r, m_records m !! k = Some r /\ r_direction r = Direction.Receiving
              /\ r_state r = ManualTransferState.Transferring.

Lemma consented_refl m : consented m m.
Proof. intros k r Hk Hd Hs. eauto. Qed.

Lemma known_message_consent fs fs' m k r r' peer event now actions :
  wf_transfers m -> m_records m !! k = Some r ->
  record_event fs (r |> set_peer peer) event now = (fs', r', actions) ->
  consented m (store (take_record m k) r')
  /\ (r_state r <> ManualTransferState.Transferring -> fs' = fs).
Proof.
  intros W Hk H. destruct (wt_records _ W _ _ Hk) as [Hkey Wr].
  pose proof (touches_evolves _ _ Wr (set_peer_touches r peer Wr)) as E.
  pose proof (record_event_outcome fs _ event now (ev_wf _ _ E)) as Ho.
  pose proof (record_event_idle fs _ event now (ev_wf _ _ E)) as Hi. rewrite H in Ho, Hi.
  unfold outcome_evolves in Ho. cbn [fst snd] in Ho. pose proof (evolves_trans _ _ _ E Ho) as [S _ _ _].
  split.
  - intros q r2 Hq Hd Hs. apply store_lookup in Hq as [[-> ->]|[Hne Hq]].
    + rewrite (same_key r r' S), Hkey. destruct S as (_ & _ & _ & _ & Edir & _).
      exists r. split_and!; [done | congruence |].
      destruct (decide (r_state r = ManualTransferState.Transferring)) as [|Hn]; [done|].
      destruct (Hi Hn) as [_ Hi2]. exfalso. apply Hi2; [|done]. cbn. congruence.
    + cbn [take_record m_records] in Hq. apply lookup_delete_Some in Hq as [_ Hq]. eauto.
  - intros Hn. by destruct (Hi Hn).
Qed.

Lemma offer_consent fs fs' m m' peer fingerprint id name size settings now actions :
  auto_accept settings = false ->
  receive_offer fs m peer fingerprint id name size settings now = (fs', m', actions) ->
  consented m m' /\ fs' = fs.
Proof.
  intros Hauto H. pose proof (consented_refl m) as Hrefl. unfold receive_offer in H.
  destruct (_ || _); [by injection H as <- <- <-|].
  destruct (m_records m !! (fingerprint, id)) as [r|] eqn:Hk.
  - destruct (_ || _ || _); injection H as <- <- <-; [done|]. split; [|done].
    intros k r' Hr' Hd Hs. cbn in Hr'. apply lookup_insert_Some in Hr' as [[<- <-]|[_ Hr']]; eauto.
  - destruct (_ <=? _); [by injection H as <- <- <-|]. rewrite Hauto in H. injection H as <- <- <-.
    split; [|done]. intros k r' Hr' Hd Hs.
    apply store_lookup in Hr' as [[-> ->]|[_ Hr']]; [discriminate Hs | eauto].
Qed.
End consent.

(** C19: no file without consent.  When files are not accepted automatically,
    nothing a peer sends (offers, data, completions, decisions, in any order)
    makes a transfer the user has not accepted start writing: a receiving
    transfer is under way after a message only if it was before, and a message
    about a transfer that is not under way leaves the file system as it was. *)
Theorem no_file_without_consent {FS P : Type} `{!TransferFiles FS} `{!FilesModel FS}
    (fs fs' : FS) (m m' : ManualTransfers FS P) peer fingerprint event settings now actions :
  wf_transfers m -> auto_accept settings = false ->
  handle_protocol fs m peer fingerprint event settings now = (fs', m', actions) ->
  (forall k r', m_records m' !! k = Some r' -> r_direction r' = Direction.Receiving ->
     r_state r' = ManualTransferState.Transferring ->
     exists r, m_records m !! k = Some r /\ r_direction r = Direction.Receiving
               /\ r_state r = ManualTransferState.Transferring)
  /\ ((forall r id, event_transfer_id event = Some id -> m_records m !! (fingerprint, id) = Some r ->
        r_state r <> ManualTransferState.Transferring) -> fs' = fs).
Proof.
  intros W Hauto H. fold (consented m m').
  assert (forall id, (match m_records m !! (fingerprint, id) with
    | None => (fs, m, unknown_transfer peer id event)
    | Some r => let '(fs, r, actions) := record_event fs (r |> set_peer peer) event now in
                (fs, store (take_record m (fingerprint, id)) r, actions) end) = (fs', m', actions) ->
    consented m m' /\ ((forall r, m_records m !! (fingerprint, id) = Some r ->
      r_state r <> ManualTransferState.Transferring) -> fs' = fs)) as Hknown.
  { intros id Hid. destruct (m_records m !! (fingerprint, id)) as [r|] eqn:Hk.
    - destruct (record_event fs _ event now) as [[fs1 r1] actions1] eqn:E. injection Hid as <- <- <-.
      destruct (known_message_consent fs fs1 m _ r r1 peer event now actions1 W Hk E) as [Hc Hf].
      split; [done|]. intros Hn. by apply Hf, Hn.
    - injection Hid as <- <- <-. split; [apply consented_refl | done]. }
  unfold handle_protocol in H. destruct event; cbn [event_transfer_id] in *;
    try (injection H as <- <- <-; split; [apply consented_refl | done]);
    try (destruct (Hknown _ H) as [Hc Hf]; split; [done|]; intros Hn; apply Hf; eauto; fail).
  destruct (offer_consent _ _ _ _ _ _ _ _ _ _ _ _ Hauto H). done.
Qed.

Definition sample_settings : FileReceiveSettings :=
  {| auto_accept := false; download_directory := str "/inbox" |}.

Lemma no_file_without_consent_witness :
  let '(fs', m', _) := handle_protocol (P := Z) sample_files new_transfers 9 (str "peer")
    (ProtoEvent.ManualFileOffer 5 (str "a.txt") 10) sample_settings 0 in
  fs' = sample_files /\ consented new_transfers m'.
Proof.
  destruct (handle_protocol _ _ _ _ _ _ _) as [[fs' m'] actions] eqn:E.
  pose proof (no_file_without_consent (FS := ram) (P := Z) _ fs' _ m' _ _ _ sample_settings _ actions
    new_transfers_wf eq_refl E) as [Hc Hf].
  split; [|exact Hc]. apply Hf. discriminate.
Defined.
