(* ===== verification/ManualTransferSender.v ===== *)
(** * Manual file transfers: the sender

    What a sender says about its file is true: every chunk is a piece, at its
    offset, of what it read from its source, and every digest the digest of what it
    read, all of it, whatever the sender receives and however often it repeats
    itself. *)

From S2P Require Import Prelude Wire ProtoTypes ProtoValid FileOs ManualTransfer ManualTransferTheorems.

Section sender.
Context {FS P : Type} `{!TransferFiles FS} `{!FilesModel FS}.
(** The announced size *)
Context (size : Z).
Implicit Types (r : TransferRecord FS P) (g : option bytes) (e : ProtoEvent).

(** ** Truthful messages

    [g] is what the sender read from its source so far, once it opened it. *)

Definition truthful g e : Prop :=
  match e with
  | ProtoEvent.ManualFileChunk _ offset data =>
      exists content rest, g = Some content /\ 0 <= offset <= len content
        /\ drop (Z.to_nat offset) content = data ++ rest
  | ProtoEvent.ManualFileComplete _ digest =>
      exists content, g = Some content /\ len content = size /\ digest = sha256 content
  | _ => True
  end.

(** More was read, and no more than the announced size. *)
Definition extends g g' : Prop :=
  (forall content, g = Some content -> exists content', g' = Some content' /\ content `prefix_of` content')
  /\ (forall content, g' = Some content -> len content <= size).

Lemma ghost_extends_trans g1 g2 g3 : extends g1 g2 -> extends g2 g3 -> extends g1 g3.
Proof.
  intros [H1 _] [H2 H3]. split; [|done]. intros c Hc. destruct (H1 c Hc) as (c2 & Hc2 & Hp).
  destruct (H2 c2 Hc2) as (c3 & ? & ?). exists c3. split; [done|]. by etrans.
Qed.

(** What was read completely stays. *)
Lemma extends_whole g g' content :
  extends g g' -> g = Some content -> len content = size -> g' = Some content.
Proof.
  intros [H1 H2] Hg Hl. destruct (H1 content Hg) as (c & Hc & rest & ->). specialize (H2 _ Hc).
  rewrite len_app in H2. destruct rest as [|x rest]; [by rewrite app_nil_r in Hc|].
  rewrite len_cons in H2. pose proof (len_nonneg rest). lia.
Qed.

Lemma truthful_extends g g' e : extends g g' -> truthful g e -> truthful g' e.
Proof.
  intros Hx. destruct e; cbn; try done.
  - intros (c & rest & Hg & Hb & Hd). destruct Hx as [Hx _]. destruct (Hx c Hg) as (c' & Hg' & tail & ->).
    exists (c ++ tail), (rest ++ tail). split; [done|]. rewrite len_app. pose proof (len_nonneg tail).
    split; [lia|]. rewrite drop_app_le by (unfold len in *; lia). by rewrite Hd, app_assoc.
  - intros (c & Hg & Hl & H). exists c. split; [by eapply extends_whole | done].
Qed.

Definition sent (actions : list (ManualAction FS P)) : list ProtoEvent :=
  omap (fun a => match a with Send _ e => Some e | Notify _ => None end) actions.

Definition all_truthful g (actions : list (ManualAction FS P)) : Prop := Forall (truthful g) (sent actions).

(** ** The sender *)

Record sender_ok g r : Prop := {
  so_wf : wf_record r;
  so_direction : r_direction r = Direction.Sending;
  so_size : r_size r = size;
  so_source s : r_outgoing r = Some s -> g = Some (taken s);
  so_open content : g = Some content -> len content <= size
    /\ (is_Some (r_outgoing r) \/ is_terminal (r_state r) = true);
  so_cached e : r_cached_response r = Some e -> truthful g e;
  so_retry e : r_retry_event r = Some e -> truthful g e;
}.

(** What was read after an operation: what its source has taken; a source that
    was closed took no more. *)
Definition opened g r : option bytes :=
  match r_outgoing r with Some s => Some (taken s) | None => g end.

Definition sender_outcome g (o : FS * TransferRecord FS P * list (ManualAction FS P)) : Prop :=
  let g' := opened g (snd (fst o)) in
  sender_ok g' (snd (fst o)) /\ all_truthful g' (snd o) /\ extends g g'.

Lemma sender_extends g r : sender_ok g r -> extends g g.
Proof. intros Hs. split; [by intros c ->; exists c|]. intros c Hc. by apply (so_open _ _ Hs). Qed.

(** Operations that leave the source alone. *)
Lemma sender_touch g fs r r' actions :
  sender_ok g r -> wf_record r' -> same_transfer r r' -> r_outgoing r' = r_outgoing r ->
  (is_terminal (r_state r) = true -> is_terminal (r_state r') = true) ->
  (forall e, r_cached_response r' = Some e -> truthful g e) ->
  (forall e, r_retry_event r' = Some e -> truthful g e) -> all_truthful g actions ->
  sender_outcome g (fs, r', actions).
Proof.
  intros Hok W' (_ & _ & _ & Esz & Edir & _) Eo Ht Hc' Hr' Ha.
  pose proof (sender_extends g r Hok) as Hx. destruct Hok as [W Hd Hz Hs Ho Hc Hr].
  assert (opened g r' = g) as Eg.
  { unfold opened. rewrite Eo. destruct (r_outgoing r) as [s|]; [|done]. by rewrite (Hs s eq_refl). }
  unfold sender_outcome. cbn [fst snd]. rewrite Eg. split; [|done]. split; try done.
  - congruence.
  - congruence.
  - rewrite Eo. done.
  - intros c Hg. rewrite Eo. destruct (Ho c Hg) as [Hl [Hop|Ht']]; split; auto.
Qed.

Lemma sender_same g fs r actions :
  sender_ok g r -> all_truthful g actions -> sender_outcome g (fs, r, actions).
Proof. intros Hs Ha. apply (sender_touch g fs r); try done; try apply Hs. Qed.

(** Ending a transfer: nothing is left to send but its outcome. *)
Lemma sender_ended g fs r r' actions :
  sender_ok g r -> wf_record r' -> same_transfer r r' -> is_terminal (r_state r') = true ->
  r_cached_response r' = None -> (forall e, r_retry_event r' = Some e -> truthful None e) ->
  all_truthful None actions -> sender_outcome g (fs, r', actions).
Proof.
  intros Hok W' (_ & _ & _ & Esz & Edir & _) Ht Ec Er Ha.
  pose proof (sender_extends g r Hok) as Hx. destruct Hok as [W Hd Hz Hs Ho Hc Hr].
  destruct (wr_terminal _ W' Ht) as (Eo & _).
  assert (opened g r' = g) as Eg by (unfold opened; by rewrite Eo).
  assert (forall e, truthful None e -> truthful g e) as Hnone.
  { intros e. apply truthful_extends. split; [done|]. apply Hx. }
  unfold sender_outcome. cbn [fst snd]. rewrite Eg. split_and!; [| |done].
  - split; try done.
    + congruence.
    + congruence.
    + intros s. by rewrite Eo.
    + intros c Hg. split; [by apply Ho | by right].
    + intros e. by rewrite Ec.
    + intros e He. by apply Hnone, Er.
  - eapply Forall_impl; [exact Ha | exact Hnone].
Qed.

(** The records of [terminal], [fail] and [abandon]. *)
Lemma sender_terminal g fs r r1 state error now actions :
  sender_ok g r -> is_terminal (r_state r) = false -> is_terminal state = true -> advanced r r1 ->
  (forall r', all_truthful None (actions r')) ->
  sender_outcome g (let (fs, r) := terminal fs r1 state error now in (fs, r, actions r)).
Proof.
  intros Hs Hr Ht Hadv Ha.
  destruct (terminal_evolves fs r r1 state error now (so_wf _ _ Hs) Hr Ht Hadv) as ([S W' _ _] & Est & _).
  assert (r_cached_response (snd (terminal fs r1 state error now)) = None) as Ec by done.
  assert (forall e, r_retry_event (snd (terminal fs r1 state error now)) = Some e -> truthful None e) as Er
    by (intros e; cbn; destruct state; by intros [= <-]).
  destruct (terminal fs r1 state error now) as [fs' r']. cbn [snd] in *.
  apply (sender_ended g fs' r); try done. by rewrite Est.
Qed.

Lemma sender_annotated g fs r r1 state error now annotate actions :
  sender_ok g r -> is_terminal (r_state r) = false -> is_terminal state = true -> advanced r r1 ->
  (forall r', wf_record r' -> wf_record (annotate r')) ->
  (forall r', same_transfer r' (annotate r') /\ r_state (annotate r') = r_state r'
    /\ r_cached_response (annotate r') = r_cached_response r'
    /\ forall e, r_retry_event (annotate r') = Some e -> truthful None e) ->
  (forall r', all_truthful None (actions r')) ->
  sender_outcome g (let (fs, r) := terminal fs r1 state error now in (fs, annotate r, actions r)).
Proof.
  intros Hs Hr Ht Hadv Hwf Hann Ha.
  destruct (terminal_evolves fs r r1 state error now (so_wf _ _ Hs) Hr Ht Hadv) as ([S W' _ _] & Est & _).
  assert (r_cached_response (snd (terminal fs r1 state error now)) = None) as Ec by done.
  destruct (terminal fs r1 state error now) as [fs' r']. cbn [snd] in *.
  destruct (Hann r') as (S' & Es' & Ec' & Er').
  apply (sender_ended g fs' r); try done.
  - by apply Hwf.
  - unfold same_transfer in *. intuition congruence.
  - by rewrite Es', Est.
  - by rewrite Ec', Ec.
Qed.

Lemma response_truthful r :
  truthful None (offer_response r).
Proof.
  unfold offer_response. destruct (r_state r); cbn; try done;
    by destruct (default _ (r_final_result r)).
Qed.

Lemma answer_wf r event : wf_record r -> wf_record (r |> set_retry_event event).
Proof. intros []. split; assumption. Qed.

Lemma annotate_wf r result event :
  wf_record r -> wf_record (r |> set_final_result result |> set_retry_event event).
Proof. intros []. split; assumption. Qed.

Lemma sender_fail g fs r r1 error now :
  sender_ok g r -> is_terminal (r_state r) = false -> advanced r r1 ->
  sender_outcome g (fail fs r1 error now).
Proof.
  intros Hs Hr Hadv. unfold fail.
  apply (sender_annotated g fs r r1 ManualTransferState.Failed (Some error) now
    (fun r => r |> set_retry_event (Some (offer_response r)))
    (fun r => [notify (r |> set_retry_event (Some (offer_response r)));
               peer_failure (r_peer r) (r_id r) REMOTE_TRANSFER_ERROR])); try done.
  - intros r'. apply answer_wf.
  - intros r'. split_and!; try done. intros e [= <-]. apply response_truthful.
  - intros r'. by repeat constructor.
Qed.

(** Reading the source tells the truth about it. *)
Lemma read_source_truthful g fs r s offset length r' e :
  sender_ok g r -> r_outgoing r = Some s -> offset = r_transferred r ->
  is_terminal (r_state r) = false ->
  read_source fs r s offset length = (r', Ok e) ->
  let g' := opened g r' in
  truthful g' e /\ sender_ok g' r' /\ is_Some (r_outgoing r') /\ extends g g'.
Proof.
  intros Hs Ho -> Ht H. pose proof (sender_extends g r Hs) as Hx. pose proof Hs as [W Hd Hz Hsrc Hop Hc Hr].
  destruct (wr_source _ W s Ho) as (Ss & Hp & Hl). pose proof (wr_bounds _ W) as Hb. pose proof (Hsrc s Ho) as Hg.
  destruct (read_source_evolves fs r s _ length r' (Ok e) W Ht Hd Ho eq_refl H) as [_ Hev].
  unfold read_source in H. destruct (Z.eqb_spec (r_transferred r) (r_size r)).
  - destruct (finalize_digest fs s) as [digest|] eqn:Ed; [|done]. injection H as <- <-.
    assert (opened g (r |> set_final_digest (Some digest)) = g) as Eg by (unfold opened; cbn; by rewrite Ho).
    cbv zeta. rewrite Eg. destruct (finalize_digest_ok _ _ _ Ss Ed) as [-> Hlen].
    split; [exists (taken s); split_and!; [done|lia|done]|].
    split; [|split; [by eexists|done]]. split; try done. apply Hev.
  - destruct (next_chunk_bounded fs s length) as [s' chunk] eqn:En.
    destruct chunk as [[[o d]|]|]; [|done..].
    destruct (_ && _) eqn:E; [|done]. injection H as <- <-. boolsplit.
    destruct (next_chunk_ok _ _ _ _ _ _ Ss En) as (Ss' & -> & Hp' & Hsrc' & Hle).
    match goal with |- context [opened g ?x] => assert (opened g x = Some (taken s')) as Eg by done end.
    cbv zeta. rewrite Eg.
    assert (extends g (Some (taken s'))) as Hx'.
    { split; [|intros c [= <-]; lia]. intros c Hc'. rewrite Hg in Hc'. injection Hc' as <-.
      eexists. split; [done|]. rewrite Hp'. by eexists. }
    split_and!; [| |by eexists|done].
    + exists (taken s'), []. rewrite Hp', len_app. pose proof (len_nonneg d). pose proof (len_nonneg (taken s)).
      split_and!; [done|lia|lia|]. rewrite <- Hp. unfold len. rewrite Nat2Z.id, drop_app_length. by rewrite app_nil_r.
    + split; try done; [apply Hev | | | |].
      * intros s0 [= <-]. done.
      * intros c [= <-]. split; [lia | left; by eexists].
      * intros e0 He0. apply (truthful_extends g); [done | by apply Hc].
      * intros e0 He0. apply (truthful_extends g); [done | by apply Hr].
Qed.

Lemma ensure_source_sender g fs r r1 s :
  sender_ok g r -> is_terminal (r_state r) = false -> ensure_source fs r = Ok (r1, s) ->
  sender_ok (opened g r1) r1 /\ r_outgoing r1 = Some s /\ extends g (opened g r1).
Proof.
  intros Hs Ht H. pose proof (sender_extends g r Hs) as Hx. pose proof Hs as [W Hd Hz Hsrc Hop Hc Hr].
  destruct (ensure_source_evolves fs r r1 s W Ht Hd H) as ([S W1 _ _] & Ho1 & Hst & _ & Ss & Hl & _).
  unfold ensure_source in H. destruct (r_outgoing r) as [s0|] eqn:Ho.
  - injection H as <- <-. assert (opened g r = g) as -> by (unfold opened; rewrite Ho; symmetry; by apply Hsrc).
    done.
  - assert (g = None) as ->.
    { destruct g as [c|]; [|done]. destruct (Hop c eq_refl) as [_ [[]|]]; congruence. }
    pose proof (wr_bounds _ W) as Hb.
    assert (opened None r1 = Some (taken s)) as Eg by (unfold opened; by rewrite Ho1).
    rewrite Eg. assert (extends None (Some (taken s))) as Hx' by (split; [done|]; intros c [= <-]; lia).
    split_and!; try done. destruct (r_offer r) as [o|]; [|done].
    destruct (open_offer fs o); [|done]. injection H as <- <-. split; try done.
    + intros s' [= <-]. done.
    + intros c [= <-]. split; [lia | left; by eexists].
    + intros e He. apply (truthful_extends None); [done | by apply Hc].
    + intros e He. apply (truthful_extends None); [done | by apply Hr].
Qed.

Lemma sent_cons_send peer e actions :
  sent (Send peer e :: actions) = e :: sent actions.
Proof. done. Qed.

Lemma progress_sent r now : sent (snd (progress r now)) = [].
Proof. unfold progress. by destruct (_ || _). Qed.

Lemma progress_fields r now :
  r_outgoing (fst (progress r now)) = r_outgoing r /\ r_state (fst (progress r now)) = r_state r
  /\ r_cached_response (fst (progress r now)) = r_cached_response r
  /\ r_retry_event (fst (progress r now)) = r_retry_event r
  /\ r_incoming (fst (progress r now)) = r_incoming r
  /\ r_early_digest (fst (progress r now)) = r_early_digest r.
Proof. unfold progress. by destruct (_ || _). Qed.

Lemma progress_result r now : r_final_result (fst (progress r now)) = r_final_result r.
Proof. unfold progress. by destruct (_ || _). Qed.

(** Two operations in a row, the second with the source open. *)
Lemma opened_again g fs r1 r actions :
  sender_outcome (opened g r1) (fs, r, actions) -> is_Some (r_outgoing r) -> extends g (opened g r1) ->
  sender_outcome g (fs, r, actions).
Proof.
  unfold sender_outcome. cbn [fst snd]. intros (Hs & Ha & Hx) [s Ho] Hx1.
  assert (opened g r = opened (opened g r1) r) as E by (unfold opened at 1 2; by rewrite Ho).
  rewrite E. split_and!; [done..|]. by eapply ghost_extends_trans.
Qed.

Lemma advanced_trans r r1 r2 : evolves r r1 -> advanced r1 r2 -> advanced r r2.
Proof.
  intros [(E1 & E2 & E3 & E4 & E5 & E6) _ _ Hm] [(F1 & F2 & F3 & F4 & F5 & F6) [Hb Hb']].
  split; [unfold same_transfer; split_and!; congruence | lia].
Qed.

(** Answering a request for bytes. *)
Lemma sender_send_chunk g fs r offset length now :
  sender_ok g r -> sender_outcome g (send_chunk fs r offset length now).
Proof.
  intros Hs. unfold send_chunk.
  destruct (is_terminal (r_state r)) eqn:Ht; [by apply sender_same; [|constructor]|].
  destruct (_ || _); [apply sender_same; [done | by repeat constructor]|].
  assert (advanced r r) as Hadv by (apply advanced_refl, Hs).
  destruct ((_ =? 0) || _ || _); [by apply (sender_fail g fs r)|].
  destruct (if bool_decide _ then r_cached_response r else None) as [response|] eqn:Hcached.
  { destruct (bool_decide _); [|done]. pose proof (so_cached _ _ Hs _ Hcached) as Htr.
    pose proof (so_wf _ _ Hs) as W.
    apply (sender_touch g fs r); try done; try apply Hs.
    - by destruct W; split.
    - by repeat constructor. }
  destruct (offset <? r_transferred r); [by apply sender_same; [|constructor]|].
  destruct (Z.eqb_spec offset (r_transferred r)) as [E|]; cbn [negb]; [|by apply (sender_fail g fs r)].
  destruct (ensure_source fs r) as [[r1 s]|error] eqn:Es; [|by apply (sender_fail g fs r)].
  destruct (ensure_source_sender g fs r r1 s Hs Ht Es) as (Hs1 & Ho1 & Hx).
  destruct (ensure_source_evolves fs r r1 s (so_wf _ _ Hs) Ht (so_direction _ _ Hs) Es)
    as (E1 & _ & Hst1 & Htr1 & _).
  destruct (read_source fs r1 s offset length) as [r2 read] eqn:Er.
  assert (is_terminal (r_state r1) = false) as Ht1 by (by rewrite Hst1).
  assert (offset = r_transferred r1) as Eo by congruence.
  destruct (read_source_evolves fs r1 s offset length r2 read (so_wf _ _ Hs1) Ht1
    (so_direction _ _ Hs1) Ho1 Eo Er) as [Hadv2 Hread].
  destruct read as [response|error].
  - destruct (read_source_truthful _ fs r1 s offset length r2 response Hs1 Ho1 Eo Ht1 Er)
      as (Htr & Hs2 & Hs2' & Hx2).
    match goal with |- context [progress ?x now] => set (r3 := x) end.
    assert (wf_record r3) as W3 by (by destruct (so_wf _ _ Hs2); split).
    pose proof (progress_touches r3 now W3) as Hp. pose proof (progress_sent r3 now) as Hps.
    pose proof (progress_fields r3 now) as (F1 & F2 & F3 & F4 & _).
    destruct (progress r3 now) as [r4 actions]. cbn [fst snd] in *.
    apply (opened_again g fs r1); [|by rewrite F1 | done].
    apply (opened_again _ fs r2); [|by rewrite F1 | done].
    apply (sender_touch _ fs r2); try done.
    + by apply (touches_evolves r3).
    + exact (to_same _ _ Hp).
    + by rewrite F2.
    + intros e. rewrite F3. by intros [= <-].
    + intros e. rewrite F4. cbn. destruct (is_complete response); [by intros [= <-] | done].
    + unfold all_truthful, send. rewrite sent_cons_send, Hps. by repeat constructor.
  - apply (sender_fail _ fs r); try done. by apply (advanced_trans r r1).
Qed.

(** Changes that leave the source, what was answered and the outcome alone. *)
Lemma sender_step g fs r r' actions :
  sender_ok g r -> evolves r r' -> r_outgoing r' = r_outgoing r ->
  (is_terminal (r_state r) = true -> is_terminal (r_state r') = true) ->
  r_cached_response r' = r_cached_response r ->
  (r_retry_event r' = r_retry_event r \/ r_retry_event r' = None) -> all_truthful g actions ->
  sender_outcome g (fs, r', actions).
Proof.
  intros Hs [S W' _ _] Eo Ht Ec Er Ha. apply (sender_touch g fs r); try done.
  - intros e. rewrite Ec. apply Hs.
  - intros e. destruct Er as [-> | ->]; [apply Hs | done].
Qed.

Lemma sender_decision g fs r d now : sender_ok g r -> sender_outcome g (decision fs r d now).
Proof.
  intros Hs. pose proof (decision_outcome fs r d now (so_wf _ _ Hs)) as He.
  pose proof (so_direction _ _ Hs) as Hd. revert He. unfold decision. rewrite Hd.
  destruct (is_terminal (r_state r)) eqn:Ht; [intros _; by apply sender_same; [|constructor]|].
  destruct d.
  - destruct (negb _); intros He; [by apply sender_same; [|constructor]|].
    apply (sender_step g fs r); try done; first [by rewrite Ht | by right | by repeat constructor].
  - destruct ((_ <=? now) && negb _); intros He.
    { apply (sender_fail g fs r); try done. apply advanced_refl, Hs. }
    destruct (negb _); [|apply sender_same; [done | by repeat constructor]].
    apply (sender_step g fs r); try done; [by rewrite Ht | by right | by repeat constructor].
  - intros _. apply (sender_terminal g fs r r _ None now (fun r => [notify r])); try done.
    + apply advanced_refl, Hs.
    + intros r'. constructor.
Qed.

Lemma sender_receive_result g fs r success error now :
  sender_ok g r -> sender_outcome g (receive_result fs r success error now).
Proof.
  intros Hs. unfold receive_result. assert (advanced r r) as Hadv by (apply advanced_refl, Hs).
  destruct (is_terminal (r_state r)) eqn:Ht; [by apply sender_same; [|constructor]|].
  destruct (negb success).
  - apply (sender_annotated g fs r r ManualTransferState.Failed (Some (sanitize_remote_error error)) now
      (fun r => r |> set_retry_event (Some (offer_response r)))
      (fun r => [notify (r |> set_retry_event (Some (offer_response r)))])); try done.
    + intros r'. apply answer_wf.
    + intros r'. split_and!; try done. intros e [= <-]. apply response_truthful.
    + intros r'. constructor.
  - destruct (_ && _); [|by apply sender_same; [|constructor]].
    apply (sender_annotated g fs r r ManualTransferState.Completed None now
      (fun r => r |> set_final_result (Some (true, None)) |> set_retry_event
         (Some (offer_response (r |> set_final_result (Some (true, None))))))
      (fun r => [notify (r |> set_final_result (Some (true, None)) |> set_retry_event
         (Some (offer_response (r |> set_final_result (Some (true, None))))))])); try done.
    + intros r'. apply annotate_wf.
    + intros r'. split_and!; try done. intros e [= <-]. apply response_truthful.
    + intros r'. constructor.
Qed.

Lemma sender_receive_cancel g fs r now : sender_ok g r -> sender_outcome g (receive_cancel fs r now).
Proof.
  intros Hs. unfold receive_cancel.
  destruct (is_terminal (r_state r)) eqn:Ht; [by apply sender_same; [|constructor]|].
  apply (sender_terminal g fs r r _ None now (fun r => [notify r])); try done.
  - apply advanced_refl, Hs.
  - intros r'. constructor.
Qed.

Lemma sender_record_event g fs r e now : sender_ok g r -> sender_outcome g (record_event fs r e now).
Proof.
  intros Hs. pose proof (so_direction _ _ Hs) as Hd.
  destruct e; cbn [record_event]; try (by apply sender_same; [|constructor]).
  - by apply sender_decision.
  - by apply sender_send_chunk.
  - unfold write_chunk, direction_is. rewrite Hd. by apply sender_same; [|constructor].
  - unfold complete_receiver, direction_is. rewrite Hd. by apply sender_same; [|constructor].
  - by apply sender_receive_result.
  - by apply sender_receive_cancel.
Qed.

Lemma sender_tick g fs r now : sender_ok g r -> sender_outcome g (tick_record fs r now).
Proof.
  intros Hs. pose proof (tick_record_outcome fs r now (so_wf _ _ Hs)) as He. revert He.
  assert (advanced r r) as Hadv by (apply advanced_refl, Hs).
  assert (is_terminal (r_state r) = false -> forall message, sender_outcome g (abandon fs r message now))
    as Hgive.
  { intros Ht message. apply (sender_terminal g fs r r _ (Some message) now
      (fun r' => [send r (ProtoEvent.ManualFileCancel (r_id r)); notify r'])); try done.
    intros r'. by repeat constructor. }
  assert (all_truthful g (snd (retry r now))) as Hretry.
  { cbn. destruct (r_retry_event r) as [e|] eqn:Ee; [|constructor].
    repeat constructor. by apply (so_retry _ _ Hs). }
  assert (outcome_evolves r (let (r, actions) := retry r now in (fs, r, actions)) ->
    sender_outcome g (let (r, actions) := retry r now in (fs, r, actions))) as Hagain.
  { intros He. apply (sender_step g fs r); try done. by left. }
  unfold tick_record. destruct (is_terminal (r_state r)) eqn:Ht.
  - destruct (_ && _); intros He; [auto | by apply sender_same; [|constructor]].
  - destruct (_ && (_ <=? now)); [auto|].
    destruct (negb _ && _); [|intros _; by apply sender_same; [|constructor]].
    destruct (MAX_RETRIES <=? _); [auto | exact Hagain].
Qed.
End sender.
