(* ===== verification/ManualTransferDelivery.v ===== *)
(** * Manual file transfers: delivery

    A sender and a receiver joined by a network that may lose, repeat, delay
    and reorder messages: what the receiver has written is always a prefix of
    what the sender read from its file, a receiver that reports success has
    written exactly that, all of the announced size, and a sender reports success
    only after the receiver did. *)

From S2P Require Import Prelude Wire ProtoTypes ProtoValid FileOs FileTransferTheorems ManualTransfer ManualTransferTheorems.
From S2P Require Import ManualTransferSafety ManualTransferSender.

Section delivery.
Context {FS P : Type} `{!TransferFiles FS} `{!FilesModel FS}.
(** The announced size *)
Context (size : Z).
Implicit Types (r : TransferRecord FS P) (g : option bytes) (e : ProtoEvent).

(** ** The receiver *)

Definition reports_success e : bool :=
  match e with ProtoEvent.ManualFileResult _ success _ => success | _ => false end.

Definition written g (data : bytes) : Prop :=
  data = [] \/ exists content, g = Some content /\ data `prefix_of` content.

(** Success is reported by a completed transfer only. *)
Definition honest (state : ManualTransferState.t) e : Prop :=
  reports_success e = true -> state = ManualTransferState.Completed.

(** The sender has read as much as it announced. *)
Definition whole g : Prop := exists content, g = Some content /\ len content = size.

Record receiver_ok g r : Prop := {
  ro_wf : wf_record r;
  ro_direction : r_direction r = Direction.Receiving;
  ro_size : r_size r = size;
  ro_written i : r_incoming r = Some i -> written g (received i);
  ro_early digest : r_early_digest r = Some digest -> whole g;
  ro_retry e : r_retry_event r = Some e -> honest (r_state r) e;
  ro_result error : r_final_result r = Some (true, error) -> r_state r = ManualTransferState.Completed;
}.

(** The file that [r] was writing, or that the last chunk completed, was
    finished with [content] written to it. *)
Definition delivered r (content : bytes) : Prop :=
  exists fs fs' i i' digest,
    incoming_finish fs i (r_size r) digest = (fs', i', Ok tt) /\ received i = content
    /\ (r_incoming r = Some i
        \/ exists fs0 i0 offset data, r_incoming r = Some i0
             /\ incoming_write fs0 i0 offset data = (fs, i, Ok tt)).

Definition receiver_outcome g r (o : FS * TransferRecord FS P * list (ManualAction FS P)) : Prop :=
  let r' := snd (fst o) in
  receiver_ok g r' /\ Forall (honest (r_state r')) (sent (snd o))
  /\ (r_state r' = ManualTransferState.Completed ->
      r_state r = ManualTransferState.Completed \/ exists content, g = Some content /\ len content = size /\ delivered r content).

Lemma written_extends g g' data : extends size g g' -> written g data -> written g' data.
Proof.
  intros [Hx _] [-> | (c & Hg & Hp)]; [by left|]. right. destruct (Hx c Hg) as (c' & Hc' & Hp').
  exists c'. split; [done | by etrans].
Qed.

Lemma whole_extends g g' : extends size g g' -> whole g -> whole g'.
Proof. intros Hx (c & Hg & Hl). exists c. split; [by eapply extends_whole | done]. Qed.

Lemma receiver_extends g g' r : extends size g g' -> receiver_ok g r -> receiver_ok g' r.
Proof.
  intros Hx [W Hd Hz Hw He Hr Hf]. split; try done.
  - intros i Hi. by eapply written_extends, Hw.
  - intros d Hdg. by eapply whole_extends, He.
Qed.

(** Operations that leave the file, the state and the outcome alone. *)
Lemma receiver_touch g fs r r' actions :
  receiver_ok g r -> evolves r r' -> r_incoming r' = r_incoming r -> r_state r' = r_state r ->
  r_final_result r' = r_final_result r ->
  (forall digest, r_early_digest r' = Some digest -> whole g) ->
  (forall e, r_retry_event r' = Some e -> honest (r_state r) e) ->
  Forall (honest (r_state r)) (sent actions) ->
  receiver_outcome g r (fs, r', actions).
Proof.
  intros [W Hd Hz Hw He Hr Hf] [(_ & _ & _ & Esz & Ed & _) W' _ _] Ei Es Ef He' Hr' Ha.
  unfold receiver_outcome. cbn [fst snd]. rewrite !Es. split_and!; [|done | auto].
  split; rewrite ?Es, ?Ei, ?Ef; try done; congruence.
Qed.

Lemma receiver_same g fs r actions :
  receiver_ok g r -> Forall (honest (r_state r)) (sent actions) -> receiver_outcome g r (fs, r, actions).
Proof.
  intros Hr Ha. apply receiver_touch; try done; try apply Hr. apply evolves_refl, Hr.
Qed.

Lemma response_honest g r : receiver_ok g r -> honest (r_state r) (offer_response r).
Proof.
  intros Hr. unfold honest, offer_response. destruct (r_state r) eqn:Hs; try done.
  all: destruct (r_final_result r) as [[[] ?]|] eqn:Hf; try done.
  all: pose proof (ro_result _ _ Hr _ Hf) as E; congruence.
Qed.

Definition silent (actions : list (ManualAction FS P)) : Prop :=
  Forall (fun e => reports_success e = false) (sent actions).

(** Ending a transfer without success. *)
Lemma receiver_ended g fs r r' actions :
  receiver_ok g r -> evolves r r' -> is_terminal (r_state r') = true ->
  r_state r' <> ManualTransferState.Completed ->
  (forall digest, r_early_digest r' = Some digest -> whole g) ->
  (forall error, r_final_result r' <> Some (true, error)) ->
  (forall e, r_retry_event r' = Some e -> reports_success e = false) ->
  silent actions -> receiver_outcome g r (fs, r', actions).
Proof.
  intros Hr [(_ & _ & _ & Esz & Ed & _) W' _ _] Ht Hn He Hf Hre Ha.
  destruct (wr_terminal _ W' Ht) as (_ & _ & Ei).
  unfold receiver_outcome. cbn [fst snd]. split_and!.
  - split; try done.
    + rewrite Ed. apply Hr.
    + rewrite Esz. apply Hr.
    + intros i. by rewrite Ei.
    + intros e H. unfold honest. by rewrite (Hre e H).
    + intros error H. by destruct (Hf error).
  - eapply Forall_impl; [exact Ha|]. intros e H. unfold honest. by rewrite H.
  - done.
Qed.

(** No success was recorded by a transfer that goes on. *)
Lemma unfinished g r error :
  receiver_ok g r -> is_terminal (r_state r) = false -> r_final_result r <> Some (true, error).
Proof. intros Hr Ht H. pose proof (ro_result _ _ Hr _ H) as E. by rewrite E in Ht. Qed.

Lemma terminal_fields fs r state error now r' :
  r' = snd (terminal fs r state error now) ->
  r_early_digest r' = r_early_digest r /\ r_final_result r' = r_final_result r /\ r_state r' = state
  /\ forall e, r_retry_event r' = Some e -> reports_success e = false.
Proof. intros ->. split_and!; try done. cbn. destruct state; by intros ? [= <-]. Qed.

Lemma receiver_terminal g fs r state error now actions :
  receiver_ok g r -> is_terminal (r_state r) = false -> is_terminal state = true ->
  state <> ManualTransferState.Completed -> (forall r', silent (actions r')) ->
  receiver_outcome g r (let (fs, r) := terminal fs r state error now in (fs, r, actions r)).
Proof.
  intros Hr Ht Hs Hn Ha.
  destruct (terminal_evolves fs r r state error now (ro_wf _ _ Hr) Ht Hs (advanced_refl r (ro_wf _ _ Hr)))
    as (Hev & _).
  pose proof (terminal_fields fs r state error now _ eq_refl) as (E1 & E2 & E3 & E4).
  destruct (terminal fs r state error now) as [fs' r']. cbn [snd] in *.
  apply receiver_ended; try done; try by rewrite E3.
  - intros d. rewrite E1. apply Hr.
  - intros e. rewrite E2. by eapply unfinished.
Qed.

Lemma failed_response r : (forall error, r_final_result r <> Some (true, error)) ->
  reports_success (offer_response r) = false.
Proof.
  intros H. unfold offer_response. destruct (r_state r); try done.
  all: destruct (r_final_result r) as [[[] error]|] eqn:E; try done; by destruct (H error).
Qed.

Lemma receiver_fail g fs r r1 error now :
  receiver_ok g r -> is_terminal (r_state r) = false -> advanced r r1 ->
  (forall digest, r_early_digest r1 = Some digest -> whole g) -> r_final_result r1 = r_final_result r ->
  receiver_outcome g r (fail fs r1 error now).
Proof.
  intros Hr Ht Hadv He Hf. unfold fail.
  destruct (terminal_evolves fs r r1 ManualTransferState.Failed (Some error) now (ro_wf _ _ Hr) Ht
    eq_refl Hadv) as (Hev & _).
  pose proof (terminal_fields fs r1 ManualTransferState.Failed (Some error) now _ eq_refl)
    as (E1 & E2 & E3 & E4).
  destruct (terminal fs r1 _ _ now) as [fs' r']. cbn [snd] in *.
  assert (forall error, r_final_result r' <> Some (true, error)) as Hu
    by (intros m; rewrite E2, Hf; by eapply unfinished).
  apply receiver_ended; try done.
  - by apply answered_evolves.
  - cbn; by rewrite E3.
  - cbn; by rewrite E3.
  - intros d Hd. apply (He d). by rewrite <- E1.
  - intros e [= <-]. by apply failed_response.
  - by repeat constructor.
Qed.

(** The last step of a successful transfer. *)
Lemma receiver_finish g fs r r1 i digest now :
  receiver_ok g r -> is_terminal (r_state r) = false -> advanced r r1 ->
  r_final_result r1 = r_final_result r -> (forall d, r_early_digest r1 = Some d -> whole g) ->
  whole g -> sound_incoming i -> written g (received i) ->
  (r_incoming r = Some i
   \/ exists fs0 i0 offset data, r_incoming r = Some i0
        /\ incoming_write fs0 i0 offset data = (fs, i, Ok tt)) ->
  receiver_outcome g r (finish_receiver fs r1 i digest now).
Proof.
  intros Hr Ht Hadv Hf He (content & Hg & Hsz) Si Hw Hi. unfold finish_receiver.
  destruct (incoming_finish fs i (r_size r1) digest) as [[fs1 i'] result] eqn:Hfin.
  assert (advanced r (r1 |> set_incoming (Some i'))) as Ha by exact Hadv.
  destruct result as [[]|error]; [|by apply receiver_fail].
  destruct (match r_replacement _ with Some _ => _ | None => _ end) as [fs2 renamed].
  destruct renamed as [u2|error]; [|by apply receiver_fail].
  assert (delivered r content) as Hdel.
  { destruct Hadv as [(_ & _ & _ & Esz & _) _]. rewrite Esz, (ro_size _ _ Hr) in Hfin.
    destruct (incoming_finish_ok _ _ _ _ _ _ Si Hfin) as [Hl _].
    exists fs, fs1, i, i', digest. rewrite (ro_size _ _ Hr). split_and!; try done.
    destruct Hw as [Hw | (c & Hc & rest & Hp)].
    - rewrite Hw in *. destruct content; [done|]. unfold len in *. cbn in *. lia.
    - assert (c = content) as -> by congruence. rewrite Hp, len_app in Hsz.
      destruct rest; [by rewrite Hp, app_nil_r|]. unfold len in *. cbn in *. lia. }
  destruct (terminal_evolves fs2 r _ ManualTransferState.Completed None now (ro_wf _ _ Hr) Ht eq_refl Ha)
    as (Hev & _).
  pose proof (terminal_fields fs2 (r1 |> set_incoming (Some i')) ManualTransferState.Completed None now
    _ eq_refl) as (E1 & E2 & E3 & E4).
  destruct (terminal fs2 _ _ _ now) as [fs3 r3]. cbn [snd] in *.
  unfold receiver_outcome. cbn [fst snd]. split_and!.
  - pose proof (annotated_evolves r r3 (Some (true, None))
      (Some (offer_response (r3 |> set_final_result (Some (true, None))))) Hev) as [S W' _ _].
    assert (is_terminal (r_state r3) = true) as Ht3 by (by rewrite E3).
    destruct (wr_terminal _ W' Ht3) as (_ & _ & Ei). destruct S as (_ & _ & _ & Esz & Ed & _).
    split; try done.
    + rewrite Ed. apply Hr.
    + rewrite Esz. apply Hr.
    + intros i0. by rewrite Ei.
    + intros d _. by exists content.
    + intros e _ _. exact E3.
  - constructor; [by intros _ | constructor].
  - intros _. right. by exists content.
Qed.

(** A true chunk at the position of the file continues its prefix. *)
Lemma written_app g data more :
  truthful size g (ProtoEvent.ManualFileChunk 0 (len data) more) -> written g data -> written g (data ++ more).
Proof.
  intros (content & rest & Hg & Hb & Hd) Hw. right. exists content. split; [done|].
  exists rest. rewrite <- app_assoc, <- Hd.
  assert (data `prefix_of` content) as [tail ->].
  { destruct Hw as [-> | (c & Hc & Hp)]; [by eexists|]. by assert (c = content) as -> by congruence. }
  f_equal. unfold len. rewrite Nat2Z.id. by rewrite drop_app_length.
Qed.

(** Asking for more after the file went on to [r1]. *)
Lemma receiver_pulls g fs r r1 now :
  receiver_ok g r -> is_terminal (r_state r) = false -> evolves r r1 ->
  r_state r1 = ManualTransferState.Transferring -> r_final_result r1 = r_final_result r ->
  (forall i, r_incoming r1 = Some i -> written g (received i)) ->
  (forall digest, r_early_digest r1 = Some digest -> whole g) ->
  receiver_outcome g r
    (let pull := request (r_id r1) (r_transferred r1) in
     let r2 := r1 |> set_retry_event (Some pull) in
     let (r3, actions) := progress r2 now in (fs, r3, send r2 pull :: actions)).
Proof.
  intros Hr Ht Hev Hst Hf Hw He. cbv zeta. set (r2 := r1 |> set_retry_event _).
  assert (evolves r r2) as Hev2 by (by apply answered_evolves).
  pose proof (touches_evolves _ _ (ev_wf _ _ Hev2) (progress_touches r2 now (ev_wf _ _ Hev2))) as Hev3.
  pose proof (progress_fields r2 now) as (P1 & P2 & P3 & P4 & P5 & P6).
  pose proof (progress_sent r2 now) as Hps. pose proof (progress_result r2 now) as P7.
  destruct (progress r2 now) as [r3 actions]. cbn [fst snd] in *.
  unfold receiver_outcome. cbn [fst snd]. unfold send. rewrite sent_cons_send, Hps. split_and!.
  - destruct Hev3 as [(_ & _ & _ & Es3 & Ed3 & _) W3 _ _]. destruct Hev2 as [(_ & _ & _ & Es2 & Ed2 & _) _ _ _].
    pose proof (ro_direction _ _ Hr) as Hd. pose proof (ro_size _ _ Hr) as Hz. split; try done.
    + congruence.
    + congruence.
    + intros i. rewrite P5. apply Hw.
    + intros d. rewrite P6. apply He.
    + intros e. rewrite P4. by intros [= <-].
    + intros e. rewrite P7. change (r_final_result r2) with (r_final_result r1). rewrite Hf.
      intros H. by destruct (unfinished _ _ _ Hr Ht H).
  - by repeat constructor.
  - rewrite P2. change (r_state r2) with (r_state r1). rewrite Hst. discriminate.
Qed.

Lemma receiver_write_chunk g fs r id offset data now :
  receiver_ok g r -> truthful size g (ProtoEvent.ManualFileChunk id offset data) ->
  receiver_outcome g r (write_chunk fs r offset data now).
Proof.
  intros Hr Htrue. pose proof (ro_wf _ _ Hr) as W. pose proof (ro_direction _ _ Hr) as Hd.
  assert (advanced r r) as Hadv by (by apply advanced_refl).
  pose proof (ro_early _ _ Hr) as Hearly.
  unfold write_chunk, direction_is. rewrite (bool_decide_eq_true_2 _ Hd). cbn [negb].
  destruct (is_terminal (r_state r)) eqn:Ht.
  { apply receiver_same; [done|]. destruct (r_final_result r); repeat constructor.
    by eapply response_honest. }
  destruct (if state_is r _ then r_incoming r else None) as [i|] eqn:Hi;
    [|apply receiver_same; [done | by repeat constructor]].
  destruct (receiving_incoming r i W Hi) as (Hst & Hin & Si & Hlen).
  destruct (checked_add offset (len data)) as [end_|] eqn:Hadd; [|by apply receiver_fail].
  apply checked_add_Some in Hadd as [-> _].
  destruct ((_ =? 0) || _ || _) eqn:Hg; [by apply receiver_fail|]. boolsplit.
  destruct (Z.eqb_spec offset (r_transferred r)) as [->|]; cbn [negb].
  2: { destruct (_ && _); [by apply receiver_fail |].
       apply receiver_same; [done | by repeat constructor]. }
  destruct (incoming_write fs i _ data) as [[fs1 i'] write] eqn:Hw.
  destruct write as [[]|error]; [|by apply receiver_fail].
  pose proof (written_evolves r i i' fs fs1 _ data now W Hd Hst Hin Hw ltac:(lia)) as Hev.
  destruct (incoming_write_ok _ _ _ _ _ _ Si Hw) as [Si' Hri].
  assert (written g (received i')) as Hwr.
  { rewrite Hri. apply written_app; [by rewrite Hlen | by apply (ro_written _ _ Hr)]. }
  set (r1 := r |> set_incoming _ |> set_transferred _ |> set_last_activity _ |> set_retries _) in *.
  change (r |> set_incoming (Some i') |> set_transferred (r_transferred r + len data)
    |> set_last_activity now |> set_retries 0) with r1.
  assert (advanced r (r1 |> set_early_digest None)) as Hadv1.
  { split; [exact (ev_same _ _ Hev)|]. split; [apply Hev|]. exact (proj2 (wr_bounds _ (ev_wf _ _ Hev))). }
  assert (r_final_result r1 = r_final_result r /\ r_state r1 = r_state r /\ r_incoming r1 = Some i'
    /\ r_early_digest r1 = r_early_digest r) as (F1 & F2 & F3 & F4) by done.
  clearbody r1.
  destruct (if _ =? _ then _ else None) as [digest|] eqn:Hdig.
  - apply receiver_finish; try done.
    + revert Hdig. destruct (r_transferred r + _ =? _); [rewrite F4; apply Hearly | discriminate].
    + right. by exists fs, i, (r_transferred r), data.
  - apply receiver_pulls; try done; [by rewrite Hst in F2 | |].
    + intros i0. rewrite F3. by intros [= <-].
    + intros d. rewrite F4. apply Hearly.
Qed.

Lemma receiver_complete g fs r id digest now :
  receiver_ok g r -> truthful size g (ProtoEvent.ManualFileComplete id digest) ->
  receiver_outcome g r (complete_receiver fs r digest now).
Proof.
  intros Hr (content & Hg & Hl & _). pose proof (ro_wf _ _ Hr) as W.
  assert (whole g) as Hsome by (by exists content).
  unfold complete_receiver, direction_is. rewrite (bool_decide_eq_true_2 _ (ro_direction _ _ Hr)).
  cbn [negb]. destruct (is_terminal (r_state r)) eqn:Ht.
  { apply receiver_same; [done|]. repeat constructor. by eapply response_honest. }
  assert (advanced r r) as Hadv by (by apply advanced_refl).
  destruct (if state_is r _ then r_incoming r else None) as [i|] eqn:Hi;
    [|apply receiver_same; [done | by repeat constructor]].
  destruct (receiving_incoming r i W Hi) as (Hst & Hin & Si & _).
  destruct (negb _).
  - destruct (match r_early_digest r with Some _ => _ | None => false end); [by apply receiver_fail|].
    apply receiver_touch; try done.
    + apply touches_evolves; [done|]. split; try done. apply W.
    + apply (ro_retry _ _ Hr).
    + by repeat constructor.
  - apply receiver_finish; try done; [by apply (ro_written _ _ Hr) | by left].
Qed.

Lemma receiver_decision g fs r d now : receiver_ok g r -> receiver_outcome g r (decision fs r d now).
Proof.
  intros Hr. pose proof (decision_outcome fs r d now (ro_wf _ _ Hr)) as Hev. revert Hev.
  pose proof (ro_early _ _ Hr) as Hearly. unfold decision. rewrite (ro_direction _ _ Hr).
  destruct (is_terminal (r_state r)) eqn:Ht; [intros _; by apply receiver_same; [|constructor]|].
  destruct d; [intros _; by apply receiver_same; [|constructor] | | intros _; by apply receiver_same; [|constructor]].
  destruct (negb (state_is r _)); [intros _; by apply receiver_same; [|constructor]|].
  destruct (match r_retry_event r with Some (ProtoEvent.ManualFileDecision _ _) => true | _ => false end);
    intros Hev; (apply receiver_touch; try done;
      [by intros e [= <-] | by repeat constructor]).
Qed.

Lemma receiver_result g fs r success error now :
  receiver_ok g r -> receiver_outcome g r (receive_result fs r success error now).
Proof.
  intros Hr. pose proof (receive_result_outcome fs r success error now (ro_wf _ _ Hr)) as Hev. revert Hev.
  unfold receive_result, direction_is. rewrite (ro_direction _ _ Hr).
  destruct (is_terminal (r_state r)) eqn:Ht; [intros _; by apply receiver_same; [|constructor]|].
  destruct (negb success); [|intros _; by apply receiver_same; [|constructor]].
  pose proof (terminal_fields fs r ManualTransferState.Failed (Some (sanitize_remote_error error)) now
    _ eq_refl) as (E1 & E2 & E3 & E4).
  destruct (terminal fs r _ _ now) as [fs' r']. cbn [snd] in *. intros Hev.
  assert (forall error, r_final_result r' <> Some (true, error)) as Hu
    by (intros m; rewrite E2; by eapply unfinished).
  apply receiver_ended; try done; try (cbn; by rewrite E3).
  - intros d Hd. apply (ro_early _ _ Hr d). by rewrite <- E1.
  - intros e [= <-]. by apply failed_response.
  - by repeat constructor.
Qed.

Lemma receiver_cancel g fs r now : receiver_ok g r -> receiver_outcome g r (receive_cancel fs r now).
Proof.
  intros Hr. unfold receive_cancel.
  destruct (is_terminal (r_state r)) eqn:Ht; [by apply receiver_same; [|constructor]|].
  apply (receiver_terminal g fs r _ None now (fun r => [notify r])); try done. intros r'. constructor.
Qed.

Lemma receiver_record_event g fs r e now :
  receiver_ok g r -> truthful size g e -> receiver_outcome g r (record_event fs r e now).
Proof.
  intros Hr He.
  destruct e; cbn [record_event]; try (by apply receiver_same; [|constructor]).
  - by apply receiver_decision.
  - unfold send_chunk, direction_is. rewrite (ro_direction _ _ Hr).
    destruct (is_terminal (r_state r)); apply receiver_same; try done; by repeat constructor.
  - by eapply receiver_write_chunk.
  - by eapply receiver_complete.
  - by apply receiver_result.
  - by apply receiver_cancel.
Qed.

Lemma receiver_tick g fs r now : receiver_ok g r -> receiver_outcome g r (tick_record fs r now).
Proof.
  intros Hr. pose proof (tick_record_outcome fs r now (ro_wf _ _ Hr)) as Hev. revert Hev.
  assert (is_terminal (r_state r) = false -> forall message, receiver_outcome g r (abandon fs r message now))
    as Hgive.
  { intros Ht message. apply (receiver_terminal g fs r _ (Some message) now
      (fun r' => [send r (ProtoEvent.ManualFileCancel (r_id r)); notify r'])); try done.
    intros r'. by repeat constructor. }
  assert (outcome_evolves r (let (r, actions) := retry r now in (fs, r, actions)) ->
    receiver_outcome g r (let (r, actions) := retry r now in (fs, r, actions))) as Hagain.
  { intros Hev. apply (receiver_touch g fs r); try done; try apply Hr.
    cbn. destruct (r_retry_event r) as [e|] eqn:Ee; [|constructor].
    repeat constructor. by apply (ro_retry _ _ Hr). }
  unfold tick_record. destruct (is_terminal (r_state r)) eqn:Ht.
  - destruct (_ && _); intros Hev; [auto | by apply receiver_same; [|constructor]].
  - destruct (_ && (_ <=? now)); [auto|].
    destruct (negb _ && _); [|intros _; by apply receiver_same; [|constructor]].
    destruct (MAX_RETRIES <=? _); [auto | exact Hagain].
Qed.

Lemma redirect_sent directory (actions : list (ManualAction FS P)) :
  sent (redirect_status directory <$> actions) = sent actions.
Proof. induction actions as [|[peer e|[]] actions IH]; cbn; [done | f_equal; exact IH | exact IH..]. Qed.

Lemma receiver_prepare g fs r directory now automatic :
  receiver_ok g r -> receiver_outcome g r (prepare_receiver fs r directory now automatic).
Proof.
  intros Hr. pose proof (prepare_receiver_outcome fs r directory now automatic (ro_wf _ _ Hr)) as Hev.
  revert Hev. unfold prepare_receiver.
  destruct (_ || _) eqn:Hg; [intros _; by apply receiver_same; [|constructor]|]. boolsplit.
  match goal with E : state_is _ _ = true |- _ => apply state_is_spec in E; rename E into Hs end.
  assert (is_terminal (r_state r) = false) as Ht by (by rewrite Hs).
  pose proof (ro_early _ _ Hr) as Hearly. pose proof (ro_retry _ _ Hr) as Hretry.
  destruct (r_approval_deadline r <=? now);
    [intros _; apply receiver_fail; try done; apply advanced_refl, Hr|].
  destruct (prepare_directory fs r directory) as [fs1 preparation] eqn:Hp.
  destruct preparation as [i|error].
  - intros Hev. assert (sound_incoming i /\ received i = []) as [Si Hi].
    { unfold prepare_directory in Hp. destruct (is_absolute directory); [|done].
      by eapply prepare_incoming_ok. }
    unfold receiver_outcome. cbn [fst snd]. split_and!; [|by repeat constructor | discriminate].
    split; try done; [apply Hev | apply Hr | apply Hr | | |].
    + intros i0 [= <-]. by left.
    + by intros e [= <-].
    + intros e Hf. by destruct (unfinished _ _ _ Hr Ht Hf).
  - destruct (_ && _ && _); intros Hev; [apply receiver_touch; try done; by repeat constructor|].
    destruct automatic; [|apply receiver_touch; try done; by repeat constructor].
    pose proof (terminal_fields fs1 r ManualTransferState.Failed (Some (local_receive_error error)) now
      _ eq_refl) as (E1 & E2 & E3 & E4).
    destruct (terminal fs1 r _ _ now) as [fs2 r2]. cbn [snd] in *.
    apply receiver_ended; try done; try (cbn; by rewrite E3).
    + intros d Hd. apply (Hearly d). by rewrite <- E1.
    + intros e [= <-]. by apply failed_response.
    + by repeat constructor.
Qed.

Lemma receiver_overwrite g fs r directory now :
  receiver_ok g r -> receiver_outcome g r (overwrite_staged fs r directory now).
Proof.
  intros Hr. pose proof (overwrite_staged_outcome fs r directory now (ro_wf _ _ Hr) (ro_direction _ _ Hr))
    as Hev. revert Hev. unfold overwrite_staged.
  destruct (if is_absolute directory then _ else _) as [fs1 [staging|error]].
  - pose proof (receiver_prepare g fs1 r (tempdir_path staging) now false Hr) as Ho.
    destruct (prepare_receiver fs1 r _ now false) as [[fs2 r2] actions].
    destruct (state_is r2 _); [|by intros _]. intros Hev.
    unfold receiver_outcome in *. cbn [fst snd] in *. destruct Ho as ([W Hd Hz Hw He Hre Hf] & Ha & Hc).
    rewrite redirect_sent. split_and!; [|done | done]. split; try done. apply Hev.
  - intros Hev. apply receiver_touch; try done; try apply Hr.
Qed.

(** ** The two parties *)

Record Link := {
  l_sender : TransferRecord FS P;
  l_receiver : TransferRecord FS P;
  (** what the sender read from the file it opened *)
  l_content : option bytes;
  (** every message ever sent, in each direction *)
  l_to_receiver : list ProtoEvent;
  l_to_sender : list ProtoEvent;
}.

Implicit Types (l : Link) (o : FS * TransferRecord FS P * list (ManualAction FS P)).

Definition sender_moves l o : Link :=
  {| l_sender := snd (fst o); l_receiver := l_receiver l;
     l_content := opened (l_content l) (snd (fst o));
     l_to_receiver := l_to_receiver l ++ sent (snd o); l_to_sender := l_to_sender l |}.

Definition receiver_moves l o : Link :=
  {| l_sender := l_sender l; l_receiver := snd (fst o); l_content := l_content l;
     l_to_receiver := l_to_receiver l; l_to_sender := l_to_sender l ++ sent (snd o) |}.

(** The user cancels a transfer. *)
Definition cancelled (fs : FS) r (now : Z) : FS * TransferRecord FS P * list (ManualAction FS P) :=
  let (fs, r) := terminal fs r ManualTransferState.Cancelled None now in
  (fs, r, [send r (ProtoEvent.ManualFileCancel (r_id r)); notify r]).

Definition declined (fs : FS) r (now : Z) : FS * TransferRecord FS P * list (ManualAction FS P) :=
  let (fs, r) := terminal fs r ManualTransferState.Declined None now in
  (fs, r, [send r (ProtoEvent.ManualFileDecision (r_id r) ManualDecision.Declined); notify r]).

(** Any message ever sent may arrive, at any time, any number of times or
    never; the files of both sides may change at will between the steps. *)
Inductive link_step l : Link -> Prop :=
| sender_receives fs peer e now :
    e ∈ l_to_sender l -> link_step l (sender_moves l (record_event fs (l_sender l |> set_peer peer) e now))
| sender_ticks fs now : link_step l (sender_moves l (tick_record fs (l_sender l) now))
| sender_routes routes fs now : link_step l (sender_moves l (route_record routes fs (l_sender l) now))
| sender_cancels fs now :
    is_terminal (r_state (l_sender l)) = false -> link_step l (sender_moves l (cancelled fs (l_sender l) now))
| receiver_receives fs peer e now :
    e ∈ l_to_receiver l ->
    link_step l (receiver_moves l (record_event fs (l_receiver l |> set_peer peer) e now))
| receiver_offered fs peer :
    link_step l (receiver_moves l (fs, l_receiver l |> set_peer peer,
      [Send peer (offer_response (l_receiver l))]))
| receiver_prepares fs directory now automatic :
    link_step l (receiver_moves l (prepare_receiver fs (l_receiver l) directory now automatic))
| receiver_overwrites fs directory now :
    link_step l (receiver_moves l (overwrite_staged fs (l_receiver l) directory now))
| receiver_declines fs now :
    is_terminal (r_state (l_receiver l)) = false -> link_step l (receiver_moves l (declined fs (l_receiver l) now))
| receiver_ticks fs now : link_step l (receiver_moves l (tick_record fs (l_receiver l) now))
| receiver_routes routes fs now : link_step l (receiver_moves l (route_record routes fs (l_receiver l) now))
| receiver_cancels fs now :
    is_terminal (r_state (l_receiver l)) = false ->
    link_step l (receiver_moves l (cancelled fs (l_receiver l) now)).

(** One side offered a file and the other one is deciding. *)
Inductive link_reachable : Link -> Prop :=
| link_start fs path peer fingerprint id offer now peer' fingerprint' settings now' :
    from_regular_file fs id path = Ok (Ok offer) ->
    link_reachable
      {| l_sender := sending_record peer fingerprint id offer
           (ProtoEvent.ManualFileOffer id (fst (offer_entry offer)) (snd (offer_entry offer))) now;
         l_receiver := receiving_record peer' fingerprint' id (fst (offer_entry offer))
           (snd (offer_entry offer)) settings now';
         l_content := None;
         l_to_receiver := [ProtoEvent.ManualFileOffer id (fst (offer_entry offer)) (snd (offer_entry offer))];
         l_to_sender := [] |}
| link_next l l' : link_reachable l -> link_step l l' -> link_reachable l'.

(** A sender completes on a reported success only. *)
Definition completes_on (success : bool) r o : Prop :=
  r_state (snd (fst o)) = ManualTransferState.Completed ->
  r_state r = ManualTransferState.Completed \/ success = true.

Lemma fail_completes success r fs r1 error now : completes_on success r (fail fs r1 error now).
Proof. discriminate. Qed.

Lemma same_completes success fs r r' actions :
  r_state r' = r_state r -> completes_on success r (fs, r', actions).
Proof. intros E H. left. by rewrite <- E. Qed.

Lemma ensure_source_state fs r r' s : ensure_source fs r = Ok (r', s) -> r_state r' = r_state r.
Proof.
  unfold ensure_source. destruct (r_outgoing r); [by intros [= <- _]|].
  destruct (r_offer r); [|done]. destruct (open_offer fs _); [|done]. by intros [= <- _].
Qed.

Lemma read_source_state fs r s offset length : r_state (fst (read_source fs r s offset length)) = r_state r.
Proof.
  unfold read_source. destruct (offset =? r_size r); [by destruct (finalize_digest fs s)|].
  destruct (next_chunk_bounded fs s length) as [s' [[[o d]|]|]]; [|done..]. by destruct (_ && _).
Qed.

Lemma send_chunk_completes success fs r offset length now :
  completes_on success r (send_chunk fs r offset length now).
Proof.
  unfold send_chunk. destruct (is_terminal _); [by apply same_completes|].
  destruct (_ || _); [by apply same_completes|]. destruct (_ || _ || _); [apply fail_completes|].
  destruct (if bool_decide _ then _ else None); [by apply same_completes|].
  destruct (offset <? _); [by apply same_completes|]. destruct (negb _); [apply fail_completes|].
  destruct (ensure_source fs r) as [[r1 s]|error] eqn:Es; [|apply fail_completes].
  apply ensure_source_state in Es. pose proof (read_source_state fs r1 s offset length) as Er.
  destruct (read_source fs r1 s offset length) as [r2 [response|error]]; [|apply fail_completes].
  cbn [fst] in Er. match goal with |- context [progress ?x now] => set (r3 := x) end.
  pose proof (progress_fields r3 now) as (_ & Ep & _). destruct (progress r3 now) as [r4 actions].
  apply same_completes. cbn [fst] in Ep. rewrite Ep. change (r_state r3) with (r_state r2). congruence.
Qed.

Lemma decision_completes success fs r d now :
  r_direction r = Direction.Sending -> completes_on success r (decision fs r d now).
Proof.
  intros Hd. unfold decision. rewrite Hd. destruct (is_terminal _); [by apply same_completes|].
  destruct d; [destruct (negb _); [by apply same_completes | discriminate] | | discriminate].
  destruct (_ && negb _); [apply fail_completes|]. destruct (negb _); [discriminate | by apply same_completes].
Qed.

Lemma record_event_completes fs r e now :
  r_direction r = Direction.Sending -> completes_on (reports_success e) r (record_event fs r e now).
Proof.
  intros Hd. destruct e; cbn [record_event reports_success]; try (by apply same_completes).
  - by apply decision_completes.
  - apply send_chunk_completes.
  - unfold write_chunk, direction_is. rewrite Hd. by apply same_completes.
  - unfold complete_receiver, direction_is. rewrite Hd. by apply same_completes.
  - unfold receive_result. destruct (is_terminal _); [by apply same_completes|].
    destruct success; cbn [negb]; [intros _; by right | discriminate].
  - unfold receive_cancel. destruct (is_terminal _); [by apply same_completes | discriminate].
Qed.

Lemma tick_completes fs r now : completes_on false r (tick_record fs r now).
Proof.
  unfold tick_record. destruct (is_terminal _).
  - destruct (_ && _); by apply same_completes.
  - destruct (_ && (_ <=? now)); [discriminate|]. destruct (negb _ && _); [|by apply same_completes].
    destruct (MAX_RETRIES <=? _); [discriminate | by apply same_completes].
Qed.

Lemma route_completes routes fs r now : completes_on false r (route_record routes fs r now).
Proof.
  unfold route_record. destruct (routes !! _); [by apply same_completes|].
  destruct (negb _); [discriminate | by apply same_completes].
Qed.

Lemma sender_set_peer g r peer : sender_ok size g r -> sender_ok size g (r |> set_peer peer).
Proof.
  intros Hs. pose proof (so_wf _ _ _ Hs) as W.
  pose proof (touches_evolves _ _ W (set_peer_touches r peer W)) as [_ W' _ _]. by destruct Hs; split.
Qed.

Lemma receiver_set_peer g r peer : receiver_ok g r -> receiver_ok g (r |> set_peer peer).
Proof.
  intros Hs. pose proof (ro_wf _ _ Hs) as W.
  pose proof (touches_evolves _ _ W (set_peer_touches r peer W)) as [_ W' _ _]. by destruct Hs; split.
Qed.

Lemma sender_cancelled g fs r now :
  sender_ok size g r -> is_terminal (r_state r) = false -> sender_outcome size g (cancelled fs r now).
Proof.
  intros Hs Ht. apply (sender_terminal size g fs r r _ None now
    (fun r => [send r (ProtoEvent.ManualFileCancel (r_id r)); notify r])); try done.
  - apply advanced_refl, Hs.
  - intros r'. by repeat constructor.
Qed.

Lemma sender_route g routes fs r now : sender_ok size g r -> sender_outcome size g (route_record routes fs r now).
Proof.
  intros Hs. unfold route_record. destruct (routes !! _).
  - apply (sender_step size g fs r); try done; [|by left | constructor].
    apply touches_evolves; [apply Hs|]. apply set_peer_touches, Hs.
  - destruct (is_terminal (r_state r)) eqn:Ht; cbn [negb]; [by apply sender_same; [|constructor]|].
    apply (sender_terminal size g fs r r _ (Some (str "peer disconnected")) now (fun r => [notify r])); try done.
    + apply advanced_refl, Hs.
    + intros r'. constructor.
Qed.

Lemma receiver_route g routes fs r now :
  receiver_ok g r -> receiver_outcome g r (route_record routes fs r now).
Proof.
  intros Hr. unfold route_record. destruct (routes !! _).
  - apply receiver_touch; try done; try apply Hr.
    apply touches_evolves; [apply Hr|]. apply set_peer_touches, Hr.
  - destruct (is_terminal (r_state r)) eqn:Ht; cbn [negb]; [by apply receiver_same; [|constructor]|].
    apply (receiver_terminal g fs r _ (Some (str "peer disconnected")) now (fun r => [notify r])); try done.
    intros r'. constructor.
Qed.

(** ** The invariant of both parties *)

Record link_ok l : Prop := {
  lo_sender : sender_ok size (l_content l) (l_sender l);
  lo_receiver : receiver_ok (l_content l) (l_receiver l);
  lo_truthful : Forall (truthful size (l_content l)) (l_to_receiver l);
  lo_honest : Forall (honest (r_state (l_receiver l))) (l_to_sender l);
  lo_completed : r_state (l_sender l) = ManualTransferState.Completed ->
    r_state (l_receiver l) = ManualTransferState.Completed;
}.

Lemma sender_moves_ok l o success :
  link_ok l -> sender_outcome size (l_content l) o -> completes_on success (l_sender l) o ->
  (success = true -> r_state (l_receiver l) = ManualTransferState.Completed) ->
  link_ok (sender_moves l o).
Proof.
  intros [Ls Lr Lt Lh Lc] (Hs & Ha & Hx) Hc Hsucc.
  split; cbn [sender_moves l_sender l_receiver l_content l_to_receiver l_to_sender]; try done.
  - by eapply receiver_extends.
  - apply Forall_app. split; [|done]. eapply Forall_impl; [exact Lt|]. intros e. by apply truthful_extends.
  - intros H. destruct (Hc H); auto.
Qed.

Lemma honest_absorbed r r' e : evolves r r' -> honest (r_state r) e -> honest (r_state r') e.
Proof. intros Hev He Hs. specialize (He Hs). rewrite (ev_absorbing _ _ Hev); by rewrite He. Qed.

Lemma receiver_moves_ok l o :
  link_ok l -> receiver_outcome (l_content l) (l_receiver l) o -> outcome_evolves (l_receiver l) o ->
  link_ok (receiver_moves l o).
Proof.
  intros [Ls Lr Lt Lh Lc] (Hr & Ha & _) Hev.
  split; cbn [receiver_moves l_sender l_receiver l_content l_to_receiver l_to_sender]; try done.
  - apply Forall_app. split; [|done]. eapply Forall_impl; [exact Lh|]. intros e. by apply honest_absorbed.
  - intros H. specialize (Lc H). rewrite (ev_absorbing _ _ Hev); [done | by rewrite Lc].
Qed.

(** Declining or cancelling, the peer being told by [event]. *)
Lemma receiver_stopped g fs r state event now :
  receiver_ok g r -> is_terminal (r_state r) = false -> is_terminal state = true ->
  state <> ManualTransferState.Completed -> (forall r', reports_success (event r') = false) ->
  let o := let (fs, r) := terminal fs r state None now in (fs, r, [send r (event r); notify r]) in
  receiver_outcome g r o /\ outcome_evolves r o.
Proof.
  intros Hr Ht Hs Hn He. split.
  - apply (receiver_terminal g fs r state None now (fun r => [send r (event r); notify r])); try done.
    intros r'. by repeat constructor.
  - apply (terminal_outcome fs r state None now (fun r => [send r (event r); notify r])); try done. apply Hr.
Qed.

(** A step is one of the sender or of the receiver, and keeps that side right. *)
Lemma link_step_side l l' :
  link_ok l -> link_step l l' ->
  (exists o success, l' = sender_moves l o /\ sender_outcome size (l_content l) o
     /\ completes_on success (l_sender l) o
     /\ (success = true -> r_state (l_receiver l) = ManualTransferState.Completed))
  \/ (exists o, l' = receiver_moves l o /\ receiver_outcome (l_content l) (l_receiver l) o
     /\ outcome_evolves (l_receiver l) o).
Proof.
  intros L Hstep. pose proof (lo_sender _ L) as Hs. pose proof (lo_receiver _ L) as Hr.
  pose proof (ro_wf _ _ Hr) as Wr.
  destruct Hstep as [fs peer e now He | fs now | routes fs now | fs now Ht | fs peer e now He | fs peer
    | fs directory now automatic | fs directory now | fs now Ht | fs now | routes fs now | fs now Ht].
  - left. eexists _, (reports_success e). split; [done|].
    split_and!.
    + apply sender_record_event. by apply sender_set_peer.
    + apply (record_event_completes fs (l_sender l |> set_peer peer)). apply (so_direction _ _ _ Hs).
    + intros Hsucc. exact (proj1 (Forall_forall _ _) (lo_honest _ L) e He Hsucc).
  - left. eexists _, false. split; [done|]. split_and!; try done.
    + by apply sender_tick.
    + apply tick_completes.
  - left. eexists _, false. split; [done|]. split_and!; try done.
    + by apply sender_route.
    + apply route_completes.
  - left. eexists _, false. split; [done|]. split_and!; try done.
    + by apply sender_cancelled.
  - right. eexists. split; [done|].
    pose proof (touches_evolves _ _ Wr (set_peer_touches _ peer Wr)) as Hev. split.
    + apply (receiver_record_event _ fs (l_receiver l |> set_peer peer)); [by apply receiver_set_peer |].
      exact (proj1 (Forall_forall _ _) (lo_truthful _ L) e He).
    + eapply outcome_trans; [exact Hev|]. apply record_event_outcome, Hev.
  - right. eexists. split; [done|].
    pose proof (touches_evolves _ _ Wr (set_peer_touches _ peer Wr)) as Hev. split; [|exact Hev].
    apply receiver_touch; try done; try apply Hr.
    repeat constructor. by eapply response_honest.
  - right. eexists. split; [done|]. split; [by apply receiver_prepare | by apply prepare_receiver_outcome].
  - right. eexists. split; [done|]. split; [by apply receiver_overwrite|].
    apply overwrite_staged_outcome; apply Hr.
  - right. eexists. split; [done|]. by apply (receiver_stopped _ fs (l_receiver l) ManualTransferState.Declined
      (fun r => ProtoEvent.ManualFileDecision (r_id r) ManualDecision.Declined)).
  - right. eexists. split; [done|]. split; [by apply receiver_tick | by apply tick_record_outcome].
  - right. eexists. split; [done|]. split; [by apply receiver_route | by apply route_record_outcome].
  - right. eexists. split; [done|]. by apply (receiver_stopped _ fs (l_receiver l) ManualTransferState.Cancelled
      (fun r => ProtoEvent.ManualFileCancel (r_id r))).
Qed.

Lemma link_step_size l l' : link_ok l -> link_step l l' -> link_ok l'.
Proof.
  intros L Hs. destruct (link_step_side l l' L Hs) as [(o & success & -> & H1 & H2 & H3) | (o & -> & H1 & H2)].
  - by eapply sender_moves_ok.
  - by apply receiver_moves_ok.
Qed.

(** Delivering the [n]-th message sent so far. *)
Definition arrive_at_receiver (fs : FS) (n : nat) l : Link :=
  match l_to_receiver l !! n with
  | Some e => receiver_moves l (record_event fs (l_receiver l |> set_peer (r_peer (l_receiver l))) e 1)
  | None => l
  end.
Definition arrive_at_sender (fs : FS) (n : nat) l : Link :=
  match l_to_sender l !! n with
  | Some e => sender_moves l (record_event fs (l_sender l |> set_peer (r_peer (l_sender l))) e 1)
  | None => l
  end.

Lemma arrive_at_receiver_reachable fs n l : link_reachable l -> link_reachable (arrive_at_receiver fs n l).
Proof.
  intros H. unfold arrive_at_receiver. destruct (l_to_receiver l !! n) eqn:E; [|done].
  eapply link_next; [done|]. apply receiver_receives. by eapply list_elem_of_lookup_2.
Qed.

Lemma arrive_at_sender_reachable fs n l : link_reachable l -> link_reachable (arrive_at_sender fs n l).
Proof.
  intros H. unfold arrive_at_sender. destruct (l_to_sender l !! n) eqn:E; [|done].
  eapply link_next; [done|]. apply sender_receives. by eapply list_elem_of_lookup_2.
Qed.
End delivery.

Arguments Link FS P {_}.

(** Every reachable pair of parties is right for the size that was announced. *)
Lemma link_reachable_ok {FS P : Type} `{!TransferFiles FS} `{!FilesModel FS} (l : Link FS P) :
  link_reachable l -> link_ok (r_size (l_sender l)) l.
Proof.
  intros Hr. assert (exists size, link_ok size l) as [size L].
  { induction Hr as [fs path peer fingerprint id offer now peer' fingerprint' settings now' Hf | l l' _ [size IH] Hs].
    - destruct (from_regular_file_ok _ _ _ _ Hf) as (So & _ & Hsz).
      pose proof (sending_record_wf peer fingerprint id offer (ProtoEvent.ManualFileOffer id
        (fst (offer_entry offer)) (snd (offer_entry offer))) now So Hsz) as Ws.
      pose proof (receiving_record_wf peer' fingerprint' id (fst (offer_entry offer))
        (snd (offer_entry offer)) settings now' Hsz) as Wr.
      unfold sending_record in *. exists (snd (offer_entry offer)). destruct (offer_entry offer) as [name size].
      split; cbn; try done.
      + split; try done. by intros e [= <-].
      + by repeat constructor.
    - exists size. by eapply link_step_size. }
  by rewrite (so_size _ _ _ (lo_sender _ _ L)).
Qed.



(** ** A transfer of three bytes *)

#[local] Existing Instance list_order.

Definition link_offered : Link ram Z :=
  {| l_sender := sending_record 9 (str "peer") 5 sample_offer (ProtoEvent.ManualFileOffer 5 (str "a.txt") 3) 0;
     l_receiver := receiving_record 8 (str "me") 5 (str "a.txt") 3 sample_settings 0;
     l_content := None; l_to_receiver := [ProtoEvent.ManualFileOffer 5 (str "a.txt") 3];
     l_to_sender := [] |}.
(** The receiver's disk, where its file is created when it accepts. *)
Definition inbox : ram := {[ str "/inbox" := DirNode ]}.
Definition link_accepted : Link ram Z :=
  receiver_moves link_offered (prepare_receiver inbox (l_receiver link_offered) (str "/inbox") 1 false).
Definition inbox_accepted : ram :=
  fst (fst (prepare_receiver inbox (l_receiver link_offered) (str "/inbox") 1 false)).
(** The sender learns it, the receiver asks, gets the bytes and asks for more. *)
Definition link_written : Link ram Z :=
  arrive_at_sender sample_files 2 (arrive_at_receiver inbox_accepted 2
    (arrive_at_sender sample_files 1 (arrive_at_receiver inbox_accepted 1
      (arrive_at_sender sample_files 0 link_accepted)))).
Definition link_done : Link ram Z := arrive_at_receiver inbox_accepted 3 link_written.
Definition link_confirmed : Link ram Z := arrive_at_sender sample_files 3 link_done.

Lemma link_written_reachable : link_reachable link_written.
Proof.
  unfold link_written.
  repeat first [apply arrive_at_sender_reachable | apply arrive_at_receiver_reachable].
  eapply link_next; [|apply receiver_prepares].
  apply (link_start (FS := ram) (P := Z) sample_files sample_source 9 (str "peer") 5 sample_offer
    0 8 (str "me") sample_settings 0).
  vm_compute. reflexivity.
Qed.


