(* ===== verification/ManualTransferRetry.v ===== *)
(** * Manual file transfers: retries

    What the periodic tick does to a transfer whose peer is silent: a bounded
    number of messages, and an end. *)

From S2P Require Import Prelude Wire ProtoTypes ProtoValid FileOs FileTransferTheorems ManualTransfer ManualTransferTheorems.
From S2P Require Import ManualTransferSafety ManualTransferSender.

Section retries.
Context {FS P : Type} `{!TransferFiles FS} `{!FilesModel FS}.
Implicit Types r : TransferRecord FS P.

(** The ticks of one record at the given times, with nothing in between. *)
Fixpoint ticks (fs : FS) r (times : list Z) : FS * TransferRecord FS P * list (ManualAction FS P) :=
  match times with
  | [] => (fs, r, [])
  | now :: times =>
      let '(fs, r, actions) := tick_record fs r now in
      let '(fs, r, more) := ticks fs r times in
      (fs, r, actions ++ more)
  end.

(** How many messages a record may still send by itself. *)
Definition budget r : Z :=
  if is_terminal (r_state r) then MAX_RETRIES - r_retries r
  else (MAX_RETRIES - r_retries r) + 1 + MAX_RETRIES.

Lemma budget_nonneg r : wf_record r -> 0 <= budget r <= 2 * MAX_RETRIES + 1.
Proof. intros W. pose proof (wr_retries _ W). unfold budget, MAX_RETRIES in *. destruct (is_terminal _); lia. Qed.

Lemma retry_budget r now :
  len (sent (snd (retry r now))) + budget (fst (retry r now)) <= budget r.
Proof.
  unfold retry, budget. cbn [fst snd]. change (is_terminal (r_state (fst (retry r now)))) with
    (is_terminal (r_state r)). unfold len. cbn [r_retries r_state set_last_activity set_retries r_retry_event].
  destruct (r_retry_event r), (is_terminal _); cbn; lia.
Qed.

Lemma abandon_budget fs r message now :
  wf_record r -> is_terminal (r_state r) = false ->
  let o := abandon fs r message now in len (sent (snd o)) + budget (snd (fst o)) <= budget r.
Proof.
  intros W Ht. cbv zeta. pose proof (wr_retries _ W). unfold budget. rewrite Ht. unfold len. cbn. lia.
Qed.

(** Every message of a tick is paid for. *)
Lemma tick_budget fs r now :
  wf_record r -> let o := tick_record fs r now in len (sent (snd o)) + budget (snd (fst o)) <= budget r.
Proof.
  intros W. assert (len (@sent FS P _ []) + budget r <= budget r) as Hidle by (unfold len; cbn; lia).
  pose proof (retry_budget r now) as Hretry. unfold tick_record.
  destruct (is_terminal (r_state r)) eqn:Ht.
  - destruct (_ && _); [exact Hretry | exact Hidle].
  - destruct (_ && (_ <=? now)); [by apply abandon_budget|].
    destruct (negb _ && _); [|exact Hidle].
    destruct (MAX_RETRIES <=? _); [by apply abandon_budget | exact Hretry].
Qed.

Lemma ticks_budget times : forall fs r,
  wf_record r -> let o := ticks fs r times in
  len (sent (snd o)) + budget (snd (fst o)) <= budget r /\ wf_record (snd (fst o)).
Proof.
  induction times as [|now times IH]; intros fs r W; cbn [ticks].
  - split; [unfold len; cbn; lia | done].
  - pose proof (tick_budget fs r now W) as Hb. pose proof (tick_record_outcome fs r now W) as Ho.
    destruct (tick_record fs r now) as [[fs1 r1] actions]. cbn [fst snd] in *.
    destruct (IH fs1 r1 (ev_wf _ _ Ho)) as [Hb' W'].
    destruct (ticks fs1 r1 times) as [[fs2 r2] more]. cbn [fst snd] in *.
    split; [|done]. unfold sent in *. rewrite omap_app, len_app. lia.
Qed.

(** A tick that is due, of a record that waits for its peer. *)
Definition waits r : Prop :=
  r_state r = ManualTransferState.Offering \/ r_state r = ManualTransferState.Transferring.

Lemma due_tick fs r now :
  wf_record r -> waits r -> 0 <= r_last_activity r -> r_last_activity r + RETRY_TIMEOUT <= now ->
  let r' := snd (fst (tick_record fs r now)) in
  r_state r' = ManualTransferState.Failed
  \/ waits r' /\ r_last_activity r' = now /\ r_retries r' = r_retries r + 1 /\ r_retries r < MAX_RETRIES.
Proof.
  intros W Hw H0 Hdue. cbv zeta. unfold tick_record.
  assert (is_terminal (r_state r) = false) as -> by (by destruct Hw as [-> | ->]).
  assert (state_is r ManualTransferState.AwaitingAcceptance = false) as Ha.
  { apply bool_decide_eq_false. by destruct Hw as [-> | ->]. }
  rewrite Ha. destruct (_ && (_ <=? now)); [by left|]. cbn [negb andb].
  assert ((RETRY_TIMEOUT <=? saturating_sub now (r_last_activity r)) = true) as ->.
  { unfold saturating_sub, RETRY_TIMEOUT in *. lia. }
  destruct (Z.leb_spec MAX_RETRIES (r_retries r)); [by left | by right].
Qed.

Lemma failed_stays times : forall fs r,
  wf_record r -> r_state r = ManualTransferState.Failed ->
  r_state (snd (fst (ticks fs r times))) = ManualTransferState.Failed.
Proof.
  induction times as [|now times IH]; intros fs r W Hf; cbn [ticks]; [done|].
  pose proof (tick_record_outcome fs r now W) as Ho.
  destruct (tick_record fs r now) as [[fs1 r1] actions]. unfold outcome_evolves in Ho. cbn [fst snd] in Ho.
  assert (r_state r1 = ManualTransferState.Failed) as Hf1
    by (rewrite (ev_absorbing _ _ Ho); [done | by rewrite Hf]).
  specialize (IH fs1 r1 (ev_wf _ _ Ho) Hf1). by destruct (ticks fs1 r1 times) as [[]].
Qed.

Lemma spaced_ticks_end times : forall fs r,
  wf_record r -> waits r -> 0 <= r_last_activity r -> spaced_by RETRY_TIMEOUT (r_last_activity r) times ->
  MAX_RETRIES - r_retries r < len times ->
  r_state (snd (fst (ticks fs r times))) = ManualTransferState.Failed.
Proof.
  induction times as [|now times IH]; intros fs r W Hw H0 Hs Hl; cbn [ticks].
  - pose proof (wr_retries _ W). rewrite len_nil in Hl. lia.
  - destruct Hs as [Hdue Hs]. pose proof (due_tick fs r now W Hw H0 Hdue) as Hd.
    pose proof (tick_record_outcome fs r now W) as Ho.
    destruct (tick_record fs r now) as [[fs1 r1] actions]. unfold outcome_evolves in Ho.
    cbn [fst snd] in *. pose proof (failed_stays times fs1 r1 (ev_wf _ _ Ho)) as Hf.
    specialize (IH fs1 r1 (ev_wf _ _ Ho)).
    destruct (ticks fs1 r1 times) as [[fs2 r2] more]. cbn [fst snd] in *.
    destruct Hd as [Hd | (Hw' & Ela & Ere & _)]; [auto|].
    apply IH; [done | | by rewrite Ela |]; rewrite ?Ela, ?Ere; unfold RETRY_TIMEOUT in *;
      unfold len in *; cbn in *; lia.
Qed.
End retries.

(** C22: a silent peer.  However often the periodic tick runs, a transfer that
    hears nothing sends at most seven messages; and one that waits for its
    peer's answer or data is failed by the fourth tick that is due (at the
    latest), each tick being due five seconds after the previous activity. *)
Theorem silent_peer_gives_up {FS P : Type} `{!TransferFiles FS} `{!FilesModel FS}
    (fs : FS) (r : TransferRecord FS P) (times : list Z) :
  wf_record r ->
  len (sent (snd (ticks fs r times))) <= 2 * MAX_RETRIES + 1
  /\ (waits r -> 0 <= r_last_activity r -> spaced_by RETRY_TIMEOUT (r_last_activity r) times -> 4 <= len times ->
      r_state (snd (fst (ticks fs r times))) = ManualTransferState.Failed).
Proof.
  intros W. destruct (ticks_budget times fs r W) as [Hb W'].
  pose proof (budget_nonneg _ W). pose proof (budget_nonneg _ W'). split; [lia|].
  intros Hw Hla Hs Hl. apply spaced_ticks_end; try done.
  pose proof (wr_retries _ W). unfold MAX_RETRIES in *. lia.
Qed.

#[local] Existing Instance list_order.

Definition waiting_record : TransferRecord ram Z :=
  sending_record 9 (str "peer") 5 sample_offer
    (ProtoEvent.ManualFileOffer 5 (str "a.txt") 3) 0.

Lemma silent_peer_gives_up_witness :
  r_state (snd (fst (ticks sample_files waiting_record [5000; 10000; 15000; 20000])))
    = ManualTransferState.Failed.
Proof.
  apply (silent_peer_gives_up sample_files waiting_record [5000; 10000; 15000; 20000]).
  - apply sending_record_wf; [by eexists|]. vm_compute. discriminate.
  - left. reflexivity.
  - vm_compute. discriminate.
  - cbn. repeat split; vm_compute; discriminate.
  - vm_compute. discriminate.
Defined.
