(* ===== verification/PeerProfile.v ===== *)
(** * Device profiles

    [crates/syntra-core/src/peer_profile.rs]: the name and picture a device
    publishes, sent in chunks and put together again; [DeviceProfile] of
    [crates/syntra-api/src/lib.rs]; and the handlers of the daemon that ask for
    profiles and accept them ([service/peers.rs]).  The profile cache on disk is
    a parameter: whether saving to it succeeded. *)

From S2P Require Import Prelude Wire ProtoTypes ProtoValid ProtoEncode HistorySync HistoryService.

Definition MAX_PARTIALS : Z := 8.
(** Times are in milliseconds. *)
Definition TTL : Z := 5 * 1000.
Definition MAX_DEVICE_PROFILE_NAME_BYTES : Z := 128.
Definition MAX_PEER_AVATAR_DIMENSION : Z := 128.

(** ** Profiles *)

Record PeerAvatar := {
  av_width : Z;
  av_height : Z;
  av_rgba : bytes;
}.

Record DeviceProfile := {
  pr_name : rstring;
  pr_avatar : option PeerAvatar;
}.

#[global] Instance PeerAvatar_eq_dec : EqDecision PeerAvatar.
Proof. solve_decision. Defined.
#[global] Instance DeviceProfile_eq_dec : EqDecision DeviceProfile.
Proof. solve_decision. Defined.

(** [DeviceProfile::validate] *)
Definition validate (profile : DeviceProfile) : result string unit :=
  fail_if MAX_DEVICE_PROFILE_NAME_BYTES <? len (pr_name profile)
    with "device profile display name exceeds 128 UTF-8 bytes"%string in
  match pr_avatar profile with
  | None => Ok tt
  | Some avatar =>
      fail_if (av_width avatar =? 0) || (av_height avatar =? 0)
              || (MAX_PEER_AVATAR_DIMENSION <? av_width avatar)
              || (MAX_PEER_AVATAR_DIMENSION <? av_height avatar)
        with "device profile avatar exceeds 128x128 pixels"%string in
      match profile_pixels (av_width avatar) (av_height avatar) with
      | None => Err "device profile avatar dimensions overflow"%string
      | Some expected =>
          fail_if negb (len (av_rgba avatar) =? expected)
            with "device profile avatar RGBA length does not match dimensions"%string in
          Ok tt
      end
  end.

Inductive profile_error :=
| Unpublishable (reason : string)
| Unencodable (error : ProtocolError).

Definition avatar_parts (profile : DeviceProfile) : Z * Z * bytes :=
  match pr_avatar profile with
  | Some a => (av_width a, av_height a, av_rgba a)
  | None => (0, 0, [])
  end.

Definition encode_profile (request_id : Z) (profile : DeviceProfile)
    : result profile_error (list ProtoEvent) :=
  match validate profile with
  | Err reason => Err (Unpublishable reason)
  | Ok _ =>
      let '(width, height, rgba) := avatar_parts profile in
      let total_len := len rgba mod 2 ^ 32 in
      let count := div_ceil (len rgba) MAX_PROFILE_CHUNK_SIZE mod 2 ^ 32 in
      let start := ProtoEvent.ProfileStart request_id width height total_len count (pr_name profile) in
      match encode start with
      | Err error => Err (Unencodable error)
      | Ok _ =>
          Ok (start :: imap (fun index data => ProtoEvent.ProfileChunk request_id (Z.of_nat index) data)
                            (chunks MAX_PROFILE_CHUNK_SIZE rgba))
      end
  end.

(** ** Reassembly *)

Record Partial := {
  pa_request : Z;
  pa_width : Z;
  pa_height : Z;
  pa_chunks : list (option bytes);
  pa_name : rstring;
  pa_touched : Z;
}.

(** [struct Reassembler { peers: HashMap<String, Partial> }] *)
Abbreviation ProfileReassembler := (gmap rstring Partial) (only parsing).

Record ProfileHeader := {
  ph_width : Z;
  ph_height : Z;
  ph_total_len : Z;
  ph_chunks : Z;
  ph_name : rstring;
}.

Definition expire_profiles (r : gmap rstring Partial) (now : Z) : gmap rstring Partial :=
  filter (fun '(_, partial) => saturating_sub now (pa_touched partial) < TTL) r.

Definition remove_peer (r : gmap rstring Partial) (fingerprint : rstring) : gmap rstring Partial :=
  delete fingerprint r.

Definition start_profile (r : gmap rstring Partial) (fingerprint : rstring) (request_id : Z)
    (h : ProfileHeader) (now : Z) : gmap rstring Partial * result string (option DeviceProfile) :=
  let r := expire_profiles r now in
  if (request_id =? 0) || (128 <? len (ph_name h)) || (128 <? ph_width h) || (128 <? ph_height h)
  then (r, Err "invalid profile metadata"%string)
  else if ph_total_len h =? 0 then
    if negb (ph_width h =? 0) || negb (ph_height h =? 0) || negb (ph_chunks h =? 0)
    then (r, Err "invalid empty avatar"%string)
    else (delete fingerprint r, Ok (Some {| pr_name := ph_name h; pr_avatar := None |}))
  else if (ph_width h =? 0) || (ph_height h =? 0)
          || negb (ph_width h * ph_height h * 4 =? ph_total_len h)
          || negb (ph_chunks h =? div_ceil (ph_total_len h) MAX_PROFILE_CHUNK_SIZE)
  then (r, Err "invalid avatar dimensions or chunk count"%string)
  else
  let fresh := {| pa_request := request_id; pa_width := ph_width h; pa_height := ph_height h;
                  pa_chunks := replicate (Z.to_nat (ph_chunks h)) None; pa_name := ph_name h;
                  pa_touched := now |} in
  match r !! fingerprint with
  | Some old =>
      if pa_request old =? request_id then
        if (pa_width old =? ph_width h) && (pa_height old =? ph_height h)
           && str_eqb (pa_name old) (ph_name h)
        then (r, Ok None) else (r, Err "conflicting profile start"%string)
      else (<[fingerprint := fresh]> r, Ok None)
  | None =>
      if MAX_PARTIALS <=? Z.of_nat (size r) then (r, Err "too many partial profiles"%string)
      else (<[fingerprint := fresh]> r, Ok None)
  end.

Definition with_slot (partial : Partial) (index : nat) (data : bytes) : Partial :=
  {| pa_request := pa_request partial; pa_width := pa_width partial; pa_height := pa_height partial;
     pa_chunks := <[index := Some data]> (pa_chunks partial); pa_name := pa_name partial;
     pa_touched := pa_touched partial |}.

(** [chunks.into_iter().flatten().flatten()] *)
Definition flatten_chunks (slots : list (option bytes)) : bytes := concat (omap id slots).

Definition completed_profile (partial : Partial) : DeviceProfile :=
  {| pr_name := pa_name partial;
     pr_avatar := Some {| av_width := pa_width partial; av_height := pa_height partial;
                          av_rgba := flatten_chunks (pa_chunks partial) |} |}.

Definition is_none {A} (o : option A) : bool := match o with None => true | Some _ => false end.

Definition chunk_profile (r : gmap rstring Partial) (fingerprint : rstring) (request_id index : Z)
    (data : bytes) (now : Z) : gmap rstring Partial * result string (option DeviceProfile) :=
  let r := expire_profiles r now in
  match r !! fingerprint with
  | None => (r, Err "unknown profile transfer"%string)
  | Some partial =>
      if negb (pa_request partial =? request_id) then (r, Err "profile generation mismatch"%string)
      else
      let total := pa_width partial * pa_height partial * 4 in
      match checked_mul index MAX_PROFILE_CHUNK_SIZE with
      | None => (r, Err "invalid profile index"%string)
      | Some offset =>
          if (total <=? offset) || negb (len data =? Z.min MAX_PROFILE_CHUNK_SIZE (total - offset))
          then (r, Err "invalid profile chunk size"%string)
          else
          match pa_chunks partial !! Z.to_nat index with
          | None => (r, Err "invalid profile chunk index"%string)
          | Some (Some existing) =>
              if bool_decide (existing = data) then (r, Ok None)
              else (r, Err "conflicting profile chunk"%string)
          | Some None =>
              let partial := with_slot partial (Z.to_nat index) data in
              if existsb is_none (pa_chunks partial) then (<[fingerprint := partial]> r, Ok None)
              else (delete fingerprint r, Ok (Some (completed_profile partial)))
          end
      end
  end.

(** ** The service *)

Inductive profile_output :=
| SendProfile (peer : Peer) (event : ProtoEvent)
| PeerDeviceProfile (fingerprint : rstring) (profile : DeviceProfile)
| ProfileNotSaved (error : rstring).

Section service.
Context {Store : Type}.
(** [save_cached]: the error, if it failed. *)
Context (save_cached : rstring -> DeviceProfile -> option rstring).

(** The fields of [Service] about profiles, beside those of the history
    handlers, with which they share the routes and the request ids. *)
Record ProfileState := {
  s_history : HistoryState Store;
  s_partials : gmap rstring Partial;
  s_profiles : gmap rstring DeviceProfile;
  s_requests : gmap rstring (Z * Z * Z);
  s_local : DeviceProfile;
}.

Abbreviation profile_effects := (ProfileState * list profile_output)%type (only parsing).

Definition with_requests (s : ProfileState) (requests : gmap rstring (Z * Z * Z)) : ProfileState :=
  {| s_history := s_history s; s_partials := s_partials s; s_profiles := s_profiles s;
     s_requests := requests; s_local := s_local s |}.
Definition with_partials (s : ProfileState) (partials : gmap rstring Partial) : ProfileState :=
  {| s_history := s_history s; s_partials := partials; s_profiles := s_profiles s;
     s_requests := s_requests s; s_local := s_local s |}.

(** A new request id, the request recorded and sent. *)
Definition ask_profile (s : ProfileState) (fingerprint : rstring) (peer : Peer) (retries now : Z)
    : profile_effects :=
  let (h, request_id) := next_history_request_id (s_history s) in
  ({| s_history := h; s_partials := s_partials s; s_profiles := s_profiles s;
      s_requests := <[fingerprint := (request_id, retries, now)]> (s_requests s);
      s_local := s_local s |},
   [SendProfile peer (ProtoEvent.ProfileRequest request_id)]).

Definition request_profile (s : ProfileState) (fingerprint : rstring) (peer : Peer) (now : Z)
    : profile_effects :=
  match s_requests s !! fingerprint with
  | Some _ => (s, [])
  | None => ask_profile s fingerprint peer 0 now
  end.

(** The loop of [retry_profiles] over the requests that are due. *)
Fixpoint retry_each (s : ProfileState) (routes : gmap rstring Peer) (expired : list (rstring * Z))
    (now : Z) : profile_effects :=
  match expired with
  | [] => (s, [])
  | (fingerprint, retries) :: expired =>
      let s := with_requests s (delete fingerprint (s_requests s)) in
      let s := with_partials s (remove_peer (s_partials s) fingerprint) in
      let (s, sent) :=
        if 3 <=? retries then (s, [])
        else match routes !! fingerprint with
             | Some peer => ask_profile s fingerprint peer (retries + 1) now
             | None => (s, [])
             end in
      let (s, more) := retry_each s routes expired now in
      (s, sent ++ more)
  end.

Definition due_requests (requests : gmap rstring (Z * Z * Z)) (now : Z) : list (rstring * Z) :=
  (fun '(fingerprint, (_, retries, _)) => (fingerprint, retries))
    <$> map_to_list (filter (fun '(_, (_, _, sent)) => 2 * 1000 <= saturating_sub now sent) requests).

Definition retry_profiles (s : ProfileState) (now : Z) : profile_effects :=
  let s := with_partials s (expire_profiles (s_partials s) now) in
  let routes := connected_authenticated_peers (s_history s) in
  retry_each s routes (due_requests (s_requests s) now) now.

Definition accept_profile (s : ProfileState) (fingerprint : rstring) (profile : DeviceProfile)
    : profile_effects :=
  let s := with_requests s (delete fingerprint (s_requests s)) in
  if bool_decide (s_profiles s !! fingerprint = Some profile) then (s, [])
  else
    ({| s_history := s_history s; s_partials := s_partials s;
        s_profiles := <[fingerprint := profile]> (s_profiles s);
        s_requests := s_requests s; s_local := s_local s |},
     match save_cached fingerprint profile with
     | Some error => [ProfileNotSaved error]
     | None => []
     end ++ [PeerDeviceProfile fingerprint profile]).

(** The outcome of [start] or [chunk]: a finished profile is accepted, an error
    only logged. *)
Definition on_profile_result (s : ProfileState) (identity : rstring)
    (o : gmap rstring Partial * result string (option DeviceProfile)) : profile_effects :=
  let (partials, outcome) := o in
  let s := with_partials s partials in
  match outcome with
  | Ok (Some profile) => accept_profile s identity profile
  | Ok None | Err _ => (s, [])
  end.

Definition outstanding (s : ProfileState) (identity : rstring) (request_id : Z) : bool :=
  match s_requests s !! identity with Some (id, _, _) => id =? request_id | None => false end.

(** The profile arms of [handle_peer_protocol]. *)
Definition handle_profile (s : ProfileState) (peer : Peer) (e : ProtoEvent) (now : Z) : profile_effects :=
  match authenticated (s_history s) !! peer with
  | None => (s, [])
  | Some identity =>
      match e with
      | ProtoEvent.ProfileChanged =>
          let s := with_requests s (delete identity (s_requests s)) in
          request_profile (with_partials s (remove_peer (s_partials s) identity)) identity peer now
      | ProtoEvent.ProfileRequest request_id =>
          (s, match encode_profile request_id (s_local s) with
              | Ok events => SendProfile peer <$> events
              | Err _ => []
              end)
      | ProtoEvent.ProfileStart request_id width height total_len count name =>
          if outstanding s identity request_id then
            on_profile_result s identity
              (start_profile (s_partials s) identity request_id
                 {| ph_width := width; ph_height := height; ph_total_len := total_len;
                    ph_chunks := count; ph_name := name |} now)
          else (s, [])
      | ProtoEvent.ProfileChunk request_id index data =>
          if outstanding s identity request_id then
            on_profile_result s identity (chunk_profile (s_partials s) identity request_id index data now)
          else (s, [])
      | _ => (s, [])
      end
  end.
End service.
Arguments ProfileState Store : clear implicits.
