(* ===== verification/PeerProfileTheorems.v ===== *)
(** * Device profiles: theorems

    Partial profiles are few, small and well formed; a finished profile is one
    that its sender could have published; the chunks of a profile are put
    together to it in any order; and requests are retried a bounded number of
    times. *)

From S2P Require Import Prelude Wire ProtoTypes ProtoValid ProtoEncode ProtoDecode ProtoRoundTrip.
From S2P Require Import HistorySync HistorySyncTheorems HistoryService PeerProfile.

Abbreviation PIECE := MAX_PROFILE_CHUNK_SIZE (only parsing).

(** ** The invariant of the reassembler *)

Definition profile_total (p : Partial) : Z := pa_width p * pa_height p * 4.

(** The length of the piece at [index] of [total] bytes. *)
Definition piece_len (total index : Z) : Z := Z.min PIECE (total - index * PIECE).

Record wf_partial (p : Partial) : Prop := {
  wp_width : 1 <= pa_width p <= 128;
  wp_height : 1 <= pa_height p <= 128;
  wp_name : len (pa_name p) <= 128;
  wp_count : len (pa_chunks p) = div_ceil (profile_total p) PIECE;
  wp_missing : existsb is_none (pa_chunks p) = true;
  wp_slots i data : pa_chunks p !! i = Some (Some data) ->
    len data = piece_len (profile_total p) (Z.of_nat i);
}.

Record wf_partials (r : gmap rstring Partial) : Prop := {
  wps_few : Z.of_nat (size r) <= MAX_PARTIALS;
  wps_each : map_Forall (fun _ => wf_partial) r;
}.

Lemma piece_pos : 0 < PIECE.
Proof. done. Qed.

Lemma total_bounds p : wf_partial p -> 4 <= profile_total p <= MAX_PROFILE_SIZE.
Proof. intros [Hw Hh _ _ _ _]. unfold profile_total, MAX_PROFILE_SIZE. nia. Qed.

Lemma expire_wf r now : wf_partials r -> wf_partials (expire_profiles r now).
Proof.
  intros [Hs He]. unfold expire_profiles. split.
  - pose proof (map_filter_subseteq (fun '(_, p) => saturating_sub now (pa_touched p) < TTL) r) as Hsub.
    apply map_subseteq_size in Hsub. lia.
  - intros k p Hk. apply map_lookup_filter_Some in Hk as [Hk _]. by eapply He.
Qed.

Lemma delete_partials_wf r fingerprint : wf_partials r -> wf_partials (delete fingerprint r).
Proof.
  intros [Hs He]. split; [|by apply map_Forall_delete].
  pose proof (map_subseteq_size _ _ (delete_subseteq r fingerprint)). lia.
Qed.

Lemma insert_partials_wf r fingerprint p :
  wf_partials r -> wf_partial p -> is_Some (r !! fingerprint) \/ Z.of_nat (size r) < MAX_PARTIALS ->
  wf_partials (<[fingerprint := p]> r).
Proof.
  intros [Hs He] Hp Hroom. split; [|by apply map_Forall_insert_2].
  destruct (r !! fingerprint) as [old|] eqn:E.
  - rewrite map_size_insert_Some by (by rewrite E). done.
  - rewrite map_size_insert_None by done. destruct Hroom as [[]|]; [done | lia].
Qed.

Lemma existsb_replicate n : (0 < n)%nat -> existsb is_none (replicate n (@None bytes)) = true.
Proof. by destruct n; [lia|]. Qed.

Definition wf_header (h : ProfileHeader) : bool :=
  is_u32 (ph_width h) && is_u32 (ph_height h) && is_u32 (ph_total_len h) && is_u32 (ph_chunks h).

(** What a delivered profile satisfies. *)
Lemma validate_plain name : len name <= 128 -> validate {| pr_name := name; pr_avatar := None |} = Ok tt.
Proof. intros H. unfold validate, MAX_DEVICE_PROFILE_NAME_BYTES. cbn. by rewrite (proj2 (Z.ltb_ge _ _) H). Qed.

Lemma start_profile_wf r fingerprint request_id h now :
  wf_header h = true -> wf_partials r ->
  wf_partials (fst (start_profile r fingerprint request_id h now))
  /\ forall profile, snd (start_profile r fingerprint request_id h now) = Ok (Some profile) ->
       validate profile = Ok tt.
Proof.
  intros Hh Hr0. pose proof (expire_wf r now Hr0) as Hr. unfold wf_header in Hh. boolsplit.
  unfold start_profile. set (r' := expire_profiles r now) in *. clearbody r'.
  destruct (_ || _ || _ || _) eqn:E1; [done|]. boolsplit.
  destruct (Z.eqb_spec (ph_total_len h) 0).
  - destruct (_ || _ || _); [done|]. split; [by apply delete_partials_wf|].
    cbn. intros profile [= <-]. apply validate_plain. lia.
  - destruct ((_ =? 0) || _ || _ || _) eqn:E2; [done|]. boolsplit.
    set (fresh := Build_Partial _ _ _ _ _ _).
    assert (0 <= ph_width h /\ 0 <= ph_height h) as [? ?] by (unfold is_uint in *; boolsplit; lia).
    assert (wf_partial fresh) as Hf.
    { assert (0 < div_ceil (ph_total_len h) PIECE) as Hpos.
      { apply div_ceil_pos; [unfold is_uint in *; boolsplit; lia | done]. }
      assert (ph_total_len h = profile_total fresh) as Et by (unfold profile_total; cbn; lia).
      split; cbn [pa_width pa_height pa_name pa_chunks fresh].
      - lia.
      - lia.
      - lia.
      - unfold len. rewrite length_replicate. fold fresh. rewrite <- Et. lia.
      - apply existsb_replicate. lia.
      - intros i data Hi. apply lookup_replicate in Hi as [Hi _]. done. }
    destruct (r' !! fingerprint) as [old|] eqn:Hold.
    + destruct (pa_request old =? request_id); [by destruct (_ && str_eqb _ _)|].
      split; [|by intros ? [=]]. apply insert_partials_wf; [done | done | left; by rewrite Hold].
    + destruct (Z.leb_spec MAX_PARTIALS (Z.of_nat (size r'))); [done|].
      split; [|by intros ? [=]]. apply insert_partials_wf; [done | done | by right].
Qed.

(** ** Complete profiles *)

Lemma flatten_cons_some d slots : flatten_chunks (Some d :: slots) = d ++ flatten_chunks slots.
Proof. done. Qed.

Lemma flatten_len slots : forall total,
  existsb is_none slots = false ->
  (forall i data, slots !! i = Some (Some data) -> len data = piece_len total (Z.of_nat i)) ->
  0 < total -> (len slots - 1) * PIECE < total <= len slots * PIECE ->
  len (flatten_chunks slots) = total.
Proof.
  pose proof piece_pos. induction slots as [|s slots IH]; intros total Hfull Hlen Hpos Hb.
  - rewrite len_nil in Hb. lia.
  - cbn in Hfull. apply orb_false_iff in Hfull as [Hs Hfull]. destruct s as [d|]; [|done].
    rewrite flatten_cons_some, len_app. rewrite len_cons in Hb.
    rewrite (Hlen 0%nat d eq_refl). unfold piece_len. rewrite Z.mul_0_l, Z.sub_0_r.
    destruct (decide (slots = [])) as [-> | Hne].
    + rewrite !(len_nil (A := option bytes)) in Hb. change (len (flatten_chunks [])) with 0. lia.
    + assert (0 < len slots) by (destruct slots; [done|]; rewrite len_cons; pose proof (len_nonneg slots); lia).
      rewrite (IH (total - PIECE)); [nia | done | | nia | nia].
      intros i data Hi. rewrite (Hlen (S i) data Hi). unfold piece_len. f_equal. nia.
Qed.

Lemma with_slot_fields p i data :
  pa_width (with_slot p i data) = pa_width p /\ pa_height (with_slot p i data) = pa_height p
  /\ pa_name (with_slot p i data) = pa_name p /\ pa_touched (with_slot p i data) = pa_touched p
  /\ pa_request (with_slot p i data) = pa_request p
  /\ profile_total (with_slot p i data) = profile_total p.
Proof. done. Qed.

(** A slot filled with a piece of the right length. *)
Lemma with_slot_slots p i data j d :
  wf_partial p -> len data = piece_len (profile_total p) (Z.of_nat i) ->
  pa_chunks (with_slot p i data) !! j = Some (Some d) -> len d = piece_len (profile_total p) (Z.of_nat j).
Proof.
  intros W Hd Hj. cbn in Hj. apply list_lookup_insert_Some in Hj as [(<- & [= <-] & _) | [_ Hj]]; [done|].
  by apply (wp_slots _ W).
Qed.

Lemma completed_valid p :
  1 <= pa_width p <= 128 -> 1 <= pa_height p <= 128 -> len (pa_name p) <= 128 ->
  len (flatten_chunks (pa_chunks p)) = profile_total p -> validate (completed_profile p) = Ok tt.
Proof.
  intros Hw Hh Hn Hl. unfold validate, completed_profile, MAX_DEVICE_PROFILE_NAME_BYTES.
  cbn [pr_name pr_avatar av_width av_height av_rgba].
  rewrite (proj2 (Z.ltb_ge _ _) Hn).
  assert ((pa_width p =? 0) || (pa_height p =? 0) || (MAX_PEER_AVATAR_DIMENSION <? pa_width p)
    || (MAX_PEER_AVATAR_DIMENSION <? pa_height p) = false) as -> by (unfold MAX_PEER_AVATAR_DIMENSION; lia).
  unfold profile_pixels, checked_mul.
  assert (pa_width p * pa_height p <= u64_max /\ pa_width p * pa_height p * 4 <= u64_max) as [H1 H2]
    by (unfold u64_max; nia).
  rewrite (proj2 (Z.leb_le _ _) H1). cbn. rewrite (proj2 (Z.leb_le _ _) H2).
  rewrite Hl. unfold profile_total. by rewrite Z.eqb_refl.
Qed.

Lemma chunk_profile_wf r fingerprint request_id index data now :
  0 <= index -> wf_partials r ->
  wf_partials (fst (chunk_profile r fingerprint request_id index data now))
  /\ forall profile, snd (chunk_profile r fingerprint request_id index data now) = Ok (Some profile) ->
       validate profile = Ok tt.
Proof.
  intros Hix Hr0. pose proof (expire_wf r now Hr0) as Hr. unfold chunk_profile.
  set (r' := expire_profiles r now) in *. clearbody r'.
  destruct (r' !! fingerprint) as [p|] eqn:Hp; [|done].
  assert (wf_partial p) as W by exact (wps_each _ Hr _ _ Hp).
  destruct (negb _); [done|]. fold (profile_total p).
  destruct (checked_mul index PIECE) as [offset|] eqn:Hm; [|done].
  assert (offset = index * PIECE) as ->.
  { unfold checked_mul in Hm. destruct (_ <=? _); congruence. }
  destruct ((_ <=? _) || _) eqn:E; [done|]. boolsplit.
  destruct (pa_chunks p !! Z.to_nat index) as [[existing|]|] eqn:Hslot; [by case_bool_decide | | done].
  assert (len data = piece_len (profile_total p) (Z.of_nat (Z.to_nat index))) as Hd.
  { rewrite Z2Nat.id by done. unfold piece_len. lia. }
  pose proof (with_slot_fields p (Z.to_nat index) data) as (Fw & Fh & Fn & _ & _ & Ft).
  assert (len (pa_chunks (with_slot p (Z.to_nat index) data)) = len (pa_chunks p)) as Fl.
  { unfold len. cbn. by rewrite length_insert. }
  pose proof (fun j d => with_slot_slots p (Z.to_nat index) data j d W Hd) as Hslots.
  set (p' := with_slot p (Z.to_nat index) data) in *. clearbody p'.
  destruct (existsb is_none (pa_chunks p')) eqn:Hmissing.
  - split; [|by intros ? [=]]. apply insert_partials_wf; [done | | left; by rewrite Hp].
    destruct W. split; rewrite ?Fw, ?Fh, ?Fn, ?Ft; try done. by rewrite Fl.
  - split; [by apply delete_partials_wf|]. cbn [snd]. intros profile [= <-].
    pose proof (total_bounds p W) as Htot.
    pose proof (div_ceil_spec (profile_total p) PIECE ltac:(lia) piece_pos) as Hc.
    destruct W. rewrite <- wp_count0 in Hc. apply completed_valid; rewrite ?Fw, ?Fh, ?Fn, ?Ft; try done.
    apply flatten_len; [done | done | lia |]. rewrite Fl.
    destruct (Z.eqb_spec (profile_total p) 0); lia.
Qed.

(** ** Runs of the reassembler *)

Inductive profile_op :=
| OpStart (fingerprint : rstring) (request_id : Z) (h : ProfileHeader) (now : Z)
| OpChunk (fingerprint : rstring) (request_id index : Z) (data : bytes) (now : Z)
| OpExpire (now : Z)
| OpRemove (fingerprint : rstring).

(** The value types of the arguments. *)
Definition wf_profile_op (o : profile_op) : bool :=
  match o with
  | OpStart _ _ h _ => wf_header h
  | OpChunk _ _ index _ _ => is_u32 index
  | OpExpire _ | OpRemove _ => true
  end.

(** A call and the profile it delivered. *)
Definition tell (fingerprint : rstring) (o : gmap rstring Partial * result string (option DeviceProfile))
    : gmap rstring Partial * list (rstring * DeviceProfile) :=
  (fst o, match snd o with Ok (Some profile) => [(fingerprint, profile)] | _ => [] end).

Definition profile_step (r : gmap rstring Partial) (o : profile_op)
    : gmap rstring Partial * list (rstring * DeviceProfile) :=
  match o with
  | OpStart fingerprint request_id h now => tell fingerprint (start_profile r fingerprint request_id h now)
  | OpChunk fingerprint request_id index data now =>
      tell fingerprint (chunk_profile r fingerprint request_id index data now)
  | OpExpire now => (expire_profiles r now, [])
  | OpRemove fingerprint => (remove_peer r fingerprint, [])
  end.

Fixpoint profile_run (r : gmap rstring Partial) (ops : list profile_op)
    : gmap rstring Partial * list (rstring * DeviceProfile) :=
  match ops with
  | [] => (r, [])
  | o :: ops =>
      let (r, told) := profile_step r o in
      let (r, more) := profile_run r ops in
      (r, told ++ more)
  end.

Definition all_valid (told : list (rstring * DeviceProfile)) : Prop :=
  Forall (fun entry => validate (snd entry) = Ok tt) told.

Lemma tell_valid fingerprint o :
  (forall profile, snd o = Ok (Some profile) -> validate profile = Ok tt) -> all_valid (snd (tell fingerprint o)).
Proof.
  intros H. unfold tell. cbn [snd]. destruct (snd o) as [[profile|]|]; repeat constructor. by apply H.
Qed.

Lemma profile_step_wf r o :
  wf_profile_op o = true -> wf_partials r ->
  wf_partials (fst (profile_step r o)) /\ all_valid (snd (profile_step r o)).
Proof.
  intros Ho Hr. destruct o as [fp id h now | fp id index data now | now | fp]; cbn in Ho; cbn [profile_step].
  - destruct (start_profile_wf r fp id h now Ho Hr) as [Hw Hv]. split; [exact Hw | by apply tell_valid].
  - destruct (chunk_profile_wf r fp id index data now) as [Hw Hv]; [unfold is_uint in Ho; boolsplit; lia | done |].
    split; [exact Hw | by apply tell_valid].
  - split; [by apply expire_wf | constructor].
  - split; [by apply delete_partials_wf | constructor].
Qed.

Lemma profile_run_wf ops : forall r,
  forallb wf_profile_op ops = true -> wf_partials r ->
  wf_partials (fst (profile_run r ops)) /\ all_valid (snd (profile_run r ops)).
Proof.
  induction ops as [|o ops IH]; intros r Hops Hr; [by split; [|constructor]|].
  cbn in Hops. apply andb_true_iff in Hops as [Ho Hops]. cbn [profile_run].
  destruct (profile_step_wf r o Ho Hr) as [Hw Hv]. destruct (profile_step r o) as [r1 told].
  destruct (IH r1 Hops Hw) as [Hw' Hv']. destruct (profile_run r1 ops) as [r2 more].
  split; [done|]. apply Forall_app. done.
Qed.

(** ** The memory of partial profiles *)

Lemma flatten_bound slots : forall total,
  (forall i data, slots !! i = Some (Some data) -> len data = piece_len total (Z.of_nat i)) ->
  (len slots - 1) * PIECE < total -> len (flatten_chunks slots) <= Z.max 0 total.
Proof.
  pose proof piece_pos. induction slots as [|s slots IH]; intros total Hlen Hb; [unfold len; cbn; lia|].
  rewrite len_cons in Hb. pose proof (len_nonneg slots).
  assert (len (flatten_chunks slots) <= Z.max 0 (total - PIECE)) as Htail.
  { apply IH; [|nia]. intros i data Hi. rewrite (Hlen (S i) data Hi). unfold piece_len. f_equal. nia. }
  destruct s as [d|].
  - rewrite flatten_cons_some, len_app, (Hlen 0%nat d eq_refl). unfold piece_len. nia.
  - change (flatten_chunks (None :: slots)) with (flatten_chunks slots). lia.
Qed.

Definition held_bytes (r : gmap rstring Partial) : Z :=
  map_fold (fun _ p sum => len (flatten_chunks (pa_chunks p)) + sum) 0 r.

Lemma partial_held p : wf_partial p -> len (flatten_chunks (pa_chunks p)) <= MAX_PROFILE_SIZE.
Proof.
  intros W. pose proof (total_bounds p W).
  pose proof (div_ceil_spec (profile_total p) PIECE ltac:(lia) piece_pos) as Hc.
  assert (len (flatten_chunks (pa_chunks p)) <= Z.max 0 (profile_total p)); [|lia].
  destruct W. rewrite <- wp_count0 in Hc. apply flatten_bound; [done|].
  destruct (Z.eqb_spec (profile_total p) 0); lia.
Qed.

Lemma held_bytes_bound r :
  map_Forall (fun _ => wf_partial) r -> held_bytes r <= Z.of_nat (size r) * MAX_PROFILE_SIZE.
Proof.
  unfold held_bytes. induction r as [|k p r Hk IH] using map_ind; intros Hr.
  - by rewrite map_fold_empty, map_size_empty.
  - apply map_Forall_insert in Hr as [Hp Hr]; [|done]. pose proof (partial_held p Hp). specialize (IH Hr).
    rewrite map_fold_insert_L; [|intros; lia | done]. rewrite map_size_insert_None by done. lia.
Qed.

(** Reassembling profiles.  Whatever sequence of starts, chunks, expiries
    and removals the reassembler is given, at most 8 profiles are incomplete,
    together they hold at most 512 KiB of pictures, and every profile it
    delivers is one that [validate] accepts: a name of at most 128 bytes and a
    picture of at most 128 by 128 pixels with exactly its bytes. *)
Theorem profiles_bounded (ops : list profile_op) :
  forallb wf_profile_op ops = true ->
  let '(r, told) := profile_run ∅ ops in
  Z.of_nat (size r) <= MAX_PARTIALS
  /\ held_bytes r <= MAX_PARTIALS * MAX_PROFILE_SIZE
  /\ Forall (fun '(_, profile) => validate profile = Ok tt) told.
Proof.
  intros Hops. destruct (profile_run_wf ops ∅ Hops) as [[Hs He] Hv]; [by split|].
  destruct (profile_run ∅ ops) as [r told]. cbn [fst snd] in *. split_and!; [done | |].
  - pose proof (held_bytes_bound r He). unfold MAX_PROFILE_SIZE in *. nia.
  - eapply Forall_impl; [exact Hv|]. by intros [].
Qed.

Definition sample_header : ProfileHeader :=
  {| ph_width := 1; ph_height := 1; ph_total_len := 4; ph_chunks := 1; ph_name := str "desk" |}.

Lemma profiles_bounded_witness :
  Forall (fun '(_, profile) => validate profile = Ok tt)
    (snd (profile_run ∅ [OpStart (str "peer") 7 sample_header 0; OpChunk (str "peer") 7 0 [1; 2; 3; 4] 1])).
Proof.
  pose proof (profiles_bounded [OpStart (str "peer") 7 sample_header 0;
    OpChunk (str "peer") 7 0 [1; 2; 3; 4] 1] eq_refl) as H.
  destruct (profile_run _ _) as [r told]. exact (proj2 (proj2 H)).
Defined.

(** ** A profile reaches the peer *)

Definition delivered_to (fingerprint : rstring) (told : list (rstring * DeviceProfile)) : list DeviceProfile :=
  omap (fun entry => if decide (fst entry = fingerprint) then Some (snd entry) else None) told.

Lemma delivered_app fingerprint a b :
  delivered_to fingerprint (a ++ b) = delivered_to fingerprint a ++ delivered_to fingerprint b.
Proof. apply omap_app. Qed.

(** The call a received event makes at time [now]. *)
Definition profile_op_of (fingerprint : rstring) (now : Z) (e : ProtoEvent) : option profile_op :=
  match e with
  | ProtoEvent.ProfileStart request_id width height total_len count name =>
      Some (OpStart fingerprint request_id
              {| ph_width := width; ph_height := height; ph_total_len := total_len;
                 ph_chunks := count; ph_name := name |} now)
  | ProtoEvent.ProfileChunk request_id index data => Some (OpChunk fingerprint request_id index data now)
  | _ => None
  end.

(** Traffic of other peers, before the profile started at [started] expires. *)
Definition other_profile_op (fingerprint : rstring) (started : Z) (o : profile_op) : Prop :=
  match o with
  | OpStart f _ _ now | OpChunk f _ _ _ now => f <> fingerprint /\ saturating_sub now started < TTL
  | OpExpire now => saturating_sub now started < TTL
  | OpRemove f => f <> fingerprint
  end.

Section delivery.
Context (fingerprint : rstring) (request_id : Z) (started : Z).
Implicit Types r : gmap rstring Partial.

Lemma expire_keeps r now :
  (forall p, r !! fingerprint = Some p -> pa_touched p = started) -> saturating_sub now started < TTL ->
  expire_profiles r now !! fingerprint = r !! fingerprint.
Proof.
  intros Ht Hin. unfold expire_profiles. destruct (r !! fingerprint) as [p|] eqn:E.
  - apply map_lookup_filter_Some. split; [done|]. by rewrite (Ht p eq_refl).
  - apply map_lookup_filter_None. by left.
Qed.

Lemma start_elsewhere r f id h now :
  f <> fingerprint -> fst (start_profile r f id h now) !! fingerprint = expire_profiles r now !! fingerprint.
Proof.
  intros Hf. unfold start_profile. destruct (_ || _ || _ || _); [done|].
  destruct (ph_total_len h =? 0).
  - destruct (_ || _ || _); [done|]. by apply lookup_delete_ne.
  - destruct ((_ =? 0) || _ || _ || _); [done|]. destruct (_ !! f).
    + destruct (pa_request _ =? id); [by destruct (_ && str_eqb _ _)|]. by apply lookup_insert_ne.
    + destruct (MAX_PARTIALS <=? _); [done|]. by apply lookup_insert_ne.
Qed.

Lemma chunk_elsewhere r f id index data now :
  f <> fingerprint ->
  fst (chunk_profile r f id index data now) !! fingerprint = expire_profiles r now !! fingerprint.
Proof.
  intros Hf. unfold chunk_profile. destruct (_ !! f) as [p|]; [|done]. destruct (negb _); [done|].
  destruct (checked_mul _ _); [|done]. destruct (_ || _); [done|].
  destruct (pa_chunks p !! _) as [[]|]; [by case_bool_decide | | done].
  destruct (existsb _ _); [by apply lookup_insert_ne | by apply lookup_delete_ne].
Qed.

Lemma tell_elsewhere f o : f <> fingerprint -> delivered_to fingerprint (snd (tell f o)) = [].
Proof.
  intros Hf. unfold tell. cbn [snd]. destruct (snd o) as [[profile|]|]; [|done..].
  cbn. by rewrite decide_False.
Qed.

Lemma other_keeps r o :
  (forall p, r !! fingerprint = Some p -> pa_touched p = started) -> other_profile_op fingerprint started o ->
  fst (profile_step r o) !! fingerprint = r !! fingerprint
  /\ delivered_to fingerprint (snd (profile_step r o)) = [].
Proof.
  intros Ht Ho. destruct o as [f id h now | f id index data now | now | f]; cbn [profile_step].
  - destruct Ho as [Hf Hin]. split; [|by apply tell_elsewhere].
    unfold tell. cbn [fst]. rewrite start_elsewhere by done. by apply expire_keeps.
  - destruct Ho as [Hf Hin]. split; [|by apply tell_elsewhere].
    unfold tell. cbn [fst]. rewrite chunk_elsewhere by done. by apply expire_keeps.
  - split; [by apply expire_keeps | done].
  - split; [by apply lookup_delete_ne | done].
Qed.

(** ** Own chunks *)

Context (avatar : PeerAvatar) (name : rstring).
Hypothesis Hw : 1 <= av_width avatar <= 128.
Hypothesis Hh : 1 <= av_height avatar <= 128.
Hypothesis Hlen : len (av_rgba avatar) = av_width avatar * av_height avatar * 4.

Abbreviation parts := (chunks PIECE (av_rgba avatar)) (only parsing).
Definition published : DeviceProfile := {| pr_name := name; pr_avatar := Some avatar |}.

Record assembling (p : Partial) : Prop := {
  as_request : pa_request p = request_id;
  as_width : pa_width p = av_width avatar;
  as_height : pa_height p = av_height avatar;
  as_name : pa_name p = name;
  as_touched : pa_touched p = started;
  as_partial : partial parts (pa_chunks p);
}.

Lemma rgba_nonempty : av_rgba avatar <> [].
Proof using Hw Hh Hlen. intros E. rewrite E, len_nil in Hlen. nia. Qed.

(** The piece at [i] passes the size checks of [chunk]. *)
Lemma part_checks i part :
  parts !! i = Some part ->
  checked_mul (Z.of_nat i) PIECE = Some (Z.of_nat i * PIECE)
  /\ Z.of_nat i * PIECE < len (av_rgba avatar)
  /\ len part = Z.min PIECE (len (av_rgba avatar) - Z.of_nat i * PIECE).
Proof using Hw Hh Hlen.
  intros Hi. pose proof piece_pos. rewrite (chunks_lookup PIECE _ piece_pos) in Hi.
  destruct (decide _) as [Hlt|]; [|done]. injection Hi as <-. split_and!; [|done|].
  - unfold checked_mul. rewrite (proj2 (Z.leb_le _ _)); [done|]. unfold u64_max. nia.
  - rewrite len_take, len_drop. nia.
Qed.

Lemma flatten_gather slots data : gather slots = Some data -> flatten_chunks slots = data.
Proof.
  revert data. induction slots as [|[d|] slots IH]; intros data Hg; cbn [gather] in Hg;
    [by injection Hg as <- | | done].
  destruct (gather slots) as [rest|]; [|done]. injection Hg as <-.
  rewrite flatten_cons_some. f_equal. by apply IH.
Qed.

Lemma none_missing slots : existsb is_none slots = false <-> Forall (is_Some (A := bytes)) slots.
Proof.
  induction slots as [|[d|] slots IH]; cbn; [by split | |].
  - rewrite IH, Forall_cons. split; [by eauto | by intros []].
  - split; [done|]. rewrite Forall_cons. by intros [[] _].
Qed.

Lemma assembled p : assembling p -> existsb is_none (pa_chunks p) = false -> completed_profile p = published.
Proof.
  intros [_ Ew Eh En _ Hp] Hfull. apply none_missing in Hfull.
  pose proof (flatten_gather _ _ (partial_gather _ _ Hp Hfull)) as Hf.
  rewrite (chunks_concat PIECE _ piece_pos) in Hf.
  unfold completed_profile, published. rewrite Ew, Eh, En, Hf. by destruct avatar.
Qed.

(** One of the profile's own chunks arrives in time. *)
Definition own_op (o : profile_op) : Prop :=
  exists i part now, parts !! i = Some part /\ saturating_sub now started < TTL
    /\ o = OpChunk fingerprint request_id (Z.of_nat i) part now.

Lemma own_chunk r p i part now :
  r !! fingerprint = Some p -> assembling p -> parts !! i = Some part -> saturating_sub now started < TTL ->
  let s := profile_step r (OpChunk fingerprint request_id (Z.of_nat i) part now) in
  (exists p', fst s !! fingerprint = Some p' /\ assembling p' /\ delivered_to fingerprint (snd s) = []
     /\ existsb is_none (pa_chunks p') = existsb is_none (pa_chunks p)
     /\ (forall j, pa_chunks p' !! j = Some None -> pa_chunks p !! j = Some None /\ j <> i))
  \/ (fst s !! fingerprint = None /\ delivered_to fingerprint (snd s) = [published]).
Proof using Hw Hh Hlen.
  intros Hp Has Hi Hin. pose proof Has as [Er Ew Eh En Et Hpart].
  destruct (part_checks i part Hi) as (Hmul & Hoff & Hl).
  assert (expire_profiles r now !! fingerprint = Some p) as Hx.
  { rewrite expire_keeps; [done | | done]. intros p0 Hp0. congruence. }
  cbv zeta. cbn [profile_step]. unfold tell, chunk_profile.
  rewrite Hx, Er, Z.eqb_refl. cbn [negb]. rewrite Hmul, Ew, Eh, <- Hlen.
  rewrite (proj2 (Z.leb_gt _ _) Hoff), (proj2 (Z.eqb_eq _ _) Hl). cbn [negb orb].
  rewrite Nat2Z.id. destruct (Forall2_lookup_l _ _ _ _ _ Hpart Hi) as (slot & Hslot & Hcase).
  rewrite Hslot. destruct Hcase as [-> | ->].
  - assert (assembling (with_slot p i part)) as Has'.
    { split; try done. cbn. by apply partial_insert. }
    destruct (existsb is_none (pa_chunks (with_slot p i part))) eqn:Hmissing.
    + left. exists (with_slot p i part). cbn [fst snd]. rewrite lookup_insert_eq. split_and!; try done.
      * rewrite Hmissing. symmetry. apply not_false_iff_true. intros Hfull.
        apply none_missing in Hfull. rewrite Forall_forall in Hfull.
        by destruct (Hfull None (list_elem_of_lookup_2 _ _ _ Hslot)).
      * intros j Hj. cbn in Hj. apply list_lookup_insert_Some in Hj as [(_ & [=] & _) | [Hne Hj]]. done.
    + right. cbn [fst snd]. rewrite lookup_delete_eq. split; [done|].
      cbn. rewrite decide_True by done. by rewrite (assembled _ Has' Hmissing).
  - left. exists p. rewrite bool_decide_eq_true_2 by done. cbn [fst snd]. split_and!; try done.
    intros j Hj. split; [done|]. intros ->. congruence.
Qed.

(** Chunks that come after the profile was delivered. *)
Lemma late_ops ops : forall r,
  r !! fingerprint = None ->
  Forall (fun o => other_profile_op fingerprint started o \/ own_op o) ops ->
  delivered_to fingerprint (snd (profile_run r ops)) = [].
Proof using.
  induction ops as [|o ops IH]; intros r Hr Hops; [done|]. apply Forall_cons in Hops as [Ho Hops].
  cbn [profile_run].
  assert (fst (profile_step r o) !! fingerprint = None /\ delivered_to fingerprint (snd (profile_step r o)) = [])
    as [Hr' Hd].
  { destruct Ho as [Ho | (i & part & now & _ & Hin & ->)].
    - destruct (other_keeps r o) as [E1 E2]; [congruence | done | by rewrite E1].
    - cbn [profile_step]. unfold tell, chunk_profile.
      rewrite (expire_keeps r now); [|congruence | done]. rewrite Hr. cbn [fst snd].
      split; [|done]. rewrite expire_keeps; [done | congruence | done]. }
  destruct (profile_step r o) as [r1 told]. cbn [fst snd] in *.
  specialize (IH r1 Hr' Hops). destruct (profile_run r1 ops) as [r2 more].
  cbn [snd] in *. by rewrite delivered_app, Hd, IH.
Qed.

Lemma assembling_run ops : forall r p,
  r !! fingerprint = Some p -> assembling p -> existsb is_none (pa_chunks p) = true ->
  Forall (fun o => other_profile_op fingerprint started o \/ own_op o) ops ->
  (forall i part, pa_chunks p !! i = Some None -> parts !! i = Some part -> exists now,
     OpChunk fingerprint request_id (Z.of_nat i) part now ∈ ops) ->
  delivered_to fingerprint (snd (profile_run r ops)) = [published].
Proof using Hw Hh Hlen.
  induction ops as [|o ops IH]; intros r p Hr Has Hmissing Hops Hcover.
  { exfalso. assert (Forall is_Some (pa_chunks p)) as Hfull.
    { apply Forall_lookup. intros i slot Hslot. destruct slot; [by eexists|].
      destruct (Forall2_lookup_r _ _ _ _ _ (as_partial _ Has) Hslot) as (part & Hpart & _).
      destruct (Hcover i part Hslot Hpart) as [now Hin]. by apply not_elem_of_nil in Hin. }
    apply none_missing in Hfull. congruence. }
  apply Forall_cons in Hops as [Ho Hops]. cbn [profile_run].
  destruct Ho as [Ho | (i & part & now & Hpart & Hin & ->)].
  - destruct (other_keeps r o) as [Hr' Hd]; [|done|].
    { intros p0 Hp0. assert (p0 = p) as -> by congruence. apply Has. }
    destruct (profile_step r o) as [r1 told]. cbn [fst snd] in *. rewrite Hr in Hr'.
    assert (delivered_to fingerprint (snd (profile_run r1 ops)) = [published]) as E.
    { apply (IH r1 p); try done. intros i part Hslot Hpart. destruct (Hcover i part Hslot Hpart) as [now Hin].
      exists now. apply elem_of_cons in Hin as [<- | Hin]; [|done].
      exfalso. cbn in Ho. by destruct Ho. }
    destruct (profile_run r1 ops) as [r2 more]. cbn [snd] in *. by rewrite delivered_app, Hd, E.
  - pose proof (own_chunk r p i part now Hr Has Hpart Hin) as Hown. cbv zeta in Hown.
    destruct (profile_step r _) as [r1 told]. cbn [fst snd] in Hown.
    destruct Hown as [(p' & Hr' & Has' & Hd & Hm & Hsub) | [Hr' Hd]].
    + assert (delivered_to fingerprint (snd (profile_run r1 ops)) = [published]) as E.
      { apply (IH r1 p'); try done; [congruence|]. intros j part' Hslot Hpart'.
        destruct (Hsub j Hslot) as [Hslot' Hne]. destruct (Hcover j part' Hslot' Hpart') as [now' Hin'].
        exists now'. apply elem_of_cons in Hin' as [E | Hin']; [|done].
        exfalso. injection E as E _ _. lia. }
      destruct (profile_run r1 ops) as [r2 more]. cbn [snd] in *. by rewrite delivered_app, Hd, E.
    + pose proof (late_ops ops r1 Hr' Hops) as E. destruct (profile_run r1 ops) as [r2 more].
      cbn [snd] in *. by rewrite delivered_app, Hd, E.
Qed.
End delivery.

(** A value of the type [DeviceProfile]. *)
Definition wf_profile (profile : DeviceProfile) : bool :=
  utf8_valid (pr_name profile)
  && match pr_avatar profile with
     | None => true
     | Some a => is_u32 (av_width a) && is_u32 (av_height a) && all_u8 (av_rgba a)
     end.

Lemma validate_inv profile :
  wf_profile profile = true -> validate profile = Ok tt ->
  len (pr_name profile) <= 128
  /\ forall a, pr_avatar profile = Some a ->
       1 <= av_width a <= 128 /\ 1 <= av_height a <= 128
       /\ len (av_rgba a) = av_width a * av_height a * 4 /\ all_u8 (av_rgba a) = true.
Proof.
  intros Hwf Hv. unfold wf_profile in Hwf. unfold validate in Hv.
  destruct (Z.ltb_spec MAX_DEVICE_PROFILE_NAME_BYTES (len (pr_name profile))); [done|].
  split; [unfold MAX_DEVICE_PROFILE_NAME_BYTES in *; lia|]. intros a Ha. rewrite Ha in Hv, Hwf.
  boolsplit. destruct (_ || _ || _ || _) eqn:E; [done|]. boolsplit. unfold MAX_PEER_AVATAR_DIMENSION in *.
  unfold profile_pixels, checked_mul in Hv. destruct (_ <=? u64_max); [|done]. cbn in Hv.
  destruct (_ <=? u64_max); [|done]. destruct (negb _) eqn:El; [done|]. boolsplit.
  unfold is_uint in *. boolsplit. split_and!; try lia. done.
Qed.

(** The pieces of a picture, and their number. *)
Lemma picture_parts (rgba part : bytes) i :
  all_u8 rgba = true -> len rgba <= MAX_PROFILE_SIZE -> chunks PIECE rgba !! i = Some part ->
  all_u8 part = true /\ 0 < len part <= PIECE /\ is_u32 (Z.of_nat i) = true.
Proof.
  intros Hd Hl Hi. split.
  { rewrite <- (chunks_concat PIECE rgba piece_pos), all_u8_concat, forallb_Forall in Hd.
    by eapply Forall_lookup_1 in Hd. }
  rewrite (chunks_lookup PIECE rgba piece_pos) in Hi.
  destruct (decide _) as [Hlt|]; [|done]. injection Hi as <-. rewrite len_take, len_drop.
  split_and!; limits; [lia..|zbool].
Qed.

Lemma profile_chunk_survives request_id index data :
  is_u64 request_id = true -> request_id <> 0 -> is_u32 index = true ->
  all_u8 data = true -> 0 < len data <= PIECE -> survives_wire (ProtoEvent.ProfileChunk request_id index data).
Proof.
  intros Hq Hnz Hx Hd Hl. eapply survives_wire_intro; [cbn; by rewrite_bools | done | |].
  - cbn [encode_body]. unfold encode_profile_chunk.
    assert ((request_id =? 0) || (len data =? 0) || (PIECE <? len data) = false) as -> by zbool. done.
  - wirenorm. autorewrite with len. limits. lia.
Qed.

Lemma profile_start_survives request_id width height count name :
  is_u64 request_id = true -> request_id <> 0 -> utf8_valid name = true -> len name <= 128 ->
  (width = 0 /\ height = 0 /\ count = 0 \/ 1 <= width <= 128 /\ 1 <= height <= 128 /\ 0 < count < 2 ^ 32) ->
  survives_wire (ProtoEvent.ProfileStart request_id width height (width * height * 4) count name).
Proof.
  intros Hq Hnz Hu Hn Hcase. pose proof (len_nonneg name).
  assert (0 <= width * height * 4 <= MAX_PROFILE_SIZE) as Ht.
  { unfold MAX_PROFILE_SIZE. destruct Hcase as [(-> & -> & _) | (? & ? & _)]; [lia | nia]. }
  assert (invalid_profile_metadata (len name) width height (width * height * 4) count = false) as Hm.
  { unfold invalid_profile_metadata, profile_pixels, checked_mul, MAX_PROFILE_NAME_SIZE, MAX_PROFILE_SIZE in *.
    assert (width * height <= u64_max /\ width * height * 4 <= u64_max) as [H1 H2] by (unfold u64_max; lia).
    rewrite (proj2 (Z.leb_le _ _) H1). cbn [mbind option_bind]. rewrite (proj2 (Z.leb_le _ _) H2).
    destruct Hcase as [(-> & -> & ->) | (Hw & Hh & Hc)].
    - cbn. by rewrite (proj2 (Z.ltb_ge 128 (len name)) Hn).
    - rewrite (bool_decide_eq_true_2 (Some (width * height * 4) = _)) by done. zbool. }
  eapply survives_wire_intro; [|done| |].
  - cbn. rewrite Hq, Hu. unfold MAX_PROFILE_SIZE in *. zbool.
  - cbn [encode_body]. unfold encode_profile_start. rewrite Hm, (proj2 (Z.eqb_neq _ _) Hnz). done.
  - wirenorm. autorewrite with len. limits. lia.
Qed.

(** The events of a valid profile. *)
Lemma encode_profile_ok request_id profile :
  is_u64 request_id = true -> request_id <> 0 -> wf_profile profile = true -> validate profile = Ok tt ->
  let '(width, height, rgba) := avatar_parts profile in
  let first := ProtoEvent.ProfileStart request_id width height (width * height * 4)
                 (div_ceil (len rgba) PIECE) (pr_name profile) in
  let rest := imap (fun index data => ProtoEvent.ProfileChunk request_id (Z.of_nat index) data)
                (chunks PIECE rgba) in
  encode_profile request_id profile = Ok (first :: rest) /\ Forall survives_wire (first :: rest)
  /\ len rgba = width * height * 4.
Proof.
  intros Hq Hnz Hwf Hv. destruct (validate_inv profile Hwf Hv) as [Hn Ha].
  assert (utf8_valid (pr_name profile) = true) as Hu by (unfold wf_profile in Hwf; boolsplit; done).
  unfold encode_profile. rewrite Hv. unfold avatar_parts in *. destruct (pr_avatar profile) as [a|].
  - destruct (Ha a eq_refl) as (Hw & Hh & Hl & Hb).
    assert (4 <= len (av_rgba a) <= MAX_PROFILE_SIZE) as Hlen by (unfold MAX_PROFILE_SIZE; nia).
    assert (0 < div_ceil (len (av_rgba a)) PIECE < 2 ^ 32) as Hc.
    { pose proof (div_ceil_spec (len (av_rgba a)) PIECE ltac:(lia) piece_pos) as Hs.
      pose proof (div_ceil_pos (len (av_rgba a)) PIECE ltac:(lia) piece_pos).
      destruct (Z.eqb_spec (len (av_rgba a)) 0); [lia|].
      unfold MAX_PROFILE_SIZE in *. change PIECE with 1187 in *. lia. }
    pose proof (profile_start_survives request_id (av_width a) (av_height a) _ (pr_name profile)
      Hq Hnz Hu Hn (or_intror (conj Hw (conj Hh Hc)))) as Hs.
    rewrite (Z.mod_small (len _)) by (unfold MAX_PROFILE_SIZE in *; lia). rewrite Z.mod_small by lia.
    rewrite Hl in *. split_and!; [by destruct Hs as (bs & -> & _) | | done].
    constructor; [done|]. apply Forall_forall. intros e He.
    apply elem_of_lookup_imap in He as (i & part & -> & Hpart).
    destruct (picture_parts _ part i Hb ltac:(lia) Hpart) as (? & ? & ?). by apply profile_chunk_survives.
  - pose proof (profile_start_survives request_id 0 0 0 (pr_name profile) Hq Hnz Hu Hn ltac:(by left)) as Hs.
    split_and!; [|by repeat constructor | done]. destruct Hs as (bs & E & _).
    change (len (@nil Z) mod 2 ^ 32) with 0. change (div_ceil (len (@nil Z)) PIECE mod 2 ^ 32) with 0.
    change (0 * 0 * 4) with 0 in E. by rewrite E.
Qed.

Lemma start_accepted fingerprint r request_id profile a started :
  request_id <> 0 -> wf_profile profile = true -> validate profile = Ok tt -> pr_avatar profile = Some a ->
  r !! fingerprint = None -> Z.of_nat (size r) < MAX_PARTIALS ->
  let s := profile_step r (OpStart fingerprint request_id
    {| ph_width := av_width a; ph_height := av_height a; ph_total_len := av_width a * av_height a * 4;
       ph_chunks := div_ceil (len (av_rgba a)) PIECE; ph_name := pr_name profile |} started) in
  exists p, fst s !! fingerprint = Some p
    /\ assembling request_id started a (pr_name profile) p
    /\ existsb is_none (pa_chunks p) = true /\ delivered_to fingerprint (snd s) = [].
Proof.
  intros Hnz Hwf Hv Ha Hr Hsize. destruct (validate_inv profile Hwf Hv) as [Hn Hav].
  destruct (Hav a Ha) as (Hw & Hh & Hl & _).
  cbv zeta. cbn [profile_step]. unfold tell, start_profile. cbn [ph_width ph_height ph_total_len ph_chunks ph_name].
  assert ((request_id =? 0) || (128 <? len (pr_name profile)) || (128 <? av_width a) || (128 <? av_height a)
    = false) as -> by zbool.
  assert ((av_width a * av_height a * 4 =? 0) = false) as -> by (apply Z.eqb_neq; nia).
  rewrite Hl. rewrite !Z.eqb_refl.
  assert ((av_width a =? 0) || (av_height a =? 0) || negb true || negb true = false) as -> by zbool.
  assert (expire_profiles r started !! fingerprint = None) as -> by (apply map_lookup_filter_None; by left).
  pose proof (map_subseteq_size _ _ (map_filter_subseteq
    (fun '(_, p) => saturating_sub started (pa_touched p) < TTL) r)) as Hsub.
  fold (expire_profiles r started) in Hsub.
  rewrite (proj2 (Z.leb_gt _ _)) by lia. cbn [fst snd]. rewrite lookup_insert_eq.
  eexists. split; [reflexivity|]. cbn [pa_chunks].
  assert (av_rgba a <> []) as Hne by (intros E; rewrite E, len_nil in Hl; nia).
  pose proof (chunks_count PIECE (av_rgba a) piece_pos Hne) as Hcount. rewrite Hl in Hcount.
  split_and!; [|apply existsb_replicate | done].
  - split; try done. cbn [pa_chunks]. rewrite <- Hcount. unfold len. rewrite Nat2Z.id. apply partial_replicate.
  - pose proof (div_ceil_pos (av_width a * av_height a * 4) PIECE ltac:(nia) piece_pos). lia.
Qed.

(** C24: a profile reaches the peer.  Every valid profile can be sent under any
    request id but zero; each of its events survives the wire format in one
    unfragmented datagram; and a receiver with room, given the start and then
    all of the chunks, in any order and any number of times each, between any
    traffic of other peers, before the profile expires, delivers exactly that
    profile, exactly once. *)
Theorem profile_reassembled fingerprint request_id profile r started :
  is_u64 request_id = true -> request_id <> 0 -> wf_profile profile = true -> validate profile = Ok tt ->
  r !! fingerprint = None -> Z.of_nat (size r) < MAX_PARTIALS ->
  exists first rest, encode_profile request_id profile = Ok (first :: rest)
    /\ Forall survives_wire (first :: rest)
    /\ forall ops,
       Forall (fun o => other_profile_op fingerprint started o
         \/ exists e now, e ∈ rest /\ saturating_sub now started < TTL
              /\ profile_op_of fingerprint now e = Some o) ops ->
       (forall e, e ∈ rest -> exists o now, o ∈ ops /\ profile_op_of fingerprint now e = Some o) ->
       exists o, profile_op_of fingerprint started first = Some o
         /\ delivered_to fingerprint (snd (profile_run r (o :: ops))) = [profile].
Proof.
  intros Hq Hnz Hwf Hv Hr Hsize. pose proof (encode_profile_ok request_id profile Hq Hnz Hwf Hv) as He.
  destruct (validate_inv profile Hwf Hv) as [Hn Hav].
  unfold avatar_parts in He. destruct (pr_avatar profile) as [a|] eqn:Ha.
  - destruct He as (Henc & Hsurv & _). do 2 eexists. split; [exact Henc|]. split; [exact Hsurv|].
    intros ops Htraffic Hall. eexists. split; [reflexivity|]. cbn [profile_run].
    destruct (Hav a eq_refl) as (Hw & Hh & Hl & _).
    destruct (start_accepted fingerprint r request_id profile a started Hnz Hwf Hv Ha Hr Hsize)
      as (p & Hp & Has & Hmissing & Hd).
    destruct (profile_step r _) as [r1 told]. cbn [fst snd] in *.
    assert (delivered_to fingerprint (snd (profile_run r1 ops)) = [published a (pr_name profile)]) as E.
    { apply (assembling_run fingerprint request_id started a (pr_name profile) Hw Hh Hl ops r1 p); try done.
      - eapply Forall_impl; [exact Htraffic|]. intros o [Ho | (e & now & He & Hin & Ho)]; [by left | right].
        apply elem_of_lookup_imap in He as (i & part & -> & Hpart). injection Ho as <-. by exists i, part, now.
      - intros i part _ Hpart.
        destruct (Hall (ProtoEvent.ProfileChunk request_id (Z.of_nat i) part)) as (o & now & Ho & Heo).
        { apply elem_of_lookup_imap. eauto. }
        injection Heo as <-. by exists now. }
    destruct (profile_run r1 ops) as [r2 more]. cbn [snd] in *. rewrite delivered_app, Hd, E.
    unfold published. rewrite <- Ha. by destruct profile.
  - destruct He as (Henc & Hsurv & _). do 2 eexists. split; [exact Henc|]. split; [exact Hsurv|].
    intros ops Htraffic _. eexists. split; [reflexivity|]. cbn [profile_run profile_step].
    unfold tell, start_profile. cbn [ph_width ph_height ph_total_len ph_chunks ph_name].
    assert ((request_id =? 0) || (128 <? len (pr_name profile)) || (128 <? 0) || (128 <? 0) = false) as ->
      by zbool.
    change (0 * 0 * 4 =? 0) with true. change (div_ceil (len (@nil Z)) PIECE =? 0) with true.
    change (0 =? 0) with true. cbn [negb orb fst snd].
    assert (delivered_to fingerprint (snd (profile_run (delete fingerprint (expire_profiles r started)) ops)) = [])
      as E.
    { apply (late_ops fingerprint request_id started {| av_width := 0; av_height := 0; av_rgba := [] |});
        [apply lookup_delete_eq|].
      eapply Forall_impl; [exact Htraffic|]. intros o [Ho | (e & now & He & _)]; [by left|].
      by apply not_elem_of_nil in He. }
    destruct (profile_run _ ops) as [r2 more]. cbn [snd] in *. rewrite delivered_app, E, app_nil_r.
    cbn. rewrite decide_True by done. rewrite <- Ha. by destruct profile.
Qed.

Definition sample_profile : DeviceProfile :=
  {| pr_name := str "desk"; pr_avatar := Some {| av_width := 1; av_height := 1; av_rgba := [1; 2; 3; 4] |} |}.

Lemma profile_reassembled_witness :
  exists first rest, encode_profile 7 sample_profile = Ok (first :: rest)
    /\ Forall survives_wire (first :: rest).
Proof.
  destruct (profile_reassembled (str "peer") 7 sample_profile ∅ 0 eq_refl ltac:(discriminate) eq_refl eq_refl
    (lookup_empty _) ltac:(rewrite map_size_empty; vm_compute; reflexivity)) as (first & rest & E & S & _).
  exists first, rest. split; [exact E | exact S].
Defined.

(** ** The service *)

Section service.
Context {Store : Type} (save_cached : rstring -> DeviceProfile -> option rstring).
Implicit Types s : ProfileState Store.

Record wf_profiles s : Prop := {
  wfs_partials : wf_partials (s_partials s);
  wfs_profiles : map_Forall (fun _ profile => validate profile = Ok tt) (s_profiles s);
  wfs_requests : map_Forall (fun _ '(_, retries, _) => 0 <= retries <= 3) (s_requests s);
}.

Lemma ask_profile_wf s fingerprint peer retries now :
  wf_profiles s -> 0 <= retries <= 3 -> wf_profiles (fst (ask_profile s fingerprint peer retries now)).
Proof. intros [Hp Hv Hq] Hr. split; cbn; [done | done | by apply map_Forall_insert_2]. Qed.

Lemma drop_request_wf s fingerprint :
  wf_profiles s -> wf_profiles (with_requests s (delete fingerprint (s_requests s))).
Proof. intros [Hp Hv Hq]. split; cbn; [done | done | by apply map_Forall_delete]. Qed.

Lemma with_partials_wf s partials : wf_profiles s -> wf_partials partials -> wf_profiles (with_partials s partials).
Proof. by intros [] ?; split. Qed.

Lemma request_profile_wf s fingerprint peer now :
  wf_profiles s -> wf_profiles (fst (request_profile s fingerprint peer now)).
Proof.
  intros Hs. unfold request_profile. destruct (_ !! _); [done|]. by apply ask_profile_wf.
Qed.

Lemma retry_each_wf routes expired now : forall s,
  wf_profiles s -> Forall (fun entry => 0 <= snd entry <= 3) expired ->
  wf_profiles (fst (retry_each s routes expired now)).
Proof.
  induction expired as [|[fp retries] expired IH]; intros s Hs Hex; [done|].
  apply Forall_cons in Hex as [Hr Hex]. cbn [retry_each snd] in *.
  set (s1 := with_partials _ _).
  assert (wf_profiles s1) as Hs1.
  { apply with_partials_wf; [by apply drop_request_wf|]. apply delete_partials_wf, Hs. }
  clearbody s1.
  assert (wf_profiles (fst (if 3 <=? retries then (s1, []) else match routes !! fp with
    | Some peer => ask_profile s1 fp peer (retries + 1) now | None => (s1, []) end))) as Hs2.
  { destruct (Z.leb_spec 3 retries); [done|]. destruct (routes !! fp); [|done]. apply ask_profile_wf; [done | lia]. }
  destruct (if 3 <=? retries then _ else _) as [s2 sent]. specialize (IH s2 Hs2 Hex).
  by destruct (retry_each s2 routes expired now).
Qed.

Lemma due_requests_elem requests now fp retries :
  (fp, retries) ∈ due_requests requests now <->
  exists id sent, requests !! fp = Some (id, retries, sent) /\ 2 * 1000 <= saturating_sub now sent.
Proof.
  unfold due_requests. rewrite list_elem_of_fmap. split.
  - intros ([fp' [[id re] sent]] & E & Hin). injection E as -> ->.
    apply elem_of_map_to_list, map_lookup_filter_Some in Hin as [Hin Hdue]. by exists id, sent.
  - intros (id & sent & Hl & Hdue). exists (fp, (id, retries, sent)). split; [done|].
    apply elem_of_map_to_list, map_lookup_filter_Some. done.
Qed.

Lemma retry_profiles_wf s now : wf_profiles s -> wf_profiles (fst (retry_profiles s now)).
Proof.
  intros Hs. unfold retry_profiles. apply retry_each_wf.
  - apply with_partials_wf; [done|]. apply expire_wf, Hs.
  - apply Forall_forall. intros [fp retries] Hin. apply due_requests_elem in Hin as (id & sent & Hl & _).
    exact (wfs_requests _ Hs _ _ Hl).
Qed.

Lemma on_profile_result_wf s identity o :
  wf_profiles s -> wf_partials (fst o) ->
  (forall profile, snd o = Ok (Some profile) -> validate profile = Ok tt) ->
  wf_profiles (fst (on_profile_result save_cached s identity o)).
Proof.
  intros Hs Hp Hv. destruct o as [partials outcome]. cbn [fst snd] in *. unfold on_profile_result.
  pose proof (with_partials_wf s partials Hs Hp) as Hs1. destruct outcome as [[profile|]|error]; [|done..].
  unfold accept_profile. pose proof (drop_request_wf _ identity Hs1) as Hs2.
  case_bool_decide; [done|]. destruct Hs2 as [A B C].
  split; cbn [fst s_partials s_profiles s_requests]; [done | | done].
  apply map_Forall_insert_2; [by apply Hv | done].
Qed.

Lemma handle_profile_wf s peer e now :
  wf_event e = true -> wf_profiles s -> wf_profiles (fst (handle_profile save_cached s peer e now)).
Proof.
  intros He Hs. unfold handle_profile. destruct (_ !! peer) as [identity|]; [|done].
  pose proof (wfs_partials _ Hs) as Hp.
  destruct e; try done; cbn [wf_event] in He; boolsplit.
  - apply request_profile_wf, with_partials_wf; [by apply drop_request_wf | by apply delete_partials_wf].
  - destruct (outstanding _ _ _); [|done].
    match goal with |- context [start_profile _ _ _ ?x _] => set (h := x) end.
    destruct (start_profile_wf (s_partials s) identity request_id h now) as [A B];
      [unfold wf_header, h; cbn; by rewrite_bools | done |]. by apply on_profile_result_wf.
  - destruct (outstanding _ _ _); [|done].
    destruct (chunk_profile_wf (s_partials s) identity request_id index data now) as [A B];
      [unfold is_uint in *; boolsplit; lia | done |]. by apply on_profile_result_wf.
Qed.

(** One step of the daemon that concerns profiles; everything else may change
    the state of the history handlers. *)
Inductive profile_service_step s : ProfileState Store -> Prop :=
| ps_message peer e now :
    wf_event e = true -> profile_service_step s (fst (handle_profile save_cached s peer e now))
| ps_request fingerprint peer now :
    profile_service_step s (fst (request_profile s fingerprint peer now))
| ps_retry now : profile_service_step s (fst (retry_profiles s now))
| ps_history h :
    profile_service_step s
      {| s_history := h; s_partials := s_partials s; s_profiles := s_profiles s;
         s_requests := s_requests s; s_local := s_local s |}.

(** From the start of the daemon with the profiles [cached] on disk. *)
Inductive profiles_reachable (cached : gmap rstring DeviceProfile) : ProfileState Store -> Prop :=
| pr_start h local :
    profiles_reachable cached
      {| s_history := h; s_partials := ∅; s_profiles := cached; s_requests := ∅; s_local := local |}
| pr_step s s' : profiles_reachable cached s -> profile_service_step s s' -> profiles_reachable cached s'.

Lemma profiles_reachable_wf cached s :
  map_Forall (fun _ profile => validate profile = Ok tt) cached -> profiles_reachable cached s -> wf_profiles s.
Proof.
  intros Hc. induction 1 as [h local | s s' _ IH Hs]; [by split; [split | |]|].
  destruct Hs; [by apply handle_profile_wf | by apply request_profile_wf | by apply retry_profiles_wf|].
  by destruct IH; split.
Qed.
End service.

(** The request a message answers. *)
Definition profile_answer (e : ProtoEvent) : option Z :=
  match e with
  | ProtoEvent.ProfileStart request_id _ _ _ _ _ | ProtoEvent.ProfileChunk request_id _ _ => Some request_id
  | _ => None
  end.

(** What the daemon knows of other devices.  After any sequence of
    messages, requests, retries and other events, every profile it holds passes
    [validate] (given that those loaded from the cache did, which loading
    checks), the partial profiles are within their limits, no request has been
    retried more than three times; and a start or a chunk that does not answer
    the outstanding request of its authenticated sender changes nothing. *)
Theorem profiles_invariant {Store : Type} (save_cached : rstring -> DeviceProfile -> option rstring)
    (cached : gmap rstring DeviceProfile) (s : ProfileState Store) :
  map_Forall (fun _ profile => validate profile = Ok tt) cached ->
  profiles_reachable save_cached cached s ->
  map_Forall (fun _ profile => validate profile = Ok tt) (s_profiles s)
  /\ Z.of_nat (size (s_partials s)) <= MAX_PARTIALS
  /\ held_bytes (s_partials s) <= MAX_PARTIALS * MAX_PROFILE_SIZE
  /\ map_Forall (fun _ '(_, retries, _) => 0 <= retries <= 3) (s_requests s)
  /\ forall peer e now request_id,
       profile_answer e = Some request_id ->
       (forall identity id retries sent, authenticated (s_history s) !! peer = Some identity ->
          s_requests s !! identity = Some (id, retries, sent) -> id <> request_id) ->
       handle_profile save_cached s peer e now = (s, []).
Proof.
  intros Hc Hr. destruct (profiles_reachable_wf save_cached cached s Hc Hr) as [[Hs He] Hv Hq].
  split_and!; try done.
  - pose proof (held_bytes_bound _ He). unfold MAX_PROFILE_SIZE in *. nia.
  - intros peer e now request_id Hkind Hother. unfold handle_profile.
    destruct (authenticated (s_history s) !! peer) as [identity|]; [|done].
    destruct e; try done; injection Hkind as ->; unfold outstanding;
      destruct (s_requests s !! identity) as [[[id retries] sent]|] eqn:E; try done;
      by rewrite (proj2 (Z.eqb_neq _ _) (Hother _ _ _ _ eq_refl E)).
Qed.

Definition sample_history : HistoryState Z :=
  {| store := 0; authenticated := {[Capture 1 := str "peer"]}; connected := ∅;
     reassembler := empty_reassembler; progress := ∅; next_request := 6; clear := None |}.
Definition sample_profiles : ProfileState Z :=
  {| s_history := sample_history; s_partials := ∅; s_profiles := ∅; s_requests := ∅; s_local := sample_profile |}.

Lemma profiles_invariant_witness :
  handle_profile (fun _ _ => None) sample_profiles (Capture 1) (ProtoEvent.ProfileChunk 7 0 [1; 2; 3; 4]) 1
  = (sample_profiles, []).
Proof.
  apply (profiles_invariant (Store := Z) (fun _ _ => None) ∅ sample_profiles) with (request_id := 7).
  - apply map_Forall_empty.
  - apply pr_start.
  - reflexivity.
  - intros identity id retries sent _ Hl. cbn in Hl. by rewrite lookup_empty in Hl.
Defined.

(** ** Retries *)

Section retries.
Context {Store : Type}.
Implicit Types s : ProfileState Store.

Lemma ask_profile_requests s fp peer retries now :
  s_requests (fst (ask_profile s fp peer retries now))
  = <[fp := (snd (next_history_request_id (s_history s)), retries, now)]> (s_requests s).
Proof. done. Qed.

(** One round of the loop, on the requests. *)
Lemma retry_one s routes fp retries expired now :
  exists s2 sent, retry_each s routes ((fp, retries) :: expired) now
    = (fst (retry_each s2 routes expired now), sent ++ snd (retry_each s2 routes expired now))
  /\ (forall k, k <> fp -> s_requests s2 !! k = s_requests s !! k)
  /\ (s_requests s2 !! fp = None
      \/ exists id, s_requests s2 !! fp = Some (id, retries + 1, now) /\ retries < 3).
Proof.
  cbn [retry_each]. set (s1 := with_partials _ _).
  assert (s_requests s1 = delete fp (s_requests s)) as E1 by done. clearbody s1.
  assert (forall k, k <> fp -> s_requests s1 !! k = s_requests s !! k) as Hne
    by (intros k Hk; rewrite E1; by apply lookup_delete_ne).
  assert (s_requests s1 !! fp = None) as Hnone by (rewrite E1; apply lookup_delete_eq).
  destruct (Z.leb_spec 3 retries).
  { exists s1, []. destruct (retry_each s1 routes expired now). split_and!; [done | done | by left]. }
  destruct (routes !! fp) as [peer|].
  - pose proof (ask_profile_requests s1 fp peer (retries + 1) now) as Ea.
    destruct (ask_profile s1 fp peer (retries + 1) now) as [s2 sent]. cbn [fst] in Ea.
    exists s2, sent. destruct (retry_each s2 routes expired now). rewrite Ea. split_and!; [done | |].
    + intros k Hk. rewrite lookup_insert_ne by done. by apply Hne.
    + right. eexists. rewrite lookup_insert_eq. done.
  - exists s1, []. destruct (retry_each s1 routes expired now). split_and!; [done | done | by left].
Qed.

Lemma retry_others routes expired now k : forall s,
  k ∉ expired.*1 -> s_requests (fst (retry_each s routes expired now)) !! k = s_requests s !! k.
Proof.
  induction expired as [|[fp retries] expired IH]; intros s Hk; [done|].
  cbn in Hk. apply not_elem_of_cons in Hk as [Hne Hk].
  destruct (retry_one s routes fp retries expired now) as (s2 & sent & -> & Hsame & _).
  cbn [fst]. rewrite IH by done. by apply Hsame.
Qed.

Lemma retry_due routes expired now fp retries : forall s,
  NoDup expired.*1 -> (fp, retries) ∈ expired ->
  let requests := s_requests (fst (retry_each s routes expired now)) in
  requests !! fp = None \/ exists id, requests !! fp = Some (id, retries + 1, now) /\ retries < 3.
Proof.
  cbv zeta. induction expired as [|[f re] expired IH]; intros s Hnd Hin; [by apply not_elem_of_nil in Hin|].
  cbn in Hnd. apply NoDup_cons in Hnd as [Hf Hnd].
  destruct (retry_one s routes f re expired now) as (s2 & sent & -> & Hsame & Hcase). cbn [fst].
  apply elem_of_cons in Hin as [E | Hin].
  - injection E as -> ->. by rewrite retry_others.
  - by apply IH.
Qed.

Lemma due_requests_nodup requests now : NoDup (due_requests requests now).*1.
Proof.
  unfold due_requests. rewrite <- list_fmap_compose.
  rewrite (list_fmap_ext _ fst); [apply NoDup_fst_map_to_list|]. intros i [fp [[id re] sent]] _. done.
Qed.

(** A request that is due when the tick comes. *)
Lemma retry_profiles_due s now fp id retries sent :
  s_requests s !! fp = Some (id, retries, sent) -> 2 * 1000 <= saturating_sub now sent ->
  let requests := s_requests (fst (retry_profiles s now)) in
  requests !! fp = None \/ exists id', requests !! fp = Some (id', retries + 1, now) /\ retries < 3.
Proof.
  intros Hl Hdue. unfold retry_profiles. apply retry_due; [apply due_requests_nodup|].
  apply due_requests_elem. cbn. by exists id, sent.
Qed.

Lemma retry_profiles_none s now fp :
  s_requests s !! fp = None -> s_requests (fst (retry_profiles s now)) !! fp = None.
Proof.
  intros Hn. unfold retry_profiles. rewrite retry_others; [done|]. intros Hin.
  apply list_elem_of_fmap in Hin as ([f re] & -> & Hin). apply due_requests_elem in Hin as (id & sent & Hl & _).
  cbn in Hl, Hn. congruence.
Qed.

Fixpoint profile_ticks s (times : list Z) : ProfileState Store :=
  match times with
  | [] => s
  | now :: times => profile_ticks (fst (retry_profiles s now)) times
  end.

Lemma profile_ticks_none times : forall s fp,
  s_requests s !! fp = None -> s_requests (profile_ticks s times) !! fp = None.
Proof.
  induction times as [|now times IH]; intros s fp Hn; [done|]. apply IH. by apply retry_profiles_none.
Qed.

Lemma profile_ticks_end times : forall s fp id retries sent,
  s_requests s !! fp = Some (id, retries, sent) -> 0 <= sent -> retries <= 3 -> spaced_by (2 * 1000) sent times ->
  3 - retries < len times -> s_requests (profile_ticks s times) !! fp = None.
Proof.
  induction times as [|now times IH]; intros s fp id retries sent Hl H0 Hr Hsp Hlen.
  - rewrite len_nil in Hlen. lia.
  - destruct Hsp as [Hdue Hsp]. rewrite len_cons in Hlen. cbn [profile_ticks].
    destruct (retry_profiles_due s now fp id retries sent Hl) as [Hn | (id' & Hl' & Hlt)].
    + unfold saturating_sub. lia.
    + by apply profile_ticks_none.
    + eapply IH; [exact Hl' | lia | lia | done | lia].
Qed.
End retries.

(** Profile requests end.  A request that gets no answer is dropped by the
    fourth tick that is due, ticks being due two seconds after the request was
    last sent, whatever other requests are outstanding and whether or not the
    peer still has a route: the daemon does not ask a silent peer forever, and
    asks a returning one afresh. *)
Theorem profile_requests_end {Store : Type} (s : ProfileState Store) fp id retries sent times :
  s_requests s !! fp = Some (id, retries, sent) -> 0 <= retries <= 3 -> 0 <= sent ->
  spaced_by (2 * 1000) sent times -> 4 <= len times ->
  s_requests (profile_ticks s times) !! fp = None
  /\ forall peer now, exists request_id,
       snd (request_profile (profile_ticks s times) fp peer now)
       = [SendProfile peer (ProtoEvent.ProfileRequest request_id)].
Proof.
  intros Hl Hr H0 Hsp Hlen.
  assert (s_requests (profile_ticks s times) !! fp = None) as Hn
    by (eapply profile_ticks_end; [exact Hl | lia | lia | done | lia]).
  split; [done|]. intros peer now. unfold request_profile. rewrite Hn. by eexists.
Qed.

Lemma profile_requests_end_witness :
  s_requests (profile_ticks
    (fst (request_profile sample_profiles (str "peer") (Capture 1) 0)) [2000; 4000; 6000; 8000]) !! str "peer" = None.
Proof.
  apply (profile_requests_end _ (str "peer") 7 0 0 [2000; 4000; 6000; 8000]).
  - reflexivity.
  - lia.
  - lia.
  - cbn. lia.
  - vm_compute. discriminate.
Defined.
