(* ===== verification/PluginApi.v ===== *)
(** * The plugin protocol: messages

    The vocabulary of [crates/syntra-plugin-api/src/lib.rs]: what the daemon and
    a plugin tell each other.  Their JSON encoding is serde's. *)

From S2P Require Import Prelude.

Module Operation.
Inductive t := Copy | Move.
#[global] Instance t_eq_dec : EqDecision t.
Proof. solve_decision. Defined.
End Operation.

Module EntryKind.
Inductive t := File | Directory | Other.
#[global] Instance t_eq_dec : EqDecision t.
Proof. solve_decision. Defined.
End EntryKind.

Record SourceEntry := { se_uri : rstring; se_kind : EntryKind.t; se_size : option Z }.

Record CopyManifest := {
  cm_transfer_id : rstring;
  cm_operation : Operation.t;
  cm_entries : list SourceEntry;
}.

Record RemoteEntry := {
  re_entry_id : Z;
  re_path : rstring;
  re_kind : EntryKind.t;
  re_size : option Z;
}.

Record RemoteManifest := {
  rm_transfer_id : rstring;
  rm_operation : Operation.t;
  rm_entries : list RemoteEntry;
}.

Record RangeRequest := {
  rq_transfer_id : rstring;
  rq_request_id : Z;
  rq_entry_id : Z;
  rq_offset : Z;
  rq_length : Z;
}.

Record RangeResponse := {
  rr_transfer_id : rstring;
  rr_request_id : Z;
  rr_offset : Z;
  rr_data_base64 : rstring;
  rr_eof : bool;
  rr_error : option rstring;
}.

Record MountReady := { mr_transfer_id : rstring; mr_mount_uri : rstring; mr_uris : list rstring }.

Record PublishFileClipboard := {
  pf_transfer_id : rstring;
  pf_operation : Operation.t;
  pf_uris : list rstring;
}.

Record Released := { rl_transfer_id : rstring }.
Record Unmounted := { um_transfer_id : rstring; um_success : bool; um_error : option rstring }.
Record PasteDestination := { pd_transfer_id : rstring; pd_destination_uri : rstring }.

Record Progress := {
  pg_transfer_id : rstring;
  pg_completed_entries : Z;
  pg_total_entries : Z;
  pg_completed_bytes : option Z;
  pg_total_bytes : option Z;
}.

Record Completion := { cp_transfer_id : rstring; cp_success : bool; cp_error : option rstring }.
Record Cancelled := { cn_transfer_id : rstring }.

(** ** Descriptions of a plugin *)

Record Capabilities := {
  clipboard_read : bool;
  paste : bool;
  can_cancel : bool;
  requires_live_mount : bool;
  pointer_events : bool;
  mime_types : list rstring;
}.

Record PluginMetadata := {
  pm_description : rstring;
  pm_version : rstring;
  pm_author : rstring;
  pm_homepage : option rstring;
  pm_source : option rstring;
  pm_update_url : option rstring;
  pm_license : option rstring;
  pm_bundled : bool;
  pm_on_demand : bool;
  pm_build_fingerprint : rstring;
}.

Record SettingOption := { so_value : rstring; so_label : rstring }.
Inductive SettingControlKind :=
| Toggle
| Color
| Choice (options : list SettingOption)
| Number (min max : Z).
Record SettingControl := {
  sc_key : rstring;
  sc_label : rstring;
  sc_kind : SettingControlKind;
  sc_value : rstring;
  sc_default : rstring;
}.

(** Pointer reports; an [f32] is its bits. *)
Module ScreenEdge.
Inductive t := Left | Right | Top | Bottom.
End ScreenEdge.
Module PluginPointer.
Inductive t :=
| Entered (edge : ScreenEdge.t) (along : option Z) (peer : rstring)
| Left (edge : ScreenEdge.t) (along : option Z) (peer : rstring)
| Pressure (edge : ScreenEdge.t) (along : option Z) (amount : Z).
End PluginPointer.

(** ** Messages *)

Module Message.
Inductive t :=
| Hello (protocol_version : Z) (adapter_id name : rstring) (capabilities : Capabilities)
    (metadata : option PluginMetadata)
| CopyManifest (m : CopyManifest)
| PasteDestination (m : PasteDestination)
| Progress (m : Progress)
| RemoteManifest (m : RemoteManifest)
| RangeRequest (m : RangeRequest)
| RangeResponse (m : RangeResponse)
| MountReady (m : MountReady)
| PublishFileClipboard (m : PublishFileClipboard)
| Released (m : Released)
| Unmounted (m : Unmounted)
| Completed (m : Completion)
| Cancelled (m : Cancelled)
| Cancel (transfer_id : rstring)
| Error (message : rstring)
| ClipboardData (transfer_id mime_type value : rstring)
| Settings (values : list (rstring * rstring))
| DeclareSettings (settings : list SettingControl)
| ChangeSetting (key value : rstring)
| OpenSettings (theme : list (rstring * rstring))
| Pointer (event : PluginPointer.t).
End Message.
