(* ===== verification/TransferManager.v ===== *)
(** * Clipboard file transfers: the state machine

    [crates/syntra-core/src/transfer_manager.rs]: the offers of copied files to
    and from peers, the plugin each is published to, and the byte ranges in
    flight.  An operation takes the state and returns the new state with either
    the actions it asks for or an error. *)

From stdpp Require Import pretty.
From S2P Require Import Prelude Wire ProtoTypes ProtoValid FileOs FileTransfer PluginApi.

(** [base64::engine::general_purpose::STANDARD.encode] *)
Class Base64 := base64_encode : bytes -> rstring.

(** ** Data *)

Record TransferOwner (P : Type) := { peer : P; wire_id : Z }.
Arguments Build_TransferOwner {P} _ _.
Arguments peer {P} _.
Arguments wire_id {P} _.

#[global] Instance owner_eq_dec {P} `{EqDecision P} : EqDecision (TransferOwner P).
Proof. solve_decision. Defined.
#[global] Instance owner_countable {P} `{Countable P} : Countable (TransferOwner P).
Proof.
  apply (inj_countable' (fun o => (peer o, wire_id o)) (fun '(p, w) => Build_TransferOwner p w)).
  by intros [].
Defined.

Section data.
Context {FS : Type} `{!Os FS} {P : Type}.

Record PendingRangeKey := {
  k_owner : TransferOwner P;
  k_file_id : Z;
  k_request_id : Z;
  k_offset : Z;
  k_length : Z;
}.

Inductive TransferFrontendEvent :=
| EvProgress (ui_id completed total : Z)
| EvCompleted (ui_id : Z) (file_id : option Z) (completed total : Z)
| EvCancelled (ui_id : Z) (file_id : option Z) (completed total : Z)
| EvFailed (ui_id : Z) (file_id : option Z) (completed total : Z) (error : rstring).

Inductive TransferAction :=
| Peer (to : P) (event : ProtoEvent)
| Adapter (adapter_id : rstring) (message : Message.t)
| Frontend (event : TransferFrontendEvent)
| ReadSource (owner : TransferOwner P) (file_id request_id offset length : Z)
    (offer : FileOffer).

Inductive TransferStateError :=
| UnknownOwner (owner : TransferOwner P)
| UnknownAdapterTransfer (adapter_id transfer_id : rstring)
| DuplicateOwner (owner : TransferOwner P)
| DuplicateAdapterTransfer (adapter_id transfer_id : rstring)
| DuplicateUiId (ui_id : Z)
| UiIdExhausted
| UnknownStateFile (owner : TransferOwner P) (file_id : Z)
| UnknownRequest (owner : TransferOwner P) (file_id request_id : Z)
| DuplicateRequest (owner : TransferOwner P) (file_id request_id : Z)
| InvalidManifest (reason : rstring)
| InvalidRange (reason : rstring)
| Protocol (error : ProtocolError)
| FileError (error : TransferError)
| StateDigestMismatch (owner : TransferOwner P) (file_id : Z)
| UnsupportedProtocolEvent.

Record LocalTransfer := {
  l_ui_id : Z;
  l_adapter_id : rstring;
  l_adapter_transfer_id : rstring;
  l_offer : FileOffer;
  l_outgoing : gmap (Z * Z) OutgoingFile;
  l_announced : bool;
  l_transferred_by_file : gmap Z Z;
}.

Record RemoteTransfer := {
  t_ui_id : Z;
  t_adapter_id : rstring;
  t_adapter_transfer_id : rstring;
  t_operation : Operation.t;
  t_entries : gmap Z ClipboardManifestEntry;
  t_announced : bool;
  t_transferred_by_file : gmap Z Z;
}.

Record PendingRange := {
  p_key : PendingRangeKey;
  p_validator : ClipboardFileChunkValidator;
  p_received : Z;
  p_hasher : bytes;
  p_chunk : bytes;
}.
End data.
Arguments PendingRangeKey : clear implicits.
Arguments TransferAction : clear implicits.
Arguments TransferStateError : clear implicits.
Arguments LocalTransfer FS {_}.
Arguments PendingRange : clear implicits.

Abbreviation Index P := (TransferOwner P * Z * Z)%type.

Record TransferState (FS : Type) `{!Os FS} (P : Type) `{Countable P} := {
  next_ui_id : Z;
  local : gmap (TransferOwner P) (LocalTransfer FS);
  remote : gmap (TransferOwner P) RemoteTransfer;
  pending : gmap (Index P) (PendingRange P);
  adapter_to_owner : gmap (rstring * rstring) (gset (TransferOwner P));
  source_pending : gmap (Index P) (Z * Z);
  ui_to_owner : gmap Z (TransferOwner P);
  file_clipboard_adapter : rstring;
}.
Arguments Build_TransferState {FS _ P _ _} _ _ _ _ _ _ _ _.
Arguments next_ui_id {FS _ P _ _} _.
Arguments local {FS _ P _ _} _.
Arguments remote {FS _ P _ _} _.
Arguments pending {FS _ P _ _} _.
Arguments adapter_to_owner {FS _ P _ _} _.
Arguments source_pending {FS _ P _ _} _.
Arguments ui_to_owner {FS _ P _ _} _.
Arguments file_clipboard_adapter {FS _ P _ _} _.

Section transfer_manager.
Context {FS : Type} `{!Os FS} `{!Sha256} `{!HashOrder} `{!Base64} {P : Type} `{Countable P}.
Implicit Types (st : TransferState FS P).

Abbreviation outcome := (TransferState FS P * result (TransferStateError P) (list (TransferAction P)))%type.

(** Assignment to a field. *)
Definition set_next_ui_id (v : Z) st : TransferState FS P :=
  Build_TransferState v (local st) (remote st) (pending st) (adapter_to_owner st)
    (source_pending st) (ui_to_owner st) (file_clipboard_adapter st).
Definition set_local v st : TransferState FS P :=
  Build_TransferState (next_ui_id st) v (remote st) (pending st) (adapter_to_owner st)
    (source_pending st) (ui_to_owner st) (file_clipboard_adapter st).
Definition set_remote v st : TransferState FS P :=
  Build_TransferState (next_ui_id st) (local st) v (pending st) (adapter_to_owner st)
    (source_pending st) (ui_to_owner st) (file_clipboard_adapter st).
Definition set_pending v st : TransferState FS P :=
  Build_TransferState (next_ui_id st) (local st) (remote st) v (adapter_to_owner st)
    (source_pending st) (ui_to_owner st) (file_clipboard_adapter st).
Definition set_adapter_to_owner v st : TransferState FS P :=
  Build_TransferState (next_ui_id st) (local st) (remote st) (pending st) v
    (source_pending st) (ui_to_owner st) (file_clipboard_adapter st).
Definition set_source_pending v st : TransferState FS P :=
  Build_TransferState (next_ui_id st) (local st) (remote st) (pending st) (adapter_to_owner st)
    v (ui_to_owner st) (file_clipboard_adapter st).
Definition set_ui_to_owner v st : TransferState FS P :=
  Build_TransferState (next_ui_id st) (local st) (remote st) (pending st) (adapter_to_owner st)
    (source_pending st) v (file_clipboard_adapter st).

Definition set_outgoing (v : gmap (Z * Z) OutgoingFile) (t : LocalTransfer FS) : LocalTransfer FS :=
  {| l_ui_id := l_ui_id t; l_adapter_id := l_adapter_id t;
     l_adapter_transfer_id := l_adapter_transfer_id t; l_offer := l_offer t; l_outgoing := v;
     l_announced := l_announced t; l_transferred_by_file := l_transferred_by_file t |}.
Definition set_local_announced (t : LocalTransfer FS) : LocalTransfer FS :=
  {| l_ui_id := l_ui_id t; l_adapter_id := l_adapter_id t;
     l_adapter_transfer_id := l_adapter_transfer_id t; l_offer := l_offer t;
     l_outgoing := l_outgoing t; l_announced := true;
     l_transferred_by_file := l_transferred_by_file t |}.
Definition set_local_transferred (v : gmap Z Z) (t : LocalTransfer FS) : LocalTransfer FS :=
  {| l_ui_id := l_ui_id t; l_adapter_id := l_adapter_id t;
     l_adapter_transfer_id := l_adapter_transfer_id t; l_offer := l_offer t;
     l_outgoing := l_outgoing t; l_announced := l_announced t; l_transferred_by_file := v |}.
Definition set_remote_announced (t : RemoteTransfer) : RemoteTransfer :=
  {| t_ui_id := t_ui_id t; t_adapter_id := t_adapter_id t;
     t_adapter_transfer_id := t_adapter_transfer_id t; t_operation := t_operation t;
     t_entries := t_entries t; t_announced := true;
     t_transferred_by_file := t_transferred_by_file t |}.
Definition set_remote_transferred (v : gmap Z Z) (t : RemoteTransfer) : RemoteTransfer :=
  {| t_ui_id := t_ui_id t; t_adapter_id := t_adapter_id t;
     t_adapter_transfer_id := t_adapter_transfer_id t; t_operation := t_operation t;
     t_entries := t_entries t; t_announced := t_announced t; t_transferred_by_file := v |}.

(** ** Validation *)

Definition number (v : Z) : rstring := str (pretty v).

Definition validate_range (size offset length : Z) : result (TransferStateError P) unit :=
  fail_if (length =? 0) || (MAX_CLIPBOARD_FILE_CHUNK_SIZE <? length)
    with InvalidRange (str "length is zero or exceeds one wire chunk") in
  let* end_ := ok_or (checked_add offset length) (InvalidRange (str "range overflows u64")) in
  fail_if (size <? offset) || (size <? end_)
    with InvalidRange (str "range " ++ number offset ++ str ".." ++ number end_
                       ++ str " exceeds file size " ++ number size) in
  Ok tt.

(** The loop of [validate_wire_manifest], with [ids], [paths], [total]. *)
Fixpoint validate_entries (entries : list ClipboardManifestEntry) (ids : gset Z)
    (paths : gset rstring) (total : Z) : result (TransferStateError P) unit :=
  match entries with
  | [] => Ok tt
  | entry :: entries =>
      fail_if (entry_file_id entry =? 0) || bool_decide (entry_file_id entry ∈ ids)
        with InvalidManifest (str "zero or duplicate file id") in
      fail_if (len (entry_path entry) =? 0)
              || (MAX_CLIPBOARD_PATH_SIZE <? len (entry_path entry))
              || bool_decide (entry_path entry ∈ paths)
        with InvalidManifest (str "empty, oversized, or duplicate path") in
      fail_if starts_with SLASH (entry_path entry)
              || existsb (fun part => (len part =? 0) || str_eqb part (str ".")
                                      || str_eqb part (str ".."))
                   (split SLASH (entry_path entry))
        with InvalidManifest (str "unsafe relative path") in
      fail_if bool_decide (entry_kind entry = ClipboardEntryKind.Directory)
              && negb (entry_size entry =? 0)
        with InvalidManifest (str "directory has non-zero size") in
      let* total := ok_or (checked_add total (entry_size entry))
                      (InvalidManifest (str "manifest size overflow")) in
      fail_if MAX_CLIPBOARD_SIZE <? total
        with InvalidManifest (str "manifest exceeds transfer size limit") in
      validate_entries entries ({[entry_file_id entry]} ∪ ids) ({[entry_path entry]} ∪ paths) total
  end.

Definition validate_wire_manifest (entries : list ClipboardManifestEntry)
    : result (TransferStateError P) unit :=
  fail_if (len entries =? 0) || (MAX_CLIPBOARD_MANIFEST_ENTRIES <? len entries)
    with InvalidManifest (str "invalid entry count") in
  validate_entries entries ∅ ∅ 0.

(** ** Tables *)

Definition new : TransferState FS P := Build_TransferState 1 ∅ ∅ ∅ ∅ ∅ ∅ [].

Definition set_file_clipboard_adapter (adapter_id : rstring) st : TransferState FS P :=
  Build_TransferState (next_ui_id st) (local st) (remote st) (pending st) (adapter_to_owner st)
    (source_pending st) (ui_to_owner st) adapter_id.

Definition owners_for_adapter st (adapter_id transfer_id : rstring) : list (TransferOwner P) :=
  match adapter_to_owner st !! (adapter_id, transfer_id) with
  | Some owners => hash_order (elements owners)
  | None => []
  end.

Definition contains_owner {A} (m : gmap (TransferOwner P) A) owner : bool :=
  bool_decide (is_Some (m !! owner)).

Definition ensure_owner_available st owner : result (TransferStateError P) unit :=
  fail_if contains_owner (local st) owner || contains_owner (remote st) owner
    with DuplicateOwner owner in
  Ok tt.

Definition ensure_ids_available st (owner : TransferOwner P) (adapter_id transfer_id : rstring)
    : result (TransferStateError P) unit :=
  let* _ := ensure_owner_available st owner in
  fail_if bool_decide (is_Some (adapter_to_owner st !! (adapter_id, transfer_id)))
    with DuplicateAdapterTransfer adapter_id transfer_id in
  Ok tt.

(** The loop of [allocate_ui_id]; [None] when the rounds are used up, which
    [allocate_rounds] shows never happens. *)
Fixpoint allocate_loop (rounds : nat) (used : gmap Z (TransferOwner P)) (start next : Z)
    : option (Z * result (TransferStateError P) Z) :=
  match rounds with
  | O => None
  | S rounds =>
      let id := next in
      let next := default 1 (checked_add next 1) in
      if negb (id =? 0) && negb (bool_decide (is_Some (used !! id))) then Some (next, Ok id)
      else if next =? start then Some (next, Err UiIdExhausted)
      else allocate_loop rounds used start next
  end.

Definition allocate_ui_id st : TransferState FS P * result (TransferStateError P) Z :=
  match allocate_loop (2 + size (ui_to_owner st)) (ui_to_owner st) (next_ui_id st) (next_ui_id st) with
  | Some (next, id) => (set_next_ui_id next st, id)
  | None => (st, Err UiIdExhausted)
  end.

Definition insert_mapping st (ui_id : Z) (owner : TransferOwner P) (adapter_id transfer_id : rstring)
    : TransferState FS P :=
  let key := (adapter_id, transfer_id) in
  let owners := default ∅ (adapter_to_owner st !! key) in
  set_adapter_to_owner (<[key := {[owner]} ∪ owners]> (adapter_to_owner st))
    (set_ui_to_owner (<[ui_id := owner]> (ui_to_owner st)) st).

(** [Iterator::sum] of [u64]s. *)
Definition sum_u64 (l : list Z) : Z := foldr Z.add 0 l mod 2 ^ 64.

Definition transfer_totals st owner : Z * Z :=
  match local st !! owner with
  | Some t => (sum_u64 (snd <$> map_to_list (l_transferred_by_file t)),
               sum_u64 (entry_size <$> o_entries (l_offer t)))
  | None =>
      match remote st !! owner with
      | Some t => (sum_u64 (snd <$> map_to_list (t_transferred_by_file t)),
                   sum_u64 (entry_size <$> (snd <$> map_to_list (t_entries t))))
      | None => (0, 0)
      end
  end.

Definition transfer_ui_id st owner : option Z :=
  match local st !! owner with
  | Some t => Some (l_ui_id t)
  | None => t_ui_id <$> remote st !! owner
  end.

(** [adapter_to_owner.retain(|_, owners| { owners.remove(owner); !owners.is_empty() })] *)
Definition forget_owner (owner : TransferOwner P) (m : gmap (rstring * rstring) (gset (TransferOwner P)))
    : gmap (rstring * rstring) (gset (TransferOwner P)) :=
  omap (fun owners => let owners := owners ∖ {[owner]} in
                      if bool_decide (owners = ∅) then None else Some owners) m.

Definition retain_other_owners {A} (owner : TransferOwner P) (m : gmap (Index P) A) : gmap (Index P) A :=
  filter (fun e => fst (fst (fst e)) <> owner) m.

Definition remove_owner st owner : TransferState FS P :=
  let '(local', remote', ui_id) :=
    match local st !! owner with
    | Some t => (delete owner (local st), remote st, Some (l_ui_id t))
    | None => (local st, delete owner (remote st), t_ui_id <$> remote st !! owner)
    end in
  Build_TransferState (next_ui_id st) local' remote'
    (retain_other_owners owner (pending st))
    (forget_owner owner (adapter_to_owner st))
    (retain_other_owners owner (source_pending st))
    (match ui_id with Some id => delete id (ui_to_owner st) | None => ui_to_owner st end)
    (file_clipboard_adapter st).

(** ** Cancellation *)

Definition retain_other_files {A} (owner : TransferOwner P) (file_id : Z) (m : gmap (Index P) A) : gmap (Index P) A :=
  filter (fun e => fst (fst (fst e)) <> owner \/ snd (fst (fst e)) <> file_id) m.

(** [(ui_id, adapter_id, adapter_transfer_id)] of an owner, and [announced] *)
Definition identifiers st owner : option (Z * rstring * rstring * bool) :=
  match local st !! owner with
  | Some t => Some (l_ui_id t, l_adapter_id t, l_adapter_transfer_id t, l_announced t)
  | None =>
      t ← remote st !! owner;
      Some (t_ui_id t, t_adapter_id t, t_adapter_transfer_id t, t_announced t)
  end.

Definition knows_file st (owner : TransferOwner P) (file_id : Z) : bool :=
  match local st !! owner with
  | Some t => existsb (fun e => entry_file_id e =? file_id) (o_entries (l_offer t))
  | None =>
      match remote st !! owner with
      | Some t => bool_decide (is_Some (t_entries t !! file_id))
      | None => false
      end
  end.

Definition cancel_file st (owner : TransferOwner P) (file_id : Z) : TransferState FS P :=
  let st := set_pending (retain_other_files owner file_id (pending st)) st in
  let st := set_source_pending (retain_other_files owner file_id (source_pending st)) st in
  match local st !! owner with
  | Some t =>
      let outgoing := filter (fun e => fst (fst e) <> file_id) (l_outgoing t) in
      set_local (<[owner := set_outgoing outgoing t]> (local st)) st
  | None => st
  end.

Definition cancel_owner st (owner : TransferOwner P) (file_id : option Z) (reason : ClipboardCancelReason.t)
    (notify_peer : bool) : outcome :=
  let (cancel_completed, cancel_total) := transfer_totals st owner in
  match identifiers st owner with
  | None => (st, Err (UnknownOwner owner))
  | Some (ui_id, adapter_id, adapter_transfer_id, announced) =>
      let actions :=
        (if notify_peer
         then [Peer (peer owner)
                 (ProtoEvent.ClipboardTransferCancel (wire_id owner) file_id reason)]
         else [])
        ++ [Adapter adapter_id (Message.Cancel adapter_transfer_id)]
        ++ (if announced
            then [Frontend (EvCancelled ui_id file_id cancel_completed cancel_total)]
            else []) in
      match file_id with
      | Some file_id =>
          if knows_file st owner file_id then (cancel_file st owner file_id, Ok actions)
          else (st, Err (UnknownStateFile owner file_id))
      | None => (remove_owner st owner, Ok actions)
      end
  end.

(** Cancelling several owners, errors ignored ([unwrap_or_default]). *)
Fixpoint cancel_owners st (owners : list (TransferOwner P)) (reason : ClipboardCancelReason.t)
    (notify_peer : bool) : TransferState FS P * list (TransferAction P) :=
  match owners with
  | [] => (st, [])
  | owner :: owners =>
      let (st, cancelled) := cancel_owner st owner None reason notify_peer in
      let actions := match cancelled with Ok actions => actions | Err _ => [] end in
      let (st, more) := cancel_owners st owners reason notify_peer in
      (st, actions ++ more)
  end.

Definition inbound_cancel st (from : P) (wire_id : Z) (file_id : option Z)
    (reason : ClipboardCancelReason.t) : outcome :=
  cancel_owner st (Build_TransferOwner from wire_id) file_id reason false.

Definition cancel_ui st (ui_id : Z) (file_id : option Z) (reason : ClipboardCancelReason.t)
    : outcome :=
  match ui_to_owner st !! ui_id with
  | None => (st, Err (DuplicateUiId ui_id))
  | Some owner => cancel_owner st owner file_id reason true
  end.

(** The owners a peer takes with it: a [HashSet] of the keys of both tables. *)
Definition owners_of_peer st (lost : P) : gset (TransferOwner P) :=
  filter (fun o => peer o = lost) (dom (local st) ∪ dom (remote st)).

Definition peer_lost st (lost : P) : TransferState FS P * list (TransferAction P) :=
  cancel_owners st (hash_order (elements (owners_of_peer st lost))) ClipboardCancelReason.IoError false.

Definition owners_of_adapter st (adapter_id : rstring) : gset (TransferOwner P) :=
  map_fold (fun key owners all => if bool_decide (fst key = adapter_id) then owners ∪ all else all)
    ∅ (adapter_to_owner st).

Definition adapter_lost st (adapter_id : rstring) : TransferState FS P * list (TransferAction P) :=
  cancel_owners st (hash_order (elements (owners_of_adapter st adapter_id)))
    ClipboardCancelReason.IoError true.

(** ** Offers *)

(** The unannounced local offers to a peer, which a new copy replaces. *)
Definition superseded_local st (to : P) : list (TransferOwner P) :=
  hash_order (fst <$> List.filter (fun '(o, t) => bool_decide (peer o = to) && negb (l_announced t))
                        (map_to_list (local st))).

Definition local_copy_manifest st (to : P) (wire_id : Z) (adapter_id : rstring)
    (manifest : CopyManifest) (offer : FileOffer) : outcome :=
  let owner := Build_TransferOwner to wire_id in
  let checks :=
    let* _ := ensure_owner_available st owner in
    fail_if negb (o_transfer_id offer =? wire_id)
      with InvalidManifest (str "file offer transfer id differs from wire id") in
    let* _ := validate_wire_manifest (o_entries offer) in
    fail_if bool_decide (cm_operation manifest = Operation.Move)
      with InvalidManifest (str "move clipboard transfers are not supported by the wire manifest") in
    Ok tt in
  match checks with
  | Err e => (st, Err e)
  | Ok _ =>
      let (st, stale) := cancel_owners st (superseded_local st to) ClipboardCancelReason.User true in
      let (st, allocated) := allocate_ui_id st in
      match allocated with
      | Err e => (st, Err e)
      | Ok ui_id =>
          let st := insert_mapping st ui_id owner adapter_id (cm_transfer_id manifest) in
          let transfer :=
            {| l_ui_id := ui_id; l_adapter_id := adapter_id;
               l_adapter_transfer_id := cm_transfer_id manifest; l_offer := offer;
               l_outgoing := ∅; l_announced := false; l_transferred_by_file := ∅ |} in
          (set_local (<[owner := transfer]> (local st)) st,
           Ok (stale ++ [Peer to (ProtoEvent.ClipboardManifest wire_id (o_entries offer))]))
      end
  end.

Definition announce_local st owner : TransferState FS P :=
  match local st !! owner with
  | Some t => set_local (<[owner := set_local_announced t]> (local st)) st
  | None => st
  end.

Definition announce_remote st owner : TransferState FS P :=
  match remote st !! owner with
  | Some t => set_remote (<[owner := set_remote_announced t]> (remote st)) st
  | None => st
  end.

Definition remote_entry (entry : ClipboardManifestEntry) : RemoteEntry :=
  {| re_entry_id := entry_file_id entry; re_path := entry_path entry;
     re_kind := match entry_kind entry with
                | ClipboardEntryKind.File => EntryKind.File
                | ClipboardEntryKind.Directory => EntryKind.Directory
                end;
     re_size := if bool_decide (entry_kind entry = ClipboardEntryKind.File)
                then Some (entry_size entry) else None |}.

(** [collect] into a map: a later entry with the same id replaces. *)
Definition by_id (entries : list ClipboardManifestEntry) : gmap Z ClipboardManifestEntry :=
  foldl (fun m entry => <[entry_file_id entry := entry]> m) ∅ entries.

Definition inbound_manifest st (from : P) (adapter_id adapter_transfer_id : rstring) (wire_id : Z)
    (operation : Operation.t) (entries : list ClipboardManifestEntry) : outcome :=
  let owner := Build_TransferOwner from wire_id in
  let checks :=
    fail_if bool_decide (operation = Operation.Move)
      with InvalidManifest (str "move clipboard transfers are not supported by the wire manifest") in
    let* _ := ensure_ids_available st owner adapter_id adapter_transfer_id in
    validate_wire_manifest entries in
  match checks with
  | Err e => (st, Err e)
  | Ok _ =>
      let superseded := hash_order (List.filter (fun o => bool_decide (peer o = from))
                                      (fst <$> map_to_list (remote st))) in
      let (st, stale) := cancel_owners st superseded ClipboardCancelReason.User false in
      let (st, allocated) := allocate_ui_id st in
      match allocated with
      | Err e => (st, Err e)
      | Ok ui_id =>
          let st := insert_mapping st ui_id owner adapter_id adapter_transfer_id in
          let transfer :=
            {| t_ui_id := ui_id; t_adapter_id := adapter_id;
               t_adapter_transfer_id := adapter_transfer_id; t_operation := operation;
               t_entries := by_id entries; t_announced := false; t_transferred_by_file := ∅ |} in
          let message := Message.RemoteManifest
            {| rm_transfer_id := adapter_transfer_id; rm_operation := operation;
               rm_entries := remote_entry <$> entries |} in
          (set_remote (<[owner := transfer]> (remote st)) st,
           Ok (stale ++ [Adapter adapter_id message]))
      end
  end.

(** ** Messages of plugins *)

(** [self.owners_for_adapter(..).into_iter().next().ok_or_else(..)?], then its
    remote transfer *)
Definition remote_of_adapter st (adapter_id transfer_id : rstring)
    : result (TransferStateError P) (TransferOwner P * RemoteTransfer) :=
  let* owner := ok_or (head (owners_for_adapter st adapter_id transfer_id))
                  (UnknownAdapterTransfer adapter_id transfer_id) in
  let* transfer := ok_or (remote st !! owner) (UnknownOwner owner) in
  Ok (owner, transfer).

(** [TransferStateError::Protocol] of [?] *)
Definition protocol {A} (r : presult A) : result (TransferStateError P) A :=
  match r with Ok a => Ok a | Err e => Err (Protocol e) end.

Definition adapter_range_request st (adapter_id : rstring) (request : RangeRequest) : outcome :=
  let checks :=
    let* (owner, transfer) := remote_of_adapter st adapter_id (rq_transfer_id request) in
    fail_if negb (bool_decide (t_adapter_id transfer = adapter_id))
            || negb (bool_decide (t_adapter_transfer_id transfer = rq_transfer_id request))
      with UnknownAdapterTransfer adapter_id (rq_transfer_id request) in
    let* entry := ok_or (t_entries transfer !! rq_entry_id request)
                    (UnknownStateFile owner (rq_entry_id request)) in
    fail_if negb (bool_decide (entry_kind entry = ClipboardEntryKind.File))
      with InvalidRange (str "directory range requested") in
    let* _ := validate_range (entry_size entry) (rq_offset request) (rq_length request) in
    let index := (owner, rq_entry_id request, rq_request_id request) in
    fail_if bool_decide (is_Some (pending st !! index))
      with DuplicateRequest owner (rq_entry_id request) (rq_request_id request) in
    let* validator := protocol (ChunkValidator.new (wire_id owner) (rq_entry_id request)
                        (rq_request_id request) (rq_offset request) (rq_length request)) in
    Ok (owner, index, validator) in
  match checks with
  | Err e => (st, Err e)
  | Ok (owner, index, validator) =>
      let key := {| k_owner := owner; k_file_id := rq_entry_id request;
                    k_request_id := rq_request_id request; k_offset := rq_offset request;
                    k_length := rq_length request |} in
      let range := {| p_key := key; p_validator := validator; p_received := 0; p_hasher := [];
                      p_chunk := [] |} in
      let st := set_pending (<[index := range]> (pending st)) st in
      (announce_remote st owner,
       Ok [Peer (peer owner)
             (ProtoEvent.ClipboardFileRequest (wire_id owner) (rq_entry_id request)
                (rq_request_id request) (rq_offset request) (rq_length request))])
  end.

Definition adapter_mount_ready st (fuse_adapter_id : rstring) (ready : MountReady) : outcome :=
  let answer :=
    let* found := remote_of_adapter st fuse_adapter_id (mr_transfer_id ready) in
    Ok [Adapter (file_clipboard_adapter st)
          (Message.PublishFileClipboard
             {| pf_transfer_id := mr_transfer_id ready; pf_operation := t_operation (snd found);
                pf_uris := mr_uris ready |})] in
  (st, answer).

(** [transferred_by_file.insert(0, completed)] in both tables *)
Definition record_progress (completed : Z) st owner : TransferState FS P :=
  let st := match local st !! owner with
            | Some t => set_local (<[owner := set_local_transferred
                          (<[0 := completed]> (l_transferred_by_file t)) t]> (local st)) st
            | None => st
            end in
  match remote st !! owner with
  | Some t => set_remote (<[owner := set_remote_transferred
                (<[0 := completed]> (t_transferred_by_file t)) t]> (remote st)) st
  | None => st
  end.

Definition adapter_progress st (adapter_id : rstring) (progress : Progress) : outcome :=
  let owners := owners_for_adapter st adapter_id (pg_transfer_id progress) in
  let total := match owners with owner :: _ => snd (transfer_totals st owner) | [] => 0 end in
  let checks :=
    fail_if len owners =? 0 with UnknownAdapterTransfer adapter_id (pg_transfer_id progress) in
    let* completed := ok_or (pg_completed_bytes progress)
                        (InvalidRange (str "adapter progress lacks byte accounting")) in
    fail_if match pg_total_bytes progress with
            | Some reported => negb (reported =? total)
            | None => false
            end
      with InvalidRange (str "adapter progress total differs from manifest") in
    fail_if total <? completed with InvalidRange (str "adapter progress exceeds total") in
    Ok completed in
  match checks with
  | Err e => (st, Err e)
  | Ok completed =>
      let st := foldl (record_progress completed) st owners in
      (st, Ok (omap (fun owner => (fun ui_id => Frontend (EvProgress ui_id completed total))
                                    <$> transfer_ui_id st owner) owners))
  end.

(** The loops of [adapter_completed], [adapter_cancelled] and
    [adapter_unmounted]: each owner is reported and removed; [?] leaves the
    loop with the owners before removed. *)
Fixpoint end_owners (report : TransferOwner P -> Z -> Z -> Z -> list (TransferAction P)) st
    (owners : list (TransferOwner P)) : outcome :=
  match owners with
  | [] => (st, Ok [])
  | owner :: owners =>
      match transfer_ui_id st owner with
      | None => (st, Err (UnknownOwner owner))
      | Some ui_id =>
          let (completed, total) := transfer_totals st owner in
          let (st, rest) := end_owners report (remove_owner st owner) owners in
          let answer := let* rest := rest in Ok (report owner ui_id completed total ++ rest) in
          (st, answer)
      end
  end.

Definition end_adapter_transfer report st (adapter_id transfer_id : rstring) : outcome :=
  let owners := owners_for_adapter st adapter_id transfer_id in
  if len owners =? 0 then (st, Err (UnknownAdapterTransfer adapter_id transfer_id))
  else end_owners report st owners.

Definition adapter_completed st (adapter_id : rstring) (completion : Completion) : outcome :=
  end_adapter_transfer
    (fun _ ui_id completed total =>
       [Frontend (if cp_success completion then EvCompleted ui_id None completed total
                  else EvFailed ui_id None completed total
                         (default (str "adapter transfer failed") (cp_error completion)))])
    st adapter_id (cp_transfer_id completion).

(** What the peer and the user are told of a cancelled transfer. *)
Definition report_cancelled (owner : TransferOwner P) (ui_id completed total : Z) : list (TransferAction P) :=
  [Peer (peer owner)
     (ProtoEvent.ClipboardTransferCancel (wire_id owner) None ClipboardCancelReason.User);
   Frontend (EvCancelled ui_id None completed total)].

Definition adapter_cancelled st (adapter_id : rstring) (cancelled : Cancelled) : outcome :=
  end_adapter_transfer report_cancelled st adapter_id (cn_transfer_id cancelled).

Definition adapter_unmounted st (adapter_id : rstring) (unmounted : Unmounted) : outcome :=
  end_adapter_transfer
    (fun _ ui_id completed total =>
       [Frontend (if um_success unmounted then EvCancelled ui_id None completed total
                  else EvFailed ui_id None completed total
                         (default (str "adapter unmount failed") (um_error unmounted)))])
    st adapter_id (um_transfer_id unmounted).

(** The loop of [adapter_released]. *)
Fixpoint release_owners st (owners : list (TransferOwner P))
    : TransferState FS P * list (TransferAction P) :=
  match owners with
  | [] => (st, [])
  | owner :: owners =>
      match remote st !! owner with
      | Some t =>
          let unmounted := {| um_transfer_id := t_adapter_transfer_id t; um_success := true;
                              um_error := None |} in
          let (st, rest) := release_owners st owners in
          (st, Adapter (t_adapter_id t) (Message.Unmounted unmounted) :: rest)
      | None =>
          match local st !! owner with
          | None => release_owners st owners
          | Some t =>
              let (completed, total) := transfer_totals st owner in
              let (st, rest) := release_owners (remove_owner st owner) owners in
              (st, report_cancelled owner (l_ui_id t) completed total ++ rest)
          end
      end
  end.

Definition adapter_released st (adapter_id : rstring) (released : Released) : outcome :=
  let key := (adapter_id, rl_transfer_id released) in
  match adapter_to_owner st !! key with
  | None => (st, Err (UnknownAdapterTransfer adapter_id (rl_transfer_id released)))
  | Some owners =>
      let st := set_adapter_to_owner (delete key (adapter_to_owner st)) st in
      let (st, actions) := release_owners st (hash_order (elements owners)) in
      (st, Ok actions)
  end.

(** ** Serving a range of a local file *)

Definition source_file_request st (from : P) (wire_id file_id request_id offset length : Z)
    : outcome :=
  let owner := Build_TransferOwner from wire_id in
  let key := (owner, file_id, request_id) in
  let checks :=
    let* transfer := ok_or (local st !! owner) (UnknownOwner owner) in
    let* entry := ok_or (List.find (fun e => entry_file_id e =? file_id) (o_entries (l_offer transfer)))
                    (UnknownStateFile owner file_id) in
    fail_if negb (bool_decide (entry_kind entry = ClipboardEntryKind.File))
      with InvalidRange (str "directory range requested") in
    let* _ := validate_range (entry_size entry) offset length in
    fail_if bool_decide (is_Some (source_pending st !! key))
      with DuplicateRequest owner file_id request_id in
    Ok (l_offer transfer) in
  match checks with
  | Err e => (st, Err e)
  | Ok offer =>
      let st := set_source_pending (<[key := (offset, length)]> (source_pending st)) st in
      (announce_local st owner, Ok [ReadSource owner file_id request_id offset length offer])
  end.

Definition insert_outgoing_file st (owner : TransferOwner P) (file_id request_id expected_offset expected_length : Z)
    (file : OutgoingFile) : TransferState FS P * result (TransferStateError P) unit :=
  let checks :=
    let* transfer := ok_or (local st !! owner) (UnknownOwner owner) in
    fail_if negb (of_file_id file =? file_id) with UnknownStateFile owner file_id in
    fail_if bool_decide (is_Some (l_outgoing transfer !! (file_id, request_id)))
      with DuplicateRequest owner file_id request_id in
    let* reservation := ok_or (source_pending st !! (owner, file_id, request_id))
                          (UnknownRequest owner file_id request_id) in
    fail_if negb (bool_decide (reservation = (expected_offset, expected_length)))
      with InvalidRange (str "source reservation mismatch") in
    Ok transfer in
  match checks with
  | Err e => (st, Err e)
  | Ok t =>
      let outgoing := <[(file_id, request_id) := file]> (l_outgoing t) in
      (set_local (<[owner := set_outgoing outgoing t]> (local st)) st, Ok tt)
  end.

Definition source_chunk st (owner : TransferOwner P) (file_id request_id offset : Z) (data : bytes)
    : result (TransferStateError P) (list (TransferAction P)) :=
  let* transfer := ok_or (local st !! owner) (UnknownOwner owner) in
  let* _ := ok_or (l_outgoing transfer !! (file_id, request_id))
              (UnknownRequest owner file_id request_id) in
  let* (start, length) := ok_or (source_pending st !! (owner, file_id, request_id))
                            (UnknownRequest owner file_id request_id) in
  fail_if negb (offset =? start) || (length <? len data) || (len data =? 0)
          || (MAX_CLIPBOARD_FILE_CHUNK_SIZE <? len data)
    with InvalidRange (str "source chunk outside reservation") in
  Ok [Peer (peer owner)
        (ProtoEvent.ClipboardFileChunk (wire_id owner) file_id request_id offset data)].

Definition source_range_served st (owner : TransferOwner P) (file_id request_id : Z) : TransferState FS P :=
  let st := match local st !! owner with
            | Some t => set_local (<[owner := set_outgoing
                          (delete (file_id, request_id) (l_outgoing t)) t]> (local st)) st
            | None => st
            end in
  set_source_pending (delete (owner, file_id, request_id) (source_pending st)) st.

Definition source_complete st (owner : TransferOwner P) (file_id request_id size : Z) (digest : bytes) : outcome :=
  match local st !! owner with
  | None => (st, Err (UnknownOwner owner))
  | Some t =>
      match l_outgoing t !! (file_id, request_id) with
      | None => (st, Err (UnknownRequest owner file_id request_id))
      | Some _ =>
          let outgoing := delete (file_id, request_id) (l_outgoing t) in
          let st := set_local (<[owner := set_outgoing outgoing t]> (local st)) st in
          (set_source_pending (delete (owner, file_id, request_id) (source_pending st)) st,
           Ok [Peer (peer owner)
                 (ProtoEvent.ClipboardFileComplete (wire_id owner) file_id request_id size digest)])
      end
  end.

(** ** Receiving a range *)

(** [AdapterMessage::RangeResponse] for a received range *)
Definition range_response (t : RemoteTransfer) (request_id offset : Z) (chunk : bytes) (eof : bool)
    : TransferAction P :=
  Adapter (t_adapter_id t)
    (Message.RangeResponse
       {| rr_transfer_id := t_adapter_transfer_id t; rr_request_id := request_id;
          rr_offset := offset; rr_data_base64 := base64_encode chunk; rr_eof := eof;
          rr_error := None |}).

Definition inbound_chunk st (from : P) (wire_id file_id request_id offset : Z) (data : bytes)
    : outcome :=
  let owner := Build_TransferOwner from wire_id in
  let index := (owner, file_id, request_id) in
  let checks :=
    let* range := ok_or (pending st !! index) (UnknownRequest owner file_id request_id) in
    let* validator := protocol (ChunkValidator.validate_chunk (p_validator range) wire_id file_id
                                  request_id offset (len data)) in
    Ok {| p_key := p_key range; p_validator := validator; p_received := len data;
          p_hasher := p_hasher range ++ data; p_chunk := data |} in
  match checks with
  | Err e => (st, Err e)
  | Ok range =>
      let st := set_pending (<[index := range]> (pending st)) st in
      let place :=
        let* transfer := ok_or (remote st !! owner) (UnknownOwner owner) in
        let* entry := ok_or (t_entries transfer !! file_id) (UnknownStateFile owner file_id) in
        let* end_ := ok_or (checked_add offset (len data)) (Protocol LengthOverflow) in
        Ok (transfer, entry_size entry, end_) in
      match place with
      | Err e => (st, Err e)
      | Ok (transfer, total, end_) =>
          let progress := Frontend (EvProgress (t_ui_id transfer) end_ total) in
          if end_ =? total then (st, Ok [progress])
          else if negb (len data =? k_length (p_key range))
          then (st, Err (Protocol (InvalidFileChunk "short non-EOF chunk")))
          else (set_pending (delete index (pending st)) st,
                Ok [range_response transfer request_id offset (p_chunk range) false; progress])
      end
  end.

Definition inbound_progress st (from : P) (wire_id file_id completed total : Z)
    : result (TransferStateError P) (list (TransferAction P)) :=
  let owner := Build_TransferOwner from wire_id in
  fail_if total <? completed with InvalidRange (str "progress exceeds total") in
  let* transfer := ok_or (local st !! owner) (UnknownOwner owner) in
  fail_if negb (existsb (fun e => (entry_file_id e =? file_id) && (entry_size e =? total))
                  (o_entries (l_offer transfer)))
    with UnknownStateFile owner file_id in
  Ok [Frontend (EvProgress (l_ui_id transfer) completed total)].

Definition inbound_complete st (from : P) (wire_id file_id request_id size : Z) (digest : bytes)
    : outcome :=
  let owner := Build_TransferOwner from wire_id in
  let index := (owner, file_id, request_id) in
  let checks :=
    let* entry := ok_or (transfer ← remote st !! owner; t_entries transfer !! file_id)
                    (UnknownStateFile owner file_id) in
    let expected_size := entry_size entry in
    let* range := ok_or (pending st !! index) (UnknownRequest owner file_id request_id) in
    let* received_end := ok_or (checked_add (k_offset (p_key range)) (p_received range))
                           (Protocol LengthOverflow) in
    fail_if (p_received range =? 0) || negb (received_end =? expected_size)
      with Protocol (InvalidFileChunk "completion does not cover the requested file range") in
    fail_if negb (size =? expected_size)
      with Protocol (InvalidFileChunk "completion size differs from manifest") in
    fail_if negb (bool_decide (sha256_of (p_hasher range) = digest))
      with StateDigestMismatch owner file_id in
    Ok range in
  match checks with
  | Err e => (st, Err e)
  | Ok range =>
      let st := set_pending (delete index (pending st)) st in
      match remote st !! k_owner (p_key range) with
      | None => (st, Err (UnknownOwner (k_owner (p_key range))))
      | Some transfer =>
          let total := match t_entries transfer !! file_id with
                       | Some entry => entry_size entry
                       | None => p_received range
                       end in
          (st, Ok [range_response transfer request_id (k_offset (p_key range)) (p_chunk range) true;
                   Frontend (EvProgress (t_ui_id transfer) (p_received range) total)])
      end
  end.

Definition handle_protocol st (from : P) (event : ProtoEvent) : outcome :=
  match event with
  | ProtoEvent.ClipboardFileChunk transfer_id file_id request_id offset data =>
      inbound_chunk st from transfer_id file_id request_id offset data
  | ProtoEvent.ClipboardFileComplete transfer_id file_id request_id size digest =>
      inbound_complete st from transfer_id file_id request_id size digest
  | ProtoEvent.ClipboardFileRequest transfer_id file_id request_id offset length =>
      source_file_request st from transfer_id file_id request_id offset length
  | ProtoEvent.ClipboardTransferCancel transfer_id file_id reason =>
      inbound_cancel st from transfer_id file_id reason
  | ProtoEvent.ClipboardTransferProgress transfer_id file_id completed total =>
      (st, inbound_progress st from transfer_id file_id completed total)
  | ProtoEvent.ClipboardManifest _ _ =>
      (st, Err (InvalidManifest (str "manifest requires an explicit adapter and operation")))
  | _ => (st, Err UnsupportedProtocolEvent)
  end.
End transfer_manager.
