(* ===== verification/TransferManagerTheorems.v ===== *)
(** * Clipboard file transfers: the invariant

    The tables of [TransferState] are views of one table of live transfers; the
    ranges in flight are ranges of files of live transfers; the byte counts stay
    within the manifests.  Every operation keeps this. *)

From S2P Require Import Prelude Wire ProtoTypes ProtoValid ProtoSafety.
From S2P Require Import FileOs FileTransfer PluginApi TransferManager.

Section invariant.
Context {FS : Type} `{!Os FS} `{!Sha256} `{!HashOrder} `{!Base64} {P : Type} `{Countable P}.
Implicit Types (st : TransferState FS P) (o : TransferOwner P).

(** ** One table of live transfers *)

(** The user-interface id of a transfer and the key of its plugin. *)
Definition local_ids (t : LocalTransfer FS) : Z * (rstring * rstring) :=
  (l_ui_id t, (l_adapter_id t, l_adapter_transfer_id t)).
Definition remote_ids (t : RemoteTransfer) : Z * (rstring * rstring) :=
  (t_ui_id t, (t_adapter_id t, t_adapter_transfer_id t)).

Definition live st : gmap (TransferOwner P) (Z * (rstring * rstring)) :=
  (local_ids <$> local st) ∪ (remote_ids <$> remote st).

Lemma lookup_live st o :
  live st !! o = match local st !! o with
                 | Some t => Some (local_ids t)
                 | None => remote_ids <$> remote st !! o
                 end.
Proof.
  unfold live. rewrite lookup_union, !lookup_fmap.
  destruct (local st !! o), (remote st !! o); done.
Qed.

Lemma transfer_ui_id_live st o : transfer_ui_id st o = fst <$> live st !! o.
Proof.
  rewrite lookup_live. unfold transfer_ui_id.
  destruct (local st !! o); [done|]. by destruct (remote st !! o).
Qed.

(** The indexes are views of it: [ui_to_owner] is its inverse, and a key of
    [adapter_to_owner] names live transfers published under that key. *)
Record wf_index st : Prop := {
  wi_next : 1 <= next_ui_id st <= u64_max;
  wi_disjoint o t : local st !! o = Some t -> remote st !! o = None;
  wi_ui id o : ui_to_owner st !! id = Some o <-> exists key, live st !! o = Some (id, key);
  wi_ui_range id o : ui_to_owner st !! id = Some o -> 1 <= id <= u64_max;
  wi_adapter key owners : adapter_to_owner st !! key = Some owners ->
    owners <> ∅ /\ forall o, o ∈ owners -> exists id, live st !! o = Some (id, key);
  wi_local o t : local st !! o = Some t ->
    exists owners, adapter_to_owner st !! snd (local_ids t) = Some owners /\ o ∈ owners;
}.

(** ** Ranges in flight *)

(** A range a plugin or a peer asked for, of a file of [size] bytes. *)
Definition good_range (size offset length : Z) : Prop :=
  0 <= offset /\ 0 < length <= MAX_CLIPBOARD_FILE_CHUNK_SIZE /\ offset + length <= size.

(** A range before its chunk came, or after: the chunk starts the range, and
    everything that was hashed is the chunk. *)
Record wf_range (o : TransferOwner P) (f r size : Z) (p : PendingRange P) : Prop := {
  wr_key : k_owner (p_key p) = o /\ k_file_id (p_key p) = f /\ k_request_id (p_key p) = r;
  wr_good : good_range size (k_offset (p_key p)) (k_length (p_key p));
  wr_validator : v_offset (p_validator p) = k_offset (p_key p)
                 /\ v_length (p_validator p) = k_length (p_key p)
                 /\ v_complete (p_validator p) = false;
  wr_progress :
    p_hasher p = p_chunk p /\ p_received p = len (p_chunk p)
    /\ (v_chunk_received (p_validator p) = false -> p_chunk p = [])
    /\ p_received p <= k_length (p_key p);
}.

Definition file_of (entries : list ClipboardManifestEntry) (f : Z) : option ClipboardManifestEntry :=
  List.find (fun e => entry_file_id e =? f) entries.

Definition pending_ok st o (f r : Z) (p : PendingRange P) : Prop :=
  exists t e, remote st !! o = Some t /\ t_entries t !! f = Some e
  /\ entry_kind e = ClipboardEntryKind.File /\ wf_range o f r (entry_size e) p.

Definition source_ok st o (f : Z) (range : Z * Z) : Prop :=
  exists t e, local st !! o = Some t /\ file_of (o_entries (l_offer t)) f = Some e
  /\ entry_kind e = ClipboardEntryKind.File /\ good_range (entry_size e) (fst range) (snd range).

Record wf_ranges st : Prop := {
  wg_pending o f r p : pending st !! (o, f, r) = Some p -> pending_ok st o f r p;
  wg_source o f r range : source_pending st !! (o, f, r) = Some range -> source_ok st o f range;
  wg_outgoing o t f r file : local st !! o = Some t -> l_outgoing t !! (f, r) = Some file ->
    of_file_id file = f /\ is_Some (source_pending st !! (o, f, r));
}.

(** ** Byte counts *)

(** A plugin reports one position for the whole transfer, under key 0. *)
Definition counted (transferred : gmap Z Z) : Prop :=
  transferred = ∅ \/ exists v, transferred = {[0 := v]} /\ 0 <= v <= MAX_CLIPBOARD_SIZE.

Definition sizes (entries : list ClipboardManifestEntry) : Z := foldr Z.add 0 (entry_size <$> entries).

Record wf_totals st : Prop := {
  wt_local o t : local st !! o = Some t ->
    0 <= sizes (o_entries (l_offer t)) <= MAX_CLIPBOARD_SIZE
    /\ counted (l_transferred_by_file t);
  wt_remote o t : remote st !! o = Some t ->
    0 <= sizes (snd <$> map_to_list (t_entries t)) <= MAX_CLIPBOARD_SIZE
    /\ counted (t_transferred_by_file t)
    /\ forall f e, t_entries t !! f = Some e -> entry_file_id e = f;
}.

Record wf_state st : Prop := {
  ws_index : wf_index st;
  ws_ranges : wf_ranges st;
  ws_totals : wf_totals st;
}.

Lemma new_wf : wf_state new.
Proof.
  split; split; cbn; intros; try (by rewrite lookup_empty in *).
  - unfold u64_max. lia.
  - rewrite lookup_empty. split; [done|]. intros [key Hk].
    rewrite lookup_live in Hk. cbn in Hk. by rewrite !lookup_empty in Hk.
Qed.

(** ** Updates that keep the identifiers *)

Lemma live_frame st st' :
  (forall o, local_ids <$> local st' !! o = local_ids <$> local st !! o) ->
  (forall o, remote_ids <$> remote st' !! o = remote_ids <$> remote st !! o) ->
  live st' = live st.
Proof.
  intros Hl Hr. apply map_eq. intros o. rewrite !lookup_live.
  specialize (Hl o). specialize (Hr o).
  destruct (local st' !! o), (local st !! o); cbn in Hl; try discriminate Hl; congruence.
Qed.

Lemma wf_index_frame st st' :
  (forall o, local_ids <$> local st' !! o = local_ids <$> local st !! o) ->
  (forall o, remote_ids <$> remote st' !! o = remote_ids <$> remote st !! o) ->
  ui_to_owner st' = ui_to_owner st -> adapter_to_owner st' = adapter_to_owner st ->
  next_ui_id st' = next_ui_id st -> wf_index st -> wf_index st'.
Proof.
  intros Hl Hr Hu Ha Hn W. pose proof (live_frame st st' Hl Hr) as Hlive.
  split; rewrite ?Hu, ?Ha, ?Hn, ?Hlive; try apply W.
  - intros o t Ht. specialize (Hl o). specialize (Hr o). rewrite Ht in Hl.
    destruct (local st !! o) as [t0|] eqn:E; [|done].
    rewrite (wi_disjoint _ W _ _ E) in Hr. by destruct (remote st' !! o).
  - intros o t Ht. specialize (Hl o). rewrite Ht in Hl.
    destruct (local st !! o) as [t0|] eqn:E; [|done]. injection Hl as Hl1 Hl2 Hl3.
    destruct (wi_local _ W _ _ E) as (owners & Ho & Hin). exists owners. split; [|done].
    rewrite <- Ho. f_equal. cbn. congruence.
Qed.

(** ** Removing an owner *)

Lemma forget_owner_lookup o m key owners :
  forget_owner o m !! key = Some owners <->
  exists all, m !! key = Some all /\ owners = all ∖ {[o]} /\ owners <> ∅.
Proof.
  unfold forget_owner. rewrite lookup_omap. destruct (m !! key) as [all|]; cbn; [|naive_solver].
  case_bool_decide; naive_solver.
Qed.

Lemma retain_other_owners_lookup {A} o (m : gmap (Index P) A) k f r v :
  retain_other_owners o m !! (k, f, r) = Some v <-> m !! (k, f, r) = Some v /\ k <> o.
Proof. unfold retain_other_owners. rewrite map_lookup_filter_Some. cbn. done. Qed.

Section remove.
Variables (st : TransferState FS P) (o : TransferOwner P).

Lemma remove_owner_local k : wf_index st ->
  local (remove_owner st o) !! k = if decide (k = o) then None else local st !! k.
Proof.
  intros W. unfold remove_owner. destruct (local st !! o) as [t|] eqn:E; cbn.
  - destruct (decide (k = o)) as [->|]; [apply lookup_delete_eq | by rewrite lookup_delete_ne].
  - destruct (decide (k = o)) as [->|]; done.
Qed.

Lemma remove_owner_remote k : wf_index st ->
  remote (remove_owner st o) !! k = if decide (k = o) then None else remote st !! k.
Proof.
  intros W. unfold remove_owner. destruct (local st !! o) as [t|] eqn:E; cbn.
  - destruct (decide (k = o)) as [->|]; [by eapply wi_disjoint | done].
  - destruct (decide (k = o)) as [->|]; [apply lookup_delete_eq | by rewrite lookup_delete_ne].
Qed.

Lemma remove_owner_live : wf_index st -> live (remove_owner st o) = delete o (live st).
Proof.
  intros W. apply map_eq. intros k.
  rewrite lookup_live, remove_owner_local, remove_owner_remote by done.
  destruct (decide (k = o)) as [->|]; [by rewrite lookup_delete_eq|].
  by rewrite lookup_delete_ne, lookup_live.
Qed.

Lemma remove_owner_ui id k : wf_index st ->
  ui_to_owner (remove_owner st o) !! id = Some k <-> ui_to_owner st !! id = Some k /\ k <> o.
Proof.
  intros W. unfold remove_owner.
  assert (forall u key, live st !! o = Some (u, key) ->
            delete u (ui_to_owner st) !! id = Some k <-> ui_to_owner st !! id = Some k /\ k <> o) as Hd.
  { intros u key Hu. rewrite lookup_delete_Some. split.
    - intros [Hne Hk]. split; [done|]. intros ->. apply (wi_ui _ W) in Hk as [key' Hk]. congruence.
    - intros [Hk Hne]. split; [|done]. intros ->. apply (wi_ui _ W) in Hk as [key' Hk].
      assert (ui_to_owner st !! id = Some o) as Ho by (apply (wi_ui _ W); eauto).
      assert (ui_to_owner st !! id = Some k) as Hk2 by (apply (wi_ui _ W); eauto). congruence. }
  rewrite lookup_live in Hd. destruct (local st !! o) as [t|] eqn:E; cbn.
  - by apply (Hd _ _ eq_refl).
  - destruct (remote st !! o) as [t|] eqn:E'; cbn in *; [by apply (Hd _ _ eq_refl)|].
    split; [|naive_solver]. intros Hk. split; [done|]. intros ->.
    apply (wi_ui _ W) in Hk as [key Hk]. rewrite lookup_live, E, E' in Hk. done.
Qed.

Lemma remove_owner_index : wf_index st -> wf_index (remove_owner st o).
Proof.
  intros W. assert (adapter_to_owner (remove_owner st o) = forget_owner o (adapter_to_owner st)
    /\ next_ui_id (remove_owner st o) = next_ui_id st) as [Ha Hn].
  { unfold remove_owner. by destruct (local st !! o). }
  split.
  - rewrite Hn. apply W.
  - intros k t. rewrite remove_owner_local, remove_owner_remote by done.
    destruct (decide (k = o)); [done | apply W].
  - intros id k. rewrite remove_owner_ui, remove_owner_live, (wi_ui _ W) by done.
    setoid_rewrite lookup_delete_Some. naive_solver.
  - intros id k. rewrite remove_owner_ui by done. intros [Hk _]. by eapply wi_ui_range.
  - intros key owners. rewrite Ha, forget_owner_lookup. intros (all & Hall & -> & Hne).
    split; [done|]. intros k Hk. destruct (wi_adapter _ W _ _ Hall) as [_ Hlive].
    destruct (Hlive k) as [id Hid]; [set_solver|]. exists id.
    rewrite remove_owner_live, lookup_delete_ne by (done || set_solver). done.
  - intros k t. rewrite remove_owner_local by done. destruct (decide (k = o)) as [|Hne]; [done|].
    intros Ht. destruct (wi_local _ W _ _ Ht) as (owners & Ho & Hin).
    exists (owners ∖ {[o]}). rewrite Ha. split; [|set_solver].
    apply forget_owner_lookup. exists owners. split_and!; [done | done | set_solver].
Qed.

Lemma remove_owner_wf : wf_state st -> wf_state (remove_owner st o).
Proof.
  intros [WI WR WT]. split; [by apply remove_owner_index | |].
  - assert (pending (remove_owner st o) = retain_other_owners o (pending st)
      /\ source_pending (remove_owner st o) = retain_other_owners o (source_pending st)) as [Hp Hs].
    { unfold remove_owner. by destruct (local st !! o). }
    split.
    + intros k f r p. rewrite Hp, retain_other_owners_lookup. intros [Hk Hne].
      unfold pending_ok. rewrite remove_owner_remote, decide_False by done. by eapply wg_pending.
    + intros k f r range. rewrite Hs, retain_other_owners_lookup. intros [Hk Hne].
      unfold source_ok. rewrite remove_owner_local, decide_False by done. by eapply wg_source.
    + intros k t f r file. rewrite Hs, remove_owner_local by done.
      destruct (decide (k = o)); [done|]. intros Ht Hf.
      destruct (wg_outgoing _ WR _ _ _ _ _ Ht Hf) as [? [v Hv]]. split; [done|].
      exists v. by apply retain_other_owners_lookup.
  - split; intros k t; rewrite ?remove_owner_local, ?remove_owner_remote by done;
      (destruct (decide (k = o)); [done | apply WT]).
Qed.
End remove.

(** ** Allocating a user-interface id *)

Section allocate.
Variables (used : gmap Z (TransferOwner P)) (start : Z).
Hypothesis start_range : 1 <= start <= u64_max.

(** The [j]-th id the loop tries. *)
Definition candidate (j : Z) : Z := (start - 1 + j) mod u64_max + 1.

Lemma u64_max_pos : 0 < u64_max.
Proof. unfold u64_max. lia. Qed.

Lemma candidate_range j : 1 <= candidate j <= u64_max.
Proof.
  unfold candidate. pose proof (Z.mod_pos_bound (start - 1 + j) u64_max u64_max_pos). lia.
Qed.

Lemma candidate_0 : candidate 0 = start.
Proof. unfold candidate. rewrite Z.add_0_r, Z.mod_small by lia. lia. Qed.

Lemma candidate_next j : default 1 (checked_add (candidate j) 1) = candidate (j + 1).
Proof.
  pose proof u64_max_pos. unfold checked_add, candidate.
  replace (start - 1 + (j + 1)) with ((start - 1 + j) + 1) by lia.
  set (a := start - 1 + j). pose proof (Z.mod_pos_bound a u64_max u64_max_pos).
  rewrite <- (Zplus_mod_idemp_l a 1). destruct (Z.leb_spec (a mod u64_max + 1 + 1) u64_max); cbn.
  - rewrite (Z.mod_small (a mod u64_max + 1)) by lia. lia.
  - replace (a mod u64_max + 1) with u64_max by lia. rewrite Z.mod_same by lia. lia.
Qed.

Lemma candidate_inj i j : 0 <= i < u64_max -> 0 <= j < u64_max -> candidate i = candidate j -> i = j.
Proof.
  intros Hi Hj E. unfold candidate in E.
  assert ((i - j) mod u64_max = 0) as Hm.
  { replace (i - j) with ((start - 1 + i) - (start - 1 + j)) by lia.
    rewrite Zminus_mod. replace ((start - 1 + i) mod u64_max) with ((start - 1 + j) mod u64_max) by lia.
    rewrite Z.sub_diag. apply Z.mod_0_l. pose proof u64_max_pos. lia. }
  apply Z.mod_divide in Hm as [q Hq]; [|pose proof u64_max_pos; lia].
  destruct (Z.eq_dec q 0) as [->|]; [lia|]. nia.
Qed.

Lemma candidate_surj id : 1 <= id <= u64_max -> exists j, 0 <= j < u64_max /\ candidate j = id.
Proof.
  intros Hid. exists ((id - start) mod u64_max). pose proof u64_max_pos.
  split; [by apply Z.mod_pos_bound|]. unfold candidate.
  rewrite Zplus_mod_idemp_r. replace (start - 1 + (id - start)) with (id - 1) by lia.
  rewrite Z.mod_small; lia.
Qed.

(** The candidates that were refused are in use, so they are no more than the
    ids in use. *)
Lemma refused_bound j :
  0 <= j <= u64_max -> (forall i, 0 <= i < j -> is_Some (used !! candidate i)) ->
  j <= Z.of_nat (size used).
Proof.
  intros Hj Hu. set (tried := candidate <$> seqZ 0 j).
  assert (NoDup tried) as Hnd.
  { apply NoDup_fmap_2_strong; [|apply NoDup_seqZ].
    intros x y Hx Hy. rewrite !elem_of_seqZ in *. apply candidate_inj; lia. }
  assert (list_to_set tried ⊆ dom used) as Hsub.
  { intros x. rewrite elem_of_list_to_set, elem_of_dom. unfold tried.
    rewrite list_elem_of_fmap. intros (i & -> & Hi). apply Hu. rewrite elem_of_seqZ in Hi. lia. }
  apply subseteq_size in Hsub. rewrite size_dom, size_list_to_set in Hsub by done.
  unfold tried in Hsub. rewrite length_fmap, length_seqZ in Hsub. lia.
Qed.

(** With two rounds more than there are ids in use, the loop ends by itself:
    with a free id, or having found every id in use. *)
Lemma allocate_rounds rounds j :
  0 <= j < u64_max -> (forall i, 0 <= i < j -> is_Some (used !! candidate i)) ->
  Z.of_nat (size used) < j + Z.of_nat rounds ->
  exists next answer, allocate_loop rounds used start (candidate j) = Some (next, answer)
  /\ 1 <= next <= u64_max
  /\ match answer with
     | Ok id => 1 <= id <= u64_max /\ used !! id = None
     | Err e => e = UiIdExhausted /\ forall id, 1 <= id <= u64_max -> is_Some (used !! id)
     end.
Proof.
  revert j. induction rounds as [|rounds IH]; intros j Hj Hu Hr.
  { pose proof (refused_bound j ltac:(lia) Hu). lia. }
  cbn [allocate_loop]. rewrite candidate_next.
  pose proof (candidate_range j). pose proof (candidate_range (j + 1)).
  destruct (Z.eqb_spec (candidate j) 0); [lia|]. cbn [negb andb].
  case_bool_decide as Hused; cbn [negb].
  2: { do 2 eexists. split; [done|]. split; [done|]. split; [done|]. by apply eq_None_not_Some. }
  assert (forall i, 0 <= i < j + 1 -> is_Some (used !! candidate i)) as Hu'.
  { intros i Hi. destruct (Z.eq_dec i j) as [->|]; [done | apply Hu; lia]. }
  destruct (Z.eqb_spec (candidate (j + 1)) start) as [Es|Es].
  - do 2 eexists. split; [done|]. split; [done|]. split; [done|]. intros id Hid.
    destruct (candidate_surj id Hid) as (i & Hi & <-). apply Hu'.
    destruct (Z.eq_dec (j + 1) u64_max) as [?|Hn]; [lia|]. exfalso.
    rewrite <- candidate_0 in Es. apply candidate_inj in Es; lia.
  - apply IH; [|done|lia]. destruct (Z.eq_dec (j + 1) u64_max) as [En|]; [|lia].
    exfalso. apply Es. rewrite En. unfold candidate.
    replace (start - 1 + u64_max) with (start - 1 + 1 * u64_max) by lia.
    rewrite Z_mod_plus_full, Z.mod_small; lia.
Qed.
End allocate.

Lemma allocate_ui_id_spec st :
  1 <= next_ui_id st <= u64_max ->
  let '(st', answer) := allocate_ui_id st in
  (exists next, st' = set_next_ui_id next st /\ 1 <= next <= u64_max)
  /\ match answer with
     | Ok id => 1 <= id <= u64_max /\ ui_to_owner st !! id = None
     | Err e => e = UiIdExhausted /\ forall id, 1 <= id <= u64_max -> is_Some (ui_to_owner st !! id)
     end.
Proof.
  intros Hn. unfold allocate_ui_id. pose proof u64_max_pos.
  destruct (allocate_rounds (ui_to_owner st) (next_ui_id st) Hn (2 + size (ui_to_owner st)) 0)
    as (next & answer & E & Hnext & Hanswer); [lia | lia | lia |].
  rewrite candidate_0 in E by done. rewrite E. split; [by exists next | done].
Qed.

(** ** Accepted manifests *)

Definition sized (entries : list ClipboardManifestEntry) : Prop :=
  Forall (fun e => 0 <= entry_size e) entries.

Lemma validate_entries_ok entries ids paths total :
  0 <= total <= MAX_CLIPBOARD_SIZE -> sized entries ->
  validate_entries (P := P) entries ids paths total = Ok tt ->
  NoDup (entry_file_id <$> entries) /\ Forall (fun e => entry_file_id e ∉ ids) entries
  /\ total <= total + sizes entries <= MAX_CLIPBOARD_SIZE
  /\ NoDup (entry_path <$> entries) /\ Forall (fun e => entry_path e ∉ paths) entries.
Proof.
  revert ids paths total. induction entries as [|e entries IH]; intros ids paths total Ht Hs Hv.
  { unfold sizes. cbn. split_and!; auto using NoDup_nil_2, Forall_nil_2; lia. }
  apply Forall_cons in Hs as [He Hs]. cbn [validate_entries] in Hv. inv_ok Hv.
  match goal with H : ok_or _ _ = Ok _ |- _ => apply ok_or_Ok, checked_add_Some in H as [-> _] end.
  boolsplit. repeat match goal with H : bool_decide _ = false |- _ => apply bool_decide_eq_false in H end.
  match goal with H : (_ <? _) = false |- _ => apply Z.ltb_ge in H end.
  apply IH in Hv as (Hn & Hf & Hsz & Hnp & Hfp); [|lia|done].
  change (sizes (e :: entries)) with (entry_size e + sizes entries).
  split_and!; try lia.
  - cbn. apply NoDup_cons. split; [|done]. rewrite list_elem_of_fmap. intros (x & Hx & Hin).
    rewrite Forall_forall in Hf. specialize (Hf x Hin). rewrite <- Hx in Hf. set_solver.
  - apply Forall_cons. split; [done|]. eapply Forall_impl; [exact Hf|]. cbn. set_solver.
  - cbn. apply NoDup_cons. split; [|done]. rewrite list_elem_of_fmap. intros (x & Hx & Hin).
    rewrite Forall_forall in Hfp. specialize (Hfp x Hin). rewrite <- Hx in Hfp. set_solver.
  - apply Forall_cons. split; [done|]. eapply Forall_impl; [exact Hfp|]. cbn. set_solver.
Qed.

Lemma manifest_ok entries :
  sized entries -> validate_wire_manifest (P := P) entries = Ok tt ->
  NoDup (entry_file_id <$> entries) /\ 0 <= sizes entries <= MAX_CLIPBOARD_SIZE.
Proof.
  intros Hs Hv. unfold validate_wire_manifest in Hv. destruct (_ || _); [done|].
  destruct (validate_entries_ok entries ∅ ∅ 0 ltac:(limits; lia) Hs Hv) as (Hn & _ & Hsz & _).
  split; [done | lia].
Qed.

Lemma by_id_from entries m :
  NoDup (entry_file_id <$> entries) -> Forall (fun e => m !! entry_file_id e = None) entries ->
  map_to_list (foldl (fun m e => <[entry_file_id e := e]> m) m entries)
  ≡ₚ ((fun e => (entry_file_id e, e)) <$> entries) ++ map_to_list m.
Proof.
  revert m. induction entries as [|e entries IH]; intros m Hn Hf; [done|].
  cbn in Hn. apply NoDup_cons in Hn as [Hne Hn]. apply Forall_cons in Hf as [He Hf].
  cbn [foldl]. rewrite IH; [| done |].
  - rewrite map_to_list_insert by done. cbn. by rewrite Permutation_middle.
  - apply Forall_forall. intros x Hx. rewrite lookup_insert_ne.
    + rewrite Forall_forall in Hf. by apply Hf.
    + intros E. apply Hne. rewrite E. apply list_elem_of_fmap. eauto.
Qed.

Lemma by_id_perm entries : NoDup (entry_file_id <$> entries) ->
  snd <$> map_to_list (by_id entries) ≡ₚ entries.
Proof.
  intros Hn. unfold by_id. rewrite by_id_from; [| done |].
  - rewrite map_to_list_empty, app_nil_r, <- list_fmap_compose. by rewrite list_fmap_id.
  - apply Forall_forall. intros x _. apply lookup_empty.
Qed.

Lemma by_id_lookup entries f e : NoDup (entry_file_id <$> entries) ->
  by_id entries !! f = Some e <-> e ∈ entries /\ entry_file_id e = f.
Proof.
  intros Hn. rewrite <- elem_of_map_to_list. unfold by_id.
  rewrite by_id_from by (done || (apply Forall_forall; intros; apply lookup_empty)).
  rewrite map_to_list_empty, app_nil_r, list_elem_of_fmap. split.
  - intros (x & [= -> ->] & Hx). done.
  - intros [Hin <-]. eauto.
Qed.

#[global] Instance sizes_perm : Proper ((≡ₚ) ==> eq) sizes.
Proof.
  intros l k Hp. unfold sizes. induction Hp; cbn in *; lia.
Qed.

(** ** Updates that keep the offers *)

Definition local_shape (t : LocalTransfer FS) := (local_ids t, l_offer t).
Definition remote_shape (t : RemoteTransfer) := (remote_ids t, t_entries t).

(** [st'] lists the same transfers with the same offers. *)
Record same_offers st st' : Prop := {
  so_local o : local_shape <$> local st' !! o = local_shape <$> local st !! o;
  so_remote o : remote_shape <$> remote st' !! o = remote_shape <$> remote st !! o;
  so_ui : ui_to_owner st' = ui_to_owner st;
  so_adapter : adapter_to_owner st' = adapter_to_owner st;
  so_next : next_ui_id st' = next_ui_id st;
}.

Lemma same_offers_refl st : same_offers st st.
Proof. by split. Qed.

Lemma same_offers_local st st' o t : same_offers st st' -> local st' !! o = Some t ->
  exists t0, local st !! o = Some t0 /\ local_ids t = local_ids t0 /\ l_offer t = l_offer t0.
Proof.
  intros S Ht. pose proof (so_local _ _ S o) as E. rewrite Ht in E.
  destruct (local st !! o) as [t0|]; [|done]. exists t0. injection E. intros.
  split; [done|]. unfold local_ids. split; congruence.
Qed.

Lemma same_offers_remote st st' o t : same_offers st st' -> remote st' !! o = Some t ->
  exists t0, remote st !! o = Some t0 /\ remote_ids t = remote_ids t0 /\ t_entries t = t_entries t0.
Proof.
  intros S Ht. pose proof (so_remote _ _ S o) as E. rewrite Ht in E.
  destruct (remote st !! o) as [t0|]; [|done]. exists t0. injection E. intros.
  split; [done|]. unfold remote_ids. split; congruence.
Qed.

Lemma same_offers_sym st st' : same_offers st st' -> same_offers st' st.
Proof. intros [L R U A N]. by split; intros; symmetry. Qed.

Lemma pending_ok_frame st st' o f r p :
  same_offers st st' -> pending_ok st o f r p -> pending_ok st' o f r p.
Proof.
  intros S (t & e & Ht & He & Hk & Hr).
  destruct (same_offers_remote st' st o t (same_offers_sym _ _ S) Ht) as (t' & Ht' & _ & Ee).
  exists t', e. rewrite <- Ee. done.
Qed.

Lemma source_ok_frame st st' o f range :
  same_offers st st' -> source_ok st o f range -> source_ok st' o f range.
Proof.
  intros S (t & e & Ht & He & Hk & Hr).
  destruct (same_offers_local st' st o t (same_offers_sym _ _ S) Ht) as (t' & Ht' & _ & Eo).
  exists t', e. rewrite <- Eo. done.
Qed.

Lemma same_offers_index st st' : same_offers st st' -> wf_index st -> wf_index st'.
Proof.
  intros [L R U A N]. apply wf_index_frame; try done.
  - intros o. specialize (L o). destruct (local st' !! o), (local st !! o); cbn in *; try done.
    injection L. intros. unfold local_ids. congruence.
  - intros o. specialize (R o). destruct (remote st' !! o), (remote st !! o); cbn in *; try done.
    injection R. intros. unfold remote_ids. congruence.
Qed.

(** What is left to show of such an update. *)
Lemma wf_keep st st' :
  wf_state st -> same_offers st st' ->
  (forall o t, local st' !! o = Some t -> counted (l_transferred_by_file t)) ->
  (forall o t, remote st' !! o = Some t -> counted (t_transferred_by_file t)) ->
  (forall o f r p, pending st' !! (o, f, r) = Some p -> pending_ok st o f r p) ->
  (forall o f r range, source_pending st' !! (o, f, r) = Some range -> source_ok st o f range) ->
  (forall o t f r file, local st' !! o = Some t -> l_outgoing t !! (f, r) = Some file ->
     of_file_id file = f /\ is_Some (source_pending st' !! (o, f, r))) ->
  wf_state st'.
Proof.
  intros [WI WR WT] S Hcl Hcr Hp Hs Ho. split; [by eapply same_offers_index | |]; split; intros.
  - eauto using pending_ok_frame.
  - eauto using source_ok_frame.
  - eauto.
  - destruct (same_offers_local _ _ _ _ S H3) as (t0 & Ht0 & _ & Eo).
    destruct (wt_local _ WT _ _ Ht0) as [Hsz _]. rewrite Eo in *. eauto.
  - destruct (same_offers_remote _ _ _ _ S H3) as (t0 & Ht0 & _ & Ee).
    destruct (wt_remote _ WT _ _ Ht0) as (Hsz & _ & Hid). rewrite <- Ee in *. eauto.
Qed.

(** When neither table of transfers changes. *)
Lemma wf_keep_tables st st' :
  wf_state st -> local st' = local st -> remote st' = remote st ->
  ui_to_owner st' = ui_to_owner st -> adapter_to_owner st' = adapter_to_owner st ->
  next_ui_id st' = next_ui_id st ->
  (forall o f r p, pending st' !! (o, f, r) = Some p -> pending_ok st o f r p) ->
  (forall o f r range, source_pending st' !! (o, f, r) = Some range -> source_ok st o f range) ->
  (forall o t f r file, local st !! o = Some t -> l_outgoing t !! (f, r) = Some file ->
     is_Some (source_pending st' !! (o, f, r))) ->
  wf_state st'.
Proof.
  intros W L R U A N Hp Hs Ho. apply (wf_keep st); [done | | | | done | done |].
  - by split; intros; rewrite ?L, ?R.
  - intros o t. rewrite L. apply (wt_local _ (ws_totals _ W)).
  - intros o t. rewrite R. apply (wt_remote _ (ws_totals _ W)).
  - intros o t f r file. rewrite L. intros Ht Hf.
    split; [by eapply (wg_outgoing _ (ws_ranges _ W)) | eauto].
Qed.

Lemma same_offers_set_local st o t t' :
  local st !! o = Some t -> local_shape t' = local_shape t ->
  same_offers st (set_local (<[o := t']> (local st)) st).
Proof.
  intros Ho Hs. split; intros; cbn; try done.
  destruct (decide (o0 = o)) as [->|Hne]; [rewrite lookup_insert_eq, Ho; cbn; congruence|].
  by rewrite lookup_insert_ne.
Qed.

Lemma same_offers_set_remote st o t t' :
  remote st !! o = Some t -> remote_shape t' = remote_shape t ->
  same_offers st (set_remote (<[o := t']> (remote st)) st).
Proof.
  intros Ho Hs. split; intros; cbn; try done.
  destruct (decide (o0 = o)) as [->|Hne]; [rewrite lookup_insert_eq, Ho; cbn; congruence|].
  by rewrite lookup_insert_ne.
Qed.

Lemma set_local_wf st o t t' :
  wf_state st -> local st !! o = Some t -> local_shape t' = local_shape t ->
  counted (l_transferred_by_file t') ->
  (forall f r file, l_outgoing t' !! (f, r) = Some file ->
     of_file_id file = f /\ is_Some (source_pending st !! (o, f, r))) ->
  wf_state (set_local (<[o := t']> (local st)) st).
Proof.
  intros W Ho Hs Hc Hout. pose proof (same_offers_set_local st o t t' Ho Hs) as S.
  apply (wf_keep st); try done; cbn.
  - intros k u. rewrite lookup_insert_Some. intros [[-> <-]|[_ Hu]]; [done|].
    by eapply (wt_local _ (ws_totals _ W)).
  - intros k u Hu. by eapply (wt_remote _ (ws_totals _ W)).
  - apply (wg_pending _ (ws_ranges _ W)).
  - apply (wg_source _ (ws_ranges _ W)).
  - intros k u f r file. rewrite lookup_insert_Some. intros [[-> <-]|[_ Hu]]; [by apply Hout|].
    by eapply (wg_outgoing _ (ws_ranges _ W)).
Qed.

Lemma set_remote_wf st o t t' :
  wf_state st -> remote st !! o = Some t -> remote_shape t' = remote_shape t ->
  counted (t_transferred_by_file t') ->
  wf_state (set_remote (<[o := t']> (remote st)) st).
Proof.
  intros W Ho Hs Hc. pose proof (same_offers_set_remote st o t t' Ho Hs) as S.
  apply (wf_keep st); try done; cbn.
  - intros k u Hu. by eapply (wt_local _ (ws_totals _ W)).
  - intros k u. rewrite lookup_insert_Some. intros [[-> <-]|[_ Hu]]; [done|].
    by eapply (wt_remote _ (ws_totals _ W)).
  - apply (wg_pending _ (ws_ranges _ W)).
  - apply (wg_source _ (ws_ranges _ W)).
  - intros k u f r file Hu. by eapply (wg_outgoing _ (ws_ranges _ W)).
Qed.

Lemma set_pending_wf st m :
  wf_state st -> (forall o f r p, m !! (o, f, r) = Some p -> pending_ok st o f r p) ->
  wf_state (set_pending m st).
Proof.
  intros W Hm. apply (wf_keep_tables st); try done; cbn.
  - apply (wg_source _ (ws_ranges _ W)).
  - intros. by eapply (wg_outgoing _ (ws_ranges _ W)).
Qed.

Lemma set_source_pending_wf st m :
  wf_state st -> (forall o f r range, m !! (o, f, r) = Some range -> source_ok st o f range) ->
  (forall o t f r file, local st !! o = Some t -> l_outgoing t !! (f, r) = Some file ->
     is_Some (m !! (o, f, r))) ->
  wf_state (set_source_pending m st).
Proof.
  intros W Hm Ho. apply (wf_keep_tables st); try done; cbn.
  apply (wg_pending _ (ws_ranges _ W)).
Qed.

Lemma insert_pending_wf st o f r p :
  wf_state st -> pending_ok st o f r p -> wf_state (set_pending (<[(o, f, r) := p]> (pending st)) st).
Proof.
  intros W Hp. apply set_pending_wf; [done|]. intros k f' r' q. rewrite lookup_insert_Some.
  intros [[[= <- <- <-] <-]|[_ Hq]]; [done | by apply (wg_pending _ (ws_ranges _ W))].
Qed.

Lemma delete_pending_wf st index : wf_state st -> wf_state (set_pending (delete index (pending st)) st).
Proof.
  intros W. apply set_pending_wf; [done|]. intros k f r q. rewrite lookup_delete_Some.
  intros [_ Hq]. by apply (wg_pending _ (ws_ranges _ W)).
Qed.

(** Announcing and counting change neither identifiers nor offers. *)
Lemma announce_local_wf st o : wf_state st -> wf_state (announce_local st o).
Proof.
  intros W. unfold announce_local. destruct (local st !! o) as [t|] eqn:E; [|done].
  apply (set_local_wf st o t); try done; cbn.
  - by eapply (wt_local _ (ws_totals _ W)).
  - intros f r file. by eapply (wg_outgoing _ (ws_ranges _ W)).
Qed.

Lemma announce_remote_wf st o : wf_state st -> wf_state (announce_remote st o).
Proof.
  intros W. unfold announce_remote. destruct (remote st !! o) as [t|] eqn:E; [|done].
  apply (set_remote_wf st o t); try done; cbn. by eapply (wt_remote _ (ws_totals _ W)).
Qed.

(** Dropping the handle and the reservation of one range. *)
Lemma source_range_served_wf st o f r : wf_state st -> wf_state (source_range_served st o f r).
Proof.
  intros W. unfold source_range_served.
  set (st1 := match local st !! o with Some _ => _ | None => _ end).
  assert (wf_state st1 /\ source_pending st1 = source_pending st
          /\ (forall t, local st1 !! o = Some t -> l_outgoing t !! (f, r) = None)) as (W1 & Es & Hd).
  { unfold st1. destruct (local st !! o) as [t|] eqn:E; cbn; [|by rewrite E].
    split_and!; [| done |].
    - apply (set_local_wf st o t); try done; cbn.
      + by eapply (wt_local _ (ws_totals _ W)).
      + intros f' r' file. rewrite lookup_delete_Some. intros [_ Hf].
        by eapply (wg_outgoing _ (ws_ranges _ W)).
    - intros u. rewrite lookup_insert_eq. intros [= <-]. apply lookup_delete_eq. }
  apply set_source_pending_wf; [done | |].
  - intros k f' r' range. rewrite lookup_delete_Some. intros [_ Hr].
    by eapply (wg_source _ (ws_ranges _ W1)).
  - intros k t f' r' file Ht Hf. rewrite lookup_delete_ne.
    + by eapply (wg_outgoing _ (ws_ranges _ W1)).
    + intros [= <- <- <-]. specialize (Hd t Ht). congruence.
Qed.

Lemma cancel_file_wf st o f : wf_state st -> wf_state (cancel_file st o f).
Proof.
  intros W. unfold cancel_file.
  set (st1 := set_pending _ st).
  assert (wf_state st1) as W1.
  { apply set_pending_wf; [done|]. intros k f' r p. unfold retain_other_files.
    rewrite map_lookup_filter_Some. intros [Hp _]. by apply (wg_pending _ (ws_ranges _ W)). }
  set (st2 := set_source_pending _ st1).
  assert (forall k t f' r file, local st !! k = Some t -> l_outgoing t !! (f', r) = Some file ->
            (k <> o \/ f' <> f) -> is_Some (source_pending st2 !! (k, f', r))) as Hkeep.
  { intros k t f' r file Ht Hf Hne.
    destruct (wg_outgoing _ (ws_ranges _ W) _ _ _ _ _ Ht Hf) as [_ [v Hv]]. exists v.
    cbn. unfold retain_other_files. by rewrite map_lookup_filter_Some. }
  change (local st2) with (local st). destruct (local st !! o) as [t|] eqn:E.
  - apply (wf_keep st1); cbn; [done | | | | | |].
    + set (t' := set_outgoing _ t).
      by destruct (same_offers_set_local st1 o t t' E eq_refl) as [? ? ? ? ?]; split.
    + intros k u. rewrite lookup_insert_Some. intros [[-> <-]|[_ Hu]]; cbn;
        [apply (wt_local _ (ws_totals _ W) k _ E) | apply (wt_local _ (ws_totals _ W) k _ Hu)].
    + intros k u Hu. by eapply (wt_remote _ (ws_totals _ W)).
    + apply (wg_pending _ (ws_ranges _ W1)).
    + intros k f' r range. unfold retain_other_files. rewrite map_lookup_filter_Some.
      intros [Hr _]. by eapply (wg_source _ (ws_ranges _ W)).
    + intros k u f' r file. rewrite lookup_insert_Some. intros [[-> <-]|[Hne Hu]].
      * cbn. rewrite map_lookup_filter_Some. intros [Hf Hnf]. cbn in Hnf.
        split; [by eapply (wg_outgoing _ (ws_ranges _ W)) | eapply Hkeep; eauto].
      * intros Hf. split; [by eapply (wg_outgoing _ (ws_ranges _ W)) | eapply Hkeep; eauto].
  - apply set_source_pending_wf; [done | |].
    + intros k f' r range. unfold retain_other_files. rewrite map_lookup_filter_Some.
      intros [Hr _]. by eapply (wg_source _ (ws_ranges _ W)).
    + intros k t f' r file Ht Hf. eapply Hkeep; eauto. left. intros ->. cbn in Ht. congruence.
Qed.

Lemma cancel_owner_wf st o f reason notify :
  wf_state st -> wf_state (fst (cancel_owner st o f reason notify)).
Proof.
  intros W. unfold cancel_owner. destruct (transfer_totals st o).
  destruct (identifiers st o) as [[[[ui a] x] ann]|]; [|done].
  destruct f as [f|]; cbn; [|by apply remove_owner_wf].
  destruct (knows_file st o f); [by apply cancel_file_wf | done].
Qed.

Lemma cancel_owners_wf st owners reason notify :
  wf_state st -> wf_state (fst (cancel_owners st owners reason notify)).
Proof.
  revert st. induction owners as [|o owners IH]; intros st W; [done|]. cbn.
  pose proof (cancel_owner_wf st o None reason notify W) as W1.
  destruct (cancel_owner st o None reason notify) as [st1 r]. cbn in W1.
  specialize (IH st1 W1). by destruct (cancel_owners st1 owners reason notify).
Qed.

(** ** Adding a transfer *)

Lemma insert_mapping_index st id o key (L : gmap _ (LocalTransfer FS)) (R : gmap _ RemoteTransfer)
    next :
  let st1 := insert_mapping (set_next_ui_id next st) id o (fst key) (snd key) in
  let st2 := set_remote R (set_local L st1) in
  wf_index st -> 1 <= next <= u64_max -> 1 <= id <= u64_max -> ui_to_owner st !! id = None ->
  live st !! o = None -> live st2 = <[o := (id, key)]> (live st) ->
  (forall k t, L !! k = Some t -> R !! k = None) ->
  (forall k t, L !! k = Some t ->
     local st !! k = Some t \/ k = o /\ snd (local_ids t) = key) ->
  wf_index st2.
Proof.
  intros st1 st2 W Hnext Hid Hfree Hnew Hlive Hdis Hloc. split; cbn.
  - done.
  - done.
  - intros i k. rewrite Hlive, lookup_insert_Some. setoid_rewrite lookup_insert_Some.
    rewrite (wi_ui _ W). split.
    + intros [[<- <-]|[Hne [key' Hk]]]; [eauto|]. exists key'. right. split; [congruence | done].
    + intros [key' [[<- [= <- <-]]|[Hne Hk]]]; [by left|]. right. split; [|eauto].
      intros ->. assert (ui_to_owner st !! i = Some k) by (apply (wi_ui _ W); eauto). congruence.
  - intros i k. rewrite lookup_insert_Some. intros [[<- _]|[_ Hk]]; [done|].
    by eapply wi_ui_range.
  - destruct key as [a x]. intros key owners. cbn. rewrite lookup_insert_Some. intros [[<- <-]|[Hne Hk]].
    + split; [set_solver|]. intros k [->%elem_of_singleton|Hk]%elem_of_union.
      { exists id. by rewrite Hlive, lookup_insert_eq. }
      destruct (adapter_to_owner st !! (a, x)) as [all|] eqn:Ea; [|cbn in Hk; set_solver].
      destruct (proj2 (wi_adapter _ W _ _ Ea) k Hk) as [i Hi]. exists i.
      rewrite Hlive, lookup_insert_ne; [done|]. congruence.
    + destruct (wi_adapter _ W _ _ Hk) as [Hne' Hall]. split; [done|]. intros k Hin.
      destruct (Hall k Hin) as [i Hi]. exists i. rewrite Hlive, lookup_insert_ne; [done|]. congruence.
  - destruct key as [a x]. intros k t Ht. destruct (Hloc k t Ht) as [Hk | [-> Hkey]].
    + destruct (wi_local _ W _ _ Hk) as (owners & Ho & Hin). cbn.
      destruct (decide ((a, x) = snd (local_ids t))) as [E|E].
      * rewrite E, lookup_insert_eq. eexists. split; [done|]. unfold local_ids in *. cbn in *.
        rewrite Ho. cbn. set_solver.
      * rewrite lookup_insert_ne by done. eauto.
    + cbn in Hkey |- *. rewrite Hkey, lookup_insert_eq. eexists. split; [done|]. set_solver.
Qed.

(** The tables below the index do not see a transfer that was not there. *)
Lemma fresh_owner_wf st st' o :
  wf_state st -> wf_index st' -> live st !! o = None ->
  (forall k, k <> o -> local st' !! k = local st !! k) ->
  (forall k, k <> o -> remote st' !! k = remote st !! k) ->
  pending st' = pending st -> source_pending st' = source_pending st ->
  (forall t, local st' !! o = Some t ->
     l_outgoing t = ∅ /\ 0 <= sizes (o_entries (l_offer t)) <= MAX_CLIPBOARD_SIZE
     /\ l_transferred_by_file t = ∅) ->
  (forall t, remote st' !! o = Some t ->
     0 <= sizes (snd <$> map_to_list (t_entries t)) <= MAX_CLIPBOARD_SIZE
     /\ t_transferred_by_file t = ∅ /\ forall f e, t_entries t !! f = Some e -> entry_file_id e = f) ->
  wf_state st'.
Proof.
  intros [_ WR WT] WI' Hnew HL HR Hp Hs Hl Hr.
  assert (local st !! o = None /\ remote st !! o = None) as [Hlo Hro].
  { rewrite lookup_live in Hnew. destruct (local st !! o); [done|].
    by destruct (remote st !! o). }
  split; [done | |]; split.
  - intros k f r p. rewrite Hp. intros Hk. destruct (wg_pending _ WR _ _ _ _ Hk) as (t & e & Ht & Hrest).
    exists t, e. rewrite HR; [done|]. intros ->. congruence.
  - intros k f r range. rewrite Hs. intros Hk.
    destruct (wg_source _ WR _ _ _ _ Hk) as (t & e & Ht & Hrest).
    exists t, e. rewrite HL; [done|]. intros ->. congruence.
  - intros k t f r file Ht Hf. rewrite Hs. destruct (decide (k = o)) as [->|Hne].
    + destruct (Hl t Ht) as [E _]. by rewrite E, lookup_empty in Hf.
    + rewrite HL in Ht by done. by eapply (wg_outgoing _ WR).
  - intros k t Ht. destruct (decide (k = o)) as [->|Hne].
    + destruct (Hl t Ht) as (_ & Hsz & E). split; [done|]. by left.
    + rewrite HL in Ht by done. by eapply (wt_local _ WT).
  - intros k t Ht. destruct (decide (k = o)) as [->|Hne].
    + destruct (Hr t Ht) as (Hsz & E & Hid). split_and!; [lia | lia | by left | done].
    + rewrite HR in Ht by done. by eapply (wt_remote _ WT).
Qed.

Lemma add_local_wf st next o (t : LocalTransfer FS) :
  wf_state st -> 1 <= next <= u64_max -> 1 <= l_ui_id t <= u64_max ->
  ui_to_owner st !! l_ui_id t = None -> local st !! o = None -> remote st !! o = None ->
  l_outgoing t = ∅ -> l_transferred_by_file t = ∅ ->
  0 <= sizes (o_entries (l_offer t)) <= MAX_CLIPBOARD_SIZE ->
  let st1 := insert_mapping (set_next_ui_id next st) (l_ui_id t) o (l_adapter_id t)
               (l_adapter_transfer_id t) in
  wf_state (set_local (<[o := t]> (local st1)) st1).
Proof.
  intros W Hnext Hid Hfree Hl Hr Hout Htr Hsz st1.
  assert (live st !! o = None) as Hnew by (by rewrite lookup_live, Hl, Hr).
  assert (set_local (<[o := t]> (local st1)) st1
          = set_remote (remote st) (set_local (<[o := t]> (local st)) st1)) as -> by reflexivity.
  apply (fresh_owner_wf st _ o); try done; cbn.
  - apply (insert_mapping_index st (l_ui_id t) o (l_adapter_id t, l_adapter_transfer_id t));
      try done; [apply W | | |].
    + apply map_eq. intros k. rewrite lookup_live. cbn. destruct (decide (k = o)) as [->|Hne].
      * by rewrite !lookup_insert_eq.
      * by rewrite !lookup_insert_ne, lookup_live.
    + intros k u. rewrite lookup_insert_Some. intros [[<- _]|[_ Hu]]; [done|].
      by eapply wi_disjoint; [apply W|].
    + intros k u. rewrite lookup_insert_Some. intros [[<- <-]|[_ Hu]]; auto.
  - intros k Hne. by rewrite lookup_insert_ne.
  - intros u. rewrite lookup_insert_eq. by intros [= <-].
  - intros u. congruence.
Qed.

Lemma add_remote_wf st next o (t : RemoteTransfer) :
  wf_state st -> 1 <= next <= u64_max -> 1 <= t_ui_id t <= u64_max ->
  ui_to_owner st !! t_ui_id t = None -> local st !! o = None -> remote st !! o = None ->
  t_transferred_by_file t = ∅ ->
  0 <= sizes (snd <$> map_to_list (t_entries t)) <= MAX_CLIPBOARD_SIZE ->
  (forall f e, t_entries t !! f = Some e -> entry_file_id e = f) ->
  let st1 := insert_mapping (set_next_ui_id next st) (t_ui_id t) o (t_adapter_id t)
               (t_adapter_transfer_id t) in
  wf_state (set_remote (<[o := t]> (remote st1)) st1).
Proof.
  intros W Hnext Hid Hfree Hl Hr Htr Hsz Hids st1.
  assert (live st !! o = None) as Hnew by (by rewrite lookup_live, Hl, Hr).
  assert (set_remote (<[o := t]> (remote st1)) st1
          = set_remote (<[o := t]> (remote st)) (set_local (local st) st1)) as -> by reflexivity.
  apply (fresh_owner_wf st _ o); try done; cbn.
  - apply (insert_mapping_index st (t_ui_id t) o (t_adapter_id t, t_adapter_transfer_id t));
      try done; [apply W | | |].
    + apply map_eq. intros k. rewrite lookup_live. cbn. destruct (decide (k = o)) as [->|Hne].
      * by rewrite Hl, !lookup_insert_eq.
      * by rewrite !lookup_insert_ne, lookup_live.
    + intros k u Hu. rewrite lookup_insert_ne; [by eapply wi_disjoint; [apply W|] | congruence].
    + auto.
  - intros k Hne. by rewrite lookup_insert_ne.
  - intros u. congruence.
  - intros u. rewrite lookup_insert_eq. by intros [= <-].
Qed.

Lemma set_next_wf st next :
  wf_state st -> 1 <= next <= u64_max -> wf_state (set_next_ui_id next st).
Proof. intros [[? ? ? ? ? ?] [? ? ?] [? ?]] Hn. by split; split. Qed.
End invariant.
