(* ===== verification/TransferManagerSafety.v ===== *)
(** * Clipboard file transfers: every operation

    Each operation of [TransferState] keeps the invariant of
    [TransferManagerTheorems]; what this means for plugins, peers and users. *)

From S2P Require Import Prelude Wire ProtoTypes ProtoValid ProtoSafety.
From S2P Require Import FileOs FileTransfer FileTransferTheorems PluginApi TransferManager TransferManagerTheorems.

Section operations.
Context {FS : Type} `{!Os FS} `{!Sha256} `{!HashOrder} `{!Base64} {P : Type} `{Countable P}.
Implicit Types (st : TransferState FS P) (o : TransferOwner P).

(** ** Offers *)

Lemma cancel_owner_shrinks st o f reason notify k :
  wf_state st -> local st !! k = None -> remote st !! k = None ->
  local (fst (cancel_owner st o f reason notify)) !! k = None
  /\ remote (fst (cancel_owner st o f reason notify)) !! k = None.
Proof.
  intros W Hl Hr. unfold cancel_owner. destruct (transfer_totals st o).
  destruct (identifiers st o) as [[[[ui a] x] ann]|]; [|done].
  destruct f as [f|]; cbn.
  - destruct (knows_file st o f); [|done]. unfold cancel_file. cbn.
    destruct (local st !! o) as [t|] eqn:E; cbn; [|done].
    rewrite lookup_insert_ne; [done | congruence].
  - rewrite remove_owner_local, remove_owner_remote by apply W. by destruct (decide _).
Qed.

Lemma cancel_owners_shrinks st owners reason notify k :
  wf_state st -> local st !! k = None -> remote st !! k = None ->
  local (fst (cancel_owners st owners reason notify)) !! k = None
  /\ remote (fst (cancel_owners st owners reason notify)) !! k = None.
Proof.
  revert st. induction owners as [|o owners IH]; intros st W Hl Hr; [done|]. cbn.
  pose proof (cancel_owner_wf st o None reason notify W) as W1.
  pose proof (cancel_owner_shrinks st o None reason notify k W Hl Hr) as [Hl1 Hr1].
  destruct (cancel_owner st o None reason notify) as [st1 r]. cbn in *.
  specialize (IH st1 W1 Hl1 Hr1). by destruct (cancel_owners st1 owners reason notify).
Qed.

Lemma ensure_owner_available_ok st o :
  ensure_owner_available st o = Ok tt -> local st !! o = None /\ remote st !! o = None.
Proof.
  unfold ensure_owner_available, contains_owner. intros E. inv_ok E. boolsplit.
  by rewrite !bool_decide_eq_false, <- !eq_None_not_Some in *.
Qed.

Lemma local_copy_manifest_wf st to w a manifest offer :
  wf_state st -> sized (o_entries offer) ->
  wf_state (fst (local_copy_manifest st to w a manifest offer)).
Proof.
  intros W Hsz. unfold local_copy_manifest. set (o := Build_TransferOwner to w).
  set (checks := let* _ := ensure_owner_available st o in _).
  destruct checks as [u|e] eqn:E; [|done]. unfold checks in E. inv_ok E.
  destruct a0. destruct (ensure_owner_available_ok st o ltac:(done)) as [Hl Hr].
  match goal with H : validate_wire_manifest _ = Ok ?u |- _ => destruct u;
    destruct (manifest_ok _ Hsz H) as [_ Hm] end.
  pose proof (cancel_owners_wf st (superseded_local st to) ClipboardCancelReason.User true W) as W1.
  pose proof (cancel_owners_shrinks st (superseded_local st to) ClipboardCancelReason.User true o W Hl Hr)
    as [Hl1 Hr1].
  destruct (cancel_owners st _ _ _) as [st1 stale]. cbn in *.
  pose proof (allocate_ui_id_spec st1 (wi_next _ (ws_index _ W1))) as Ha.
  destruct (allocate_ui_id st1) as [st2 answer]. destruct Ha as [(next & -> & Hn) Hid].
  destruct answer as [id|e]; cbn; [|by apply set_next_wf].
  destruct Hid as [Hid Hfree].
  by apply (add_local_wf st1 next o
    {| l_ui_id := id; l_adapter_id := a; l_adapter_transfer_id := cm_transfer_id manifest;
       l_offer := offer; l_outgoing := ∅; l_announced := false; l_transferred_by_file := ∅ |}).
Qed.

Lemma inbound_manifest_wf st from a x w op entries :
  wf_state st -> sized entries -> wf_state (fst (inbound_manifest st from a x w op entries)).
Proof.
  intros W Hsz. unfold inbound_manifest. set (o := Build_TransferOwner from w).
  set (checks := if bool_decide (op = Operation.Move) then _ else _).
  destruct checks as [u|e] eqn:E; [|done]. unfold checks in E. inv_ok E.
  unfold ensure_ids_available in *. inv_ok Heqr.
  match goal with H : ensure_owner_available _ _ = Ok ?v |- _ => destruct v;
    destruct (ensure_owner_available_ok st o H) as [Hl Hr] end.
  destruct u. destruct (manifest_ok _ Hsz E) as [Hnd Hm].
  set (superseded := hash_order _).
  pose proof (cancel_owners_wf st superseded ClipboardCancelReason.User false W) as W1.
  pose proof (cancel_owners_shrinks st superseded ClipboardCancelReason.User false o W Hl Hr)
    as [Hl1 Hr1].
  destruct (cancel_owners st _ _ _) as [st1 stale]. cbn in *.
  pose proof (allocate_ui_id_spec st1 (wi_next _ (ws_index _ W1))) as Ha.
  destruct (allocate_ui_id st1) as [st2 answer]. destruct Ha as [(next & -> & Hn) Hid].
  destruct answer as [id|e]; cbn; [|by apply set_next_wf].
  destruct Hid as [Hid Hfree].
  apply (add_remote_wf st1 next o
    {| t_ui_id := id; t_adapter_id := a; t_adapter_transfer_id := x; t_operation := op;
       t_entries := by_id entries; t_announced := false; t_transferred_by_file := ∅ |}); try done; cbn.
  - by rewrite by_id_perm.
  - intros f e. rewrite by_id_lookup by done. by intros [_ <-].
Qed.

(** ** Plugins *)

Lemma owners_for_adapter_live st a x o :
  wf_state st -> o ∈ owners_for_adapter st a x -> exists id, live st !! o = Some (id, (a, x)).
Proof.
  intros W. unfold owners_for_adapter.
  destruct (adapter_to_owner st !! (a, x)) as [owners|] eqn:E; [|by rewrite elem_of_nil].
  rewrite elem_of_hash_order, elem_of_elements. by apply (wi_adapter _ (ws_index _ W)).
Qed.

Lemma owners_for_adapter_nodup st a x : NoDup (owners_for_adapter st a x).
Proof.
  unfold owners_for_adapter. destruct (adapter_to_owner st !! (a, x)); [|apply NoDup_nil_2].
  rewrite hash_order_perm. apply NoDup_elements.
Qed.

Lemma validate_range_ok size offset length :
  0 <= offset -> 0 <= length -> validate_range (P := P) size offset length = Ok tt ->
  good_range size offset length.
Proof.
  intros Ho Hl E. unfold validate_range in E. inv_ok E.
  match goal with H : ok_or _ _ = Ok _ |- _ => apply ok_or_Ok, checked_add_Some in H as [-> _] end.
  unfold good_range. zbool.
Qed.

Definition wf_range_request (request : RangeRequest) : bool :=
  is_u64 (rq_request_id request) && is_u64 (rq_entry_id request) && is_u64 (rq_offset request)
  && is_u32 (rq_length request).

Lemma adapter_range_request_wf st a request :
  wf_state st -> wf_range_request request = true ->
  wf_state (fst (adapter_range_request st a request)).
Proof.
  intros W Hreq. unfold adapter_range_request.
  set (checks := let* _ := remote_of_adapter st a _ in _).
  destruct checks as [[[o index] v]|e] eqn:E; [|done]. unfold checks in E. clear checks.
  unfold remote_of_adapter in E. inv_ok E. cbn.
  apply announce_remote_wf, insert_pending_wf; [done|].
  repeat match goal with H : ok_or _ _ = Ok _ |- _ => apply ok_or_Ok in H end.
  do 2 eexists. split; [done|]. split; [done|].
  boolsplit. split; [by eapply bool_decide_eq_true_1|].
  match goal with H : validate_range _ _ _ = Ok ?u |- _ => destruct u; apply validate_range_ok in H end.
  2-3: unfold wf_range_request in Hreq; zbool.
  match goal with H : protocol _ = Ok _ |- _ =>
    unfold protocol, ChunkValidator.new in H; inv_ok H end.
  split; cbn; try done. split_and!; try done. unfold good_range in *. unfold len. cbn. lia.
Qed.

Lemma total_is_exact st o : wf_state st -> 0 <= snd (transfer_totals st o) <= MAX_CLIPBOARD_SIZE.
Proof.
  intros W. unfold transfer_totals. assert (forall l, 0 <= sizes l <= MAX_CLIPBOARD_SIZE ->
    sum_u64 (entry_size <$> l) = sizes l) as Hs.
  { intros l Hl. unfold sum_u64, sizes in *. apply Z.mod_small. limits. lia. }
  destruct (local st !! o) as [t|] eqn:E; cbn.
  - destruct (wt_local _ (ws_totals _ W) _ _ E) as [Hl _]. by rewrite Hs.
  - destruct (remote st !! o) as [t|] eqn:E'; cbn; [|limits; lia].
    destruct (wt_remote _ (ws_totals _ W) _ _ E') as [Hl _]. by rewrite Hs.
Qed.

Lemma counted_insert v m : counted m -> 0 <= v <= MAX_CLIPBOARD_SIZE -> counted (<[0 := v]> m).
Proof.
  intros Hm Hv. right. exists v. split; [|done].
  destruct Hm as [->|(w & -> & _)]; [done|]. apply map_eq. intros k.
  destruct (decide (k = 0)) as [->|]; [by rewrite lookup_insert_eq, lookup_singleton_eq|].
  by rewrite lookup_insert_ne, !lookup_singleton_ne.
Qed.

Lemma record_progress_wf v st o :
  0 <= v <= MAX_CLIPBOARD_SIZE -> wf_state st -> wf_state (record_progress v st o).
Proof.
  intros Hv W. unfold record_progress.
  set (st1 := match local st !! o with Some _ => _ | None => _ end).
  assert (wf_state st1) as W1.
  { unfold st1. destruct (local st !! o) as [t|] eqn:E; [|done].
    apply (set_local_wf st o t); try done; cbn.
    - apply counted_insert; [|done]. by eapply (wt_local _ (ws_totals _ W)).
    - intros f r file. by eapply (wg_outgoing _ (ws_ranges _ W)). }
  destruct (remote st1 !! o) as [t|] eqn:E; [|done].
  apply (set_remote_wf st1 o t); try done; cbn.
  apply counted_insert; [|done]. by eapply (wt_remote _ (ws_totals _ W1)).
Qed.

Lemma adapter_progress_wf st a progress :
  wf_state st -> is_option is_u64 (pg_completed_bytes progress) = true ->
  wf_state (fst (adapter_progress st a progress)).
Proof.
  intros W Hp. unfold adapter_progress.
  set (owners := owners_for_adapter st a _). set (total := match owners with _ :: _ => _ | [] => 0 end).
  assert (0 <= total <= MAX_CLIPBOARD_SIZE) as Ht.
  { unfold total. destruct owners as [|o l]; [limits; lia | by apply total_is_exact]. }
  set (checks := if len owners =? 0 then _ else _).
  destruct checks as [v|e] eqn:E; [|done]. unfold checks in E.
  assert (0 <= v <= MAX_CLIPBOARD_SIZE) as Hv.
  { clearbody total owners. inv_ok E;
    match goal with H : ok_or _ _ = Ok _ |- _ => apply ok_or_Ok in H; rewrite H in Hp; cbn in Hp end;
    zbool. }
  cbn. clear checks E.
  clearbody owners. clear -W Hv. revert st W.
  induction owners as [|o owners IH]; intros st W; [done|]. cbn. apply IH.
  by apply record_progress_wf.
Qed.

Lemma end_owners_wf report st owners : wf_state st -> wf_state (fst (end_owners report st owners)).
Proof.
  revert st. induction owners as [|o owners IH]; intros st W; [done|]. cbn.
  destruct (transfer_ui_id st o); [|done]. destruct (transfer_totals st o).
  specialize (IH _ (remove_owner_wf st o W)). by destruct (end_owners report (remove_owner st o) owners).
Qed.

Lemma end_adapter_transfer_wf report st a x :
  wf_state st -> wf_state (fst (end_adapter_transfer report st a x)).
Proof.
  intros W. unfold end_adapter_transfer. destruct (_ =? 0); [done | by apply end_owners_wf].
Qed.

(** A release drops the key first; the loop never looks at it. *)
Lemma forget_delete o (key : rstring * rstring) (m : gmap (rstring * rstring) (gset (TransferOwner P))) :
  forget_owner o (delete key m) = delete key (forget_owner o m).
Proof. unfold forget_owner. apply omap_delete. Qed.

Lemma remove_owner_commutes st o (key : rstring * rstring) :
  remove_owner (set_adapter_to_owner (delete key (adapter_to_owner st)) st) o
  = set_adapter_to_owner (delete key (adapter_to_owner (remove_owner st o))) (remove_owner st o).
Proof.
  unfold remove_owner. cbn. destruct (local st !! o); cbn; unfold set_adapter_to_owner; cbn;
    f_equal; exact (forget_delete o key _).
Qed.

Lemma release_owners_commutes owners st (key : rstring * rstring) :
  release_owners (set_adapter_to_owner (delete key (adapter_to_owner st)) st) owners
  = let (st', actions) := release_owners st owners in
    (set_adapter_to_owner (delete key (adapter_to_owner st')) st', actions).
Proof.
  revert st. induction owners as [|o owners IH]; intros st; [done|]. cbn [release_owners].
  change (remote (set_adapter_to_owner (delete key (adapter_to_owner st)) st)) with (remote st).
  change (local (set_adapter_to_owner (delete key (adapter_to_owner st)) st)) with (local st).
  destruct (remote st !! o) as [t|]; [rewrite IH; by destruct (release_owners st owners)|].
  destruct (local st !! o) as [t|]; [|apply IH].
  change (transfer_totals (set_adapter_to_owner (delete key (adapter_to_owner st)) st) o)
    with (transfer_totals st o).
  destruct (transfer_totals st o). rewrite remove_owner_commutes, IH.
  by destruct (release_owners (remove_owner st o) owners).
Qed.

(** A release removes the local transfers it names and no other. *)
Lemma release_owners_spec owners st :
  wf_state st ->
  let st' := fst (release_owners st owners) in
  wf_state st' /\ remote st' = remote st /\ next_ui_id st' = next_ui_id st
  /\ forall k, local st' !! k = if decide (k ∈ owners) then None else local st !! k.
Proof.
  revert st. induction owners as [|o owners IH]; intros st W; cbn [release_owners].
  { split_and!; try done. }
  destruct (remote st !! o) as [t|] eqn:Er.
  - specialize (IH st W). destruct (release_owners st owners) as [st' acts]. cbn in *.
    destruct IH as (W' & Hr & Hn & Hl). split_and!; try done. intros k. rewrite Hl.
    destruct (decide (k ∈ owners)), (decide (k ∈ o :: owners)) as [Hin|Hin]; try done; [set_solver|].
    apply elem_of_cons in Hin as [->|]; [|done].
    destruct (local st !! o) eqn:El; [|done]. apply (wi_disjoint _ (ws_index _ W)) in El. congruence.
  - destruct (local st !! o) as [t|] eqn:El.
    + destruct (transfer_totals st o). specialize (IH _ (remove_owner_wf st o W)).
      pose proof (remove_owner_remote st o) as Hrr. pose proof (remove_owner_local st o) as Hrl.
      assert (remote (remove_owner st o) = remote st) as Hr0.
      { unfold remove_owner. by rewrite El. }
      assert (next_ui_id (remove_owner st o) = next_ui_id st) as Hn0.
      { unfold remove_owner. by rewrite El. }
      destruct (release_owners (remove_owner st o) owners) as [st' acts]. cbn in *.
      destruct IH as (W' & Hr & Hn & Hl). split_and!; try congruence. intros k.
      rewrite Hl, Hrl by apply W.
      destruct (decide (k ∈ owners)), (decide (k ∈ o :: owners)), (decide (k = o)); set_solver.
    + specialize (IH st W). destruct (release_owners st owners) as [st' acts]. cbn in *.
      destruct IH as (W' & Hr & Hn & Hl). split_and!; try done. intros k. rewrite Hl.
      destruct (decide (k ∈ owners)), (decide (k ∈ o :: owners)) as [Hin|Hin]; try done; [set_solver|].
      apply elem_of_cons in Hin as [->|]; done.
Qed.

Lemma adapter_released_wf st a released :
  wf_state st -> wf_state (fst (adapter_released st a released)).
Proof.
  intros W. unfold adapter_released. set (key := (a, rl_transfer_id released)).
  destruct (adapter_to_owner st !! key) as [owners|] eqn:E; [|done].
  rewrite release_owners_commutes.
  pose proof (release_owners_spec (hash_order (elements owners)) st W) as Hspec.
  destruct (release_owners st _) as [st' actions]. cbn in Hspec |- *.
  destruct Hspec as ([[N D U UR A L] WR WT] & Hr & Hn & Hl).
  split; [| by destruct WR; split | by destruct WT; split].
  split; try done; cbn.
  - intros k all. rewrite lookup_delete_Some. intros [_ Hk]. by apply A.
  - intros k t Ht. destruct (L k t Ht) as (all & Hall & Hin). exists all.
    rewrite lookup_delete_Some. split; [|done]. split; [|done]. intros Hkey.
    rewrite Hl in Ht. destruct (decide _) as [|Hnot]; [done|]. apply Hnot.
    rewrite elem_of_hash_order, elem_of_elements.
    destruct (wi_local _ (ws_index _ W) _ _ Ht) as (all' & Hall' & Hin').
    change (snd (local_ids t)) with (l_adapter_id t, l_adapter_transfer_id t) in Hall'.
    congruence.
Qed.

(** ** Ranges *)

Lemma source_file_request_wf st from w f r offset length :
  wf_state st -> 0 <= offset -> 0 <= length ->
  wf_state (fst (source_file_request st from w f r offset length)).
Proof.
  intros W Ho Hlen. unfold source_file_request. set (o := Build_TransferOwner from w).
  set (checks := let* _ := ok_or (local st !! o) _ in _).
  destruct checks as [offer|e] eqn:E; [|done]. unfold checks in E. inv_ok E. cbn.
  repeat match goal with H : ok_or _ _ = Ok _ |- _ => apply ok_or_Ok in H end.
  apply announce_local_wf, set_source_pending_wf; [done | |].
  - intros k f' r' range. rewrite lookup_insert_Some. intros [[[= <- <- <-] <-]|[_ Hr]].
    + do 2 eexists. split; [done|]. split; [done|]. boolsplit.
      split; [by eapply bool_decide_eq_true_1|].
      match goal with H : validate_range _ _ _ = Ok ?u |- _ =>
        destruct u; by apply validate_range_ok in H end.
    + by eapply (wg_source _ (ws_ranges _ W)).
  - intros k t f' r' file Ht Hf. destruct (decide ((o, f, r) = (k, f', r'))) as [->|Hne].
    + by rewrite lookup_insert_eq.
    + rewrite lookup_insert_ne by done. by eapply (wg_outgoing _ (ws_ranges _ W)).
Qed.

Lemma insert_outgoing_file_wf st o f r offset length file :
  wf_state st -> wf_state (fst (insert_outgoing_file st o f r offset length file)).
Proof.
  intros W. unfold insert_outgoing_file.
  set (checks := let* _ := ok_or (local st !! o) _ in _).
  destruct checks as [t|e] eqn:E; [|done]. unfold checks in E. inv_ok E. cbn.
  repeat match goal with H : ok_or _ _ = Ok _ |- _ => apply ok_or_Ok in H end.
  apply (set_local_wf st o t); try done; cbn.
  - by eapply (wt_local _ (ws_totals _ W)).
  - intros f' r' file'. rewrite lookup_insert_Some. intros [[[= <- <-] <-]|[_ Hf]].
    + split; [zbool | by eexists].
    + by eapply (wg_outgoing _ (ws_ranges _ W)).
Qed.

Lemma source_complete_wf st o f r size digest :
  wf_state st -> wf_state (fst (source_complete st o f r size digest)).
Proof.
  intros W. unfold source_complete. destruct (local st !! o) as [t|] eqn:E; [|done].
  destruct (l_outgoing t !! (f, r)) as [file|] eqn:Ef; [|done]. cbn.
  pose proof (source_range_served_wf st o f r W) as Hs. unfold source_range_served in Hs.
  by rewrite E in Hs.
Qed.

Lemma received_range_ok o f r size p v w offset data :
  wf_range o f r size p ->
  ChunkValidator.validate_chunk (p_validator p) w f r offset (len data) = Ok v ->
  offset = k_offset (p_key p)
  /\ 0 < len data <= k_length (p_key p)
  /\ wf_range o f r size
       {| p_key := p_key p; p_validator := v; p_received := len data;
          p_hasher := p_hasher p ++ data; p_chunk := data |}.
Proof.
  intros [Hkey Hgood (Hvo & Hvl & Hvc) (Hh & Hrec & Hempty & Hle)] E.
  unfold ChunkValidator.validate_chunk, validate_file_chunk in E. inv_ok E.
  repeat match goal with H : ok_or _ _ = Ok _ |- _ => apply ok_or_Ok, checked_add_Some in H as [-> _] end.
  boolsplit. pose proof (len_nonneg data).
  repeat match goal with H : (_ =? _) = true |- _ => apply Z.eqb_eq in H end.
  repeat match goal with H : (_ =? _) = false |- _ => apply Z.eqb_neq in H end.
  repeat match goal with H : (_ <? _) = false |- _ => apply Z.ltb_ge in H end.
  split; [congruence|]. split; [lia|]. split; cbn; try done.
  rewrite Hh, (Hempty ltac:(done)). split_and!; try done; lia.
Qed.

Lemma inbound_chunk_wf st from w f r offset data :
  wf_state st -> wf_state (fst (inbound_chunk st from w f r offset data)).
Proof.
  intros W. unfold inbound_chunk. set (o := Build_TransferOwner from w).
  set (checks := let* _ := ok_or (pending st !! (o, f, r)) _ in _).
  destruct checks as [range|e] eqn:E; [|done]. unfold checks in E. clear checks.
  destruct (pending st !! (o, f, r)) as [p|] eqn:Hp; [|done]. cbn in E. unfold protocol in E.
  destruct (ChunkValidator.validate_chunk _ _ _ _ _ _) as [v|] eqn:Hv; [|done]. injection E as <-.
  destruct (wg_pending _ (ws_ranges _ W) _ _ _ _ Hp) as (t & e & Ht & He & Hk & Hr).
  destruct (received_range_ok _ _ _ _ _ _ _ _ _ Hr Hv) as (Ho & Hlen & Hr').
  set (range := Build_PendingRange _ _ _ _ _). set (st1 := set_pending _ st).
  assert (wf_state st1) as W1 by (apply insert_pending_wf; [done|]; by exists t, e).
  destruct (let* transfer := ok_or (remote st1 !! o) _ in _) as [[[t1 total] end_]|e1]; [|done].
  destruct (end_ =? total); [done|]. destruct (negb _); [done|].
  cbn. by apply delete_pending_wf.
Qed.

Lemma inbound_complete_wf st from w f r size digest :
  wf_state st -> wf_state (fst (inbound_complete st from w f r size digest)).
Proof.
  intros W. unfold inbound_complete. set (o := Build_TransferOwner from w).
  destruct (let* entry := ok_or _ _ in _) as [range|e]; [|done].
  set (st1 := set_pending _ st).
  assert (wf_state st1) as W1 by (by apply delete_pending_wf).
  by destruct (remote st1 !! _).
Qed.

(** The messages of the protocol carry unsigned integers. *)
Lemma transfer_protocol_wf st from event :
  wf_state st -> wf_event event = true -> wf_state (fst (handle_protocol st from event)).
Proof.
  intros W He. destruct event; cbn; try done.
  - cbn in He. apply source_file_request_wf; [done | zbool | zbool].
  - by apply inbound_chunk_wf.
  - by apply inbound_complete_wf.
  - by apply cancel_owner_wf.
Qed.

(** ** Sequences of operations *)

Inductive TransferOp :=
| OpSetFileClipboard (adapter_id : rstring)
| OpLocalCopy (to : P) (wire_id : Z) (adapter_id : rstring) (manifest : CopyManifest) (offer : FileOffer)
| OpInboundManifest (from : P) (adapter_id adapter_transfer_id : rstring) (wire_id : Z)
    (operation : Operation.t) (entries : list ClipboardManifestEntry)
| OpRangeRequest (adapter_id : rstring) (request : RangeRequest)
| OpMountReady (adapter_id : rstring) (ready : MountReady)
| OpProgress (adapter_id : rstring) (progress : Progress)
| OpCompleted (adapter_id : rstring) (completion : Completion)
| OpCancelled (adapter_id : rstring) (cancelled : Cancelled)
| OpReleased (adapter_id : rstring) (released : Released)
| OpUnmounted (adapter_id : rstring) (unmounted : Unmounted)
| OpInsertOutgoing (owner : TransferOwner P) (file_id request_id offset length : Z)
    (file : OutgoingFile (FS := FS))
| OpSourceChunk (owner : TransferOwner P) (file_id request_id offset : Z) (data : bytes)
| OpRangeServed (owner : TransferOwner P) (file_id request_id : Z)
| OpSourceComplete (owner : TransferOwner P) (file_id request_id size : Z) (digest : bytes)
| OpProtocol (from : P) (event : ProtoEvent)
| OpCancelUi (ui_id : Z) (file_id : option Z) (reason : ClipboardCancelReason.t)
| OpPeerLost (lost : P)
| OpAdapterLost (adapter_id : rstring).

Definition run st (op : TransferOp)
    : TransferState FS P * result (TransferStateError P) (list (TransferAction P)) :=
  match op with
  | OpSetFileClipboard a => (set_file_clipboard_adapter a st, Ok [])
  | OpLocalCopy to w a manifest offer => local_copy_manifest st to w a manifest offer
  | OpInboundManifest from a x w operation entries => inbound_manifest st from a x w operation entries
  | OpRangeRequest a request => adapter_range_request st a request
  | OpMountReady a ready => adapter_mount_ready st a ready
  | OpProgress a progress => adapter_progress st a progress
  | OpCompleted a completion => adapter_completed st a completion
  | OpCancelled a cancelled => adapter_cancelled st a cancelled
  | OpReleased a released => adapter_released st a released
  | OpUnmounted a unmounted => adapter_unmounted st a unmounted
  | OpInsertOutgoing o f r offset length file =>
      let (st, inserted) := insert_outgoing_file st o f r offset length file in
      (st, match inserted with Ok _ => Ok [] | Err e => Err e end)
  | OpSourceChunk o f r offset data => (st, source_chunk st o f r offset data)
  | OpRangeServed o f r => (source_range_served st o f r, Ok [])
  | OpSourceComplete o f r size digest => source_complete st o f r size digest
  | OpProtocol from event => handle_protocol st from event
  | OpCancelUi ui f reason => cancel_ui st ui f reason
  | OpPeerLost lost => let (st, actions) := peer_lost st lost in (st, Ok actions)
  | OpAdapterLost a => let (st, actions) := adapter_lost st a in (st, Ok actions)
  end.

(** The values an operation is given are in the range of their types. *)
Definition wf_op (op : TransferOp) : bool :=
  match op with
  | OpLocalCopy _ _ _ _ offer => forallb wf_entry (o_entries offer)
  | OpInboundManifest _ _ _ _ _ entries => forallb wf_entry entries
  | OpRangeRequest _ request => wf_range_request request
  | OpProgress _ progress => is_option is_u64 (pg_completed_bytes progress)
  | OpProtocol _ event => wf_event event
  | _ => true
  end.

Inductive transfers_reach : TransferState FS P -> Prop :=
| tr_new : transfers_reach new
| tr_op st op : transfers_reach st -> wf_op op = true -> transfers_reach (fst (run st op)).

Lemma sized_wf entries : forallb wf_entry entries = true -> sized entries.
Proof.
  rewrite forallb_Forall. intros Hall. apply (Forall_impl _ _ _ Hall).
  intros e He. unfold wf_entry in He. zbool.
Qed.

Lemma transfer_run_wf st op : wf_state st -> wf_op op = true -> wf_state (fst (run st op)).
Proof.
  intros W Hop. destruct op; cbn in *;
    eauto using sized_wf, local_copy_manifest_wf, inbound_manifest_wf, adapter_range_request_wf,
      adapter_progress_wf, end_adapter_transfer_wf, adapter_released_wf, source_range_served_wf,
      source_complete_wf, transfer_protocol_wf.
  - destruct W as [[? ? ? ? ? ?] [? ? ?] [? ?]]. by split; split.
  - pose proof (insert_outgoing_file_wf st owner file_id request_id offset length file W) as W'.
    by destruct (insert_outgoing_file st owner file_id request_id offset length file).
  - unfold cancel_ui. destruct (ui_to_owner st !! ui_id); [by apply cancel_owner_wf | done].
  - unfold peer_lost. pose proof (cancel_owners_wf st (hash_order (elements (owners_of_peer st lost)))
      ClipboardCancelReason.IoError false W) as W'. by destruct (cancel_owners _ _ _ _).
  - unfold adapter_lost.
    pose proof (cancel_owners_wf st (hash_order (elements (owners_of_adapter st adapter_id)))
      ClipboardCancelReason.IoError true W) as W'. by destruct (cancel_owners _ _ _ _).
Qed.

Lemma reach_wf st : transfers_reach st -> wf_state st.
Proof. induction 1; [apply new_wf | by apply transfer_run_wf]. Qed.
End operations.
Arguments TransferOp FS {_} P.

(** ** The tables *)

(** C27: after any sequence of operations (offers, messages of plugins and
    peers, reads, cancellations, losses of a peer or plugin, in any order and
    with hash tables iterated in any order) the tables of clipboard transfers
    agree: a user-interface id names exactly the live transfer that carries it;
    no transfer is both local and remote; a plugin's key names only live
    transfers published under it, and every local transfer; a range awaited from
    a peer or reserved for one lies within a regular file of a live transfer and
    fits one datagram; and every file kept open serves a reserved range. *)
Theorem transfer_tables_agree {FS P : Type} `{!Os FS} `{!Sha256} `{!HashOrder} `{!Base64}
    `{Countable P} (st : TransferState FS P) :
  transfers_reach st ->
  (forall id o, ui_to_owner st !! id = Some o <-> transfer_ui_id st o = Some id)
  /\ (forall o, is_Some (local st !! o) -> remote st !! o = None)
  /\ (forall a x o, o ∈ owners_for_adapter st a x ->
        exists ui announced, identifiers st o = Some (ui, a, x, announced))
  /\ (forall o t, local st !! o = Some t ->
        o ∈ owners_for_adapter st (l_adapter_id t) (l_adapter_transfer_id t))
  /\ (forall o f r p, pending st !! (o, f, r) = Some p ->
        exists t e, remote st !! o = Some t /\ t_entries t !! f = Some e
        /\ entry_kind e = ClipboardEntryKind.File
        /\ good_range (entry_size e) (k_offset (p_key p)) (k_length (p_key p)))
  /\ (forall o f r offset length, source_pending st !! (o, f, r) = Some (offset, length) ->
        exists t e, local st !! o = Some t /\ file_of (o_entries (l_offer t)) f = Some e
        /\ entry_kind e = ClipboardEntryKind.File /\ good_range (entry_size e) offset length)
  /\ (forall o t f r file, local st !! o = Some t -> l_outgoing t !! (f, r) = Some file ->
        is_Some (source_pending st !! (o, f, r))).
Proof.
  intros W%reach_wf. pose proof W as [WI WR WT]. split_and!.
  - intros id o. rewrite transfer_ui_id_live, (wi_ui _ WI).
    destruct (live st !! o) as [[i key]|]; cbn; naive_solver.
  - intros o [t Ht]. by eapply wi_disjoint.
  - intros a x o Ho. destruct (owners_for_adapter_live st a x o W Ho) as [id Hid].
    rewrite lookup_live in Hid. unfold identifiers.
    destruct (local st !! o) as [t|]; [injection Hid as <- <- <-; eauto|].
    destruct (remote st !! o) as [t|]; [injection Hid as <- <- <-; eauto | done].
  - intros o t Ht. destruct (wi_local _ WI _ _ Ht) as (owners & Ho & Hin).
    unfold owners_for_adapter. cbn in Ho. rewrite Ho. by rewrite elem_of_hash_order, elem_of_elements.
  - intros o f r p Hp. destruct (wg_pending _ WR _ _ _ _ Hp) as (t & e & Ht & He & Hk & Hr).
    exists t, e. split_and!; try done; apply Hr.
  - intros o f r offset length Hs. apply (wg_source _ WR _ _ _ _ Hs).
  - intros o t f r file Ht Hf. by eapply (wg_outgoing _ WR).
Qed.

(** ** Examples *)

#[local] Existing Instance list_order.
#[local] Instance identity_base64 : Base64 := fun data => data.

Definition sample_entry (size : Z) : ClipboardManifestEntry :=
  {| entry_file_id := 1; entry_path := str "a.bin"; entry_kind := ClipboardEntryKind.File;
     entry_size := size |}.
Definition sample_offer (size : Z) : FileOffer :=
  {| o_transfer_id := 7; o_entries := [sample_entry size]; o_sources := ∅ |}.

(** Copying a file for peer 5; an offer of peer 5, and a range of it wanted. *)
Definition sample_copy : TransferOp ram Z :=
  OpLocalCopy 5 7 (str "clipboard")
    {| cm_transfer_id := str "copy-1"; cm_operation := Operation.Copy; cm_entries := [] |}
    (sample_offer 3).
Definition sample_inbound (size : Z) : TransferOp ram Z :=
  OpInboundManifest 5 (str "fuse") (str "paste-1") 9 Operation.Copy [sample_entry size].
Definition sample_request (offset length : Z) : TransferOp ram Z :=
  OpRangeRequest (str "fuse")
    {| rq_transfer_id := str "paste-1"; rq_request_id := 1; rq_entry_id := 1;
       rq_offset := offset; rq_length := length |}.

Definition after (ops : list (TransferOp ram Z)) : TransferState ram Z :=
  foldl (fun st op => fst (run st op)) new ops.

Lemma after_reach ops : forallb wf_op ops = true -> transfers_reach (after ops).
Proof.
  intros Hops. unfold after. assert (transfers_reach (P := Z) (FS := ram) new) as H by constructor.
  revert H. generalize (new (FS := ram) (P := Z)). revert Hops.
  induction ops as [|op ops IH]; cbn; intros Hops st Hst; [done|].
  apply andb_prop in Hops as [Hop Hops]. apply IH; [done|]. by constructor.
Qed.

Lemma transfer_tables_agree_witness :
  let st := after [sample_copy; sample_inbound 3; sample_request 0 3] in
  ui_to_owner st !! 2 = Some (Build_TransferOwner 5 9)
  /\ transfer_ui_id st (Build_TransferOwner 5 9) = Some 2.
Proof.
  intros st. assert (ui_to_owner st !! 2 = Some (Build_TransferOwner 5 9)) as E by reflexivity.
  split; [exact E|].
  apply (proj1 (transfer_tables_agree st
                  (after_reach [sample_copy; sample_inbound 3; sample_request 0 3] eq_refl)) 2).
  exact E.
Defined.

(** ** Answers to range requests *)

Section answers.
Context {FS : Type} `{!Os FS} `{!Sha256} `{!HashOrder} `{!Base64} {P : Type} `{Countable P}.
Implicit Types (st : TransferState FS P) (o : TransferOwner P).

(** A chunk is answered at once unless it ends the file. *)
Lemma inbound_chunk_ok st from w f r offset data st' actions :
  wf_state st -> inbound_chunk st from w f r offset data = (st', Ok actions) ->
  let o := Build_TransferOwner from w in
  exists p t e, pending st !! (o, f, r) = Some p /\ remote st !! o = Some t
  /\ t_entries t !! f = Some e /\ wf_range o f r (entry_size e) p
  /\ offset = k_offset (p_key p)
  /\ len data = k_length (p_key p)
  /\ actions = (if offset + len data =? entry_size e then []
               else [range_response t r offset data false])
              ++ [Frontend (EvProgress (t_ui_id t) (offset + len data) (entry_size e))]
  /\ (offset + len data <> entry_size e -> pending st' !! (o, f, r) = None).
Proof.
  intros W E o. unfold inbound_chunk in E. fold o in E.
  destruct (pending st !! (o, f, r)) as [p|] eqn:Hp; [|done]. cbn [ok_or] in E. unfold protocol in E.
  destruct (ChunkValidator.validate_chunk _ _ _ _ _ _) as [v|] eqn:Hv; [|done].
  destruct (wg_pending _ (ws_ranges _ W) _ _ _ _ Hp) as (t & e & Ht & He & Hk & Hr).
  destruct (received_range_ok _ _ _ _ _ _ _ _ _ Hr Hv) as (Ho & Hlen & Hr').
  cbn [remote set_pending ok_or] in E. rewrite Ht in E. cbn [ok_or] in E. rewrite He in E. cbn [ok_or] in E.
  pose proof (wr_good _ _ _ _ _ Hr) as (Hoff & Hl & Hend).
  destruct (checked_add offset (len data)) as [end_|] eqn:Hc; [|done].
  apply checked_add_Some in Hc as [-> _]. cbn [ok_or p_key p_chunk] in E.
  exists p, t, e. do 5 (split; [done|]).
  destruct (Z.eqb_spec (offset + len data) (entry_size e)) as [Eq|Ne].
  - injection E as <- <-. split_and!; [lia | done | done].
  - destruct (Z.eqb_spec (len data) (k_length (p_key p))) as [El|]; [|done]. cbn in E.
    injection E as <- <-. split_and!; [done | done |]. intros _. cbn. apply lookup_delete_eq.
Qed.

(** A completion is accepted when the kept chunk ends the file and has the digest. *)
Lemma inbound_complete_ok st from w f r size digest st' actions :
  wf_state st -> inbound_complete st from w f r size digest = (st', Ok actions) ->
  let o := Build_TransferOwner from w in
  exists p t e, pending st !! (o, f, r) = Some p /\ remote st !! o = Some t
  /\ t_entries t !! f = Some e /\ wf_range o f r (entry_size e) p
  /\ len (p_chunk p) = k_length (p_key p)
  /\ k_offset (p_key p) + len (p_chunk p) = entry_size e
  /\ size = entry_size e /\ sha256_of (p_chunk p) = digest
  /\ actions = [range_response t r (k_offset (p_key p)) (p_chunk p) true;
                Frontend (EvProgress (t_ui_id t) (len (p_chunk p)) (entry_size e))]
  /\ pending st' !! (o, f, r) = None.
Proof.
  intros W E o. unfold inbound_complete in E. fold o in E.
  destruct (remote st !! o) as [t0|] eqn:Ht0; [|done]. cbn [mbind option_bind] in E.
  destruct (t_entries t0 !! f) as [e0|] eqn:He0; [|done]. cbn [ok_or] in E.
  destruct (pending st !! (o, f, r)) as [p|] eqn:Hp; [|done]. cbn [ok_or] in E.
  destruct (wg_pending _ (ws_ranges _ W) _ _ _ _ Hp) as (t & e & Ht & He & Hk & Hr).
  assert (t0 = t) as -> by congruence. assert (e0 = e) as -> by congruence.
  pose proof (wr_good _ _ _ _ _ Hr) as (Hoff & Hl & Hend).
  destruct (wr_progress _ _ _ _ _ Hr) as (Hh & Hrec & _ & Hle).
  destruct (wr_key _ _ _ _ _ Hr) as (Hko & _ & _).
  destruct (checked_add _ _) as [end_|] eqn:Hc; [|done].
  apply checked_add_Some in Hc as [-> _]. cbn [ok_or] in E.
  destruct (Z.eqb_spec (p_received p) 0); [done|]. cbn [orb] in E.
  destruct (Z.eqb_spec (k_offset (p_key p) + p_received p) (entry_size e)); [|done]. cbn [negb] in E.
  destruct (Z.eqb_spec size (entry_size e)); [|done]. cbn [negb] in E.
  case_bool_decide as Hd; [|done]. cbn [negb remote set_pending] in E.
  rewrite Hko, Ht in E. cbn in E. rewrite He in E. injection E as <- <-.
  exists p, t, e. rewrite Hh in Hd. rewrite Hrec in *. split_and!; try done; [lia|].
  cbn. apply lookup_delete_eq.
Qed.
End answers.

(** C28: every byte range handed to a plugin is the range it asked for.  When a
    message of a peer makes the daemon answer a plugin, the answer belongs to one
    range the plugin asked for and still awaits, of a transfer of that peer; it
    carries exactly as many bytes as were asked for, from the offset asked for;
    it is marked as the end of the file exactly when the range ends the file, and
    then its bytes have the digest the peer sent; and the range is no longer
    awaited, so it is answered once. *)
Theorem range_answers_are_exact {FS P : Type} `{!Os FS} `{!Sha256} `{!HashOrder} `{!Base64}
    `{Countable P} (st st' : TransferState FS P) (from : P) (event : ProtoEvent)
    (actions : list (TransferAction P)) (a : rstring) (m : RangeResponse) :
  transfers_reach st -> handle_protocol st from event = (st', Ok actions) ->
  Adapter a (Message.RangeResponse m) ∈ actions ->
  exists o f p t e chunk,
    peer o = from
    /\ pending st !! (o, f, rr_request_id m) = Some p
    /\ pending st' !! (o, f, rr_request_id m) = None
    /\ remote st !! o = Some t /\ t_entries t !! f = Some e
    /\ a = t_adapter_id t /\ rr_transfer_id m = t_adapter_transfer_id t
    /\ rr_data_base64 m = base64_encode chunk /\ rr_error m = None
    /\ rr_offset m = k_offset (p_key p) /\ len chunk = k_length (p_key p)
    /\ (if rr_eof m
        then k_offset (p_key p) + k_length (p_key p) = entry_size e
             /\ event = ProtoEvent.ClipboardFileComplete (wire_id o) f (rr_request_id m)
                          (entry_size e) (sha256_of chunk)
        else k_offset (p_key p) + k_length (p_key p) <> entry_size e
             /\ event = ProtoEvent.ClipboardFileChunk (wire_id o) f (rr_request_id m)
                          (k_offset (p_key p)) chunk).
Proof.
  intros W%reach_wf E Hin. destruct event; cbn in E; try done.
  - unfold source_file_request in E. destruct (let* _ := ok_or _ _ in _); [|done].
    injection E as <- <-. by apply list_elem_of_singleton in Hin.
  - destruct (inbound_chunk_ok _ _ _ _ _ _ _ _ _ W E)
      as (p & t & e & Hp & Ht & He & Hr & -> & Hlen & -> & Hgone).
    destruct (Z.eqb_spec (k_offset (p_key p) + len data) (entry_size e)) as [Eq|Ne].
    { by apply list_elem_of_singleton in Hin. }
    apply elem_of_cons in Hin as [[= -> ->]|Hin%list_elem_of_singleton]; [|done].
    exists (Build_TransferOwner from transfer_id), file_id, p, t, e, data. cbn.
    rewrite <- Hlen. split_and!; try done. by apply Hgone.
  - destruct (inbound_complete_ok _ _ _ _ _ _ _ _ _ W E)
      as (p & t & e & Hp & Ht & He & Hr & Hlen & Hend & -> & <- & -> & Hgone).
    apply elem_of_cons in Hin as [[= -> ->]|Hin%list_elem_of_singleton]; [|done].
    exists (Build_TransferOwner from transfer_id), file_id, p, t, e, (p_chunk p). cbn.
    rewrite <- Hlen. by split_and!.
  - unfold inbound_cancel, cancel_owner in E. destruct (transfer_totals _ _).
    destruct (identifiers _ _) as [[[[ui ad] x] ann]|]; [|done].
    destruct file_id as [file_id|]; [destruct (knows_file _ _ _); [|done]|];
      injection E as <- <-; apply elem_of_cons in Hin as [[=]|Hin];
      destruct ann; [apply list_elem_of_singleton in Hin| | apply list_elem_of_singleton in Hin |];
      first [done | by apply elem_of_nil in Hin].
  - unfold inbound_progress in E. destruct (total <? completed); [done|].
    destruct (ok_or _ _); [|done]. destruct (negb _); [done|]. injection E as <- <-.
    by apply list_elem_of_singleton in Hin.
Qed.

Definition sample_waiting : TransferState ram Z := after [sample_inbound 5; sample_request 0 3].
Definition sample_chunk : ProtoEvent := ProtoEvent.ClipboardFileChunk 9 1 1 0 [10; 20; 30].
Definition sample_answer : RangeResponse :=
  {| rr_transfer_id := str "paste-1"; rr_request_id := 1; rr_offset := 0;
     rr_data_base64 := [10; 20; 30]; rr_eof := false; rr_error := None |}.

Lemma range_answers_are_exact_witness :
  exists (o : TransferOwner Z) (f : Z) (p : PendingRange Z),
    pending sample_waiting !! (o, f, 1) = Some p /\ k_length (p_key p) = 3 /\ k_offset (p_key p) = 0.
Proof.
  destruct (range_answers_are_exact sample_waiting (fst (handle_protocol sample_waiting 5 sample_chunk)) 5
    sample_chunk
    [Adapter (str "fuse") (Message.RangeResponse sample_answer); Frontend (EvProgress 1 3 5)]
    (str "fuse") sample_answer (after_reach [sample_inbound 5; sample_request 0 3] eq_refl)
    ltac:(vm_compute; reflexivity) ltac:(left))
    as (o & f & p & t & e & chunk & _ & Hp & _ & _ & _ & _ & _ & Hd & _ & Ho & Hl & _).
  exists o, f, p. split; [exact Hp|]. split; [|by rewrite <- Ho].
  rewrite <- Hl. cbv in Hd. by rewrite <- Hd.
Defined.

(** ** Errors *)

Section errors.
Context {FS : Type} `{!Os FS} `{!Sha256} `{!HashOrder} `{!Base64} {P : Type} `{Countable P}.
Implicit Types (st : TransferState FS P) (o : TransferOwner P).

(** Ending transfers never meets an unknown owner. *)
Lemma end_owners_ok report st owners :
  wf_state st -> NoDup owners -> (forall o, o ∈ owners -> is_Some (live st !! o)) ->
  exists actions, snd (end_owners report st owners) = Ok actions.
Proof.
  revert st. induction owners as [|o owners IH]; intros st W Hnd Hl; [by eexists|].
  apply NoDup_cons in Hnd as [Hno Hnd]. cbn.
  destruct (Hl o) as [[id key] Hid]; [apply elem_of_cons; by left|].
  rewrite transfer_ui_id_live, Hid. cbn. destruct (transfer_totals st o).
  destruct (IH (remove_owner st o)) as [rest Hrest]; [by apply remove_owner_wf | done | |].
  - intros k Hk. rewrite remove_owner_live by apply W. rewrite lookup_delete_ne by set_solver.
    apply Hl. apply elem_of_cons. by right.
  - destruct (end_owners report (remove_owner st o) owners) as [st' r]. cbn in *. subst. by eexists.
Qed.

Lemma end_adapter_transfer_err report st a x st' e :
  wf_state st -> end_adapter_transfer report st a x = (st', Err e) -> st' = st.
Proof.
  intros W E. unfold end_adapter_transfer in E. destruct (_ =? 0); [congruence|].
  destruct (end_owners_ok report st (owners_for_adapter st a x)) as [actions Ha].
  - done.
  - apply owners_for_adapter_nodup.
  - intros o Ho. destruct (owners_for_adapter_live st a x o W Ho) as [id Hid]. by eexists.
  - rewrite E in Ha. done.
Qed.

Lemma cancel_owner_err st o f reason notify st' e :
  cancel_owner st o f reason notify = (st', Err e) -> st' = st.
Proof.
  unfold cancel_owner. destruct (transfer_totals st o). destruct (identifiers st o) as [[[[? ?] ?] ?]|]; [|congruence].
  destruct f as [f|]; [destruct (knows_file st o f)|]; congruence.
Qed.

(** A user-interface id is refused only when all are in use. *)
Lemma allocate_never_exhausted st st' e :
  wf_state st -> Z.of_nat (size (ui_to_owner st)) < u64_max -> allocate_ui_id st = (st', Err e) -> False.
Proof.
  intros W Hs E. pose proof (allocate_ui_id_spec st (wi_next _ (ws_index _ W))) as Ha.
  rewrite E in Ha. destruct Ha as [_ [_ Hall]].
  assert (u64_max <= Z.of_nat (size (ui_to_owner st))); [|lia].
  apply (refused_bound (ui_to_owner st) 1); [unfold u64_max; lia | unfold u64_max; lia |].
  intros i Hi. apply Hall. apply candidate_range; unfold u64_max; lia.
Qed.

Lemma cancel_owners_ui st owners reason notify :
  ui_to_owner (fst (cancel_owners st owners reason notify)) ⊆ ui_to_owner st.
Proof.
  revert st. induction owners as [|o owners IH]; intros st; [done|]. cbn.
  assert (ui_to_owner (fst (cancel_owner st o None reason notify)) ⊆ ui_to_owner st) as H1'.
  { unfold cancel_owner. destruct (transfer_totals st o).
    destruct (identifiers st o) as [[[[? ?] ?] ?]|]; [|done]. cbn. unfold remove_owner.
    destruct (local st !! o); cbn; [apply delete_subseteq|].
    destruct (remote st !! o); cbn; [apply delete_subseteq | done]. }
  destruct (cancel_owner st o None reason notify) as [st1 r]. specialize (IH st1).
  destruct (cancel_owners st1 owners reason notify). cbn in *. by etrans.
Qed.

Lemma allocate_after_cancel st owners reason notify st' e :
  wf_state st -> Z.of_nat (size (ui_to_owner st)) < u64_max ->
  allocate_ui_id (fst (cancel_owners st owners reason notify)) = (st', Err e) -> False.
Proof.
  intros W Hs. apply allocate_never_exhausted; [by apply cancel_owners_wf|].
  pose proof (cancel_owners_ui st owners reason notify) as Hsub.
  apply subseteq_dom, subseteq_size in Hsub. rewrite !size_dom in Hsub. lia.
Qed.

Lemma local_copy_manifest_err st to w a manifest offer st' e :
  wf_state st -> Z.of_nat (size (ui_to_owner st)) < u64_max ->
  local_copy_manifest st to w a manifest offer = (st', Err e) -> st' = st.
Proof.
  intros W Hs E. unfold local_copy_manifest in E.
  destruct (let* _ := ensure_owner_available _ _ in _); [|congruence].
  pose proof (allocate_after_cancel st (superseded_local st to) ClipboardCancelReason.User true) as Ha.
  destruct (cancel_owners _ _ _ _) as [st1 stale]. cbn in Ha.
  destruct (allocate_ui_id st1) as [st2 [id|e1]]; [done|]. exfalso. by eapply Ha.
Qed.

Lemma inbound_manifest_err st from a x w op entries st' e :
  wf_state st -> Z.of_nat (size (ui_to_owner st)) < u64_max ->
  inbound_manifest st from a x w op entries = (st', Err e) -> st' = st.
Proof.
  intros W Hs E. unfold inbound_manifest in E.
  destruct (if bool_decide (op = Operation.Move) then _ else _); [|congruence].
  set (superseded := hash_order _) in E.
  pose proof (allocate_after_cancel st superseded ClipboardCancelReason.User false) as Ha.
  destruct (cancel_owners _ _ _ _) as [st1 stale]. cbn in Ha.
  destruct (allocate_ui_id st1) as [st2 [id|e1]]; [done|]. exfalso. by eapply Ha.
Qed.

Lemma inbound_chunk_err st from w f r offset data st' e :
  wf_state st -> inbound_chunk st from w f r offset data = (st', Err e) ->
  let index := (Build_TransferOwner from w, f, r) in
  st' = st
  \/ e = Protocol (InvalidFileChunk "short non-EOF chunk")
     /\ exists p p', pending st !! index = Some p /\ len data < k_length (p_key p)
        /\ p_key p' = p_key p /\ v_chunk_received (p_validator p') = true
        /\ st' = set_pending (<[index := p']> (pending st)) st.
Proof.
  intros W E index. unfold inbound_chunk in E. fold index in E.
  destruct (pending st !! index) as [p|] eqn:Hp; [|left; cbn in E; congruence].
  cbn [ok_or] in E. unfold protocol in E.
  destruct (ChunkValidator.validate_chunk _ _ _ _ _ _) as [v|] eqn:Hv; [|left; congruence].
  destruct (wg_pending _ (ws_ranges _ W) _ _ _ _ Hp) as (t & e0 & Ht & He & Hk & Hr).
  destruct (received_range_ok _ _ _ _ _ _ _ _ _ Hr Hv) as (Ho & Hlen & Hr').
  assert (v_chunk_received v = true) as Hcr.
  { unfold ChunkValidator.validate_chunk in Hv. by inv_ok Hv. }
  cbn [remote set_pending] in E. rewrite Ht in E. cbn [ok_or] in E. rewrite He in E. cbn [ok_or] in E.
  assert (checked_add offset (len data) = Some (offset + len data)) as Hc.
  { unfold ChunkValidator.validate_chunk in Hv. inv_ok Hv.
    match goal with H : ok_or (checked_add _ _) _ = Ok _ |- _ =>
      apply ok_or_Ok in H; pose proof (checked_add_Some _ _ _ H) as [-> _]; exact H end. }
  rewrite Hc in E. cbn [ok_or p_key] in E.
  destruct (_ =? entry_size e0); [done|].
  destruct (Z.eqb_spec (len data) (k_length (p_key p))); [done|]. cbn in E.
  injection E as <- <-. right. split; [done|]. exists p. eexists.
  split; [done|]. split; [lia|]. split; [|split; [|reflexivity]]; done.
Qed.

Lemma inbound_complete_err st from w f r size digest st' e :
  wf_state st -> inbound_complete st from w f r size digest = (st', Err e) -> st' = st.
Proof.
  intros W E. unfold inbound_complete in E. set (o := Build_TransferOwner from w) in E.
  destruct (remote st !! o) as [t0|] eqn:Ht0; [|cbn in E; congruence].
  cbn [mbind option_bind] in E.
  destruct (let* entry := _ in _) as [range|e1] eqn:Ec; [|congruence]. exfalso.
  inv_ok Ec. repeat match goal with H : ok_or _ _ = Ok _ |- _ => apply ok_or_Ok in H end.
  match goal with H : pending st !! _ = Some _ |- _ =>
    destruct (wg_pending _ (ws_ranges _ W) _ _ _ _ H) as (t & e2 & Ht & He & Hk & Hr) end.
  destruct (wr_key _ _ _ _ _ Hr) as (Hko & _ & _).
  cbn in E. rewrite Hko, Ht in E. done.
Qed.
End errors.

(** C29: a rejected operation changes nothing.  In every state the daemon can
    reach, an operation that reports an error (a malformed, duplicate or unsafe
    offer, a stale or foreign request, a wrong digest, a plugin speaking of a
    transfer it does not own) leaves all tables as they were, so no live transfer
    is lost to it.  The one exception: a chunk that is shorter than the range
    asked for, not at the end of the file, marks its own range as received.
    Ids are never exhausted while fewer than 2^64 - 1 transfers are live. *)
Theorem rejected_operations_change_nothing {FS P : Type} `{!Os FS} `{!Sha256} `{!HashOrder}
    `{!Base64} `{Countable P} (st st' : TransferState FS P) (op : TransferOp FS P)
    (e : TransferStateError P) :
  transfers_reach st -> Z.of_nat (size (ui_to_owner st)) < u64_max -> run st op = (st', Err e) ->
  st' = st
  \/ exists from w f r offset data p p',
       op = OpProtocol from (ProtoEvent.ClipboardFileChunk w f r offset data)
       /\ e = Protocol (InvalidFileChunk "short non-EOF chunk")
       /\ pending st !! (Build_TransferOwner from w, f, r) = Some p
       /\ len data < k_length (p_key p)
       /\ p_key p' = p_key p /\ v_chunk_received (p_validator p') = true
       /\ st' = set_pending (<[(Build_TransferOwner from w, f, r) := p']> (pending st)) st.
Proof.
  intros W%reach_wf Hs E.
  destruct op; cbn in E; try discriminate E;
    eauto using local_copy_manifest_err, inbound_manifest_err, end_adapter_transfer_err, cancel_owner_err.
  - unfold adapter_range_request in E.
    destruct (let* _ := remote_of_adapter _ _ _ in _) as [[[? ?] ?]|]; [done | left; congruence].
  - left. unfold adapter_mount_ready in E. congruence.
  - unfold adapter_progress in E. destruct (if _ =? 0 then _ else _); [done | left; congruence].
  - unfold adapter_released in E. destruct (adapter_to_owner st !! _); [|left; congruence].
    by destruct (release_owners _ _).
  - unfold insert_outgoing_file in E.
    destruct (let* _ := ok_or (local st !! _) _ in _); [done | left; cbn in E; congruence].
  - left. congruence.
  - left. unfold source_complete in E. destruct (local st !! _) as [t|]; [|congruence].
    destruct (l_outgoing t !! _); congruence.
  - destruct event; cbn in E; try (left; congruence);
      eauto using inbound_complete_err, cancel_owner_err.
    + left. unfold source_file_request in E. destruct (let* _ := ok_or _ _ in _); congruence.
    + destruct (inbound_chunk_err _ _ _ _ _ _ _ _ _ W E) as [->|(-> & p & p' & Hrest)]; [by left|].
      right. do 8 eexists. split; [done|]. split; [done|]. exact Hrest.
  - left. unfold cancel_ui in E. destruct (ui_to_owner st !! ui_id); [|congruence].
    by eapply cancel_owner_err.
  - by destruct (peer_lost st lost).
  - by destruct (adapter_lost st adapter_id).
Qed.

(** A duplicate offer of the same transfer is refused. *)
Lemma rejected_operations_change_nothing_witness :
  run sample_waiting (sample_inbound 5)
  = (sample_waiting, Err (DuplicateOwner (Build_TransferOwner 5 9)))
  /\ fst (run sample_waiting (sample_inbound 5)) = sample_waiting.
Proof.
  split; [reflexivity|].
  destruct (rejected_operations_change_nothing sample_waiting (fst (run sample_waiting (sample_inbound 5)))
    (sample_inbound 5) (DuplicateOwner (Build_TransferOwner 5 9))
    (after_reach [sample_inbound 5; sample_request 0 3] eq_refl)
    ltac:(vm_compute; reflexivity) ltac:(reflexivity)) as [E | (? & ? & ? & ? & ? & ? & ? & ? & [=] & _)].
  exact E.
Defined.

(** ** Two observations *)

(** The progress reported with an accepted completion is the length of the last
    range, not the position in the file: it is below the position reported for
    the chunk just before, unless the file has a single range. *)
Theorem completion_progress_is_last_range {FS P : Type} `{!Os FS} `{!Sha256} `{!HashOrder}
    `{!Base64} `{Countable P} (st st' : TransferState FS P) from w f r size digest actions :
  transfers_reach st -> inbound_complete st from w f r size digest = (st', Ok actions) ->
  exists p ui response,
    pending st !! (Build_TransferOwner from w, f, r) = Some p
    /\ actions = [response; Frontend (EvProgress ui (size - k_offset (p_key p)) size)].
Proof.
  intros W%reach_wf E.
  destruct (inbound_complete_ok _ _ _ _ _ _ _ _ _ W E)
    as (p & t & e & Hp & Ht & He & Hr & Hlen & Hend & -> & _ & -> & _).
  exists p. do 2 eexists. split; [done|]. repeat f_equal. lia.
Qed.

(** A plugin that releases a received selection and then dies leaves the
    transfer behind: its key went with the release. *)
Example released_transfer_outlives_its_plugin :
  let st := after [sample_inbound 5; OpReleased (str "fuse") {| rl_transfer_id := str "paste-1" |};
                   OpAdapterLost (str "fuse")] in
  bool_decide (is_Some (remote st !! Build_TransferOwner 5 9)) = true.
Proof. reflexivity. Qed.
