(* ===== verification/FileOffers.v ===== *)
(** * Files: an offer is a manifest

    [directory_laws] is what an operating system says of the names in a
    directory.  An offer collected from a selection then numbers its entries
    from one, gives each its own relative path, takes each file from the place
    of that path below the selected root, and is a manifest the tables of
    transfers accept. *)

From stdpp Require Import sorting.
From S2P Require Import Prelude Wire ProtoTypes ProtoValid ProtoSafety UnixPath FileOs.
From S2P Require Import FileTransfer FileTransferTheorems TransferManager TransferManagerTheorems.

(** ** Paths and their parts *)

(** A part of a path that names something. *)
Definition part_ok (part : rstring) : bool :=
  negb ((len part =? 0) || str_eqb part (str ".") || str_eqb part (str "..")).

(** A relative path of such parts only. *)
Definition clean (path : rstring) : Prop := Forall (fun part => part_ok part = true) (split SLASH path).

Lemma piece_component_Normal piece name :
  piece_component piece = Some (Component.Normal name) -> name = piece /\ part_ok piece = true.
Proof.
  unfold piece_component, part_ok. destruct (len piece =? 0), (str_eqb piece (str ".")),
    (str_eqb piece (str "..")); naive_solver.
Qed.

Lemma clean_plain path : clean path -> Forall (plain SLASH) (split SLASH path).
Proof.
  intros H. pose proof (split_no_sep SLASH path) as Hs. unfold clean in H.
  rewrite Forall_forall in *. intros part Hp. specialize (H part Hp). specialize (Hs part Hp).
  split; [|done]. intros ->. done.
Qed.

Lemma clean_ends path :
  clean path -> len path <> 0 /\ starts_with SLASH path = false /\ ends_with SLASH path = false.
Proof.
  intros H%clean_plain. destruct (join_ends SLASH _ (split_nonempty SLASH path) H) as (Hj & Hs & He).
  rewrite join_split in *. split_and!; [|done..]. by rewrite len_zero_iff.
Qed.

Lemma split_last path part :
  contains SLASH part = false -> split SLASH (path ++ SLASH :: part) = split SLASH path ++ [part].
Proof.
  intros H. rewrite <- (join_split SLASH path) at 1.
  pose proof (split_no_sep SLASH path) as Hs. pose proof (split_nonempty SLASH path) as Hne.
  induction Hs as [|p parts Hp Hparts IH]; [done|].
  destruct parts as [|q parts].
  - cbn [join]. by rewrite split_app, split_part.
  - rewrite join_cons, <- app_assoc by done. cbn [app].
    rewrite split_app by done. by rewrite IH.
Qed.

(** What [read_dir] gives: a name that is not special and has no separator. *)
Definition child_name (name : rstring) : Prop :=
  contains SLASH name = false /\ piece_component name = Some (Component.Normal name).

Lemma split_push path name :
  clean path -> child_name name ->
  split SLASH (push path name) = split SLASH path ++ [name] /\ clean (push path name).
Proof.
  intros Hc [Hs Hn]. destruct (clean_ends _ Hc) as (Hl & _ & He).
  assert (split SLASH (push path name) = split SLASH path ++ [name]) as E.
  { unfold push. assert (starts_with SLASH name = false) as ->.
    { destruct name as [|x name]; [done|]. unfold contains in Hs. cbn [existsb] in Hs. boolsplit.
      unfold starts_with. by rewrite Z.eqb_sym. }
    destruct (Z.eqb_spec (len path) 0); [done|]. rewrite He. by apply split_last. }
  split; [done|]. unfold clean. rewrite E. apply Forall_app. split; [done|].
  apply Forall_singleton. by apply piece_component_Normal in Hn as [_ ?].
Qed.

(** The components that name something are parts of the path. *)
Lemma components_Normal path name :
  Component.Normal name ∈ components path -> name ∈ split SLASH path /\ part_ok name = true.
Proof.
  assert (Homap : forall l : list rstring, Component.Normal name ∈ omap piece_component l -> name ∈ l /\ part_ok name = true).
  { intros l (piece & Hp & Hn)%list_elem_of_omap.
    apply piece_component_Normal in Hn as [-> ?]. done. }
  unfold components. destruct (starts_with SLASH path).
  - intros [?|?]%elem_of_cons; [done|]. by apply Homap.
  - destruct (split SLASH path) as [|first rest]; [set_solver|].
    intros [H|H]%elem_of_app.
    + destruct (str_eqb first (str ".")).
      * by apply list_elem_of_singleton in H.
      * apply Homap in H. set_solver.
    + apply Homap in H. set_solver.
Qed.

(** The name of a selected root. *)
Lemma file_name_clean path name :
  file_name path = Some name -> split SLASH name = [name] /\ clean name.
Proof.
  unfold file_name. destruct (last (components path)) as [[| | |n]|] eqn:E; try done.
  intros [= ->]. apply last_Some_elem_of, components_Normal in E as [Hin Hok].
  pose proof (split_no_sep SLASH path) as Hs. rewrite Forall_forall in Hs.
  assert (split SLASH name = [name]) as E by (apply split_part; by apply Hs).
  split; [done|]. unfold clean. rewrite E. by apply Forall_singleton.
Qed.

(** ** The nesting is bounded by the number of entries *)

Section fuel.
Context {FS : Type} `{!Os FS}.
Variable fs : FS.

Lemma collect_children_keeps (collect : rstring -> rstring -> Collected -> result TransferError Collected)
    source relative children c c' :
  (forall source relative c c', collect source relative c = Ok c' ->
     len (c_entries c) <= len (c_entries c')) ->
  collect_children collect source relative children c = Ok c' ->
  len (c_entries c) <= len (c_entries c').
Proof.
  intros Hc. revert c. induction children as [|x children IH]; intros c H; cbn in H; inv_ok H; [lia|].
  match goal with E : collect _ _ _ = Ok _ |- _ => apply Hc in E end. apply IH in H. lia.
Qed.

Lemma collect_entry_keeps fuel source relative c c' :
  collect_entry fuel fs source relative c = Ok c' -> len (c_entries c) < len (c_entries c').
Proof.
  revert source relative c c'. induction fuel as [|fuel IH]; intros source relative c c' H;
    cbn [collect_entry] in H; inv_ok H; cbn [c_entries]; autorewrite with len; try lia.
  apply collect_children_keeps in H; [|by intros; apply Z.lt_le_incl; eapply IH]. cbn [c_entries] in H. autorewrite with len in H. lia.
Qed.

Lemma collect_children_fuel fuel fuel' source relative children c :
  (forall source relative c, MAX_CLIPBOARD_MANIFEST_ENTRIES <= Z.of_nat fuel + len (c_entries c) ->
     MAX_CLIPBOARD_MANIFEST_ENTRIES <= Z.of_nat fuel' + len (c_entries c) ->
     collect_entry fuel fs source relative c = collect_entry fuel' fs source relative c) ->
  MAX_CLIPBOARD_MANIFEST_ENTRIES <= Z.of_nat fuel + len (c_entries c) ->
  MAX_CLIPBOARD_MANIFEST_ENTRIES <= Z.of_nat fuel' + len (c_entries c) ->
  collect_children (collect_entry fuel fs) source relative children c
  = collect_children (collect_entry fuel' fs) source relative children c.
Proof.
  intros Heq. revert c. induction children as [|x children IH]; intros c Hf Hf'; cbn; [done|].
  rewrite <- Heq by done. destruct (collect_entry fuel fs _ _ c) as [c'|] eqn:E; [|done].
  apply collect_entry_keeps in E. apply IH; lia.
Qed.

(** Two depths that both leave room for the entries that may still come give
    the same result: [COLLECT_FUEL] is as good as unbounded recursion. *)
Lemma collect_entry_fuel fuel fuel' source relative c :
  MAX_CLIPBOARD_MANIFEST_ENTRIES <= Z.of_nat fuel + len (c_entries c) ->
  MAX_CLIPBOARD_MANIFEST_ENTRIES <= Z.of_nat fuel' + len (c_entries c) ->
  collect_entry fuel fs source relative c = collect_entry fuel' fs source relative c.
Proof.
  revert fuel' source relative c. induction fuel as [|fuel IH]; intros fuel' source relative c Hf Hf'.
  { destruct fuel'; cbn [collect_entry]; (destruct (Z.leb_spec MAX_CLIPBOARD_MANIFEST_ENTRIES
      (len (c_entries c))); [done|lia]). }
  destruct fuel' as [|fuel']; cbn [collect_entry];
    (destruct (Z.leb_spec MAX_CLIPBOARD_MANIFEST_ENTRIES (len (c_entries c))); [done|]); [lia|].
  repeat match goal with
  | |- match ?r with Ok _ => _ | Err _ => _ end = _ => destruct r; [|done]
  | |- (if ?b then _ else _) = _ => destruct b; [done|]
  end.
  match goal with |- (if ?b then _ else _) = _ => destruct b; [|done] end.
  repeat match goal with
  | |- match ?r with Ok _ => _ | Err _ => _ end = _ => destruct r; [|done]
  end.
  apply collect_children_fuel; [by intros; apply IH|..]; cbn [c_entries]; autorewrite with len; lia.
Qed.
End fuel.

(** ** Collecting *)

Record directory_laws {FS : Type} `{!Os FS} (fs : FS) : Prop := {
  dl_len path m : symlink_metadata fs path = Ok m -> 0 <= md_len m;
  dl_names path children : read_dir fs path = Ok children ->
    forall names, collect_results children = Ok names -> NoDup names /\ Forall child_name names;
}.

Section collect.
Context {FS : Type} `{!Os FS}.
Variable fs : FS.
Hypothesis laws : directory_laws fs.

(** An entry for something below [source], named [relative]: its path and the
    place on the disk go down by the same names, and a file has its size and its
    identity from there. *)
Definition offered (sources : gmap Z (rstring * SourceIdentity)) (source relative : rstring)
    (e : ClipboardManifestEntry) : Prop :=
  exists below,
    split SLASH (entry_path e) = split SLASH relative ++ below
    /\ validate_relative_path (entry_path e) = Ok tt /\ clean (entry_path e)
    /\ 0 <= entry_size e
    /\ match entry_kind e with
       | ClipboardEntryKind.File => exists m,
           symlink_metadata fs (foldl push source below) = Ok m /\ is_file m = true
           /\ entry_size e = md_len m
           /\ sources !! entry_file_id e = Some (foldl push source below, from_metadata m)
       | ClipboardEntryKind.Directory => entry_size e = 0
       end.

(** What one call, or a run of calls, adds. *)
Record grows (offers : gmap Z (rstring * SourceIdentity) -> ClipboardManifestEntry -> Prop)
    (c c' : Collected) (added : list ClipboardManifestEntry) : Prop := {
  g_entries : c_entries c' = c_entries c ++ added;
  g_next : c_next_id c' = c_next_id c + len added;
  g_ids : entry_file_id <$> added = seqZ (c_next_id c) (len added);
  g_total : c_total c' = c_total c + sizes added;
  g_limit : c_total c <= MAX_CLIPBOARD_SIZE -> c_total c' <= MAX_CLIPBOARD_SIZE;
  g_count : len (c_entries c) <= MAX_CLIPBOARD_MANIFEST_ENTRIES ->
            len (c_entries c') <= MAX_CLIPBOARD_MANIFEST_ENTRIES;
  g_paths : NoDup (entry_path <$> added);
  g_old id : id < c_next_id c -> c_sources c' !! id = c_sources c !! id;
  g_new : Forall (offers (c_sources c')) added;
}.

(** [offers] looks only at the source of the entry itself. *)
Definition local_to_entry (offers : gmap Z (rstring * SourceIdentity) -> ClipboardManifestEntry -> Prop) :=
  forall s s' e, s !! entry_file_id e = s' !! entry_file_id e -> offers s e -> offers s' e.

Lemma offered_local source relative : local_to_entry (fun s => offered s source relative).
Proof.
  intros s s' e E (below & ? & ? & ? & ? & Hk). exists below. split_and!; [done..|].
  rewrite <- E. done.
Qed.

Lemma grows_refl offers c : grows offers c c [].
Proof.
  split; try done; rewrite ?app_nil_r; try done; [unfold len | unfold sizes | apply NoDup_nil_2];
    cbn; lia.
Qed.

Lemma sizes_app l k : sizes (l ++ k) = sizes l + sizes k.
Proof. unfold sizes. rewrite fmap_app. induction (entry_size <$> l); cbn in *; lia. Qed.

Lemma grows_trans P Q R c1 c2 c3 l k :
  local_to_entry P -> grows P c1 c2 l -> grows Q c2 c3 k ->
  (forall s e, P s e -> R s e) -> (forall s e, Q s e -> R s e) ->
  (forall e f s, P s e -> Q s f -> entry_path e <> entry_path f) ->
  grows R c1 c3 (l ++ k).
Proof.
  intros HP G G' HR HQ Hpaths.
  assert (Forall (P (c_sources c3)) l) as Hl.
  { pose proof (g_new _ _ _ _ G) as Hn. rewrite Forall_forall in *. intros e He.
    apply (HP (c_sources c2)); [|by apply Hn]. symmetry. apply (g_old _ _ _ _ G').
    assert (entry_file_id e ∈ entry_file_id <$> l) as Hid by (apply list_elem_of_fmap; eauto).
    rewrite (g_ids _ _ _ _ G), elem_of_seqZ in Hid. rewrite (g_next _ _ _ _ G). lia. }
  pose proof (len_nonneg l). pose proof (len_nonneg k).
  split.
  - by rewrite (g_entries _ _ _ _ G'), (g_entries _ _ _ _ G), app_assoc.
  - rewrite (g_next _ _ _ _ G'), (g_next _ _ _ _ G), len_app. lia.
  - rewrite fmap_app, (g_ids _ _ _ _ G), (g_ids _ _ _ _ G'), (g_next _ _ _ _ G), len_app.
    by rewrite seqZ_app.
  - rewrite (g_total _ _ _ _ G'), (g_total _ _ _ _ G), sizes_app. lia.
  - intros. by apply (g_limit _ _ _ _ G'), (g_limit _ _ _ _ G).
  - intros. by apply (g_count _ _ _ _ G'), (g_count _ _ _ _ G).
  - rewrite fmap_app. apply NoDup_app. split_and!; [apply G| |apply G'].
    intros p (e & -> & He)%list_elem_of_fmap (f & E & Hf)%list_elem_of_fmap.
    rewrite Forall_forall in Hl. pose proof (g_new _ _ _ _ G') as Hk. rewrite Forall_forall in Hk.
    by apply (Hpaths e f (c_sources c3) (Hl e He) (Hk f Hf)).
  - intros id Hid. rewrite (g_old _ _ _ _ G'), (g_old _ _ _ _ G); [done..|].
    rewrite (g_next _ _ _ _ G). lia.
  - apply Forall_app. split; eapply Forall_impl; [exact Hl|eauto|apply G'|eauto].
Qed.

(** One more entry. *)
Lemma grows_one offers c e sources total :
  entry_file_id e = c_next_id c -> total = c_total c + entry_size e ->
  (c_total c <= MAX_CLIPBOARD_SIZE -> total <= MAX_CLIPBOARD_SIZE) ->
  len (c_entries c) < MAX_CLIPBOARD_MANIFEST_ENTRIES ->
  (forall id, id < c_next_id c -> sources !! id = c_sources c !! id) -> offers sources e ->
  grows offers c {| c_next_id := c_next_id c + 1; c_total := total; c_entries := c_entries c ++ [e];
                    c_sources := sources |} [e].
Proof.
  intros Hid Ht Hlim Hcount Hold He. split; cbn [c_entries c_next_id c_total c_sources]; try done.
  - cbn. by rewrite Hid.
  - unfold sizes. cbn. lia.
  - autorewrite with len. lia.
  - apply NoDup_singleton.
  - by apply Forall_singleton.
Qed.

Lemma grows_weaken P Q c c' added :
  grows P c c' added -> (forall s e, P s e -> Q s e) -> grows Q c c' added.
Proof. intros [] HQ. split; try done. eapply Forall_impl; [done|]. intros e. apply HQ. Qed.

(** Below one of the children. *)
Definition offered_child (children : list rstring) (source relative : rstring)
    (s : gmap Z (rstring * SourceIdentity)) (e : ClipboardManifestEntry) : Prop :=
  exists child, child ∈ children /\ offered s (push source child) (push relative child) e.

(** Siblings with different names have no path in common. *)
Lemma offered_apart s s' source source' relative x y e f :
  clean relative -> child_name x -> child_name y -> x <> y ->
  offered s source (push relative x) e -> offered s' source' (push relative y) f ->
  entry_path e <> entry_path f.
Proof.
  intros Hr Hx Hy Hxy (b & He & _) (b' & Hf & _) E.
  rewrite E, Hf in He. destruct (split_push relative x Hr Hx) as [-> _] in He.
  destruct (split_push relative y Hr Hy) as [-> _] in He.
  rewrite <- !app_assoc in He. apply app_inv_head in He. cbn in He. congruence.
Qed.

Lemma collect_children_grows (collect : rstring -> rstring -> Collected -> result TransferError Collected)
    source relative children c c' :
  (forall source relative c c', collect source relative c = Ok c' -> clean relative ->
     exists added, grows (fun s => offered s source relative) c c' added) ->
  clean relative -> NoDup children -> Forall child_name children ->
  collect_children collect source relative children c = Ok c' ->
  exists added, grows (offered_child children source relative) c c' added.
Proof.
  intros Hcollect Hr. revert c. induction children as [|x children IH]; intros c Hn Hc H; cbn in H.
  { injection H as <-. exists []. apply grows_refl. }
  apply NoDup_cons in Hn as [Hx Hn]. apply Forall_cons in Hc as [Hcx Hc]. inv_ok H.
  match goal with E : collect _ _ _ = Ok _ |- _ =>
    apply Hcollect in E as (l & Gl); [|by apply split_push] end.
  apply IH in H as (k & Gk); [|done..]. exists (l ++ k).
  eapply grows_trans; [apply offered_local|exact Gl|exact Gk| | |].
  - intros s e He. exists x. set_solver.
  - intros s e (y & ? & ?). exists y. set_solver.
  - intros e f s He (y & Hy & Hf). rewrite Forall_forall in Hc.
    eapply (offered_apart s s _ _ relative x y e f Hr Hcx (Hc y Hy)); [by intros ->|exact He|exact Hf].
Qed.

Lemma merge_sort_names names :
  NoDup names /\ Forall child_name names ->
  NoDup (merge_sort name_le names) /\ Forall child_name (merge_sort name_le names).
Proof. by rewrite (merge_sort_Permutation name_le names). Qed.

(** The entry of a directory, before its children. *)
Definition with_directory (relative : rstring) (c : Collected) : Collected :=
  {| c_next_id := c_next_id c + 1; c_total := c_total c;
     c_entries := c_entries c ++
       [{| entry_file_id := c_next_id c; entry_path := relative;
           entry_kind := ClipboardEntryKind.Directory; entry_size := 0 |}];
     c_sources := c_sources c |}.

Lemma collect_entry_inv fuel source relative c c' :
  collect_entry fuel fs source relative c = Ok c' ->
  exists m, symlink_metadata fs source = Ok m
  /\ len (c_entries c) < MAX_CLIPBOARD_MANIFEST_ENTRIES /\ validate_relative_path relative = Ok tt
  /\ ((is_file m = true /\ c_total c + md_len m <= MAX_CLIPBOARD_SIZE
       /\ c' = {| c_next_id := c_next_id c + 1; c_total := c_total c + md_len m;
                  c_entries := c_entries c ++
                    [{| entry_file_id := c_next_id c; entry_path := relative;
                        entry_kind := ClipboardEntryKind.File; entry_size := md_len m |}];
                  c_sources := <[c_next_id c := (source, from_metadata m)]> (c_sources c) |})
      \/ (exists fuel' names, fuel = S fuel' /\ NoDup names /\ Forall child_name names
          /\ collect_children (collect_entry fuel' fs) source relative names
               (with_directory relative c) = Ok c')).
Proof.
  assert (Hio : forall A (r : result IoError A) a, io r = Ok a -> r = Ok a).
  { intros A [b|e] a; cbn; congruence. }
  intros H. destruct fuel as [|fuel]; cbn [collect_entry] in H; inv_ok H;
    repeat match goal with
    | E : io _ = Ok _ |- _ => apply Hio in E
    | E : ok_or _ _ = Ok _ |- _ => apply ok_or_Ok in E
    | E : checked_add _ _ = Some _ |- _ => apply checked_add_Some in E as [-> ?]
    | E : to_str _ = Some _ |- _ => unfold to_str in E; destruct (utf8_valid _); [injection E as <-|done]
    | E : (_ <=? _) = false |- _ => apply Z.leb_gt in E
    | E : (_ <? _) = false |- _ => apply Z.ltb_ge in E
    | u : unit |- _ => destruct u
    end.
  1,2: eexists; split_and!; [done..|left; by split_and!].
  eexists; split_and!; [done..|]. right.
  match goal with Hd : read_dir _ _ = Ok _, Hn : collect_results _ = Ok _ |- _ =>
    destruct (merge_sort_names _ (dl_names _ laws _ _ Hd _ Hn)) end.
  eexists _, _. split_and!; [done..|exact H].
Qed.

Lemma collect_entry_grows fuel source relative c c' :
  collect_entry fuel fs source relative c = Ok c' -> clean relative ->
  exists added, grows (fun s => offered s source relative) c c' added.
Proof.
  revert source relative c c'.
  induction fuel as [fuel IH] using lt_wf_ind. intros source relative c c' H Hr.
  apply collect_entry_inv in H as (m & Hm & Hcount & Hv &
    [(Hfile & Htotal & ->)|(fuel' & names & -> & Hn & Hnames & H)]).
  - eexists. apply grows_one; try done.
    + intros id Hid. apply lookup_insert_ne. lia.
    + exists []. rewrite app_nil_r. split_and!; [done..|by eapply dl_len|].
      exists m. by rewrite lookup_insert_eq.
  - eapply collect_children_grows in H as (added & G); [|by intros; eapply (IH fuel'); [lia|eauto..]|done..].
    eexists (_ :: added). eapply (grows_trans (fun s e => offered s source relative e /\
      entry_path e = relative) (offered_child names source relative) _ _ _ _ [_]); [| |exact G|..].
    + intros s s' e E [Ho ?]. split; [|done]. by eapply offered_local.
    + apply grows_one; try done; [cbn; lia|].
      split; [|done]. exists []. by rewrite app_nil_r.
    + by intros s e [? _].
    + intros s e (x & Hx & below & Hs & Hrest). rewrite Forall_forall in Hnames.
      destruct (split_push relative x Hr (Hnames x Hx)) as [E _].
      exists (x :: below). rewrite E, <- app_assoc in Hs. done.
    + intros e f s [_ ->] (x & Hx & below & Hs & _). rewrite Forall_forall in Hnames.
      destruct (split_push relative x Hr (Hnames x Hx)) as [E _].
      intros E'. rewrite <- E', E in Hs. apply (f_equal length) in Hs.
      rewrite !length_app in Hs. cbn in Hs. lia.
Qed.

(** A selection. *)
Definition selected (roots : list rstring) (names : gset rstring)
    (s : gmap Z (rstring * SourceIdentity)) (e : ClipboardManifestEntry) : Prop :=
  exists root base, root ∈ roots /\ file_name root = Some base /\ (base ∉ names) /\ offered s root base e.

Lemma collect_roots_grows roots names c c' :
  collect_roots fs roots names c = Ok c' -> exists added, grows (selected roots names) c c' added.
Proof.
  revert names c. induction roots as [|root roots IH]; intros names c H; cbn in H.
  { injection H as <-. exists []. apply grows_refl. }
  inv_ok H. match goal with E : ok_or _ _ = Ok ?b |- _ => apply ok_or_Ok in E; rename E into Hbase end.
  destruct (file_name root) as [name|] eqn:Hname; [|done]. cbn in Hbase.
  unfold to_str in Hbase. destruct (utf8_valid name); [|done]. injection Hbase as <-.
  destruct (file_name_clean _ _ Hname) as [Hsplit Hclean].
  match goal with E : collect_entry _ _ _ _ _ = Ok _ |- _ =>
    apply collect_entry_grows in E as (l & Gl); [|done] end.
  match goal with E : bool_decide _ = false |- _ => apply bool_decide_eq_false in E; rename E into Hfresh end.
  apply IH in H as (k & Gk). exists (l ++ k).
  eapply grows_trans; [apply offered_local|exact Gl|exact Gk|..].
  - intros s e He. exists root, name. set_solver.
  - intros s e (r & b & ? & ? & ? & ?). exists r, b. set_solver.
  - intros e f s (below & He & _) (r & b & _ & Hr & Hb & below' & Hf & _) E.
    destruct (file_name_clean _ _ Hr) as [Hsb _]. rewrite Hsplit in He. rewrite Hsb, <- E, He in Hf.
    cbn in Hf. set_solver.
Qed.

Lemma from_paths_nonempty transfer_id roots offer :
  from_paths fs transfer_id roots = Ok offer -> roots <> [] -> o_entries offer <> [].
Proof.
  unfold from_paths. destruct roots as [|root roots]; [done|]. intros H _. cbn in H. inv_ok H.
  cbn [o_entries].
  match goal with E : collect_entry _ _ _ _ _ = Ok _ |- _ => apply collect_entry_keeps in E; cbn in E end.
  match goal with E : collect_roots _ _ _ _ = Ok _ |- _ => apply collect_roots_grows in E as (l & G) end.
  intros E. pose proof (f_equal len (g_entries _ _ _ _ G)) as Hl. rewrite E, len_app in Hl.
  pose proof (len_nonneg l). cbn in Hl. lia.
Qed.

Lemma from_paths_grows transfer_id roots offer :
  from_paths fs transfer_id roots = Ok offer ->
  o_transfer_id offer = transfer_id
  /\ exists c', grows (selected roots ∅) {| c_next_id := 1; c_total := 0; c_entries := []; c_sources := ∅ |}
                 c' (o_entries offer)
      /\ o_sources offer = c_sources c'.
Proof.
  unfold from_paths. intros H. inv_ok H.
  match goal with E : collect_roots _ _ _ _ = Ok _ |- _ => apply collect_roots_grows in E as (l & G) end.
  split; [done|]. eexists. split; [|done]. cbn [o_entries].
  pose proof (g_entries _ _ _ _ G) as E. cbn in E. by rewrite E.
Qed.
End collect.

(** ** Offers and the wire *)

Section manifests.
Context {FS : Type} `{!Os FS} `{!Sha256} {P : Type}.

Lemma validate_entries_intro entries ids paths total :
  Forall (fun e => entry_file_id e <> 0 /\ entry_file_id e ∉ ids) entries ->
  NoDup (entry_file_id <$> entries) ->
  Forall (fun e => entry_path e ∉ paths) entries -> NoDup (entry_path <$> entries) ->
  Forall (fun e => len (entry_path e) <= MAX_CLIPBOARD_PATH_SIZE /\ clean (entry_path e)) entries ->
  Forall (fun e => 0 <= entry_size e /\ (entry_kind e = ClipboardEntryKind.Directory -> entry_size e = 0))
    entries ->
  0 <= total -> total + sizes entries <= MAX_CLIPBOARD_SIZE ->
  validate_entries (P := P) entries ids paths total = Ok tt.
Proof.
  revert ids paths total. induction entries as [|e entries IH]; [done|].
  intros ids paths total [[H0 Hid] Hids]%Forall_cons Hn [Hp Hps]%Forall_cons Hnp [[Hl Hc] Hcs]%Forall_cons
    [[Hs Hd] Hss]%Forall_cons Ht Hm.
  cbn in Hn, Hnp. apply NoDup_cons in Hn as [Hn Hns]. apply NoDup_cons in Hnp as [Hnp Hnps].
  assert (0 <= sizes entries) as Hpos.
  { clear -Hss. unfold sizes. induction Hss as [|x l [? _] _ IH]; cbn in *; lia. }
  change (sizes (e :: entries)) with (entry_size e + sizes entries) in Hm.
  destruct (clean_ends _ Hc) as (Hne & Hstart & _).
  cbn [validate_entries].
  rewrite (proj2 (Z.eqb_neq _ _) H0), (bool_decide_eq_false_2 _ Hid). cbn [orb].
  rewrite (proj2 (Z.eqb_neq _ _) Hne), (proj2 (Z.ltb_ge _ _) Hl), (bool_decide_eq_false_2 _ Hp). cbn [orb].
  rewrite Hstart. cbn [orb].
  rewrite (existsb_negb _ part_ok) by done.
  rewrite (proj2 (forallb_Forall _ _) Hc). cbn [negb].
  assert (bool_decide (entry_kind e = ClipboardEntryKind.Directory) && negb (entry_size e =? 0) = false) as ->.
  { case_bool_decide as E; [|done]. by rewrite (Hd E). }
  unfold checked_add. destruct (Z.leb_spec (total + entry_size e) u64_max); [|unfold u64_max in *; limits; lia]. cbn [ok_or].
  destruct (Z.ltb_spec MAX_CLIPBOARD_SIZE (total + entry_size e)); [lia|].
  apply IH; try done; try lia.
  - rewrite Forall_forall in *. intros x Hx. destruct (Hids x Hx). split; [done|].
    intros [E%elem_of_singleton|?]%elem_of_union; [|done]. apply Hn. rewrite <- E.
    apply list_elem_of_fmap. eauto.
  - rewrite Forall_forall in *. intros x Hx. specialize (Hps x Hx).
    intros [E%elem_of_singleton|?]%elem_of_union; [|done]. apply Hnp. rewrite <- E.
    apply list_elem_of_fmap. eauto.
Qed.

Lemma validate_relative_path_bytes path u :
  validate_relative_path path = Ok u ->
  len path <= MAX_CLIPBOARD_PATH_SIZE /\ contains BACKSLASH path = false /\ contains 0 path = false.
Proof.
  unfold validate_relative_path, to_str. destruct (utf8_valid path); [|done]. cbn [ok_or].
  intros Hv. destruct (_ || _ || _ || _) eqn:E; [done|]. boolsplit. split_and!; [lia|done..].
Qed.

(** The wire codec refuses only colons in such a path. *)
Lemma wire_path path :
  validate_relative_path path = Ok tt -> clean path -> contains COLON path = false ->
  validate_path path = Ok tt.
Proof.
  intros (Hl & Hb & Hz)%validate_relative_path_bytes Hc Hcolon.
  apply validate_path_parts. split; [done|]. apply safe_parts_checks. split.
  - apply not_true_iff_false. intros (x & Hx & Hbad)%existsb_exists.
    unfold contains in Hb, Hz, Hcolon. apply not_true_iff_false in Hb, Hz, Hcolon.
    rewrite existsb_exists in Hb, Hz, Hcolon.
    apply orb_true_iff in Hbad as [[Hbad|Hbad]%orb_true_iff|Hbad];
      [apply Hb | apply Hcolon | apply Hz]; exists x; (split; [done|]); by rewrite Z.eqb_sym.
  - rewrite (existsb_negb _ part_ok) by done.
    apply negb_false_iff. by apply forallb_Forall.
Qed.

(** C34: the offer built from a list of file URIs is a manifest: its entries are
    numbered 1, 2, ... in order, have distinct clean relative paths of at most
    1024 bytes, directories of size zero and at most 64 MiB in all, so the table
    of transfers accepts it; every entry is found below the selected root of its
    first name by the rest of its path, with the size and the identity the file
    has there; and the wire codec accepts every path that has no colon. *)
Theorem offers_are_manifests (fs : FS) transfer_id text offer :
  directory_laws fs -> from_uri_list fs transfer_id text = Ok offer ->
  validate_wire_manifest (P := P) (o_entries offer) = Ok tt
  /\ entry_file_id <$> o_entries offer = seqZ 1 (len (o_entries offer))
  /\ (exists roots, uri_roots (lines text) = Ok roots
      /\ Forall (selected fs roots ∅ (o_sources offer)) (o_entries offer))
  /\ Forall (fun e => contains COLON (entry_path e) = false -> validate_path (entry_path e) = Ok tt)
       (o_entries offer).
Proof.
  intros laws. unfold from_uri_list. intros Hoffer. inv_ok Hoffer.
  match goal with E : uri_roots _ = Ok ?r |- _ => rename E into Hroots; rename r into roots end.
  assert (roots <> []) as Hne by (intros ->; done).
  pose proof (from_paths_nonempty fs laws _ _ _ Hoffer Hne) as Hentries.
  destruct (from_paths_grows fs laws _ _ _ Hoffer) as (_ & c' & G & ->).
  pose proof (g_new _ _ _ _ G) as Hnew. rewrite Forall_forall in Hnew.
  assert (forall e, e ∈ o_entries offer -> validate_relative_path (entry_path e) = Ok tt
            /\ clean (entry_path e) /\ 0 <= entry_size e
            /\ (entry_kind e = ClipboardEntryKind.Directory -> entry_size e = 0)) as Hok.
  { intros e He. destruct (Hnew e He) as (root & base & _ & _ & _ & below & _ & Hv & Hc & Hs & Hk).
    split_and!; [done..|]. intros E. by rewrite E in Hk. }
  pose proof (g_ids _ _ _ _ G) as Hids. cbn in Hids.
  pose proof (g_total _ _ _ _ G) as Htotal. cbn in Htotal.
  pose proof (g_limit _ _ _ _ G ltac:(done)) as Hlimit.
  pose proof (g_count _ _ _ _ G ltac:(done)) as Hcount.
  rewrite (g_entries _ _ _ _ G) in Hcount. cbn in Hcount.
  split_and!.
  - unfold validate_wire_manifest.
    rewrite (proj2 (Z.eqb_neq _ _)) by (by rewrite len_zero_iff).
    rewrite (proj2 (Z.ltb_ge _ _)) by done. cbn [orb].
    apply validate_entries_intro.
    + apply Forall_forall. intros e He. split; [|apply not_elem_of_empty].
      assert (entry_file_id e ∈ entry_file_id <$> o_entries offer) as Hid by (apply list_elem_of_fmap; eauto).
      rewrite Hids, elem_of_seqZ in Hid. lia.
    + rewrite Hids. apply NoDup_seqZ.
    + apply Forall_forall. intros e _. apply not_elem_of_empty.
    + apply G.
    + apply Forall_forall. intros e He. destruct (Hok e He) as (Hv & Hc & _).
      by apply validate_relative_path_bytes in Hv as [? _].
    + apply Forall_forall. intros e He. by destruct (Hok e He) as (_ & _ & ?).
    + done.
    + lia.
  - done.
  - exists roots. split; [done|]. apply G.
  - apply Forall_forall. intros e He Hcolon. destruct (Hok e He) as (Hv & Hc & _).
    by apply wire_path.
Qed.
End manifests.

(** ** Files in memory *)

Lemma NoDup_omap_inj {A B} (f : A -> option B) (l : list A) :
  NoDup l -> (forall x y z, f x = Some z -> f y = Some z -> x = y) -> NoDup (omap f l).
Proof.
  intros Hn Hf. induction Hn as [|x l Hx Hn IH]; cbn; [constructor|].
  destruct (f x) as [z|] eqn:E; [|done]. constructor; [|done].
  intros (y & Hy & Ey)%list_elem_of_omap. by rewrite (Hf x y z E Ey) in Hx.
Qed.

Lemma strip_prefix_Some prefix s rest : strip_prefix prefix s = Some rest -> s = prefix ++ rest.
Proof.
  unfold strip_prefix. case_bool_decide as E; [|done]. intros [= <-].
  rewrite <- (take_drop (length prefix) s) at 1. by rewrite E.
Qed.

Lemma collect_results_Ok {E A} (l : list A) (l' : list A) :
  collect_results (E := E) (Ok <$> l) = Ok l' -> l' = l.
Proof.
  revert l'. induction l as [|x l IH]; intros l' H; cbn in H; [by injection H|].
  inv_ok H. f_equal. by apply IH.
Qed.

Lemma ram_directory_laws (fs : ram) : directory_laws fs.
Proof.
  split.
  - cbn. unfold ram_metadata. intros path m H. destruct (fs !! path) as [[|content]|]; simplify_eq; cbn.
    + done.
    + apply len_nonneg.
  - cbn. intros path children H names Hn. case_bool_decide; [|done]. injection H as <-.
    apply collect_results_Ok in Hn as ->. split.
    + apply NoDup_omap_inj; [apply NoDup_fst_map_to_list|].
      intros x y z Hx Hy.
      destruct (strip_prefix (push path []) x) as [nx|] eqn:Ex; [|done].
      destruct (strip_prefix (push path []) y) as [ny|] eqn:Ey; [|done].
      apply strip_prefix_Some in Ex as ->. apply strip_prefix_Some in Ey as ->.
      do 2 case_match; simplify_eq. done.
    + apply Forall_forall. intros name (p & _ & Hp)%list_elem_of_omap.
      destruct (strip_prefix (push path []) p) as [n|]; [|done].
      destruct (_ || _) eqn:E; [done|]. injection Hp as <-. apply orb_false_iff in E as [? E].
      split; [done|]. by apply bool_decide_eq_false, dec_stable in E.
Qed.

(** A directory of two files, one of them in a directory of its own. *)
Definition sample_tree : ram :=
  {[str "/d" := DirNode; str "/d/b" := FileNode [1; 2]; str "/d/a" := DirNode;
    str "/d/a/c" := FileNode [3]]}.

Definition sample_offer : FileOffer :=
  match from_uri_list sample_tree 5 (str "file:///d") with
  | Ok offer => offer
  | Err _ => {| o_transfer_id := 0; o_entries := []; o_sources := ∅ |}
  end.

Lemma offers_are_manifests_witness :
  entry_path <$> o_entries sample_offer = [str "d"; str "d/a"; str "d/a/c"; str "d/b"]
  /\ validate_wire_manifest (P := Z) (o_entries sample_offer) = Ok tt.
Proof.
  split; [vm_compute; reflexivity|].
  destruct (offers_are_manifests (P := Z) sample_tree 5 (str "file:///d") sample_offer
              (ram_directory_laws _)) as [H _].
  - vm_compute. reflexivity.
  - exact H.
Defined.
