(* ===== verification/TransferService.v ===== *)
(** * Clipboard file transfers: the daemon around the state machine

    [crates/syntra-core/src/service/transfers.rs], the file arms of
    [service/peers.rs] and [service/frontend.rs]: what the daemon does with the
    actions of [TransferManager], how it reads a requested range from disk and
    answers it, and which progress reaches the user interface. *)

From stdpp Require Import pretty.
From S2P Require Import Prelude Wire ProtoTypes ProtoValid FileOs FileTransfer PluginApi TransferManager.

(** ** Data *)

Module ClipboardTransferState.
Inductive t := Pending | Transferring | Completed | Cancelled | Failed (error : rstring).
End ClipboardTransferState.

(** [syntra_api::ClipboardTransferStatus]; the name is empty, the direction
    [Receiving] and the rate 0 in all that is built here. *)
Record ClipboardTransferStatus := {
  st_transfer_id : Z;
  st_file_id : Z;
  st_transferred_bytes : Z;
  st_total_bytes : Z;
  st_state : ClipboardTransferState.t;
}.

(** The process of a plugin. *)
Module ProcessAdapterId.
Inductive t :=
| Resident (plugin : rstring)
| Settings (plugin : rstring)
| Transfer (plugin transfer_id : rstring).
End ProcessAdapterId.

(** The commands to the plugin supervisor that transfers use; the launch
    specification of [StartTransfer] comes from the plugin registry. *)
Inductive ManagerCommand :=
| StartTransfer (id : rstring) (manifest : RemoteManifest)
| CommandRangeResponse (id : rstring) (response : RangeResponse)
| CommandReleased (id : rstring) (released : Released)
| CommandUnmounted (id : rstring) (unmounted : Unmounted)
| CommandCancel (adapter : ProcessAdapterId.t) (transfer_id : rstring).

(** The calls of [self.plugins], the registry of plugins. *)
Inductive RegistryCall :=
| SetStarting (plugin : rstring) (pid : Z)
| SetStopped (plugin : rstring)
| AdoptDeclared (plugin : rstring) (metadata : PluginMetadata)
| SetRunning (plugin : rstring) (running : bool)
| AdoptOwnedSettings (plugin : rstring) (settings : list SettingControl)
| SetDiagnostics (plugin : rstring) (lines : list rstring)
| SetExited (plugin : rstring) (status : rstring)
| NoteRefusal (plugin : rstring) (refusal : rstring).

(** What the registry says of the provider of mounted receives: there is none,
    its launch is refused, or it may be launched. *)
Inductive Provider :=
| NoProvider
| Refused (plugin : rstring) (refusal : rstring)
| Approved (plugin : rstring).

(** What the daemon does, in order. *)
Inductive Output (P : Type) :=
| SendProto (to : P) (event : ProtoEvent)
| Command (command : ManagerCommand)
| Notify (status : ClipboardTransferStatus)
| PublishClipboard (uri_list gnome_files : bytes) (publication : PublishFileClipboard)
| SpawnRead (owner : TransferOwner P) (file_id request_id offset length : Z) (offer : FileOffer)
(** the blocking task that builds an offer from URIs *)
| SpawnScan (generation : Z) (adapter_id : rstring) (manifest : CopyManifest) (uri_text : rstring)
(** [record_local_history] of the names and sizes of copied files *)
| RecordFiles (files : list (rstring * Z))
(** [clipboard.read_once] *)
| ReadClipboard
| Registry (call : RegistryCall)
| PublishPlugins.
Arguments SendProto {P}.
Arguments Command {P}.
Arguments Notify {P}.
Arguments PublishClipboard {P}.
Arguments SpawnRead {P}.
Arguments SpawnScan {P}.
Arguments RecordFiles {P}.
Arguments ReadClipboard {P}.
Arguments Registry {P}.
Arguments PublishPlugins {P}.

(** The part of [Service] these handlers use. *)
Record FileService (FS : Type) `{!Os FS} (P : Type) `{Countable P} := {
  transfers : TransferState FS P;
  manifest_generation : Z;
  next_clipboard_transfer : Z;
  announced_transfers : gset Z;
  transfer_progress : gmap Z (Z * Z);
  transfer_providers : gmap rstring rstring;
  (** [adapter_manager.is_some()] *)
  has_manager : bool;
  legacy_clipboard : bool;
}.
Arguments Build_FileService {FS _ P _ _} _ _ _ _ _ _ _ _.
Arguments transfers {FS _ P _ _} _.
Arguments manifest_generation {FS _ P _ _} _.
Arguments next_clipboard_transfer {FS _ P _ _} _.
Arguments announced_transfers {FS _ P _ _} _.
Arguments transfer_progress {FS _ P _ _} _.
Arguments transfer_providers {FS _ P _ _} _.
Arguments has_manager {FS _ P _ _} _.
Arguments legacy_clipboard {FS _ P _ _} _.

Section service.
Context {FS : Type} `{!Os FS} `{!Sha256} `{!HashOrder} `{!Base64} {P : Type} `{Countable P}.
Implicit Types s : FileService FS P.

(** [active_provider] and [launch_plan] of the plugin registry, in
    [start_mounted_receive]. *)
Context (mounted_provider : RemoteManifest -> Provider).

Definition set_transfers v s : FileService FS P :=
  Build_FileService v (manifest_generation s) (next_clipboard_transfer s) (announced_transfers s)
    (transfer_progress s) (transfer_providers s) (has_manager s) (legacy_clipboard s).
Definition set_manifest_generation v s : FileService FS P :=
  Build_FileService (transfers s) v (next_clipboard_transfer s) (announced_transfers s)
    (transfer_progress s) (transfer_providers s) (has_manager s) (legacy_clipboard s).
Definition set_next_clipboard_transfer v s : FileService FS P :=
  Build_FileService (transfers s) (manifest_generation s) v (announced_transfers s)
    (transfer_progress s) (transfer_providers s) (has_manager s) (legacy_clipboard s).
Definition set_shown announced progress s : FileService FS P :=
  Build_FileService (transfers s) (manifest_generation s) (next_clipboard_transfer s) announced
    progress (transfer_providers s) (has_manager s) (legacy_clipboard s).
Definition set_providers v s : FileService FS P :=
  Build_FileService (transfers s) (manifest_generation s) (next_clipboard_transfer s)
    (announced_transfers s) (transfer_progress s) v (has_manager s) (legacy_clipboard s).

(** ** The user interface *)

Definition status (ui_id : Z) (file_id : option Z) (completed total : Z)
    (state : ClipboardTransferState.t) : ClipboardTransferStatus :=
  {| st_transfer_id := ui_id; st_file_id := default 0 file_id; st_transferred_bytes := completed;
     st_total_bytes := total; st_state := state |}.

(** A terminal event is shown only for a transfer that was shown. *)
Definition notify_terminal s (ui_id : Z) (shown : ClipboardTransferStatus)
    : FileService FS P * list (Output P) :=
  if bool_decide (ui_id ∈ announced_transfers s)
  then (set_shown (announced_transfers s ∖ {[ui_id]}) (delete ui_id (transfer_progress s)) s,
        [Notify shown])
  else (s, []).

Definition notify_transfer_frontend s (event : TransferFrontendEvent)
    : FileService FS P * list (Output P) :=
  match event with
  | EvProgress ui_id completed total =>
      (set_shown ({[ui_id]} ∪ announced_transfers s)
         (<[ui_id := (completed, total)]> (transfer_progress s)) s,
       [Notify (status ui_id None completed total ClipboardTransferState.Transferring)])
  | EvCompleted ui_id file_id completed total =>
      notify_terminal s ui_id (status ui_id file_id completed total ClipboardTransferState.Completed)
  | EvCancelled ui_id file_id completed total =>
      notify_terminal s ui_id (status ui_id file_id completed total ClipboardTransferState.Cancelled)
  | EvFailed ui_id file_id completed total error =>
      notify_terminal s ui_id (status ui_id file_id completed total (ClipboardTransferState.Failed error))
  end.

(** ** Actions *)

(** [manager.try_send(command)], when there is a supervisor *)
Definition send_command s (command : ManagerCommand) : list (Output P) :=
  if has_manager s then [Command command] else [].

(** [slice::join] of strings *)
Definition join_with (separator : bytes) (parts : list rstring) : bytes :=
  match parts with
  | [] => []
  | first :: rest => first ++ mjoin ((fun part => separator ++ part) <$> rest)
  end.

(** [AdapterMessage::RemoteManifest]: starts the provider. *)
Definition start_mounted_receive s (m : RemoteManifest)
    : FileService FS P * list (Output P) * bool :=
  match mounted_provider m with
  | NoProvider => (s, [], false)
  | Refused provider refusal => (s, [Registry (NoteRefusal provider refusal); PublishPlugins], false)
  | Approved provider =>
      (set_providers (<[rm_transfer_id m := provider]> (transfer_providers s)) s,
       send_command s (StartTransfer provider m), true)
  end.

(** One action that is not a [RemoteManifest]. *)
Definition execute_action s (action : TransferAction P) : FileService FS P * list (Output P) :=
  match action with
  | Peer to event => (s, [SendProto to event])
  | Frontend event => notify_transfer_frontend s event
  | ReadSource owner file_id request_id offset length offer =>
      (s, [SpawnRead owner file_id request_id offset length offer])
  | Adapter adapter_id message =>
      match message with
      | Message.RangeResponse m =>
          (s, match transfer_providers s !! rr_transfer_id m with
              | Some plugin => send_command s (CommandRangeResponse plugin m)
              | None => []
              end)
      | Message.PublishFileClipboard m =>
          let operation := if bool_decide (pf_operation m = Operation.Move) then str "cut" else str "copy" in
          (s, [PublishClipboard (join_with [13; 10] (pf_uris m) ++ [13; 10])
                 (operation ++ [10] ++ join_with [10] (pf_uris m)) m])
      | Message.Released m => (s, send_command s (CommandReleased adapter_id m))
      | Message.Unmounted m =>
          (s, match transfer_providers s !! um_transfer_id m with
              | Some plugin => send_command s (CommandUnmounted plugin m)
              | None => []
              end)
      | Message.Cancel transfer_id =>
          let adapter := match transfer_providers s !! adapter_id with
                         | Some plugin => ProcessAdapterId.Transfer plugin adapter_id
                         | None => ProcessAdapterId.Resident adapter_id
                         end in
          (s, send_command s (CommandCancel adapter transfer_id))
      | _ => (s, [])
      end
  end.

Fixpoint execute_plain s (actions : list (TransferAction P)) : FileService FS P * list (Output P) :=
  match actions with
  | [] => (s, [])
  | action :: actions =>
      let (s, out) := execute_action s action in
      let (s, more) := execute_plain s actions in
      (s, out ++ more)
  end.

(** [execute_transfer_actions].  The nested call on the actions of
    [adapter_lost] meets no [RemoteManifest] ([adapter_lost_plain]), so it is
    [execute_plain]. *)
Fixpoint execute_transfer_actions s (actions : list (TransferAction P))
    : FileService FS P * list (Output P) :=
  match actions with
  | [] => (s, [])
  | action :: actions =>
      let (s, out) :=
        match action with
        | Adapter _ (Message.RemoteManifest m) =>
            let '(s, out, started) := start_mounted_receive s m in
            if (started : bool) then (s, out)
            else
              let (st, lost) := adapter_lost (transfers s) (rm_transfer_id m) in
              let (s, more) := execute_plain (set_transfers st s) lost in
              (s, out ++ more)
        | _ => execute_action s action
        end in
      let (s, more) := execute_transfer_actions s actions in
      (s, out ++ more)
  end.

(** [match .. { Ok(actions) => self.execute_transfer_actions(actions), Err(e) => log }] *)
Definition execute_outcome s
    (outcome : TransferState FS P * result (TransferStateError P) (list (TransferAction P)))
    : FileService FS P * list (Output P) :=
  let (st, answer) := outcome in
  let s := set_transfers st s in
  match answer with
  | Ok actions => execute_transfer_actions s actions
  | Err _ => (s, [])
  end.

(** ** Messages of peers *)

(** [transfer_id.to_string()] *)
Definition decimal (v : Z) : rstring := str (pretty v).

Definition handle_file_protocol s (from : P) (event : ProtoEvent)
    : FileService FS P * list (Output P) :=
  match event with
  | ProtoEvent.ClipboardManifest transfer_id entries =>
      execute_outcome s (inbound_manifest (transfers s) from (decimal transfer_id) (decimal transfer_id)
                           transfer_id Operation.Copy entries)
  | event => execute_outcome s (handle_protocol (transfers s) from event)
  end.

(** [ICaptureEvent::PeerLost] *)
Definition file_peer_lost s (lost : P) : FileService FS P * list (Output P) :=
  let (st, actions) := peer_lost (transfers s) lost in
  execute_transfer_actions (set_transfers st s) actions.

(** [FrontendRequest::CancelClipboardTransfer] *)
Definition cancel_clipboard_transfer s (transfer_id : Z) : FileService FS P * list (Output P) :=
  execute_outcome s (cancel_ui (transfers s) transfer_id None ClipboardCancelReason.User).

(** ** Reading a requested range *)

(** The task of [TransferAction::ReadSource]: the file, its chunk, and the
    digest of the chunk when it ends the file. *)
Definition read_source (fs : FS) (offer : FileOffer) (file_id offset length : Z)
    : result TransferError (OutgoingFile * option (Z * bytes) * option bytes) :=
  let* file := open fs offer file_id offset in
  let (file, chunk) := next_chunk_bounded fs file length in
  let* chunk := chunk in
  let hashed := match chunk with Some (_, data) => data | None => [] end in
  Ok (file, chunk, if is_eof file then Some (sha256_of hashed) else None).

(** [SourceReadResult] *)
Record SourceReadResult := {
  sr_owner : TransferOwner P;
  sr_file_id : Z;
  sr_request_id : Z;
  sr_offset : Z;
  sr_length : Z;
  sr_result : result TransferError (OutgoingFile (FS := FS) * option (Z * bytes) * option bytes);
}.

Definition handle_source_result s (r : SourceReadResult) : FileService FS P * list (Output P) :=
  let owner := sr_owner r in
  let served s := set_transfers (source_range_served (transfers s) owner (sr_file_id r) (sr_request_id r)) s in
  match sr_result r with
  | Ok (file, Some (offset, data), digest) =>
      let (st, inserted) := insert_outgoing_file (transfers s) owner (sr_file_id r) (sr_request_id r)
                              (sr_offset r) (sr_length r) file in
      let s := set_transfers st s in
      let sent := let* _ := inserted in
                  source_chunk st owner (sr_file_id r) (sr_request_id r) offset data in
      match sent, digest with
      | Err _, _ => (served s, [])
      | Ok actions, None =>
          let (s, out) := execute_transfer_actions s actions in
          (served s, out)
      | Ok actions, Some digest =>
          let (s, out) := execute_transfer_actions s actions in
          let (s, more) := execute_outcome s
            (source_complete (transfers s) owner (sr_file_id r) (sr_request_id r)
               (sr_offset r + sr_length r) digest) in
          (served s, out ++ more)
      end
  | _ => (served s, [])
  end.

(** ** Offering a selection *)

(** The loop of [handle_manifest_offer] over the clipboard peers; [wrapping_add]
    then [max(1)] *)
Fixpoint offer_to s (peers : list P) (adapter_id : rstring) (manifest : CopyManifest) (offer : FileOffer)
    : FileService FS P * list (TransferAction P) :=
  match peers with
  | [] => (s, [])
  | peer :: peers =>
      let wire_id := Z.max ((next_clipboard_transfer s + 1) mod 2 ^ 64) 1 in
      let s := set_next_clipboard_transfer wire_id s in
      let peer_offer := {| o_transfer_id := wire_id; o_entries := o_entries offer;
                           o_sources := o_sources offer |} in
      let (st, answer) := local_copy_manifest (transfers s) peer wire_id adapter_id manifest peer_offer in
      let (s, more) := offer_to (set_transfers st s) peers adapter_id manifest offer in
      (s, match answer with Ok actions => actions | Err _ => [] end ++ more)
  end.

(** [handle_manifest_offer]; the clipboard peers are the client manager's. *)
Definition handle_manifest_offer s (clipboard_peers : list P) (generation : Z) (adapter_id : rstring)
    (manifest : CopyManifest) (offer : result TransferError FileOffer)
    : FileService FS P * list (Output P) :=
  if negb (generation =? manifest_generation s) then (s, [])
  else
    match offer with
    | Err _ => (s, [])
    | Ok offer =>
        let (s, actions) := offer_to s clipboard_peers adapter_id manifest offer in
        execute_transfer_actions s actions
    end.

(** ** Messages of plugins *)

(** The key under which the state machine knows a process. *)
Definition transfer_key (adapter : ProcessAdapterId.t) : rstring :=
  match adapter with
  | ProcessAdapterId.Transfer _ transfer_id => transfer_id
  | ProcessAdapterId.Resident plugin | ProcessAdapterId.Settings plugin => plugin
  end.
(** [ProcessAdapterId::plugin] and [transfer] *)
Definition plugin_of (adapter : ProcessAdapterId.t) : rstring :=
  match adapter with
  | ProcessAdapterId.Resident plugin | ProcessAdapterId.Settings plugin
  | ProcessAdapterId.Transfer plugin _ => plugin
  end.
Definition transfer_of (adapter : ProcessAdapterId.t) : option rstring :=
  match adapter with ProcessAdapterId.Transfer _ transfer_id => Some transfer_id | _ => None end.
Definition is_settings (adapter : ProcessAdapterId.t) : bool :=
  match adapter with ProcessAdapterId.Settings _ => true | _ => false end.
Definition is_resident (adapter : ProcessAdapterId.t) : bool :=
  match adapter with ProcessAdapterId.Resident _ => true | _ => false end.

(** The arm [CopyManifest]: the files of a selection are recorded in the
    history, and the selection is scanned under a new generation. *)
Definition handle_copy_manifest s (adapter_id : rstring) (manifest : CopyManifest)
    : FileService FS P * list (Output P) :=
  if bool_decide (cm_operation manifest = Operation.Move) then (s, [])
  else
    let entries := List.filter (fun e => negb (bool_decide (se_kind e = EntryKind.Other)))
                     (cm_entries manifest) in
    let files := (fun e => (se_uri e, default 0 (se_size e))) <$> entries in
    let uri_text := join_with [13; 10] (se_uri <$> entries) in
    let generation := (manifest_generation s + 1) mod 2 ^ 64 in
    (set_manifest_generation generation s,
     (if len files =? 0 then [] else [RecordFiles files])
     ++ [SpawnScan generation adapter_id manifest uri_text]).

(** [mime_type.starts_with("text/")] *)
Definition is_text (mime_type : rstring) : bool :=
  bool_decide (is_Some (strip_prefix (str "text/") mime_type)).

(** [TransferStateError::to_string] *)
Context (error_text : TransferStateError P -> rstring).

(** The arm [ManagerEvent::Message]. *)
Definition handle_adapter_message s (adapter : ProcessAdapterId.t) (message : Message.t)
    : FileService FS P * list (Output P) :=
  let adapter_id := transfer_key adapter in
  let st := transfers s in
  match message with
  | Message.RangeRequest request =>
      let (st, answer) := adapter_range_request st adapter_id request in
      match answer with
      | Ok actions => execute_transfer_actions (set_transfers st s) actions
      | Err e =>
          (set_transfers st s,
           send_command s (CommandRangeResponse (plugin_of adapter)
             {| rr_transfer_id := rq_transfer_id request; rr_request_id := rq_request_id request;
                rr_offset := rq_offset request; rr_data_base64 := []; rr_eof := true;
                rr_error := Some (error_text e) |}))
      end
  | Message.RemoteManifest _ =>
      let (st, actions) := adapter_lost st adapter_id in
      execute_transfer_actions (set_transfers st s) actions
  | Message.MountReady ready => execute_outcome s (adapter_mount_ready st adapter_id ready)
  | Message.Progress progress => execute_outcome s (adapter_progress st adapter_id progress)
  | Message.Completed completion => execute_outcome s (adapter_completed st adapter_id completion)
  | Message.Cancelled cancelled => execute_outcome s (adapter_cancelled st adapter_id cancelled)
  | Message.Released released => execute_outcome s (adapter_released st adapter_id released)
  | Message.Unmounted unmounted => execute_outcome s (adapter_unmounted st adapter_id unmounted)
  | Message.CopyManifest manifest => handle_copy_manifest s adapter_id manifest
  | Message.ClipboardData _ mime_type _ =>
      (s, if is_resident adapter && is_text mime_type && legacy_clipboard s then [ReadClipboard] else [])
  | Message.DeclareSettings settings =>
      (s, [Registry (AdoptOwnedSettings (plugin_of adapter) settings); PublishPlugins])
  | _ => (s, [])
  end.

(** What the supervisor of the plugins reports; the grant of [Ready] is only
    logged. *)
Inductive ManagerEvent :=
| EventStarted (adapter : ProcessAdapterId.t) (pid : Z)
| EventReady (adapter : ProcessAdapterId.t) (declared : option PluginMetadata)
| EventStopped (adapter : ProcessAdapterId.t)
| EventMessage (adapter : ProcessAdapterId.t) (message : Message.t)
| EventCancelled (adapter : ProcessAdapterId.t) (transfer_id : rstring)
| EventRejected (adapter : option ProcessAdapterId.t) (reason : rstring)
| EventExited (adapter : ProcessAdapterId.t) (status : rstring)
| EventDiagnostics (plugin : rstring) (lines : list rstring).

Definition event_adapter (event : ManagerEvent) : option ProcessAdapterId.t :=
  match event with
  | EventStarted adapter _ | EventReady adapter _ | EventStopped adapter | EventMessage adapter _
  | EventCancelled adapter _ | EventExited adapter _ => Some adapter
  | EventRejected adapter _ => adapter
  | EventDiagnostics _ _ => None
  end.
Definition about_settings_window (event : ManagerEvent) : bool :=
  match event_adapter event with Some adapter => is_settings adapter | None => false end.

(** [transfer_providers.remove(transfer_id)] of a per-transfer process *)
Definition forget_provider s (adapter : ProcessAdapterId.t) : FileService FS P :=
  match transfer_of adapter with
  | Some transfer_id => set_providers (delete transfer_id (transfer_providers s)) s
  | None => s
  end.

Definition handle_adapter_event s (event : ManagerEvent) : FileService FS P * list (Output P) :=
  if about_settings_window event then (s, [])
  else
    match event with
    | EventStarted adapter pid => (s, [Registry (SetStarting (plugin_of adapter) pid); PublishPlugins])
    | EventStopped adapter =>
        (forget_provider s adapter, [Registry (SetStopped (plugin_of adapter)); PublishPlugins])
    | EventReady adapter declared =>
        (s, match declared with
            | Some metadata => [Registry (AdoptDeclared (plugin_of adapter) metadata)]
            | None => []
            end ++ [Registry (SetRunning (plugin_of adapter) true); PublishPlugins])
    | EventMessage adapter message => handle_adapter_message s adapter message
    | EventCancelled adapter transfer_id =>
        execute_outcome s (adapter_cancelled (transfers s) (transfer_key adapter)
                             {| cn_transfer_id := transfer_id |})
    | EventDiagnostics plugin lines => (s, [Registry (SetDiagnostics plugin lines); PublishPlugins])
    | EventRejected _ _ => (s, [])
    | EventExited adapter status =>
        let (st, actions) := adapter_lost (transfers s) (transfer_key adapter) in
        let (s, out) := execute_transfer_actions (set_transfers st s) actions in
        (forget_provider s adapter,
         [Registry (SetExited (plugin_of adapter) status); PublishPlugins] ++ out)
    end.
End service.
Arguments SourceReadResult FS {_} P.
