(* ===== verification/TransferServiceTheorems.v ===== *)
(** * Clipboard file transfers: the daemon

    The daemon's handlers only ever apply operations of the state machine, so
    what holds of every sequence of operations holds of the daemon. *)

From S2P Require Import Prelude Wire ProtoTypes ProtoValid FileOs FileTransfer FileTransferTheorems PluginApi.
From S2P Require Import TransferManager TransferManagerTheorems TransferManagerSafety TransferService.

Section service_theorems.
Context {FS : Type} `{!Os FS} `{!Sha256} `{!HashOrder} `{!Base64} {P : Type} `{Countable P}.
Implicit Types s : FileService FS P.
Context (mounted_provider : RemoteManifest -> Provider).
Context (error_text : TransferStateError P -> rstring).

(** ** The nested execution *)

Definition is_plain (action : TransferAction P) : Prop :=
  match action with Adapter _ (Message.RemoteManifest _) => False | _ => True end.

Lemma cancel_owners_plain (st : TransferState FS P) owners reason notify :
  Forall is_plain (snd (cancel_owners st owners reason notify)).
Proof.
  revert st. induction owners as [|o owners IH]; intros st; [constructor|]. cbn.
  assert (forall actions, snd (cancel_owner st o None reason notify) = Ok actions ->
            Forall is_plain actions) as Hc.
  { unfold cancel_owner. destruct (transfer_totals st o).
    destruct (identifiers st o) as [[[[ui a] x] ann]|]; [|done]. cbn. intros actions [= <-].
    destruct notify, ann; repeat constructor. }
  destruct (cancel_owner st o None reason notify) as [st1 [actions|e]]; cbn in *;
    specialize (IH st1); destruct (cancel_owners st1 owners reason notify); cbn in *; [|done].
  apply Forall_app. auto.
Qed.

Lemma adapter_lost_plain (st : TransferState FS P) a : Forall is_plain (snd (adapter_lost st a)).
Proof. apply cancel_owners_plain. Qed.

(** On such actions the nested call is the call itself. *)
Lemma execute_plain_is_execute s actions :
  Forall is_plain actions ->
  execute_transfer_actions mounted_provider s actions = execute_plain s actions.
Proof.
  intros Hp. revert s. induction Hp as [|action actions Ha Hp IH]; intros s; [done|].
  cbn [execute_transfer_actions execute_plain].
  destruct action as [to event|a message|event|o f r off len offer];
    try (destruct (execute_action s _) as [s1 out]; by rewrite IH).
  destruct message; try done;
    match goal with |- context [execute_action s ?act] => destruct (execute_action s act) as [s1 out] end;
    by rewrite IH.
Qed.

(** ** Every handler applies operations *)

(** The states of the machine that operations lead to from [st]. *)
Inductive leads_to (st : TransferState FS P) : TransferState FS P -> Prop :=
| lt_refl : leads_to st st
| lt_op st' op : leads_to st st' -> wf_op op = true -> leads_to st (fst (run st' op)).

Lemma leads_to_trans st1 st2 st3 : leads_to st1 st2 -> leads_to st2 st3 -> leads_to st1 st3.
Proof. intros H12 H23. induction H23; [done | by constructor]. Qed.

Lemma leads_to_op st op : wf_op op = true -> leads_to st (fst (run st op)).
Proof. intros Hop. by apply (lt_op st st); [constructor|]. Qed.

Lemma reach_leads_to st st' : transfers_reach st -> leads_to st st' -> transfers_reach st'.
Proof. intros Hr Hl. induction Hl; [done | by constructor]. Qed.

Lemma adapter_lost_leads st a : leads_to st (fst (adapter_lost st a)).
Proof.
  pose proof (leads_to_op st (OpAdapterLost a) eq_refl) as Hl. cbn in Hl.
  by destruct (adapter_lost st a).
Qed.

(** What is shown: the transfers shown are those with a recorded progress. *)
Definition shown_agree s : Prop := announced_transfers s = dom (transfer_progress s).

(** [s'] came from [s] by operations of the machine and by showing progress. *)
Definition advances s s' : Prop :=
  leads_to (transfers s) (transfers s') /\ (shown_agree s -> shown_agree s').

Lemma advances_refl s : advances s s.
Proof. split; [constructor | done]. Qed.

Lemma advances_trans s1 s2 s3 : advances s1 s2 -> advances s2 s3 -> advances s1 s3.
Proof. intros [L1 A1] [L2 A2]. split; [by eapply leads_to_trans | auto]. Qed.

Lemma set_transfers_advances s st : leads_to (transfers s) st -> advances s (set_transfers st s).
Proof. intros Hl. split; [exact Hl | done]. Qed.

Lemma notify_advances s event : advances s (fst (notify_transfer_frontend s event)).
Proof.
  assert (forall ui shown, advances s (fst (notify_terminal s ui shown))) as Ht.
  { intros ui shown. unfold notify_terminal. case_bool_decide; [|apply advances_refl].
    split; [constructor|]. unfold shown_agree. cbn. intros ->. by rewrite dom_delete_L. }
  destruct event; cbn [notify_transfer_frontend]; [|apply Ht..].
  split; [constructor|]. unfold shown_agree. cbn. intros ->. by rewrite dom_insert_L.
Qed.

Lemma execute_action_advances s action : advances s (fst (execute_action s action)).
Proof.
  destruct action as [to event|a message|event|o f r off len offer]; cbn [execute_action fst];
    try apply advances_refl; [|apply notify_advances].
  destruct message; apply advances_refl.
Qed.

Lemma execute_plain_advances s actions : advances s (fst (execute_plain s actions)).
Proof.
  revert s. induction actions as [|action actions IH]; intros s; [apply advances_refl|]. cbn.
  pose proof (execute_action_advances s action) as Ha. destruct (execute_action s action) as [s1 out].
  specialize (IH s1). destruct (execute_plain s1 actions). by eapply advances_trans.
Qed.

Lemma execute_advances s actions : advances s (fst (execute_transfer_actions mounted_provider s actions)).
Proof.
  revert s. induction actions as [|action actions IH]; intros s; [apply advances_refl|].
  cbn [execute_transfer_actions].
  set (first := match action with Peer _ _ => _ | Adapter _ _ => _ | Frontend _ => _ | ReadSource _ _ _ _ _ _ => _ end).
  assert (advances s (fst first)) as Hf.
  { unfold first. destruct action as [to event|a message|event|o f r off len offer];
      try apply execute_action_advances.
    destruct message; try apply execute_action_advances.
    pose proof (adapter_lost_leads (transfers s) (rm_transfer_id m)) as Hl.
    unfold start_mounted_receive. destruct (mounted_provider m); [| |split; [constructor | done]].
    all: destruct (adapter_lost (transfers s) (rm_transfer_id m)) as [st lost];
      pose proof (execute_plain_advances (set_transfers st s) lost) as He;
      destruct (execute_plain (set_transfers st s) lost);
      eapply advances_trans; [by apply (set_transfers_advances s st) | exact He]. }
  destruct first as [s1 out]. specialize (IH s1).
  destruct (execute_transfer_actions mounted_provider s1 actions). by eapply advances_trans.
Qed.

Lemma execute_outcome_advances s op :
  wf_op op = true -> advances s (fst (execute_outcome mounted_provider s (run (transfers s) op))).
Proof.
  intros Hop. pose proof (leads_to_op (transfers s) op Hop) as Hl. unfold execute_outcome.
  destruct (run (transfers s) op) as [st [actions|e]]; cbn in *.
  - eapply advances_trans; [by apply set_transfers_advances | apply execute_advances].
  - by apply set_transfers_advances.
Qed.

(** ** The handlers *)

Lemma handle_file_protocol_advances s from event :
  wf_event event = true -> advances s (fst (handle_file_protocol mounted_provider s from event)).
Proof.
  intros He.
  assert (advances s (fst (execute_outcome mounted_provider s (handle_protocol (transfers s) from event)))) as Hp.
  { by apply (execute_outcome_advances s (OpProtocol from event)). }
  destruct event; try exact Hp. cbn [handle_file_protocol].
  apply (execute_outcome_advances s (OpInboundManifest from (decimal transfer_id) (decimal transfer_id)
    transfer_id Operation.Copy entries)). cbn in He |- *. by boolsplit.
Qed.

Lemma handle_source_result_advances s (r : SourceReadResult FS P) :
  advances s (fst (handle_source_result mounted_provider s r)).
Proof.
  unfold handle_source_result.
  assert (forall s1, advances s s1 -> advances s (set_transfers
    (source_range_served (transfers s1) (sr_owner r) (sr_file_id r) (sr_request_id r)) s1)) as Hserved.
  { intros s1 Ha. eapply advances_trans; [exact Ha|]. apply set_transfers_advances.
    by apply (leads_to_op (transfers s1) (OpRangeServed (sr_owner r) (sr_file_id r) (sr_request_id r))). }
  destruct (sr_result r) as [[[file [[offset data]|]] digest]|e]; [| apply Hserved, advances_refl..].
  pose proof (leads_to_op (transfers s) (OpInsertOutgoing (sr_owner r) (sr_file_id r) (sr_request_id r)
    (sr_offset r) (sr_length r) file) eq_refl) as Hl. cbn [run] in Hl.
  destruct (insert_outgoing_file (transfers s) _ _ _ _ _ file) as [st inserted].
  cbn [fst] in Hl.
  assert (advances s (set_transfers st s)) as H1' by (by apply set_transfers_advances). clear Hl.
  destruct (let* _ := inserted in _) as [actions|e]; [|by apply Hserved].
  pose proof (execute_advances (set_transfers st s) actions) as He.
  destruct digest as [d|]; destruct (execute_transfer_actions mounted_provider (set_transfers st s) actions)
    as [s1 out]; cbn [fst] in He.
  - pose proof (execute_outcome_advances s1 (OpSourceComplete (sr_owner r) (sr_file_id r) (sr_request_id r)
      (sr_offset r + sr_length r) d) eq_refl) as Hc. cbn [run] in Hc.
    destruct (execute_outcome mounted_provider s1 _) as [s2 more]. cbn [fst] in *.
    apply Hserved. by eapply advances_trans; [exact H1'|]; eapply advances_trans.
  - cbn [fst]. apply Hserved. by eapply advances_trans.
Qed.

Lemma offer_to_advances s peers a manifest offer :
  forallb wf_entry (o_entries offer) = true ->
  advances s (fst (offer_to s peers a manifest offer)).
Proof.
  intros Ho. revert s. induction peers as [|p peers IH]; intros s; [apply advances_refl|]. cbn [offer_to].
  set (w := Z.max _ 1). set (s1 := set_next_clipboard_transfer w s).
  set (offer1 := {| o_transfer_id := w; o_entries := _; o_sources := _ |}).
  pose proof (leads_to_op (transfers s1) (OpLocalCopy p w a manifest offer1) Ho) as Hl. cbn [run] in Hl.
  destruct (local_copy_manifest (transfers s1) p w a manifest offer1) as [st answer].
  specialize (IH (set_transfers st s1)). destruct (offer_to (set_transfers st s1) peers a manifest offer).
  eapply advances_trans; [|exact IH]. split; [exact Hl | done].
Qed.

(** What happens to the daemon. *)
Inductive ServiceEvent :=
| EvPeerMessage (from : P) (event : ProtoEvent)
| EvPeerLost (lost : P)
| EvSourceResult (r : SourceReadResult FS P)
| EvManifestOffer (clipboard_peers : list P) (generation : Z) (adapter_id : rstring)
    (manifest : CopyManifest) (offer : result TransferError FileOffer)
| EvCancelTransfer (ui_id : Z)
| EvAdapter (event : ManagerEvent).

Definition handle_service s (event : ServiceEvent) : FileService FS P * list (Output P) :=
  match event with
  | EvPeerMessage from event => handle_file_protocol mounted_provider s from event
  | EvPeerLost lost => file_peer_lost mounted_provider s lost
  | EvSourceResult r => handle_source_result mounted_provider s r
  | EvManifestOffer peers generation a manifest offer =>
      handle_manifest_offer mounted_provider s peers generation a manifest offer
  | EvCancelTransfer ui_id => cancel_clipboard_transfer mounted_provider s ui_id
  | EvAdapter event => handle_adapter_event mounted_provider error_text s event
  end.

Definition wf_message (message : Message.t) : bool :=
  match message with
  | Message.RangeRequest request => wf_range_request request
  | Message.Progress progress => is_option is_u64 (pg_completed_bytes progress)
  | _ => true
  end.

Definition wf_service_event (event : ServiceEvent) : bool :=
  match event with
  | EvPeerMessage _ event => wf_event event
  | EvManifestOffer _ _ _ _ (Ok offer) => forallb wf_entry (o_entries offer)
  | EvAdapter (EventMessage _ message) => wf_message message
  | _ => true
  end.

Lemma adapter_message_advances s adapter message :
  wf_message message = true ->
  advances s (fst (handle_adapter_message mounted_provider error_text s adapter message)).
Proof.
  intros Hm. pose proof (fun op => execute_outcome_advances s op) as He.
  destruct message; cbn [handle_adapter_message]; try apply advances_refl.
  - unfold handle_copy_manifest. case_bool_decide; [apply advances_refl|]. split; [constructor | done].
  - by apply (He (OpProgress (transfer_key adapter) m)).
  - pose proof (adapter_lost_leads (transfers s) (transfer_key adapter)) as Hl.
    destruct (adapter_lost (transfers s) (transfer_key adapter)) as [st actions]. cbn [fst] in Hl.
    eapply advances_trans; [by apply set_transfers_advances | apply execute_advances].
  - pose proof (leads_to_op (transfers s) (OpRangeRequest (transfer_key adapter) m) Hm) as Hl. cbn [run] in Hl.
    destruct (adapter_range_request (transfers s) (transfer_key adapter) m) as [st [actions|e]]; cbn [fst] in Hl.
    + eapply advances_trans; [by apply set_transfers_advances | apply execute_advances].
    + by apply set_transfers_advances.
  - by apply (He (OpMountReady (transfer_key adapter) m)).
  - by apply (He (OpReleased (transfer_key adapter) m)).
  - by apply (He (OpUnmounted (transfer_key adapter) m)).
  - by apply (He (OpCompleted (transfer_key adapter) m)).
  - by apply (He (OpCancelled (transfer_key adapter) m)).
Qed.

Lemma forget_provider_advances s adapter : advances s (forget_provider s adapter).
Proof. unfold forget_provider. destruct (transfer_of adapter); split; (constructor || done). Qed.

Lemma lost_advances s st actions :
  leads_to (transfers s) st ->
  advances s (fst (execute_transfer_actions mounted_provider (set_transfers st s) actions)).
Proof.
  intros Hl. eapply advances_trans; [by apply set_transfers_advances | apply execute_advances].
Qed.

Lemma handle_service_advances s event :
  wf_service_event event = true -> advances s (fst (handle_service s event)).
Proof.
  intros He. destruct event as [from event|lost|r|peers generation a manifest offer|ui_id|event];
    cbn [handle_service] in *.
  - by apply handle_file_protocol_advances.
  - unfold file_peer_lost. pose proof (leads_to_op (transfers s) (OpPeerLost lost) eq_refl) as Hl.
    cbn [run] in Hl. destruct (peer_lost (transfers s) lost). by apply lost_advances.
  - apply handle_source_result_advances.
  - unfold handle_manifest_offer. destruct (negb _); [apply advances_refl|].
    destruct offer as [offer|]; [|apply advances_refl].
    pose proof (offer_to_advances s peers a manifest offer He) as Ha.
    destruct (offer_to s peers a manifest offer) as [s1 actions]. cbn [fst] in Ha.
    eapply advances_trans; [exact Ha | apply execute_advances].
  - by apply (execute_outcome_advances s (OpCancelUi ui_id None ClipboardCancelReason.User)).
  - unfold handle_adapter_event. destruct (about_settings_window _); [apply advances_refl|].
    destruct event as [adapter pid|adapter declared|adapter|adapter message|adapter transfer_id
                      |adapter reason|adapter status|plugin lines]; try apply advances_refl.
    + apply forget_provider_advances.
    + by apply adapter_message_advances.
    + by apply (execute_outcome_advances s (OpCancelled (transfer_key adapter) {| cn_transfer_id := transfer_id |})).
    + pose proof (adapter_lost_leads (transfers s) (transfer_key adapter)) as Hl.
      destruct (adapter_lost (transfers s) (transfer_key adapter)) as [st actions]. cbn [fst] in Hl.
      pose proof (lost_advances s st actions Hl) as Ha.
      destruct (execute_transfer_actions mounted_provider (set_transfers st s) actions) as [s1 out].
      eapply advances_trans; [exact Ha | apply forget_provider_advances].
Qed.

Definition new_service (wire_id : Z) (manager legacy : bool) : FileService FS P :=
  Build_FileService new 0 wire_id ∅ ∅ ∅ manager legacy.

Inductive service_reach : FileService FS P -> Prop :=
| sr_new wire_id manager legacy : service_reach (new_service wire_id manager legacy)
| sr_event s event : service_reach s -> wf_service_event event = true ->
    service_reach (fst (handle_service s event)).

Lemma service_reach_transfers s : service_reach s -> transfers_reach (transfers s) /\ shown_agree s.
Proof.
  induction 1 as [|s event Hs [Hr Ha] He]; [split; [constructor | done]|].
  destruct (handle_service_advances s event He) as [Hl Hsh].
  split; [by eapply reach_leads_to | auto].
Qed.

(** ** Losing a peer *)

(** What the tables hold for an owner. *)
Definition forgotten (st : TransferState FS P) (o : TransferOwner P) : Prop :=
  local st !! o = None /\ remote st !! o = None
  /\ forall f r, pending st !! (o, f, r) = None /\ source_pending st !! (o, f, r) = None.

Definition same_for (st st' : TransferState FS P) (o : TransferOwner P) : Prop :=
  local st' !! o = local st !! o /\ remote st' !! o = remote st !! o
  /\ forall f r, pending st' !! (o, f, r) = pending st !! (o, f, r)
                 /\ source_pending st' !! (o, f, r) = source_pending st !! (o, f, r).

Lemma remove_owner_forgets (st : TransferState FS P) o : wf_state st -> forgotten (remove_owner st o) o.
Proof.
  intros W. unfold forgotten. rewrite remove_owner_local, remove_owner_remote, !decide_True by (done || apply W).
  split_and!; try done. intros f r.
  assert (forall {A} (m : gmap (Index P) A), retain_other_owners o m !! (o, f, r) = None) as Hn.
  { intros A m. apply map_lookup_filter_None. right. intros v _ Hne. by apply Hne. }
  unfold remove_owner. destruct (local st !! o); cbn; auto.
Qed.

(** A range belongs to a transfer, so an owner without transfer has none. *)
Lemma unknown_forgotten (st : TransferState FS P) o :
  wf_state st -> local st !! o = None -> remote st !! o = None -> forgotten st o.
Proof.
  intros W Hl Hr. split_and!; try done. intros f r. split.
  - destruct (pending st !! (o, f, r)) eqn:Ep; [|done].
    destruct (wg_pending _ (ws_ranges _ W) _ _ _ _ Ep) as (t & e & Ht & _). congruence.
  - destruct (source_pending st !! (o, f, r)) eqn:Ep; [|done].
    destruct (wg_source _ (ws_ranges _ W) _ _ _ _ Ep) as (t & e & Ht & _). congruence.
Qed.

Lemma remove_owner_same (st : TransferState FS P) o k : wf_state st -> k <> o -> same_for st (remove_owner st o) k.
Proof.
  intros W Hne. unfold same_for. rewrite remove_owner_local, remove_owner_remote, !decide_False by (done || apply W).
  split_and!; try done. intros f r.
  assert (forall {A} (m : gmap (Index P) A), retain_other_owners o m !! (k, f, r) = m !! (k, f, r)) as Hn.
  { intros A m. apply option_eq. intros v. rewrite retain_other_owners_lookup. naive_solver. }
  unfold remove_owner. destruct (local st !! o); cbn; by rewrite !Hn.
Qed.

(** The plugin of a transfer is told to cancel it. *)
Definition told (st : TransferState FS P) (o : TransferOwner P) (actions : list (TransferAction P)) : Prop :=
  forall ui a x announced, identifiers st o = Some (ui, a, x, announced) ->
    Adapter a (Message.Cancel x) ∈ actions.

Lemma cancel_owner_spec (st : TransferState FS P) o reason notify :
  wf_state st ->
  let '(st', answer) := cancel_owner st o None reason notify in
  forgotten st' o /\ (forall k, k <> o -> same_for st st' k)
  /\ told st o (match answer with Ok actions => actions | Err _ => [] end).
Proof.
  intros W. unfold cancel_owner. destruct (transfer_totals st o).
  destruct (identifiers st o) as [[[[ui a] x] ann]|] eqn:E.
  - split_and!; [by apply remove_owner_forgets | intros; by apply remove_owner_same |].
    intros ui' a' x' ann'. rewrite E. intros [= -> -> -> ->].
    apply elem_of_app. right. by left.
  - assert (local st !! o = None /\ remote st !! o = None) as [Hl Hr].
    { unfold identifiers in E. destruct (local st !! o); [done|]. by destruct (remote st !! o). }
    split_and!; [by apply unknown_forgotten | by intros | intros ? ? ? ?; by rewrite E].
Qed.

Lemma told_same st st' o actions : same_for st st' o -> told st' o actions -> told st o actions.
Proof.
  intros (Hl & Hr & _) Ht ui a x ann Hi. apply (Ht ui a x ann). unfold identifiers in *. by rewrite Hl, Hr.
Qed.

Lemma cancel_owners_spec (st : TransferState FS P) owners reason notify :
  wf_state st -> NoDup owners ->
  let '(st', actions) := cancel_owners st owners reason notify in
  (forall k, k ∈ owners -> forgotten st' k /\ told st k actions)
  /\ (forall k, k ∉ owners -> same_for st st' k).
Proof.
  revert st. induction owners as [|o owners IH]; intros st W Hnd.
  { cbn. split; [by intros k ?%elem_of_nil | done]. }
  apply NoDup_cons in Hnd as [Hno Hnd]. cbn.
  pose proof (cancel_owner_spec st o reason notify W) as Hc.
  pose proof (cancel_owner_wf st o None reason notify W) as W1.
  destruct (cancel_owner st o None reason notify) as [st1 answer]. cbn [fst] in W1.
  destruct Hc as (Hf & Hs & Ht). specialize (IH st1 W1 Hnd).
  destruct (cancel_owners st1 owners reason notify) as [st2 more]. destruct IH as [IHf IHs]. split.
  - intros k [->|Hk]%elem_of_cons.
    + split.
      * destruct (IHs o Hno) as (El & Er & Ep). destruct Hf as (Hl & Hr & Hp).
        split_and!; [congruence | congruence |]. intros f r.
        destruct (Ep f r) as [-> ->]. apply Hp.
      * intros ui a x ann Hi. apply elem_of_app. left. by eapply Ht.
    + destruct (IHf k Hk) as [Hfk Htk]. split; [done|].
      assert (k <> o) as Hne by (intros ->; done).
      intros ui a x ann Hi. apply elem_of_app. right.
      by eapply (told_same st st1 k more (Hs k Hne) Htk).
  - intros k Hk. destruct (IHs k) as (El & Er & Ep); [set_solver|].
    destruct (Hs k) as (El' & Er' & Ep'); [set_solver|].
    split_and!; [congruence | congruence |]. intros f r.
    destruct (Ep f r) as [-> ->]. apply Ep'.
Qed.

(** Executing plain actions leaves the state machine alone. *)
Lemma execute_plain_transfers s actions : transfers (fst (execute_plain s actions)) = transfers s.
Proof.
  revert s. induction actions as [|action actions IH]; intros s; [done|]. cbn.
  assert (transfers (fst (execute_action s action)) = transfers s) as Ha.
  { destruct action as [to event|a message|event|]; cbn; [done | by destruct message | | done].
    destruct event; cbn; unfold notify_terminal; try case_bool_decide; done. }
  destruct (execute_action s action) as [s1 out]. specialize (IH s1).
  destruct (execute_plain s1 actions). cbn in *. congruence.
Qed.

Lemma file_peer_lost_transfers s lost :
  transfers (fst (file_peer_lost mounted_provider s lost)) = fst (peer_lost (transfers s) lost).
Proof.
  unfold file_peer_lost.
  assert (Forall is_plain (snd (peer_lost (transfers s) lost))) as Hp by apply cancel_owners_plain.
  destruct (peer_lost (transfers s) lost) as [st actions]. cbn in Hp |- *.
  by rewrite execute_plain_is_execute, execute_plain_transfers.
Qed.
End service_theorems.

(** C31: losing a peer ends its transfers and no other.  In every state the
    daemon reaches by handling messages of peers and plugins, results of reads,
    scanned selections and user requests: when the connection to a peer dies, no
    table holds anything of that peer any more (no offer, no awaited range, no
    reservation); every plugin that served one of its transfers is told to cancel
    it; and the transfers of the other peers keep their offers and their ranges. *)
Theorem lost_peer_leaves_nothing {FS P : Type} `{!Os FS} `{!Sha256} `{!HashOrder} `{!Base64}
    `{Countable P} (mounted_provider : RemoteManifest -> Provider)
    (error_text : TransferStateError P -> rstring) (s : FileService FS P) (lost : P) :
  service_reach mounted_provider error_text s ->
  let st := transfers s in
  let st' := transfers (fst (file_peer_lost mounted_provider s lost)) in
  (forall o, peer o = lost -> forgotten st' o /\ told st o (snd (peer_lost st lost)))
  /\ (forall o, peer o <> lost -> same_for st st' o).
Proof.
  intros [W%reach_wf _]%service_reach_transfers. cbn zeta.
  rewrite file_peer_lost_transfers.
  unfold peer_lost. set (owners := hash_order _).
  assert (forall o, o ∈ owners -> peer o = lost) as Hin.
  { intros o. unfold owners, owners_of_peer. rewrite elem_of_hash_order, elem_of_elements, elem_of_filter. by intros [? _]. }
  assert (forall o, peer o = lost -> o ∉ owners -> local (transfers s) !! o = None /\ remote (transfers s) !! o = None) as Hout.
  { intros o Ho. unfold owners, owners_of_peer.
    rewrite elem_of_hash_order, elem_of_elements, elem_of_filter, elem_of_union, !elem_of_dom.
    intros Hn. rewrite !eq_None_not_Some. tauto. }
  assert (NoDup owners) as Hnd by (unfold owners; rewrite hash_order_perm; apply NoDup_elements).
  pose proof (cancel_owners_spec (transfers s) owners ClipboardCancelReason.IoError false W Hnd) as Hspec.
  pose proof (cancel_owners_wf (transfers s) owners ClipboardCancelReason.IoError false W) as W'.
  destruct (cancel_owners (transfers s) owners ClipboardCancelReason.IoError false) as [st' actions].
  destruct Hspec as [Hgone Hsame]. cbn [fst snd] in *. split.
  - intros o Ho. destruct (decide (o ∈ owners)) as [Hi|Hi]; [by apply Hgone|].
    destruct (Hout o Ho Hi) as [Hl Hr]. destruct (Hsame o Hi) as (El & Er & _). split.
    + apply unknown_forgotten; [done | congruence | congruence].
    + intros ui a x ann Hid. unfold identifiers in Hid. by rewrite Hl, Hr in Hid.
  - intros o Ho. apply Hsame. intros Hi. by apply Ho, Hin.
Qed.

#[local] Existing Instance list_order.
#[local] Existing Instance identity_base64.

Definition sample_service : FileService ram Z :=
  fst (handle_service (fun _ => Approved (str "fuse")) (fun _ => []) (new_service 0 true false)
         (EvPeerMessage 5 (ProtoEvent.ClipboardManifest 9 [sample_entry 5]))).

Lemma lost_peer_leaves_nothing_witness :
  bool_decide (is_Some (remote (transfers sample_service) !! Build_TransferOwner 5 9)) = true
  /\ remote (transfers (fst (file_peer_lost (fun _ => Approved (str "fuse")) sample_service 5)))
     !! Build_TransferOwner 5 9 = None.
Proof.
  split; [reflexivity|].
  apply (proj1 (lost_peer_leaves_nothing (fun _ => Approved (str "fuse")) (fun _ => []) sample_service 5
    (sr_event _ _ _ (EvPeerMessage 5 (ProtoEvent.ClipboardManifest 9 [sample_entry 5]))
       (sr_new _ _ 0 true false) eq_refl)) (Build_TransferOwner 5 9) eq_refl).
Defined.
