(* ===== verification/TransferDelivery.v ===== *)
(** * Clipboard file transfers: a paste delivers the file

    Two daemons: one holds an offer of a file on its disk, the other has
    published the offer to a plugin, which asks for the file range by range.
    [paste] runs the requests of the plugin through both daemons over a network
    that delivers. *)

From S2P Require Import Prelude Wire ProtoTypes ProtoValid ProtoSafety FileOs FileTransfer FileTransferTheorems.
From S2P Require Import FileTransferTheorems PluginApi TransferManager TransferManagerTheorems.
From S2P Require Import TransferManagerSafety TransferService.

Section paste.
Context {FS : Type} `{!Os FS} `{!Sha256} `{!HashOrder} `{!Base64} {P : Type} `{Countable P}.
Implicit Types s : FileService FS P.
Context (mounted_provider : RemoteManifest -> Provider).

(** ** Two daemons and a network *)

(** The messages among the outputs. *)
Definition sent (out : list (Output P)) : list ProtoEvent :=
  omap (fun o => match o with SendProto _ event => Some event | _ => None end) out.

(** The disk serves the reads the daemon spawned; their results come back. *)
Fixpoint serve_reads (fs : FS) s (out : list (Output P)) : FileService FS P * list ProtoEvent :=
  match out with
  | [] => (s, [])
  | SpawnRead owner file_id request_id offset length offer :: out =>
      let (s, answer) := handle_source_result mounted_provider s
        {| sr_owner := owner; sr_file_id := file_id; sr_request_id := request_id; sr_offset := offset;
           sr_length := length; sr_result := read_source fs offer file_id offset length |} in
      let (s, more) := serve_reads fs s out in
      (s, sent answer ++ more)
  | _ :: out => serve_reads fs s out
  end.

(** The daemon of the disk receives messages, reads, and answers. *)
Fixpoint serve (fs : FS) s (from : P) (events : list ProtoEvent) : FileService FS P * list ProtoEvent :=
  match events with
  | [] => (s, [])
  | event :: events =>
      let (s, out) := handle_file_protocol mounted_provider s from event in
      let (s, answer) := serve_reads fs s out in
      let (s, more) := serve fs s from events in
      (s, answer ++ more)
  end.

Fixpoint receive s (from : P) (events : list ProtoEvent) : FileService FS P * list (Output P) :=
  match events with
  | [] => (s, [])
  | event :: events =>
      let (s, out) := handle_file_protocol mounted_provider s from event in
      let (s, more) := receive s from events in
      (s, out ++ more)
  end.

(** The plugin [a] asks for one range: [sender] and [receiver] are the peers as
    the other daemon knows them. *)
Definition exchange (fs : FS) (source target : FileService FS P) (sender receiver : P) (a : rstring)
    (request : RangeRequest) : FileService FS P * FileService FS P * list (Output P) :=
  let (target, out) := execute_outcome mounted_provider target
                         (adapter_range_request (transfers target) a request) in
  let (source, answer) := serve fs source receiver (sent out) in
  let (target, out) := receive target sender answer in
  (source, target, out).

(** The answers to the plugin. *)
Definition answers (out : list (Output P)) : list (rstring * RangeResponse) :=
  omap (fun o => match o with Command (CommandRangeResponse id m) => Some (id, m) | _ => None end) out.

(** The loop of a reader: ranges of the largest size, one after another. *)
Fixpoint paste (rounds : nat) (fs : FS) (source target : FileService FS P) (sender receiver : P)
    (a x : rstring) (file_id size offset request_id : Z)
    : FileService FS P * FileService FS P * list (rstring * RangeResponse) :=
  match rounds with
  | O => (source, target, [])
  | S rounds =>
      if size <=? offset then (source, target, [])
      else
        let length := Z.min (size - offset) MAX_CLIPBOARD_FILE_CHUNK_SIZE in
        let '(source, target, out) := exchange fs source target sender receiver a
          {| rq_transfer_id := x; rq_request_id := request_id; rq_entry_id := file_id;
             rq_offset := offset; rq_length := length |} in
        let '(source, target, more) := paste rounds fs source target sender receiver a x file_id size
                                         (offset + length) (request_id + 1) in
        (source, target, answers out ++ more)
  end.

(** ** Ready daemons *)

Section ready.
Variables (fs : FS) (path : rstring) (ident : SourceIdentity) (content : bytes).
Variables (file_id : Z) (o : TransferOwner P).

(** The daemon of the disk offers the file and has nothing open for it. *)
Definition offers s : Prop :=
  exists t e, local (transfers s) !! o = Some t
  /\ file_of (o_entries (l_offer t)) file_id = Some e
  /\ entry_kind e = ClipboardEntryKind.File /\ entry_size e = len content
  /\ o_sources (l_offer t) !! file_id = Some (path, ident)
  /\ forall r, source_pending (transfers s) !! (o, file_id, r) = None
               /\ l_outgoing t !! (file_id, r) = None.

(** The other daemon has published it to the plugin process [a], of plugin
    [plugin], as transfer [x], and awaits nothing. *)
Definition published (a x plugin : rstring) s : Prop :=
  exists t e, remote (transfers s) !! o = Some t
  /\ t_adapter_id t = a /\ t_adapter_transfer_id t = x
  /\ adapter_to_owner (transfers s) !! (a, x) = Some {[o]}
  /\ t_entries t !! file_id = Some e
  /\ entry_kind e = ClipboardEntryKind.File /\ entry_size e = len content
  /\ (forall r, pending (transfers s) !! (o, file_id, r) = None)
  /\ transfer_providers s !! x = Some plugin /\ has_manager s = true.

(** ** The sender *)

Hypothesis file : serves fs path ident content.
Hypothesis content_bound : len content <= MAX_CLIPBOARD_SIZE.

Lemma validate_range_good size offset length :
  good_range size offset length -> size <= MAX_CLIPBOARD_SIZE ->
  validate_range (P := P) size offset length = Ok tt.
Proof.
  intros (Ho & Hl & He) Hs. unfold validate_range, checked_add.
  destruct (Z.eqb_spec length 0); [lia|].
  destruct (Z.ltb_spec MAX_CLIPBOARD_FILE_CHUNK_SIZE length); [lia|]. cbn [orb].
  destruct (Z.leb_spec (offset + length) u64_max); cbn [ok_or].
  2: { unfold u64_max in *. limits. lia. }
  destruct (Z.ltb_spec size offset); [lia|]. by destruct (Z.ltb_spec size (offset + length)); [lia|].
Qed.

(** Reading a range of the offered file. *)
Lemma read_source_ok offer e offset n :
  file_of (o_entries offer) file_id = Some e -> entry_kind e = ClipboardEntryKind.File ->
  entry_size e = len content -> o_sources offer !! file_id = Some (path, ident) ->
  good_range (len content) offset n ->
  exists out, read_source fs offer file_id offset n
    = Ok (out, Some (offset, slice content offset n),
          if offset + n =? len content then Some (sha256_of (slice content offset n)) else None)
  /\ of_file_id out = file_id.
Proof.
  intros Hf Hk Hs Hsrc (Hoff & Hn & Hend). unfold read_source.
  destruct (open_reads fs path ident content file offer file_id e offset Hf Hk Hs Hsrc ltac:(lia))
    as (out & Ho & Hr & Eo & Es & Ei & Ec & _). rewrite Ho.
  destruct (next_chunk_reads fs path ident content file out n Hr Es Ec) as (out' & Hc & _ & Eo' & Es' & Ei' & _).
  { lia. } { unfold u64_max. limits. lia. } { limits. lia. }
  rewrite Eo in *. rewrite (Z.min_r (len content - offset) n) in Hc, Eo' by lia. rewrite Hc.
  exists out'. split; [|congruence]. unfold is_eof. rewrite Eo', Es', Es. done.
Qed.

(** The result of the read is sent, and the handle and reservation go. *)
Lemma source_result_ok s t r offset n data digest out :
  len data = n ->
  local (transfers s) !! o = Some t ->
  source_pending (transfers s) !! (o, file_id, r) = Some (offset, n) ->
  l_outgoing t !! (file_id, r) = None -> of_file_id out = file_id ->
  0 < n <= MAX_CLIPBOARD_FILE_CHUNK_SIZE ->
  exists s' t', handle_source_result mounted_provider s
    {| sr_owner := o; sr_file_id := file_id; sr_request_id := r; sr_offset := offset;
       sr_length := n; sr_result := Ok (out, Some (offset, data), digest) |}
    = (s', SendProto (peer o) (ProtoEvent.ClipboardFileChunk (wire_id o) file_id r offset data)
           :: match digest with
              | Some d => [SendProto (peer o)
                  (ProtoEvent.ClipboardFileComplete (wire_id o) file_id r (offset + n) d)]
              | None => []
              end)
  /\ local (transfers s') !! o = Some t' /\ l_offer t' = l_offer t
  /\ l_outgoing t' = l_outgoing t
  /\ source_pending (transfers s') = delete (o, file_id, r) (source_pending (transfers s)).
Proof.
  intros <- Ht Hres Hout Hid Hlen. unfold handle_source_result. cbn [sr_owner sr_file_id sr_request_id
    sr_offset sr_length sr_result].
  unfold insert_outgoing_file. rewrite Ht. cbn [ok_or]. rewrite Hid, Z.eqb_refl. cbn [negb].
  rewrite Hout, bool_decide_eq_false_2 by (by intros [? ?]). rewrite Hres. cbn [ok_or].
  rewrite bool_decide_eq_true_2 by done. cbn [negb].
  set (t1 := set_outgoing _ t). set (st1 := set_local _ _).
  assert (local st1 !! o = Some t1) as Ht1 by apply lookup_insert_eq.
  assert (l_outgoing t1 !! (file_id, r) = Some out) as Ho1 by apply lookup_insert_eq.
  unfold source_chunk. rewrite Ht1. cbn [ok_or]. rewrite Ho1. cbn [ok_or].
  change (source_pending st1) with (source_pending (transfers s)). rewrite Hres. cbn [ok_or].
  rewrite Z.eqb_refl. destruct (Z.ltb_spec (len data) (len data)); [lia|].
  destruct (Z.eqb_spec (len data) 0); [lia|].
  destruct (Z.ltb_spec MAX_CLIPBOARD_FILE_CHUNK_SIZE (len data)); [lia|]. cbn [negb orb].
  assert (delete (file_id, r) (l_outgoing t1) = l_outgoing t) as Hdel by (by apply delete_insert_id).
  destruct digest as [d|]; cbn [execute_transfer_actions execute_action].
  - unfold execute_outcome. cbn [transfers set_transfers]. unfold source_complete. rewrite Ht1, Ho1.
    set (t2 := set_outgoing _ t1). unfold source_range_served. cbn.
    rewrite lookup_insert_eq. cbn. do 2 eexists. split; [done|]. cbn.
    rewrite lookup_insert_eq. split; [done|]. cbn. split; [done|].
    rewrite !delete_delete_eq. by split.
  - unfold source_range_served. cbn [transfers set_transfers]. rewrite Ht1. cbn.
    do 2 eexists. split; [done|]. cbn. rewrite lookup_insert_eq. split; [done|]. cbn.
    split; [done|]. by split.
Qed.

Lemma serve_request s r offset n :
  offers s -> good_range (len content) offset n ->
  exists s', serve fs s (peer o) [ProtoEvent.ClipboardFileRequest (wire_id o) file_id r offset n]
    = (s', ProtoEvent.ClipboardFileChunk (wire_id o) file_id r offset (slice content offset n)
           :: (if offset + n =? len content
               then [ProtoEvent.ClipboardFileComplete (wire_id o) file_id r (len content)
                       (sha256_of (slice content offset n))]
               else []))
  /\ offers s'.
Proof.
  intros (t & e & Ht & Hf & Hk & Hs & Hsrc & Hfree) Hg. destruct (Hfree r) as [Hres Hout].
  destruct (read_source_ok (l_offer t) e offset n Hf Hk Hs Hsrc Hg) as (out & Hread & Hid).
  destruct Hg as (Hoff & Hn & Hend).
  assert (len (slice content offset n) = n) as Hlen by (apply len_slice; lia).
  assert (source_file_request (transfers s) (peer o) (wire_id o) file_id r offset n
    = (announce_local (set_source_pending (<[(o, file_id, r) := (offset, n)]> (source_pending (transfers s)))
         (transfers s)) o, Ok [ReadSource o file_id r offset n (l_offer t)])) as Hreq.
  { unfold source_file_request. destruct o as [p w]. cbn [peer wire_id]. rewrite Ht. cbn [ok_or].
    unfold file_of in Hf. rewrite Hf. cbn [ok_or]. rewrite bool_decide_eq_true_2 by done. cbn [negb].
    rewrite Hs, validate_range_good by (done || lia).
    rewrite Hres, bool_decide_eq_false_2 by (by intros [? ?]). done. }
  cbn [serve handle_file_protocol handle_protocol]. unfold execute_outcome at 1. rewrite Hreq.
  unfold announce_local. cbn [local set_source_pending]. rewrite Ht.
  cbn [execute_transfer_actions execute_action app serve_reads]. rewrite Hread.
  set (s1 := set_transfers _ s).
  destruct (source_result_ok s1 (set_local_announced t) r offset n (slice content offset n)
    (if offset + n =? len content then Some (sha256_of (slice content offset n)) else None) out)
    as (s' & t' & Hres' & Ht' & Eoff & Eout & Epend); try done;
    [apply lookup_insert_eq | apply lookup_insert_eq |].
  rewrite Hres'. exists s'. split.
  - by destruct (Z.eqb_spec (offset + n) (len content)) as [->|].
  - exists t', e. rewrite Eoff, Eout, Epend. split_and!; try done. intros r'. split; [|apply Hfree].
    cbn. rewrite lookup_delete_None. destruct (decide (r' = r)) as [->|]; [by left|]. right.
    rewrite lookup_insert_ne by congruence. apply Hfree.
Qed.

(** ** The receiver *)

Variables (a x plugin : rstring).

Definition range_of (r offset n : Z) : PendingRange P :=
  {| p_key := {| k_owner := o; k_file_id := file_id; k_request_id := r; k_offset := offset;
                 k_length := n |};
     p_validator := {| v_transfer_id := wire_id o; v_file_id := file_id; v_request_id := r;
                       v_offset := offset; v_length := n; v_chunk_received := false;
                       v_chunk_end := None; v_eof := false; v_complete := false |};
     p_received := 0; p_hasher := []; p_chunk := [] |}.

(** The receiver after the request: one range awaited. *)
Definition awaiting (r : Z) (p : PendingRange P) s : Prop :=
  exists t e, remote (transfers s) !! o = Some t
  /\ t_adapter_id t = a /\ t_adapter_transfer_id t = x
  /\ adapter_to_owner (transfers s) !! (a, x) = Some {[o]}
  /\ t_entries t !! file_id = Some e
  /\ entry_kind e = ClipboardEntryKind.File /\ entry_size e = len content
  /\ pending (transfers s) !! (o, file_id, r) = Some p
  /\ (forall r', r' <> r -> pending (transfers s) !! (o, file_id, r') = None)
  /\ transfer_providers s !! x = Some plugin /\ has_manager s = true.

Lemma owners_for_singleton st :
  adapter_to_owner st !! (a, x) = Some {[o]} -> owners_for_adapter (FS := FS) st a x = [o].
Proof.
  intros E. unfold owners_for_adapter. rewrite E, elements_singleton.
  apply Permutation_singleton_r, hash_order_perm.
Qed.

Lemma new_validator w r offset n :
  good_range (len content) offset n -> r <> 0 -> file_id <> 0 ->
  ChunkValidator.new w file_id r offset n
  = Ok {| v_transfer_id := w; v_file_id := file_id; v_request_id := r; v_offset := offset;
          v_length := n; v_chunk_received := false; v_chunk_end := None; v_eof := false;
          v_complete := false |}.
Proof.
  intros (Ho & Hn & He) Hr Hf. unfold ChunkValidator.new, validate_request, validate_file_position, checked_add.
  destruct (Z.eqb_spec file_id 0); [done|].
  destruct (Z.ltb_spec MAX_CLIPBOARD_SIZE offset); [lia|]. destruct (Z.eqb_spec n 0); [lia|].
  destruct (Z.ltb_spec MAX_CLIPBOARD_FILE_CHUNK_SIZE n); [lia|]. cbn [orb].
  destruct (Z.leb_spec (offset + n) u64_max); cbn [ok_or].
  2: { unfold u64_max in *. limits. lia. }
  destruct (Z.ltb_spec MAX_CLIPBOARD_SIZE (offset + n)); [lia|]. by destruct (Z.eqb_spec r 0).
Qed.

Lemma request_ok s r offset n :
  published a x plugin s -> good_range (len content) offset n -> r <> 0 -> file_id <> 0 ->
  exists s', execute_outcome mounted_provider s
    (adapter_range_request (transfers s) a
       {| rq_transfer_id := x; rq_request_id := r; rq_entry_id := file_id; rq_offset := offset;
          rq_length := n |})
    = (s', [SendProto (peer o) (ProtoEvent.ClipboardFileRequest (wire_id o) file_id r offset n)])
  /\ awaiting r (range_of r offset n) s'.
Proof.
  intros (t & e & Ht & Ha & Hx & Hao & He & Hk & Hs & Hp & Hprov & Hm) Hg Hr Hf.
  unfold adapter_range_request, remote_of_adapter. cbn [rq_transfer_id rq_request_id rq_entry_id rq_offset rq_length].
  rewrite (owners_for_singleton _ Hao). cbn [head ok_or]. rewrite Ht. cbn [ok_or].
  rewrite Ha, Hx, !bool_decide_eq_true_2 by done. cbn [negb orb]. rewrite He. cbn [ok_or].
  rewrite bool_decide_eq_true_2 by done. cbn [negb]. rewrite Hs, validate_range_good by (done || lia).
  rewrite Hp, bool_decide_eq_false_2 by (by intros [? ?]). rewrite new_validator by done.
  cbn [protocol]. unfold announce_remote. cbn [remote set_pending]. rewrite Ht.
  unfold execute_outcome. cbn [execute_transfer_actions execute_action app].
  eexists. split; [done|]. exists (set_remote_announced t), e. cbn.
  rewrite !lookup_insert_eq. split_and!; try done. intros r' Hne.
  rewrite lookup_insert_ne by congruence. apply Hp.
Qed.

(** The chunk that was asked for, whole. *)
Lemma good_chunk r offset n (data : bytes) :
  good_range (len content) offset n -> len data = n ->
  ChunkValidator.validate_chunk (p_validator (range_of r offset n)) (wire_id o) file_id r offset (len data)
  = Ok {| v_transfer_id := wire_id o; v_file_id := file_id; v_request_id := r; v_offset := offset;
          v_length := n; v_chunk_received := true; v_chunk_end := Some (offset + n);
          v_eof := false; v_complete := false |}.
Proof.
  intros (Ho & Hn & He) <-.
  unfold ChunkValidator.validate_chunk, ChunkValidator.same_identity, validate_file_chunk,
    validate_file_position, checked_add. cbn. rewrite !Z.eqb_refl. cbn.
  destruct (Z.eqb_spec (len data) 0); [lia|].
  destruct (Z.ltb_spec MAX_CLIPBOARD_FILE_CHUNK_SIZE (len data)); [lia|].
  destruct (Z.ltb_spec MAX_CLIPBOARD_SIZE offset); [lia|].
  destruct (Z.leb_spec (offset + len data) u64_max); cbn.
  2: { unfold u64_max in *. limits. lia. }
  destruct (Z.ltb_spec MAX_CLIPBOARD_SIZE (offset + len data)); [lia|].
  by rewrite Z.ltb_irrefl.
Qed.

(** The answer to the plugin for a range. *)
Definition answer_for (r offset : Z) (data : bytes) (eof : bool) : rstring * RangeResponse :=
  (plugin, {| rr_transfer_id := x; rr_request_id := r; rr_offset := offset;
              rr_data_base64 := base64_encode data; rr_eof := eof; rr_error := None |}).

Lemma receive_middle s r offset n (data : bytes) :
  awaiting r (range_of r offset n) s -> good_range (len content) offset n -> len data = n ->
  offset + n <> len content ->
  exists s' out, handle_file_protocol mounted_provider s (peer o)
      (ProtoEvent.ClipboardFileChunk (wire_id o) file_id r offset data) = (s', out)
  /\ answers out = [answer_for r offset data false] /\ published a x plugin s'.
Proof.
  intros (t & e & Ht & Ha & Hx & Hao & He & Hk & Hs & Hp & Hothers & Hprov & Hm) Hg Hlen Hne.
  cbn [handle_file_protocol handle_protocol]. unfold inbound_chunk.
  assert (Build_TransferOwner (peer o) (wire_id o) = o) as Eo by (by destruct o). rewrite Eo.
  rewrite Hp. cbn [ok_or]. rewrite (good_chunk r offset n data Hg Hlen). cbn [protocol remote set_pending].
  rewrite Ht. cbn [ok_or]. rewrite He. cbn [ok_or]. unfold checked_add.
  destruct Hg as (Ho & Hn & Hend).
  destruct (Z.leb_spec (offset + len data) u64_max); [|unfold u64_max in *; limits; lia]. cbn [ok_or].
  rewrite Hs, Hlen. destruct (Z.eqb_spec (offset + n) (len content)); [done|].
  cbn [p_key range_of k_length]. rewrite Z.eqb_refl. cbn [negb].
  unfold execute_outcome, range_response. cbn [execute_transfer_actions execute_action transfer_providers set_transfers].
  cbn [rr_transfer_id]. rewrite Hx, Hprov. unfold send_command. cbn [has_manager set_transfers]. rewrite Hm.
  cbn. do 2 eexists. split; [done|]. split; [done|].
  exists t, e. cbn. split_and!; try done. intros r'. rewrite lookup_delete_None.
  destruct (decide (r' = r)) as [->|]; [by left|]. right.
  rewrite lookup_insert_ne by congruence. by apply Hothers.
Qed.

Lemma receive_last s r offset n (data : bytes) :
  awaiting r (range_of r offset n) s -> good_range (len content) offset n -> len data = n ->
  offset + n = len content ->
  exists s' out, receive s (peer o)
      [ProtoEvent.ClipboardFileChunk (wire_id o) file_id r offset data;
       ProtoEvent.ClipboardFileComplete (wire_id o) file_id r (len content) (sha256_of data)] = (s', out)
  /\ answers out = [answer_for r offset data true] /\ published a x plugin s'.
Proof.
  intros (t & e & Ht & Ha & Hx & Hao & He & Hk & Hs & Hp & Hothers & Hprov & Hm) Hg Hlen Heq.
  assert (Build_TransferOwner (peer o) (wire_id o) = o) as Eo by (by destruct o).
  cbn [receive handle_file_protocol handle_protocol]. unfold inbound_chunk. rewrite Eo.
  rewrite Hp. cbn [ok_or]. rewrite (good_chunk r offset n data Hg Hlen). cbn [protocol remote set_pending].
  rewrite Ht. cbn [ok_or]. rewrite He. cbn [ok_or]. unfold checked_add at 1.
  destruct Hg as (Ho & Hn & Hend).
  destruct (Z.leb_spec (offset + len data) u64_max); [|unfold u64_max in *; limits; lia]. cbn [ok_or].
  rewrite Hs, Hlen, Heq, Z.eqb_refl.
  unfold execute_outcome at 1. cbn [execute_transfer_actions execute_action notify_transfer_frontend app].
  unfold inbound_complete. rewrite Eo. cbn [transfers set_transfers set_shown remote set_pending pending].
  rewrite Ht. cbn [mbind option_bind]. rewrite He. cbn [ok_or]. rewrite lookup_insert_eq.
  cbn [ok_or p_key p_received p_hasher range_of k_offset app].
  unfold checked_add. rewrite Heq. destruct (Z.leb_spec (len content) u64_max); [|unfold u64_max in *; limits; lia].
  cbn [ok_or]. destruct (Z.eqb_spec n 0); [lia|]. rewrite Hs, !Z.eqb_refl. cbn [orb negb].
  rewrite bool_decide_eq_true_2 by done. cbn [negb p_key k_owner k_offset p_chunk p_received].
  rewrite Ht, He.
  unfold execute_outcome, range_response. cbn [execute_transfer_actions execute_action transfer_providers set_transfers set_shown].
  cbn [rr_transfer_id]. rewrite Hx, Hprov. unfold send_command. cbn [has_manager set_transfers set_shown]. rewrite Hm.
  cbn. do 2 eexists. split; [done|]. split; [done|].
  exists t, e. cbn. split_and!; try done. intros r'. rewrite lookup_delete_None.
  destruct (decide (r' = r)) as [->|]; [by left|]. right.
  rewrite lookup_insert_ne by congruence. by apply Hothers.
Qed.
End ready.

(** ** A range, and the whole file *)

Section whole.
Variables (fs : FS) (path : rstring) (ident : SourceIdentity) (content : bytes).
Variables (file_id w : Z) (sender receiver : P) (a x plugin : rstring).
Hypothesis file : serves fs path ident content.
Hypothesis content_bound : len content <= MAX_CLIPBOARD_SIZE.
Hypothesis file_id_set : file_id <> 0.

Abbreviation source_ready :=
  (offers path ident content file_id (Build_TransferOwner receiver w)).
Abbreviation target_ready :=
  (published content file_id (Build_TransferOwner sender w) a x plugin).

Lemma exchange_ok source target r offset n :
  source_ready source -> target_ready target -> good_range (len content) offset n -> r <> 0 ->
  exists source' target' out,
    exchange fs source target sender receiver a
      {| rq_transfer_id := x; rq_request_id := r; rq_entry_id := file_id; rq_offset := offset;
         rq_length := n |} = (source', target', out)
    /\ answers out = [answer_for x plugin r offset (slice content offset n) (offset + n =? len content)]
    /\ source_ready source' /\ target_ready target'.
Proof.
  intros Hs Ht Hg Hr. unfold exchange.
  destruct (request_ok content file_id (Build_TransferOwner sender w) content_bound a x plugin
    target r offset n Ht Hg Hr file_id_set) as (target1 & -> & Hw).
  cbn [sent omap list_omap peer wire_id].
  destruct (serve_request fs path ident content file_id (Build_TransferOwner receiver w) file content_bound
    source r offset n Hs Hg) as (source' & Hserve & Hs').
  cbn [peer wire_id] in Hserve. rewrite Hserve.
  assert (len (slice content offset n) = n) as Hlen.
  { destruct Hg as (? & ? & ?). apply len_slice; lia. }
  destruct (Z.eqb_spec (offset + n) (len content)) as [Eq|Ne].
  - destruct (receive_last content file_id (Build_TransferOwner sender w) content_bound a x plugin
      target1 r offset n _ Hw Hg Hlen Eq) as (target' & out & Hrec & Ha & Ht').
    cbn [peer wire_id] in Hrec. rewrite Hrec. by exists source', target', out.
  - destruct (receive_middle content file_id (Build_TransferOwner sender w) content_bound a x plugin
      target1 r offset n _ Hw Hg Hlen Ne) as (target' & out & Hrec & Ha & Ht').
    cbn [receive]. cbn [peer wire_id] in Hrec. rewrite Hrec.
    exists source', target', (out ++ []). rewrite app_nil_r. by split_and!.
Qed.

(** The ranges of a file from [offset], each with its bytes. *)
Fixpoint ranges (rounds : nat) (offset r : Z) : list (rstring * RangeResponse) :=
  match rounds with
  | O => []
  | S rounds =>
      if len content <=? offset then []
      else
        let n := Z.min (len content - offset) MAX_CLIPBOARD_FILE_CHUNK_SIZE in
        answer_for x plugin r offset (slice content offset n) (offset + n =? len content)
        :: ranges rounds (offset + n) (r + 1)
  end.

Lemma paste_ok rounds source target offset r :
  source_ready source -> target_ready target -> 0 <= offset -> 0 < r ->
  exists source' target',
    paste rounds fs source target sender receiver a x file_id (len content) offset r
    = (source', target', ranges rounds offset r)
    /\ source_ready source' /\ target_ready target'.
Proof.
  revert source target offset r. induction rounds as [|rounds IH]; intros source target offset r Hs Ht Ho Hr.
  { by exists source, target. }
  cbn [paste ranges]. destruct (Z.leb_spec (len content) offset); [by exists source, target|].
  set (n := Z.min _ _).
  assert (good_range (len content) offset n) as Hg by (unfold good_range, n; limits; lia).
  destruct (exchange_ok source target r offset n Hs Ht Hg ltac:(lia))
    as (source1 & target1 & out & -> & Ha & Hs1 & Ht1).
  destruct (IH source1 target1 (offset + n) (r + 1) Hs1 Ht1) as (source' & target' & -> & Hs' & Ht');
    [destruct Hg; lia | lia |].
  exists source', target'. rewrite Ha. by split_and!.
Qed.

(** The pieces of the file from [offset]. *)
Lemma ranges_cover rounds offset r :
  0 <= offset <= len content -> len content - offset <= Z.of_nat rounds ->
  exists pieces,
    rr_data_base64 ∘ snd <$> ranges rounds offset r = base64_encode <$> pieces
    /\ mjoin pieces = slice content offset (len content - offset)
    /\ Forall (fun m => fst m = plugin /\ rr_transfer_id (snd m) = x /\ rr_error (snd m) = None)
         (ranges rounds offset r)
    /\ rr_eof ∘ snd <$> ranges rounds offset r
       = if len content <=? offset then [] else replicate (pred (length pieces)) false ++ [true].
Proof.
  revert offset r. induction rounds as [|rounds IH]; intros offset r Ho Hr; cbn [ranges].
  { exists []. replace (len content - offset) with 0 by lia.
    destruct (Z.leb_spec (len content) offset); [done | lia]. }
  destruct (Z.leb_spec (len content) offset) as [Hle|Hlt].
  { exists []. by replace (len content - offset) with 0 by lia. }
  set (n := Z.min _ _). assert (0 < n <= len content - offset) as Hn by (unfold n; limits; lia).
  destruct (IH (offset + n) (r + 1)) as (pieces & Hd & Hj & Hf & He); [lia | lia |].
  exists (slice content offset n :: pieces). split_and!.
  - cbn. by rewrite Hd.
  - change (slice content offset n ++ mjoin pieces = slice content offset (len content - offset)).
    rewrite Hj, slice_app by lia. f_equal. lia.
  - constructor; [done | exact Hf].
  - cbn. rewrite He. destruct (Z.eqb_spec (offset + n) (len content)) as [Eq|Ne].
    + rewrite Eq in *. rewrite Z.leb_refl in *.
      assert (ranges rounds (len content) (r + 1) = []) as E0.
      { destruct rounds; cbn; [done|]. by rewrite Z.leb_refl. }
      rewrite E0 in Hd. by destruct pieces.
    + destruct (Z.leb_spec (len content) (offset + n)); [lia|].
      destruct pieces as [|piece pieces]; [|done]. exfalso.
      apply (f_equal len) in Hj. rewrite len_slice in Hj by lia. unfold len in *. cbn in Hj. lia.
Qed.
End whole.
End paste.

(** C30: a paste delivers the file.  One daemon offers a file whose content does
    not change on its disk; another has published the offer to a plugin.  When
    the plugin reads the file range by range (with the largest ranges the wire
    takes), each request passes to the first daemon, is read from disk (in reads
    as short as the system likes), is sent back and is answered; the reading
    ends, the answers joined in order are the content of the file, only the last
    one is marked as its end, none carries an error, and both daemons are back
    where they were: no range is awaited or reserved and no file is kept open. *)
Theorem paste_delivers_the_file {FS P : Type} `{!Os FS} `{!Sha256} `{!HashOrder} `{!Base64}
    `{Countable P} (mounted_provider : RemoteManifest -> Provider)
    (fs : FS) (path : rstring) (ident : SourceIdentity) (content : bytes)
    (source target : FileService FS P) (sender receiver : P) (a x plugin : rstring)
    (file_id w : Z) (rounds : nat) :
  serves fs path ident content -> len content <= MAX_CLIPBOARD_SIZE -> file_id <> 0 ->
  offers path ident content file_id (Build_TransferOwner receiver w) source ->
  published content file_id (Build_TransferOwner sender w) a x plugin target ->
  len content <= Z.of_nat rounds ->
  exists source' target' out pieces,
    paste mounted_provider rounds fs source target sender receiver a x file_id (len content) 0 1
    = (source', target', out)
    /\ mjoin pieces = content
    /\ rr_data_base64 ∘ snd <$> out = base64_encode <$> pieces
    /\ Forall (fun m => fst m = plugin /\ rr_transfer_id (snd m) = x /\ rr_error (snd m) = None) out
    /\ rr_eof ∘ snd <$> out
       = (if len content =? 0 then [] else replicate (pred (length pieces)) false ++ [true])
    /\ offers path ident content file_id (Build_TransferOwner receiver w) source'
    /\ published content file_id (Build_TransferOwner sender w) a x plugin target'.
Proof.
  intros file Hb Hf Hs Ht Hrounds. pose proof (len_nonneg content).
  destruct (paste_ok mounted_provider fs path ident content file_id w sender receiver a x plugin file Hb Hf
    rounds source target 0 1 Hs Ht ltac:(lia) ltac:(lia)) as (source' & target' & Hp & Hs' & Ht').
  destruct (ranges_cover content x plugin rounds 0 1) as (pieces & Hd & Hj & Hall & He); [lia | lia |].
  exists source', target', (ranges content x plugin rounds 0 1), pieces. split_and!; try done.
  - rewrite Hj. unfold slice. rewrite Z.sub_0_r, drop_0. apply take_ge. unfold len. lia.
  - rewrite He. destruct (Z.leb_spec (len content) 0), (Z.eqb_spec (len content) 0); try done; lia.
Qed.

(** ** An example *)

#[local] Existing Instance list_order.
#[local] Existing Instance identity_base64.

Definition sample_content : bytes := [1; 2; 3; 4; 5].
Definition sample_disk : ram := {[str "/f" := FileNode sample_content]}.
Definition sample_ident : SourceIdentity :=
  from_metadata (node_metadata (str "/f") (FileNode sample_content)).

Definition sample_source : FileService ram Z :=
  Build_FileService
    (fst (local_copy_manifest new 2 9 (str "clipboard")
            {| cm_transfer_id := str "copy-1"; cm_operation := Operation.Copy; cm_entries := [] |}
            {| o_transfer_id := 9; o_entries := [sample_entry 5];
               o_sources := {[1 := (str "/f", sample_ident)]} |}))
    0 9 ∅ ∅ ∅ true false.
Definition sample_target : FileService ram Z :=
  Build_FileService
    (fst (inbound_manifest new 1 (str "9") (str "9") 9 Operation.Copy [sample_entry 5]))
    0 0 ∅ ∅ {[str "9" := str "fuse"]} true false.

Lemma sample_offers : offers (str "/f") sample_ident sample_content 1 (Build_TransferOwner 2 9) sample_source.
Proof. do 2 eexists. split; [reflexivity|]. by split_and!. Qed.

Lemma sample_published :
  published sample_content 1 (Build_TransferOwner 1 9) (str "9") (str "9") (str "fuse") sample_target.
Proof. do 2 eexists. split; [reflexivity|]. by split_and!. Qed.

Lemma paste_delivers_the_file_witness :
  exists source target out pieces,
    paste (fun _ => NoProvider) 5 sample_disk sample_source sample_target 1 2 (str "9") (str "9") 1
      (len sample_content) 0 1 = (source, target, out)
    /\ rr_data_base64 ∘ snd <$> out = pieces /\ mjoin pieces = sample_content.
Proof.
  destruct (paste_delivers_the_file (fun _ => NoProvider) sample_disk (str "/f") sample_ident sample_content
    sample_source sample_target 1 2 (str "9") (str "9") (str "fuse") 1 9 5
    (ram_serves sample_disk (str "/f") sample_content eq_refl)
    ltac:(vm_compute; discriminate) ltac:(lia) sample_offers sample_published
    ltac:(vm_compute; discriminate))
    as (source & target & out & pieces & Hp & Hj & Hd & _).
  exists source, target, out, pieces. split; [exact Hp|]. split; [|exact Hj].
  rewrite Hd. apply list_fmap_id.
Defined.
