(* ===== verification/Layout.v ===== *)
(** * Screen layout

    [crates/syntra-api/src/layout.rs]: the monitors of all devices on one plane,
    the crossings where monitors of different devices touch, the check of a
    layout and the snapping of a dragged monitor.

    Coordinates are [i64] and every sum or difference of them is an [i64]: one
    that does not fit panics in a build with overflow checks ([None]) and wraps
    around in one without.  A fraction of an edge is an [f64], and every
    operation on it rounds. *)

From Stdlib Require Import QArith Qabs Qpower Lqa.
From stdpp Require Import sorting.
From S2P Require Import Prelude.
Open Scope Z_scope.

(** ** Binary64

    An [f64] is the rational it stands for, an infinity or not a number.  The
    two zeros are one value: they compare equal, and only a division by zero
    tells them apart, which no division of a crossing is. *)

Module F64.
Inductive t :=
| Finite (q : Q)
| Infinity (negative : bool)
| NaN.

(** The integer nearest to a rational; of two, the even one. *)
Definition nearest (y : Q) : Z :=
  let a := Qnum y in
  let b := Z.pos (Qden y) in
  match 2 * (a mod b) ?= b with
  | Lt => a / b
  | Gt => a / b + 1
  | Eq => if Z.even (a / b) then a / b else a / b + 1
  end.

(** The exponent of the power of two at or below a positive rational. *)
Definition exponent (x : Q) : Z :=
  let e := Z.log2 (Qnum x) - Z.log2 (Z.pos (Qden x)) in
  if Qle_bool ((2 # 1) ^ e) x then e else e - 1.

(** Where the last of the 53 bits of a number of size [x] stands; subnormal
    numbers have fewer. *)
Definition ulp (x : Q) : Z := Z.max (exponent x - 52) (-1074).

(** The double nearest to a rational, its last bit even if there are two. *)
Definition round (q : Q) : t :=
  if Qeq_bool q 0 then Finite 0
  else
    let u := ulp (Qabs q) in
    let m := nearest (q * (2 # 1) ^ (- u)) in
    let v := Qred (inject_Z m * (2 # 1) ^ u) in
    if Qle_bool ((2 # 1) ^ 1024) (Qabs v) then Infinity (Qle_bool q 0) else Finite v.

(** An integer [as f64]. *)
Definition of_Z (n : Z) : t := round (inject_Z n).

Definition opp (x : t) : t :=
  match x with Finite q => Finite (- q) | Infinity s => Infinity (negb s) | NaN => NaN end.

Definition add (x y : t) : t :=
  match x, y with
  | Finite p, Finite q => round (p + q)
  | Infinity s, Infinity r => if eqb s r then Infinity s else NaN
  | Infinity s, Finite _ | Finite _, Infinity s => Infinity s
  | NaN, _ | _, NaN => NaN
  end.

Definition sub (x y : t) : t := add x (opp y).

Definition mul (x y : t) : t :=
  match x, y with
  | Finite p, Finite q => round (p * q)
  | Infinity s, Infinity r => Infinity (xorb s r)
  | Infinity s, Finite q | Finite q, Infinity s =>
      if Qeq_bool q 0 then NaN else Infinity (xorb s (Qle_bool q 0))
  | NaN, _ | _, NaN => NaN
  end.

Definition div (x y : t) : t :=
  match x, y with
  | Finite p, Finite q =>
      if Qeq_bool q 0 then if Qeq_bool p 0 then NaN else Infinity (Qle_bool p 0)
      else round (p / q)
  | Infinity s, Finite q => Infinity (xorb s (negb (Qle_bool 0 q)))
  | Finite _, Infinity _ => Finite 0
  | Infinity _, Infinity _ => NaN
  | NaN, _ | _, NaN => NaN
  end.

Definition le (x y : t) : bool :=
  match x, y with
  | Finite p, Finite q => Qle_bool p q
  | Infinity s, Infinity r => s || negb r
  | Infinity s, Finite _ => s
  | Finite _, Infinity r => negb r
  | NaN, _ | _, NaN => false
  end.
End F64.

(** ** Signed integers of 64 bits *)

Definition is_i64 (n : Z) : bool := (- 2 ^ 63 <=? n) && (n <? 2 ^ 63).
Definition wrap_i64 (n : Z) : Z := (n + 2 ^ 63) mod 2 ^ 64 - 2 ^ 63.

Definition TOUCH_TOLERANCE : Z := 2.

Record Monitor := {
  m_device : rstring;
  m_id : rstring;
  m_x : Z;
  m_y : Z;
  m_width : Z;
  m_height : Z;
}.

Module Edge.
Inductive t := Left | Right | Top | Bottom.
#[global] Instance t_eq_dec : EqDecision t.
Proof. solve_decision. Defined.

Definition opposite (e : t) : t :=
  match e with Left => Right | Right => Left | Top => Bottom | Bottom => Top end.
End Edge.

Record MonitorRef := { ref_device : rstring; ref_id : rstring }.
Definition to_ref (m : Monitor) : MonitorRef := {| ref_device := m_device m; ref_id := m_id m |}.

Record Crossing := {
  c_from : MonitorRef;
  c_edge : Edge.t;
  c_from_span : F64.t * F64.t;
  c_to : MonitorRef;
  c_to_span : F64.t * F64.t;
}.

(** ** Crossings *)

(** [Crossing::map] *)
Definition map_along (c : Crossing) (along : F64.t) : option F64.t :=
  let (start, end_) := c_from_span c in
  if negb (F64.le start along && F64.le along end_) || F64.le end_ start then None
  else
    let t := F64.div (F64.sub along start) (F64.sub end_ start) in
    let (to_start, to_end) := c_to_span c in
    Some (F64.add to_start (F64.mul t (F64.sub to_end to_start))).

(** Origin and length of a monitor along an edge. *)
Definition along_edge (e : Edge.t) (m : Monitor) : Z * Z :=
  match e with
  | Edge.Left | Edge.Right => (m_y m, m_height m)
  | Edge.Top | Edge.Bottom => (m_x m, m_width m)
  end.

(** ** The functions that compute with places

    [checks] tells whether the build checks for overflow; [None] is the panic of
    one that does. *)

Section Places.
Context (checks : bool).

(** The result of an operation on [i64] whose exact value is [n]. *)
Definition i64 (n : Z) : option Z :=
  if is_i64 n then Some n else if checks then None else Some (wrap_i64 n).

Definition right (m : Monitor) : option Z := i64 (m_x m + m_width m).
Definition bottom (m : Monitor) : option Z := i64 (m_y m + m_height m).

Definition touches (a b : Z) : option bool :=
  difference ← i64 (a - b);
  distance ← i64 (Z.abs difference);
  Some (distance <=? TOUCH_TOLERANCE).

(** The side through which [from] touches [to]: the first that matches. *)
Definition touching_edge (from to : Monitor) : option (option Edge.t) :=
  from_right ← right from;
  at_right ← touches from_right (m_x to);
  if (at_right : bool) then Some (Some Edge.Right)
  else
    to_right ← right to;
    at_left ← touches (m_x from) to_right;
    if (at_left : bool) then Some (Some Edge.Left)
    else
      from_bottom ← bottom from;
      at_bottom ← touches from_bottom (m_y to);
      if (at_bottom : bool) then Some (Some Edge.Bottom)
      else
        to_bottom ← bottom to;
        at_top ← touches (m_y from) to_bottom;
        if (at_top : bool) then Some (Some Edge.Top) else Some None.

(** The closure [fraction] of [crossing]. *)
Definition fraction (at_ origin length : Z) : option F64.t :=
  distance ← i64 (at_ - origin);
  Some (F64.div (F64.of_Z distance) (F64.of_Z length)).

Definition crossing (from to : Monitor) : option (option Crossing) :=
  edge ← touching_edge from to;
  match edge with
  | None => Some None
  | Some edge =>
      let (from_start, from_len) := along_edge edge from in
      let (to_start, to_len) := along_edge edge to in
      let start := Z.max from_start to_start in
      from_end ← i64 (from_start + from_len);
      to_end ← i64 (to_start + to_len);
      let end_ := Z.min from_end to_end in
      if end_ <=? start then Some None
      else
        from_lo ← fraction start from_start from_len;
        from_hi ← fraction end_ from_start from_len;
        to_lo ← fraction start to_start to_len;
        to_hi ← fraction end_ to_start to_len;
        Some (Some {|
          c_from := to_ref from; c_edge := edge; c_from_span := (from_lo, from_hi);
          c_to := to_ref to; c_to_span := (to_lo, to_hi) |})
  end.

Definition option_list {A} (o : option A) : list A := match o with Some a => [a] | None => [] end.

(** One turn of the inner loop of [crossings]: both directions of a pair. *)
Definition pair_crossings (a b : Monitor) : option (list Crossing) :=
  if bool_decide (m_device a = m_device b) then Some []
  else
    there ← crossing a b;
    back ← crossing b a;
    Some (option_list there ++ option_list back).

(** The inner and the outer loop of [crossings]. *)
Fixpoint crossings_of (a : Monitor) (rest : list Monitor) : option (list Crossing) :=
  match rest with
  | [] => Some []
  | b :: rest =>
      found ← pair_crossings a b;
      more ← crossings_of a rest;
      Some (found ++ more)
  end.

Fixpoint crossings (monitors : list Monitor) : option (list Crossing) :=
  match monitors with
  | [] => Some []
  | a :: rest =>
      found ← crossings_of a rest;
      more ← crossings rest;
      Some (found ++ more)
  end.

(** ** Checking a layout *)

Inductive LayoutError :=
| Empty (monitor : MonitorRef)
| Overlap (a b : MonitorRef)
| Detached (device : rstring).

Definition overlap_x (a b : Monitor) : option Z :=
  a_right ← right a;
  b_right ← right b;
  i64 (Z.min a_right b_right - Z.max (m_x a) (m_x b)).
Definition overlap_y (a b : Monitor) : option Z :=
  a_bottom ← bottom a;
  b_bottom ← bottom b;
  i64 (Z.min a_bottom b_bottom - Z.max (m_y a) (m_y b)).
Definition overlaps (a b : Monitor) : option bool :=
  x ← overlap_x a b;
  y ← overlap_y a b;
  Some ((TOUCH_TOLERANCE <? x) && (TOUCH_TOLERANCE <? y)).

Fixpoint check_areas (monitors : list Monitor) : result LayoutError unit :=
  match monitors with
  | [] => Ok tt
  | m :: monitors =>
      fail_if (m_width m =? 0) || (m_height m =? 0) with Empty (to_ref m) in
      check_areas monitors
  end.

(** The inner loop: the first monitor of [rest] that [a] overlaps. *)
Fixpoint check_overlaps_of (a : Monitor) (rest : list Monitor) : option (result LayoutError unit) :=
  match rest with
  | [] => Some (Ok tt)
  | b :: rest =>
      overlap ← overlaps a b;
      if (overlap : bool) then Some (Err (Overlap (to_ref a) (to_ref b)))
      else check_overlaps_of a rest
  end.

Fixpoint check_overlaps (monitors : list Monitor) : option (result LayoutError unit) :=
  match monitors with
  | [] => Some (Ok tt)
  | a :: rest =>
      found ← check_overlaps_of a rest;
      match found with Err e => Some (Err e) | Ok _ => check_overlaps rest end
  end.

(** [str] order: bytes *)
Fixpoint text_le (a b : rstring) : bool :=
  match a, b with
  | [], _ => true
  | _ :: _, [] => false
  | x :: a, y :: b => if x =? y then text_le a b else x <? y
  end.
Definition device_le (a b : rstring) : Prop := text_le a b = true.
#[global] Instance device_le_dec : RelDecision device_le.
Proof. intros a b. unfold device_le. solve_decision. Defined.

(** [Vec::dedup]: of equal neighbours, the first *)
Fixpoint dedup (l : list rstring) : list rstring :=
  match l with
  | [] => []
  | x :: rest =>
      match rest with
      | y :: _ => if bool_decide (x = y) then dedup rest else x :: dedup rest
      | [] => [x]
      end
  end.

Definition devices (monitors : list Monitor) : list rstring :=
  dedup (merge_sort device_le (m_device <$> monitors)).

(** The first of [devices] that no crossing leaves. *)
Definition lonely (linked : list Crossing) (devices : list rstring) : option rstring :=
  List.find (fun device => negb (existsb (fun c => bool_decide (ref_device (c_from c) = device)) linked))
    devices.

Definition validate (monitors : list Monitor) : option (result LayoutError unit) :=
  match check_areas monitors with
  | Err e => Some (Err e)
  | Ok _ =>
      no_overlap ← check_overlaps monitors;
      match no_overlap with
      | Err e => Some (Err e)
      | Ok _ =>
          if 1 <? len (devices monitors) then
            linked ← crossings monitors;
            match lonely linked (devices monitors) with
            | Some lonely => Some (Err (Detached lonely))
            | None => Some (Ok tt)
            end
          else Some (Ok tt)
      end
  end.

(** ** Snapping *)

(** The closure [consider] of [snap]. *)
Definition consider (threshold wanted : Z) (best : option (Z * Z)) (candidate : Z)
  : option (option (Z * Z)) :=
  difference ← i64 (candidate - wanted);
  distance ← i64 (Z.abs difference);
  Some (if (distance <=? threshold)
           && match best with Some (_, d) => distance <? d | None => true end
        then Some (candidate, distance) else best).

(** The loop over one array of candidates. *)
Fixpoint consider_all (threshold wanted : Z) (best : option (Z * Z)) (candidates : list Z)
  : option (option (Z * Z)) :=
  match candidates with
  | [] => Some best
  | candidate :: candidates =>
      best ← consider threshold wanted best candidate;
      consider_all threshold wanted best candidates
  end.

Definition candidates_x (moving other : Monitor) : option (list Z) :=
  r ← right other;
  l ← i64 (m_x other - m_width moving);
  r' ← i64 (r - m_width moving);
  Some [r; l; m_x other; r'].
Definition candidates_y (moving other : Monitor) : option (list Z) :=
  r ← bottom other;
  l ← i64 (m_y other - m_height moving);
  r' ← i64 (r - m_height moving);
  Some [r; l; m_y other; r'].

(** The loop of [snap] over the monitors of the other devices. *)
Fixpoint snap_loop (moving : Monitor) (x y threshold : Z) (others : list Monitor)
    (best_x best_y : option (Z * Z)) : option (option (Z * Z) * option (Z * Z)) :=
  match others with
  | [] => Some (best_x, best_y)
  | other :: others =>
      xs ← candidates_x moving other;
      best_x ← consider_all threshold x best_x xs;
      ys ← candidates_y moving other;
      best_y ← consider_all threshold y best_y ys;
      snap_loop moving x y threshold others best_x best_y
  end.

Definition snap (moving : Monitor) (x y : Z) (others : list Monitor) (threshold : Z)
  : option (Z * Z) :=
  let others := List.filter (fun m => negb (bool_decide (m_device m = m_device moving))) others in
  '(best_x, best_y) ← snap_loop moving x y threshold others None None;
  Some (match best_x with Some (at_, _) => at_ | None => x end,
        match best_y with Some (at_, _) => at_ | None => y end).
End Places.
