(* ===== verification/LayoutTheorems.v ===== *)
(** * What a screen layout promises

    Crossing an edge keeps the pointer's place on the plane up to the rounding of
    [f64] and can be undone; the check of a layout is the declarative property of
    the same name; a dragged monitor snaps to the nearest line of another device.
    The geometry is that of the integers: [on_plane] bounds the places for which
    no [i64] operation of the code overflows. *)

From Stdlib Require Import QArith Qabs Qpower Lqa Field Setoid SpecFloat.
From stdpp Require Import sorting.
From S2P Require Import Prelude Layout.
Open Scope Z_scope.

(** ** Rounding *)

Module Rounding.
Import F64.
#[local] Instance Qeq_default : DefaultRelation Qeq := {}.
Local Open Scope Q_scope.

Lemma pow2_pos e : 0 < (2 # 1) ^ e.
Proof. by apply Qpower_0_lt. Qed.

Lemma pow2_plus a b : (2 # 1) ^ (a + b) == (2 # 1) ^ a * (2 # 1) ^ b.
Proof. by apply Qpower_plus. Qed.

Lemma pow2_le a b : (a <= b)%Z -> (2 # 1) ^ a <= (2 # 1) ^ b.
Proof. intros H. by apply Qpower_le_compat_l. Qed.

Lemma pow2_inject n : (0 <= n)%Z -> inject_Z (2 ^ n) == (2 # 1) ^ n.
Proof. intros H. by apply (Zpower_Qpower 2). Qed.

Lemma pow2_inv u : (2 # 1) ^ (- u) * (2 # 1) ^ u == 1.
Proof. rewrite <- pow2_plus. by replace (- u + u)%Z with 0%Z by lia. Qed.

(** The nearest integer is no further than one half. *)
Lemma nearest_error y : Qabs (inject_Z (nearest y) - y) <= 1 # 2.
Proof.
  destruct y as [a b]. unfold nearest. cbn [Qnum Qden].
  pose proof (Z.div_mod a (Z.pos b) ltac:(done)) as Hd.
  pose proof (Z.mod_pos_bound a (Z.pos b) ltac:(done)) as Hm.
  assert (H : forall m, (2 * Z.abs (m * Z.pos b - a) <= Z.pos b)%Z ->
            Qabs (inject_Z m - (a # b)) <= 1 # 2).
  { intros m H. unfold Qle, Qabs, Qminus, Qopp, Qplus, inject_Z. cbn -[Z.mul Z.add Z.abs].
    rewrite ?Pos.mul_1_l. lia. }
  apply H. destruct (Z.compare_spec (2 * (a mod Z.pos b)) (Z.pos b)); [case_match|..]; nia.
Qed.

(** An integer is its own nearest. *)
Lemma nearest_exact y n : y == inject_Z n -> nearest y = n.
Proof.
  intros Hy.
  assert (H : Qabs (inject_Z (nearest y) - inject_Z n) <= 1 # 2)
    by (rewrite <- Hy; apply nearest_error).
  setoid_replace (inject_Z (nearest y) - inject_Z n) with (inject_Z (nearest y - n)) in H.
  2: { unfold Z.sub. by rewrite inject_Z_plus, inject_Z_opp. }
  unfold Qabs, Qle, inject_Z in H. cbn -[Z.abs] in H. lia.
Qed.

Lemma exponent_spec x :
  0 < x -> (2 # 1) ^ exponent x <= x /\ x < (2 # 1) ^ (exponent x + 1).
Proof.
  destruct x as [n d]. intros Hx. assert (Hn : (0 < n)%Z) by (unfold Qlt in Hx; cbn in Hx; lia).
  unfold exponent. cbn [Qnum Qden].
  pose proof (Z.log2_spec n Hn) as [Hn1 Hn2]. pose proof (Z.log2_nonneg n).
  pose proof (Z.log2_spec (Z.pos d) ltac:(done)) as [Hd1 Hd2]. pose proof (Z.log2_nonneg (Z.pos d)).
  set (e := (Z.log2 n - Z.log2 (Z.pos d))%Z).
  assert (Hq : (n # d) * inject_Z (Z.pos d) == inject_Z n)
    by (unfold Qeq, inject_Z; cbn; lia).
  rewrite Zle_Qle, pow2_inject in Hn1, Hd1 by lia. rewrite Zlt_Qlt, pow2_inject in Hn2, Hd2 by lia.
  assert (He : (2 # 1) ^ e * (2 # 1) ^ (Z.log2 (Z.pos d)) == (2 # 1) ^ Z.log2 n)
    by (rewrite <- pow2_plus; by replace (e + _)%Z with (Z.log2 n) by (unfold e; lia)).
  unfold Z.succ in *. rewrite pow2_plus in Hn2, Hd2.
  change ((2 # 1) ^ 1) with (2 # 1) in *.
  pose proof (pow2_pos e). pose proof (pow2_pos (Z.log2 (Z.pos d))).
  pose proof (pow2_pos (Z.log2 n)).
  set (x := n # d) in *. set (D := inject_Z (Z.pos d)) in *.
  set (pe := (2 # 1) ^ e) in *. set (pd := (2 # 1) ^ Z.log2 (Z.pos d)) in *.
  assert (HD : 0 < D) by done.
  assert (Hup : x < pe * (2 # 1)) by (apply (Qmult_lt_r _ _ D); [done|]; assert (pe * pd <= pe * D) by (apply Qmult_le_l; lra); lra).
  assert (Hlo : pe <= x * (2 # 1)) by (apply (Qmult_le_r _ _ D); [done|]; assert (pe * D < pe * (pd * 2)) by (apply Qmult_lt_l; lra); lra).
  destruct (Qle_bool pe x) eqn:E.
  - apply Qle_bool_iff in E. rewrite pow2_plus. by split.
  - assert (Hlt : x < pe) by (apply Qnot_le_lt; rewrite <- Qle_bool_iff; congruence).
    replace (e - 1 + 1)%Z with e by lia. split; [|done].
    change (e - 1)%Z with (e + -1)%Z. rewrite pow2_plus. fold pe. change ((2 # 1) ^ (-1)) with (1 # 2). lra.
Qed.

Lemma ulp_le x B :
  0 < x -> x <= B -> (2 # 1) ^ (-1000) <= B -> (2 # 1) ^ ulp x <= B * (2 # 1) ^ (-52).
Proof.
  intros Hx HB H0. unfold ulp. pose proof (pow2_pos (-52)).
  destruct (Z.max_spec (exponent x - 52) (-1074)) as [[_ ->]|[_ ->]].
  - eapply Qle_trans; [apply (pow2_le _ (-1000 + -52)); lia|]. rewrite pow2_plus.
    by apply Qmult_le_compat_r; [|apply Qlt_le_weak].
  - change (exponent x - 52)%Z with (exponent x + -52)%Z. rewrite pow2_plus.
    apply Qmult_le_compat_r; [|by apply Qlt_le_weak].
    eapply Qle_trans; [by apply exponent_spec|done].
Qed.

Definition u53 : Q := (2 # 1) ^ (-53).

(** The value before the test for overflow. *)
Definition rounded (q : Q) : Q :=
  Qred (inject_Z (nearest (q * (2 # 1) ^ (- ulp (Qabs q)))) * (2 # 1) ^ ulp (Qabs q)).

Lemma rounded_error q B :
  ~ q == 0 -> Qabs q <= B -> (2 # 1) ^ (-1000) <= B -> Qabs (rounded q - q) <= B * u53.
Proof.
  intros Hq HB H0. unfold rounded. rewrite Qred_correct.
  assert (Hx : 0 < Qabs q).
  { destruct (Q_dec q 0) as [[H|H]|H]; [|by rewrite Qabs_pos; [|apply Qlt_le_weak]|done].
    rewrite Qabs_neg; [lra|by apply Qlt_le_weak]. }
  pose proof (ulp_le _ _ Hx HB H0) as Hu. set (u := ulp (Qabs q)) in *.
  pose proof (nearest_error (q * (2 # 1) ^ (- u))) as Hn.
  set (m := inject_Z (nearest (q * (2 # 1) ^ (- u)))) in *.
  setoid_replace (m * (2 # 1) ^ u - q) with ((m - q * (2 # 1) ^ (- u)) * (2 # 1) ^ u).
  2: { pose proof (pow2_inv u) as Hi. lazymatch goal with |- _ == ?r => setoid_replace r with (m * (2 # 1) ^ u - q * ((2 # 1) ^ (- u) * (2 # 1) ^ u)) by ring end. rewrite Hi. ring. }
  rewrite Qabs_Qmult. rewrite (Qabs_pos ((2 # 1) ^ u)) by apply Qlt_le_weak, pow2_pos.
  pose proof (pow2_pos u). unfold u53.
  change ((2 # 1) ^ (-53)) with ((1 # 2) * (2 # 1) ^ (-52)) .
  nra.
Qed.

(** Every operation rounds its exact value with a relative error of at most one
    half of the last bit. *)
Lemma round_near q B :
  Qabs q <= B -> (2 # 1) ^ (-1000) <= B -> B <= (2 # 1) ^ 1000 ->
  exists r, round q = Finite r /\ Qabs (r - q) <= B * u53.
Proof.
  intros HB H0 H1. unfold round. destruct (Qeq_bool q 0) eqn:E.
  - apply Qeq_bool_iff in E. exists 0. split; [done|]. rewrite E. unfold u53.
    change (Qabs (0 - 0)) with 0. pose proof (pow2_pos (-53)). pose proof (pow2_pos (-1000)).
    apply Qmult_le_0_compat; lra.
  - apply Qeq_bool_neq in E. pose proof (rounded_error q B E HB H0) as Hr. cbv zeta.
    fold (rounded q). destruct (Qle_bool _ _) eqn:Ho; [|by exists (rounded q)].
    exfalso. apply Qle_bool_iff in Ho. revert Ho. apply Qlt_not_le.
    assert (Hb : Qabs (rounded q) <= B + B * u53).
    { setoid_replace (rounded q) with (q + (rounded q - q)) by ring.
      eapply Qle_trans; [apply Qabs_triangle|]. lra. }
    eapply Qle_lt_trans; [exact Hb|].
    apply Qle_lt_trans with ((2 # 1) ^ 1000 * (2 # 1)); [|by vm_compute].
    assert (u53 <= 1) by done. assert (0 <= B) by (pose proof (Qabs_nonneg q); lra). nra.
Qed.

(** Integers of up to 53 bits are exact. *)
Lemma of_Z_exact n : (0 <= n < 2 ^ 53)%Z -> exists r, of_Z n = Finite r /\ r == inject_Z n.
Proof.
  intros Hn. unfold of_Z, round. destruct (Qeq_bool _ 0) eqn:E.
  { apply Qeq_bool_iff in E. exists 0. split; [done|]. by symmetry. }
  assert (Hpos : (0 < n)%Z).
  { apply Qeq_bool_neq in E. destruct (decide (n = 0%Z)) as [->|]; [by destruct E|lia]. }
  assert (Hq : 0 < inject_Z n) by (change 0 with (inject_Z 0); by rewrite <- Zlt_Qlt).
  assert (Habs : Qabs (inject_Z n) = inject_Z n) by (cbn; by rewrite Z.abs_eq by lia).
  cbv zeta. rewrite Habs.
  destruct (exponent_spec _ Hq) as [He _].
  assert (Hu : (ulp (inject_Z n) <= 0)%Z).
  { unfold ulp. destruct (decide (exponent (inject_Z n) <= 52)%Z) as [?|Hgt]; [lia|].
    exfalso. apply (Qle_trans _ _ _ (pow2_le 53 (exponent (inject_Z n)) ltac:(lia))) in He.
    rewrite <- pow2_inject, <- Zle_Qle in He by done. lia. }
  set (u := ulp (inject_Z n)) in *.
  rewrite (nearest_exact _ (n * 2 ^ (- u))%Z)
    by (by rewrite inject_Z_mult, pow2_inject by lia).
  assert (Hv : Qred (inject_Z (n * 2 ^ (- u)) * (2 # 1) ^ u) == inject_Z n).
  { rewrite Qred_correct, inject_Z_mult, pow2_inject, <- Qmult_assoc, pow2_inv by lia. ring. }
  destruct (Qle_bool _ _) eqn:Ho; [|by eexists].
  exfalso. apply Qle_bool_iff in Ho. rewrite Hv, Habs, <- pow2_inject, <- Zle_Qle in Ho by done.
  assert (2 ^ 53 < 2 ^ 1024)%Z by done. lia.
Qed.

Lemma Qabs_within a b e : Qabs (a - b) <= e <-> - e <= a - b /\ a - b <= e.
Proof. apply Qabs_Qle_condition. Qed.

(** A fraction of an edge, to half of a last bit. *)
Lemma fraction_near n len :
  (0 <= n <= len)%Z -> (0 < len < 2 ^ 32)%Z ->
  exists r, div (of_Z n) (of_Z len) = Finite r
            /\ Qabs (r - inject_Z n / inject_Z len) <= u53.
Proof.
  intros Hn Hl.
  destruct (of_Z_exact n) as (x & -> & Hx); [lia|]. destruct (of_Z_exact len) as (y & -> & Hy); [lia|].
  assert (Hpos : 0 < inject_Z len) by (change 0 with (inject_Z 0); rewrite <- Zlt_Qlt; lia).
  assert (H0 : 0 <= inject_Z n) by (change 0 with (inject_Z 0); rewrite <- Zle_Qle; lia).
  assert (H1 : inject_Z n <= inject_Z len) by (rewrite <- Zle_Qle; lia).
  simpl. destruct (Qeq_bool y 0) eqn:E.
  { apply Qeq_bool_iff in E. rewrite E in Hy. rewrite <- Hy in Hpos. by apply Qlt_irrefl in Hpos. }
  assert (Hq : x / y == inject_Z n / inject_Z len) by by rewrite Hx, Hy.
  destruct (round_near (x / y) 1) as (r & Hr & Hb); [|done..|].
  - rewrite Hq, Qabs_pos.
    + apply Qle_shift_div_r; [done|]. by rewrite Qmult_1_l.
    + apply Qle_shift_div_l; [done|]. by rewrite Qmult_0_l.
  - exists r. split; [done|]. rewrite Hq, Qmult_1_l in Hb. done.
Qed.

Lemma abs_add a b x y : Qabs a <= x -> Qabs b <= y -> Qabs (a + b) <= x + y.
Proof. intros Ha Hb. pose proof (Qabs_triangle a b). lra. Qed.

Lemma abs_mul a b x y : Qabs a <= x -> Qabs b <= y -> Qabs (a * b) <= x * y.
Proof.
  intros Ha Hb. rewrite Qabs_Qmult. pose proof (Qabs_nonneg a). pose proof (Qabs_nonneg b).
  apply Qmult_le_compat_nonneg; by split.
Qed.

Lemma abs_near a b x e : Qabs (a - b) <= e -> Qabs b <= x -> Qabs a <= x + e.
Proof.
  intros H Hb. setoid_replace a with (b + (a - b)) by ring. by apply abs_add.
Qed.

Lemma u53_small : 0 < u53 /\ u53 <= 1 # 1024.
Proof. done. Qed.

(** A quotient of two rounded numbers against the exact one. *)
Lemma quotient_near X D X' D' :
  0 < D -> 0 <= X -> X <= D -> Qabs (X' - X) <= D * u53 -> Qabs (D' - D) <= D * u53 ->
  0 < D' /\ Qabs (X' / D' - X / D) <= 3 * u53.
Proof.
  intros HD HX HXD Ex Ed. destruct u53_small as [Hu Hu1].
  assert (Hd : 0 < D' /\ 2 * D <= 3 * D').
  { apply Qabs_within in Ed as [Hlo _]. assert (D * u53 <= D * (1 # 1024)) by (apply Qmult_le_l; done).
    split; lra. }
  destruct Hd as [Hpos Hd]. split; [done|].
  assert (Hl : 0 <= X / D /\ X / D <= 1).
  { split; [apply Qle_shift_div_l|apply Qle_shift_div_r]; lra. }
  set (l := X / D) in *. assert (Hx : X == l * D) by (unfold l; field; lra).
  assert (Hq : X' / D' - l == ((X' - X) + - (l * (D' - D))) / D') by (rewrite Hx; field; lra).
  rewrite Hq. unfold Qdiv. rewrite Qabs_Qmult, (Qabs_pos (/ D')) by (apply Qlt_le_weak, Qinv_lt_0_compat; done).
  apply Qle_shift_div_r; [done|].
  assert (Hl2 : Qabs l <= 1) by (rewrite Qabs_pos; tauto).
  pose proof (abs_mul _ _ _ _ Hl2 Ed) as Hm.
  rewrite <- (Qabs_opp (l * (D' - D))) in Hm.
  pose proof (abs_add _ _ _ _ Ex Hm). nra.
Qed.

(** The interpolation of [Crossing::map] stays within fifteen half bits of the exact
    one, whose weight is that of [a] between [fs] and [fe]. *)
Lemma interpolate_near fs fe gs ge a :
  (2 # 1) ^ (-1000) <= fe - fs -> fe - fs <= 2 -> fs <= a -> a <= fe ->
  Qabs gs <= 9 # 8 -> 0 <= ge - gs -> ge - gs <= 9 # 8 ->
  exists out,
    add (Finite gs) (mul (div (sub (Finite a) (Finite fs)) (sub (Finite fe) (Finite fs)))
                         (sub (Finite ge) (Finite gs))) = Finite out
    /\ Qabs (out - (gs + (a - fs) / (fe - fs) * (ge - gs))) <= 15 * u53.
Proof.
  intros Hlow Hup Ha1 Ha2 Hgs HE1 HE2. destruct u53_small as [Hu Hu1].
  set (D := fe - fs) in *. set (X := a - fs). set (E := ge - gs) in *.
  assert (HD : 0 < D) by (pose proof (pow2_pos (-1000)); lra).
  assert (HD1000 : D <= (2 # 1) ^ 1000) by (apply Qle_trans with 2; done).
  assert (Habs : Qabs X <= D /\ Qabs D <= D /\ Qabs E <= 9 # 8)
    by (rewrite !Qabs_pos; unfold X, D in *; lra). destruct Habs as (AX & AD & AE).
  destruct (round_near X D AX Hlow HD1000) as (X' & HX & EX).
  destruct (round_near D D AD Hlow HD1000) as (D' & HD' & ED).
  destruct (round_near E (9 # 8) AE) as (E' & HE' & EE); [done..|].
  destruct (quotient_near X D X' D') as [Hpos Et]; [unfold X, D in *; lra..|done|done|].
  assert (Al : Qabs (X / D) <= 1).
  { rewrite Qabs_pos; [apply Qle_shift_div_r|apply Qle_shift_div_l]; unfold X, D in *; lra. }
  destruct (round_near (X' / D') (9 # 8)) as (T & HT & ET); [|done..|].
  { eapply Qle_trans; [eapply abs_near; [exact Et|exact Al]|lra]. }
  assert (ETl : Qabs (T - X / D) <= 5 * u53).
  { setoid_replace (T - X / D) with ((T - X' / D') + (X' / D' - X / D)) by ring.
    eapply Qle_trans; [apply abs_add; [exact ET|exact Et]|lra]. }
  pose proof (abs_near _ _ _ _ ETl Al) as AT.
  pose proof (abs_near _ _ _ _ EE AE) as AE'.
  destruct (round_near (T * E') 2) as (P & HP & EP); [|done..|].
  { eapply Qle_trans; [apply abs_mul; [exact AT|exact AE']|]. nra. }
  assert (EPl : Qabs (P - X / D * E) <= 10 * u53).
  { setoid_replace (P - X / D * E) with ((P - T * E') + ((T - X / D) * E' + X / D * (E' - E))) by ring.
    eapply Qle_trans;
      [apply abs_add; [exact EP|apply abs_add; [exact (abs_mul _ _ _ _ ETl AE')|exact (abs_mul _ _ _ _ Al EE)]]|].
    nra. }
  destruct (round_near (gs + P) 4) as (O & HO & EO); [|done..|].
  { assert (AL : Qabs (X / D * E) <= 1 * (9 # 8)) by by apply abs_mul.
    eapply Qle_trans; [apply abs_add; [exact Hgs|exact (abs_near _ _ _ _ EPl AL)]|lra]. }
  exists O. split.
  - change (sub (Finite a) (Finite fs)) with (round X).
    change (sub (Finite fe) (Finite fs)) with (round D).
    change (sub (Finite ge) (Finite gs)) with (round E).
    rewrite HX, HD', HE'. unfold div.
    destruct (Qeq_bool D' 0) eqn:E0.
    { apply Qeq_bool_iff in E0. rewrite E0 in Hpos. by apply Qlt_irrefl in Hpos. }
    rewrite HT. unfold mul. rewrite HP. done.
  - setoid_replace (O - (gs + X / D * E)) with ((O - (gs + P)) + (P - X / D * E)) by ring.
    eapply Qle_trans; [apply abs_add; [exact EO|exact EPl]|lra].
Qed.

Lemma abs_convex l x y m :
  0 <= l -> l <= 1 -> Qabs x <= m -> Qabs y <= m -> Qabs ((1 - l) * x + l * y) <= m.
Proof.
  intros H0 H1 Hx Hy.
  eapply Qle_trans; [apply abs_add; apply abs_mul;
    [apply Qle_refl|exact Hx|apply Qle_refl|exact Hy]|].
  rewrite !Qabs_pos by lra. lra.
Qed.
End Rounding.
Import Rounding.

(** The operations agree with the standard library's specification of binary64. *)
Definition spec_of (m : Z) (e : Z) : spec_float := binary_normalize 53 1024 m e false.
Definition same_as_spec (x : F64.t) (s : spec_float) : bool :=
  match x, s with
  | F64.Finite q, S754_zero _ => Qeq_bool q 0
  | F64.Finite q, S754_finite neg m e =>
      Qeq_bool q (inject_Z (if neg then Z.neg m else Z.pos m) * (2 # 1) ^ e)
  | F64.Infinity s, S754_infinity s' => eqb s s'
  | F64.NaN, S754_nan => true
  | _, _ => false
  end.

(** Pairs of doubles of different sizes, negative, subnormal and near overflow. *)
Definition spec_samples : list (Z * Z) :=
  [(0, 0); (1, 0); (-3, 0); (1080, 0); (7, -3); (6004799503160661, -54); (-8399213305045975, -53);
   (9007199254740991, 971); (1, -1074); (-4503599627370497, -1074); (4638707616191611, -54)].

Definition agrees_with_spec (x y : Z * Z) : bool :=
  let fx := F64.Finite (inject_Z (fst x) * (2 # 1) ^ snd x) in
  let fy := F64.Finite (inject_Z (fst y) * (2 # 1) ^ snd y) in
  let sx := spec_of (fst x) (snd x) in
  let sy := spec_of (fst y) (snd y) in
  same_as_spec (F64.add fx fy) (SFadd 53 1024 sx sy)
  && same_as_spec (F64.sub fx fy) (SFsub 53 1024 sx sy)
  && same_as_spec (F64.mul fx fy) (SFmul 53 1024 sx sy)
  && same_as_spec (F64.div fx fy) (SFdiv 53 1024 sx sy)
  && eqb (F64.le fx fy) (SFleb sx sy).

Example operations_agree_with_spec :
  forallb (fun x => forallb (agrees_with_spec x) spec_samples) spec_samples = true.
Proof. vm_compute. reflexivity. Qed.

(** What two edges of [la] and [lb] pixels can lose: a few parts in [2 ^ 49] of
    their length, less than a 65000th of a pixel. *)
Definition slack (la lb : Z) : Q := (inject_Z (la + lb) * (2 # 1) ^ (-49))%Q.

Lemma fraction_pixels n len :
  0 <= n <= len -> 0 < len < 2 ^ 32 ->
  exists r, F64.div (F64.of_Z n) (F64.of_Z len) = F64.Finite r
    /\ (Qabs (r - inject_Z n / inject_Z len) <= u53)%Q
    /\ (Qabs (r * inject_Z len - inject_Z n) <= u53 * inject_Z len)%Q.
Proof.
  intros Hn Hl. destruct (fraction_near n len Hn Hl) as (r & Hr & He). exists r. split_and!; [done..|].
  assert (Hpos : (0 < inject_Z len)%Q) by (change 0%Q with (inject_Z 0); rewrite <- Zlt_Qlt; lia).
  assert (Hq : (r * inject_Z len - inject_Z n == (r - inject_Z n / inject_Z len) * inject_Z len)%Q)
    by (field; lra).
  rewrite Hq. apply abs_mul; [done|]. by rewrite Qabs_pos; [apply Qle_refl|apply Qlt_le_weak].
Qed.

Lemma inject_Z_pos n : 0 < n -> (0 < inject_Z n)%Q.
Proof. intros H. change 0%Q with (inject_Z 0). by rewrite <- Zlt_Qlt. Qed.

(** The two ends of a part of an edge. *)
Lemma span_near n1 n2 len :
  0 <= n1 < n2 -> n2 <= len < 2 ^ 32 ->
  exists r1 r2,
    F64.div (F64.of_Z n1) (F64.of_Z len) = F64.Finite r1
    /\ F64.div (F64.of_Z n2) (F64.of_Z len) = F64.Finite r2
    /\ (Qabs (r1 * inject_Z len - inject_Z n1) <= u53 * inject_Z len)%Q
    /\ (Qabs (r2 * inject_Z len - inject_Z n2) <= u53 * inject_Z len)%Q
    /\ ((2 # 1) ^ (-1000) <= r2 - r1 /\ r2 - r1 <= 9 # 8 /\ Qabs r1 <= 9 # 8)%Q.
Proof.
  intros Hn Hl.
  destruct (fraction_pixels n1 len) as (r1 & F1 & N1 & P1); [lia..|].
  destruct (fraction_pixels n2 len) as (r2 & F2 & N2 & P2); [lia..|].
  exists r1, r2. split_and!; [done..| | |].
  all: pose proof (inject_Z_pos len ltac:(lia)) as Hpos; destruct u53_small as [Hu Hu1];
    apply Qabs_within in P1 as [P1 P1'], P2 as [P2 P2'];
    assert (H0 : (0 <= inject_Z n1)%Q) by (change 0%Q with (inject_Z 0); rewrite <- Zle_Qle; lia);
    assert (H12 : (inject_Z n1 + 1 <= inject_Z n2)%Q)
      by (change 1%Q with (inject_Z 1); rewrite <- inject_Z_plus, <- Zle_Qle; lia);
    assert (H2 : (inject_Z n2 <= inject_Z len)%Q) by (rewrite <- Zle_Qle; lia);
    assert (Hmax : (inject_Z len <= inject_Z (2 ^ 32))%Q) by (rewrite <- Zle_Qle; lia).
  - assert (Hs : (u53 * inject_Z len <= 1 # 8)%Q).
    { apply Qle_trans with (u53 * inject_Z (2 ^ 32))%Q; [|done]. apply Qmult_le_l; lra. }
    apply Qle_trans with ((1 # 2) / inject_Z len)%Q; [|apply Qle_shift_div_r; lra].
    apply Qle_shift_div_l; [done|].
    apply Qle_trans with ((2 # 1) ^ (-1000) * inject_Z (2 ^ 32))%Q; [|done].
    apply Qmult_le_l; [apply pow2_pos|done].
  - apply (Qmult_le_r _ _ (inject_Z len)); [done|]. nra.
  - apply Qabs_Qle_condition; split; apply (Qmult_le_r _ _ (inject_Z len)); try done; nra.
Qed.

(** The algebra of one crossing, in pixels. *)
Lemma crossing_pixels (s e sa sb la lb fs fe gs ge a out l : Q) :
  (0 < la -> 0 < lb -> 0 <= l -> l <= 1 -> a == fs + l * (fe - fs) ->
   Qabs (fs * la - (s - sa)) <= u53 * la -> Qabs (fe * la - (e - sa)) <= u53 * la ->
   Qabs (gs * lb - (s - sb)) <= u53 * lb -> Qabs (ge * lb - (e - sb)) <= u53 * lb ->
   Qabs (out - (gs + l * (ge - gs))) <= 15 * u53 ->
   Qabs ((sb + out * lb) - (sa + a * la)) <= (la + lb) * (2 # 1) ^ (-49))%Q.
Proof.
  intros Hla Hlb H0 H1 Ha Efs Efe Egs Ege Eout.
  pose proof (abs_convex l _ _ _ H0 H1 Efs Efe) as Ef.
  pose proof (abs_convex l _ _ _ H0 H1 Egs Ege) as Eg. rewrite <- Qabs_opp in Ef.
  assert (Alb : (Qabs lb <= lb)%Q) by (by rewrite Qabs_pos; [apply Qle_refl|apply Qlt_le_weak]).
  pose proof (abs_add _ _ _ _ (abs_mul _ _ _ _ Eout Alb) (abs_add _ _ _ _ Eg Ef)) as H.
  eapply Qle_trans; [|eapply Qle_trans; [exact H|]].
  - apply Qle_lteq. right. apply Qabs_wd. rewrite Ha. ring.
  - assert (H16 : ((2 # 1) ^ (-49) == 16 * u53)%Q) by done. rewrite H16. pose proof (proj1 u53_small). nra.
Qed.

Lemma slack_spec la lb :
  0 < la -> 0 < lb ->
  (u53 * inject_Z la <= slack la lb /\ u53 * inject_Z lb <= slack la lb)%Q.
Proof.
  intros Ha Hb. unfold slack. rewrite inject_Z_plus.
  assert (H16 : ((2 # 1) ^ (-49) == 16 * u53)%Q) by done. rewrite H16.
  pose proof (proj1 u53_small).
  assert ((0 < inject_Z la)%Q) by (change 0%Q with (inject_Z 0); by rewrite <- Zlt_Qlt).
  assert ((0 < inject_Z lb)%Q) by (change 0%Q with (inject_Z 0); by rewrite <- Zlt_Qlt).
  split; nra.
Qed.

Lemma F64_le_Finite p q : F64.le (F64.Finite p) (F64.Finite q) = true <-> (p <= q)%Q.
Proof. apply Qle_bool_iff. Qed.

Lemma F64_le_false p q : F64.le (F64.Finite p) (F64.Finite q) = false <-> (q < p)%Q.
Proof.
  rewrite <- not_true_iff_false, F64_le_Finite. split; [apply Qnot_le_lt|apply Qlt_not_le].
Qed.

(** Scaling both spans over one interval of the plane. *)
Lemma map_along_plane (s e sa la sb lb : Z) (along : F64.t) c :
  0 < la < 2 ^ 32 -> 0 < lb < 2 ^ 32 -> s < e ->
  sa <= s -> e <= sa + la -> sb <= s -> e <= sb + lb ->
  c_from_span c = (F64.div (F64.of_Z (s - sa)) (F64.of_Z la), F64.div (F64.of_Z (e - sa)) (F64.of_Z la)) ->
  c_to_span c = (F64.div (F64.of_Z (s - sb)) (F64.of_Z lb), F64.div (F64.of_Z (e - sb)) (F64.of_Z lb)) ->
  match map_along c along with
  | Some entered => exists p q, along = F64.Finite p /\ entered = F64.Finite q
      /\ let at_ := (inject_Z sa + p * inject_Z la)%Q in
         (inject_Z s - slack la lb <= at_ /\ at_ <= inject_Z e + slack la lb
          /\ Qabs ((inject_Z sb + q * inject_Z lb) - at_) <= slack la lb)%Q
  | None => forall p, along = F64.Finite p ->
      let at_ := (inject_Z sa + p * inject_Z la)%Q in
      (at_ < inject_Z s + slack la lb \/ inject_Z e - slack la lb < at_)%Q
  end.
Proof.
  intros Hla Hlb Hse Hsa Hea Hsb Heb Hf Ht.
  destruct (span_near (s - sa) (e - sa) la) as (fs & fe & Ffs & Ffe & Pfs & Pfe & Df & Df' & _); [lia..|].
  destruct (span_near (s - sb) (e - sb) lb) as (gs & ge & Fgs & Fge & Pgs & Pge & Dg & Dg' & Ags); [lia..|].
  rewrite Ffs, Ffe in Hf. rewrite Fgs, Fge in Ht. unfold map_along. rewrite Hf, Ht.
  pose proof (inject_Z_pos la ltac:(lia)) as Qla. pose proof (inject_Z_pos lb ltac:(lia)) as Qlb.
  destruct (slack_spec la lb) as [Sa Sb]; [lia..|]. pose proof (pow2_pos (-1000)) as Htiny.
  assert (Hsub : forall x y, (inject_Z (x - y) == inject_Z x - inject_Z y)%Q)
    by (intros; unfold Z.sub, Qminus; by rewrite inject_Z_plus, inject_Z_opp).
  rewrite Hsub in Pfs, Pfe, Pgs, Pge.
  assert (Hn : F64.le (F64.Finite fe) (F64.Finite fs) = false) by (apply F64_le_false; lra).
  rewrite Hn, orb_false_r.
  destruct (F64.le (F64.Finite fs) along && F64.le along (F64.Finite fe)) eqn:Hin; simpl negb; cbv iota.
  - apply andb_true_iff in Hin as [H1 H2]. destruct along as [p|[]|]; try done.
    apply F64_le_Finite in H1, H2.
    destruct (interpolate_near fs fe gs ge p) as (out & -> & Ho); [lra..|done|lra|lra|].
    exists p, out. split; [done|]. split; [done|]. cbv zeta.
    assert (Hl : (0 <= (p - fs) / (fe - fs) /\ (p - fs) / (fe - fs) <= 1)%Q).
    { split; [apply Qle_shift_div_l|apply Qle_shift_div_r]; lra. }
    split_and!.
    + apply Qabs_within in Pfs as [Pfs _]. nra.
    + apply Qabs_within in Pfe as [_ Pfe]. nra.
    + unfold slack. rewrite inject_Z_plus.
      eapply (crossing_pixels (inject_Z s) (inject_Z e)) with (l := ((p - fs) / (fe - fs))%Q);
        [done..|tauto|tauto| |exact Pfs|exact Pfe|exact Pgs|exact Pge|exact Ho].
      field. lra.
  - intros p ->. cbv zeta.
    apply andb_false_iff in Hin as [H%F64_le_false|H%F64_le_false]; [left|right].
    + apply Qabs_within in Pfs as [_ Pfs]. nra.
    + apply Qabs_within in Pfe as [Pfe _]. nra.
Qed.

(** ** The geometry of the plane

    The same places and distances over the integers. *)

Definition right_of (m : Monitor) : Z := m_x m + m_width m.
Definition bottom_of (m : Monitor) : Z := m_y m + m_height m.
Definition close_to (a b : Z) : bool := Z.abs (a - b) <=? TOUCH_TOLERANCE.
Definition shared_width (a b : Monitor) : Z := Z.min (right_of a) (right_of b) - Z.max (m_x a) (m_x b).
Definition shared_height (a b : Monitor) : Z :=
  Z.min (bottom_of a) (bottom_of b) - Z.max (m_y a) (m_y b).

(** The side of [from] at [to]; at a corner, the vertical one. *)
Definition side_at (from to : Monitor) : option Edge.t :=
  if close_to (right_of from) (m_x to) then Some Edge.Right
  else if close_to (m_x from) (right_of to) then Some Edge.Left
  else if close_to (bottom_of from) (m_y to) then Some Edge.Bottom
  else if close_to (m_y from) (bottom_of to) then Some Edge.Top
  else None.

(** The crossing over the part of the plane that both edges have. *)
Definition crossing_at (from to : Monitor) : option Crossing :=
  edge ← side_at from to;
  let (from_start, from_len) := along_edge edge from in
  let (to_start, to_len) := along_edge edge to in
  let start := Z.max from_start to_start in
  let end_ := Z.min (from_start + from_len) (to_start + to_len) in
  let span origin length :=
    (F64.div (F64.of_Z (start - origin)) (F64.of_Z length),
     F64.div (F64.of_Z (end_ - origin)) (F64.of_Z length)) in
  if end_ <=? start then None
  else Some {| c_from := to_ref from; c_edge := edge; c_from_span := span from_start from_len;
               c_to := to_ref to; c_to_span := span to_start to_len |}.

(** A monitor whose sides and distances fit an [i64] with room to spare. *)
Definition on_plane (m : Monitor) : Prop :=
  Z.abs (m_x m) <= 2 ^ 62 - 2 ^ 32 /\ Z.abs (m_y m) <= 2 ^ 62 - 2 ^ 32
  /\ 0 <= m_width m < 2 ^ 32 /\ 0 <= m_height m < 2 ^ 32.

Section Exact.
Context (checks : bool).

Lemma i64_exact n : - 2 ^ 63 <= n < 2 ^ 63 -> i64 checks n = Some n.
Proof. intros H. unfold i64, is_i64. by rewrite (proj2 (Z.leb_le _ _)), (proj2 (Z.ltb_lt _ _)) by lia. Qed.

Lemma right_exact m : on_plane m -> right checks m = Some (right_of m).
Proof. unfold on_plane, right, right_of. intros H. apply i64_exact. lia. Qed.

Lemma bottom_exact m : on_plane m -> bottom checks m = Some (bottom_of m).
Proof. unfold on_plane, bottom, bottom_of. intros H. apply i64_exact. lia. Qed.

Lemma touches_exact a b :
  Z.abs a <= 2 ^ 62 -> Z.abs b < 2 ^ 62 -> touches checks a b = Some (close_to a b).
Proof.
  intros Ha Hb. unfold touches. rewrite i64_exact by lia. simpl. rewrite i64_exact by lia. done.
Qed.

Lemma touches_exact' a b :
  Z.abs a < 2 ^ 62 -> Z.abs b <= 2 ^ 62 -> touches checks a b = Some (close_to a b).
Proof.
  intros Ha Hb. unfold touches. rewrite i64_exact by lia. simpl. rewrite i64_exact by lia. done.
Qed.

Lemma touching_edge_exact a b :
  on_plane a -> on_plane b -> touching_edge checks a b = Some (side_at a b).
Proof.
  intros Ha Hb. unfold touching_edge, side_at.
  rewrite !right_exact, !bottom_exact by done. simpl. unfold on_plane, right_of, bottom_of in *.
  rewrite (touches_exact (m_x a + m_width a)), (touches_exact' (m_x a)),
    (touches_exact (m_y a + m_height a)), (touches_exact' (m_y a)) by lia. simpl.
  by repeat (destruct (close_to _ _); [done|]).
Qed.

Lemma along_edge_on_plane e m :
  on_plane m -> Z.abs (fst (along_edge e m)) <= 2 ^ 62 - 2 ^ 32 /\ 0 <= snd (along_edge e m) < 2 ^ 32.
Proof. unfold on_plane. destruct e; simpl; lia. Qed.

Lemma crossing_exact a b :
  on_plane a -> on_plane b -> crossing checks a b = Some (crossing_at a b).
Proof.
  intros Ha Hb. unfold crossing, crossing_at. rewrite touching_edge_exact by done. simpl.
  destruct (side_at a b) as [e|]; simpl; [|done].
  pose proof (along_edge_on_plane e a Ha) as Pa. pose proof (along_edge_on_plane e b Hb) as Pb.
  destruct (along_edge e a) as [sa la], (along_edge e b) as [sb lb]. simpl in *.
  rewrite !i64_exact by lia. simpl. destruct (_ <=? _) eqn:E; [done|].
  unfold fraction. rewrite !i64_exact by lia. done.
Qed.

Lemma overlaps_exact a b :
  on_plane a -> on_plane b ->
  overlaps checks a b = Some ((TOUCH_TOLERANCE <? shared_width a b) && (TOUCH_TOLERANCE <? shared_height a b)).
Proof.
  intros Ha Hb. unfold overlaps, overlap_x, overlap_y.
  rewrite !right_exact, !bottom_exact by done. simpl.
  rewrite (i64_exact (Z.min (right_of a) _ - _)) by (unfold on_plane, right_of in *; lia). simpl.
  rewrite (i64_exact (Z.min (bottom_of a) _ - _)) by (unfold on_plane, bottom_of in *; lia). done.
Qed.
End Exact.

(** ** Facing parts of two edges *)

(** Where on the plane a fraction of an edge lies. *)
Definition position (e : Edge.t) (m : Monitor) (along : Q) : Q :=
  (inject_Z (fst (along_edge e m)) + along * inject_Z (snd (along_edge e m)))%Q.

(** The part of [from]'s edge that faces [to], made longer by [tolerance] at its
    ends, or shorter where it is negative. *)
Definition faces (tolerance : Q) (e : Edge.t) (from to : Monitor) (at_ : Q) : Prop :=
  (position e from 0 - tolerance <= at_ /\ at_ <= position e from 1 + tolerance
   /\ position e to 0 - tolerance <= at_ /\ at_ <= position e to 1 + tolerance)%Q.

(** How far two places may be apart through rounding. *)
Definition rounding (e : Edge.t) (a b : Monitor) : Q :=
  slack (snd (along_edge e a)) (snd (along_edge e b)).

Definition has_area (m : Monitor) : Prop := 0 < m_width m /\ 0 < m_height m.

(** Two monitors that together are wider and higher than a touch on both
    opposite sides. *)
Definition not_slivers (a b : Monitor) : Prop :=
  2 * TOUCH_TOLERANCE < m_width a + m_width b /\ 2 * TOUCH_TOLERANCE < m_height a + m_height b.

Lemma along_edge_len e m : has_area m -> 0 < snd (along_edge e m).
Proof. destruct e; simpl; unfold has_area; lia. Qed.

Lemma along_edge_opposite e m : along_edge (Edge.opposite e) m = along_edge e m.
Proof. by destruct e. Qed.

(** The two axes of the place where edges meet. *)
Lemma crossing_inv a b c :
  crossing_at a b = Some c ->
  exists sa la sb lb,
    side_at a b = Some (c_edge c)
    /\ along_edge (c_edge c) a = (sa, la) /\ along_edge (c_edge c) b = (sb, lb)
    /\ Z.max sa sb < Z.min (sa + la) (sb + lb)
    /\ c_from c = to_ref a /\ c_to c = to_ref b
    /\ c_from_span c = (F64.div (F64.of_Z (Z.max sa sb - sa)) (F64.of_Z la),
                        F64.div (F64.of_Z (Z.min (sa + la) (sb + lb) - sa)) (F64.of_Z la))
    /\ c_to_span c = (F64.div (F64.of_Z (Z.max sa sb - sb)) (F64.of_Z lb),
                      F64.div (F64.of_Z (Z.min (sa + la) (sb + lb) - sb)) (F64.of_Z lb)).
Proof.
  unfold crossing_at. destruct (side_at a b) as [e|] eqn:He; simpl; [|done].
  destruct (along_edge e a) as [sa la] eqn:Ea, (along_edge e b) as [sb lb] eqn:Eb.
  case_match eqn:Hlt; [done|]. intros [= <-]. simpl.
  exists sa, la, sb, lb. repeat split; try done. lia.
Qed.

Lemma crossing_intro a b e sa la sb lb :
  side_at a b = Some e ->
  along_edge e a = (sa, la) -> along_edge e b = (sb, lb) ->
  Z.max sa sb < Z.min (sa + la) (sb + lb) ->
  exists c, crossing_at a b = Some c /\ c_edge c = e.
Proof.
  intros He Ea Eb Hlt. unfold crossing_at. rewrite He. simpl. rewrite Ea, Eb.
  rewrite (proj2 (Z.leb_gt _ _)) by lia. by eexists.
Qed.

Lemma position_ends e m :
  (position e m 0 == inject_Z (fst (along_edge e m))
   /\ position e m 1 == inject_Z (fst (along_edge e m) + snd (along_edge e m)))%Q.
Proof. unfold position. rewrite inject_Z_plus. split; ring. Qed.

Lemma inject_Z_max_le a b (q : Q) :
  (inject_Z (Z.max a b) <= q <-> inject_Z a <= q /\ inject_Z b <= q)%Q.
Proof.
  split.
  - intros H. split; (eapply Qle_trans; [|exact H]); rewrite <- Zle_Qle; lia.
  - intros [? ?]. by destruct (Z.max_spec a b) as [[_ ->]|[_ ->]].
Qed.

Lemma inject_Z_min_le a b (q : Q) :
  (q <= inject_Z (Z.min a b) <-> q <= inject_Z a /\ q <= inject_Z b)%Q.
Proof.
  split.
  - intros H. split; (eapply Qle_trans; [exact H|]); rewrite <- Zle_Qle; lia.
  - intros [? ?]. by destruct (Z.min_spec a b) as [[_ ->]|[_ ->]].
Qed.

(** The interval of the two spans is the part of the edges that face. *)
Lemma faces_interval r e a b (q : Q) :
  (faces r e a b q
   <-> inject_Z (Z.max (fst (along_edge e a)) (fst (along_edge e b))) - r <= q
       /\ q <= inject_Z (Z.min (fst (along_edge e a) + snd (along_edge e a))
                               (fst (along_edge e b) + snd (along_edge e b))) + r)%Q.
Proof.
  unfold faces. destruct (position_ends e a) as [Ha Ha'], (position_ends e b) as [Hb Hb'].
  rewrite Ha, Ha', Hb, Hb'.
  set (lo := Z.max _ _). set (hi := Z.min _ _).
  assert (Hlo : (inject_Z lo <= q + r <-> _)%Q) by apply inject_Z_max_le.
  assert (Hhi : (q - r <= inject_Z hi <-> _)%Q) by apply inject_Z_min_le.
  split.
  - intros (H1 & H2 & H3 & H4).
    assert ((inject_Z lo <= q + r)%Q) by (apply Hlo; split; lra).
    assert ((q - r <= inject_Z hi)%Q) by (apply Hhi; split; lra). split; lra.
  - intros [H1 H2].
    destruct (proj1 Hlo) as [? ?]; [lra|]. destruct (proj1 Hhi) as [? ?]; [lra|]. split_and!; lra.
Qed.

Lemma position_opposite e m q : position (Edge.opposite e) m q = position e m q.
Proof. unfold position. by rewrite along_edge_opposite. Qed.

Lemma faces_opposite r e a b q : faces r (Edge.opposite e) b a q <-> faces r e a b q.
Proof. unfold faces. rewrite !position_opposite. tauto. Qed.

Lemma rounding_opposite e a b : rounding (Edge.opposite e) b a = rounding e a b.
Proof. unfold rounding, slack. by rewrite !along_edge_opposite, Z.add_comm. Qed.

(** Leaving and entering are at one place of the plane, up to rounding. *)
Lemma map_along_faces a b c along :
  on_plane a -> on_plane b -> has_area a -> has_area b -> crossing_at a b = Some c ->
  let e := c_edge c in
  let r := rounding e a b in
  match map_along c along with
  | Some entered => exists p q, along = F64.Finite p /\ entered = F64.Finite q
      /\ faces r e a b (position e a p) /\ (Qabs (position e b q - position e a p) <= r)%Q
  | None => forall p, along = F64.Finite p -> ~ faces (- r) e a b (position e a p)
  end.
Proof.
  intros Pa Pb Ha Hb (sa & la & sb & lb & _ & Ea & Eb & Hlt & _ & _ & Hf & Ht)%crossing_inv e r.
  pose proof (along_edge_len e a Ha) as Hla. pose proof (along_edge_on_plane e a Pa) as Hpa.
  pose proof (along_edge_len e b Hb) as Hlb. pose proof (along_edge_on_plane e b Pb) as Hpb.
  unfold e in Hla, Hpa, Hlb, Hpb. rewrite Ea in Hla, Hpa. rewrite Eb in Hlb, Hpb.
  cbn [fst snd] in Hla, Hpa, Hlb, Hpb.
  assert (H := map_along_plane (Z.max sa sb) (Z.min (sa + la) (sb + lb)) sa la sb lb along c ltac:(lia) ltac:(lia) Hlt
                 ltac:(lia) ltac:(lia) ltac:(lia) ltac:(lia) Hf Ht).
  unfold r, e, rounding, position. rewrite Ea, Eb. cbn [fst snd].
  destruct (map_along c along) as [t|].
  - destruct H as (p & q & -> & -> & Hlo & Hhi & Hat). exists p, q. split_and!; [done..| |done].
    apply faces_interval. rewrite Ea, Eb. cbn [fst snd]. by split.
  - intros p Hp. specialize (H p Hp). rewrite faces_interval, Ea, Eb. cbn [fst snd].
    intros [H1 H2]. destruct H; lra.
Qed.

Lemma rounding_small e a b :
  on_plane a -> on_plane b -> (0 <= rounding e a b /\ rounding e a b <= 1 # 65536)%Q.
Proof.
  intros Ha%(along_edge_on_plane e) Hb%(along_edge_on_plane e). unfold rounding, slack.
  set (n := _ + _). pose proof (pow2_pos (-49)).
  assert ((0 <= inject_Z n)%Q) by (change 0%Q with (inject_Z 0); rewrite <- Zle_Qle; lia).
  assert ((inject_Z n <= inject_Z (2 ^ 33))%Q) by (rewrite <- Zle_Qle; lia).
  split; [nra|]. apply Qle_trans with (inject_Z (2 ^ 33) * (2 # 1) ^ (-49))%Q; [|done].
  by apply Qmult_le_compat_r; [|apply Qlt_le_weak].
Qed.

Lemma close_to_sym x y : close_to x y = close_to y x.
Proof. unfold close_to. by rewrite <- Z.abs_opp, Z.opp_sub_distr, Z.add_comm. Qed.

Lemma close_to_apart x y x' y' :
  2 * TOUCH_TOLERANCE < Z.abs (x - y - (x' - y')) -> close_to x y = true -> close_to x' y' = false.
Proof. unfold close_to. lia. Qed.

(** The monitor entered close_to back through the opposite side. *)
Lemma side_at_opposite a b e :
  not_slivers a b -> side_at a b = Some e -> side_at b a = Some (Edge.opposite e).
Proof.
  unfold not_slivers, side_at. intros [Hw Hh].
  rewrite (close_to_sym (m_x b)), (close_to_sym (right_of b)), (close_to_sym (m_y b)),
    (close_to_sym (bottom_of b)).
  destruct (close_to (right_of a) (m_x b)) eqn:E1.
  { intros [= <-]. rewrite (close_to_apart (right_of a) (m_x b)); [done| |done].
    unfold right_of. lia. }
  destruct (close_to (m_x a) (right_of b)) eqn:E2; [by intros [= <-]|].
  destruct (close_to (bottom_of a) (m_y b)) eqn:E3.
  { intros [= <-]. rewrite (close_to_apart (bottom_of a) (m_y b)); [done| |done].
    unfold bottom_of. lia. }
  destruct (close_to (m_y a) (bottom_of b)) eqn:E4; [by intros [= <-]|done].
Qed.

Lemma crossing_back a b c :
  not_slivers a b -> crossing_at a b = Some c ->
  exists d, crossing_at b a = Some d /\ c_edge d = Edge.opposite (c_edge c).
Proof.
  intros Hs (sa & la & sb & lb & He & Ea & Eb & Hlt & _)%crossing_inv.
  apply (crossing_intro _ _ _ sb lb sa la); [by apply side_at_opposite|..];
    [by rewrite along_edge_opposite..|]. lia.
Qed.


(** A small screen placed lower on the left of a large one. *)
Definition sample_large : Monitor :=
  {| m_device := [1]; m_id := [0]; m_x := 0; m_y := 0; m_width := 2560; m_height := 1600 |}.
Definition sample_small : Monitor :=
  {| m_device := [2]; m_id := [0]; m_x := -1920; m_y := 200; m_width := 1920; m_height := 1080 |}.

(** The crossing between two monitors, and where it leads. *)
Definition leads (from to : Monitor) (along : F64.t) : option F64.t :=
  match crossing true from to with Some (Some c) => map_along c along | _ => None end.


(** The end of a span need not lead back: leaving the lower end of a screen of
    1080 lines into one of 1600 placed 412 lines higher arrives one bit below the
    end of the span of the way back. *)
Definition sample_upper : Monitor :=
  {| m_device := [1]; m_id := [0]; m_x := 0; m_y := 0; m_width := 1920; m_height := 1080 |}.
Definition sample_lower : Monitor :=
  {| m_device := [2]; m_id := [0]; m_x := 1920; m_y := -412; m_width := 1920; m_height := 1600 |}.

Example end_does_not_lead_back :
  match leads sample_upper sample_lower (F64.Finite 1) with
  | Some entered => leads sample_lower sample_upper entered = None
  | None => False
  end.
Proof. vm_compute. reflexivity. Qed.

(** ** The check of a layout *)

(** Edges within the tolerance of each other, side by side or one below the
    other; contact at a corner counts as side by side. *)
Definition sides_touch (a b : Monitor) : bool :=
  close_to (right_of a) (m_x b) || close_to (m_x a) (right_of b).
Definition ends_touch (a b : Monitor) : bool :=
  close_to (bottom_of a) (m_y b) || close_to (m_y a) (bottom_of b).

(** The geometry of a shared edge, with no reference to the order of the code's
    tests. *)
Definition shares_edge (a b : Monitor) : Prop :=
  if sides_touch a b then 0 < shared_height a b
  else ends_touch a b = true /\ 0 < shared_width a b.

(** What a usable layout is. *)
Record usable (monitors : list Monitor) : Prop := {
  every_area : Forall (fun m => m_width m <> 0 /\ m_height m <> 0) monitors;
  no_overlap : forall i j a b,
    (i < j)%nat -> monitors !! i = Some a -> monitors !! j = Some b ->
    shared_width a b <= TOUCH_TOLERANCE \/ shared_height a b <= TOUCH_TOLERANCE;
  no_island : forall a b,
    a ∈ monitors -> b ∈ monitors -> m_device a <> m_device b ->
    exists a' b', a' ∈ monitors /\ b' ∈ monitors /\ m_device a' = m_device a
                  /\ m_device b' <> m_device a /\ shares_edge a' b';
}.

(** What each refusal names. *)
Definition blames (monitors : list Monitor) (e : LayoutError) : Prop :=
  match e with
  | Empty r => exists m, m ∈ monitors /\ r = to_ref m /\ (m_width m = 0 \/ m_height m = 0)
  | Overlap r r' => exists i j a b,
      (i < j)%nat /\ monitors !! i = Some a /\ monitors !! j = Some b
      /\ r = to_ref a /\ r' = to_ref b
      /\ TOUCH_TOLERANCE < shared_width a b /\ TOUCH_TOLERANCE < shared_height a b
  | Detached device =>
      (exists a b, a ∈ monitors /\ b ∈ monitors /\ m_device a = device /\ m_device b <> device)
      /\ forall a b, a ∈ monitors -> b ∈ monitors -> m_device a = device -> m_device b <> device ->
           ~ shares_edge a b
  end.

Lemma crossing_shares_edge a b : is_Some (crossing_at a b) <-> shares_edge a b.
Proof.
  unfold crossing_at, side_at, shares_edge, sides_touch, ends_touch, shared_width, shared_height.
  unfold right_of, bottom_of.
  destruct (close_to (m_x a + _) _); simpl;
    [|destruct (close_to (m_x a) _); simpl;
      [|destruct (close_to (m_y a + _) _); simpl; [|destruct (close_to (m_y a) _); simpl]]].
  5: { split; [by intros [? ?]|by intros [? ?]]. }
  all: destruct (_ <=? _) eqn:E; split; try (by intros [? ?]); try (intros; lia);
    intros; first [split; [done|lia]|lia|done].
Qed.

Lemma check_areas_spec monitors :
  match check_areas monitors with
  | Ok _ => Forall (fun m => m_width m <> 0 /\ m_height m <> 0) monitors
  | Err e => exists m, m ∈ monitors /\ e = Empty (to_ref m) /\ (m_width m = 0 \/ m_height m = 0)
  end.
Proof.
  induction monitors as [|m ms IH]; simpl; [constructor|].
  destruct ((m_width m =? 0) || (m_height m =? 0)) eqn:E.
  - exists m. split_and!; [set_solver|done|lia].
  - destruct (check_areas ms) as [[]|e]; [constructor; [lia|done]|].
    destruct IH as (m' & ? & ? & ?). exists m'. split_and!; [set_solver|done..].
Qed.

Section Check.
Context (checks : bool).

(** What [check_overlaps] compares, over the integers. *)
Definition overlap_at (a b : Monitor) : bool :=
  (TOUCH_TOLERANCE <? shared_width a b) && (TOUCH_TOLERANCE <? shared_height a b).

Lemma check_overlaps_of_spec a rest :
  on_plane a -> Forall on_plane rest ->
  check_overlaps_of checks a rest
  = Some (match List.find (overlap_at a) rest with
          | Some b => Err (Overlap (to_ref a) (to_ref b))
          | None => Ok tt
          end).
Proof.
  intros Ha. induction 1 as [|b rest Hb _ IH]; simpl; [done|].
  rewrite overlaps_exact by done. fold (overlap_at a b). simpl. by destruct (overlap_at a b).
Qed.

Lemma check_overlaps_spec monitors :
  Forall on_plane monitors ->
  exists verdict, check_overlaps checks monitors = Some verdict
  /\ match verdict with
     | Ok _ => forall i j a b, (i < j)%nat -> monitors !! i = Some a -> monitors !! j = Some b ->
                 overlap_at a b = false
     | Err e => exists i j a b, (i < j)%nat /\ monitors !! i = Some a /\ monitors !! j = Some b
                 /\ e = Overlap (to_ref a) (to_ref b) /\ overlap_at a b = true
     end.
Proof.
  induction 1 as [|m ms Hm Hms IH]; simpl; [exists (Ok tt); split; [done|by intros [|i]]|].
  rewrite check_overlaps_of_spec by done. simpl.
  destruct (List.find (overlap_at m) ms) as [b|] eqn:E.
  - eexists. split; [done|].
    apply find_some in E as [Hin Ho]. apply list_elem_of_In, list_elem_of_lookup_1 in Hin as [j Hj].
    exists 0%nat, (S j), m, b. split_and!; [lia|done..].
  - destruct IH as (verdict & -> & IH). eexists. split; [done|]. destruct verdict as [[]|e].
    + intros [|i] [|j] a b Hij Ha Hb; simpl in *; try lia; [|by apply (IH i j); [lia|..]].
      injection Ha as <-. apply (find_none _ _ E), list_elem_of_In.
      by apply list_elem_of_lookup_2 in Hb.
    + destruct IH as (i & j & a & b & ? & ? & ? & ? & ?).
      exists (S i), (S j), a, b. split_and!; [lia|done..].
Qed.

Lemma elem_of_option_list {A} (o : option A) x : x ∈ option_list o <-> o = Some x.
Proof. destruct o; simpl; [rewrite list_elem_of_singleton|]; set_solver. Qed.

Lemma crossings_of_spec a rest :
  on_plane a -> Forall on_plane rest ->
  exists found, crossings_of checks a rest = Some found
  /\ forall c, c ∈ found <-> exists b, b ∈ rest /\ m_device a <> m_device b
                 /\ (crossing_at a b = Some c \/ crossing_at b a = Some c).
Proof.
  intros Ha. induction 1 as [|b rest Hb _ (found & Hf & IH)]; simpl; [exists []; set_solver|].
  rewrite Hf. unfold pair_crossings. case_bool_decide as Hd; simpl.
  - exists found. split; [done|]. intros c. rewrite IH. set_solver.
  - rewrite !crossing_exact by done. simpl. eexists. split; [done|].
    intros c. rewrite !elem_of_app, !elem_of_option_list, IH. split.
    + intros [[?|?]|(b' & ? & ? & ?)]; [exists b|exists b|exists b']; set_solver.
    + intros (b' & [->|Hin]%elem_of_cons & Hne & Hc); [tauto|]. right. by exists b'.
Qed.

(** Both directions of every pair of monitors of different devices. *)
Definition all_crossings (monitors : list Monitor) (linked : list Crossing) : Prop :=
  forall c, c ∈ linked <-> exists a b, a ∈ monitors /\ b ∈ monitors /\ m_device a <> m_device b
                                     /\ crossing_at a b = Some c.

Lemma elem_of_crossings monitors :
  Forall on_plane monitors ->
  exists linked, crossings checks monitors = Some linked
  /\ all_crossings monitors linked.
Proof.
  induction 1 as [|m ms Hm Hms (more & Hmore & IH)]; simpl; [exists []; unfold all_crossings; set_solver|].
  destruct (crossings_of_spec m ms Hm Hms) as (found & -> & Hf). rewrite Hmore. simpl.
  eexists. split; [done|]. intros c. unfold all_crossings in IH. rewrite elem_of_app, Hf, IH. split.
  - intros [(b & Hb & Hne & [Hc|Hc])|(a & b & ? & ? & ? & ?)];
      [exists m, b|exists b, m|exists a, b]; set_solver.
  - intros (a & b & Ha & Hb & Hd & Hc).
    apply elem_of_cons in Ha as [->|Ha], Hb as [->|Hb]; [done|left; exists b|left; exists a|right; exists a, b];
      split_and!; auto.
Qed.
End Check.

Lemma elem_of_dedup l x : x ∈ dedup l <-> x ∈ l.
Proof.
  induction l as [|y l IH]; simpl; [done|]. destruct l as [|z l]; [done|].
  case_bool_decide; rewrite ?elem_of_cons, IH; [subst; set_solver|set_solver].
Qed.

Lemma dedup_single l x : (forall y, y ∈ l -> y = x) -> len (dedup l) <= 1.
Proof.
  induction l as [|y l IH]; intros H; [done|].
  simpl. destruct l as [|z l]; [done|].
  rewrite bool_decide_true; [apply IH; set_solver|].
  rewrite (H y), (H z); set_solver.
Qed.

Lemma elem_of_devices monitors d :
  d ∈ devices monitors <-> exists m, m ∈ monitors /\ m_device m = d.
Proof.
  unfold devices. rewrite elem_of_dedup, (merge_sort_Permutation device_le).
  rewrite list_elem_of_fmap. naive_solver.
Qed.

Lemma len_devices monitors :
  1 < len (devices monitors) <->
  exists a b, a ∈ monitors /\ b ∈ monitors /\ m_device a <> m_device b.
Proof.
  split.
  - intros H. destruct monitors as [|m ms]; [done|].
    destruct (decide (Forall (fun b => m_device b = m_device m) (m :: ms))) as [Hall|Hn].
    + exfalso. apply Z.lt_nge in H. apply H, dedup_single with (m_device m).
      intros y Hy. rewrite (merge_sort_Permutation device_le) in Hy.
      apply list_elem_of_fmap in Hy as (b & -> & Hb). by apply (proj1 (Forall_forall _ _) Hall).
    + apply not_Forall_Exists in Hn; [|solve_decision].
      apply Exists_exists in Hn as (b & Hb & Hd). exists m, b. set_solver.
  - intros (a & b & Ha & Hb & Hd).
    assert (Hda : m_device a ∈ devices monitors) by (apply elem_of_devices; eauto).
    assert (Hdb : m_device b ∈ devices monitors) by (apply elem_of_devices; eauto).
    destruct (devices monitors) as [|x [|y l]]; [set_solver..|].
    rewrite !len_cons. pose proof (len_nonneg l). lia.
Qed.

(** A device with a crossing out of it, in terms of the geometry. *)
Lemma linked_spec monitors linked d :
  all_crossings monitors linked ->
  existsb (fun c => bool_decide (ref_device (c_from c) = d)) linked = true <->
  exists a b, a ∈ monitors /\ b ∈ monitors /\ m_device a = d /\ m_device b <> d /\ shares_edge a b.
Proof.
  intros Hl. rewrite existsb_exists. split.
  - intros (c & Hc & Hd). apply bool_decide_eq_true in Hd.
    apply list_elem_of_In, Hl in Hc as (a & b & Ha & Hb & Hne & Hc).
    pose proof (crossing_inv _ _ _ Hc) as (? & ? & ? & ? & _ & _ & _ & _ & Hfrom & _).
    rewrite Hfrom in Hd. simpl in Hd. exists a, b. split_and!; [done..|congruence|].
    by apply crossing_shares_edge.
  - intros (a & b & Ha & Hb & Hd & Hne & Hs).
    apply crossing_shares_edge in Hs as [c Hc]. exists c. split.
    + apply list_elem_of_In, Hl. exists a, b. split_and!; [done..|congruence|done].
    + pose proof (crossing_inv _ _ _ Hc) as (? & ? & ? & ? & _ & _ & _ & _ & -> & _).
      by apply bool_decide_eq_true.
Qed.

Lemma lonely_spec monitors linked :
  all_crossings monitors linked ->
  match lonely linked (devices monitors) with
  | None => forall m, m ∈ monitors -> exists a b, a ∈ monitors /\ b ∈ monitors
              /\ m_device a = m_device m /\ m_device b <> m_device m /\ shares_edge a b
  | Some d => (exists m, m ∈ monitors /\ m_device m = d)
              /\ forall a b, a ∈ monitors -> b ∈ monitors -> m_device a = d -> m_device b <> d ->
                   ~ shares_edge a b
  end.
Proof.
  intros Hl. unfold lonely. destruct (List.find _ _) as [d|] eqn:E.
  - apply find_some in E as [Hin Hn]. apply list_elem_of_In, elem_of_devices in Hin.
    split; [done|]. intros a b Ha Hb Hda Hdb Hs. apply negb_true_iff, not_true_iff_false in Hn.
    apply Hn, (linked_spec monitors); [done|]. by exists a, b.
  - intros m Hm. apply (linked_spec monitors linked); [done|].
    apply negb_false_iff, (find_none _ _ E), list_elem_of_In, elem_of_devices. eauto.
Qed.

(** C33: for monitors within the range of places of the plane, a build with and
    one without overflow checks gives a verdict: a layout is accepted exactly when
    it is usable (every monitor has area, no two overlap by more than the
    tolerance on both axes, and every device of several shares part of an edge
    with another), and each refusal names a monitor without area, two monitors
    that overlap, or a device of several that shares no edge with any other. *)
Theorem validate_is_usable checks monitors :
  Forall on_plane monitors ->
  exists verdict, validate checks monitors = Some verdict
  /\ (verdict = Ok tt <-> usable monitors)
  /\ (forall e, verdict = Err e -> blames monitors e).
Proof.
  intros Hall. unfold validate. pose proof (check_areas_spec monitors) as Ha.
  destruct (check_areas monitors) as [[]|e]; simpl.
  2: { destruct Ha as (m & Hm & -> & Hz). eexists. split; [done|].
       split; [split; [done|]|intros ? [= <-]; by exists m].
       intros [Harea _ _]. rewrite Forall_forall in Harea. specialize (Harea m Hm). lia. }
  destruct (check_overlaps_spec checks monitors Hall) as (verdict & -> & Ho). simpl.
  unfold overlap_at in Ho. destruct verdict as [[]|e].
  2: { destruct Ho as (i & j & a & b & Hij & Hi & Hj & -> & Hov). eexists. split; [done|].
       split; [split; [done|]|intros ? [= <-]; exists i, j, a, b; split_and!; try done; lia].
       intros [_ Hno _]. specialize (Hno i j a b Hij Hi Hj). lia. }
  assert (Hno : forall i j a b, (i < j)%nat -> monitors !! i = Some a -> monitors !! j = Some b ->
            shared_width a b <= TOUCH_TOLERANCE \/ shared_height a b <= TOUCH_TOLERANCE).
  { intros i j a b Hij Hi Hj. specialize (Ho i j a b Hij Hi Hj). lia. }
  pose proof (len_devices monitors) as Hd.
  destruct (1 <? len (devices monitors)) eqn:Hlen.
  - apply Z.ltb_lt, Hd in Hlen.
    destruct (elem_of_crossings checks monitors Hall) as (linked & -> & Hl). simpl.
    pose proof (lonely_spec monitors linked Hl) as Hi. destruct (lonely _ _) as [d|].
    + destruct Hi as [(m & Hm & Hmd) Hs]. destruct Hlen as (x & y & Hx & Hy & Hxy).
      assert (exists b, b ∈ monitors /\ m_device b <> d) as (b & Hb & Hbd).
      { destruct (decide (m_device x = d)); [exists y|exists x]; split; congruence. }
      eexists. split; [done|].
      split; [split; [done|]|intros ? [= <-]; split; [by exists m, b|done]].
      intros [_ _ Hisl]. destruct (Hisl m b Hm Hb) as (a' & b' & ? & ? & ? & ? & ?); [congruence|].
      subst d. exfalso. by apply (Hs a' b').
    + exists (Ok tt). split; [done|]. split; [|done]. split; [|done].
      intros _. split; [done..|]. intros a b Hma _ _. eauto.
  - exists (Ok tt). split; [done|]. split; [|done]. split; [|done].
    intros _. split; [done..|]. intros a b Hma Hmb Hne.
    exfalso. apply Z.ltb_ge in Hlen. assert (1 < len (devices monitors)) by (apply Hd; eauto). lia.
Qed.

Lemma validate_is_usable_witness :
  validate true [sample_large; sample_small] = Some (Ok tt) /\ usable [sample_large; sample_small].
Proof.
  split; [vm_compute; reflexivity|].
  destruct (validate_is_usable true [sample_large; sample_small]) as (verdict & Hv & Hu & _).
  - constructor; [done|constructor; [done|constructor]].
  - apply Hu. vm_compute in Hv. injection Hv as <-. reflexivity.
Defined.

(** Out of that range: two screens at the far right of the plane that share one
    column, which the tolerance allows, stop a build with overflow checks, and one
    without refuses them as overlapping. *)
Definition sample_far : Monitor :=
  {| m_device := [1]; m_id := [0]; m_x := 2 ^ 63 - 11; m_y := 0; m_width := 2; m_height := 100 |}.
Definition sample_farther : Monitor :=
  {| m_device := [2]; m_id := [0]; m_x := 2 ^ 63 - 10; m_y := 0; m_width := 100; m_height := 100 |}.

Example far_layout_panics_or_wraps :
  validate true [sample_far; sample_farther] = None
  /\ validate false [sample_far; sample_farther]
     = Some (Err (Overlap (to_ref sample_far) (to_ref sample_farther))).
Proof. split; vm_compute; reflexivity. Qed.

(** ** Snapping *)

Section Snap.
Context (checks : bool).

(** One candidate, over the integers. *)
Definition nearer (threshold wanted : Z) (best : option (Z * Z)) (candidate : Z) : option (Z * Z) :=
  let distance := Z.abs (candidate - wanted) in
  if (distance <=? threshold)
     && match best with Some (_, d) => distance <? d | None => true end
  then Some (candidate, distance) else best.

Lemma consider_all_exact threshold wanted best lines :
  Z.abs wanted < 2 ^ 62 -> Forall (fun c => Z.abs c <= 2 ^ 62) lines ->
  consider_all checks threshold wanted best lines = Some (foldl (nearer threshold wanted) best lines).
Proof.
  intros Hw H. revert best. induction H as [|c lines Hc _ IH]; intros best; simpl; [done|].
  unfold consider. rewrite i64_exact by lia. simpl. rewrite i64_exact by lia. simpl. apply IH.
Qed.

(** The lines of another monitor that a side can meet. *)
Definition lines_x (moving other : Monitor) : list Z :=
  [right_of other; m_x other - m_width moving; m_x other; right_of other - m_width moving].
Definition lines_y (moving other : Monitor) : list Z :=
  [bottom_of other; m_y other - m_height moving; m_y other; bottom_of other - m_height moving].

Lemma candidates_exact moving other :
  on_plane moving -> on_plane other ->
  candidates_x checks moving other = Some (lines_x moving other)
  /\ candidates_y checks moving other = Some (lines_y moving other)
  /\ Forall (fun c => Z.abs c <= 2 ^ 62) (lines_x moving other)
  /\ Forall (fun c => Z.abs c <= 2 ^ 62) (lines_y moving other).
Proof.
  intros Hm Ho. unfold candidates_x, candidates_y, lines_x, lines_y.
  rewrite right_exact, bottom_exact by done. simpl. unfold on_plane, right_of, bottom_of in *.
  rewrite !i64_exact by lia. split_and!; [done..| |]; repeat constructor; lia.
Qed.

Lemma snap_loop_exact moving x y threshold others best_x best_y :
  on_plane moving -> Forall on_plane others -> Z.abs x < 2 ^ 62 -> Z.abs y < 2 ^ 62 ->
  snap_loop checks moving x y threshold others best_x best_y
  = Some (foldl (nearer threshold x) best_x (mjoin (lines_x moving <$> others)),
          foldl (nearer threshold y) best_y (mjoin (lines_y moving <$> others))).
Proof.
  intros Hm Hall Hx Hy. revert best_x best_y.
  induction Hall as [|o others Ho _ IH]; intros best_x best_y; [done|].
  rewrite !fmap_cons. cbn [snap_loop mjoin list_join]. rewrite !foldl_app.
  destruct (candidates_exact moving o Hm Ho) as (-> & -> & Hlx & Hly).
  cbn [mbind option_bind]. rewrite !consider_all_exact by done. cbn [mbind option_bind].
  apply IH.
Qed.

(** Every line of [lines] as near as [best], which is one of them. *)
Lemma nearer_best threshold wanted lines best at_ d :
  (forall c d, best = Some (c, d) -> d = Z.abs (c - wanted)) ->
  foldl (nearer threshold wanted) best lines = Some (at_, d) ->
  d = Z.abs (at_ - wanted)
  /\ (best = Some (at_, d) \/ (at_ ∈ lines /\ d <= threshold))
  /\ (forall c, c ∈ lines -> d <= Z.abs (c - wanted) \/ threshold < Z.abs (c - wanted))
  /\ (forall c e, best = Some (c, e) -> d <= e).
Proof.
  revert best. induction lines as [|l lines IH]; intros best Hbest H; simpl in H.
  - subst best. split_and!; [by apply Hbest|by left|set_solver|naive_solver].
  - unfold nearer at 2 in H. destruct (_ && _) eqn:E.
    + apply IH in H as (-> & Hin & Hl & Hc); [|naive_solver].
      specialize (Hc _ _ eq_refl). apply andb_true_iff in E as [E1 E2]. split_and!; [done|..].
      * right. destruct Hin as [[= -> _]|[? ?]]; split; try lia; set_solver.
      * intros c [->|Hc']%elem_of_cons; [lia|by apply Hl].
      * intros c e ->. lia.
    + apply IH in H as (-> & Hin & Hl & Hc); [|done]. split_and!; [done|..|done].
      * destruct Hin as [?|[? ?]]; [by left|right; split; [set_solver|done]].
      * intros c [->|Hc']%elem_of_cons; [|by apply Hl].
        destruct best as [[c e]|]; [|lia]. specialize (Hc _ _ eq_refl). lia.
Qed.

Lemma nearer_none threshold wanted lines :
  foldl (nearer threshold wanted) None lines = None ->
  forall c, c ∈ lines -> threshold < Z.abs (c - wanted).
Proof.
  assert (Hsome : forall lines best, is_Some best ->
            is_Some (foldl (nearer threshold wanted) best lines)).
  { intros l. induction l as [|x l IH]; intros best Hb; simpl; [done|]. apply IH.
    unfold nearer. by case_match. }
  induction lines as [|l lines IH]; simpl; [set_solver|]. unfold nearer at 2.
  destruct (_ && _) eqn:E.
  - intros H. destruct (Hsome lines (Some (l, Z.abs (l - wanted)))) as [? ?]; [done|congruence].
  - intros H c [->|Hc]%elem_of_cons; [lia|by apply IH].
Qed.

(** The nearest of [lines] no further than [threshold], or the place asked for. *)
Definition snapped (threshold wanted : Z) (lines : list Z) (at_ : Z) : Prop :=
  (at_ = wanted /\ forall c, c ∈ lines -> threshold < Z.abs (c - wanted))
  \/ (at_ ∈ lines /\ Z.abs (at_ - wanted) <= threshold
      /\ forall c, c ∈ lines -> Z.abs (at_ - wanted) <= Z.abs (c - wanted)).

Lemma nearer_snapped threshold wanted lines :
  snapped threshold wanted lines
    (match foldl (nearer threshold wanted) None lines with Some (at_, _) => at_ | None => wanted end).
Proof.
  destruct (foldl _ None lines) as [[at_ d]|] eqn:E.
  - apply nearer_best in E as (-> & [?|[Hin Hle]] & Hl & _); [done| |done].
    right. split_and!; [done..|]. intros c Hc. destruct (Hl c Hc); lia.
  - left. split; [done|]. by apply nearer_none.
Qed.

(** Each axis of [snap] on its own, against the lines of the other devices. *)
Theorem snap_is_nearest moving x y others threshold :
  on_plane moving -> Forall on_plane others -> Z.abs x < 2 ^ 62 -> Z.abs y < 2 ^ 62 ->
  let others' := List.filter (fun m => negb (bool_decide (m_device m = m_device moving))) others in
  exists at_x at_y, snap checks moving x y others threshold = Some (at_x, at_y)
  /\ snapped threshold x (mjoin (lines_x moving <$> others')) at_x
  /\ snapped threshold y (mjoin (lines_y moving <$> others')) at_y.
Proof.
  intros Hm Hall Hx Hy others'. unfold snap. cbv zeta. fold others'.
  assert (Ho : Forall on_plane others').
  { apply Forall_forall. intros m Hin. unfold others' in Hin.
    apply list_elem_of_In, filter_In in Hin as [Hin _].
    rewrite Forall_forall in Hall. by apply Hall, list_elem_of_In. }
  rewrite snap_loop_exact by done. simpl.
  eexists _, _. split; [reflexivity|]. split; apply nearer_snapped.
Qed.
End Snap.
