(* ===== verification/InputCapture.v ===== *)
(** * Input capture: the platform-independent wrapper

    [crates/syntra-input-capture/src/lib.rs]: which capture clients wait at
    which edge of the screen, which keys and buttons the captured input holds
    down, and how an event of the platform back end is handed to the clients of
    its edge.  The back end itself (libei, layer-shell, X11, Windows, macOS, the
    phone's touchpad) is behind the trait [Capture]; it is the class
    [CaptureBackend]. *)

From S2P Require Import Prelude ProtoTypes.

(** [syntra_input_capture::Position] *)
Module Side.
Inductive t := Left | Right | Top | Bottom.
#[global] Instance t_eq_dec : EqDecision t.
Proof. solve_decision. Defined.
#[global] Instance t_countable : Countable t.
Proof.
  refine (inj_countable' (fun s => match s with Left => 0 | Right => 1 | Top => 2 | Bottom => 3 end%nat)
            (fun n => match n with 0 => Left | 1 => Right | 2 => Top | _ => Bottom end%nat) _).
  by intros [].
Defined.

Definition opposite (s : t) : t :=
  match s with Left => Right | Right => Left | Top => Bottom | Bottom => Top end.
End Side.
Abbreviation Side := Side.t (only parsing).

Module CaptureEvent.
Inductive t :=
| Begin
(** the share of the edge, an [f32], by its bits *)
| Entry (along : Z)
| Input (event : InputEvent.t)
| Clipboard (mime_type : rstring) (data : bytes).
End CaptureEvent.

(** The trait [Capture] of a back end; an error is its text. *)
Class CaptureBackend (W : Type) := {
  backend_create : W -> Side -> W * result rstring unit;
  backend_destroy : W -> Side -> W * result rstring unit;
  backend_release : W -> W * result rstring unit;
  (** [release_at_along]: whether the pointer was placed *)
  backend_release_at : W -> Side -> option Z -> W * result rstring bool;
  backend_terminate : W -> W * result rstring unit;
}.

(** A [CaptureHandle] is a [u64]; a [scancode::Linux] is its number. *)
Record InputCapture := {
  pressed_buttons : gset Z;
  pressed_keys : gset Z;
  position_map : gmap Side (list Z);
  id_map : gmap Z Side;
  pending_events : list (Z * CaptureEvent.t);
}.

(** [InputCapture::new], the back end apart *)
Definition new_capture : InputCapture :=
  {| pressed_buttons := ∅; pressed_keys := ∅; position_map := ∅; id_map := ∅; pending_events := [] |}.

Definition with_pressed (keys buttons : gset Z) (c : InputCapture) : InputCapture :=
  {| pressed_buttons := buttons; pressed_keys := keys; position_map := position_map c;
     id_map := id_map c; pending_events := pending_events c |}.
Definition with_maps (positions : gmap Side (list Z)) (ids : gmap Z Side) (c : InputCapture) : InputCapture :=
  {| pressed_buttons := pressed_buttons c; pressed_keys := pressed_keys c; position_map := positions;
     id_map := ids; pending_events := pending_events c |}.
Definition with_pending (pending : list (Z * CaptureEvent.t)) (c : InputCapture) : InputCapture :=
  {| pressed_buttons := pressed_buttons c; pressed_keys := pressed_keys c; position_map := position_map c;
     id_map := id_map c; pending_events := pending |}.

(** What an operation comes to: a value, an error of the back end, or a failed
    [assert!] or [expect]. *)
Inductive outcome (A : Type) :=
| Done (a : A)
| Failed (error : rstring)
| Panicked.
Arguments Done {A} a.
Arguments Failed {A} error.
Arguments Panicked {A}.

Definition of_result {A} (r : result rstring A) : outcome A :=
  match r with Ok a => Done a | Err e => Failed e end.

Section operations.
Context {W : Type} `{!CaptureBackend W}.

(** [InputCapture::create] *)
Definition create (w : W) (c : InputCapture) (id : Z) (pos : Side) : W * InputCapture * outcome unit :=
  match id_map c !! id with
  | Some _ => (w, c, Panicked)
  | None =>
      let ids := <[id := pos]> (id_map c) in
      match position_map c !! pos with
      | Some v => (w, with_maps (<[pos := v ++ [id]]> (position_map c)) ids c, Done tt)
      | None =>
          let (w, created) := backend_create w pos in
          (w, with_maps (<[pos := [id]]> (position_map c)) ids c, of_result created)
      end
  end.

(** [InputCapture::destroy] *)
Definition destroy (w : W) (c : InputCapture) (id : Z) : W * InputCapture * outcome unit :=
  match id_map c !! id with
  | None => (w, c, Panicked)
  | Some pos =>
      let ids := delete id (id_map c) in
      match position_map c !! pos with
      | None => (w, with_maps (position_map c) ids c, Panicked)
      | Some v =>
          let remaining := List.filter (fun i => negb (i =? id)) v in
          if bool_decide (remaining = []) then
            let (w, destroyed) := backend_destroy w pos in
            (w, with_maps (delete pos (position_map c)) ids c, of_result destroyed)
          else (w, with_maps (<[pos := remaining]> (position_map c)) ids c, Done tt)
      end
  end.

(** [InputCapture::release] *)
Definition release (w : W) (c : InputCapture) : W * InputCapture * outcome unit :=
  let (w, released) := backend_release w in
  (w, with_pressed ∅ ∅ c, of_result released).

(** [InputCapture::release_at_along] *)
Definition release_at_along (w : W) (c : InputCapture) (landing : Side) (along : option Z)
    : W * InputCapture * outcome bool :=
  let (w, released) := backend_release_at w landing along in
  (w, with_pressed ∅ ∅ c, of_result released).
End operations.

(** [take_pressed_buttons], [take_pressed_keys] *)
Definition take_pressed_buttons (c : InputCapture) : InputCapture * gset Z :=
  (with_pressed (pressed_keys c) ∅ c, pressed_buttons c).
Definition take_pressed_keys (c : InputCapture) : InputCapture * gset Z :=
  (with_pressed ∅ (pressed_buttons c) c, pressed_keys c).

Definition keys_pressed (c : InputCapture) (keys : list Z) : bool :=
  forallb (fun k => bool_decide (k ∈ pressed_keys c)) keys.

(** [scancode::Linux::try_from]: the numbers of the variants are 0 to 249. *)
Definition is_scancode (key : Z) : bool := (0 <=? key) && (key <=? 249).

Definition update_pressed_keys (c : InputCapture) (key state : Z) : InputCapture :=
  if is_scancode key
  then with_pressed (if state =? 1 then {[key]} ∪ pressed_keys c else pressed_keys c ∖ {[key]})
         (pressed_buttons c) c
  else c.

(** The bookkeeping of [poll_next]. *)
Definition update_pressed (c : InputCapture) (event : CaptureEvent.t) : InputCapture :=
  match event with
  | CaptureEvent.Input (InputEvent.Keyboard (KeyboardEvent.Key _ key state)) =>
      update_pressed_keys c key state
  | CaptureEvent.Input (InputEvent.Pointer (PointerEvent.Button _ button state)) =>
      with_pressed (pressed_keys c)
        (if state =? 1 then {[button]} ∪ pressed_buttons c else pressed_buttons c ∖ {[button]}) c
  | _ => c
  end.

(** [poll_next]: a pending event, or the next event of the back end, given to
    every client of its edge. *)
Definition poll_next (c : InputCapture) (next : Side * CaptureEvent.t)
    : InputCapture * option (Z * CaptureEvent.t) :=
  match pending_events c with
  | e :: pending => (with_pending pending c, Some e)
  | [] =>
      let (pos, event) := next in
      let c := update_pressed c event in
      match default [] (position_map c !! pos) with
      | [] => (c, None)
      | id :: ids => (with_pending ((fun id => (id, event)) <$> ids) c, Some (id, event))
      end
  end.
