(* ===== verification/Capture.v ===== *)
(** * Input capture: when the pointer belongs to another device

    [crates/syntra-core/src/capture.rs]: the task that watches the edges of the
    screen, measures how hard they are pushed, enters the device behind an edge,
    forwards captured input to it once it acknowledged, hands the pointer on to a
    third device, and lets everything go again.

    What the task asks of the outside (the back end, the connections, the clock,
    the cells it shares with the emulation task) is the class [CaptureWorld]; a
    run says which world each stimulus comes in, so that whatever happens while
    the task waits is covered.  The model is of the
    desktop builds, where [is_touchpad] is [false].  An [f64] is read exactly
    from its bits; sums of pushes are exact rationals. *)

From Stdlib Require Import QArith Qabs.
From S2P Require Import Prelude Wire ProtoTypes ProtoValid InputCapture.
Open Scope Z_scope.

(** ** Numbers *)

(** Durations and instants in nanoseconds. *)
Definition millis (n : Z) : Z := n * 1000000.

Inductive real := Finite (q : Q) | PosInf | NegInf | NaN.

Definition scale (m k : Z) : Q :=
  if 0 <=? k then inject_Z (m * 2 ^ k) else (m # Z.to_pos (2 ^ (- k)))%Q.

(** The value of an [f64]. *)
Definition f64_value (bits : Z) : real :=
  let negative := Z.testbit bits 63 in
  let exponent := Z.land (Z.shiftr bits 52) 2047 in
  let mantissa := Z.land bits (2 ^ 52 - 1) in
  if exponent =? 2047 then
    if mantissa =? 0 then if negative then NegInf else PosInf else NaN
  else
    let size := if exponent =? 0 then scale mantissa (-1074)
                else scale (mantissa + 2 ^ 52) (exponent - 1075) in
    Finite (if negative then - size else size)%Q.

Definition opp_real (r : real) : real :=
  match r with Finite q => Finite (- q)%Q | PosInf => NegInf | NegInf => PosInf | NaN => NaN end.

Definition q_le (a b : Q) : bool := if Qlt_le_dec b a then false else true.
Definition q_max (a b : Q) : Q := if q_le a b then b else a.
Definition q_clamp (q low high : Q) : Q := if q_le q low then low else if q_le high q then high else q.

(** [r <= 0.0] *)
Definition not_positive (r : real) : bool :=
  match r with Finite q => q_le q 0 | NegInf => true | PosInf | NaN => false end.

(** ** Data *)

Inductive CaptureType := Default | EnterOnly.
#[global] Instance capture_type_eq_dec : EqDecision CaptureType.
Proof. solve_decision. Defined.

Inductive State := WaitingForAck | Sending.
#[global] Instance state_eq_dec : EqDecision State.
Proof. solve_decision. Defined.

Inductive ICaptureEvent :=
| StepInside (edge : Side)
| PlacePointer (edge : Side)
| HandOn (controller target : rstring) (side : Position.t) (along : option Z)
| Clipboard (handle : Z) (fingerprint : rstring) (event : ProtoEvent)
| PeerAuthenticated (handle : Z) (fingerprint : rstring)
| FileClipboard (handle : Z) (mime_type value : rstring)
| PeerLost (handle : Z)
| PeerStateChanged (handle : Z)
| CaptureBegin (handle : Z) (along : option Z)
| CaptureDisabled
| CaptureEnabled (backend : rstring)
| ClientEntered (handle : Z)
| PointerLeft (edge : Side) (along : option Z)
| PointerReturned (edge : Side) (along : option Z)
| EdgePressure (edge : Side) (amount : Q) (along : option Z).

Inductive CaptureRequest :=
| Release
| SetController (controller : option (rstring * Side))
| SetMultiHop (enabled : bool)
| SetSeparatePeerPointers (enabled : bool)
| SetEdgePressure (amount : Q)
| Create (handle : Z) (pos : Side) (kind : CaptureType)
| Destroy (handle : Z)
| Reenable
| SetBackend (backend : option rstring)
| SetInputSharing (enabled : bool)
| SetReleaseBind (bind : list Z)
| SendProto (handle : Z) (event : ProtoEvent)
| SendClipboard (handle transfer_id : Z) (data : bytes) (image_dimensions : option (Z * Z)).

Record CaptureTask := {
  active_client : option Z;
  ack_deadline : option Z;
  (** presses kept until the peer acknowledges *)
  held_until_ack : list InputEvent.t;
  entering_via : option rstring;
  entry_along : option Z;
  legacy_entry : bool;
  local_departure : option (Side * option Z);
  state : State;
  (** the device controlling this one, and the edge it came in through *)
  controller : option (rstring * Side);
  multi_hop : bool;
  separate_peer_pointers : bool;
  edge_pressure : Q;
  (** the push being measured: capture, amount, last update *)
  pressure : option (Z * Q * Z);
  last_pressure_report : option Z;
  last_pressure_amount : Q;
  last_pass : option (Side * Z);
  last_return : option (Side * Z);
  backend : option rstring;
  restart_now : bool;
  enabled_captures : gset Z;
  captures : list (Z * Side * CaptureType);
  (** the peers a clipboard is being streamed to *)
  clipboard_sends : gset Z;
  release_bind : list Z;
  input_sharing : bool;
}.

Definition set_active_client v (t : CaptureTask) : CaptureTask :=
  Build_CaptureTask v (ack_deadline t) (held_until_ack t) (entering_via t) (entry_along t)
    (legacy_entry t) (local_departure t) (state t) (controller t) (multi_hop t)
    (separate_peer_pointers t) (edge_pressure t) (pressure t) (last_pressure_report t)
    (last_pressure_amount t) (last_pass t) (last_return t) (backend t) (restart_now t)
    (enabled_captures t) (captures t) (clipboard_sends t) (release_bind t) (input_sharing t).
Definition set_ack_deadline v (t : CaptureTask) : CaptureTask :=
  Build_CaptureTask (active_client t) v (held_until_ack t) (entering_via t) (entry_along t)
    (legacy_entry t) (local_departure t) (state t) (controller t) (multi_hop t)
    (separate_peer_pointers t) (edge_pressure t) (pressure t) (last_pressure_report t)
    (last_pressure_amount t) (last_pass t) (last_return t) (backend t) (restart_now t)
    (enabled_captures t) (captures t) (clipboard_sends t) (release_bind t) (input_sharing t).
Definition set_held_until_ack v (t : CaptureTask) : CaptureTask :=
  Build_CaptureTask (active_client t) (ack_deadline t) v (entering_via t) (entry_along t)
    (legacy_entry t) (local_departure t) (state t) (controller t) (multi_hop t)
    (separate_peer_pointers t) (edge_pressure t) (pressure t) (last_pressure_report t)
    (last_pressure_amount t) (last_pass t) (last_return t) (backend t) (restart_now t)
    (enabled_captures t) (captures t) (clipboard_sends t) (release_bind t) (input_sharing t).
Definition set_entering_via v (t : CaptureTask) : CaptureTask :=
  Build_CaptureTask (active_client t) (ack_deadline t) (held_until_ack t) v (entry_along t)
    (legacy_entry t) (local_departure t) (state t) (controller t) (multi_hop t)
    (separate_peer_pointers t) (edge_pressure t) (pressure t) (last_pressure_report t)
    (last_pressure_amount t) (last_pass t) (last_return t) (backend t) (restart_now t)
    (enabled_captures t) (captures t) (clipboard_sends t) (release_bind t) (input_sharing t).
Definition set_entry_along v (t : CaptureTask) : CaptureTask :=
  Build_CaptureTask (active_client t) (ack_deadline t) (held_until_ack t) (entering_via t) v
    (legacy_entry t) (local_departure t) (state t) (controller t) (multi_hop t)
    (separate_peer_pointers t) (edge_pressure t) (pressure t) (last_pressure_report t)
    (last_pressure_amount t) (last_pass t) (last_return t) (backend t) (restart_now t)
    (enabled_captures t) (captures t) (clipboard_sends t) (release_bind t) (input_sharing t).
Definition set_legacy_entry v (t : CaptureTask) : CaptureTask :=
  Build_CaptureTask (active_client t) (ack_deadline t) (held_until_ack t) (entering_via t)
    (entry_along t) v (local_departure t) (state t) (controller t) (multi_hop t)
    (separate_peer_pointers t) (edge_pressure t) (pressure t) (last_pressure_report t)
    (last_pressure_amount t) (last_pass t) (last_return t) (backend t) (restart_now t)
    (enabled_captures t) (captures t) (clipboard_sends t) (release_bind t) (input_sharing t).
Definition set_local_departure v (t : CaptureTask) : CaptureTask :=
  Build_CaptureTask (active_client t) (ack_deadline t) (held_until_ack t) (entering_via t)
    (entry_along t) (legacy_entry t) v (state t) (controller t) (multi_hop t)
    (separate_peer_pointers t) (edge_pressure t) (pressure t) (last_pressure_report t)
    (last_pressure_amount t) (last_pass t) (last_return t) (backend t) (restart_now t)
    (enabled_captures t) (captures t) (clipboard_sends t) (release_bind t) (input_sharing t).
Definition set_state v (t : CaptureTask) : CaptureTask :=
  Build_CaptureTask (active_client t) (ack_deadline t) (held_until_ack t) (entering_via t)
    (entry_along t) (legacy_entry t) (local_departure t) v (controller t) (multi_hop t)
    (separate_peer_pointers t) (edge_pressure t) (pressure t) (last_pressure_report t)
    (last_pressure_amount t) (last_pass t) (last_return t) (backend t) (restart_now t)
    (enabled_captures t) (captures t) (clipboard_sends t) (release_bind t) (input_sharing t).
Definition set_controller v (t : CaptureTask) : CaptureTask :=
  Build_CaptureTask (active_client t) (ack_deadline t) (held_until_ack t) (entering_via t)
    (entry_along t) (legacy_entry t) (local_departure t) (state t) v (multi_hop t)
    (separate_peer_pointers t) (edge_pressure t) (pressure t) (last_pressure_report t)
    (last_pressure_amount t) (last_pass t) (last_return t) (backend t) (restart_now t)
    (enabled_captures t) (captures t) (clipboard_sends t) (release_bind t) (input_sharing t).
Definition set_multi_hop v (t : CaptureTask) : CaptureTask :=
  Build_CaptureTask (active_client t) (ack_deadline t) (held_until_ack t) (entering_via t)
    (entry_along t) (legacy_entry t) (local_departure t) (state t) (controller t) v
    (separate_peer_pointers t) (edge_pressure t) (pressure t) (last_pressure_report t)
    (last_pressure_amount t) (last_pass t) (last_return t) (backend t) (restart_now t)
    (enabled_captures t) (captures t) (clipboard_sends t) (release_bind t) (input_sharing t).
Definition set_separate_peer_pointers v (t : CaptureTask) : CaptureTask :=
  Build_CaptureTask (active_client t) (ack_deadline t) (held_until_ack t) (entering_via t)
    (entry_along t) (legacy_entry t) (local_departure t) (state t) (controller t) (multi_hop t) v
    (edge_pressure t) (pressure t) (last_pressure_report t) (last_pressure_amount t) (last_pass t)
    (last_return t) (backend t) (restart_now t) (enabled_captures t) (captures t)
    (clipboard_sends t) (release_bind t) (input_sharing t).
Definition set_edge_pressure v (t : CaptureTask) : CaptureTask :=
  Build_CaptureTask (active_client t) (ack_deadline t) (held_until_ack t) (entering_via t)
    (entry_along t) (legacy_entry t) (local_departure t) (state t) (controller t) (multi_hop t)
    (separate_peer_pointers t) v (pressure t) (last_pressure_report t) (last_pressure_amount t)
    (last_pass t) (last_return t) (backend t) (restart_now t) (enabled_captures t) (captures t)
    (clipboard_sends t) (release_bind t) (input_sharing t).
Definition set_pressure v (t : CaptureTask) : CaptureTask :=
  Build_CaptureTask (active_client t) (ack_deadline t) (held_until_ack t) (entering_via t)
    (entry_along t) (legacy_entry t) (local_departure t) (state t) (controller t) (multi_hop t)
    (separate_peer_pointers t) (edge_pressure t) v (last_pressure_report t) (last_pressure_amount t)
    (last_pass t) (last_return t) (backend t) (restart_now t) (enabled_captures t) (captures t)
    (clipboard_sends t) (release_bind t) (input_sharing t).
Definition set_last_pressure_report v (t : CaptureTask) : CaptureTask :=
  Build_CaptureTask (active_client t) (ack_deadline t) (held_until_ack t) (entering_via t)
    (entry_along t) (legacy_entry t) (local_departure t) (state t) (controller t) (multi_hop t)
    (separate_peer_pointers t) (edge_pressure t) (pressure t) v (last_pressure_amount t)
    (last_pass t) (last_return t) (backend t) (restart_now t) (enabled_captures t) (captures t)
    (clipboard_sends t) (release_bind t) (input_sharing t).
Definition set_last_pressure_amount v (t : CaptureTask) : CaptureTask :=
  Build_CaptureTask (active_client t) (ack_deadline t) (held_until_ack t) (entering_via t)
    (entry_along t) (legacy_entry t) (local_departure t) (state t) (controller t) (multi_hop t)
    (separate_peer_pointers t) (edge_pressure t) (pressure t) (last_pressure_report t) v
    (last_pass t) (last_return t) (backend t) (restart_now t) (enabled_captures t) (captures t)
    (clipboard_sends t) (release_bind t) (input_sharing t).
Definition set_last_pass v (t : CaptureTask) : CaptureTask :=
  Build_CaptureTask (active_client t) (ack_deadline t) (held_until_ack t) (entering_via t)
    (entry_along t) (legacy_entry t) (local_departure t) (state t) (controller t) (multi_hop t)
    (separate_peer_pointers t) (edge_pressure t) (pressure t) (last_pressure_report t)
    (last_pressure_amount t) v (last_return t) (backend t) (restart_now t) (enabled_captures t)
    (captures t) (clipboard_sends t) (release_bind t) (input_sharing t).
Definition set_last_return v (t : CaptureTask) : CaptureTask :=
  Build_CaptureTask (active_client t) (ack_deadline t) (held_until_ack t) (entering_via t)
    (entry_along t) (legacy_entry t) (local_departure t) (state t) (controller t) (multi_hop t)
    (separate_peer_pointers t) (edge_pressure t) (pressure t) (last_pressure_report t)
    (last_pressure_amount t) (last_pass t) v (backend t) (restart_now t) (enabled_captures t)
    (captures t) (clipboard_sends t) (release_bind t) (input_sharing t).
Definition set_backend v (t : CaptureTask) : CaptureTask :=
  Build_CaptureTask (active_client t) (ack_deadline t) (held_until_ack t) (entering_via t)
    (entry_along t) (legacy_entry t) (local_departure t) (state t) (controller t) (multi_hop t)
    (separate_peer_pointers t) (edge_pressure t) (pressure t) (last_pressure_report t)
    (last_pressure_amount t) (last_pass t) (last_return t) v (restart_now t) (enabled_captures t)
    (captures t) (clipboard_sends t) (release_bind t) (input_sharing t).
Definition set_restart_now v (t : CaptureTask) : CaptureTask :=
  Build_CaptureTask (active_client t) (ack_deadline t) (held_until_ack t) (entering_via t)
    (entry_along t) (legacy_entry t) (local_departure t) (state t) (controller t) (multi_hop t)
    (separate_peer_pointers t) (edge_pressure t) (pressure t) (last_pressure_report t)
    (last_pressure_amount t) (last_pass t) (last_return t) (backend t) v (enabled_captures t)
    (captures t) (clipboard_sends t) (release_bind t) (input_sharing t).
Definition set_enabled_captures v (t : CaptureTask) : CaptureTask :=
  Build_CaptureTask (active_client t) (ack_deadline t) (held_until_ack t) (entering_via t)
    (entry_along t) (legacy_entry t) (local_departure t) (state t) (controller t) (multi_hop t)
    (separate_peer_pointers t) (edge_pressure t) (pressure t) (last_pressure_report t)
    (last_pressure_amount t) (last_pass t) (last_return t) (backend t) (restart_now t) v
    (captures t) (clipboard_sends t) (release_bind t) (input_sharing t).
Definition set_captures v (t : CaptureTask) : CaptureTask :=
  Build_CaptureTask (active_client t) (ack_deadline t) (held_until_ack t) (entering_via t)
    (entry_along t) (legacy_entry t) (local_departure t) (state t) (controller t) (multi_hop t)
    (separate_peer_pointers t) (edge_pressure t) (pressure t) (last_pressure_report t)
    (last_pressure_amount t) (last_pass t) (last_return t) (backend t) (restart_now t)
    (enabled_captures t) v (clipboard_sends t) (release_bind t) (input_sharing t).
Definition set_clipboard_sends v (t : CaptureTask) : CaptureTask :=
  Build_CaptureTask (active_client t) (ack_deadline t) (held_until_ack t) (entering_via t)
    (entry_along t) (legacy_entry t) (local_departure t) (state t) (controller t) (multi_hop t)
    (separate_peer_pointers t) (edge_pressure t) (pressure t) (last_pressure_report t)
    (last_pressure_amount t) (last_pass t) (last_return t) (backend t) (restart_now t)
    (enabled_captures t) (captures t) v (release_bind t) (input_sharing t).
Definition set_release_bind v (t : CaptureTask) : CaptureTask :=
  Build_CaptureTask (active_client t) (ack_deadline t) (held_until_ack t) (entering_via t)
    (entry_along t) (legacy_entry t) (local_departure t) (state t) (controller t) (multi_hop t)
    (separate_peer_pointers t) (edge_pressure t) (pressure t) (last_pressure_report t)
    (last_pressure_amount t) (last_pass t) (last_return t) (backend t) (restart_now t)
    (enabled_captures t) (captures t) (clipboard_sends t) v (input_sharing t).
Definition set_input_sharing v (t : CaptureTask) : CaptureTask :=
  Build_CaptureTask (active_client t) (ack_deadline t) (held_until_ack t) (entering_via t)
    (entry_along t) (legacy_entry t) (local_departure t) (state t) (controller t) (multi_hop t)
    (separate_peer_pointers t) (edge_pressure t) (pressure t) (last_pressure_report t)
    (last_pressure_amount t) (last_pass t) (last_return t) (backend t) (restart_now t)
    (enabled_captures t) (captures t) (clipboard_sends t) (release_bind t) v.

(** [CaptureTask] as [Capture::new] builds it. *)
Definition new_task (backend : option rstring) (release_bind : list Z) : CaptureTask :=
  Build_CaptureTask None None [] None None false None WaitingForAck None false false 0%Q None None 0%Q
    None None backend false ∅ [] ∅ release_bind true.

(** ** The world *)

Class CaptureWorld (W : Type) := {
  world_backend :: CaptureBackend W;
  now : W -> Z;
  (** the cells shared with the emulation task *)
  last_entry : W -> option (Side * Z);
  set_last_entry : option (Side * Z) -> W -> W;
  landing_along : W -> option Z;
  set_landing_along : option Z -> W -> W;
  (** the connections *)
  own_fingerprint : W -> rstring;
  client_fingerprint : W -> Z -> option rstring;
  remote_ready : W -> Z -> bool;
  peer_connected : W -> Z -> bool;
  conn_send : W -> Z -> ProtoEvent -> W * bool;
  conn_connect : W -> Z -> W;
  (** how many messages go out before [REMOTE_RELEASE_TIMEOUT] *)
  sends_in_time : W -> nat;
  (** [JoinHandle::is_finished] of a clipboard stream *)
  stream_finished : W -> Z -> bool;
}.

(** What the task does, in order.  [Ended] marks the end of a capture: it is
    where [release_capture_at] is done with the peer. *)
Inductive Output :=
| Tell (event : ICaptureEvent)
| Sent (handle : Z) (event : ProtoEvent)
| Acked (handle : Z)
| Ended (handle : Z)
| Connect (handle : Z)
| AbortStream (handle : Z)
| StreamClipboard (handle transfer_id : Z) (data : bytes) (image_dimensions : option (Z * Z)).

Record Sys (W : Type) := {
  task : CaptureTask;
  input : InputCapture;
  world : W;
  trace : list Output;
  (** inside [do_capture_session] *)
  capturing : bool;
}.
Arguments task {W} _.
Arguments input {W} _.
Arguments world {W} _.
Arguments trace {W} _.
Arguments capturing {W} _.
Arguments Build_Sys {W} _ _ _ _ _.

(** ** Effects

    A computation changes the system and comes to an [outcome]; an error or a
    panic ends it, with the changes made so far. *)

Definition M (W A : Type) : Type := Sys W -> Sys W * outcome A.

#[global] Instance capture_ret W : MRet (M W) := fun A a s => (s, Done a).
#[global] Instance capture_bind W : MBind (M W) := fun A B f m s =>
  match m s with
  | (s, Done a) => f a s
  | (s, Failed e) => (s, Failed e)
  | (s, Panicked) => (s, Panicked)
  end.

Section capture.
Context {W : Type} `{!CaptureWorld W} `{!HashOrder}.
Abbreviation M := (M W).

Definition panic {A} : M A := fun s => (s, Panicked).
Definition get_task : M CaptureTask := fun s => (s, Done (task s)).
Definition get_input : M InputCapture := fun s => (s, Done (input s)).
Definition get_world : M W := fun s => (s, Done (world s)).
Definition update (f : CaptureTask -> CaptureTask) : M unit := fun s =>
  (Build_Sys (f (task s)) (input s) (world s) (trace s) (capturing s), Done tt).
Definition update_world (f : W -> W) : M unit := fun s =>
  (Build_Sys (task s) (input s) (f (world s)) (trace s) (capturing s), Done tt).
Definition emit (o : Output) : M unit := fun s =>
  (Build_Sys (task s) (input s) (world s) (trace s ++ [o]) (capturing s), Done tt).
Definition tell (e : ICaptureEvent) : M unit := emit (Tell e).
Definition when (b : bool) (m : M unit) : M unit := if b then m else mret tt.

(** The result of [m], an error included ([m.await] without [?]). *)
Definition attempt {A} (m : M A) : M (result rstring A) := fun s =>
  match m s with
  | (s, Done a) => (s, Done (Ok a))
  | (s, Failed e) => (s, Done (Err e))
  | (s, Panicked) => (s, Panicked)
  end.
Definition lift {A} (o : outcome A) : M A := fun s => (s, o).

(** Calls of [InputCapture]. *)
Definition on_input {A} (f : W -> InputCapture -> W * InputCapture * outcome A) : M A := fun s =>
  let '(w, c, o) := f (world s) (input s) in
  (Build_Sys (task s) c w (trace s) (capturing s), o).
Definition take_input {A} (f : InputCapture -> InputCapture * A) : M A :=
  on_input (fun w c => let (c, a) := f c in (w, c, Done a)).

(** [conn.send]; whether it worked *)
Definition send (handle : Z) (event : ProtoEvent) : M bool := fun s =>
  let (w, sent) := conn_send (world s) handle event in
  (Build_Sys (task s) (input s) w (trace s ++ [Sent handle event]) (capturing s), Done sent).

Fixpoint for_each {A} (f : A -> M unit) (l : list A) : M unit :=
  match l with
  | [] => mret tt
  | a :: l => _ ← f a; for_each f l
  end.

(** ** Captures *)

Definition add_capture (handle : Z) (pos : Side) (kind : CaptureType) : M unit :=
  update (fun t => set_captures (captures t ++ [(handle, pos, kind)]) t).
Definition remove_capture (handle : Z) : M unit :=
  update (fun t => set_captures (List.filter (fun c => negb (c.1.1 =? handle)) (captures t)) t).

Definition find_capture (t : CaptureTask) (handle : Z) : option (Z * Side * CaptureType) :=
  List.find (fun c => c.1.1 =? handle) (captures t).
(** [expect("no such capture")] *)
Definition get_pos (handle : Z) : M Side :=
  t ← get_task;
  match find_capture t handle with Some c => mret (c.1.2) | None => panic end.
Definition get_type (handle : Z) : M CaptureType :=
  t ← get_task;
  match find_capture t handle with Some c => mret (c.2) | None => panic end.
Definition is_default_capture_at (t : CaptureTask) (pos : Side) : bool :=
  existsb (fun c => bool_decide (c.1.2 = pos) && bool_decide (c.2 = Default)) (captures t).

(** [syntra_input_capture::Position] to [syntra_proto::Position] *)
Definition to_proto_pos (s : Side) : Position.t :=
  match s with
  | Side.Left => Position.Left
  | Side.Right => Position.Right
  | Side.Top => Position.Top
  | Side.Bottom => Position.Bottom
  end.

(** Not an Android build. *)
Definition is_touchpad : bool := false.

Definition input_target (t : CaptureTask) (handle : Z) (begin : bool) : option Z :=
  match active_client t with
  | Some active => Some active
  | None => if begin then Some handle else None
  end.

Definition ENTRY_GRACE : Z := millis 400.

Definition recent (w : W) (mark : option (Side * Z)) (pos : Side) : bool :=
  match mark with
  | Some (edge, at_) => bool_decide (edge = pos) && (now w - at_ <? ENTRY_GRACE)
  | None => false
  end.
Definition just_entered (w : W) : bool :=
  match last_entry w with Some (_, at_) => now w - at_ <? ENTRY_GRACE | None => false end.
Definition passed_on_just_now (w : W) (t : CaptureTask) (pos : Side) : bool := recent w (last_pass t) pos.
Definition returned_just_now (w : W) (t : CaptureTask) (pos : Side) : bool := recent w (last_return t) pos.

Definition returns_to_controller (handle : Z) : M bool :=
  t ← get_task; w ← get_world;
  if separate_peer_pointers t then mret false
  else
    match controller t with
    | None => mret false
    | Some (controller, entered) =>
        if negb (bool_decide (active_client t = None)) then mret false
        else if bool_decide (client_fingerprint w handle = Some controller) then mret true
        else
          kind ← get_type handle;
          if bool_decide (kind = EnterOnly) then
            pos ← get_pos handle; mret (bool_decide (pos = entered))
          else mret false
    end.

Definition defer_to_handoff (w : W) (t : CaptureTask) (handle : Z) : bool :=
  if separate_peer_pointers t then false
  else
    match controller t with
    | None => false
    | Some (controller, _) =>
        multi_hop t && bool_decide (active_client t = None)
        && match client_fingerprint w handle with
           | Some fingerprint => negb (bool_decide (fingerprint = controller))
           | None => false
           end
    end.

(** ** Pushing against an edge *)

Definition PRESSURE_BACK_SLACK : Q := 40.
Definition DUPLICATE_TOUCH : Z := millis 50.
Definition PRESSURE_LEAK_PER_SECOND : Q := 100.
Definition PRESSURE_REPORT_STEP : Q := 8 # 100.
Definition PRESSURE_REPORT_INTERVAL : Z := millis 33.

Inductive Pressure := Building (total : Q) | Reached | Backed.

Definition should_report_pressure (since_last : option Z) (last amount : Q) : bool :=
  match since_last with
  | None => true
  | Some gap =>
      (PRESSURE_REPORT_INTERVAL <=? gap) || q_le PRESSURE_REPORT_STEP (Qabs (amount - last))
  end.

Definition advance_pressure (so_far : Q) (idle : Z) (edge : Side) (dx dy : real) (needed : Q) : Pressure :=
  let push := match edge with
              | Side.Left => opp_real dx
              | Side.Right => dx
              | Side.Top => opp_real dy
              | Side.Bottom => dy
              end in
  let so_far := if negb (q_le so_far 0) && not_positive push
                then q_max (so_far - PRESSURE_LEAK_PER_SECOND * (idle # 1000000000)) 0
                else so_far in
  match push with
  | Finite push =>
      let total := q_max (so_far + push) (- PRESSURE_BACK_SLACK) in
      if q_le needed total then Reached
      else if q_le total (- PRESSURE_BACK_SLACK) then Backed
      else Building total
  | _ => Building so_far
  end.

Definition report_pressure (handle : Z) (so_far : Q) (force : bool) : M unit :=
  t ← get_task; w ← get_world;
  let need := edge_pressure t in
  let amount := if negb (q_le need 0) then q_clamp (so_far / need) 0 1 else 0%Q in
  let since_last := (fun last => now w - last) <$> last_pressure_report t in
  if negb force && negb (should_report_pressure since_last (last_pressure_amount t) amount)
  then mret tt
  else
    _ ← update (fun t => set_last_pressure_amount amount (set_last_pressure_report (Some (now w)) t));
    edge ← get_pos handle;
    tell (EdgePressure edge amount (entry_along t)).

Definition report_pressure_peak (handle : Z) : M unit :=
  t ← get_task; report_pressure handle (edge_pressure t) true.

Definition clear_pressure : M unit :=
  t ← get_task;
  match pressure t with
  | None => mret tt
  | Some (handle, _, _) => _ ← update (set_pressure None); report_pressure handle 0 true
  end.

(** ** Letting go *)

Definition release_with (landing : option Side) (along : option Z) : M bool :=
  match landing with
  | Some edge => on_input (fun w c => release_at_along w c edge along)
  | None => _ ← on_input release; mret false
  end.

(** The key-ups, button-ups and the reset of the modifiers that clean up a peer,
    then the farewell. *)
Definition cleanup_events (keys buttons : list Z) : list ProtoEvent :=
  ((fun key => ProtoEvent.Input (InputEvent.Keyboard (KeyboardEvent.Key 0 key 0))) <$> keys)
  ++ ((fun button => ProtoEvent.Input (InputEvent.Pointer (PointerEvent.Button 0 button 0))) <$> buttons)
  ++ [ProtoEvent.Input (InputEvent.Keyboard (KeyboardEvent.Modifiers 0 0 0 0)); ProtoEvent.Leave 0].

Definition release_capture_at (landing : option Side) : M bool :=
  w ← get_world;
  let along := landing_along w in
  _ ← update_world (set_landing_along None);
  _ ← update (fun t => set_state WaitingForAck (set_held_until_ack [] (set_ack_deadline None
                         (set_local_departure None t))));
  t ← get_task;
  match active_client t with
  | None => release_with landing along
  | Some handle =>
      _ ← update (set_active_client None);
      keys ← take_input take_pressed_keys;
      buttons ← take_input take_pressed_buttons;
      released ← attempt (release_with landing along);
      _ ← match released, landing with
          | Ok _, Some edge => tell (PointerReturned edge along)
          | _, _ => mret tt
          end;
      w ← get_world;
      let events := cleanup_events (hash_order (elements keys)) (hash_order (elements buttons)) in
      _ ← for_each (fun event => _ ← send handle event; mret tt) (take (sends_in_time w) events);
      _ ← emit (Ended handle);
      lift (of_result released)
  end.

Definition release_capture : M unit :=
  _ ← clear_pressure; _ ← release_capture_at None; mret tt.

(** [capture.release()] *)
Definition plain_release : M unit := on_input release.

(** ** Entering and handing on *)

Definition MAX_HELD_UNTIL_ACK : Z := 64.
Definition ACK_TIMEOUT : Z := millis 750.

Definition enter_event (t : CaptureTask) (side : Position.t) : ProtoEvent :=
  match entering_via t, entry_along t with
  | Some via, _ => ProtoEvent.EnterVia side via
  | None, Some along => if legacy_entry t then ProtoEvent.Enter side else ProtoEvent.EnterAt side along
  | None, None => ProtoEvent.Enter side
  end.

Definition legacy_entry_retry : M (option (Z * ProtoEvent)) :=
  t ← get_task;
  match active_client t with
  | None => mret None
  | Some handle =>
      if negb (bool_decide (state t = WaitingForAck)) || negb (bool_decide (entering_via t = None))
         || bool_decide (entry_along t = None) || legacy_entry t
      then mret None
      else
        w ← get_world;
        _ ← update (fun t => set_ack_deadline (Some (now w + ACK_TIMEOUT)) (set_legacy_entry true t));
        pos ← get_pos handle;
        t ← get_task;
        mret (Some (handle, enter_event t (to_proto_pos (Side.opposite pos))))
  end.

Definition send_enter (handle : Z) (side : Position.t) : M unit :=
  t ← get_task; _ ← send handle (enter_event t side); mret tt.

(** The first authorised device with that certificate, other than [from]. *)
Definition next_device (w : W) (t : CaptureTask) (from : Z) (target : rstring) : option Z :=
  (fun c => c.1.1) <$> List.find (fun c => bool_decide (c.2 = Default) && negb (c.1.1 =? from)
                                   && bool_decide (client_fingerprint w c.1.1 = Some target)) (captures t).

(** The pointer is home: it comes in from the device that handed it on. *)
Definition handoff_home (from : Z) : M unit :=
  edge ← get_pos from;
  w ← get_world;
  _ ← update_world (set_last_entry (Some (edge, now w)));
  placed ← release_capture_at (Some edge);
  when (negb placed) (tell (PlacePointer edge)).

(** Leaving [from] and entering [next]; both positions are also logged. *)
Definition handoff_enter (from next : Z) : M unit :=
  _ ← get_pos from; _ ← get_pos next;
  _ ← send from (ProtoEvent.Leave 0);
  w ← get_world;
  _ ← update (fun t => set_active_client (Some next) (set_held_until_ack []
                (set_ack_deadline (Some (now w + ACK_TIMEOUT)) (set_state WaitingForAck t))));
  _ ← tell (ClientEntered next);
  pos ← get_pos next;
  w ← get_world;
  _ ← update (set_entering_via (client_fingerprint w from));
  send_enter next (to_proto_pos (Side.opposite pos)).

Definition handoff (from : Z) (target : rstring) (side : Position.t) : M unit :=
  t ← get_task; w ← get_world;
  if bool_decide (target = own_fingerprint w) then handoff_home from
  else
    match next_device w t from target with
    | None => _ ← send from (ProtoEvent.Handoff target side); mret tt
    | Some next =>
        if negb (remote_ready w next) then _ ← send from (ProtoEvent.Handoff target side); mret tt
        else handoff_enter from next
    end.

Definition return_local_pointer (exit_along : option Z) : M unit :=
  t ← get_task;
  let departure := if bool_decide (state t = Sending) then local_departure t else None in
  match departure with
  | None => release_capture
  | Some (edge, old_along) =>
      _ ← match exit_along with
          | Some along =>
              _ ← clear_pressure;
              _ ← update_world (set_landing_along (Some along));
              _ ← release_capture_at (Some edge); mret tt
          | None => _ ← release_capture; tell (PointerReturned edge old_along)
          end;
      w ← get_world;
      update (set_last_return (Some (edge, now w)))
  end.

(** ** Events of the back end *)

Definition has_capture (t : CaptureTask) (handle : Z) : bool :=
  existsb (fun c => c.1.1 =? handle) (captures t).

Definition is_begin (e : CaptureEvent.t) : bool :=
  match e with CaptureEvent.Begin => true | _ => false end.

(** Presses, kept until the peer acknowledges. *)
Definition is_press (e : InputEvent.t) : bool :=
  match e with
  | InputEvent.Pointer (PointerEvent.Button _ _ _) | InputEvent.Keyboard (KeyboardEvent.Key _ _ _) => true
  | _ => false
  end.

(** While a push is measured: [None] ends the handling of the event, [Some]
    goes on with an event and whether the push was just enough. *)
Definition measure_pressure (handle : Z) (event : CaptureEvent.t) : M (option (CaptureEvent.t * bool)) :=
  t ← get_task;
  match pressure t with
  | None => mret (Some (event, false))
  | Some (pending, so_far, since) =>
      w ← get_world;
      if negb (pending =? handle) then
        same ← (if has_capture t pending
                then p ← get_pos handle; q ← get_pos pending; mret (bool_decide (p = q))
                else mret false);
        if (same : bool) then mret None else _ ← release_capture; mret None
      else
        match event with
        | CaptureEvent.Input (InputEvent.Pointer (PointerEvent.Motion _ dx dy)) =>
            pos ← get_pos handle;
            match advance_pressure so_far (now w - since) pos (f64_value dx) (f64_value dy)
                    (edge_pressure t) with
            | Building total =>
                _ ← update (set_pressure (Some (handle, total, now w)));
                _ ← report_pressure handle total false; mret None
            | Reached =>
                _ ← report_pressure_peak handle;
                _ ← clear_pressure; mret (Some (CaptureEvent.Begin, true))
            | Backed => _ ← clear_pressure; _ ← plain_release; mret None
            end
        | CaptureEvent.Begin =>
            if DUPLICATE_TOUCH <=? now w - since
            then _ ← clear_pressure; mret (Some (event, false))
            else mret None
        | _ => mret None
        end
  end.

(** The touches of an edge that mean nothing: [true] when the event is done. *)
Definition ignore_begin (handle : Z) : M bool :=
  t ← get_task; w ← get_world;
  kind ← get_type handle;
  returning ← (if bool_decide (kind = Default) && negb (remote_ready w handle)
               then returns_to_controller handle else mret true);
  if negb (returning : bool) then _ ← plain_release; mret true
  else if negb is_touchpad && just_entered w then
    let landing := fst <$> last_entry w in
    placed ← release_capture_at landing;
    _ ← match landing with
        | Some edge => when (negb (placed : bool)) (tell (PlacePointer edge))
        | None => mret tt
        end;
    mret true
  else
    pos ← get_pos handle;
    if returned_just_now w t pos || passed_on_just_now w t pos
    then _ ← plain_release; mret true
    else mret false.

(** A push is asked for before the pointer may pass. *)
Definition arm_pressure (handle : Z) (returning : bool) : M bool :=
  t ← get_task; w ← get_world;
  kind ← get_type handle;
  if negb is_touchpad && negb (q_le (edge_pressure t) 0)
     && (bool_decide (kind = Default) || returning)
  then _ ← update (set_pressure (Some (handle, 0%Q, now w))); mret true
  else mret false.

(** The pointer goes back to the device it belongs to. *)
Definition pass_back (handle : Z) : M unit :=
  pos ← get_pos handle; w ← get_world;
  _ ← update (set_last_pass (Some (pos, now w)));
  _ ← plain_release;
  t ← get_task;
  match controller t with
  | Some (controller, _) => tell (HandOn controller controller (to_proto_pos pos) (entry_along t))
  | None => mret tt
  end.

(** The owner's pointer is passed on to a third device. *)
Definition pass_on (handle : Z) : M unit :=
  pos ← get_pos handle; w ← get_world;
  _ ← update (set_last_pass (Some (pos, now w)));
  _ ← plain_release;
  t ← get_task; w ← get_world;
  match controller t, client_fingerprint w handle with
  | Some (controller, _), Some target =>
      _ ← tell (HandOn controller target (to_proto_pos pos) (entry_along t));
      tell (StepInside pos)
  | _, _ => mret tt
  end.

(** A new device is entered. *)
Definition activate (handle : Z) : M unit :=
  w ← get_world; pos ← get_pos handle;
  _ ← update (fun t => set_active_client (Some handle) (set_local_departure (Some (pos, entry_along t))
                (set_ack_deadline (Some (now w + ACK_TIMEOUT)) (set_legacy_entry false
                (set_state WaitingForAck t)))));
  tell (ClientEntered handle).

(** Input of an entered device, or the enter message itself. *)
Definition forward (handle : Z) (event : CaptureEvent.t) : M unit :=
  t ← get_task;
  match input_target t handle (is_begin event) with
  | None => mret tt
  | Some handle =>
      pos ← get_pos handle;
      let side := to_proto_pos (Side.opposite pos) in
      message ←
        match event with
        | CaptureEvent.Begin =>
            _ ← update (set_entering_via None); t ← get_task; mret (enter_event t side)
        | CaptureEvent.Input e =>
            match state t with
            | WaitingForAck =>
                _ ← when (is_press e && (len (held_until_ack t) <? MAX_HELD_UNTIL_ACK))
                      (update (fun t => set_held_until_ack (held_until_ack t ++ [e]) t));
                t ← get_task; mret (enter_event t side)
            | Sending => mret (ProtoEvent.Input e)
            end
        (** [unreachable!] *)
        | _ => panic
        end;
      sent ← send handle message;
      when (negb sent) release_capture
  end.

(** After the push: what a [Begin] or an input event leads to. *)
Definition route_event (handle : Z) (event : CaptureEvent.t) (pressure_met : bool) : M unit :=
  if is_begin event then
    ignored ← ignore_begin handle;
    if (ignored : bool) then mret tt
    else
      returning ← (if negb is_touchpad then returns_to_controller handle else mret false);
      armed ← (if pressure_met then mret false else arm_pressure handle returning);
      if (armed : bool) then mret tt
      else if (returning : bool) then pass_back handle
      else
        t ← get_task;
        _ ← tell (CaptureBegin handle (entry_along t));
        kind ← get_type handle;
        if bool_decide (kind = EnterOnly) then
          pos ← get_pos handle; t ← get_task;
          when (negb (is_default_capture_at t pos)) plain_release
        else
          w ← get_world; t ← get_task;
          if negb is_touchpad && defer_to_handoff w t handle then pass_on handle
          else
            _ ← when (negb (bool_decide (active_client t = Some handle))) (activate handle);
            forward handle event
  else
    kind ← get_type handle;
    if bool_decide (kind = EnterOnly) then
      pos ← get_pos handle; t ← get_task;
      when (negb (is_default_capture_at t pos)) plain_release
    else forward handle event.

Definition handle_capture_event (handle : Z) (event : CaptureEvent.t) : M unit :=
  match event with
  | CaptureEvent.Entry along => update (set_entry_along (Some along))
  | CaptureEvent.Clipboard mime_type data =>
      when (utf8_valid data) (tell (FileClipboard handle mime_type data))
  | _ =>
      t ← get_task;
      if negb (has_capture t handle) then when (is_begin event) plain_release
      else
        c ← get_input;
        if keys_pressed c (release_bind t) then release_capture
        else
          measured ← measure_pressure handle event;
          match measured with
          | None => mret tt
          | Some (event, pressure_met) => route_event handle event pressure_met
          end
  end.

(** ** Barriers *)

(** The barrier of one configured capture exists exactly while input is shared. *)
Definition sync_capture (handle : Z) (pos : Side) : M unit :=
  t ← get_task;
  if input_sharing t then
    if bool_decide (handle ∈ enabled_captures t) then mret tt
    else
      _ ← update (fun t => set_enabled_captures ({[handle]} ∪ enabled_captures t) t);
      created ← attempt (on_input (fun w c => create w c handle pos));
      match created with
      | Ok _ => mret tt
      | Err e =>
          _ ← update (fun t => set_enabled_captures (enabled_captures t ∖ {[handle]}) t);
          lift (Failed e)
      end
  else if bool_decide (handle ∈ enabled_captures t) then
    _ ← when (bool_decide (active_client t = Some handle)) release_capture;
    _ ← update (fun t => set_enabled_captures (enabled_captures t ∖ {[handle]}) t);
    on_input (fun w c => destroy w c handle)
  else mret tt.

Definition sync_captures : M unit :=
  t ← get_task; for_each (fun c => sync_capture c.1.1 c.1.2) (captures t).

(** ** Messages of peers *)

(** Answered by the service, not here. *)
Definition is_forwarded_protocol (event : ProtoEvent) : bool :=
  match event with
  | ProtoEvent.ClipboardStart _ _ _ | ProtoEvent.ClipboardImageStart _ _ _ _ _
  | ProtoEvent.ClipboardChunk _ _ _ | ProtoEvent.ClipboardCaps _ | ProtoEvent.ClipboardManifest _ _
  | ProtoEvent.ClipboardFileRequest _ _ _ _ _ | ProtoEvent.ClipboardFileChunk _ _ _ _ _
  | ProtoEvent.ClipboardFileComplete _ _ _ _ _ | ProtoEvent.ClipboardTransferCancel _ _ _
  | ProtoEvent.ClipboardTransferProgress _ _ _ _ | ProtoEvent.ManualFileOffer _ _ _
  | ProtoEvent.ManualFileDecision _ _ | ProtoEvent.ManualFileRequest _ _ _
  | ProtoEvent.ManualFileChunk _ _ _ | ProtoEvent.ManualFileComplete _ _
  | ProtoEvent.ManualFileResult _ _ _ | ProtoEvent.ManualFileCancel _
  | ProtoEvent.HistorySyncRequest _ _ | ProtoEvent.HistoryRecordStart _ _ _ _
  | ProtoEvent.HistoryRecordChunk _ _ _ _ | ProtoEvent.HistorySyncPageEnd _ _
  | ProtoEvent.HistoryClearBoundaryRequest _ | ProtoEvent.HistoryClearBoundary _ _
  | ProtoEvent.HistoryClearApply _ _ | ProtoEvent.HistoryClearAck _ _ _
  | ProtoEvent.ProfileStart _ _ _ _ _ _ | ProtoEvent.ProfileChunk _ _ _ | ProtoEvent.ProfileRequest _
  | ProtoEvent.ProfileChanged => true
  | _ => false
  end.

Definition notify_peer_lost (handle : Z) : M unit := tell (PeerLost handle).

(** [Pong(false)] of a peer whose transport is gone *)
Definition check_pong (handle : Z) (event : ProtoEvent) : M unit :=
  w ← get_world;
  match event with
  | ProtoEvent.Pong alive =>
      _ ← tell (PeerStateChanged handle);
      when (negb alive && negb (peer_connected w handle)) (notify_peer_lost handle)
  | _ => mret tt
  end.

Definition handle_inactive_event (handle : Z) (fingerprint : rstring) (event : ProtoEvent) : M unit :=
  _ ← tell (PeerAuthenticated handle fingerprint);
  if is_forwarded_protocol event then tell (Clipboard handle fingerprint event)
  else check_pong handle event.

(** The peer acknowledged entry: it gets the presses that waited for it. *)
Definition acknowledged (handle : Z) : M unit :=
  t ← get_task;
  _ ← match entering_via t, local_departure t with
      | None, Some (edge, along) => tell (PointerLeft edge along)
      | _, _ => mret tt
      end;
  _ ← update (fun t => set_ack_deadline None (set_state Sending (set_entry_along None
                (set_entering_via None t))));
  _ ← emit (Acked handle);
  t ← get_task;
  _ ← update (set_held_until_ack []);
  for_each (fun event => _ ← send handle (ProtoEvent.Input event); mret tt) (held_until_ack t).

(** A hand-off that cannot be followed: the pointer comes home. *)
Definition refuse_handoff (handle : Z) : M unit :=
  edge ← get_pos handle;
  _ ← release_capture;
  tell (StepInside edge).

(** A message of the entered device. *)
Definition handle_active_event (handle : Z) (event : ProtoEvent) : M unit :=
  t ← get_task;
  match event with
  | ProtoEvent.Ack _ => when (bool_decide (state t = WaitingForAck)) (acknowledged handle)
  | ProtoEvent.Leave _ => return_local_pointer None
  | ProtoEvent.LeaveAt along => return_local_pointer (Some along)
  | ProtoEvent.Pong false => release_capture
  | ProtoEvent.Handoff target side =>
      if bool_decide (state t = Sending) then handoff handle target side else refuse_handoff handle
  | _ => mret tt
  end.

Definition handle_peer_event (handle : Z) (fingerprint : rstring) (event : ProtoEvent) : M unit :=
  _ ← tell (PeerAuthenticated handle fingerprint);
  if is_forwarded_protocol event then tell (Clipboard handle fingerprint event)
  else
    _ ← check_pong handle event;
    t ← get_task;
    _ ← when (bool_decide (active_client t = Some handle)) (handle_active_event handle event);
    sync_captures.

(** ** Requests of the service *)

Definition send_proto_event (handle : Z) (event : ProtoEvent) : M unit :=
  w ← get_world;
  when (peer_connected w handle) (_ ← send handle event; mret tt).

(** A newer clipboard for the same peer replaces one still being sent. *)
Definition send_clipboard_transfer (handle transfer_id : Z) (data : bytes)
    (image_dimensions : option (Z * Z)) : M unit :=
  w ← get_world;
  _ ← update (fun t => set_clipboard_sends (filter (fun h => stream_finished w h = false)
                (clipboard_sends t)) t);
  t ← get_task;
  _ ← when (bool_decide (handle ∈ clipboard_sends t)) (emit (AbortStream handle));
  _ ← update (fun t => set_clipboard_sends ({[handle]} ∪ clipboard_sends t) t);
  emit (StreamClipboard handle transfer_id data image_dimensions).

(** The messages of [stream_clipboard], as long as sending works; [None] for a
    payload whose length is no [u32]. *)
Fixpoint clipboard_chunks (fuel : nat) (transfer_id index : Z) (data : bytes) : list ProtoEvent :=
  match fuel, data with
  | S fuel, _ :: _ =>
      let size := Z.to_nat MAX_CLIPBOARD_CHUNK_SIZE in
      ProtoEvent.ClipboardChunk transfer_id index (take size data)
      :: clipboard_chunks fuel transfer_id (index + 1) (drop size data)
  | _, _ => []
  end.
Definition stream_clipboard (transfer_id : Z) (data : bytes) (image_dimensions : option (Z * Z))
    : option (list ProtoEvent) :=
  if u32_max <? len data then None
  else
    let chunks := div_ceil (len data) MAX_CLIPBOARD_CHUNK_SIZE in
    let start := match image_dimensions with
                 | Some (width, height) => ProtoEvent.ClipboardImageStart transfer_id width height (len data) chunks
                 | None => ProtoEvent.ClipboardStart transfer_id (len data) chunks
                 end in
    Some (start :: clipboard_chunks (length data) transfer_id 0 data).

Definition connect (handle : Z) : M unit :=
  _ ← update_world (fun w => conn_connect w handle); emit (Connect handle).

(** The settings both kinds of requests set alike. *)
Definition set_option (request : CaptureRequest) : M unit :=
  match request with
  | SetMultiHop enabled => update (set_multi_hop enabled)
  | SetSeparatePeerPointers enabled => update (set_separate_peer_pointers enabled)
  | SetEdgePressure amount => update (set_edge_pressure amount)
  | SetReleaseBind bind => update (set_release_bind bind)
  | SendProto handle event => send_proto_event handle event
  | SendClipboard handle transfer_id data image_dimensions =>
      send_clipboard_transfer handle transfer_id data image_dimensions
  | _ => mret tt
  end.

(** [handle_inactive_request]; [true] asks for a back end. *)
Definition handle_inactive_request (request : CaptureRequest) : M bool :=
  match request with
  | Reenable => mret true
  | SetBackend backend =>
      _ ← update (fun t => set_restart_now true (set_backend backend t)); mret true
  | Create handle pos kind =>
      _ ← add_capture handle pos kind;
      _ ← when (bool_decide (kind = Default)) (connect handle); mret false
  | Destroy handle => _ ← remove_capture handle; mret false
  | SetController controller => _ ← update (set_controller controller); _ ← clear_pressure; mret false
  | SetInputSharing enabled => _ ← update (set_input_sharing enabled); mret false
  | request => _ ← set_option request; mret false
  end.

(** [CaptureRequest::Release] during a session: the pointer lands at the edge a
    peer's pointer just came in through. *)
Definition release_request : M unit :=
  t ← get_task; w ← get_world;
  let was_sending := bool_decide (is_Some (active_client t)) in
  let landing := match last_entry w with
                 | Some (edge, at_) => if now w - at_ <? ENTRY_GRACE then Some edge else None
                 | None => None
                 end in
  _ ← clear_pressure;
  placed ← release_capture_at landing;
  match landing with
  | None => mret tt
  | Some edge =>
      w ← get_world;
      _ ← update_world (set_last_entry (Some (edge, now w)));
      when (was_sending || negb placed) (tell (PlacePointer edge))
  end.

(** Requests during a session; [true] ends it. *)
Definition handle_request (request : CaptureRequest) : M bool :=
  match request with
  | Reenable => mret false
  | SetBackend backend =>
      _ ← update (fun t => set_restart_now true (set_backend backend t));
      _ ← release_capture; mret true
  | Release => _ ← release_request; mret false
  | SetController controller' =>
      t ← get_task;
      let changed := negb (bool_decide (fst <$> controller' = fst <$> controller t)) in
      _ ← update (set_controller controller');
      _ ← when (changed && bool_decide (is_Some (pressure t))) release_capture; mret false
  | SetInputSharing enabled =>
      _ ← update (set_input_sharing enabled);
      _ ← when (negb enabled) release_capture;
      _ ← sync_captures; mret false
  | Create handle pos kind =>
      _ ← add_capture handle pos kind;
      _ ← when (bool_decide (kind = Default)) (connect handle);
      _ ← sync_captures; mret false
  | Destroy handle =>
      _ ← remove_capture handle;
      t ← get_task;
      _ ← when (bool_decide (handle ∈ enabled_captures t))
            (_ ← when (bool_decide (active_client t = Some handle)) release_capture;
             _ ← update (fun t => set_enabled_captures (enabled_captures t ∖ {[handle]}) t);
             on_input (fun w c => destroy w c handle));
      mret false
  | request => _ ← set_option request; mret false
  end.

(** ** The task *)

Definition reconnect_lost_peers : M unit :=
  t ← get_task;
  for_each (fun c => w ← get_world;
                     when (bool_decide (c.2 = Default) && negb (peer_connected w c.1.1)) (connect c.1.1))
    (captures t).

(** The acknowledgement did not come in time. *)
Definition ack_overdue : M unit :=
  t ← get_task;
  match ack_deadline t with
  | None => mret tt
  | Some _ =>
      retry ← legacy_entry_retry;
      match retry with
      | Some (handle, event) => _ ← send handle event; mret tt
      | None => release_capture
      end
  end.

(** What the task waits for. *)
Inductive Stimulus :=
| BackendReady (name : rstring)
| BackendEvent (event : Side * CaptureEvent.t)
| BackendError (error : rstring)
| BackendClosed
| PeerMessage (handle : Z) (fingerprint : rstring) (event : ProtoEvent)
| Request (request : CaptureRequest)
| AckDeadline
| ReconnectTick
| Cancelled.

(** [do_capture] once the back end is there, up to the session. *)
Definition begin_session (name : rstring) : M unit := fun s =>
  (_ ← tell (CaptureEnabled name); _ ← update (set_enabled_captures ∅); sync_captures)
    (Build_Sys (task s) new_capture (world s) (trace s) true).

(** One round of the loop of [do_capture_session]; [true] ends the session. *)
Definition session_round (x : Stimulus) : M bool :=
  match x with
  | BackendEvent event =>
      next ← take_input (fun c => poll_next c event);
      _ ← match next with
          | Some (handle, event) => handle_capture_event handle event
          | None => mret tt
          end;
      mret false
  | BackendError error => lift (Failed error)
  | BackendClosed => mret true
  | PeerMessage handle fingerprint event => _ ← handle_peer_event handle fingerprint event; mret false
  | Request request => handle_request request
  | AckDeadline => _ ← ack_overdue; mret false
  | ReconnectTick => _ ← reconnect_lost_peers; mret false
  | Cancelled => _ ← release_capture; mret true
  | BackendReady _ => mret false
  end.

(** The end of [do_capture]: the back end is terminated and the guard tells the
    service. *)
Definition end_session (s : Sys W) : Sys W :=
  let (w, _) := backend_terminate (world s) in
  Build_Sys (set_restart_now false (task s)) (input s) w (trace s ++ [Tell CaptureDisabled]) false.

(** The system after a computation that did not panic. *)
Definition survive {A} (x : Sys W * outcome A) : option (Sys W) :=
  match x with (_, Panicked) => None | (s, _) => Some s end.

(** One step of [run]; [None] when the task panicked. *)
Definition step (s : Sys W) (x : Stimulus) : option (Sys W) :=
  if capturing s then
    match session_round x s with
    | (s, Done false) => Some s
    | (s, Done true) | (s, Failed _) => Some (end_session s)
    | (_, Panicked) => None
    end
  else
    match x with
    | BackendReady name =>
        match begin_session name s with
        | (s, Done _) => Some s
        | (s, Failed _) => Some (end_session s)
        | (_, Panicked) => None
        end
    | PeerMessage handle fingerprint event => survive (handle_inactive_event handle fingerprint event s)
    | Request request => survive (handle_inactive_request request s)
    | ReconnectTick => survive (reconnect_lost_peers s)
    | _ => Some s
    end.

(** While the task waits, other tasks run and time passes. *)
Definition meanwhile (w : W) (s : Sys W) : Sys W :=
  Build_Sys (task s) (input s) w (trace s) (capturing s).

(** Each stimulus with the world it comes in. *)
Fixpoint run (s : Sys W) (l : list (W * Stimulus)) : option (Sys W) :=
  match l with
  | [] => Some s
  | (w, x) :: l => s ← step (meanwhile w s) x; run s l
  end.

(** [Capture::new] *)
Definition new_system (w : W) (backend : option rstring) (release_bind : list Z) : Sys W :=
  Build_Sys (new_task backend release_bind) new_capture w [] false.
End capture.
