(* ===== verification/CaptureTheorems.v ===== *)
(** * Input capture: the entry protocol

    What a peer sees of a capture is an automaton: it is entered, acknowledges,
    gets input, and is left.  [protocol] is that automaton, and every run of the
    capture task follows it, whatever the back end, the network and the clock
    do. *)

From Stdlib Require Import QArith Qabs.
From S2P Require Import Prelude Wire ProtoTypes ProtoValid InputCapture Capture.
Open Scope Z_scope.

(** ** The automaton *)

(** The events with which a peer is cleaned up: releases and the reset of the
    modifiers. *)
Definition is_cleanup (e : InputEvent.t) : bool :=
  match e with
  | InputEvent.Keyboard (KeyboardEvent.Key _ _ 0)
  | InputEvent.Keyboard (KeyboardEvent.Modifiers 0 0 0 0)
  | InputEvent.Pointer (PointerEvent.Button _ _ 0) => true
  | _ => false
  end.

Definition is_enter (event : ProtoEvent) : bool :=
  match event with
  | ProtoEvent.Enter _ | ProtoEvent.EnterAt _ _ | ProtoEvent.EnterVia _ _ => true
  | _ => false
  end.

Inductive Phase := Idle | Entering (handle : Z) | Active (handle : Z).
#[global] Instance phase_eq_dec : EqDecision Phase.
Proof. solve_decision. Defined.

(** The peer of a phase. *)
Definition phase_peer (p : Phase) : option Z :=
  match p with Idle => None | Entering h | Active h => Some h end.

(** One output; [None] is a breach. *)
Definition protocol (p : Phase) (o : Output) : option Phase :=
  match o with
  | Sent h event =>
      match event with
      | ProtoEvent.Input e =>
          if bool_decide (p = Active h) || (bool_decide (p = Entering h) && is_cleanup e)
          then Some p else None
      | ProtoEvent.Leave _ => if bool_decide (phase_peer p = Some h) then Some Idle else None
      | event =>
          if is_enter event then Some (if bool_decide (p = Active h) then Active h else Entering h)
          else Some p
      end
  | Acked h => if bool_decide (p = Entering h) then Some (Active h) else None
  | Ended h => Some Idle
  | _ => Some p
  end.

Fixpoint follows (p : Phase) (l : list Output) : option Phase :=
  match l with
  | [] => Some p
  | o :: l => p ← protocol p o; follows p l
  end.

Lemma follows_app p l k : follows p (l ++ k) = (q ← follows p l; follows q k).
Proof.
  revert p. induction l as [|o l IH]; intros p; [done|]. cbn. by destruct (protocol p o); cbn.
Qed.

(** An acknowledged peer: since its acknowledgement nothing ended its capture. *)
Lemma follows_active l h :
  follows Idle l = Some (Active h) ->
  exists before after, l = before ++ Acked h :: after
  /\ Forall (fun o => protocol (Active h) o = Some (Active h)) after.
Proof.
  induction l as [|o l IH] using rev_ind; [done|].
  rewrite follows_app. destruct (follows Idle l) as [p|] eqn:E; [|done].
  cbn. intros H. destruct (protocol p o) as [q|] eqn:Ep; [|done]. injection H as ->.
  destruct (decide (p = Active h)) as [->|Hp].
  - destruct (IH eq_refl) as (before & after & -> & Hafter).
    exists before, (after ++ [o]). split; [by rewrite <- app_assoc|].
    apply Forall_app. split; [done|]. by apply Forall_singleton.
  - exists l, []. split; [|constructor].
    destruct o as [|h' e|h'|h'| | |]; cbn in Ep; try (exfalso; by apply Hp; injection Ep).
    + exfalso. destruct e; cbn in Ep; try (by apply Hp; injection Ep);
        revert Ep; repeat case_bool_decide; repeat case_match; intros; congruence.
    + case_bool_decide; [|done]. by injection Ep as ->.
Qed.

(** ** The task and its phase *)

(** What the task believes of its peer. *)
Definition phase_of (t : CaptureTask) : Phase :=
  match active_client t with
  | None => Idle
  | Some h => match state t with WaitingForAck => Entering h | Sending => Active h end
  end.

(** ** What a computation keeps

    [inv] holds after a computation that is done, [bad] after one that failed;
    [crash] says whether it may panic. *)

Section logic.
Context {W : Type} `{!CaptureWorld W} `{!HashOrder}.
Variables (inv bad : Sys W -> Prop) (crash : Prop).
Hypothesis inv_bad : forall s, inv s -> bad s.

Definition keeps {A} (P : Sys W -> Prop) (m : M W A) : Prop :=
  forall s, inv s -> P s ->
  match m s with (s', Done _) => inv s' | (s', Failed _) => bad s' | (_, Panicked) => crash end.
Definition always (_ : Sys W) : Prop := True.

Lemma keeps_always {A} P (m : M W A) : keeps always m -> keeps P m.
Proof. intros Hm s Hs _. by apply Hm. Qed.

Lemma keeps_bind {A B} P (m : M W A) (f : A -> M W B) :
  keeps P m -> (forall a, keeps always (f a)) -> keeps P (m ≫= f).
Proof using inv_bad.
  intros Hm Hf s Hs HP. specialize (Hm s Hs HP). unfold mbind, capture_bind.
  destruct (m s) as [s1 [a|e|]]; [|done..]. by apply Hf.
Qed.

(** What the value of a computation satisfies. *)
Definition returns {A} (R : A -> Prop) (m : M W A) : Prop :=
  forall s s' a, m s = (s', Done a) -> R a.
Lemma returns_bind {A B} R (m : M W A) (f : A -> M W B) :
  (forall a, returns R (f a)) -> returns R (m ≫= f).
Proof.
  intros Hf s s' b. unfold mbind, capture_bind. destruct (m s) as [s1 [a|e|]]; [apply Hf|done..].
Qed.
Lemma returns_ret {A} (R : A -> Prop) a : R a -> returns R (mret a).
Proof. by intros Ha s s' b [= _ <-]. Qed.
Lemma keeps_bind_returns {A B} P R (m : M W A) (f : A -> M W B) :
  keeps P m -> returns R m -> (forall a, R a -> keeps always (f a)) -> keeps P (m ≫= f).
Proof using inv_bad.
  intros Hm HR Hf s Hs HP. specialize (Hm s Hs HP). unfold mbind, capture_bind.
  destruct (m s) as [s1 [a|e|]] eqn:E; [|done..]. apply Hf; [by eapply HR|done..].
Qed.

(** Reading the state teaches what it is. *)
Lemma keeps_get_task {A} P (f : CaptureTask -> M W A) :
  (forall t, keeps (fun s => P s /\ task s = t) (f t)) -> keeps P (get_task ≫= f).
Proof. intros Hf s Hs HP. cbn. by apply (Hf (task s)). Qed.
Lemma keeps_get_world {A} P (f : W -> M W A) :
  (forall w, keeps P (f w)) -> keeps P (get_world ≫= f).
Proof. intros Hf s Hs HP. cbn. by apply (Hf (world s)). Qed.
Lemma keeps_get_input {A} P (f : InputCapture -> M W A) :
  (forall c, keeps P (f c)) -> keeps P (get_input ≫= f).
Proof. intros Hf s Hs HP. cbn. by apply (Hf (input s)). Qed.

Lemma keeps_ret {A} P (a : A) : keeps P (mret a).
Proof. by intros s Hs _. Qed.
Lemma keeps_failed {A} P e : keeps P (lift (Failed e : outcome A)).
Proof using inv_bad. intros s Hs _. by apply inv_bad. Qed.
Lemma keeps_when P b m : (b = true -> keeps P m) -> keeps P (when b m).
Proof. destruct b; [auto|]. intros _. apply keeps_ret. Qed.
Lemma keeps_if {A} P (b : bool) (m1 m2 : M W A) :
  (b = true -> keeps P m1) -> (b = false -> keeps P m2) -> keeps P (if b then m1 else m2).
Proof. destruct b; auto. Qed.
Lemma keeps_for_each {A} (f : A -> M W unit) l :
  Forall (fun a => keeps always (f a)) l -> keeps always (for_each f l).
Proof using inv_bad.
  induction 1 as [|a l Ha _ IH]; cbn; [apply keeps_ret|]. by apply keeps_bind.
Qed.
End logic.

Create HintDb capture discriminated.
#[export] Hint Resolve keeps_ret keeps_failed : capture.

(** One construct of a computation; [capture] proves its leaves. *)
Ltac walk_step :=
  lazymatch goal with
  | |- forall _, _ => intros ?
  | |- keeps _ _ _ _ (get_task ≫= _) => apply keeps_get_task
  | |- keeps _ _ _ _ (get_world ≫= _) => apply keeps_get_world
  | |- keeps _ _ _ _ (get_input ≫= _) => apply keeps_get_input
  | |- keeps _ _ _ _ (_ ≫= _) => apply keeps_bind; [by auto with capture| |]
  | |- keeps _ _ _ _ (when _ _) => apply keeps_when
  | |- keeps _ _ _ _ (if _ then _ else _) => apply keeps_if
  | |- keeps _ _ _ _ (match ?x with _ => _ end) => destruct x eqn:?
  | |- keeps _ _ _ _ (let _ := _ in _) => cbv zeta
  end.
Ltac walk := repeat first [solve [eauto with capture] | apply keeps_always; solve [eauto with capture] | walk_step].

(** ** Letting go *)

(** The task without a captured device. *)
Definition let_go (t : CaptureTask) : CaptureTask :=
  set_active_client None (set_state WaitingForAck (set_held_until_ack []
    (set_ack_deadline None (set_local_departure None t)))).

(** The task once its device acknowledged the entry. *)
Definition acked (t : CaptureTask) : CaptureTask :=
  set_held_until_ack [] (set_ack_deadline None (set_state Sending (set_entry_along None
    (set_entering_via None t)))).

(** What the release of a device puts out. *)
Definition farewell (h : Z) (said : list Output) : Prop :=
  exists told n keys buttons,
    said = (Tell <$> told) ++ (Sent h <$> take n (cleanup_events keys buttons)) ++ [Ended h].

Section effects.
Context {W : Type} `{!CaptureWorld W} `{!HashOrder}.
Implicit Types (s : Sys W) (t : CaptureTask).

Lemma bind_done {A B} (m : M W A) (f : A -> M W B) s s' a :
  m s = (s', Done a) -> (m ≫= f) s = f a s'.
Proof. intros Hm. unfold mbind, capture_bind. by rewrite Hm. Qed.

(** The same task, maps and session; the back end, the pressed keys and the
    world may differ, and the trace has grown by [said]. *)
Definition only_says (said : list Output) s s' : Prop :=
  task s' = task s /\ capturing s' = capturing s /\ trace s' = trace s ++ said
  /\ id_map (input s') = id_map (input s) /\ position_map (input s') = position_map (input s).

Lemma only_says_nil s : only_says [] s s.
Proof. unfold only_says. by rewrite app_nil_r. Qed.
Lemma only_says_trans l k s1 s2 s3 :
  only_says l s1 s2 -> only_says k s2 s3 -> only_says (l ++ k) s1 s3.
Proof.
  intros (H1 & H2 & H3 & H4 & H5) (K1 & K2 & K3 & K4 & K5).
  repeat split; [congruence..| |congruence|congruence]. by rewrite K3, H3, app_assoc.
Qed.

Lemma send_says h event s : exists s' sent, send h event s = (s', Done sent)
  /\ only_says [Sent h event] s s'.
Proof. unfold send. destruct (conn_send (world s) h event) as [w sent]. by exists (Build_Sys (task s) (input s) w (trace s ++ [Sent h event]) (capturing s)), sent. Qed.

Lemma for_each_send_says {A} h (message : A -> ProtoEvent) l s :
  exists s', for_each (fun a => _ ← send h (message a); mret tt) l s = (s', Done tt)
  /\ only_says ((fun a => Sent h (message a)) <$> l) s s'.
Proof.
  revert s. induction l as [|a l IH]; intros s; cbn.
  - exists s. split; [done|]. apply only_says_nil.
  - destruct (send_says h (message a) s) as (s1 & sent & E1 & S1). unfold mbind, capture_bind.
    rewrite E1. cbn. destruct (IH s1) as (s2 & E2 & S2). exists s2. split; [exact E2|].
    exact (only_says_trans _ _ _ _ _ S1 S2).
Qed.

Lemma release_with_says landing along s :
  exists s' o, release_with landing along s = (s', o) /\ o <> Panicked /\ only_says [] s s'.
Proof.
  unfold release_with, release_at_along, on_input. destruct landing as [edge|].
  - destruct (backend_release_at (world s) edge along) as [w r]. do 2 eexists. split; [reflexivity|].
    split; [by destruct r|]. unfold only_says. by rewrite app_nil_r.
  - cbn. unfold mbind, capture_bind, release.
    destruct (backend_release (world s)) as [w [|]]; cbn; do 2 eexists; (split; [reflexivity|]);
      unfold only_says; by rewrite app_nil_r.
Qed.

Lemma plain_release_says s :
  exists s' o, plain_release s = (s', o) /\ o <> Panicked /\ only_says [] s s'.
Proof.
  unfold plain_release, on_input, release. destruct (backend_release (world s)) as [w r].
  do 2 eexists. split; [reflexivity|]. split; [by destruct r|]. unfold only_says. by rewrite app_nil_r.
Qed.

(** Told, as far as it was said. *)
Lemma tells_say (b : option ICaptureEvent) s :
  exists s' told, match b with Some e => tell e | None => mret tt end s = (s', Done tt)
  /\ only_says (Tell <$> told) s s'.
Proof.
  destruct b as [e|]; cbn.
  - exists (Build_Sys (task s) (input s) (world s) (trace s ++ [Tell e]) (capturing s)), [e]. done.
  - exists s, []. split; [done|]. apply only_says_nil.
Qed.

Lemma attempt_says {A} (m : M W A) s s' o :
  m s = (s', o) -> o <> Panicked -> exists r, attempt m s = (s', Done r) /\ o = of_result r.
Proof.
  intros Hm Ho. unfold attempt. rewrite Hm. destruct o as [a|e|]; [by exists (Ok a)|by exists (Err e)|done].
Qed.

Lemma release_capture_at_says landing s :
  exists s' o said, release_capture_at landing s = (s', o) /\ o <> Panicked
  /\ task s' = let_go (task s) /\ capturing s' = capturing s /\ trace s' = trace s ++ said
  /\ id_map (input s') = id_map (input s) /\ position_map (input s') = position_map (input s)
  /\ match active_client (task s) with Some h => farewell h said | None => said = [] end.
Proof.
  unfold release_capture_at. do 4 (erewrite bind_done; [|reflexivity]). cbn.
  destruct (active_client (task s)) as [h|] eqn:Ha.
  - do 3 (erewrite bind_done; [|reflexivity]). cbn.
    set (s1 := Build_Sys _ _ _ _ _).
    destruct (release_with_says landing (landing_along (world s)) s1) as (s2 & o & E2 & Ho & S2).
    destruct (attempt_says _ _ _ _ E2 Ho) as (r & E3 & ->).
    erewrite bind_done; [|exact E3].
    set (b := match r, landing with
              | Ok _, Some edge => Some (PointerReturned edge (landing_along (world s)))
              | _, _ => None end).
    destruct (tells_say b s2) as (s3 & told & E4 & S4).
    erewrite bind_done; [|rewrite <- E4; unfold b; by destruct r, landing].
    erewrite bind_done; [|reflexivity].
    destruct (for_each_send_says h (fun event => event) (take (sends_in_time (world s3))
      (cleanup_events (hash_order (elements (pressed_keys (input s))))
                      (hash_order (elements (pressed_buttons (input s)))))) s3) as (s5 & E5 & S5).
    erewrite bind_done; [|exact E5]. erewrite bind_done; [|reflexivity].
    pose proof (only_says_trans _ _ _ _ _ (only_says_trans _ _ _ _ _ S2 S4) S5) as (T1 & T2 & T3 & T4 & T5).
    do 3 eexists. split; [reflexivity|]. cbn. split; [by destruct r|]. split; [by rewrite T1|].
    split; [by rewrite T2|]. split; [rewrite T3; cbn; by rewrite <- app_assoc|].
    split; [by rewrite T4|]. split; [by rewrite T5|].
    unfold farewell. do 4 eexists. by rewrite <- app_assoc.
  - set (s1 := Build_Sys _ _ _ _ _).
    destruct (release_with_says landing (landing_along (world s)) s1) as (s2 & o & E2 & Ho & T1 & T2 & T3 & T4 & T5).
    exists s2, o, []. split; [exact E2|]. split; [done|].
    split; [rewrite T1; subst s1; destruct (task s); cbn in *; by subst|]. by rewrite T2, T3, T4, T5.
Qed.

Lemma acknowledged_says handle s :
  exists s' told, acknowledged handle s = (s', Done tt) /\ task s' = acked (task s)
  /\ capturing s' = capturing s
  /\ trace s' = trace s ++ (Tell <$> told) ++ [Acked handle]
                 ++ ((fun e => Sent handle (ProtoEvent.Input e)) <$> held_until_ack (task s))
  /\ id_map (input s') = id_map (input s) /\ position_map (input s') = position_map (input s).
Proof.
  unfold acknowledged. erewrite bind_done; [|reflexivity].
  set (b := match entering_via (task s), local_departure (task s) with
            | None, Some (edge, along) => Some (PointerLeft edge along)
            | _, _ => None end).
  destruct (tells_say b s) as (s1 & told & E1 & T1 & T2 & T3 & T4 & T5).
  erewrite bind_done; [|rewrite <- E1; unfold b;
    by destruct (entering_via (task s)), (local_departure (task s)) as [[]|]].
  do 4 (erewrite bind_done; [|reflexivity]). cbn. set (s2 := Build_Sys _ _ _ _ _).
  destruct (for_each_send_says handle ProtoEvent.Input (held_until_ack (task s1)) s2)
    as (s3 & E3 & U1 & U2 & U3 & U4 & U5).
  exists s3, told. split; [exact E3|]. rewrite U1, U2, U3, U4, U5. cbn.
  rewrite T1, T2, T3, T4, T5, <- !app_assoc. done.
Qed.
End effects.

(** ** Every run follows the automaton *)

(** The messages the service may ask the task to send: not those of the entry
    protocol, which are the task's own. *)
Definition is_entry_protocol (event : ProtoEvent) : bool :=
  match event with
  | ProtoEvent.Input _ | ProtoEvent.Leave _ => true
  | event => is_enter event
  end.
Definition plain_request (x : Stimulus) : bool :=
  match x with Request (SendProto _ event) => negb (is_entry_protocol event) | _ => true end.

Section protocol.
Context {W : Type} `{!CaptureWorld W} `{!HashOrder}.
Implicit Types (s : Sys W) (t : CaptureTask).

Definition in_step s : Prop := follows Idle (trace s) = Some (phase_of (task s)).
Abbreviation keeps := (keeps in_step in_step True).

(** An output that moves nothing. *)
Definition neutral (o : Output) : Prop := forall p, protocol p o = Some p.

Lemma neutral_sent h event : is_entry_protocol event = false -> neutral (Sent h event).
Proof. intros Hn p. destruct event; cbn in *; try done. Qed.

Lemma follows_tells p told : follows p (Tell <$> told) = Some p.
Proof. by induction told as [|e told IH]. Qed.

Lemma follows_inputs h l :
  follows (Active h) ((fun e => Sent h (ProtoEvent.Input e)) <$> l) = Some (Active h).
Proof. induction l as [|e l IH]; [done|]. cbn. by rewrite bool_decide_true. Qed.

Lemma follows_farewell p h said : phase_peer p = Some h -> farewell h said -> follows p said = Some Idle.
Proof.
  intros Hp (told & n & keys & buttons & ->). rewrite follows_app, follows_tells. cbn.
  unfold cleanup_events. rewrite !app_assoc, fmap_take, fmap_app.
  set (l := Sent h <$> _).
  assert (Hl : Forall (fun o => protocol p o = Some p) l).
  { subst l. rewrite fmap_app, <- !list_fmap_compose, Forall_app, !Forall_fmap.
    split; apply Forall_forall; intros k _; cbn;
      destruct p; cbn in *; simplify_eq; by repeat case_bool_decide. }
  clearbody l. revert n. induction Hl as [|o l Ho _ IH]; intros n.
  - destruct n as [|[|n]]; [done|..]; cbn; destruct p; cbn in *; simplify_eq;
      repeat case_bool_decide; cbn; try done; rewrite bool_decide_true, take_nil; done.
  - destruct n as [|n]; [done|]. cbn. rewrite Ho. cbn. apply IH.
Qed.

Lemma in_step_extend s s' said :
  in_step s -> trace s' = trace s ++ said ->
  follows (phase_of (task s)) said = Some (phase_of (task s')) -> in_step s'.
Proof. unfold in_step. intros Hs -> Ht. by rewrite follows_app, Hs. Qed.

Lemma in_step_says s s' said :
  in_step s -> only_says said s s' -> Forall neutral said -> in_step s'.
Proof.
  intros Hs (Ht & _ & Hl & _) Hn. eapply in_step_extend; [done..|]. rewrite Ht.
  clear -Hn. induction Hn as [|o said Ho _ IH]; [done|]. cbn. by rewrite Ho.
Qed.

Lemma keeps_update P f :
  (forall t, active_client (f t) = active_client t /\ state (f t) = state t) -> keeps P (update f).
Proof.
  intros Hf s Hs _. cbn. unfold in_step, phase_of in *. cbn.
  destruct (Hf (task s)) as [-> ->]. done.
Qed.
Lemma keeps_update_world P f : keeps P (update_world f).
Proof. by intros s Hs _. Qed.
Lemma keeps_on_input {A} P (f : W -> InputCapture -> W * InputCapture * outcome A) : keeps P (on_input f).
Proof.
  intros s Hs _. unfold on_input. destruct (f (world s) (input s)) as [[w c] o]. by destruct o.
Qed.
Lemma keeps_emit P o : neutral o -> keeps P (emit o).
Proof.
  intros Ho s Hs _. cbn. eapply (in_step_extend s _ [o]); [done..|]. cbn. by rewrite Ho.
Qed.
Lemma keeps_tell P e : keeps P (tell e).
Proof. by apply keeps_emit. Qed.
Lemma keeps_send P h event : neutral (Sent h event) -> keeps P (send h event).
Proof.
  intros Ho s Hs _. destruct (send_says h event s) as (s' & sent & -> & Hsaid).
  eapply in_step_says; eauto.
Qed.
Lemma keeps_attempt {A} P (m : M W A) : keeps P m -> keeps P (attempt m).
Proof.
  intros Hm s Hs HP. specialize (Hm s Hs HP). unfold attempt. by destruct (m s) as [s1 []].
Qed.
Lemma keeps_panic {A} P : keeps P (panic (A := A)).
Proof. done. Qed.

Lemma keeps_get_pos P h : keeps P (get_pos h).
Proof. unfold get_pos. walk. by apply keeps_panic. Qed.
Lemma keeps_get_type P h : keeps P (get_type h).
Proof. unfold get_type. walk. by apply keeps_panic. Qed.

Hint Resolve keeps_update_world keeps_on_input keeps_tell keeps_attempt keeps_get_pos keeps_get_type : capture.
Hint Extern 2 (keeps _ (update _)) => apply keeps_update; done : capture.

Lemma keeps_returns_to_controller P h : keeps P (returns_to_controller h).
Proof. unfold returns_to_controller. walk. Qed.
Lemma keeps_report_pressure P h q force : keeps P (report_pressure h q force).
Proof. unfold report_pressure. walk. Qed.
Hint Resolve keeps_returns_to_controller keeps_report_pressure : capture.
Lemma keeps_clear_pressure P : keeps P clear_pressure.
Proof. unfold clear_pressure. walk. Qed.

Lemma keeps_release_capture_at P landing : keeps P (release_capture_at landing).
Proof.
  intros s Hs _. destruct (release_capture_at_says landing s)
    as (s' & o & said & -> & Ho & Ht & _ & Htr & _ & _ & Hsaid).
  assert (in_step s'); [|by destruct o].
  eapply in_step_extend; [exact Hs|exact Htr|]. rewrite Ht.
  destruct (active_client (task s)) as [h|] eqn:Ha.
  - apply (follows_farewell _ h); [|done]. unfold phase_of. rewrite Ha. by destruct (state (task s)).
  - subst said. unfold phase_of. by rewrite Ha.
Qed.
Hint Resolve keeps_clear_pressure keeps_release_capture_at : capture.

Lemma keeps_release_capture P : keeps P release_capture.
Proof. unfold release_capture. walk. Qed.
Lemma keeps_plain_release P : keeps P plain_release.
Proof. apply keeps_on_input. Qed.
Hint Resolve keeps_release_capture keeps_plain_release : capture.

(** An enter message to the peer being entered, or to one already entered. *)
Lemma send_enter_in_step h event s :
  is_enter event = true ->
  (exists p, follows Idle (trace s) = Some p /\ (state (task s) = Sending -> p = Active h)
             /\ (state (task s) = WaitingForAck -> p <> Active h)) ->
  active_client (task s) = Some h ->
  exists s' sent, send h event s = (s', Done sent) /\ in_step s'.
Proof.
  intros He (p & Hp & Hsend & Hwait) Ha.
  destruct (send_says h event s) as (s' & sent & Hs & Ht & _ & Htr & _). exists s', sent.
  split; [done|]. unfold in_step. rewrite Htr, follows_app, Hp, Ht. cbn. unfold phase_of. rewrite Ha.
  destruct event; try done; cbn; destruct (state (task s)); case_bool_decide; naive_solver.
Qed.
Definition lands {A} (x : Sys W * outcome A) : Prop :=
  match x with (s', Done _) => in_step s' | (s', Failed _) => in_step s' | (_, Panicked) => True end.

Lemma lands_then {A B} (m : M W A) (f : A -> M W B) s s' a :
  m s = (s', Done a) -> in_step s' -> keeps always (f a) -> lands ((m ≫= f) s).
Proof. intros Hm Hs Hf. erewrite bind_done by exact Hm. by apply Hf. Qed.

Lemma enter_event_enters t side : is_enter (enter_event t side) = true.
Proof. unfold enter_event. by destruct (entering_via t), (entry_along t), (legacy_entry t). Qed.

(** The peer of the task may be sent an enter message. *)
Definition may_enter (h : Z) s : Prop :=
  active_client (task s) = Some h
  /\ exists p, follows Idle (trace s) = Some p /\ (state (task s) = Sending -> p = Active h)
               /\ (state (task s) = WaitingForAck -> p <> Active h).

Lemma in_step_may_enter h s : in_step s -> active_client (task s) = Some h -> may_enter h s.
Proof.
  intros Hs Ha. split; [done|]. exists (phase_of (task s)). split; [done|].
  unfold phase_of. rewrite Ha. by split; intros ->.
Qed.

Lemma send_enter_lands h event s (f : bool -> M W unit) :
  is_enter event = true -> may_enter h s -> (forall b, keeps always (f b)) ->
  lands ((send h event ≫= f) s).
Proof.
  intros He (Ha & Hp) Hf. destruct (send_enter_in_step h event s He Hp Ha) as (s' & sent & E & Hs').
  by apply (lands_then _ _ _ _ _ E Hs').
Qed.

Lemma forward_lands handle h event s :
  may_enter h s -> (is_begin event = true \/ in_step s) -> lands (forward handle event s).
Proof.
  intros Hm Hev. unfold forward. erewrite bind_done by done.
  unfold input_target. rewrite (proj1 Hm). unfold get_pos at 1.
  destruct (find_capture (task s) h) as [c|] eqn:Hf;
    [|unfold mbind, capture_bind, get_task; by rewrite Hf].
  erewrite bind_done; [|unfold mbind, capture_bind, get_task; by rewrite Hf].
  assert (Hk : forall b, keeps always (when (negb b) release_capture)) by (intros; walk).
  destruct event as [| |e|]; [|done|..|done].
  - erewrite bind_done; [|reflexivity]. apply (send_enter_lands h); [apply enter_event_enters|exact Hm|exact Hk].
  - destruct Hev as [?|Hs]; [done|]. destruct (state (task s)) eqn:Hst.
    + destruct (is_press e && _); (erewrite bind_done; [|reflexivity]);
        (apply (send_enter_lands h); [apply enter_event_enters|exact Hm|exact Hk]).
    + erewrite bind_done; [|reflexivity].
      destruct (send_says h (ProtoEvent.Input e) s) as (s' & sent & E & Ht & _ & Htr & _).
      apply (lands_then _ _ _ _ _ E); [|apply Hk]. apply (in_step_extend s _ [Sent h (ProtoEvent.Input e)]); [done..|].
      rewrite Ht. unfold phase_of. rewrite (proj1 Hm), Hst. cbn. by rewrite bool_decide_true.
Qed.

Lemma keeps_forward_input P handle event : is_begin event = false -> keeps P (forward handle event).
Proof.
  intros Hb s Hs _. destruct (active_client (task s)) as [h|] eqn:Ha.
  - apply (forward_lands handle h); [by apply in_step_may_enter|by right].
  - unfold forward. erewrite bind_done by done. unfold input_target. by rewrite Ha, Hb.
Qed.

(** A touch of an edge that is passed: the device is made the active one, unless
    it is, and is entered. *)
Lemma keeps_enter P handle event t :
  is_begin event = true ->
  keeps (fun s => P s /\ task s = t)
    (_ ← when (negb (bool_decide (active_client t = Some handle))) (activate handle);
     forward handle event).
Proof.
  intros Hb s Hs [_ <-]. case_bool_decide as Ha.
  - cbn. erewrite bind_done by done. apply (forward_lands handle handle); [by apply in_step_may_enter|by left].
  - cbn. unfold activate, get_pos, get_world, get_task, mbind, capture_bind. cbn.
    destruct (find_capture (task s) handle) as [c|] eqn:Hf; [|done]. cbn.
    apply (forward_lands handle handle); [|by left]. split; [done|].
    exists (phase_of (task s)). cbn. rewrite follows_app, Hs. split; [done|]. split; [done|].
    intros _. unfold phase_of. destruct (active_client (task s)), (state (task s)); congruence.
Qed.
Hint Resolve keeps_forward_input keeps_enter : capture.

Lemma keeps_send_plain P h event : is_entry_protocol event = false -> keeps P (send h event).
Proof. intros. by apply keeps_send, neutral_sent. Qed.
Hint Extern 1 (keeps _ (send _ (ProtoEvent.Handoff _ _))) => apply keeps_send_plain; done : capture.

Lemma keeps_measure_pressure P handle event : keeps P (measure_pressure handle event).
Proof. unfold measure_pressure, report_pressure_peak. walk. Qed.
Lemma keeps_ignore_begin P handle : keeps P (ignore_begin handle).
Proof. unfold ignore_begin. walk. Qed.
Lemma keeps_arm_pressure P handle returning : keeps P (arm_pressure handle returning).
Proof. unfold arm_pressure. walk. Qed.
Lemma keeps_pass_back P handle : keeps P (pass_back handle).
Proof. unfold pass_back. walk. Qed.
Lemma keeps_pass_on P handle : keeps P (pass_on handle).
Proof. unfold pass_on. walk. Qed.
Hint Resolve keeps_measure_pressure keeps_ignore_begin keeps_arm_pressure keeps_pass_back keeps_pass_on : capture.

Lemma keeps_route_event P handle event met : keeps P (route_event handle event met).
Proof. unfold route_event. walk. Qed.
Hint Resolve keeps_route_event : capture.
Lemma keeps_handle_capture_event P handle event : keeps P (handle_capture_event handle event).
Proof. unfold handle_capture_event. walk. Qed.
Lemma keeps_sync_captures P : keeps P sync_captures.
Proof.
  unfold sync_captures. walk. apply keeps_always, keeps_for_each; [done|].
  apply Forall_forall. intros c _. unfold sync_capture. walk.
Qed.
Lemma keeps_handoff_home P from : keeps P (handoff_home from).
Proof. unfold handoff_home. walk. Qed.
Lemma keeps_return_local_pointer P along : keeps P (return_local_pointer along).
Proof. unfold return_local_pointer. walk. Qed.
Lemma keeps_refuse_handoff P handle : keeps P (refuse_handoff handle).
Proof. unfold refuse_handoff. walk. Qed.
Hint Resolve keeps_handle_capture_event keeps_sync_captures keeps_handoff_home keeps_return_local_pointer
  keeps_refuse_handoff : capture.

(** A device that is known: [get_pos] gives its edge and changes nothing. *)
Lemma get_pos_cases h s :
  (get_pos h s = (s, Panicked) /\ find_capture (task s) h = None)
  \/ exists pos, get_pos h s = (s, Done pos).
Proof.
  unfold get_pos, get_task, mbind, capture_bind.
  destruct (find_capture (task s) h) as [c|]; [right; by exists c.1.2|by left].
Qed.
Lemma bind_panicked {A B} (m : M W A) (f : A -> M W B) s s' :
  m s = (s', Panicked) -> (m ≫= f) s = (s', Panicked).
Proof. intros Hm. unfold mbind, capture_bind. by rewrite Hm. Qed.
Lemma lands_get_pos {B} h s (f : Side -> M W B) :
  (forall pos, lands (f pos s)) -> lands ((get_pos h ≫= f) s).
Proof.
  intros Hf. destruct (get_pos_cases h s) as [[E _]|[pos E]].
  - by rewrite (bind_panicked _ _ _ _ E).
  - rewrite (bind_done _ _ _ _ _ E). apply Hf.
Qed.

Lemma keeps_handoff_enter P from next :
  (forall s, P s -> phase_of (task s) = Active from) -> keeps P (handoff_enter from next).
Proof.
  intros HP s Hs Hp%HP. unfold handoff_enter.
  apply lands_get_pos. intros _. apply lands_get_pos. intros _.
  destruct (send_says from (ProtoEvent.Leave 0) s) as (s1 & sent & E1 & Ht1 & _ & Htr1 & _).
  rewrite (bind_done _ _ _ _ _ E1). do 3 (erewrite bind_done; [|reflexivity]).
  apply lands_get_pos. intros pos. do 2 (erewrite bind_done; [|reflexivity]).
  unfold send_enter. erewrite bind_done; [|reflexivity].
  apply send_enter_lands; [apply enter_event_enters| |intros; walk].
  split; [done|]. exists Idle. cbn. split; [|done].
  rewrite Htr1, <- app_assoc, follows_app, Hs, Hp. cbn. by rewrite bool_decide_true.
Qed.
Lemma keeps_handoff P from target side :
  (forall s, P s -> phase_of (task s) = Active from) -> keeps P (handoff from target side).
Proof. intros HP. unfold handoff. walk. apply keeps_handoff_enter. naive_solver. Qed.

Lemma keeps_acknowledged P handle :
  (forall s, P s -> phase_of (task s) = Entering handle) -> keeps P (acknowledged handle).
Proof.
  intros HP s Hs Hp%HP. destruct (acknowledged_says handle s) as (s' & told & -> & Ht & _ & Htr & _).
  eapply in_step_extend; [exact Hs|exact Htr|]. rewrite Ht.
  unfold phase_of in *. cbn. destruct (active_client (task s)) as [h|]; [|done].
  destruct (state (task s)); [|done]. injection Hp as ->.
  rewrite follows_app, follows_tells. cbn. rewrite bool_decide_true by done. apply follows_inputs.
Qed.

Lemma keeps_handle_active_event P handle event :
  (forall s, P s -> active_client (task s) = Some handle) -> keeps P (handle_active_event handle event).
Proof.
  intros HP. unfold handle_active_event. walk; [apply keeps_handoff|apply keeps_acknowledged];
    intros s [Hs%HP <-]; unfold phase_of; rewrite Hs; by case_bool_decide as Hst; [rewrite Hst|].
Qed.
Lemma keeps_check_pong P handle event : keeps P (check_pong handle event).
Proof. unfold check_pong, notify_peer_lost. walk. Qed.
Hint Resolve keeps_check_pong : capture.
Lemma keeps_handle_peer_event P handle fingerprint event : keeps P (handle_peer_event handle fingerprint event).
Proof.
  unfold handle_peer_event. walk. apply keeps_handle_active_event.
  intros s [_ <-]. by case_bool_decide.
Qed.
Lemma keeps_handle_inactive_event P handle fingerprint event :
  keeps P (handle_inactive_event handle fingerprint event).
Proof. unfold handle_inactive_event. walk. Qed.

Lemma keeps_connect P handle : keeps P (connect handle).
Proof. unfold connect. walk. by apply keeps_emit. Qed.
Lemma keeps_send_clipboard_transfer P h id data dimensions :
  keeps P (send_clipboard_transfer h id data dimensions).
Proof. unfold send_clipboard_transfer. walk; by apply keeps_emit. Qed.
Lemma keeps_release_request P : keeps P release_request.
Proof. unfold release_request. walk. Qed.
Lemma keeps_reconnect_lost_peers P : keeps P reconnect_lost_peers.
Proof.
  unfold reconnect_lost_peers. walk. apply keeps_always, keeps_for_each; [done|].
  apply Forall_forall. intros c _. walk. apply keeps_connect.
Qed.
Hint Resolve keeps_handle_peer_event keeps_handle_inactive_event keeps_connect keeps_send_clipboard_transfer
  keeps_release_request keeps_reconnect_lost_peers : capture.
Lemma keeps_set_option P request :
  plain_request (Request request) = true -> keeps P (set_option request).
Proof.
  intros Hr. unfold set_option, send_proto_event. walk. subst.
  apply keeps_send_plain. cbn in Hr. by destruct (is_entry_protocol _).
Qed.
Hint Resolve keeps_set_option : capture.
Lemma keeps_handle_request P request :
  plain_request (Request request) = true -> keeps P (handle_request request).
Proof. intros Hr. unfold handle_request, add_capture, remove_capture. walk. Qed.
Lemma keeps_handle_inactive_request P request :
  plain_request (Request request) = true -> keeps P (handle_inactive_request request).
Proof. intros Hr. unfold handle_inactive_request, add_capture, remove_capture. walk. Qed.
Hint Resolve keeps_handle_request keeps_handle_inactive_request : capture.

(** What [legacy_entry_retry] comes to: nothing to retry, an unknown device, or
    another enter message for the device being entered. *)
Lemma legacy_entry_retry_cases s :
  legacy_entry_retry s = (s, Done None)
  \/ (exists s' h, legacy_entry_retry s = (s', Panicked) /\ active_client (task s) = Some h
                   /\ find_capture (task s) h = None)
  \/ exists h event deadline,
       legacy_entry_retry s
       = (Build_Sys (set_ack_deadline (Some deadline) (set_legacy_entry true (task s)))
            (input s) (world s) (trace s) (capturing s), Done (Some (h, event)))
       /\ active_client (task s) = Some h /\ state (task s) = WaitingForAck
       /\ legacy_entry (task s) = false /\ is_enter event = true.
Proof.
  unfold legacy_entry_retry. erewrite bind_done; [|reflexivity].
  destruct (active_client (task s)) as [h|] eqn:Ha; [|by left].
  destruct (_ || legacy_entry (task s)) eqn:Hc; [by left|right].
  apply orb_false_iff in Hc as [[[Hst _]%orb_false_iff _]%orb_false_iff Hl].
  do 2 (erewrite bind_done; [|reflexivity]). set (s1 := Build_Sys _ _ _ _ _).
  destruct (get_pos_cases h s1) as [[E Hn]|[pos E]].
  - left. exists s1, h. split; [by apply bind_panicked|done].
  - right. rewrite (bind_done _ _ _ _ _ E). do 3 eexists. split; [reflexivity|].
    repeat split; [|done|apply enter_event_enters]. by case_bool_decide.
Qed.

Lemma keeps_ack_overdue P : keeps P ack_overdue.
Proof.
  intros s Hs _. unfold ack_overdue. erewrite bind_done; [|reflexivity].
  destruct (ack_deadline (task s)); [|done].
  destruct (legacy_entry_retry_cases s) as [E|[(s' & h & E & _)|(h & event & deadline & E & Ha & Hst & _ & He)]].
  - rewrite (bind_done _ _ _ _ _ E). by apply (keeps_release_capture always).
  - by rewrite (bind_panicked _ _ _ _ E).
  - rewrite (bind_done _ _ _ _ _ E). apply send_enter_lands; [done| |intros; walk].
    apply (in_step_may_enter h s) in Hs; [|done]. destruct Hs as [_ Hs]. by split.
Qed.
Hint Resolve keeps_ack_overdue : capture.

Lemma keeps_session_round P x : plain_request x = true -> keeps P (session_round x).
Proof. intros Hx. unfold session_round, take_input. walk. Qed.

Lemma in_step_end_session s : in_step s -> in_step (end_session s).
Proof.
  intros Hs. unfold end_session. destruct (backend_terminate (world s)) as [w r].
  by eapply (in_step_extend s _ [Tell CaptureDisabled]).
Qed.

Lemma keeps_begin_session P name : keeps P (begin_session name).
Proof.
  intros s Hs _. unfold begin_session. set (s1 := Build_Sys _ _ _ _ _).
  assert (Hk : keeps always (_ ← tell (CaptureEnabled name); _ ← update (set_enabled_captures ∅); sync_captures)) by walk.
  by apply Hk.
Qed.

Lemma lands_survive {A} (x : Sys W * outcome A) s' : lands x -> survive x = Some s' -> in_step s'.
Proof. destruct x as [s1 []]; cbn; by intros ? [= <-]. Qed.

(** One step. *)
Lemma step_in_step s x s' : plain_request x = true -> in_step s -> step s x = Some s' -> in_step s'.
Proof.
  intros Hx Hs. unfold step. destruct (capturing s).
  - pose proof (keeps_session_round always x Hx s Hs I) as Hk.
    destruct (session_round x s) as [s1 [[]|e|]]; intros [= <-]; eauto using in_step_end_session.
  - destruct x; try (by intros [= <-]).
    + pose proof (keeps_begin_session always name s Hs I) as Hk.
      destruct (begin_session name s) as [s1 [[]|e|]]; intros [= <-]; eauto using in_step_end_session.
    + exact (lands_survive _ _ (keeps_handle_inactive_event always handle fingerprint event s Hs I)).
    + exact (lands_survive _ _ (keeps_handle_inactive_request always request Hx s Hs I)).
    + exact (lands_survive _ _ (keeps_reconnect_lost_peers always s Hs I)).
Qed.

Lemma run_in_step l : forall s s',
  forallb (fun x => plain_request x.2) l = true -> in_step s -> run s l = Some s' -> in_step s'.
Proof.
  induction l as [|[w x] l IH]; intros s s' Hl Hs Hr; [by injection Hr as <-|].
  cbn in Hl, Hr. apply andb_true_iff in Hl as [Hx Hl].
  destruct (step (meanwhile w s) x) as [s1|] eqn:Hstep; [|done].
  apply (IH s1); [done| |done]. by apply (step_in_step (meanwhile w s) x).
Qed.
End protocol.

(** C35: a peer gets captured input only after it acknowledged its entry.
    Whatever the back end, the peers, the service and the clock do, an event the
    task sends that is not part of a clean-up is preceded by the peer's
    acknowledgement, and between the two no capture ended, no peer was left and
    no other peer was entered; and the outputs of the task are a run of the entry
    automaton ending in the phase the task believes to be in. *)
Theorem input_follows_acknowledgement {W : Type} `{!CaptureWorld W} `{!HashOrder}
    (w : W) (name : option rstring) (bind : list Z) (l : list (W * Stimulus)) (s : Sys W)
    (Hplain : forallb (fun x => plain_request x.2) l = true)
    (Hrun : run (new_system w name bind) l = Some s) :
  follows Idle (trace s) = Some (phase_of (task s))
  /\ forall before h e after,
       trace s = before ++ Sent h (ProtoEvent.Input e) :: after -> is_cleanup e = false ->
       exists earlier since, before = earlier ++ Acked h :: since
       /\ Forall (fun o => protocol (Active h) o = Some (Active h)) since.
Proof.
  pose proof (run_in_step l (new_system w name bind) s Hplain eq_refl Hrun) as Hs. split; [exact Hs|].
  intros before h e after Htr He. unfold in_step in Hs. rewrite Htr, follows_app in Hs.
  destruct (follows Idle before) as [p|] eqn:Hb; [|done]. apply follows_active. rewrite Hb.
  cbn in Hs. rewrite He, andb_false_r, orb_false_r in Hs. by case_bool_decide as Hp; [rewrite Hp|].
Qed.

(** ** A world to run in

    The world is its clock; every device is connected and ready. *)

#[local] Instance desk_backend : CaptureBackend Z := {
  backend_create := fun w _ => (w, Ok tt);
  backend_destroy := fun w _ => (w, Ok tt);
  backend_release := fun w => (w, Ok tt);
  backend_release_at := fun w _ _ => (w, Ok true);
  backend_terminate := fun w => (w, Ok tt);
}.
#[local] Instance desk : CaptureWorld Z := {
  now := fun w => w;
  last_entry := fun _ => None;
  set_last_entry := fun _ w => w;
  landing_along := fun _ => None;
  set_landing_along := fun _ w => w;
  own_fingerprint := fun _ => [];
  client_fingerprint := fun _ _ => None;
  remote_ready := fun _ _ => true;
  peer_connected := fun _ _ => true;
  conn_send := fun w _ _ => (w, true);
  conn_connect := fun w _ => w;
  sends_in_time := fun _ => 100%nat;
  stream_finished := fun _ _ => false;
}.
#[local] Existing Instance list_order.

(** Device 7 is at the right edge; the pointer touches it, the device answers
    and a motion follows. *)
Definition visit : list (Z * Stimulus) :=
  [(0, Request (Create 7 Side.Right Default)); (0, BackendReady []);
   (1, BackendEvent (Side.Right, CaptureEvent.Begin));
   (2, PeerMessage 7 [] (ProtoEvent.Ack 0));
   (3, BackendEvent (Side.Right, CaptureEvent.Input (InputEvent.Pointer (PointerEvent.Motion 0 0 0))))].

Lemma input_follows_acknowledgement_witness :
  exists s : Sys Z, run (new_system 0 None [29]) visit = Some s
  /\ phase_of (task s) = Active 7
  /\ follows Idle (trace s) = Some (phase_of (task s)).
Proof.
  eexists. split; [vm_compute; reflexivity|]. split; [reflexivity|].
  refine (proj1 (input_follows_acknowledgement 0 None [29] visit _ _ _)); vm_compute; reflexivity.
Defined.
