(* ===== verification/CaptureSafety.v ===== *)
(** * Input capture: the capture that is under way

    What the task knows about the device it sends to is consistent in every
    state it reaches, the captures it refers to exist, and so the [expect]s of
    its look-ups and the [assert!]s of the barriers hold.  An entry that is not
    acknowledged is let go.  The exception, a capture destroyed while its edge
    is pushed, is shown at the end. *)

From Stdlib Require Import QArith Qabs.
From S2P Require Import Prelude Wire ProtoTypes ProtoValid InputCapture Capture CaptureTheorems.
Open Scope Z_scope.

(** ** The invariant *)

Abbreviation Captures := (list (Z * Side * CaptureType)) (only parsing).

(** A configured capture. *)
Definition known (caps : Captures) (h : Z) : Prop := h ∈ (fun c => c.1.1) <$> caps.

(** Without a captured device nothing of one is left; one being entered has a
    deadline and not too many presses are kept; one that acknowledged has
    neither. *)
Definition session_ok (caps : Captures) (t : CaptureTask) : Prop :=
  match active_client t with
  | None => ack_deadline t = None /\ held_until_ack t = [] /\ local_departure t = None
            /\ state t = WaitingForAck
  | Some h =>
      known caps h /\ is_Some (local_departure t)
      /\ match state t with
         | WaitingForAck => is_Some (ack_deadline t) /\ len (held_until_ack t) <= MAX_HELD_UNTIL_ACK
         | Sending => ack_deadline t = None /\ held_until_ack t = []
         end
  end.
Definition pressure_ok (caps : Captures) (t : CaptureTask) : Prop :=
  forall h q at_, pressure t = Some (h, q, at_) -> known caps h.

(** The barriers are those of the enabled captures, each listed at its edge. *)
Definition barriers_ok (c : InputCapture) (enabled : gset Z) : Prop :=
  dom (id_map c) = enabled
  /\ forall id pos, id_map c !! id = Some pos -> exists v, position_map c !! pos = Some v /\ id ∈ v.

Section barriers.
Context {W : Type} `{!CaptureBackend W}.

(** A barrier that does not exist can be created. *)
Lemma create_ok (w : W) c enabled id pos :
  barriers_ok c enabled -> id ∉ enabled ->
  exists w' c' o, create w c id pos = (w', c', o) /\ o <> Panicked /\ barriers_ok c' ({[id]} ∪ enabled).
Proof.
  intros [Hd Hp] Hid. unfold create. assert (Hn : id_map c !! id = None) by (apply not_elem_of_dom; by rewrite Hd).
  assert (Hok : forall v, default [] (position_map c !! pos) ⊆ v -> id ∈ v ->
    barriers_ok (with_maps (<[pos := v]> (position_map c)) (<[id := pos]> (id_map c)) c) ({[id]} ∪ enabled)).
  { intros v Hv Hin. split; [cbn; by rewrite dom_insert_L, Hd|]. cbn. intros id' pos' Hl.
    destruct (decide (pos' = pos)) as [->|Hne].
    - exists v. rewrite lookup_insert_eq. split; [done|].
      apply lookup_insert_Some in Hl as [[<- _]|[_ (v' & E & Hv')%Hp]]; [done|]. apply Hv. by rewrite E.
    - rewrite lookup_insert_ne by done. apply lookup_insert_Some in Hl as [[_ <-]|[_ Hl]]; [done|]. by apply Hp. }
  rewrite Hn. destruct (position_map c !! pos) as [v|] eqn:Ev; cbn in Hok.
  - do 3 eexists. split; [reflexivity|]. split; [done|]. apply Hok; set_solver.
  - destruct (backend_create w pos) as [w' r]. do 3 eexists. split; [reflexivity|].
    split; [by destruct r|]. apply Hok; set_solver.
Qed.

(** A barrier that exists can be destroyed. *)
Lemma destroy_ok (w : W) c enabled id :
  barriers_ok c enabled -> id ∈ enabled ->
  exists w' c' o, destroy w c id = (w', c', o) /\ o <> Panicked /\ barriers_ok c' (enabled ∖ {[id]}).
Proof.
  intros [Hd Hp] Hid. rewrite <- Hd in Hid. apply elem_of_dom in Hid as [pos Hl].
  destruct (Hp _ _ Hl) as (v & Ev & Hin). unfold destroy. rewrite Hl, Ev. cbv zeta.
  set (remaining := List.filter _ v).
  assert (Hrem : forall i, i ∈ v -> i <> id -> i ∈ remaining).
  { intros i Hi Hne. apply list_elem_of_In, filter_In. split; [by apply list_elem_of_In|lia]. }
  assert (Hcase : forall m, (forall pos', pos' <> pos -> m !! pos' = position_map c !! pos') ->
    (forall i, i ∈ remaining -> m !! pos = Some remaining) ->
    barriers_ok (with_maps m (delete id (id_map c)) c) (enabled ∖ {[id]})).
  { intros m Hother Hpos. split; [cbn; by rewrite dom_delete_L, Hd|]. cbn.
    intros id' pos' [Hne Hl']%lookup_delete_Some. destruct (Hp _ _ Hl') as (v' & Ev' & Hin').
    destruct (decide (pos' = pos)) as [->|Hp']; [|rewrite Hother; eauto].
    simplify_eq. exists remaining. split; eauto. }
  case_bool_decide as Hr.
  - destruct (backend_destroy w pos) as [w' r]. do 3 eexists. split; [reflexivity|].
    split; [by destruct r|]. apply Hcase; [intros; by rewrite lookup_delete_ne|]. rewrite Hr. set_solver.
  - do 3 eexists. split; [reflexivity|]. split; [done|].
    apply Hcase; intros; [by rewrite lookup_insert_ne|by rewrite lookup_insert_eq].
Qed.
End barriers.

Section invariant.
Context {W : Type} `{!CaptureWorld W} `{!HashOrder}.
Implicit Types (s : Sys W) (t : CaptureTask).

Definition task_ok (caps : Captures) t : Prop :=
  captures t = caps /\ session_ok caps t /\ pressure_ok caps t.
Definition steady caps (live : bool) s : Prop :=
  task_ok caps (task s) /\ capturing s = live
  /\ (live = true -> barriers_ok (input s) (enabled_captures (task s))).
Definition shaken caps (live : bool) s : Prop := task_ok caps (task s) /\ capturing s = live.

(** Between two stimuli. *)
Definition capture_ok s : Prop := steady (captures (task s)) (capturing s) s.

Lemma steady_shaken caps live s : steady caps live s -> shaken caps live s.
Proof. by intros (? & ? & _). Qed.
Hint Resolve steady_shaken : capture.

Section computations.
Variables (caps : Captures) (live : bool).
Abbreviation keeps := (keeps (steady caps live) (shaken caps live) False).

Lemma ok_says s s' said : steady caps live s -> only_says said s s' -> steady caps live s'.
Proof.
  intros (Ht & Hc & Hb) (E1 & E2 & _ & E3 & E4). unfold steady, barriers_ok in *.
  rewrite E1, E2, E3, E4. done.
Qed.

(** Reading the task teaches what the invariant says of it. *)
Lemma ok_get_task {A} P (f : CaptureTask -> M W A) :
  (forall t, task_ok caps t -> keeps (fun s => P s /\ task s = t) (f t)) -> keeps P (get_task ≫= f).
Proof. intros Hf s Hs HP. apply (Hf (task s)); [|done..]. by destruct Hs. Qed.

(** The fields the invariant is about. *)
Definition same_session t t' : Prop :=
  captures t' = captures t /\ active_client t' = active_client t /\ ack_deadline t' = ack_deadline t
  /\ held_until_ack t' = held_until_ack t /\ local_departure t' = local_departure t
  /\ state t' = state t /\ enabled_captures t' = enabled_captures t.

Lemma ok_update_pressure P f :
  (forall t, same_session t (f t)) ->
  (forall t, pressure_ok caps t -> pressure_ok caps (f t)) -> keeps P (update f).
Proof.
  intros Hf Hp s ((Hcaps & Hs & Hpr) & Hc & Hb) _. unfold update, steady, task_ok, session_ok in *. cbn.
  destruct (Hf (task s)) as (-> & -> & -> & -> & -> & -> & ->). auto.
Qed.
Lemma ok_update P f :
  (forall t, same_session t (f t)) -> (forall t, pressure (f t) = pressure t) -> keeps P (update f).
Proof.
  intros Hf Hp. apply ok_update_pressure; [done|]. intros t Ht. unfold pressure_ok. by rewrite Hp.
Qed.
Lemma ok_set_pressure P p :
  match p with Some (h, _, _) => known caps h | None => True end -> keeps P (update (set_pressure p)).
Proof.
  intros Hp. apply ok_update_pressure; [done|]. intros t _ h q at_. cbn. intros ->. done.
Qed.
Lemma ok_update_world P f : keeps P (update_world f).
Proof. by intros s Hs _. Qed.
Lemma ok_emit P o : keeps P (emit o).
Proof. by intros s Hs _. Qed.
Lemma ok_tell P e : keeps P (tell e).
Proof. apply ok_emit. Qed.
Lemma ok_send P h event : keeps P (send h event).
Proof.
  intros s Hs _. destruct (send_says h event s) as (s' & sent & -> & Hsaid). by eapply ok_says.
Qed.
Lemma ok_plain_release P : keeps P plain_release.
Proof.
  intros s Hs _. destruct (plain_release_says s) as (s' & o & -> & Ho & Hsaid).
  pose proof (ok_says _ _ _ Hs Hsaid). destruct o; auto with capture.
Qed.

Lemma known_find t h : captures t = caps -> known caps h -> exists c, find_capture t h = Some c.
Proof.
  intros Hc Hk. unfold find_capture. rewrite Hc.
  destruct (List.find _ caps) as [c|] eqn:E; [by exists c|]. exfalso.
  apply list_elem_of_fmap in Hk as (c & -> & Hin%list_elem_of_In).
  pose proof (List.find_none _ _ E c Hin) as Hn. cbn in Hn. lia.
Qed.
Lemma has_capture_known t h : captures t = caps -> has_capture t h = true -> known caps h.
Proof.
  intros Hc (c & Hin & Hh)%existsb_exists. rewrite Hc in Hin. apply list_elem_of_In in Hin.
  apply list_elem_of_fmap. exists c. split; [lia|done].
Qed.

Lemma ok_get_pos P h : known caps h -> keeps P (get_pos h).
Proof.
  intros Hk s Hs _. destruct Hs as (Ht & Hrest). destruct (known_find (task s) h (proj1 Ht) Hk) as [c Hc].
  unfold get_pos, get_task, mbind, capture_bind. by rewrite Hc.
Qed.
Lemma ok_get_type P h : known caps h -> keeps P (get_type h).
Proof.
  intros Hk s Hs _. destruct Hs as (Ht & Hrest). destruct (known_find (task s) h (proj1 Ht) Hk) as [c Hc].
  unfold get_type, get_task, mbind, capture_bind. by rewrite Hc.
Qed.
Hint Resolve ok_update_world ok_emit ok_tell ok_send ok_plain_release ok_get_pos ok_get_type ok_set_pressure : capture.
Hint Extern 2 (keeps _ (update _)) => apply ok_update; done : capture.

Ltac walk_ok := repeat first [solve [eauto with capture] | apply keeps_always; solve [eauto with capture]
  | lazymatch goal with
    | |- CaptureTheorems.keeps _ _ _ _ (get_task ≫= _) => apply ok_get_task; intros ?t ?Ht
    | |- _ => walk_step
    end].

Lemma ok_returns_to_controller P h : known caps h -> keeps P (returns_to_controller h).
Proof. intros Hk. unfold returns_to_controller. walk_ok. Qed.
Lemma ok_report_pressure P h q force : known caps h -> keeps P (report_pressure h q force).
Proof. intros Hk. unfold report_pressure. walk_ok. Qed.
Hint Resolve ok_returns_to_controller ok_report_pressure : capture.
Lemma ok_clear_pressure P : keeps P clear_pressure.
Proof.
  unfold clear_pressure. walk_ok. apply ok_report_pressure. destruct Ht as (_ & _ & Hp). eauto.
Qed.

(** Letting go needs no consistent session. *)
Definition adrift s : Prop :=
  captures (task s) = caps /\ pressure_ok caps (task s) /\ capturing s = live
  /\ (live = true -> barriers_ok (input s) (enabled_captures (task s))).
Definition settles {A} (x : Sys W * outcome A) : Prop :=
  match x with (s, Done _) => steady caps live s | (s, Failed _) => steady caps live s | (_, Panicked) => False end.

Lemma steady_adrift s : steady caps live s -> adrift s.
Proof. by intros ((? & ? & ?) & ? & ?). Qed.

Lemma release_capture_at_settles landing s : adrift s -> settles (release_capture_at landing s).
Proof.
  intros (Hc & Hp & Hl & Hb). destruct (release_capture_at_says landing s)
    as (s' & o & said & -> & Ho & Ht & Hl' & _ & Hid & Hpos & _).
  assert (steady caps live s'); [|by destruct o].
  unfold steady, task_ok, barriers_ok in *. rewrite Ht, Hl', Hid, Hpos. done.
Qed.
Lemma settles_keeps {A} P (m : M W A) : (forall s, adrift s -> settles (m s)) -> keeps P m.
Proof.
  intros Hm s Hs%steady_adrift%Hm _. unfold settles in Hs. destruct (m s) as [s' []]; auto with capture.
Qed.
Lemma ok_release_capture_at P landing : keeps P (release_capture_at landing).
Proof. apply settles_keeps. intros. by apply release_capture_at_settles. Qed.
Hint Resolve ok_clear_pressure ok_release_capture_at : capture.
Lemma ok_release_capture P : keeps P release_capture.
Proof. unfold release_capture. walk_ok. Qed.
Hint Resolve ok_release_capture : capture.

(** A device is entered: whatever was before, the session is consistent. *)
Lemma ok_enter_session P f h :
  known caps h ->
  (forall t, captures (f t) = captures t /\ pressure (f t) = pressure t
     /\ enabled_captures (f t) = enabled_captures t /\ active_client (f t) = Some h
     /\ state (f t) = WaitingForAck /\ is_Some (ack_deadline (f t))) ->
  (forall s, P s -> session_ok caps (task s) ->
     is_Some (local_departure (f (task s))) /\ len (held_until_ack (f (task s))) <= MAX_HELD_UNTIL_ACK) ->
  keeps P (update f).
Proof.
  intros Hk Hf Hheld s ((Hcaps & Hs & Hpr) & Hc & Hb) HP.
  destruct (Hf (task s)) as (E1 & E2 & E3 & E4 & E5 & E6). destruct (Hheld s HP Hs) as [E8 E9].
  unfold update, steady, task_ok, session_ok, pressure_ok in *. cbn.
  rewrite E1, E2, E3, E4, E5. split_and!; auto.
Qed.
Lemma session_held t : session_ok caps t -> len (held_until_ack t) <= MAX_HELD_UNTIL_ACK.
Proof.
  unfold session_ok. destruct (active_client t); [destruct (state t)|].
  - tauto.
  - by intros (_ & _ & _ & ->).
  - by intros (_ & -> & _).
Qed.

Lemma ok_activate P handle : known caps handle -> keeps P (activate handle).
Proof.
  intros Hk. unfold activate. walk_ok. apply (ok_enter_session _ _ handle); [done|intros t; cbn; repeat split; eauto|].
  intros s _ Hs. cbn. eauto using session_held.
Qed.

(** The device the task sends to is a configured one. *)
Lemma active_known t h : task_ok caps t -> active_client t = Some h -> known caps h.
Proof. intros (_ & Hs & _) Ha. unfold session_ok in Hs. rewrite Ha in Hs. tauto. Qed.

(** A press is kept while the peer is awaited and there is room. *)
Lemma ok_hold P e t h :
  active_client t = Some h -> state t = WaitingForAck -> len (held_until_ack t) < MAX_HELD_UNTIL_ACK ->
  keeps (fun s => P s /\ task s = t) (update (fun t => set_held_until_ack (held_until_ack t ++ [e]) t)).
Proof.
  intros Ha Hst Hlen s ((Hcaps & Hs & Hpr) & Hc & Hb) (_ & <-). cbn.
  split; [|done]. split; [done|]. split; [|done]. unfold session_ok in *. cbn.
  rewrite Ha, Hst in *. rewrite len_app. change (len [e]) with 1. split_and!; try tauto. lia.
Qed.

Lemma ok_get_pos_then {A} P h (f : Side -> M W A) :
  known caps h -> (forall pos, keeps P (f pos)) -> keeps P (get_pos h ≫= f).
Proof.
  intros Hk Hf s Hs HP. destruct (known_find (task s) h (proj1 (proj1 Hs)) Hk) as [c Hc].
  erewrite bind_done; [by apply (Hf c.1.2)|]. unfold get_pos, get_task, mbind, capture_bind. by rewrite Hc.
Qed.

Lemma ok_forward P handle event :
  (is_begin event = true \/ exists e, event = CaptureEvent.Input e) -> known caps handle ->
  keeps P (forward handle event).
Proof.
  intros Hev Hk. unfold forward. apply ok_get_task. intros t Ht.
  destruct (input_target t handle (is_begin event)) as [h|] eqn:Hin; [|walk_ok].
  assert (Hh : known caps h /\ (is_begin event = false -> active_client t = Some h)).
  { unfold input_target in Hin. destruct (active_client t) eqn:Ha.
    - simplify_eq. split; [by eapply active_known|done].
    - destruct (is_begin event); simplify_eq. done. }
  destruct Hh as [Hh Ha]. apply ok_get_pos_then; [done|]. intros pos.
  apply keeps_bind; [auto with capture| |walk_ok].
  destruct event as [| |e|]; [walk_ok|naive_solver| |naive_solver].
  destruct (state t) eqn:Hst; [|walk_ok]. apply keeps_bind; [auto with capture| |walk_ok].
  apply keeps_when. intros [_ Hlen%Z.ltb_lt]%andb_true_iff. eapply ok_hold; eauto.
Qed.
Hint Resolve ok_activate : capture.

Lemma ok_measure_pressure P handle event : known caps handle -> keeps P (measure_pressure handle event).
Proof.
  intros Hk. unfold measure_pressure, report_pressure_peak. walk_ok.
  apply ok_get_pos. eapply has_capture_known; [apply Ht|done].
Qed.
Lemma measure_pressure_returns handle event :
  returns (fun r => match r with Some (e, _) => e = CaptureEvent.Begin \/ e = event | None => True end)
    (measure_pressure (W := W) handle event).
Proof.
  unfold measure_pressure. repeat first
    [ apply returns_bind; intros ? | apply returns_ret; by auto | case_match | progress cbv beta ].
Qed.
Lemma ok_ignore_begin P handle : known caps handle -> keeps P (ignore_begin handle).
Proof. intros Hk. unfold ignore_begin. walk_ok. Qed.
Lemma ok_arm_pressure P handle returning : known caps handle -> keeps P (arm_pressure handle returning).
Proof. intros Hk. unfold arm_pressure. walk_ok. Qed.
Lemma ok_pass_back P handle : known caps handle -> keeps P (pass_back handle).
Proof. intros Hk. unfold pass_back. walk_ok. Qed.
Lemma ok_pass_on P handle : known caps handle -> keeps P (pass_on handle).
Proof. intros Hk. unfold pass_on. walk_ok. Qed.
Hint Resolve ok_measure_pressure ok_ignore_begin ok_arm_pressure ok_pass_back ok_pass_on ok_forward : capture.

Lemma ok_route_event P handle event met :
  (is_begin event = true \/ exists e, event = CaptureEvent.Input e) -> known caps handle ->
  keeps P (route_event handle event met).
Proof. intros Hev Hk. unfold route_event. walk_ok. Qed.
Lemma ok_handle_capture_event P handle event : keeps P (handle_capture_event handle event).
Proof.
  unfold handle_capture_event. destruct event as [|along|e|mime data]; [|walk_ok| |walk_ok];
    (apply ok_get_task; intros t Ht; apply keeps_if; [walk_ok|intros Hhas%negb_false_iff];
     pose proof (has_capture_known t handle (proj1 Ht) Hhas) as Hk;
     apply keeps_get_input; intros c; apply keeps_if; [walk_ok|intros _];
     eapply keeps_bind_returns; [auto with capture..|apply measure_pressure_returns|];
     intros [[e' met]|] He; [|walk_ok]; apply ok_route_event; [|done]; naive_solver).
Qed.

(** ** Barriers of the session *)

Lemma ok_open_barrier P handle pos t :
  live = true -> handle ∉ enabled_captures t ->
  keeps (fun s => P s /\ task s = t)
    (_ ← update (fun t => set_enabled_captures ({[handle]} ∪ enabled_captures t) t);
     created ← attempt (on_input (fun w c => create w c handle pos));
     match created with
     | Ok _ => mret tt
     | Err e =>
         _ ← update (fun t => set_enabled_captures (enabled_captures t ∖ {[handle]}) t);
         lift (Failed e)
     end).
Proof.
  intros Hlive Hn s (Ht & Hc & Hb) (_ & <-). erewrite bind_done; [|reflexivity].
  destruct (create_ok (world s) (input s) _ handle pos (Hb Hlive) Hn) as (w & c & o & E & Ho & Hok).
  unfold attempt, on_input, mbind, capture_bind. cbn. rewrite E.
  destruct o as [[]|e|]; [| |done]; cbn; (split; [exact Ht|]); [by split|done].
Qed.

Lemma ok_close_barrier P handle :
  live = true -> (forall s, P s -> handle ∈ enabled_captures (task s)) ->
  keeps P (_ ← update (fun t => set_enabled_captures (enabled_captures t ∖ {[handle]}) t);
           on_input (fun w c => destroy w c handle)).
Proof.
  intros Hlive HP s (Ht & Hc & Hb) Hin%HP. erewrite bind_done; [|reflexivity].
  destruct (destroy_ok (world s) (input s) _ handle (Hb Hlive) Hin) as (w & c & o & E & Ho & Hok).
  unfold on_input. cbn. rewrite E. destruct o as [[]|e|]; [| |done]; (split; [exact Ht|]); by try split.
Qed.

(** [release_capture] leaves the enabled captures alone. *)
Lemma clear_pressure_enabled s :
  enabled_captures (task (clear_pressure s).1) = enabled_captures (task s).
Proof.
  unfold clear_pressure, report_pressure, get_pos. unfold mbind, capture_bind, get_task, get_world. cbn.
  destruct (pressure (task s)) as [[[h q] at_]|]; [|done]. cbn.
  by destruct (List.find _ _).
Qed.
Lemma release_capture_enabled s :
  enabled_captures (task (release_capture s).1) = enabled_captures (task s).
Proof.
  unfold release_capture. rewrite <- (clear_pressure_enabled s). unfold mbind, capture_bind.
  destruct (clear_pressure s) as [s1 [[]|e|]]; [|done..].
  destruct (release_capture_at_says None s1) as (s2 & o & said & -> & Ho & Ht & _).
  destruct o; cbn; by rewrite Ht.
Qed.

(** A step that leaves a fact alone hands it on. *)
Lemma keeps_bind_fact {A B} P (Q : Sys W -> Prop) (m : M W A) (f : A -> M W B) :
  keeps P m -> (forall s, P s -> Q (m s).1) -> (forall a, keeps Q (f a)) -> keeps P (m ≫= f).
Proof.
  intros Hm HQ Hf s Hs HP. specialize (Hm s Hs HP). specialize (HQ s HP). unfold mbind, capture_bind.
  destruct (m s) as [s1 [a|e|]]; [|done..]. by apply Hf.
Qed.

Lemma ok_release_and_close P handle b :
  live = true -> (forall s, P s -> handle ∈ enabled_captures (task s)) ->
  keeps P (_ ← when b release_capture;
           _ ← update (fun t => set_enabled_captures (enabled_captures t ∖ {[handle]}) t);
           on_input (fun w c => destroy w c handle)).
Proof.
  intros Hlive HP. eapply (keeps_bind_fact _ (fun s => handle ∈ enabled_captures (task s))).
  - walk_ok.
  - intros s Hs%HP. destruct b; cbn; [by rewrite release_capture_enabled|done].
  - intros _. by apply ok_close_barrier.
Qed.

Lemma ok_sync_captures P : live = true -> keeps P sync_captures.
Proof.
  intros Hlive. unfold sync_captures. apply ok_get_task. intros t _.
  apply keeps_always, keeps_for_each; [auto with capture|]. apply Forall_forall. intros c _.
  unfold sync_capture. apply ok_get_task. intros t' _. apply keeps_if; intros _.
  - apply keeps_if; [walk_ok|]. intros Hn%bool_decide_eq_false. by apply ok_open_barrier.
  - apply keeps_if; [|walk_ok]. intros Hin%bool_decide_eq_true. apply ok_release_and_close; [done|].
    by intros s [_ ->].
Qed.

(** ** Messages of peers *)

Hint Resolve ok_handle_capture_event ok_sync_captures : capture.

Lemma ok_handoff_home P from : known caps from -> keeps P (handoff_home from).
Proof. intros Hk. unfold handoff_home. walk_ok. Qed.
Lemma ok_return_local_pointer P along : keeps P (return_local_pointer along).
Proof. unfold return_local_pointer. walk_ok. Qed.
Lemma ok_refuse_handoff P handle : known caps handle -> keeps P (refuse_handoff handle).
Proof. intros Hk. unfold refuse_handoff. walk_ok. Qed.
Hint Resolve ok_handoff_home ok_return_local_pointer ok_refuse_handoff : capture.

Lemma ok_handoff_enter P from next :
  known caps from -> known caps next -> (forall s, P s -> active_client (task s) = Some from) ->
  keeps P (handoff_enter from next).
Proof.
  intros Hfrom Hnext HP. unfold handoff_enter.
  apply ok_get_pos_then; [done|]. intros _. apply ok_get_pos_then; [done|]. intros _.
  apply (keeps_bind_fact _ (fun s => active_client (task s) = Some from)); [walk_ok| |].
  - intros s Hs%HP. destruct (send_says from (ProtoEvent.Leave 0) s) as (s' & sent & -> & Ht & _). cbn. by rewrite Ht.
  - intros _. apply keeps_get_world. intros w. apply keeps_bind; [auto with capture| |unfold send_enter; walk_ok].
    apply (ok_enter_session _ _ next); [done|done|]. intros s Ha Hs. cbn.
    unfold session_ok in Hs. rewrite Ha in Hs. split; [tauto|done].
Qed.
Lemma ok_handoff P from target side :
  known caps from -> (forall s, P s -> active_client (task s) = Some from) -> keeps P (handoff from target side).
Proof.
  intros Hk HP. unfold handoff. walk_ok. apply ok_handoff_enter; [done| |naive_solver].
  match goal with Hn : next_device _ _ _ _ = Some _ |- _ => apply fmap_Some in Hn as (c & [Hin _]%List.find_some & ->) end.
  apply list_elem_of_fmap. exists c. split; [done|]. apply list_elem_of_In. by rewrite <- (proj1 Ht).
Qed.

Lemma ok_acknowledged P handle :
  (forall s, P s -> active_client (task s) = Some handle) -> keeps P (acknowledged handle).
Proof.
  intros HP s ((Hcaps & Hs & Hp) & Hl & Hb) Ha%HP.
  destruct (acknowledged_says handle s) as (s' & told & -> & Ht & Hl' & _ & Hid & Hpos).
  unfold steady, task_ok, session_ok, barriers_ok in *. rewrite Ht, Hl', Hid, Hpos. cbn.
  rewrite Ha in *. split_and!; try done; tauto.
Qed.

Lemma ok_handle_active_event P handle event :
  (forall s, P s -> active_client (task s) = Some handle) -> known caps handle ->
  keeps P (handle_active_event handle event).
Proof.
  intros HP Hk. unfold handle_active_event. walk_ok; [apply ok_handoff; [done|]|apply ok_acknowledged];
    naive_solver.
Qed.
Lemma ok_check_pong P handle event : keeps P (check_pong handle event).
Proof. unfold check_pong, notify_peer_lost. walk_ok. Qed.
Hint Resolve ok_check_pong : capture.
Lemma ok_handle_peer_event P handle fingerprint event :
  live = true -> keeps P (handle_peer_event handle fingerprint event).
Proof.
  intros Hlive. unfold handle_peer_event. walk_ok.
  match goal with Ha : bool_decide _ = true |- _ => apply bool_decide_eq_true in Ha end.
  apply ok_handle_active_event; [by intros s [_ ->]|by eapply active_known].
Qed.
Lemma ok_handle_inactive_event P handle fingerprint event :
  keeps P (handle_inactive_event handle fingerprint event).
Proof. unfold handle_inactive_event. walk_ok. Qed.

(** ** Requests *)

Lemma ok_connect P handle : keeps P (connect handle).
Proof. unfold connect. walk_ok. Qed.
Lemma ok_send_clipboard_transfer P h id data dimensions :
  keeps P (send_clipboard_transfer h id data dimensions).
Proof. unfold send_clipboard_transfer. walk_ok. Qed.
Lemma ok_release_request P : keeps P release_request.
Proof. unfold release_request. walk_ok. Qed.
Lemma ok_reconnect_lost_peers P : keeps P reconnect_lost_peers.
Proof.
  unfold reconnect_lost_peers. walk_ok. apply keeps_always, keeps_for_each; [auto with capture|].
  apply Forall_forall. intros c _. walk_ok. apply ok_connect.
Qed.
Hint Resolve ok_handle_peer_event ok_handle_inactive_event ok_connect ok_send_clipboard_transfer
  ok_release_request ok_reconnect_lost_peers : capture.
Lemma ok_set_option P request : keeps P (set_option request).
Proof. unfold set_option, send_proto_event. walk_ok. Qed.
Lemma ok_ack_overdue P : keeps P ack_overdue.
Proof.
  intros s Hs _. unfold ack_overdue. erewrite bind_done; [|reflexivity].
  destruct (ack_deadline (task s)); [|done].
  destruct (legacy_entry_retry_cases s) as [E|[(s' & h & E & Ha & Hn)|(h & event & deadline & E & Ha & Hst & _ & He)]].
  - rewrite (bind_done _ _ _ _ _ E). by apply (ok_release_capture always).
  - destruct Hs as [Ht _]. pose proof (active_known _ _ Ht Ha) as Hk.
    destruct (known_find _ _ (proj1 Ht) Hk) as [c Hc]. congruence.
  - rewrite (bind_done _ _ _ _ _ E).
    assert (Hsend : keeps always (_ ← send h event; mret tt)) by walk_ok. apply Hsend; [|done].
    destruct Hs as ((Hcaps & Hs & Hp) & Hrest). split; [|done]. split; [done|]. split; [|done].
    unfold session_ok in *. cbn. rewrite Ha, Hst in *. split_and!; try tauto. done.
Qed.

(** Letting go also when the captured device is no longer configured. *)
Lemma clear_pressure_adrift s :
  adrift s -> exists s', clear_pressure s = (s', Done tt) /\ adrift s'
  /\ active_client (task s') = active_client (task s).
Proof.
  intros (Hc & Hp & Hl & Hb). unfold clear_pressure. erewrite bind_done; [|reflexivity].
  destruct (pressure (task s)) as [[[h q] at_]|] eqn:Epr; [|by exists s].
  destruct (known_find (task s) h Hc (Hp _ _ _ Epr)) as [c Hf].
  unfold report_pressure, get_pos, get_task, get_world, mbind, capture_bind. cbn.
  unfold find_capture in *. cbn. rewrite Hf. cbn. eexists. split; [reflexivity|]. done.
Qed.

(** What [release_capture] does to a captured device. *)
Lemma release_capture_ends s h :
  adrift s -> active_client (task s) = Some h ->
  exists s' o, release_capture s = (s', o) /\ o <> Panicked /\ capturing s' = capturing s
  /\ active_client (task s') = None /\ ack_deadline (task s') = None /\ held_until_ack (task s') = []
  /\ exists before said, trace s' = before ++ said /\ farewell h said.
Proof.
  intros Had Ha. pose proof Had as (_ & _ & Hl & _).
  destruct (clear_pressure_adrift s Had) as (s1 & E1 & (_ & _ & Hl1 & _) & Ha1).
  destruct (release_capture_at_says None s1) as (s2 & o & said & E2 & Ho & Ht & Hl2 & Htr & _ & _ & Hsaid).
  rewrite Ha1, Ha in Hsaid. exists s2, (match o with Done _ => Done tt | Failed e => Failed e | Panicked => Panicked end).
  split; [unfold release_capture; rewrite (bind_done _ _ _ _ _ E1); unfold mbind, capture_bind; rewrite E2; by destruct o|].
  split; [by destruct o|]. rewrite Ht. split; [congruence|]. repeat split. eauto.
Qed.
Lemma release_capture_settles s : adrift s -> settles (release_capture s).
Proof.
  intros (s1 & E1 & Hs1 & _)%clear_pressure_adrift. unfold release_capture. rewrite (bind_done _ _ _ _ _ E1).
  pose proof (release_capture_at_settles None s1 Hs1) as Hr. unfold mbind, capture_bind.
  by destruct (release_capture_at None s1) as [s2 []].
Qed.
Hint Resolve ok_set_option ok_ack_overdue : capture.

(** The requests that leave the configured captures alone. *)
Lemma ok_handle_request P request :
  live = true -> match request with Create _ _ _ | Destroy _ => False | _ => True end ->
  keeps P (handle_request request).
Proof. intros Hlive Hr. destruct request; try done; unfold handle_request; walk_ok. Qed.
Lemma ok_handle_inactive_request P request :
  match request with Create _ _ _ | Destroy _ => False | _ => True end ->
  keeps P (handle_inactive_request request).
Proof. intros Hr. destruct request; try done; unfold handle_inactive_request; walk_ok. Qed.
End computations.

(** ** The configured captures change *)

Lemma known_app caps h h' pos kind : known caps h -> known (caps ++ [(h', pos, kind)]) h.
Proof. unfold known. rewrite fmap_app, elem_of_app. by left. Qed.
Lemma known_filter caps h h' :
  known caps h -> h <> h' -> known (List.filter (fun c => negb (c.1.1 =? h')) caps) h.
Proof.
  intros (c & -> & Hin%list_elem_of_In)%list_elem_of_fmap Hne. apply list_elem_of_fmap. exists c.
  split; [done|]. apply list_elem_of_In, filter_In. split; [done|lia].
Qed.
Lemma session_ok_mono caps caps' t :
  (forall h, active_client t = Some h -> known caps h -> known caps' h) ->
  session_ok caps t -> session_ok caps' t.
Proof. intros Hk. unfold session_ok. destruct (active_client t); [|done]. naive_solver. Qed.

Lemma add_capture_ok h pos kind s :
  capture_ok s -> exists s', add_capture h pos kind s = (s', Done tt) /\ capture_ok s' /\ capturing s' = capturing s.
Proof.
  intros ((_ & Hs & Hp) & _ & Hb). eexists. split; [reflexivity|]. split; [|done].
  split; [|done]. split; [done|]. split.
  - eapply (session_ok_mono _ _ (task s)); [|exact Hs]. intros h' _. apply known_app.
  - intros h' q at_ E. by eapply known_app, Hp.
Qed.

(** A request to destroy a capture that is not in use: its edge is not being
    pushed, and if its device has the pointer, its barrier is there to be
    released. *)
Definition spares s (x : Stimulus) : bool :=
  match x with
  | Request (Destroy h) =>
      match pressure (task s) with Some (pushed, _, _) => negb (pushed =? h) | None => true end
      && (negb (bool_decide (active_client (task s) = Some h))
          || (capturing s && bool_decide (h ∈ enabled_captures (task s))))
  | _ => true
  end.

(** What a computation leaves: a good state, or a failed session of one. *)
Definition fine {A} (live : bool) (x : Sys W * outcome A) : Prop :=
  match x with
  | (s, Done _) => capture_ok s /\ capturing s = live
  | (s, Failed _) => shaken (captures (task s)) live s
  | (_, Panicked) => False
  end.

Lemma kept_fine {A} caps live (x : Sys W * outcome A) :
  match x with
  | (s, Done _) => steady caps live s | (s, Failed _) => shaken caps live s | (_, Panicked) => False
  end -> fine live x.
Proof.
  destruct x as [s' [a|e|]]; cbn; [| |done].
  - intros ((Hc & Ht) & Hl & Hb). unfold capture_ok. rewrite Hc, Hl. done.
  - intros ((Hc & Ht) & Hl). rewrite Hc. done.
Qed.
Lemma keeps_fine {A} (m : M W A) s :
  (forall caps live, capturing s = live -> keeps (steady caps live) (shaken caps live) False always m) ->
  capture_ok s -> fine (capturing s) (m s).
Proof.
  intros Hm Hs. exact (kept_fine _ _ _ (Hm _ _ eq_refl s Hs I)).
Qed.
Lemma settles_fine {A} caps live (x : Sys W * outcome A) : settles caps live x -> fine live x.
Proof.
  unfold settles, fine. destruct x as [s' [a|e|]]; [| |done]; intros ((Hc & Ht) & Hl & Hb);
    unfold capture_ok; rewrite Hc, ?Hl; done.
Qed.
Lemma fine_bind {A B} live (m : M W A) (f : A -> M W B) s :
  fine live (m s) -> (forall a s', capture_ok s' -> capturing s' = live -> fine live (f a s')) ->
  fine live ((m ≫= f) s).
Proof.
  intros Hm Hf. unfold mbind, capture_bind. destruct (m s) as [s' [a|e|]]; [|done..].
  destruct Hm. by apply Hf.
Qed.

(** The capture is forgotten; its device may still have the pointer. *)
Lemma remove_capture_ok h s :
  capture_ok s -> spares s (Request (Destroy h)) = true ->
  exists s', remove_capture h s = (s', Done tt) /\ capturing s' = capturing s
  /\ adrift (captures (task s')) (capturing s) s'
  /\ enabled_captures (task s') = enabled_captures (task s)
  /\ active_client (task s') = active_client (task s)
  /\ (active_client (task s) <> Some h -> capture_ok s').
Proof.
  intros ((_ & Hs & Hp) & _ & Hb) Hsp. eexists. split; [reflexivity|]. split; [done|].
  cbn in Hsp. apply andb_true_iff in Hsp as [Hpr _].
  assert (Hp' : pressure_ok (List.filter (fun c => negb (c.1.1 =? h)) (captures (task s))) (task s)).
  { intros h' q at_ E. rewrite E in Hpr. apply known_filter; [by eapply Hp|lia]. }
  split; [done|]. split; [done|]. split; [done|]. intros Hne. split; [|done]. split; [done|].
  split; [|done]. apply (session_ok_mono (captures (task s))); [|done].
  intros h' Ha Hk. cbn in Ha. apply known_filter; [done|congruence].
Qed.

Lemma close_barrier_fine h s :
  capture_ok s -> capturing s = true -> h ∈ enabled_captures (task s) ->
  fine true ((_ ← update (fun t => set_enabled_captures (enabled_captures t ∖ {[h]}) t);
              on_input (fun w c => destroy w c h)) s).
Proof.
  intros Hs Hl Hin. unfold capture_ok in Hs. rewrite Hl in Hs.
  exact (kept_fine _ _ _ (ok_close_barrier _ true (fun s => h ∈ enabled_captures (task s)) h
                            eq_refl (fun _ H => H) s Hs Hin)).
Qed.

Lemma destroy_request_fine h s :
  capture_ok s -> capturing s = true -> spares s (Request (Destroy h)) = true ->
  fine true (handle_request (Destroy h) s).
Proof.
  intros Hs Hl Hsp. destruct (remove_capture_ok h s Hs Hsp) as (s1 & E1 & Hl1 & Had & Hen & Ha & Hok).
  cbn [handle_request]. rewrite (bind_done _ _ _ _ _ E1). erewrite bind_done; [|reflexivity].
  rewrite Hl in *. apply fine_bind; [|intros _ s2 Hs2 Hl2; by split].
  rewrite Hen, Ha. case_bool_decide as Hin; cbn [when].
  - case_bool_decide as Hact; cbn [when]; [|by apply close_barrier_fine; [auto| |rewrite Hen]].
    pose proof (settles_fine _ _ _ (release_capture_settles _ _ _ Had)) as Hr.
    pose proof (release_capture_enabled s1) as He. unfold mbind at 1, capture_bind at 1.
    destruct (release_capture s1) as [s2 [a|e|]]; [|done..]. destruct Hr as [Hs2 Hl2].
    apply close_barrier_fine; [done..|]. cbn in He. by rewrite He, Hen.
  - split; [|done]. apply Hok. cbn in Hsp. rewrite (bool_decide_false _ Hin), andb_false_r, orb_false_r in Hsp.
    apply andb_true_iff in Hsp as [_ Hsp]. by case_bool_decide.
Qed.

Lemma handle_request_fine request s :
  capture_ok s -> capturing s = true -> spares s (Request request) = true ->
  fine true (handle_request request s).
Proof.
  intros Hs Hl Hsp.
  assert (Hother : match request with Create _ _ _ | Destroy _ => False | _ => True end ->
    fine true (handle_request request s)).
  { intros Hr. rewrite <- Hl. apply keeps_fine; [|done]. intros caps live E. rewrite Hl in E. subst live.
    by apply ok_handle_request. }
  destruct request; auto; [|by apply destroy_request_fine].
  destruct (add_capture_ok handle pos kind s Hs) as (s1 & E1 & Hs1 & Hl1). rewrite Hl in Hl1.
  cbn [handle_request]. rewrite (bind_done _ _ _ _ _ E1). rewrite <- Hl1. apply keeps_fine; [|done].
  intros caps live E. rewrite Hl1 in E. subst live.
  apply keeps_bind; [apply steady_shaken|apply keeps_when; intros _; apply ok_connect|]. intros _.
  apply keeps_bind; [apply steady_shaken|by apply ok_sync_captures|]. intros _. apply keeps_ret.
Qed.

Lemma handle_inactive_request_fine request s :
  capture_ok s -> spares s (Request request) = true -> capturing s = false ->
  fine false (handle_inactive_request request s).
Proof.
  intros Hs Hsp Hl.
  assert (Hother : match request with Create _ _ _ | Destroy _ => False | _ => True end ->
    fine false (handle_inactive_request request s)).
  { intros Hr. rewrite <- Hl. apply keeps_fine; [|done]. intros caps live E.
    by apply ok_handle_inactive_request. }
  destruct request; auto.
  - destruct (add_capture_ok handle pos kind s Hs) as (s1 & E1 & Hs1 & Hl1). rewrite Hl in Hl1.
    cbn [handle_inactive_request]. rewrite (bind_done _ _ _ _ _ E1). rewrite <- Hl1. apply keeps_fine; [|done].
    intros caps live E.
    apply keeps_bind; [apply steady_shaken|apply keeps_when; intros _; apply ok_connect|]. intros _. apply keeps_ret.
  - destruct (remove_capture_ok handle s Hs Hsp) as (s1 & E1 & Hl1 & _ & _ & _ & Hok).
    cbn [handle_inactive_request]. rewrite (bind_done _ _ _ _ _ E1). split; [|congruence]. apply Hok.
    cbn in Hsp. rewrite Hl, orb_false_r in Hsp. apply andb_true_iff in Hsp as [_ Hsp]. by case_bool_decide.
Qed.

(** ** Every state the task reaches *)

Lemma ok_poll_next caps live P event :
  keeps (steady caps live) (shaken caps live) False P (take_input (fun c => poll_next c event)).
Proof.
  intros s (Ht & Hl & Hb) _. unfold take_input, on_input.
  destruct (poll_next (input s) event) as [c o] eqn:E. cbn. split; [done|]. split; [done|]. intros Hlive.
  specialize (Hb Hlive). unfold barriers_ok in *. cbn [input task].
  assert (Hmaps : id_map c = id_map (input s) /\ position_map c = position_map (input s)).
  { unfold poll_next, update_pressed, update_pressed_keys in E. repeat case_match; by simplify_eq. }
  by destruct Hmaps as [-> ->].
Qed.

Lemma session_round_fine x s :
  capture_ok s -> capturing s = true -> spares s x = true -> fine true (session_round x s).
Proof.
  intros Hs Hl Hsp.
  assert (Hkeeps : forall m : M W bool,
    (forall caps, keeps (steady caps true) (shaken caps true) False always m) -> fine true (m s)).
  { intros m Hm. rewrite <- Hl. apply keeps_fine; [|done]. intros caps live E. rewrite Hl in E. by subst live. }
  assert (Hthen : forall (A : Type) (m : M W A) (b : bool),
    (forall caps, keeps (steady caps true) (shaken caps true) False always m) -> fine true ((_ ← m; (mret b : M W bool)) s)).
  { intros A m b Hm. apply Hkeeps. intros caps.
    apply keeps_bind; [apply steady_shaken|apply Hm|intros ?; apply keeps_ret]. }
  destruct x; cbn [session_round].
  - by split.
  - apply Hkeeps. intros caps. apply keeps_bind; [apply steady_shaken|apply ok_poll_next|]. intros next.
    apply keeps_bind; [apply steady_shaken| |intros ?; apply keeps_ret].
    destruct next as [[h e]|]; [apply ok_handle_capture_event|apply keeps_ret].
  - apply Hkeeps. intros caps. apply keeps_failed, steady_shaken.
  - by split.
  - apply Hthen. intros caps. by apply ok_handle_peer_event.
  - by apply handle_request_fine.
  - apply Hthen. intros caps. apply ok_ack_overdue.
  - apply Hthen. intros caps. apply ok_reconnect_lost_peers.
  - apply Hthen. intros caps. apply ok_release_capture.
Qed.

Lemma begin_session_fine name s : capture_ok s -> fine true (begin_session name s).
Proof.
  intros (Ht & _ & _). unfold begin_session. do 2 (erewrite bind_done; [|reflexivity]). cbn [task input world trace].
  set (s1 := Build_Sys _ _ _ _ _).
  apply (kept_fine (captures (task s)) true), (ok_sync_captures (captures (task s)) true always eq_refl); [|done].
  split; [exact Ht|]. split; [done|]. intros _. split; [apply dom_empty_L|done].
Qed.

Lemma end_session_ok s live : shaken (captures (task s)) live s -> capture_ok (end_session s).
Proof.
  intros (Ht & _). unfold end_session. destruct (backend_terminate (world s)) as [w r].
  split; [exact Ht|]. by split.
Qed.

Lemma survive_ok {A} (x : Sys W * outcome A) :
  fine false x -> exists s', survive x = Some s' /\ capture_ok s'.
Proof.
  destruct x as [s' [a|e|]]; cbn; [intros [? _]; eauto| |done]. intros (Ht & Hl). exists s'. split; [done|].
  unfold capture_ok. rewrite Hl. by split.
Qed.

(** One step neither panics nor breaks the invariant. *)
Lemma step_ok s x : capture_ok s -> spares s x = true -> exists s', step s x = Some s' /\ capture_ok s'.
Proof.
  intros Hs Hsp. unfold step. destruct (capturing s) eqn:Hl.
  - pose proof (session_round_fine x s Hs Hl Hsp) as Hf.
    destruct (session_round x s) as [s' [[]|e|]]; [| | |done]; eexists; (split; [reflexivity|]).
    + eapply end_session_ok. apply steady_shaken. apply Hf.
    + apply Hf.
    + by eapply end_session_ok.
  - destruct x; eauto.
    + pose proof (begin_session_fine name s Hs) as Hf.
      destruct (begin_session name s) as [s' [[]|e|]]; [| |done]; eexists; (split; [reflexivity|]);
        [apply Hf|by eapply end_session_ok].
    + apply survive_ok. rewrite <- Hl. apply keeps_fine; [|done]. intros. apply ok_handle_inactive_event.
    + apply survive_ok. by apply handle_inactive_request_fine.
    + apply survive_ok. rewrite <- Hl. apply keeps_fine; [|done]. intros. apply ok_reconnect_lost_peers.
Qed.

(** A run in which no capture is destroyed while it is in use. *)
Fixpoint careful s (l : list (W * Stimulus)) : bool :=
  match l with
  | [] => true
  | (w, x) :: l =>
      spares (meanwhile w s) x
      && match step (meanwhile w s) x with Some s => careful s l | None => true end
  end.

Lemma run_ok l : forall s, capture_ok s -> careful s l = true -> exists s', run s l = Some s' /\ capture_ok s'.
Proof.
  induction l as [|[w x] l IH]; intros s Hs Hl; [by exists s|]. cbn in *.
  apply andb_true_iff in Hl as [Hsp Hl].
  destruct (step_ok (meanwhile w s) x Hs Hsp) as (s1 & E1 & Hs1). rewrite E1 in *. cbn. by apply IH.
Qed.
Lemma new_system_ok w name bind : capture_ok (new_system w name bind).
Proof. by split; [split; [|split]|]. Qed.
End invariant.

(** C36: the capture task does not panic and its session stays consistent.  In a
    run in which no capture is destroyed while its edge is pushed or its device
    is in use without a barrier, every look-up of a capture and every assertion
    on barriers succeeds, and in the state reached: without a captured device
    there is no deadline, no kept press and no departure; the device being
    entered is configured, has a deadline and at most 64 presses wait for it; a
    device that acknowledged is configured, has no deadline and none wait; a
    pushed edge belongs to a configured capture; and during a session exactly the
    enabled captures have a barrier. *)
Theorem capture_never_panics {W : Type} `{!CaptureWorld W} `{!HashOrder}
    (w : W) (name : option rstring) (bind : list Z) (l : list (W * Stimulus))
    (Hcareful : careful (new_system w name bind) l = true) :
  exists s, run (new_system w name bind) l = Some s
  /\ session_ok (captures (task s)) (task s) /\ pressure_ok (captures (task s)) (task s)
  /\ (capturing s = true -> barriers_ok (input s) (enabled_captures (task s))).
Proof.
  destruct (run_ok l _ (new_system_ok w name bind) Hcareful) as (s & E & (_ & Hs & Hp) & _ & Hb).
  by exists s.
Qed.

#[local] Existing Instances desk_backend desk list_order.

Lemma capture_never_panics_witness :
  careful (new_system 0 None [29]) visit = true
  /\ exists s : Sys Z, run (new_system 0 None [29]) visit = Some s
     /\ session_ok (captures (task s)) (task s) /\ pressure_ok (captures (task s)) (task s)
     /\ (capturing s = true -> barriers_ok (input s) (enabled_captures (task s))).
Proof. split; [vm_compute; reflexivity|]. apply (capture_never_panics 0 None [29] visit). vm_compute. reflexivity. Defined.

(** ** An entry that is not acknowledged *)

Section deadline.
Context {W : Type} `{!CaptureWorld W} `{!HashOrder}.
Implicit Types (s : Sys W) (t : CaptureTask).

(** The device was let go and said farewell. *)
Definition gone (h : Z) s : Prop :=
  active_client (task s) = None /\ ack_deadline (task s) = None /\ held_until_ack (task s) = []
  /\ exists before said after, trace s = before ++ said ++ after /\ farewell h said.

Lemma gone_end_session h s : gone h s -> gone h (end_session s).
Proof.
  intros (Ha & Hd & Hh & before & said & after & Htr & Hf). unfold end_session.
  destruct (backend_terminate (world s)) as [w r]. split_and!; [done..|].
  exists before, said, (after ++ [Tell CaptureDisabled]). cbn. by rewrite Htr, <- !app_assoc.
Qed.

(** A deadline without a captured device does nothing. *)
Lemma deadline_idle h w s : gone h s -> exists s', step (meanwhile w s) AckDeadline = Some s' /\ gone h s'.
Proof.
  intros Hg. exists (meanwhile w s). split; [|done]. unfold step. destruct (capturing _); [|done].
  cbn [session_round]. unfold ack_overdue, mbind, capture_bind, get_task. cbn. by rewrite (proj1 (proj2 Hg)).
Qed.

(** The deadline of an entry that cannot be retried. *)
Lemma deadline_releases h s :
  capture_ok s -> capturing s = true -> phase_of (task s) = Entering h ->
  legacy_entry_retry s = (s, Done None) -> exists s', step s AckDeadline = Some s' /\ gone h s'.
Proof.
  intros Hs Hl Hph Hretry.
  assert (Ha : active_client (task s) = Some h /\ is_Some (ack_deadline (task s))).
  { destruct Hs as ((_ & Hs & _) & _). unfold phase_of, session_ok in *.
    destruct (active_client (task s)) as [h'|]; [|done]. destruct (state (task s)); [|done].
    simplify_eq. split; [done|tauto]. }
  destruct Ha as [Ha [d Hd]].
  destruct (release_capture_ends _ _ s h (steady_adrift _ _ _ Hs) Ha)
    as (s' & o & E & Ho & Hl' & Ha' & Hd' & Hh' & before & said & Htr & Hf).
  assert (Hg : gone h s').
  { split_and!; [done..|]. exists before, said, []. by rewrite app_nil_r. }
  unfold step. rewrite Hl. cbn [session_round].
  assert (Eo : ack_overdue s = (s', o)).
  { unfold ack_overdue. erewrite bind_done; [|reflexivity]. rewrite Hd. by rewrite (bind_done _ _ _ _ _ Hretry). }
  unfold mbind, capture_bind. rewrite Eo. destruct o as [a|e|]; [|by eauto using gone_end_session|done].
  by exists s'.
Qed.

(** The deadline of an entry: the device is let go, or its entry is repeated
    without the place along the edge, which happens once. *)
Lemma deadline_once h s :
  capture_ok s -> capturing s = true -> phase_of (task s) = Entering h ->
  exists s', step s AckDeadline = Some s'
  /\ (gone h s' \/ (capture_ok s' /\ capturing s' = true /\ phase_of (task s') = Entering h
                    /\ legacy_entry (task s') = true)).
Proof.
  intros Hs Hl Hph.
  destruct (legacy_entry_retry_cases s) as [E|[(s' & h' & E & Ha & Hn)|(h' & event & deadline & E & Ha & Hst & _ & He)]].
  - destruct (deadline_releases h s Hs Hl Hph E) as (s' & ? & ?). eauto.
  - exfalso. destruct Hs as [Ht _]. pose proof (active_known _ _ _ Ht Ha) as Hk.
    destruct (known_find _ _ _ (proj1 Ht) Hk) as [c Hc]. congruence.
  - destruct (step_ok s AckDeadline Hs eq_refl) as (s1 & Estep & Hs1). exists s1. split; [done|]. right.
    split; [done|]. revert Estep. unfold step. rewrite Hl. cbn [session_round].
    unfold ack_overdue. unfold mbind at 1 2, capture_bind at 1 2. cbn [get_task].
    destruct (ack_deadline (task s)) eqn:Hd.
    + rewrite (bind_done _ _ _ _ _ E). set (s2 := Build_Sys _ _ _ _ _).
      destruct (send_says h' event s2) as (s3 & sent & E3 & Ht & Hl3 & _).
      rewrite (bind_done _ _ _ _ _ E3). cbn. intros [= <-]. rewrite Ht, Hl3. cbn.
      unfold phase_of in *. cbn. by rewrite Ha, Hst in *.
    + destruct Hs as ((_ & Hs & _) & _). unfold session_ok in Hs. rewrite Ha, Hst, Hd in Hs.
      destruct Hs as (_ & _ & [? ?] & _). done.
Qed.
Lemma legacy_no_retry s : legacy_entry (task s) = true -> legacy_entry_retry s = (s, Done None).
Proof.
  intros Hleg. unfold legacy_entry_retry. erewrite bind_done; [|reflexivity].
  destruct (active_client (task s)); [|done]. by rewrite Hleg, orb_true_r.
Qed.
End deadline.

(** C37: an entry that nobody acknowledges ends.  Whenever a device is being
    entered a deadline is set, and after at most two deadlines without an
    acknowledgement (the entry is repeated once, in the form older devices know)
    the task has let go of it: no device is captured, no press is kept, and the
    device was sent the releases, as far as they went out in time. *)
Theorem unacknowledged_entry_ends {W : Type} `{!CaptureWorld W} `{!HashOrder}
    (w : W) (name : option rstring) (bind : list Z) (l : list (W * Stimulus)) (s : Sys W) (h : Z) (w1 w2 : W)
    (Hcareful : careful (new_system w name bind) l = true)
    (Hrun : run (new_system w name bind) l = Some s)
    (Hcapturing : capturing s = true) (Hentering : phase_of (task s) = Entering h) :
  is_Some (ack_deadline (task s))
  /\ exists s', run s [(w1, AckDeadline); (w2, AckDeadline)] = Some s'
     /\ phase_of (task s') = Idle /\ held_until_ack (task s') = []
     /\ exists before said after, trace s' = before ++ said ++ after /\ farewell h said.
Proof.
  destruct (run_ok l _ (new_system_ok w name bind) Hcareful) as (s0 & E & Hs).
  rewrite Hrun in E. injection E as <-. split.
  { destruct Hs as ((_ & Hs & _) & _). unfold phase_of, session_ok in *.
    destruct (active_client (task s)); [|done]. destruct (state (task s)); [tauto|done]. }
  assert (Hend : exists s', run s [(w1, AckDeadline); (w2, AckDeadline)] = Some s' /\ gone h s').
  { destruct (deadline_once h (meanwhile w1 s) Hs Hcapturing Hentering) as (s1 & E1 & [Hg|(Hs1 & Hl1 & Hp1 & Hleg)]);
      cbn [run]; rewrite E1; cbn.
    - destruct (deadline_idle h w2 s1 Hg) as (s2 & E2 & Hg2). rewrite E2. eauto.
    - destruct (deadline_releases h (meanwhile w2 s1) Hs1 Hl1 Hp1 (legacy_no_retry (meanwhile w2 s1) Hleg)) as (s2 & E2 & Hg2).
      rewrite E2. eauto. }
  destruct Hend as (s' & E & Ha & _ & Hh & Hf). exists s'. unfold phase_of. rewrite Ha. eauto.
Qed.

(** Device 7 is touched and never answers. *)
Definition silence : list (Z * Stimulus) :=
  [(0, Request (Create 7 Side.Right Default)); (0, BackendReady []);
   (1, BackendEvent (Side.Right, CaptureEvent.Entry 0)); (1, BackendEvent (Side.Right, CaptureEvent.Begin))].

Lemma unacknowledged_entry_ends_witness :
  exists s : Sys Z, run (new_system 0 None [29]) silence = Some s
  /\ phase_of (task s) = Entering 7
  /\ exists s', run s [(750000001, AckDeadline); (1500000001, AckDeadline)] = Some s'
     /\ phase_of (task s') = Idle.
Proof.
  eexists. split; [vm_compute; reflexivity|]. split; [reflexivity|].
  match goal with |- exists s', run ?s _ = _ /\ _ =>
    destruct (unacknowledged_entry_ends 0 None [29] silence s 7 750000001 1500000001)
      as (_ & s' & E & Hidle & _) end; [vm_compute; reflexivity..|].
  exists s'. split; [exact E|exact Hidle].
Defined.

(** ** A capture destroyed while its edge is pushed

    The capture is gone but [pressure] still names it, and the next release looks
    it up. *)
Definition pushed_and_destroyed : list (Z * Stimulus) :=
  [(0, Request (Create 7 Side.Right Default)); (0, Request (SetEdgePressure 80)); (0, BackendReady []);
   (1, BackendEvent (Side.Right, CaptureEvent.Begin)); (2, Request (Destroy 7))].

Theorem destroyed_while_pushed_panics :
  (exists s : Sys Z, run (new_system 0 None [29]) pushed_and_destroyed = Some s /\ captures (task s) = []
     /\ is_Some (pressure (task s)))
  /\ run (new_system 0 None [29]) (pushed_and_destroyed ++ [(3, Request Release)]) = None.
Proof.
  split; [|vm_compute; reflexivity].
  eexists. split; [vm_compute; reflexivity|]. split; [reflexivity|]. by eexists.
Qed.
