(* ===== verification/ClientManager.v ===== *)
(** * Clients: the table of configured devices

    [crates/syntra-core/src/client.rs]: the devices this one can hand its
    pointer to, each with its configuration and its live state, under a handle
    that is never given out twice.  A handle is a [u64]; the table is a
    [BTreeMap], iterated by handle. *)

From stdpp Require Import sorting.
From S2P Require Import Prelude Wire ProtoTypes InputCapture.

(** ** Data *)

(** [std::net::IpAddr] *)
Module IpAddr.
Inductive t := V4 (bits : Z) | V6 (bits : Z).
#[global] Instance t_eq_dec : EqDecision t.
Proof. solve_decision. Defined.
#[global] Instance t_countable : Countable t.
Proof.
  refine (inj_countable' (fun a => match a with V4 b => inl b | V6 b => inr b end)
            (fun x => match x with inl b => V4 b | inr b => V6 b end) _).
  by intros [].
Defined.
End IpAddr.

(** [std::net::SocketAddr]; the last two fields are those of [SocketAddrV6]. *)
Record SocketAddr := { sa_ip : IpAddr.t; sa_port : Z; sa_flowinfo : Z; sa_scope_id : Z }.
#[global] Instance socket_addr_eq_dec : EqDecision SocketAddr.
Proof. solve_decision. Defined.
#[global] Instance socket_addr_countable : Countable SocketAddr.
Proof.
  refine (inj_countable' (fun a => (sa_ip a, sa_port a, sa_flowinfo a, sa_scope_id a))
            (fun x => Build_SocketAddr x.1.1.1 x.1.1.2 x.1.2 x.2) _).
  by intros [].
Defined.
Definition socket_addr (ip : IpAddr.t) (port : Z) : SocketAddr := Build_SocketAddr ip port 0 0.

(** [syntra_api::Position] *)
Module Placement.
Inductive t := Left | Right | Top | Bottom.
#[global] Instance t_eq_dec : EqDecision t.
Proof. solve_decision. Defined.
End Placement.

#[global] Instance position_countable : Countable Position.t.
Proof.
  refine (inj_countable' Position.to_u8 (fun n => if n =? 0 then Position.Left else if n =? 1 then Position.Right
            else if n =? 2 then Position.Top else Position.Bottom) _).
  by intros [].
Defined.

Definition capture_pos (pos : Placement.t) : Side :=
  match pos with
  | Placement.Left => Side.Left
  | Placement.Right => Side.Right
  | Placement.Top => Side.Top
  | Placement.Bottom => Side.Bottom
  end.

Definition DEFAULT_PORT : Z := 4242.

Record ClientConfig := {
  hostname : option rstring;
  fix_ips : list IpAddr.t;
  port : Z;
  pos : Placement.t;
  cmd : option rstring;
}.
(** [Default] *)
Definition default_config : ClientConfig :=
  {| hostname := None; fix_ips := []; port := DEFAULT_PORT; pos := Placement.Left; cmd := None |}.

Record ClientState := {
  active : bool;
  active_addr : option SocketAddr;
  alive : bool;
  remote_ready : bool;
  dns_ips : list IpAddr.t;
  ips : gset IpAddr.t;
  has_pressed_keys : bool;
  resolving : bool;
  peer_commit : option bytes;
  round_trip_us : option Z;
}.
Definition default_state : ClientState :=
  {| active := false; active_addr := None; alive := false; remote_ready := false; dns_ips := [];
     ips := ∅; has_pressed_keys := false; resolving := false; peer_commit := None;
     round_trip_us := None |}.

Definition with_hostname v (c : ClientConfig) := Build_ClientConfig v (fix_ips c) (port c) (pos c) (cmd c).
Definition with_fix_ips v (c : ClientConfig) := Build_ClientConfig (hostname c) v (port c) (pos c) (cmd c).
Definition with_port v (c : ClientConfig) := Build_ClientConfig (hostname c) (fix_ips c) v (pos c) (cmd c).
Definition with_pos v (c : ClientConfig) := Build_ClientConfig (hostname c) (fix_ips c) (port c) v (cmd c).
Definition with_cmd v (c : ClientConfig) := Build_ClientConfig (hostname c) (fix_ips c) (port c) (pos c) v.

Definition with_active v (s : ClientState) :=
  Build_ClientState v (active_addr s) (alive s) (remote_ready s) (dns_ips s) (ips s)
    (has_pressed_keys s) (resolving s) (peer_commit s) (round_trip_us s).
Definition with_active_addr v (s : ClientState) :=
  Build_ClientState (active s) v (alive s) (remote_ready s) (dns_ips s) (ips s)
    (has_pressed_keys s) (resolving s) (peer_commit s) (round_trip_us s).
Definition with_alive v round_trip (s : ClientState) :=
  Build_ClientState (active s) (active_addr s) v (remote_ready s) (dns_ips s) (ips s)
    (has_pressed_keys s) (resolving s) (peer_commit s) round_trip.
Definition with_remote_ready v (s : ClientState) :=
  Build_ClientState (active s) (active_addr s) (alive s) v (dns_ips s) (ips s)
    (has_pressed_keys s) (resolving s) (peer_commit s) (round_trip_us s).
Definition with_dns_ips v (s : ClientState) :=
  Build_ClientState (active s) (active_addr s) (alive s) (remote_ready s) v (ips s)
    (has_pressed_keys s) (resolving s) (peer_commit s) (round_trip_us s).
Definition with_ips v (s : ClientState) :=
  Build_ClientState (active s) (active_addr s) (alive s) (remote_ready s) (dns_ips s) v
    (has_pressed_keys s) (resolving s) (peer_commit s) (round_trip_us s).
Definition with_resolving v (s : ClientState) :=
  Build_ClientState (active s) (active_addr s) (alive s) (remote_ready s) (dns_ips s) (ips s)
    (has_pressed_keys s) v (peer_commit s) (round_trip_us s).
Definition with_peer_commit v (s : ClientState) :=
  Build_ClientState (active s) (active_addr s) (alive s) (remote_ready s) (dns_ips s) (ips s)
    (has_pressed_keys s) (resolving s) v (round_trip_us s).

(** [ConfigClient] of [config.rs] *)
Record ConfigClient := {
  cc_ips : gset IpAddr.t;
  cc_hostname : option rstring;
  cc_port : Z;
  cc_pos : Placement.t;
  cc_active : bool;
  cc_enter_hook : option rstring;
  cc_peer_fingerprint : option rstring;
}.

Record ClientManager := {
  clients : gmap Z (ClientConfig * ClientState);
  next_handle : Z;
  peer_fingerprints : gmap Z rstring;
}.
Definition new_manager : ClientManager := Build_ClientManager ∅ 0 ∅.

(** [u64::MAX / 2 + 1]: the handles of incoming devices start here. *)
Definition ENTER_HANDLE_BEGIN : Z := u64_max / 2 + 1.

(** ** Operations *)

Definition with_clients v (m : ClientManager) := Build_ClientManager v (next_handle m) (peer_fingerprints m).
(** [get_mut] *)
Definition modify (handle : Z) (f : ClientConfig -> ClientConfig) (g : ClientState -> ClientState)
    (m : ClientManager) : ClientManager :=
  with_clients (alter (fun cs => (f cs.1, g cs.2)) handle (clients m)) m.

(** [add_client]; [None] is its panic *)
Definition add_client (m : ClientManager) : option (Z * ClientManager) :=
  let handle := next_handle m in
  if ENTER_HANDLE_BEGIN <=? handle then None
  else Some (handle, Build_ClientManager (<[handle := (default_config, default_state)]> (clients m))
                       (handle + 1) (peer_fingerprints m)).

Definition contains_client (m : ClientManager) (handle : Z) : bool := bool_decide (is_Some (clients m !! handle)).
Definition set_config (handle : Z) (config : ClientConfig) : ClientManager -> ClientManager :=
  modify handle (fun _ => config) id.
Definition set_state (handle : Z) (state : ClientState) : ClientManager -> ClientManager :=
  modify handle id (fun _ => state).

Definition set_peer_fingerprint (handle : Z) (fingerprint : rstring) (m : ClientManager) : ClientManager :=
  if contains_client m handle
  then Build_ClientManager (clients m) (next_handle m) (<[handle := fingerprint]> (peer_fingerprints m))
  else m.

Definition activate_client (handle : Z) (m : ClientManager) : ClientManager * bool :=
  match clients m !! handle with
  | Some (_, s) => if active s then (m, false) else (modify handle id (with_active true) m, true)
  | None => (m, false)
  end.
Definition deactivate_client (handle : Z) (m : ClientManager) : ClientManager * bool :=
  match clients m !! handle with
  | Some (_, s) => if active s then (modify handle id (with_active false) m, true) else (m, false)
  | None => (m, false)
  end.

(** The entries by handle, as a [BTreeMap] gives them. *)
Definition handle_le (a b : Z * (ClientConfig * ClientState)) : Prop := a.1 <= b.1.
#[global] Instance handle_le_dec a b : Decision (handle_le a b).
Proof. unfold handle_le. apply _. Defined.
Definition get_client_states (m : ClientManager) : list (Z * (ClientConfig * ClientState)) :=
  merge_sort handle_le (map_to_list (clients m)).

Definition get_client (m : ClientManager) (addr : SocketAddr) : option Z :=
  fst <$> List.find (fun e => active e.2.2 && bool_decide (sa_ip addr ∈ ips e.2.2)) (get_client_states m).
Definition client_at (m : ClientManager) (at_ : Placement.t) : option Z :=
  fst <$> List.find (fun e => active e.2.2 && bool_decide (pos e.2.1 = at_)) (get_client_states m).

Definition get_hostname (m : ClientManager) (handle : Z) : option rstring :=
  cs ← clients m !! handle; hostname cs.1.
Definition get_client_pos (m : ClientManager) (handle : Z) : option Placement.t :=
  (fun cs => pos cs.1) <$> clients m !! handle.
Definition get_enter_cmd (m : ClientManager) (handle : Z) : option rstring :=
  cs ← clients m !! handle; cmd cs.1.

Definition remove_client (handle : Z) (m : ClientManager) : ClientManager * option (ClientConfig * ClientState) :=
  (Build_ClientManager (delete handle (clients m)) (next_handle m) (delete handle (peer_fingerprints m)),
   clients m !! handle).

(** [update_ips] *)
Definition refresh_ips (cs : ClientConfig * ClientState) : ClientConfig * ClientState :=
  (cs.1, with_ips (list_to_set (fix_ips cs.1 ++ dns_ips cs.2)) cs.2).
Definition update_ips (handle : Z) (m : ClientManager) : ClientManager :=
  with_clients (alter refresh_ips handle (clients m)) m.
Definition set_fix_ips (handle : Z) (v : list IpAddr.t) (m : ClientManager) : ClientManager :=
  update_ips handle (modify handle (with_fix_ips v) id m).
Definition set_dns_ips (handle : Z) (v : list IpAddr.t) (m : ClientManager) : ClientManager :=
  update_ips handle (modify handle id (with_dns_ips v) m).

(** [set_hostname]: whether it changed *)
Definition set_hostname (handle : Z) (v : option rstring) (m : ClientManager) : ClientManager * bool :=
  match clients m !! handle with
  | None => (m, false)
  | Some (c, _) =>
      if bool_decide (hostname c = v) then (m, false)
      else (update_ips handle (modify handle (with_hostname v)
                                 (fun s => with_dns_ips [] (with_active_addr None s)) m), true)
  end.

Definition set_port (handle : Z) (v : Z) (m : ClientManager) : ClientManager :=
  match clients m !! handle with
  | Some (c, _) =>
      if port c =? v then m
      else modify handle (with_port v)
             (fun s => with_active_addr ((fun a => socket_addr (sa_ip a) v) <$> active_addr s) s) m
  | None => m
  end.

(** [set_pos]: whether a barrier has to move *)
Definition set_pos (handle : Z) (v : Placement.t) (m : ClientManager) : ClientManager * bool :=
  match clients m !! handle with
  | Some (c, s) => if bool_decide (pos c = v) then (m, false) else (modify handle (with_pos v) id m, active s)
  | None => (m, false)
  end.

Definition set_enter_hook (handle : Z) (v : option rstring) : ClientManager -> ClientManager :=
  modify handle (with_cmd v) id.
Definition set_resolving (handle : Z) (v : bool) : ClientManager -> ClientManager :=
  modify handle id (with_resolving v).
Definition set_active_addr (handle : Z) (v : option SocketAddr) : ClientManager -> ClientManager :=
  modify handle id (with_active_addr v).
Definition set_alive (handle : Z) (v : bool) : ClientManager -> ClientManager :=
  modify handle id (fun s => with_alive v (if v then round_trip_us s else None) s).
Definition set_remote_ready (handle : Z) (v : bool) : ClientManager -> ClientManager :=
  modify handle id (with_remote_ready v).
Definition set_peer_commit (handle : Z) (v : option bytes) : ClientManager -> ClientManager :=
  modify handle id (with_peer_commit v).

(** [smooth_round_trip]; a sample in microseconds *)
Definition smooth_round_trip (previous : option Z) (sample : Z) : Z :=
  let sample := if u32_max <? sample then u32_max else sample in
  match previous with
  | None => sample
  | Some previous => (previous * 3 + sample) / 4
  end.
Definition record_round_trip (handle : Z) (sample : Z) : ClientManager -> ClientManager :=
  modify handle id (fun s => with_alive (alive s) (Some (smooth_round_trip (round_trip_us s) sample)) s).

Definition registered_clients (m : ClientManager) : list Z := fst <$> get_client_states m.
Definition active_clients (m : ClientManager) : list Z :=
  fst <$> List.filter (fun e => active e.2.2) (get_client_states m).
Definition clipboard_clients (m : ClientManager) : list Z :=
  fst <$> List.filter (fun e => alive e.2.2 && remote_ready e.2.2) (get_client_states m).

(** [add_with_config]: [fix_ips] is the set in some order *)
Definition add_with_config `{!HashOrder} (c : ConfigClient) (m : ClientManager) : option (Z * ClientManager) :=
  let config := {| hostname := cc_hostname c; fix_ips := hash_order (elements (cc_ips c));
                   port := cc_port c; pos := cc_pos c; cmd := cc_enter_hook c |} in
  let state := with_active (cc_active c) (with_ips (list_to_set (fix_ips config)) default_state) in
  '(handle, m) ← add_client m;
  let m := set_state handle state (set_config handle config m) in
  Some (handle, match cc_peer_fingerprint c with
                | Some fingerprint => set_peer_fingerprint handle fingerprint m
                | None => m
                end).
