(* ===== verification/ClientService.v ===== *)
(** * Clients: routes, barriers and the interface

    [crates/syntra-core/src/service/clients.rs] with the arms of
    [service/frontend.rs], [service/input.rs] and [service/mod.rs] that call it:
    which devices have the pointer's edges, which devices came in, and what the
    capture task is told about both.  The state is the part of [Service] these
    methods use; what they do outside it is a list of [Effect]s, in order.
    [None] is a panic. *)

From S2P Require Import Prelude Wire ProtoTypes InputCapture Capture ClientManager.

(** ** Data *)

Inductive Status := Disabled | Enabled.
#[global] Instance status_eq_dec : EqDecision Status.
Proof. solve_decision. Defined.

Record Incoming := { in_fingerprint : rstring; in_addr : SocketAddr; in_pos : Placement.t }.

Record ClientService := {
  manager : ClientManager;
  incoming_conns : gset SocketAddr;
  incoming_conn_info : gmap Z Incoming;
  next_trigger_handle : Z;
  shown_round_trips : gmap Z Z;
  capture_status : Status;
  emulation_status : Status;
  input_sharing : bool;
}.
Definition set_manager v (s : ClientService) : ClientService :=
  Build_ClientService v (incoming_conns s) (incoming_conn_info s) (next_trigger_handle s)
    (shown_round_trips s) (capture_status s) (emulation_status s) (input_sharing s).
Definition set_incoming conns info next (s : ClientService) : ClientService :=
  Build_ClientService (manager s) conns info next
    (shown_round_trips s) (capture_status s) (emulation_status s) (input_sharing s).
Definition set_shown_round_trips v (s : ClientService) : ClientService :=
  Build_ClientService (manager s) (incoming_conns s) (incoming_conn_info s) (next_trigger_handle s)
    v (capture_status s) (emulation_status s) (input_sharing s).
Definition set_settings capture emulation sharing (s : ClientService) : ClientService :=
  Build_ClientService (manager s) (incoming_conns s) (incoming_conn_info s) (next_trigger_handle s)
    (shown_round_trips s) capture emulation sharing.

Record PointerPassage := {
  edge : Placement.t;
  peer_text : rstring;
  passage_fingerprint : option rstring;
  relayed : bool;
  passage_along : option Z;
}.

(** The notifications of these methods. *)
Inductive FrontendEvent :=
| Created (handle : Z) (config : ClientConfig) (state : ClientState)
| NoSuchClient (handle : Z)
| ClientStateIs (handle : Z) (config : ClientConfig) (state : ClientState)
| Deleted (handle : Z)
| Enumerate (clients : list (Z * (ClientConfig * ClientState)))
| IncomingDisconnected (addr : SocketAddr)
| DeviceEntered (fingerprint : rstring) (addr : SocketAddr) (pos : Placement.t)
| PointerEntered (passage : PointerPassage)
| CaptureStatus (status : Status)
| EmulationStatus (status : Status)
| InputSharing (enabled : bool).

Inductive Effect :=
| Notify (event : FrontendEvent)
| ToCapture (request : CaptureRequest)
| ReenableEmulation
| SendLeave (addr : SocketAddr)
| PluginPassage (passage : PointerPassage) (entered : bool)
| Resolve (handle : Z) (hostname : rstring)
| HistoryPeerLost (peer : Z + SocketAddr)
| SetPeerSides (sides : gmap IpAddr.t Position.t) (beyond : gmap Position.t rstring)
| SetUnavailablePeers (fingerprints : list rstring)
| WriteConfig (clients : list ConfigClient)
| SetAuthorizedKeys
| SyncFrontend
| EmulationInputSharing (enabled : bool)
| SetCaptureReady (ready : bool)
| PublishDaemonInfo.

(** ** Actions *)

Definition act : Type := ClientService -> option (ClientService * list Effect).
Definition nop : act := fun s => Some (s, []).
Definition seq (a b : act) : act := fun s =>
  '(s, before) ← a s; '(s, after) ← b s; Some (s, before ++ after).
Infix ">>>" := seq (at level 62, right associativity).
Definition say (e : Effect) : act := fun s => Some (s, [e]).
Definition read (f : ClientService -> act) : act := fun s => f s s.
Definition change (f : ClientManager -> ClientManager) : act := fun s => Some (set_manager (f (manager s)) s, []).
Definition only_if (b : bool) (a : act) : act := if b then a else nop.
Fixpoint each {A} (f : A -> act) (l : list A) : act :=
  match l with [] => nop | x :: l => f x >>> each f l end.
(** A change that says whether it took place. *)
Definition changing (f : ClientManager -> ClientManager * bool) (a : act) : act := fun s =>
  let (m, changed) := f (manager s) in (only_if changed a) (set_manager m s).

Section service.
(** [SocketAddr::to_string] *)
Context (addr_text : SocketAddr -> rstring) `{!HashOrder}.

Definition broadcast_client (handle : Z) : act := read (fun s =>
  say (Notify match clients (manager s) !! handle with
              | Some (c, st) => ClientStateIs handle c st
              | None => NoSuchClient handle
              end)).

Definition resolve (handle : Z) : act := read (fun s =>
  match get_hostname (manager s) handle with Some name => say (Resolve handle name) | None => nop end).

(** A new client and what is done with its handle. *)
Definition with_new_client (add : ClientManager -> option (Z * ClientManager)) (f : Z -> act) : act := fun s =>
  '(handle, m) ← add (manager s); f handle (set_manager m s).

(** [notify_frontend(Created(..))] of [get_state(handle).unwrap()] *)
Definition announce (handle : Z) : act := fun s =>
  '(c, st) ← clients (manager s) !! handle; say (Notify (Created handle c st)) s.

Definition service_add_client : act := with_new_client add_client announce.

Definition knows_address (addresses : list IpAddr.t) (cs : ClientConfig * ClientState) : bool :=
  existsb (fun a => bool_decide (a ∈ fix_ips cs.1) || bool_decide (a ∈ ips cs.2)) addresses.
Definition add_discovered_client (addresses : list IpAddr.t) (port : Z) : act := read (fun s =>
  if bool_decide (addresses = []) || (port =? 0) then nop
  else if existsb (fun e => knows_address addresses e.2) (get_client_states (manager s)) then nop
  else with_new_client add_client (fun handle =>
         change (set_fix_ips handle addresses) >>> change (set_port handle port) >>> announce handle)).

Definition service_deactivate_client (handle : Z) : act :=
  changing (deactivate_client handle) (say (ToCapture (Destroy handle)) >>> broadcast_client handle).

Definition service_activate_client (handle : Z) : act :=
  resolve handle >>>
  read (fun s =>
    match get_client_pos (manager s) handle with
    | None => nop
    | Some pos =>
        match client_at (manager s) pos with
        | Some other => only_if (negb (other =? handle)) (service_deactivate_client other)
        | None => nop
        end >>>
        changing (activate_client handle)
          (say (ToCapture (Create handle (capture_pos pos) Default)) >>> broadcast_client handle)
    end).

Definition set_client_active (handle : Z) (active : bool) : act :=
  if active then service_activate_client handle else service_deactivate_client handle.

Definition reenable_missing_backends : act := read (fun s =>
  only_if (bool_decide (capture_status s = Disabled)) (say (ToCapture Reenable)) >>>
  only_if (bool_decide (emulation_status s = Disabled)) (say ReenableEmulation)).

Definition service_remove_client (handle : Z) : act := fun s =>
  let (m, removed) := remove_client handle (manager s) in
  (only_if (match removed with Some (_, st) => active st | None => false end)
     (say (ToCapture (Destroy handle))) >>>
   say (HistoryPeerLost (inl handle)) >>> say (Notify (Deleted handle))) (set_manager m s).

Definition update_fix_ips (handle : Z) (v : list IpAddr.t) : act :=
  change (set_fix_ips handle v) >>> broadcast_client handle.
Definition update_hostname (handle : Z) (v : option rstring) : act :=
  changing (set_hostname handle v) (resolve handle) >>> broadcast_client handle.
Definition update_port (handle : Z) (v : Z) : act := change (set_port handle v) >>> broadcast_client handle.
Definition update_pos (handle : Z) (v : Placement.t) : act :=
  changing (set_pos handle v) (service_deactivate_client handle >>> service_activate_client handle) >>>
  broadcast_client handle.
Definition update_enter_hook (handle : Z) (v : option rstring) : act :=
  change (set_enter_hook handle v) >>> broadcast_client handle.

(** ** Round trips *)

(** [delta * 4] is a product of [u32]s; [None] is its overflow. *)
Definition round_trip_moved (shown current : option Z) : option bool :=
  match shown, current with
  | None, None => Some false
  | Some shown, Some current =>
      let delta := Z.abs (shown - current) in
      if delta <? 500 then Some false
      else if u32_max <? delta * 4 then None
      else Some (shown <? delta * 4)
  | _, _ => Some true
  end.
Definition publish_round_trip (handle : Z) : act := fun s =>
  let current := cs ← clients (manager s) !! handle; round_trip_us cs.2 in
  moved ← round_trip_moved (shown_round_trips s !! handle) current;
  if (moved : bool) then
    let shown := match current with
                 | Some value => <[handle := value]> (shown_round_trips s)
                 | None => delete handle (shown_round_trips s)
                 end in
    broadcast_client handle (set_shown_round_trips shown s)
  else nop s.
Definition publish_round_trips : act := read (fun s => each publish_round_trip (registered_clients (manager s))).

(** ** Name resolution and the configuration *)

Definition proto_side (pos : Placement.t) : Position.t :=
  match pos with
  | Placement.Left => Position.Left
  | Placement.Right => Position.Right
  | Placement.Top => Position.Top
  | Placement.Bottom => Position.Bottom
  end.
Definition peer_sides (m : ClientManager) : gmap IpAddr.t Position.t * gmap Position.t rstring :=
  foldl (fun '(sides, beyond) '(handle, (c, st)) =>
           let side := proto_side (pos c) in
           (foldl (fun sides ip => <[ip := side]> sides) sides (fix_ips c ++ hash_order (elements (ips st))),
            match peer_fingerprints m !! handle with
            | Some fingerprint => <[side := fingerprint]> beyond
            | None => beyond
            end)) (∅, ∅) (get_client_states m).
Definition publish_peer_availability : act := read (fun s =>
  say (SetUnavailablePeers
         (omap (fun e => peer_fingerprints (manager s) !! e.1)
            (List.filter (fun e => negb (alive e.2.2 && remote_ready e.2.2)) (get_client_states (manager s)))))).
Definition publish_peer_sides : act :=
  read (fun s => let (sides, beyond) := peer_sides (manager s) in say (SetPeerSides sides beyond)) >>>
  publish_peer_availability.

Definition config_client (m : ClientManager) (e : Z * (ClientConfig * ClientState)) : ConfigClient :=
  let '(handle, (c, st)) := e in
  {| cc_ips := list_to_set (fix_ips c); cc_hostname := hostname c; cc_port := port c; cc_pos := pos c;
     cc_active := active st; cc_enter_hook := cmd c; cc_peer_fingerprint := peer_fingerprints m !! handle |}.
Definition saved_clients (m : ClientManager) : list ConfigClient := config_client m <$> get_client_states m.
Definition save_config : act :=
  publish_peer_sides >>> read (fun s => say (WriteConfig (saved_clients (manager s)))).

Inductive DnsEvent := Resolving (handle : Z) | Resolved (handle : Z) (ips : result rstring (list IpAddr.t)).
Definition handle_resolver_event (event : DnsEvent) : act :=
  match event with
  | Resolving handle => change (set_resolving handle true) >>> broadcast_client handle
  | Resolved handle ips =>
      change (set_resolving handle false) >>>
      change (set_dns_ips handle (match ips with Ok ips => ips | Err _ => [] end)) >>>
      publish_peer_sides >>> broadcast_client handle
  end.

(** [handle_config_change]: the clients and the release bind of the new file *)
Definition reload_client (c : ConfigClient) : act :=
  with_new_client (add_with_config c) (fun handle s =>
    '(config, st) ← clients (manager s) !! handle;
    (only_if (active st)
       (change (fun m => fst (deactivate_client handle m)) >>> service_activate_client handle) >>>
     say (Notify (Created handle config st))) s).
Definition handle_config_change (new : list ConfigClient) (release_bind : list Z) : act :=
  read (fun s => each service_remove_client (registered_clients (manager s))) >>>
  each reload_client new >>>
  say (ToCapture (SetReleaseBind release_bind)) >>> say SetAuthorizedKeys >>> say SyncFrontend.

(** ** Devices that come in *)

Definition add_incoming (addr : SocketAddr) (pos : Placement.t) (fingerprint : rstring) : act := fun s =>
  let handle := ENTER_HANDLE_BEGIN + next_trigger_handle s in
  if u64_max <? handle then None
  else say (ToCapture (Create handle (capture_pos pos) EnterOnly))
         (set_incoming ({[addr]} ∪ incoming_conns s)
            (<[handle := Build_Incoming fingerprint addr pos]> (incoming_conn_info s))
            (next_trigger_handle s + 1) s).

(** The entry of an address: [find] over a hash map. *)
Definition find_incoming (s : ClientService) (addr : SocketAddr) : option (Z * Incoming) :=
  List.find (fun e => bool_decide (in_addr e.2 = addr)) (hash_order (map_to_list (incoming_conn_info s))).

(** [remove_incoming]; the address it returns is [addr], if it was there *)
Definition remove_incoming (addr : SocketAddr) (gone : act) : act := fun s =>
  match find_incoming s addr with
  | None => nop s
  | Some (handle, _) =>
      (say (ToCapture (Destroy handle)) >>> gone)
        (set_incoming (incoming_conns s ∖ {[addr]}) (delete handle (incoming_conn_info s))
           (next_trigger_handle s) s)
  end.

Definition update_incoming (addr : SocketAddr) (pos : Placement.t) (fingerprint : rstring) : act := fun s =>
  '(handle, i) ← find_incoming s addr;
  let changed := negb (bool_decide (in_fingerprint i = fingerprint)) || negb (bool_decide (in_pos i = pos)) in
  let s := set_incoming (incoming_conns s)
             (<[handle := Build_Incoming fingerprint addr pos]> (incoming_conn_info s))
             (next_trigger_handle s) s in
  only_if changed
    (remove_incoming addr nop >>> add_incoming addr pos fingerprint >>>
     say (Notify (IncomingDisconnected addr)) >>> say (Notify (DeviceEntered fingerprint addr pos))) s.

(** The arms [Entered] and [Disconnected] of [handle_emulation_event]. *)
Definition handle_entered (addr : SocketAddr) (pos : Placement.t) (fingerprint : rstring)
    (first relayed : bool) (along : option Z) : act := read (fun s =>
  if negb (input_sharing s) then say (SendLeave addr)
  else
    say (ToCapture (SetController (Some (fingerprint, capture_pos pos)))) >>>
    only_if first
      (let passage := {| edge := pos; peer_text := addr_text addr; passage_fingerprint := Some fingerprint;
                         relayed := relayed; passage_along := along |} in
       say (PluginPassage passage true) >>> say (Notify (PointerEntered passage))) >>>
    if bool_decide (addr ∈ incoming_conns s) then update_incoming addr pos fingerprint
    else add_incoming addr pos fingerprint >>> say (Notify (DeviceEntered fingerprint addr pos))).
Definition handle_disconnected (addr : SocketAddr) : act :=
  say (HistoryPeerLost (inr addr)) >>> remove_incoming addr (say (Notify (IncomingDisconnected addr))).

(** ** Settings *)

Definition set_input_sharing (enabled : bool) : act :=
  (fun s => Some (set_settings (capture_status s) (emulation_status s) enabled s, [])) >>>
  say (ToCapture (SetInputSharing enabled)) >>> say (EmulationInputSharing enabled) >>>
  only_if enabled reenable_missing_backends >>> say (Notify (InputSharing enabled)).

(** The arms of [handle_capture_event] and [handle_emulation_event] that follow
    the back ends. *)
Definition capture_status_changed (status : Status) : act :=
  (fun s => Some (set_settings status (emulation_status s) (input_sharing s) s, [])) >>>
  only_if (bool_decide (status = Enabled)) (say PublishDaemonInfo) >>>
  say (Notify (CaptureStatus status)) >>> say (SetCaptureReady (bool_decide (status = Enabled))).
Definition emulation_status_changed (status : Status) : act :=
  (fun s => Some (set_settings (capture_status s) status (input_sharing s) s, [])) >>>
  only_if (bool_decide (status = Enabled)) (say PublishDaemonInfo) >>> say (Notify (EmulationStatus status)).

(** ** Requests and events *)

Inductive ClientRequest :=
| Activate (handle : Z) (active : bool)
| CreateClient
| CreateDiscovered (addresses : list IpAddr.t) (port : Z)
| Delete (handle : Z)
| EnableCapture
| EnableEmulation
| ShareInput (enabled : bool)
| EnumerateClients
| UpdateFixIps (handle : Z) (v : list IpAddr.t)
| UpdateHostname (handle : Z) (v : option rstring)
| UpdatePort (handle : Z) (v : Z)
| UpdatePosition (handle : Z) (v : Placement.t)
| ResolveDns (handle : Z)
| UpdateEnterHook (handle : Z) (v : option rstring).

Definition handle_client_request (request : ClientRequest) : act :=
  match request with
  | Activate handle active =>
      set_client_active handle active >>>
      read (fun s => only_if (active && input_sharing s) reenable_missing_backends) >>> save_config
  | CreateClient => service_add_client >>> save_config
  | CreateDiscovered addresses port => add_discovered_client addresses port >>> save_config
  | Delete handle => service_remove_client handle >>> save_config
  | EnableCapture => say (ToCapture Reenable)
  | EnableEmulation => say ReenableEmulation
  | ShareInput enabled => set_input_sharing enabled
  | EnumerateClients => read (fun s => say (Notify (Enumerate (get_client_states (manager s)))))
  | UpdateFixIps handle v => update_fix_ips handle v >>> save_config
  | UpdateHostname handle v => update_hostname handle v >>> save_config
  | UpdatePort handle v => update_port handle v >>> save_config
  | UpdatePosition handle v => update_pos handle v >>> save_config
  | ResolveDns handle => resolve handle
  | UpdateEnterHook handle v => update_enter_hook handle v
  end.

(** What the connections write into the shared table. *)
Inductive LiveChange :=
| ActiveAddr (handle : Z) (v : option SocketAddr)
| Alive (handle : Z) (v : bool)
| RemoteReady (handle : Z) (v : bool)
| PeerCommit (handle : Z) (v : option bytes)
| RoundTrip (handle : Z) (sample : Z)
| Fingerprint (handle : Z) (v : rstring).
Definition live_change (x : LiveChange) : ClientManager -> ClientManager :=
  match x with
  | ActiveAddr handle v => set_active_addr handle v
  | Alive handle v => set_alive handle v
  | RemoteReady handle v => set_remote_ready handle v
  | PeerCommit handle v => set_peer_commit handle v
  | RoundTrip handle sample => record_round_trip handle sample
  | Fingerprint handle v => set_peer_fingerprint handle v
  end.

Inductive ClientEvent :=
| FromFrontend (request : ClientRequest)
| FromResolver (event : DnsEvent)
| ConfigChanged (new : list ConfigClient) (release_bind : list Z)
| Entered (addr : SocketAddr) (pos : Placement.t) (fingerprint : rstring) (first relayed : bool)
    (along : option Z)
| Disconnected (addr : SocketAddr)
| Connection (x : LiveChange)
| CaptureIs (status : Status)
| EmulationIs (status : Status)
| PublishRoundTrips.
Definition handle_client_event (event : ClientEvent) : act :=
  match event with
  | FromFrontend request => handle_client_request request
  | FromResolver event => handle_resolver_event event
  | ConfigChanged new release_bind => handle_config_change new release_bind
  | Entered addr pos fingerprint first relayed along => handle_entered addr pos fingerprint first relayed along
  | Disconnected addr => handle_disconnected addr
  | Connection x => change (live_change x)
  | CaptureIs status => capture_status_changed status
  | EmulationIs status => emulation_status_changed status
  | PublishRoundTrips => publish_round_trips
  end.

(** ** Start *)

(** [Service::new]: the clients of the configuration *)
Fixpoint load_clients (l : list ConfigClient) (m : ClientManager) : option ClientManager :=
  match l with
  | [] => Some m
  | c :: l => '(_, m) ← add_with_config c m; load_clients l m
  end.
Definition new_service (m : ClientManager) (sharing : bool) : ClientService :=
  Build_ClientService m ∅ ∅ 0 ∅ Disabled Disabled sharing.
(** The beginning of [Service::run]: every active client gets its barrier. *)
Definition start_clients : act :=
  publish_peer_sides >>>
  read (fun s => let active := active_clients (manager s) in
    each (fun handle => change (fun m => fst (deactivate_client handle m))) active >>>
    each service_activate_client active).
End service.
