(* ===== verification/ClientTheorems.v ===== *)
(** * Clients: one barrier per route

    The table of clients stays consistent, at most one device is active at each
    edge, and the barriers the capture task is told to have are exactly those of
    the active clients and of the devices that came in. *)

From stdpp Require Import sorting.
From S2P Require Import Prelude Wire ProtoTypes InputCapture Capture ClientManager ClientService.

(** ** The invariant *)

Definition ips_ok (cs : ClientConfig * ClientState) : Prop :=
  ips cs.2 = list_to_set (fix_ips cs.1 ++ dns_ips cs.2).

(** Handles are below the next one, certificates belong to clients, addresses
    are the fixed and the resolved ones. *)
Record table_ok (m : ClientManager) : Prop := {
  to_handles : forall h cs, clients m !! h = Some cs -> 0 <= h < next_handle m;
  to_next : 0 <= next_handle m <= ENTER_HANDLE_BEGIN;
  to_fingerprints : forall h, is_Some (peer_fingerprints m !! h) -> is_Some (clients m !! h);
  to_ips : forall h cs, clients m !! h = Some cs -> ips_ok cs;
}.

(** The edge a client has, if it is active. *)
Definition route (cs : ClientConfig * ClientState) : option Placement.t :=
  if active cs.2 then Some (pos cs.1) else None.
Definition route_of (m : ClientManager) (h : Z) : option Placement.t := clients m !! h ≫= route.

Definition one_per_edge (m : ClientManager) : Prop :=
  forall h h' p, route_of m h = Some p -> route_of m h' = Some p -> h = h'.

Record incoming_ok (s : ClientService) : Prop := {
  in_handles : forall h i, incoming_conn_info s !! h = Some i ->
    ENTER_HANDLE_BEGIN <= h < ENTER_HANDLE_BEGIN + next_trigger_handle s;
  in_next : 0 <= next_trigger_handle s <= ENTER_HANDLE_BEGIN;
  in_once : forall h i h' i', incoming_conn_info s !! h = Some i -> incoming_conn_info s !! h' = Some i' ->
    in_addr i = in_addr i' -> h = h';
  in_conns : forall a, a ∈ incoming_conns s <-> exists h i, incoming_conn_info s !! h = Some i /\ in_addr i = a;
}.

(** The captures asked for so far: what [Create] and [Destroy] do to the
    configured captures of the capture task. *)
Definition replay_one (caps : list (Z * Side * CaptureType)) (e : Effect) : list (Z * Side * CaptureType) :=
  match e with
  | ToCapture (Capture.Create h p k) => caps ++ [(h, p, k)]
  | ToCapture (Capture.Destroy h) => List.filter (fun c => negb (c.1.1 =? h)) caps
  | _ => caps
  end.
Definition replay (caps : list (Z * Side * CaptureType)) (l : list Effect) : list (Z * Side * CaptureType) :=
  foldl replay_one caps l.

(** The captures there should be. *)
Definition wanted (s : ClientService) (h : Z) (p : Side) (k : CaptureType) : Prop :=
  match k with
  | Default => capture_pos <$> route_of (manager s) h = Some p
  | EnterOnly => (fun i => capture_pos (in_pos i)) <$> incoming_conn_info s !! h = Some p
  end.
Definition captures_ok (s : ClientService) (caps : list (Z * Side * CaptureType)) : Prop :=
  NoDup ((fun c => c.1.1) <$> caps) /\ forall h p k, (h, p, k) ∈ caps <-> wanted s h p k.

Record good (s : ClientService) (caps : list (Z * Side * CaptureType)) : Prop := {
  g_table : table_ok (manager s);
  g_edges : one_per_edge (manager s);
  g_incoming : incoming_ok s;
  g_captures : captures_ok s caps;
}.

(** ** Actions that keep it *)

(** The action returns when [n] handles for clients and [k] for incoming devices
    are left, and takes no more. *)
Definition leads (n k : Z) s caps (x : option (ClientService * list Effect)) : Prop :=
  exists s' es, x = Some (s', es) /\ good s' (replay caps es)
  /\ next_handle (manager s) <= next_handle (manager s') <= next_handle (manager s) + n
  /\ next_trigger_handle s <= next_trigger_handle s' <= next_trigger_handle s + k.
Definition fits (n k : Z) (a : act) : Prop :=
  forall s caps, good s caps ->
  next_handle (manager s) + n <= ENTER_HANDLE_BEGIN -> next_trigger_handle s + k <= ENTER_HANDLE_BEGIN ->
  leads n k s caps (a s).

Lemma replay_app caps l k : replay caps (l ++ k) = replay (replay caps l) k.
Proof. apply foldl_app. Qed.

Lemma seq_eq a b s s1 e1 s2 e2 :
  a s = Some (s1, e1) -> b s1 = Some (s2, e2) -> (a >>> b) s = Some (s2, e1 ++ e2).
Proof. intros E1 E2. unfold seq. rewrite E1. cbn. by rewrite E2. Qed.
Lemma fits_seq n k n' k' a b : 0 <= n' -> 0 <= k' -> fits n k a -> fits n' k' b -> fits (n + n') (k + k') (a >>> b).
Proof.
  intros Hn' Hk' Ha Hb s caps Hs Hn Hk. destruct (Ha s caps Hs) as (s1 & e1 & E1 & G1 & N1 & K1); [lia..|].
  destruct (Hb s1 _ G1) as (s2 & e2 & E2 & G2 & N2 & K2); [lia..|].
  exists s2, (e1 ++ e2). rewrite (seq_eq _ _ _ _ _ _ _ E1 E2), replay_app. split; [done|]. split; [done|]. lia.
Qed.
Lemma fits_more n k n' k' a : n <= n' -> k <= k' -> fits n k a -> fits n' k' a.
Proof.
  intros Hn Hk Ha s caps Hs Hn' Hk'. destruct (Ha s caps Hs) as (s1 & e1 & E1 & G1 & N1 & K1); [lia..|].
  exists s1, e1. split; [done|]. split; [done|]. lia.
Qed.
Lemma leads_seq s caps a b :
  leads 0 0 s caps (a s) ->
  (forall s1 e1, a s = Some (s1, e1) -> good s1 (replay caps e1) -> leads 0 0 s1 (replay caps e1) (b s1)) ->
  leads 0 0 s caps ((a >>> b) s).
Proof.
  intros (s1 & e1 & E1 & G1 & N1 & K1) Hb. destruct (Hb s1 e1 E1 G1) as (s2 & e2 & E2 & G2 & N2 & K2).
  exists s2, (e1 ++ e2). rewrite (seq_eq _ _ _ _ _ _ _ E1 E2), replay_app. split; [done|]. split; [done|]. lia.
Qed.
Lemma leads_seq_nop s caps b : leads 0 0 s caps (b s) -> leads 0 0 s caps ((nop >>> b) s).
Proof.
  intros (s2 & e2 & E2 & G2 & N2 & K2). exists s2, e2. unfold seq, nop. cbn. by rewrite E2.
Qed.
Lemma fits_then a b : fits 0 0 a -> fits 0 0 b -> fits 0 0 (a >>> b).
Proof. intros Ha Hb. by apply (fits_seq 0 0 0 0). Qed.
Lemma fits_then_more n k a b : 0 <= n -> 0 <= k -> fits 0 0 a -> fits n k b -> fits n k (a >>> b).
Proof. intros Hn Hk Ha Hb. by apply (fits_seq 0 0 n k). Qed.
Lemma fits_more_then n k a b : fits n k a -> fits 0 0 b -> fits n k (a >>> b).
Proof. intros Ha Hb. eapply fits_more; [..|by apply (fits_seq n k 0 0)]; lia. Qed.
Lemma set_manager_same s : set_manager (manager s) s = s.
Proof. by destruct s. Qed.
Lemma leads_nop s caps : good s caps -> leads 0 0 s caps (nop s).
Proof. intros Hs. exists s, []. split; [done|]. split; [done|]. lia. Qed.
Lemma fits_nop : fits 0 0 nop.
Proof. intros s caps Hs _ _. by apply leads_nop. Qed.
Lemma fits_read n k f : (forall s, fits n k (f s)) -> fits n k (read f).
Proof. intros Hf s. apply (Hf s). Qed.
Lemma fits_only_if n k b a : 0 <= n -> 0 <= k -> fits n k a -> fits n k (only_if b a).
Proof. intros Hn Hk Ha. destruct b; [done|]. eapply fits_more; [..|apply fits_nop]; lia. Qed.
Lemma fits_each {A} n (f : A -> act) l : 0 <= n -> (forall x, fits n 0 (f x)) -> fits (n * len l) 0 (each f l).
Proof.
  intros Hn Hf. induction l as [|x l IH].
  - rewrite len_nil, Z.mul_0_r. apply fits_nop.
  - cbn [each]. pose proof (len_nonneg l). rewrite len_cons. replace (n * (1 + len l)) with (n + n * len l) by lia.
    apply (fits_seq n 0 (n * len l) 0); auto; nia.
Qed.

(** An effect that is not about captures. *)
Definition silent (e : Effect) : Prop := forall caps, replay_one caps e = caps.
Lemma fits_say e : silent e -> fits 0 0 (say e).
Proof.
  intros He s caps Hs _ _. exists s, [e]. split; [done|]. unfold replay. cbn. rewrite He. split; [done|]. lia.
Qed.
Create HintDb clients discriminated.
#[export] Hint Resolve fits_then fits_nop fits_read fits_only_if : clients.
#[export] Hint Extern 1 (fits _ _ (say _)) => apply fits_say; done : clients.

(** ** Changes of the table that leave the routes alone *)

Definition mild (f : ClientManager -> ClientManager) : Prop :=
  forall m, table_ok m ->
  table_ok (f m) /\ next_handle (f m) = next_handle m /\ forall h, route_of (f m) h = route_of m h.

Lemma good_same_routes s caps m :
  good s caps -> table_ok m -> (forall h, route_of m h = route_of (manager s) h) ->
  good (set_manager m s) caps.
Proof.
  intros [Ht He [] Hc] Hm Hr. split; [done| |done|].
  - intros h h' p. cbn. rewrite !Hr. apply He.
  - destruct Hc as [Hn Hc]. split; [done|]. intros h p k. rewrite Hc. unfold wanted. cbn. by rewrite Hr.
Qed.
Lemma fits_change f : mild f -> fits 0 0 (change f).
Proof.
  intros Hf s caps Hs _ _. destruct (Hf _ (g_table _ _ Hs)) as (Ht & Hn & Hr).
  exists (set_manager (f (manager s)) s), []. split; [done|]. split; [by apply good_same_routes|].
  cbn. rewrite Hn. lia.
Qed.

(** A change of one client. *)
Lemma mild_alter h0 f :
  (forall cs, ips_ok cs -> ips_ok (f cs)) -> (forall cs, route (f cs) = route cs) ->
  mild (fun m => with_clients (alter f h0 (clients m)) m).
Proof.
  intros Hips Hr m [Hh Hn Hf Hi]. split_and!; [|done|].
  - split; [| done| |]; cbn.
    + intros h cs. rewrite lookup_alter_Some. naive_solver.
    + intros h Hs%Hf. destruct (decide (h0 = h)) as [->|?];
        [by rewrite lookup_alter_eq, fmap_is_Some|by rewrite lookup_alter_ne].
    + intros h cs. rewrite lookup_alter_Some. naive_solver.
  - intros h. unfold route_of. cbn. destruct (decide (h0 = h)) as [->|Hne].
    + rewrite lookup_alter_eq. destruct (clients m !! h); cbn; [apply Hr|done].
    + by rewrite lookup_alter_ne.
Qed.

Lemma mild_modify h f g :
  (forall c, fix_ips (f c) = fix_ips c /\ pos (f c) = pos c) ->
  (forall st, dns_ips (g st) = dns_ips st /\ ips (g st) = ips st /\ active (g st) = active st) ->
  mild (modify h f g).
Proof.
  intros Hf Hg. apply mild_alter; intros [c st]; unfold ips_ok, route; cbn;
    destruct (Hf c) as [E1 E2], (Hg st) as (E3 & E4 & E5).
  - by rewrite E1, E3, E4.
  - by rewrite E2, E5.
Qed.
Lemma modify_refresh h f g m :
  update_ips h (modify h f g m)
  = with_clients (alter (fun cs => refresh_ips (f cs.1, g cs.2)) h (clients m)) m.
Proof. unfold update_ips, modify, with_clients. cbn. by rewrite alter_alter_eq. Qed.
Lemma mild_refresh h f g :
  (forall c, pos (f c) = pos c) -> (forall st, active (g st) = active st) ->
  mild (fun m => update_ips h (modify h f g m)).
Proof.
  intros Hf Hg m Hm. rewrite modify_refresh. revert m Hm. apply mild_alter.
  - intros [c st] _. done.
  - intros [c st]. unfold route. cbn. by rewrite Hf, Hg.
Qed.

Lemma mild_set_fix_ips h v : mild (set_fix_ips h v).
Proof. by apply mild_refresh. Qed.
Lemma mild_set_dns_ips h v : mild (set_dns_ips h v).
Proof. by apply mild_refresh. Qed.
Lemma mild_id : mild id.
Proof. by intros m Hm. Qed.
Lemma mild_set_hostname h v : mild (fun m => fst (set_hostname h v m)).
Proof.
  intros m Hm. unfold set_hostname. destruct (clients m !! h) as [[c st]|]; [|by apply mild_id].
  case_bool_decide; [by apply mild_id|]. cbn [fst]. by apply mild_refresh.
Qed.
Lemma mild_set_port h v : mild (set_port h v).
Proof.
  intros m Hm. unfold set_port. destruct (clients m !! h) as [[c st]|]; [|by apply mild_id].
  destruct (port c =? v); [by apply mild_id|]. by apply mild_modify.
Qed.
Lemma mild_set_peer_fingerprint h v : mild (set_peer_fingerprint h v).
Proof.
  intros m Hm. unfold set_peer_fingerprint, contains_client. case_bool_decide as Hin; [|by apply mild_id].
  destruct Hm as [Hh Hn Hf Hi]. split; [|done]. split; cbn; [done..| |done].
  intros h' Hs. destruct (decide (h = h')) as [<-|Hne]; [done|]. rewrite lookup_insert_ne in Hs by done. auto.
Qed.
Lemma mild_live_change x : mild (live_change x).
Proof. destruct x; cbn; try by apply mild_modify. apply mild_set_peer_fingerprint. Qed.
#[export] Hint Resolve mild_set_fix_ips mild_set_dns_ips mild_set_port mild_live_change : clients.
#[export] Hint Extern 1 (mild (modify _ _ _)) => apply mild_modify; done : clients.
#[export] Hint Resolve fits_change : clients.

Lemma changing_fits n k f a :
  0 <= n -> 0 <= k -> mild (fun m => fst (f m)) -> fits n k a -> fits n k (changing f a).
Proof.
  intros Hn Hk Hf Ha s caps Hs Hn' Hk'. unfold changing. destruct (Hf _ (g_table _ _ Hs)) as (Ht & Hnext & Hr).
  destruct (f (manager s)) as [m b]. cbn in *.
  assert (Hg : good (set_manager m s) caps) by by apply good_same_routes.
  destruct (fits_only_if n k b a Hn Hk Ha _ _ Hg) as (s' & es & E & G & N & K); [cbn; lia..|].
  exists s', es. cbn in *. split; [done|]. split; [done|]. lia.
Qed.

(** ** Changes of the routes *)

Lemma elem_of_filter_caps (caps : list (Z * Side * CaptureType)) h c :
  c ∈ List.filter (fun c => negb (c.1.1 =? h)) caps <-> c ∈ caps /\ c.1.1 <> h.
Proof. rewrite !list_elem_of_In, filter_In. destruct (Z.eqb_spec c.1.1 h); naive_solver. Qed.
Lemma NoDup_filter_caps (caps : list (Z * Side * CaptureType)) h :
  NoDup ((fun c : Z * Side * CaptureType => c.1.1) <$> caps) ->
  NoDup ((fun c : Z * Side * CaptureType => c.1.1) <$> List.filter (fun c => negb (c.1.1 =? h)) caps).
Proof.
  induction caps as [|c caps IH]; cbn; [done|]. intros [Hc Hn]%NoDup_cons.
  destruct (c.1.1 =? h); cbn; [auto|]. apply NoDup_cons. split; [|auto].
  intros (c' & Hc' & [Hin _]%elem_of_filter_caps)%list_elem_of_fmap. apply Hc.
  apply list_elem_of_fmap. by exists c'.
Qed.

(** A capture goes. *)
Lemma captures_drop s s' caps h :
  captures_ok s caps ->
  (forall h' p k, h' <> h -> wanted s' h' p k <-> wanted s h' p k) -> (forall p k, ~ wanted s' h p k) ->
  captures_ok s' (List.filter (fun c => negb (c.1.1 =? h)) caps).
Proof.
  intros [Hn Hc] Hother Hgone. split; [by apply NoDup_filter_caps|]. intros h' p k.
  rewrite elem_of_filter_caps, Hc. cbn. destruct (decide (h' = h)) as [->|Hne]; [naive_solver|].
  rewrite Hother by done. naive_solver.
Qed.
(** A capture comes. *)
Lemma captures_add s s' caps h p k :
  captures_ok s caps ->
  (forall h' p' k', h' <> h -> wanted s' h' p' k' <-> wanted s h' p' k') ->
  (forall p' k', ~ wanted s h p' k') -> (forall p' k', wanted s' h p' k' <-> p' = p /\ k' = k) ->
  captures_ok s' (caps ++ [(h, p, k)]).
Proof.
  intros [Hn Hc] Hother Hnew Hnow. split.
  - rewrite fmap_app. apply NoDup_app. split; [done|]. split; [|apply NoDup_singleton].
    intros h' (c & -> & Hin)%list_elem_of_fmap Hh%list_elem_of_singleton.
    destruct c as [[h0 p0] k0]. cbn in Hh. subst. by apply Hc, Hnew in Hin.
  - intros h' p' k'. rewrite elem_of_app, list_elem_of_singleton, Hc.
    destruct (decide (h' = h)) as [->|Hne].
    + rewrite Hnow. naive_solver.
    + rewrite Hother by done. naive_solver.
Qed.

(** Handles of clients are not handles of incoming devices. *)
Lemma client_not_incoming s caps h :
  good s caps -> h < next_handle (manager s) -> incoming_conn_info s !! h = None.
Proof.
  intros [Ht _ Hi _] Hh. destruct (incoming_conn_info s !! h) as [i|] eqn:E; [|done].
  apply (in_handles _ Hi) in E. pose proof (to_next _ Ht). lia.
Qed.

(** A client loses its edge. *)
Lemma good_drop s caps m h :
  good s caps -> table_ok m -> next_handle m = next_handle (manager s) -> h < next_handle m ->
  (forall h', h' <> h -> route_of m h' = route_of (manager s) h') -> route_of m h = None ->
  good (set_manager m s) (List.filter (fun c => negb (c.1.1 =? h)) caps).
Proof.
  intros Hs Hm Hn Hh Hr Hgone. pose proof (client_not_incoming s caps h Hs ltac:(lia)) as Hi.
  destruct Hs as [Ht He [] Hc]. split; [done| |done|].
  - intros h1 h2 p. cbn. destruct (decide (h1 = h)) as [->|]; [congruence|].
    destruct (decide (h2 = h)) as [->|]; [congruence|]. rewrite !Hr by done. apply He.
  - eapply captures_drop; [exact Hc|..]; unfold wanted; cbn.
    + intros h' p k Hne. by rewrite Hr.
    + intros p k. rewrite Hgone, Hi. by destruct k.
Qed.
(** A client gets an edge nobody has. *)
Lemma good_raise s caps m h p :
  good s caps -> table_ok m -> next_handle m = next_handle (manager s) -> h < next_handle m ->
  (forall h', h' <> h -> route_of m h' = route_of (manager s) h') ->
  route_of (manager s) h = None -> route_of m h = Some p -> (forall h', route_of (manager s) h' <> Some p) ->
  good (set_manager m s) (caps ++ [(h, capture_pos p, Default)]).
Proof.
  intros Hs Hm Hn Hh Hr Hwas Hnow Hfree. pose proof (client_not_incoming s caps h Hs ltac:(lia)) as Hi.
  destruct Hs as [Ht He [] Hc]. split; [done| |done|].
  - intros h1 h2 q. cbn. destruct (decide (h1 = h)) as [->|Hne1], (decide (h2 = h)) as [->|Hne2]; [done| | |].
    + rewrite Hnow, Hr by done. intros [= <-] E. by destruct (Hfree h2).
    + rewrite Hnow, Hr by done. intros E [= <-]. by destruct (Hfree h1).
    + rewrite !Hr by done. apply He.
  - eapply captures_add; [exact Hc|..]; unfold wanted; cbn.
    + intros h' p' k' Hne. by rewrite Hr.
    + intros p' k'. rewrite Hwas, Hi. by destruct k'.
    + intros p' k'. rewrite Hnow, Hi. destruct k'; cbn; naive_solver.
Qed.

(** Switching one client on or off. *)
Lemma switch_table h f b m :
  (forall c, fix_ips (f c) = fix_ips c) -> table_ok m -> table_ok (modify h f (with_active b) m).
Proof.
  intros Hf [Hh Hn Hfp Hi]. split; [| done| |]; cbn.
  - intros h' cs. rewrite lookup_alter_Some. naive_solver.
  - intros h' Hs%Hfp. destruct (decide (h = h')) as [->|?];
      [by rewrite lookup_alter_eq, fmap_is_Some|by rewrite lookup_alter_ne].
  - intros h' cs [(-> & [c st] & Hl & ->)|[_ Hl]]%lookup_alter_Some; [|by eapply Hi].
    apply Hi in Hl. unfold ips_ok in *. cbn in *. by rewrite Hf.
Qed.
Lemma switch_other h f b m h' : h' <> h -> route_of (modify h f (with_active b) m) h' = route_of m h'.
Proof.
  intros Hne. unfold route_of, modify, with_clients. cbn [clients]. by rewrite lookup_alter_ne by congruence.
Qed.
Lemma switch_route h f b m c st :
  clients m !! h = Some (c, st) ->
  route_of (modify h f (with_active b) m) h = if b then Some (pos (f c)) else None.
Proof.
  intros Hl. unfold route_of, modify, with_clients. cbn [clients]. rewrite lookup_alter_eq, Hl. by destruct b.
Qed.

Lemma elem_of_client_states m h cs : (h, cs) ∈ get_client_states m <-> clients m !! h = Some cs.
Proof. unfold get_client_states. by rewrite merge_sort_Permutation, elem_of_map_to_list. Qed.
Lemma client_at_Some m p h : client_at m p = Some h -> route_of m h = Some p.
Proof.
  unfold client_at. intros ([h' [c st]] & [Hin Hb]%List.find_some & ->)%fmap_Some.
  apply list_elem_of_In, elem_of_client_states in Hin. cbn [fst]. unfold route_of, route.
  rewrite Hin. cbn in *.
  apply andb_true_iff in Hb as [-> ->%bool_decide_eq_true]. done.
Qed.
Lemma client_at_None m p h : client_at m p = None -> route_of m h <> Some p.
Proof.
  unfold client_at, route_of, route. intros Hn%fmap_None Hr.
  destruct (clients m !! h) as [[c st]|] eqn:E; [|done]. cbn in Hr.
  apply elem_of_client_states, list_elem_of_In in E. pose proof (List.find_none _ _ Hn _ E) as Hb. cbn in Hb.
  destruct (active st); [|done]. injection Hr as Hr. rewrite bool_decide_true in Hb; done.
Qed.

Section service.
Context (addr_text : SocketAddr -> rstring) `{!HashOrder}.

Lemma fits_broadcast h : fits 0 0 (broadcast_client h).
Proof. apply fits_read. intros s. by apply fits_say. Qed.
Lemma fits_resolve h : fits 0 0 (resolve h).
Proof. apply fits_read. intros s. destruct (get_hostname _ h); auto with clients. Qed.
Lemma fits_publish_peer_sides : fits 0 0 publish_peer_sides.
Proof.
  apply fits_then; apply fits_read; intros s; [|by apply fits_say].
  destruct (peer_sides (manager s)). by apply fits_say.
Qed.
Lemma fits_save_config : fits 0 0 save_config.
Proof. apply fits_then; [apply fits_publish_peer_sides|]. apply fits_read. intros s. by apply fits_say. Qed.
Hint Resolve fits_broadcast fits_resolve fits_publish_peer_sides fits_save_config : clients.


(** A request to the capture task and the news of a client. *)
Lemma tell_capture s r h :
  exists e, (say (ToCapture r) >>> broadcast_client h) s = Some (s, [ToCapture r; Notify e]).
Proof. by eexists. Qed.
Lemma request_done s caps s1 caps1 r h :
  good s1 caps1 -> replay_one caps (ToCapture r) = caps1 ->
  next_handle (manager s1) = next_handle (manager s) -> next_trigger_handle s1 = next_trigger_handle s ->
  leads 0 0 s caps ((say (ToCapture r) >>> broadcast_client h) s1).
Proof.
  intros Hg Hr Hn Hk. destruct (tell_capture s1 r h) as [e ->]. exists s1, [ToCapture r; Notify e].
  unfold replay. cbn [foldl]. rewrite Hr. split; [done|]. split; [done|]. lia.
Qed.

Lemma lookup_handle s caps h cs : good s caps -> clients (manager s) !! h = Some cs -> h < next_handle (manager s).
Proof. intros Hs Hl. by destruct (to_handles _ (g_table _ _ Hs) _ _ Hl). Qed.

Lemma fits_deactivate h : fits 0 0 (service_deactivate_client h).
Proof.
  intros s caps Hs Hn Hk. unfold service_deactivate_client, changing, deactivate_client.
  destruct (clients (manager s) !! h) as [[c st]|] eqn:Hl;
    [|cbn [only_if]; rewrite set_manager_same; by apply leads_nop].
  destruct (active st) eqn:Ha; cbn [only_if]; [|rewrite set_manager_same; by apply leads_nop].
  eapply request_done; [|done..].
  apply good_drop; auto.
  - apply switch_table; [done|]. apply Hs.
  - by eapply lookup_handle.
  - intros. by apply switch_other.
  - by rewrite (switch_route _ _ _ _ _ _ Hl).
Qed.

Lemma deactivate_state h s s' es :
  service_deactivate_client h s = Some (s', es) -> manager s' = fst (deactivate_client h (manager s)).
Proof.
  unfold service_deactivate_client, changing. destruct (deactivate_client h (manager s)) as [m []]; by intros [= <- <-].
Qed.

(** Activation when nobody else has the edge. *)
Lemma activate_free h p s caps c st :
  good s caps -> clients (manager s) !! h = Some (c, st) -> p = pos c ->
  (forall h', h' <> h -> route_of (manager s) h' <> Some p) ->
  leads 0 0 s caps (changing (activate_client h)
    (say (ToCapture (Create h (capture_pos p) Default)) >>> broadcast_client h) s).
Proof.
  intros Hs Hl -> Hfree. unfold changing, activate_client. rewrite Hl. destruct (active st) eqn:Ha.
  { cbn [only_if]. rewrite set_manager_same. by apply leads_nop. }
  cbn [only_if].
  eapply request_done; [|done..].
  assert (Hnone : route_of (manager s) h = None) by (unfold route_of, route; rewrite Hl; cbn; by rewrite Ha).
  apply good_raise; auto.
  - apply switch_table; [done|]. apply Hs.
  - by eapply lookup_handle.
  - intros. by apply switch_other.
  - by rewrite (switch_route _ _ _ _ _ _ Hl).
  - intros h' E. destruct (decide (h' = h)) as [->|Hne]; [congruence|]. by apply (Hfree h').
Qed.

Lemma fits_activate h : fits 0 0 (service_activate_client h).
Proof.
  apply fits_then; [apply fits_resolve|]. intros s caps Hs Hn Hk. unfold read.
  unfold get_client_pos. destruct (clients (manager s) !! h) as [[c st]|] eqn:Hl; [|by apply fits_nop]. cbn [fmap option_fmap option_map fst].
  destruct (client_at (manager s) (pos c)) as [other|] eqn:Hat.
  - apply client_at_Some in Hat. destruct (Z.eqb_spec other h) as [->|Hne]; cbn [only_if negb].
    + apply leads_seq_nop, (activate_free h (pos c) s caps c st); [done..|].
      intros h' Hne Hr. by apply Hne, (g_edges _ _ Hs) with (pos c).
    + apply leads_seq; [by apply fits_deactivate|]. intros s1 e1 E1 G1.
      apply deactivate_state in E1. unfold deactivate_client in E1.
      destruct (clients (manager s) !! other) as [[c' st']|] eqn:Hl'; [|by unfold route_of in Hat; rewrite Hl' in Hat].
      destruct (active st') eqn:Ha'; [|unfold route_of, route in Hat; rewrite Hl' in Hat; cbn in Hat; by rewrite Ha' in Hat].
      cbn in E1. apply (activate_free h (pos c) s1 _ c st); [done| |done|].
      * rewrite E1. cbn. by rewrite lookup_alter_ne.
      * intros h' Hne' Hr. rewrite E1 in Hr. destruct (decide (h' = other)) as [->|Hno].
        -- by rewrite (switch_route _ _ _ _ _ _ Hl') in Hr.
        -- rewrite switch_other in Hr by done. by apply Hno, (g_edges _ _ Hs) with (pos c).
  - apply leads_seq_nop, (activate_free h (pos c) s caps c st); [done..|].
    intros h' _. by apply client_at_None.
Qed.
Hint Resolve fits_deactivate fits_activate : clients.

(** ** Removing and moving a client *)

Lemma delete_table h m : table_ok m -> table_ok (fst (remove_client h m)).
Proof.
  intros [Hh Hn Hf Hi]. split; cbn; [|done| |].
  - intros h' cs [_ Hl]%lookup_delete_Some. by eapply Hh.
  - intros h' [f [Hne Hl]%lookup_delete_Some]. rewrite lookup_delete_ne by done. apply Hf. by exists f.
  - intros h' cs [_ Hl]%lookup_delete_Some. by eapply Hi.
Qed.

Lemma fits_remove h : fits 0 0 (service_remove_client h).
Proof.
  intros s caps Hs Hn Hk. unfold service_remove_client. cbn.
  set (m := Build_ClientManager _ _ _).
  assert (Hm : table_ok m) by apply (delete_table h), Hs.
  assert (Hother : forall h', h' <> h -> route_of m h' = route_of (manager s) h').
  { intros h' Hne. unfold route_of. cbn. by rewrite lookup_delete_ne. }
  assert (Hgone : route_of m h = None) by (unfold route_of; cbn; by rewrite lookup_delete_eq).
  destruct (clients (manager s) !! h) as [[c st]|] eqn:Hl; [destruct (active st) eqn:Ha|].
  - eexists (set_manager m s), _. split; [reflexivity|]. split; [|cbn; lia]. cbn.
    apply good_drop; auto. by eapply lookup_handle.
  - eexists (set_manager m s), _. split; [reflexivity|]. split; [|cbn; lia]. cbn.
    apply good_same_routes; [done..|]. intros h'. destruct (decide (h' = h)) as [->|]; [|by apply Hother].
    rewrite Hgone. unfold route_of, route. rewrite Hl. cbn. by rewrite Ha.
  - eexists (set_manager m s), _. split; [reflexivity|]. split; [|cbn; lia]. cbn.
    apply good_same_routes; [done..|]. intros h'. destruct (decide (h' = h)) as [->|]; [|by apply Hother].
    rewrite Hgone. unfold route_of. by rewrite Hl.
Qed.

Lemma fits_update_pos h v : fits 0 0 (update_pos h v).
Proof.
  apply fits_then; [|apply fits_broadcast]. intros s caps Hs Hn Hk. unfold changing, set_pos.
  destruct (clients (manager s) !! h) as [[c st]|] eqn:Hl;
    [|cbn [only_if]; rewrite set_manager_same; by apply leads_nop].
  case_bool_decide; [cbn [only_if]; rewrite set_manager_same; by apply leads_nop|].
  set (m := modify h (with_pos v) id (manager s)).
  assert (Hlm : clients m !! h = Some (with_pos v c, st)).
  { subst m. cbn. by rewrite lookup_alter_eq, Hl. }
  destruct (active st) eqn:Ha; cbn [only_if].
  - (* the barrier moves *)
    assert (Hd : leads 0 0 s caps (service_deactivate_client h (set_manager m s))).
    { unfold service_deactivate_client, changing, deactivate_client. cbn [manager set_manager]. rewrite Hlm, Ha.
      cbn [only_if]. eapply request_done; [|done..].
      replace (modify h id (with_active false) m) with (modify h (with_pos v) (with_active false) (manager s)).
      2: { subst m. unfold modify, with_clients. cbn. by rewrite alter_alter_eq. }
      replace (set_manager _ (set_manager m s)) with (set_manager (modify h (with_pos v) (with_active false) (manager s)) s) by done.
      apply good_drop; auto.
      - apply switch_table; [done|]. apply Hs.
      - by eapply lookup_handle.
      - intros. by apply switch_other.
      - by rewrite (switch_route _ _ _ _ _ _ Hl). }
    destruct Hd as (s1 & e1 & E1 & G1 & N1 & K1).
    destruct (fits_activate h s1 _ G1) as (s2 & e2 & E2 & G2 & N2 & K2); [lia..|].
    exists s2, (e1 ++ e2). rewrite (seq_eq _ _ _ _ _ _ _ E1 E2), replay_app. split; [done|]. split; [done|]. lia.
  - exists (set_manager m s), []. split; [done|]. split; [|cbn; lia]. cbn. apply good_same_routes; [done| |].
    + subst m. destruct (g_table _ _ Hs) as [Hh Hnx Hf Hi]. split; cbn; [|done| |].
      * intros h' cs. rewrite lookup_alter_Some. naive_solver.
      * intros h' Hsome%Hf. destruct (decide (h = h')) as [->|?];
          [by rewrite lookup_alter_eq, fmap_is_Some|by rewrite lookup_alter_ne].
      * intros h' cs [(-> & [c' st'] & Hl' & ->)|[_ Hl']]%lookup_alter_Some; by apply Hi in Hl'.
    + intros h'. destruct (decide (h' = h)) as [->|Hne].
      * unfold route_of, route. rewrite Hlm, Hl. cbn. by rewrite Ha.
      * subst m. unfold route_of, modify, with_clients. cbn [clients]. by rewrite lookup_alter_ne by congruence.
Qed.
Hint Resolve fits_remove fits_update_pos : clients.

(** ** New clients *)

(** The table with one more client. *)
Definition grown (m m' : ClientManager) (h : Z) (cs : ClientConfig * ClientState) : Prop :=
  h = next_handle m /\ next_handle m < ENTER_HANDLE_BEGIN /\ next_handle m' = next_handle m + 1
  /\ clients m' = <[h := cs]> (clients m)
  /\ forall h', is_Some (peer_fingerprints m' !! h') -> h' = h \/ is_Some (peer_fingerprints m !! h').

Lemma grown_table m m' h cs : table_ok m -> grown m m' h cs -> ips_ok cs -> table_ok m'.
Proof.
  intros [Hh Hn Hf Hi] (-> & Hlt & Hn' & Hc & Hf') Hcs. split.
  - intros h' cs'. rewrite Hc, Hn'. intros [[<- _]|[_ Hl%Hh]]%lookup_insert_Some; lia.
  - lia.
  - intros h'. rewrite Hc. intros [->|Hs%Hf]%Hf'; [rewrite lookup_insert_eq; by eexists|].
    destruct (decide (next_handle m = h')) as [->|]; [rewrite lookup_insert_eq; by eexists|by rewrite lookup_insert_ne].
  - intros h' cs'. rewrite Hc. intros [[_ <-]|[_ Hl]]%lookup_insert_Some; [done|by eapply Hi].
Qed.
Lemma next_unused m : table_ok m -> clients m !! next_handle m = None.
Proof.
  intros Ht. destruct (clients m !! next_handle m) eqn:E; [|done]. apply (to_handles _ Ht) in E. lia.
Qed.
Lemma grown_route m m' h cs h' :
  table_ok m -> grown m m' h cs -> route cs = None -> route_of m' h' = route_of m h'.
Proof.
  intros Ht (-> & _ & _ & Hc & _) Hr. unfold route_of. rewrite Hc.
  destruct (decide (h' = next_handle m)) as [->|Hne].
  - by rewrite lookup_insert_eq, (next_unused m Ht).
  - by rewrite lookup_insert_ne.
Qed.

Lemma add_client_grown m :
  next_handle m < ENTER_HANDLE_BEGIN ->
  exists m', add_client m = Some (next_handle m, m') /\ grown m m' (next_handle m) (default_config, default_state).
Proof.
  intros Hlt. unfold add_client. rewrite (proj2 (Z.leb_gt _ _)) by lia. eexists. split; [reflexivity|].
  split_and!; try done. by right.
Qed.

(** What a client of the configuration becomes. *)
Definition config_of (c : ConfigClient) : ClientConfig :=
  {| hostname := cc_hostname c; fix_ips := hash_order (elements (cc_ips c));
     port := cc_port c; pos := cc_pos c; cmd := cc_enter_hook c |}.
Definition state_of (c : ConfigClient) : ClientState :=
  with_active (cc_active c) (with_ips (list_to_set (fix_ips (config_of c))) default_state).

Lemma add_with_config_spec c m :
  next_handle m < ENTER_HANDLE_BEGIN ->
  exists m', add_with_config c m = Some (next_handle m, m')
  /\ grown m m' (next_handle m) (config_of c, state_of c)
  /\ peer_fingerprints m' = match cc_peer_fingerprint c with
                            | Some f => <[next_handle m := f]> (peer_fingerprints m)
                            | None => peer_fingerprints m
                            end.
Proof.
  intros Hlt. unfold add_with_config. unfold add_client at 1. rewrite (proj2 (Z.leb_gt _ _)) by lia. cbn.
  eexists. split; [reflexivity|].
  assert (Hin : forall m1 f, clients m1 !! next_handle m = Some f ->
    forall fp, set_peer_fingerprint (next_handle m) fp m1
    = Build_ClientManager (clients m1) (next_handle m1) (<[next_handle m := fp]> (peer_fingerprints m1))).
  { intros m1 f Hl fp. unfold set_peer_fingerprint, contains_client. rewrite bool_decide_true; [done|by rewrite Hl]. }
  assert (Halter : alter (fun cs => (cs.1, state_of c)) (next_handle m)
            (alter (fun cs => (config_of c, cs.2)) (next_handle m)
               (<[next_handle m := (default_config, default_state)]> (clients m)))
          = <[next_handle m := (config_of c, state_of c)]> (clients m)).
  { rewrite alter_alter_eq, alter_insert_eq. done. }
  destruct (cc_peer_fingerprint c) as [fp|].
  - erewrite Hin by (cbn; by rewrite !lookup_alter_eq, lookup_insert_eq). cbn. split; [|done].
    split_and!; try done. intros h'. cbn. destruct (decide (next_handle m = h')) as [->|]; [by left|].
    rewrite lookup_insert_ne by done. by right.
  - split; [|done]. split_and!; try done. by right.
Qed.

Lemma announce_leads h s caps :
  good s caps -> is_Some (clients (manager s) !! h) -> leads 0 0 s caps (announce h s).
Proof.
  intros Hs [[c st] Hl]. unfold announce. rewrite Hl. cbn. by apply (fits_say (Notify (Created h c st)) ltac:(done)); [|pose proof (to_next _ (g_table _ _ Hs)); lia|pose proof (in_next _ (g_incoming _ _ Hs)); lia].
Qed.

(** A new client that has no edge yet. *)
Lemma new_client_leads add f s caps m h cs :
  good s caps -> add (manager s) = Some (h, m) -> grown (manager s) m h cs -> ips_ok cs -> route cs = None ->
  (good (set_manager m s) caps -> clients m !! h = Some cs -> leads 0 0 (set_manager m s) caps (f h (set_manager m s))) ->
  leads 1 0 s caps (with_new_client add f s).
Proof.
  intros Hs Ha Hg Hi Hr Hf. unfold with_new_client. rewrite Ha. cbn [mbind option_bind].
  pose proof Hg as (_ & _ & Hn & Hc & _).
  destruct Hf as (s' & es & E & G & N & K).
  - apply good_same_routes; [done|by eapply grown_table; [apply Hs| |]|].
    intros h'. by eapply grown_route; [apply Hs| |].
  - rewrite Hc. apply lookup_insert_eq.
  - cbn in N, K. exists s', es. split; [exact E|]. split; [done|]. lia.
Qed.

Lemma fits_add_client : fits 1 0 service_add_client.
Proof.
  intros s caps Hs Hn _. destruct (add_client_grown (manager s)) as (m & E & Hg); [lia|].
  eapply new_client_leads; [done|exact E|exact Hg|done..|]. intros G Hl. apply announce_leads; [done|]. cbn. rewrite Hl. by eexists.
Qed.

Lemma alter_is_Some {A} (f : A -> A) (m : gmap Z A) h h' : is_Some (m !! h') -> is_Some (alter f h m !! h').
Proof.
  intros Hs. destruct (decide (h = h')) as [->|Hne];
    [by rewrite lookup_alter_eq, fmap_is_Some|by rewrite lookup_alter_ne].
Qed.
Lemma fits_add_discovered addresses p : fits 1 0 (add_discovered_client addresses p).
Proof.
  apply fits_read. intros s0. case_match; [eapply fits_more; [..|apply fits_nop]; lia|].
  case_match; [eapply fits_more; [..|apply fits_nop]; lia|].
  intros s caps Hs Hn Hk. destruct (add_client_grown (manager s)) as (m & E & Hg); [lia|].
  eapply new_client_leads; [done|exact E|exact Hg|done..|]. intros G Hl.
  pose proof Hg as (_ & Hlt & Hnext & _).
  apply leads_seq; [by apply (fits_change _ (mild_set_fix_ips _ addresses)); [|cbn; lia|cbn; lia]|].
  intros s1 e1 [= <- <-] G1.
  apply leads_seq; [by apply (fits_change _ (mild_set_port _ p)); [|cbn; lia|cbn; lia]|].
  intros s2 e2 [= <- <-] G2. apply announce_leads; [done|]. cbn.
  assert (Hsome : is_Some (clients (set_fix_ips (next_handle (manager s)) addresses m) !! next_handle (manager s))).
  { unfold set_fix_ips, update_ips, modify, with_clients. cbn.
    apply alter_is_Some, alter_is_Some. rewrite Hl. by eexists. }
  unfold set_port. destruct Hsome as [[c st] E']. rewrite E'.
  destruct (port c =? p); [rewrite E'; by eexists|].
  unfold modify, with_clients. cbn [clients]. apply alter_is_Some. rewrite E'. by eexists.
Qed.

Lemma fits_reload c : fits 1 0 (reload_client c).
Proof.
  intros s caps Hs Hn Hk. destruct (add_with_config_spec c (manager s)) as (m & E & Hg & _); [lia|].
  pose proof Hg as (_ & Hlt & Hnext & Hc & Hfp).
  assert (Hips : ips_ok (config_of c, state_of c)).
  { unfold ips_ok. cbn. by rewrite app_nil_r. }
  unfold reload_client. destruct (cc_active c) eqn:Hact.
  - (* without its edge first *)
    set (h := next_handle (manager s)) in *.
    set (m1 := modify h id (with_active false) m).
    assert (Hg1 : grown (manager s) m1 h (config_of c, with_active false (state_of c))).
    { split_and!; try done. subst m1. unfold modify, with_clients. cbn. rewrite Hc, alter_insert_eq. done. }
    assert (G1 : good (set_manager m1 s) caps).
    { apply good_same_routes; [done|eapply grown_table; [apply Hs|done|]; unfold ips_ok; cbn; by rewrite app_nil_r|].
      intros h'. by eapply grown_route; [apply Hs|done|]. }
    assert (Hl : clients m !! h = Some (config_of c, state_of c)) by (rewrite Hc; apply lookup_insert_eq).
    unfold with_new_client. rewrite E. cbn [mbind option_bind]. cbn [manager set_manager]. rewrite Hl.
    cbn [mbind option_bind]. assert (active (state_of c) = true) as -> by done. cbn [only_if].
    destruct (fits_activate h (set_manager m1 s) caps G1) as (s2 & e2 & E2 & G2 & N2 & K2); [cbn; lia..|].
    exists s2, (e2 ++ [Notify (Created h (config_of c) (state_of c))]).
    unfold seq, change, say. cbn [mbind option_bind]. cbn [manager set_manager].
    unfold deactivate_client. rewrite Hl. assert (active (state_of c) = true) as -> by done. cbn [fst mbind option_bind].
    replace (set_manager _ (set_manager m s)) with (set_manager m1 s) by done. rewrite E2. cbn.
    rewrite replay_app. cbn in *. split; [done|]. split; [done|]. lia.
  - eapply new_client_leads; [done|exact E|exact Hg|done|unfold route; cbn; by rewrite Hact|].
    intros G Hl. cbn [manager set_manager]. rewrite Hl. cbn [mbind option_bind].
    assert (active (state_of c) = false) as -> by done. cbn [only_if]. apply leads_seq_nop.
    by apply (fits_say (Notify (Created (next_handle (manager s)) (config_of c) (state_of c))) ltac:(done)); [|cbn; lia..].
Qed.

(** ** Incoming devices *)

Lemma find_incoming_Some s addr h i :
  find_incoming s addr = Some (h, i) -> incoming_conn_info s !! h = Some i /\ in_addr i = addr.
Proof.
  unfold find_incoming. intros [Hin Hb]%List.find_some. apply bool_decide_eq_true in Hb. split; [|done].
  apply list_elem_of_In in Hin. by rewrite elem_of_hash_order, elem_of_map_to_list in Hin.
Qed.
Lemma find_incoming_None s addr h i :
  find_incoming s addr = None -> incoming_conn_info s !! h = Some i -> in_addr i <> addr.
Proof.
  unfold find_incoming. intros Hn Hl Ha. rewrite <- elem_of_map_to_list, <- elem_of_hash_order in Hl.
  apply list_elem_of_In in Hl. pose proof (List.find_none _ _ Hn _ Hl) as Hb. cbn in Hb.
  by rewrite bool_decide_true in Hb.
Qed.

(** Handles of incoming devices are not handles of clients. *)
Lemma incoming_not_client s caps h : good s caps -> ENTER_HANDLE_BEGIN <= h -> route_of (manager s) h = None.
Proof.
  intros Hs Hh. unfold route_of. destruct (clients (manager s) !! h) eqn:E; [|done].
  pose proof (lookup_handle _ _ _ _ Hs E). pose proof (to_next _ (g_table _ _ Hs)). lia.
Qed.

Lemma add_incoming_leads addr p fp s caps :
  good s caps -> addr ∉ incoming_conns s -> next_trigger_handle s + 1 <= ENTER_HANDLE_BEGIN ->
  leads 0 1 s caps (add_incoming addr p fp s).
Proof.
  intros Hs Hnew Hk. unfold add_incoming. set (h := ENTER_HANDLE_BEGIN + next_trigger_handle s).
  pose proof Hs as [Ht He [Hih Hin Hio Hic] Hc].
  assert (Hmax : u64_max = ENTER_HANDLE_BEGIN + (ENTER_HANDLE_BEGIN - 1)) by reflexivity.
  rewrite (proj2 (Z.ltb_ge _ _)) by lia.
  assert (Hfresh : incoming_conn_info s !! h = None).
  { destruct (incoming_conn_info s !! h) eqn:E; [|done]. apply Hih in E. lia. }
  do 2 eexists. split; [reflexivity|]. split; [|cbn; lia]. split; [done|done| |].
  - split; cbn.
    + intros h' i [[<- _]|[_ Hl%Hih]]%lookup_insert_Some; lia.
    + lia.
    + intros h1 i1 h2 i2. rewrite !lookup_insert_Some.
      intros [[<- <-]|[Hne1 H1]] [[<- <-]|[Hne2 H2]]; cbn; try done; [..|by eapply Hio].
      * intros Ha. destruct Hnew. apply Hic. by exists h2, i2.
      * intros Ha. destruct Hnew. apply Hic. by exists h1, i1.
    + intros a. rewrite elem_of_union, elem_of_singleton, Hic. split.
      * intros [->|(h' & i & Hl & Ha)]; [exists h, (Build_Incoming fp addr p); by rewrite lookup_insert_eq|].
        exists h', i. rewrite lookup_insert_ne; [done|]. congruence.
      * intros (h' & i & [[<- <-]|[_ Hl]]%lookup_insert_Some & Ha); [by left|]. right. by exists h', i.
  - assert (Hnone : route_of (manager s) h = None) by (eapply incoming_not_client; [done|]; lia).
    cbn. eapply captures_add; [exact Hc|..]; unfold wanted; cbn.
    + intros h' p' k' Hne. by rewrite lookup_insert_ne.
    + intros p' k'. rewrite Hnone, Hfresh. by destruct k'.
    + intros p' k'. rewrite Hnone, lookup_insert_eq. destruct k'; cbn; naive_solver.
Qed.

(** The entry of an address is forgotten, whatever its place was meanwhile. *)
Lemma good_forget s caps h i info :
  good s caps -> incoming_conn_info s !! h = Some i -> delete h info = delete h (incoming_conn_info s) ->
  good (set_incoming (incoming_conns s ∖ {[in_addr i]}) (delete h info) (next_trigger_handle s) s)
    (List.filter (fun c => negb (c.1.1 =? h)) caps).
Proof.
  intros Hs Hl ->. pose proof Hs as [Ht He [Hih Hin Hio Hic] Hc]. split; [done|done| |].
  - split; cbn; [|done| |].
    + intros h' i' [_ Hl']%lookup_delete_Some. by eapply Hih.
    + intros h1 i1 h2 i2 [_ H1]%lookup_delete_Some [_ H2]%lookup_delete_Some. by eapply Hio.
    + intros a. rewrite elem_of_difference, elem_of_singleton, Hic. split.
      * intros [(h' & i' & Hl' & Ha) Hne]. exists h', i'. rewrite lookup_delete_ne; [done|]. congruence.
      * intros (h' & i' & [Hne Hl']%lookup_delete_Some & Ha). split; [by exists h', i'|].
        intros ->. apply Hne. by eapply Hio.
  - assert (Hnone : route_of (manager s) h = None) by (eapply incoming_not_client; [done|]; apply Hih in Hl; lia).
    eapply captures_drop; [exact Hc|..]; unfold wanted; cbn.
    + intros h' p' k' Hne. by rewrite lookup_delete_ne.
    + intros p' k'. rewrite Hnone, lookup_delete_eq. by destruct k'.
Qed.

Lemma fits_remove_incoming addr gone :
  (gone = nop \/ exists e, gone = say e /\ silent e) -> fits 0 0 (remove_incoming addr gone).
Proof.
  intros Hgone s caps Hs Hn Hk. unfold remove_incoming.
  destruct (find_incoming s addr) as [[h i]|] eqn:Hf; [|by apply leads_nop].
  apply find_incoming_Some in Hf as [Hl <-].
  pose proof (good_forget s caps h i _ Hs Hl eq_refl) as G.
  destruct Hgone as [->|(e & -> & He)]; do 2 eexists; (split; [reflexivity|]); split; try (cbn; lia).
  - exact G.
  - unfold replay. cbn. by rewrite He.
Qed.

Lemma update_incoming_leads addr p fp s caps :
  good s caps -> addr ∈ incoming_conns s -> next_trigger_handle s + 1 <= ENTER_HANDLE_BEGIN ->
  leads 0 1 s caps (update_incoming addr p fp s).
Proof.
  intros Hs Hin Hk. unfold update_incoming. pose proof (g_incoming _ _ Hs) as Hi.
  destruct (find_incoming s addr) as [[h i]|] eqn:Hf.
  2: { apply (in_conns _ Hi) in Hin as (h & i & Hl & Ha). by eapply find_incoming_None in Hf. }
  apply find_incoming_Some in Hf as [Hl <-]. cbn [mbind option_bind]. cbv zeta.
  set (s1 := set_incoming _ _ _ _).
  destruct (negb _ || negb _) eqn:Hch; cbn [only_if].
  - (* the barrier moves: the old entry goes, a new one comes *)
    assert (Hf1 : find_incoming s1 (in_addr i) = Some (h, Build_Incoming fp (in_addr i) p)).
    { destruct (find_incoming s1 (in_addr i)) as [[h' i']|] eqn:Hf1.
      - apply find_incoming_Some in Hf1 as [Hl1 Ha1]. cbn in Hl1.
        apply lookup_insert_Some in Hl1 as [[<- <-]|[Hne Hl1]]; [done|].
        destruct Hne. by eapply (in_once _ Hi).
      - by destruct (find_incoming_None s1 (in_addr i) h (Build_Incoming fp (in_addr i) p) Hf1
            (lookup_insert_eq _ _ _)). }
    set (s2 := set_incoming (incoming_conns s ∖ {[in_addr i]}) (delete h (incoming_conn_info s)) (next_trigger_handle s) s).
    assert (E2 : remove_incoming (in_addr i) nop s1 = Some (s2, [ToCapture (Capture.Destroy h)])).
    { unfold remove_incoming. rewrite Hf1. unfold seq, say, nop. cbn. f_equal. f_equal.
      unfold s2, set_incoming. cbn. by rewrite delete_insert_eq. }
    assert (G2 : good s2 (replay caps [ToCapture (Capture.Destroy h)])) by by eapply good_forget.
    destruct (add_incoming_leads (in_addr i) p fp s2 _ G2) as (s3 & e3 & E3 & G3 & N3 & K3); [cbn; set_solver|done|].
    do 2 eexists. split; [unfold seq at 1; rewrite E2; cbn [mbind option_bind]; unfold seq; rewrite E3; reflexivity|].
    split; [|cbn in *; lia]. rewrite replay_app. cbn in *. by rewrite replay_app.
  - apply orb_false_iff in Hch as [H1%negb_false_iff%bool_decide_eq_true H2%negb_false_iff%bool_decide_eq_true].
    assert (s1 = s) as ->.
    { unfold s1, set_incoming. replace (Build_Incoming fp (in_addr i) p) with i by (destruct i; cbn in *; congruence).
      rewrite insert_id by done. by destruct s. }
    exists s, []. split; [done|]. split; [done|]. lia.
Qed.

(** ** Requests and events *)

Lemma fits_update_hostname h v : fits 0 0 (update_hostname h v).
Proof.
  apply fits_then; [|apply fits_broadcast].
  apply changing_fits; [lia..|apply mild_set_hostname|apply fits_resolve].
Qed.
Lemma fits_resolver_event e : fits 0 0 (handle_resolver_event e).
Proof. destruct e; cbn; unfold set_resolving; auto 10 with clients. Qed.
Lemma fits_reenable : fits 0 0 reenable_missing_backends.
Proof. apply fits_read. intros s. apply fits_then; apply fits_only_if; auto with clients lia. Qed.
(** Settings are none of the invariant's business. *)
Lemma fits_settings f : fits 0 0 (fun s => Some (set_settings (f s).1.1 (f s).1.2 (f s).2 s, [])).
Proof.
  intros s caps Hs _ _. exists (set_settings (f s).1.1 (f s).1.2 (f s).2 s), [].
  split; [done|]. split; [by destruct Hs as [? ? [] ?]|cbn; lia].
Qed.
Lemma fits_set_input_sharing enabled : fits 0 0 (set_input_sharing enabled).
Proof.
  apply fits_then; [apply (fits_settings (fun s => (capture_status s, emulation_status s, enabled)))|].
  repeat apply fits_then; auto with clients. apply fits_only_if; [lia..|apply fits_reenable].
Qed.
Lemma fits_capture_status status : fits 0 0 (capture_status_changed status).
Proof.
  apply fits_then; [apply (fits_settings (fun s => (status, emulation_status s, input_sharing s)))|].
  repeat apply fits_then; auto with clients. apply fits_only_if; [lia..|auto with clients].
Qed.
Lemma fits_emulation_status status : fits 0 0 (emulation_status_changed status).
Proof.
  apply fits_then; [apply (fits_settings (fun s => (capture_status s, status, input_sharing s)))|].
  apply fits_then; auto with clients. apply fits_only_if; [lia..|auto with clients].
Qed.
Hint Resolve fits_update_hostname fits_resolver_event fits_reenable fits_set_input_sharing : clients.

Lemma fits_client_request r : fits 1 0 (handle_client_request r).
Proof.
  assert (Hless : forall a, fits 0 0 a -> fits 1 0 a) by (intros a; by apply fits_more).
  destruct r; cbn; unfold update_fix_ips, update_port, update_enter_hook, set_enter_hook, set_client_active;
    try (apply Hless; solve [auto 10 with clients]).
  - apply Hless, fits_then; [by destruct active; auto with clients|]. apply fits_then; [|auto with clients].
    apply fits_read. intros s. apply fits_only_if; auto with clients lia.
  - apply fits_more_then; [apply fits_add_client|auto with clients].
  - apply fits_more_then; [apply fits_add_discovered|auto with clients].
Qed.

Lemma fits_config_change new bind : fits (len new) 0 (handle_config_change new bind).
Proof.
  unfold handle_config_change. pose proof (len_nonneg new) as Hlen. apply fits_then_more; [lia..| |].
  - apply fits_read. intros s. apply (fits_each 0); [lia|apply fits_remove].
  - apply fits_more_then; [|auto with clients].
    replace (len new) with (1 * len new) by lia. apply fits_each; [lia|apply fits_reload].
Qed.

Lemma fits_entered addr p fp first relayed along :
  fits 0 1 (handle_entered addr_text addr p fp first relayed along).
Proof.
  intros s caps Hs Hn Hk. unfold handle_entered, read.
  destruct (negb (input_sharing s)).
  { by apply (fits_more 0 0 0 1 _ ltac:(lia) ltac:(lia) (fits_say (SendLeave addr) ltac:(done))). }
  match goal with |- leads _ _ _ _ ((?a >>> ?b >>> ?c) _) =>
    assert (Ha : exists ea, a s = Some (s, ea) /\ replay caps ea = caps) by (eexists; split; reflexivity);
    assert (Hb : exists eb, b s = Some (s, eb) /\ replay caps eb = caps) by (destruct first; eexists; split; reflexivity);
    assert (Hc : leads 0 1 s caps (c s)) end.
  { case_bool_decide as Hin; [by apply update_incoming_leads|].
    destruct (add_incoming_leads addr p fp s caps Hs Hin Hk) as (s1 & e1 & E1 & G1 & R1).
    eexists s1, _. split; [eapply seq_eq; [exact E1|reflexivity]|]. split; [|done]. by rewrite replay_app. }
  destruct Ha as (ea & Ea & Ra), Hb as (eb & Eb & Rb), Hc as (s1 & e1 & E1 & G1 & R1).
  eexists s1, _. split; [eapply seq_eq; [exact Ea|eapply seq_eq; [exact Eb|exact E1]]|].
  split; [|done]. by rewrite !replay_app, Ra, Rb.
Qed.
Lemma fits_disconnected addr : fits 0 0 (handle_disconnected addr).
Proof. apply fits_then; [auto with clients|]. apply fits_remove_incoming. right. by eexists. Qed.

(** Round trips of less than a quarter of an hour. *)
Definition calm s : Prop :=
  (forall h v, shown_round_trips s !! h = Some v -> 0 <= v < 2 ^ 30)
  /\ (forall h cs v, clients (manager s) !! h = Some cs -> round_trip_us cs.2 = Some v -> 0 <= v < 2 ^ 30).

Lemma round_trip_moved_calm shown current :
  (forall v, shown = Some v -> 0 <= v < 2 ^ 30) -> (forall v, current = Some v -> 0 <= v < 2 ^ 30) ->
  exists b, round_trip_moved shown current = Some b.
Proof.
  intros Hs Hc. unfold round_trip_moved. destruct shown as [a|], current as [b|]; eauto.
  specialize (Hs a eq_refl). specialize (Hc b eq_refl). destruct (_ <? 500); eauto.
  rewrite (proj2 (Z.ltb_ge _ _)); eauto. unfold u32_max. lia.
Qed.
Lemma publish_round_trips_leads l : forall s caps,
  good s caps -> calm s -> leads 0 0 s caps (each publish_round_trip l s).
Proof.
  induction l as [|h l IH]; intros s caps Hs Hcalm; [by apply leads_nop|]. cbn [each].
  set (current := cs ← clients (manager s) !! h; round_trip_us cs.2).
  assert (Hcur : forall v, current = Some v -> 0 <= v < 2 ^ 30).
  { intros v. unfold current. destruct (clients (manager s) !! h) as [cs|] eqn:E; [|done]. cbn.
    by eapply (proj2 Hcalm). }
  destruct (round_trip_moved_calm (shown_round_trips s !! h) current) as [b Hb]; [apply Hcalm|exact Hcur|].
  assert (Hone : exists s1 e1, publish_round_trip h s = Some (s1, e1) /\ good s1 (replay caps e1) /\ calm s1
    /\ manager s1 = manager s /\ next_trigger_handle s1 = next_trigger_handle s).
  { unfold publish_round_trip. fold current. rewrite Hb. cbn. destruct b; [|by exists s, []].
    do 2 eexists. split; [reflexivity|]. split; [by destruct Hs as [? ? [] ?]|]. split; [|done].
    split; [|apply Hcalm]. cbn. intros h' v. destruct current as [c|].
    - intros [[_ <-]|[_ Hl]]%lookup_insert_Some; [by apply Hcur|by eapply (proj1 Hcalm)].
    - intros [_ Hl]%lookup_delete_Some. by eapply (proj1 Hcalm). }
  destruct Hone as (s1 & e1 & E1 & G1 & C1 & M1 & K1).
  destruct (IH s1 _ G1 C1) as (s2 & e2 & E2 & G2 & N2 & K2).
  exists s2, (e1 ++ e2). unfold seq. rewrite E1. cbn. rewrite E2. cbn. rewrite replay_app, <- M1, <- K1. done.
Qed.

(** The handles an event may take, of clients and of incoming devices. *)
Definition needs (e : ClientEvent) : Z * Z :=
  match e with
  | FromFrontend _ => (1, 0)
  | ConfigChanged new _ => (len new, 0)
  | Entered _ _ _ _ _ _ => (0, 1)
  | _ => (0, 0)
  end.
Definition room s (e : ClientEvent) : Prop :=
  next_handle (manager s) + (needs e).1 <= ENTER_HANDLE_BEGIN
  /\ next_trigger_handle s + (needs e).2 <= ENTER_HANDLE_BEGIN
  /\ (e = PublishRoundTrips -> calm s).

Lemma event_leads e s caps :
  good s caps -> room s e -> leads (needs e).1 (needs e).2 s caps (handle_client_event addr_text e s).
Proof.
  intros Hs (Hn & Hk & Hc). destruct e; cbn in *.
  - by apply fits_client_request.
  - by apply fits_resolver_event.
  - by apply fits_config_change.
  - by apply fits_entered.
  - by apply fits_disconnected.
  - by apply (fits_change _ (mild_live_change x)).
  - by apply fits_capture_status.
  - by apply fits_emulation_status.
  - apply publish_round_trips_leads; auto.
Qed.

(** ** Loading and saving the configuration *)

Lemma client_states_grown m m' h cs :
  table_ok m -> grown m m' h cs -> get_client_states m' = get_client_states m ++ [(h, cs)].
Proof.
  intros Ht (-> & _ & _ & Hc & _). unfold get_client_states. rewrite Hc.
  assert (Hlt : forall e, e ∈ merge_sort handle_le (map_to_list (clients m)) -> e.1 < next_handle m).
  { intros [h' cs'] He. rewrite merge_sort_Permutation, elem_of_map_to_list in He. cbn.
    apply (to_handles _ Ht) in He. lia. }
  assert (Htotal : Total handle_le) by (intros a b; unfold handle_le; lia).
  assert (Htrans : Transitive handle_le) by (intros a b c; unfold handle_le; lia).
  apply (StronglySorted_unique_strong handle_le).
  - intros [h1 c1] [h2 c2] H1 H2 Hle1 Hle2. unfold handle_le in *. cbn in *.
    assert (h1 = h2) as -> by lia. f_equal.
    rewrite merge_sort_Permutation, elem_of_map_to_list in H1.
    rewrite merge_sort_Permutation in H2. rewrite elem_of_app, elem_of_map_to_list, list_elem_of_singleton in H2.
    destruct H2 as [H2|[= -> ->]].
    + rewrite lookup_insert_ne in H1; [congruence|]. apply (to_handles _ Ht) in H2. lia.
    + rewrite lookup_insert_eq in H1. congruence.
  - by apply (StronglySorted_merge_sort handle_le).
  - apply StronglySorted_app_2; [|by apply (StronglySorted_merge_sort handle_le)|by repeat constructor].
    intros a b Ha Hb%list_elem_of_singleton. subst b. unfold handle_le. cbn. apply Hlt in Ha. lia.
  - rewrite !merge_sort_Permutation, map_to_list_insert by by apply next_unused. by rewrite Permutation_app_comm.
Qed.

(** Loading a client adds it at the end of what would be saved. *)
Lemma load_client_saved c m :
  table_ok m -> next_handle m < ENTER_HANDLE_BEGIN ->
  exists h m', add_with_config c m = Some (h, m') /\ table_ok m' /\ next_handle m' = next_handle m + 1
  /\ saved_clients m' = saved_clients m ++ [c].
Proof.
  intros Ht Hlt. destruct (add_with_config_spec c m Hlt) as (m' & E & Hg & Hfp).
  exists (next_handle m), m'. split; [done|]. pose proof Hg as (_ & _ & Hn & Hc & _).
  split; [|split; [done|]].
  - eapply grown_table; [done..|]. unfold ips_ok. cbn. by rewrite app_nil_r.
  - unfold saved_clients. rewrite (client_states_grown _ _ _ _ Ht Hg), fmap_app. f_equal.
    + apply list_fmap_ext. intros n [h [cf st]] Hl. unfold config_client. f_equal.
      apply list_elem_of_lookup_2, elem_of_client_states, (to_handles _ Ht) in Hl.
      rewrite Hfp. destruct (cc_peer_fingerprint c); [|done]. rewrite lookup_insert_ne; [done|lia].
    + cbn. f_equal. destruct c as [cips chost cport cpos cact chook cfp]. cbn in *. f_equal.
      * apply set_eq. intros a. by rewrite elem_of_list_to_set, elem_of_hash_order, elem_of_elements.
      * rewrite Hfp. destruct cfp; [by rewrite lookup_insert_eq|].
        destruct (peer_fingerprints m !! next_handle m) eqn:Ef; [|done].
        destruct (to_fingerprints _ Ht (next_handle m)) as [cs Hcs]; [by eexists|].
        by rewrite next_unused in Hcs.
Qed.
Lemma load_saved l : forall m,
  table_ok m -> next_handle m + len l <= ENTER_HANDLE_BEGIN ->
  exists m', load_clients l m = Some m' /\ table_ok m' /\ saved_clients m' = saved_clients m ++ l.
Proof.
  induction l as [|c l IH]; intros m Ht Hroom.
  - exists m. by rewrite app_nil_r.
  - rewrite len_cons in Hroom. pose proof (len_nonneg l).
    destruct (load_client_saved c m Ht) as (h & m1 & E & Ht1 & Hn1 & Hs1); [lia|].
    destruct (IH m1 Ht1) as (m2 & E2 & Ht2 & Hs2); [lia|]. exists m2. cbn. rewrite E. cbn.
    split; [done|]. split; [done|]. rewrite Hs2, Hs1, <- app_assoc. done.
Qed.
Lemma new_manager_ok : table_ok new_manager.
Proof. split; cbn; [intros h cs; by rewrite lookup_empty|done|intros h; rewrite lookup_empty; by intros [? ?]|intros h cs; by rewrite lookup_empty]. Qed.

(** ** Start *)

Lemma publish_peer_sides_silent s :
  exists es, publish_peer_sides s = Some (s, es) /\ forall caps, replay caps es = caps.
Proof.
  unfold publish_peer_sides, publish_peer_availability, seq, read.
  destruct (peer_sides (manager s)) as [sides beyond]. cbn. by eexists.
Qed.

Definition switch_off (m : ClientManager) (h : Z) : ClientManager := fst (deactivate_client h m).
Lemma each_switch_off l : forall s,
  each (fun h => change (fun m => fst (deactivate_client h m))) l s
  = Some (set_manager (foldl switch_off (manager s) l) s, []).
Proof.
  induction l as [|h l IH]; intros s; cbn [each foldl].
  - by rewrite set_manager_same.
  - unfold seq at 1, change at 1. cbn. rewrite IH. done.
Qed.
Lemma switch_off_spec h m :
  table_ok m -> table_ok (switch_off m h) /\ next_handle (switch_off m h) = next_handle m
  /\ route_of (switch_off m h) h = None
  /\ forall h', route_of m h' = None -> route_of (switch_off m h) h' = None.
Proof.
  intros Ht. unfold switch_off, deactivate_client. destruct (clients m !! h) as [[c st]|] eqn:E; cbn [fst].
  - destruct (active st) eqn:Ea; cbn [fst].
    + split; [by apply switch_table|]. split; [done|]. split; [by rewrite (switch_route _ _ _ _ _ _ E)|].
      intros h' Hr. destruct (decide (h' = h)) as [->|]; [by rewrite (switch_route _ _ _ _ _ _ E)|].
      by rewrite switch_other.
    + split; [done|]. split; [done|]. split; [|done]. unfold route_of, route. rewrite E. cbn. by rewrite Ea.
  - split; [done|]. split; [done|]. split; [|done]. unfold route_of. by rewrite E.
Qed.
Lemma switch_off_all l : forall m,
  table_ok m -> table_ok (foldl switch_off m l) /\ next_handle (foldl switch_off m l) = next_handle m
  /\ forall h, h ∈ l \/ route_of m h = None -> route_of (foldl switch_off m l) h = None.
Proof.
  induction l as [|x l IH]; intros m Ht; cbn [foldl].
  - split; [done|]. split; [done|]. intros h [[]%not_elem_of_nil|?]; done.
  - destruct (switch_off_spec x m Ht) as (Ht1 & Hn1 & Hx & Hr). destruct (IH _ Ht1) as (Ht2 & Hn2 & Hr2).
    split; [done|]. split; [congruence|]. intros h [[->|Hin]%elem_of_cons|Hnone]; apply Hr2; auto.
Qed.
Lemma active_clients_routes m h : h ∈ active_clients m \/ route_of m h = None.
Proof.
  unfold route_of. destruct (clients m !! h) as [[c st]|] eqn:E; [|by right]. unfold route. cbn.
  destruct (active st) eqn:Ea; [left|by right]. unfold active_clients. apply list_elem_of_fmap.
  exists (h, (c, st)). split; [done|]. apply list_elem_of_In, filter_In. split; [|done].
  by apply list_elem_of_In, elem_of_client_states.
Qed.

Lemma good_idle m sharing :
  table_ok m -> (forall h, route_of m h = None) -> good (new_service m sharing) [].
Proof.
  intros Ht Hr. split; [done| | |]; cbn.
  - intros h h' p. by rewrite Hr.
  - split; cbn; [intros h i; by rewrite lookup_empty|done|intros h i h' i'; by rewrite lookup_empty|].
    intros a. split; [set_solver|]. intros (h & i & Hl & _). by rewrite lookup_empty in Hl.
  - split; [constructor|]. intros h p k. split; [by intros []%not_elem_of_nil|].
    unfold wanted. cbn. rewrite Hr, lookup_empty. by destruct k.
Qed.

Lemma start_leads m sharing :
  table_ok m -> leads 0 0 (new_service m sharing) [] (start_clients (new_service m sharing)).
Proof.
  intros Ht. set (s := new_service m sharing). unfold start_clients.
  destruct (publish_peer_sides_silent s) as (es & Ep & Hes).
  destruct (switch_off_all (active_clients m) m Ht) as (Ht1 & Hn1 & Hr1).
  set (m1 := foldl switch_off m (active_clients m)) in *.
  assert (Hg : good (set_manager m1 s) []).
  { apply (good_idle m1 sharing Ht1). intros h. apply Hr1, active_clients_routes. }
  assert (Hf : fits 0 0 (each service_activate_client (active_clients m))).
  { apply (fits_each 0); [done|]. apply fits_activate. }
  pose proof (to_next _ Ht1). destruct (Hf _ _ Hg) as (s2 & e2 & E2 & G2 & N2 & K2); [cbn; lia..|].
  exists s2, (es ++ e2). rewrite replay_app, Hes. split; [|split; [done|cbn in *; lia]].
  erewrite seq_eq; [done|exact Ep|]. unfold read. erewrite (seq_eq _ _ _ _ []); [done|apply each_switch_off|exact E2].
Qed.

(** ** Runs *)

(** From the clients of a configuration, through events that find handles left:
    the state, and everything done so far. *)
Inductive client_run (l : list ConfigClient) (sharing : bool) : ClientService -> list Effect -> Prop :=
| run_started m s es :
    load_clients l new_manager = Some m -> start_clients (new_service m sharing) = Some (s, es) ->
    client_run l sharing s es
| run_event s es e s' es' :
    client_run l sharing s es -> room s e -> handle_client_event addr_text e s = Some (s', es') ->
    client_run l sharing s' (es ++ es').

Lemma client_run_good l sharing s es :
  len l <= ENTER_HANDLE_BEGIN -> client_run l sharing s es -> good s (replay [] es).
Proof.
  intros Hl. induction 1 as [m s es Em Es|s es e s' es' _ IH Hroom E].
  - destruct (load_saved l new_manager new_manager_ok Hl) as (m' & Em' & Ht & _). rewrite Em' in Em.
    injection Em as ->. destruct (start_leads m sharing Ht) as (s' & es' & Es' & Hg & _). congruence.
  - destruct (event_leads e s _ IH Hroom) as (s1 & e1 & E1 & G1 & _). rewrite E in E1.
    injection E1 as <- <-. by rewrite replay_app.
Qed.
Lemma client_run_starts l sharing :
  len l <= ENTER_HANDLE_BEGIN -> exists s es, client_run l sharing s es.
Proof.
  intros Hl. destruct (load_saved l new_manager new_manager_ok Hl) as (m & Em & Ht & _).
  destruct (start_leads m sharing Ht) as (s & es & Es & _). exists s, es. by eapply run_started.
Qed.
End service.
