(* ===== verification/ClientBarriers.v ===== *)
(** * Clients: the barriers of the capture task

    The service and the capture task together: the task's configured captures
    are what the service asked for, so they are exactly the barriers of the
    active clients and of the devices that came in. *)

From S2P Require Import Prelude Wire ProtoTypes InputCapture Capture CaptureTheorems ClientManager ClientService ClientTheorems.

(** ** The requests between them *)

Definition is_barrier_request (r : CaptureRequest) : bool :=
  match r with Create _ _ _ | Destroy _ => true | _ => false end.
Definition barrier_request (r : CaptureRequest) : option CaptureRequest :=
  if is_barrier_request r then Some r else None.
(** What the service asked for. *)
Definition asked (es : list Effect) : list CaptureRequest :=
  omap (fun e => match e with ToCapture r => barrier_request r | _ => None end) es.
(** What the task was asked for, among whatever else it met. *)
Definition heard {W} (l : list (W * Stimulus)) : list CaptureRequest :=
  omap (fun x => match x.2 with Request r => barrier_request r | _ => None end) l.

Definition obey caps (r : CaptureRequest) := replay_one caps (ToCapture r).

Lemma replay_asked es : forall caps, replay caps es = foldl obey caps (asked es).
Proof.
  induction es as [|e es IH]; intros caps; [done|]. change (replay caps (e :: es)) with (replay (replay_one caps e) es).
  rewrite IH. destruct e as [|r| | | | | | | | | | | | |]; try done. by destruct r.
Qed.

(** ** What else the task does leaves its captures alone *)

Section frame.
Context {W : Type} `{!CaptureWorld W} `{!HashOrder}.
Implicit Types (s : Sys W).

Definition still {A} (m : M W A) : Prop := forall s, captures (task (m s).1) = captures (task s).

Lemma still_ret {A} (a : A) : still (mret a).
Proof. done. Qed.
Lemma still_bind {A B} (m : M W A) (f : A -> M W B) : still m -> (forall a, still (f a)) -> still (m ≫= f).
Proof.
  intros Hm Hf s. specialize (Hm s). unfold mbind, capture_bind. destruct (m s) as [s' [a|e|]]; cbn in *;
    [by rewrite Hf|done..].
Qed.
Lemma still_get_task : still get_task.
Proof. done. Qed.
Lemma still_get_input : still get_input.
Proof. done. Qed.
Lemma still_get_world : still get_world.
Proof. done. Qed.
Lemma still_update f : (forall t, captures (f t) = captures t) -> still (update f).
Proof. intros Hf s. apply Hf. Qed.
Lemma still_update_world f : still (update_world f).
Proof. done. Qed.
Lemma still_emit o : still (emit o).
Proof. done. Qed.
Lemma still_panic {A} : still (panic (A := A)).
Proof. done. Qed.
Lemma still_lift {A} (o : outcome A) : still (lift o).
Proof. done. Qed.
Lemma still_attempt {A} (m : M W A) : still m -> still (attempt m).
Proof. intros Hm s. specialize (Hm s). unfold attempt. by destruct (m s) as [s' []]. Qed.
Lemma still_on_input {A} (f : W -> InputCapture -> W * InputCapture * outcome A) : still (on_input f).
Proof. intros s. unfold on_input. by destruct (f _ _) as [[w c] o]. Qed.
Lemma still_send h event : still (send h event).
Proof. intros s. unfold send. by destruct (conn_send _ _ _). Qed.
Lemma still_for_each {A} (f : A -> M W unit) l : (forall a, still (f a)) -> still (for_each f l).
Proof. intros Hf. induction l as [|a l IH]; cbn [for_each]; [done|]. by apply still_bind. Qed.

Create HintDb frame discriminated.
Hint Resolve still_ret still_get_task still_get_input still_get_world still_update_world still_emit
  still_panic still_lift still_on_input still_send : frame.
Hint Extern 1 (still (update _)) => apply still_update; intros; reflexivity : frame.

Ltac frame := repeat first
  [ solve [auto with frame]
  | lazymatch goal with
    | |- forall _, _ => intros ?
    | |- still (_ ≫= _) => apply still_bind
    | |- still (attempt _) => apply still_attempt
    | |- still (for_each _ _) => apply still_for_each
    | |- still (when _ _) => unfold when
    | |- still (tell _) => unfold tell
    | |- still (take_input _) => unfold take_input
    | |- still (let _ := _ in _) => cbv zeta
    | |- still (match ?x with _ => _ end) => destruct x
    end ].

Lemma still_get_pos h : still (get_pos h).
Proof. unfold get_pos. frame. Qed.
Lemma still_get_type h : still (get_type h).
Proof. unfold get_type. frame. Qed.
Hint Resolve still_get_pos still_get_type : frame.
Lemma still_returns_to_controller h : still (returns_to_controller h).
Proof. unfold returns_to_controller. frame. Qed.
Lemma still_report_pressure h q force : still (report_pressure h q force).
Proof. unfold report_pressure. frame. Qed.
Hint Resolve still_returns_to_controller still_report_pressure : frame.
Lemma still_clear_pressure : still clear_pressure.
Proof. unfold clear_pressure. frame. Qed.
Lemma still_release_with landing along : still (release_with landing along).
Proof. unfold release_with. frame. Qed.
Hint Resolve still_clear_pressure still_release_with : frame.
Lemma still_release_capture_at landing : still (release_capture_at landing).
Proof. unfold release_capture_at. frame. Qed.
Hint Resolve still_release_capture_at : frame.
Lemma still_release_capture : still release_capture.
Proof. unfold release_capture. frame. Qed.
Lemma still_plain_release : still plain_release.
Proof. apply still_on_input. Qed.
Hint Resolve still_release_capture still_plain_release : frame.

Lemma still_send_enter h side : still (send_enter h side).
Proof. unfold send_enter. frame. Qed.
Hint Resolve still_send_enter : frame.
Lemma still_handoff from target side : still (handoff from target side).
Proof. unfold handoff, handoff_home, handoff_enter. frame. Qed.
Lemma still_return_local_pointer along : still (return_local_pointer along).
Proof. unfold return_local_pointer. frame. Qed.
Lemma still_measure_pressure h event : still (measure_pressure h event).
Proof. unfold measure_pressure, report_pressure_peak. frame. Qed.
Lemma still_ignore_begin h : still (ignore_begin h).
Proof. unfold ignore_begin. frame. Qed.
Lemma still_arm_pressure h returning : still (arm_pressure h returning).
Proof. unfold arm_pressure. frame. Qed.
Lemma still_pass_back h : still (pass_back h).
Proof. unfold pass_back. frame. Qed.
Lemma still_pass_on h : still (pass_on h).
Proof. unfold pass_on. frame. Qed.
Lemma still_activate h : still (activate h).
Proof. unfold activate. frame. Qed.
Lemma still_forward h event : still (forward h event).
Proof. unfold forward. frame. Qed.
Hint Resolve still_handoff still_return_local_pointer still_measure_pressure still_ignore_begin
  still_arm_pressure still_pass_back still_pass_on still_activate still_forward : frame.
Lemma still_route_event h event met : still (route_event h event met).
Proof. unfold route_event. frame. Qed.
Hint Resolve still_route_event : frame.
Lemma still_handle_capture_event h event : still (handle_capture_event h event).
Proof. unfold handle_capture_event. frame. Qed.
Lemma still_sync_captures : still sync_captures.
Proof. unfold sync_captures, sync_capture. frame. Qed.
Lemma still_acknowledged h : still (acknowledged h).
Proof. unfold acknowledged. frame. Qed.
Lemma still_check_pong h event : still (check_pong h event).
Proof. unfold check_pong, notify_peer_lost. frame. Qed.
Hint Resolve still_handle_capture_event still_sync_captures still_acknowledged still_check_pong : frame.
Lemma still_handle_active_event h event : still (handle_active_event h event).
Proof. unfold handle_active_event, refuse_handoff. frame. Qed.
Hint Resolve still_handle_active_event : frame.
Lemma still_handle_peer_event h fingerprint event : still (handle_peer_event h fingerprint event).
Proof. unfold handle_peer_event. frame. Qed.
Lemma still_handle_inactive_event h fingerprint event : still (handle_inactive_event h fingerprint event).
Proof. unfold handle_inactive_event. frame. Qed.
Lemma still_connect h : still (connect h).
Proof. unfold connect. frame. Qed.
Lemma still_set_option r : still (set_option r).
Proof. unfold set_option, send_proto_event, send_clipboard_transfer. frame. Qed.
Lemma still_release_request : still release_request.
Proof. unfold release_request. frame. Qed.
Hint Resolve still_connect still_handle_peer_event still_handle_inactive_event still_set_option
  still_release_request : frame.
Lemma still_reconnect_lost_peers : still reconnect_lost_peers.
Proof. unfold reconnect_lost_peers. frame. Qed.
Lemma still_legacy_entry_retry : still legacy_entry_retry.
Proof. unfold legacy_entry_retry. frame. Qed.
Hint Resolve still_reconnect_lost_peers still_legacy_entry_retry : frame.
Lemma still_ack_overdue : still ack_overdue.
Proof. unfold ack_overdue. frame. Qed.
Hint Resolve still_ack_overdue : frame.

(** ** Requests are obeyed *)

Lemma captures_after {A} f (g : unit -> M W A) s :
  (forall u, still (g u)) -> captures (task ((update f ≫= g) s).1) = captures (f (task s)).
Proof. intros Hg. unfold mbind, capture_bind, update. apply Hg. Qed.

Lemma handle_request_captures r s : captures (task (handle_request r s).1) = obey (captures (task s)) r.
Proof.
  destruct r; cbn [handle_request];
    try (match goal with |- captures (task (?m s).1) = _ => assert (Hm : still m) by frame end; apply Hm).
  - unfold add_capture. rewrite captures_after; [done|]. frame.
  - unfold remove_capture. rewrite captures_after; [done|]. frame.
Qed.
Lemma handle_inactive_request_captures r s :
  captures (task (handle_inactive_request r s).1) = obey (captures (task s)) r.
Proof.
  destruct r; cbn [handle_inactive_request];
    try (match goal with |- captures (task (?m s).1) = _ => assert (Hm : still m) by frame end; apply Hm).
  - unfold add_capture. rewrite captures_after; [done|]. frame.
  - unfold remove_capture. rewrite captures_after; [done|]. frame.
Qed.

Definition obey_stimulus caps (x : Stimulus) :=
  match x with Request r => obey caps r | _ => caps end.
Lemma end_session_captures s : captures (task (end_session s)) = captures (task s).
Proof. unfold end_session. by destruct (backend_terminate _). Qed.
Lemma session_round_captures x s :
  captures (task (session_round x s).1) = obey_stimulus (captures (task s)) x.
Proof.
  destruct x; cbn [session_round]; try apply handle_request_captures;
    match goal with |- captures (task (?m s).1) = _ => assert (Hm : still m) by frame end; apply Hm.
Qed.
Lemma begin_session_captures name s : captures (task (begin_session name s).1) = captures (task s).
Proof.
  unfold begin_session. match goal with |- captures (task (?m _).1) = _ => assert (Hm : still m) by frame end.
  by rewrite Hm.
Qed.
Lemma survive_captures {A} (m : M W A) s s' :
  survive (m s) = Some s' -> captures (task s') = captures (task (m s).1).
Proof. unfold survive. by destruct (m s) as [s1 []]; intros; simplify_eq. Qed.

Lemma step_captures s x s' : step s x = Some s' -> captures (task s') = obey_stimulus (captures (task s)) x.
Proof.
  unfold step. destruct (capturing s).
  - pose proof (session_round_captures x s) as Hx. destruct (session_round x s) as [s1 [[]| |]]; intros; simplify_eq;
      by rewrite ?end_session_captures.
  - destruct x; cbn [obey_stimulus]; try by intros; simplify_eq.
    + pose proof (begin_session_captures name s) as Hx.
      destruct (begin_session name s) as [s1 []]; intros; simplify_eq; by rewrite ?end_session_captures.
    + intros ->%survive_captures. apply still_handle_inactive_event.
    + intros ->%survive_captures. apply handle_inactive_request_captures.
    + intros ->%survive_captures. apply still_reconnect_lost_peers.
Qed.
Lemma run_captures l : forall s s',
  run s l = Some s' -> captures (task s') = foldl obey (captures (task s)) (heard l).
Proof.
  induction l as [|[w x] l IH]; intros s s'; cbn [run]; [by intros; simplify_eq|].
  destruct (step (meanwhile w s) x) as [s1|] eqn:E; [|done]. cbn. intros ->%IH.
  apply step_captures in E. rewrite E. cbn. destruct x as [| | | | |r| | |]; try done. by destruct r.
Qed.
End frame.

(** ** The claims *)

(** C38: every route has its barrier, and nothing else has one.  Start from any
    saved clients (as many as there are handles) and let the service handle any
    events, as long as handles are left and, when round trips are published,
    these are below 2{^30} microseconds.  Then in the state reached the table is
    consistent, at most one client is active at each edge, each device that came
    in is there once, and every further such event is handled without a panic.
    If the capture task has got the service's [Create] and [Destroy] requests in
    order, among any other stimuli, its captures are: one [Default] capture per
    active client at that client's edge, one [EnterOnly] capture per device that
    came in at that device's edge, no other, none twice. *)
Theorem barriers_match_routes {W : Type} `{!CaptureWorld W} `{!HashOrder}
    (addr_text : SocketAddr -> rstring) (l : list ConfigClient) (sharing : bool)
    (s : ClientService) (es : list Effect)
    (Hlen : len l <= ENTER_HANDLE_BEGIN) (Hrun : client_run addr_text l sharing s es) :
  table_ok (manager s) /\ one_per_edge (manager s) /\ incoming_ok s
  /\ (forall e, room s e -> is_Some (handle_client_event addr_text e s))
  /\ (forall (w : W) name bind stimuli sys,
        run (new_system w name bind) stimuli = Some sys -> heard stimuli = asked es ->
        captures_ok s (captures (task sys))).
Proof.
  destruct (client_run_good _ _ _ _ _ Hlen Hrun) as [Ht He Hi Hc]. split_and!; [done..| |].
  - intros e Hroom. destruct (event_leads addr_text e s (replay [] es)) as (s' & es' & -> & _); [done..|by eexists].
  - intros w name bind stimuli sys Hsys Heard. rewrite (run_captures _ _ _ Hsys), Heard, <- replay_asked. done.
Qed.

(** Saving what was loaded gives what was saved.  Loading any list of
    clients (as many as there are handles) succeeds, the table is consistent, and
    the clients written from it are those of the list, in its order: addresses,
    host name, port, edge, whether active, enter hook and certificate. *)
Theorem config_round_trip `{!HashOrder} (l : list ConfigClient) (Hlen : len l <= ENTER_HANDLE_BEGIN) :
  exists m, load_clients l new_manager = Some m /\ table_ok m /\ saved_clients m = l.
Proof.
  destruct (load_saved l new_manager new_manager_ok Hlen) as (m & E & Ht & Hs). by exists m.
Qed.

(** ** Examples *)

#[local] Existing Instances desk_backend desk list_order.

(** Two devices saved as active on the left edge and one on the right. *)
Definition saved_desk : list ConfigClient :=
  let at_ pos ip := {| cc_ips := {[IpAddr.V4 ip]}; cc_hostname := None; cc_port := DEFAULT_PORT; cc_pos := pos;
                       cc_active := true; cc_enter_hook := None; cc_peer_fingerprint := Some [ip] |} in
  [at_ Placement.Left 1; at_ Placement.Left 2; at_ Placement.Right 3].
Definition visitor : SocketAddr := socket_addr (IpAddr.V4 2) 5000.

(** A device comes in, the right one moves to the top, an unknown one is asked for. *)
Definition desk_events : list ClientEvent :=
  [Entered visitor Placement.Left [2] true false None;
   FromFrontend (UpdatePosition 2 Placement.Top);
   FromFrontend (Activate 7 true)].

Fixpoint play (l : list ClientEvent) (x : ClientService * list Effect) : option (ClientService * list Effect) :=
  match l with
  | [] => Some x
  | e :: l => '(s, es) ← handle_client_event (fun _ => []) e x.1; play l (s, x.2 ++ es)
  end.
Lemma play_run l c sharing : forall x y,
  client_run (fun _ => []) c sharing x.1 x.2 -> play l x = Some y ->
  Forall (fun e => (needs e).1 <= 1 /\ (needs e).2 <= 1 /\ e <> PublishRoundTrips) l ->
  next_handle (manager x.1) + len l <= ENTER_HANDLE_BEGIN -> next_trigger_handle x.1 + len l <= ENTER_HANDLE_BEGIN ->
  len c <= ENTER_HANDLE_BEGIN -> client_run (fun _ => []) c sharing y.1 y.2.
Proof.
  induction l as [|e l IH]; intros [s es] y Hx Hp Hl Hn Hk Hc; cbn in *; [by simplify_eq|].
  apply Forall_cons in Hl as [(H1 & H2 & H3) Hl]. rewrite len_cons in Hn, Hk. pose proof (len_nonneg l).
  assert (Hroom : room s e) by (split_and!; [lia..|done]).
  destruct (event_leads (fun _ => []) e s _ (client_run_good _ _ _ _ _ Hc Hx) Hroom)
    as (s1 & e1 & E1 & _ & N1 & K1). rewrite E1 in Hp. cbn in Hp.
  eapply (IH (s1, es ++ e1)); [by eapply run_event|done..| | |done]; cbn; lia.
Qed.

Definition desk_start : option (ClientService * list Effect) :=
  m ← load_clients saved_desk new_manager; start_clients (new_service m true).
(** What the task is asked for: the first device loses the left edge to the
    second, the visitor gets a barrier, the third device's moves to the top. *)
Definition desk_requests : list CaptureRequest :=
  [Create 0 Side.Left Default; Destroy 0; Create 1 Side.Left Default; Create 2 Side.Right Default;
   Create ENTER_HANDLE_BEGIN Side.Left EnterOnly; Destroy 2; Create 2 Side.Top Default].

Lemma desk_runs :
  exists s es, client_run (fun _ => []) saved_desk true s es /\ asked es = desk_requests.
Proof.
  assert (Hasked : (fun y => asked y.2) <$> (desk_start ≫= play desk_events) = Some desk_requests)
    by (vm_compute; reflexivity).
  assert (Hnext : (fun x => (next_handle (manager x.1), next_trigger_handle x.1)) <$> desk_start = Some (3, 0))
    by (vm_compute; reflexivity).
  apply fmap_Some in Hasked as ([s es] & ([s0 e0] & Es & Ep)%bind_Some & Ha).
  rewrite Es in Hnext. injection Hnext as Hn Hk. exists s, es. split; [|done].
  apply bind_Some in Es as (m & Em & Es). apply (play_run desk_events saved_desk true (s0, e0) (s, es)).
  - by eapply run_started.
  - done.
  - by repeat constructor.
  - cbn. by rewrite Hn.
  - cbn. by rewrite Hk.
  - by vm_compute.
Qed.

(** The left edge is the second device's, the top the third's, and the visitor
    has a barrier to go back through. *)
Lemma barriers_match_routes_witness :
  exists s es sys, client_run (fun _ => []) saved_desk true s es
  /\ run (new_system 0 None [29]) ((fun r => (0, Request r)) <$> desk_requests) = Some sys
  /\ captures (task sys) = [(1, Side.Left, Default); (ENTER_HANDLE_BEGIN, Side.Left, EnterOnly); (2, Side.Top, Default)]
  /\ one_per_edge (manager s) /\ captures_ok s (captures (task sys)).
Proof.
  destruct desk_runs as (s & es & Hrun & Ha).
  destruct (barriers_match_routes (W := Z) (fun _ => []) saved_desk true s es) as (_ & He & _ & _ & Hc);
    [by vm_compute|exact Hrun|].
  assert (E : captures ∘ task <$> run (new_system 0 None [29]) ((fun r => (0, Request r)) <$> desk_requests)
    = Some [(1, Side.Left, Default); (ENTER_HANDLE_BEGIN, Side.Left, EnterOnly); (2, Side.Top, Default)])
    by (vm_compute; reflexivity).
  apply fmap_Some in E as (sys & E & Hcaps). exists s, es, sys.
  split; [exact Hrun|]. split; [exact E|]. split; [exact (eq_sym Hcaps)|]. split; [exact He|].
  apply (Hc _ _ _ _ _ E). rewrite Ha. reflexivity.
Defined.

Lemma config_round_trip_witness :
  len saved_desk <= ENTER_HANDLE_BEGIN
  /\ exists m, load_clients saved_desk new_manager = Some m /\ table_ok m /\ saved_clients m = saved_desk.
Proof. split; [vm_compute; discriminate|]. apply config_round_trip. vm_compute. discriminate. Defined.
