(* ===== verification/InputEmulation.v ===== *)
(** * Input emulation: the platform-independent wrapper

    [crates/syntra-input-emulation/src/lib.rs]: the virtual devices of the peers
    and the keys each of them holds down.  The back end (uinput, X11, libei,
    Windows, macOS, Android) is behind the trait [Emulation], here the class
    [EmulationBackend].  [calls] is a ghost: what the back end was asked to do,
    in order; no operation reads it. *)

From S2P Require Import Prelude ProtoTypes.

(** [syntra_input_emulation::PointerEdge] *)
Module PointerEdge.
Inductive t := Left | Right | Top | Bottom.
#[global] Instance t_eq_dec : EqDecision t.
Proof. solve_decision. Defined.
End PointerEdge.

(** A share of an edge is an [f32], by its bits. *)
Record PointerExit := { exit_edge : PointerEdge.t; exit_along : option Z }.

(** The trait [Emulation]; an error is its text. *)
Class EmulationBackend (W : Type) := {
  healthy : W -> bool;
  set_independent : bool -> W -> W;
  take_edge : W -> Z -> W * option PointerExit;
  place_along : PointerEdge.t -> option Z -> W -> W;
  step_in : PointerEdge.t -> W -> W;
  hide : W -> W;
  publish_clipboard : list (rstring * bytes) -> W -> W * result rstring unit;
  device_consume : InputEvent.t -> Z -> W -> W * result rstring unit;
  device_create : Z -> W -> W;
  device_destroy : Z -> W -> W;
  device_terminate : W -> W;
}.

Inductive Call :=
| Consumed (event : InputEvent.t) (handle : Z)
| Created (handle : Z)
| Destroyed (handle : Z)
| Terminated.

Record InputEmulation (W : Type) := {
  device : W;
  selected : rstring;
  emu_handles : gset Z;
  emu_pressed_keys : gmap Z (gset Z);
  calls : list Call;
}.
Arguments device {W} _.
Arguments selected {W} _.
Arguments emu_handles {W} _.
Arguments emu_pressed_keys {W} _.
Arguments calls {W} _.
Arguments Build_InputEmulation {W} _ _ _ _ _.

Definition key_event (time key state : Z) : InputEvent.t :=
  InputEvent.Keyboard (KeyboardEvent.Key time key state).
Definition button_event (time button state : Z) : InputEvent.t :=
  InputEvent.Pointer (PointerEvent.Button time button state).
Definition no_modifiers : InputEvent.t := InputEvent.Keyboard (KeyboardEvent.Modifiers 0 0 0 0).

Section operations.
Context {W : Type} `{!EmulationBackend W} `{!HashOrder}.
Implicit Types (d : InputEmulation W).

(** [with_backend] once the back end is there *)
Definition with_backend (w : W) (name : rstring) : InputEmulation W := Build_InputEmulation w name ∅ ∅ [].

Definition set_device (f : W -> W) d : InputEmulation W :=
  Build_InputEmulation (f (device d)) (selected d) (emu_handles d) (emu_pressed_keys d) (calls d).
Definition set_keys (keys : gmap Z (gset Z)) d : InputEmulation W :=
  Build_InputEmulation (device d) (selected d) (emu_handles d) keys (calls d).
Definition set_handles (handles : gset Z) (keys : gmap Z (gset Z)) d : InputEmulation W :=
  Build_InputEmulation (device d) (selected d) handles keys (calls d).
Definition called (c : Call) d : InputEmulation W :=
  Build_InputEmulation (device d) (selected d) (emu_handles d) (emu_pressed_keys d) (calls d ++ [c]).

(** [self.emulation.consume] *)
Definition pass_to_device (event : InputEvent.t) (handle : Z) d : InputEmulation W * result rstring unit :=
  let (w, r) := device_consume event handle (device d) in
  (called (Consumed event handle) (set_device (fun _ => w) d), r).

(** [update_pressed_keys]: whether the event should be processed *)
Definition emu_update_pressed_keys (handle key state : Z) d : InputEmulation W * bool :=
  match emu_pressed_keys d !! handle with
  | None => (d, false)
  | Some keys =>
      let held := bool_decide (key ∈ keys) in
      if state =? 0
      then (set_keys (<[handle := keys ∖ {[key]}]> (emu_pressed_keys d)) d, held)
      else (set_keys (<[handle := {[key]} ∪ keys]> (emu_pressed_keys d)) d, negb held)
  end.

(** [consume] *)
Definition emu_consume (event : InputEvent.t) (handle : Z) d : InputEmulation W * result rstring unit :=
  match event with
  | InputEvent.Keyboard (KeyboardEvent.Key _ key state) =>
      let (d, process) := emu_update_pressed_keys handle key state d in
      if (process : bool) then pass_to_device event handle d else (d, Ok tt)
  | _ => pass_to_device event handle d
  end.

(** [create] *)
Definition emu_create (handle : Z) d : InputEmulation W * bool :=
  if bool_decide (handle ∈ emu_handles d) then (d, false)
  else (called (Created handle)
          (set_device (device_create handle)
             (set_handles ({[handle]} ∪ emu_handles d) (<[handle := ∅]> (emu_pressed_keys d)) d)), true).

(** The first error of two results. *)
Definition first_error (a b : result rstring unit) : result rstring unit :=
  match a with Ok _ => b | Err e => Err e end.

Fixpoint consume_all (events : list InputEvent.t) (handle : Z) d : InputEmulation W * result rstring unit :=
  match events with
  | [] => (d, Ok tt)
  | event :: events =>
      let (d, r) := pass_to_device event handle d in
      let (d, r') := consume_all events handle d in
      (d, first_error r r')
  end.

(** [release_keys] *)
Definition release_keys (handle : Z) d : InputEmulation W * result rstring unit :=
  let (d, released) :=
    match emu_pressed_keys d !! handle with
    | Some keys =>
        consume_all ((fun key => key_event 0 key 0) <$> hash_order (elements keys)) handle
          (set_keys (<[handle := ∅]> (emu_pressed_keys d)) d)
    | None => (d, Ok tt)
    end in
  let (d, modifiers) := pass_to_device no_modifiers handle d in
  (d, first_error released modifiers).

(** [destroy] *)
Definition emu_destroy (handle : Z) d : InputEmulation W :=
  let (d, _) := release_keys handle d in
  if bool_decide (handle ∈ emu_handles d)
  then called (Destroyed handle)
         (set_device (device_destroy handle)
            (set_handles (emu_handles d ∖ {[handle]}) (delete handle (emu_pressed_keys d)) d))
  else d.

(** [terminate] *)
Definition emu_terminate d : InputEmulation W :=
  let d := foldl (fun d handle => emu_destroy handle d) d (hash_order (elements (emu_handles d))) in
  called Terminated (set_device device_terminate d).

Definition has_pressed_keys (handle : Z) d : bool :=
  match emu_pressed_keys d !! handle with Some keys => negb (bool_decide (keys = ∅)) | None => false end.
End operations.

(** ** Choosing a back end

    [InputEmulation::new]: the one asked for, or the first that can be created;
    a user who refused permission ends the search. *)

Record CreationError := { creation_text : rstring; cancelled_by_user : bool }.

Section selection.
Context {W : Type} (create_backend : rstring -> result CreationError W).

Definition create_with (name : rstring) : result CreationError (InputEmulation W) :=
  match create_backend name with Ok w => Ok (with_backend w name) | Err e => Err e end.

(** [NoAvailableBackend] *)
Definition no_available_backend : CreationError :=
  {| creation_text := str "capture error"; cancelled_by_user := false |}.

Fixpoint first_available (names : list rstring) : result CreationError (InputEmulation W) :=
  match names with
  | [] => Err no_available_backend
  | name :: names =>
      match create_with name with
      | Ok d => Ok d
      | Err e => if cancelled_by_user e then Err e else first_available names
      end
  end.

Definition new_emulation (order : list rstring) (backend : option rstring)
    : result CreationError (InputEmulation W) :=
  match backend with
  | Some name => create_with name
  | None => first_available order
  end.
End selection.

(** ** What the peers hold down

    Read off the calls: an abstract account of the back end. *)

Definition hold (state item : Z) (held : gset Z) : gset Z :=
  if state =? 0 then held ∖ {[item]} else {[item]} ∪ held.

Definition held_keys (l : list Call) (handle : Z) : gset Z :=
  foldl (fun held c =>
           match c with
           | Consumed (InputEvent.Keyboard (KeyboardEvent.Key _ key state)) h =>
               if h =? handle then hold state key held else held
           | _ => held
           end) ∅ l.
Definition held_buttons (l : list Call) (handle : Z) : gset Z :=
  foldl (fun held c =>
           match c with
           | Consumed (InputEvent.Pointer (PointerEvent.Button _ button state)) h =>
               if h =? handle then hold state button held else held
           | _ => held
           end) ∅ l.
