(* ===== verification/Clipboard.v ===== *)
(** * The clipboard of this device

    [crates/syntra-core/src/clipboard.rs]: what was last seen on the desktop's
    clipboard and where it came from, the thread that reads the desktop and the
    thread that writes what a peer sent.  The desktop itself (the crate
    [arboard]) is what it offers; its calls may fail.

    The two threads interleave: a step of [worker_step] is one access to the
    desktop or to the shared state, and the lock [desktop] orders the threads.
    The user may copy at any time. *)

From S2P Require Import Prelude.

Inductive ClipboardContent := Text (text : rstring) | Image (width height : Z) (rgba : bytes).
#[global] Instance clipboard_content_eq_dec : EqDecision ClipboardContent.
Proof. solve_decision. Defined.

Inductive Observation := Local | Remote | Unchanged.
#[global] Instance observation_eq_dec : EqDecision Observation.
Proof. solve_decision. Defined.

Record ClipboardState := { last : option ClipboardContent; remote_origin : bool }.
Definition default_clipboard_state : ClipboardState := {| last := None; remote_origin := false |}.

Record QueuedRemote := { baseline : option ClipboardContent; content : ClipboardContent }.

(** ** Operations *)

Definition observe (c : ClipboardContent) (s : ClipboardState) : ClipboardState * Observation :=
  if bool_decide (last s = Some c) then (s, if remote_origin s then Remote else Unchanged)
  else ({| last := Some c; remote_origin := false |}, Local).

Definition queue_remote (c : ClipboardContent) (s : ClipboardState) : QueuedRemote :=
  {| baseline := last s; content := c |}.

Definition commit_remote (q : QueuedRemote) (current : option ClipboardContent) (s : ClipboardState)
    : ClipboardState * bool :=
  if match baseline q with
     | Some b => negb (bool_decide (Some b = current))
     | None => false
     end
  then (s, false)
  else ({| last := Some (content q); remote_origin := true |}, true).

(** ** The desktop *)

(** What is on offer: files, a text, an image with its dimensions as [usize]. *)
Record Offer := { files : bool; text_offer : option rstring; image_offer : option (Z * Z * bytes) }.

(** [read_clipboard], when the desktop answers; an error is [None]. *)
Definition read_clipboard (o : Offer) : option ClipboardContent :=
  if files o then None
  else
    match text_offer o with
    | Some text => Some (Text text)
    | None =>
        match image_offer o with
        | Some (width, height, rgba) =>
            if (width <=? u32_max) && (height <=? u32_max) then Some (Image width height rgba) else None
        | None => None
        end
    end.
(** [set_text] and [set_image] *)
Definition offer_of (c : ClipboardContent) : Offer :=
  match c with
  | Text text => {| files := false; text_offer := Some text; image_offer := None |}
  | Image width height rgba => {| files := false; text_offer := None; image_offer := Some (width, height, rgba) |}
  end.

(** ** The threads *)

(** Where the thread that reads is: waiting, waiting for the lock, holding it,
    holding what it read, or with a result to hand over. *)
Inductive Reader :=
| ReadIdle
| ReadTaken
| Reading
| ReadDone (c : ClipboardContent)
| ReadResult (r : option ClipboardContent).

(** Where the thread that writes is; [Written] is between the commit and the
    desktop's answer. *)
Inductive Writer :=
| WriteIdle
| WriteTaken (q : QueuedRemote)
| WriteLocked (q : QueuedRemote)
| WriteRead (q : QueuedRemote) (current : option ClipboardContent)
| Written (c : ClipboardContent) (current : option ClipboardContent).

(** [Clipboard] with its threads.  Each of the three channels holds one element. *)
Record Clipboard := {
  desktop : Offer;
  clip_state : ClipboardState;
  read_request : bool;
  write_request : option QueuedRemote;
  reader : Reader;
  writer : Writer;
  (** [read_rx]; an error is [None] *)
  read_result : option (option ClipboardContent);
}.
Definition new_clipboard (desktop : Offer) : Clipboard :=
  Build_Clipboard desktop default_clipboard_state false None ReadIdle WriteIdle None.

(** [read_once]: a request that is already there is enough. *)
Definition read_once (c : Clipboard) : Clipboard :=
  Build_Clipboard (desktop c) (clip_state c) true (write_request c) (reader c) (writer c) (read_result c).

(** [next_read]; [None] while it waits *)
Definition next_read (c : Clipboard) : option (option ClipboardContent * Clipboard) :=
  match read_result c with
  | Some r => Some (r, Build_Clipboard (desktop c) (clip_state c) (read_request c) (write_request c)
                         (reader c) (writer c) None)
  | None => None
  end.

(** [write]: a full channel drops the request. *)
Definition clipboard_write (v : ClipboardContent) (c : Clipboard) : Clipboard :=
  match write_request c with
  | Some _ => c
  | None => Build_Clipboard (desktop c) (clip_state c) (read_request c)
              (Some (queue_remote v (clip_state c))) (reader c) (writer c) (read_result c)
  end.

(** Whether a thread holds the lock of the desktop. *)
Definition reading (r : Reader) : bool := match r with Reading | ReadDone _ => true | _ => false end.
Definition writing (w : Writer) : bool :=
  match w with WriteLocked _ | WriteRead _ _ | Written _ _ => true | _ => false end.

Inductive WorkerEvent :=
(** the user copies something, or clears it *)
| UserCopies (o : Offer)
| TakeReadRequest
| LockRead
(** the desktop answers a read, or does not *)
| DesktopRead (works : bool)
| Observe
| HandOver
| TakeWriteRequest
(** [Clipboard::new] works, or does not *)
| OpenDesktop (works : bool)
| ReadCurrent (works : bool)
| Commit
(** [set_text] or [set_image] works, or does not *)
| SetDesktop (works : bool)
(** the service *)
| AskRead
| NextRead
| AskWrite (v : ClipboardContent).

Definition set_reader v (c : Clipboard) : Clipboard :=
  Build_Clipboard (desktop c) (clip_state c) (read_request c) (write_request c) v (writer c) (read_result c).
Definition set_writer v (c : Clipboard) : Clipboard :=
  Build_Clipboard (desktop c) (clip_state c) (read_request c) (write_request c) (reader c) v (read_result c).
Definition set_clip_state v (c : Clipboard) : Clipboard :=
  Build_Clipboard (desktop c) v (read_request c) (write_request c) (reader c) (writer c) (read_result c).
Definition set_desktop v (c : Clipboard) : Clipboard :=
  Build_Clipboard v (clip_state c) (read_request c) (write_request c) (reader c) (writer c) (read_result c).

(** One step; [None] when it is not this step's turn. *)
Definition worker_step (e : WorkerEvent) (c : Clipboard) : option Clipboard :=
  match e with
  | UserCopies o => Some (set_desktop o c)
  | AskRead => Some (read_once c)
  | NextRead => snd <$> next_read c
  | AskWrite v => Some (clipboard_write v c)
  (** [spawn_read_worker] *)
  | TakeReadRequest =>
      match reader c with
      | ReadIdle =>
          if read_request c
          then Some (Build_Clipboard (desktop c) (clip_state c) false (write_request c) ReadTaken (writer c) (read_result c))
          else None
      | _ => None
      end
  | LockRead =>
      match reader c with
      | ReadTaken => if writing (writer c) then None else Some (set_reader Reading c)
      | _ => None
      end
  | DesktopRead works =>
      match reader c with
      | Reading =>
          Some (set_reader (match (if works then read_clipboard (desktop c) else None) with
                            | Some v => ReadDone v
                            | None => ReadResult None
                            end) c)
      | _ => None
      end
  | Observe =>
      match reader c with
      | ReadDone v =>
          let (s, observation) := observe v (clip_state c) in
          Some (set_reader (ReadResult (if bool_decide (observation = Local) then Some v else None))
                  (set_clip_state s c))
      | _ => None
      end
  | HandOver =>
      match reader c, read_result c with
      | ReadResult r, None =>
          Some (Build_Clipboard (desktop c) (clip_state c) (read_request c) (write_request c) ReadIdle (writer c) (Some r))
      | _, _ => None
      end
  (** [spawn_write_worker] *)
  | TakeWriteRequest =>
      match writer c, write_request c with
      | WriteIdle, Some q =>
          Some (Build_Clipboard (desktop c) (clip_state c) (read_request c) None (reader c) (WriteTaken q) (read_result c))
      | _, _ => None
      end
  | OpenDesktop works =>
      match writer c with
      | WriteTaken q =>
          if reading (reader c) then None else Some (set_writer (if works then WriteLocked q else WriteIdle) c)
      | _ => None
      end
  | ReadCurrent works =>
      match writer c with
      | WriteLocked q => Some (set_writer (WriteRead q (if works then read_clipboard (desktop c) else None)) c)
      | _ => None
      end
  | Commit =>
      match writer c with
      | WriteRead q current =>
          let (s, committed) := commit_remote q current (clip_state c) in
          Some (set_writer (if (committed : bool) then Written (content q) current else WriteIdle) (set_clip_state s c))
      | _ => None
      end
  | SetDesktop works =>
      match writer c with
      | Written v current =>
          Some (set_writer WriteIdle
                  (if works then set_desktop (offer_of v) c
                   else set_clip_state {| last := current; remote_origin := false |} c))
      | _ => None
      end
  end.
