(* ===== verification/ClipboardTheorems.v ===== *)
(** * The clipboard of this device: what a peer sent is never sent back

    The two threads of [Clipboard] in any order, with a desktop that may fail and
    a user who may copy at any time. *)

From S2P Require Import Prelude Clipboard.

(** ** A run with its history *)

(** Who put there what the desktop shows, and what the reader read; what was
    handed over, and whether the user had copied it; whether a write failed on a
    desktop that could not be read. *)
Record History := {
  clip : Clipboard;
  users : bool;
  read_users : bool;
  shared_out : list (ClipboardContent * bool);
  blind_failure : bool;
}.

Definition note (e : WorkerEvent) (g : History) (c : Clipboard) : History :=
  match e with
  | UserCopies _ => Build_History c true (read_users g) (shared_out g) (blind_failure g)
  | DesktopRead _ => Build_History c (users g) (users g) (shared_out g) (blind_failure g)
  | HandOver =>
      Build_History c (users g) (read_users g)
        (shared_out g ++ match reader (clip g) with ReadResult (Some v) => [(v, read_users g)] | _ => [] end)
        (blind_failure g)
  | SetDesktop true => Build_History c false (read_users g) (shared_out g) (blind_failure g)
  | SetDesktop false =>
      Build_History c (users g) (read_users g) (shared_out g)
        (blind_failure g || match writer (clip g) with Written _ None => true | _ => false end)
  | _ => Build_History c (users g) (read_users g) (shared_out g) (blind_failure g)
  end.
Definition history_step (e : WorkerEvent) (g : History) : option History :=
  note e g <$> worker_step e (clip g).
Fixpoint history_run (l : list WorkerEvent) (g : History) : option History :=
  match l with [] => Some g | e :: l => g ← history_step e g; history_run l g end.
Definition new_history (desktop : Offer) : History :=
  Build_History (new_clipboard desktop) true true [] false.

(** ** The invariant *)

(** What a peer sent and the desktop shows is known as the last content; but
    between the commit of a write and the desktop's answer the thread that writes
    knows it. *)
Definition known (c : Clipboard) (v : option ClipboardContent) : Prop :=
  match writer c with
  | Written _ current => current = None \/ current = v
  | WriteRead _ current => last (clip_state c) = v /\ (current = None \/ current = v)
  | _ => last (clip_state c) = v
  end.
Record history_ok (g : History) : Prop := {
  ho_apart : reading (reader (clip g)) = true -> writing (writer (clip g)) = true -> False;
  ho_known : users g = false -> forall v, read_clipboard (desktop (clip g)) = Some v -> known (clip g) (Some v);
  ho_written : forall v cur, writer (clip g) = Written v cur -> last (clip_state (clip g)) = Some v;
  ho_read : forall v, reader (clip g) = ReadDone v -> read_users g = true \/ last (clip_state (clip g)) = Some v;
  ho_order : forall v, reader (clip g) = ReadDone v -> users g = false -> read_users g = false;
  ho_result : forall v, reader (clip g) = ReadResult (Some v) -> read_users g = true;
  ho_shared : Forall (fun x => x.2 = true) (shared_out g);
}.

Lemma new_history_ok d : history_ok (new_history d).
Proof. split; done. Qed.

(** What was written is what is read, if it can be read. *)
Lemma read_offer_of v x : read_clipboard (offer_of v) = Some x -> x = v.
Proof. destruct v; cbn; [by intros [= <-]|]. destruct (_ && _); [by intros [= <-]|done]. Qed.
Lemma observe_cases v s :
  (last s = Some v /\ (observe v s).1 = s /\ (observe v s).2 <> Local)
  \/ (last s <> Some v /\ observe v s = ({| last := Some v; remote_origin := false |}, Local)).
Proof. unfold observe. case_bool_decide; [left|right]; [|done]. by destruct (remote_origin s). Qed.

Definition reaches (e : WorkerEvent) : bool :=
  match e with DesktopRead _ | Observe | HandOver | ReadCurrent _ | Commit | SetDesktop _ => true | _ => false end.

(** A writer that has not read the desktop. *)
Definition before_read (w : Writer) : Prop := match w with WriteRead _ _ | Written _ _ => False | _ => True end.

(** The same but for the requests and where the threads are: [known] is kept by a
    writer that has not read, and a reader has not read yet. *)
Lemma same_ok c' g :
  history_ok g -> desktop c' = desktop (clip g) -> clip_state c' = clip_state (clip g) ->
  reader c' = reader (clip g) \/ (forall v, reader c' <> ReadDone v /\ reader c' <> ReadResult (Some v)) ->
  writer c' = writer (clip g) \/ (before_read (writer (clip g)) /\ before_read (writer c')) ->
  (reading (reader c') = true -> writing (writer c') = true -> False) ->
  history_ok (Build_History c' (users g) (read_users g) (shared_out g) (blind_failure g)).
Proof.
  intros [Ha Hk Hw Hr Ho Hres Hs] Ed Est Erd Ewr Hap. split; cbn; [done| | | | | |done].
  - intros Hu v Hv. rewrite Ed in Hv. specialize (Hk Hu v Hv). unfold known in *. rewrite Est.
    destruct Ewr as [->|[H1 H2]]; [done|]. destruct (writer (clip g)), (writer c'); done.
  - intros v cur E. rewrite Est. destruct Ewr as [E'|[_ H2]]; [|by rewrite E in H2]. eapply Hw. by rewrite <- E'.
  - intros v E. rewrite Est. destruct Erd as [E'|H1]; [|by destruct (H1 v)]. apply Hr. by rewrite <- E'.
  - intros v E. destruct Erd as [E'|H1]; [|by destruct (H1 v)]. apply (Ho v). by rewrite <- E'.
  - intros v E. destruct Erd as [E'|H1]; [|by destruct (H1 v)]. apply (Hres v). by rewrite <- E'.
Qed.
(** The steps that touch neither the desktop nor the shared state. *)
Lemma other_step_ok e g c' : reaches e = false -> history_ok g -> worker_step e (clip g) = Some c' -> history_ok (note e g c').
Proof.
  intros He Hg. pose proof (ho_apart _ Hg) as Ha. destruct e; try done; cbn [worker_step note].
  - destruct Hg as [_ Hk Hw Hr Ho Hres Hs]. intros [= <-]. by split.
  - destruct (reader (clip g)); try done. destruct (read_request (clip g)); [|done]. intros [= <-].
    apply same_ok; [done..|by right|by left|done].
  - destruct (reader (clip g)); try done. destruct (writing (writer (clip g))) eqn:Ew; [done|]. intros [= <-].
    apply same_ok; [done..|by right|by left|cbn; congruence].
  - destruct (writer (clip g)) eqn:Ew; try done. destruct (write_request (clip g)); [|done]. intros [= <-].
    apply same_ok; [done..|by left|right; by rewrite Ew|done].
  - destruct (writer (clip g)) eqn:Ew; try done. destruct (reading (reader (clip g))) eqn:Er; [done|]. intros [= <-].
    apply same_ok; [done..|by left|right; rewrite Ew; by destruct works|cbn; congruence].
  - intros [= <-]. apply same_ok; by auto.
  - unfold next_read. destruct (read_result (clip g)); [|done]. intros [= <-]. apply same_ok; by auto.
  - unfold clipboard_write. destruct (write_request (clip g)); intros [= <-]; apply same_ok; by auto.
Qed.

(** The thread that reads. *)
Lemma desktop_read_ok works g c' :
  history_ok g -> worker_step (DesktopRead works) (clip g) = Some c' -> history_ok (note (DesktopRead works) g c').
Proof.
  intros [Ha Hk Hw Hr Ho Hres Hs]. cbn [worker_step note]. destruct (reader (clip g)) eqn:Erd; try done. intros [= <-].
  split; cbn; [|done|done| |done| |done]; destruct works; try done;
    destruct (read_clipboard (desktop (clip g))) as [v|] eqn:Ed; cbn; try done.
  intros v' [= <-]. destruct (users g); [by left|right]. specialize (Hk eq_refl v eq_refl). unfold known in Hk.
  destruct (writer (clip g)); cbn in *; try done; by destruct Ha.
Qed.
Lemma observe_ok g c' : history_ok g -> worker_step Observe (clip g) = Some c' -> history_ok (note Observe g c').
Proof.
  intros [Ha Hk Hw Hr Ho Hres Hs]. cbn [worker_step note]. destruct (reader (clip g)) as [| | |v|] eqn:Erd; try done.
  destruct (observe_cases v (clip_state (clip g))) as [(El & Est & Hn)|(El & Eo)].
  - destruct (observe v _) as [st' ob]. cbn in *. subst st'. intros [= <-]. rewrite bool_decide_eq_false_2 by done. by split.
  - rewrite Eo. intros [= <-]. destruct (Hr v eq_refl) as [Hru|]; [|done]. split; cbn; [done| | |done|done|done|done].
    + intros Hus. by rewrite (Ho v eq_refl Hus) in Hru.
    + intros v' cur Ew. rewrite Ew in Ha. by destruct Ha.
Qed.
Lemma hand_over_ok g c' : history_ok g -> worker_step HandOver (clip g) = Some c' -> history_ok (note HandOver g c').
Proof.
  intros [Ha Hk Hw Hr Ho Hres Hs]. cbn [worker_step note]. destruct (reader (clip g)) as [| | | |r] eqn:Erd; try done.
  destruct (read_result (clip g)); [done|]. intros [= <-]. split; cbn; try done.
  apply Forall_app. split; [done|]. destruct r as [v|]; [|done]. constructor; [|done]. cbn. by eapply Hres.
Qed.

(** The thread that writes. *)
Lemma read_current_ok works g c' :
  history_ok g -> worker_step (ReadCurrent works) (clip g) = Some c' -> history_ok (note (ReadCurrent works) g c').
Proof.
  intros [Ha Hk Hw Hr Ho Hres Hs]. cbn [worker_step note]. destruct (writer (clip g)) eqn:Ew; try done. intros [= <-].
  split; cbn; [done| |done..]. intros Hu v Hv. specialize (Hk Hu v Hv). unfold known in *. rewrite Ew in Hk. cbn.
  destruct works; auto.
Qed.
Lemma commit_ok g c' : history_ok g -> worker_step Commit (clip g) = Some c' -> history_ok (note Commit g c').
Proof.
  intros [Ha Hk Hw Hr Ho Hres Hs]. cbn [worker_step note]. destruct (writer (clip g)) as [| | |q cur|] eqn:Ew; try done.
  assert (Hrd : reading (reader (clip g)) = false) by (destruct (reading _); [by destruct Ha|done]).
  assert (Hn : forall v, reader (clip g) <> ReadDone v) by (intros v E; by rewrite E in Hrd).
  unfold commit_remote. destruct (match baseline q with Some _ => _ | None => _ end); intros [= <-].
  - split; cbn; [congruence| |done..]. intros Hu v Hv. specialize (Hk Hu v Hv). unfold known in *. rewrite Ew in Hk. by destruct Hk.
  - split; cbn; [congruence| |by intros v c0 [= <- _]| |done..].
    + intros Hu v Hv. specialize (Hk Hu v Hv). unfold known in *. rewrite Ew in Hk. cbn. by destruct Hk.
    + intros v E. by destruct (Hn v).
Qed.
Lemma set_desktop_ok works g c' :
  history_ok g -> worker_step (SetDesktop works) (clip g) = Some c' ->
  blind_failure (note (SetDesktop works) g c') = false -> history_ok (note (SetDesktop works) g c').
Proof.
  intros [Ha Hk Hw Hr Ho Hres Hs]. cbn [worker_step note]. destruct (writer (clip g)) as [| | | |v cur] eqn:Ew; try done.
  assert (Hrd : reading (reader (clip g)) = false) by (destruct (reading _); [by destruct Ha|done]).
  assert (Hn : forall x, reader (clip g) <> ReadDone x) by (intros x E; by rewrite E in Hrd).
  destruct works; intros [= <-]; cbn.
  - intros _. split; cbn; [congruence| |done| | |done|done]; [|..];
    [intros _ x Hx; rewrite (read_offer_of _ _ Hx); by eapply Hw|..]; intros x E; by destruct (Hn x).
  - intros [_ Hb]%orb_false_iff. split; cbn; [congruence| |done| |done..].
    + intros Hu x Hx. specialize (Hk Hu x Hx). unfold known in *. rewrite Ew in Hk. destruct Hk as [->|Hk]; done.
    + intros x E. by destruct (Hn x).
Qed.

Lemma history_step_ok e g g' :
  history_ok g -> history_step e g = Some g' -> blind_failure g' = false -> history_ok g'.
Proof.
  intros Hg. unfold history_step. destruct (worker_step e (clip g)) as [c'|] eqn:E; [|done]. intros [= <-] Hb.
  destruct (reaches e) eqn:He; [|by apply other_step_ok].
  destruct e; try done; [by apply desktop_read_ok|by apply observe_ok|by apply hand_over_ok|by apply read_current_ok
    |by apply commit_ok|by apply set_desktop_ok].
Qed.
Lemma blind_stays e g g' : history_step e g = Some g' -> blind_failure g' = false -> blind_failure g = false.
Proof.
  unfold history_step. destruct (worker_step e (clip g)) as [c'|]; [|done]. intros [= <-].
  destruct e as [| | | | | | | | | |[]| | |]; try done. by intros [? _]%orb_false_iff.
Qed.
Lemma blind_stays_run l : forall g g', history_run l g = Some g' -> blind_failure g' = false -> blind_failure g = false.
Proof.
  induction l as [|e l IH]; intros g g'; cbn [history_run]; [by intros [= <-]|].
  destruct (history_step e g) as [g1|] eqn:E; [|done]. cbn. intros Hr Hb. by eapply blind_stays, IH.
Qed.
Lemma history_run_ok l : forall g g',
  history_ok g -> history_run l g = Some g' -> blind_failure g' = false -> history_ok g'.
Proof.
  induction l as [|e l IH]; intros g g' Hg; cbn [history_run]; [by intros [= <-]|].
  destruct (history_step e g) as [g1|] eqn:E; [|done]. cbn. intros Hr Hb. eapply IH; [|done..].
  eapply history_step_ok; [done..|]. by eapply blind_stays_run.
Qed.

(** One read, from the request to the answer. *)
Definition one_read : list WorkerEvent := [AskRead; TakeReadRequest; LockRead; DesktopRead true; Observe; HandOver].
Lemma one_read_reports v g :
  read_clipboard (desktop (clip g)) = Some v -> reader (clip g) = ReadIdle -> writing (writer (clip g)) = false ->
  read_result (clip g) = None ->
  exists g', history_run one_read g = Some g' /\ last (clip_state (clip g')) = Some v /\ desktop (clip g') = desktop (clip g)
    /\ read_result (clip g') = Some (if bool_decide (last (clip_state (clip g)) = Some v) then None else Some v).
Proof.
  destruct g as [[d st rq wq rd wr rr] us ru sh bf]. cbn. intros Hd -> Hw ->. unfold history_step. cbn. rewrite Hw. cbn. rewrite Hd. cbn.
  unfold observe. case_bool_decide as Hl; cbn.
  - rewrite bool_decide_eq_false_2 by (by destruct (remote_origin st)). cbn. eexists. split; [reflexivity|]. done.
  - eexists. split; [reflexivity|]. done.
Qed.

(** ** The claim *)

(** C15: what arrived from a peer is never sent back, what the user copies is
    shared once, and a peer does not overwrite a newer copy.  In any interleaving
    of the two threads with the service and the user, from any desktop, unless a
    write failed just after the desktop could not be read: every content handed to
    the service was on the desktop by the user's hand when it was read.  A read
    that works hands over the desktop's content when it is not the last one known,
    and then not again.  A write queued while some content was known gives up, and
    changes nothing, when it then finds anything else on the desktop. *)
Theorem peers_content_not_sent_back (d : Offer) (l : list WorkerEvent) (g : History)
    (Hrun : history_run l (new_history d) = Some g) :
  (blind_failure g = false -> Forall (fun x => x.2 = true) (shared_out g))
  /\ (forall v, read_clipboard (desktop (clip g)) = Some v -> reader (clip g) = ReadIdle -> writing (writer (clip g)) = false ->
        read_result (clip g) = None ->
        exists g1 g2 g3, history_run one_read g = Some g1 /\ history_step NextRead g1 = Some g2
          /\ history_run one_read g2 = Some g3
          /\ read_result (clip g1) = Some (if bool_decide (last (clip_state (clip g)) = Some v) then None else Some v)
          /\ read_result (clip g3) = Some None)
  /\ (forall q b current, writer (clip g) = WriteRead q current -> baseline q = Some b -> current <> Some b ->
        worker_step Commit (clip g) = Some (set_writer WriteIdle (clip g))).
Proof.
  split_and!.
  - intros Hb. by destruct (history_run_ok l _ _ (new_history_ok d) Hrun Hb).
  - intros v Hd Hr Hw Hn. destruct (one_read_reports v g Hd Hr Hw Hn) as (g1 & H1 & El & Ed & Er).
    assert (Hrest : reader (clip g1) = ReadIdle /\ writer (clip g1) = writer (clip g)).
    { clear -H1 Hd Hr Hw Hn. destruct g as [[? st ? ? ? ? ?] ? ? ? ?]. cbn in *. subst. unfold history_step in H1. cbn in H1.
      rewrite Hw in H1. cbn in H1. rewrite Hd in H1. cbn in H1. destruct (observe v st). cbn in H1. by injection H1 as <-. }
    destruct Hrest as [Hr1 Hw1].
    set (g2 := note NextRead g1 (Build_Clipboard (desktop (clip g1)) (clip_state (clip g1)) (read_request (clip g1))
                (write_request (clip g1)) (reader (clip g1)) (writer (clip g1)) None)).
    destruct (one_read_reports v g2) as (g3 & H3 & _ & _ & Er3); [cbn; by rewrite Ed|done|cbn; by rewrite Hw1|done|].
    exists g1, g2, g3. split_and!; [done| |done|done|].
    + unfold history_step. cbn [worker_step]. unfold next_read. by rewrite Er.
    + rewrite Er3. by rewrite bool_decide_eq_true_2.
  - intros q b current Ew Eb Hne. cbn [worker_step]. rewrite Ew. unfold commit_remote. rewrite Eb.
    rewrite bool_decide_eq_false_2 by congruence. cbn. by destruct (clip g).
Qed.

(** The user copies, a peer's content arrives and is read. *)
Definition mine : ClipboardContent := Text (str "mine").
Definition theirs : ClipboardContent := Text (str "theirs").
Definition arrival : list WorkerEvent :=
  one_read ++ [NextRead; AskWrite theirs; TakeWriteRequest; OpenDesktop true; ReadCurrent true; Commit; SetDesktop true]
  ++ one_read.
Lemma peers_content_not_sent_back_witness :
  match history_run arrival (new_history (offer_of mine)) with
  | Some g => desktop (clip g) = offer_of theirs /\ read_result (clip g) = Some None
              /\ Forall (fun x => x.2 = true) (shared_out g)
  | None => False
  end.
Proof.
  assert (H0 : (fun g => (desktop (clip g), read_result (clip g), blind_failure g))
               <$> history_run arrival (new_history (offer_of mine)) = Some (offer_of theirs, Some None, false))
    by (vm_compute; reflexivity).
  destruct (history_run arrival (new_history (offer_of mine))) as [g|] eqn:E; [|discriminate H0].
  cbn in H0. injection H0 as Ed Er Eb. destruct (peers_content_not_sent_back _ _ _ E) as [Hs _].
  split; [exact Ed|]. split; [exact Er|]. exact (Hs Eb).
Defined.

(** What is left out: two writes queued before anything was known, of which the
    second fails on a desktop it could not read; the first is then taken for the
    user's. *)
Example blind_failure_sends_back :
  (fun g => (shared_out g, blind_failure g))
  <$> history_run ([AskWrite theirs; TakeWriteRequest; AskWrite mine; OpenDesktop true; ReadCurrent true; Commit;
                    SetDesktop true; TakeWriteRequest; OpenDesktop true; ReadCurrent false; Commit; SetDesktop false]
                   ++ one_read) (new_history {| files := true; text_offer := None; image_offer := None |})
  = Some ([(theirs, false)], true).
Proof. vm_compute. reflexivity. Qed.
