(* ===== verification/Emulation.v ===== *)
(** * Input emulation: the pointer of another device on this screen

    [crates/syntra-core/src/emulation.rs]: which peers may drive input here, who
    does, how control comes and goes ([ListenTask]); the clipboards that arrive in
    chunks; and the task that owns the emulation back end ([EmulationTask]) with
    the queue and the cells between the two ([EmulationProxy]).

    The clock, the certificate of a connection and the answer to a change of port
    are those of the world a stimulus comes in ([Env]).  A handler returns the
    task and what it does, in order.  The model is of the desktop builds: [relay]
    stays empty there.  The channels between the tasks stay open. *)

From S2P Require Import Prelude Wire ProtoTypes ProtoValid PluginApi InputCapture InputEmulation Clipboard ClientManager.

(** ** Data *)

(** Times in nanoseconds. *)
Record Env := {
  now : Z;
  certificate : SocketAddr -> option rstring;
  port_changed : Z -> result rstring Z;
  local_commit : bytes;
}.

Inductive ClipboardFallback :=
| Adapter (publication : PluginApi.PublishFileClipboard)
| Local (content : ClipboardContent).

Inductive EmulationEvent :=
| NoLongerControlled
| Left (addr : SocketAddr) (side : option Placement.t) (along : option Z)
| Connected (addr : SocketAddr) (fingerprint : rstring)
| ConnectionAttempt (fingerprint : rstring)
| Entered (addr : SocketAddr) (pos : Placement.t) (fingerprint : rstring) (first relayed : bool)
    (along : option Z)
| Disconnected (addr : SocketAddr)
| PortChanged (r : result rstring Z)
| EmulationDisabled
| EmulationEnabled (backend : rstring)
| ReleaseNotify
| AtPointerEdge (addr : SocketAddr) (edge : PointerEdge.t) (along : option Z)
| PeerHello (addr : SocketAddr) (commit : bytes)
| PeerClipboard (content : ClipboardContent)
| FileClipboard (mime_type value : rstring)
| FallBack (fallback : ClipboardFallback)
| NativeClipboard (content : ClipboardContent)
| ClipboardProtocol (addr : SocketAddr) (event : ProtoEvent).

Inductive EmulationRequest :=
| Reenable
| SetBackend (backend : option rstring)
| Release (addr : SocketAddr) (along : option Z)
| ChangePort (port : Z)
| CaptureReady (ready : bool)
| SetInputSharing (enabled : bool)
| SetIndependentPointers (enabled : bool)
| SetHopBypass (enabled : bool)
| SetMultiHop (enabled : bool)
| StepInside (edge : Side)
| PlacePointer (edge : Side)
| HidePointer
| SetPeerSides (sides : gmap IpAddr.t Position.t) (beyond : gmap Position.t rstring)
| SetUnavailablePeers (unavailable : gset rstring)
| SendProto (addr : SocketAddr) (event : ProtoEvent)
| PublishFileClipboard (contents : list (rstring * bytes)) (fallback : ClipboardFallback)
| Terminate.

Module ProxyRequest.
Inductive t :=
| Input (event : InputEvent.t) (addr : SocketAddr)
| PlacePointer (side : Position.t) (along : option Z)
| HidePointer
| StepInside (edge : PointerEdge.t)
| Remove (addr : SocketAddr)
| Terminate
| Reenable
| SetBackend (backend : option rstring)
| SetInputSharing (enabled : bool)
| SetIndependentPointers (enabled : bool)
| PublishFileClipboard (contents : list (rstring * bytes)).
End ProxyRequest.

Inductive ListenEvent :=
| Msg (event : ProtoEvent) (addr : SocketAddr)
| Accept (addr : SocketAddr) (fingerprint : rstring)
| Rejected (fingerprint : rstring).

Inductive ClipboardTransferKind := TextTransfer | ImageTransfer (width height : Z).
Record ClipboardTransfer := {
  kind : ClipboardTransferKind;
  next : Z;
  chunks : Z;
  total_len : Z;
  received : bytes;
  started : Z;
}.
Definition new_transfer (env : Env) (kind : ClipboardTransferKind) (total_len chunks : Z) : ClipboardTransfer :=
  {| kind := kind; next := 0; chunks := chunks; total_len := total_len; received := []; started := now env |}.

Definition seconds (n : Z) : Z := n * 1000000000.
Definition CLIPBOARD_TRANSFER_TIMEOUT : Z := seconds 30.
Definition PEER_SILENCE_TIMEOUT : Z := seconds 3.
Definition HANDOFF_COOLDOWN : Z := seconds 3.
(** The half second between two [Leave]s, the two between two attempts. *)
Definition STALE_LEAVE : Z := 500000000.
Definition REJECTED_PAUSE : Z := seconds 2.

Record ListenTask := {
  capture_ready : bool;
  independent_pointers : bool;
  (** [input_sharing] *)
  listen_sharing : bool;
  active_inputs : gset SocketAddr;
  return_position_peers : gset SocketAddr;
  entered_from : gmap SocketAddr Position.t;
  (** [peer_sides] *)
  peer_side : gmap IpAddr.t Position.t;
  peer_beyond : gmap Position.t rstring;
  hop_bypass : bool;
  (** [multi_hop] *)
  listen_multi_hop : bool;
  (** [peer_fingerprints] *)
  peer_certificates : gmap SocketAddr rstring;
  unavailable_peers : gset rstring;
  handoff_cooldown : gmap Position.t Z;
  (** the locals of [run] *)
  last_response : gmap SocketAddr Z;
  clipboard_transfers : gmap (SocketAddr * Z) ClipboardTransfer;
  rejected_connections : gmap rstring Z;
  stale_leaves : gmap SocketAddr Z;
  (** the answer [publish_file_clipboard] waits for *)
  publishing : option ClipboardFallback;
  (** [false] once the loop is left *)
  listening : bool;
}.
Definition set_capture_ready v (t : ListenTask) : ListenTask :=
  Build_ListenTask v (independent_pointers t) (listen_sharing t) (active_inputs t)
    (return_position_peers t) (entered_from t) (peer_side t) (peer_beyond t) (hop_bypass t)
    (listen_multi_hop t) (peer_certificates t) (unavailable_peers t) (handoff_cooldown t)
    (last_response t) (clipboard_transfers t) (rejected_connections t) (stale_leaves t) (publishing t)
    (listening t).
Definition set_independent_pointers v (t : ListenTask) : ListenTask :=
  Build_ListenTask (capture_ready t) v (listen_sharing t) (active_inputs t) (return_position_peers t)
    (entered_from t) (peer_side t) (peer_beyond t) (hop_bypass t) (listen_multi_hop t)
    (peer_certificates t) (unavailable_peers t) (handoff_cooldown t) (last_response t)
    (clipboard_transfers t) (rejected_connections t) (stale_leaves t) (publishing t) (listening t).
Definition set_listen_sharing v (t : ListenTask) : ListenTask :=
  Build_ListenTask (capture_ready t) (independent_pointers t) v (active_inputs t)
    (return_position_peers t) (entered_from t) (peer_side t) (peer_beyond t) (hop_bypass t)
    (listen_multi_hop t) (peer_certificates t) (unavailable_peers t) (handoff_cooldown t)
    (last_response t) (clipboard_transfers t) (rejected_connections t) (stale_leaves t) (publishing t)
    (listening t).
Definition set_active_inputs v (t : ListenTask) : ListenTask :=
  Build_ListenTask (capture_ready t) (independent_pointers t) (listen_sharing t) v
    (return_position_peers t) (entered_from t) (peer_side t) (peer_beyond t) (hop_bypass t)
    (listen_multi_hop t) (peer_certificates t) (unavailable_peers t) (handoff_cooldown t)
    (last_response t) (clipboard_transfers t) (rejected_connections t) (stale_leaves t) (publishing t)
    (listening t).
Definition set_return_position_peers v (t : ListenTask) : ListenTask :=
  Build_ListenTask (capture_ready t) (independent_pointers t) (listen_sharing t) (active_inputs t) v
    (entered_from t) (peer_side t) (peer_beyond t) (hop_bypass t) (listen_multi_hop t)
    (peer_certificates t) (unavailable_peers t) (handoff_cooldown t) (last_response t)
    (clipboard_transfers t) (rejected_connections t) (stale_leaves t) (publishing t) (listening t).
Definition set_entered_from v (t : ListenTask) : ListenTask :=
  Build_ListenTask (capture_ready t) (independent_pointers t) (listen_sharing t) (active_inputs t)
    (return_position_peers t) v (peer_side t) (peer_beyond t) (hop_bypass t) (listen_multi_hop t)
    (peer_certificates t) (unavailable_peers t) (handoff_cooldown t) (last_response t)
    (clipboard_transfers t) (rejected_connections t) (stale_leaves t) (publishing t) (listening t).
Definition set_peer_side v (t : ListenTask) : ListenTask :=
  Build_ListenTask (capture_ready t) (independent_pointers t) (listen_sharing t) (active_inputs t)
    (return_position_peers t) (entered_from t) v (peer_beyond t) (hop_bypass t) (listen_multi_hop t)
    (peer_certificates t) (unavailable_peers t) (handoff_cooldown t) (last_response t)
    (clipboard_transfers t) (rejected_connections t) (stale_leaves t) (publishing t) (listening t).
Definition set_peer_beyond v (t : ListenTask) : ListenTask :=
  Build_ListenTask (capture_ready t) (independent_pointers t) (listen_sharing t) (active_inputs t)
    (return_position_peers t) (entered_from t) (peer_side t) v (hop_bypass t) (listen_multi_hop t)
    (peer_certificates t) (unavailable_peers t) (handoff_cooldown t) (last_response t)
    (clipboard_transfers t) (rejected_connections t) (stale_leaves t) (publishing t) (listening t).
Definition set_hop_bypass v (t : ListenTask) : ListenTask :=
  Build_ListenTask (capture_ready t) (independent_pointers t) (listen_sharing t) (active_inputs t)
    (return_position_peers t) (entered_from t) (peer_side t) (peer_beyond t) v (listen_multi_hop t)
    (peer_certificates t) (unavailable_peers t) (handoff_cooldown t) (last_response t)
    (clipboard_transfers t) (rejected_connections t) (stale_leaves t) (publishing t) (listening t).
Definition set_listen_multi_hop v (t : ListenTask) : ListenTask :=
  Build_ListenTask (capture_ready t) (independent_pointers t) (listen_sharing t) (active_inputs t)
    (return_position_peers t) (entered_from t) (peer_side t) (peer_beyond t) (hop_bypass t) v
    (peer_certificates t) (unavailable_peers t) (handoff_cooldown t) (last_response t)
    (clipboard_transfers t) (rejected_connections t) (stale_leaves t) (publishing t) (listening t).
Definition set_peer_certificates v (t : ListenTask) : ListenTask :=
  Build_ListenTask (capture_ready t) (independent_pointers t) (listen_sharing t) (active_inputs t)
    (return_position_peers t) (entered_from t) (peer_side t) (peer_beyond t) (hop_bypass t)
    (listen_multi_hop t) v (unavailable_peers t) (handoff_cooldown t) (last_response t)
    (clipboard_transfers t) (rejected_connections t) (stale_leaves t) (publishing t) (listening t).
Definition set_unavailable_peers v (t : ListenTask) : ListenTask :=
  Build_ListenTask (capture_ready t) (independent_pointers t) (listen_sharing t) (active_inputs t)
    (return_position_peers t) (entered_from t) (peer_side t) (peer_beyond t) (hop_bypass t)
    (listen_multi_hop t) (peer_certificates t) v (handoff_cooldown t) (last_response t)
    (clipboard_transfers t) (rejected_connections t) (stale_leaves t) (publishing t) (listening t).
Definition set_handoff_cooldown v (t : ListenTask) : ListenTask :=
  Build_ListenTask (capture_ready t) (independent_pointers t) (listen_sharing t) (active_inputs t)
    (return_position_peers t) (entered_from t) (peer_side t) (peer_beyond t) (hop_bypass t)
    (listen_multi_hop t) (peer_certificates t) (unavailable_peers t) v (last_response t)
    (clipboard_transfers t) (rejected_connections t) (stale_leaves t) (publishing t) (listening t).
Definition set_last_response v (t : ListenTask) : ListenTask :=
  Build_ListenTask (capture_ready t) (independent_pointers t) (listen_sharing t) (active_inputs t)
    (return_position_peers t) (entered_from t) (peer_side t) (peer_beyond t) (hop_bypass t)
    (listen_multi_hop t) (peer_certificates t) (unavailable_peers t) (handoff_cooldown t) v
    (clipboard_transfers t) (rejected_connections t) (stale_leaves t) (publishing t) (listening t).
Definition set_clipboard_transfers v (t : ListenTask) : ListenTask :=
  Build_ListenTask (capture_ready t) (independent_pointers t) (listen_sharing t) (active_inputs t)
    (return_position_peers t) (entered_from t) (peer_side t) (peer_beyond t) (hop_bypass t)
    (listen_multi_hop t) (peer_certificates t) (unavailable_peers t) (handoff_cooldown t)
    (last_response t) v (rejected_connections t) (stale_leaves t) (publishing t) (listening t).
Definition set_rejected_connections v (t : ListenTask) : ListenTask :=
  Build_ListenTask (capture_ready t) (independent_pointers t) (listen_sharing t) (active_inputs t)
    (return_position_peers t) (entered_from t) (peer_side t) (peer_beyond t) (hop_bypass t)
    (listen_multi_hop t) (peer_certificates t) (unavailable_peers t) (handoff_cooldown t)
    (last_response t) (clipboard_transfers t) v (stale_leaves t) (publishing t) (listening t).
Definition set_stale_leaves v (t : ListenTask) : ListenTask :=
  Build_ListenTask (capture_ready t) (independent_pointers t) (listen_sharing t) (active_inputs t)
    (return_position_peers t) (entered_from t) (peer_side t) (peer_beyond t) (hop_bypass t)
    (listen_multi_hop t) (peer_certificates t) (unavailable_peers t) (handoff_cooldown t)
    (last_response t) (clipboard_transfers t) (rejected_connections t) v (publishing t) (listening t).
Definition set_publishing v (t : ListenTask) : ListenTask :=
  Build_ListenTask (capture_ready t) (independent_pointers t) (listen_sharing t) (active_inputs t)
    (return_position_peers t) (entered_from t) (peer_side t) (peer_beyond t) (hop_bypass t)
    (listen_multi_hop t) (peer_certificates t) (unavailable_peers t) (handoff_cooldown t)
    (last_response t) (clipboard_transfers t) (rejected_connections t) (stale_leaves t) v (listening t).
Definition set_listening v (t : ListenTask) : ListenTask :=
  Build_ListenTask (capture_ready t) (independent_pointers t) (listen_sharing t) (active_inputs t)
    (return_position_peers t) (entered_from t) (peer_side t) (peer_beyond t) (hop_bypass t)
    (listen_multi_hop t) (peer_certificates t) (unavailable_peers t) (handoff_cooldown t)
    (last_response t) (clipboard_transfers t) (rejected_connections t) (stale_leaves t) (publishing t) v.

(** The cells shared by the two tasks ([EmulationProxy]). *)
Record Cells := {
  emulation_active : bool;
  emulation_ready : bool;
  (** [input_sharing] *)
  sharing_cell : bool;
  (** [independent_pointers] *)
  independent_cell : bool;
  exit_requested : bool;
}.
Definition set_emulation_active v (c : Cells) : Cells :=
  Build_Cells v (emulation_ready c) (sharing_cell c) (independent_cell c) (exit_requested c).
Definition set_emulation_ready v (c : Cells) : Cells :=
  Build_Cells (emulation_active c) v (sharing_cell c) (independent_cell c) (exit_requested c).
Definition set_sharing_cell v (c : Cells) : Cells :=
  Build_Cells (emulation_active c) (emulation_ready c) v (independent_cell c) (exit_requested c).
Definition set_independent_cell v (c : Cells) : Cells :=
  Build_Cells (emulation_active c) (emulation_ready c) (sharing_cell c) v (exit_requested c).
Definition set_exit_requested v (c : Cells) : Cells :=
  Build_Cells (emulation_active c) (emulation_ready c) (sharing_cell c) (independent_cell c) v.

(** ** Actions of the listen task *)

Inductive ListenOutput :=
| Reply (addr : SocketAddr) (event : ProtoEvent)
| Up (event : EmulationEvent)
| ToProxy (request : ProxyRequest.t)
| RequestPortChange (port : Z)
(** the cells shared with the capture task *)
| MarkEntry (edge : Side) (at_ : Z)
| MarkAlong (along : option Z).

Record Listen := { lt : ListenTask; cells : Cells }.

Definition lact : Type := Listen -> Listen * list ListenOutput.
Definition skip : lact := fun l => (l, []).
Definition put (o : ListenOutput) : lact := fun l => (l, [o]).
Definition chain (a b : lact) : lact := fun l =>
  let (l, before) := a l in let (l, after) := b l in (l, before ++ after).
#[local] Infix ">>>" := chain (at level 62, right associativity).
Definition update (f : ListenTask -> ListenTask) : lact := fun l => (Build_Listen (f (lt l)) (cells l), []).
Definition update_cells (f : Cells -> Cells) : lact := fun l => (Build_Listen (lt l) (f (cells l)), []).
Definition look (f : Listen -> lact) : lact := fun l => f l l.
Definition given (b : bool) (a : lact) : lact := if b then a else skip.
Fixpoint for_all {A} (f : A -> lact) (l : list A) : lact :=
  match l with [] => skip | x :: l => f x >>> for_all f l end.

Definition up (e : EmulationEvent) : lact := put (Up e).
Definition proxy (r : ProxyRequest.t) : lact := put (ToProxy r).
Definition reply (addr : SocketAddr) (event : ProtoEvent) : lact := put (Reply addr event).

(** ** The proxy *)

Definition proxy_consume (event : InputEvent.t) (addr : SocketAddr) : lact := look (fun l =>
  given (emulation_active (cells l) && sharing_cell (cells l)) (proxy (ProxyRequest.Input event addr))).
Definition proxy_remove (addr : SocketAddr) : lact := proxy (ProxyRequest.Remove addr).
Definition place_pointer_along (side : Position.t) (along : option Z) : lact :=
  proxy (ProxyRequest.PlacePointer side along).
Definition place_pointer (side : Position.t) : lact := place_pointer_along side None.
Definition proxy_set_independent_pointers (enabled : bool) : lact :=
  update_cells (set_independent_cell enabled) >>> proxy (ProxyRequest.SetIndependentPointers enabled).
Definition proxy_set_input_sharing (enabled : bool) : lact :=
  update_cells (set_sharing_cell enabled) >>> proxy (ProxyRequest.SetInputSharing enabled).
(** The cell [emulation_active] follows the events of the other task. *)
Definition proxy_event (e : EmulationEvent) : lact :=
  match e with
  | EmulationEnabled _ => update_cells (set_emulation_active true)
  | EmulationDisabled => update_cells (set_emulation_active false)
  | _ => skip
  end.
Definition proxy_terminate : lact :=
  update_cells (set_exit_requested true) >>> proxy ProxyRequest.Terminate.

(** ** Control of this screen *)

Definition to_ipc_pos (pos : Position.t) : Placement.t :=
  match pos with
  | Position.Left => Placement.Left
  | Position.Right => Placement.Right
  | Position.Top => Placement.Top
  | Position.Bottom => Placement.Bottom
  end.
Definition side_of_edge (edge : PointerEdge.t) : Position.t :=
  match edge with
  | PointerEdge.Left => Position.Left
  | PointerEdge.Right => Position.Right
  | PointerEdge.Top => Position.Top
  | PointerEdge.Bottom => Position.Bottom
  end.
Definition edge_matches (entered : Position.t) (edge : PointerEdge.t) : bool :=
  match entered, edge with
  | Position.Left, PointerEdge.Left | Position.Right, PointerEdge.Right
  | Position.Top, PointerEdge.Top | Position.Bottom, PointerEdge.Bottom => true
  | _, _ => false
  end.

Definition handoff_allowed (unavailable : gset rstring) (cooldown : gmap Position.t Z) (target : rstring)
    (side : Position.t) (now : Z) : bool :=
  negb (bool_decide (target ∈ unavailable))
  && match cooldown !! side with Some until => until <=? now | None => true end.

Definition input_accepted (sharing emulation_ready capture_ready independent : bool) : bool :=
  sharing && emulation_ready && (capture_ready || independent).
Definition accepts_input (l : Listen) : bool :=
  input_accepted (listen_sharing (lt l)) (emulation_ready (cells l)) (capture_ready (lt l))
    (independent_pointers (lt l)).

(** [f32::is_finite] *)
Definition f32_finite (bits : Z) : bool := negb (Z.land (Z.shiftr bits 23) 255 =? 255).

Definition return_pointer (addr : SocketAddr) (along : option Z) : lact := look (fun l =>
  reply addr
    match along with
    | Some at_ =>
        if f32_finite at_ && bool_decide (addr ∈ return_position_peers (lt l))
        then ProtoEvent.LeaveAt at_ else ProtoEvent.Leave 0
    | None => ProtoEvent.Leave 0
    end).

Definition end_control_at (addr : SocketAddr) (along : option Z) : lact := look (fun l =>
  let was_active := bool_decide (addr ∈ active_inputs (lt l)) in
  let rest := active_inputs (lt l) ∖ {[addr]} in
  update (set_active_inputs rest) >>>
  given was_active (up (Left addr (to_ipc_pos <$> entered_from (lt l) !! addr) along)) >>>
  given (was_active && bool_decide (rest = ∅)) (up NoLongerControlled)).
Definition end_control (addr : SocketAddr) : lact := end_control_at addr None.

Section listen.
Context `{!HashOrder}.
Context (env : Env).

(** The side with that certificate: [find] over a hash map. *)
Definition side_with (beyond : gmap Position.t rstring) (fingerprint : rstring) : option Position.t :=
  fst <$> List.find (fun e => bool_decide (e.2 = fingerprint)) (hash_order (map_to_list beyond)).

Definition entry_side (t : ListenTask) (addr : SocketAddr) (fingerprint : rstring) (pos : Position.t)
    (through : option Position.t) : Position.t :=
  let layout_side := match side_with (peer_beyond t) fingerprint with
                     | Some side => Some side
                     | None => peer_side t !! sa_ip addr
                     end in
  match through, layout_side with
  | Some side, _ | None, Some side => side
  | None, None => pos
  end.

Definition handle_enter (addr : SocketAddr) (pos : Position.t) (through : option Position.t)
    (along : option Z) : lact := look (fun l =>
  if negb (accepts_input l) then proxy_remove addr >>> reply addr (ProtoEvent.Leave 0)
  else
    match certificate env addr with
    | None => reply addr (ProtoEvent.Leave 0)
    | Some fingerprint =>
        let side := entry_side (lt l) addr fingerprint pos through in
        let first_enter := negb (bool_decide (addr ∈ active_inputs (lt l))) in
        let places := first_enter && listen_multi_hop (lt l) in
        update (fun t => set_entered_from (<[addr := side]> (entered_from t))
                           (set_active_inputs ({[addr]} ∪ active_inputs t) t)) >>>
        given places (put (MarkEntry (capture_pos (to_ipc_pos side)) (now env))) >>>
        given first_enter (put (MarkAlong along)) >>>
        up ReleaseNotify >>>
        up (Entered addr (to_ipc_pos side) fingerprint first_enter (bool_decide (is_Some through)) along) >>>
        given places (place_pointer_along side along) >>>
        reply addr (ProtoEvent.Ack 0)
    end).

(** Back out the way it came in. *)
Definition normal_return (t : ListenTask) (addr : SocketAddr) (edge : PointerEdge.t) (target : rstring) : bool :=
  bool_decide (peer_certificates t !! addr = Some target)
  && match entered_from t !! addr with Some pos => edge_matches pos edge | None => false end.

(** [start_handoff]: what to do, if the pointer is handed on *)
Definition start_handoff (t : ListenTask) (addr : SocketAddr) (edge : PointerEdge.t) : option lact :=
  let side := side_of_edge edge in
  if negb (listen_multi_hop t) || negb (bool_decide (addr ∈ active_inputs t)) then None
  else
    match peer_beyond t !! side with
    | None => None
    | Some target =>
        if negb (handoff_allowed (unavailable_peers t) (handoff_cooldown t) target side (now env))
           || normal_return t addr edge target
        then None
        else Some (end_control addr >>>
                   update (fun t => set_entered_from (delete addr (entered_from t)) t) >>>
                   proxy_remove addr >>> reply addr (ProtoEvent.Handoff target side))
    end.

Definition handoff_refused (addr : SocketAddr) (side : Position.t) : lact :=
  update (fun t =>
    set_entered_from (<[addr := default side (peer_side t !! sa_ip addr)]> (entered_from t))
      (set_active_inputs ({[addr]} ∪ active_inputs t)
         (set_handoff_cooldown (<[side := now env + HANDOFF_COOLDOWN]> (handoff_cooldown t)) t))) >>>
  place_pointer side.

(** ** Clipboards that arrive in chunks *)

Definition start_clipboard_transfer (addr : SocketAddr) (transfer_id : Z) (transfer : ClipboardTransfer)
    (transfers : gmap (SocketAddr * Z) ClipboardTransfer) : gmap (SocketAddr * Z) ClipboardTransfer :=
  <[(addr, transfer_id) := transfer]> (filter (fun e => e.1.1 <> addr) transfers).

(** A chunk that fits: the transfer with it. *)
Definition take_chunk (index : Z) (data : bytes) (transfer : ClipboardTransfer) : option ClipboardTransfer :=
  if (index =? next transfer) && (len data <=? MAX_CLIPBOARD_CHUNK_SIZE)
     && (len (received transfer) + len data <=? total_len transfer)
  then Some {| kind := kind transfer; next := next transfer + 1; chunks := chunks transfer;
               total_len := total_len transfer; received := received transfer ++ data;
               started := started transfer |}
  else None.

Definition transfer_content (transfer : ClipboardTransfer) : option ClipboardContent :=
  match kind transfer with
  | TextTransfer => if utf8_valid (received transfer) then Some (Text (received transfer)) else None
  | ImageTransfer width height => Some (Image width height (received transfer))
  end.

Definition receive_chunk (key : SocketAddr * Z) (index : Z) (data : bytes) : lact := look (fun l =>
  let transfers := clipboard_transfers (lt l) in
  match transfers !! key with
  | None => skip
  | Some transfer =>
      match take_chunk index data transfer with
      | None => update (set_clipboard_transfers (delete key transfers))
      | Some transfer =>
          if next transfer =? chunks transfer then
            update (set_clipboard_transfers (delete key transfers)) >>>
            match (if len (received transfer) =? total_len transfer then transfer_content transfer else None) with
            | Some content => up (PeerClipboard content)
            | None => skip
            end
          else update (set_clipboard_transfers (<[key := transfer]> transfers))
      end
  end).

(** ** Messages *)

(** The messages handed to the service. *)
Definition is_service_protocol (event : ProtoEvent) : bool :=
  match event with
  | ProtoEvent.ClipboardCaps _ | ProtoEvent.ClipboardManifest _ _
  | ProtoEvent.ClipboardFileRequest _ _ _ _ _ | ProtoEvent.ClipboardFileChunk _ _ _ _ _
  | ProtoEvent.ClipboardFileComplete _ _ _ _ _ | ProtoEvent.ClipboardTransferCancel _ _ _
  | ProtoEvent.ClipboardTransferProgress _ _ _ _ | ProtoEvent.ManualFileOffer _ _ _
  | ProtoEvent.ManualFileDecision _ _ | ProtoEvent.ManualFileRequest _ _ _
  | ProtoEvent.ManualFileChunk _ _ _ | ProtoEvent.ManualFileComplete _ _
  | ProtoEvent.ManualFileResult _ _ _ | ProtoEvent.ManualFileCancel _
  | ProtoEvent.HistorySyncRequest _ _ | ProtoEvent.HistoryRecordStart _ _ _ _
  | ProtoEvent.HistoryRecordChunk _ _ _ _ | ProtoEvent.HistorySyncPageEnd _ _
  | ProtoEvent.HistoryClearBoundaryRequest _ | ProtoEvent.HistoryClearBoundary _ _
  | ProtoEvent.HistoryClearApply _ _ | ProtoEvent.HistoryClearAck _ _ _
  | ProtoEvent.ProfileStart _ _ _ _ _ _ | ProtoEvent.ProfileChunk _ _ _
  | ProtoEvent.ProfileRequest _ | ProtoEvent.ProfileChanged => true
  | _ => false
  end.

(** Whether the last of these was long enough ago. *)
Definition paused_for (pause : Z) (mark : option Z) : bool :=
  match mark with Some at_ => pause <=? now env - at_ | None => true end.

(** Input of a peer: emulated, or answered by [Leave] when it has no control. *)
Definition handle_input (event : InputEvent.t) (addr : SocketAddr) : lact := look (fun l =>
  let controls := bool_decide (addr ∈ active_inputs (lt l)) in
  if listen_sharing (lt l) && controls then proxy_consume event addr
  else if controls then skip
  else
    update (fun t => set_stale_leaves (<[addr := now env]> (stale_leaves t)) t) >>>
    given (paused_for STALE_LEAVE (stale_leaves (lt l) !! addr)) (reply addr (ProtoEvent.Leave 0))).

Definition start_transfer (addr : SocketAddr) (transfer_id : Z) (kind : ClipboardTransferKind)
    (total_len chunks : Z) : lact :=
  update (fun t => set_clipboard_transfers
                     (start_clipboard_transfer addr transfer_id (new_transfer env kind total_len chunks)
                        (clipboard_transfers t)) t).

Definition handle_message (event : ProtoEvent) (addr : SocketAddr) : lact :=
  match event with
  | ProtoEvent.InputCapabilities bits =>
      update (fun t => set_return_position_peers
                         (if Z.land bits CAP_RETURN_POSITION =? 0
                          then return_position_peers t ∖ {[addr]}
                          else {[addr]} ∪ return_position_peers t) t)
  | ProtoEvent.EnterVia side via =>
      look (fun l => handle_enter addr side (side_with (peer_beyond (lt l)) via) None)
  | ProtoEvent.Enter pos => handle_enter addr pos None None
  | ProtoEvent.EnterAt side along => handle_enter addr side None (Some along)
  | ProtoEvent.Leave _ => end_control addr >>> proxy_remove addr >>> reply addr (ProtoEvent.Ack 0)
  | ProtoEvent.Input event => handle_input event addr
  | ProtoEvent.Handoff _ side => handoff_refused addr side
  | ProtoEvent.Ping => look (fun l => reply addr (ProtoEvent.Pong (accepts_input l)))
  | ProtoEvent.Hello commit =>
      reply addr (ProtoEvent.Hello (local_commit env)) >>> up (PeerHello addr commit)
  | ProtoEvent.ClipboardStart transfer_id total_len chunks =>
      start_transfer addr transfer_id TextTransfer total_len chunks
  | ProtoEvent.ClipboardImageStart transfer_id width height total_len chunks =>
      start_transfer addr transfer_id (ImageTransfer width height) total_len chunks
  | ProtoEvent.ClipboardChunk transfer_id index data => receive_chunk (addr, transfer_id) index data
  | event => given (is_service_protocol event) (up (ClipboardProtocol addr event))
  end.

Definition heard_from (addr : SocketAddr) : lact :=
  update (fun t => set_last_response (<[addr := now env]> (last_response t)) t).

Definition handle_listen_event (e : ListenEvent) : lact :=
  match e with
  | Msg event addr => heard_from addr >>> handle_message event addr
  | Accept addr fingerprint =>
      update (fun t => set_return_position_peers (return_position_peers t ∖ {[addr]}) t) >>>
      heard_from addr >>>
      update (fun t => set_peer_certificates (<[addr := fingerprint]> (peer_certificates t)) t) >>>
      up (Connected addr fingerprint)
  | Rejected fingerprint =>
      look (fun l =>
        update (fun t => set_rejected_connections (<[fingerprint := now env]> (rejected_connections t)) t) >>>
        given (paused_for REJECTED_PAUSE (rejected_connections (lt l) !! fingerprint))
          (up (ConnectionAttempt fingerprint)))
  end.

(** ** Events of the emulation task *)

Definition handle_pointer_edge (addr : SocketAddr) (edge : PointerEdge.t) (along : option Z) : lact :=
  look (fun l =>
    match start_handoff (lt l) addr edge with
    | Some handed_on => handed_on
    | None =>
        given (bool_decide (addr ∈ active_inputs (lt l))
               && match entered_from (lt l) !! addr with Some pos => edge_matches pos edge | None => false end)
          (end_control_at addr along >>> proxy_remove addr >>> return_pointer addr along)
    end).
Definition handle_task_event (e : EmulationEvent) : lact :=
  proxy_event e >>>
  match e with
  | AtPointerEdge addr edge along => handle_pointer_edge addr edge along
  | e => up e
  end.

(** ** Requests of the service *)

Definition edge_of_side (edge : Side) : PointerEdge.t :=
  match edge with
  | Side.Left => PointerEdge.Left
  | Side.Right => PointerEdge.Right
  | Side.Top => PointerEdge.Top
  | Side.Bottom => PointerEdge.Bottom
  end.
Definition position_of_side (edge : Side) : Position.t :=
  match edge with
  | Side.Left => Position.Left
  | Side.Right => Position.Right
  | Side.Top => Position.Top
  | Side.Bottom => Position.Bottom
  end.

Definition set_sharing (enabled : bool) : lact :=
  update (set_listen_sharing enabled) >>> proxy_set_input_sharing enabled >>>
  given (negb enabled)
    (look (fun l =>
       update (set_active_inputs ∅) >>>
       for_all (fun addr => proxy_remove addr >>> reply addr (ProtoEvent.Leave 0))
         (hash_order (elements (active_inputs (lt l)))))).

Definition handle_emulation_request (request : EmulationRequest) : lact :=
  match request with
  | Reenable => proxy ProxyRequest.Reenable
  | SetBackend backend => proxy (ProxyRequest.SetBackend backend)
  | Release addr along => return_pointer addr along
  | ChangePort port => put (RequestPortChange port) >>> up (PortChanged (port_changed env port))
  | CaptureReady ready => update (set_capture_ready ready)
  | SetIndependentPointers enabled =>
      update (set_independent_pointers enabled) >>> proxy_set_independent_pointers enabled
  | SetHopBypass enabled => update (set_hop_bypass enabled)
  | SetMultiHop enabled => update (set_listen_multi_hop enabled)
  | StepInside edge => proxy (ProxyRequest.StepInside (edge_of_side edge))
  | HidePointer => proxy ProxyRequest.HidePointer
  | PlacePointer edge => place_pointer (position_of_side edge)
  | SetPeerSides sides beyond => update (fun t => set_peer_beyond beyond (set_peer_side sides t))
  | SetUnavailablePeers unavailable => update (set_unavailable_peers unavailable)
  | SetInputSharing enabled => set_sharing enabled
  | SendProto addr event => reply addr event
  | PublishFileClipboard contents fallback =>
      update (set_publishing (Some fallback)) >>> proxy (ProxyRequest.PublishFileClipboard contents)
  | Terminate => update (set_listening false) >>> proxy_terminate
  end.

(** The answer of the emulation task to [PublishFileClipboard]. *)
Definition handle_published (r : result rstring unit) : lact := look (fun l =>
  update (set_publishing None) >>>
  match r, publishing (lt l) with
  | Err _, Some fallback => up (FallBack fallback)
  | _, _ => skip
  end).

(** ** The watchdog *)

Definition expire_peer (addr : SocketAddr) : lact := look (fun l =>
  end_control addr >>>
  update (fun t => set_return_position_peers (return_position_peers t ∖ {[addr]})
                     (set_peer_certificates (delete addr (peer_certificates t))
                        (set_entered_from (delete addr (entered_from t)) t))) >>>
  proxy_remove addr >>> up (Disconnected addr) >>>
  given (bool_decide (addr ∈ active_inputs (lt l))) (reply addr (ProtoEvent.Leave 0))).

Definition handle_tick : lact := look (fun l =>
  let silent := fun at_ => PEER_SILENCE_TIMEOUT <? now env - at_ in
  update (fun t => set_last_response (filter (fun e => silent e.2 = false) (last_response t)) t) >>>
  for_all expire_peer (hash_order (fst <$> List.filter (fun e => silent e.2) (map_to_list (last_response (lt l))))) >>>
  update (fun t => set_clipboard_transfers
                     (filter (fun e => now env - started e.2 < CLIPBOARD_TRANSFER_TIMEOUT) (clipboard_transfers t)) t)).

(** ** The loop of [run] *)

Inductive ListenStimulus :=
| FromListener (e : ListenEvent)
| FromTask (e : EmulationEvent)
| FromService (request : EmulationRequest)
| Published (r : result rstring unit)
| Tick.

(** Whether the task is at the [select!] of its loop, or waits for that answer. *)
Definition takes (t : ListenTask) (x : ListenStimulus) : bool :=
  listening t && match x with
                 | Published _ => bool_decide (is_Some (publishing t))
                 | _ => bool_decide (publishing t = None)
                 end.
Definition listen_step (x : ListenStimulus) : lact := look (fun l =>
  given (takes (lt l) x)
    match x with
    | FromListener e => handle_listen_event e
    | FromTask e => handle_task_event e
    | FromService request => handle_emulation_request request
    | Published r => handle_published r
    | Tick => handle_tick
    end).
End listen.

(** [Emulation::new] and [EmulationProxy::new] *)
Definition new_listen : Listen := {|
  lt := Build_ListenTask false false true ∅ ∅ ∅ ∅ ∅ false true ∅ ∅ ∅ ∅ ∅ ∅ ∅ None true;
  cells := Build_Cells false false true false false |}.
