(* ===== verification/EmulationTask.v ===== *)
(** * Input emulation: the task that owns the back end

    [EmulationTask] of [crates/syntra-core/src/emulation.rs]: it creates a back
    end, replays the peers' input on it, and takes it down again when it fails,
    is replaced or is told to stop.  Requests come in a queue filled by the
    listen task; the cells are shared with it.  [u64] handles are counted up from
    zero, one per peer that sends input. *)

From S2P Require Import Prelude Wire ProtoTypes ProtoValid InputEmulation Clipboard ClientManager Emulation.

(** ** Data *)

Inductive Phase (W : Type) :=
(** [initialize_emulation] *)
| Initializing
(** [do_emulation_session]; whether the clipboard of the back end is polled *)
| Session (d : InputEmulation W) (clipboard_active : bool)
(** waiting for [Reenable] *)
| Inactive
| Stopped.
Arguments Initializing {W}.
Arguments Session {W} d clipboard_active.
Arguments Inactive {W}.
Arguments Stopped {W}.

Record EmulationTask (W : Type) := {
  emu_backend : option rstring;
  emu_restart_now : bool;
  task_handles : gmap SocketAddr Z;
  task_buttons : gmap SocketAddr (gset Z);
  next_id : Z;
  phase : Phase W;
  (** ghost: what the back ends taken down were asked to do *)
  retired : list (list Call);
}.
Arguments emu_backend {W} _.
Arguments emu_restart_now {W} _.
Arguments task_handles {W} _.
Arguments task_buttons {W} _.
Arguments next_id {W} _.
Arguments phase {W} _.
Arguments retired {W} _.
Arguments Build_EmulationTask {W} _ _ _ _ _ _ _.

(** What the task tells the listen task, and its answers to publications. *)
Inductive TaskOutput :=
| TellEvent (e : EmulationEvent)
| AnswerPublish (r : result rstring unit).

Record Task (W : Type) := { et : EmulationTask W; shared : Cells }.
Arguments et {W} _.
Arguments shared {W} _.
Arguments Build_Task {W} _ _.

Section task.
Context {W : Type} `{!EmulationBackend W} `{!HashOrder}.
Implicit Types (t : EmulationTask W) (s : Task W) (d : InputEmulation W).

Definition set_phase v t : EmulationTask W :=
  Build_EmulationTask (emu_backend t) (emu_restart_now t) (task_handles t) (task_buttons t) (next_id t) v (retired t).
Definition set_peers handles buttons t : EmulationTask W :=
  Build_EmulationTask (emu_backend t) (emu_restart_now t) handles buttons (next_id t) (phase t) (retired t).
Definition set_next_id v t : EmulationTask W :=
  Build_EmulationTask (emu_backend t) (emu_restart_now t) (task_handles t) (task_buttons t) v (phase t) (retired t).
Definition switch_backend backend restart t : EmulationTask W :=
  Build_EmulationTask backend restart (task_handles t) (task_buttons t) (next_id t) (phase t) (retired t).
Definition retire (l : list Call) t : EmulationTask W :=
  Build_EmulationTask (emu_backend t) (emu_restart_now t) (task_handles t) (task_buttons t) (next_id t)
    (phase t) (retired t ++ [l]).
Definition forget_peers t : EmulationTask W := set_peers ∅ ∅ t.

Definition new_task (backend : option rstring) : EmulationTask W :=
  Build_EmulationTask backend false ∅ ∅ 0 Initializing [].

(** ** Input *)

(** The handle of a peer, made at its first input. *)
Definition peer_handle (addr : SocketAddr) t d : EmulationTask W * InputEmulation W * Z :=
  match task_handles t !! addr with
  | Some handle => (t, d, handle)
  | None =>
      let handle := next_id t in
      let (d, _) := emu_create handle d in
      (set_peers (<[addr := handle]> (task_handles t)) (task_buttons t) (set_next_id (handle + 1) t), d, handle)
  end.

Definition note_button (event : InputEvent.t) (addr : SocketAddr) t : EmulationTask W :=
  match event with
  | InputEvent.Pointer (PointerEvent.Button _ button state) =>
      let held := default ∅ (task_buttons t !! addr) in
      set_peers (task_handles t)
        (<[addr := if state =? 0 then held ∖ {[button]} else {[button]} ∪ held]> (task_buttons t)) t
  | _ => t
  end.

(** The arm [Input] of a session that shares input. *)
Definition emulate (event : InputEvent.t) (addr : SocketAddr) t d
    : EmulationTask W * InputEmulation W * result rstring unit * list TaskOutput :=
  let '(t, d, handle) := peer_handle addr t d in
  let t := note_button event addr t in
  match emu_consume event handle d with
  | (d, Err e) => (t, d, Err e, [])
  | (d, Ok _) =>
      let (w, exit) := take_edge (device d) handle in
      (t, set_device (fun _ => w) d, Ok tt,
       match exit with
       | Some x => [TellEvent (AtPointerEdge addr (exit_edge x) (exit_along x))]
       | None => []
       end)
  end.

Definition release_client (addr : SocketAddr) t d
    : EmulationTask W * InputEmulation W * result rstring unit :=
  let gone := set_peers (delete addr (task_handles t)) (delete addr (task_buttons t)) t in
  match task_handles t !! addr with
  | None => (gone, d, Ok tt)
  | Some handle =>
      let buttons := default ∅ (task_buttons t !! addr) in
      let (d, r) := consume_all ((fun button => button_event 0 button 0) <$> hash_order (elements buttons)) handle d in
      (gone, emu_destroy handle d, r)
  end.

(** Every peer is let go; the first error is kept. *)
Fixpoint release_clients (addrs : list SocketAddr) t d
    : EmulationTask W * InputEmulation W * result rstring unit :=
  match addrs with
  | [] => (t, d, Ok tt)
  | addr :: addrs =>
      let '(t, d, r) := release_client addr t d in
      let '(t, d, r') := release_clients addrs t d in
      (t, d, first_error r r')
  end.

Definition edge_of_position (side : Position.t) : PointerEdge.t :=
  match side with
  | Position.Left => PointerEdge.Left
  | Position.Right => PointerEdge.Right
  | Position.Top => PointerEdge.Top
  | Position.Bottom => PointerEdge.Bottom
  end.

(** ** The end of a session and what follows *)

(** What [run] does after [do_emulation]. *)
Definition after_emulation s : Task W :=
  let t := et s in
  Build_Task
    (if exit_requested (shared s) then set_phase Stopped t
     else if emu_restart_now t then set_phase Initializing (switch_backend (emu_backend t) false t)
     else set_phase Inactive t) (shared s).

(** The back end is terminated and gone, then the guard of readiness is dropped. *)
Definition end_session t d (c : Cells) : Task W * list TaskOutput :=
  (after_emulation (Build_Task (retire (calls (emu_terminate d)) t) (set_emulation_ready false c)),
   [TellEvent EmulationDisabled]).

(** Goes on with the session, or ends it after an error. *)
Definition after_input (x : EmulationTask W * InputEmulation W * result rstring unit) (clipboard_active : bool)
    (c : Cells) (out : list TaskOutput) : Task W * list TaskOutput :=
  match x with
  | (t, d, Ok _) => (Build_Task (set_phase (Session d clipboard_active) t) c, out)
  | (t, d, Err _) => let (s, out') := end_session t d c in (s, out ++ out')
  end.

(** ** Requests *)

Definition session_request (r : ProxyRequest.t) t d (clipboard_active : bool) (c : Cells)
    : Task W * list TaskOutput :=
  let go_on t d out := (Build_Task (set_phase (Session d clipboard_active) t) c, out) in
  match r with
  | ProxyRequest.Input event addr =>
      if sharing_cell c
      then let '(t, d, res, out) := emulate event addr t d in after_input (t, d, res) clipboard_active c out
      else go_on t d []
  | ProxyRequest.Remove addr => after_input (release_client addr t d) clipboard_active c []
  | ProxyRequest.SetIndependentPointers enabled => go_on t (set_device (set_independent enabled) d) []
  | ProxyRequest.StepInside edge => go_on t (set_device (step_in edge) d) []
  | ProxyRequest.HidePointer => go_on t (set_device hide d) []
  | ProxyRequest.PlacePointer side along =>
      go_on t (set_device (place_along (edge_of_position side) along) d) []
  | ProxyRequest.SetInputSharing enabled =>
      if enabled then go_on t d []
      else after_input (release_clients (hash_order (elements (dom (task_handles t)))) t d) clipboard_active c []
  | ProxyRequest.Terminate => end_session t d c
  | ProxyRequest.Reenable => go_on t d []
  | ProxyRequest.SetBackend backend => end_session (switch_backend backend true t) d c
  | ProxyRequest.PublishFileClipboard contents =>
      let (w, res) := publish_clipboard contents (device d) in
      go_on t (set_device (fun _ => w) d) [AnswerPublish res]
  end.

(** [initialize_emulation] while the back end is not there yet *)
Definition initializing_request (r : ProxyRequest.t) t (c : Cells) : Task W * list TaskOutput :=
  match r with
  | ProxyRequest.SetBackend backend => (after_emulation (Build_Task (switch_backend backend true t) c), [])
  | ProxyRequest.Terminate => (after_emulation (Build_Task t (set_exit_requested true c)), [])
  | ProxyRequest.SetInputSharing enabled =>
      (Build_Task (if enabled then t else forget_peers t) (set_sharing_cell enabled c), [])
  | ProxyRequest.Remove addr =>
      (Build_Task (set_peers (delete addr (task_handles t)) (delete addr (task_buttons t)) t) c, [])
  | ProxyRequest.PublishFileClipboard _ => (Build_Task t c, [AnswerPublish (Err (str "emulation not ready"))])
  | _ => (Build_Task t c, [])
  end.

(** The loop of [run] that waits for [Reenable] *)
Definition inactive_request (r : ProxyRequest.t) t (c : Cells) : Task W * list TaskOutput :=
  match r with
  | ProxyRequest.Reenable => (Build_Task (set_phase Initializing t) c, [])
  | ProxyRequest.SetBackend backend =>
      (Build_Task (set_phase Initializing (switch_backend backend (emu_restart_now t) t)) c, [])
  | ProxyRequest.Terminate => (Build_Task (set_phase Stopped t) c, [])
  | ProxyRequest.SetInputSharing enabled => (Build_Task (if enabled then t else forget_peers t) c, [])
  | ProxyRequest.PublishFileClipboard _ => (Build_Task t c, [AnswerPublish (Err (str "emulation inactive"))])
  | _ => (Build_Task t c, [])
  end.

(** ** The start of a session *)

(** [wait_for_termination] beside the creation of a device: the requests it takes
    out of the queue, up to the first [Terminate]. *)
Fixpoint drop_requests (l : list ProxyRequest.t) : list TaskOutput * bool :=
  match l with
  | [] => ([], false)
  | ProxyRequest.Terminate :: _ => ([], true)
  | ProxyRequest.PublishFileClipboard _ :: l =>
      let (out, stop) := drop_requests l in
      (AnswerPublish (Err (str "emulation task stopped")) :: out, stop)
  | _ :: l => drop_requests l
  end.

(** [create_clients]: each device with the requests lost beside it.  A device
    whose creation a [Terminate] cuts short counts as not made. *)
Fixpoint create_devices (l : list (Z * list ProxyRequest.t)) d : InputEmulation W * list TaskOutput :=
  match l with
  | [] => (d, [])
  | (handle, lost) :: l =>
      let (out, stop) := drop_requests lost in
      if (stop : bool) then (d, out)
      else let (d, _) := emu_create handle d in
           let (d, out') := create_devices l d in (d, out ++ out')
  end.

(** [do_emulation] once the back end is there.  [lost] are the requests taken out
    of the queue beside each device. *)
Definition begin_session (d : InputEmulation W) (lost : list (list ProxyRequest.t)) s : Task W * list TaskOutput :=
  let c := set_emulation_ready true (shared s) in
  let d := set_device (set_independent (independent_cell c)) d in
  let enabled := TellEvent (EmulationEnabled (selected d)) in
  if sharing_cell c then
    let handles := hash_order (snd <$> map_to_list (task_handles (et s))) in
    let (d, out) := create_devices (zip handles (lost ++ repeat [] (length handles))) d in
    (Build_Task (set_phase (Session d true) (et s)) c, enabled :: out)
  else (Build_Task (set_phase (Session d true) (forget_peers (et s))) c, [enabled]).

(** ** The clipboard of the back end *)

Definition MAX_NATIVE_IMAGE_BYTES : Z := 64 * 1024 * 1024.
Definition is_image_type (mime_type : rstring) : bool :=
  existsb (fun name : string => bool_decide (mime_type = str name)) ["image/png"; "image/jpeg"; "image/jpg"]%string.
Definition is_text_type (mime_type : rstring) : bool :=
  existsb (fun name : string => bool_decide (mime_type = str name)) ["text/plain;charset=utf-8"; "text/plain"; "UTF8_STRING"]%string.

(** [decode_image] stands for [decode_native_image]. *)
Definition native_clipboard (decode_image : rstring -> bytes -> result rstring (Z * Z * bytes))
    (mime_type : rstring) (data : bytes) : list TaskOutput :=
  if is_image_type mime_type then
    if MAX_NATIVE_IMAGE_BYTES <? len data then []
    else match decode_image mime_type data with
         | Ok (width, height, rgba) => [TellEvent (NativeClipboard (Image width height rgba))]
         | Err _ => []
         end
  else if utf8_valid data then
    [TellEvent (if is_text_type mime_type then NativeClipboard (Text data) else FileClipboard mime_type data)]
  else [].

(** [decode_native_image] after the decoder: its answer is kept if the pixels fit
    the history. *)
Definition MAX_HISTORY_IMAGE_BYTES : Z := 32 * 1024 * 1024.
Definition bounded_image (decoded : result rstring (Z * Z * bytes)) : result rstring (Z * Z * bytes) :=
  let* (width, height, rgba) := decoded in
  match (pixels ← checked_mul width height; checked_mul pixels 4) with
  | None => Err (str "native image dimensions overflow")
  | Some rgba_bytes =>
      if MAX_HISTORY_IMAGE_BYTES <? rgba_bytes
      then Err (str "native image RGBA payload exceeds 33554432 bytes")
      else Ok (width, height, rgba)
  end.

(** ** Steps *)

Inductive TaskStimulus :=
(** the platform answers; [order] is the order its back ends are tried in, [lost]
    what is lost beside the devices *)
| Initialized (create_backend : rstring -> result CreationError W) (order : list rstring)
    (lost : list (list ProxyRequest.t))
| InitializationTimeout
| FromQueue (r : ProxyRequest.t)
| NativeData (data : option (rstring * bytes))
| HealthCheck.

Definition task_step (decode_image : rstring -> bytes -> result rstring (Z * Z * bytes))
    (x : TaskStimulus) s : Task W * list TaskOutput :=
  let t := et s in
  match x, phase t with
  | Initialized create_backend order lost, Initializing =>
      match new_emulation create_backend order (emu_backend t) with
      | Ok d => begin_session d lost s
      | Err _ => (after_emulation s, [])
      end
  | InitializationTimeout, Initializing => (after_emulation s, [])
  | FromQueue r, Initializing => initializing_request r t (shared s)
  | FromQueue r, Session d clipboard_active => session_request r t d clipboard_active (shared s)
  | FromQueue r, Inactive => inactive_request r t (shared s)
  | NativeData None, Session d true => (Build_Task (set_phase (Session d false) t) (shared s), [])
  | NativeData (Some (mime_type, data)), Session d true => (s, native_clipboard decode_image mime_type data)
  | HealthCheck, Session d _ => if healthy (device d) then (s, []) else end_session t d (shared s)
  | _, _ => (s, [])
  end.

(** A run: each stimulus with the cells as the listen task left them. *)
Fixpoint task_run (decode_image : rstring -> bytes -> result rstring (Z * Z * bytes))
    (l : list (Cells * TaskStimulus)) s : Task W * list TaskOutput :=
  match l with
  | [] => (s, [])
  | (c, x) :: l =>
      let (s, out) := task_step decode_image x (Build_Task (et s) c) in
      let (s, out') := task_run decode_image l s in
      (s, out ++ out')
  end.
End task.
