(* ===== verification/EmulationTheorems.v ===== *)
(** * Input emulation: nothing stays held down

    What the back end was asked to do is an account of the keys and buttons each
    peer holds.  It agrees with what the wrapper and the task keep, a key is
    neither pressed nor released twice, and a peer that is gone holds nothing. *)

From S2P Require Import Prelude Wire ProtoTypes ProtoValid InputEmulation Clipboard ClientManager Emulation EmulationTask.

(** ** The account *)

#[local] Arguments held_keys : simpl never.
#[local] Arguments held_buttons : simpl never.

Definition note_key (handle : Z) (held : gset Z) (c : Call) : gset Z :=
  match c with
  | Consumed (InputEvent.Keyboard (KeyboardEvent.Key _ key state)) h =>
      if h =? handle then hold state key held else held
  | _ => held
  end.
Definition note_button_call (handle : Z) (held : gset Z) (c : Call) : gset Z :=
  match c with
  | Consumed (InputEvent.Pointer (PointerEvent.Button _ button state)) h =>
      if h =? handle then hold state button held else held
  | _ => held
  end.

Lemma held_keys_snoc l c h : held_keys (l ++ [c]) h = note_key h (held_keys l h) c.
Proof. unfold held_keys. by rewrite foldl_app. Qed.
Lemma held_buttons_snoc l c h : held_buttons (l ++ [c]) h = note_button_call h (held_buttons l h) c.
Proof. unfold held_buttons. by rewrite foldl_app. Qed.

(** Releases of many keys, or buttons, of one peer. *)
Lemma held_keys_releases keys h h' : forall l,
  held_keys (l ++ ((fun k => Consumed (key_event 0 k 0) h) <$> keys)) h'
  = if h =? h' then held_keys l h' ∖ list_to_set keys else held_keys l h'.
Proof.
  induction keys as [|k keys IH]; intros l; cbn [fmap list_fmap].
  - rewrite app_nil_r. destruct (h =? h'); [cbn; set_solver|done].
  - rewrite cons_middle, app_assoc, IH, held_keys_snoc. cbn. destruct (h =? h'); [|done].
    unfold hold. cbn. apply set_eq. set_solver.
Qed.
Lemma held_buttons_releases buttons h h' : forall l,
  held_buttons (l ++ ((fun b => Consumed (button_event 0 b 0) h) <$> buttons)) h'
  = if h =? h' then held_buttons l h' ∖ list_to_set buttons else held_buttons l h'.
Proof.
  induction buttons as [|k buttons IH]; intros l; cbn [fmap list_fmap].
  - rewrite app_nil_r. destruct (h =? h'); [cbn; set_solver|done].
  - rewrite cons_middle, app_assoc, IH, held_buttons_snoc. cbn. destruct (h =? h'); [|done].
    unfold hold. cbn. apply set_eq. set_solver.
Qed.
(** The one says nothing about the other. *)
Lemma held_buttons_other l cs h :
  Forall (fun c => forall held, note_button_call h held c = held) cs -> held_buttons (l ++ cs) h = held_buttons l h.
Proof.
  intros Hcs. revert l. induction Hcs as [|c cs Hc _ IH]; intros l; [by rewrite app_nil_r|].
  rewrite cons_middle, app_assoc, IH, held_buttons_snoc. apply Hc.
Qed.
Lemma held_keys_other l cs h :
  Forall (fun c => forall held, note_key h held c = held) cs -> held_keys (l ++ cs) h = held_keys l h.
Proof.
  intros Hcs. revert l. induction Hcs as [|c cs Hc _ IH]; intros l; [by rewrite app_nil_r|].
  rewrite cons_middle, app_assoc, IH, held_keys_snoc. apply Hc.
Qed.

(** A press of a key that is up, or a release of one that is down. *)
Definition fair_key (l : list Call) (c : Call) : Prop :=
  match c with
  | Consumed (InputEvent.Keyboard (KeyboardEvent.Key _ key state)) h => key ∈ held_keys l h <-> state = 0
  | _ => True
  end.
Definition alternating (l : list Call) : Prop := forall before c after, l = before ++ c :: after -> fair_key before c.

Lemma alternating_nil : alternating [].
Proof. intros before c after H. by destruct before. Qed.
Lemma alternating_snoc l c : alternating l -> fair_key l c -> alternating (l ++ [c]).
Proof.
  intros Hl Hc before c' after E. destruct (decide (after = [])) as [->|Hne].
  - apply app_inj_tail in E as [<- <-]. done.
  - destruct (exists_last Hne) as (after' & x & ->). rewrite app_comm_cons, app_assoc in E.
    apply app_inj_tail in E as [E _]. by apply (Hl before c' after').
Qed.
Lemma alternating_releases keys h : forall l,
  alternating l -> NoDup keys -> (forall k, k ∈ keys -> k ∈ held_keys l h) ->
  alternating (l ++ ((fun k => Consumed (key_event 0 k 0) h) <$> keys)).
Proof.
  induction keys as [|k keys IH]; intros l Hl Hnd Hheld; cbn [fmap list_fmap]; [by rewrite app_nil_r|].
  apply NoDup_cons in Hnd as [Hk Hnd]. rewrite cons_middle, app_assoc. apply IH; [|done|].
  - apply alternating_snoc; [done|]. cbn. split; [done|]. intros _. apply Hheld. by left.
  - intros k' Hk'. rewrite held_keys_snoc. cbn. rewrite Z.eqb_refl. unfold hold. cbn.
    apply elem_of_difference. split; [apply Hheld; by right|]. set_solver.
Qed.

(** ** The wrapper *)

Section wrapper.
Context {W : Type} `{!EmulationBackend W} `{!HashOrder}.
Implicit Types (d : InputEmulation W).

Record ledger d : Prop := {
  le_keys : forall h, held_keys (calls d) h = default ∅ (emu_pressed_keys d !! h);
  le_handles : forall h, is_Some (emu_pressed_keys d !! h) <-> h ∈ emu_handles d;
  le_fair : alternating (calls d);
}.

(** The same but for its device and what it was asked to do. *)
Definition same_ledger d d' : Prop :=
  emu_handles d' = emu_handles d /\ emu_pressed_keys d' = emu_pressed_keys d.

Lemma with_backend_ledger (w : W) name : ledger (with_backend w name).
Proof.
  split; cbn; [done| |apply alternating_nil]. intros h. rewrite lookup_empty. split; [by intros [? ?]|set_solver].
Qed.
Lemma set_device_ledger f d : ledger d -> ledger (set_device f d).
Proof. by intros []. Qed.

Lemma pass_to_device_eq event h d :
  exists w r, pass_to_device event h d = (called (Consumed event h) (set_device (fun _ => w) d), r).
Proof. unfold pass_to_device. destruct (device_consume event h (device d)) as [w r]. eauto. Qed.
(** A call that presses and releases no key. *)
Lemma called_ledger c d :
  ledger d -> (forall h held, note_key h held c = held) -> ledger (called c d).
Proof.
  intros [Hk Hh Hf] Hc. split; cbn; [| done|].
  - intros h. by rewrite held_keys_snoc, Hc.
  - apply alternating_snoc; [done|]. destruct c as [[|[t k st|]] h| | |]; try done. cbn.
    specialize (Hc h). cbn in Hc. rewrite Z.eqb_refl in Hc. unfold hold in Hc. destruct (Z.eqb_spec st 0) as [->|].
    + specialize (Hc {[k]}). set_solver.
    + specialize (Hc ∅). set_solver.
Qed.
Lemma consume_all_eq events h : forall d,
  exists w r, consume_all events h d
  = (Build_InputEmulation w (selected d) (emu_handles d) (emu_pressed_keys d)
       (calls d ++ ((fun e => Consumed e h) <$> events)), r).
Proof.
  induction events as [|e events IH]; intros d; cbn [consume_all fmap list_fmap].
  - exists (device d), (Ok tt). rewrite app_nil_r. by destruct d.
  - destruct (pass_to_device_eq e h d) as (w & r & ->).
    destruct (IH (called (Consumed e h) (set_device (fun _ => w) d))) as (w' & r' & ->).
    cbn. rewrite <- app_assoc. eauto.
Qed.

(** The keys of one peer change with the call, or without one if they do not. *)
Lemma key_ledger h t k st keys d :
  ledger d -> emu_pressed_keys d !! h = Some keys -> (k ∈ keys <-> st = 0) ->
  ledger (called (Consumed (key_event t k st) h) (set_keys (<[h := hold st k keys]> (emu_pressed_keys d)) d)).
Proof.
  intros [Hk Hh Hf] Hl Hfair. split; cbn.
  - intros h'. rewrite held_keys_snoc. cbn. rewrite Hk. destruct (Z.eqb_spec h h') as [<-|Hne].
    + by rewrite lookup_insert_eq, Hl.
    + by rewrite lookup_insert_ne.
  - intros h'. rewrite lookup_insert_is_Some', Hh. split; [intros [<-|?]|]; [|done|by right].
    apply Hh. by rewrite Hl.
  - apply alternating_snoc; [done|]. cbn. by rewrite Hk, Hl.
Qed.
Lemma set_keys_same h keys d : emu_pressed_keys d !! h = Some keys -> set_keys (<[h := keys]> (emu_pressed_keys d)) d = d.
Proof. intros Hl. unfold set_keys. rewrite insert_id by done. by destruct d. Qed.

Lemma emu_consume_spec event h d :
  ledger d ->
  let d' := (emu_consume event h d).1 in
  ledger d' /\ emu_handles d' = emu_handles d
  /\ forall h', held_buttons (calls d') h' = note_button_call h' (held_buttons (calls d) h') (Consumed event h).
Proof.
  intros Hd. assert (Hpass : (forall held h', note_key h' held (Consumed event h) = held) ->
    let d' := (pass_to_device event h d).1 in ledger d' /\ emu_handles d' = emu_handles d
    /\ forall h', held_buttons (calls d') h' = note_button_call h' (held_buttons (calls d) h') (Consumed event h)).
  { intros Hn. destruct (pass_to_device_eq event h d) as (w & r & ->). cbn.
    split; [by apply called_ledger; [apply set_device_ledger|]|]. split; [done|]. intros h'. apply held_buttons_snoc. }
  destruct event as [e|[t k st|]]; cbn [emu_consume]; [by apply Hpass|clear Hpass|by apply Hpass].
  unfold emu_update_pressed_keys. destruct (emu_pressed_keys d !! h) as [keys|] eqn:Hl; [|done].
  assert (Hcase : let d1 := set_keys (<[h := hold st k keys]> (emu_pressed_keys d)) d in
    (k ∈ keys <-> st = 0) -> let d' := (pass_to_device (key_event t k st) h d1).1 in
    ledger d' /\ emu_handles d' = emu_handles d
    /\ forall h', held_buttons (calls d') h' = note_button_call h' (held_buttons (calls d) h') (Consumed (key_event t k st) h)).
  { intros d1 Hfair. destruct (pass_to_device_eq (key_event t k st) h d1) as (w & r & ->). cbn.
    split; [|split; [done|intros h'; apply held_buttons_snoc]].
    destruct (key_ledger h t k st keys d Hd Hl Hfair). by split. }
  unfold hold in Hcase. destruct (Z.eqb_spec st 0) as [->|Hst].
  - case_bool_decide as Hin; [by apply Hcase|]. cbn. rewrite difference_disjoint_L, set_keys_same by set_solver. done.
  - case_bool_decide as Hin; cbn [negb]; [|by apply Hcase]. cbn.
    rewrite subseteq_union_1_L, set_keys_same by set_solver. done.
Qed.

Lemma emu_create_spec h d :
  ledger d ->
  let d' := (emu_create h d).1 in
  ledger d' /\ emu_handles d' = {[h]} ∪ emu_handles d
  /\ forall h', held_buttons (calls d') h' = held_buttons (calls d) h'.
Proof.
  intros [Hk Hh Hf]. unfold emu_create. case_bool_decide as Hin; cbn.
  - split; [done|]. split; [set_solver|done].
  - assert (Hn : emu_pressed_keys d !! h = None).
    { destruct (emu_pressed_keys d !! h) eqn:E; [|done]. destruct Hin. apply Hh. by rewrite E. }
    split; [|split; [done|intros h'; apply held_buttons_snoc]]. split; cbn.
    + intros h'. rewrite held_keys_snoc. cbn. rewrite Hk. destruct (decide (h = h')) as [<-|Hne].
      * by rewrite lookup_insert_eq, Hn.
      * by rewrite lookup_insert_ne.
    + intros h'. rewrite lookup_insert_is_Some', Hh. set_solver.
    + by apply alternating_snoc.
Qed.

Lemma release_keys_spec h d :
  ledger d ->
  let d' := (release_keys h d).1 in
  ledger d' /\ emu_handles d' = emu_handles d /\ held_keys (calls d') h = ∅
  /\ forall h', held_buttons (calls d') h' = held_buttons (calls d) h'.
Proof.
  intros Hd. assert (Hmod : forall d1, ledger d1 -> emu_handles d1 = emu_handles d -> held_keys (calls d1) h = ∅ ->
    (forall h', held_buttons (calls d1) h' = held_buttons (calls d) h') ->
    let d' := (pass_to_device no_modifiers h d1).1 in
    ledger d' /\ emu_handles d' = emu_handles d /\ held_keys (calls d') h = ∅
    /\ forall h', held_buttons (calls d') h' = held_buttons (calls d) h').
  { intros d1 H1 Hh1 Hk1 Hb1. destruct (pass_to_device_eq no_modifiers h d1) as (w & r & ->). cbn.
    split; [by apply called_ledger; [apply set_device_ledger|]|]. split; [done|].
    split; [by rewrite held_keys_snoc|]. intros h'. by rewrite held_buttons_snoc, <- Hb1. }
  unfold release_keys. pose proof (le_keys _ Hd h) as Hk. destruct (emu_pressed_keys d !! h) as [keys|] eqn:Hl.
  - set (d0 := set_keys (<[h := ∅]> (emu_pressed_keys d)) d).
    destruct (consume_all_eq ((fun key => key_event 0 key 0) <$> hash_order (elements keys)) h d0) as (w & r & ->).
    match goal with |- context [pass_to_device no_modifiers h ?x] => specialize (Hmod x) end.
    destruct (pass_to_device no_modifiers h _) as [d2 r2]. apply Hmod; clear Hmod; cbn; [|done| |].
    + rewrite <- list_fmap_compose. split; cbn.
      * intros h'. change (Consumed ∘ _) with (Consumed ∘ (fun key => key_event 0 key 0)).
        erewrite list_fmap_ext; [rewrite (held_keys_releases _ h h')|done].
        destruct (Z.eqb_spec h h') as [<-|Hne].
        -- rewrite lookup_insert_eq, Hk. cbn. apply set_eq. intros x.
           rewrite elem_of_difference, elem_of_list_to_set, elem_of_hash_order, elem_of_elements. set_solver.
        -- rewrite lookup_insert_ne by done. apply Hd.
      * intros h'. rewrite lookup_insert_is_Some', (le_handles _ Hd). split; [intros [<-|?]|]; [|done|by right].
        apply (le_handles _ Hd). by rewrite Hl.
      * erewrite list_fmap_ext; [apply (alternating_releases _ h)|done].
        -- apply Hd.
        -- rewrite hash_order_perm. apply NoDup_elements.
        -- intros k Hin. rewrite elem_of_hash_order, elem_of_elements in Hin. by rewrite Hk.
    + rewrite <- list_fmap_compose. erewrite list_fmap_ext; [rewrite (held_keys_releases _ h h)|done].
      rewrite Z.eqb_refl, Hk. cbn. apply set_eq. intros x.
      rewrite elem_of_difference, elem_of_list_to_set, elem_of_hash_order, elem_of_elements. set_solver.
    + intros h'. apply held_buttons_other, List.Forall_forall. intros c Hc%list_elem_of_In.
      apply list_elem_of_fmap in Hc as (e & -> & He). apply list_elem_of_fmap in He as (k & -> & _). done.
  - destruct (pass_to_device no_modifiers h d) as [d2 r2] eqn:E. specialize (Hmod d). rewrite E in Hmod. by apply Hmod.
Qed.

Lemma emu_destroy_spec h d :
  ledger d ->
  let d' := emu_destroy h d in
  ledger d' /\ emu_handles d' = emu_handles d ∖ {[h]} /\ held_keys (calls d') h = ∅
  /\ forall h', held_buttons (calls d') h' = held_buttons (calls d) h'.
Proof.
  intros Hd. destruct (release_keys_spec h d Hd) as (H1 & Hh1 & Hk1 & Hb1). unfold emu_destroy.
  destruct (release_keys h d) as [d1 r]. cbn [fst] in *. case_bool_decide as Hin; cbn.
  - destruct H1 as [Hk Hh Hf]. split; [|split; [by rewrite Hh1|split]]; cbn.
    + split; cbn.
      * intros h'. rewrite held_keys_snoc. cbn. destruct (decide (h = h')) as [<-|Hne].
        -- by rewrite lookup_delete_eq.
        -- by rewrite lookup_delete_ne.
      * intros h'. rewrite elem_of_difference, <- Hh. destruct (decide (h = h')) as [<-|Hne].
        -- rewrite lookup_delete_eq. split; [by intros [? ?]|set_solver].
        -- rewrite lookup_delete_ne by done. set_solver.
      * by apply alternating_snoc.
    + by rewrite held_keys_snoc.
    + intros h'. by rewrite held_buttons_snoc, <- Hb1.
  - split; [done|]. split; [|done]. rewrite Hh1 in *. set_solver.
Qed.
Lemma destroy_all_spec l : forall d,
  ledger d ->
  let d' := foldl (fun d h => emu_destroy h d) d l in ledger d' /\ emu_handles d' = emu_handles d ∖ list_to_set l.
Proof.
  induction l as [|h l IH]; intros d Hd; cbn; [split; [done|set_solver]|].
  destruct (emu_destroy_spec h d Hd) as (H1 & Hh1 & _). destruct (IH _ H1) as (H2 & Hh2).
  split; [done|]. rewrite Hh2, Hh1. set_solver.
Qed.
(** A back end that was taken down holds no key. *)
Lemma emu_terminate_spec d h : ledger d -> held_keys (calls (emu_terminate d)) h = ∅.
Proof.
  intros Hd. unfold emu_terminate. cbn. rewrite held_keys_snoc. cbn.
  destruct (destroy_all_spec (hash_order (elements (emu_handles d))) d Hd) as (H1 & Hh1).
  rewrite (le_keys _ H1). destruct (emu_pressed_keys _ !! h) eqn:E; [|done]. exfalso.
  assert (Hin : h ∈ emu_handles d ∖ list_to_set (hash_order (elements (emu_handles d)))).
  { rewrite <- Hh1. apply (le_handles _ H1). by rewrite E. }
  apply elem_of_difference in Hin as [Hin Hout]. apply Hout.
  by rewrite elem_of_list_to_set, elem_of_hash_order, elem_of_elements.
Qed.
Lemma new_emulation_fresh create_backend order backend d :
  new_emulation create_backend order backend = Ok d -> exists (w : W) name, d = with_backend w name.
Proof.
  assert (Hone : forall name, create_with create_backend name = Ok d -> exists (w : W) name, d = with_backend w name).
  { intros name. unfold create_with. destruct (create_backend name); intros [= <-]; eauto. }
  unfold new_emulation. destruct backend as [name|]; [apply Hone|].
  induction order as [|name order IH]; cbn; [done|].
  destruct (create_with create_backend name) as [d'|e] eqn:E; [intros [= ->]; by eapply Hone|].
  by destruct (cancelled_by_user e).
Qed.
End wrapper.

(** ** The task *)

Section task.
Context {W : Type} `{!EmulationBackend W} `{!HashOrder}.
Implicit Types (t : EmulationTask W) (s : Task W) (d : InputEmulation W).

(** No two peers share a handle, and none was given out twice. *)
Definition handles_ok t : Prop :=
  (forall a h, task_handles t !! a = Some h -> h < next_id t)
  /\ (forall a a' h, task_handles t !! a = Some h -> task_handles t !! a' = Some h -> a = a').

(** What a live back end holds is the peers'. *)
Definition account_ok t d : Prop :=
  ledger d
  /\ (forall h, h ∈ emu_handles d -> exists a, task_handles t !! a = Some h)
  /\ (forall h b, b ∈ held_buttons (calls d) h ->
        exists a, task_handles t !! a = Some h /\ b ∈ default ∅ (task_buttons t !! a)).

Definition task_ok t : Prop :=
  handles_ok t
  /\ match phase t with Session d _ => account_ok t d | _ => True end
  /\ Forall (fun l => forall h, held_keys l h = ∅) (retired t).

Lemma handles_ok_sub t handles buttons :
  handles_ok t -> (forall a h, handles !! a = Some h -> task_handles t !! a = Some h) ->
  handles_ok (set_peers handles buttons t).
Proof. intros [Hlt Hinj] Hsub. split; cbn; eauto. Qed.
Lemma handles_ok_delete t a buttons : handles_ok t -> handles_ok (set_peers (delete a (task_handles t)) buttons t).
Proof. intros Hok. apply handles_ok_sub; [done|]. intros a' h Hl. by apply lookup_delete_Some in Hl as [_ ?]. Qed.
Lemma handles_ok_forget t : handles_ok t -> handles_ok (forget_peers t).
Proof. intros Hok. apply handles_ok_sub; [done|]. intros a h. by rewrite lookup_empty. Qed.

Lemma set_device_account f t d : account_ok t d -> account_ok t (set_device f d).
Proof. intros (Hd & Hh & Hb). split; [by apply set_device_ledger|done]. Qed.

(** The first input of a peer makes its device. *)
Lemma peer_handle_spec a t d :
  handles_ok t -> account_ok t d ->
  let '(t', d', h) := peer_handle a t d in
  handles_ok t' /\ account_ok t' d' /\ task_handles t' !! a = Some h /\ retired t' = retired t.
Proof.
  intros [Hlt Hinj] (Hd & Hh & Hb). unfold peer_handle. destruct (task_handles t !! a) as [h|] eqn:Hl; [done|].
  destruct (emu_create_spec (next_id t) d Hd) as (H1 & Hh1 & Hb1). destruct (emu_create (next_id t) d) as [d1 ?].
  cbn [fst] in *. split_and!; [| |cbn; apply lookup_insert_eq|done].
  - split; cbn.
    + intros a' h [[<- <-]|[_ Hl']]%lookup_insert_Some; [lia|]. apply Hlt in Hl'. lia.
    + intros a1 a2 h [[<- <-]|[Hn1 H1']]%lookup_insert_Some [[<- E]|[Hn2 H2']]%lookup_insert_Some; try done.
      * apply Hlt in H2'. lia.
      * subst h. apply Hlt in H1'. lia.
      * by eapply Hinj.
  - split; [done|]. split; cbn.
    + intros h. rewrite Hh1. intros [->%elem_of_singleton|[a' Ha']%Hh]%elem_of_union.
      * exists a. by rewrite lookup_insert_eq.
      * exists a'. rewrite lookup_insert_ne; [done|]. intros <-. congruence.
    + intros h x. rewrite Hb1. intros (a' & Ha' & Hin)%Hb. exists a'.
      rewrite lookup_insert_ne; [done|]. intros <-. congruence.
Qed.

(** Input is played on the peer's own device. *)
Lemma emulate_spec event a t d :
  handles_ok t -> account_ok t d ->
  let '(t', d', r, out) := emulate event a t d in handles_ok t' /\ account_ok t' d' /\ retired t' = retired t.
Proof.
  intros Hok Hac. unfold emulate. pose proof (peer_handle_spec a t d Hok Hac) as Hp.
  destruct (peer_handle a t d) as [[t1 d1] h]. destruct Hp as (Hok1 & (Hd1 & Hh1 & Hb1) & Hl & Hre).
  destruct (emu_consume_spec event h d1 Hd1) as (H2 & Hh2 & Hb2).
  assert (Hnote : task_handles (note_button event a t1) = task_handles t1 /\ handles_ok (note_button event a t1)
                  /\ retired (note_button event a t1) = retired t).
  { unfold note_button. destruct event as [[]|]; try done. }
  assert (Hac2 : account_ok (note_button event a t1) (emu_consume event h d1).1).
  { split; [done|]. destruct Hnote as (-> & _). rewrite Hh2. split; [done|]. intros h' b. rewrite Hb2.
    unfold note_button_call, note_button. destruct event as [[|tm b' st| |]|]; try by apply Hb1.
    destruct (Z.eqb_spec h h') as [<-|Hne].
    - intros Hin. exists a. split; [done|]. cbn. rewrite lookup_insert_eq. cbn.
      assert (Hold : forall x, x ∈ held_buttons (calls d1) h -> x ∈ default ∅ (task_buttons t1 !! a)).
      { intros x (a' & Ha' & Hx)%Hb1. by rewrite (proj2 Hok1 _ _ _ Hl Ha'). }
      unfold hold in Hin. destruct (st =? 0); set_solver.
    - intros (a' & Ha' & Hin)%Hb1. exists a'. split; [done|]. cbn. rewrite lookup_insert_ne; [done|].
      intros <-. congruence. }
  destruct (emu_consume event h d1) as [d2 []]; cbn [fst] in *.
  - destruct (take_edge (device d2) h) as [w exit]. split; [apply Hnote|]. split; [|apply Hnote].
    by apply set_device_account.
  - split; [apply Hnote|]. split; [done|apply Hnote].
Qed.

(** A peer is let go: it has no device and holds nothing. *)
Lemma release_client_spec a t d :
  handles_ok t -> account_ok t d ->
  let '(t', d', r) := release_client a t d in
  handles_ok t' /\ account_ok t' d' /\ task_handles t' = delete a (task_handles t) /\ retired t' = retired t.
Proof.
  intros Hok (Hd & Hh & Hb). unfold release_client. destruct (task_handles t !! a) as [h|] eqn:Hl.
  - set (bs := hash_order (elements (default ∅ (task_buttons t !! a)))).
    destruct (consume_all_eq ((fun b => button_event 0 b 0) <$> bs) h d) as (w & r & ->).
    match goal with |- context [emu_destroy h ?x] => set (d1 := x) end.
    assert (Hcalls : calls d1 = calls d ++ ((fun b => Consumed (button_event 0 b 0) h) <$> bs)).
    { unfold d1. cbn. by rewrite <- list_fmap_compose. }
    assert (H1 : ledger d1).
    { destruct Hd as [Hk Hhs Hf]. split; [|done|].
      - intros h'. rewrite Hcalls, held_keys_other; [apply Hk|]. apply List.Forall_forall.
        intros c Hc%list_elem_of_In. by apply list_elem_of_fmap in Hc as (b & -> & _).
      - rewrite Hcalls. clear -Hf. induction bs as [|b bs IH] using rev_ind; [by rewrite app_nil_r|].
        rewrite fmap_app, app_assoc. by apply alternating_snoc. }
    destruct (emu_destroy_spec h d1 H1) as (H2 & Hh2 & Hk2 & Hb2).
    split; [by apply handles_ok_delete|]. split; [|done]. split; [done|]. split.
    + intros h'. rewrite Hh2. intros [[a' Ha']%Hh Hne]%elem_of_difference. exists a'. cbn.
      rewrite lookup_delete_ne; [done|]. intros <-. set_solver.
    + intros h' b. rewrite Hb2, Hcalls, held_buttons_releases.
      assert (Hother : h <> h' -> b ∈ held_buttons (calls d) h' -> exists a0, delete a (task_handles t) !! a0 = Some h'
                /\ b ∈ default ∅ (delete a (task_buttons t) !! a0)).
      { intros Hne (a' & Ha' & Hin)%Hb. exists a'. assert (a <> a') by congruence. by rewrite !lookup_delete_ne. }
      destruct (Z.eqb_spec h h') as [<-|Hne]; [|by apply Hother].
      intros [(a' & Ha' & Hin)%Hb Hout]%elem_of_difference. destruct Hout.
      unfold bs. rewrite elem_of_list_to_set, elem_of_hash_order, elem_of_elements.
      by rewrite (proj2 Hok _ _ _ Hl Ha').
  - split; [by apply handles_ok_delete|]. split; [|done]. split; [done|]. cbn. split.
    + intros h' (a' & Ha')%Hh. exists a'. rewrite lookup_delete_ne; [done|]. congruence.
    + intros h' b (a' & Ha' & Hin)%Hb. exists a'. assert (a <> a') by congruence. by rewrite !lookup_delete_ne.
Qed.
Lemma release_clients_spec l : forall t d,
  handles_ok t -> account_ok t d ->
  let '(t', d', r) := release_clients l t d in
  handles_ok t' /\ account_ok t' d' /\ retired t' = retired t.
Proof.
  induction l as [|a l IH]; intros t d Hok Hac; cbn [release_clients]; [done|].
  pose proof (release_client_spec a t d Hok Hac) as H1. destruct (release_client a t d) as [[t1 d1] r1].
  destruct H1 as (Hok1 & Hac1 & _ & Hre1). specialize (IH t1 d1 Hok1 Hac1).
  destruct (release_clients l t1 d1) as [[t2 d2] r2]. destruct IH as (? & ? & Hre2). split_and!; congruence.
Qed.

Definition retired_ok t : Prop := Forall (fun l => forall h, held_keys l h = ∅) (retired t).

Lemma after_emulation_ok s :
  handles_ok (et s) -> retired_ok (et s) -> task_ok (et (after_emulation s)).
Proof.
  intros Hok Hre. unfold after_emulation. cbn. destruct (exit_requested _); [done|]. by destruct (emu_restart_now _).
Qed.
Lemma back_end_gone_ok t d c :
  handles_ok t -> account_ok t d -> retired_ok t -> task_ok (et (end_session t d c).1).
Proof.
  intros Hok (Hd & _) Hre. apply after_emulation_ok; [done|]. cbn. apply Forall_app. split; [done|].
  apply Forall_singleton. intros h. by apply emu_terminate_spec.
Qed.
Lemma after_input_ok t d r active c out :
  handles_ok t -> account_ok t d -> retired_ok t -> task_ok (et (after_input (t, d, r) active c out).1).
Proof.
  intros Hok Hac Hre. destruct r; cbn [after_input]; [done|].
  pose proof (back_end_gone_ok t d c Hok Hac Hre) as He. by destruct (end_session t d c).
Qed.

Lemma session_request_ok r t d active c :
  handles_ok t -> account_ok t d -> retired_ok t -> task_ok (et (session_request r t d active c).1).
Proof.
  intros Hok Hac Hre.
  assert (Hset : forall f, task_ok (set_phase (Session (set_device f d) active) t)).
  { intros f. split; [done|]. split; [by apply set_device_account|done]. }
  destruct r; cbn [session_request]; try (by apply Hset); try done.
  - destruct (sharing_cell c); [|done]. pose proof (emulate_spec event addr t d Hok Hac) as H1.
    destruct (emulate event addr t d) as [[[t1 d1] r1] out]. destruct H1 as (? & ? & E).
    apply after_input_ok; [done..|]. unfold retired_ok. by rewrite E.
  - pose proof (release_client_spec addr t d Hok Hac) as H1. destruct (release_client addr t d) as [[t1 d1] r1].
    destruct H1 as (? & ? & _ & E). apply after_input_ok; [done..|]. unfold retired_ok. by rewrite E.
  - by apply back_end_gone_ok.
  - by apply back_end_gone_ok.
  - destruct enabled; [done|].
    pose proof (release_clients_spec (hash_order (elements (dom (task_handles t)))) t d Hok Hac) as H1.
    destruct (release_clients _ t d) as [[t1 d1] r1]. destruct H1 as (? & ? & E).
    apply after_input_ok; [done..|]. unfold retired_ok. by rewrite E.
  - destruct (publish_clipboard contents (device d)) as [w res]. apply Hset.
Qed.
Lemma initializing_request_ok r t c :
  phase t = Initializing -> handles_ok t -> retired_ok t -> task_ok (et (initializing_request r t c).1).
Proof.
  intros Hp Hok Hre. assert (Hkeep : forall t', handles_ok t' -> retired_ok t' -> phase t' = Initializing -> task_ok t').
  { intros t' H1 H2 H3. unfold task_ok. by rewrite H3. }
  destruct r; cbn [initializing_request fst et]; try (by apply Hkeep); try by apply after_emulation_ok.
  - apply Hkeep; [by apply handles_ok_delete|done..].
  - destruct enabled; apply Hkeep; try done; by apply handles_ok_forget.
Qed.
Lemma inactive_request_ok r t c :
  phase t = Inactive -> handles_ok t -> retired_ok t -> task_ok (et (inactive_request r t c).1).
Proof.
  intros Hp Hok Hre. assert (Hkeep : forall t', handles_ok t' -> retired_ok t' -> phase t' = Inactive -> task_ok t').
  { intros t' H1 H2 H3. unfold task_ok. by rewrite H3. }
  destruct r; cbn [inactive_request fst et]; try (by apply Hkeep); try done.
  destruct enabled; apply Hkeep; try done; by apply handles_ok_forget.
Qed.

Lemma create_devices_spec t l : forall d,
  account_ok t d -> (forall h lost, (h, lost) ∈ l -> exists a, task_handles t !! a = Some h) ->
  account_ok t (create_devices l d).1.
Proof.
  induction l as [|[h lost] l IH]; intros d Hac Hl; cbn [create_devices]; [done|].
  destruct (drop_requests lost) as [out stop]. destruct stop; [done|]. destruct Hac as (Hd & Hh & Hb).
  destruct (emu_create_spec h d Hd) as (H1 & Hh1 & Hb1). destruct (emu_create h d) as [d1 ?]. cbn [fst] in *.
  specialize (IH d1). destruct (create_devices l d1) as [d2 out']. apply IH.
  - split; [done|]. split.
    + intros h'. rewrite Hh1. intros [->%elem_of_singleton|?]%elem_of_union; [|auto]. eapply Hl. by left.
    + intros h' x. rewrite Hb1. apply Hb.
  - intros h' lost' Hin. eapply Hl. by right.
Qed.
Lemma fresh_account t w name : account_ok t (with_backend w name).
Proof.
  split; [apply with_backend_ledger|]. split; cbn; [set_solver|]. intros h b Hb. unfold held_buttons in Hb. cbn in Hb. set_solver.
Qed.
Lemma begin_session_ok w name lost s :
  handles_ok (et s) -> retired_ok (et s) -> task_ok (et (begin_session (with_backend w name) lost s).1).
Proof.
  intros Hok Hre. unfold begin_session. destruct (sharing_cell _).
  - set (hs := hash_order _). set (d := set_device _ _).
    assert (Hac : account_ok (et s) (create_devices (zip hs (lost ++ repeat [] (length hs))) d).1).
    { apply create_devices_spec; [apply set_device_account, fresh_account|].
      intros h l' Hin%elem_of_zip_l. unfold hs in Hin. rewrite elem_of_hash_order in Hin.
      apply list_elem_of_fmap in Hin as ([a h'] & -> & Hin). exists a. by apply elem_of_map_to_list. }
    destruct (create_devices _ d) as [d1 out]. done.
  - split; [by apply handles_ok_forget|]. split; [|done]. apply set_device_account, fresh_account.
Qed.

Lemma task_step_ok decode x s : task_ok (et s) -> task_ok (et (task_step decode x s).1).
Proof.
  intros Hs. pose proof Hs as (Hok & Hac & Hre). unfold task_step. destruct x as [create order lost| |r|data|].
  - destruct (phase (et s)) eqn:Hp; try done.
    destruct (new_emulation create order (emu_backend (et s))) as [d|e] eqn:E.
    + apply new_emulation_fresh in E as (w & name & ->). by apply begin_session_ok.
    + by apply after_emulation_ok.
  - destruct (phase (et s)) eqn:Hp; try done. by apply after_emulation_ok.
  - destruct (phase (et s)) eqn:Hp; try done.
    + by apply initializing_request_ok.
    + by apply session_request_ok.
    + by apply inactive_request_ok.
  - destruct (phase (et s)) as [|d []| |] eqn:Hp; destruct data as [[mime data]|]; done.
  - destruct (phase (et s)) as [|d active| |] eqn:Hp; try done.
    destruct (healthy (device d)); [done|]. by apply back_end_gone_ok.
Qed.
Lemma task_run_ok decode l : forall s, task_ok (et s) -> task_ok (et (task_run decode l s).1).
Proof.
  induction l as [|[c x] l IH]; intros s Hs; cbn [task_run]; [done|].
  pose proof (task_step_ok decode x (Build_Task (et s) c) Hs) as H1.
  destruct (task_step decode x _) as [s1 out]. specialize (IH s1 H1). by destruct (task_run decode l s1).
Qed.
Lemma new_task_ok backend : task_ok (new_task backend).
Proof. split; [split; cbn; intros *; by rewrite lookup_empty|done]. Qed.

(** Letting a peer go forgets it, whatever the back end answers, unless there is
    none: then its device is made again with the next one. *)
Lemma remove_forgets decode a s :
  task_ok (et s) -> phase (et s) <> Inactive -> phase (et s) <> Stopped ->
  task_handles (et (task_step decode (FromQueue (ProxyRequest.Remove a)) s).1) !! a = None.
Proof.
  intros (Hok & Hac & _) Hi Hst. unfold task_step. destruct (phase (et s)) as [|d active| |] eqn:Hp; try done.
  - cbn. apply lookup_delete_eq.
  - cbn [session_request]. pose proof (release_client_spec a (et s) d Hok Hac) as H1.
    destruct (release_client a (et s) d) as [[t1 d1] []]; destruct H1 as (_ & _ & E & _); cbn.
    + rewrite E. apply lookup_delete_eq.
    + unfold after_emulation. cbn. destruct (exit_requested _); [|destruct (emu_restart_now _)]; cbn; rewrite E; apply lookup_delete_eq.
Qed.
End task.

(** ** The claim *)

(** C40: nothing stays held down by a peer that is gone.  After any run of the
    emulation task, whatever the back ends answer: what was asked of the back end
    at work is an account in which the keys of a device are those the wrapper has
    noted, the buttons of a device are among those the task has noted for the peer
    that owns it, a device no peer owns holds neither, two peers never share a
    device, and no key is pressed while down or released while up.  Every back end
    that was taken down was first asked to release every key. *)
Theorem departed_peers_hold_nothing {W} `{!EmulationBackend W} `{!HashOrder} decode backend
    (l : list (Cells * TaskStimulus)) c :
  let t := et (task_run decode l (Build_Task (new_task (W := W) backend) c)).1 in
  match phase t with
  | Session d _ =>
      (forall h, (forall a, task_handles t !! a <> Some h) ->
         held_keys (calls d) h = ∅ /\ held_buttons (calls d) h = ∅)
      /\ (forall a h, task_handles t !! a = Some h ->
         held_keys (calls d) h = default ∅ (emu_pressed_keys d !! h)
         /\ held_buttons (calls d) h ⊆ default ∅ (task_buttons t !! a)
         /\ forall a', task_handles t !! a' = Some h -> a' = a)
      /\ alternating (calls d)
  | _ => True
  end
  /\ Forall (fun l => forall h, held_keys l h = ∅) (retired t).
Proof.
  intros t. pose proof (task_run_ok decode l (Build_Task (new_task backend) c) (new_task_ok backend)) as Hok.
  fold t in Hok. destruct Hok as ((_ & Hinj) & Hac & Hre). split; [|done].
  destruct (phase t) as [|d active| |]; try done. destruct Hac as (Hd & Hh & Hb). split_and!.
  - intros h Hn. split.
    + rewrite (le_keys _ Hd). destruct (emu_pressed_keys d !! h) eqn:E; [|done]. exfalso.
      destruct (Hh h) as (a & Ha); [|by destruct (Hn a)]. apply (le_handles _ Hd). by rewrite E.
    + apply elem_of_equiv_empty_L. intros b (a & Ha & _)%Hb. by destruct (Hn a).
  - intros a h Ha. split_and!; [apply (le_keys _ Hd)| |by eauto].
    intros b (a' & Ha' & Hin)%Hb. by rewrite (Hinj a a' h).
  - apply Hd.
Qed.
