(* ===== verification/ListenTheorems.v ===== *)
(** * Input emulation: who controls this screen

    The set of peers whose input is emulated, as the listen task tells it to the
    service; and the releases it owes the emulation task for every peer that
    lost control. *)

From S2P Require Import Prelude Wire ProtoTypes ProtoValid InputCapture InputEmulation Clipboard ClientManager Emulation.

#[local] Infix ">>>" := chain (at level 62, right associativity).

Abbreviation controllers l := (active_inputs (lt l)).

Lemma chain_fst a b l : (chain a b l).1 = (b (a l).1).1.
Proof. unfold chain. destruct (a l) as [l1 o1]. cbn. by destruct (b l1). Qed.
Lemma chain_snd a b l : (chain a b l).2 = (a l).2 ++ (b (a l).1).2.
Proof. unfold chain. destruct (a l) as [l1 o1]. cbn. by destruct (b l1). Qed.

(** ** What is announced *)

(** The controllers after announcements, from those before. *)
Definition announce_one (A : gset SocketAddr) (o : ListenOutput) : gset SocketAddr :=
  match o with
  | Up (Entered addr _ _ _ _ _) => {[addr]} ∪ A
  | Up (Left addr _ _) => A ∖ {[addr]}
  | _ => A
  end.
Definition announce (A : gset SocketAddr) (outs : list ListenOutput) : gset SocketAddr := foldl announce_one A outs.

Lemma announce_app A o o' : announce A (o ++ o') = announce (announce A o) o'.
Proof. apply foldl_app. Qed.

(** The announcements of an action are what it does to the controllers. *)
Definition tracks (a : lact) : Prop := forall l, controllers (a l).1 = announce (controllers l) (a l).2.

Lemma tracks_chain a b : tracks a -> tracks b -> tracks (a >>> b).
Proof. intros Ha Hb l. by rewrite chain_fst, chain_snd, announce_app, <- Ha, <- Hb. Qed.
Lemma tracks_skip : tracks skip.
Proof. done. Qed.
Lemma tracks_put o : (forall A, announce_one A o = A) -> tracks (put o).
Proof. intros Ho l. cbn. by rewrite Ho. Qed.
Lemma tracks_update f : (forall t, active_inputs (f t) = active_inputs t) -> tracks (update f).
Proof. intros Hf l. apply Hf. Qed.
Lemma tracks_update_cells f : tracks (update_cells f).
Proof. done. Qed.
Lemma tracks_look f : (forall l, tracks (f l)) -> tracks (look f).
Proof. intros Hf l. apply (Hf l l). Qed.
Lemma tracks_given b a : tracks a -> tracks (given b a).
Proof. by destruct b. Qed.
Lemma tracks_for_all {A} (f : A -> lact) l : (forall x, tracks (f x)) -> tracks (for_all f l).
Proof. intros Hf. induction l; cbn [for_all]; [done|]. by apply tracks_chain. Qed.

Create HintDb listen discriminated.
#[export] Hint Constants Opaque : listen.
#[export] Hint Resolve tracks_chain tracks_skip tracks_update_cells tracks_look tracks_given tracks_for_all : listen.
#[export] Hint Extern 1 (tracks (put _)) => apply tracks_put; reflexivity : listen.
#[export] Hint Extern 1 (tracks (update _)) => apply tracks_update; reflexivity : listen.
#[export] Hint Extern 1 (tracks (reply _ _)) => apply tracks_put; reflexivity : listen.
#[export] Hint Extern 1 (tracks (proxy _)) => apply tracks_put; reflexivity : listen.

(** Runs through an action with the rules of one of these predicates. *)
Ltac run_act := repeat first
  [ solve [eauto 3 with listen]
  | progress unfold up, place_pointer, place_pointer_along, proxy_remove
  | lazymatch goal with
    | |- forall _, _ => intros ?
    | |- tracks (_ >>> _) => apply tracks_chain
    | |- tracks (look _) => apply tracks_look
    | |- tracks (given _ _) => apply tracks_given
    | |- tracks (for_all _ _) => apply tracks_for_all
    | |- tracks (match ?x with _ => _ end) => destruct x
    end ].

Lemma tracks_end_control_at addr along : tracks (end_control_at addr along).
Proof.
  intros l. unfold end_control_at, look. rewrite !chain_fst, !chain_snd. cbn. rewrite announce_app.
  case_bool_decide as Hin; cbn.
  - case_bool_decide; done.
  - set_solver.
Qed.
#[export] Hint Resolve tracks_end_control_at : listen.
Lemma tracks_end_control addr : tracks (end_control addr).
Proof. unfold end_control. apply tracks_end_control_at. Qed.
#[export] Hint Resolve tracks_end_control : listen.
Lemma tracks_return_pointer addr along : tracks (return_pointer addr along).
Proof. unfold return_pointer. run_act. Qed.
#[export] Hint Resolve tracks_return_pointer : listen.

(** ** Actions that only take control away *)

(** They emulate no input, announce no entry, tell of everybody who lost control
    and of the moment nobody has it. *)
Definition harmless (o : ListenOutput) : Prop :=
  match o with ToProxy (ProxyRequest.Input _ _) | Up (Entered _ _ _ _ _ _) => False | _ => True end.
Record lawful_run l l' (outs : list ListenOutput) : Prop := {
  la_outs : Forall harmless outs;
  la_sub : controllers l' ⊆ controllers l;
  la_last : Up NoLongerControlled ∈ outs -> controllers l' = ∅ /\ controllers l <> ∅;
  la_told : controllers l <> ∅ -> controllers l' = ∅ -> Up NoLongerControlled ∈ outs;
  la_left : forall addr side along, Up (Left addr side along) ∈ outs ->
    addr ∈ controllers l /\ addr ∉ controllers l';
}.
Definition lawful (a : lact) : Prop := forall l, lawful_run l (a l).1 (a l).2.

Lemma lawful_chain a b : lawful a -> lawful b -> lawful (a >>> b).
Proof.
  intros Ha Hb l. rewrite chain_fst, chain_snd. destruct (Ha l) as [Ho Hs Hl Ht Hd], (Hb (a l).1) as [Ho' Hs' Hl' Ht' Hd'].
  set (l1 := (a l).1) in *. set (l2 := (b l1).1) in *. split.
  - by apply Forall_app.
  - set_solver.
  - intros [Hin|Hin]%elem_of_app.
    + apply Hl in Hin as [E Hne]. split; [|done]. set_solver.
    + apply Hl' in Hin as [E Hne]. split; [done|]. set_solver.
  - intros Hne E. apply elem_of_app. destruct (decide (controllers l1 = ∅)); auto.
  - intros addr side along [Hin|Hin]%elem_of_app; [apply Hd in Hin|apply Hd' in Hin]; set_solver.
Qed.
Lemma lawful_quiet a :
  (forall l, controllers (a l).1 = controllers l) ->
  (forall l, Forall (fun o => harmless o /\ match o with Up NoLongerControlled | Up (Left _ _ _) => False | _ => True end) (a l).2) ->
  lawful a.
Proof.
  intros Hc Ho l. specialize (Ho l). rewrite Forall_forall in Ho. split.
  - apply Forall_forall. intros o Hin. by apply Ho.
  - by rewrite Hc.
  - intros Hin. by apply Ho in Hin as [_ ?].
  - intros Hne E. by rewrite Hc in E.
  - intros addr side along Hin. by apply Ho in Hin as [_ ?].
Qed.
Lemma lawful_skip : lawful skip.
Proof. apply lawful_quiet; by intros. Qed.
Lemma lawful_put o :
  harmless o -> match o with Up NoLongerControlled | Up (Left _ _ _) => False | _ => True end -> lawful (put o).
Proof. intros Ho Ho'. apply lawful_quiet; [done|]. intros l. by repeat constructor. Qed.
Lemma lawful_update f : (forall t, active_inputs (f t) = active_inputs t) -> lawful (update f).
Proof. intros Hf. apply lawful_quiet; [intros l; apply Hf|]. by constructor. Qed.
Lemma lawful_update_cells f : lawful (update_cells f).
Proof. apply lawful_quiet; [done|]. by constructor. Qed.
Lemma lawful_look f : (forall l, lawful (f l)) -> lawful (look f).
Proof. intros Hf l. apply (Hf l l). Qed.
Lemma lawful_given b a : lawful a -> lawful (given b a).
Proof. destruct b; [done|]. intros _. apply lawful_skip. Qed.
Lemma lawful_for_all {A} (f : A -> lact) l : (forall x, lawful (f x)) -> lawful (for_all f l).
Proof. intros Hf. induction l; cbn [for_all]; [apply lawful_skip|]. by apply lawful_chain. Qed.
#[export] Hint Resolve lawful_skip lawful_update_cells : listen.
#[export] Hint Extern 1 (lawful (put _)) => apply lawful_put; exact I : listen.
#[export] Hint Extern 1 (lawful (update _)) => apply lawful_update; reflexivity : listen.
#[export] Hint Extern 1 (lawful (reply _ _)) => apply lawful_put; exact I : listen.
#[export] Hint Extern 1 (lawful (proxy _)) => apply lawful_put; exact I : listen.
Ltac run_lawful := repeat first
  [ solve [eauto 3 with listen]
  | progress unfold up, place_pointer, place_pointer_along, proxy_remove
  | lazymatch goal with
    | |- forall _, _ => intros ?
    | |- lawful (_ >>> _) => apply lawful_chain
    | |- lawful (look _) => apply lawful_look
    | |- lawful (given _ _) => apply lawful_given
    | |- lawful (for_all _ _) => apply lawful_for_all
    | |- lawful (match ?x with _ => _ end) => destruct x
    end ].

Lemma lawful_end_control_at addr along : lawful (end_control_at addr along).
Proof.
  intros l. unfold end_control_at, look. rewrite !chain_fst, !chain_snd. cbn.
  case_bool_decide as Hin; cbn.
  - case_bool_decide as He; cbn; split; cbn.
    + by repeat constructor.
    + set_solver.
    + intros _. split; [done|set_solver].
    + intros _ _. right. by left.
    + intros a side al [[= <- _ _]|[[=]|[]%not_elem_of_nil]%elem_of_cons]%elem_of_cons. set_solver.
    + by repeat constructor.
    + set_solver.
    + intros [[=]|[]%not_elem_of_nil]%elem_of_cons.
    + done.
    + intros a side al [[= <- _ _]|[]%not_elem_of_nil]%elem_of_cons. set_solver.
  - replace (controllers l ∖ {[addr]}) with (controllers l) by set_solver.
    split; cbn; [done|done|by intros []%not_elem_of_nil|done|by intros ??? []%not_elem_of_nil].
Qed.
#[export] Hint Resolve lawful_end_control_at : listen.
Lemma lawful_end_control addr : lawful (end_control addr).
Proof. unfold end_control. apply lawful_end_control_at. Qed.
#[export] Hint Resolve lawful_end_control : listen.
Lemma lawful_return_pointer addr along : lawful (return_pointer addr along).
Proof. unfold return_pointer. run_lawful. Qed.
#[export] Hint Resolve lawful_return_pointer : listen.

Section listen.
Context `{!HashOrder} (env : Env).

(** An accepted entry. *)
Lemma handle_enter_eq addr pos through along l fp :
  accepts_input l = true -> certificate env addr = Some fp ->
  let side := entry_side (lt l) addr fp pos through in
  let first := negb (bool_decide (addr ∈ controllers l)) in
  let places := first && listen_multi_hop (lt l) in
  handle_enter env addr pos through along l
  = (Build_Listen (set_entered_from (<[addr := side]> (entered_from (lt l)))
                     (set_active_inputs ({[addr]} ∪ controllers l) (lt l))) (cells l),
     (if places then [MarkEntry (capture_pos (to_ipc_pos side)) (now env)] else [])
     ++ (if first then [MarkAlong along] else [])
     ++ [Up ReleaseNotify; Up (Entered addr (to_ipc_pos side) fp first (bool_decide (is_Some through)) along)]
     ++ (if places then [ToProxy (ProxyRequest.PlacePointer side along)] else [])
     ++ [Reply addr (ProtoEvent.Ack 0)]).
Proof.
  intros Ha Hc side first places. unfold handle_enter, look. rewrite Ha, Hc. cbn [negb]. fold side first places.
  by destruct places, first.
Qed.
(** One that is not. *)
Lemma handle_enter_refused addr pos through along l :
  accepts_input l = false \/ certificate env addr = None ->
  exists outs, handle_enter env addr pos through along l = (l, outs)
  /\ Forall (fun o => o = ToProxy (ProxyRequest.Remove addr) \/ o = Reply addr (ProtoEvent.Leave 0)) outs.
Proof.
  intros Hr. unfold handle_enter, look. destruct (accepts_input l) eqn:Ha; cbn [negb].
  - destruct Hr as [?|E0]; [done|]. rewrite E0. eexists. split; [reflexivity|]. constructor; [auto|constructor].
  - eexists. split; [reflexivity|]. constructor; [auto|constructor; [auto|constructor]].
Qed.
Lemma enter_cases addr l :
  (exists fp, accepts_input l = true /\ certificate env addr = Some fp)
  \/ accepts_input l = false \/ certificate env addr = None.
Proof. destruct (accepts_input l), (certificate env addr); eauto. Qed.

Lemma tracks_handle_enter addr pos through along : tracks (handle_enter env addr pos through along).
Proof.
  intros l. destruct (enter_cases addr l) as [(fp & Ha & Hc)|Hr].
  - rewrite (handle_enter_eq _ _ _ _ _ _ Ha Hc). cbn [fst snd lt]. rewrite !announce_app.
    by destruct (_ && _), (negb _).
  - destruct (handle_enter_refused addr pos through along l Hr) as (outs & -> & Ho). cbn.
    induction Ho as [|o outs Ho _ IH]; [done|]. cbn. by destruct Ho as [-> | ->].
Qed.
Hint Resolve tracks_handle_enter : listen.

(** Handing on: towards the device on that side, if it can be reached. *)
Lemma start_handoff_Some t addr edge a :
  start_handoff env t addr edge = Some a ->
  exists target, (addr ∈ active_inputs t /\ peer_beyond t !! side_of_edge edge = Some target
    /\ target ∉ unavailable_peers t)
  /\ a = (end_control addr >>> update (fun t => set_entered_from (delete addr (entered_from t)) t) >>>
          proxy_remove addr >>> reply addr (ProtoEvent.Handoff target (side_of_edge edge))).
Proof.
  unfold start_handoff. destruct (negb (listen_multi_hop t) || _) eqn:E1; [done|].
  apply orb_false_iff in E1 as [_ Ha%negb_false_iff%bool_decide_eq_true].
  destruct (peer_beyond t !! side_of_edge edge) as [target|]; [|done].
  destruct (_ || normal_return t addr edge target) eqn:E2; [done|]. intros [= <-].
  apply orb_false_iff in E2 as [Hal%negb_false_iff _]. unfold handoff_allowed in Hal.
  apply andb_true_iff in Hal as [Hun%negb_true_iff%bool_decide_eq_false _]. eauto 6.
Qed.
Lemma tracks_pointer_edge addr edge along : tracks (handle_pointer_edge env addr edge along).
Proof.
  unfold handle_pointer_edge. apply tracks_look. intros l.
  destruct (start_handoff env (lt l) addr edge) as [a|] eqn:E; [|run_act].
  apply start_handoff_Some in E as (target & _ & ->). run_act.
Qed.
Lemma tracks_receive_chunk key index data : tracks (receive_chunk key index data).
Proof. unfold receive_chunk. run_act. Qed.
Lemma tracks_handle_input event addr : tracks (handle_input env event addr).
Proof. unfold handle_input, proxy_consume. run_act. Qed.
Lemma tracks_start_transfer addr id k total n : tracks (start_transfer env addr id k total n).
Proof. unfold start_transfer. run_act. Qed.
Hint Resolve tracks_pointer_edge tracks_receive_chunk tracks_handle_input tracks_start_transfer : listen.

(** All but the two ways that are not announced. *)
Definition announced_message (event : ProtoEvent) : bool :=
  match event with ProtoEvent.Handoff _ _ => false | _ => true end.
Lemma tracks_message event addr : announced_message event = true -> tracks (handle_message env event addr).
Proof. intros He. destruct event; try done; cbn [handle_message]; run_act. Qed.
Lemma tracks_tick : tracks (handle_tick env).
Proof. unfold handle_tick, expire_peer. run_act. Qed.

Lemma lawful_pointer_edge addr edge along : lawful (handle_pointer_edge env addr edge along).
Proof.
  unfold handle_pointer_edge. apply lawful_look. intros l.
  destruct (start_handoff env (lt l) addr edge) as [a|] eqn:E; [|run_lawful].
  apply start_handoff_Some in E as (target & _ & ->). run_lawful.
Qed.
Hint Resolve lawful_pointer_edge : listen.
Lemma lawful_receive_chunk key index data : lawful (receive_chunk key index data).
Proof. unfold receive_chunk. run_lawful. Qed.
Lemma lawful_tick : lawful (handle_tick env).
Proof. unfold handle_tick, expire_peer. run_lawful. Qed.
Hint Resolve lawful_receive_chunk lawful_tick : listen.

(** The messages that give control or use it. *)
Definition is_enter (event : ProtoEvent) : bool :=
  match event with ProtoEvent.Enter _ | ProtoEvent.EnterAt _ _ | ProtoEvent.EnterVia _ _ => true | _ => false end.
Definition passive_message (event : ProtoEvent) : bool :=
  negb (is_enter event) && match event with ProtoEvent.Input _ | ProtoEvent.Handoff _ _ => false | _ => true end.
Lemma lawful_message event addr : passive_message event = true -> lawful (handle_message env event addr).
Proof. intros He. destruct event; try done; cbn [handle_message]; unfold start_transfer; run_lawful. Qed.

(** What the emulation task tells. *)
Definition task_event (e : EmulationEvent) : bool :=
  match e with
  | EmulationDisabled | EmulationEnabled _ | AtPointerEdge _ _ _ | NativeClipboard _ | FileClipboard _ _ => true
  | _ => false
  end.
Lemma lawful_task_event e : task_event e = true -> lawful (handle_task_event env e).
Proof. intros He. unfold handle_task_event, proxy_event. destruct e; try done; run_lawful. Qed.
Lemma tracks_task_event e : task_event e = true -> tracks (handle_task_event env e).
Proof. intros He. unfold handle_task_event, proxy_event. destruct e; try done; run_act. Qed.

Definition is_sharing_off (r : EmulationRequest) : bool :=
  match r with SetInputSharing enabled => negb enabled | _ => false end.
Lemma lawful_request r : is_sharing_off r = false -> lawful (handle_emulation_request env r).
Proof.
  intros Hr. destruct r; cbn [handle_emulation_request]; unfold proxy_terminate, proxy_set_independent_pointers;
    try run_lawful. destruct enabled; [|done]. unfold set_sharing, proxy_set_input_sharing. cbn. run_lawful.
Qed.
Lemma tracks_request r : is_sharing_off r = false -> tracks (handle_emulation_request env r).
Proof.
  intros Hr. destruct r; cbn [handle_emulation_request]; unfold proxy_terminate, proxy_set_independent_pointers;
    try run_act. destruct enabled; [|done]. unfold set_sharing, proxy_set_input_sharing. cbn. run_act.
Qed.
Lemma lawful_published r : lawful (handle_published r).
Proof. unfold handle_published. run_lawful. Qed.
Lemma tracks_published r : tracks (handle_published r).
Proof. unfold handle_published. run_act. Qed.
End listen.
