(* ===== verification/ListenSafety.v ===== *)
(** * Input emulation: control is given, used and told

    The claims about the listen task on its own. *)

From S2P Require Import Prelude Wire ProtoTypes ProtoValid InputCapture InputEmulation Clipboard ClientManager Emulation ListenTheorems.

#[local] Infix ">>>" := chain (at level 62, right associativity).

(** ** Runs *)

(** The emulation task tells only of itself. *)
Definition sane (x : ListenStimulus) : bool := match x with FromTask e => task_event e | _ => true end.

(** Who controls the screen after a step, as far as anybody can tell: from the
    announcements, and from the two ways nobody announces. *)
Definition told (x : ListenStimulus) (A : gset SocketAddr) (outs : list ListenOutput) : gset SocketAddr :=
  match x with
  | FromListener (Msg (ProtoEvent.Handoff _ _) addr) => {[addr]} ∪ A
  | FromService (SetInputSharing false) => ∅
  | _ => announce A outs
  end.

Section runs.
Context `{!HashOrder}.

(** The states of the listen task with the controllers that were told.  The cells
    belong to the emulation task as well. *)
Inductive listen_run : Listen -> gset SocketAddr -> Prop :=
| listen_starts : listen_run new_listen ∅
| listen_cells l A c : listen_run l A -> listen_run (Build_Listen (lt l) c) A
| listen_steps env x l A :
    listen_run l A -> sane x = true -> takes (lt l) x = true ->
    listen_run (listen_step env x l).1 (told x A (listen_step env x l).2).

Lemma listen_step_taken env x l :
  takes (lt l) x = true ->
  listen_step env x l =
    match x with
    | FromListener e => handle_listen_event env e
    | FromTask e => handle_task_event env e
    | FromService request => handle_emulation_request env request
    | Published r => handle_published r
    | Tick => handle_tick env
    end l.
Proof. intros Ht. unfold listen_step, look. by rewrite Ht. Qed.
Lemma listen_step_idle env x l : takes (lt l) x = false -> listen_step env x l = (l, []).
Proof. intros Ht. unfold listen_step, look. by rewrite Ht. Qed.

(** A message: first the peer is heard. *)
Definition hear env addr (l : Listen) : Listen :=
  Build_Listen (set_last_response (<[addr := now env]> (last_response (lt l))) (lt l)) (cells l).
Lemma handle_msg_eq env event addr l :
  handle_listen_event env (Msg event addr) l = handle_message env event addr (hear env addr l).
Proof. cbn [handle_listen_event]. unfold chain, heard_from, update. cbn. fold (hear env addr l). by destruct (handle_message _ _ _ _). Qed.

Lemma for_all_replies addrs : forall l,
  (for_all (fun addr => proxy_remove addr >>> reply addr (ProtoEvent.Leave 0)) addrs l).1 = l
  /\ (for_all (fun addr => proxy_remove addr >>> reply addr (ProtoEvent.Leave 0)) addrs l).2
     = addrs ≫= (fun addr => [ToProxy (ProxyRequest.Remove addr); Reply addr (ProtoEvent.Leave 0)]).
Proof.
  induction addrs as [|a addrs IH]; intros l; cbn [for_all]; [done|].
  rewrite !chain_fst, !chain_snd. cbn. by destruct (IH l) as [-> ->].
Qed.
Lemma sharing_off_eq l :
  set_sharing false l
  = (Build_Listen (set_active_inputs ∅ (set_listen_sharing false (lt l))) (set_sharing_cell false (cells l)),
     ToProxy (ProxyRequest.SetInputSharing false)
     :: (hash_order (elements (controllers l))
         ≫= (fun addr => [ToProxy (ProxyRequest.Remove addr); Reply addr (ProtoEvent.Leave 0)]))).
Proof.
  unfold set_sharing, proxy_set_input_sharing. cbn [negb given]. apply injective_projections;
    rewrite ?chain_fst, ?chain_snd; cbn;
    match goal with |- context [for_all ?f ?addrs ?l0] => pose proof (for_all_replies addrs l0) as [E1 E2] end;
    destruct (for_all _ _ _) as [l1 o1]; cbn in *; congruence.
Qed.

Lemma step_told env x l :
  sane x = true -> takes (lt l) x = true ->
  controllers (listen_step env x l).1 = told x (controllers l) (listen_step env x l).2.
Proof.
  intros Hs Ht. rewrite (listen_step_taken env x l Ht). destruct x as [e|e|r|r|].
  - destruct e as [event addr|addr fp|fp].
    + rewrite handle_msg_eq. change (controllers l) with (controllers (hear env addr l)).
      destruct (announced_message event) eqn:He.
      * rewrite (tracks_message env event addr He). by destruct event.
      * by destruct event.
    + done.
    + cbn [told]. assert (Htr : tracks (handle_listen_event env (Rejected fp))) by (cbn; run_act). apply Htr.
  - apply (tracks_task_event env e Hs).
  - destruct (is_sharing_off r) eqn:Hr.
    + destruct r as [| | | | |[]| | | | | | | | | | |]; try done. cbn [told handle_emulation_request].
      by rewrite sharing_off_eq.
    + rewrite (tracks_request env r Hr). by destruct r as [| | | | |[]| | | | | | | | | | |].
  - apply tracks_published.
  - apply tracks_tick.
Qed.
Lemma listen_run_told l A : listen_run l A -> controllers l = A.
Proof.
  induction 1 as [|l A c _ IH|env x l A _ IH Hs Ht]; [done|done|]. by rewrite (step_told env x l Hs Ht), IH.
Qed.

(** An output of a step is harmless, or the input of a controller, or the entry of
    a peer that may enter. *)
Inductive rightful env (x : ListenStimulus) l (outs : list ListenOutput) : ListenOutput -> Prop :=
| right_harmless o : harmless o -> rightful env x l outs o
| right_input event addr :
    x = FromListener (Msg (ProtoEvent.Input event) addr) -> addr ∈ controllers l ->
    listen_sharing (lt l) = true -> sharing_cell (cells l) = true -> emulation_active (cells l) = true ->
    rightful env x l outs (ToProxy (ProxyRequest.Input event addr))
| right_entry event addr pos fp first relayed along :
    x = FromListener (Msg event addr) -> is_enter event = true -> accepts_input l = true ->
    certificate env addr = Some fp -> (first = true <-> addr ∉ controllers l) ->
    Reply addr (ProtoEvent.Ack 0) ∈ outs ->
    rightful env x l outs (Up (Entered addr pos fp first relayed along)).

Lemma enter_rightful env event addr pos through along l :
  is_enter event = true ->
  let outs := (handle_enter env addr pos through along (hear env addr l)).2 in
  Forall (rightful env (FromListener (Msg event addr)) l outs) outs.
Proof.
  intros He outs. unfold outs. destruct (enter_cases env addr (hear env addr l)) as [(fp & Ha & Hc)|Hr].
  - rewrite (handle_enter_eq _ _ _ _ _ _ _ Ha Hc). cbn [snd].
    assert (Hack : forall o1 o2 o3 o4, Reply addr (ProtoEvent.Ack 0) ∈ o1 ++ o2 ++ o3 ++ o4 ++ [Reply addr (ProtoEvent.Ack 0)])
      by (intros; rewrite !elem_of_app, list_elem_of_singleton; tauto).
    apply List.Forall_forall. intros o Ho%list_elem_of_In. rewrite !elem_of_app in Ho.
    destruct Ho as [Ho|[Ho|[Ho|[Ho|Ho]]]].
    + destruct (_ && _); [|by apply not_elem_of_nil in Ho]. apply list_elem_of_singleton in Ho as ->. by constructor.
    + destruct (negb _); [|by apply not_elem_of_nil in Ho]. apply list_elem_of_singleton in Ho as ->. by constructor.
    + apply elem_of_cons in Ho as [->| ->%list_elem_of_singleton]; [by constructor|].
      eapply right_entry; [done..| |apply Hack]. cbn. rewrite negb_true_iff, bool_decide_eq_false. done.
    + destruct (_ && _); [|by apply not_elem_of_nil in Ho]. apply list_elem_of_singleton in Ho as ->. by constructor.
    + apply list_elem_of_singleton in Ho as ->. by constructor.
  - destruct (handle_enter_refused env addr pos through along _ Hr) as (outs' & -> & Ho). cbn.
    eapply Forall_impl; [exact Ho|]. intros o [-> | ->]; by constructor.
Qed.
Lemma lawful_rightful env x l a : lawful a -> Forall (rightful env x l (a l).2) (a l).2.
Proof. intros Ha. eapply Forall_impl; [apply (la_outs _ _ _ (Ha l))|]. intros o. apply right_harmless. Qed.

Lemma step_rightful env x l :
  sane x = true ->
  Forall (rightful env x l (listen_step env x l).2) (listen_step env x l).2.
Proof.
  intros Hs. destruct (takes (lt l) x) eqn:Ht; [|by rewrite listen_step_idle].
  rewrite (listen_step_taken env x l Ht). destruct x as [e|e|r|r|].
  - destruct e as [event addr|addr fp|fp].
    + rewrite handle_msg_eq. destruct (passive_message event) eqn:Hp.
      { eapply Forall_impl; [apply (la_outs _ _ _ (lawful_message env event addr Hp (hear env addr l)))|].
        intros o. apply right_harmless. }
      destruct (is_enter event) eqn:He; [destruct event; try done; cbn [handle_message]; by apply enter_rightful|].
      destruct event; try done; cbn [handle_message].
      * repeat constructor.
      * unfold handle_input, look. cbn. destruct (listen_sharing (lt l)) eqn:Hsh; cbn.
        -- case_bool_decide as Hin.
           ++ unfold proxy_consume, look. cbn. destruct (emulation_active (cells l)) eqn:E1; [|constructor].
              destruct (sharing_cell (cells l)) eqn:E2; [|constructor]. constructor; [|constructor]. by apply right_input.
           ++ destruct (paused_for _ _ _); repeat constructor.
        -- case_bool_decide; [constructor|]. destruct (paused_for _ _ _); repeat constructor.
    + repeat constructor.
    + apply lawful_rightful. cbn. run_lawful.
  - by apply lawful_rightful, lawful_task_event.
  - destruct (is_sharing_off r) eqn:Hr; [|by apply lawful_rightful, lawful_request].
    destruct r as [| | | | |[]| | | | | | | | | | |]; try done. cbn [handle_emulation_request]. rewrite sharing_off_eq.
    constructor; [by constructor|]. apply List.Forall_forall. intros o Ho%list_elem_of_In.
    apply list_elem_of_bind in Ho as (a & Ho & _). constructor.
    by apply elem_of_cons in Ho as [-> | ->%list_elem_of_singleton].
  - apply lawful_rightful, lawful_published.
  - apply lawful_rightful, lawful_tick.
Qed.
End runs.

(** ** Who lost control *)

Definition mute (o : ListenOutput) : Prop :=
  match o with Up NoLongerControlled | Up (Left _ _ _) => False | _ => True end.
(** A step takes control away and tells, or gives or uses it and tells of nobody
    who lost it, or input is no longer shared. *)
Inductive step_kind (x : ListenStimulus) l l' outs : Prop :=
| kind_lawful : lawful_run l l' outs -> step_kind x l l' outs
| kind_gives : Forall mute outs -> controllers l ⊆ controllers l' -> step_kind x l l' outs
| kind_off : x = FromService (SetInputSharing false) -> Forall mute outs -> step_kind x l l' outs.

Section leaving.
Context `{!HashOrder}.

Lemma enter_gives env addr pos through along l :
  let r := handle_enter env addr pos through along l in
  Forall mute r.2 /\ controllers l ⊆ controllers r.1.
Proof.
  destruct (enter_cases env addr l) as [(fp & Ha & Hc)|Hr].
  - rewrite (handle_enter_eq _ _ _ _ _ _ _ Ha Hc). cbn [fst snd lt]. split; [|cbn; set_solver].
    destruct (_ && _), (negb _); by repeat constructor.
  - destruct (handle_enter_refused env addr pos through along l Hr) as (outs & -> & Ho). split; [|done].
    eapply Forall_impl; [exact Ho|]. by intros o [-> | ->].
Qed.

Lemma step_kind_spec env x l :
  sane x = true -> takes (lt l) x = true ->
  step_kind x l (listen_step env x l).1 (listen_step env x l).2.
Proof.
  intros Hs Ht. rewrite (listen_step_taken env x l Ht). destruct x as [e|e|r|r|].
  - destruct e as [event addr|addr fp|fp].
    + rewrite handle_msg_eq. destruct (passive_message event) eqn:Hp.
      { apply kind_lawful. by destruct (lawful_message env event addr Hp (hear env addr l)). }
      destruct (is_enter event) eqn:He.
      { destruct event; try done; cbn [handle_message]; unfold look;
          match goal with |- context [handle_enter env ?a ?b ?c ?d ?e] =>
            destruct (enter_gives env a b c d e); by apply kind_gives end. }
      apply kind_gives; destruct event; try done; cbn [handle_message].
      * by repeat constructor.
      * unfold handle_input, look. cbn. destruct (_ && bool_decide _).
        -- unfold proxy_consume, look. cbn. destruct (_ && _); by repeat constructor.
        -- case_bool_decide; [constructor|]. destruct (paused_for _ _ _); by repeat constructor.
      * cbn. set_solver.
      * unfold handle_input, look. cbn. destruct (_ && bool_decide _).
        -- unfold proxy_consume, look. cbn. by destruct (_ && _).
        -- case_bool_decide; [done|]. by destruct (paused_for _ _ _).
    + apply kind_gives; [by repeat constructor|done].
    + apply kind_lawful. assert (Hl : lawful (handle_listen_event env (Rejected fp))) by (cbn; run_lawful). apply Hl.
  - by apply kind_lawful, lawful_task_event.
  - destruct (is_sharing_off r) eqn:Hr; [|by apply kind_lawful, lawful_request].
    destruct r as [| | | | |[]| | | | | | | | | | |]; try done. apply kind_off; [done|].
    cbn [handle_emulation_request]. rewrite sharing_off_eq. constructor; [done|].
    apply List.Forall_forall. intros o Ho%list_elem_of_In. apply list_elem_of_bind in Ho as (a & Ho & _).
    by apply elem_of_cons in Ho as [-> | ->%list_elem_of_singleton].
  - apply kind_lawful, lawful_published.
  - apply kind_lawful, lawful_tick.
Qed.
End leaving.

(** ** The claim *)

(** C5: control of this screen is given and used by right, and told.  After any
    run of the listen task, the peers whose input is emulated are those whose
    entries were announced and whose departures were not, but for the peers that
    answered with a hand-off and for the moment input is no longer shared.  In
    the next step: input goes to the emulation only as the message of a peer that
    has control, while input is shared and the emulation is active; an entry is
    announced only for a peer that asked for it, over a connection whose
    certificate is known, while input is accepted, as the first one exactly when
    it had no control, and is acknowledged; a departure is announced only of a
    peer that had control and has none any more; and the end of control is told
    when, and unless sharing was switched off only when, the last peer loses it. *)
Theorem control_is_told `{!HashOrder} (l : Listen) (A : gset SocketAddr) (Hrun : listen_run l A) :
  controllers l = A
  /\ forall env x, sane x = true -> takes (lt l) x = true ->
     let l' := (listen_step env x l).1 in
     let outs := (listen_step env x l).2 in
     (forall event addr, ToProxy (ProxyRequest.Input event addr) ∈ outs ->
        x = FromListener (Msg (ProtoEvent.Input event) addr) /\ addr ∈ A
        /\ listen_sharing (lt l) = true /\ sharing_cell (cells l) = true /\ emulation_active (cells l) = true)
     /\ (forall addr pos fp first relayed along, Up (Entered addr pos fp first relayed along) ∈ outs ->
        (exists event, x = FromListener (Msg event addr) /\ is_enter event = true)
        /\ accepts_input l = true /\ certificate env addr = Some fp /\ (first = true <-> addr ∉ A)
        /\ Reply addr (ProtoEvent.Ack 0) ∈ outs)
     /\ (forall addr side along, Up (Left addr side along) ∈ outs -> addr ∈ A /\ addr ∉ controllers l')
     /\ (Up NoLongerControlled ∈ outs -> A <> ∅ /\ controllers l' = ∅)
     /\ (A <> ∅ -> controllers l' = ∅ ->
        Up NoLongerControlled ∈ outs \/ x = FromService (SetInputSharing false)).
Proof.
  pose proof (listen_run_told l A Hrun) as HA. split; [done|]. subst A. intros env x Hs Ht l' outs.
  pose proof (step_rightful env x l Hs) as Hr. rewrite Forall_forall in Hr. fold outs in Hr.
  pose proof (step_kind_spec env x l Hs Ht) as Hk. fold l' outs in Hk. split_and!.
  - intros event addr Hin. apply Hr in Hin. inversion Hin; [done|]. auto.
  - intros addr pos fp first relayed along Hin. apply Hr in Hin. inversion Hin; [done|]. eauto 8.
  - intros addr side along Hin. destruct Hk as [[]|Hm _|_ Hm]; [eauto|..]; rewrite Forall_forall in Hm; by apply Hm in Hin.
  - intros Hin. destruct Hk as [[]|Hm _|_ Hm]; [naive_solver|..]; rewrite Forall_forall in Hm; by apply Hm in Hin.
  - intros Hne E. destruct Hk as [[]|_ Hsub|Hoff _]; [auto|set_solver|auto].
Qed.

(** A peer has entered; its input is emulated. *)
Module Entry.
#[local] Existing Instance list_order.
Definition peer : SocketAddr := Build_SocketAddr (IpAddr.V4 1) 5353 0 0.
Definition env : Env :=
  {| now := 0; certificate := fun _ => Some (str "aa"); port_changed := fun p => Ok p; local_commit := [] |}.
Definition working : Cells := Build_Cells true true true false false.
Definition sharing : Listen := (listen_step env (FromService (CaptureReady true)) new_listen).1.
Definition ready : Listen := Build_Listen (lt sharing) working.
Definition entering : ListenStimulus := FromListener (Msg (ProtoEvent.Enter Position.Left) peer).
Definition entered : Listen := (listen_step env entering ready).1.

Lemma control_is_told_witness :
  controllers entered = {[peer]}
  /\ forall event, ToProxy (ProxyRequest.Input event peer)
       ∈ (listen_step env (FromListener (Msg (ProtoEvent.Input event) peer)) entered).2
     -> emulation_active (cells entered) = true.
Proof.
  assert (Hrun : listen_run entered (told entering ∅ (listen_step env entering ready).2)).
  { apply listen_steps; [|reflexivity|vm_compute; reflexivity]. apply (listen_cells _ _ working).
    apply (listen_steps env (FromService (CaptureReady true)) new_listen ∅ listen_starts); vm_compute; reflexivity. }
  destruct (control_is_told _ _ Hrun) as [HA Hstep]. split.
  - rewrite HA. vm_compute. reflexivity.
  - intros event Hin. destruct (Hstep env (FromListener (Msg (ProtoEvent.Input event) peer))) as [Hi _];
      [reflexivity|vm_compute; reflexivity|]. apply Hi in Hin. tauto.
Defined.
End Entry.
