(* ===== verification/EmulationSystem.v ===== *)
(** * Input emulation: the two tasks together

    The listen task and the emulation task of [emulation.rs] with what is between
    them: the queue of requests, the events and answers on their way back, and
    the cells both read.  Either task may run at any time. *)

From S2P Require Import Prelude Wire ProtoTypes ProtoValid InputEmulation Clipboard ClientManager Emulation EmulationTask.

Record EmulationSystem (W : Type) := {
  listen : ListenTask;
  emu : EmulationTask W;
  cell : Cells;
  queue : list ProxyRequest.t;
  news : list EmulationEvent;
  answer : option (result rstring unit);
}.
Arguments listen {W} _.
Arguments emu {W} _.
Arguments cell {W} _.
Arguments queue {W} _.
Arguments news {W} _.
Arguments answer {W} _.
Arguments Build_EmulationSystem {W} _ _ _ _ _ _.

Definition requests (outs : list ListenOutput) : list ProxyRequest.t :=
  omap (fun o => match o with ToProxy r => Some r | _ => None end) outs.
Definition events_of (outs : list TaskOutput) : list EmulationEvent :=
  omap (fun o => match o with TellEvent e => Some e | _ => None end) outs.
Definition answer_of (outs : list TaskOutput) : option (result rstring unit) :=
  head (omap (fun o => match o with AnswerPublish r => Some r | _ => None end) outs).

(** Requests taken out of the queue beside the creation of one device: at most
    [n], none after a [Terminate]. *)
Fixpoint lose (n : nat) (q : list ProxyRequest.t) : list ProxyRequest.t * list ProxyRequest.t * bool :=
  match n, q with
  | S n, ProxyRequest.Terminate :: q => ([ProxyRequest.Terminate], q, true)
  | S n, r :: q => let '(lost, q, stop) := lose n q in (r :: lost, q, stop)
  | _, _ => ([], q, false)
  end.
Fixpoint lose_all (counts : list nat) (q : list ProxyRequest.t) : list (list ProxyRequest.t) * list ProxyRequest.t :=
  match counts with
  | [] => ([], q)
  | n :: counts =>
      let '(lost, q, stop) := lose n q in
      if (stop : bool) then ([lost], q)
      else let (rest, q) := lose_all counts q in (lost :: rest, q)
  end.

Inductive SystemEvent (W : Type) :=
| OnListener (env : Env) (e : ListenEvent)
| OnService (env : Env) (request : EmulationRequest)
| OnTick (env : Env)
| OnNews (env : Env)
| OnAnswer (env : Env)
| OnQueue
(** the platform answers; [counts] requests are lost beside the devices *)
| OnInitialized (create_backend : rstring -> result CreationError W) (order : list rstring) (counts : list nat)
| OnTimeout
| OnNative (data : option (rstring * bytes))
| OnHealth.
Arguments OnListener {W} env e.
Arguments OnService {W} env request.
Arguments OnTick {W} env.
Arguments OnNews {W} env.
Arguments OnAnswer {W} env.
Arguments OnQueue {W}.
Arguments OnInitialized {W} create_backend order counts.
Arguments OnTimeout {W}.
Arguments OnNative {W} data.
Arguments OnHealth {W}.

Section system.
Context {W : Type} `{!EmulationBackend W} `{!HashOrder}.
Context (decode_image : rstring -> bytes -> result rstring (Z * Z * bytes)).
Implicit Types (s : EmulationSystem W).

Definition new_system (backend : option rstring) : EmulationSystem W :=
  Build_EmulationSystem (lt new_listen) (new_task backend) (cells new_listen) [] [] None.

(** The listen task takes a stimulus, if it is at its [select!]. *)
Definition listen_runs (env : Env) (x : ListenStimulus) (news : list EmulationEvent)
    (answer : option (result rstring unit)) s : option (EmulationSystem W * list ListenOutput) :=
  if takes (listen s) x then
    let (l, outs) := listen_step env x (Build_Listen (listen s) (cell s)) in
    Some (Build_EmulationSystem (lt l) (emu s) (cells l) (queue s ++ requests outs) news answer, outs)
  else None.

(** The emulation task takes one; [queue] is what it leaves in the queue. *)
Definition task_runs (x : TaskStimulus) (queue : list ProxyRequest.t) s : EmulationSystem W :=
  let (t, outs) := task_step decode_image x (Build_Task (emu s) (cell s)) in
  Build_EmulationSystem (listen s) (et t) (shared t) queue (news s ++ events_of outs)
    (match answer_of outs with Some r => Some r | None => answer s end).

(** One step of either task; [None] when it cannot happen. *)
Definition system_step (e : SystemEvent W) s : option (EmulationSystem W * list ListenOutput) :=
  match e with
  | OnListener env e => listen_runs env (FromListener e) (news s) (answer s) s
  | OnService env request => listen_runs env (FromService request) (news s) (answer s) s
  | OnTick env => listen_runs env Tick (news s) (answer s) s
  | OnNews env =>
      match news s with e :: rest => listen_runs env (FromTask e) rest (answer s) s | [] => None end
  | OnAnswer env =>
      match answer s with Some r => listen_runs env (Published r) (news s) None s | None => None end
  | OnQueue =>
      match queue s with r :: rest => Some (task_runs (FromQueue r) rest s, []) | [] => None end
  | OnInitialized create_backend order counts =>
      match phase (emu s), new_emulation create_backend order (emu_backend (emu s)) with
      | Initializing, Ok _ =>
          let counts := if sharing_cell (cell s) then take (size (task_handles (emu s))) counts else [] in
          let (lost, rest) := lose_all counts (queue s) in
          Some (task_runs (Initialized create_backend order lost) rest s, [])
      | Initializing, Err _ => Some (task_runs (Initialized create_backend order []) (queue s) s, [])
      | _, _ => None
      end
  | OnTimeout => Some (task_runs InitializationTimeout (queue s) s, [])
  | OnNative data => Some (task_runs (NativeData data) (queue s) s, [])
  | OnHealth => Some (task_runs HealthCheck (queue s) s, [])
  end.

Fixpoint system_run (l : list (SystemEvent W)) s : option (EmulationSystem W * list ListenOutput) :=
  match l with
  | [] => Some (s, [])
  | e :: l =>
      '(s, outs) ← system_step e s; '(s, outs') ← system_run l s; Some (s, outs ++ outs')
  end.
End system.
