(* ===== verification/EmulationSafety.v ===== *)
(** * Input emulation: whoever lost control lets go

    The two tasks together: for every peer that does not control the screen, the
    back end holds nothing or a release is on its way to it. *)

From S2P Require Import Prelude Wire ProtoTypes ProtoValid InputCapture InputEmulation Clipboard ClientManager Emulation EmulationTask EmulationSystem EmulationTheorems ListenTheorems ListenSafety.

#[local] Infix ">>>" := chain (at level 62, right associativity).
#[local] Arguments held_keys : simpl never.
#[local] Arguments held_buttons : simpl never.
#[local] Arguments requests : simpl never.

(** ** The queue *)

Definition releases (a : SocketAddr) (r : ProxyRequest.t) : Prop :=
  r = ProxyRequest.Remove a \/ r = ProxyRequest.SetInputSharing false.
(** No input of that peer. *)
Definition quiet (a : SocketAddr) (q : list ProxyRequest.t) : Prop :=
  Forall (fun r => match r with ProxyRequest.Input _ b => b <> a | _ => True end) q.
(** A release, and no input after it. *)
Definition pending (a : SocketAddr) (q : list ProxyRequest.t) : Prop :=
  exists before r after, q = before ++ r :: after /\ releases a r /\ quiet a after.

(** What is owed to the peers outside [A] and [X]: [clean] says that nothing of a
    peer is held. *)
Definition owed (clean : SocketAddr -> Prop) (A X : gset SocketAddr) (q : list ProxyRequest.t) : Prop :=
  forall a, a ∉ A -> a ∉ X -> (quiet a q /\ clean a) \/ pending a q.

Lemma quiet_app a q q' : quiet a (q ++ q') <-> quiet a q /\ quiet a q'.
Proof. apply Forall_app. Qed.
Lemma pending_app a q q' : pending a q -> quiet a q' -> pending a (q ++ q').
Proof.
  intros (before & r & after & -> & Hr & Hq) Hq'. exists before, r, (after ++ q').
  rewrite <- app_assoc. split; [done|]. split; [done|]. by apply quiet_app.
Qed.
Lemma pending_suffix a lost q : pending a (lost ++ q) -> quiet a q \/ pending a q.
Proof.
  intros (before & r & after & E & Hr & Hq). apply app_eq_app in E as (l & [[-> E]|[-> E]]).
  - left. destruct l as [|x l]; cbn in E.
    + subst q. apply Forall_cons. split; [by destruct Hr as [-> | ->]|done].
    + injection E as <- ->. by apply quiet_app in Hq as [_ ?].
  - right. exists l, r, after. done.
Qed.

(** Requests that are no input of the outsiders. *)
Lemma owed_app clean A X q q' :
  owed clean A X q -> (forall a, a ∉ A -> a ∉ X -> quiet a q') -> owed clean A X (q ++ q').
Proof.
  intros Ho Hq a Ha Hx. destruct (Ho a Ha Hx) as [[H1 H2]|Hp].
  - left. split; [|done]. apply quiet_app. auto.
  - right. apply pending_app; auto.
Qed.
Lemma owed_mono clean A X A' X' q : owed clean A X q -> A ∪ X ⊆ A' ∪ X' -> owed clean A' X' q.
Proof. intros Ho Hs a Ha Hx. apply Ho; set_solver. Qed.

(** ** The listen task pays *)

Definition pays (X X' : gset SocketAddr) (act : lact) : Prop :=
  forall clean l q, owed clean (controllers l) X q ->
  owed clean (controllers (act l).1) X' (q ++ requests (act l).2).

Lemma requests_app o o' : requests (o ++ o') = requests o ++ requests o'.
Proof. apply omap_app. Qed.
Lemma pays_chain X Y Z act act' : pays X Y act -> pays Y Z act' -> pays X Z (act >>> act').
Proof.
  intros H1 H2 clean l q Ho. rewrite chain_fst, chain_snd, requests_app, app_assoc. by apply H2, H1.
Qed.
(** An action that lets nobody go and emulates nothing. *)
Lemma pays_quiet X act :
  (forall l, controllers l ⊆ controllers (act l).1) -> (forall l a, quiet a (requests (act l).2)) -> pays X X act.
Proof.
  intros Hc Hq clean l q Ho. apply owed_app; [|auto]. eapply owed_mono; [done|]. specialize (Hc l). set_solver.
Qed.
Lemma pays_look X Y f : (forall l, pays X Y (f l)) -> pays X Y (look f).
Proof. intros Hf clean l q. apply (Hf l). Qed.
Lemma pays_skip X : pays X X skip.
Proof. apply pays_quiet; [done|constructor]. Qed.
Lemma pays_given X b act : pays X X act -> pays X X (given b act).
Proof. destruct b; [done|]. intros _. apply pays_skip. Qed.
Lemma pays_for_all X {A} (f : A -> lact) l : (forall x, pays X X (f x)) -> pays X X (for_all f l).
Proof. intros Hf. induction l; cbn [for_all]; [apply pays_skip|]. by eapply pays_chain. Qed.
Lemma pays_put X o :
  match o with ToProxy (ProxyRequest.Input _ _) => False | _ => True end -> pays X X (put o).
Proof.
  intros Ho. apply pays_quiet; [done|]. intros l a. destruct o as [| |r| | |]; try constructor; [|constructor].
  by destruct r.
Qed.
Lemma pays_update X f : (forall t, active_inputs t ⊆ active_inputs (f t)) -> pays X X (update f).
Proof. intros Hf. apply pays_quiet; [intros l; apply Hf|constructor]. Qed.
Lemma pays_update_cells X f : pays X X (update_cells f).
Proof. apply pays_quiet; [done|constructor]. Qed.

(** Taking control away is a debt, the release pays it. *)
Lemma pays_end_control_at X a along : pays X (X ∪ {[a]}) (end_control_at a along).
Proof.
  intros clean l q Ho.
  assert (Hq : requests (end_control_at a along l).2 = []).
  { unfold end_control_at, look. rewrite !chain_snd. cbn. destruct (bool_decide _); cbn; [|done]. by destruct (bool_decide _). }
  rewrite Hq, app_nil_r. eapply owed_mono; [exact Ho|]. unfold end_control_at, look. rewrite !chain_fst.
  assert (Hs : controllers l ∪ X ⊆ (controllers l ∖ {[a]}) ∪ (X ∪ {[a]})).
  { intros x. rewrite !elem_of_union, elem_of_difference, elem_of_singleton. destruct (decide (x = a)); tauto. }
  destruct (bool_decide (a ∈ _)); cbn; [|done]. by destruct (bool_decide _).
Qed.
Lemma pays_end_control X a : pays X (X ∪ {[a]}) (end_control a).
Proof. unfold end_control. apply pays_end_control_at. Qed.
Lemma pays_remove X a : pays (X ∪ {[a]}) X (proxy_remove a).
Proof.
  intros clean l q Ho b Hb Hx. cbn. destruct (decide (b = a)) as [->|Hne].
  - right. exists q, (ProxyRequest.Remove a), []. split; [done|]. split; [by left|constructor].
  - destruct (Ho b Hb) as [[H1 H2]|Hp]; [set_solver|left|right].
    + split; [|done]. apply quiet_app. split; [done|]. by repeat constructor.
    + apply pending_app; [done|]. by repeat constructor.
Qed.
Lemma pays_remove_again X a : pays X X (proxy_remove a).
Proof. by apply pays_put. Qed.

Create HintDb pays discriminated.
#[export] Hint Constants Opaque : pays.
#[export] Hint Resolve pays_skip pays_update_cells pays_remove pays_end_control pays_end_control_at : pays.
#[export] Hint Extern 1 (pays _ _ (put _)) => apply pays_put; exact I : pays.
#[export] Hint Extern 1 (pays _ _ (reply _ _)) => apply pays_put; exact I : pays.
#[export] Hint Extern 1 (pays _ _ (proxy _)) => apply pays_put; exact I : pays.
#[export] Hint Extern 1 (pays _ _ (update _)) => apply pays_update; intros; cbn; set_solver : pays.

Ltac run_pays := repeat first
  [ solve [eauto 2 with pays]
  | lazymatch goal with
    | |- pays _ _ (proxy_remove _) => fail
    | |- forall _, _ => intros ?
    | |- pays _ _ (_ >>> _) => eapply pays_chain
    | |- pays _ _ (look _) => apply pays_look
    | |- pays _ _ (given _ _) => apply pays_given
    | |- pays _ _ (for_all _ _) => apply pays_for_all
    | |- pays _ _ (match ?x with _ => _ end) => destruct x
    | |- pays _ _ (up _) => unfold up
    | |- pays _ _ (place_pointer _) => unfold place_pointer
    | |- pays _ _ (place_pointer_along _ _) => unfold place_pointer_along
    end ].

Section listen.
Context `{!HashOrder} (env : Env).

Lemma pays_handle_enter addr pos through along : pays ∅ ∅ (handle_enter env addr pos through along).
Proof.
  apply pays_quiet; intros l.
  - destruct (enter_gives env addr pos through along l) as [_ Hs]. done.
  - intros a. destruct (enter_cases env addr l) as [(fp & Ha & Hc)|Hr].
    + rewrite (handle_enter_eq _ _ _ _ _ _ _ Ha Hc). cbn [snd].
      destruct (_ && _), (negb _); by repeat constructor.
    + destruct (handle_enter_refused env addr pos through along l Hr) as (outs & -> & Ho). cbn.
      induction Ho as [|o outs [-> | ->] _ IH]; [constructor| |done]. by constructor.
Qed.
(** Only the input of a controller is emulated. *)
Lemma pays_handle_input event addr : pays ∅ ∅ (handle_input env event addr).
Proof.
  intros clean l q Ho. unfold handle_input, look. case_bool_decide as Hin.
  - rewrite andb_true_r. destruct (listen_sharing (lt l)).
    + unfold proxy_consume, look. destruct (_ && _); cbn; [|by rewrite app_nil_r].
      apply owed_app; [done|]. intros a Ha _. repeat constructor. congruence.
    + cbn. by rewrite app_nil_r.
  - rewrite andb_false_r. destruct (paused_for _ _ _); cbn; by rewrite app_nil_r.
Qed.
Lemma pays_return_pointer X addr along : pays X X (return_pointer addr along).
Proof. unfold return_pointer. run_pays. Qed.
Hint Resolve pays_handle_enter pays_handle_input pays_return_pointer : pays.

Lemma pays_pointer_edge addr edge along : pays ∅ ∅ (handle_pointer_edge env addr edge along).
Proof.
  unfold handle_pointer_edge. apply pays_look. intros l.
  destruct (start_handoff env (lt l) addr edge) as [a|] eqn:E; [|run_pays].
  apply start_handoff_Some in E as (target & _ & ->). run_pays.
Qed.
Lemma pays_receive_chunk key index data : pays ∅ ∅ (receive_chunk key index data).
Proof. unfold receive_chunk. run_pays. Qed.
Lemma pays_start_transfer addr id k total n : pays ∅ ∅ (start_transfer env addr id k total n).
Proof. unfold start_transfer. run_pays. Qed.
Lemma pays_handoff_refused addr side : pays ∅ ∅ (handoff_refused env addr side).
Proof. unfold handoff_refused. run_pays. Qed.
Hint Resolve pays_pointer_edge pays_receive_chunk pays_start_transfer pays_handoff_refused : pays.
Lemma pays_message event addr : pays ∅ ∅ (handle_message env event addr).
Proof. destruct event; cbn [handle_message]; run_pays. Qed.
Hint Resolve pays_message : pays.
Lemma pays_listen_event e : pays ∅ ∅ (handle_listen_event env e).
Proof. destruct e; cbn [handle_listen_event]; unfold heard_from; run_pays. Qed.
Lemma pays_task_event e : pays ∅ ∅ (handle_task_event env e).
Proof. unfold handle_task_event, proxy_event. destruct e; run_pays. Qed.
Lemma pays_tick : pays ∅ ∅ (handle_tick env).
Proof. unfold handle_tick, expire_peer. run_pays. Qed.
Lemma pays_published r : pays ∅ ∅ (handle_published r).
Proof. unfold handle_published. run_pays. Qed.

(** Once input is no longer shared, everybody is let go. *)
Lemma pays_sharing_off : pays ∅ ∅ (set_sharing false).
Proof.
  intros clean l q _ a _ _. right. rewrite sharing_off_eq.
  eexists q, (ProxyRequest.SetInputSharing false), _. split; [reflexivity|]. split; [by right|].
  set (L := hash_order _). clearbody L. induction L as [|b L IH]; [constructor|]. cbn. by constructor.
Qed.
Lemma pays_request r : pays ∅ ∅ (handle_emulation_request env r).
Proof.
  destruct r; cbn [handle_emulation_request]; unfold proxy_terminate, proxy_set_independent_pointers; try run_pays.
  destruct enabled; [|apply pays_sharing_off]. unfold set_sharing, proxy_set_input_sharing. cbn [negb given]. run_pays.
Qed.
Lemma pays_listen_step x : pays ∅ ∅ (listen_step env x).
Proof.
  unfold listen_step. apply pays_look. intros l. apply pays_given.
  destruct x; [apply pays_listen_event|apply pays_task_event|apply pays_request|apply pays_published|apply pays_tick].
Qed.
End listen.

(** ** Who was heard, and when *)

(** An action that hears nobody. *)
Definition deaf (act : lact) : Prop := forall l, last_response (lt (act l).1) = last_response (lt l).

Lemma deaf_chain a b : deaf a -> deaf b -> deaf (a >>> b).
Proof. intros Ha Hb l. by rewrite chain_fst, Hb, Ha. Qed.
Lemma deaf_update f : (forall t, last_response (f t) = last_response t) -> deaf (update f).
Proof. intros Hf l. apply Hf. Qed.
Lemma deaf_look f : (forall l, deaf (f l)) -> deaf (look f).
Proof. intros Hf l. apply (Hf l l). Qed.
Lemma deaf_given b a : deaf a -> deaf (given b a).
Proof. by destruct b. Qed.
Lemma deaf_for_all {A} (f : A -> lact) l : (forall x, deaf (f x)) -> deaf (for_all f l).
Proof. intros Hf. induction l; cbn [for_all]; [done|]. by apply deaf_chain. Qed.
Ltac run_deaf := repeat first
  [ by intros ? | (apply deaf_update; reflexivity)
  | lazymatch goal with
    | |- forall _, _ => intros ?
    | |- deaf (_ >>> _) => apply deaf_chain
    | |- deaf (look _) => apply deaf_look
    | |- deaf (given _ _) => apply deaf_given
    | |- deaf (for_all _ _) => apply deaf_for_all
    | |- deaf (match ?x with _ => _ end) => destruct x
    | |- deaf (handle_enter _ _ _ _ _) => unfold handle_enter
    | |- deaf (handle_input _ _ _) => unfold handle_input, proxy_consume
    | |- deaf (receive_chunk _ _ _) => unfold receive_chunk
    | |- deaf (start_transfer _ _ _ _ _ _) => unfold start_transfer
    | |- deaf (end_control _) => unfold end_control
    | |- deaf (end_control_at _ _) => unfold end_control_at
    | |- deaf (return_pointer _ _) => unfold return_pointer
    | |- deaf (handoff_refused _ _ _) => unfold handoff_refused
    | |- deaf (handle_emulation_request _ _) => unfold handle_emulation_request
    | |- deaf (set_sharing _) => unfold set_sharing
    | |- deaf (proxy_set_input_sharing _) => unfold proxy_set_input_sharing
    | |- deaf (proxy_set_independent_pointers _) => unfold proxy_set_independent_pointers
    | |- deaf proxy_terminate => unfold proxy_terminate
    | |- deaf (proxy_event _) => unfold proxy_event
    end ].

Definition heard l : Prop := controllers l ⊆ dom (last_response (lt l)).

Section hearing.
Context `{!HashOrder} (env : Env).

Lemma deaf_pointer_edge addr edge along : deaf (handle_pointer_edge env addr edge along).
Proof.
  unfold handle_pointer_edge. apply deaf_look. intros l.
  destruct (start_handoff env (lt l) addr edge) as [a|] eqn:E; [|run_deaf].
  apply start_handoff_Some in E as (target & _ & ->). run_deaf.
Qed.
Lemma deaf_message event addr : deaf (handle_message env event addr).
Proof. destruct event; cbn [handle_message]; run_deaf. Qed.
Lemma deaf_request r : deaf (handle_emulation_request env r).
Proof. run_deaf. Qed.
Lemma deaf_task_event e : deaf (handle_task_event env e).
Proof. unfold handle_task_event. destruct e; run_deaf. apply deaf_pointer_edge. Qed.
Lemma deaf_expire a : deaf (expire_peer a).
Proof. unfold expire_peer. run_deaf. Qed.

(** Only the sender of a message gains control by it. *)
Lemma message_controllers event addr l :
  controllers (handle_message env event addr l).1 ⊆ {[addr]} ∪ controllers l.
Proof.
  destruct (passive_message event) eqn:Hp; [pose proof (la_sub _ _ _ (lawful_message env event addr Hp l)); set_solver|].
  assert (He : forall pos through along, controllers (handle_enter env addr pos through along l).1 ⊆ {[addr]} ∪ controllers l).
  { intros pos through along. destruct (enter_cases env addr l) as [(fp & Ha & Hc)|Hr].
    - by rewrite (handle_enter_eq _ _ _ _ _ _ _ Ha Hc).
    - destruct (handle_enter_refused env addr pos through along l Hr) as (outs & -> & _). cbn. set_solver. }
  destruct event; try done; cbn [handle_message]; unfold look; try apply He.
  rewrite (tracks_handle_input env event addr l). unfold handle_input, look. destruct (_ && _).
  - unfold proxy_consume, look. destruct (_ && _); cbn; set_solver.
  - case_bool_decide; [cbn; set_solver|]. destruct (paused_for _ _ _); cbn; set_solver.
Qed.
Lemma request_controllers r l : controllers (handle_emulation_request env r l).1 ⊆ controllers l.
Proof.
  destruct (is_sharing_off r) eqn:Hr; [|apply (lawful_request env r Hr)].
  destruct r as [| | | | |[]| | | | | | | | | | |]; try done. cbn [handle_emulation_request]. rewrite sharing_off_eq. cbn. set_solver.
Qed.
Lemma task_event_controllers e l : controllers (handle_task_event env e l).1 ⊆ controllers l.
Proof. unfold handle_task_event. rewrite chain_fst. destruct e; try done. apply (lawful_pointer_edge env). Qed.

Lemma expire_controllers l0 : forall l,
  controllers (for_all (expire_peer) l0 l).1 = controllers l ∖ list_to_set l0.
Proof.
  induction l0 as [|a l0 IH]; intros l; cbn [for_all]; [cbn; set_solver|]. rewrite chain_fst, IH.
  replace (controllers (expire_peer a l).1) with (controllers l ∖ {[a]}); [cbn; set_solver|].
  unfold expire_peer, look. rewrite !chain_fst. cbn. destruct (bool_decide (a ∈ _)); [|done]. by destruct (bool_decide _).
Qed.
(** After a tick whoever controls the screen spoke lately. *)
Definition spoke (t : ListenTask) : Prop :=
  forall a, a ∈ active_inputs t -> exists at_, last_response t !! a = Some at_ /\ now env - at_ <= PEER_SILENCE_TIMEOUT.
Lemma tick_spoke l : heard l -> spoke (lt (handle_tick env l).1).
Proof.
  intros Hh. unfold handle_tick, look. rewrite !chain_fst. cbn [update fst lt]. intros a Ha. cbn in Ha.
  rewrite expire_controllers in Ha. cbn in Ha. apply elem_of_difference in Ha as [Ha Hs].
  cbn. rewrite (deaf_for_all _ _ deaf_expire). cbn. apply Hh in Ha as Hd. apply elem_of_dom in Hd as [at_ Hat].
  exists at_. assert (Hle : (PEER_SILENCE_TIMEOUT <? now env - at_) = false).
  { destruct (_ <? _) eqn:E; [|done]. destruct Hs. rewrite elem_of_list_to_set, elem_of_hash_order.
    apply list_elem_of_fmap. exists (a, at_). split; [done|]. apply list_elem_of_In, filter_In. split; [|done].
    by apply list_elem_of_In, elem_of_map_to_list. }
  split; [|lia]. by apply map_lookup_filter_Some.
Qed.
Lemma listen_step_heard x l : heard l -> heard (listen_step env x l).1.
Proof.
  intros Hh. destruct (takes (lt l) x) eqn:Ht; [|by rewrite listen_step_idle]. rewrite (listen_step_taken env x l Ht).
  unfold heard in *. destruct x as [[event addr|addr fp|fp]|e|r|r|].
  - rewrite handle_msg_eq, deaf_message. pose proof (message_controllers event addr (hear env addr l)) as Hm. cbn in *.
    set_solver.
  - cbn. set_solver.
  - cbn [handle_listen_event]. unfold look. destruct (paused_for _ _ _); done.
  - rewrite deaf_task_event. pose proof (task_event_controllers e l). set_solver.
  - rewrite deaf_request. pose proof (request_controllers r l). set_solver.
  - unfold handle_published, look. destruct r; [done|]. destruct (publishing (lt l)); done.
  - intros a Ha. destruct (tick_spoke l Hh a Ha) as (at_ & Hl & _). by apply elem_of_dom.
Qed.
End hearing.

(** ** The emulation task lets go *)

Definition idle (l : list Call) (h : Z) : Prop := held_keys l h = ∅ /\ held_buttons l h = ∅.
(** Nothing of that peer is held by the back end at work. *)
Definition at_rest {W} (t : EmulationTask W) (d : InputEmulation W) (a : SocketAddr) : Prop :=
  forall h, task_handles t !! a = Some h -> idle (calls d) h.
Definition holds_nothing {W} (t : EmulationTask W) (a : SocketAddr) : Prop :=
  match phase t with Session d _ => at_rest t d a | _ => True end.

Section task.
Context {W : Type} `{!EmulationBackend W} `{!HashOrder}.
Implicit Types (t : EmulationTask W) (s : Task W) (d : InputEmulation W).

(** What was done since was done with the device [h] only. *)
Definition only (h : Z) d d' : Prop :=
  exists cs, calls d' = calls d ++ cs /\ Forall (fun c => match c with Consumed _ h' => h' = h | _ => True end) cs.

Lemma only_refl h d d' : calls d' = calls d -> only h d d'.
Proof. intros E. exists []. by rewrite app_nil_r. Qed.
Lemma only_trans h d d' d'' : only h d d' -> only h d' d'' -> only h d d''.
Proof.
  intros (cs & E & Hc) (cs' & E' & Hc'). exists (cs ++ cs'). rewrite E', E, app_assoc. split; [done|]. by apply Forall_app.
Qed.
Lemma only_one h d d' c :
  calls d' = calls d ++ [c] -> match c with Consumed _ h' => h' = h | _ => True end -> only h d d'.
Proof. intros E Hc. exists [c]. split; [done|]. by constructor. Qed.
Lemma only_idle h h' d d' : only h d d' -> h' <> h -> idle (calls d) h' -> idle (calls d') h'.
Proof.
  intros (cs & E & Hcs) Hne [Hk Hb]. unfold idle. rewrite E, held_keys_other, held_buttons_other; [done|..];
    (eapply Forall_impl; [exact Hcs|]); intros c Hc held; destruct c as [[[]|[]]| | |]; cbn in *; try done;
    rewrite (proj2 (Z.eqb_neq _ _)) by congruence; done.
Qed.

Lemma only_consume event h d : only h d (emu_consume event h d).1.
Proof.
  assert (Hpass : forall d1, calls d1 = calls d -> only h d (pass_to_device event h d1).1).
  { intros d1 E. destruct (pass_to_device_eq event h d1) as (w & r & ->).
    eapply (only_one _ _ _ (Consumed event h)); [|done]. cbn. by rewrite E. }
  destruct event as [e|[tm k st|]]; cbn [emu_consume]; [by apply Hpass| |by apply Hpass].
  unfold emu_update_pressed_keys. destruct (emu_pressed_keys d !! h); [|by apply only_refl].
  destruct (st =? 0), (bool_decide _); cbn [negb]; solve [by apply Hpass|by apply only_refl].
Qed.
Lemma only_create h h' d : only h d (emu_create h' d).1.
Proof.
  unfold emu_create. case_bool_decide; [by apply only_refl|]. by eapply (only_one _ _ _ (Created h')).
Qed.
Lemma only_consume_all events h d : only h d (consume_all events h d).1.
Proof.
  destruct (consume_all_eq events h d) as (w & r & ->). eexists. split; [reflexivity|].
  apply List.Forall_forall. intros c Hc%list_elem_of_In. by apply list_elem_of_fmap in Hc as (e & -> & _).
Qed.
Lemma only_release_keys h d : only h d (release_keys h d).1.
Proof.
  assert (Hlast : forall d1, only h d d1 -> only h d (pass_to_device no_modifiers h d1).1).
  { intros d1 H1. eapply only_trans; [exact H1|]. destruct (pass_to_device_eq no_modifiers h d1) as (w & r & ->).
    by eapply (only_one _ _ _ (Consumed no_modifiers h)). }
  unfold release_keys. destruct (emu_pressed_keys d !! h) as [keys|].
  - match goal with |- context [consume_all ?es h ?x] => pose proof (only_consume_all es h x) as H1;
      destruct (consume_all es h x) as [d1 r1] end.
    specialize (Hlast d1). destruct (pass_to_device no_modifiers h d1). apply Hlast, H1.
  - specialize (Hlast d). destruct (pass_to_device no_modifiers h d). by apply Hlast, only_refl.
Qed.
Lemma only_destroy h d : only h d (emu_destroy h d).
Proof.
  pose proof (only_release_keys h d) as H1. unfold emu_destroy. destruct (release_keys h d) as [d1 r].
  case_bool_decide; [|done]. eapply only_trans; [exact H1|]. by eapply (only_one _ _ _ (Destroyed h)).
Qed.

(** Another peer's input and departure. *)
Lemma emulate_rest event a b t d :
  handles_ok t -> account_ok t d -> a <> b -> at_rest t d b ->
  let '(t', d', _, _) := emulate event a t d in at_rest t' d' b.
Proof.
  intros Hok Hac Hne Hr. unfold emulate. pose proof (peer_handle_spec a t d Hok Hac) as Hp.
  assert (Ho : let '(t1, d1, h) := peer_handle a t d in only h d d1 /\ task_handles t1 !! b = task_handles t !! b).
  { unfold peer_handle. destruct (task_handles t !! a); [split; [by apply only_refl|done]|].
    pose proof (only_create (next_id t) (next_id t) d) as H1. destruct (emu_create (next_id t) d).
    split; [done|]. cbn. by rewrite lookup_insert_ne. }
  destruct (peer_handle a t d) as [[t1 d1] h]. destruct Hp as ([_ Hinj] & _ & Hl & _), Ho as [Ho Hb].
  assert (Hn : task_handles (note_button event a t1) = task_handles t1) by by destruct event as [[]|].
  assert (H2 : at_rest (note_button event a t1) (emu_consume event h d1).1 b).
  { intros h' Hh'. rewrite Hn in Hh'. eapply only_idle; [eapply only_trans; [exact Ho|apply only_consume]| |].
    - intros ->. apply Hne. by eapply Hinj.
    - apply Hr. congruence. }
  destruct (emu_consume event h d1) as [d2 []]; [|done]. by destruct (take_edge (device d2) h).
Qed.
Lemma release_client_rest a b t d :
  handles_ok t -> at_rest t d b \/ a = b ->
  let '(t', d', _) := release_client a t d in at_rest t' d' b.
Proof.
  intros [_ Hinj] Hr. unfold release_client. destruct (task_handles t !! a) as [h|] eqn:Hl.
  - match goal with |- context [consume_all ?es h d] => pose proof (only_consume_all es h d) as H1;
      destruct (consume_all es h d) as [d1 r1] end.
    intros h' Hh'. cbn in Hh'. apply lookup_delete_Some in Hh' as [Hne Hh']. eapply only_idle; [eapply only_trans; [exact H1|apply only_destroy]| |].
    + intros ->. apply Hne. by eapply Hinj.
    + destruct Hr as [Hr| ->]; [by apply Hr|done].
  - intros h' Hh'. cbn in Hh'. apply lookup_delete_Some in Hh' as [Hne Hh']. destruct Hr as [Hr| ->]; [by apply Hr|done].
Qed.
Lemma release_clients_rest l b : forall t d,
  handles_ok t -> account_ok t d -> at_rest t d b \/ b ∈ l ->
  let '(t', d', _) := release_clients l t d in at_rest t' d' b.
Proof.
  induction l as [|a l IH]; intros t d Hok Hac Hr; cbn [release_clients].
  - destruct Hr as [?|[]%not_elem_of_nil]. done.
  - pose proof (release_client_spec a t d Hok Hac) as H1. pose proof (release_client_rest a b t d Hok) as H2.
    destruct (release_client a t d) as [[t1 d1] r1]. destruct H1 as (Hok1 & Hac1 & _). specialize (IH t1 d1 Hok1 Hac1).
    destruct (release_clients l t1 d1) as [[t2 d2] r2]. apply IH.
    destruct Hr as [Hr|[->|Hr]%elem_of_cons]; auto.
Qed.

Lemma after_emulation_rest s b : holds_nothing (et (after_emulation s)) b.
Proof. unfold after_emulation. cbn. destruct (exit_requested _); [done|]. by destruct (emu_restart_now _). Qed.
Lemma after_input_rest t d r active c out b :
  at_rest t d b -> holds_nothing (et (after_input (t, d, r) active c out).1) b.
Proof.
  intros Hr. destruct r; [done|]. cbn [after_input]. pose proof (after_emulation_rest (Build_Task (retire (calls (emu_terminate d)) t) (set_emulation_ready false c)) b) as H1.
  by unfold end_session.
Qed.
Lemma session_request_rest r t d active c b :
  handles_ok t -> account_ok t d -> releases b r \/ (at_rest t d b /\ quiet b [r]) ->
  holds_nothing (et (session_request r t d active c).1) b.
Proof.
  intros Hok Hac Hr. destruct r as [event a| | | |a| | | |enabled| |contents]; cbn [session_request];
    try (apply after_emulation_rest); try (destruct Hr as [[|]|[Hr _]]; done).
  - destruct Hr as [[|]|[Hr Hq]]; [done..|]. destruct (sharing_cell c); [|done]. apply Forall_inv in Hq.
    pose proof (emulate_rest event a b t d Hok Hac Hq Hr) as H1.
    destruct (emulate event a t d) as [[[t1 d1] r1] out]. by apply after_input_rest.
  - pose proof (release_client_rest a b t d Hok) as H1. destruct (release_client a t d) as [[t1 d1] r1].
    apply after_input_rest, H1. destruct Hr as [[[= ->]|[=]]|[Hr _]]; auto.
  - destruct enabled; [destruct Hr as [[|]|[Hr _]]; done|].
    pose proof (release_clients_rest (hash_order (elements (dom (task_handles t)))) b t d Hok Hac) as H1.
    destruct (release_clients _ t d) as [[t1 d1] r1]. apply after_input_rest, H1.
    destruct (task_handles t !! b) eqn:E.
    + right. rewrite elem_of_hash_order, elem_of_elements. by apply elem_of_dom.
    + left. intros h. congruence.
  - destruct (publish_clipboard contents (device d)). destruct Hr as [[|]|[Hr _]]; done.
Qed.

(** Without a back end at work nothing is held. *)
Lemma no_session_rest t b : match phase t with Session _ _ => False | _ => True end -> holds_nothing t b.
Proof. unfold holds_nothing. by destruct (phase t). Qed.
(** One request: a release lets go; another one but the peer's input keeps it so. *)
Lemma from_queue_rest decode r s b :
  task_ok (et s) -> releases b r \/ (holds_nothing (et s) b /\ quiet b [r]) ->
  holds_nothing (et (task_step decode (FromQueue r) s).1) b.
Proof.
  intros (Hok & Hac & _) Hr. unfold task_step, holds_nothing in *. destruct (phase (et s)) as [|d active| |] eqn:Hp.
  - apply no_session_rest. destruct r; cbn; rewrite ?Hp; try done; try (by destruct (emu_restart_now _));
      [|by destruct enabled; cbn; rewrite Hp].
    destruct (exit_requested _); [done|]. by rewrite ?Hp.
  - by apply session_request_rest.
  - apply no_session_rest. destruct r; cbn; rewrite ?Hp; try done. by destruct enabled; cbn; rewrite Hp.
  - by apply no_session_rest; cbn; rewrite Hp.
Qed.

(** A new session starts with nothing held. *)
Lemma create_devices_idle l h : forall d, idle (calls d) h -> idle (calls (create_devices l d).1) h.
Proof.
  induction l as [|[h' lost] l IH]; intros d Hd; cbn [create_devices]; [done|].
  destruct (drop_requests lost) as [out stop]. destruct stop; [done|].
  pose proof (only_create (h + 1) h' d) as H1. destruct (emu_create h' d) as [d1 ?].
  specialize (IH d1). destruct (create_devices l d1) as [d2 out']. apply IH.
  eapply only_idle; [exact H1|lia|done].
Qed.
Lemma begin_session_rest w name lost s b : holds_nothing (et (begin_session (with_backend w name) lost s).1) b.
Proof.
  unfold begin_session. destruct (sharing_cell _).
  - match goal with |- context [create_devices ?l ?d] => pose proof (fun h => create_devices_idle l h d) as H1;
      destruct (create_devices l d) end.
    intros h _. apply H1. done.
  - intros h. cbn. by rewrite lookup_empty.
Qed.
Lemma task_step_rest decode x s b :
  holds_nothing (et s) b -> match x with FromQueue _ => False | _ => True end ->
  holds_nothing (et (task_step decode x s).1) b.
Proof.
  intros Hr Hx. unfold task_step. destruct x as [create order lost| |r|data|]; try done.
  - destruct (phase (et s)); try done. destruct (new_emulation create order (emu_backend (et s))) as [d|e] eqn:E.
    + apply new_emulation_fresh in E as (w & name & ->). apply begin_session_rest.
    + apply after_emulation_rest.
  - destruct (phase (et s)); try done. apply after_emulation_rest.
  - unfold holds_nothing in Hr. destruct (phase (et s)) as [|d []| |] eqn:Hp; destruct data as [[]|]; try done;
      by unfold holds_nothing; cbn; rewrite ?Hp.
  - destruct (phase (et s)) as [|d active| |]; try done. destruct (healthy (device d)); [done|]. apply after_emulation_rest.
Qed.
Lemma initialized_rest decode create order lost s b :
  phase (et s) = Initializing -> holds_nothing (et (task_step decode (Initialized create order lost) s).1) b.
Proof. intros Hp. apply task_step_rest; [|done]. by apply no_session_rest; rewrite Hp. Qed.
End task.

(** ** The two together *)

Lemma lose_prefix n : forall q, let '(lost, rest, _) := lose n q in q = lost ++ rest.
Proof.
  induction n as [|n IH]; intros q; [done|]. destruct q as [|r q]; [done|].
  specialize (IH q). destruct r; cbn [lose]; try done; destruct (lose n q) as [[lost rest] stop]; by subst q.
Qed.
Lemma lose_all_prefix counts : forall q, exists lost, q = lost ++ (lose_all counts q).2.
Proof.
  induction counts as [|n counts IH]; intros q; cbn [lose_all]; [by exists []|].
  pose proof (lose_prefix n q) as H1. destruct (lose n q) as [[lost rest] stop]. subst q. destruct stop; [by exists lost|].
  destruct (IH rest) as (lost' & E). destruct (lose_all counts rest) as [l' rest'] eqn:El. cbn [snd] in *. subst rest.
  exists (lost ++ lost'). by rewrite <- app_assoc.
Qed.

Section system.
Context {W : Type} `{!EmulationBackend W} `{!HashOrder}.
Context (decode_image : rstring -> bytes -> result rstring (Z * Z * bytes)).
Implicit Types (s : EmulationSystem W).

Record system_ok s : Prop := {
  so_task : task_ok (emu s);
  so_heard : active_inputs (listen s) ⊆ dom (last_response (listen s));
  so_owed : forall a, a ∉ active_inputs (listen s) ->
    (quiet a (queue s) /\ holds_nothing (emu s) a) \/ pending a (queue s);
}.

Lemma owed_out (clean : SocketAddr -> Prop) A q :
  owed clean A ∅ q <-> forall a, a ∉ A -> (quiet a q /\ clean a) \/ pending a q.
Proof. unfold owed. split; intros Ho a Ha; [apply Ho; set_solver|auto]. Qed.

Lemma fresh_system_ok backend : system_ok (new_system backend).
Proof.
  split; [apply new_task_ok|done|]. intros a _. left. split; [constructor|done].
Qed.
Lemma listen_runs_ok env x ns an s s' outs :
  system_ok s -> listen_runs env x ns an s = Some (s', outs) -> system_ok s'.
Proof.
  intros [Ht Hh Ho]. unfold listen_runs. destruct (takes (listen s) x); [|done].
  pose proof (listen_step_heard env x (Build_Listen (listen s) (cell s)) Hh) as H1.
  pose proof (pays_listen_step env x (holds_nothing (emu s)) (Build_Listen (listen s) (cell s)) (queue s)) as H2.
  rewrite !owed_out in H2. specialize (H2 Ho). destruct (listen_step env x _) as [l o]. intros [= <- <-]. by split.
Qed.
Lemma task_runs_ok x q s :
  system_ok s ->
  (forall a, a ∉ active_inputs (listen s) ->
     (quiet a q /\ holds_nothing (et (task_step decode_image x (Build_Task (emu s) (cell s))).1) a) \/ pending a q) ->
  system_ok (task_runs decode_image x q s).
Proof.
  intros [Ht Hh _] Ho. pose proof (task_step_ok decode_image x (Build_Task (emu s) (cell s)) Ht) as H1.
  unfold task_runs. destruct (task_step decode_image x _) as [t outs]. by split.
Qed.
Lemma own_step_ok x s :
  system_ok s -> match x with FromQueue _ => False | _ => True end -> system_ok (task_runs decode_image x (queue s) s).
Proof.
  intros Hs Hx. apply task_runs_ok; [done|]. intros a Ha. destruct (so_owed _ Hs a Ha) as [[Hq Hn]|Hp]; [left|by right].
  split; [done|]. by apply task_step_rest.
Qed.
Lemma queue_step_ok r rest s :
  system_ok s -> queue s = r :: rest -> system_ok (task_runs decode_image (FromQueue r) rest s).
Proof.
  intros Hs Eq. apply task_runs_ok; [done|]. intros a Ha.
  pose proof (fun H0 => from_queue_rest decode_image r (Build_Task (emu s) (cell s)) a (so_task _ Hs) H0) as H1.
  destruct (so_owed _ Hs a Ha) as [[Hq Hn]|(before & x & after & E & Hx & Hq)].
  - rewrite Eq in Hq. apply Forall_cons in Hq as [Hr Hq]. left. split; [done|]. apply H1. right. split; [done|]. by repeat constructor.
  - rewrite Eq in E. destruct before as [|b before]; injection E as -> ->.
    + left. split; [done|]. apply H1. by left.
    + right. by exists before, x, after.
Qed.
Lemma system_step_ok e s s' outs :
  system_ok s -> system_step decode_image e s = Some (s', outs) -> system_ok s'.
Proof.
  intros Hs. destruct e as [env e|env r|env|env|env| |create order counts| |data|]; cbn [system_step].
  1-3: by apply listen_runs_ok.
  - destruct (news s); [done|]. by apply listen_runs_ok.
  - destruct (answer s); [|done]. by apply listen_runs_ok.
  - destruct (queue s) as [|r rest] eqn:Eq; [done|]. intros [= <- _]. by apply queue_step_ok.
  - destruct (phase (emu s)) eqn:Hp; try done. destruct (new_emulation create order (emu_backend (emu s))) as [d|er].
    + set (n := if sharing_cell (cell s) then _ else _). destruct (lose_all_prefix n (queue s)) as (lost & Eq).
      destruct (lose_all n (queue s)) as [ls rest]. intros [= <- _]. cbn [snd] in Eq. apply task_runs_ok; [done|].
      intros a Ha. assert (Hi : holds_nothing (et (task_step decode_image (Initialized create order ls) (Build_Task (emu s) (cell s))).1) a)
        by by apply initialized_rest.
      destruct (so_owed _ Hs a Ha) as [[Hq _]|Hq]; rewrite Eq in Hq.
      * left. split; [|done]. by apply quiet_app in Hq as [_ ?].
      * apply pending_suffix in Hq as [?|?]; auto.
    + intros [= <- _]. by apply own_step_ok.
  - intros [= <- _]. by apply own_step_ok.
  - intros [= <- _]. by apply own_step_ok.
  - intros [= <- _]. by apply own_step_ok.
Qed.
Lemma system_run_ok l : forall s s' outs,
  system_ok s -> system_run decode_image l s = Some (s', outs) -> system_ok s'.
Proof.
  induction l as [|e l IH]; intros s s' outs Hs; cbn [system_run]; [by intros [= <- _]|].
  destruct (system_step decode_image e s) as [[s1 o1]|] eqn:E; [|done]. cbn.
  destruct (system_run decode_image l s1) as [[s2 o2]|] eqn:E2; [|done]. cbn. intros [= <- _].
  eapply IH; [|exact E2]. by eapply system_step_ok.
Qed.
End system.

(** ** The claim *)

Section claim.
Context {W : Type} `{!EmulationBackend W} `{!HashOrder}.
Context (decode_image : rstring -> bytes -> result rstring (Z * Z * bytes)).
Implicit Types (s : EmulationSystem W).

(** The emulation task gets through its queue. *)
Lemma drained n : forall s, length (queue s) = n ->
  exists s', system_run decode_image (replicate n OnQueue) s = Some (s', []) /\ queue s' = [] /\ listen s' = listen s.
Proof.
  induction n as [|n IH]; intros s Hn.
  - exists s. split; [done|]. split; [by apply nil_length_inv|done].
  - destruct (queue s) as [|r rest] eqn:Eq; [done|].
    destruct (IH (task_runs decode_image (FromQueue r) rest s)) as (s' & Hr & Hq & Hl).
    { unfold task_runs. destruct (task_step _ _ _). cbn in *. lia. }
    exists s'. cbn [replicate system_run system_step]. rewrite Eq. cbn. rewrite Hr. cbn. split; [done|]. split; [done|].
    rewrite Hl. unfold task_runs. by destruct (task_step _ _ _).
Qed.

(** C8: whoever loses control lets go.  In every state the two tasks can reach, in
    any order of their steps, with any failures of the back end and any requests
    lost while one is created: the emulation task gets through its queue by itself,
    and then holds no key and no button of a peer that does not control the
    screen.  While nothing is queued that already holds.  After every tick of the
    watchdog, each peer in control was heard within the last three seconds. *)
Theorem without_control_nothing_held backend l s outs
    (Hrun : system_run decode_image l (new_system backend) = Some (s, outs)) :
  (exists s', system_run decode_image (replicate (length (queue s)) OnQueue) s = Some (s', [])
     /\ queue s' = [] /\ listen s' = listen s
     /\ forall a, a ∉ active_inputs (listen s) -> holds_nothing (emu s') a)
  /\ (queue s = [] -> forall a, a ∉ active_inputs (listen s) -> holds_nothing (emu s) a)
  /\ (forall env s' outs', system_step decode_image (OnTick env) s = Some (s', outs') -> spoke env (listen s')).
Proof.
  pose proof (system_run_ok decode_image l _ _ _ (fresh_system_ok backend) Hrun) as Hs.
  assert (Hempty : forall s1, system_ok s1 -> queue s1 = [] ->
    forall a, a ∉ active_inputs (listen s1) -> holds_nothing (emu s1) a).
  { intros s1 Hs1 Hq a Ha. destruct (so_owed _ Hs1 a Ha) as [[_ ?]|(before & r & after & E & _)]; [done|].
    rewrite Hq in E. by destruct before. }
  split_and!; [|by apply Hempty|].
  - destruct (drained (length (queue s)) s eq_refl) as (s' & Hr & Hq & Hl). exists s'. split_and!; [done..|].
    intros a Ha. apply Hempty; [by eapply system_run_ok|done|by rewrite Hl].
  - intros env s' outs'. cbn [system_step]. unfold listen_runs. destruct (takes (listen s) Tick) eqn:Ht; [|done].
    pose proof (tick_spoke env (Build_Listen (listen s) (cell s)) (so_heard _ Hs)) as H1.
    rewrite (listen_step_taken env Tick (Build_Listen (listen s) (cell s)) Ht).
    destruct (handle_tick env _). intros [= <- _]. done.
Qed.
End claim.

(** A peer enters, presses a key and leaves; the key is down until the release in
    the queue is taken. *)
Module Departure.
#[local] Existing Instance list_order.
#[local] Instance still : EmulationBackend unit := {|
  healthy := fun _ => true; set_independent := fun _ w => w; take_edge := fun w _ => (w, None);
  place_along := fun _ _ w => w; step_in := fun _ w => w; hide := fun w => w;
  publish_clipboard := fun _ w => (w, Ok tt); device_consume := fun _ _ w => (w, Ok tt);
  device_create := fun _ w => w; device_destroy := fun _ w => w; device_terminate := fun w => w |}.
Definition peer : SocketAddr := Build_SocketAddr (IpAddr.V4 1) 5353 0 0.
Definition env : Env :=
  {| now := 0; certificate := fun _ => Some (str "aa"); port_changed := fun p => Ok p; local_commit := [] |}.
Definition says (e : ProtoEvent) : SystemEvent unit := OnListener env (Msg e peer).
Definition story : list (SystemEvent unit) :=
  [ OnInitialized (fun _ => Ok tt) [str "dummy"] []; OnNews env; OnService env (CaptureReady true);
    OnListener env (Accept peer (str "aa")); says (ProtoEvent.Enter Position.Left);
    says (ProtoEvent.Input (key_event 0 30 1)); OnQueue; OnQueue; says (ProtoEvent.Leave 0) ].
Definition no_image : rstring -> bytes -> result rstring (Z * Z * bytes) := fun _ _ => Err [].
Definition after_story := system_run no_image story (new_system None).

Lemma key_is_down :
  match after_story with
  | Some (s, _) => match phase (emu s) with
                   | Session d _ => held_keys (calls d) 0 = {[30]} /\ queue s = [ProxyRequest.Remove peer]
                   | _ => False end
  | None => False
  end.
Proof. vm_compute. split; reflexivity. Qed.

Lemma without_control_nothing_held_witness :
  match after_story with
  | Some (s, _) =>
      exists s', system_run no_image [OnQueue] s = Some (s', []) /\ holds_nothing (emu s') peer
  | None => False
  end.
Proof.
  pose proof key_is_down as Hk. destruct after_story as [[s outs]|] eqn:E; [|exact Hk].
  destruct (without_control_nothing_held no_image None story s outs E) as ((s' & Hr & _ & _ & Hn) & _).
  exists s'. assert (Hq : queue s = [ProxyRequest.Remove peer]).
  { destruct (phase (emu s)); try contradiction. apply Hk. }
  rewrite Hq in Hr. split; [exact Hr|]. apply Hn.
  assert (Ha : (fun x => active_inputs (listen x.1)) <$> after_story = Some ∅) by (vm_compute; reflexivity).
  rewrite E in Ha. cbn in Ha. injection Ha as ->. apply not_elem_of_empty.
Defined.
End Departure.
