(* ===== verification/ClipboardService.v ===== *)
(** * The clipboard in the daemon

    The arms of [service/input.rs] and [service/mod.rs] for clipboards, and
    [service/clipboard_sync.rs]: what a peer sent goes to the back end's clipboard
    or to the desktop's; what was copied here is recorded and streamed to the
    clients; an echo of what a peer sent is neither.  The history, the capture task
    and the plugins are told by outputs. *)

From S2P Require Import Prelude Wire ProtoTypes ProtoValid FileTransfer PluginApi InputCapture InputEmulation ClientManager Clipboard Emulation.

(** ** Data *)

(** [HistoryContent] of [syntra-store]; a file is its name, size and media type. *)
Inductive HistoryContent :=
| HistoryText (text : rstring)
| HistoryImage (image_bytes : option bytes) (media_type : option rstring) (width height : option Z)
| HistoryFiles (entries : list (rstring * Z * option rstring)).
#[global] Instance history_content_eq_dec : EqDecision HistoryContent.
Proof. solve_decision. Defined.

(** [history::text] and [history::image] *)
Definition history_of (c : ClipboardContent) : HistoryContent :=
  match c with
  | Text text => HistoryText text
  | Image width height rgba => HistoryImage (Some rgba) (Some (str "image/x-rgba8")) (Some width) (Some height)
  end.

Record ClipboardService := {
  (** [clipboard_settings] *)
  share_text : bool;
  share_image : bool;
  legacy_clipboard : bool;
  (** [pending_remote_history_echoes], [native_file_selection] *)
  echoes : list HistoryContent;
  native_file_selection : bool;
  last_file_clipboard : option rstring;
  (** [next_clipboard_transfer] *)
  next_transfer : Z;
}.
Definition set_echoes v (s : ClipboardService) : ClipboardService :=
  Build_ClipboardService (share_text s) (share_image s) (legacy_clipboard s) v (native_file_selection s)
    (last_file_clipboard s) (next_transfer s).
Definition set_native_file_selection v (s : ClipboardService) : ClipboardService :=
  Build_ClipboardService (share_text s) (share_image s) (legacy_clipboard s) (echoes s) v
    (last_file_clipboard s) (next_transfer s).
Definition set_last_file_clipboard v (s : ClipboardService) : ClipboardService :=
  Build_ClipboardService (share_text s) (share_image s) (legacy_clipboard s) (echoes s) (native_file_selection s)
    v (next_transfer s).
Definition set_next_transfer v (s : ClipboardService) : ClipboardService :=
  Build_ClipboardService (share_text s) (share_image s) (legacy_clipboard s) (echoes s) (native_file_selection s)
    (last_file_clipboard s) v.
Definition set_shares text image (s : ClipboardService) : ClipboardService :=
  Build_ClipboardService text image (legacy_clipboard s) (echoes s) (native_file_selection s)
    (last_file_clipboard s) (next_transfer s).
Definition set_legacy_clipboard v (s : ClipboardService) : ClipboardService :=
  Build_ClipboardService (share_text s) (share_image s) v (echoes s) (native_file_selection s)
    (last_file_clipboard s) (next_transfer s).

Inductive ServiceOutput :=
(** [emulation.publish_file_clipboard] *)
| ToBackend (contents : list (rstring * bytes)) (fallback : ClipboardFallback)
(** [clipboard.write], [clipboard.read_once] *)
| ToDesktop (c : ClipboardContent)
| ReadDesktop
(** [record_local_history] *)
| Record (h : HistoryContent)
(** [capture.send_clipboard] *)
| Stream (handle transfer_id : Z) (data : bytes) (dims : option (Z * Z))
(** [ManagerCommand]s to the plugin that provides the file clipboard *)
| PluginPublish (provider : rstring) (publication : PluginApi.PublishFileClipboard)
| PluginData (provider : rstring) (transfer_id mime_type value : rstring).

Definition sact : Type := ClipboardService -> ClipboardService * list ServiceOutput.

(** ** Operations *)

Definition MAX_ECHOES : Z := 8.
(** A clipboard of a peer. *)
Definition on_peer_clipboard (c : ClipboardContent) : sact := fun s =>
  let queued := echoes s ++ [history_of c] in
  let s := set_echoes (if MAX_ECHOES <? len queued then tail queued else queued) s in
  (s, match c with
      | Text text =>
          if share_text s
          then [ToBackend [(str "text/plain;charset=utf-8", text); (str "text/plain", text)] (Emulation.Local c)]
          else [ToDesktop c]
      | _ => [ToDesktop c]
      end).

(** The data and dimensions streamed for a content. *)
Definition payload (c : ClipboardContent) : bytes * option (Z * Z) :=
  match c with Text text => (text, None) | Image width height rgba => (rgba, Some (width, height)) end.
(** To every client, each under an id of its own. *)
Fixpoint send_to (handles : list Z) (c : ClipboardContent) (s : ClipboardService)
    : ClipboardService * list ServiceOutput :=
  match handles with
  | [] => (s, [])
  | handle :: handles =>
      let id := (next_transfer s + 1) mod 2 ^ 64 in
      let (s, out) := send_to handles c (set_next_transfer id s) in
      (s, Stream handle id (payload c).1 (payload c).2 :: out)
  end.
Definition share (m : ClientManager) (c : ClipboardContent) : sact := fun s =>
  let (s, out) := send_to (clipboard_clients m) c s in (s, Record (history_of c) :: out).

Definition shares (c : ClipboardContent) (s : ClipboardService) : bool :=
  match c with Text _ => share_text s | Image _ _ _ => share_image s end.
(** [VecDeque::remove] at the first [position], if there is one *)
Fixpoint take_echo (h : HistoryContent) (l : list HistoryContent) : option (list HistoryContent) :=
  match l with
  | [] => None
  | x :: l => if bool_decide (x = h) then Some l else cons x <$> take_echo h l
  end.
(** The back end's clipboard changed. *)
Definition on_native_clipboard (m : ClientManager) (c : ClipboardContent) : sact := fun s =>
  let s := set_native_file_selection false s in
  if shares c s then
    match take_echo (history_of c) (echoes s) with
    | Some rest => (set_echoes rest s, [])
    | None => share m c s
    end
  else (s, []).

(** [next_read]: an error is [None] *)
Definition on_desktop_read (m : ClientManager) (r : option ClipboardContent) : sact := fun s =>
  match r with
  | Some c => if shares c s && negb (native_file_selection s) then share m c s else (s, [])
  | None => (s, [])
  end.

(** [str::contains] *)
Fixpoint contains (part s : rstring) : bool :=
  bool_decide (is_Some (strip_prefix part s))
  || match s with [] => false | _ :: s => contains part s end.
Definition is_file_line (line : rstring) : bool := bool_decide (is_Some (strip_prefix (str "file://") line)).
Definition is_own_clipboard_mount (value : rstring) : bool :=
  let uris := List.filter is_file_line (lines value) in
  forallb (fun line => contains (str "syntra/clipboard/") line || contains (str "lan%2Dmouse/clipboard/") line) uris
  && existsb is_file_line (lines value).

(** [provider] is the active file clipboard plugin, if its process is managed. *)
Definition handle_native_file_clipboard (provider : option rstring) (mime_type value : rstring) : sact := fun s =>
  if is_own_clipboard_mount value then (s, [])
  else if bool_decide (last_file_clipboard s = Some value) then (s, [])
  else (set_last_file_clipboard (Some value) s,
        match provider with
        | Some provider => [PluginData provider (str "remote-desktop") mime_type value]
        | None => []
        end).
Definition on_file_clipboard (provider : option rstring) (mime_type value : rstring) : sact := fun s =>
  handle_native_file_clipboard provider mime_type value (set_native_file_selection true s).

Definition on_fallback (provider : option rstring) (f : ClipboardFallback) : sact := fun s =>
  (s, match f, provider with
      | Emulation.Local c, _ => [ToDesktop c]
      | Adapter publication, Some provider => [PluginPublish provider publication]
      | Adapter _, None => []
      end).

(** The pointer goes to another device, or a plugin noticed a copy. *)
Definition ask_desktop : sact := fun s => (s, if legacy_clipboard s then [ReadDesktop] else []).
(** The id of a file offer, in [handle_manifest_offer]. *)
Definition take_file_id : sact := fun s => (set_next_transfer (Z.max ((next_transfer s + 1) mod 2 ^ 64) 1) s, []).

(** ** Events *)

Inductive ClipboardEvent :=
| PeerSent (c : ClipboardContent)
| BackendChanged (c : ClipboardContent)
| BackendFiles (mime_type value : rstring)
| FellBack (f : ClipboardFallback)
| DesktopAnswered (r : option ClipboardContent)
| AskDesktop
| FileOffered
| SetShares (text image : bool)
| SetLegacy (enabled : bool).

(** An event with the clients and the provider of that moment. *)
Definition clipboard_step (m : ClientManager) (provider : option rstring) (e : ClipboardEvent) : sact :=
  match e with
  | PeerSent c => on_peer_clipboard c
  | BackendChanged c => on_native_clipboard m c
  | BackendFiles mime_type value => on_file_clipboard provider mime_type value
  | FellBack f => on_fallback provider f
  | DesktopAnswered r => fun s => if legacy_clipboard s then on_desktop_read m r s else (s, [])
  | AskDesktop => ask_desktop
  | FileOffered => take_file_id
  | SetShares text image => fun s => (set_shares text image s, [])
  | SetLegacy enabled => fun s => (set_legacy_clipboard enabled s, [])
  end.
Fixpoint clipboard_run (l : list (ClientManager * option rstring * ClipboardEvent)) : sact := fun s =>
  match l with
  | [] => (s, [])
  | (m, provider, e) :: l =>
      let (s, out) := clipboard_step m provider e s in
      let (s, out') := clipboard_run l s in (s, out ++ out')
  end.
