(* ===== verification/ClipboardServiceTheorems.v ===== *)
(** * The clipboard in the daemon: ids, echoes, settings *)

From stdpp Require Import sorting.
From S2P Require Import Prelude Wire ProtoTypes ProtoValid FileTransfer PluginApi InputCapture InputEmulation ClientManager Clipboard Emulation ClipboardService.

(** ** Every stream has an id of its own *)

Definition stream_ids (outs : list ServiceOutput) : list Z :=
  omap (fun o => match o with Stream _ id _ _ => Some id | _ => None end) outs.
Lemma stream_ids_app o o' : stream_ids (o ++ o') = stream_ids o ++ stream_ids o'.
Proof. apply omap_app. Qed.

(** The ids given out are at increasing distances from [n], up to [u]. *)
Definition spread (n : Z) (ids : list Z) (u : Z) : Prop :=
  exists ks, StronglySorted Z.lt ks /\ Forall (fun k => 0 < k <= u) ks /\ ids = (fun k => (n + k) mod 2 ^ 64) <$> ks.

Lemma spread_nil n u : spread n [] u.
Proof. exists []. repeat constructor. Qed.
Lemma spread_app n ids u n' ids' u' :
  0 <= u -> spread n ids u -> n' = (n + u) mod 2 ^ 64 -> spread n' ids' u' -> 0 <= u' -> spread n (ids ++ ids') (u + u').
Proof.
  intros Hu (ks & Hs & Hk & ->) -> (ks' & Hs' & Hk' & ->) Hu'. exists (ks ++ (Z.add u <$> ks')). split_and!.
  - assert (Hs2 : StronglySorted Z.lt (Z.add u <$> ks')).
    { clear Hk'. induction Hs' as [|k ks' _ IH Hall]; cbn; constructor; [done|]. apply Forall_fmap.
      eapply Forall_impl; [exact Hall|]. intros. cbn. lia. }
    apply StronglySorted_app_2; [|done|done]. intros x y Hx Hy. rewrite Forall_forall in Hk. apply Hk in Hx.
    apply list_elem_of_fmap in Hy as (y' & -> & Hy). rewrite Forall_forall in Hk'. apply Hk' in Hy. lia.
  - apply Forall_app. split; [eapply Forall_impl; [exact Hk|]; cbn; lia|].
    apply Forall_fmap. eapply Forall_impl; [exact Hk'|]. cbn. lia.
  - rewrite fmap_app. f_equal. rewrite <- list_fmap_compose. apply list_fmap_ext. intros i k _. cbn.
    rewrite Zplus_mod_idemp_l. f_equal. lia.
Qed.
(** Fewer than [2^64] of them are distinct. *)
Lemma spread_distinct n ids u : u < 2 ^ 64 -> spread n ids u -> NoDup ids.
Proof.
  intros Hu (ks & Hs & Hk & ->). apply NoDup_fmap_2_strong.
  - intros x y Hx Hy E. rewrite Forall_forall in Hk. apply Hk in Hx, Hy.
    pose proof (Z.div_mod (n + x) (2 ^ 64)) as Ex. pose proof (Z.div_mod (n + y) (2 ^ 64)) as Ey.
    rewrite E in Ex. nia.
  - clear Hk. induction Hs as [|k ks _ IH Hall]; constructor; [|done].
    intros Hin. rewrite Forall_forall in Hall. apply Hall in Hin. lia.
Qed.

Lemma send_to_spread c handles : forall s,
  let (s', out) := send_to handles c s in
  spread (next_transfer s) (stream_ids out) (len handles)
  /\ next_transfer s' = (if len handles =? 0 then next_transfer s else (next_transfer s + len handles) mod 2 ^ 64).
Proof.
  induction handles as [|h handles IH]; intros s; cbn [send_to]; [split; [apply spread_nil|done]|].
  set (id := (next_transfer s + 1) mod 2 ^ 64). specialize (IH (set_next_transfer id s)).
  destruct (send_to handles c (set_next_transfer id s)) as [s' out]. destruct IH as [H1 H2]. cbn in H1, H2.
  assert (El : len (h :: handles) = 1 + len handles) by (unfold len; cbn; lia).
  pose proof (len_nonneg handles) as Hp. rewrite El. split.
  - change (stream_ids (Stream h id (payload c).1 (payload c).2 :: out)) with ([id] ++ stream_ids out).
    eapply spread_app; [lia| |reflexivity|exact H1|lia]. exists [1]. split_and!; [repeat constructor|repeat constructor; lia|done].
  - rewrite H2. destruct (Z.eqb_spec (1 + len handles) 0); [lia|]. destruct (Z.eqb_spec (len handles) 0) as [->|].
    + done.
    + unfold id. rewrite Zplus_mod_idemp_l. f_equal. lia.
Qed.

Lemma send_to_count c handles : forall s, len (stream_ids (send_to handles c s).2) = len handles.
Proof.
  induction handles as [|h handles IH]; intros s; cbn [send_to]; [done|].
  specialize (IH (set_next_transfer ((next_transfer s + 1) mod 2 ^ 64) s)). destruct (send_to handles c _). cbn in IH |- *.
  unfold len in *. cbn. lia.
Qed.

(** The ids an event takes. *)
Definition ids_taken (e : ClipboardEvent) (out : list ServiceOutput) : Z :=
  len (stream_ids out) + match e with FileOffered => 1 | _ => 0 end.
Definition id_range (s : ClipboardService) : Prop := 0 <= next_transfer s < 2 ^ 64.
Definition advances (e : ClipboardEvent) (s s' : ClipboardService) (out : list ServiceOutput) : Prop :=
  exists u, 0 <= u <= 2 * ids_taken e out /\ spread (next_transfer s) (stream_ids out) u
  /\ next_transfer s' = (next_transfer s + u) mod 2 ^ 64.

Lemma advances_still e s s' out :
  id_range s -> next_transfer s' = next_transfer s -> stream_ids out = [] -> advances e s s' out.
Proof.
  intros Hr E Eo. exists 0. rewrite Eo. split; [unfold ids_taken; rewrite Eo; unfold len; cbn [length]; destruct e; lia|].
  split; [apply spread_nil|]. rewrite E, Z.add_0_r, Z.mod_small by done. done.
Qed.
Lemma share_advances e m c s :
  id_range s -> let (s', out) := share m c s in advances e s s' out.
Proof.
  intros Hr. unfold share. pose proof (send_to_spread c (clipboard_clients m) s) as H1.
  pose proof (send_to_count c (clipboard_clients m) s) as H2.
  destruct (send_to (clipboard_clients m) c s) as [s' out]. cbn [snd] in H2. destruct H1 as [H1 E].
  exists (len (clipboard_clients m)). change (stream_ids (Record (history_of c) :: out)) with (stream_ids out).
  pose proof (len_nonneg (clipboard_clients m)).
  split; [unfold ids_taken; change (stream_ids (Record (history_of c) :: out)) with (stream_ids out); rewrite H2; destruct e; lia|].
  split; [done|]. rewrite E. destruct (Z.eqb_spec (len (clipboard_clients m)) 0) as [->|]; [|done].
  rewrite Z.add_0_r, Z.mod_small by done. done.
Qed.
Lemma step_advances m p e s :
  id_range s -> let (s', out) := clipboard_step m p e s in advances e s s' out.
Proof.
  intros Hr. destruct e as [c|c|mime v|f|r| | |t i|b]; cbn [clipboard_step].
  - unfold on_peer_clipboard. apply advances_still; [done|done|]. destruct c; [|done]. by destruct (share_text _).
  - unfold on_native_clipboard. destruct (shares _ _); [|by apply advances_still].
    destruct (take_echo _ _); [by apply advances_still|]. apply (share_advances _ m c (set_native_file_selection false s) Hr).
  - unfold on_file_clipboard, handle_native_file_clipboard. destruct (is_own_clipboard_mount v); [by apply advances_still|].
    case_bool_decide; [by apply advances_still|]. apply advances_still; [done|done|]. by destruct p.
  - apply advances_still; [done|done|]. destruct f; [|done]. by destruct p.
  - destruct (legacy_clipboard s); [|by apply advances_still]. unfold on_desktop_read.
    destruct r as [c|]; [|by apply advances_still]. destruct (_ && _); [|by apply advances_still].
    by apply (share_advances _ m c s).
  - apply advances_still; [done|done|]. unfold ask_desktop. by destruct (legacy_clipboard s).
  - unfold take_file_id, id_range in *. cbn. destruct (Z.max_spec ((next_transfer s + 1) mod 2 ^ 64) 1) as [[Hlt ->]|[_ ->]].
    + exists 2. split; [by cbn|]. split; [apply spread_nil|].
      pose proof (Z.mod_pos_bound (next_transfer s + 1) (2 ^ 64) ltac:(lia)).
      assert (next_transfer s = 2 ^ 64 - 1) as -> by (destruct (decide (next_transfer s + 1 = 2 ^ 64)); [lia|];
        rewrite Z.mod_small in Hlt by lia; lia). done.
    + exists 1. split; [by cbn|]. split; [apply spread_nil|done].
  - by apply advances_still.
  - by apply advances_still.
Qed.

(** The ids taken in a run. *)
Fixpoint run_taken (l : list (ClientManager * option rstring * ClipboardEvent)) (s : ClipboardService) : Z :=
  match l with
  | [] => 0
  | (m, p, e) :: l => let (s', out) := clipboard_step m p e s in ids_taken e out + run_taken l s'
  end.
Lemma run_spread l : forall s,
  id_range s -> exists u, 0 <= u <= 2 * run_taken l s /\ spread (next_transfer s) (stream_ids (clipboard_run l s).2) u.
Proof.
  induction l as [|[[m p] e] l IH]; intros s Hr; cbn [clipboard_run run_taken].
  - exists 0. split; [lia|apply spread_nil].
  - pose proof (step_advances m p e s Hr) as H1. destruct (clipboard_step m p e s) as [s' out].
    destruct H1 as (u & Hu & Hs & E). assert (Hr' : id_range s') by (unfold id_range; rewrite E; apply Z.mod_pos_bound; lia).
    destruct (IH s' Hr') as (u' & Hu' & Hs'). destruct (clipboard_run l s') as [s'' out']. cbn [snd] in *.
    exists (u + u'). split; [lia|]. rewrite stream_ids_app. eapply spread_app; [lia|done|exact E|done|lia].
Qed.
(** No two streams of a daemon share their id. *)
Lemma run_ids_distinct l s : id_range s -> 2 * run_taken l s < 2 ^ 64 -> NoDup (stream_ids (clipboard_run l s).2).
Proof. intros Hr Hn. destruct (run_spread l s Hr) as (u & Hu & Hs). eapply spread_distinct; [|done]. lia. Qed.

(** ** Where a stream comes from *)

Definition copied_here (e : ClipboardEvent) (c : ClipboardContent) : Prop :=
  e = DesktopAnswered (Some c) \/ e = BackendChanged c.
Lemma send_to_streams c handles : forall s h id data dims,
  Stream h id data dims ∈ (send_to handles c s).2 -> payload c = (data, dims).
Proof.
  induction handles as [|h' handles IH]; intros s h id data dims; cbn [send_to]; [by intros []%not_elem_of_nil|].
  specialize (IH (set_next_transfer ((next_transfer s + 1) mod 2 ^ 64) s) h id data dims).
  destruct (send_to handles c _) as [s' out]. cbn. intros [[= _ _ -> ->]|Hin]%elem_of_cons; [by destruct (payload c)|auto].
Qed.
Lemma share_streams m c s h id data dims :
  Stream h id data dims ∈ (share m c s).2 -> payload c = (data, dims).
Proof.
  unfold share. pose proof (send_to_streams c (clipboard_clients m) s h id data dims) as H1.
  destruct (send_to _ c s) as [s' out]. cbn. intros [[=]|Hin]%elem_of_cons. auto.
Qed.
Lemma step_streams m p e s h id data dims :
  Stream h id data dims ∈ (clipboard_step m p e s).2 -> exists c, copied_here e c /\ payload c = (data, dims).
Proof.
  destruct e as [c|c|mime v|f|r| | |t i|b]; cbn [clipboard_step].
  - unfold on_peer_clipboard. cbn. destruct c; [destruct (share_text _)|]; intros [[=]|[]%not_elem_of_nil]%elem_of_cons.
  - unfold on_native_clipboard. destruct (shares _ _); [|by intros []%not_elem_of_nil].
    destruct (take_echo _ _); [by intros []%not_elem_of_nil|]. intros Hin%share_streams. exists c. split; [by right|done].
  - unfold on_file_clipboard, handle_native_file_clipboard. destruct (is_own_clipboard_mount v); [by intros []%not_elem_of_nil|].
    case_bool_decide; [by intros []%not_elem_of_nil|]. destruct p; cbn; [|by intros []%not_elem_of_nil].
    intros [[=]|[]%not_elem_of_nil]%elem_of_cons.
  - cbn. destruct f; [|by intros [[=]|[]%not_elem_of_nil]%elem_of_cons].
    destruct p; [by intros [[=]|[]%not_elem_of_nil]%elem_of_cons|by intros []%not_elem_of_nil].
  - destruct (legacy_clipboard s); [|by intros []%not_elem_of_nil]. unfold on_desktop_read.
    destruct r as [c|]; [|by intros []%not_elem_of_nil]. destruct (_ && _); [|by intros []%not_elem_of_nil].
    intros Hin%share_streams. exists c. split; [by left|done].
  - unfold ask_desktop. cbn. destruct (legacy_clipboard s); [by intros [[=]|[]%not_elem_of_nil]%elem_of_cons|by intros []%not_elem_of_nil].
  - by intros []%not_elem_of_nil.
  - by intros []%not_elem_of_nil.
  - by intros []%not_elem_of_nil.
Qed.
Lemma run_streams l : forall s h id data dims,
  Stream h id data dims ∈ (clipboard_run l s).2 ->
  exists m p e c, (m, p, e) ∈ l /\ copied_here e c /\ payload c = (data, dims).
Proof.
  induction l as [|[[m p] e] l IH]; intros s h id data dims; cbn [clipboard_run]; [by intros []%not_elem_of_nil|].
  pose proof (step_streams m p e s h id data dims) as H1. destruct (clipboard_step m p e s) as [s' out].
  specialize (IH s' h id data dims). destruct (clipboard_run l s') as [s'' out']. cbn [snd] in *.
  intros [Hin|Hin]%elem_of_app.
  - destruct (H1 Hin) as (c & Hc). exists m, p, e, c. split; [by left|done].
  - destruct (IH Hin) as (m' & p' & e' & c & Hl & Hc). exists m', p', e', c. split; [by right|done].
Qed.

(** ** Echoes of the back end *)

Lemma take_echo_Some h l : h ∈ l -> exists rest, take_echo h l = Some rest /\ l ≡ₚ h :: rest.
Proof.
  induction l as [|x l IH]; [by intros []%not_elem_of_nil|]. cbn. case_bool_decide as E.
  - subst x. intros _. by exists l.
  - intros [->|Hin]%elem_of_cons; [done|]. destruct (IH Hin) as (rest & -> & Hp). exists (x :: rest). split; [done|].
    rewrite Hp. apply Permutation_swap.
Qed.
Lemma take_echo_len h l rest : take_echo h l = Some rest -> len rest = len l - 1.
Proof.
  revert rest. induction l as [|x l IH]; intros rest; cbn; [done|]. case_bool_decide.
  - intros [= <-]. unfold len. cbn. lia.
  - destruct (take_echo h l); [|done]. intros [= <-]. specialize (IH l0 eq_refl). unfold len in *. cbn. lia.
Qed.

(** At most eight are remembered; the last one that came always is. *)
Lemma peer_clipboard_remembered c s :
  len (echoes s) <= MAX_ECHOES ->
  let s' := (on_peer_clipboard c s).1 in history_of c ∈ echoes s' /\ len (echoes s') <= MAX_ECHOES.
Proof.
  intros Hl. unfold on_peer_clipboard. cbn. unfold len in *. rewrite length_app. cbn.
  destruct (Z.ltb_spec MAX_ECHOES (Z.of_nat (length (echoes s) + 1))) as [Hlt|].
  - unfold MAX_ECHOES in *. destruct (echoes s) as [|x l]; cbn in *; [lia|]. split; [|rewrite length_app; cbn; lia].
    apply elem_of_app. right. by left.
  - split; [|rewrite length_app; cbn; lia]. apply elem_of_app. right. by left.
Qed.
Lemma send_to_echoes c handles : forall s, echoes (send_to handles c s).1 = echoes s.
Proof.
  induction handles as [|h handles IH]; intros s; cbn [send_to]; [done|].
  specialize (IH (set_next_transfer ((next_transfer s + 1) mod 2 ^ 64) s)). by destruct (send_to handles c _).
Qed.
Lemma share_echoes m c s : echoes (share m c s).1 = echoes s.
Proof. unfold share. pose proof (send_to_echoes c (clipboard_clients m) s). by destruct (send_to _ c s). Qed.
Lemma step_echoes m p e s : len (echoes s) <= MAX_ECHOES -> len (echoes (clipboard_step m p e s).1) <= MAX_ECHOES.
Proof.
  intros Hl. destruct e as [c|c|mime v|f|r| | |t i|b]; cbn [clipboard_step]; try done.
  - by apply (peer_clipboard_remembered c s Hl).
  - unfold on_native_clipboard. destruct (shares _ _); [|done]. destruct (take_echo _ _) as [rest|] eqn:E.
    + apply take_echo_len in E. cbn in E |- *. lia.
    + by rewrite share_echoes.
  - unfold on_file_clipboard, handle_native_file_clipboard. destruct (is_own_clipboard_mount v); [done|]. by case_bool_decide.
  - destruct (legacy_clipboard s); [|done]. unfold on_desktop_read. destruct r as [c|]; [|done].
    destruct (_ && _); [|done]. by rewrite share_echoes.
Qed.
Lemma run_echoes l : forall s, len (echoes s) <= MAX_ECHOES -> len (echoes (clipboard_run l s).1) <= MAX_ECHOES.
Proof.
  induction l as [|[[m p] e] l IH]; intros s Hl; cbn [clipboard_run]; [done|].
  pose proof (step_echoes m p e s Hl) as H1. destruct (clipboard_step m p e s) as [s' out]. specialize (IH s' H1).
  by destruct (clipboard_run l s').
Qed.
(** The back end's report of what a peer sent is neither recorded nor streamed. *)
Lemma echo_swallowed m m' p p' c s :
  len (echoes s) <= MAX_ECHOES ->
  (clipboard_step m' p' (BackendChanged c) (clipboard_step m p (PeerSent c) s).1).2 = [].
Proof.
  intros Hl. destruct (peer_clipboard_remembered c s Hl) as [Hin _]. cbn [clipboard_step].
  set (s1 := (on_peer_clipboard c s).1) in *. unfold on_native_clipboard.
  destruct (shares c _); [|done]. destruct (take_echo_Some _ _ Hin) as (rest & E & _).
  change (echoes (set_native_file_selection false s1)) with (echoes s1). by rewrite E.
Qed.

(** What is received is applied whatever is shared. *)
Example received_whatever_is_shared c s :
  let s := set_shares false false s in
  (on_peer_clipboard c s).2 = [ToDesktop c]
  /\ forall m p, (clipboard_step m p (BackendChanged c) s).2 = [] /\ (clipboard_step m p (DesktopAnswered (Some c)) s).2 = [].
Proof.
  split; [by destruct c|]. intros m p. split; [by destruct c|]. cbn. destruct (legacy_clipboard s); [|done]. by destruct c.
Qed.
