(* ===== verification/ClipboardDelivery.v ===== *)
(** * Clipboards between devices: what arrives is what was sent

    The clipboards that daemons stream: under an id of its own each by the service
    of one device, in the messages of [capture.rs], received by the listen task of
    [emulation.rs] of another between everything else it does. *)

From S2P Require Import Prelude Wire ProtoTypes ProtoValid HistorySync HistorySyncTheorems Capture.
From S2P Require Import InputCapture InputEmulation Clipboard ClientManager Emulation ListenTheorems ListenSafety ClipboardService ClipboardServiceTheorems.

#[local] Infix ">>>" := chain (at level 62, right associativity).
Abbreviation SIZE := MAX_CLIPBOARD_CHUNK_SIZE (only parsing).
Abbreviation transfers l := (clipboard_transfers (lt l)).

(** ** The stream *)

Definition content_of (data : bytes) (dims : option (Z * Z)) : ClipboardContent :=
  match dims with Some (width, height) => Image width height data | None => Text data end.
Definition kind_of (dims : option (Z * Z)) : ClipboardTransferKind :=
  match dims with Some (width, height) => ImageTransfer width height | None => TextTransfer end.

Lemma size_pos : 0 < SIZE.
Proof. done. Qed.
Lemma clipboard_chunks_lookup fuel id : forall index data k,
  clipboard_chunks fuel id index data !! k
  = (fun d => ProtoEvent.ClipboardChunk id (index + Z.of_nat k) d) <$> chunks_fuel fuel (Z.to_nat SIZE) data !! k.
Proof.
  induction fuel as [|fuel IH]; intros index data k; [done|]. destruct data as [|x data]; [done|].
  cbn [clipboard_chunks chunks_fuel]. destruct k as [|k]; cbn [lookup list_lookup].
  - cbn [fmap option_fmap option_map]. by rewrite Z.add_0_r.
  - rewrite IH. f_equal. by replace (index + 1 + Z.of_nat k) with (index + Z.of_nat (S k)) by lia.
Qed.
Lemma stream_chunk id data k :
  clipboard_chunks (length data) id 0 data !! k
  = if decide (Z.of_nat k * SIZE < len data)
    then Some (ProtoEvent.ClipboardChunk id (Z.of_nat k) (take (Z.to_nat SIZE) (drop (k * Z.to_nat SIZE) data)))
    else None.
Proof.
  rewrite clipboard_chunks_lookup. fold (HistorySync.chunks SIZE data). rewrite (chunks_lookup SIZE data size_pos).
  by destruct (decide _).
Qed.
Lemma chunk_of_stream id data index piece id' :
  ProtoEvent.ClipboardChunk id' index piece ∈ clipboard_chunks (length data) id 0 data ->
  exists k, index = Z.of_nat k /\ id' = id /\ Z.of_nat k * SIZE < len data
    /\ piece = take (Z.to_nat SIZE) (drop (k * Z.to_nat SIZE) data).
Proof.
  intros (k & Hk)%list_elem_of_lookup. rewrite stream_chunk in Hk. destruct (decide _) as [Hlt|]; [|done].
  injection Hk as -> <- <-. by exists k.
Qed.

(** ** A transfer on its way *)

(** The first [next] chunks have come. *)
Record partial (data : bytes) (dims : option (Z * Z)) (tr : ClipboardTransfer) (k : nat) : Prop := {
  pt_kind : kind tr = kind_of dims;
  pt_next : next tr = Z.of_nat k;
  pt_chunks : chunks tr = div_ceil (len data) SIZE;
  pt_total : total_len tr = len data;
  pt_received : received tr = take (k * Z.to_nat SIZE) data;
}.

Lemma partial_start env data dims :
  partial data dims (new_transfer env (kind_of dims) (len data) (div_ceil (len data) SIZE)) 0.
Proof. done. Qed.
(** The next chunk of the stream fits. *)
Lemma partial_chunk data dims tr k :
  partial data dims tr k -> Z.of_nat k * SIZE < len data ->
  exists tr', take_chunk (Z.of_nat k) (take (Z.to_nat SIZE) (drop (k * Z.to_nat SIZE) data)) tr = Some tr'
    /\ partial data dims tr' (S k) /\ started tr' = started tr.
Proof.
  intros [Hk Hn Hc Ht Hr] Hlt. unfold take_chunk. rewrite Hn, Z.eqb_refl, Ht, Hr. cbn [andb].
  pose proof size_pos as Hs. assert (Hnat : (k * Z.to_nat SIZE < length data)%nat) by (unfold len in Hlt; nia).
  set (m := Z.to_nat SIZE) in *. assert (Hm : Z.of_nat m = SIZE) by lia.
  unfold len at 1 2 3. rewrite !length_take, length_drop.
  assert (H1 : (Z.of_nat (m `min` (length data - k * m)) <=? SIZE) = true) by (apply Z.leb_le; lia).
  assert (H2 : (Z.of_nat ((k * m) `min` length data) + Z.of_nat (m `min` (length data - k * m)) <=? len data) = true)
    by (apply Z.leb_le; unfold len; lia).
  rewrite H1, H2. cbn [andb]. eexists. split; [reflexivity|]. split; [|done]. split; cbn; [done|lia|done|done|].
  rewrite take_take_drop. f_equal. lia.
Qed.
(** Any other is refused or is the next one. *)
Lemma partial_any data dims tr k j tr' :
  partial data dims tr k -> Z.of_nat j * SIZE < len data ->
  take_chunk (Z.of_nat j) (take (Z.to_nat SIZE) (drop (j * Z.to_nat SIZE) data)) tr = Some tr' ->
  partial data dims tr' (S k) /\ started tr' = started tr.
Proof.
  intros Hp Hlt Htk. assert (j = k) as ->.
  { unfold take_chunk in Htk. destruct (Z.eqb_spec (Z.of_nat j) (next tr)) as [E|]; [|done].
    destruct Hp as [_ Hn _ _ _]. lia. }
  destruct (partial_chunk data dims tr k Hp Hlt) as (tr1 & E & H1). rewrite E in Htk. by injection Htk as <-.
Qed.
(** The last one completes the content. *)
Lemma partial_complete data dims tr k :
  partial data dims tr k -> next tr = chunks tr -> received tr = data.
Proof.
  intros [_ Hn Hc _ Hr] E. rewrite Hr. apply take_ge. pose proof (div_ceil_spec (len data) SIZE) as Hd.
  unfold len in *. pose proof size_pos. destruct Hd as [_ Hd]; [lia..|]. nia.
Qed.

(** ** Everything else the listen task does *)

Definition plain (o : ListenOutput) : Prop := match o with Up (PeerClipboard _) => False | _ => True end.
(** It leaves the transfers alone and reports no clipboard. *)
Definition spares (act : lact) : Prop := forall l, transfers (act l).1 = transfers l /\ Forall plain (act l).2.

Lemma spares_chain a b : spares a -> spares b -> spares (a >>> b).
Proof.
  intros Ha Hb l. rewrite chain_fst, chain_snd. destruct (Ha l) as [H1 H2], (Hb (a l).1) as [H3 H4].
  split; [congruence|by apply Forall_app].
Qed.
Lemma spares_skip : spares skip.
Proof. split; [done|constructor]. Qed.
Lemma spares_put o : plain o -> spares (put o).
Proof. intros Ho l. split; [done|]. by repeat constructor. Qed.
Lemma spares_update f : (forall t, clipboard_transfers (f t) = clipboard_transfers t) -> spares (update f).
Proof. intros Hf l. split; [apply Hf|constructor]. Qed.
Lemma spares_update_cells f : spares (update_cells f).
Proof. split; [done|constructor]. Qed.
Lemma spares_look f : (forall l, spares (f l)) -> spares (look f).
Proof. intros Hf l. apply (Hf l l). Qed.
Lemma spares_given b a : spares a -> spares (given b a).
Proof. destruct b; [done|]. intros _. apply spares_skip. Qed.
Lemma spares_for_all {A} (f : A -> lact) l : (forall x, spares (f x)) -> spares (for_all f l).
Proof. intros Hf. induction l; cbn [for_all]; [apply spares_skip|]. by apply spares_chain. Qed.

Ltac run_spares := repeat first
  [ apply spares_skip | apply spares_update_cells | (apply spares_update; reflexivity)
  | lazymatch goal with
    | |- forall _, _ => intros ?
    | |- spares (_ >>> _) => apply spares_chain
    | |- spares (look _) => apply spares_look
    | |- spares (given _ _) => apply spares_given
    | |- spares (for_all _ _) => apply spares_for_all
    | |- spares (put _) => apply spares_put; exact I
    | |- spares (reply _ _) => apply spares_put; exact I
    | |- spares (proxy _) => apply spares_put; exact I
    | |- spares (proxy_remove _) => apply spares_put; exact I
    | |- spares (place_pointer _) => apply spares_put; exact I
    | |- spares (place_pointer_along _ _) => apply spares_put; exact I
    | |- spares (up _) => apply spares_put; exact I
    | |- spares (match ?x with _ => _ end) => destruct x
    | |- spares (handle_enter _ _ _ _ _) => unfold handle_enter
    | |- spares (handle_input _ _ _) => unfold handle_input, proxy_consume
    | |- spares (end_control _) => unfold end_control
    | |- spares (end_control_at _ _) => unfold end_control_at
    | |- spares (return_pointer _ _) => unfold return_pointer
    | |- spares (handoff_refused _ _ _) => unfold handoff_refused
    | |- spares (set_sharing _) => unfold set_sharing
    | |- spares (proxy_set_input_sharing _) => unfold proxy_set_input_sharing
    | |- spares (proxy_set_independent_pointers _) => unfold proxy_set_independent_pointers
    | |- spares proxy_terminate => unfold proxy_terminate
    | |- spares (heard_from _ _) => unfold heard_from
    | |- spares (expire_peer _) => unfold expire_peer
    end ].

Definition clipboard_message (event : ProtoEvent) : bool :=
  match event with
  | ProtoEvent.ClipboardStart _ _ _ | ProtoEvent.ClipboardImageStart _ _ _ _ _ | ProtoEvent.ClipboardChunk _ _ _ => true
  | _ => false
  end.

Section steps.
Context `{!HashOrder} (env : Env).

Lemma spares_pointer_edge addr edge along : spares (handle_pointer_edge env addr edge along).
Proof.
  unfold handle_pointer_edge. apply spares_look. intros l.
  destruct (start_handoff env (lt l) addr edge) as [a|] eqn:E; [|run_spares].
  apply start_handoff_Some in E as (target & _ & ->). run_spares.
Qed.
Lemma spares_message event addr : clipboard_message event = false -> spares (handle_message env event addr).
Proof. intros He. destruct event; try done; cbn [handle_message]; run_spares. Qed.
Lemma spares_request r : spares (handle_emulation_request env r).
Proof. destruct r; cbn [handle_emulation_request]; run_spares. Qed.
Lemma spares_task_event e : task_event e = true -> spares (handle_task_event env e).
Proof.
  intros He. unfold handle_task_event, proxy_event. destruct e; try done; run_spares. apply spares_pointer_edge.
Qed.
Lemma spares_published r : spares (handle_published r).
Proof. unfold handle_published. run_spares. Qed.

(** The watchdog only drops transfers that are too old. *)
Lemma tick_transfers l :
  transfers (handle_tick env l).1
    = filter (fun e => now env - started e.2 < CLIPBOARD_TRANSFER_TIMEOUT) (transfers l)
  /\ Forall plain (handle_tick env l).2.
Proof.
  unfold handle_tick, look. rewrite !chain_fst, !chain_snd. cbn [update fst snd lt app].
  set (L := hash_order _). set (l0 := Build_Listen _ _).
  assert (Hs : spares (for_all expire_peer L)) by run_spares. destruct (Hs l0) as [H1 H2].
  split; [by rewrite H1|]. apply Forall_app. split; [done|constructor].
Qed.
End steps.

(** ** Runs *)

(** Each stimulus with its world and the cells as the emulation task left them. *)
Abbreviation trace := (list (Env * Cells * ListenStimulus)).
Section trace.
Context `{!HashOrder}.

Fixpoint listen_trace (tr : trace) (t : ListenTask) : ListenTask * list ListenOutput :=
  match tr with
  | [] => (t, [])
  | (env, c, x) :: tr =>
      let (l, outs) := listen_step env x (Build_Listen t c) in
      let (t, outs') := listen_trace tr (lt l) in (t, outs ++ outs')
  end.
(** Every stimulus comes while the task is at its [select!]. *)
Fixpoint all_taken (tr : trace) (t : ListenTask) : bool :=
  match tr with
  | [] => true
  | (env, c, x) :: tr => takes t x && all_taken tr (lt (listen_step env x (Build_Listen t c)).1)
  end.
(** The clipboard messages of a peer. *)
Definition messages_of (addr : SocketAddr) (tr : trace) : list ProtoEvent :=
  omap (fun x => match x.2 with
                 | FromListener (Msg event a) =>
                     if bool_decide (a = addr) && clipboard_message event then Some event else None
                 | _ => None
                 end) tr.
End trace.

(** What the peers send: under each id one clipboard. *)
Section delivery.
Context `{!HashOrder}.
Context (sent : SocketAddr -> Z -> option (bytes * option (Z * Z))).

Definition message_id (event : ProtoEvent) : Z :=
  match event with
  | ProtoEvent.ClipboardStart id _ _ | ProtoEvent.ClipboardImageStart id _ _ _ _ | ProtoEvent.ClipboardChunk id _ _ => id
  | _ => 0
  end.
(** A message of the stream of what was sent; no other clipboard message comes. *)
Definition of_stream (addr : SocketAddr) (event : ProtoEvent) : Prop :=
  clipboard_message event = true ->
  exists data dims ms, sent addr (message_id event) = Some (data, dims)
    /\ stream_clipboard (message_id event) data dims = Some ms /\ event ∈ ms.
Definition honest (x : Env * Cells * ListenStimulus) : Prop :=
  sane x.2 = true /\ match x.2 with FromListener (Msg event addr) => of_stream addr event | _ => True end.

Definition arriving (m : gmap (SocketAddr * Z) ClipboardTransfer) : Prop :=
  forall addr id tr, m !! (addr, id) = Some tr ->
  exists data dims k, sent addr id = Some (data, dims) /\ partial data dims tr k.
Definition as_sent (o : ListenOutput) : Prop :=
  match o with
  | Up (PeerClipboard c) =>
      exists addr id data dims, sent addr id = Some (data, dims) /\ data <> [] /\ c = content_of data dims
  | _ => True
  end.

Lemma arriving_sub m m' : arriving m -> m' ⊆ m -> arriving m'.
Proof. intros Hm Hs addr id tr Hl. eapply Hm, lookup_weaken; done. Qed.
Lemma plain_as_sent outs : Forall plain outs -> Forall as_sent outs.
Proof. intros Ho. eapply Forall_impl; [exact Ho|]. intros o. destruct o as [|e| | | |]; try done. by destruct e. Qed.
Lemma delete_arriving key m : arriving m -> arriving (delete key m).
Proof. intros Hm. eapply arriving_sub; [done|]. apply delete_subseteq. Qed.

(** A start begins a transfer of what was sent. *)
Lemma start_arriving env addr event m :
  of_stream addr event -> arriving m ->
  match event with
  | ProtoEvent.ClipboardStart id total n =>
      arriving (start_clipboard_transfer addr id (new_transfer env TextTransfer total n) m)
  | ProtoEvent.ClipboardImageStart id w h total n =>
      arriving (start_clipboard_transfer addr id (new_transfer env (ImageTransfer w h) total n) m)
  | _ => True
  end.
Proof.
  intros He Hm.
  assert (Hs : forall id data dims, sent addr id = Some (data, dims) ->
    arriving (start_clipboard_transfer addr id (new_transfer env (kind_of dims) (len data) (div_ceil (len data) SIZE)) m)).
  { intros id data dims Hsent a i tr Hl. unfold start_clipboard_transfer in Hl.
    apply lookup_insert_Some in Hl as [[[= <- <-] <-]|[Hne Hl]].
    - exists data, dims, 0%nat. split; [done|]. apply partial_start.
    - apply map_lookup_filter_Some in Hl as [Hl _]. by apply Hm. }
  assert (Hstart : forall id data dims ms e, stream_clipboard id data dims = Some ms -> e ∈ ms ->
    match e with ProtoEvent.ClipboardChunk _ _ _ => False | _ => True end ->
    e = match dims with
        | Some (w, h) => ProtoEvent.ClipboardImageStart id w h (len data) (div_ceil (len data) SIZE)
        | None => ProtoEvent.ClipboardStart id (len data) (div_ceil (len data) SIZE) end).
  { intros id data dims ms e. unfold stream_clipboard. destruct (_ <? _); [done|]. intros [= <-].
    intros [->|Hin]%elem_of_cons; [by destruct dims as [[]|]|]. intros Hn. apply list_elem_of_lookup in Hin as (k & Hk).
    rewrite stream_chunk in Hk. destruct (decide _); [|done]. injection Hk as <-. done. }
  destruct event; try done; destruct (He eq_refl) as (data & dims & ms & Hsent & Hst & Hin); cbn in *;
    specialize (Hstart _ _ _ _ _ Hst Hin I); destruct dims as [[w h]|]; try done; simplify_eq.
  - by apply (Hs transfer_id data None).
  - by apply (Hs transfer_id data (Some (_, _))).
Qed.

(** A chunk: the content as it was sent, or nothing. *)
Lemma transfer_content_as_sent data dims tr k :
  partial data dims tr k -> next tr = chunks tr ->
  transfer_content tr = if bool_decide (dims = None) && negb (utf8_valid data) then None else Some (content_of data dims).
Proof.
  intros Hp E. unfold transfer_content. rewrite (pt_kind _ _ _ _ Hp), (partial_complete _ _ _ _ Hp E).
  destruct dims as [[w h]|]; cbn; [done|]. by destruct (utf8_valid data).
Qed.
(** A chunk of the stream comes for a transfer. *)
Lemma receive_chunk_eq addr id index piece data dims tr k l :
  transfers l !! (addr, id) = Some tr -> partial data dims tr k ->
  ProtoEvent.ClipboardChunk id index piece ∈ clipboard_chunks (length data) id 0 data ->
  let (l', outs) := receive_chunk (addr, id) index piece l in
  (transfers l' = delete (addr, id) (transfers l)
   /\ (outs = [] \/ (outs = [Up (PeerClipboard (content_of data dims))])))
  \/ (exists tr', transfers l' = <[(addr, id) := tr']> (transfers l) /\ outs = [] /\ partial data dims tr' (S k)).
Proof.
  intros Hl Hp (j & -> & _ & Hlt & ->)%chunk_of_stream. unfold receive_chunk, look. rewrite Hl.
  destruct (take_chunk _ _ tr) as [tr'|] eqn:Etk; [|by left; split; [done|left]].
  destruct (partial_any _ _ _ _ _ _ Hp Hlt Etk) as [Hp' _].
  destruct (Z.eqb_spec (next tr') (chunks tr')) as [E|]; [|right; exists tr'; done].
  rewrite (transfer_content_as_sent _ _ _ _ Hp' E).
  destruct (len (received tr') =? total_len tr'); [|by left; split; [|left]].
  destruct (_ && _); [by left; split; [|left]|by left; split; [|right]].
Qed.
Lemma chunk_arriving addr id index piece l :
  of_stream addr (ProtoEvent.ClipboardChunk id index piece) -> arriving (transfers l) ->
  arriving (transfers (receive_chunk (addr, id) index piece l).1)
  /\ Forall as_sent (receive_chunk (addr, id) index piece l).2.
Proof.
  intros He Hm. destruct (transfers l !! (addr, id)) as [tr|] eqn:Hl.
  - destruct (Hm _ _ _ Hl) as (data & dims & k & Hsent & Hp).
    destruct (He eq_refl) as (data' & dims' & ms & Hsent' & Hst & Hin). cbn in Hsent', Hst. simplify_eq.
    assert (Hin' : ProtoEvent.ClipboardChunk id index piece ∈ clipboard_chunks (length data) id 0 data).
    { unfold stream_clipboard in Hst. destruct (_ <? _); [done|]. injection Hst as <-.
      apply elem_of_cons in Hin as [E|Hin]; [by destruct dims as [[]|]|done]. }
    pose proof (receive_chunk_eq addr id index piece data dims tr k l Hl Hp Hin') as H1.
    destruct (receive_chunk (addr, id) index piece l) as [l' outs]. cbn [fst snd].
    destruct H1 as [[-> Ho]|(tr' & -> & -> & Hp')].
    + split; [by apply delete_arriving|]. destruct Ho as [-> | ->]; [constructor|]. constructor; [|constructor].
      exists addr, id, data, dims. split; [done|]. split; [|done].
      apply chunk_of_stream in Hin' as (j & _ & _ & Hlt & _). intros ->.
      change (len []) with 0 in Hlt. pose proof size_pos. nia.
    + split; [|constructor]. intros a i tr0 [[[= <- <-] <-]|[_ H0]]%lookup_insert_Some; [eauto 8|by apply Hm].
  - unfold receive_chunk, look. rewrite Hl. by split; [|constructor].
Qed.

Lemma step_arriving env c x t :
  honest (env, c, x) -> arriving (clipboard_transfers t) ->
  let r := listen_step env x (Build_Listen t c) in arriving (transfers r.1) /\ Forall as_sent r.2.
Proof.
  intros [Hs Hh] Hm. cbn [snd] in Hs, Hh. cbv zeta. destruct (takes t x) eqn:Ht.
  2:{ rewrite listen_step_idle by done. by split; [|constructor]. }
  assert (Hsp : forall act, spares act -> arriving (transfers (act (Build_Listen t c)).1)
                                         /\ Forall as_sent (act (Build_Listen t c)).2).
  { intros act Ha. destruct (Ha (Build_Listen t c)) as [-> Ho]. split; [done|]. by apply plain_as_sent. }
  rewrite (listen_step_taken env x (Build_Listen t c) Ht). destruct x as [[event addr|addr fp|fp]|e|r|r|].
  - rewrite handle_msg_eq. destruct (clipboard_message event) eqn:Hc.
    + pose proof (start_arriving env addr event (clipboard_transfers t) Hh Hm) as Hst.
      destruct event; try done; cbn [handle_message];
        first [by apply chunk_arriving | split; [exact Hst|constructor]].
    + destruct (spares_message env event addr Hc (hear env addr (Build_Listen t c))) as [-> Ho].
      split; [done|]. by apply plain_as_sent.
  - apply Hsp. cbn [handle_listen_event]. run_spares.
  - apply Hsp. cbn [handle_listen_event]. run_spares.
  - by apply Hsp, spares_task_event.
  - apply Hsp, spares_request.
  - apply Hsp, spares_published.
  - destruct (tick_transfers env (Build_Listen t c)) as [-> Ho]. split; [|by apply plain_as_sent].
    eapply arriving_sub; [done|]. apply map_filter_subseteq.
Qed.
Lemma trace_arriving tr : forall t,
  Forall honest tr -> arriving (clipboard_transfers t) ->
  arriving (clipboard_transfers (listen_trace tr t).1) /\ Forall as_sent (listen_trace tr t).2.
Proof.
  induction tr as [|[[env c] x] tr IH]; intros t Hh Hm; cbn [listen_trace]; [by split; [|constructor]|].
  apply Forall_cons in Hh as [Hx Hh]. destruct (step_arriving env c x t Hx Hm) as [H1 H2].
  destruct (listen_step env x _) as [l outs]. destruct (IH (lt l) Hh H1) as [H3 H4].
  destruct (listen_trace tr (lt l)) as [t' outs']. split; [done|]. by apply Forall_app.
Qed.
End delivery.

(** ** A stream that is not disturbed arrives *)

Section arrival.
Context `{!HashOrder}.
Context (addr : SocketAddr) (id : Z) (data : bytes) (dims : option (Z * Z)) (t0 : Z).
Hypothesis Hvalid : dims = None -> utf8_valid data = true.
Abbreviation key := (addr, id).

(** The transfer waits for chunk [k]. *)
Definition waiting (k : nat) (t : ListenTask) : Prop :=
  exists tr, clipboard_transfers t !! key = Some tr /\ partial data dims tr k /\ started tr = t0.
Definition chunk_at (k : nat) : ProtoEvent :=
  ProtoEvent.ClipboardChunk id (Z.of_nat k) (take (Z.to_nat SIZE) (drop (k * Z.to_nat SIZE) data)).

(** The watchdog ticks in time, and the stream starts at [t0]. *)
Definition in_time (x : Env * Cells * ListenStimulus) : Prop :=
  sane x.2 = true
  /\ match x.2 with
     | Tick => now x.1.1 - t0 < CLIPBOARD_TRANSFER_TIMEOUT
     | FromListener (Msg (ProtoEvent.ClipboardStart _ _ _) a)
     | FromListener (Msg (ProtoEvent.ClipboardImageStart _ _ _ _ _) a) => a = addr -> now x.1.1 = t0
     | _ => True
     end.

Lemma waiting_frame k t t' : waiting k t -> clipboard_transfers t' !! key = clipboard_transfers t !! key -> waiting k t'.
Proof. intros (tr & Hl & Hp) E. exists tr. by rewrite E. Qed.
Lemma receive_chunk_other key' index piece l :
  key' <> key -> transfers (receive_chunk key' index piece l).1 !! key = transfers l !! key.
Proof.
  intros Hne. unfold receive_chunk, look. destruct (transfers l !! key') as [tr|]; [|done].
  destruct (take_chunk index piece tr) as [tr'|]; [|cbn; by rewrite lookup_delete_ne].
  destruct (next tr' =? chunks tr'); [|cbn; by rewrite lookup_insert_ne].
  destruct (if _ =? _ then _ else _); cbn; by rewrite lookup_delete_ne.
Qed.
Lemma others_start a i tr m : a <> addr -> start_clipboard_transfer a i tr m !! key = m !! key.
Proof.
  intros Hne. unfold start_clipboard_transfer. rewrite lookup_insert_ne by congruence.
  apply option_eq. intros x. rewrite map_lookup_filter_Some. cbn. split; [by intros [? _]|by split].
Qed.

(** Whatever else happens. *)
Lemma waits_on env c x k t :
  takes t x = true -> in_time (env, c, x) -> messages_of addr [(env, c, x)] = [] -> waiting k t ->
  waiting k (lt (listen_step env x (Build_Listen t c)).1).
Proof.
  intros Ht [Hs Hi] Hms Hw. eapply waiting_frame; [exact Hw|]. cbn [snd] in Hs.
  rewrite (listen_step_taken env x (Build_Listen t c) Ht).
  assert (Hsp : forall act, spares act -> transfers (act (Build_Listen t c)).1 !! key = clipboard_transfers t !! key).
  { intros act Ha. by destruct (Ha (Build_Listen t c)) as [-> _]. }
  destruct x as [[event a|a fp|fp]|e|r|r|].
  - rewrite handle_msg_eq. destruct (clipboard_message event) eqn:Hc.
    + assert (Hne : a <> addr). { intros ->. cbn in Hms. by rewrite bool_decide_eq_true_2, Hc in Hms. }
      destruct event; try done; cbn [handle_message];
        first [rewrite receive_chunk_other by congruence; done|exact (others_start _ _ _ _ Hne)].
    + by destruct (spares_message env event a Hc (hear env a (Build_Listen t c))) as [-> _].
  - apply Hsp. cbn [handle_listen_event]. run_spares.
  - apply Hsp. cbn [handle_listen_event]. run_spares.
  - by apply Hsp, spares_task_event.
  - apply Hsp, spares_request.
  - apply Hsp, spares_published.
  - destruct (tick_transfers env (Build_Listen t c)) as [-> _]. destruct Hw as (tr & Hl & _ & Hst). cbn in Hi |- *.
    rewrite Hl. apply map_lookup_filter_Some. split; [done|]. cbn. lia.
Qed.

Lemma last_chunk tr k :
  partial data dims tr (S k) -> Z.of_nat k * SIZE < len data ->
  (next tr = chunks tr <-> len data <= Z.of_nat (S k) * SIZE).
Proof.
  intros [_ Hn Hc _ _] Hlt. rewrite Hn, Hc. pose proof size_pos as Hs.
  pose proof (div_ceil_spec (len data) SIZE (len_nonneg data) Hs) as [H1 H2].
  destruct (Z.eqb_spec (len data) 0); [nia|]. split; [nia|]. intros H3. nia.
Qed.
(** The next chunk of the stream. *)
Lemma takes_chunk env c k t :
  takes t (FromListener (Msg (chunk_at k) addr)) = true -> waiting k t -> Z.of_nat k * SIZE < len data ->
  let r := listen_step env (FromListener (Msg (chunk_at k) addr)) (Build_Listen t c) in
  if decide (Z.of_nat (S k) * SIZE < len data) then waiting (S k) (lt r.1)
  else Up (PeerClipboard (content_of data dims)) ∈ r.2.
Proof.
  intros Ht (tr & Hl & Hp & Hst) Hlt. cbv zeta. rewrite (listen_step_taken env _ (Build_Listen t c) Ht), handle_msg_eq.
  cbn [handle_message chunk_at]. unfold receive_chunk, look.
  change (transfers (hear env addr (Build_Listen t c))) with (clipboard_transfers t). rewrite Hl.
  destruct (partial_chunk data dims tr k Hp Hlt) as (tr' & -> & Hp' & Hst').
  pose proof (last_chunk tr' k Hp' Hlt) as Hlast. destruct (Z.eqb_spec (next tr') (chunks tr')) as [E|Hne].
  - rewrite decide_False by (apply Hlast in E; lia). rewrite (transfer_content_as_sent _ _ _ _ Hp' E).
    rewrite (partial_complete _ _ _ _ Hp' E), (pt_total _ _ _ _ Hp'), Z.eqb_refl.
    assert (Hv : bool_decide (dims = None) && negb (utf8_valid data) = false).
    { case_bool_decide; [by rewrite Hvalid|done]. }
    rewrite Hv. cbn. by left.
  - rewrite decide_True by lia. exists tr'. cbn. split; [by rewrite lookup_insert_eq|]. split; [done|]. congruence.
Qed.

(** The rest of the stream, among other things. *)
Lemma rest_arrives tr : forall k t,
  all_taken tr t = true -> Forall in_time tr -> waiting k t -> Z.of_nat k * SIZE < len data ->
  messages_of addr tr = drop k (clipboard_chunks (length data) id 0 data) ->
  Up (PeerClipboard (content_of data dims)) ∈ (listen_trace tr t).2.
Proof.
  induction tr as [|[[env c] x] tr IH]; intros k t Hall Hin Hw Hlt Hms.
  - exfalso. assert (E : clipboard_chunks (length data) id 0 data !! k = None).
    { rewrite <- (Nat.add_0_r k), <- lookup_drop, <- Hms. done. }
    rewrite stream_chunk, decide_True in E by done. done.
  - cbn [all_taken] in Hall. apply andb_true_iff in Hall as [Ht Hall]. apply Forall_cons in Hin as [Hx Hin].
    cbn [listen_trace]. destruct (messages_of addr [(env, c, x)]) as [|e es] eqn:Eone.
    + pose proof (waits_on env c x k t Ht Hx Eone Hw) as Hw'.
      destruct (listen_step env x (Build_Listen t c)) as [l outs]. cbn [fst] in *.
      specialize (IH k (lt l) Hall Hin Hw' Hlt). destruct (listen_trace tr (lt l)) as [t' outs'].
      apply elem_of_app. right. apply IH. rewrite <- Hms. change ((env, c, x) :: tr) with ([(env, c, x)] ++ tr).
      unfold messages_of in *. rewrite omap_app. by rewrite Eone.
    + assert (Ee : x = FromListener (Msg e addr) /\ es = []).
      { unfold messages_of in Eone. cbn in Eone. destruct x as [[event a| |]| | | |]; try done. cbn in Eone.
        case_bool_decide; [|done]. cbn in Eone. destruct (clipboard_message event); [|done]. by simplify_eq. }
      destruct Ee as [-> ->]. rewrite (drop_S _ (chunk_at k) k) in Hms by (rewrite stream_chunk; by rewrite decide_True).
      change ((env, c, FromListener (Msg e addr)) :: tr) with ([(env, c, FromListener (Msg e addr))] ++ tr) in Hms.
      unfold messages_of in Hms. rewrite omap_app in Hms. unfold messages_of in Eone. rewrite Eone in Hms.
      cbn [app] in Hms. injection Hms as -> Hms.
      pose proof (takes_chunk env c k t Ht Hw Hlt) as H1. cbv zeta in H1.
      destruct (listen_step env _ (Build_Listen t c)) as [l outs]. cbn [fst snd] in *.
      destruct (decide _) as [Hlt'|Hge].
      * specialize (IH (S k) (lt l) Hall Hin H1 Hlt' Hms). destruct (listen_trace tr (lt l)). apply elem_of_app. by right.
      * destruct (listen_trace tr (lt l)). apply elem_of_app. by left.
Qed.

(** The whole stream. *)
Lemma stream_arrives ms tr : forall t,
  stream_clipboard id data dims = Some ms -> data <> [] ->
  all_taken tr t = true -> Forall in_time tr -> messages_of addr tr = ms ->
  Up (PeerClipboard (content_of data dims)) ∈ (listen_trace tr t).2.
Proof.
  unfold stream_clipboard. destruct (_ <? _); [done|]. intros t [= <-] Hne. revert t.
  assert (Hlt : Z.of_nat 0 * SIZE < len data).
  { destruct data; [done|]. unfold len. cbn. lia. }
  induction tr as [|[[env c] x] tr IH]; intros t Hall Hin Hms; [done|].
  cbn [all_taken] in Hall. apply andb_true_iff in Hall as [Ht Hall]. apply Forall_cons in Hin as [Hx Hin].
  cbn [listen_trace]. change ((env, c, x) :: tr) with ([(env, c, x)] ++ tr) in Hms.
  unfold messages_of in Hms. rewrite omap_app in Hms. fold (messages_of addr tr) in Hms.
  fold (messages_of addr [(env, c, x)]) in Hms. destruct (messages_of addr [(env, c, x)]) as [|e es] eqn:Eone.
  - specialize (IH (lt (listen_step env x (Build_Listen t c)).1) Hall Hin Hms).
    destruct (listen_step env x (Build_Listen t c)) as [l outs]. cbn [fst] in *.
    destruct (listen_trace tr (lt l)). apply elem_of_app. by right.
  - assert (Ee : x = FromListener (Msg e addr) /\ es = []).
    { unfold messages_of in Eone. cbn in Eone. destruct x as [[event a| |]| | | |]; try done. cbn in Eone.
      case_bool_decide; [|done]. cbn in Eone. destruct (clipboard_message event); [|done]. by simplify_eq. }
    destruct Ee as [-> ->]. cbn [app] in Hms. injection Hms as Ee Hms.
    assert (Hw : waiting 0 (lt (listen_step env (FromListener (Msg e addr)) (Build_Listen t c)).1)).
    { rewrite (listen_step_taken env _ (Build_Listen t c) Ht), handle_msg_eq. destruct Hx as [_ Hx]. cbn [snd fst] in Hx.
      exists (new_transfer env (kind_of dims) (len data) (div_ceil (len data) SIZE)).
      destruct dims as [[w h]|]; subst e; cbn; (split; [apply lookup_insert_eq|]); (split; [apply partial_start|by apply Hx]). }
    destruct (listen_step env _ (Build_Listen t c)) as [l outs]. cbn [fst] in *.
    pose proof (rest_arrives tr 0 (lt l) Hall Hin Hw Hlt Hms) as H1. destruct (listen_trace tr (lt l)). apply elem_of_app. by right.
Qed.
End arrival.

(** ** The daemons of the peers *)

(** What a daemon streamed under an id. *)
Definition stream_under (outs : list ServiceOutput) (id : Z) : option (bytes * option (Z * Z)) :=
  head (omap (fun o => match o with
                       | Stream _ i data dims => if i =? id then Some (data, dims) else None
                       | _ => None
                       end) outs).
Lemma stream_under_Some outs id data dims :
  stream_under outs id = Some (data, dims) -> exists handle, Stream handle id data dims ∈ outs.
Proof.
  unfold stream_under. induction outs as [|o outs IH]; cbn; [done|].
  destruct o as [| | | |h i d' dm| |]; cbn; try (intros Hin; destruct (IH Hin) as [h' ?]; exists h'; by right).
  destruct (Z.eqb_spec i id) as [->|]; cbn; [intros [= -> ->]; exists h; by left|].
  intros Hin. destruct (IH Hin) as [h' ?]. exists h'. by right.
Qed.
Lemma stream_under_unique outs handle id data dims :
  NoDup (stream_ids outs) -> Stream handle id data dims ∈ outs -> stream_under outs id = Some (data, dims).
Proof.
  unfold stream_under. induction outs as [|o outs IH]; [by intros _ []%not_elem_of_nil|].
  assert (Hids : forall h d dm, Stream h id d dm ∈ outs -> id ∈ stream_ids outs).
  { intros h d dm Hin. apply list_elem_of_omap. by exists (Stream h id d dm). }
  destruct o as [| | | |h i d' dm| |]; cbn; intros Hnd [Heq|Hin]%elem_of_cons; try done; try (by apply IH).
  - injection Heq as <- <- <- <-. by rewrite Z.eqb_refl.
  - apply NoDup_cons in Hnd as [Hn Hnd]. rewrite (proj2 (Z.eqb_neq i id)); [by apply IH|].
    intros ->. by apply Hn, (Hids handle data dims).
Qed.
Lemma content_of_payload c data dims : payload c = (data, dims) -> content_of data dims = c.
Proof. destruct c; intros [= <- <-]; done. Qed.

(** ** The claim *)

Section claim.
Context `{!HashOrder}.
(** Each peer with the state its daemon started in and what happened to it. *)
Context (start : SocketAddr -> ClipboardService)
  (life : SocketAddr -> list (ClientManager * option rstring * ClipboardEvent)).
Abbreviation said a := (clipboard_run (life a) (start a)).2.

(** A clipboard message is one of a stream of that peer's daemon. *)
Definition from_daemon (x : Env * Cells * ListenStimulus) : Prop :=
  sane x.2 = true
  /\ match x.2 with
     | FromListener (Msg event addr) =>
         clipboard_message event = true ->
         exists handle id data dims ms, Stream handle id data dims ∈ said addr
           /\ stream_clipboard id data dims = Some ms /\ event ∈ ms
     | _ => True
     end.

Lemma message_id_of id data dims ms event :
  stream_clipboard id data dims = Some ms -> event ∈ ms -> message_id event = id.
Proof.
  unfold stream_clipboard. destruct (_ <? _); [done|]. intros [= <-] [->|Hin]%elem_of_cons; [by destruct dims as [[]|]|].
  apply list_elem_of_lookup in Hin as (k & Hk). rewrite stream_chunk in Hk. destruct (decide _); [|done]. by injection Hk as <-.
Qed.
Lemma from_daemon_honest tr :
  (forall a, NoDup (stream_ids (said a))) -> Forall from_daemon tr ->
  Forall (honest (fun a => stream_under (said a))) tr.
Proof.
  intros Hnd Htr. eapply Forall_impl; [exact Htr|]. intros [[env c] x] [Hs Hx]. split; [done|]. cbn [snd] in *.
  destruct x as [[event addr| |]| | | |]; try done. intros Hc. destruct (Hx Hc) as (h & id & data & dims & ms & Hin & Hst & He).
  exists data, dims, ms. rewrite (message_id_of id data dims ms event Hst He). split; [|done].
  by eapply stream_under_unique.
Qed.

(** C12: a clipboard arrives as it was copied, or not at all.  Every clipboard
    message the listen task gets is one of a stream that the daemon of its sender
    made, in any life of that daemon that takes fewer than 2^63 transfer ids; of
    those messages any may be lost, repeated or reordered, and everything else the
    listen task handles may come between.  Then every clipboard reported to the
    service is, byte for byte and with its dimensions, one that the desktop or the
    back end of a peer had reported as copied there, and not an empty one.  And
    from any state reached, a stream of a clipboard that is not empty (and is
    UTF-8, if a text) whose messages all come, in order, with no other clipboard
    message of that peer between them and no tick of the watchdog later than thirty
    seconds, is reported. *)
Theorem clipboards_arrive_as_copied (tr : trace)
    (Hids : forall a, id_range (start a) /\ 2 * run_taken (life a) (start a) < 2 ^ 64)
    (Hh : Forall from_daemon tr) :
  let r := listen_trace tr (lt new_listen) in
  (forall content, Up (PeerClipboard content) ∈ r.2 ->
     (payload content).1 <> []
     /\ exists addr m provider e, (m, provider, e) ∈ life addr /\ copied_here e content)
  /\ (forall addr id content ms t0 tr',
     stream_clipboard id (payload content).1 (payload content).2 = Some ms -> (payload content).1 <> [] ->
     (forall text, content = Text text -> utf8_valid text = true) ->
     all_taken tr' r.1 = true -> Forall (in_time addr t0) tr' -> messages_of addr tr' = ms ->
     Up (PeerClipboard content) ∈ (listen_trace tr' r.1).2).
Proof.
  intros r. split.
  - intros content Hin. set (sent := fun a => stream_under (said a)).
    assert (Hm : arriving sent (clipboard_transfers (lt new_listen))) by (intros addr id x; cbn; by rewrite lookup_empty).
    assert (Hh' : Forall (honest sent) tr).
    { apply from_daemon_honest; [|done]. intros a. destruct (Hids a). by apply run_ids_distinct. }
    destruct (trace_arriving sent tr _ Hh' Hm) as [_ Ho]. rewrite Forall_forall in Ho.
    destruct (Ho _ Hin) as (addr & id & data & dims & Hs & Hne & ->).
    apply stream_under_Some in Hs as [handle Hs]. destruct (run_streams _ _ _ _ _ _ Hs) as (m & p & e & c & Hl & Hc & Hp).
    rewrite (content_of_payload c data dims Hp), Hp. split; [done|]. by exists addr, m, p, e.
  - intros addr id content ms t0 tr' Hst Hne Hv Hall Hin Hms.
    destruct (payload content) as [data dims] eqn:Hp. cbn [fst snd] in *.
    rewrite <- (content_of_payload content data dims Hp). eapply stream_arrives; [|done..].
    intros ->. destruct content; [|done]. injection Hp as <-. by apply Hv.
Qed.
End claim.

(** A peer copies a picture, streamed in two chunks; a tick comes between them. *)
Module Picture.
#[local] Existing Instance list_order.
Definition peer : SocketAddr := Build_SocketAddr (IpAddr.V4 1) 5353 0 0.
Definition env : Env :=
  {| now := 0; certificate := fun _ => None; port_changed := fun p => Ok p; local_commit := [] |}.
Definition picture : ClipboardContent := Image 4 1 (repeat 7 (Z.to_nat SIZE + 4)).
Definition calm : Cells := Build_Cells false false true false false.
Definition says (e : ProtoEvent) : Env * Cells * ListenStimulus := (env, calm, FromListener (Msg e peer)).
(** The peer's daemon has one client that takes clipboards. *)
Definition clients : ClientManager :=
  match add_client new_manager with
  | Some (handle, m) => set_remote_ready handle true (set_alive handle true m)
  | None => new_manager
  end.
Definition fresh (_ : SocketAddr) : ClipboardService := Build_ClipboardService true true true [] false None 8.
Definition life (a : SocketAddr) : list (ClientManager * option rstring * ClipboardEvent) :=
  if bool_decide (a = peer) then [(clients, None, DesktopAnswered (Some picture))] else [].
Definition stream : list ProtoEvent := default [] (stream_clipboard 9 (payload picture).1 (payload picture).2).
Definition arrival : trace :=
  match says <$> stream with
  | start :: first :: rest => start :: first :: (env, calm, Tick) :: rest
  | l => l
  end.
(** The last chunk alone came before. *)
Definition before : trace := says <$> drop 2 stream.

Lemma clipboards_arrive_as_copied_witness :
  Up (PeerClipboard picture) ∈ (listen_trace arrival (listen_trace before (lt new_listen)).1).2.
Proof.
  assert (Hids : forall a, id_range (fresh a) /\ 2 * run_taken (life a) (fresh a) < 2 ^ 64).
  { intros a. split; [split; [discriminate|reflexivity]|]. unfold life. destruct (bool_decide (a = peer)); vm_compute; reflexivity. }
  assert (Hs : stream_clipboard 9 (payload picture).1 (payload picture).2 = Some stream) by (vm_compute; reflexivity).
  assert (Hh : Forall (from_daemon fresh life) before).
  { constructor; [|constructor]. split; [reflexivity|]. intros _.
    exists 0, 9, (payload picture).1, (payload picture).2, stream.
    split; [vm_compute; right; left|]. split; [exact Hs|]. right. right. left. }
  apply (proj2 (clipboards_arrive_as_copied fresh life before Hids Hh) peer 9 picture stream 0 arrival Hs).
  - discriminate.
  - discriminate.
  - vm_compute; reflexivity.
  - repeat constructor.
  - vm_compute; reflexivity.
Defined.
End Picture.
