(* ===== verification/Actions.v ===== *)
(** * Actions: a state and what is put out, in order

    Handlers that change a state and put out effects, as state transformers with
    a list of effects, and triples over them: from a state with the precondition
    an action puts out only what is allowed and ends with the postcondition. *)

From S2P Require Import Prelude.

Section actions.
Context {S O : Type}.

Definition act : Type := S -> S * list O.
Definition nothing : act := fun s => (s, []).
Definition out (o : O) : act := fun s => (s, [o]).
Definition next_act (a b : act) : act := fun s =>
  let (s, before) := a s in let (s, after) := b s in (s, before ++ after).
Definition modify (f : S -> S) : act := fun s => (f s, []).
Definition with_state (f : S -> act) : act := fun s => f s s.
Definition only_when (b : bool) (a : act) : act := if b then a else nothing.
Fixpoint each {A} (f : A -> act) (l : list A) : act :=
  match l with [] => nothing | x :: l => next_act (f x) (each f l) end.

Lemma next_act_run a b s :
  next_act a b s = ((b (a s).1).1, (a s).2 ++ (b (a s).1).2).
Proof. unfold next_act. destruct (a s) as [s1 o1]. cbn. by destruct (b s1). Qed.

Definition triple (I : S -> Prop) (P : O -> Prop) (a : act) (J : S -> Prop) : Prop :=
  forall s, I s -> J (a s).1 /\ Forall P (a s).2.

Section rules.
Context (P : O -> Prop).

Lemma triple_nothing (I : S -> Prop) : triple I P nothing I.
Proof. by split; [|constructor]. Qed.
Lemma triple_out (I : S -> Prop) o : P o -> triple I P (out o) I.
Proof. intros Ho s Hs. split; [done|]. by repeat constructor. Qed.
Lemma triple_next I J K a b : triple I P a J -> triple J P b K -> triple I P (next_act a b) K.
Proof.
  intros Ha Hb s Hs. rewrite next_act_run. destruct (Ha s Hs) as [H1 H2], (Hb _ H1) as [H3 H4].
  split; [done|]. by apply Forall_app.
Qed.
Lemma triple_modify (I J : S -> Prop) f : (forall s, I s -> J (f s)) -> triple I P (modify f) J.
Proof. intros Hf s Hs. split; [by apply Hf|constructor]. Qed.
Lemma triple_with I J f : (forall s, I s -> triple (fun s' => s' = s) P (f s) J) -> triple I P (with_state f) J.
Proof. intros Hf s Hs. by apply (Hf s Hs s). Qed.
Lemma triple_with_any I J f : (forall s, triple I P (f s) J) -> triple I P (with_state f) J.
Proof. intros Hf s Hs. by apply Hf. Qed.
Lemma triple_when (I J : S -> Prop) b a :
  triple I P a J -> (forall s, I s -> J s) -> triple I P (only_when b a) J.
Proof. destruct b; [done|]. intros _ HIJ s Hs. split; [by apply HIJ|constructor]. Qed.
Lemma triple_each {A} I (f : A -> act) l :
  (forall x, x ∈ l -> triple I P (f x) I) -> triple I P (each f l) I.
Proof.
  induction l as [|x l IH]; intros Hf; [apply triple_nothing|]. eapply triple_next; [apply Hf; by left|].
  apply IH. intros y Hy. apply Hf. by right.
Qed.
Lemma triple_pre (I I' J : S -> Prop) a : (forall s, I s -> I' s) -> triple I' P a J -> triple I P a J.
Proof. intros HI Ha s Hs. by apply Ha, HI. Qed.
Lemma triple_post (I J J' : S -> Prop) a : (forall s, J' s -> J s) -> triple I P a J' -> triple I P a J.
Proof. intros HJ Ha s Hs. destruct (Ha s Hs). by split; [apply HJ|]. Qed.
End rules.
Lemma triple_allowed (P Q : O -> Prop) I J a : (forall o, Q o -> P o) -> triple I Q a J -> triple I P a J.
Proof. intros HPQ Ha s Hs. destruct (Ha s Hs). split; [done|]. by eapply Forall_impl. Qed.
Lemma triple_and (P Q : O -> Prop) I J K a :
  triple I P a J -> triple I Q a K -> triple I (fun o => P o /\ Q o) a (fun s => J s /\ K s).
Proof. intros Ha Hb s Hs. destruct (Ha s Hs), (Hb s Hs). split; [done|]. by apply Forall_and. Qed.
End actions.
Arguments act : clear implicits.

Declare Scope action_scope.
Delimit Scope action_scope with action.
Infix ">>>" := next_act (at level 62, right associativity) : action_scope.
Open Scope action_scope.
