(* ===== verification/PluginRouting.v ===== *)
(** * Plugins: roles, which frames a plugin may send, and its process

    [crates/syntra-core/src/plugins/routing.rs] with the capabilities of
    [crates/syntra-plugin-api/src/manifest.rs]: the provider of a role, the grant
    of a process and the check of its handshake; then
    [crates/syntra-core/src/plugins/process.rs]: the environment a plugin
    inherits, the lines of its error stream that are kept, and which process
    groups are signalled. *)

From stdpp Require Import sorting.
From S2P Require Import Prelude Wire ProtoValid UnixPath FileTransfer PluginApi.

Module PluginRole.
Inductive t := FileClipboard | MountedFileReceive | Pointer.
#[global] Instance t_eq_dec : EqDecision t.
Proof. solve_decision. Defined.
Definition to_nat (role : t) : nat :=
  match role with FileClipboard => 0 | MountedFileReceive => 1 | Pointer => 2 end.
Definition of_nat (n : nat) : option t :=
  match n with 0 => Some FileClipboard | 1 => Some MountedFileReceive | 2 => Some Pointer | _ => None end%nat.
#[global] Program Instance t_countable : Countable t := inj_countable to_nat of_nat _.
Next Obligation. by intros []. Qed.
Definition ALL : list t := [FileClipboard; MountedFileReceive; Pointer].
Definition as_str (role : t) : rstring :=
  match role with
  | FileClipboard => str "file_clipboard"
  | MountedFileReceive => str "mounted_file_receive"
  | Pointer => str "pointer"
  end.
Definition parse (text : rstring) : option t := List.find (fun role => bool_decide (as_str role = text)) ALL.
Definition per_transfer (role : t) : bool := bool_decide (role = MountedFileReceive).
End PluginRole.

Definition URI_LIST_MIME : rstring := str "text/uri-list".
Definition GNOME_COPIED_FILES_MIME : rstring := str "x-special/gnome-copied-files".
Definition PROTOCOL_VERSION : Z := 1.

(** ** Capabilities *)

Definition lists (c : Capabilities) (mime : rstring) : bool := bool_decide (mime ∈ mime_types c).
Definition fills (c : Capabilities) (role : PluginRole.t) : bool :=
  match role with
  | PluginRole.FileClipboard =>
      clipboard_read c && paste c && can_cancel c && lists c URI_LIST_MIME && lists c GNOME_COPIED_FILES_MIME
  | PluginRole.MountedFileReceive =>
      negb (clipboard_read c) && paste c && can_cancel c && requires_live_mount c && lists c URI_LIST_MIME
  | PluginRole.Pointer => pointer_events c
  end.
Definition capability_roles (c : Capabilities) : list PluginRole.t := List.filter (fills c) PluginRole.ALL.
Definition intersect (c approved : Capabilities) : Capabilities := {|
  clipboard_read := clipboard_read c && clipboard_read approved;
  paste := paste c && paste approved;
  can_cancel := can_cancel c && can_cancel approved;
  requires_live_mount := requires_live_mount c && requires_live_mount approved;
  pointer_events := pointer_events c && pointer_events approved;
  mime_types := List.filter (fun mime => bool_decide (mime ∈ mime_types approved)) (mime_types c) |}.

(** ** Grants *)

Record Grant := { granted : Capabilities; granted_roles : list PluginRole.t }.

Definition from_handshake (approved announced : Capabilities) : Grant := {|
  granted := intersect announced approved;
  granted_roles := List.filter (fills announced) (capability_roles approved) |}.
Definition allows (g : Grant) (role : PluginRole.t) : bool :=
  bool_decide (role ∈ granted_roles g) && fills (granted g) role.
Definition permits (g : Grant) (message : Message.t) : bool :=
  let clipboard := allows g PluginRole.FileClipboard in
  let receive := allows g PluginRole.MountedFileReceive in
  match message with
  | Message.Error _ | Message.DeclareSettings _ => true
  | Message.CopyManifest _ | Message.PasteDestination _ | Message.Released _ | Message.ClipboardData _ _ _ => clipboard
  | Message.Progress _ | Message.Completed _ | Message.Cancelled _ => clipboard || receive
  | Message.RangeRequest _ | Message.MountReady _ | Message.Unmounted _ => receive
  | Message.Hello _ _ _ _ _ | Message.PublishFileClipboard _ | Message.RemoteManifest _ | Message.RangeResponse _
  | Message.Cancel _ | Message.Settings _ | Message.ChangeSetting _ _ | Message.OpenSettings _ | Message.Pointer _ => false
  end.

Definition validate_handshake (accepts_id : rstring -> bool) (approved : Capabilities) (message : Message.t)
    (expected_role : option PluginRole.t) : result rstring Grant :=
  match message with
  | Message.Hello protocol_version adapter_id _ capabilities _ =>
      fail_if negb (protocol_version =? PROTOCOL_VERSION) with str "the plugin speaks a different protocol version" in
      fail_if negb (accepts_id adapter_id) with str "the handshake names a different plugin than the one launched" in
      let grant := from_handshake approved capabilities in
      fail_if negb (existsb (allows grant) PluginRole.ALL) with str "the plugin announced nothing it was approved to do" in
      fail_if match expected_role with Some role => negb (allows grant role) | None => false end
        with str "the plugin does not provide the role it was started for" in
      Ok grant
  | _ => Err (str "the first message was not a handshake")
  end.

(** ** The provider of a role *)

Record Candidate := {
  candidate_id : rstring;
  bundled : bool;
  enabled : bool;
  trusted : bool;
  launchable : bool;
}.
Definition eligible (c : Candidate) : bool := enabled c && trusted c && launchable c.

(** Bundled first, then by id. *)
Definition provider_before (a b : Candidate) : Prop :=
  if Bool.eqb (bundled a) (bundled b) then bytes_le (candidate_id a) (candidate_id b) = true else bundled a = true.
#[global] Instance provider_before_dec : RelDecision provider_before.
Proof. intros a b. unfold provider_before. destruct (Bool.eqb _ _); apply _. Defined.
Definition select_provider (candidates : list Candidate) (preferred : option rstring) : option Candidate :=
  let chosen :=
    match preferred with
    | Some wanted => List.find (fun c => bool_decide (candidate_id c = wanted) && eligible c) candidates
    | None => None
    end in
  match chosen with
  | Some found => Some found
  | None => head (merge_sort provider_before (List.filter eligible candidates))
  end.

(** Why a candidate is not the provider; the names of the ids are kept, not put
    into a sentence. *)
Inductive Unavailable :=
| SwitchedOff
| NotApproved
| NotRunnable
| ProviderYouChose (id : rstring)
| ProvidedBy (id : rstring).
Definition unavailable_reason (c : Candidate) (active preferred : option rstring) : option Unavailable :=
  if negb (enabled c) then Some SwitchedOff
  else if negb (trusted c) then Some NotApproved
  else if negb (launchable c) then Some NotRunnable
  else
    match active with
    | Some id =>
        if bool_decide (id = candidate_id c) then None
        else Some (if bool_decide (preferred = Some id) then ProviderYouChose id else ProvidedBy id)
    | None => None
    end.

Definition assign_roles (candidates : gmap PluginRole.t (list Candidate)) (preferences : gmap PluginRole.t rstring)
    : gmap PluginRole.t rstring :=
  foldl (fun active role =>
    match candidates !! role with
    | None => active
    | Some l =>
        match select_provider l (preferences !! role) with
        | Some chosen => <[role := candidate_id chosen]> active
        | None => active
        end
    end) ∅ PluginRole.ALL.

(** ** What a grant allows *)

Lemma role_in_roles c role : role ∈ capability_roles c <-> fills c role = true.
Proof.
  unfold capability_roles. rewrite list_elem_of_In, filter_In. split; [by intros []|]. intros ?. split; [|done].
  apply list_elem_of_In. destruct role; set_solver.
Qed.
Lemma lists_intersect c approved mime :
  lists (intersect c approved) mime = lists c mime && lists approved mime.
Proof.
  unfold lists. cbn. apply Bool.eq_iff_eq_true. rewrite andb_true_iff, !bool_decide_eq_true, !list_elem_of_In, filter_In.
  by rewrite bool_decide_eq_true, list_elem_of_In.
Qed.
(** A role is allowed when the approval and the handshake both cover it: a
    narrowed flag set never earns a role of its own. *)
Lemma grant_is_the_common_part approved announced role :
  allows (from_handshake approved announced) role = fills approved role && fills announced role.
Proof.
  unfold allows. cbn [granted granted_roles from_handshake]. apply Bool.eq_iff_eq_true.
  rewrite !andb_true_iff, bool_decide_eq_true, list_elem_of_In, filter_In, <- list_elem_of_In, role_in_roles.
  split; [tauto|]. intros [H1 H2]. split; [done|].
  destruct role; cbn in *; rewrite ?lists_intersect; boolsplit; rewrite_bools; done.
Qed.

(** The roles that own a frame; [None] for the frames of every plugin. *)
Definition frame_roles (message : Message.t) : option (list PluginRole.t) :=
  match message with
  | Message.Error _ | Message.DeclareSettings _ => None
  | Message.CopyManifest _ | Message.PasteDestination _ | Message.Released _ | Message.ClipboardData _ _ _ =>
      Some [PluginRole.FileClipboard]
  | Message.Progress _ | Message.Completed _ | Message.Cancelled _ =>
      Some [PluginRole.FileClipboard; PluginRole.MountedFileReceive]
  | Message.RangeRequest _ | Message.MountReady _ | Message.Unmounted _ => Some [PluginRole.MountedFileReceive]
  | _ => Some []
  end.
Lemma permits_frame approved announced message :
  permits (from_handshake approved announced) message
  = match frame_roles message with
    | None => true
    | Some roles => existsb (fun role => fills approved role && fills announced role) roles
    end.
Proof. destruct message; cbn; rewrite ?grant_is_the_common_part, ?orb_false_r; done. Qed.

(** ** The provider *)

Lemma eligible_sorted candidates c :
  c ∈ merge_sort provider_before (List.filter eligible candidates) <-> c ∈ candidates /\ eligible c = true.
Proof. rewrite merge_sort_Permutation, !list_elem_of_In, filter_In. done. Qed.
(** A provider is eligible, there is one when any candidate is, and the preferred
    one is taken if it is among them. *)
Lemma select_provider_sound candidates preferred c :
  select_provider candidates preferred = Some c -> c ∈ candidates /\ eligible c = true.
Proof.
  unfold select_provider. destruct (match preferred with Some wanted => _ | None => None end) as [found|] eqn:E.
  - intros [= <-]. destruct preferred as [wanted|]; [|done]. apply find_some in E as [Hin H]. boolsplit.
    by rewrite list_elem_of_In.
  - intros Hh. apply eligible_sorted. destruct (merge_sort _ _); [done|]. injection Hh as <-. by left.
Qed.
Lemma select_provider_complete candidates preferred :
  select_provider candidates preferred = None -> forall c, c ∈ candidates -> eligible c = false.
Proof.
  unfold select_provider. destruct (match preferred with Some wanted => _ | None => None end) as [found|]; [done|].
  intros Hh c Hc. destruct (eligible c) eqn:E; [|done]. assert (Hin : c ∈ merge_sort provider_before (List.filter eligible candidates))
    by by apply eligible_sorted. by destruct (merge_sort _ _); [apply elem_of_nil in Hin|].
Qed.
Lemma select_provider_preferred candidates wanted c :
  c ∈ candidates -> candidate_id c = wanted -> eligible c = true ->
  exists found, select_provider candidates (Some wanted) = Some found /\ candidate_id found = wanted.
Proof.
  intros Hin Hid He. unfold select_provider. destruct (List.find _ _) as [found|] eqn:E.
  - exists found. split; [done|]. apply find_some in E as [_ H]. boolsplit. by case_bool_decide.
  - eapply find_none in E; [|by apply list_elem_of_In]. by rewrite He, bool_decide_true in E.
Qed.

(** ** The environment *)

Definition PASSED_VARIABLES : list rstring := str <$> [
  "PATH"; "HOME"; "USER"; "LOGNAME"; "TMPDIR";
  "LANG"; "LANGUAGE"; "TZ";
  "DISPLAY"; "XAUTHORITY"; "WAYLAND_DISPLAY"; "WAYLAND_SOCKET"; "XDG_RUNTIME_DIR"; "XDG_SESSION_TYPE";
  "XDG_CURRENT_DESKTOP"; "XDG_SESSION_ID"; "XDG_DATA_DIRS"; "XDG_CONFIG_DIRS"; "XDG_CONFIG_HOME";
  "XDG_DATA_HOME"; "XDG_CACHE_HOME"; "XDG_STATE_HOME";
  "DBUS_SESSION_BUS_ADDRESS";
  "XCURSOR_THEME"; "XCURSOR_SIZE"; "GDK_BACKEND"; "QT_QPA_PLATFORM"; "SLINT_BACKEND"; "SLINT_STYLE";
  "LIBGL_ALWAYS_SOFTWARE"; "MESA_LOADER_DRIVER_OVERRIDE";
  "SYSTEMROOT"; "WINDIR"; "APPDATA"; "LOCALAPPDATA"; "USERPROFILE"; "TEMP"; "TMP"]%string.
Definition PASSED_PREFIXES : list rstring := str <$> ["LC_"; "SYNTRA_PLUGIN_"]%string.
Definition NEVER_PASSED : list rstring := str <$> [
  "LD_PRELOAD"; "LD_LIBRARY_PATH"; "LD_AUDIT"; "DYLD_INSERT_LIBRARIES"; "DYLD_LIBRARY_PATH"]%string.

Definition passes_variable (name : rstring) : bool :=
  if bool_decide (name ∈ NEVER_PASSED) then false
  else bool_decide (name ∈ PASSED_VARIABLES)
       || existsb (fun prefix => bool_decide (is_Some (strip_prefix prefix name))) PASSED_PREFIXES.

(** The variables of the daemon, as pairs of bytes. *)
Definition filtered_environment (source : list (rstring * rstring)) : list (rstring * rstring) :=
  List.filter (fun '(name, _) => match to_str name with Some name => passes_variable name | None => false end) source.

(** ** Diagnostic lines *)

Definition DIAGNOSTIC_LINES : nat := 20.
Definition DIAGNOSTIC_WIDTH : nat := 200.

(** [str::chars], each character as the bytes of its encoding: a byte of the form
    [10xxxxxx] belongs to the character before it. *)
Definition continues (b : Z) : bool := (128 <=? b) && (b <? 192).
Fixpoint chars (s : rstring) : list rstring :=
  match s with
  | [] => []
  | b :: s =>
      match chars s with
      | (c :: char) :: rest => if continues c then (b :: c :: char) :: rest else [b] :: (c :: char) :: rest
      | rest => [b] :: rest
      end
  end.
(** [char::is_control]: the category Cc *)
Definition is_control (char : rstring) : bool :=
  match char with
  | [b] => (b <? 32) || (b =? 127)
  | [b; c] => (b =? 194) && (c <? 160)
  | _ => false
  end.
Definition TAB : rstring := [9].
Definition ELLIPSIS : rstring := [226; 128; 166].

Definition sanitize_line (line : rstring) : rstring :=
  let kept := List.filter (fun char => negb (is_control char) || bool_decide (char = TAB)) (chars line) in
  let text := trim (mjoin ((fun char => if bool_decide (char = TAB) then [32] else char) <$> kept)) in
  if (DIAGNOSTIC_WIDTH <? length (chars text))%nat then mjoin (take DIAGNOSTIC_WIDTH (chars text)) ++ ELLIPSIS
  else text.

(** The ring of lines of a plugin, oldest first. *)
Definition Diagnostics : Type := list rstring.
Definition diagnostics_push (ring : Diagnostics) (line : rstring) : Diagnostics :=
  let line := sanitize_line line in
  if bool_decide (line = []) then ring
  else (if (length ring =? DIAGNOSTIC_LINES)%nat then tail ring else ring) ++ [line].

(** ** Process groups *)

Definition SIGTERM : Z := 15.
Definition SIGKILL : Z := 9.
(** [kill(-pid, signal)], or nothing *)
Definition signal_group (pid signal : Z) : list (Z * Z) :=
  if 2 ^ 31 <=? pid then [] else if pid <=? 1 then [] else [(- pid, signal)].
Definition terminate_group (pid : Z) : list (Z * Z) := signal_group pid SIGTERM.
Definition kill_group (pid : Z) : list (Z * Z) := signal_group pid SIGKILL.

(** ** Bounds *)

Lemma diagnostics_bounded ring line :
  (length ring <= DIAGNOSTIC_LINES)%nat -> (length (diagnostics_push ring line) <= DIAGNOSTIC_LINES)%nat.
Proof.
  intros H. unfold diagnostics_push. case_bool_decide; [done|]. unfold DIAGNOSTIC_LINES in *.
  destruct (Nat.eqb_spec (length ring) 20); rewrite length_app; cbn; [|lia]. destruct ring; cbn in *; lia.
Qed.

(** Neither the daemon's own group, nor every process, nor init. *)
Lemma signalled_groups pid signal target sig :
  (target, sig) ∈ signal_group pid signal -> target = - pid /\ sig = signal /\ 1 < pid < 2 ^ 31.
Proof.
  unfold signal_group. destruct (Z.leb_spec (2 ^ 31) pid), (Z.leb_spec pid 1); try by intros ?%elem_of_nil.
  intros [=-> ->]%list_elem_of_singleton. lia.
Qed.

(** No variable that injects code is inherited, whatever the daemon holds. *)
Lemma injection_variables_stay source name value :
  (name, value) ∈ filtered_environment source -> (name, value) ∈ source /\ name ∉ NEVER_PASSED.
Proof.
  intros [H1 H2]%list_elem_of_In%filter_In. split; [by apply list_elem_of_In|]. unfold to_str in H2.
  destruct (utf8_valid name); [|done]. unfold passes_variable in H2. by case_bool_decide.
Qed.

Example control_sequences_removed :
  sanitize_line ([27] ++ str "[31mred" ++ [9; 195; 169; 32]) = str "[31mred " ++ [195; 169].
Proof. reflexivity. Qed.
