(* ===== verification/Manifest.v ===== *)
(** * Plugins: manifests

    [crates/syntra-plugin-api/src/manifest.rs]: what a manifest declares, which
    manifests are accepted, which values a setting takes, and where the executable
    of a plugin is.  The JSON of serde is behind the class [ManifestJson]. *)

From S2P Require Import Prelude Wire ProtoValid UnixPath FileTransfer PluginApi PluginRouting.

Definition MANIFEST_VERSION : Z := 1.
Definition MAX_SHORT_TEXT : Z := 256.
Definition MAX_DESCRIPTION : Z := 2048.
Definition MAX_ARGS : Z := 32.
Definition MAX_ARG_LEN : Z := 1024.
Definition MAX_SETTINGS : Z := 64.
Definition MAX_SETTING_OPTIONS : Z := 64.
Definition MAX_MIME_TYPES : Z := 32.
Definition MAX_MANIFEST_BYTES : Z := 256 * 1024.
Definition MAX_RESOURCES : Z := 256.

(** ** Data *)

Record ChoiceDecl := { choice_value : rstring; choice_label : rstring }.
Record SettingDecl := {
  decl_key : rstring;
  decl_label : rstring;
  decl_kind : rstring;
  decl_default : rstring;
  decl_options : list ChoiceDecl;
  decl_min : option Z;
  decl_max : option Z;
}.
#[global] Instance choice_decl_eq_dec : EqDecision ChoiceDecl.
Proof. solve_decision. Defined.
#[global] Instance setting_decl_eq_dec : EqDecision SettingDecl.
Proof. solve_decision. Defined.

Record PluginManifest := {
  mf_manifest_version : Z;
  mf_protocol_version : Z;
  mf_id : rstring;
  mf_name : rstring;
  mf_executable : rstring;
  mf_args : list rstring;
  mf_description : rstring;
  mf_version : rstring;
  mf_author : rstring;
  mf_homepage : option rstring;
  mf_source : option rstring;
  mf_update_url : option rstring;
  mf_license : option rstring;
  mf_bundled : bool;
  mf_on_demand : bool;
  mf_owns_settings : bool;
  mf_capabilities : Capabilities;
  mf_settings : list SettingDecl;
  mf_handshake_ids : list rstring;
  mf_resources : list rstring;
}.

(** [ManifestLoad]; the reason of the second is a sentence about the versions. *)
Inductive ManifestLoad :=
| Valid (manifest : PluginManifest)
| UnsupportedManifest (id name : option rstring) (manifest_version protocol_version : Z).

(** The texts of [ApiError::InvalidManifest] *)
Inductive ManifestProblem :=
| SettingKey | SettingLabel | SettingDefaultLong | SettingOptionCount | SettingOption | SettingRange | SettingKind
| SettingDefault.
Inductive ManifestError :=
| NotJson (reason : rstring)
| VersionRequired
| WrongVersion
| UnsafeId
| NameRequired
| ExecutableRequired
| DescriptionLong
| FieldLong (field : string)
| BadArguments
| BadMimeTypes
| MimeTypesNotUnique
| NothingAdvertised
| TooManySettings
| BadSetting (key : rstring) (problem : ManifestProblem)
| SettingTwice (key : rstring)
| BadHandshakeIds
| TooManyResources
| BadResource (resource : rstring)
| ExecutableUnavailable (reason : rstring)
| ExecutableNotFile
| ExecutableNotExecutable.

(** [serde_json]: a parsed text, its fields, and the typed manifest. *)
Class ManifestJson := {
  JsonValue : Type;
  json_from_str : rstring -> result rstring JsonValue;
  get_u64 : JsonValue -> rstring -> option Z;
  get_str : JsonValue -> rstring -> option rstring;
  manifest_from_value : JsonValue -> result rstring PluginManifest;
  setting_to_json : SettingDecl -> rstring;
}.

(** ** Values of settings *)

(** [i64::from_str]: an optional sign, digits, no overflow *)
Definition i64_min : Z := - 2 ^ 63.
Definition i64_max : Z := 2 ^ 63 - 1.
Definition is_digit (b : Z) : bool := (48 <=? b) && (b <=? 57).
Definition digits_value (s : rstring) : Z := foldl (fun n b => 10 * n + (b - 48)) 0 s.
Definition parse_i64 (s : rstring) : option Z :=
  let '(sign, digits) :=
    match s with 45 :: digits => (-1, digits) | 43 :: digits => (1, digits) | _ => (1, s) end in
  if bool_decide (digits = []) || negb (forallb is_digit digits) then None
  else
    let value := sign * digits_value digits in
    if (i64_min <=? value) && (value <=? i64_max) then Some value else None.

Definition range (d : SettingDecl) : Z * Z := (default i64_min (decl_min d), default i64_max (decl_max d)).
Definition is_hexdigit (b : Z) : bool := is_digit b || ((65 <=? b) && (b <=? 70)) || ((97 <=? b) && (b <=? 102)).
Definition accepts (d : SettingDecl) (value : rstring) : bool :=
  if bool_decide (decl_kind d = str "toggle") then bool_decide (value = str "true") || bool_decide (value = str "false")
  else if bool_decide (decl_kind d = str "choice") then
    existsb (fun option => bool_decide (choice_value option = value)) (decl_options d)
  else if bool_decide (decl_kind d = str "number") then
    match parse_i64 value with
    | Some number => let '(min, max) := range d in (min <=? number) && (number <=? max)
    | None => false
    end
  else if bool_decide (decl_kind d = str "color") then
    match value with
    | [] => true
    | first :: rest => (len value =? 7) && (first =? 35) && forallb is_hexdigit rest
    end
  else false.
Definition effective (d : SettingDecl) (chosen : option rstring) : rstring :=
  match chosen with
  | Some value => if accepts d value then value else decl_default d
  | None => decl_default d
  end.
Definition control (d : SettingDecl) (value : rstring) : option SettingControl :=
  let kind :=
    if bool_decide (decl_kind d = str "toggle") then Some Toggle
    else if bool_decide (decl_kind d = str "color") then Some Color
    else if bool_decide (decl_kind d = str "choice") then
      Some (Choice ((fun o => {| so_value := choice_value o; so_label := choice_label o |}) <$> decl_options d))
    else if bool_decide (decl_kind d = str "number") then let '(min, max) := range d in Some (Number min max)
    else None in
  (fun kind => {| sc_key := decl_key d; sc_label := decl_label d; sc_kind := kind; sc_value := value;
                  sc_default := decl_default d |}) <$> kind.

(** ** Validation *)

Definition is_lowercase (b : Z) : bool := (97 <=? b) && (b <=? 122).
Definition setting_key_ok (key : rstring) : bool :=
  match key with
  | first :: rest => is_lowercase first && forallb (fun b => is_lowercase b || is_digit b || (b =? 95)) rest
  | [] => false
  end.
Definition blank (s : rstring) : bool := bool_decide (trim s = []).
Definition option_ok (o : ChoiceDecl) : bool :=
  negb (bool_decide (choice_value o = []) || blank (choice_label o)
        || (MAX_SHORT_TEXT <? len (choice_value o)) || (MAX_SHORT_TEXT <? len (choice_label o))).
Definition validate_setting (d : SettingDecl) : result ManifestError unit :=
  let invalid problem := BadSetting (decl_key d) problem in
  fail_if negb (setting_key_ok (decl_key d)) || (MAX_SHORT_TEXT <? len (decl_key d)) with invalid SettingKey in
  fail_if blank (decl_label d) || (MAX_SHORT_TEXT <? len (decl_label d)) with invalid SettingLabel in
  fail_if MAX_SHORT_TEXT <? len (decl_default d) with invalid SettingDefaultLong in
  let* _ :=
    if bool_decide (decl_kind d = str "toggle") || bool_decide (decl_kind d = str "color") then Ok tt
    else if bool_decide (decl_kind d = str "choice") then
      fail_if bool_decide (decl_options d = []) || (MAX_SETTING_OPTIONS <? len (decl_options d))
        with invalid SettingOptionCount in
      fail_if negb (forallb option_ok (decl_options d)) with invalid SettingOption in
      Ok tt
    else if bool_decide (decl_kind d = str "number") then
      let '(min, max) := range d in
      fail_if max <? min with invalid SettingRange in Ok tt
    else Err (invalid SettingKind) in
  fail_if negb (bool_decide (decl_default d = [])) && negb (accepts d (decl_default d)) with invalid SettingDefault in
  Ok tt.

Definition is_safe_byte (b : Z) : bool :=
  is_digit b || ((65 <=? b) && (b <=? 90)) || ((97 <=? b) && (b <=? 122)) || (b =? 46) || (b =? 95) || (b =? 45).
Definition is_safe_id (id : rstring) : bool :=
  negb (bool_decide (id = [])) && (len id <=? MAX_SHORT_TEXT) && negb (bool_decide (id = str "."))
  && negb (bool_decide (id = str "..")) && forallb is_safe_byte id.
Definition is_contained_relative (path : rstring) : bool :=
  negb (bool_decide (path = [])) && negb (path_is_absolute path)
  && forallb (fun c => match c with Component.Normal _ | Component.CurDir => true | _ => false end) (components path).

Definition validate_capabilities (caps : Capabilities) : result ManifestError unit :=
  fail_if (MAX_MIME_TYPES <? len (mime_types caps))
      || existsb (fun mime => blank mime || (MAX_SHORT_TEXT <? len mime)) (mime_types caps) with BadMimeTypes in
  fail_if negb (bool_decide (NoDup (mime_types caps))) with MimeTypesNotUnique in
  let handles_clipboard := clipboard_read caps || paste caps in
  let clipboard_ok := handles_clipboard && negb (bool_decide (mime_types caps = [])) in
  let pointer_ok := pointer_events caps && negb handles_clipboard && bool_decide (mime_types caps = []) in
  fail_if negb (clipboard_ok || pointer_ok) with NothingAdvertised in
  Ok tt.

(** The loop over the settings, with the keys already seen *)
Fixpoint validate_settings (keys : list rstring) (settings : list SettingDecl) : result ManifestError unit :=
  match settings with
  | [] => Ok tt
  | d :: settings =>
      let* _ := validate_setting d in
      fail_if bool_decide (decl_key d ∈ keys) with SettingTwice (decl_key d) in
      validate_settings (decl_key d :: keys) settings
  end.
Fixpoint validate_texts (fields : list (string * option rstring)) : result ManifestError unit :=
  match fields with
  | [] => Ok tt
  | (field, value) :: fields =>
      fail_if match value with Some text => MAX_SHORT_TEXT <? len text | None => false end with FieldLong field in
      validate_texts fields
  end.
Definition argument_ok (argument : rstring) : bool := negb ((MAX_ARG_LEN <? len argument) || ProtoValid.contains 0 argument).
Fixpoint validate_resources (resources : list rstring) : result ManifestError unit :=
  match resources with
  | [] => Ok tt
  | resource :: resources =>
      fail_if negb (is_contained_relative resource) with BadResource resource in
      validate_resources resources
  end.
Definition validate (m : PluginManifest) : result ManifestError unit :=
  fail_if negb (mf_manifest_version m =? MANIFEST_VERSION) || negb (mf_protocol_version m =? PROTOCOL_VERSION)
    with WrongVersion in
  fail_if negb (is_safe_id (mf_id m)) with UnsafeId in
  fail_if blank (mf_name m) || (MAX_SHORT_TEXT <? len (mf_name m)) with NameRequired in
  fail_if bool_decide (mf_executable m = []) with ExecutableRequired in
  fail_if MAX_DESCRIPTION <? len (mf_description m) with DescriptionLong in
  let* _ := validate_texts
    [("version", Some (mf_version m)); ("author", Some (mf_author m)); ("homepage", mf_homepage m);
     ("source", mf_source m); ("update_url", mf_update_url m); ("license", mf_license m)]%string in
  fail_if (MAX_ARGS <? len (mf_args m)) || negb (forallb argument_ok (mf_args m)) with BadArguments in
  let* _ := validate_capabilities (mf_capabilities m) in
  fail_if MAX_SETTINGS <? len (mf_settings m) with TooManySettings in
  let* _ := validate_settings [] (mf_settings m) in
  fail_if (8 <? len (mf_handshake_ids m)) || negb (forallb is_safe_id (mf_handshake_ids m)) with BadHandshakeIds in
  fail_if MAX_RESOURCES <? len (mf_resources m) with TooManyResources in
  validate_resources (mf_resources m).

(** ** Reading *)

Section reading.
Context {json : ManifestJson}.

(** [u32::try_from(...).unwrap_or(u32::MAX)] *)
Definition to_u32 (n : Z) : Z := Z.min n u32_max.
Definition text_of (value : JsonValue) (key : rstring) : option rstring :=
  (fun text => mjoin (take (Z.to_nat MAX_SHORT_TEXT) (chars text))) <$> get_str value key.
Definition parse (text : rstring) : result ManifestError ManifestLoad :=
  match json_from_str text with
  | Err reason => Err (NotJson reason)
  | Ok value =>
      match get_u64 value (str "manifest_version") with
      | None => Err VersionRequired
      | Some manifest_version =>
          let manifest_version := to_u32 manifest_version in
          let protocol_version := to_u32 (default 0 (get_u64 value (str "protocol_version"))) in
          if (MANIFEST_VERSION <? manifest_version) || (PROTOCOL_VERSION <? protocol_version) then
            Ok (UnsupportedManifest
                  (match text_of value (str "id") with Some id => if is_safe_id id then Some id else None | None => None end)
                  (text_of value (str "name")) manifest_version protocol_version)
          else
            match manifest_from_value value with
            | Err reason => Err (NotJson reason)
            | Ok manifest => let* _ := validate manifest in Ok (Valid manifest)
            end
      end
  end.
End reading.

(** [Path::parent]: the bytes before the last component, without separators and
    [.] at their end, but with the root *)
Fixpoint trim_back (reversed : rstring) : rstring :=
  match reversed with
  | b :: ((c :: _) as rest) => if (b =? SLASH) || ((b =? 46) && (c =? SLASH)) then trim_back rest else reversed
  | _ => reversed
  end.
Definition parent_path (path : rstring) : option rstring :=
  match last (components path) with
  | Some Component.RootDir | None => None
  | Some c => Some (rev (trim_back (drop (length (as_os_str c)) (trim_back (rev path)))))
  end.
Definition executable_path (m : PluginManifest) (manifest_path : rstring) : rstring :=
  if path_is_absolute (mf_executable m) then mf_executable m
  else push (default (str ".") (parent_path manifest_path)) (mf_executable m).
(** [metadata]: kind and mode of a file *)
Definition resolve_executable (metadata : rstring -> result rstring (bool * Z)) (m : PluginManifest) (manifest_path : rstring)
    : result ManifestError rstring :=
  let* _ := validate m in
  let path := executable_path m manifest_path in
  match metadata path with
  | Err reason => Err (ExecutableUnavailable reason)
  | Ok (is_file, mode) =>
      fail_if negb is_file with ExecutableNotFile in
      fail_if Z.land mode 73 =? 0 with ExecutableNotExecutable in
      Ok path
  end.
Definition argv (m : PluginManifest) : list rstring := mf_args m.
Definition roles (m : PluginManifest) : list PluginRole.t := capability_roles (mf_capabilities m).
Definition accepts_handshake_id (m : PluginManifest) (adapter_id : rstring) : bool :=
  bool_decide (adapter_id = mf_id m) || existsb (fun id => bool_decide (id = adapter_id)) (mf_handshake_ids m).

(** ** What validation gives *)

(** A path of plain components only: joined to a directory it stays below it. *)
Lemma is_contained_relative_spec path :
  is_contained_relative path = true ->
  path_is_absolute path = false
  /\ forall c, c ∈ components path -> c = Component.CurDir \/ exists name, c = Component.Normal name.
Proof.
  unfold is_contained_relative. intros [[_ H1]%andb_prop H2]%andb_prop. split; [by apply negb_true_iff|].
  intros c Hc. rewrite forallb_forall in H2. apply list_elem_of_In in Hc. specialize (H2 c Hc). destruct c; eauto; done.
Qed.
(** An accepted default or choice: what a plugin is told is a value it accepts, or
    its own default, which is empty or accepted. *)
Lemma effective_accepted d chosen :
  validate_setting d = Ok tt -> effective d chosen = [] \/ accepts d (effective d chosen) = true.
Proof.
  unfold validate_setting. destruct (negb (bool_decide (decl_default d = [])) && _) eqn:E; [repeat case_match; done|].
  intros _. assert (Hd : decl_default d = [] \/ accepts d (decl_default d) = true)
    by (apply andb_false_iff in E as [E|E]; apply negb_false_iff in E; [left; by apply bool_decide_eq_true in E|by right]).
  unfold effective. destruct chosen as [value|]; [|done]. destruct (accepts d value) eqn:Ea; [by right|done].
Qed.
Example parent_examples :
  parent_path (str "/a/b.json") = Some (str "/a") /\ parent_path (str "b.json") = Some []
  /\ parent_path (str "/b") = Some (str "/") /\ parent_path (str "a//./b/") = Some (str "a").
Proof. repeat split. Qed.
Example numbers :
  parse_i64 (str "-12") = Some (-12) /\ parse_i64 (str "+7") = Some 7 /\ parse_i64 (str "-") = None
  /\ parse_i64 (str "9223372036854775807") = Some i64_max /\ parse_i64 (str "9223372036854775808") = None.
Proof. repeat split. Qed.
