(* ===== verification/Supervisor.v ===== *)
(** * Plugins: the supervisor of their processes

    [crates/syntra-core/src/plugins/supervisor.rs]: commands of the daemon, what
    the processes write, handshakes, grants, restarts and the end of a process.
    A step reads the [World]: the package on disk and what starting a process
    gives.  What a step does to the outside (events to the daemon, messages
    queued for a plugin, signals) is a list of [Effect]s. *)

From S2P Require Import Manifest Prelude Wire ProtoValid PluginApi FileTransfer TransferService Actions PluginRouting.

#[global] Instance adapter_eq_dec : EqDecision ProcessAdapterId.t.
Proof. solve_decision. Defined.
#[global] Program Instance adapter_countable : Countable ProcessAdapterId.t :=
  inj_countable'
    (fun a => match a with
              | ProcessAdapterId.Resident p => inl p
              | ProcessAdapterId.Settings p => inr (inl p)
              | ProcessAdapterId.Transfer p t => inr (inr (p, t))
              end)
    (fun c => match c with
              | inl p => ProcessAdapterId.Resident p
              | inr (inl p) => ProcessAdapterId.Settings p
              | inr (inr (p, t)) => ProcessAdapterId.Transfer p t
              end) _.
Next Obligation. by intros []. Qed.

(** The JSON of a frame is serde's, base64 is a crate's. *)
Class PluginCodec := {
  decode_line : rstring -> result rstring Message.t;
  base64_decode : rstring -> option bytes;
}.

Definition CHANNEL_CAPACITY : Z := 64.
Definition MAX_PENDING_RANGES : nat := 256.
Definition MAX_RESTARTS : Z := 3.
(** The literal of [PluginChangeSetting] *)
Definition MAX_QUEUED_CHANGES : nat := 64.

Section supervisor.
Context `{!PluginCodec} `{!HashOrder}.

(** ** Launching *)

Record Integrity := { manifest : PluginManifest; manifest_path : rstring }.
Record LaunchSpec := {
  executable : rstring;
  args : list rstring;
  approved : Capabilities;
  handshake_ids : list rstring;
  role : option PluginRole.t;
  digest : rstring;
  integrity : option Integrity;
}.

(** [tokio::process::Command] *)
Record ProcessCommand := {
  program : rstring;
  arguments : list rstring;
  environment : list (rstring * rstring);
}.

(** The digest of the package, the kind and mode of a file, the variables of the
    daemon and the pid of a started process, as they are during one step. *)
Record World := {
  digest_package : Integrity -> rstring -> result rstring rstring;
  file_metadata : rstring -> result rstring (bool * Z);
  vars_os : list (rstring * rstring);
  spawn : ProcessCommand -> result rstring Z;
}.

Definition verify_content (w : World) (spec : LaunchSpec) : result rstring unit :=
  match integrity spec with
  | None => Ok tt
  | Some integrity =>
      match digest_package w integrity (executable spec) with
      | Err error => Err (str "the plugin cannot be checked: " ++ error)
      | Ok current =>
          if bool_decide (current = digest spec) then Ok tt
          else Err (str "the plugin's content changed since it was approved")
      end
  end.
Definition check_executable (w : World) (path : rstring) : result rstring unit :=
  match file_metadata w path with
  | Err kind => Err (str "the plugin executable is unavailable: " ++ kind)
  | Ok (is_file, mode) =>
      fail_if negb is_file with str "the plugin executable is not a regular file" in
      fail_if Z.land mode 73 =? 0 with str "the plugin executable is not executable" in
      Ok tt
  end.

(** A process: the writer's queue, whether the writer task still takes from it,
    and the grant once the handshake is accepted. *)
Record AdapterRuntime := {
  generation : Z;
  writer : list Message.t;
  writer_open : bool;
  process_id : Z;
  spec_of : LaunchSpec;
  grant : option Grant;
}.
Definition runtime_ready (run : AdapterRuntime) : bool := bool_decide (is_Some (grant run)).
Definition with_grant (g : Grant) (run : AdapterRuntime) : AdapterRuntime := {|
  generation := generation run; writer := writer run; writer_open := writer_open run;
  process_id := process_id run; spec_of := spec_of run; grant := Some g |}.
Definition with_writer (queue : list Message.t) (is_open : bool) (run : AdapterRuntime) : AdapterRuntime := {|
  generation := generation run; writer := queue; writer_open := is_open;
  process_id := process_id run; spec_of := spec_of run; grant := grant run |}.

(** The command line and environment of [launch]. *)
Definition launch_command (w : World) (spec : LaunchSpec) (adapter : ProcessAdapterId.t) (theme : option rstring)
    : ProcessCommand := {|
  program := executable spec;
  arguments := args spec ++ if is_settings adapter then [str "--settings"] else [];
  environment :=
    let env := filtered_environment (vars_os w) in
    match theme with
    | Some theme =>
        List.filter (fun '(name, _) => negb (bool_decide (name = str "SYNTRA_PLUGIN_THEME"))) env
        ++ [(str "SYNTRA_PLUGIN_THEME", theme)]
    | None => env
    end |}.
Definition launch (w : World) (spec : LaunchSpec) (adapter : ProcessAdapterId.t) (generation : Z)
    (theme : option rstring) : result rstring (AdapterRuntime * Z) :=
  match spawn w (launch_command w spec adapter theme) with
  | Err kind => Err (str "failed to start the plugin: " ++ kind)
  | Ok pid =>
      Ok ({| generation := generation; writer := []; writer_open := true; process_id := pid; spec_of := spec;
             grant := None |}, pid)
  end.

(** ** Commands, events, state *)

Inductive ManagerCommand :=
| StartPlugin (id : rstring) (spec : LaunchSpec) (settings : list (rstring * rstring))
| StartTransfer (id : rstring) (spec : LaunchSpec) (manifest : RemoteManifest)
| StopPlugin (id : rstring)
| RestartPlugin (id : rstring)
| PluginSettings (id : rstring) (settings : list (rstring * rstring))
| PluginChangeSetting (id key value : rstring)
| PluginOpenSettings (id : rstring) (theme : list (rstring * rstring))
| OpenSettingsWindow (id : rstring) (spec : LaunchSpec) (theme : list (rstring * rstring))
| PluginPointerEvent (id : rstring) (event : PluginPointer.t)
| PublishClipboardFiles (id : rstring) (publication : PublishFileClipboard)
| ClipboardDataFor (id transfer_id mime_type value : rstring)
| RangeResponseFor (id : rstring) (response : RangeResponse)
| ReleasedFor (id : rstring) (released : Released)
| UnmountedFor (id : rstring) (unmounted : Unmounted)
| CancelTransfer (adapter : ProcessAdapterId.t) (transfer_id : rstring)
| Shutdown.

Inductive ManagerEvent :=
| Started (adapter : ProcessAdapterId.t) (pid : Z)
| Ready (adapter : ProcessAdapterId.t) (declared : option PluginMetadata) (grant : Grant)
| Stopped (adapter : ProcessAdapterId.t)
| FromPlugin (adapter : ProcessAdapterId.t) (message : Message.t)
| CancelledTransfer (adapter : ProcessAdapterId.t) (transfer_id : rstring)
| Rejected (adapter : option ProcessAdapterId.t) (reason : rstring)
| Exited (adapter : ProcessAdapterId.t) (status : rstring)
| DiagnosticLines (plugin : rstring) (lines : list rstring).

Inductive ProcessEvent :=
| Line (adapter : ProcessAdapterId.t) (generation : Z) (line : rstring)
| Diagnostic (adapter : ProcessAdapterId.t) (generation : Z) (line : rstring)
| Failed (adapter : ProcessAdapterId.t) (generation : Z) (reason : rstring)
| ProcessExited (adapter : ProcessAdapterId.t) (generation : Z) (status : rstring).

Inductive Effect :=
| Event (event : ManagerEvent)
| Queue (adapter : ProcessAdapterId.t) (message : Message.t)
| Spawn (adapter : ProcessAdapterId.t) (spec : LaunchSpec) (command : ProcessCommand)
(** [terminate.send], which makes the waiter end the process and its group *)
| Terminate (adapter : ProcessAdapterId.t) (generation : Z)
| Signal (target signal : Z).

Record PendingRange := { pending_offset : Z; pending_length : Z }.

Record State := {
  processes : gmap ProcessAdapterId.t AdapterRuntime;
  pending_ranges : gmap (rstring * Z) PendingRange;
  pending_messages : gmap ProcessAdapterId.t Message.t;
  owned_transfers : gmap rstring (gset rstring);
  next_generation : Z;
  terminal : gset ProcessAdapterId.t;
  specs : gmap rstring LaunchSpec;
  settings_of : gmap rstring (list (rstring * rstring));
  restarts : gmap rstring Z;
  pending_changes : gmap rstring (list (rstring * rstring));
  diagnostics : gmap rstring Diagnostics;
  stopping : bool;
}.

Definition new : State := {|
  processes := ∅; pending_ranges := ∅; pending_messages := ∅; owned_transfers := ∅; next_generation := 1;
  terminal := ∅; specs := ∅; settings_of := ∅; restarts := ∅; pending_changes := ∅; diagnostics := ∅;
  stopping := false |}.

Definition on_processes f (s : State) : State := {|
  processes := f (processes s); pending_ranges := pending_ranges s; pending_messages := pending_messages s;
  owned_transfers := owned_transfers s; next_generation := next_generation s; terminal := terminal s;
  specs := specs s; settings_of := settings_of s; restarts := restarts s; pending_changes := pending_changes s;
  diagnostics := diagnostics s; stopping := stopping s |}.
Definition on_ranges f (s : State) : State := {|
  processes := processes s; pending_ranges := f (pending_ranges s); pending_messages := pending_messages s;
  owned_transfers := owned_transfers s; next_generation := next_generation s; terminal := terminal s;
  specs := specs s; settings_of := settings_of s; restarts := restarts s; pending_changes := pending_changes s;
  diagnostics := diagnostics s; stopping := stopping s |}.
Definition on_messages f (s : State) : State := {|
  processes := processes s; pending_ranges := pending_ranges s; pending_messages := f (pending_messages s);
  owned_transfers := owned_transfers s; next_generation := next_generation s; terminal := terminal s;
  specs := specs s; settings_of := settings_of s; restarts := restarts s; pending_changes := pending_changes s;
  diagnostics := diagnostics s; stopping := stopping s |}.
Definition on_owned f (s : State) : State := {|
  processes := processes s; pending_ranges := pending_ranges s; pending_messages := pending_messages s;
  owned_transfers := f (owned_transfers s); next_generation := next_generation s; terminal := terminal s;
  specs := specs s; settings_of := settings_of s; restarts := restarts s; pending_changes := pending_changes s;
  diagnostics := diagnostics s; stopping := stopping s |}.
Definition on_generation f (s : State) : State := {|
  processes := processes s; pending_ranges := pending_ranges s; pending_messages := pending_messages s;
  owned_transfers := owned_transfers s; next_generation := f (next_generation s); terminal := terminal s;
  specs := specs s; settings_of := settings_of s; restarts := restarts s; pending_changes := pending_changes s;
  diagnostics := diagnostics s; stopping := stopping s |}.
Definition on_terminal f (s : State) : State := {|
  processes := processes s; pending_ranges := pending_ranges s; pending_messages := pending_messages s;
  owned_transfers := owned_transfers s; next_generation := next_generation s; terminal := f (terminal s);
  specs := specs s; settings_of := settings_of s; restarts := restarts s; pending_changes := pending_changes s;
  diagnostics := diagnostics s; stopping := stopping s |}.
Definition on_specs f (s : State) : State := {|
  processes := processes s; pending_ranges := pending_ranges s; pending_messages := pending_messages s;
  owned_transfers := owned_transfers s; next_generation := next_generation s; terminal := terminal s;
  specs := f (specs s); settings_of := settings_of s; restarts := restarts s; pending_changes := pending_changes s;
  diagnostics := diagnostics s; stopping := stopping s |}.
Definition on_settings f (s : State) : State := {|
  processes := processes s; pending_ranges := pending_ranges s; pending_messages := pending_messages s;
  owned_transfers := owned_transfers s; next_generation := next_generation s; terminal := terminal s;
  specs := specs s; settings_of := f (settings_of s); restarts := restarts s; pending_changes := pending_changes s;
  diagnostics := diagnostics s; stopping := stopping s |}.
Definition on_restarts f (s : State) : State := {|
  processes := processes s; pending_ranges := pending_ranges s; pending_messages := pending_messages s;
  owned_transfers := owned_transfers s; next_generation := next_generation s; terminal := terminal s;
  specs := specs s; settings_of := settings_of s; restarts := f (restarts s); pending_changes := pending_changes s;
  diagnostics := diagnostics s; stopping := stopping s |}.
Definition on_changes f (s : State) : State := {|
  processes := processes s; pending_ranges := pending_ranges s; pending_messages := pending_messages s;
  owned_transfers := owned_transfers s; next_generation := next_generation s; terminal := terminal s;
  specs := specs s; settings_of := settings_of s; restarts := restarts s; pending_changes := f (pending_changes s);
  diagnostics := diagnostics s; stopping := stopping s |}.
Definition on_diagnostics f (s : State) : State := {|
  processes := processes s; pending_ranges := pending_ranges s; pending_messages := pending_messages s;
  owned_transfers := owned_transfers s; next_generation := next_generation s; terminal := terminal s;
  specs := specs s; settings_of := settings_of s; restarts := restarts s; pending_changes := pending_changes s;
  diagnostics := f (diagnostics s); stopping := stopping s |}.
Definition begin_stopping (s : State) : State := {|
  processes := processes s; pending_ranges := pending_ranges s; pending_messages := pending_messages s;
  owned_transfers := owned_transfers s; next_generation := next_generation s; terminal := terminal s;
  specs := specs s; settings_of := settings_of s; restarts := restarts s; pending_changes := pending_changes s;
  diagnostics := diagnostics s; stopping := true |}.

Definition running (s : State) (adapter : ProcessAdapterId.t) : bool := bool_decide (is_Some (processes s !! adapter)).
Definition ready (s : State) (adapter : ProcessAdapterId.t) : bool :=
  match processes s !! adapter with Some run => runtime_ready run | None => false end.
Definition current (s : State) (adapter : ProcessAdapterId.t) (g : Z) : bool :=
  match processes s !! adapter with Some run => generation run =? g | None => false end.

Definition action : Type := act State Effect.
Definition emit (event : ManagerEvent) : action := out (Event event).
Definition reject (adapter : option ProcessAdapterId.t) (reason : rstring) : action := emit (Rejected adapter reason).

(** ** Ending a process *)

Definition stop_adapter (adapter : ProcessAdapterId.t) : action :=
  with_state (fun s =>
    match processes s !! adapter with
    | None => nothing
    | Some run =>
        modify (on_processes (delete adapter)) >>> out (Terminate adapter (generation run))
        >>> each (fun p => out (Signal p.1 p.2)) (kill_group (process_id run))
    end).

Definition cancel_owned (adapter : ProcessAdapterId.t) : action :=
  with_state (fun s =>
    let transfers :=
      match adapter with
      | ProcessAdapterId.Resident plugin => hash_order (elements (default ∅ (owned_transfers s !! plugin)))
      | ProcessAdapterId.Transfer _ transfer_id => [transfer_id]
      | ProcessAdapterId.Settings _ => []
      end in
    modify (match adapter with
            | ProcessAdapterId.Resident plugin => on_owned (delete plugin)
            | _ => id
            end)
    >>> each (fun transfer_id =>
          modify (on_ranges (filter (fun p => p.1.1 <> transfer_id)))
          >>> emit (CancelledTransfer adapter transfer_id)) transfers).

Definition fail_adapter (adapter : ProcessAdapterId.t) (reason : rstring) : action :=
  stop_adapter adapter >>> cancel_owned adapter >>> emit (Exited adapter reason).

(** ** Messages to a plugin *)

(** [mpsc::Sender::try_send]: closed is told before full. *)
Inductive TrySend := Sent | Full | Closed.
Definition try_send (run : AdapterRuntime) : TrySend :=
  if negb (writer_open run) then Closed else if len (writer run) <? CHANNEL_CAPACITY then Sent else Full.
Definition enqueue (adapter : ProcessAdapterId.t) (message : Message.t) : action :=
  modify (on_processes (alter (fun run => with_writer (writer run ++ [message]) (writer_open run) run) adapter))
  >>> out (Queue adapter message).

Definition send_ready (adapter : ProcessAdapterId.t) (message : Message.t) : action :=
  with_state (fun s =>
    match processes s !! adapter with
    | None => reject (Some adapter) (str "the plugin is not running")
    | Some run =>
        if negb (runtime_ready run) then reject (Some adapter) (str "the plugin is not ready")
        else
          match try_send run with
          | Sent => enqueue adapter message
          | Full => fail_adapter adapter (str "the plugin's input queue is full")
          | Closed => fail_adapter adapter (str "the plugin's writer has stopped")
          end
    end).
Definition send_droppable (adapter : ProcessAdapterId.t) (message : Message.t) : action :=
  with_state (fun s =>
    match processes s !! adapter with
    | None => nothing
    | Some run =>
        match try_send run with
        | Sent => enqueue adapter message
        | Full => nothing
        | Closed => fail_adapter adapter (str "the plugin's writer has stopped")
        end
    end).
Definition send_settings (adapter : ProcessAdapterId.t) (settings : list (rstring * rstring)) : action :=
  send_ready adapter (Message.Settings settings).

(** ** Starting a process *)

Definition attempt : Type := State -> State * list Effect * result rstring unit.
Definition settle (a : attempt) (on_ok : action) (on_err : rstring -> action) : action := fun s =>
  match a s with
  | (s, effects, r) =>
      let (s, more) := (match r with Ok _ => on_ok | Err reason => on_err reason end) s in (s, effects ++ more)
  end.
Definition or_reject (a : attempt) (adapter : ProcessAdapterId.t) : action :=
  settle a nothing (reject (Some adapter)).

(** [wrapping_add(1).max(1)] *)
Definition following_generation (g : Z) : Z := Z.max ((g + 1) mod 2 ^ 64) 1.

(** The end of both launches: the generation is used up, then the process is
    started and recorded. *)
Definition start_process (w : World) (spec : LaunchSpec) (adapter : ProcessAdapterId.t) (theme : option rstring)
    : attempt := fun s =>
  let g := next_generation s in
  let s := on_generation following_generation s in
  match launch w spec adapter g theme with
  | Err reason => (s, [], Err reason)
  | Ok (run, pid) =>
      (on_processes (insert adapter run) s,
       [Spawn adapter spec (launch_command w spec adapter theme); Event (Started adapter pid)], Ok tt)
  end.

Definition spawn_adapter (w : World) (adapter : ProcessAdapterId.t) : attempt := fun s =>
  match specs s !! plugin_of adapter with
  | None => (s, [], Err (str "plugin " ++ plugin_of adapter ++ str " has no registered launch"))
  | Some spec =>
      match verify_content w spec with
      | Err reason => (on_specs (delete (plugin_of adapter)) s, [], Err reason)
      | Ok _ =>
          match check_executable w (executable spec) with
          | Err reason => (s, [], Err reason)
          | Ok _ => start_process w spec adapter None (on_diagnostics (insert (plugin_of adapter) []) s)
          end
      end
  end.

Definition NEWLINE : Z := 10.
Definition theme_text (theme : list (rstring * rstring)) : rstring :=
  mjoin ((fun '(name, value) => name ++ str "=" ++ value ++ [NEWLINE])
    <$> List.filter (fun '(name, value) => negb (contains NEWLINE name) && negb (contains NEWLINE value)) theme).
Definition spawn_settings_window (w : World) (id : rstring) (spec : LaunchSpec) (theme : list (rstring * rstring))
    : attempt := fun s =>
  let adapter := ProcessAdapterId.Settings id in
  if running s adapter then (s, [], Ok tt)
  else
    match verify_content w spec with
    | Err reason => (s, [], Err reason)
    | Ok _ =>
        match check_executable w (executable spec) with
        | Err reason => (s, [], Err reason)
        | Ok _ => start_process w spec adapter (Some (theme_text theme)) s
        end
    end.

(** ** Frames of a plugin *)

Definition is_ascii_alphanumeric (b : Z) : bool :=
  ((48 <=? b) && (b <=? 57)) || ((65 <=? b) && (b <=? 90)) || ((97 <=? b) && (b <=? 122)).
Definition valid_transfer_id (value : rstring) : bool :=
  negb (bool_decide (value = [])) && (len value <=? 128)
  && forallb (fun b => is_ascii_alphanumeric b || (b =? 45) || (b =? 95)) value.

Definition message_transfer_id (message : Message.t) : option rstring :=
  match message with
  | Message.CopyManifest m => Some (cm_transfer_id m)
  | Message.PasteDestination m => Some (pd_transfer_id m)
  | Message.Progress m => Some (pg_transfer_id m)
  | Message.RemoteManifest m => Some (rm_transfer_id m)
  | Message.RangeRequest m => Some (rq_transfer_id m)
  | Message.RangeResponse m => Some (rr_transfer_id m)
  | Message.MountReady m => Some (mr_transfer_id m)
  | Message.PublishFileClipboard m => Some (pf_transfer_id m)
  | Message.Released m => Some (rl_transfer_id m)
  | Message.Unmounted m => Some (um_transfer_id m)
  | Message.Completed m => Some (cp_transfer_id m)
  | Message.Cancelled m => Some (cn_transfer_id m)
  | Message.Cancel transfer_id => Some transfer_id
  | Message.ClipboardData transfer_id _ _ => Some transfer_id
  | Message.Hello _ _ _ _ _ | Message.Error _ | Message.Settings _ | Message.DeclareSettings _
  | Message.ChangeSetting _ _ | Message.OpenSettings _ | Message.Pointer _ => None
  end.

Definition MAX_SETTINGS : Z := 64.
Definition MAX_TEXT : Z := 256.
Definition MAX_OPTIONS : Z := 64.
Fixpoint validate_settings_loop (keys : gset rstring) (settings : list SettingControl) : result rstring unit :=
  match settings with
  | [] => Ok tt
  | setting :: rest =>
      let too_long :=
        existsb (fun text => MAX_TEXT <? len text)
          [sc_key setting; sc_label setting; sc_value setting; sc_default setting] in
      fail_if bool_decide (sc_key setting = []) || too_long || bool_decide (sc_key setting ∈ keys)
        with str "plugin declared an invalid setting" in
      let* _ :=
        match sc_kind setting with
        | Choice options =>
            if bool_decide (options = []) || (MAX_OPTIONS <? len options)
               || existsb (fun option => (MAX_TEXT <? len (so_value option)) || (MAX_TEXT <? len (so_label option))) options
            then Err (str "plugin declared an invalid choice") else Ok tt
        | Number min max => if max <? min then Err (str "plugin declared an empty number range") else Ok tt
        | _ => Ok tt
        end in
      validate_settings_loop ({[sc_key setting]} ∪ keys) rest
  end.
Definition validate_declared_settings (settings : list SettingControl) : result rstring unit :=
  fail_if MAX_SETTINGS <? len settings with str "plugin declared too many settings" in
  validate_settings_loop ∅ settings.

(** The transfer a frame is about must be well formed and, for a process of one
    transfer, its own. *)
Definition validate_transfer (adapter : ProcessAdapterId.t) (message : Message.t) : result rstring unit :=
  match message_transfer_id message with
  | Some transfer_id =>
      fail_if negb (valid_transfer_id transfer_id) with str "the plugin emitted an invalid transfer id" in
      match adapter with
      | ProcessAdapterId.Transfer _ owned =>
          fail_if negb (bool_decide (transfer_id = owned))
            with str "the plugin emitted a message for another transfer" in
          Ok tt
      | _ => Ok tt
      end
  | None => match message with Message.Error _ => Ok tt | _ => Err (str "an uncorrelated message") end
  end.
(** A range request is recorded; the entry stays when its id was in use. *)
Definition validate_range (s : State) (message : Message.t) : State * result rstring unit :=
  match message with
  | Message.RangeRequest request =>
      if rq_length request =? 0 then (s, Err (str "zero-length range request"))
      else if (MAX_PENDING_RANGES <=? size (pending_ranges s))%nat then
        (s, Err (str "too many pending range requests"))
      else
        let key := (rq_transfer_id request, rq_request_id request) in
        (on_ranges (insert key {| pending_offset := rq_offset request; pending_length := rq_length request |}) s,
         if bool_decide (is_Some (pending_ranges s !! key)) then Err (str "duplicate range request id") else Ok tt)
  | _ => (s, Ok tt)
  end.
Definition validate_mount (message : Message.t) : result rstring unit :=
  match message with
  | Message.MountReady m =>
      fail_if bool_decide (mr_mount_uri m = []) || bool_decide (mr_uris m = [])
        with str "invalid mount-ready message" in
      Ok tt
  | _ => Ok tt
  end.
Definition validate_inbound (s : State) (adapter : ProcessAdapterId.t) (message : Message.t)
    : State * result rstring unit :=
  match processes s !! adapter ≫= grant with
  | None => (s, Err (str "the process has no grant"))
  | Some g =>
      if negb (permits g message) then (s, Err (str "a frame the plugin was not approved to send"))
      else
        match message with
        | Message.DeclareSettings settings => (s, validate_declared_settings settings)
        | _ =>
            match validate_transfer adapter message with
            | Err reason => (s, Err reason)
            | Ok _ =>
                match validate_range s message with
                | (s, Err reason) => (s, Err reason)
                | (s, Ok _) => (s, validate_mount message)
                end
            end
        end
  end.

(** ** Events of the processes *)

Definition declared_metadata (message : Message.t) : option PluginMetadata :=
  match message with Message.Hello _ _ _ _ metadata => metadata | _ => None end.
Definition accepts_id (plugin : rstring) (spec : LaunchSpec) (announced : rstring) : bool :=
  bool_decide (announced = plugin) || existsb (fun id => bool_decide (id = announced)) (handshake_ids spec).

Definition accept_handshake (adapter : ProcessAdapterId.t) (message : Message.t) : action :=
  with_state (fun s =>
    match processes s !! adapter with
    | None => nothing
    | Some run =>
        let spec := spec_of run in
        match validate_handshake (accepts_id (plugin_of adapter) spec) (approved spec) message (role spec) with
        | Err reason => fail_adapter adapter (str "handshake refused: " ++ reason)
        | Ok g =>
            modify (on_processes (alter (with_grant g) adapter))
            >>> emit (Ready adapter (declared_metadata message) g)
            >>> with_state (fun s =>
                  match pending_messages s !! adapter with
                  | Some pending => modify (on_messages (delete adapter)) >>> send_ready adapter pending
                  | None => nothing
                  end)
            >>> match adapter with
                | ProcessAdapterId.Resident id =>
                    with_state (fun s => send_settings adapter (default [] (settings_of s !! id)))
                    >>> with_state (fun s =>
                          modify (on_changes (delete id))
                          >>> each (fun '(key, value) => send_ready adapter (Message.ChangeSetting key value))
                                (default [] (pending_changes s !! id)))
                | _ => nothing
                end
        end
    end).

Definition process_exit (w : World) (adapter : ProcessAdapterId.t) (reason : rstring) : action :=
  with_state (fun s =>
    let was_terminal := bool_decide (adapter ∈ terminal s) in
    modify (on_terminal (fun t => t ∖ {[adapter]}))
    >>> stop_adapter adapter
    >>> only_when (negb was_terminal) (cancel_owned adapter)
    >>> emit (Exited adapter reason)
    >>> match adapter with
        | ProcessAdapterId.Resident id =>
            with_state (fun s =>
              let attempts := default 0 (restarts s !! id) in
              if negb was_terminal && negb (stopping s) && (attempts <? MAX_RESTARTS)
                 && bool_decide (is_Some (specs s !! id))
              then modify (on_restarts (insert id (attempts + 1))) >>> or_reject (spawn_adapter w adapter) adapter
              else modify (on_restarts (insert id attempts)))
        | _ => nothing
        end).

Definition ends_transfer (message : Message.t) : bool :=
  match message with Message.Completed _ | Message.Cancelled _ | Message.Unmounted _ => true | _ => false end.
(** What an accepted frame changes, and that the daemon is told of it. *)
Definition accept_frame (adapter : ProcessAdapterId.t) (message : Message.t) : action :=
  modify (fun s =>
    if bool_decide (is_Some (transfer_of adapter)) && ends_transfer message
    then on_terminal (fun t => {[adapter]} ∪ t) s else s)
  >>> modify (fun s =>
        match message with
        | Message.Released released =>
            on_owned (alter (fun transfers => transfers ∖ {[rl_transfer_id released]}) (plugin_of adapter)) s
        | _ => s
        end)
  >>> modify (fun s =>
        match message with
        | Message.CopyManifest manifest =>
            on_owned (fun owned =>
              <[plugin_of adapter := {[cm_transfer_id manifest]} ∪ default ∅ (owned !! plugin_of adapter)]> owned) s
        | _ => s
        end)
  >>> emit (FromPlugin adapter message).

Definition handle_line (adapter : ProcessAdapterId.t) (line : rstring) : action :=
  match decode_line line with
  | Err error => fail_adapter adapter (str "malformed message: " ++ error)
  | Ok message =>
      with_state (fun s =>
        if negb (ready s adapter) then accept_handshake adapter message
        else
          match validate_inbound s adapter message with
          | (s, Err reason) => modify (fun _ => s) >>> fail_adapter adapter reason
          | (s, Ok _) => modify (fun _ => s) >>> accept_frame adapter message
          end)
  end.
Definition handle_diagnostic (adapter : ProcessAdapterId.t) (line : rstring) : action :=
  let plugin := plugin_of adapter in
  modify (on_diagnostics (fun d => <[plugin := diagnostics_push (default [] (d !! plugin)) line]> d))
  >>> with_state (fun s => emit (DiagnosticLines plugin (default [] (diagnostics s !! plugin)))).

Definition handle_process_event (w : World) (event : ProcessEvent) : action :=
  with_state (fun s =>
    match event with
    | Diagnostic adapter g line => if current s adapter g then handle_diagnostic adapter line else nothing
    | Line adapter g line => if current s adapter g then handle_line adapter line else nothing
    | Failed adapter g reason | ProcessExited adapter g reason =>
        if current s adapter g then process_exit w adapter reason else nothing
    end).

(** ** Commands of the daemon *)

Definition processes_of (s : State) (plugin : rstring) : list ProcessAdapterId.t :=
  List.filter (fun adapter => bool_decide (plugin_of adapter = plugin)) (hash_order (map_to_list (processes s)).*1).

(** [get_mut(plugin).is_some_and(|transfers| transfers.remove(transfer_id))] *)
Definition owns (s : State) (plugin transfer_id : rstring) : bool :=
  bool_decide (transfer_id ∈ default ∅ (owned_transfers s !! plugin)).
Definition disown (plugin transfer_id : rstring) : action :=
  modify (on_owned (alter (fun transfers => transfers ∖ {[transfer_id]}) plugin)).

Definition handle_start_transfer (w : World) (id : rstring) (spec : LaunchSpec) (manifest : RemoteManifest) : action :=
  let transfer_id := rm_transfer_id manifest in
  if negb (valid_transfer_id transfer_id) then reject None (str "invalid transfer id")
  else
    let adapter := ProcessAdapterId.Transfer id transfer_id in
    with_state (fun s =>
      if running s adapter then reject (Some adapter) (str "duplicate transfer")
      else
        modify (on_specs (insert (plugin_of adapter) spec))
        >>> settle (spawn_adapter w adapter)
              (modify (on_messages (insert adapter (Message.RemoteManifest manifest)))) (reject (Some adapter))).

Definition handle_range_response (id : rstring) (response : RangeResponse) : action :=
  let adapter := ProcessAdapterId.Transfer id (rr_transfer_id response) in
  let key := (rr_transfer_id response, rr_request_id response) in
  with_state (fun s =>
    match pending_ranges s !! key with
    | None => reject (Some adapter) (str "uncorrelated range response")
    | Some pending =>
        modify (on_ranges (delete key))
        >>> if negb (rr_offset response =? pending_offset pending) then
              reject (Some adapter) (str "range response offset mismatch")
              >>> fail_adapter adapter (str "range response offset mismatch")
            else
              match rr_error response with
              | Some _ => send_ready adapter (Message.RangeResponse response)
              | None =>
                  match base64_decode (rr_data_base64 response) with
                  | Some data =>
                      if len data <=? pending_length pending then send_ready adapter (Message.RangeResponse response)
                      else reject (Some adapter) (str "range response exceeds requested length")
                           >>> fail_adapter adapter (str "oversized range response")
                  | None =>
                      reject (Some adapter) (str "range response contains invalid base64")
                      >>> fail_adapter adapter (str "invalid range response")
                  end
              end
    end).

Definition handle_released (id : rstring) (released : Released) : action :=
  let adapter := ProcessAdapterId.Resident id in
  with_state (fun s =>
    if negb (owns s id (rl_transfer_id released)) then reject (Some adapter) (str "release for an unknown transfer")
    else disown id (rl_transfer_id released) >>> send_ready adapter (Message.Released released)).
Definition handle_unmounted (id : rstring) (unmounted : Unmounted) : action :=
  let adapter := ProcessAdapterId.Transfer id (um_transfer_id unmounted) in
  with_state (fun s =>
    if negb (running s adapter) then reject (Some adapter) (str "unmount for an unknown transfer")
    else send_ready adapter (Message.Unmounted unmounted)).
Definition handle_cancel (adapter : ProcessAdapterId.t) (transfer_id : rstring) : action :=
  with_state (fun s =>
    let owned :=
      match adapter with
      | ProcessAdapterId.Resident plugin => owns s plugin transfer_id
      | ProcessAdapterId.Transfer _ owned => bool_decide (owned = transfer_id) && running s adapter
      | ProcessAdapterId.Settings _ => false
      end in
    if negb owned then reject (Some adapter) (str "cancel for an unowned transfer")
    else
      match adapter with ProcessAdapterId.Resident plugin => disown plugin transfer_id | _ => nothing end
      >>> send_ready adapter (Message.Cancel transfer_id)).

Definition mark_terminal (adapter : ProcessAdapterId.t) : action := modify (on_terminal (fun t => {[adapter]} ∪ t)).
Definition handle_stop (id : rstring) : action :=
  with_state (fun s =>
    each (fun adapter => mark_terminal adapter >>> stop_adapter adapter >>> emit (Stopped adapter)) (processes_of s id))
  >>> modify (on_specs (delete id)) >>> modify (on_restarts (delete id)).
Definition handle_restart (w : World) (id : rstring) : action :=
  let resident := ProcessAdapterId.Resident id in
  with_state (fun s => each (fun adapter => mark_terminal adapter >>> stop_adapter adapter) (processes_of s id))
  >>> with_state (fun s =>
        only_when (negb (stopping s) && bool_decide (is_Some (specs s !! id)))
          (modify (on_terminal (fun t => t ∖ {[resident]})) >>> modify (on_restarts (delete id))
           >>> or_reject (spawn_adapter w resident) resident)).
Definition handle_start (w : World) (id : rstring) (spec : LaunchSpec) (settings : list (rstring * rstring)) : action :=
  let adapter := ProcessAdapterId.Resident id in
  with_state (fun s =>
    if running s adapter then modify (on_settings (insert id settings)) >>> send_settings adapter settings
    else
      modify (on_terminal (fun t => t ∖ {[adapter]})) >>> modify (on_specs (insert id spec))
      >>> modify (on_settings (insert id settings)) >>> modify (on_restarts (delete id))
      >>> or_reject (spawn_adapter w adapter) adapter).
Definition handle_change_setting (id key value : rstring) : action :=
  let adapter := ProcessAdapterId.Resident id in
  with_state (fun s =>
    if ready s adapter then send_ready adapter (Message.ChangeSetting key value)
    else
      let queued :=
        List.filter (fun '(k, _) => negb (bool_decide (k = key))) (default [] (pending_changes s !! id)) in
      modify (on_changes (insert id
        (if (length queued <? MAX_QUEUED_CHANGES)%nat then queued ++ [(key, value)] else queued)))).
Definition handle_pointer (id : rstring) (event : PluginPointer.t) : action :=
  let adapter := ProcessAdapterId.Resident id in
  with_state (fun s =>
    only_when match processes s !! adapter ≫= grant with
              | Some g => allows g PluginRole.Pointer
              | None => false
              end (send_droppable adapter (Message.Pointer event))).

Definition handle_command (w : World) (command : ManagerCommand) : action :=
  match command with
  | PublishClipboardFiles id publication =>
      send_ready (ProcessAdapterId.Resident id) (Message.PublishFileClipboard publication)
  | ClipboardDataFor id transfer_id mime_type value =>
      send_ready (ProcessAdapterId.Resident id) (Message.ClipboardData transfer_id mime_type value)
  | StartTransfer id spec manifest => handle_start_transfer w id spec manifest
  | RangeResponseFor id response => handle_range_response id response
  | ReleasedFor id released => handle_released id released
  | UnmountedFor id unmounted => handle_unmounted id unmounted
  | CancelTransfer adapter transfer_id => handle_cancel adapter transfer_id
  | StopPlugin id => handle_stop id
  | RestartPlugin id => handle_restart w id
  | StartPlugin id spec settings => handle_start w id spec settings
  | PluginSettings id settings =>
      modify (on_settings (insert id settings))
      >>> with_state (fun s =>
            only_when (ready s (ProcessAdapterId.Resident id)) (send_settings (ProcessAdapterId.Resident id) settings))
  | PluginChangeSetting id key value => handle_change_setting id key value
  | PluginOpenSettings id theme =>
      with_state (fun s =>
        only_when (ready s (ProcessAdapterId.Resident id))
          (send_ready (ProcessAdapterId.Resident id) (Message.OpenSettings theme)))
  | OpenSettingsWindow id spec theme =>
      with_state (fun s =>
        only_when (negb (stopping s))
          (or_reject (spawn_settings_window w id spec theme) (ProcessAdapterId.Settings id)))
  | PluginPointerEvent id event => handle_pointer id event
  | Shutdown => modify begin_stopping
  end.

(** The end of [run_manager] *)
Definition stop_all : action :=
  with_state (fun s => each stop_adapter (hash_order (map_to_list (processes s)).*1)).

(** ** The supervisor with its tasks

    Each launch has a writer, two readers and a waiter, which share the queue
    [inbox] of process events; [launched] are the processes they belong to.  A
    step is a turn of the loop of [run_manager] or of one of the tasks.  The
    reader of a settings window discards what it reads. *)
Record System := {
  state : State;
  inbox : list ProcessEvent;
  launched : gset (ProcessAdapterId.t * Z);
}.
Definition start : System := {| state := new; inbox := []; launched := ∅ |}.

Inductive Step :=
| Command (w : World) (command : ManagerCommand)
| Take (w : World)
| Wrote (adapter : ProcessAdapterId.t) (generation : Z) (line : rstring)
| WroteError (adapter : ProcessAdapterId.t) (generation : Z) (line : rstring)
| Ended (adapter : ProcessAdapterId.t) (generation : Z) (status : rstring)
| ReaderFailed (adapter : ProcessAdapterId.t) (generation : Z) (reason : rstring)
| Delivered (adapter : ProcessAdapterId.t)
| WriterFailed (adapter : ProcessAdapterId.t) (reason : rstring).

(** The tasks of the processes that run now are started, too. *)
Definition note_launched (s : State) (known : gset (ProcessAdapterId.t * Z)) : gset (ProcessAdapterId.t * Z) :=
  list_to_set ((fun '(adapter, run) => (adapter, generation run)) <$> map_to_list (processes s)) ∪ known.

Definition manager_turn (a : action) (inbox : list ProcessEvent) (y : System) : System * list Effect :=
  let (s, effects) := a (state y) in
  let (s, more) := (if stopping s then stop_all else nothing) s in
  ({| state := s; inbox := inbox; launched := note_launched s (launched y) |}, effects ++ more).
Definition told (event : ProcessEvent) (y : System) : System := {|
  state := state y; inbox := inbox y ++ [event]; launched := launched y |}.
Definition has_room (y : System) : bool := len (inbox y) <? CHANNEL_CAPACITY.
Definition task_of (y : System) (adapter : ProcessAdapterId.t) (g : Z) : bool :=
  bool_decide ((adapter, g) ∈ launched y) && has_room y.

(** [None] when the step cannot be taken. *)
Definition step (y : System) (l : Step) : option (System * list Effect) :=
  match l with
  | Command w command => if stopping (state y) then None else Some (manager_turn (handle_command w command) (inbox y) y)
  | Take w =>
      if stopping (state y) then None
      else
        match inbox y with
        | event :: rest => Some (manager_turn (handle_process_event w event) rest y)
        | [] => None
        end
  | Wrote adapter g line =>
      if task_of y adapter g && negb (is_settings adapter) then Some (told (Line adapter g line) y, []) else None
  | WroteError adapter g line => if task_of y adapter g then Some (told (Diagnostic adapter g line) y, []) else None
  | Ended adapter g status => if task_of y adapter g then Some (told (ProcessExited adapter g status) y, []) else None
  | ReaderFailed adapter g reason =>
      if task_of y adapter g && negb (is_settings adapter) then Some (told (Failed adapter g reason) y, []) else None
  | Delivered adapter =>
      match processes (state y) !! adapter with
      | Some run =>
          match writer run with
          | _ :: rest =>
              if writer_open run then
                Some ({| state := on_processes (insert adapter (with_writer rest true run)) (state y);
                         inbox := inbox y; launched := launched y |}, [])
              else None
          | [] => None
          end
      | None => None
      end
  | WriterFailed adapter reason =>
      match processes (state y) !! adapter with
      | Some run =>
          match writer run with
          | _ :: rest =>
              if writer_open run && has_room y then
                Some (told (Failed adapter (generation run) reason)
                        {| state := on_processes (insert adapter (with_writer rest false run)) (state y);
                           inbox := inbox y; launched := launched y |}, [])
              else None
          | [] => None
          end
      | None => None
      end
  end.

(** What happened so far, the latest step first. *)
Inductive reaches : list (Step * list Effect) -> System -> Prop :=
| Reaches_start : reaches [] start
| Reaches_step past y l y' effects :
    reaches past y -> step y l = Some (y', effects) -> reaches ((l, effects) :: past) y'.
End supervisor.
