(* ===== verification/SupervisorExample.v ===== *)
(** * Plugins: a run of the supervisor

    Runs as lists of steps, and one of them: a clipboard plugin is started,
    shakes hands, offers copied files, crashes and is started again. *)

From S2P Require Import Manifest Prelude PluginApi FileTransfer TransferService Actions PluginRouting Supervisor.

Section runs.
Context {codec : PluginCodec} {order : HashOrder}.

Definition run_step (r : option (list (Step * list Effect) * System)) (l : Step)
    : option (list (Step * list Effect) * System) :=
  match r with
  | Some (past, y) => match step y l with Some (y, effects) => Some ((l, effects) :: past, y) | None => None end
  | None => None
  end.
Definition run_steps (steps : list Step) : option (list (Step * list Effect) * System) :=
  foldl run_step (Some ([], start)) steps.
Definition past_of (steps : list Step) : list (Step * list Effect) := default [] (fst <$> run_steps steps).
Definition system_of (steps : list Step) : System := default start (snd <$> run_steps steps).

Lemma run_steps_reaches steps past y : run_steps steps = Some (past, y) -> reaches past y.
Proof.
  unfold run_steps. revert past y. induction steps as [|l steps IH] using rev_ind; intros past y.
  - intros [= <- <-]. apply Reaches_start.
  - rewrite foldl_app. cbn. destruct (foldl _ _ _) as [[past0 y0]|]; [cbn|done].
    destruct (step y0 l) as [[y1 effects]|] eqn:E; [|done]. intros [= <- <-]. eapply Reaches_step; [by apply IH|done].
Qed.
Lemma possible_run steps :
  match run_steps steps with Some _ => true | None => false end = true -> reaches (past_of steps) (system_of steps).
Proof.
  intros H. unfold past_of, system_of. destruct (run_steps steps) as [[past y]|] eqn:E; [|done].
  by apply (run_steps_reaches steps).
Qed.
Lemma step_effects y l effects : snd <$> step y l = Some effects -> exists y', step y l = Some (y', effects).
Proof. destruct (step y l) as [[y' es]|]; [|done]. intros [= <-]. by exists y'. Qed.
End runs.

Module ClipboardPlugin.
#[local] Existing Instance list_order.

Definition capabilities : Capabilities := {|
  clipboard_read := true; paste := true; can_cancel := true; requires_live_mount := false; pointer_events := false;
  mime_types := [URI_LIST_MIME; GNOME_COPIED_FILES_MIME] |}.
Definition hello : Message.t := Message.Hello 1 (str "clip") (str "Clipboard") capabilities None.
Definition copied : Message.t :=
  Message.CopyManifest {| cm_transfer_id := str "t1"; cm_operation := Operation.Copy; cm_entries := [] |}.

(** Two lines that decode; every other line is malformed. *)
#[global] Instance sample_codec : PluginCodec := {
  decode_line line :=
    if bool_decide (line = str "hello") then Ok hello
    else if bool_decide (line = str "copied") then Ok copied else Err (str "not JSON");
  base64_decode data := Some data;
}.

Definition clip_manifest : PluginManifest := {|
  mf_manifest_version := 1; mf_protocol_version := 1; mf_id := str "clip"; mf_name := str "Clipboard"; mf_executable := str "clip";
  mf_args := [str "--daemon"]; mf_description := []; mf_version := []; mf_author := []; mf_homepage := None; mf_source := None;
  mf_update_url := None; mf_license := None; mf_bundled := false; mf_on_demand := false; mf_owns_settings := false;
  mf_capabilities := capabilities; mf_settings := []; mf_handshake_ids := []; mf_resources := [] |}.
Definition spec : LaunchSpec := {|
  executable := str "/opt/clip"; args := [str "--daemon"]; approved := capabilities; handshake_ids := [];
  role := Some PluginRole.FileClipboard; digest := str "abc";
  integrity := Some {| manifest := clip_manifest; manifest_path := str "/opt/clip.json" |} |}.
Definition world : World := {|
  digest_package _ _ := Ok (str "abc"); file_metadata _ := Ok (true, 493);
  vars_os := [(str "PATH", str "/bin"); (str "LD_PRELOAD", str "/evil.so")];
  spawn _ := Ok 4242 |}.
Definition me : ProcessAdapterId.t := ProcessAdapterId.Resident (str "clip").

Definition start_it : Step := Command world (StartPlugin (str "clip") spec []).
Definition copies : list Step := [start_it; Wrote me 1 (str "hello"); Take world; Wrote me 1 (str "copied")].
Definition crashes : list Step := copies ++ [Take world; Ended me 1 (str "signal 11"); Take world].
End ClipboardPlugin.

(** A plugin that receives files runs once per transfer.  Two runs show marks and
    ranges that outlive their process. *)
Module Receiving.
#[local] Existing Instance list_order.

Definition capabilities : Capabilities := {|
  clipboard_read := false; paste := true; can_cancel := true; requires_live_mount := true; pointer_events := false;
  mime_types := [URI_LIST_MIME] |}.
Definition asks : Message.t :=
  Message.RangeRequest {| rq_transfer_id := str "t1"; rq_request_id := 7; rq_entry_id := 1; rq_offset := 0; rq_length := 10 |}.
#[local] Instance receiving_codec : PluginCodec := {
  decode_line line :=
    if bool_decide (line = str "hello") then Ok (Message.Hello 1 (str "fuse") (str "Mount") capabilities None)
    else if bool_decide (line = str "asks") then Ok asks else Err (str "not JSON");
  base64_decode data := Some data;
}.
Definition spec : LaunchSpec := {|
  executable := str "/opt/fuse"; args := []; approved := capabilities; handshake_ids := [];
  role := Some PluginRole.MountedFileReceive; digest := []; integrity := None |}.
Definition world : World := {|
  digest_package _ _ := Err []; file_metadata _ := Ok (true, 493); vars_os := []; spawn _ := Ok 4242 |}.
Definition me : ProcessAdapterId.t := ProcessAdapterId.Transfer (str "fuse") (str "t1").
Definition receive : Step := Command world (StartTransfer (str "fuse") spec
  {| rm_transfer_id := str "t1"; rm_operation := Operation.Copy; rm_entries := [] |}).

(** The request of a stopped process still counts against the limit of all. *)
Definition asks_then_stops : list Step :=
  [receive; Wrote me 1 (str "hello"); Take world; Wrote me 1 (str "asks"); Take world; Command world (StopPlugin (str "fuse"))].
Example range_outlives_its_process :
  (processes (state (system_of asks_then_stops)) = ∅ /\ size (pending_ranges (state (system_of asks_then_stops))) = 1)%nat.
Proof. split; vm_compute; reflexivity. Qed.

(** The mark of a stopped transfer hides the crash of the next process for it:
    the transfer is not cancelled. *)
Definition stopped_and_again : list Step := [receive; Command world (StopPlugin (str "fuse")); receive; Ended me 2 (str "signal 11")].
Example mark_outlives_its_process :
  (match snd <$> step (system_of stopped_and_again) (Take world) with
   | Some effects => existsb (fun e => match e with Event (CancelledTransfer _ _) => true | _ => false end) effects
   | None => true
   end) = false.
Proof. vm_compute. reflexivity. Qed.

(** A plugin that was only ever asked for a transfer is started as a resident. *)
Example restart_starts_a_resident :
  match snd <$> step (system_of [receive]) (Command world (RestartPlugin (str "fuse"))) with
  | Some effects =>
      existsb (fun e => match e with
        Event (Started a _) => bool_decide (a = ProcessAdapterId.Resident (str "fuse")) | _ => false end) effects
  | None => false
  end = true.
Proof. vm_compute. reflexivity. Qed.
End Receiving.
