(* ===== verification/SupervisorTheorems.v ===== *)
(** * Plugins: the supervisor acts within what was approved

    What one turn of the supervisor may do, against the launches that are
    authorised: processes run an authorised launch, grants are part of its
    approval, and the generations of the processes only grow.  First, what it does
    without starting or hearing a process: ending processes, cancelling transfers
    and queueing messages only take processes, transfers and ranges away
    ([calmer] states). *)

From S2P Require Import Prelude PluginApi TransferService Actions PluginRouting Supervisor.

Section calm.
Context {codec : PluginCodec} {order : HashOrder}.
Implicit Types (s : State) (a : ProcessAdapterId.t) (w : World).

(** The same process, further on. *)
Record same_process (old run : AdapterRuntime) : Prop := {
  same_generation : generation run = generation old;
  same_spec : spec_of run = spec_of old;
  same_grant : grant run = grant old;
  queue_bounded : len (writer run) <= Z.max (len (writer old)) CHANNEL_CAPACITY;
}.
Record calmer (old s : State) : Prop := {
  calm_generation : next_generation s = next_generation old;
  calm_terminal : terminal s = terminal old;
  calm_specs : specs s = specs old;
  calm_settings : settings_of s = settings_of old;
  calm_restarts : restarts s = restarts old;
  calm_diagnostics : diagnostics s = diagnostics old;
  calm_stopping : stopping s = stopping old;
  calm_ranges : pending_ranges s ⊆ pending_ranges old;
  calm_changes : pending_changes s ⊆ pending_changes old;
  calm_processes a run : processes s !! a = Some run ->
    exists run0, processes old !! a = Some run0 /\ same_process run0 run;
}.

#[global] Instance same_process_preorder : PreOrder same_process.
Proof.
  split; [split; try done; lia|]. intros r1 r2 r3 [] []. split; try congruence. lia.
Qed.
#[global] Instance calmer_preorder : PreOrder calmer.
Proof.
  split.
  - intros s. split; try done. intros a run Ha. by exists run.
  - intros s1 s2 s3 C1 C2. destruct C1, C2. split; try congruence; try (by etrans; eauto).
    intros a run Ha. destruct (calm_processes1 a run Ha) as (run2 & H2 & S2).
    destruct (calm_processes0 a run2 H2) as (run1 & H1 & S1). exists run1. split; [done|]. by etrans.
Qed.

(** Effects that neither start a process nor speak for one. *)
Definition quiet (e : Effect) : Prop :=
  match e with
  | Event (Started _ _) | Event (Ready _ _ _) | Event (FromPlugin _ _) | Spawn _ _ _ => False
  | _ => True
  end.

Definition calm (x : action) : Prop := forall s0, triple (calmer s0) quiet x (calmer s0).

Lemma calm_modify f : (forall s, calmer s (f s)) -> calm (modify f).
Proof. intros H s0. apply triple_modify. intros s Hs. by etrans. Qed.
Lemma calm_next (x y : action) : calm x -> calm y -> calm (x >>> y).
Proof. intros Ha Hb s0. by eapply triple_next. Qed.
Lemma calm_with f : (forall s, triple (fun s' => s' = s) quiet (f s) (calmer s)) -> calm (with_state f).
Proof.
  intros Hf s0 s Hs. destruct (Hf s s eq_refl) as [H1 H2]. split; [|done]. cbn. by etrans.
Qed.
Lemma calm_with_any f : (forall s, calm (f s)) -> calm (with_state f).
Proof. intros Hf s0. apply triple_with_any. intros s. apply Hf. Qed.
Lemma calm_from (x : action) s : calm x -> triple (fun s' => s' = s) quiet x (calmer s).
Proof. intros Ha. eapply triple_pre; [|apply Ha]. by intros ? ->. Qed.
Lemma calm_nothing : calm nothing.
Proof. intros s0. apply triple_nothing. Qed.
Lemma calm_out e : quiet e -> calm (out e).
Proof. intros He s0. by apply triple_out. Qed.
Lemma calm_each {A} (f : A -> action) l : (forall x, calm (f x)) -> calm (each f l).
Proof. intros Hf s0. apply triple_each. intros x _. apply Hf. Qed.
Lemma calm_when b (x : action) : calm x -> calm (only_when b x).
Proof. intros Ha. destruct b; [done|]. apply calm_nothing. Qed.

Lemma calmer_processes s f :
  (forall a run, f (processes s) !! a = Some run ->
     exists run0, processes s !! a = Some run0 /\ same_process run0 run) ->
  calmer s (on_processes f s).
Proof. intros H. by split. Qed.

Lemma calmer_delete s a : calmer s (on_processes (delete a) s).
Proof. apply calmer_processes. intros b run [_ H]%lookup_delete_Some. by exists run. Qed.
Lemma calm_stop_adapter a : calm (stop_adapter a).
Proof.
  apply calm_with. intros s. destruct (processes s !! a) as [run|]; [|by apply calm_from, calm_nothing].
  eapply triple_next; [by apply triple_modify; intros ? ->; apply calmer_delete|].
  apply calm_next; [by apply calm_out|]. apply calm_each. intros p. by apply calm_out.
Qed.
Lemma calm_cancel_owned a : calm (cancel_owned a).
Proof.
  apply calm_with_any. intros s. apply calm_next.
  - apply calm_modify. intros s'. destruct a; [split; try done; intros b run H; by exists run|reflexivity..].
  - apply calm_each. intros t. apply calm_next; [|by apply calm_out]. apply calm_modify. intros s'.
    split; try done; [|intros b run H; by exists run]. apply map_filter_subseteq.
Qed.
Lemma calm_reject who reason : calm (reject who reason).
Proof. by apply calm_out. Qed.
Lemma calm_fail_adapter a reason : calm (fail_adapter a reason).
Proof. apply calm_next; [apply calm_stop_adapter|]. apply calm_next; [apply calm_cancel_owned|by apply calm_out]. Qed.

Lemma calm_enqueue a s run message :
  processes s !! a = Some run -> try_send run = Sent -> triple (fun s' => s' = s) quiet (enqueue a message) (calmer s).
Proof.
  intros Hrun Hsent. eapply triple_next; [|by apply calm_out]. apply triple_modify. intros ? ->.
  apply calmer_processes. intros b run'. destruct (decide (a = b)) as [<-|].
  - rewrite lookup_alter_eq, Hrun. intros [= <-]. exists run. split; [done|]. split; try done. cbn.
    unfold try_send in Hsent. destruct (writer_open run); [|done]. cbn in Hsent.
    destruct (Z.ltb_spec (len (writer run)) CHANNEL_CAPACITY); [|done]. rewrite len_app. unfold len at 2. cbn. lia.
  - rewrite lookup_alter_ne by done. intros H. by exists run'.
Qed.
Lemma calm_send_ready a message : calm (send_ready a message).
Proof.
  apply calm_with. intros s. destruct (processes s !! a) as [run|] eqn:Hrun; [|by apply calm_from, calm_reject].
  destruct (runtime_ready run); [|by apply calm_from, calm_reject]. cbn.
  destruct (try_send run) eqn:Hsend; [by eapply calm_enqueue|by apply calm_from, calm_fail_adapter..].
Qed.
Lemma calm_send_droppable a message : calm (send_droppable a message).
Proof.
  apply calm_with. intros s. destruct (processes s !! a) as [run|] eqn:Hrun; [|by apply calm_from, calm_nothing].
  destruct (try_send run) eqn:Hsend;
    [by eapply calm_enqueue|by apply calm_from, calm_nothing|by apply calm_from, calm_fail_adapter].
Qed.
Lemma calm_disown plugin t : calm (disown plugin t).
Proof. apply calm_modify. intros s. split; try done. intros b run H. by exists run. Qed.

Lemma calm_owned f : calm (modify (on_owned f)).
Proof. apply calm_modify. intros s. split; try done. intros b run H. by exists run. Qed.
Lemma calm_messages f : calm (modify (on_messages f)).
Proof. apply calm_modify. intros s. split; try done. intros b run H. by exists run. Qed.
Lemma calm_delete_range key : calm (modify (on_ranges (delete key))).
Proof. apply calm_modify. intros s. split; try done; [apply delete_subseteq|]. intros b run H. by exists run. Qed.
Lemma calm_delete_changes id : calm (modify (on_changes (delete id))).
Proof. apply calm_modify. intros s. split; try done; [apply delete_subseteq|]. intros b run H. by exists run. Qed.
Lemma calm_stop_all : calm stop_all.
Proof. apply calm_with_any. intros s. apply calm_each. apply calm_stop_adapter. Qed.

(** A property that calmer states keep is kept by calm actions. *)
Definition closed (I : State -> Prop) : Prop := forall s s', calmer s s' -> I s -> I s'.
Lemma triple_calm I (P : Effect -> Prop) (x : action) :
  calm x -> closed I -> (forall e, quiet e -> P e) -> triple I P x I.
Proof.
  intros Ha HI HP s Hs. destruct (Ha s s (reflexivity s)) as [H1 H2].
  split; [by eapply HI|]. by eapply Forall_impl.
Qed.
End calm.

Create HintDb calm.
#[export] Hint Resolve calm_nothing calm_stop_adapter calm_cancel_owned calm_reject calm_fail_adapter calm_send_ready
  calm_send_droppable calm_disown calm_owned calm_messages calm_delete_range calm_delete_changes calm_stop_all
  calm_next calm_when : calm.
#[export] Hint Extern 1 (calm (out _)) => apply calm_out; exact I : calm.
#[export] Hint Extern 1 (calm (emit _)) => apply calm_out; exact I : calm.
#[export] Hint Extern 1 (calm (send_settings _ _)) => apply calm_send_ready : calm.
#[export] Hint Extern 2 (calm (with_state _)) => apply calm_with_any; intros ? : calm.
#[export] Hint Extern 2 (calm (each _ _)) => apply calm_each; intros ? : calm.
#[export] Hint Extern 3 (calm (match ?x with _ => _ end)) => destruct x : calm.

Section turns.
Context {codec : PluginCodec} {order : HashOrder}.
Implicit Types (s : State) (a : ProcessAdapterId.t) (w : World).

(** ** What holds of a state *)

(** Which launches of a plugin are authorised, by its id. *)
Definition authority : Type := rstring -> LaunchSpec -> Prop.

Record sane (A : authority) s : Prop := {
  sane_specs p spec : specs s !! p = Some spec -> A p spec;
  sane_processes a run : processes s !! a = Some run -> is_settings a = false -> A (plugin_of a) (spec_of run);
  sane_grants a run g : processes s !! a = Some run -> grant run = Some g ->
    is_settings a = false /\ exists announced, g = from_handshake (approved (spec_of run)) announced;
}.

(** The processes are among those of [p0], by generation, and perhaps one that
    took the generation [n]. *)
Definition from_before (p0 : gmap ProcessAdapterId.t AdapterRuntime) a (run : AdapterRuntime) : Prop :=
  exists run0, p0 !! a = Some run0 /\ generation run = generation run0.
Definition unaged p0 (n : Z) s : Prop :=
  next_generation s = n /\ forall a run, processes s !! a = Some run -> from_before p0 a run.
Definition aged p0 (n : Z) s : Prop :=
  unaged p0 n s
  \/ (next_generation s = following_generation n
      /\ forall a run, processes s !! a = Some run -> generation run = n \/ from_before p0 a run).

Definition before_launch A p0 n s : Prop := sane A s /\ unaged p0 n s.
Definition after_launch A p0 n s : Prop := sane A s /\ aged p0 n s.

Lemma sane_weaken (A A' : authority) s : (forall p spec, A p spec -> A' p spec) -> sane A s -> sane A' s.
Proof. intros H []. split; eauto. Qed.
Lemma before_after A p0 n s : before_launch A p0 n s -> after_launch A p0 n s.
Proof. intros []. split; [done|]. by left. Qed.

Lemma sane_closed A : closed (sane A).
Proof.
  intros s s' C []. split.
  - intros p spec. rewrite (calm_specs _ _ C). apply sane_specs0.
  - intros a run H. destruct (calm_processes _ _ C a run H) as (run0 & H0 & S0).
    rewrite (same_spec _ _ S0). by apply sane_processes0.
  - intros a run g H. destruct (calm_processes _ _ C a run H) as (run0 & H0 & S0).
    rewrite (same_spec _ _ S0), (same_grant _ _ S0). by apply sane_grants0.
Qed.
Lemma calm_from_before s s' :
  calmer s s' -> forall a run, processes s' !! a = Some run ->
  exists run0, processes s !! a = Some run0 /\ generation run = generation run0.
Proof.
  intros C a run H. destruct (calm_processes _ _ C a run H) as (run0 & H0 & S0). exists run0.
  by rewrite (same_generation _ _ S0).
Qed.
Lemma before_closed A p0 n : closed (before_launch A p0 n).
Proof.
  intros s s' C [Hs [Hn Hp]]. split; [by eapply sane_closed|]. split; [by rewrite (calm_generation _ _ C)|].
  intros a run H. destruct (calm_from_before s s' C a run H) as (run0 & H0 & E).
  destruct (Hp a run0 H0) as (run1 & H1 & E1). exists run1. by rewrite E.
Qed.
Lemma after_closed A p0 n : closed (after_launch A p0 n).
Proof.
  intros s s' C [Hs [Hu|[Hn Hp]]].
  - apply before_after. by apply (before_closed A p0 n s s' C).
  - split; [by eapply sane_closed|]. right. split; [by rewrite (calm_generation _ _ C)|].
    intros a run H. destruct (calm_from_before s s' C a run H) as (run0 & H0 & E).
    destruct (Hp a run0 H0) as [Hg|(run1 & H1 & E1)]; [left; congruence|]. right. exists run1. by rewrite E.
Qed.

(** ** What a turn may do *)

(** A process of one transfer speaks of no other. *)
Definition of_own_transfer a (message : Message.t) : Prop :=
  match transfer_of a, message_transfer_id message with
  | Some own, Some transfer_id => transfer_id = own
  | _, _ => True
  end.
(** The package is the approved one and its program can be run. *)
Definition checked w (spec : LaunchSpec) : Prop :=
  verify_content w spec = Ok tt /\ check_executable w (executable spec) = Ok tt.

(** [windows]: the settings windows that were asked for; [heard]: the frames that
    were read. *)
Definition allowed w (A windows : authority) (heard : ProcessAdapterId.t -> Message.t -> Prop) (e : Effect) : Prop :=
  match e with
  | Spawn a spec command =>
      checked w spec /\ (if is_settings a then windows (plugin_of a) spec else A (plugin_of a) spec)
      /\ exists theme, command = launch_command w spec a theme
  | Event (Ready a _ g) =>
      exists spec announced, A (plugin_of a) spec /\ g = from_handshake (approved spec) announced
  | Event (FromPlugin a message) =>
      is_settings a = false /\ heard a message /\ of_own_transfer a message
      /\ exists spec announced, A (plugin_of a) spec /\ permits (from_handshake (approved spec) announced) message = true
  | _ => True
  end.

Section turn.
Context w (A windows : authority) (heard : ProcessAdapterId.t -> Message.t -> Prop)
  (p0 : gmap ProcessAdapterId.t AdapterRuntime) (n : Z).
#[local] Abbreviation pre := (before_launch A p0 n).
#[local] Abbreviation post := (after_launch A p0 n).
#[local] Abbreviation ok := (allowed w A windows heard).

Lemma quiet_allowed e : quiet e -> ok e.
Proof. by destruct e as [[]| | | |]. Qed.
Lemma calm_before x : calm x -> triple pre ok x pre.
Proof. intros. apply triple_calm; auto using before_closed, quiet_allowed. Qed.
Lemma calm_after x : calm x -> triple post ok x post.
Proof. intros. apply triple_calm; auto using after_closed, quiet_allowed. Qed.
Lemma calm_turn x : calm x -> triple pre ok x post.
Proof. intros Hx. eapply triple_post; [apply before_after|]. by apply calm_before. Qed.

(** Fields other than processes, launches and generations do not matter. *)
Lemma before_same s s' :
  processes s' = processes s -> next_generation s' = next_generation s ->
  (forall p spec, specs s' !! p = Some spec -> specs s !! p = Some spec \/ A p spec) -> pre s -> pre s'.
Proof.
  intros E1 E2 E3 [[] [Hn Hp]]. split; [split|split]; rewrite ?E1, ?E2; auto.
  intros p spec H. destruct (E3 p spec H); auto.
Qed.
Lemma modify_other f :
  (forall s, processes (f s) = processes s /\ next_generation (f s) = next_generation s
     /\ forall p spec, specs (f s) !! p = Some spec -> specs s !! p = Some spec \/ A p spec) ->
  triple pre ok (modify f) pre.
Proof. intros Hf. apply triple_modify. intros s Hs. destruct (Hf s) as (?&?&?). by eapply before_same. Qed.

(** ** Starting *)

Lemma triple_settle (I J K : State -> Prop) P (t : attempt) x y :
  (forall s, I s -> K (t s).1.1 /\ Forall P (t s).1.2) -> triple K P x J -> (forall reason, triple K P (y reason) J) ->
  triple I P (settle t x y) J.
Proof.
  intros Ht Hx Hy s Hs. unfold settle. destruct (Ht s Hs) as [H1 H2]. destruct (t s) as [[s1 es] r]. cbn in *.
  assert (H : J ((match r with Ok _ => x | Err reason => y reason end) s1).1
    /\ Forall P ((match r with Ok _ => x | Err reason => y reason end) s1).2) by (destruct r; [by apply Hx|by apply Hy]).
  destruct (_ s1) as [s2 more]. cbn in *. destruct H. split; [done|]. by apply Forall_app.
Qed.

Lemma start_process_turn spec a theme s :
  checked w spec -> (if is_settings a then windows (plugin_of a) spec else A (plugin_of a) spec) ->
  pre s -> post (start_process w spec a theme s).1.1 /\ Forall ok (start_process w spec a theme s).1.2.
Proof.
  intros Hc Ha [[Hsp Hpr Hgr] [Hn Hp]]. unfold start_process, launch.
  destruct (spawn w _) as [pid|kind]; cbn -[following_generation].
  - split.
    + split; [split|]; cbn -[following_generation]; [done| | |].
      * intros b run [[<- <-]|[_ H]]%lookup_insert_Some Hset; [|by apply Hpr]. cbn. by rewrite Hset in Ha.
      * intros b run g [[<- <-]|[_ H]]%lookup_insert_Some; [done|by apply Hgr].
      * right. split; [cbn -[following_generation]; by rewrite Hn|].
        cbn. intros b run [[<- <-]|[_ H]]%lookup_insert_Some; [by left|right]. by apply Hp.
    + constructor; [|by repeat constructor]. split; [done|]. split; [done|]. by exists theme.
  - split; [|constructor]. split; [by split|]. right. split; [cbn -[following_generation]; by rewrite Hn|].
    intros b run H. right. by apply Hp.
Qed.

Lemma spawn_adapter_turn a s :
  is_settings a = false -> pre s -> post (spawn_adapter w a s).1.1 /\ Forall ok (spawn_adapter w a s).1.2.
Proof.
  intros Hset Hs. pose proof Hs as [[Hsp _ _] _]. unfold spawn_adapter.
  destruct (specs s !! plugin_of a) as [spec|] eqn:Espec; [|split; [by apply before_after|constructor]].
  destruct (verify_content w spec) as [[]|] eqn:Ev.
  - destruct (check_executable w (executable spec)) as [[]|] eqn:Ex; [|split; [by apply before_after|constructor]].
    apply start_process_turn; [done|rewrite Hset; by apply Hsp|]. by eapply before_same; [..|exact Hs]; cbn; auto.
  - split; [|constructor]. apply before_after. eapply before_same; [..|exact Hs]; cbn; [done..|].
    intros p spec' [_ H]%lookup_delete_Some. by left.
Qed.
Lemma or_reject_turn t a :
  (forall s, pre s -> post (t s).1.1 /\ Forall ok (t s).1.2) -> triple pre ok (or_reject t a) post.
Proof.
  intros Ht. apply (triple_settle pre post post ok); [done|apply triple_nothing|]. intros reason.
  apply calm_after, calm_reject.
Qed.
Lemma relaunch_turn a : is_settings a = false -> triple pre ok (or_reject (spawn_adapter w a) a) post.
Proof. intros Ha. apply or_reject_turn. intros s. by apply spawn_adapter_turn. Qed.

Lemma settings_window_turn id spec theme :
  windows id spec ->
  triple pre ok (or_reject (spawn_settings_window w id spec theme) (ProcessAdapterId.Settings id)) post.
Proof.
  intros Hwin. apply or_reject_turn. intros s Hs. unfold spawn_settings_window.
  destruct (running s _); [split; [by apply before_after|constructor]|].
  destruct (verify_content w spec) as [[]|] eqn:Ev; [|split; [by apply before_after|constructor]].
  destruct (check_executable w (executable spec)) as [[]|] eqn:Ex; [|split; [by apply before_after|constructor]].
  by apply start_process_turn.
Qed.

(** ** Frames *)

Lemma triple_at J x s : pre s -> triple pre ok x J -> triple (fun s' => s' = s) ok x J.
Proof. intros Hs. apply triple_pre. by intros ? ->. Qed.

Lemma handshake_grant accepts approval message expected g :
  validate_handshake accepts approval message expected = Ok g -> exists announced, g = from_handshake approval announced.
Proof.
  destruct message; try done. cbn. intros H. repeat (destruct (_ : bool) in H; [done|]). injection H as <-. by eexists.
Qed.

Lemma accept_handshake_turn a message :
  is_settings a = false -> triple pre ok (accept_handshake a message) pre.
Proof.
  intros Hset. apply triple_with. intros s Hs. destruct (processes s !! a) as [run|] eqn:Hrun;
    [|by apply triple_at, triple_nothing].
  cbv zeta. destruct (validate_handshake _ _ _ _) as [g|reason] eqn:Hg; [|by apply triple_at, calm_before, calm_fail_adapter].
  pose proof Hs as [[Hsp Hpr Hgr] [Hn Hp]]. destruct (handshake_grant _ _ _ _ _ Hg) as [announced Eg].
  eapply triple_next with (J := pre); [|eapply triple_next with (J := pre)].
  - apply triple_modify. intros ? ->. split; [split; cbn; [done| |]|split; cbn; [done|]].
    + intros b r. destruct (decide (a = b)) as [<-|]; [rewrite lookup_alter_eq, Hrun|rewrite lookup_alter_ne by done; apply Hpr].
      intros [= <-]. cbn. by apply Hpr.
    + intros b r g'. destruct (decide (a = b)) as [<-|]; [rewrite lookup_alter_eq, Hrun|rewrite lookup_alter_ne by done; apply Hgr].
      intros [= <-]. cbn. intros [= <-]. by eauto.
    + intros b r. destruct (decide (a = b)) as [<-|]; [rewrite lookup_alter_eq, Hrun|rewrite lookup_alter_ne by done; apply Hp].
      intros [= <-]. by apply (Hp a run).
  - apply triple_out. exists (spec_of run), announced. split; [by apply Hpr|done].
  - apply calm_before. auto 10 with calm.
Qed.

Lemma validate_range_state s message :
  processes (validate_range s message).1 = processes s /\ next_generation (validate_range s message).1 = next_generation s
  /\ specs (validate_range s message).1 = specs s.
Proof. destruct message; try done. unfold validate_range. by repeat case_match. Qed.
Lemma validate_transfer_own a message u : validate_transfer a message = Ok u -> of_own_transfer a message.
Proof.
  unfold validate_transfer, of_own_transfer. destruct (message_transfer_id message) as [t|]; [|by destruct (transfer_of a)].
  destruct (valid_transfer_id t); [|done]. destruct a; cbn; try done. by case_bool_decide.
Qed.
Lemma validate_inbound_state s a message :
  processes (validate_inbound s a message).1 = processes s
  /\ next_generation (validate_inbound s a message).1 = next_generation s
  /\ specs (validate_inbound s a message).1 = specs s.
Proof.
  unfold validate_inbound. destruct (processes s !! a ≫= grant) as [g|]; [|done].
  destruct (permits g message); [|done]. cbn. pose proof (validate_range_state s message) as Hv.
  destruct message; try done; destruct (validate_transfer _ _); try done;
    destruct (validate_range s _) as [s' []]; exact Hv.
Qed.
Lemma validate_inbound_permits s s' a message u :
  validate_inbound s a message = (s', Ok u) ->
  of_own_transfer a message /\ exists run g, processes s !! a = Some run /\ grant run = Some g /\ permits g message = true.
Proof.
  unfold validate_inbound. destruct (processes s !! a) as [run|]; [cbn|done]. destruct (grant run) as [g|] eqn:Eg; [|done].
  destruct (permits g message) eqn:Ep; [|done]. cbn. intros H. split; [|by exists run, g].
  destruct (validate_transfer a message) as [[]|] eqn:Et; [by eapply validate_transfer_own|].
  destruct message; try done. unfold of_own_transfer. cbn. by destruct (transfer_of a).
Qed.

Lemma accept_frame_turn a message :
  ok (Event (FromPlugin a message)) -> triple pre ok (accept_frame a message) pre.
Proof.
  intros Hok. repeat (eapply triple_next; [|]); [..|by apply triple_out]; apply modify_other; intros s.
  - destruct (_ && _); cbn; auto.
  - destruct message; cbn; auto.
  - destruct message; cbn; auto.
Qed.

Lemma handle_line_turn a line :
  is_settings a = false -> (forall message, decode_line line = Ok message -> heard a message) ->
  triple pre ok (handle_line a line) pre.
Proof.
  intros Hset Hheard. unfold handle_line. destruct (decode_line line) as [message|error] eqn:Ed;
    [|by apply calm_before, calm_fail_adapter].
  apply triple_with. intros s Hs. destruct (ready s a); cbn [negb]; [|by apply triple_at, accept_handshake_turn].
  pose proof (validate_inbound_state s a message) as (E1 & E2 & E3).
  destruct (validate_inbound s a message) as [s' r] eqn:Ev. cbn in E1, E2, E3.
  assert (Hs' : pre s') by (eapply before_same; [done..| |exact Hs]; rewrite E3; auto).
  destruct r as [[]|reason]; (eapply triple_next; [by apply triple_modify; intros ? _; exact Hs'|]);
    [|by apply calm_before, calm_fail_adapter].
  apply accept_frame_turn. destruct (validate_inbound_permits _ _ _ _ _ Ev) as (Hown & run & g & Hrun & Hg & Hp).
  destruct Hs as [[Hsp Hpr Hgr] _]. destruct (Hgr a run g Hrun Hg) as (_ & announced & ->).
  split; [done|]. split; [by apply Hheard|]. split; [done|]. exists (spec_of run), announced. by auto.
Qed.

(** ** Process events and commands *)

Lemma mark_terminal_turn f : triple pre ok (modify (on_terminal f)) pre.
Proof. apply modify_other. intros s. cbn. auto. Qed.
Lemma restarts_turn f : triple pre ok (modify (on_restarts f)) pre.
Proof. apply modify_other. intros s. cbn. auto. Qed.

Lemma process_exit_turn a reason : triple pre ok (process_exit w a reason) post.
Proof.
  apply triple_with_any. intros s. eapply triple_next; [apply mark_terminal_turn|].
  eapply triple_next; [apply calm_before, calm_stop_adapter|].
  eapply triple_next; [apply calm_before, calm_when, calm_cancel_owned|].
  eapply triple_next; [by apply calm_before, calm_out|].
  destruct a; try (by apply calm_turn, calm_nothing). apply triple_with_any. intros s'. cbv zeta. case_match.
  - eapply triple_next; [apply restarts_turn|]. by apply relaunch_turn.
  - eapply triple_post; [apply before_after|]. apply restarts_turn.
Qed.

Lemma handle_process_event_turn event :
  (forall a g line, event = Line a g line ->
     is_settings a = false
     /\ forall message run, decode_line line = Ok message -> p0 !! a = Some run -> generation run = g -> heard a message) ->
  triple pre ok (handle_process_event w event) post.
Proof.
  intros Hline. apply triple_with. intros s Hs.
  destruct event as [a g line|a g line|a g reason|a g reason];
    (destruct (current s a g) eqn:Ec; [|by apply triple_at, calm_turn, calm_nothing]); apply triple_at; try done.
  - destruct (Hline a g line eq_refl) as [Hset Hheard]. eapply triple_post; [apply before_after|].
    apply handle_line_turn; [done|]. intros message Hd. unfold current in Ec.
    destruct (processes s !! a) as [run|] eqn:Hrun; [|done]. destruct Hs as [_ [_ Hp]].
    destruct (Hp a run Hrun) as (run0 & H0 & E). apply (Hheard message run0); [done..|]. lia.
  - eapply triple_post; [apply before_after|]. eapply triple_next; [apply modify_other; intros s'; cbn; by auto|].
    apply calm_before. auto with calm.
  - apply process_exit_turn.
  - apply process_exit_turn.
Qed.

(** What a command must bring: its launch is authorised, its settings window is
    one of those asked for. *)
Definition brings (command : ManagerCommand) : Prop :=
  match command with
  | StartPlugin id spec _ | StartTransfer id spec _ => A id spec
  | OpenSettingsWindow id spec _ => windows id spec
  | _ => True
  end.

Lemma insert_spec_turn id spec : A id spec -> triple pre ok (modify (on_specs (insert id spec))) pre.
Proof.
  intros HA. apply modify_other. intros s. cbn. split; [done|]. split; [done|].
  intros p spec' [[<- <-]|[_ H]]%lookup_insert_Some; auto.
Qed.

Lemma handle_command_turn command : brings command -> triple pre ok (handle_command w command) post.
Proof.
  intros Hb. destruct command as [id spec settings|id spec manifest|id|id|id settings|id key value|id theme|id spec theme
    |id event|id publication|id t mime value|id response|id released|id unmounted|a t|]; cbn [handle_command brings] in *.
  - (* StartPlugin *) apply triple_with_any. intros s. case_match.
    + eapply triple_next; [apply modify_other; intros ?; cbn; by auto|]. apply calm_turn, calm_send_ready.
    + eapply triple_next; [apply mark_terminal_turn|]. eapply triple_next; [by apply insert_spec_turn|].
      eapply triple_next; [apply modify_other; intros ?; cbn; by auto|].
      eapply triple_next; [apply restarts_turn|]. by apply relaunch_turn.
  - (* StartTransfer *) unfold handle_start_transfer. case_match; [by apply calm_turn, calm_reject|].
    apply triple_with_any. intros s. case_match; [by apply calm_turn, calm_reject|].
    eapply triple_next; [by apply insert_spec_turn|].
    eapply triple_settle; [intros ??; by apply spawn_adapter_turn|apply calm_after, calm_messages|].
    intros reason. apply calm_after, calm_reject.
  - (* StopPlugin *) eapply triple_post; [apply before_after|]. eapply triple_next.
    { apply triple_with_any. intros s. apply triple_each. intros a _. eapply triple_next; [apply mark_terminal_turn|].
      apply calm_before. auto with calm. }
    eapply triple_next; [|apply restarts_turn]. apply modify_other. intros s. cbn. split; [done|]. split; [done|].
    intros p spec [_ H]%lookup_delete_Some. by left.
  - (* RestartPlugin *) eapply triple_next.
    { apply triple_with_any. intros s. apply triple_each. intros a _. eapply triple_next; [apply mark_terminal_turn|].
      apply calm_before. auto with calm. }
    apply triple_with_any. intros s. apply triple_when; [|apply before_after].
    eapply triple_next; [apply mark_terminal_turn|]. eapply triple_next; [apply restarts_turn|]. by apply relaunch_turn.
  - eapply triple_next; [apply modify_other; intros ?; cbn; by auto|]. apply calm_turn. auto with calm.
  - apply triple_with_any. intros s. case_match; [by apply calm_turn, calm_send_ready|].
    eapply triple_post; [apply before_after|]. apply modify_other. intros ?. cbn. auto.
  - apply calm_turn. auto with calm.
  - apply triple_with_any. intros s. apply triple_when; [|apply before_after]. by apply settings_window_turn.
  - apply calm_turn. unfold handle_pointer. auto with calm.
  - apply calm_turn. auto with calm.
  - apply calm_turn. auto with calm.
  - apply calm_turn. unfold handle_range_response. auto 20 with calm.
  - apply calm_turn. unfold handle_released. auto with calm.
  - apply calm_turn. unfold handle_unmounted. auto with calm.
  - apply calm_turn. unfold handle_cancel. auto 20 with calm.
  - eapply triple_post; [apply before_after|]. apply modify_other. intros ?. cbn. auto.
Qed.
End turn.
End turns.
