(* ===== verification/SupervisorSafety.v ===== *)
(** * Plugins: no plugin acts beyond its approval

    Over every history of commands, launches and writing processes: a frame
    reaches the daemon only if a process of the plugin wrote it since the plugin
    was last stopped, within an approval given since then; and only approved
    content is started. *)

From S2P Require Import Prelude PluginApi FileTransfer TransferService Actions PluginRouting Supervisor SupervisorExample SupervisorTheorems.

Section histories.
Context {codec : PluginCodec} {order : HashOrder}.
Implicit Types (s : State) (a : ProcessAdapterId.t) (w : World) (y : System) (past : list (Step * list Effect)).

(** ** Histories *)

Definition stops (plugin : rstring) (l : Step) : bool :=
  match l with Command _ (StopPlugin id) => bool_decide (id = plugin) | _ => false end.
(** The steps since the plugin was last stopped, the latest first. *)
Fixpoint since_stop (plugin : rstring) (past : list (Step * list Effect)) : list (Step * list Effect) :=
  match past with
  | [] => []
  | (l, effects) :: past => if stops plugin l then [] else (l, effects) :: since_stop plugin past
  end.
Definition starts (plugin : rstring) (spec : LaunchSpec) (l : Step) : Prop :=
  match l with
  | Command _ (StartPlugin id launch _) | Command _ (StartTransfer id launch _) => id = plugin /\ launch = spec
  | _ => False
  end.
Definition authorised past (plugin : rstring) (spec : LaunchSpec) : Prop :=
  exists l effects, (l, effects) ∈ since_stop plugin past /\ starts plugin spec l.
Definition written past a (g : Z) (line : rstring) : Prop :=
  exists effects, (Wrote a g line, effects) ∈ since_stop (plugin_of a) past.

Lemma since_stop_cons plugin l effects past :
  stops plugin l = false -> since_stop plugin ((l, effects) :: past) = (l, effects) :: since_stop plugin past.
Proof. intros H. cbn. by rewrite H. Qed.
Lemma authorised_cons plugin spec l effects past :
  stops plugin l = false -> authorised past plugin spec -> authorised ((l, effects) :: past) plugin spec.
Proof.
  intros Hl (l' & es & H1 & H2). exists l', es. rewrite since_stop_cons by done. split; [by right|done].
Qed.
Lemma written_cons a g line l effects past :
  stops (plugin_of a) l = false -> written past a g line -> written ((l, effects) :: past) a g line.
Proof. intros Hl (es & H). exists es. rewrite since_stop_cons by done. by right. Qed.

(** ** What holds in every history *)

Record within past y : Prop := {
  within_sane : sane (authorised past) (state y);
  within_lines a g line : Line a g line ∈ inbox y -> is_settings a = false /\ (a, g) ∈ launched y;
  within_generation : 1 <= next_generation (state y) <= 1 + len past;
  within_launched a g : (a, g) ∈ launched y -> g < next_generation (state y);
  within_running a run : processes (state y) !! a = Some run -> (a, generation run) ∈ launched y;
  within_written a line run : Line a (generation run) line ∈ inbox y -> processes (state y) !! a = Some run ->
    written past a (generation run) line;
}.

Lemma within_start : within [] start.
Proof.
  split; cbn; try done; try lia.
  by intros a g line ?%elem_of_nil.
Qed.

(** ** Stopping a plugin *)

Lemma each_out_state {S O A} (f : A -> O) (l : list A) (s : S) : (each (fun x => out (f x)) l s).1 = s.
Proof. induction l as [|x l IH]; [done|]. cbn [each]. rewrite next_act_run. exact IH. Qed.
Lemma stop_adapter_processes a s : processes (stop_adapter a s).1 = delete a (processes s).
Proof.
  unfold stop_adapter, with_state. destruct (processes s !! a) as [run|] eqn:E; [|cbn; by rewrite delete_id].
  rewrite next_act_run. cbn [fst]. rewrite next_act_run. cbn [fst].
  by rewrite (each_out_state (fun p => Signal p.1 p.2)).
Qed.
(** Removing the processes of a list one after the other. *)
Lemma each_stops_none (f : ProcessAdapterId.t -> action) l s a :
  (forall b s, processes (f b s).1 = delete b (processes s)) ->
  processes s !! a = None -> processes (each f l s).1 !! a = None.
Proof.
  intros Hf. revert s. induction l as [|b l IH]; intros s Hs; [done|]. cbn [each]. rewrite next_act_run. cbn [fst]. apply IH.
  rewrite Hf, lookup_delete_None. by right.
Qed.
Lemma each_stops (f : ProcessAdapterId.t -> action) l s a :
  (forall b s, processes (f b s).1 = delete b (processes s)) -> a ∈ l -> processes (each f l s).1 !! a = None.
Proof.
  intros Hf. revert s. induction l as [|b l IH]; intros s; [by intros ?%elem_of_nil|].
  cbn [each]. rewrite next_act_run. cbn [fst]. intros [->|Hin]%elem_of_cons; [|by apply IH].
  apply each_stops_none; [done|]. rewrite Hf. apply lookup_delete_eq.
Qed.
Lemma processes_of_spec s a : processes s !! a <> None -> a ∈ processes_of s (plugin_of a).
Proof.
  intros H. unfold processes_of. apply list_elem_of_In, filter_In. split; [|by apply bool_decide_eq_true].
  apply list_elem_of_In. rewrite elem_of_hash_order. destruct (processes s !! a) as [run|] eqn:E; [|done].
  apply list_elem_of_fmap. exists (a, run). split; [done|]. by apply elem_of_map_to_list.
Qed.
Lemma stop_one_processes a s :
  processes ((mark_terminal a >>> stop_adapter a >>> emit (Stopped a)) s).1 = delete a (processes s).
Proof. rewrite next_act_run. cbn [fst]. rewrite next_act_run. etrans; [apply stop_adapter_processes|done]. Qed.
Lemma handle_stop_clears s id a : plugin_of a = id -> processes (handle_stop id s).1 !! a = None.
Proof.
  intros <-. unfold handle_stop. rewrite next_act_run. cbn [fst]. rewrite next_act_run.
  cbn [fst modify on_restarts on_specs processes]. unfold with_state.
  destruct (processes s !! a) as [run|] eqn:E; [|by apply each_stops_none; [apply stop_one_processes|]].
  apply each_stops; [apply stop_one_processes|]. apply processes_of_spec. by rewrite E.
Qed.

(** ** Turns of the loop *)

(** The state at the end of a turn is calmer than the one its handler left. *)
Lemma manager_turn_run x rest y y' effects :
  manager_turn x rest y = (y', effects) ->
  exists more, effects = (x (state y)).2 ++ more /\ Forall quiet more /\ calmer (x (state y)).1 (state y')
    /\ inbox y' = rest /\ launched y' = note_launched (state y') (launched y).
Proof.
  unfold manager_turn. destruct (x (state y)) as [s1 es]. cbn.
  assert (Hcalm : calm (if stopping s1 then stop_all else nothing)) by (destruct (stopping s1); auto with calm).
  destruct (Hcalm s1 s1 (reflexivity s1)) as [H1 H2]. destruct ((if stopping s1 then stop_all else nothing) s1) as [s2 more]. cbn in *.
  intros [= <- <-]. by exists more.
Qed.
Lemma note_launched_spec s known a g :
  (a, g) ∈ note_launched s known <-> (a, g) ∈ known \/ exists run, processes s !! a = Some run /\ generation run = g.
Proof.
  unfold note_launched. rewrite elem_of_union, elem_of_list_to_set, list_elem_of_fmap. split; intros [H|H]; auto.
  - destruct H as ([b run] & [= -> ->] & H). apply elem_of_map_to_list in H. right. by exists run.
  - left. destruct H as (run & H & <-). exists (a, run). split; [done|]. by apply elem_of_map_to_list.
Qed.
Lemma following_small g : 1 <= g < 2 ^ 64 - 1 -> following_generation g = g + 1.
Proof. intros H. unfold following_generation. rewrite Z.mod_small by lia. lia. Qed.

Lemma within_turn past y l effects x rest y' :
  within past y -> len past < 2 ^ 64 - 2 -> manager_turn x rest y = (y', effects) ->
  (forall e, e ∈ rest -> e ∈ inbox y) ->
  sane (authorised ((l, effects) :: past)) (x (state y)).1 ->
  aged (processes (state y)) (next_generation (state y)) (x (state y)).1 ->
  (forall a run, processes (x (state y)).1 !! a = Some run -> stops (plugin_of a) l = false) ->
  within ((l, effects) :: past) y'.
Proof.
  intros [Wsane Wlines Wgen Wlaunched Wrunning Wwritten] Hlen Hturn Hrest Hsane Haged Hstop.
  destruct (manager_turn_run _ _ _ _ _ Hturn) as (more & _ & _ & Hcalm & Hinbox & Hlaunched).
  assert (Haged' : after_launch (authorised ((l, effects) :: past)) (processes (state y)) (next_generation (state y)) (state y'))
    by (eapply after_closed; [exact Hcalm|done]).
  destruct Haged' as [Hsane' Haged'].
  assert (Hnext : next_generation (state y) <= next_generation (state y') <= 1 + next_generation (state y)).
  { destruct Haged' as [[-> _]|[-> _]]; [lia|]. rewrite following_small by lia. lia. }
  assert (Hrun : forall a run, processes (state y') !! a = Some run ->
    from_before (processes (state y)) a run
    \/ (generation run = next_generation (state y) /\ next_generation (state y') = 1 + next_generation (state y))).
  { intros a run H. destruct Haged' as [[_ Hp]|[Hn Hp]]; [left; by apply Hp|]. destruct (Hp a run H); [right|by left].
    rewrite Hn, following_small by lia. lia. }
  split.
  - done.
  - intros a g line. rewrite Hinbox, Hlaunched, note_launched_spec. intros H%Hrest. destruct (Wlines a g line H). auto.
  - rewrite len_cons. lia.
  - intros a g. rewrite Hlaunched, note_launched_spec. intros [H|(run & H & <-)]; [apply Wlaunched in H; lia|].
    destruct (Hrun a run H) as [(run0 & H0 & ->)|]; [|lia]. apply Wrunning, Wlaunched in H0. lia.
  - intros a run H. rewrite Hlaunched, note_launched_spec. right. by exists run.
  - intros a line run. rewrite Hinbox. intros Hin%Hrest H. destruct (Hrun a run H) as [(run0 & H0 & E)|[E _]].
    + apply written_cons; [|rewrite E in Hin |- *; by apply (Wwritten a line run0)].
      destruct (calm_processes _ _ Hcalm a run H) as (run1 & H1 & _). by apply (Hstop a run1).
    + destruct (Wlines a _ line Hin) as [_ Hl%Wlaunched]. lia.
Qed.

(** ** Steps *)

Definition world_of (l : Step) : option World :=
  match l with Command w _ | Take w => Some w | _ => None end.
Definition windows_of (l : Step) : authority := fun id spec =>
  exists w theme, l = Command w (OpenSettingsWindow id spec theme).
(** The frame is in the inbox, from the process that runs. *)
Definition heard_by y (l : Step) a (message : Message.t) : Prop :=
  exists w line run, l = Take w /\ Line a (generation run) line ∈ inbox y /\ decode_line line = Ok message
    /\ processes (state y) !! a = Some run.

Definition lawful past y (l : Step) (effects : list Effect) : Prop :=
  match world_of l with
  | Some w => Forall (allowed w (authorised ((l, effects) :: past)) (windows_of l) (heard_by y l)) effects
  | None => effects = []
  end.

Lemma sane_cons past s l effects :
  (forall plugin, stops plugin l = false) -> sane (authorised past) s -> sane (authorised ((l, effects) :: past)) s.
Proof. intros Hl. apply sane_weaken. intros p spec. by apply authorised_cons. Qed.
Lemma before_here A s : sane A s -> before_launch A (processes s) (next_generation s) s.
Proof. intros H. split; [done|]. split; [done|]. intros a run E. by exists run. Qed.

(** A turn of the loop that stops no plugin *)
Lemma ordinary_turn past y l w x rest y' effects :
  within past y -> len past < 2 ^ 64 - 2 -> world_of l = Some w -> (forall plugin, stops plugin l = false) ->
  manager_turn x rest y = (y', effects) -> (forall e, e ∈ rest -> e ∈ inbox y) ->
  triple (before_launch (authorised ((l, effects) :: past)) (processes (state y)) (next_generation (state y)))
    (allowed w (authorised ((l, effects) :: past)) (windows_of l) (heard_by y l)) x
    (after_launch (authorised ((l, effects) :: past)) (processes (state y)) (next_generation (state y))) ->
  within ((l, effects) :: past) y' /\ lawful past y l effects.
Proof.
  intros W Hlen Hw Hl Hturn Hrest Hx.
  destruct (Hx (state y)) as [[Hsane Haged] Hok]; [by apply before_here, sane_cons, W|]. split.
  - eapply within_turn; eauto.
  - unfold lawful. rewrite Hw. destruct (manager_turn_run _ _ _ _ _ Hturn) as (more & E & Hmore & _).
    pose proof (Forall_app_2 _ _ _ Hok (Forall_impl _ _ _ Hmore (quiet_allowed _ _ _ _))) as Hall.
    by rewrite <- E in Hall.
Qed.

Lemma handle_stop_quiet id : triple (fun _ => True) quiet (handle_stop id) (fun _ => True).
Proof.
  assert (Hm : forall f, triple (fun _ => True) quiet (modify f) (fun _ : State => True)) by (intros; by apply triple_modify).
  eapply triple_next; [|by eapply triple_next]. apply triple_with_any. intros s. apply triple_each. intros a _.
  eapply triple_next; [apply Hm|]. by apply triple_calm; auto with calm.
Qed.
Lemma stop_turn past y w id y' effects :
  within past y -> len past < 2 ^ 64 - 2 -> manager_turn (handle_command w (StopPlugin id)) (inbox y) y = (y', effects) ->
  within ((Command w (StopPlugin id), effects) :: past) y' /\ lawful past y (Command w (StopPlugin id)) effects.
Proof.
  intros W Hlen Hturn. set (l := Command w (StopPlugin id)).
  assert (Hother : forall plugin, plugin <> id -> stops plugin l = false) by (intros; by apply bool_decide_eq_false).
  destruct (handle_command_turn w (authorised past) (windows_of l) (heard_by y l) (processes (state y))
    (next_generation (state y)) (StopPlugin id) I (state y)) as [[[Hsp Hpr Hgr] Haged] Hok]; [by apply before_here, W|].
  assert (Hgone : forall a run, processes (handle_command w (StopPlugin id) (state y)).1 !! a = Some run -> plugin_of a <> id)
    by (intros a run E <-; cbn [handle_command] in E; by rewrite handle_stop_clears in E).
  split.
  - eapply within_turn; eauto. split; [| |done].
    + intros p spec E. assert (p <> id); [|by apply authorised_cons; auto].
      intros ->. cbn in E. unfold handle_stop in E. rewrite next_act_run in E. cbn [fst] in E. rewrite next_act_run in E.
      cbn in E. by rewrite lookup_delete_eq in E.
    + intros a run E Hset. apply authorised_cons; eauto.
  - cbn. destruct (manager_turn_run _ _ _ _ _ Hturn) as (more & -> & Hmore & _). apply Forall_app.
    split; (eapply Forall_impl; [|by apply quiet_allowed]); [|done]. by apply handle_stop_quiet.
Qed.

(** A step of a task *)
Lemma within_told past y l event :
  within past y -> (forall plugin, stops plugin l = false) ->
  (forall a g line, event = Line a g line -> l = Wrote a g line /\ is_settings a = false /\ (a, g) ∈ launched y) ->
  within ((l, []) :: past) (told event y).
Proof.
  intros [Wsane Wlines Wgen Wlaunched Wrunning Wwritten] Hl Hevent. split; cbn; try done.
  - by apply sane_cons.
  - intros a g line [H|H%list_elem_of_singleton]%elem_of_app; [eauto|]. destruct (Hevent a g line); [done|tauto].
  - rewrite len_cons. lia.
  - intros a line run [H|H%list_elem_of_singleton]%elem_of_app Hrun; [by apply written_cons; auto|].
    destruct (Hevent a (generation run) line) as (-> & _); [done|]. exists []. rewrite since_stop_cons by done. by left.
Qed.
Lemma within_queue past y l a run queue is_open :
  within past y -> (forall plugin, stops plugin l = false) -> processes (state y) !! a = Some run ->
  within ((l, []) :: past)
    {| state := on_processes (insert a (with_writer queue is_open run)) (state y); inbox := inbox y; launched := launched y |}.
Proof.
  intros [[Hsp Hpr Hgr] Wlines Wgen Wlaunched Wrunning Wwritten] Hl Hrun.
  assert (Hsame : forall b r, <[a := with_writer queue is_open run]> (processes (state y)) !! b = Some r ->
    exists r0, processes (state y) !! b = Some r0 /\ generation r = generation r0 /\ spec_of r = spec_of r0 /\ grant r = grant r0).
  { intros b r [[<- <-]|[_ H]]%lookup_insert_Some; [by exists run|by exists r]. }
  split; cbn; try done.
  - apply sane_cons; [done|]. split; cbn; [done| |]; intros b r; [|intros g]; intros (r0 & H0 & E1 & E2 & E3)%Hsame;
      rewrite E2, ?E3; eauto.
  - rewrite len_cons. lia.
  - intros b r (r0 & H0 & -> & _)%Hsame. by apply Wrunning.
  - intros b line r Hin (r0 & H0 & E & _)%Hsame. rewrite E in Hin |- *. apply written_cons; eauto.
Qed.

Lemma step_within past y l y' effects :
  within past y -> len past < 2 ^ 64 - 2 -> step y l = Some (y', effects) ->
  within ((l, effects) :: past) y' /\ lawful past y l effects.
Proof.
  intros W Hlen Hstep.
  destruct l as [w command|w|a g line|a g line|a g status|a g reason|a|a reason]; cbn [step] in Hstep.
  - destruct (stopping (state y)); [done|]. injection Hstep as Hturn.
    assert ((exists id, command = StopPlugin id) \/ forall plugin, stops plugin (Command w command) = false)
      as [[id ->]|Hno] by (destruct command; eauto); [by apply stop_turn|].
    eapply ordinary_turn; eauto. apply handle_command_turn.
    assert (Hhead : forall id spec, starts id spec (Command w command) -> authorised ((Command w command, effects) :: past) id spec).
    { intros id spec H. exists (Command w command), effects. rewrite since_stop_cons by done. split; [by left|done]. }
    destruct command; try done; try (by apply Hhead). by repeat eexists.
  - destruct (stopping (state y)); [done|]. destruct (inbox y) as [|event rest] eqn:Einbox; [done|]. injection Hstep as Hturn.
    eapply ordinary_turn; eauto; [rewrite Einbox; by right|]. apply handle_process_event_turn.
    intros a g line ->. destruct (within_lines _ _ W a g line) as [Hset _]; [rewrite Einbox; by left|].
    split; [done|]. intros message run Hd Hrun <-. exists w, line, run. rewrite Einbox. repeat split; try done. by left.
  - destruct (task_of y a g) eqn:Et; [|done]. destruct (is_settings a) eqn:Es; [done|]. injection Hstep as <- <-.
    split; [|done]. apply within_told; [done..|]. intros ??? [= -> -> ->]. unfold task_of in Et. boolsplit. by case_bool_decide.
  - destruct (task_of y a g); [|done]. injection Hstep as <- <-. split; [|done]. by apply within_told.
  - destruct (task_of y a g); [|done]. injection Hstep as <- <-. split; [|done]. by apply within_told.
  - destruct (_ && _); [|done]. injection Hstep as <- <-. split; [|done]. by apply within_told.
  - destruct (processes (state y) !! a) as [run|] eqn:Hrun; [|done]. destruct (writer run) as [|m rest]; [done|].
    destruct (writer_open run); [|done]. injection Hstep as <- <-. split; [|done]. by apply within_queue.
  - destruct (processes (state y) !! a) as [run|] eqn:Hrun; [|done]. destruct (writer run) as [|m rest]; [done|].
    destruct (_ && _); [|done]. injection Hstep as <- <-. split; [|done].
    pose proof (within_queue past y (WriterFailed a reason) a run rest false W (fun _ => eq_refl) Hrun) as W'.
    destruct W' as [Wsane Wlines Wgen Wlaunched Wrunning Wwritten]. split; cbn in *; try done.
    + intros b g line [H|[=]%list_elem_of_singleton]%elem_of_app. eauto.
    + intros b line r [H|[=]%list_elem_of_singleton]%elem_of_app. eauto.
Qed.

Lemma reaches_within past y : reaches past y -> len past < 2 ^ 64 - 1 -> within past y.
Proof.
  induction 1 as [|past y l y' effects Hr IH Hstep]; [intros _; apply within_start|]. rewrite len_cons. intros Hlen.
  destruct (step_within past y l y' effects) as [W _]; [apply IH; lia|lia|done|done].
Qed.

(** ** The claims *)

Lemma authorised_inv plugin spec l effects past :
  authorised ((l, effects) :: past) plugin spec -> starts plugin spec l \/ authorised past plugin spec.
Proof.
  intros (l' & es & H & Hs). cbn in H. destruct (stops plugin l); [by apply elem_of_nil in H|].
  apply elem_of_cons in H as [[= -> ->]|H]; [by left|]. right. by exists l', es.
Qed.

Lemma launched_environment w spec a theme name value :
  (name, value) ∈ environment (launch_command w spec a theme) -> name ∉ NEVER_PASSED.
Proof.
  cbn. destruct theme as [text|]; [|by intros [_ ?]%injection_variables_stay].
  intros [H|[= -> ->]%list_elem_of_singleton]%elem_of_app.
  - apply list_elem_of_In, filter_In in H as [H _]. by apply list_elem_of_In, injection_variables_stay in H as [_ ?].
  - by apply (bool_decide_unpack _).
Qed.

(** The approval covers a role that owns the frame. *)
Definition covers (approval : Capabilities) (message : Message.t) : Prop :=
  match frame_roles message with
  | None => True
  | Some roles => exists role, role ∈ roles /\ fills approval role = true
  end.
Lemma permits_covers approval announced message :
  permits (from_handshake approval announced) message = true -> covers approval message.
Proof.
  rewrite permits_frame. unfold covers. destruct (frame_roles message) as [roles|]; [|done].
  intros (role & Hin & H)%existsb_exists. boolsplit. exists role. by rewrite list_elem_of_In.
Qed.

(** C3: a frame reaches the daemon only if a process of the plugin, not a
    settings window, wrote it since the plugin was last stopped; a launch that
    was commanded since then approves a role the frame belongs to; and a process
    started for one transfer speaks of no other. *)
Theorem frames_within_approval past y l y' effects a message :
  reaches past y -> len past < 2 ^ 64 - 2 -> step y l = Some (y', effects) ->
  Event (FromPlugin a message) ∈ effects ->
  is_settings a = false
  /\ (exists g line, written past a g line /\ decode_line line = Ok message)
  /\ (exists spec, authorised past (plugin_of a) spec /\ covers (approved spec) message)
  /\ of_own_transfer a message.
Proof.
  intros Hr Hlen Hstep Hin. pose proof (reaches_within past y Hr ltac:(lia)) as W.
  destruct (step_within past y l y' effects W Hlen Hstep) as [_ Hlaw]. unfold lawful in Hlaw.
  destruct (world_of l) as [w|]; [|by rewrite Hlaw in Hin; apply elem_of_nil in Hin].
  rewrite Forall_forall in Hlaw. destruct (Hlaw _ Hin) as (Hset & Hheard & Hown & spec & announced & Hauth & Hp).
  destruct Hheard as (w' & line & run & -> & Hline & Hd & Hrun). split; [done|]. split.
  { exists (generation run), line. split; [|done]. by eapply within_written. }
  split; [|done]. exists spec. split; [|by eapply permits_covers]. by destruct (authorised_inv _ _ _ _ _ Hauth).
Qed.

(** The three executable bits of a mode. *)
Lemma executable_bit mode :
  Z.land mode 73 <> 0 -> exists bit, bit ∈ [0; 3; 6] /\ Z.testbit mode bit = true.
Proof.
  intros H. destruct (Z.testbit mode 0) eqn:E0, (Z.testbit mode 3) eqn:E3, (Z.testbit mode 6) eqn:E6;
    try (eexists; split; [|eassumption]; set_solver).
  exfalso. apply H, Z.bits_inj_0. intros n. rewrite Z.land_spec.
  destruct (decide (n < 0)); [by rewrite !Z.testbit_neg_r by lia|].
  destruct (decide (6 < n)); [by rewrite (Z.bits_above_log2 73), andb_false_r by (simpl; lia)|].
  assert (n = 0 \/ n = 1 \/ n = 2 \/ n = 3 \/ n = 4 \/ n = 5 \/ n = 6) as Hn by lia.
  by destruct Hn as [->|[->|[->|[->|[->|[->| ->]]]]]]; rewrite ?E0, ?E3, ?E6, ?andb_false_r.
Qed.

Lemma checked_content w spec i :
  checked w spec -> integrity spec = Some i -> digest_package w i (executable spec) = Ok (digest spec).
Proof.
  intros [H _] Hi. unfold verify_content in H. rewrite Hi in H. inv_ok H.
  match goal with E : bool_decide _ = true |- _ => by apply bool_decide_eq_true in E as -> end.
Qed.

Lemma checked_program w spec :
  checked w spec ->
  exists mode bit, file_metadata w (executable spec) = Ok (true, mode)
                   /\ bit ∈ [0; 3; 6] /\ Z.testbit mode bit = true.
Proof.
  intros [_ H]. unfold check_executable in H. inv_ok H. boolsplit. subst.
  match goal with E : (Z.land ?m 73 =? 0) = false |- _ =>
    apply Z.eqb_neq, executable_bit in E as (bit & ? & ?); by exists m, bit end.
Qed.

(** C13: a process is started only if, at that moment, the digest of the package
    its launch names is the digest the launch was approved with, and its program
    is a regular file that somebody may execute; its launch was commanded since
    the plugin was last stopped, or is that of the settings window just asked for;
    and no variable that injects code is handed to it.  A launch without a package
    to check, as that of a bundled plugin is, starts with whatever content its
    program has: its trust is the distribution's. *)
Theorem only_approved_content_starts past y l y' effects a spec command :
  reaches past y -> len past < 2 ^ 64 - 2 -> step y l = Some (y', effects) ->
  Spawn a spec command ∈ effects ->
  (exists w, world_of l = Some w
    /\ (forall i, integrity spec = Some i -> digest_package w i (executable spec) = Ok (digest spec))
    /\ exists mode bit, file_metadata w (executable spec) = Ok (true, mode)
                        /\ bit ∈ [0; 3; 6] /\ Z.testbit mode bit = true)
  /\ (if is_settings a then windows_of l (plugin_of a) spec else authorised ((l, effects) :: past) (plugin_of a) spec)
  /\ program command = executable spec /\ take (length (args spec)) (arguments command) = args spec
  /\ (forall name value, (name, value) ∈ environment command -> name ∉ NEVER_PASSED).
Proof.
  intros Hr Hlen Hstep Hin. pose proof (reaches_within past y Hr ltac:(lia)) as W.
  destruct (step_within past y l y' effects W Hlen Hstep) as [_ Hlaw]. unfold lawful in Hlaw.
  destruct (world_of l) as [w|]; [|by rewrite Hlaw in Hin; apply elem_of_nil in Hin].
  rewrite Forall_forall in Hlaw. destruct (Hlaw _ Hin) as (Hc & Hauth & theme & ->).
  split. { exists w. split; [done|]. split; [intros i; by apply checked_content|by apply checked_program]. }
  split; [done|]. split; [done|]. split; [apply take_app_length|]. apply launched_environment.
Qed.
End histories.

Module Copying.
Import ClipboardPlugin.
#[local] Existing Instance list_order.

Lemma frames_within_approval_witness :
  Event (FromPlugin me copied) ∈ default [] (snd <$> step (system_of copies) (Take world))
  /\ is_settings me = false
  /\ (exists g line, written (past_of copies) me g line /\ decode_line line = Ok copied)
  /\ (exists spec, authorised (past_of copies) (plugin_of me) spec /\ covers (approved spec) copied)
  /\ of_own_transfer me copied.
Proof.
  assert (E : snd <$> step (system_of copies) (Take world) = Some [Event (FromPlugin me copied)])
    by (vm_compute; reflexivity).
  split; [rewrite E; by left|]. destruct (step_effects _ _ _ E) as [y' Hstep].
  apply (frames_within_approval (past_of copies) (system_of copies) (Take world) y' [Event (FromPlugin me copied)]).
  - apply possible_run. vm_compute. reflexivity.
  - vm_compute. reflexivity.
  - exact Hstep.
  - by left.
Defined.

Lemma only_approved_content_starts_witness :
  exists command effects,
  snd <$> step start start_it = Some (Spawn me spec command :: effects)
  /\ (exists w, world_of start_it = Some w
       /\ (forall i, integrity spec = Some i -> digest_package w i (executable spec) = Ok (digest spec))
       /\ exists mode bit, file_metadata w (executable spec) = Ok (true, mode)
                           /\ bit ∈ [0; 3; 6] /\ Z.testbit mode bit = true)
  /\ authorised [(start_it, Spawn me spec command :: effects)] (plugin_of me) spec
  /\ program command = executable spec /\ take (length (args spec)) (arguments command) = args spec
  /\ (forall name value, (name, value) ∈ environment command -> name ∉ NEVER_PASSED).
Proof.
  exists (launch_command world spec me None), [Event (Started me 4242)].
  assert (E : snd <$> step start start_it
    = Some [Spawn me spec (launch_command world spec me None); Event (Started me 4242)]) by (vm_compute; reflexivity).
  split; [exact E|]. destruct (step_effects _ _ _ E) as [y' Hstep].
  apply (only_approved_content_starts [] start start_it y'
    [Spawn me spec (launch_command world spec me None); Event (Started me 4242)] me spec).
  - apply Reaches_start.
  - vm_compute. reflexivity.
  - exact Hstep.
  - by left.
Defined.
End Copying.
