(* ===== verification/SupervisorBounds.v ===== *)
(** * Plugins: what a plugin can cost is bounded

    Queues, pending ranges, remembered changes and diagnostics have their limits
    in every history, and a plugin that keeps crashing is started again at most
    three times until the daemon is told what to do with it. *)

From S2P Require Import Prelude PluginApi TransferService Actions PluginRouting Supervisor SupervisorExample SupervisorTheorems.

Section bounds.
Context {codec : PluginCodec} {order : HashOrder}.
Implicit Types (s : State) (a : ProcessAdapterId.t) (w : World) (y : System).

Record bounded s : Prop := {
  bounded_restarts id r : restarts s !! id = Some r -> 0 <= r <= MAX_RESTARTS;
  bounded_ranges : (size (pending_ranges s) <= MAX_PENDING_RANGES)%nat;
  bounded_changes id changes : pending_changes s !! id = Some changes ->
    (length changes <= MAX_QUEUED_CHANGES)%nat /\ NoDup changes.*1;
  bounded_diagnostics plugin ring : diagnostics s !! plugin = Some ring -> (length ring <= DIAGNOSTIC_LINES)%nat;
  bounded_queues a run : processes s !! a = Some run -> len (writer run) <= CHANNEL_CAPACITY;
}.

Lemma bounded_new : bounded new.
Proof. split; cbn; intros *; rewrite ?lookup_empty; try done. unfold MAX_PENDING_RANGES. rewrite map_size_empty. lia. Qed.
Lemma bounded_closed : closed bounded.
Proof.
  intros s s' C []. split.
  - intros id r. rewrite (calm_restarts _ _ C). eauto.
  - pose proof (map_subseteq_size _ _ (calm_ranges _ _ C)). lia.
  - intros id changes H. eapply bounded_changes0, lookup_weaken; [done|]. apply (calm_changes _ _ C).
  - intros plugin ring. rewrite (calm_diagnostics _ _ C). eauto.
  - intros a run H. destruct (calm_processes _ _ C a run H) as (run0 & H0 & S0).
    pose proof (queue_bounded _ _ S0). pose proof (bounded_queues0 a run0 H0). lia.
Qed.

Definition kept (x : action) : Prop := triple bounded (fun _ => True) x bounded.

Lemma kept_calm x : calm x -> kept x.
Proof. intros H. apply triple_calm; auto using bounded_closed. Qed.
Lemma kept_next (x x' : action) : kept x -> kept x' -> kept (x >>> x').
Proof. apply triple_next. Qed.
Lemma kept_with f : (forall s, bounded s -> triple (fun s' => s' = s) (fun _ => True) (f s) bounded) -> kept (with_state f).
Proof. apply triple_with. Qed.
Lemma kept_with_any f : (forall s, kept (f s)) -> kept (with_state f).
Proof. apply triple_with_any. Qed.
Lemma kept_when b x : kept x -> kept (only_when b x).
Proof. intros Hx. by apply triple_when. Qed.
Lemma kept_each {A} (f : A -> action) l : (forall x, kept (f x)) -> kept (each f l).
Proof. intros Hf. apply triple_each. intros x _. apply Hf. Qed.
Lemma kept_modify f : (forall s, bounded s -> bounded (f s)) -> kept (modify f).
Proof. apply triple_modify. Qed.
Lemma kept_at x s : bounded s -> kept x -> triple (fun s' => s' = s) (fun _ => True) x bounded.
Proof. intros Hs. apply triple_pre. by intros ? ->. Qed.
Lemma kept_emit e : kept (emit e).
Proof. by apply triple_out. Qed.

(** Fields without a bound *)
Lemma kept_terminal f : kept (modify (on_terminal f)).
Proof. apply kept_modify. intros s []. by split. Qed.
Lemma kept_specs f : kept (modify (on_specs f)).
Proof. apply kept_modify. intros s []. by split. Qed.
Lemma kept_settings f : kept (modify (on_settings f)).
Proof. apply kept_modify. intros s []. by split. Qed.
Lemma kept_owned f : kept (modify (on_owned f)).
Proof. apply kept_modify. intros s []. by split. Qed.
Lemma kept_forget_restarts id : kept (modify (on_restarts (delete id))).
Proof. apply kept_modify. intros s []. split; try done. cbn. intros i r [_ H]%lookup_delete_Some. eauto. Qed.

(** Starting a process *)
Lemma kept_settle t x f :
  (forall s, bounded s -> bounded (t s).1.1) -> kept x -> (forall reason, kept (f reason)) -> kept (settle t x f).
Proof.
  intros Ht Hx Hf s Hs. unfold settle. specialize (Ht s Hs). destruct (t s) as [[s1 es] r]. cbn in Ht.
  assert (H : kept (match r with Ok _ => x | Err reason => f reason end)) by (destruct r; auto).
  destruct (H s1 Ht) as [H1 _]. destruct (_ s1) as [s2 more]. cbn in *. split; [done|]. by apply Forall_true.
Qed.
Lemma bounded_start_process w spec a theme s : bounded s -> bounded (start_process w spec a theme s).1.1.
Proof.
  intros []. unfold start_process, launch. destruct (spawn w _); cbn -[following_generation]; [|by split].
  split; try done; cbn. intros b run [[<- <-]|[_ H]]%lookup_insert_Some; [done|eauto].
Qed.
Lemma bounded_spawn_adapter w a s : bounded s -> bounded (spawn_adapter w a s).1.1.
Proof.
  intros Hs. unfold spawn_adapter. destruct (specs s !! _) as [spec|]; [|done].
  destruct (verify_content w spec); [|destruct Hs; by split].
  destruct (check_executable w _); [|done]. apply bounded_start_process. destruct Hs. split; try done. cbn.
  intros plugin ring [[<- <-]|[_ H]]%lookup_insert_Some; [cbn; lia|eauto].
Qed.
Lemma bounded_settings_window w id spec theme s : bounded s -> bounded (spawn_settings_window w id spec theme s).1.1.
Proof.
  intros Hs. unfold spawn_settings_window. destruct (running s _); [done|]. destruct (verify_content w spec); [|done].
  destruct (check_executable w _); [|done]. by apply bounded_start_process.
Qed.
Lemma kept_relaunch w a : kept (or_reject (spawn_adapter w a) a).
Proof.
  apply kept_settle; [apply bounded_spawn_adapter|apply kept_calm, calm_nothing|]. intros. apply kept_calm, calm_reject.
Qed.

(** Frames *)
Lemma bounded_inbound s a message u s' :
  bounded s -> validate_inbound s a message = (s', u) -> bounded s'.
Proof.
  intros Hs H. assert (Hr : bounded (validate_range s message).1).
  { destruct Hs as [? Hsz ? ? ?], message; try done. unfold validate_range. case_match; [done|].
    destruct (Nat.leb_spec MAX_PENDING_RANGES (size (pending_ranges s))); [done|]. split; try done.
    cbn [fst pending_ranges on_ranges]. rewrite map_size_insert. case_match; unfold id; lia. }
  unfold validate_inbound in H. destruct (_ ≫= _) as [g|]; [|by injection H as <- <-].
  destruct (permits g message); [|by injection H as <- <-]. cbn [negb] in H.
  destruct message; try (by injection H as <- <-); (destruct (validate_transfer _ _); [|by injection H as <- <-]);
    destruct (validate_range s _) as [s1 []]; by injection H as <- <-.
Qed.
Lemma kept_accept_handshake a message : kept (accept_handshake a message).
Proof.
  apply kept_with. intros s Hs. destruct (processes s !! a) as [run|] eqn:Hrun; [|by apply kept_at, kept_calm, calm_nothing].
  cbv zeta. destruct (validate_handshake _ _ _ _) as [g|]; apply kept_at; try done; [|apply kept_calm, calm_fail_adapter].
  apply kept_next; [|apply kept_next; [apply kept_emit|apply kept_calm; auto 10 with calm]].
  apply kept_modify. intros s' []. split; try done. cbn. intros b r.
  destruct (decide (a = b)) as [<-|]; [rewrite lookup_alter_eq|rewrite lookup_alter_ne by done; eauto].
  destruct (processes s' !! a) as [r0|] eqn:E; [|done]. intros [= <-]. cbn. eauto.
Qed.
Lemma kept_handle_line a line : kept (handle_line a line).
Proof.
  unfold handle_line. destruct (decode_line line) as [message|]; [|apply kept_calm, calm_fail_adapter].
  apply kept_with. intros s Hs. destruct (ready s a); cbn [negb]; [|by apply kept_at, kept_accept_handshake].
  destruct (validate_inbound s a message) as [s' r] eqn:Ev. pose proof (bounded_inbound _ _ _ _ _ Hs Ev) as Hs'.
  destruct r; (eapply triple_next; [by apply triple_modify; intros ? _; exact Hs'|]); [|apply kept_calm, calm_fail_adapter].
  repeat apply kept_next; [..|apply kept_emit]; apply kept_modify; intros s2 H2; destruct H2.
  - case_match; by split.
  - destruct message; by split.
  - destruct message; by split.
Qed.

Lemma kept_process_exit w a reason : kept (process_exit w a reason).
Proof.
  apply kept_with_any. intros s. apply kept_next; [apply kept_terminal|].
  apply kept_next; [apply kept_calm, calm_stop_adapter|]. apply kept_next; [apply kept_calm; auto with calm|].
  apply kept_next; [apply kept_emit|]. destruct a as [id| |]; [|apply kept_calm, calm_nothing..].
  apply kept_with. intros s' Hs'. cbv zeta.
  assert (Hr : 0 <= default 0 (restarts s' !! id) <= MAX_RESTARTS)
    by (destruct (restarts s' !! id) eqn:E; cbn; [by eapply bounded_restarts|unfold MAX_RESTARTS; lia]).
  assert (Hins : forall r, 0 <= r <= MAX_RESTARTS ->
    triple (fun s => s = s') (fun _ : Effect => True) (modify (on_restarts (insert id r))) bounded).
  { intros r Hle. apply triple_modify. intros ? ->. destruct Hs'. split; try done. cbn.
    intros i r' [[<- <-]|[_ H]]%lookup_insert_Some; [done|eauto]. }
  case_match eqn:Ec; [|by apply Hins]. boolsplit. eapply triple_next; [apply Hins; lia|apply kept_relaunch].
Qed.
Lemma kept_handle_process_event w event : kept (handle_process_event w event).
Proof.
  apply kept_with_any. intros s. destruct event; (case_match; [|apply kept_calm, calm_nothing]);
    auto using kept_handle_line, kept_process_exit.
  apply kept_next; [|apply kept_with_any; intros ?; apply kept_emit]. apply kept_modify. intros s' []. split; try done. cbn.
  intros plugin ring [[<- <-]|[_ Hr]]%lookup_insert_Some; [|eauto]. apply diagnostics_bounded.
  destruct (diagnostics s' !! _) eqn:E; cbn; [eauto|unfold DIAGNOSTIC_LINES; lia].
Qed.

(** Commands *)
Lemma kept_change_setting id key value : kept (handle_change_setting id key value).
Proof.
  apply kept_with. intros s Hs. case_match; [by apply kept_at, kept_calm, calm_send_ready|]. cbv zeta.
  apply triple_modify. intros ? ->. destruct Hs as [? ? Hch ? ?]. split; try done. cbn [pending_changes on_changes].
  set (old := default [] (pending_changes s !! id)).
  assert (Hold : (length old <= MAX_QUEUED_CHANGES)%nat /\ NoDup old.*1).
  { subst old. destruct (pending_changes s !! id) as [l|] eqn:E; cbn; [by eapply Hch|split; [unfold MAX_QUEUED_CHANGES; lia|constructor]]. }
  clearbody old. destruct Hold as [Hlen Hnodup].
  set (queued := List.filter _ old).
  assert (Hq : (length queued <= length old)%nat /\ NoDup queued.*1 /\ key ∉ queued.*1).
  { subst queued. clear Hlen. induction old as [|[k v] old IH]; cbn; [split; [done|]; split; [constructor|by intros ?%elem_of_nil]|].
    cbn in Hnodup. apply NoDup_cons in Hnodup as [Hk Hnodup]. destruct (IH Hnodup) as (H1 & H2 & H3).
    destruct (bool_decide (k = key)) eqn:Ek; cbn; [split; [lia|done]|]. apply bool_decide_eq_false in Ek.
    split; [lia|]. split; [constructor; [|done]|set_solver].
    intros ((k' & v') & -> & Hin)%list_elem_of_fmap. apply Hk. apply list_elem_of_In, filter_In in Hin as [Hin _].
    apply list_elem_of_fmap. exists (k', v'). split; [done|]. by apply list_elem_of_In. }
  clearbody queued. destruct Hq as (H1 & H2 & H3).
  intros i changes [[<- <-]|[_ Hi]]%lookup_insert_Some; [|eauto].
  destruct (Nat.ltb_spec (length queued) MAX_QUEUED_CHANGES); [|split; [lia|done]].
  rewrite length_app, fmap_app. cbn. split; [lia|]. apply NoDup_app. split; [done|]. split; [|apply NoDup_singleton].
  by intros k Hk ->%list_elem_of_singleton.
Qed.
Lemma kept_stopping : kept (modify begin_stopping).
Proof. apply kept_modify. intros s []. by split. Qed.

Lemma kept_handle_command w command : kept (handle_command w command).
Proof.
  destruct command as [id spec settings|id spec manifest|id|id|id settings|id key value|id theme|id spec theme
    |id event|id publication|id t mime value|id response|id released|id unmounted|a t|]; cbn [handle_command];
    try (apply kept_calm; auto with calm; fail).
  - apply kept_with_any. intros s. case_match.
    + apply kept_next; [apply kept_settings|apply kept_calm; auto with calm].
    + repeat apply kept_next; auto using kept_terminal, kept_specs, kept_settings, kept_forget_restarts, kept_relaunch.
  - unfold handle_start_transfer. case_match; [apply kept_calm, calm_reject|]. apply kept_with_any. intros s.
    case_match; [apply kept_calm, calm_reject|]. apply kept_next; [apply kept_specs|].
    apply kept_settle; [apply bounded_spawn_adapter|apply kept_calm; auto with calm|]. intros. apply kept_calm, calm_reject.
  - apply kept_next; [|apply kept_next; [apply kept_specs|apply kept_forget_restarts]].
    apply kept_with_any. intros s. apply kept_each. intros a. apply kept_next; [apply kept_terminal|].
    apply kept_calm. auto with calm.
  - apply kept_next.
    + apply kept_with_any. intros s. apply kept_each. intros a. apply kept_next; [apply kept_terminal|].
      apply kept_calm. auto with calm.
    + apply kept_with_any. intros s. apply kept_when.
      repeat apply kept_next; auto using kept_terminal, kept_forget_restarts, kept_relaunch.
  - apply kept_next; [apply kept_settings|apply kept_calm; auto with calm].
  - apply kept_change_setting.
  - apply kept_with_any. intros s. apply kept_when. apply kept_settle; [apply bounded_settings_window| |];
      intros; apply kept_calm; auto with calm.
  - apply kept_calm. unfold handle_pointer. auto with calm.
  - apply kept_calm. unfold handle_range_response. auto 20 with calm.
  - apply kept_calm. unfold handle_released. auto with calm.
  - apply kept_calm. unfold handle_unmounted. auto with calm.
  - apply kept_calm. unfold handle_cancel. auto 20 with calm.
  - apply kept_stopping.
Qed.

(** ** Every history *)

Lemma manager_turn_bounded x rest y : kept x -> bounded (state y) -> bounded (state (manager_turn x rest y).1).
Proof.
  intros Hx Hy. unfold manager_turn. destruct (Hx (state y) Hy) as [H1 _]. destruct (x (state y)) as [s1 es]. cbn in H1.
  assert (H : kept (if stopping s1 then stop_all else nothing)) by (apply kept_calm; destruct (stopping s1); auto with calm).
  destruct (H s1 H1) as [H2 _]. by destruct ((if stopping s1 then stop_all else nothing) s1).
Qed.
Lemma bounded_queue s a run queue is_open :
  bounded s -> processes s !! a = Some run -> len queue <= len (writer run) ->
  bounded (on_processes (insert a (with_writer queue is_open run)) s).
Proof.
  intros [] Hrun Hlen. split; try done. cbn. intros b r [[<- <-]|[_ H]]%lookup_insert_Some; [|eauto].
  specialize (bounded_queues0 a run Hrun). cbn. lia.
Qed.
Lemma step_bounded y l y' effects :
  bounded (state y) -> len (inbox y) <= CHANNEL_CAPACITY -> step y l = Some (y', effects) ->
  bounded (state y') /\ len (inbox y') <= CHANNEL_CAPACITY.
Proof.
  intros Hb Hi Hstep. assert (Htold : forall event, has_room y = true -> len (inbox (told event y)) <= CHANNEL_CAPACITY).
  { intros event Hroom. unfold has_room in Hroom. cbn. rewrite len_app. unfold len at 2. cbn [length].
    destruct (Z.ltb_spec (len (inbox y)) CHANNEL_CAPACITY); [lia|done]. }
  destruct l as [w command|w|a g line|a g line|a g status|a g reason|a|a reason]; cbn [step] in Hstep.
  - destruct (stopping _); [done|]. injection Hstep as Hturn.
    pose proof (manager_turn_bounded _ (inbox y) y (kept_handle_command w command) Hb) as H. rewrite Hturn in H.
    split; [done|]. unfold manager_turn in Hturn. repeat (destruct (_ : State * list Effect) in Hturn). by injection Hturn as <- <-.
  - destruct (stopping _); [done|]. destruct (inbox y) as [|event rest] eqn:Ei; [done|]. injection Hstep as Hturn.
    pose proof (manager_turn_bounded _ rest y (kept_handle_process_event w event) Hb) as H. rewrite Hturn in H.
    split; [done|]. rewrite len_cons in Hi. unfold manager_turn in Hturn.
    repeat (destruct (_ : State * list Effect) in Hturn). injection Hturn as <- <-. cbn. lia.
  - unfold task_of in Hstep. destruct (bool_decide _), (has_room y), (is_settings a); try done. injection Hstep as <- <-. auto.
  - unfold task_of in Hstep. destruct (bool_decide _), (has_room y); try done. injection Hstep as <- <-. auto.
  - unfold task_of in Hstep. destruct (bool_decide _), (has_room y); try done. injection Hstep as <- <-. auto.
  - unfold task_of in Hstep. destruct (bool_decide _), (has_room y), (is_settings a); try done. injection Hstep as <- <-. auto.
  - destruct (processes (state y) !! a) as [run|] eqn:Hrun; [|done]. destruct (writer run) as [|m rest] eqn:Ew; [done|].
    destruct (writer_open run); [|done]. injection Hstep as <- <-. split; [|done].
    apply bounded_queue; [done..|]. rewrite Ew, len_cons. lia.
  - destruct (processes (state y) !! a) as [run|] eqn:Hrun; [|done]. destruct (writer run) as [|m rest] eqn:Ew; [done|].
    destruct (writer_open run), (has_room y); try done. injection Hstep as <- <-. split; [|by apply Htold].
    apply bounded_queue; [done..|]. rewrite Ew, len_cons. lia.
Qed.

Lemma reaches_bounded past y : reaches past y -> bounded (state y) /\ len (inbox y) <= CHANNEL_CAPACITY.
Proof.
  induction 1 as [|past y l y' effects Hr [IH1 IH2] Hstep]; [split; [apply bounded_new|done]|].
  by eapply step_bounded.
Qed.

(** ** Crashes *)

Section crashes.
Context (id : rstring).

Definition launches (effects : list Effect) : nat :=
  length (List.filter (fun e => match e with Spawn a _ _ => bool_decide (a = ProcessAdapterId.Resident id) | _ => false end) effects).
Lemma launches_app es es' : launches (es ++ es') = (launches es + launches es')%nat.
Proof. unfold launches. by rewrite List.filter_app, length_app. Qed.
Lemma launches_quiet es : Forall quiet es -> launches es = 0%nat.
Proof. induction 1 as [|e es He _ IH]; [done|]. destruct e; try done; by destruct event. Qed.

Definition attempts_of s : Z := default 0 (restarts s !! id).
(** Every start of the resident process is paid for by a counted attempt. *)
Definition paid_at s (x : action) : Prop := attempts_of s + Z.of_nat (launches (x s).2) <= attempts_of (x s).1.
Definition paid (x : action) : Prop := forall s, paid_at s x.

Lemma paid_next x x' : paid x -> paid x' -> paid (x >>> x').
Proof.
  intros Hx Hx' s. unfold paid_at. rewrite next_act_run. cbn [fst snd]. rewrite launches_app.
  specialize (Hx s). specialize (Hx' (x s).1). unfold paid_at in *. lia.
Qed.
Lemma paid_with f : (forall s, paid_at s (f s)) -> paid (with_state f).
Proof. intros Hf s. apply (Hf s). Qed.
Lemma paid_with_any f : (forall s, paid (f s)) -> paid (with_state f).
Proof. intros Hf s. apply (Hf s). Qed.
Lemma paid_calm x : calm x -> paid x.
Proof.
  intros Hx s. destruct (Hx s s (reflexivity s)) as [H1 H2]. unfold paid_at, attempts_of.
  rewrite launches_quiet, (calm_restarts _ _ H1) by done. lia.
Qed.
Lemma paid_when b x : paid x -> paid (only_when b x).
Proof. intros Hx. destruct b; [done|]. apply paid_calm, calm_nothing. Qed.
Lemma paid_each {A} (f : A -> action) l : (forall x, paid (f x)) -> paid (each f l).
Proof. intros Hf. induction l as [|x l IH]; [apply paid_calm, calm_nothing|]. by apply paid_next. Qed.
Lemma paid_modify f : (forall s, restarts (f s) !! id = restarts s !! id) -> paid (modify f).
Proof. intros Hf s. unfold paid_at, attempts_of. cbn. rewrite Hf. lia. Qed.
Lemma paid_emit e : paid (emit e).
Proof. intros s. unfold paid_at. cbn. lia. Qed.

(** A start of a process: at most one launch, and no attempt is taken back. *)
Lemma launches_start w spec a theme s :
  restarts (start_process w spec a theme s).1.1 = restarts s
  /\ (launches (start_process w spec a theme s).1.2 <= if decide (a = ProcessAdapterId.Resident id) then 1 else 0)%nat.
Proof.
  unfold start_process, launch. destruct (spawn w _); cbn -[launches]; [|split; [done|cbn; lia]]. split; [done|].
  unfold launches. cbn. case_bool_decide; case_decide; cbn; try done; lia.
Qed.
Lemma launches_spawn w a s :
  restarts (spawn_adapter w a s).1.1 = restarts s
  /\ (launches (spawn_adapter w a s).1.2 <= if decide (a = ProcessAdapterId.Resident id) then 1 else 0)%nat.
Proof.
  unfold spawn_adapter. destruct (specs s !! _) as [spec|]; [|split; [done|cbn; lia]].
  destruct (verify_content w spec); [|split; [done|cbn; lia]]. destruct (check_executable w _); [|split; [done|cbn; lia]].
  apply (launches_start w spec a None (on_diagnostics _ s)).
Qed.
Lemma settle_run t x f s :
  exists z, (z = x \/ exists reason, z = f reason) /\ (settle t x f s).1 = (z (t s).1.1).1
    /\ launches (settle t x f s).2 = (launches (t s).1.2 + launches (z (t s).1.1).2)%nat.
Proof.
  unfold settle. destruct (t s) as [[s1 es] r]. cbn. exists (match r with Ok _ => x | Err reason => f reason end).
  split; [destruct r; eauto|]. destruct (_ s1) as [s2 more]. cbn [fst snd]. by rewrite launches_app.
Qed.
Lemma paid_settle t x f :
  (forall s, restarts (t s).1.1 = restarts s /\ launches (t s).1.2 = 0%nat) -> paid x -> (forall reason, paid (f reason)) ->
  paid (settle t x f).
Proof.
  intros Ht Hx Hf s. destruct (settle_run t x f s) as (z & Hz & E1 & E2). unfold paid_at. rewrite E1, E2.
  destruct (Ht s) as [E3 ->]. assert (Hp : paid z) by (destruct Hz as [->|[reason ->]]; auto).
  specialize (Hp (t s).1.1). unfold paid_at, attempts_of in *. rewrite E3 in Hp. lia.
Qed.
Lemma paid_spawn_other w a x f :
  a <> ProcessAdapterId.Resident id -> paid x -> (forall reason, paid (f reason)) -> paid (settle (spawn_adapter w a) x f).
Proof.
  intros Ha. apply paid_settle. intros s. destruct (launches_spawn w a s) as [E H]. split; [done|].
  destruct (decide (a = ProcessAdapterId.Resident id)); [done|lia].
Qed.

(** The commands that decide about the plugin *)
Definition manages (l : Step) : bool :=
  match l with
  | Command _ (StartPlugin plugin _ _) | Command _ (RestartPlugin plugin) | Command _ (StopPlugin plugin) =>
      bool_decide (plugin = id)
  | _ => false
  end.

Lemma paid_process_exit w a reason : paid (process_exit w a reason).
Proof.
  apply paid_with_any. intros s. apply paid_next; [by apply paid_modify|].
  apply paid_next; [apply paid_calm; auto with calm|]. apply paid_next; [apply paid_calm; auto with calm|].
  apply paid_next; [apply paid_emit|]. destruct a as [plugin| |]; [|apply paid_calm, calm_nothing..].
  apply paid_with. intros s'. cbv zeta. destruct (decide (plugin = id)) as [->|Hne].
  - fold (attempts_of s'). case_match eqn:Ecase.
    + unfold paid_at. rewrite next_act_run. cbn [fst snd modify]. set (s1 := on_restarts _ s'). rewrite launches_app.
      destruct (settle_run (spawn_adapter w (ProcessAdapterId.Resident id)) nothing
        (reject (Some (ProcessAdapterId.Resident id))) s1) as (z & Hz & E1 & E2).
      unfold or_reject. rewrite E1, E2. destruct (launches_spawn w (ProcessAdapterId.Resident id) s1) as [E3 Hle].
      assert (Hp : paid z) by (destruct Hz as [->|[? ->]]; [apply paid_calm, calm_nothing|apply paid_emit]).
      specialize (Hp (spawn_adapter w (ProcessAdapterId.Resident id) s1).1.1). unfold paid_at, attempts_of in Hp.
      rewrite E3 in Hp. cbn in Hp. rewrite lookup_insert_eq in Hp. cbn in Hp. unfold attempts_of in *.
      destruct (decide _) in Hle; [|done]. cbn. lia.
    + unfold paid_at, attempts_of. cbn. rewrite lookup_insert_eq. cbn. lia.
  - assert (Hm : forall r, paid (modify (on_restarts (insert plugin r))))
      by (intros r; apply paid_modify; intros s2; cbn; by rewrite lookup_insert_ne).
    case_match; [|apply Hm]. apply paid_next; [apply Hm|].
    apply paid_spawn_other; [congruence|apply paid_calm, calm_nothing|]. intros. apply paid_emit.
Qed.

Lemma paid_handle_line a line : paid (handle_line a line).
Proof.
  unfold handle_line. destruct (decode_line line) as [message|]; [|apply paid_calm; auto with calm].
  apply paid_with. intros s. destruct (ready s a); cbn [negb].
  - assert (Hr : restarts (validate_inbound s a message).1 = restarts s).
    { assert (Hv : restarts (validate_range s message).1 = restarts s)
        by (destruct message; try done; unfold validate_range; by repeat case_match).
      unfold validate_inbound. destruct (_ ≫= _) as [g|]; [|done]. destruct (permits g message); [|done]. cbn.
      destruct message; try done; destruct (validate_transfer _ _); try done; destruct (validate_range s _) as [s1 []]; exact Hv. }
    destruct (validate_inbound s a message) as [s' r]. cbn in Hr. unfold paid_at.
    assert (Hx : forall x, paid x -> attempts_of s + Z.of_nat (launches ((modify (fun _ => s') >>> x) s).2)
      <= attempts_of ((modify (fun _ => s') >>> x) s).1).
    { intros x Hx. rewrite next_act_run. cbn [fst snd modify app]. specialize (Hx s'). unfold paid_at, attempts_of in *.
      by rewrite Hr in Hx. }
    destruct r; apply Hx; [|apply paid_calm; auto with calm].
    repeat apply paid_next; [..|apply paid_emit]; apply paid_modify; intros s2; [by case_match|by destruct message..].
  - revert s. change (paid (accept_handshake a message)). apply paid_with_any. intros s.
    destruct (processes s !! a) as [run|]; [|apply paid_calm, calm_nothing]. cbv zeta.
    destruct (validate_handshake _ _ _ _); [|apply paid_calm; auto with calm].
    apply paid_next; [by apply paid_modify|]. apply paid_next; [apply paid_emit|]. apply paid_calm. auto 10 with calm.
Qed.
Lemma paid_handle_process_event w event : paid (handle_process_event w event).
Proof.
  apply paid_with_any. intros s. destruct event; (case_match; [|apply paid_calm, calm_nothing]);
    auto using paid_handle_line, paid_process_exit.
  apply paid_next; [by apply paid_modify|]. apply paid_with_any. intros. apply paid_emit.
Qed.

Lemma paid_handle_command w command : manages (Command w command) = false -> paid (handle_command w command).
Proof.
  intros Hm. destruct command as [p spec settings|p spec manifest|p|p|p settings|p key value|p theme|p spec theme
    |p event|p publication|p t mime value|p response|p released|p unmounted|a t|]; cbn [handle_command];
    try (apply paid_calm; auto with calm; fail); cbn in Hm; rewrite ?bool_decide_eq_false in Hm.
  - apply paid_with_any. intros s. case_match.
    + apply paid_next; [by apply paid_modify|apply paid_calm; auto with calm].
    + repeat (apply paid_next; [apply paid_modify; intros s2; cbn; rewrite ?lookup_delete_ne; done|]).
      apply paid_spawn_other; [congruence|apply paid_calm, calm_nothing|]. intros. apply paid_emit.
  - unfold handle_start_transfer. case_match; [apply paid_emit|]. apply paid_with_any. intros s.
    case_match; [apply paid_emit|]. apply paid_next; [by apply paid_modify|].
    apply paid_spawn_other; [done|by apply paid_modify|]. intros. apply paid_emit.
  - apply paid_next; [|apply paid_next; apply paid_modify; intros s; cbn; rewrite ?lookup_delete_ne; done].
    apply paid_with_any. intros s. apply paid_each. intros a. apply paid_next; [by apply paid_modify|].
    apply paid_calm. auto with calm.
  - apply paid_next.
    + apply paid_with_any. intros s. apply paid_each. intros a. apply paid_next; [by apply paid_modify|].
      apply paid_calm. auto with calm.
    + apply paid_with_any. intros s. apply paid_when.
      repeat (apply paid_next; [apply paid_modify; intros s2; cbn; rewrite ?lookup_delete_ne; done|]).
      apply paid_spawn_other; [congruence|apply paid_calm, calm_nothing|]. intros. apply paid_emit.
  - apply paid_next; [by apply paid_modify|apply paid_calm; auto with calm].
  - apply paid_with_any. intros s. case_match; [apply paid_calm; auto with calm|]. by apply paid_modify.
  - apply paid_with_any. intros s. apply paid_when. apply paid_settle; [|apply paid_calm, calm_nothing|intros; apply paid_emit].
    intros s2. unfold spawn_settings_window. destruct (running s2 _); [done|]. destruct (verify_content w spec); [|done].
    destruct (check_executable w _); [|done].
    destruct (launches_start w spec (ProcessAdapterId.Settings p) (Some (theme_text theme)) s2) as [E Hle].
    split; [done|]. destruct (decide _) in Hle; [done|lia].
  - apply paid_calm. unfold handle_pointer. auto with calm.
  - apply paid_calm. unfold handle_range_response. auto 20 with calm.
  - apply paid_calm. unfold handle_released. auto with calm.
  - apply paid_calm. unfold handle_unmounted. auto with calm.
  - apply paid_calm. unfold handle_cancel. auto 20 with calm.
  - by apply paid_modify.
Qed.

(** The starts of the resident process since the last command about it. *)
Fixpoint relaunches (past : list (Step * list Effect)) : nat :=
  match past with
  | [] => 0
  | (l, effects) :: past => if manages l then 0 else launches effects + relaunches past
  end%nat.

Lemma paid_turn x rest y y' effects :
  paid x -> manager_turn x rest y = (y', effects) ->
  attempts_of (state y) + Z.of_nat (launches effects) <= attempts_of (state y').
Proof.
  intros Hx. unfold manager_turn. specialize (Hx (state y)). unfold paid_at in Hx. destruct (x (state y)) as [s1 es].
  assert (H : paid (if stopping s1 then stop_all else nothing)) by (apply paid_calm; destruct (stopping s1); auto with calm).
  specialize (H s1). unfold paid_at in H.
  destruct ((if stopping s1 then stop_all else nothing) s1) as [s2 more]. cbn [fst snd] in *. intros [= <- <-].
  rewrite launches_app. cbn [state]. lia.
Qed.
Lemma paid_step y l y' effects :
  manages l = false -> step y l = Some (y', effects) ->
  attempts_of (state y) + Z.of_nat (launches effects) <= attempts_of (state y').
Proof.
  intros Hm Hstep. destruct l as [w command|w|a g line|a g line|a g status|a g reason|a|a reason]; cbn [step] in Hstep.
  - destruct (stopping _); [done|]. injection Hstep as Hturn. by eapply paid_turn; [apply paid_handle_command|].
  - destruct (stopping _); [done|]. destruct (inbox y) as [|event rest]; [done|]. injection Hstep as Hturn.
    by eapply paid_turn; [apply paid_handle_process_event|].
  - destruct (_ && _); [|done]. injection Hstep as <- <-. cbn. lia.
  - destruct (task_of _ _ _); [|done]. injection Hstep as <- <-. cbn. lia.
  - destruct (task_of _ _ _); [|done]. injection Hstep as <- <-. cbn. lia.
  - destruct (_ && _); [|done]. injection Hstep as <- <-. cbn. lia.
  - destruct (processes (state y) !! a) as [run|]; [|done]. destruct (writer run); [done|]. destruct (writer_open run); [|done].
    injection Hstep as <- <-. unfold attempts_of. cbn. lia.
  - destruct (processes (state y) !! a) as [run|]; [|done]. destruct (writer run); [done|]. destruct (_ && _); [|done].
    injection Hstep as <- <-. unfold attempts_of. cbn. lia.
Qed.
Lemma attempts_bounded s : bounded s -> 0 <= attempts_of s <= MAX_RESTARTS.
Proof.
  intros Hb. unfold attempts_of. destruct (restarts s !! id) eqn:E; cbn; [by eapply bounded_restarts|unfold MAX_RESTARTS; lia].
Qed.
Lemma relaunches_counted past y : reaches past y -> Z.of_nat (relaunches past) <= attempts_of (state y).
Proof.
  induction 1 as [|past y l y' effects Hr IH Hstep]; [done|]. cbn [relaunches]. destruct (manages l) eqn:Hm.
  - pose proof (Reaches_step _ _ _ _ _ Hr Hstep) as Hr'. destruct (reaches_bounded _ _ Hr') as [Hb _].
    apply attempts_bounded in Hb. lia.
  - pose proof (paid_step _ _ _ _ Hm Hstep). lia.
Qed.
End crashes.

(** C26: in every history the resident process of a plugin is started at most
    three times between two commands about it, however often it crashes; at most
    256 range requests wait for an answer; at most 64 changes are remembered for
    a plugin, no two for the same setting; at most 20 diagnostic lines are kept;
    and the queues of the processes and of their events hold at most 64 entries. *)
Theorem plugins_cost_bounded past y id :
  reaches past y ->
  (relaunches id past <= 3)%nat
  /\ (size (pending_ranges (state y)) <= 256)%nat
  /\ (forall plugin changes, pending_changes (state y) !! plugin = Some changes ->
        (length changes <= 64)%nat /\ NoDup changes.*1)
  /\ (forall plugin lines, diagnostics (state y) !! plugin = Some lines -> (length lines <= 20)%nat)
  /\ (forall a run, processes (state y) !! a = Some run -> len (writer run) <= 64)
  /\ len (inbox y) <= 64.
Proof.
  intros Hr. destruct (reaches_bounded _ _ Hr) as [Hb Hi]. pose proof (relaunches_counted id _ _ Hr).
  pose proof (attempts_bounded id _ Hb). unfold MAX_RESTARTS in *. destruct Hb. split; [lia|].
  split; [done|]. split; [done|]. split; [done|]. split; [done|done].
Qed.
End bounds.

Module Crashing.
Import ClipboardPlugin.
#[local] Existing Instance list_order.

Lemma plugins_cost_bounded_witness :
  relaunches (str "clip") (past_of crashes) = 1%nat /\ (relaunches (str "clip") (past_of crashes) <= 3)%nat.
Proof.
  split; [vm_compute; reflexivity|]. apply (plugins_cost_bounded (past_of crashes) (system_of crashes) (str "clip")).
  apply possible_run. vm_compute. reflexivity.
Defined.
End Crashing.
