(* ===== verification/HistoryDb.v ===== *)
(** * The history database

    [crates/syntra-store/src/lib.rs]: the tables of the clipboard history and
    the statements on them.  A table is a finite map by its primary key; a
    statement is the change it makes to the tables; a transaction that returns an
    error leaves them as they were.  Rows a query does not order are in an order
    of their own ([hash_order]).  Failures of the disk are not modelled. *)

From stdpp Require Import sorting.
From S2P Require Import Prelude Wire ProtoValid FileTransfer ClipboardService.

(** JSON of serde: the columns of files and of boundaries. *)
Class StoreJson := {
  files_to_json : list (rstring * Z * option rstring) -> rstring;
  files_from_json : rstring -> result rstring (list (rstring * Z * option rstring));
  boundary_to_json : gmap rstring Z -> rstring;
}.

Definition MAX_TEXT_BYTES : Z := 1024 * 1024.
Definition MAX_IMAGE_BYTES : Z := 32 * 1024 * 1024.
Definition MAX_FILES : Z := 1024.
Definition MAX_METADATA_BYTES : Z := 16 * 1024.
Definition MAX_DEVICE_ID_BYTES : Z := 1024.
Definition MAX_ORIGIN_LABEL_BYTES : Z := 16 * 1024.
Definition MAX_OPERATION_ID_BYTES : Z := 1024.
Definition MAX_UNPINNED_RECORDS : nat := 1000.
Definition i64_max : Z := 2 ^ 63 - 1.

(** ** Data *)

Module HistoryKind.
Inductive t := Text | Image | Files.
#[global] Instance t_eq_dec : EqDecision t.
Proof. solve_decision. Defined.
Definition as_str (kind : t) : rstring :=
  match kind with Text => str "text" | Image => str "image" | Files => str "files" end.
Definition parse (value : rstring) : option t :=
  if bool_decide (value = str "text") then Some Text
  else if bool_decide (value = str "image") then Some Image
  else if bool_decide (value = str "files") then Some Files
  else None.
End HistoryKind.

(** [HistoryEventId]: the device and its sequence *)
Definition HistoryEventId : Type := rstring * Z.
Definition content_kind (content : HistoryContent) : HistoryKind.t :=
  match content with
  | HistoryText _ => HistoryKind.Text
  | HistoryImage _ _ _ _ => HistoryKind.Image
  | HistoryFiles _ => HistoryKind.Files
  end.

Record ImportedHistoryEvent := {
  event_id : HistoryEventId;
  created_at_ms : Z;
  origin_label : option rstring;
  event_content : HistoryContent;
}.
#[global] Instance imported_eq_dec : EqDecision ImportedHistoryEvent.
Proof. solve_decision. Defined.
Record HistoryRecord := { immutable_event : ImportedHistoryEvent; record_pinned : bool }.

Inductive MergeOutcome := Inserted | AlreadyPresent | Suppressed.
#[global] Instance outcome_eq_dec : EqDecision MergeOutcome.
Proof. solve_decision. Defined.

Inductive PayloadError :=
| MustNotBeEmpty (label : string)
| Exceeds (label : string) (maximum : Z)
| ImageTooLarge
| ImageIsEmpty
| DimensionsTogether
| DimensionsPositive
| RgbaDimensions
| RgbaLength
| ImageWithoutContent
| FileCount
| KindMismatch
| SequenceTooLarge
| SequenceExhausted
| TimestampTooLarge
| EventDisappeared
| ImageUnreadable (reason : rstring).
Inductive HistoryError :=
| Database (conversion : string)
| InvalidPayload (error : PayloadError)
| CorruptData (what : string)
| EventConflict (id : HistoryEventId)
| ClearOperationConflict (operation : rstring)
| InvalidClock.

(** ** Tables *)

Record EventRow := {
  row_kind : rstring;
  row_created : Z;
  row_label : option rstring;
  text_payload : option rstring;
  image_payload : option bytes;
  row_media_type : option rstring;
  image_width : option Z;
  image_height : option Z;
  files_json : option rstring;
}.
Record LocalState := { pinned : bool; dismissed : bool }.

(** [history_clear_operations] keeps the boundary and the count; the rows of
    [history_clear_boundaries] are keyed by operation and device. *)
Record Db := {
  history_events : gmap HistoryEventId EventRow;
  history_local_state : gmap HistoryEventId LocalState;
  clear_operations : gmap rstring (rstring * Z);
  clear_boundaries : gmap (rstring * rstring) Z;
}.
Definition empty_db : Db := {|
  history_events := ∅; history_local_state := ∅; clear_operations := ∅; clear_boundaries := ∅ |}.
Definition on_events f (db : Db) : Db := {|
  history_events := f (history_events db); history_local_state := history_local_state db;
  clear_operations := clear_operations db; clear_boundaries := clear_boundaries db |}.
Definition on_local f (db : Db) : Db := {|
  history_events := history_events db; history_local_state := f (history_local_state db);
  clear_operations := clear_operations db; clear_boundaries := clear_boundaries db |}.
Definition on_operations f (db : Db) : Db := {|
  history_events := history_events db; history_local_state := history_local_state db;
  clear_operations := f (clear_operations db); clear_boundaries := clear_boundaries db |}.
Definition on_boundaries f (db : Db) : Db := {|
  history_events := history_events db; history_local_state := history_local_state db;
  clear_operations := clear_operations db; clear_boundaries := f (clear_boundaries db) |}.

(** [COALESCE] over the [LEFT JOIN] with the local state *)
Definition no_local_state : LocalState := {| pinned := false; dismissed := false |}.
Definition local_flags (db : Db) (id : HistoryEventId) : LocalState :=
  default no_local_state (history_local_state db !! id).
Definition is_pinned (db : Db) (id : HistoryEventId) : bool := pinned (local_flags db id).
Definition is_dismissed (db : Db) (id : HistoryEventId) : bool := dismissed (local_flags db id).

Section store.
Context {json : StoreJson} {order : HashOrder}.

(** ** Validation *)

Definition validate_string (label : string) (value : rstring) (maximum : Z) : result HistoryError unit :=
  fail_if bool_decide (value = []) with InvalidPayload (MustNotBeEmpty label) in
  fail_if maximum <? len value with InvalidPayload (Exceeds label maximum) in
  Ok tt.
Definition validate_optional (label : string) (value : option rstring) (maximum : Z) : result HistoryError unit :=
  match value with Some value => validate_string label value maximum | None => Ok tt end.
Definition sequence_to_sql (sequence : Z) : result HistoryError Z :=
  if sequence <=? i64_max then Ok sequence else Err (InvalidPayload SequenceTooLarge).

Definition RGBA : rstring := str "image/x-rgba8".
Definition rgba_length (width height : option Z) : option Z :=
  match width, height with
  | Some width, Some height => checked_mul width height ≫= fun pixels => checked_mul pixels 4
  | _, _ => None
  end.
Definition validate_image (bytes : option bytes) (media_type : option rstring) (width height : option Z)
    : result HistoryError unit :=
  let bad e := @Err _ unit (InvalidPayload e) in
  let* _ := match bytes with Some b => if MAX_IMAGE_BYTES <? len b then bad ImageTooLarge else Ok tt | None => Ok tt end in
  let* _ := match bytes with Some [] => bad ImageIsEmpty | _ => Ok tt end in
  let* _ := validate_optional "image media type" media_type MAX_METADATA_BYTES in
  fail_if negb (Bool.eqb (bool_decide (is_Some width)) (bool_decide (is_Some height)))
    with InvalidPayload DimensionsTogether in
  fail_if bool_decide (width = Some 0) || bool_decide (height = Some 0) with InvalidPayload DimensionsPositive in
  let* _ :=
    if bool_decide (media_type = Some RGBA) then
      match rgba_length width height with
      | None => bad RgbaDimensions
      | Some expected => if bool_decide (len <$> bytes = Some expected) then Ok tt else bad RgbaLength
      end
    else Ok tt in
  fail_if bool_decide (bytes = None) && bool_decide (media_type = None) with InvalidPayload ImageWithoutContent in
  Ok tt.
Fixpoint validate_files (files : list (rstring * Z * option rstring)) : result HistoryError unit :=
  match files with
  | [] => Ok tt
  | (name, _, media_type) :: files =>
      let* _ := validate_string "file name" name MAX_METADATA_BYTES in
      let* _ := validate_optional "file media type" media_type MAX_METADATA_BYTES in
      validate_files files
  end.
Definition validate_content (content : HistoryContent) : result HistoryError unit :=
  match content with
  | HistoryText text => validate_string "text" text MAX_TEXT_BYTES
  | HistoryImage bytes media_type width height => validate_image bytes media_type width height
  | HistoryFiles files =>
      fail_if bool_decide (files = []) || (MAX_FILES <? len files) with InvalidPayload FileCount in
      validate_files files
  end.
Definition validate_event (event : ImportedHistoryEvent) : result HistoryError unit :=
  let* _ := validate_string "origin device id" (event_id event).1 MAX_DEVICE_ID_BYTES in
  let* _ := validate_optional "origin label" (origin_label event) MAX_ORIGIN_LABEL_BYTES in
  let* _ := sequence_to_sql (event_id event).2 in
  validate_content (event_content event).

(** ** Rows *)

Definition encode_row (event : ImportedHistoryEvent) : EventRow :=
  let row text image media_type width height files := {|
    row_kind := HistoryKind.as_str (content_kind (event_content event)); row_created := created_at_ms event;
    row_label := origin_label event; text_payload := text; image_payload := image; row_media_type := media_type;
    image_width := width; image_height := height; files_json := files |} in
  match event_content event with
  | HistoryText text => row (Some text) None None None None None
  | HistoryImage bytes media_type width height => row None bytes media_type width height None
  | HistoryFiles files => row None None None None None (Some (files_to_json files))
  end.
Definition decode_content (row : EventRow) : result HistoryError HistoryContent :=
  match HistoryKind.parse (row_kind row) with
  | None => Err (Database "unknown kind")
  | Some HistoryKind.Text =>
      match text_payload row with
      | Some text => Ok (HistoryText text)
      | None => Err (Database "text payload missing")
      end
  | Some HistoryKind.Image => Ok (HistoryImage (image_payload row) (row_media_type row) (image_width row) (image_height row))
  | Some HistoryKind.Files =>
      match files_json row with
      | Some text =>
          match files_from_json text with
          | Ok files => Ok (HistoryFiles files)
          | Err _ => Err (Database "file metadata unreadable")
          end
      | None => Err (Database "file metadata missing")
      end
  end.
Definition decode_record (id : HistoryEventId) (row : EventRow) (pin : bool) : result HistoryError HistoryRecord :=
  let* content := decode_content row in
  fail_if id.2 <? 0 with Database "negative origin sequence" in
  Ok {| immutable_event := {| event_id := id; created_at_ms := row_created row; origin_label := row_label row;
                              event_content := content |};
        record_pinned := pin |}.
(** [UPDATE history_events SET text_payload = NULL, ...] *)
Definition erase_row (row : EventRow) : EventRow := {|
  row_kind := row_kind row; row_created := row_created row; row_label := row_label row;
  text_payload := None; image_payload := None; row_media_type := None;
  image_width := image_width row; image_height := image_height row; files_json := None |}.

(** ** Queries *)

Definition event_rows (db : Db) : list (HistoryEventId * EventRow) := hash_order (map_to_list (history_events db)).
(** [WHERE COALESCE(s.dismissed, 0) = 0] *)
Definition visible_rows (db : Db) : list (HistoryEventId * EventRow) :=
  List.filter (fun '(id, _) => negb (is_dismissed db id)) (event_rows db).

(** [ORDER BY created_at_ms DESC, origin_sequence DESC] *)
Definition newer (a b : HistoryEventId * EventRow) : Prop :=
  row_created b.2 < row_created a.2 \/ (row_created a.2 = row_created b.2 /\ b.1.2 <= a.1.2).
#[global] Instance newer_dec : RelDecision newer.
Proof. intros a b. unfold newer. apply _. Defined.
(** [ORDER BY created_at_ms DESC, origin_device_id, origin_sequence DESC] *)
Definition chronological (a b : HistoryEventId * EventRow) : Prop :=
  row_created b.2 < row_created a.2
  \/ (row_created a.2 = row_created b.2
      /\ if bool_decide (a.1.1 = b.1.1) then b.1.2 <= a.1.2 else bytes_le a.1.1 b.1.1 = true).
#[global] Instance chronological_dec : RelDecision chronological.
Proof. intros a b. unfold chronological. destruct (bool_decide _); apply _. Defined.
(** the same, after [COALESCE(s.pinned, 0) DESC] *)
Definition pinned_first (db : Db) (a b : HistoryEventId * EventRow) : Prop :=
  (is_pinned db a.1 = true /\ is_pinned db b.1 = false)
  \/ (is_pinned db a.1 = is_pinned db b.1 /\ chronological a b).
#[global] Instance pinned_first_dec db : RelDecision (pinned_first db).
Proof. intros a b. unfold pinned_first. apply _. Defined.

(** SQLite's [LIKE] with the escape character: bytes up to the first NUL, ASCII
    letters in either case; after the escape a byte stands for itself. *)
Definition PERCENT : Z := 37.
Definition UNDERSCORE : Z := 95.
Definition BACKSLASH : Z := 92.
Definition lower (b : Z) : Z := if (65 <=? b) && (b <=? 90) then b + 32 else b.
Fixpoint until_nul (s : rstring) : rstring :=
  match s with [] => [] | b :: s => if b =? 0 then [] else b :: until_nul s end.
(** One character of UTF-8, for the wildcard [_] *)
Fixpoint skip_continuation (s : rstring) : rstring :=
  match s with b :: rest => if (128 <=? b) && (b <? 192) then skip_continuation rest else s | [] => [] end.
Definition skip_character (s : rstring) : option rstring :=
  match s with [] => None | _ :: s => Some (skip_continuation s) end.
Fixpoint like (pattern text : rstring) : bool :=
  match pattern with
  | [] => bool_decide (text = [])
  | p :: pattern =>
      if p =? PERCENT then
        (fix any (text : rstring) : bool :=
           like pattern text || match text with [] => false | _ :: text => any text end) text
      else if p =? UNDERSCORE then
        match skip_character text with Some text => like pattern text | None => false end
      else if p =? BACKSLASH then
        match pattern, text with
        | q :: pattern, t :: text => (lower q =? lower t) && like pattern text
        | _, _ => false
        end
      else
        match text with
        | t :: text => (lower p =? lower t) && like pattern text
        | [] => false
        end
  end.

Fixpoint escape_like (value : rstring) : rstring :=
  match value with
  | [] => []
  | b :: value =>
      if (b =? PERCENT) || (b =? UNDERSCORE) || (b =? BACKSLASH) then BACKSLASH :: b :: escape_like value
      else b :: escape_like value
  end.
Definition like_pattern (query : rstring) : rstring := PERCENT :: escape_like query ++ [PERCENT].
(** A column that is NULL matches nothing. *)
Definition column_like (pattern : rstring) (column : option rstring) : bool :=
  match column with Some text => like (until_nul pattern) (until_nul text) | None => false end.
Definition row_matches (pattern : rstring) (row : EventRow) : bool :=
  column_like pattern (row_label row) || column_like pattern (text_payload row)
  || column_like pattern (row_media_type row) || column_like pattern (files_json row).

Definition LIST_SQL (db : Db) : list (HistoryEventId * EventRow) := merge_sort (pinned_first db) (visible_rows db).
Definition SEARCH_SQL (db : Db) (pattern : rstring) : list (HistoryEventId * EventRow) :=
  merge_sort (pinned_first db) (List.filter (fun '(_, row) => row_matches pattern row) (visible_rows db)).
Definition EXPORT_SQL (db : Db) : list (HistoryEventId * EventRow) := merge_sort chronological (visible_rows db).

(** [query_records]: the first row that cannot be decoded is the error *)
Definition query_records (db : Db) (rows : list (HistoryEventId * EventRow)) : result HistoryError (list HistoryRecord) :=
  collect_results ((fun '(id, row) => decode_record id row (is_pinned db id)) <$> rows).
Definition query_window (db : Db) (rows : list (HistoryEventId * EventRow)) (offset limit : Z)
    : result HistoryError (list HistoryRecord * option Z) :=
  let limit := Z.max 1 (Z.min limit 50) in
  let sql_offset := Z.min offset i64_max in
  let* records := query_records db (take (Z.to_nat (limit + 1)) (drop (Z.to_nat sql_offset) rows)) in
  if limit <? len records then Ok (take (Z.to_nat limit) records, Some (saturating_add offset limit))
  else Ok (records, None).

Definition list_records (db : Db) : result HistoryError (list HistoryRecord) := query_records db (LIST_SQL db).
(** SQLite refuses a longer pattern as soon as it is compared with a row. *)
Definition SQLITE_MAX_LIKE_PATTERN_LENGTH : Z := 50000.
Definition query_rows (db : Db) (query : rstring) : result HistoryError (list (HistoryEventId * EventRow)) :=
  if bool_decide (query = []) then Ok (LIST_SQL db)
  else
    fail_if (SQLITE_MAX_LIKE_PATTERN_LENGTH <? len (like_pattern query)) && negb (bool_decide (visible_rows db = []))
      with Database "LIKE or GLOB pattern too complex" in
    Ok (SEARCH_SQL db (like_pattern query)).
Definition search (db : Db) (query : rstring) : result HistoryError (list HistoryRecord) :=
  let* rows := query_rows db query in query_records db rows.
Definition page (db : Db) (query : rstring) (offset limit : Z) : result HistoryError (list HistoryRecord * option Z) :=
  let* rows := query_rows db query in query_window db rows offset limit.
Definition export_page (db : Db) (offset limit : Z) : result HistoryError (list ImportedHistoryEvent * option Z) :=
  let* (records, next) := query_window db (EXPORT_SQL db) offset limit in
  Ok (immutable_event <$> records, next).
Definition get (db : Db) (id : HistoryEventId) : result HistoryError (option HistoryRecord) :=
  let* _ := sequence_to_sql id.2 in
  match history_events db !! id with
  | Some row => if is_dismissed db id then Ok None else let* r := decode_record id row (is_pinned db id) in Ok (Some r)
  | None => Ok None
  end.
Definition load_event (db : Db) (id : HistoryEventId) : result HistoryError (option HistoryRecord) :=
  let* _ := sequence_to_sql id.2 in
  match history_events db !! id with
  | Some row => let* r := decode_record id row (is_pinned db id) in Ok (Some r)
  | None => Ok None
  end.
Definition is_latest (db : Db) (content : HistoryContent) : bool :=
  let row := encode_row {| event_id := ([], 0); created_at_ms := 0; origin_label := None; event_content := content |} in
  match merge_sort newer (visible_rows db) with
  | (_, latest) :: _ =>
      bool_decide (text_payload latest = text_payload row) && bool_decide (image_payload latest = image_payload row)
      && bool_decide (files_json latest = files_json row)
  | [] => false
  end.

(** [SELECT MAX(...)] *)
Definition maximum (l : list Z) : option Z :=
  match l with [] => None | x :: l => Some (foldr Z.max x l) end.
Definition event_sequences (db : Db) (device : rstring) : list Z :=
  omap (fun '((d, n), _) => if bool_decide (d = device) then Some n else None) (map_to_list (history_events db)).
Definition boundary_sequences (db : Db) (device : rstring) : list Z :=
  omap (fun '((_, d), n) => if bool_decide (d = device) then Some n else None) (map_to_list (clear_boundaries db)).
Definition next_sequence (db : Db) (device : rstring) : result HistoryError Z :=
  let* _ := validate_string "origin device id" device MAX_DEVICE_ID_BYTES in
  let top := default 0 (maximum (event_sequences db device ++ boundary_sequences db device)) in
  fail_if i64_max <=? top with InvalidPayload SequenceExhausted in
  fail_if top + 1 <? 0 with CorruptData "negative persisted origin sequence" in
  Ok (top + 1).
Definition snapshot_boundary (db : Db) : result HistoryError (gmap rstring Z) :=
  let boundary :=
    map_fold (fun '(device, n) _ (b : gmap rstring Z) => <[device := Z.max n (default n (b !! device))]> b) ∅
      (history_events db) in
  if bool_decide (map_Forall (fun _ n => 0 <= n) boundary) then Ok boundary
  else Err (CorruptData "negative origin sequence").

(** ** Changes *)

Definition covered_by_clear (db : Db) (id : HistoryEventId) : bool :=
  existsb (fun '((_, device), top) => bool_decide (device = id.1) && (id.2 <=? top)) (map_to_list (clear_boundaries db)).

(** [DELETE FROM history_events ... LIMIT -1 OFFSET 1000], with its cascade *)
Definition unpinned_rows (db : Db) : list (HistoryEventId * EventRow) :=
  List.filter (fun '(id, _) => negb (is_pinned db id)) (event_rows db).
Definition pruned (db : Db) : list HistoryEventId :=
  (drop MAX_UNPINNED_RECORDS (merge_sort newer (unpinned_rows db))).*1.
Definition prune_unpinned (db : Db) : Db :=
  let dropped := pruned db in
  let kept {A} (m : gmap HistoryEventId A) := filter (fun p => p.1 ∉ dropped) m in
  on_local kept (on_events kept db).

(** [Transaction]: its changes are kept only when it commits *)
Definition merge_imported (db : Db) (event : ImportedHistoryEvent) : Db * result HistoryError MergeOutcome :=
  match validate_event event with
  | Err error => (db, Err error)
  | Ok _ =>
      let id := event_id event in
      if is_dismissed db id then (db, Ok Suppressed)
      else
        match load_event db id with
        | Err error => (db, Err error)
        | Ok (Some existing) =>
            (db, if bool_decide (immutable_event existing = event) then Ok AlreadyPresent else Err (EventConflict id))
        | Ok None =>
            if covered_by_clear db id then (db, Ok Suppressed)
            else (prune_unpinned (on_events (insert id (encode_row event)) db), Ok Inserted)
        end
  end.
(** [now]: the clock, [None] before the epoch *)
Definition record (db : Db) (now : option Z) (kind : HistoryKind.t) (content : HistoryContent) (device : rstring)
    (sequence : Z) (label : option rstring) : Db * result HistoryError MergeOutcome :=
  if negb (bool_decide (kind = content_kind content)) then (db, Err (InvalidPayload KindMismatch))
  else
    match now with
    | None => (db, Err InvalidClock)
    | Some now =>
        if i64_max <? now then (db, Err (InvalidPayload TimestampTooLarge))
        else merge_imported db {| event_id := (device, sequence); created_at_ms := now; origin_label := label;
                                  event_content := content |}
    end.

Definition set_pinned (db : Db) (id : HistoryEventId) (pin : bool) : Db * result HistoryError bool :=
  match sequence_to_sql id.2 with
  | Err error => (db, Err error)
  | Ok _ =>
      if negb (bool_decide (is_Some (history_events db !! id))) || is_dismissed db id then (db, Ok false)
      else (on_local (insert id {| pinned := pin; dismissed := false |}) db, Ok true)
  end.

(** [INSERT INTO history_local_state ... ON CONFLICT DO UPDATE SET dismissed = 1]
    over the rows with [p], and how many rows that changed *)
Definition dismissable (db : Db) (p : HistoryEventId -> bool) : gmap HistoryEventId EventRow :=
  filter (fun r => (p r.1 && negb (is_pinned db r.1) && negb (is_dismissed db r.1)) = true) (history_events db).
Definition dismiss (db : Db) (p : HistoryEventId -> bool) : Db :=
  on_local (union ((fun _ => {| pinned := false; dismissed := true |}) <$> dismissable db p)) db.
Definition erase_dismissed (db : Db) (p : HistoryEventId -> bool) : Db :=
  on_events (map_imap (fun id row =>
    Some (if p id && negb (is_pinned db id) && is_dismissed db id then erase_row row else row))) db.

Definition within_boundary (device : rstring) (top : Z) (id : HistoryEventId) : bool :=
  bool_decide (id.1 = device) && (id.2 <=? top).
Fixpoint clear_devices (operation : rstring) (boundary : list (rstring * Z)) (db : Db) (affected : Z)
    : result HistoryError (Db * Z) :=
  match boundary with
  | [] => Ok (db, affected)
  | (device, top) :: boundary =>
      let* top := sequence_to_sql top in
      let db := on_boundaries (insert (operation, device) top) db in
      let p := within_boundary device top in
      let changed := Z.of_nat (size (dismissable db p)) in
      clear_devices operation boundary (erase_dismissed (dismiss db p) p) (affected + changed)
  end.
(** [BTreeMap]: by the bytes of the device *)
Definition device_le (a b : rstring * Z) : Prop := bytes_le a.1 b.1 = true.
#[global] Instance device_le_dec : RelDecision device_le.
Proof. intros a b. unfold device_le. apply _. Defined.
Definition boundary_list (boundary : gmap rstring Z) : list (rstring * Z) := merge_sort device_le (map_to_list boundary).

Definition clear_unpinned_through (db : Db) (operation : rstring) (boundary : gmap rstring Z) : Db * result HistoryError Z :=
  match (let* _ := validate_string "clear operation id" operation MAX_OPERATION_ID_BYTES in
         collect_results ((fun '(device, _) => validate_string "boundary device id" device MAX_DEVICE_ID_BYTES)
           <$> boundary_list boundary)) with
  | Err error => (db, Err error)
  | Ok _ =>
      let text := boundary_to_json boundary in
      match clear_operations db !! operation with
      | Some (stored, affected) =>
          if negb (bool_decide (stored = text)) then (db, Err (ClearOperationConflict operation))
          else if affected <? 0 then (db, Err (CorruptData "invalid stored clear affected count"))
          else (db, Ok affected)
      | None =>
          match clear_devices operation (boundary_list boundary) db 0 with
          | Err error => (db, Err error)
          | Ok (db', affected) => (on_operations (insert operation (text, affected)) db', Ok affected)
          end
      end
  end.
Definition clear_unpinned (db : Db) : Db * result HistoryError Z :=
  let everything (_ : HistoryEventId) := true in
  (erase_dismissed (dismiss db everything) everything, Ok (Z.of_nat (size (dismissable db everything)))).
End store.
