(* ===== verification/HistoryWorker.v ===== *)
(** * The history worker

    [crates/syntra-store/src/worker.rs]: the thread that owns the database, one
    command after the other, with the counter of changes it announces and the
    summaries it hands to the interface; and [crates/syntra-core/src/history.rs],
    which passes them on. *)

From S2P Require Import Prelude Wire HistoryService ClipboardService HistoryDb.

Definition MAX_PAGE_SIZE : Z := 50.
Definition MAX_TEXT_PREVIEW_BYTES : nat := 512.
Definition MAX_FILE_NAMES : nat := 8.

(** The decoder and scaler of pictures: the thumbnail as width, height and RGBA
    bytes, or why there is none. *)
Class Thumbnails := {
  thumbnail_rgba : Z -> Z -> bytes -> result rstring (Z * Z * bytes);
  thumbnail_decoded : bytes -> result rstring (Z * Z * bytes);
}.

(** ** Summaries *)

Inductive HistorySummaryContent :=
| SummaryText (preview : rstring) (truncated : bool)
| SummaryImage (media_type : option rstring) (width height : option Z) (size_bytes : Z)
| SummaryFiles (count total_size_bytes : Z) (names : list rstring) (names_truncated : bool).
Record HistorySummary := {
  summary_id : HistoryEventId;
  summary_created : Z;
  summary_label : option rstring;
  summary_pinned : bool;
  summary_kind : HistoryKind.t;
  summary_content : HistorySummaryContent;
}.

(** [str::is_char_boundary]: the ends, and every byte that is not [10xxxxxx] *)
Definition is_char_boundary (s : rstring) (i : nat) : bool :=
  match s !! i with Some b => negb ((128 <=? b) && (b <? 192)) | None => (i =? length s)%nat end.
Fixpoint boundary_below (s : rstring) (i : nat) : nat :=
  match i with O => O | S j => if is_char_boundary s i then i else boundary_below s j end.
Definition truncate_utf8 (value : rstring) (maximum : nat) : rstring :=
  if (length value <=? maximum)%nat then value else take (boundary_below value maximum) value.

Definition summarize (r : HistoryRecord) : HistorySummary :=
  let e := immutable_event r in
  let content :=
    match event_content e with
    | HistoryText text =>
        let preview := truncate_utf8 text MAX_TEXT_PREVIEW_BYTES in
        SummaryText preview (len preview <? len text)
    | HistoryImage bytes media_type width height =>
        SummaryImage media_type width height (match bytes with Some b => len b | None => 0 end)
    | HistoryFiles files =>
        SummaryFiles (Z.min (len files) u32_max) (foldl (fun total '(_, size, _) => saturating_add total size) 0 files)
          ((fun '(name, _, _) => name) <$> take MAX_FILE_NAMES files) (MAX_FILE_NAMES <? length files)%nat
    end in
  {| summary_id := event_id e; summary_created := created_at_ms e; summary_label := origin_label e;
     summary_pinned := record_pinned r; summary_kind := content_kind (event_content e); summary_content := content |}.

(** ** Commands *)

Inductive WorkerCommand :=
| RecordContent (device : option rstring) (label : option rstring) (content : HistoryContent)
| RecordEvent (content : HistoryContent)
| ImportEvent (event : ImportedHistoryEvent)
| ExportPage (offset limit : Z)
| PageOf (query : rstring) (offset limit : Z)
| ImageOf (id : HistoryEventId)
| ContentOf (id : HistoryEventId)
| Pin (id : HistoryEventId) (pin : bool)
| SnapshotBoundary
| ApplyClear (operation : rstring) (boundary : gmap rstring Z).

Inductive WorkerReply :=
| Recorded (id : HistoryEventId)
| RecordedEvent (event : ImportedHistoryEvent)
| Merged (outcome : MergeOutcome)
| Exported (events : list ImportedHistoryEvent) (next : option Z)
| Summaries (records : list HistorySummary) (next : option Z)
| ImagePayload (image : option (bytes * rstring * Z * Z))
| Content (content : option HistoryContent)
| Pinned (updated : bool)
| Boundary (boundary : gmap rstring Z)
| Cleared (affected : Z).

Section worker.
Context {json : StoreJson} {order : HashOrder} {thumbnails : Thumbnails}.
Context (local_device : rstring) (local_label : option rstring).

(** The store and the revision announced to the interface *)
Record Worker := { db : Db; revision : Z }.

(** [respond] and [respond_changed] *)
Definition respond (w : Worker) {A} (r : result HistoryError A) (reply : A -> WorkerReply)
    : Worker * result HistoryError WorkerReply :=
  (w, match r with Ok a => Ok (reply a) | Err error => Err error end).
Definition respond_changed (revision : Z) (db : Db) (r : result HistoryError (WorkerReply * bool))
    : Worker * result HistoryError WorkerReply :=
  match r with
  | Ok (reply, changed) => ({| db := db; revision := if changed then (revision + 1) mod 2 ^ 64 else revision |}, Ok reply)
  | Err error => ({| db := db; revision := revision |}, Err error)
  end.

Definition record_as (d : Db) (now : option Z) (device : rstring) (label : option rstring) (content : HistoryContent)
    : Db * result HistoryError (HistoryEventId * bool) :=
  match next_sequence d device with
  | Err error => (d, Err error)
  | Ok sequence =>
      let (d, r) := record d now (content_kind content) content device sequence label in
      (d, match r with
          | Ok outcome => Ok ((device, sequence), bool_decide (outcome = Inserted))
          | Err error => Err error
          end)
  end.

(** [MAX_EDGE] is the crate's argument *)
Definition thumbnail (data : bytes) (media_type : option rstring) (width height : option Z)
    : result HistoryError (bytes * rstring * Z * Z) :=
  let* image :=
    if bool_decide (media_type = Some RGBA) then
      match width, height with
      | Some width, Some height => Ok (thumbnail_rgba width height data)
      | _, _ => Err (InvalidPayload (ImageUnreadable (str "RGBA image is missing dimensions")))
      end
    else Ok (thumbnail_decoded data) in
  match image with
  | Ok (width, height, rgba) => Ok (rgba, RGBA, width, height)
  | Err reason => Err (InvalidPayload (ImageUnreadable reason))
  end.

(** [now]: the clock when the command is handled *)
Definition handle_command (w : Worker) (now : option Z) (command : WorkerCommand)
    : Worker * result HistoryError WorkerReply :=
  let d := db w in
  match command with
  | RecordContent device label content =>
      let (d, r) := record_as d now (default local_device device)
        (match label with Some label => Some label | None => local_label end) content in
      respond_changed (revision w) d (let* (id, inserted) := r in Ok (Recorded id, inserted))
  | RecordEvent content =>
      let (d, r) := record_as d now local_device local_label content in
      respond_changed (revision w) d
        (let* (id, inserted) := r in
         let* found := get d id in
         match found with
         | Some record => Ok (RecordedEvent (immutable_event record), inserted)
         | None => Err (InvalidPayload EventDisappeared)
         end)
  | ImportEvent event =>
      let (d, r) := merge_imported d event in
      respond_changed (revision w) d (let* outcome := r in Ok (Merged outcome, bool_decide (outcome = Inserted)))
  | ExportPage offset limit =>
      respond w (export_page d offset (Z.min limit MAX_PAGE_SIZE)) (fun '(events, next) => Exported events next)
  | PageOf query offset limit =>
      respond w (page d query offset (Z.min limit MAX_PAGE_SIZE)) (fun '(records, next) => Summaries (summarize <$> records) next)
  | ImageOf id =>
      respond w
        (let* found := get d id in
         match found with
         | Some record =>
             match event_content (immutable_event record) with
             | HistoryImage (Some data) media_type width height =>
                 let* image := thumbnail data media_type width height in Ok (Some image)
             | _ => Ok None
             end
         | None => Ok None
         end) ImagePayload
  | ContentOf id =>
      respond w (let* found := get d id in Ok ((fun r => event_content (immutable_event r)) <$> found)) Content
  | Pin id pin =>
      match get d id with
      | Err error => respond_changed (revision w) d (Err error)
      | Ok None => respond_changed (revision w) d (Ok (Pinned false, false))
      | Ok (Some record) =>
          if Bool.eqb (record_pinned record) pin then respond_changed (revision w) d (Ok (Pinned false, false))
          else
            let (d, r) := set_pinned d id pin in
            respond_changed (revision w) d (let* updated := r in Ok (Pinned updated, updated))
      end
  | SnapshotBoundary => respond w (snapshot_boundary d) Boundary
  | ApplyClear operation boundary =>
      (* [total_changes] grows unless the operation is a replay *)
      let replayed := bool_decide (is_Some (clear_operations d !! operation)) in
      let (d, r) := clear_unpinned_through d operation boundary in
      respond_changed (revision w) d
        (let* affected := r in Ok (Cleared affected, negb (affected =? 0) && negb replayed))
  end.
End worker.
