(* ===== verification/HistoryDbTheorems.v ===== *)
(** * The history database: its rows stay readable

    What every row of the tables is, kept by every command; queries therefore
    never meet a row they cannot decode, and a dismissed row holds no content. *)

From stdpp Require Import sorting.
From S2P Require Import Prelude Wire FileTransfer ClipboardService HistoryDb HistoryWorker.

(** serde reads what it wrote. *)
Class StoreJsonLaws (json : StoreJson) : Prop := {
  files_round_trip files : files_from_json (files_to_json files) = Ok files;
  boundary_json_inj b b' : boundary_to_json b = boundary_to_json b' -> b = b';
}.

Lemma filter_fst_nodup {A B} (f : A * B -> bool) (l : list (A * B)) : NoDup l.*1 -> NoDup (List.filter f l).*1.
Proof.
  induction l as [|[i r] l IH]; cbn; [constructor|]. intros [Hi Hl]%NoDup_cons. destruct (f (i, r)); [|by apply IH].
  constructor; [|by apply IH]. intros ((j & q) & E & Hin)%list_elem_of_fmap. cbn in E. subst j. apply Hi, list_elem_of_fmap.
  exists (i, q). split; [done|]. by apply list_elem_of_In, filter_In in Hin as [?%list_elem_of_In _].
Qed.

Section rows.
Context {json : StoreJson} {laws : StoreJsonLaws json} {order : HashOrder} {thumbnails : Thumbnails}.
Implicit Types (d : Db) (id : HistoryEventId) (e : ImportedHistoryEvent) (row : EventRow).

Lemma decode_encode e : decode_content (encode_row e) = Ok (event_content e).
Proof.
  unfold encode_row, decode_content. destruct (event_content e) as [text|data media width height|files]; cbn; [done..|].
  by rewrite files_round_trip.
Qed.
Lemma decode_record_encode e pin :
  0 <= (event_id e).2 -> decode_record (event_id e) (encode_row e) pin = Ok {| immutable_event := e; record_pinned := pin |}.
Proof.
  intros H. unfold decode_record. rewrite decode_encode. destruct (Z.ltb_spec (event_id e).2 0); [lia|].
  destruct e as [eid created label content]. unfold encode_row. cbn. by destruct content.
Qed.

Lemma event_rows_nodup d : NoDup (event_rows d).*1.
Proof. unfold event_rows. rewrite hash_order_perm. apply NoDup_fst_map_to_list. Qed.

(** ** The invariant *)

Definition valid_id id : Prop := 0 <= id.2 <= i64_max.
(** A row is the image of a valid event, or the remains of one. *)
Definition row_ok d id row : Prop :=
  valid_id id
  /\ if is_dismissed d id then erase_row row = row
     else exists e, event_id e = id /\ validate_event e = Ok tt /\ row = encode_row e.
Record wf_db d : Prop := {
  wf_local id : is_Some (history_local_state d !! id) -> is_Some (history_events d !! id);
  wf_rows id row : history_events d !! id = Some row -> row_ok d id row;
  wf_flags id : is_dismissed d id = true -> is_pinned d id = false;
  wf_boundaries op device top : clear_boundaries d !! (op, device) = Some top -> 0 <= top <= i64_max;
  wf_operations op text affected : clear_operations d !! op = Some (text, affected) ->
    0 <= affected
    /\ exists b, text = boundary_to_json b
         /\ forall device top, b !! device = Some top -> clear_boundaries d !! (op, device) = Some top;
}.

Definition visible d id : Prop := is_Some (history_events d !! id) /\ is_dismissed d id = false.

Lemma wf_empty : wf_db empty_db.
Proof. split; cbn; try done. intros id H. by apply is_Some_None in H. Qed.

Lemma wf_visible d id row :
  wf_db d -> history_events d !! id = Some row -> is_dismissed d id = false ->
  exists e, event_id e = id /\ validate_event e = Ok tt /\ row = encode_row e
    /\ forall pin, decode_record id row pin = Ok {| immutable_event := e; record_pinned := pin |}.
Proof.
  intros W Hrow Hd. destruct (wf_rows _ W id row Hrow) as [Hid H]. rewrite Hd in H. destruct H as (e & <- & Hv & ->).
  exists e. repeat split; try done. intros pin. apply decode_record_encode. unfold valid_id in Hid. lia.
Qed.
Lemma unseen_flags d id : wf_db d -> history_events d !! id = None -> local_flags d id = no_local_state.
Proof.
  intros W H. unfold local_flags. destruct (history_local_state d !! id) eqn:E; [|done].
  destruct (wf_local _ W id) as [x Hx]; [by eexists|]. congruence.
Qed.

Lemma validate_event_id e : validate_event e = Ok tt -> (event_id e).2 <= i64_max.
Proof.
  unfold validate_event. intros H. inv_ok H. unfold sequence_to_sql in *.
  destruct (Z.leb_spec (event_id e).2 i64_max); [lia|done].
Qed.

(** ** Merging *)

Lemma prune_events d id :
  history_events (prune_unpinned d) !! id = if bool_decide (id ∈ pruned d) then None else history_events d !! id.
Proof.
  cbn. case_bool_decide as H.
  - apply map_lookup_filter_None. right. intros row _. cbn. tauto.
  - destruct (history_events d !! id) as [row|] eqn:E.
    + by apply map_lookup_filter_Some.
    + apply map_lookup_filter_None. by left.
Qed.
Lemma prune_local d id :
  history_local_state (prune_unpinned d) !! id = if bool_decide (id ∈ pruned d) then None else history_local_state d !! id.
Proof.
  cbn. case_bool_decide as H.
  - apply map_lookup_filter_None. right. intros row _. cbn. tauto.
  - destruct (history_local_state d !! id) as [row|] eqn:E.
    + by apply map_lookup_filter_Some.
    + apply map_lookup_filter_None. by left.
Qed.
Lemma prune_flags d id :
  local_flags (prune_unpinned d) id = if bool_decide (id ∈ pruned d) then no_local_state else local_flags d id.
Proof. unfold local_flags. rewrite prune_local. by case_bool_decide. Qed.
(** Pinned records are never removed. *)
Lemma pruned_unpinned d id : id ∈ pruned d -> is_pinned d id = false /\ is_Some (history_events d !! id).
Proof.
  unfold pruned. intros ((i & row) & -> & H)%list_elem_of_fmap. cbn.
  assert (Hin : (i, row) ∈ merge_sort newer (unpinned_rows d)) by (rewrite <- (take_drop MAX_UNPINNED_RECORDS); set_solver).
  rewrite merge_sort_Permutation in Hin. apply list_elem_of_In, filter_In in Hin as [Hin Hp].
  apply list_elem_of_In in Hin. unfold event_rows in Hin. rewrite elem_of_hash_order, elem_of_map_to_list in Hin.
  split; [|by eexists]. by destruct (is_pinned d i).
Qed.

Lemma wf_prune d : wf_db d -> wf_db (prune_unpinned d).
Proof.
  intros W. assert (Hf : forall id, id ∉ pruned d -> local_flags (prune_unpinned d) id = local_flags d id)
    by (intros id H; rewrite prune_flags; by rewrite bool_decide_eq_false_2).
  split.
  - intros id. rewrite prune_local, prune_events. case_bool_decide; [by intros ?%is_Some_None|]. apply W.
  - intros id row. rewrite prune_events. case_bool_decide as H; [done|]. intros E.
    unfold row_ok, is_dismissed. rewrite Hf by done. by apply (wf_rows _ W).
  - intros id. unfold is_dismissed, is_pinned. rewrite prune_flags. case_bool_decide; [done|]. apply (wf_flags _ W).
  - apply W.
  - apply W.
Qed.
Lemma wf_insert d e :
  wf_db d -> validate_event e = Ok tt -> 0 <= (event_id e).2 -> history_events d !! event_id e = None ->
  wf_db (on_events (insert (event_id e) (encode_row e)) d).
Proof.
  intros W Hv Hid Hnone. pose proof (validate_event_id e Hv) as Hmax. split; cbn.
  - intros id H. apply lookup_insert_is_Some'. right. by apply (wf_local _ W).
  - intros id row [[<- <-]|[_ H]]%lookup_insert_Some; [|by apply (wf_rows _ W)].
    split; [done|]. unfold is_dismissed. change (local_flags _ _) with (local_flags d (event_id e)).
    rewrite unseen_flags by done. cbn. by exists e.
  - apply (wf_flags _ W).
  - apply (wf_boundaries _ W).
  - apply (wf_operations _ W).
Qed.
Lemma load_event_wf d id : wf_db d -> is_dismissed d id = false -> id.2 <= i64_max ->
  match history_events d !! id with
  | Some row => exists e, event_id e = id /\ row = encode_row e
      /\ load_event d id = Ok (Some {| immutable_event := e; record_pinned := is_pinned d id |})
  | None => load_event d id = Ok None
  end.
Proof.
  intros W Hd Hid. unfold load_event, sequence_to_sql. destruct (Z.leb_spec id.2 i64_max); [|lia].
  destruct (history_events d !! id) as [row|] eqn:E; [|done].
  destruct (wf_visible d id row W E Hd) as (e & He & _ & Hrow & Hdec). exists e. by rewrite Hdec.
Qed.
Lemma wf_merge d e : wf_db d -> 0 <= (event_id e).2 -> wf_db (merge_imported d e).1.
Proof.
  intros W Hid. unfold merge_imported. destruct (validate_event e) as [[]|] eqn:Hv; [|done].
  destruct (is_dismissed d (event_id e)) eqn:Hd; [done|].
  pose proof (load_event_wf d (event_id e) W Hd (validate_event_id e Hv)) as Hload.
  destruct (history_events d !! event_id e) as [row|] eqn:E.
  - destruct Hload as (? & _ & _ & ->). done.
  - rewrite Hload. destruct (covered_by_clear d (event_id e)); [done|]. by apply wf_prune, wf_insert.
Qed.

(** ** Pins and clears *)

Lemma flags_insert d id id' st :
  local_flags (on_local (insert id st) d) id' = if bool_decide (id' = id) then st else local_flags d id'.
Proof.
  unfold local_flags. cbn. case_bool_decide as H; [subst; by rewrite lookup_insert_eq|by rewrite lookup_insert_ne].
Qed.
Lemma set_pinned_run d id pin :
  (set_pinned d id pin).1 = d
  \/ ((set_pinned d id pin).1 = on_local (insert id {| pinned := pin; dismissed := false |}) d /\ visible d id).
Proof.
  unfold set_pinned, visible. destruct (sequence_to_sql id.2); [|by left].
  destruct (decide (is_Some (history_events d !! id))) as [Hs|Hn].
  - rewrite bool_decide_eq_true_2 by done. cbn. destruct (is_dismissed d id); [by left|by right].
  - rewrite bool_decide_eq_false_2 by done. by left.
Qed.
Lemma wf_set_pinned d id pin : wf_db d -> wf_db (set_pinned d id pin).1.
Proof.
  intros W. destruct (set_pinned_run d id pin) as [->|[-> [Hrow Hd]]]; [done|]. split.
  - intros id'. cbn. intros [<-|H]%lookup_insert_is_Some; [done|]. apply W, H.
  - intros id' row H. destruct (wf_rows _ W id' row H) as [Hv Hr]. split; [done|].
    unfold is_dismissed in *. rewrite flags_insert. case_bool_decide as E; [subst|done]. by rewrite Hd in Hr.
  - intros id'. unfold is_dismissed, is_pinned. rewrite flags_insert. case_bool_decide; [done|]. apply (wf_flags _ W).
  - apply W.
  - apply W.
Qed.

(** What one [DELETE]-like clear does to the flags and to the rows. *)
Definition clear_rows d (p : HistoryEventId -> bool) : Db := erase_dismissed (dismiss d p) p.
Lemma dismissable_spec d p id :
  is_Some (dismissable d p !! id)
  <-> is_Some (history_events d !! id) /\ p id = true /\ is_pinned d id = false /\ is_dismissed d id = false.
Proof.
  unfold dismissable. split.
  - intros [row [H1 H2]%map_lookup_filter_Some]. cbn in H2. split; [by eexists|]. boolsplit.
    destruct (is_pinned d id), (is_dismissed d id); done.
  - intros ([row H1] & H2 & H3 & H4). exists row. apply map_lookup_filter_Some. split; [done|]. cbn. by rewrite H2, H3, H4.
Qed.
Lemma dismiss_flags d p id :
  local_flags (dismiss d p) id
  = if decide (is_Some (dismissable d p !! id)) then {| pinned := false; dismissed := true |} else local_flags d id.
Proof.
  unfold local_flags, dismiss. cbn. rewrite lookup_union, lookup_fmap.
  destruct (dismissable d p !! id) as [row|] eqn:E; cbn; destruct (decide _) as [H|H]; try done.
  - by destruct (history_local_state d !! id).
  - contradict H. by eexists.
  - by rewrite (left_id_L None _).
Qed.
Lemma clear_flags d p id : local_flags (clear_rows d p) id = local_flags (dismiss d p) id.
Proof. done. Qed.
Lemma clear_events d p id :
  history_events (clear_rows d p) !! id
  = (fun row => if p id && negb (is_pinned (dismiss d p) id) && is_dismissed (dismiss d p) id then erase_row row else row)
    <$> history_events d !! id.
Proof. unfold clear_rows. cbn. rewrite map_lookup_imap. by destruct (history_events d !! id). Qed.

Lemma wf_clear_rows d p : wf_db d -> wf_db (clear_rows d p).
Proof.
  intros W. split.
  - intros id H. rewrite clear_events. apply fmap_is_Some. cbn in H. rewrite lookup_union, lookup_fmap in H.
    destruct (dismissable d p !! id) as [row|] eqn:E.
    + apply (dismissable_spec d p id). by eexists.
    + cbn in H. rewrite (left_id_L None _) in H. by apply W.
  - intros id row. rewrite clear_events. destruct (history_events d !! id) as [row0|] eqn:E; [|done]. cbn. intros [= <-].
    destruct (wf_rows _ W id row0 E) as [Hv Hr]. split; [done|]. unfold is_dismissed, is_pinned in *.
    rewrite clear_flags, dismiss_flags. destruct (decide _) as [Hd|Hd].
    + cbn. apply dismissable_spec in Hd as (_ & -> & _ & _). done.
    + destruct (dismissed (local_flags d id)) eqn:Ed; [|by rewrite andb_false_r].
      destruct (_ && _); [by rewrite Hr|done].
  - intros id. unfold is_dismissed, is_pinned. rewrite clear_flags, dismiss_flags. destruct (decide _); [done|]. apply (wf_flags _ W).
  - apply W.
  - apply W.
Qed.

(** Boundaries are added under an operation that is not recorded yet. *)
Lemma wf_add_boundary d op device top :
  wf_db d -> 0 <= top <= i64_max -> clear_operations d !! op = None -> wf_db (on_boundaries (insert (op, device) top) d).
Proof.
  intros W Ht Hop. split; try apply W; cbn.
  - intros op' device' top' [[_ <-]|[_ H]]%lookup_insert_Some; [done|]. by apply (wf_boundaries _ W op' device').
  - intros op' text n H. destruct (wf_operations _ W op' text n H) as (Hn & b & -> & Hb). split; [done|]. exists b. split; [done|].
    intros device' top' Hd. rewrite lookup_insert_ne; [by apply Hb|]. intros [= <- <-]. congruence.
Qed.
(** What the loop over the devices of a boundary does: the boundaries of the
    operation are recorded, everything below them that is not pinned is hidden. *)
Definition in_list (boundary : list (rstring * Z)) id : bool :=
  existsb (fun '(device, top) => within_boundary device top id) boundary.
Record cleared_by (op : rstring) (boundary : list (rstring * Z)) d d' : Prop := {
  cb_wf : wf_db d';
  cb_operations : clear_operations d' = clear_operations d;
  cb_new device top : (device, top) ∈ boundary -> clear_boundaries d' !! (op, device) = Some top;
  cb_old op' device : op' <> op \/ device ∉ boundary.*1 ->
    clear_boundaries d' !! (op', device) = clear_boundaries d !! (op', device);
  cb_visible id : visible d' id <-> visible d id /\ (in_list boundary id = true -> is_pinned d id = true);
  cb_pinned id : visible d' id -> is_pinned d' id = is_pinned d id;
}.
Lemma clear_rows_visible d p id :
  visible (clear_rows d p) id <-> visible d id /\ (p id = true -> is_pinned d id = true).
Proof.
  unfold visible. rewrite clear_events, fmap_is_Some. unfold is_dismissed at 1. rewrite clear_flags, dismiss_flags.
  destruct (decide _) as [H|H]; rewrite dismissable_spec in H; unfold is_dismissed, is_pinned in *.
  - cbn. destruct H as (H1 & H2 & H3 & H4). split; [by intros []|]. intros [_ Hp]. rewrite Hp in H3; done.
  - split; [|tauto]. intros [H1 H2]. split; [done|]. intros Hp. destruct (pinned (local_flags d id)); [done|]. tauto.
Qed.
Lemma clear_rows_pinned d p id : visible (clear_rows d p) id -> is_pinned (clear_rows d p) id = is_pinned d id.
Proof.
  intros [_ H]. unfold is_dismissed, is_pinned in *. rewrite clear_flags, dismiss_flags in H |- *. by destruct (decide _).
Qed.
Lemma clear_devices_spec op boundary d affected d' n :
  wf_db d -> clear_operations d !! op = None -> NoDup boundary.*1 -> Forall (fun p => 0 <= p.2) boundary -> 0 <= affected ->
  clear_devices op boundary d affected = Ok (d', n) -> cleared_by op boundary d d' /\ 0 <= n.
Proof.
  revert d affected. induction boundary as [|[device top] boundary IH]; intros d affected W Hop Hnd Hb Ha.
  - intros [= <- <-]. split; [|done]. split; try done; cbn; [by intros ?? ?%elem_of_nil|]. intros id. split; [|tauto]. by intros.
  - cbn [clear_devices]. apply Forall_cons in Hb as [Htop Hb]. cbn in Htop. cbn in Hnd. apply NoDup_cons in Hnd as [Hnot Hnd].
    unfold sequence_to_sql. destruct (Z.leb_spec top i64_max); [|done]. cbv zeta.
    set (d1 := on_boundaries (insert (op, device) top) d). fold (clear_rows d1 (within_boundary device top)). intros E.
    apply IH in E as [[C1 C2 C3 C4 C5 C6] Hn]; [|by apply wf_clear_rows, wf_add_boundary|done..|lia]. split; [|done]. split.
    + done.
    + exact C2.
    + intros dev t [[= -> ->]|Hin]%elem_of_cons; [|by apply C3]. rewrite C4 by (right; done). cbn. apply lookup_insert_eq.
    + intros op' dev Hne. cbn in Hne. rewrite C4 by set_solver. cbn. rewrite lookup_insert_ne; [done|]. intros [= <- <-]. set_solver.
    + intros id. rewrite C5, clear_rows_visible. cbn [in_list existsb]. fold (in_list boundary id).
      change (visible d1 id) with (visible d id). change (is_pinned d1 id) with (is_pinned d id). split.
      * intros [[Hv Hp] Hq]. split; [done|]. intros [?|Hl]%orb_true_iff; [by apply Hp|].
        specialize (Hq Hl). rewrite clear_rows_pinned in Hq; [done|]. by apply clear_rows_visible.
      * intros [Hv Hp]. assert (Hv1 : visible (clear_rows d1 (within_boundary device top)) id).
        { apply clear_rows_visible. split; [done|]. intros Hw. apply Hp. by rewrite Hw. }
        split; [by apply clear_rows_visible|]. intros Hl. rewrite clear_rows_pinned by done. apply Hp. by rewrite Hl, orb_true_r.
    + intros id Hv. rewrite C6 by done. apply C5 in Hv as [Hv _]. by rewrite clear_rows_pinned.
Qed.
Lemma boundary_list_nonneg boundary :
  map_Forall (fun _ top => 0 <= top) boundary -> Forall (fun p : rstring * Z => 0 <= p.2) (boundary_list boundary).
Proof.
  intros H. apply Forall_forall. intros [device top] Hin. unfold boundary_list in Hin.
  rewrite merge_sort_Permutation, elem_of_map_to_list in Hin. by apply (H device top).
Qed.
Lemma boundary_list_spec boundary device top : (device, top) ∈ boundary_list boundary <-> boundary !! device = Some top.
Proof. unfold boundary_list. by rewrite merge_sort_Permutation, elem_of_map_to_list. Qed.
Lemma boundary_list_nodup (boundary : gmap rstring Z) : NoDup (boundary_list boundary).*1.
Proof. unfold boundary_list. rewrite merge_sort_Permutation. apply NoDup_fst_map_to_list. Qed.
(** A boundary that was not applied yet is applied, or nothing changes. *)
Lemma clear_through_spec d op boundary :
  wf_db d -> map_Forall (fun _ top => 0 <= top) boundary ->
  wf_db (clear_unpinned_through d op boundary).1
  /\ ((clear_unpinned_through d op boundary).1 = d
      \/ (clear_operations d !! op = None
          /\ exists d1 x, (clear_unpinned_through d op boundary).1 = on_operations (insert op x) d1
               /\ cleared_by op (boundary_list boundary) d d1)).
Proof.
  intros W Hb. unfold clear_unpinned_through. case_match; [|by split; [|left]].
  destruct (clear_operations d !! op) as [[stored n]|] eqn:Eop; [by repeat case_match; split; try left|].
  destruct (clear_devices op _ d 0) as [[d' n]|] eqn:E; [|by split; [|left]]. cbn [fst].
  destruct (clear_devices_spec _ _ _ _ _ _ W Eop (boundary_list_nodup _) (boundary_list_nonneg _ Hb) (Z.le_refl 0) E) as [C Hn].
  pose proof (cb_wf _ _ _ _ C) as W'. split; [|right; split; [done|]; by exists d', (boundary_to_json boundary, n)].
  split; try apply W'. cbn. intros op' text n' [[<- [= <- <-]]|[_ H']]%lookup_insert_Some; [|by apply (wf_operations _ W')].
  split; [done|]. exists boundary. split; [done|]. intros device top Hd. apply (cb_new _ _ _ _ C). by apply boundary_list_spec.
Qed.

(** ** Sequences *)

Lemma maximum_spec l m : maximum l = Some m -> m ∈ l /\ forall x, x ∈ l -> x <= m.
Proof.
  destruct l as [|x l]; [done|]. cbn. intros [= <-]. induction l as [|y l [IH1 IH2]]; cbn.
  - split; [by left|]. intros z ->%list_elem_of_singleton. lia.
  - split.
    + destruct (Z.max_spec y (foldr Z.max x l)) as [[_ ->]|[_ ->]]; [|by right; left].
      apply elem_of_cons in IH1 as [->|IH1]; [by left|by right; right].
    + intros z Hz. assert (z = y \/ z ∈ x :: l) as [->|Hz'] by set_solver; [lia|]. specialize (IH2 z Hz'). lia.
Qed.
Lemma maximum_none l : maximum l = None -> l = [].
Proof. by destruct l. Qed.
Lemma event_sequences_spec d device n :
  n ∈ event_sequences d device <-> is_Some (history_events d !! (device, n)).
Proof.
  unfold event_sequences. rewrite list_elem_of_omap. split.
  - intros ([[device' n'] row] & H%elem_of_map_to_list & E). cbn in E. case_bool_decide; [|done]. injection E as <-. subst. by eexists.
  - intros [row H]. exists ((device, n), row). rewrite elem_of_map_to_list, bool_decide_eq_true_2; done.
Qed.
Lemma boundary_sequences_spec d device n :
  n ∈ boundary_sequences d device <-> exists op, clear_boundaries d !! (op, device) = Some n.
Proof.
  unfold boundary_sequences. rewrite list_elem_of_omap. split.
  - intros ([[op device'] n'] & H%elem_of_map_to_list & E). cbn in E. case_bool_decide; [|done]. injection E as <-. subst. by exists op.
  - intros [op H]. exists ((op, device), n). rewrite elem_of_map_to_list, bool_decide_eq_true_2; done.
Qed.
(** A new sequence is above every event and every cleared range of its device. *)
Lemma next_sequence_fresh d device n :
  next_sequence d device = Ok n ->
  0 <= n <= i64_max
  /\ (forall k row, history_events d !! (device, k) = Some row -> k < n)
  /\ (forall op top, clear_boundaries d !! (op, device) = Some top -> top < n).
Proof.
  unfold next_sequence. intros H. inv_ok H. boolsplit.
  destruct (maximum _) as [m|] eqn:E; cbn in *.
  - destruct (maximum_spec _ _ E) as [_ Hm]. split; [lia|]. split.
    + intros k row Hk. specialize (Hm k). rewrite elem_of_app, event_sequences_spec in Hm. assert (k <= m) by (apply Hm; left; by eexists). lia.
    + intros op top Ht. specialize (Hm top). rewrite elem_of_app, boundary_sequences_spec in Hm. assert (top <= m) by (apply Hm; right; by eexists). lia.
  - apply maximum_none, app_eq_nil in E as [E1 E2]. split; [lia|]. split.
    + intros k row Hk. assert (Hin : k ∈ event_sequences d device) by (apply event_sequences_spec; by eexists).
      rewrite E1 in Hin. by apply elem_of_nil in Hin.
    + intros op top Ht. assert (Hin : top ∈ boundary_sequences d device) by (apply boundary_sequences_spec; by eexists).
      rewrite E2 in Hin. by apply elem_of_nil in Hin.
Qed.
End rows.

(** ** A concrete encoding *)

Definition plain_json : StoreJson := {|
  files_to_json files := [Zpos (encode files)];
  files_from_json text :=
    match text with
    | [Zpos p] => match decode p with Some files => Ok files | None => Err [] end
    | _ => Err []
    end;
  boundary_to_json boundary := [Zpos (encode boundary)] |}.
Lemma plain_json_laws : StoreJsonLaws plain_json.
Proof. split; [intros files; cbn; by rewrite countable.decode_encode|]. intros b b' [= E]. by apply (inj encode). Qed.
Definition no_thumbnails : Thumbnails := {|
  thumbnail_rgba _ _ _ := Err (str "unsupported"); thumbnail_decoded _ := Err (str "unsupported") |}.
