(* ===== verification/HistoryDbSafety.v ===== *)
(** * The history worker: what was cleared stays cleared

    Over every sequence of commands: the tables keep their invariant, no query
    fails, and nothing below a clear boundary becomes visible again. *)

From stdpp Require Import sorting.
From S2P Require Import Prelude Wire FileTransfer ClipboardService HistoryDb HistoryWorker HistoryDbTheorems.

Section commands.
Context {json : StoreJson} {laws : StoreJsonLaws json} {order : HashOrder} {thumbnails : Thumbnails}.
Context (local_device : rstring) (local_label : option rstring).
Implicit Types (d : Db) (id : HistoryEventId) (w : Worker).

(** Sequences are unsigned. *)
Definition wf_command (command : WorkerCommand) : Prop :=
  match command with
  | ImportEvent e => 0 <= (event_id e).2
  | ApplyClear _ boundary => map_Forall (fun _ top => 0 <= top) boundary
  | _ => True
  end.

(** The changes a command can make. *)
Inductive change d : Db -> Prop :=
| Unchanged : change d d
| Merging e : 0 <= (event_id e).2 -> change d (merge_imported d e).1
| Pinning id pin : change d (set_pinned d id pin).1
| Clearing op boundary : map_Forall (fun _ top => 0 <= top) boundary -> change d (clear_unpinned_through d op boundary).1.

Lemma record_change d now kind content device n label : 0 <= n -> change d (record d now kind content device n label).1.
Proof.
  intros Hn. unfold record. case_match; [apply Unchanged|]. destruct now; [|apply Unchanged]. case_match; [apply Unchanged|].
  by apply Merging.
Qed.
Lemma record_as_change d now device label content : change d (record_as d now device label content).1.
Proof.
  unfold record_as. destruct (next_sequence d device) as [n|] eqn:E; [|apply Unchanged].
  destruct (next_sequence_fresh d device n E) as [[Hn _] _].
  pose proof (record_change d now (content_kind content) content device n label Hn) as H. by destruct (record _ _ _ _ _ _ _).
Qed.
Lemma respond_changed_db revision d (r : result HistoryError (WorkerReply * bool)) : db (respond_changed revision d r).1 = d.
Proof. by destruct r as [[]|]. Qed.
Lemma command_change w now command :
  wf_command command -> change (db w) (db (handle_command local_device local_label w now command).1).
Proof.
  intros Hc. destruct command; cbn in *; try (by apply Unchanged).
  - pose proof (record_as_change (db w) now (default local_device device) (match label with Some l => Some l | None => local_label end) content) as H.
    destruct (record_as _ _ _ _ _). by rewrite respond_changed_db.
  - pose proof (record_as_change (db w) now local_device local_label content) as H.
    destruct (record_as _ _ _ _ _). by rewrite respond_changed_db.
  - pose proof (Merging (db w) event Hc) as H. destruct (merge_imported _ _). by rewrite respond_changed_db.
  - destruct (get (db w) id) as [[record|]|]; [|apply Unchanged..]. destruct (Bool.eqb _ _); [apply Unchanged|].
    pose proof (Pinning (db w) id pin) as H. destruct (set_pinned _ _ _). by rewrite respond_changed_db.
  - pose proof (Clearing (db w) operation boundary Hc) as H. destruct (clear_unpinned_through _ _ _). by rewrite respond_changed_db.
Qed.

Lemma change_wf d d' : wf_db d -> change d d' -> wf_db d'.
Proof.
  intros W [|e He|id pin|op boundary Hb]; [done|by apply wf_merge|by apply wf_set_pinned|by apply clear_through_spec].
Qed.

(** ** Boundaries *)

Definition below d id : Prop := exists op top, clear_boundaries d !! (op, id.1) = Some top /\ id.2 <= top.
Lemma covered_below d id : covered_by_clear d id = true <-> below d id.
Proof.
  unfold covered_by_clear, below. rewrite existsb_exists. split.
  - intros ([[op device] top] & Hin & H). boolsplit. apply list_elem_of_In, elem_of_map_to_list in Hin.
    case_bool_decide; [|done]. subst. exists op, top. split; [done|lia].
  - intros (op & top & H & Hle). exists ((op, id.1), top). rewrite <- list_elem_of_In, elem_of_map_to_list. split; [done|].
    rewrite bool_decide_eq_true_2 by done. cbn. lia.
Qed.

Lemma merge_boundaries d e : clear_boundaries (merge_imported d e).1 = clear_boundaries d.
Proof. unfold merge_imported. by repeat case_match. Qed.
Lemma merge_visible d e id : wf_db d -> visible (merge_imported d e).1 id -> below d id -> visible d id.
Proof.
  intros W. unfold merge_imported. destruct (validate_event e) as [[]|]; [|done].
  destruct (is_dismissed d (event_id e)); [done|]. destruct (load_event d (event_id e)) as [[r|]|]; [done| |done].
  destruct (covered_by_clear d (event_id e)) eqn:Ec; [done|]. cbn [fst]. intros [[row Hrow] Hd] Hb.
  rewrite prune_events in Hrow. unfold is_dismissed in Hd. rewrite prune_flags in Hd. case_bool_decide; [done|].
  cbn in Hrow. apply lookup_insert_Some in Hrow as [[<- _]|[_ Hrow]]; [|split; [by eexists|done]].
  apply covered_below in Hb. congruence.
Qed.
Lemma set_pinned_visible d id pin id' : visible (set_pinned d id pin).1 id' <-> visible d id'.
Proof.
  destruct (set_pinned_run d id pin) as [->|[-> [Hrow Hd]]]; [done|]. unfold visible, is_dismissed in *.
  rewrite flags_insert. case_bool_decide; subst; cbn; [|done]. by rewrite Hd.
Qed.

(** The foreign key of the boundaries. *)
Definition recorded d : Prop :=
  forall op device, is_Some (clear_boundaries d !! (op, device)) -> is_Some (clear_operations d !! op).
Lemma merge_operations d e : clear_operations (merge_imported d e).1 = clear_operations d.
Proof. unfold merge_imported. by repeat case_match. Qed.
Lemma change_recorded d d' : wf_db d -> recorded d -> change d d' -> recorded d'.
Proof.
  intros W R [|e He|id pin|op boundary Hb]; [done| | |].
  - intros op device. rewrite merge_boundaries, merge_operations. apply R.
  - destruct (set_pinned_run d id pin) as [->|[-> _]]; exact R.
  - destruct (clear_through_spec d op boundary W Hb) as [_ [->|(Hnone & d1 & x & -> & C)]]; [done|].
    intros op' device. cbn. rewrite lookup_insert_is_Some'. intros H. destruct (decide (op = op')) as [|Hne]; [by left|right].
    rewrite (cb_operations _ _ _ _ C). rewrite (cb_old _ _ _ _ C) in H by auto. by eapply R.
Qed.
Lemma change_below d d' id : wf_db d -> recorded d -> change d d' -> below d id -> below d' id.
Proof.
  intros W R Hc (op & top & Hb & Hle). destruct Hc as [|e He|id' pin|op' boundary Hbd].
  - by exists op, top.
  - exists op, top. by rewrite merge_boundaries.
  - exists op, top. by destruct (set_pinned_run d id' pin) as [->|[-> _]].
  - exists op, top. split; [|done]. destruct (clear_through_spec d op' boundary W Hbd) as [_ [->|(Hnone & d1 & x & -> & C)]]; [done|].
    cbn. rewrite (cb_old _ _ _ _ C); [done|]. left. intros ->. destruct (R op' id.1) as [? E]; [by eexists|]. congruence.
Qed.
(** What is below a boundary and visible was visible before. *)
Lemma change_visible d d' id : wf_db d -> change d d' -> visible d' id -> below d id -> visible d id.
Proof.
  intros W Hc Hv Hb. destruct Hc as [|e He|id' pin|op boundary Hbd]; [done| | |].
  - by eapply merge_visible.
  - by apply set_pinned_visible in Hv.
  - destruct (clear_through_spec d op boundary W Hbd) as [_ [E|(Hnone & d1 & x & E & C)]]; rewrite E in Hv; [done|].
    change (visible (on_operations _ d1) id) with (visible d1 id) in Hv. by apply (cb_visible _ _ _ _ C) in Hv as [? _].
Qed.

(** ** Runs *)

Inductive runs : Worker -> Worker -> Prop :=
| Runs_refl w : runs w w
| Runs_step w w' now command : runs w w' -> wf_command command ->
    runs w (handle_command local_device local_label w' now command).1.
Definition fresh_worker : Worker := {| db := empty_db; revision := 0 |}.

Lemma runs_trans w1 w2 w3 : runs w1 w2 -> runs w2 w3 -> runs w1 w3.
Proof. intros H1 H2. induction H2 as [|w w2 now command _ IH Hc]; [done|]. apply Runs_step; auto. Qed.
Lemma runs_wf w w' : runs w w' -> wf_db (db w) -> recorded (db w) -> wf_db (db w') /\ recorded (db w').
Proof.
  induction 1 as [|w w' now command Hr IH Hc]; intros W R; [done|]. destruct (IH W R) as [W' R'].
  pose proof (command_change w' now command Hc) as Hch. split; [by eapply change_wf|by eapply change_recorded].
Qed.
Lemma runs_below w w' id :
  runs w w' -> wf_db (db w) -> recorded (db w) -> below (db w) id -> below (db w') id /\ (visible (db w') id -> visible (db w) id).
Proof.
  induction 1 as [|w w' now command Hr IH Hc]; intros W R Hb; [done|]. destruct (IH W R Hb) as [Hb' Hv].
  destruct (runs_wf _ _ Hr W R) as [W' R']. pose proof (command_change w' now command Hc) as Hch.
  split; [by eapply change_below|]. intros H. by eapply Hv, change_visible.
Qed.
Lemma fresh_wf w : runs fresh_worker w -> wf_db (db w) /\ recorded (db w).
Proof. intros H. apply (runs_wf _ _ H); [apply wf_empty|]. intros op device. cbn. by intros [x Hx%lookup_empty_Some]. Qed.

(** What is below the boundary of an applied clear *)
Lemma applied_below w now op boundary n w' id top :
  wf_db (db w) -> map_Forall (fun _ top => 0 <= top) boundary ->
  handle_command local_device local_label w now (ApplyClear op boundary) = (w', Ok (Cleared n)) ->
  boundary !! id.1 = Some top -> id.2 <= top ->
  below (db w') id /\ (visible (db w') id -> visible (db w) id /\ (clear_operations (db w) !! op = None -> is_pinned (db w) id = true)).
Proof.
  intros W Hb. cbn [handle_command]. pose proof (clear_through_spec (db w) op boundary W Hb) as [_ Hspec].
  unfold clear_unpinned_through in *. destruct (_ : result HistoryError (list unit)); [|done].
  destruct (clear_operations (db w) !! op) as [[stored m]|] eqn:Eop.
  - case_match eqn:Es; [done|]. case_match; [done|]. cbn. intros [= <- <-] Hd Hle. cbn.
    destruct (wf_operations _ W op stored m Eop) as (_ & b & -> & Hstored). split; [|done].
    exists op, top. split; [|done]. apply Hstored. apply negb_false_iff, bool_decide_eq_true in Es.
    by rewrite (boundary_json_inj _ _ Es).
  - destruct (clear_devices op _ (db w) 0) as [[d1 m]|]; [|done]. cbn [fst] in Hspec. cbn. intros [= <- <-] Hd Hle. cbn.
    destruct Hspec as [E|(_ & d2 & x & E & C)].
    { exfalso. apply (f_equal (fun d => clear_operations d !! op)) in E. cbn in E. rewrite lookup_insert_eq in E. congruence. }
    rewrite E. assert (Hin : (id.1, top) ∈ boundary_list boundary) by by apply boundary_list_spec. split.
    + exists op, top. split; [|done]. cbn. by apply (cb_new _ _ _ _ C).
    + change (visible (on_operations _ d2) id) with (visible d2 id). intros [Hv Hp]%(cb_visible _ _ _ _ C). split; [done|].
      intros _. apply Hp. apply existsb_exists. exists (id.1, top). split; [by apply list_elem_of_In|].
      unfold within_boundary. rewrite bool_decide_eq_true_2 by done. cbn. lia.
Qed.

(** Whatever happens after a clear was applied, with every device, pin, import
    and replay: a record at or below its boundary that is visible was visible
    before the clear, and pinned when the clear was new; and a record that is
    hidden holds no text, image, media type or file names any more. *)
Theorem cleared_records_stay_cleared w now op boundary n w' w'' :
  runs fresh_worker w -> map_Forall (fun _ top => 0 <= top) boundary ->
  handle_command local_device local_label w now (ApplyClear op boundary) = (w', Ok (Cleared n)) -> runs w' w'' ->
  (forall id top, boundary !! id.1 = Some top -> id.2 <= top -> visible (db w'') id ->
     visible (db w) id /\ (clear_operations (db w) !! op = None -> is_pinned (db w) id = true))
  /\ (forall id row, history_events (db w'') !! id = Some row -> ~ visible (db w'') id ->
        text_payload row = None /\ image_payload row = None /\ row_media_type row = None /\ files_json row = None).
Proof.
  intros Hr Hb Hc Hr'. destruct (fresh_wf w Hr) as [W R].
  assert (Hw' : runs w w') by (replace w' with (handle_command local_device local_label w now (ApplyClear op boundary)).1
    by (by rewrite Hc); apply Runs_step; [apply Runs_refl|exact Hb]).
  destruct (runs_wf _ _ Hw' W R) as [W' R']. destruct (runs_wf _ _ Hr' W' R') as [W'' _]. split.
  - intros id top Hd Hle Hv. destruct (applied_below w now op boundary n w' id top W Hb Hc Hd Hle) as [Hbelow Himp].
    apply Himp. by apply (runs_below _ _ id Hr' W' R' Hbelow).
  - intros id row Hrow Hnv. destruct (wf_rows _ W'' id row Hrow) as [_ H]. unfold visible in Hnv.
    destruct (is_dismissed (db w'') id); [by rewrite <- H|]. exfalso. apply Hnv. split; [by eexists|done].
Qed.
End commands.

(** ** A concrete run *)

#[local] Existing Instances plain_json plain_json_laws list_order no_thumbnails.
Definition desk_label : option rstring := Some (str "desk").
(** Two texts are recorded, the first is pinned, and both are cleared; then a
    peer sends the second again, and one more is recorded. *)
Definition before_clear : list WorkerCommand :=
  [RecordEvent (HistoryText (str "keep")); RecordEvent (HistoryText (str "drop")); Pin (str "desk", 1) true].
Definition after_clear : list WorkerCommand :=
  [ImportEvent {| event_id := (str "desk", 2); created_at_ms := 7; origin_label := desk_label;
                  event_content := HistoryText (str "drop") |};
   RecordEvent (HistoryText (str "new"))].
Definition handle_all : Worker -> list WorkerCommand -> Worker :=
  foldl (fun w command => (handle_command (str "desk") desk_label w (Some 7) command).1).
Definition ready : Worker := handle_all fresh_worker before_clear.
Definition cleared : Worker :=
  (handle_command (str "desk") desk_label ready (Some 7) (ApplyClear (str "op") {[str "desk" := 2]})).1.
Definition continued : Worker := handle_all cleared after_clear.

Lemma handle_all_runs w w' commands :
  Forall wf_command commands -> runs (str "desk") desk_label w w' -> runs (str "desk") desk_label w (handle_all w' commands).
Proof.
  intros H. revert w'. induction H as [|command commands Hc H IH]; intros w' Hr; [done|]. apply IH. by apply Runs_step.
Qed.
Example continued_visible :
  (fun '(id, row) => (id, text_payload row)) <$> LIST_SQL (db continued)
  = [((str "desk", 1), Some (str "keep")); ((str "desk", 3), Some (str "new"))].
Proof. vm_compute. reflexivity. Qed.
Example cleared_records_stay_cleared_example :
  (visible (db continued) (str "desk", 1) -> is_pinned (db ready) (str "desk", 1) = true)
  /\ exists row, history_events (db continued) !! (str "desk", 2) = Some row /\ text_payload row = None.
Proof.
  destruct (cleared_records_stay_cleared (str "desk") desk_label ready (Some 7) (str "op") {[str "desk" := 2]} 1 cleared continued)
    as [Hv Hh].
  - apply handle_all_runs; [repeat constructor|apply Runs_refl].
  - apply map_Forall_singleton. lia.
  - vm_compute. reflexivity.
  - apply handle_all_runs; [repeat constructor; cbn; lia|apply Runs_refl].
  - split.
    + intros H. apply (Hv (str "desk", 1) 2); [by vm_compute|cbn; lia|done|by vm_compute].
    + eexists. split; [vm_compute; reflexivity|]. eapply (Hh (str "desk", 2)); [vm_compute; reflexivity|].
      intros [_ H]. vm_compute in H. discriminate.
Qed.

(** ** At the limit

    What the limit of a thousand unpinned records means for a record older than
    all of them, for sequences and for dismissed records. *)

Module AtTheLimit.
#[local] Existing Instances plain_json plain_json_laws list_order no_thumbnails.

Definition text_of (device : string) (sequence created : Z) : ImportedHistoryEvent := {|
  event_id := (str device, sequence); created_at_ms := created; origin_label := None; event_content := HistoryText (str "text") |}.
(** A thousand records of a peer, made at 1001, 1002, ... *)
Definition crowd : Db :=
  on_events (fun _ => list_to_map ((fun n => ((str "lap", Z.of_nat n), encode_row (text_of "lap" (Z.of_nat n) (1000 + Z.of_nat n))))
    <$> seq 1 1000)) empty_db.

(** A record older than a thousand unpinned ones is stored and at once deleted:
    recording it reports that it disappeared. *)
Example older_record_disappears :
  (handle_command (str "desk") None {| db := crowd; revision := 0 |} (Some 5) (RecordEvent (HistoryText (str "text")))).2
  = Err (InvalidPayload EventDisappeared).
Proof. vm_compute. reflexivity. Qed.
(** Its sequence is given to the next record. *)
Example sequence_is_reused :
  next_sequence crowd (str "desk") = Ok 1
  /\ (let d := (merge_imported crowd (text_of "desk" 1 5)).1 in next_sequence d (str "desk") = Ok 1).
Proof. split; vm_compute; reflexivity. Qed.

(** All is dismissed, a new record displaces the mark of the oldest one, and is
    pinned: the oldest one can then be imported again. *)
Definition dismissed_crowd : Db := (clear_unpinned crowd).1.
Definition one_later : Db :=
  (set_pinned (merge_imported dismissed_crowd (text_of "desk" 1 5000)).1 (str "desk", 1) true).1.
Example dismissed_record_returns :
  is_dismissed dismissed_crowd (str "lap", 1) = true
  /\ (merge_imported dismissed_crowd (text_of "lap" 1 1001)).2 = Ok Suppressed
  /\ (let (d, r) := merge_imported one_later (text_of "lap" 1 1001) in
      r = Ok Inserted /\ is_dismissed d (str "lap", 1) = false /\ history_events d !! (str "lap", 1) <> None).
Proof. split; [|split]; vm_compute; [reflexivity..|]. split; [reflexivity|]. split; [reflexivity|discriminate]. Qed.
End AtTheLimit.
