(* ===== verification/HistoryConvergence.v ===== *)
(** * The history database: merging converges

    Events merged in any order and any number of times leave the same tables: of
    what is not pinned, the thousand newest. *)

From stdpp Require Import sorting.
From S2P Require Import Prelude Wire FileTransfer ClipboardService HistoryDb HistoryWorker HistoryDbTheorems.

Section convergence.
Context {json : StoreJson} {laws : StoreJsonLaws json} {order : HashOrder}.
Implicit Types (d : Db) (e : ImportedHistoryEvent).
#[local] Abbreviation entry := (HistoryEventId * EventRow)%type.
Implicit Types (x y : entry) (l : list entry).

(** ** The order of the records *)

Definition rank x : Z * Z := (row_created x.2, x.1.2).
#[global] Instance newer_total : Total newer.
Proof. intros x y. unfold newer. lia. Qed.
#[global] Instance newer_trans : Transitive newer.
Proof. intros x y z. unfold newer. lia. Qed.
Lemma newer_rank x y : newer x y -> newer y x -> rank x = rank y.
Proof. unfold newer, rank. intros. f_equal; lia. Qed.

Fixpoint insert_sorted x l : list entry :=
  match l with [] => [x] | y :: l => if decide (newer x y) then x :: y :: l else y :: insert_sorted x l end.
Lemma insert_sorted_perm x l : insert_sorted x l ≡ₚ x :: l.
Proof.
  induction l as [|y l IH]; cbn; [done|]. destruct (decide _); [done|]. rewrite IH. apply Permutation_swap.
Qed.
Lemma insert_sorted_sorted x l : StronglySorted newer l -> StronglySorted newer (insert_sorted x l).
Proof.
  induction 1 as [|y l Hl IH Hy]; cbn; [by repeat constructor|]. destruct (decide _) as [H|H].
  - constructor; [by constructor|]. constructor; [done|]. eapply Forall_impl; [done|]. intros z. by apply newer_trans.
  - constructor; [done|]. apply Forall_forall. intros z Hz. rewrite insert_sorted_perm in Hz.
    apply elem_of_cons in Hz as [->|Hz]; [by destruct (newer_total x y)|]. by eapply Forall_forall in Hy.
Qed.
(** Only the newest of those kept matter. *)
Lemma take_insert_sorted k x l : take k (insert_sorted x (take k l)) = take k (insert_sorted x l).
Proof.
  revert l. induction k as [|k IH]; intros l; [done|]. destruct l as [|y l]; [done|]. cbn [take insert_sorted].
  destruct (decide (newer x y)); cbn [take]; [|by rewrite IH].
  f_equal. destruct k; [done|]. cbn. f_equal. rewrite take_take. f_equal. lia.
Qed.
Lemma insert_sorted_last x l : Forall (fun y => ~ newer x y) l -> insert_sorted x l = l ++ [x].
Proof. induction 1 as [|y l Hy _ IH]; cbn; [done|]. destruct (decide _); [done|]. by rewrite IH. Qed.

Lemma elem_of_take_list k x l : x ∈ take k l -> x ∈ l.
Proof. intros (i & H & _)%elem_of_take. by eapply list_elem_of_lookup_2. Qed.

(** Records of different devices do not share time and sequence, and an id has
    one time. *)
Record ranked l : Prop := {
  ranked_id x y : x ∈ l -> y ∈ l -> rank x = rank y -> x.1 = y.1;
  ranked_time x y : x ∈ l -> y ∈ l -> x.1 = y.1 -> row_created x.2 = row_created y.2;
}.
Lemma ranked_incl l k : (forall x, x ∈ k -> x ∈ l) -> ranked l -> ranked k.
Proof. intros H []. split; eauto. Qed.
Lemma sorted_unique l k :
  ranked l -> NoDup l.*1 -> StronglySorted newer l -> StronglySorted newer k -> l ≡ₚ k -> l = k.
Proof.
  intros Hr Hnd Hl Hk Hp. apply (StronglySorted_unique_strong newer); [|done..].
  intros x y Hx Hy H1 H2. rewrite <- Hp in Hy. pose proof (ranked_id _ Hr x y Hx Hy (newer_rank x y H1 H2)) as E.
  destruct x as [i r], y as [j q]. cbn in E. subst j. f_equal.
  apply list_elem_of_lookup in Hx as [n Hx], Hy as [m Hy].
  assert (n = m) as ->; [|by rewrite Hx in Hy; injection Hy].
  eapply (NoDup_lookup l.*1); [done|by rewrite list_lookup_fmap, Hx|by rewrite list_lookup_fmap, Hy].
Qed.

(** ** The records that are not pinned, newest first *)

Definition unpinned d : list entry := merge_sort newer (unpinned_rows d).
Lemma unpinned_spec d id row : (id, row) ∈ unpinned d <-> history_events d !! id = Some row /\ is_pinned d id = false.
Proof.
  unfold unpinned, unpinned_rows. rewrite merge_sort_Permutation, list_elem_of_In, filter_In, <- list_elem_of_In.
  unfold event_rows. rewrite elem_of_hash_order, elem_of_map_to_list. destruct (is_pinned d id); cbn; intuition done.
Qed.
Lemma unpinned_sorted d : StronglySorted newer (unpinned d).
Proof. apply (StronglySorted_merge_sort newer _). Qed.
Lemma unpinned_nodup d : NoDup (unpinned d).*1.
Proof. unfold unpinned. rewrite merge_sort_Permutation. apply filter_fst_nodup, event_rows_nodup. Qed.
Lemma unpinned_ids d id : id ∈ (unpinned d).*1 <-> is_Some (history_events d !! id) /\ is_pinned d id = false.
Proof.
  rewrite list_elem_of_fmap. split.
  - intros ((i & row) & -> & [H1 H2]%unpinned_spec). split; [by eexists|done].
  - intros [[row H1] H2]. exists (id, row). by rewrite unpinned_spec.
Qed.

(** A list of the unpinned records, sorted, is [unpinned]. *)
Lemma unpinned_unique d l :
  ranked l -> NoDup l.*1 -> StronglySorted newer l ->
  (forall id row, (id, row) ∈ l <-> history_events d !! id = Some row /\ is_pinned d id = false) -> unpinned d = l.
Proof.
  intros Hr Hnd Hs Hl. symmetry. apply sorted_unique; [done..|apply unpinned_sorted|].
  apply NoDup_Permutation; [by apply NoDup_fmap_1 in Hnd|eapply NoDup_fmap_1, unpinned_nodup|].
  intros [id row]. by rewrite Hl, unpinned_spec.
Qed.
Lemma unpinned_insert d id row :
  history_events d !! id = None -> is_pinned d id = false -> ranked ((id, row) :: unpinned d) ->
  unpinned (on_events (insert id row) d) = insert_sorted (id, row) (unpinned d).
Proof.
  intros Hnone Hp Hr. assert (Hperm := insert_sorted_perm (id, row) (unpinned d)). apply unpinned_unique.
  - eapply ranked_incl; [|exact Hr]. intros x. by rewrite Hperm.
  - rewrite Hperm. cbn. constructor; [|apply unpinned_nodup]. rewrite unpinned_ids, Hnone. by intros [[? ?] _].
  - apply insert_sorted_sorted, unpinned_sorted.
  - intros i r. rewrite Hperm, elem_of_cons, unpinned_spec. cbn. rewrite lookup_insert_Some.
    change (is_pinned (on_events _ d) i) with (is_pinned d i). split.
    + intros [[= -> ->]|[H1 H2]]; [by split; [left|]|]. split; [|done]. right. split; [congruence|done].
    + intros [[[<- <-]|[_ H]] H2]; [by left|by right].
Qed.
Lemma unpinned_prune d : ranked (unpinned d) -> unpinned (prune_unpinned d) = take MAX_UNPINNED_RECORDS (unpinned d).
Proof.
  intros Hr. apply unpinned_unique.
  - eapply ranked_incl; [|exact Hr]. intros x. apply elem_of_take_list.
  - pose proof (unpinned_nodup d) as H. rewrite <- (take_drop MAX_UNPINNED_RECORDS (unpinned d)), fmap_app in H.
    by apply NoDup_app in H as [? _].
  - pose proof (unpinned_sorted d) as H. rewrite <- (take_drop MAX_UNPINNED_RECORDS (unpinned d)) in H.
    by apply StronglySorted_app_1_l in H.
  - intros id row. rewrite prune_events. unfold is_pinned. rewrite prune_flags.
    pose proof (unpinned_nodup d) as Hnd. rewrite <- (take_drop MAX_UNPINNED_RECORDS (unpinned d)), fmap_app in Hnd.
    apply NoDup_app in Hnd as (_ & Hdis & _). split.
    + intros H. assert (Hnot : id ∉ pruned d) by (intros Hd; eapply Hdis; [|exact Hd]; apply list_elem_of_fmap; by exists (id, row)).
      rewrite bool_decide_eq_false_2 by done. apply unpinned_spec. by eapply elem_of_take_list.
    + case_bool_decide as Hnot; [by intros []|]. intros H%unpinned_spec.
      rewrite <- (take_drop MAX_UNPINNED_RECORDS (unpinned d)) in H. apply elem_of_app in H as [H|H]; [done|].
      contradict Hnot. apply list_elem_of_fmap. by exists (id, row).
Qed.

(** ** Merging a list of events *)

Definition entry_of e : entry := (event_id e, encode_row e).
Definition merge_all d (events : list ImportedHistoryEvent) : Db := foldl (fun d e => (merge_imported d e).1) d events.

Section merging.
Context (d0 : Db) (W0 : wf_db d0) (all : list entry) (Hall : ranked all) (Hbase : forall x, x ∈ unpinned d0 -> x ∈ all).

(** Events that can add a record at all. *)
Definition admissible e : bool :=
  is_ok (validate_event e) && negb (covered_by_clear d0 (event_id e)) && negb (is_pinned d0 (event_id e)).
(** All the records there ever were, sorted. *)
Definition add (l : list entry) e : list entry :=
  if admissible e && negb (bool_decide (event_id e ∈ l.*1)) then insert_sorted (entry_of e) l else l.

Record tracks d l : Prop := {
  tr_wf : wf_db d;
  tr_unpinned : unpinned d = take MAX_UNPINNED_RECORDS l;
  tr_sorted : StronglySorted newer l;
  tr_nodup : NoDup l.*1;
  tr_all x : x ∈ l -> x ∈ all;
  tr_base x : x ∈ unpinned d0 -> x ∈ l;
  tr_pinned id : is_pinned d id = is_pinned d0 id;
  tr_pinned_rows id : is_pinned d0 id = true -> history_events d !! id = history_events d0 !! id;
  tr_local id : history_local_state d !! id
    = if decide (is_Some (history_events d !! id)) then history_local_state d0 !! id else None;
  tr_operations : clear_operations d = clear_operations d0;
  tr_boundaries : clear_boundaries d = clear_boundaries d0;
}.

Lemma tracks_start : (length (unpinned d0) <= MAX_UNPINNED_RECORDS)%nat -> tracks d0 (unpinned d0).
Proof.
  intros H. split; try done; [by rewrite take_ge|apply unpinned_sorted|apply unpinned_nodup|].
  intros id. destruct (decide _) as [|Hn]; [done|]. destruct (history_local_state d0 !! id) eqn:E; [|done].
  contradict Hn. apply W0. by eexists.
Qed.

Lemma tracks_covered d l id : tracks d l -> covered_by_clear d id = covered_by_clear d0 id.
Proof. intros T. unfold covered_by_clear. by rewrite (tr_boundaries _ _ T). Qed.
Lemma tracks_unpinned_in d l id :
  tracks d l -> is_Some (history_events d !! id) -> is_pinned d id = false -> id ∈ l.*1.
Proof.
  intros T Hs Hp. assert (H : id ∈ (unpinned d).*1) by by apply unpinned_ids.
  rewrite (tr_unpinned _ _ T) in H. apply list_elem_of_fmap in H as (x & -> & Hx%elem_of_take_list). apply list_elem_of_fmap. by exists x.
Qed.
Lemma pinned_present id : is_pinned d0 id = true -> is_Some (history_events d0 !! id).
Proof.
  unfold is_pinned, local_flags. intros H. apply W0. destruct (history_local_state d0 !! id); [by eexists|done].
Qed.

(** The list after a record that was not there: nothing new, or one more. *)
Lemma kept_after_insert d l e :
  tracks d l -> entry_of e ∈ all -> history_events d !! event_id e = None -> admissible e = true ->
  take MAX_UNPINNED_RECORDS (insert_sorted (entry_of e) (unpinned d)) = take MAX_UNPINNED_RECORDS (add l e).
Proof.
  intros T Hin Hnone Hadm. unfold add. rewrite Hadm, (tr_unpinned _ _ T). cbn [andb].
  case_bool_decide as Hid; cbn [negb]; [|apply take_insert_sorted].
  assert (Hnot : event_id e ∉ (take MAX_UNPINNED_RECORDS l).*1).
  { rewrite <- (tr_unpinned _ _ T), unpinned_ids, Hnone. by intros [[? ?] _]. }
  apply list_elem_of_fmap in Hid as ([i row] & Ei & Hx). cbn in Ei. subst i.
  pose proof (tr_sorted _ _ T) as Hs. rewrite <- (take_drop MAX_UNPINNED_RECORDS l) in Hx, Hs.
  apply elem_of_app in Hx as [Hx|Hx]; [contradict Hnot; apply list_elem_of_fmap; by exists (event_id e, row)|].
  assert (Hfull : length (take MAX_UNPINNED_RECORDS l) = MAX_UNPINNED_RECORDS).
  { rewrite length_take_le; [done|]. destruct (decide (length l <= MAX_UNPINNED_RECORDS)%nat) as [Hle|]; [|lia].
    rewrite drop_ge in Hx by done. by apply elem_of_nil in Hx. }
  rewrite insert_sorted_last; [rewrite take_app_le by lia; by rewrite take_take, Nat.min_id|].
  apply Forall_forall. intros y Hy Hnew.
  assert (Hyx : newer y (event_id e, row)) by by eapply StronglySorted_app_1_elem_of.
  assert (Hy' : y ∈ all) by (eapply tr_all; [done|]; by eapply elem_of_take_list).
  assert (Hx' : (event_id e, row) ∈ all) by (eapply tr_all; [done|]; rewrite <- (take_drop MAX_UNPINNED_RECORDS l); set_solver).
  assert (Et : row_created row = row_created (encode_row e)) by (apply (ranked_time _ Hall (event_id e, row) (entry_of e)); done).
  assert (Er : rank y = rank (entry_of e)).
  { apply newer_rank; [|done]. revert Hyx. unfold newer, entry_of. cbn. rewrite Et. done. }
  apply Hnot. apply list_elem_of_fmap. exists y. split; [|done]. symmetry. by apply (ranked_id _ Hall y (entry_of e)).
Qed.

Lemma add_incl l e x : x ∈ l -> x ∈ add l e.
Proof. unfold add. destruct (_ && _); [|done]. rewrite insert_sorted_perm. by right. Qed.
Lemma add_all l e x : (forall x, x ∈ l -> x ∈ all) -> entry_of e ∈ all -> x ∈ add l e -> x ∈ all.
Proof. unfold add. destruct (_ && _); [|auto]. rewrite insert_sorted_perm. by intros H He [->|?]%elem_of_cons; auto. Qed.
Lemma add_sorted l e : StronglySorted newer l -> StronglySorted newer (add l e).
Proof. unfold add. destruct (_ && _); [apply insert_sorted_sorted|done]. Qed.
Lemma add_nodup l e : NoDup l.*1 -> NoDup (add l e).*1.
Proof.
  unfold add. destruct (admissible e); [|done]. cbn. case_bool_decide; [done|]. cbn. rewrite insert_sorted_perm. cbn. by constructor.
Qed.

Lemma tracks_insert d l e :
  tracks d l -> 0 <= (event_id e).2 -> entry_of e ∈ all -> validate_event e = Ok tt ->
  history_events d !! event_id e = None -> covered_by_clear d (event_id e) = false ->
  tracks (prune_unpinned (on_events (insert (event_id e) (encode_row e)) d)) (add l e).
Proof.
  intros T Hseq Hin Hv Hnone Hc. pose proof (tr_wf _ _ T) as W.
  assert (Hflags : local_flags d (event_id e) = no_local_state) by by apply unseen_flags.
  assert (Hp : is_pinned d0 (event_id e) = false) by (rewrite <- (tr_pinned _ _ T); unfold is_pinned; by rewrite Hflags).
  assert (Hadm : admissible e = true).
  { unfold admissible. rewrite Hv, <- (tracks_covered _ _ _ T), Hc, Hp. done. }
  set (d1 := on_events (insert (event_id e) (encode_row e)) d).
  assert (Hr : ranked (entry_of e :: unpinned d)).
  { eapply ranked_incl; [|exact Hall]. intros x [->|Hx]%elem_of_cons; [done|]. rewrite (tr_unpinned _ _ T) in Hx.
    apply elem_of_take_list in Hx. by eapply tr_all. }
  assert (Hu1 : unpinned d1 = insert_sorted (entry_of e) (unpinned d)).
  { apply unpinned_insert; [done|unfold is_pinned; by rewrite Hflags|done]. }
  assert (Hu : unpinned (prune_unpinned d1) = take MAX_UNPINNED_RECORDS (add l e)).
  { rewrite unpinned_prune, Hu1; [by apply kept_after_insert|]. rewrite Hu1. eapply ranked_incl; [|exact Hr].
    intros x. by rewrite insert_sorted_perm. }
  assert (Hpin : forall id, is_pinned (prune_unpinned d1) id = is_pinned d0 id).
  { intros id. rewrite <- (tr_pinned _ _ T). unfold is_pinned. rewrite prune_flags. case_bool_decide as Hpr; [|done].
    apply pruned_unpinned in Hpr as [Hpr _]. symmetry. exact Hpr. }
  split; try done.
  - by apply wf_prune, wf_insert.
  - by apply add_sorted, T.
  - by apply add_nodup, T.
  - intros x. apply add_all; [apply T|done].
  - intros x Hx. by apply add_incl, (tr_base _ _ T).
  - intros id Hid. rewrite prune_events. case_bool_decide as Hpr.
    + apply pruned_unpinned in Hpr as [Hpr _]. change (is_pinned d1 id) with (is_pinned d id) in Hpr.
      rewrite (tr_pinned _ _ T) in Hpr. congruence.
    + cbn. rewrite lookup_insert_ne by congruence. by apply (tr_pinned_rows _ _ T).
  - intros id. rewrite prune_events, prune_local. case_bool_decide as Hpr; [by destruct (decide _) as [[? ?]|]|]. cbn.
    destruct (decide (id = event_id e)) as [->|Hne].
    + rewrite lookup_insert_eq. destruct (decide _) as [_|Hn]; [|contradict Hn; by eexists].
      rewrite (tr_local _ _ T), Hnone. destruct (decide _) as [[? ?]|_]; [done|]. symmetry.
      destruct (history_local_state d0 !! event_id e) as [st|] eqn:E; [exfalso|done].
      assert (Hl : event_id e ∈ l.*1).
      { assert (Hu0 : event_id e ∈ (unpinned d0).*1) by (apply unpinned_ids; split; [apply W0; by eexists|done]).
        apply list_elem_of_fmap in Hu0 as (x & -> & Hx). apply list_elem_of_fmap. exists x. split; [done|]. by apply (tr_base _ _ T). }
      assert (Hkept : event_id e ∈ (unpinned (prune_unpinned d1)).*1).
      { apply unpinned_ids. rewrite Hpin, prune_events, bool_decide_eq_false_2 by done. cbn. rewrite lookup_insert_eq. by split; [eexists|]. }
      rewrite Hu in Hkept. unfold add in Hkept. rewrite Hadm, bool_decide_eq_true_2 in Hkept by done. cbn [andb negb] in Hkept.
      rewrite <- (tr_unpinned _ _ T), unpinned_ids, Hnone in Hkept. by destruct Hkept as [[? ?] _].
    + rewrite lookup_insert_ne by done. apply (tr_local _ _ T).
  - apply (tr_operations _ _ T).
  - apply (tr_boundaries _ _ T).
Qed.

Lemma tracks_merge d l e :
  tracks d l -> 0 <= (event_id e).2 -> entry_of e ∈ all -> tracks (merge_imported d e).1 (add l e).
Proof.
  intros T Hseq Hin. pose proof (tr_wf _ _ T) as W.
  assert (Hsame : admissible e = false \/ event_id e ∈ l.*1 -> tracks d (add l e)).
  { unfold add. intros [->|H]; [done|]. rewrite bool_decide_eq_true_2, andb_false_r by done. done. }
  unfold merge_imported. destruct (validate_event e) as [[]|] eqn:Hv; cbn [fst];
    [|apply Hsame; left; unfold admissible; by rewrite Hv].
  assert (Hpresent : is_Some (history_events d !! event_id e) -> tracks d (add l e)).
  { intros Hs. apply Hsame. destruct (is_pinned d (event_id e)) eqn:Hp; [left|right; by eapply tracks_unpinned_in].
    unfold admissible. rewrite <- (tr_pinned _ _ T), Hp. by rewrite andb_false_r. }
  destruct (is_dismissed d (event_id e)) eqn:Hd; cbn [fst].
  { apply Hpresent. apply W. unfold is_dismissed, local_flags in Hd. destruct (history_local_state d !! event_id e); [by eexists|done]. }
  pose proof (load_event_wf d (event_id e) W Hd (validate_event_id e Hv)) as Hload.
  destruct (history_events d !! event_id e) as [row|] eqn:E.
  - destruct Hload as (? & _ & _ & ->). apply Hpresent. by eexists.
  - rewrite Hload. destruct (covered_by_clear d (event_id e)) eqn:Hc; cbn [fst].
    + apply Hsame. left. unfold admissible. rewrite <- (tracks_covered _ _ _ T), Hc. by rewrite andb_false_r.
    + by apply tracks_insert.
Qed.
Lemma tracks_all d l events :
  tracks d l -> Forall (fun e => 0 <= (event_id e).2 /\ entry_of e ∈ all) events ->
  tracks (merge_all d events) (foldl add l events).
Proof.
  intros T H. revert d l T. induction H as [|e events [H1 H2] _ IH]; intros d l T; [done|]. apply IH. by apply tracks_merge.
Qed.

(** The records do not depend on the order. *)
Definition consistent (events : list ImportedHistoryEvent) : Prop :=
  forall e e', e ∈ events -> e' ∈ events -> event_id e = event_id e' -> e = e'.
Lemma fold_add_spec events l x :
  consistent events ->
  x ∈ foldl add l events
  <-> x ∈ l \/ exists e, e ∈ events /\ admissible e = true /\ (event_id e ∉ l.*1) /\ x = entry_of e.
Proof.
  intros Hc. revert l. induction events as [|e events IH]; intros l; cbn [foldl].
  - split; [by left|]. intros [?|(e & He & _)]; [done|]. by apply elem_of_nil in He.
  - rewrite IH by (intros ? ? ? ?; apply Hc; by right). clear IH.
    destruct (admissible e && negb (bool_decide (event_id e ∈ l.*1))) eqn:Ea.
    + assert (Eadd : add l e = insert_sorted (entry_of e) l) by (unfold add; by rewrite Ea). rewrite Eadd.
      setoid_rewrite insert_sorted_perm. cbn. boolsplit. assert (Hn : event_id e ∉ l.*1) by by destruct (bool_decide_reflect (event_id e ∈ l.*1)).
      split.
      * intros [[->|?]%elem_of_cons|(e' & H1 & H2 & H3 & ->)]; [right; exists e|by left|right; exists e'].
        -- repeat split; try done. by left.
        -- repeat split; try done; [by right|]. intros Hin. apply H3. by right.
      * intros [?|(e' & H1 & H2 & H3 & ->)]; [left; by right|]. apply elem_of_cons in H1 as [->|H1]; [left; by left|].
        destruct (decide (event_id e' = event_id e)) as [E|Hne].
        -- left. rewrite (Hc e' e); [by left|by right|by left|done].
        -- right. exists e'. repeat split; try done. intros [?|?]%elem_of_cons; done.
    + assert (Eadd : add l e = l) by (unfold add; by rewrite Ea). rewrite Eadd. split.
      * intros [?|(e' & H1 & H2)]; [by left|right; exists e']. split; [by right|done].
      * intros [?|(e' & H1 & H2 & H3 & ->)]; [by left|]. apply elem_of_cons in H1 as [->|H1]; [|right; by exists e'].
        rewrite H2, bool_decide_eq_false_2 in Ea by done. done.
Qed.

(** The tables are determined by the unpinned records. *)
Lemma tracks_determined d d' l : tracks d l -> tracks d' l -> d = d'.
Proof.
  intros T T'.
  assert (He : history_events d = history_events d').
  { apply map_eq. intros id. destruct (is_pinned d0 id) eqn:Hp.
    - by rewrite (tr_pinned_rows _ _ T id Hp), (tr_pinned_rows _ _ T' id Hp).
    - apply option_eq. intros row. pose proof (unpinned_spec d id row) as H. pose proof (unpinned_spec d' id row) as H'.
      rewrite (tr_pinned _ _ T), Hp, (tr_unpinned _ _ T) in H. rewrite (tr_pinned _ _ T'), Hp, (tr_unpinned _ _ T') in H'. tauto. }
  assert (Hl : history_local_state d = history_local_state d').
  { apply map_eq. intros id. by rewrite (tr_local _ _ T), (tr_local _ _ T'), He. }
  pose proof (tr_operations _ _ T). pose proof (tr_operations _ _ T'). pose proof (tr_boundaries _ _ T). pose proof (tr_boundaries _ _ T').
  destruct d, d'. cbn in *. congruence.
Qed.
End merging.

(** C9: merging converges.  From the same tables, with at most a thousand records
    that are not pinned, events merged in any order and any number of times leave
    the same tables, and again at most a thousand such records.  Events with the
    same id are the same event, and no two records share both time and sequence. *)
Theorem merges_converge d events events' :
  wf_db d -> (length (unpinned d) <= 1000)%nat ->
  Forall (fun e => 0 <= (event_id e).2) events -> consistent events ->
  ranked (unpinned d ++ (entry_of <$> events)) ->
  (forall e, e ∈ events <-> e ∈ events') ->
  merge_all d events = merge_all d events' /\ (length (unpinned (merge_all d events)) <= 1000)%nat.
Proof.
  intros W Hlen Hseq Hc Hr Hsame. set (all := unpinned d ++ (entry_of <$> events)) in *.
  assert (Hbase : forall x, x ∈ unpinned d -> x ∈ all) by (intros x Hx; apply elem_of_app; by left).
  assert (Hev : forall e, e ∈ events -> 0 <= (event_id e).2 /\ entry_of e ∈ all).
  { intros e He. split; [by eapply Forall_forall in Hseq|]. apply elem_of_app. right. by apply list_elem_of_fmap_2. }
  pose proof (tracks_start d W all Hbase Hlen) as T0.
  pose proof (tracks_all d W all Hr Hbase d (unpinned d) events T0 ltac:(by apply Forall_forall)) as T1.
  pose proof (tracks_all d W all Hr Hbase d (unpinned d) events' T0
    ltac:(apply Forall_forall; intros e He; apply Hev; by apply Hsame)) as T2.
  assert (Hc' : consistent events') by (intros e e' He He'; apply Hc; by apply Hsame).
  assert (El : foldl (add d) (unpinned d) events = foldl (add d) (unpinned d) events').
  { apply sorted_unique; [eapply ranked_incl; [|exact Hr]; apply (tr_all _ _ _ _ T1)|apply T1..|apply T2|].
    apply NoDup_Permutation; [eapply NoDup_fmap_1, T1|eapply NoDup_fmap_1, T2|]. intros x.
    rewrite !fold_add_spec by done. split; (intros [?|(e & He & ?)]; [by left|right; exists e; split; [by apply Hsame|done]]). }
  split; [|rewrite (tr_unpinned _ _ _ _ T1); apply firstn_le_length].
  rewrite <- El in T2. by eapply tracks_determined.
Qed.
End convergence.

(** ** Two records in both orders *)

#[local] Existing Instances plain_json plain_json_laws list_order.
Definition event_at (device : string) (sequence created : Z) : ImportedHistoryEvent := {|
  event_id := (str device, sequence); created_at_ms := created; origin_label := None; event_content := HistoryText (str device) |}.
Lemma merges_converge_witness :
  merge_all empty_db [event_at "desk" 1 5; event_at "lap" 1 9]
  = merge_all empty_db [event_at "lap" 1 9; event_at "desk" 1 5; event_at "lap" 1 9]
  /\ (length (unpinned (merge_all empty_db [event_at "desk" 1 5; event_at "lap" 1 9])) <= 1000)%nat.
Proof.
  apply merges_converge.
  - apply wf_empty.
  - vm_compute. lia.
  - repeat constructor; cbn; lia.
  - intros e e' He He'. set_unfold. by destruct He as [->|[->|?]], He' as [->|[->|?]].
  - assert (E : unpinned empty_db ++ (entry_of <$> [event_at "desk" 1 5; event_at "lap" 1 9])
                = [entry_of (event_at "desk" 1 5); entry_of (event_at "lap" 1 9)]) by by vm_compute.
    rewrite E. split; intros x y [->|[->|[]%elem_of_nil]%elem_of_cons]%elem_of_cons
      [->|[->|[]%elem_of_nil]%elem_of_cons]%elem_of_cons; done.
  - set_solver.
Defined.
