(* ===== verification/HistoryQueries.v ===== *)
(** * The history database: searching and paging

    What a search finds, in which order, and that following the pages lists it
    all. *)

From stdpp Require Import sorting.
From S2P Require Import Prelude Wire ProtoValid FileTransfer ClipboardService HistoryDb HistoryWorker HistoryDbTheorems.

(** ** [LIKE] is a search for a part, in either case *)

(** The query occurs in the text, ASCII letters in either case. *)
Definition occurs (query text : rstring) : Prop :=
  exists before found after, text = before ++ found ++ after /\ lower <$> found = lower <$> query.

Lemma like_any pattern text :
  like (PERCENT :: pattern) text = true <-> exists before after, text = before ++ after /\ like pattern after = true.
Proof.
  cbn [like]. change (PERCENT =? PERCENT) with true. cbv iota. induction text as [|t text IH].
  - rewrite orb_false_r. split; [by exists [], []|]. intros (before & after & E & H). by destruct before, after.
  - rewrite orb_true_iff, IH. split.
    + intros [H|(before & after & -> & H)]; [by exists [], (t :: text)|by exists (t :: before), after].
    + intros (before & after & E & H). destruct before as [|b before]; cbn in E; [subst; by left|right].
      injection E as -> ->. by exists before, after.
Qed.
Lemma like_literal c pattern text :
  c <> PERCENT -> c <> UNDERSCORE -> c <> BACKSLASH ->
  like (c :: pattern) text = match text with t :: text => (lower c =? lower t) && like pattern text | [] => false end.
Proof.
  intros H1 H2 H3. cbn [like]. by destruct (Z.eqb_spec c PERCENT), (Z.eqb_spec c UNDERSCORE), (Z.eqb_spec c BACKSLASH).
Qed.
Lemma like_escaped_literal c pattern text :
  like (BACKSLASH :: c :: pattern) text
  = match text with t :: text => (lower c =? lower t) && like pattern text | [] => false end.
Proof. reflexivity. Qed.
Lemma like_escaped query pattern text :
  like (escape_like query ++ pattern) text = true
  <-> exists found after, text = found ++ after /\ lower <$> found = lower <$> query /\ like pattern after = true.
Proof.
  revert text. induction query as [|c query IH]; intros text; cbn [escape_like].
  - cbn [app]. split; [by exists [], text|]. intros (found & after & -> & E & H). by destruct found.
  - assert (Hstep : match text with t :: text => (lower c =? lower t) && like (escape_like query ++ pattern) text | [] => false end = true
      <-> exists found after, text = found ++ after /\ lower <$> found = lower <$> c :: query /\ like pattern after = true).
    { destruct text as [|t text]; [split; [done|]; intros (found & after & E & Hf & _); by destruct found|].
      rewrite andb_true_iff, IH, Z.eqb_eq. split.
      - intros [E (found & after & -> & Hf & H)]. exists (t :: found), after. cbn. by rewrite Hf, E.
      - intros (found & after & E & Hf & H). destruct found as [|f found]; [done|]. cbn in E, Hf. injection E as -> ->.
        injection Hf as Hf1 Hf2. split; [done|]. by exists found, after. }
    destruct ((c =? PERCENT) || (c =? UNDERSCORE) || (c =? BACKSLASH)) eqn:Es.
    + cbn [app]. by rewrite like_escaped_literal.
    + cbn [app]. apply orb_false_iff in Es as [[E1 E2]%orb_false_iff E3]. by rewrite like_literal by lia.
Qed.
(** The pattern of a query finds exactly the texts it occurs in. *)
Lemma like_pattern_occurs query text : like (like_pattern query) text = true <-> occurs query text.
Proof.
  unfold like_pattern, occurs. rewrite like_any. split.
  - intros (before & rest & -> & (found & after & -> & E & _)%like_escaped). by exists before, found, after.
  - intros (before & found & after & -> & E). exists before, (found ++ after). split; [done|]. apply like_escaped.
    exists found, after. split; [done|]. split; [done|]. apply like_any. exists after, []. by rewrite app_nil_r.
Qed.

Definition no_nul (s : rstring) : bool := negb (ProtoValid.contains 0 s).
Lemma until_nul_id s : no_nul s = true -> until_nul s = s.
Proof.
  unfold no_nul, ProtoValid.contains. induction s as [|b s IH]; [done|]. cbn [existsb until_nul].
  rewrite (Z.eqb_sym b). destruct (0 =? b); [done|]. intros H. f_equal. by apply IH.
Qed.
Lemma escape_like_no_nul query : no_nul (like_pattern query) = no_nul query.
Proof.
  unfold no_nul, ProtoValid.contains, like_pattern. cbn [existsb]. rewrite existsb_app. cbn [existsb].
  rewrite !orb_false_r. f_equal. cbn [orb Z.eqb PERCENT]. induction query as [|b query IH]; [done|]. cbn [escape_like].
  destruct (_ || _); cbn [existsb]; by rewrite IH.
Qed.
Lemma column_like_occurs query column :
  no_nul query = true ->
  column_like (like_pattern query) column = true <-> exists text, column = Some text /\ occurs query (until_nul text).
Proof.
  intros Hq. unfold column_like. rewrite (until_nul_id (like_pattern query)) by by rewrite escape_like_no_nul.
  destruct column as [text|]; [|split; [done|]; by intros (? & ? & _)]. rewrite like_pattern_occurs.
  split; [by exists text|]. by intros (? & [= <-] & ?).
Qed.

(** ** The orders of the listings *)

Lemma bytes_le_total a b : bytes_le a b = true \/ bytes_le b a = true.
Proof.
  revert b. induction a as [|x a IH]; intros [|y b]; cbn; try by auto.
  destruct (Z.eqb_spec x y) as [->|]; [rewrite Z.eqb_refl; apply IH|].
  destruct (Z.eqb_spec y x); [congruence|]. rewrite !Z.ltb_lt. lia.
Qed.
Lemma bytes_le_antisym a b : bytes_le a b = true -> bytes_le b a = true -> a = b.
Proof.
  revert b. induction a as [|x a IH]; intros [|y b]; cbn; try done.
  destruct (Z.eqb_spec x y) as [->|]; [rewrite Z.eqb_refl; intros; f_equal; by apply IH|].
  destruct (Z.eqb_spec y x); [congruence|]. rewrite !Z.ltb_lt. lia.
Qed.
Lemma bytes_le_trans a b c : bytes_le a b = true -> bytes_le b c = true -> bytes_le a c = true.
Proof.
  revert b c. induction a as [|x a IH]; intros [|y b] [|z c]; cbn; try done.
  destruct (Z.eqb_spec x y), (Z.eqb_spec y z), (Z.eqb_spec x z); rewrite ?Z.ltb_lt; subst; try done; try lia.
  by apply IH.
Qed.
#[global] Instance chronological_total : Total chronological.
Proof.
  intros [[d1 n1] r1] [[d2 n2] r2]. unfold chronological. cbn.
  destruct (Z.lt_trichotomy (row_created r1) (row_created r2)) as [|[|]]; [right; left; lia| |left; left; lia].
  destruct (bytes_le_total d1 d2); case_bool_decide; case_bool_decide; try congruence;
    destruct (Z.le_ge_cases n1 n2); auto.
Qed.
#[global] Instance chronological_trans : Transitive chronological.
Proof.
  intros [[d1 n1] r1] [[d2 n2] r2] [[d3 n3] r3]. unfold chronological. cbn.
  intros [H1|[E1 H1]] [H2|[E2 H2]]; try (left; lia). right. split; [lia|]. revert H1 H2.
  destruct (decide (d1 = d2)) as [->|N1], (decide (d2 = d3)) as [->|N2]; rewrite ?bool_decide_true by done;
    rewrite ?(bool_decide_false (d1 = d2)), ?(bool_decide_false (d2 = d3)), ?(bool_decide_false (d1 = d3)) by done;
    try done; try (intros; lia).
  destruct (decide (d1 = d3)) as [->|N3]; [intros; exfalso; eauto using bytes_le_antisym|].
  rewrite (bool_decide_false (d1 = d3)) by done. apply bytes_le_trans.
Qed.
#[global] Instance pinned_first_total d : Total (pinned_first d).
Proof.
  intros x y. unfold pinned_first. destruct (is_pinned d x.1), (is_pinned d y.1); auto;
    destruct (total chronological x y); auto.
Qed.
#[global] Instance pinned_first_trans d : Transitive (pinned_first d).
Proof.
  intros x y z. unfold pinned_first. intros [[-> ->]|[-> H1]] [[? ->]|[<- H2]]; try done; auto. right. split; [done|].
  by etrans.
Qed.

(** ** Rows to records *)

Lemma collect_results_ok {E A} (l : list (result E A)) rs :
  Forall2 (fun x r => x = Ok r) l rs -> collect_results l = Ok rs.
Proof. induction 1 as [|x r l rs -> _ IH]; [done|]. cbn. by rewrite IH. Qed.

Section queries.
Context {json : StoreJson} {laws : StoreJsonLaws json} {order : HashOrder}.
Implicit Types (d : Db) (rows : list (HistoryEventId * EventRow)).

Definition decodes d (x : HistoryEventId * EventRow) (r : HistoryRecord) : Prop :=
  decode_record x.1 x.2 (is_pinned d x.1) = Ok r.
Lemma visible_rows_spec d id row :
  (id, row) ∈ visible_rows d <-> history_events d !! id = Some row /\ is_dismissed d id = false.
Proof.
  unfold visible_rows. rewrite list_elem_of_In, filter_In, <- list_elem_of_In. unfold event_rows.
  rewrite elem_of_hash_order, elem_of_map_to_list. destruct (is_dismissed d id); cbn; intuition done.
Qed.
Lemma rows_decode d rows :
  wf_db d -> (forall x, x ∈ rows -> x ∈ visible_rows d) -> exists records, Forall2 (decodes d) rows records.
Proof.
  intros W. induction rows as [|[id row] rows IH]; intros Hv; [by exists []|].
  destruct IH as [records Hr]; [intros x Hx; apply Hv; by right|].
  assert (Hin : (id, row) ∈ visible_rows d) by (apply Hv; by left). apply visible_rows_spec in Hin as [Hrow Hd].
  destruct (wf_visible d id row W Hrow Hd) as (e & _ & _ & _ & Hdec). eexists. constructor; [apply Hdec|exact Hr].
Qed.
Lemma query_records_decode d rows records :
  Forall2 (decodes d) rows records -> query_records d rows = Ok records.
Proof.
  intros H. apply collect_results_ok. apply Forall2_fmap_l. eapply Forall2_impl; [done|]. by intros [id row] r.
Qed.

(** ** Pages *)

(** Following [next] until there is none *)
Fixpoint follow {A} (fetch : Z -> result HistoryError (list A * option Z)) (fuel : nat) (offset : Z)
    : result HistoryError (list A) :=
  match fuel with
  | O => Ok []
  | S fuel =>
      let* (records, next) := fetch offset in
      match next with
      | Some next => let* rest := follow fetch fuel next in Ok (records ++ rest)
      | None => Ok records
      end
  end.

Lemma query_window_spec d rows records offset limit :
  Forall2 (decodes d) rows records -> 0 <= offset <= i64_max ->
  let size := Z.to_nat (Z.max 1 (Z.min limit 50)) in
  query_window d rows offset limit
  = Ok (take size (drop (Z.to_nat offset) records),
        if (size <? length (drop (Z.to_nat offset) records))%nat then Some (offset + Z.of_nat size) else None).
Proof.
  intros Hr Ho size. unfold query_window. set (L := Z.max 1 (Z.min limit 50)) in *.
  assert (HL : 1 <= L <= 50) by lia. rewrite Z.min_l by lia.
  rewrite (query_records_decode d _ (take (Z.to_nat (L + 1)) (drop (Z.to_nat offset) records)))
    by by apply Forall2_take, Forall2_drop.
  set (rest := drop (Z.to_nat offset) records). unfold len. rewrite length_take.
  replace (Z.to_nat (L + 1)) with (S size) by (subst size; lia).
  destruct (Nat.ltb_spec size (length rest)) as [Hlt|Hge].
  - destruct (Z.ltb_spec L (Z.of_nat (S size `min` length rest))); [|subst size; lia].
    rewrite take_take, Nat.min_l by lia. unfold saturating_add, u64_max. subst size. unfold i64_max in Ho. f_equal. f_equal. f_equal. lia.
  - destruct (Z.ltb_spec L (Z.of_nat (S size `min` length rest))); [subst size; lia|].
    rewrite take_ge by lia. by rewrite take_ge by lia.
Qed.
Lemma follow_window d rows records limit fuel offset :
  Forall2 (decodes d) rows records -> len records < i64_max -> 0 <= offset <= len records ->
  (length (drop (Z.to_nat offset) records) < fuel)%nat ->
  follow (fun offset => query_window d rows offset limit) fuel offset = Ok (drop (Z.to_nat offset) records).
Proof.
  intros Hr Hlen. revert offset. induction fuel as [|fuel IH]; intros offset Ho Hf; [lia|]. cbn [follow].
  rewrite (query_window_spec d rows records offset limit Hr) by lia. set (size := Z.to_nat (Z.max 1 (Z.min limit 50))).
  assert (Hs : (1 <= size)%nat) by (subst size; lia). cbv zeta. rewrite length_drop in *. unfold len in *.
  destruct (Nat.ltb_spec size (length records - Z.to_nat offset)) as [Hlt|Hge].
  - rewrite IH by (rewrite ?length_drop; lia). f_equal.
    replace (Z.to_nat (offset + Z.of_nat size)) with (Z.to_nat offset + size)%nat by lia.
    rewrite <- drop_drop. apply take_drop.
  - by rewrite take_ge by (rewrite length_drop; lia).
Qed.

(** ** What a search finds *)

(** The columns a query is looked for in *)
Definition searched_texts (r : HistoryRecord) : list rstring :=
  option_list (origin_label (immutable_event r))
  ++ match event_content (immutable_event r) with
     | HistoryText text => [text]
     | HistoryImage _ media_type _ _ => option_list media_type
     | HistoryFiles files => [files_to_json files]
     end.
(** The query occurs in one of the texts, of which only what precedes a NUL
    counts. *)
Definition found (query : rstring) (r : HistoryRecord) : Prop :=
  query = [] \/ exists text, text ∈ searched_texts r /\ occurs query (until_nul text).
(** Pinned records first, then the latest; those of the same time by the device
    and then the latest sequence. *)
Definition listed_before (r r' : HistoryRecord) : Prop :=
  let e := immutable_event r in
  let e' := immutable_event r' in
  (record_pinned r = true /\ record_pinned r' = false)
  \/ (record_pinned r = record_pinned r'
      /\ (created_at_ms e' < created_at_ms e
          \/ (created_at_ms e = created_at_ms e'
              /\ if bool_decide ((event_id e).1 = (event_id e').1) then (event_id e').2 <= (event_id e).2
                 else bytes_le (event_id e).1 (event_id e').1 = true))).

Lemma row_matches_found query e pin :
  query <> [] -> no_nul query = true ->
  row_matches (like_pattern query) (encode_row e) = true <-> found query {| immutable_event := e; record_pinned := pin |}.
Proof.
  intros Hne Hq. unfold row_matches. rewrite !orb_true_iff, !column_like_occurs by done.
  unfold found, searched_texts, encode_row. cbn [immutable_event].
  destruct (origin_label e) as [label|], (event_content e) as [text|bytes [m|] w h|files]; cbn; set_solver.
Qed.
Lemma query_rows_run d query :
  len (like_pattern query) <= SQLITE_MAX_LIKE_PATTERN_LENGTH ->
  exists rows, query_rows d query = Ok rows
    /\ StronglySorted (pinned_first d) rows /\ NoDup rows.*1
    /\ forall id row, (id, row) ∈ rows
         <-> (id, row) ∈ visible_rows d /\ (query = [] \/ row_matches (like_pattern query) row = true).
Proof.
  intros Hlen. assert (Hrun : query_rows d query = Ok (merge_sort (pinned_first d)
    (List.filter (fun '(_, row) => bool_decide (query = []) || row_matches (like_pattern query) row) (visible_rows d)))).
  { unfold query_rows, LIST_SQL, SEARCH_SQL. case_bool_decide.
    - f_equal. f_equal. rewrite <- (List.filter_true (visible_rows d)) at 1. by apply List.filter_ext; intros [].
    - destruct (Z.ltb_spec SQLITE_MAX_LIKE_PATTERN_LENGTH (len (like_pattern query))); [lia|done]. }
  eexists. split; [exact Hrun|]. split; [apply (StronglySorted_merge_sort (pinned_first d) _)|].
  split; [rewrite merge_sort_Permutation; by apply filter_fst_nodup, filter_fst_nodup, event_rows_nodup|].
  intros id row. rewrite merge_sort_Permutation, list_elem_of_In, filter_In, <- list_elem_of_In, orb_true_iff.
  by rewrite bool_decide_eq_true.
Qed.

Lemma decodes_visible d x r :
  wf_db d -> x ∈ visible_rows d -> decodes d x r ->
  exists e, event_id e = x.1 /\ x.2 = encode_row e /\ r = {| immutable_event := e; record_pinned := is_pinned d x.1 |}.
Proof.
  destruct x as [id row]. intros W [Hrow Hd]%visible_rows_spec. unfold decodes. cbn [fst snd].
  destruct (wf_visible d id row W Hrow Hd) as (e & He & _ & Hr & Hdec). rewrite Hdec. intros [= <-]. by exists e.
Qed.
Lemma row_created_encode e : row_created (encode_row e) = created_at_ms e.
Proof. unfold encode_row. by destruct (event_content e). Qed.
Lemma decoded_sorted d rows records :
  wf_db d -> (forall x, x ∈ rows -> x ∈ visible_rows d) -> Forall2 (decodes d) rows records ->
  StronglySorted (pinned_first d) rows -> StronglySorted listed_before records.
Proof.
  intros W Hv H. induction H as [|x r rows records Hx H IH]; [constructor|]. intros [Hs Hall]%StronglySorted_inv.
  constructor; [apply IH; [intros y Hy; apply Hv; by right|done]|]. apply Forall_forall. intros r' Hr'.
  apply list_elem_of_lookup in Hr' as [n Hr']. destruct (Forall2_lookup_r _ _ _ _ _ H Hr') as (y & Hy & Hdy).
  assert (Hin : y ∈ rows) by by eapply list_elem_of_lookup_2. rewrite Forall_forall in Hall. specialize (Hall y Hin).
  destruct (decodes_visible d x r W) as (e & Ex & Rx & ->); [by apply Hv; left|done|].
  destruct (decodes_visible d y r' W) as (e' & Ey & Ry & ->); [by apply Hv; right|done|].
  unfold pinned_first, chronological in Hall. rewrite Rx, Ry, <- Ex, <- Ey in Hall. unfold listed_before. cbn.
  rewrite Ex, Ey in *. by rewrite !row_created_encode in Hall.
Qed.
Lemma decoded_ids d rows records :
  wf_db d -> (forall x, x ∈ rows -> x ∈ visible_rows d) -> Forall2 (decodes d) rows records ->
  (fun r => event_id (immutable_event r)) <$> records = rows.*1.
Proof.
  intros W Hv H. induction H as [|x r rows records Hx H IH]; [done|]. cbn. f_equal.
  - by destruct (decodes_visible d x r W) as (e & <- & _ & ->); [apply Hv; left|..].
  - apply IH. intros y Hy. apply Hv. by right.
Qed.
Lemma get_visible d r :
  wf_db d -> let id := event_id (immutable_event r) in
  get d id = Ok (Some r) <-> exists row, (id, row) ∈ visible_rows d /\ decodes d (id, row) r.
Proof.
  intros W id. unfold get, decodes. cbn [fst snd]. split.
  - destruct (sequence_to_sql id.2); [|done]. cbn. destruct (history_events d !! id) as [row|] eqn:E; [|done].
    destruct (is_dismissed d id) eqn:Ed; [done|]. destruct (decode_record id row _) eqn:Er; [|done]. intros [= ->].
    exists row. by rewrite visible_rows_spec.
  - intros (row & [E Ed]%visible_rows_spec & Er). destruct (wf_rows _ W id row E) as [[_ Hid] _].
    unfold sequence_to_sql. destruct (Z.leb_spec id.2 i64_max); [|lia]. cbn. by rewrite E, Ed, Er.
Qed.

Lemma rows_bounded d rows :
  NoDup rows.*1 -> (forall x, x ∈ rows -> x ∈ visible_rows d) -> (length rows <= size (history_events d))%nat.
Proof.
  intros Hnd Hv. rewrite <- (length_fmap fst rows), <- length_map_to_list, <- (length_fmap fst (map_to_list _)).
  apply submseteq_length, NoDup_submseteq; [done|]. intros id ((id' & row) & -> & [H _]%Hv%visible_rows_spec)%list_elem_of_fmap.
  apply list_elem_of_fmap. exists (id', row). split; [done|]. by apply elem_of_map_to_list.
Qed.
Lemma decoded_elem d rows records r :
  wf_db d -> (forall x, x ∈ rows -> x ∈ visible_rows d) -> Forall2 (decodes d) rows records ->
  let id := event_id (immutable_event r) in
  r ∈ records <-> exists row, (id, row) ∈ rows /\ decodes d (id, row) r.
Proof.
  intros W Hv H id. rewrite list_elem_of_lookup. split.
  - intros [n Hn]. destruct (Forall2_lookup_r _ _ _ _ _ H Hn) as ([i row] & Hy & Hd).
    apply list_elem_of_lookup_2 in Hy. destruct (decodes_visible d _ r W (Hv _ Hy) Hd) as (e & Ee & _ & Er).
    assert (id = i) as -> by by subst id r. by exists row.
  - intros (row & [n Hn]%list_elem_of_lookup & Hd). destruct (Forall2_lookup_l _ _ _ _ _ H Hn) as (r' & Hr' & Hd').
    exists n. unfold decodes in *. congruence.
Qed.
Lemma decoded_found d query x r :
  wf_db d -> no_nul query = true -> x ∈ visible_rows d -> decodes d x r ->
  query = [] \/ row_matches (like_pattern query) x.2 = true <-> found query r.
Proof.
  intros W Hq Hin Hdec. destruct (decodes_visible d x r W Hin Hdec) as (e & _ & -> & ->).
  destruct (decide (query = [])) as [->|Hne]; [unfold found; tauto|]. rewrite (row_matches_found query e (is_pinned d x.1) Hne Hq).
  unfold found. tauto.
Qed.

(** C23: a search finds the right records, in the right order, and its pages list
    it.  For a query without NUL and no longer than SQLite takes, the search
    returns exactly the records that are not dismissed and in whose label, text,
    media type or list of files the query occurs before the first NUL of that text,
    letters in either case (all of them for the empty query): what follows a NUL in
    a text is never found, since SQLite's [LIKE] stops there; each of them once, with its content and pin as
    [get] returns it; the pinned ones first and then the latest; and following
    the pages from the first, whatever their size, gives the same list. *)
Theorem pages_list_the_search d query limit :
  wf_db d -> no_nul query = true -> len (like_pattern query) <= SQLITE_MAX_LIKE_PATTERN_LENGTH ->
  Z.of_nat (size (history_events d)) < i64_max ->
  exists records,
    search d query = Ok records
    /\ follow (fun offset => page d query offset limit) (S (length records)) 0 = Ok records
    /\ StronglySorted listed_before records
    /\ NoDup ((fun r => event_id (immutable_event r)) <$> records)
    /\ forall r, r ∈ records <-> get d (event_id (immutable_event r)) = Ok (Some r) /\ found query r.
Proof.
  intros W Hq Hlen Hsize. destruct (query_rows_run d query Hlen) as (rows & Hrun & Hs & Hnd & Hrows).
  assert (Hv : forall x, x ∈ rows -> x ∈ visible_rows d) by (intros [id row] Hx; by apply Hrows in Hx as [? _]).
  destruct (rows_decode d rows W Hv) as [records Hr]. exists records. unfold search, page. rewrite Hrun.
  split; [by apply query_records_decode|].
  split; [|split; [by eapply decoded_sorted|split; [by rewrite (decoded_ids d rows records W Hv Hr)|]]].
  - pose proof (Forall2_length _ _ _ Hr) as El. pose proof (rows_bounded d rows Hnd Hv). unfold len in *.
    by rewrite (follow_window d rows records limit) by (try done; unfold len; rewrite ?length_drop; lia).
  - intros r. rewrite (get_visible d r W), (decoded_elem d rows records r W Hv Hr). split.
    + intros (row & Hin & Hdec). apply Hrows in Hin as [Hin Hm]. split; [by exists row|].
      by apply (decoded_found d query _ r W Hq Hin Hdec).
    + intros [(row & Hin & Hdec) Hf]. exists row. split; [|done]. apply Hrows. split; [done|].
      by apply (decoded_found d query _ r W Hq Hin Hdec).
Qed.
End queries.

(** Text behind a NUL is not searched. *)
Example nul_hides_text : column_like (like_pattern (str "b")) (Some [97; 0; 98]) = false.
Proof. vm_compute. reflexivity. Qed.

(** ** A concrete search *)

#[local] Existing Instances plain_json plain_json_laws list_order.
Definition three_texts : Db :=
  let text sequence created content := {|
    event_id := (str "desk", sequence); created_at_ms := created; origin_label := None; event_content := HistoryText (str content) |} in
  let d := foldl (fun d e => (merge_imported d e).1) empty_db [text 1 5 "100% wool"; text 2 7 "100 Wools"; text 3 9 "100% WOOLEN"] in
  (set_pinned d (str "desk", 1) true).1.
Lemma three_texts_wf : wf_db three_texts.
Proof. unfold three_texts. cbn [foldl]. apply wf_set_pinned. repeat (apply wf_merge; [|done]). apply wf_empty. Qed.
Example three_texts_found :
  exists records, search three_texts (str "% wool") = Ok records
    /\ (fun r => (event_id (immutable_event r)).2) <$> records = [1; 3].
Proof. eexists. split; vm_compute; reflexivity. Qed.
Lemma pages_list_the_search_witness :
  exists records, search three_texts (str "% wool") = Ok records
    /\ follow (fun offset => page three_texts (str "% wool") offset 1) (S (length records)) 0 = Ok records.
Proof.
  destruct (pages_list_the_search three_texts (str "% wool") 1) as (records & H1 & H2 & _).
  - apply three_texts_wf.
  - vm_compute. reflexivity.
  - vm_compute. discriminate.
  - vm_compute. reflexivity.
  - exists records. exact (conj H1 H2).
Defined.
