(* ===== verification/HistoryReplica.v ===== *)
(** * The history of a daemon: the service over its worker

    The worker is what the service expects of a store; every step of the service
    is then a run of the worker, and an acknowledged clear holds. *)

From S2P Require Import Prelude Wire ProtoTypes HistorySync HistorySyncTheorems HistoryService HistoryServiceTheorems HistoryDb HistoryWorker HistoryDbTheorems HistoryDbSafety.

#[local] Set Warnings "-clear-no-such-hyp".

Section replica.
Context {json : StoreJson} {laws : StoreJsonLaws json} {order : HashOrder} {thumbnails : Thumbnails}.
Context (local_device : rstring) (local_label : option rstring) (message : HistoryError -> rstring).
Context (serialize : ImportedHistoryEvent -> result string bytes) (deserialize : bytes -> option ImportedHistoryEvent).
(** serde reads sequences as [u64]. *)
Context (Hdeserialize : forall data e, deserialize data = Some e -> 0 <= (event_id e).2).

(** ** The worker as a store *)

(** [HistoryWorker::request]: the reply of the worker, its error as a message;
    the type of the channel is that of the reply. *)
Definition request {A} (w : Worker) (command : WorkerCommand) (answer : WorkerReply -> option A) : Worker * result rstring A :=
  let (w, r) := handle_command local_device local_label w None command in
  (w, match r with
      | Ok reply => match answer reply with Some a => Ok a | None => Err [] end
      | Err error => Err (message error)
      end).
#[local] Instance worker_store : HistoryStore Worker ImportedHistoryEvent := {
  snapshot_boundary w := (request w SnapshotBoundary (fun r => match r with Boundary b => Some b | _ => None end)).2;
  apply_clear w operation b := request w (ApplyClear operation b) (fun r => match r with Cleared n => Some n | _ => None end);
  import w e := request w (ImportEvent e) (fun r => match r with Merged _ => Some tt | _ => None end);
  export w offset limit :=
    (request w (ExportPage offset limit) (fun r => match r with Exported events next => Some (events, next) | _ => None end)).2;
}.
Implicit Types (s : HistoryState Worker) (w : Worker) (b : gmap rstring Z).
Abbreviation runs := (runs local_device local_label).
Abbreviation handle_history := (handle_history serialize deserialize).

Lemma request_fst {A} w command (answer : WorkerReply -> option A) :
  (request w command answer).1 = (handle_command local_device local_label w None command).1.
Proof. unfold request. by destruct (handle_command _ _ _ _ _). Qed.
Lemma request_runs {A} w w' command (answer : WorkerReply -> option A) :
  runs w w' -> wf_command command -> runs w (request w' command answer).1.
Proof. intros. rewrite request_fst. by apply Runs_step. Qed.
Lemma request_answered {A} w command (answer : WorkerReply -> option A) w' a :
  request w command answer = (w', Ok a) ->
  exists reply, handle_command local_device local_label w None command = (w', Ok reply) /\ answer reply = Some a.
Proof.
  unfold request. destruct (handle_command _ _ _ _ _) as [w1 [reply|]]; [|done]. intros [= <- H]. exists reply.
  destruct (answer reply); [|done]. by injection H as ->.
Qed.

(** ** Boundaries are of unsigned sequences *)

Abbreviation unsigned := (map_Forall (fun (_ : rstring) top => 0 <= top)).
Lemma join_unsigned x y : (forall n, x = Some n -> 0 <= n) -> (forall n, y = Some n -> 0 <= n) ->
  forall n, join_entry x y = Some n -> 0 <= n.
Proof.
  intros Hx Hy n. destruct x as [x|], y as [y|]; cbn; intros [= <-]; [|by apply Hx|by apply Hy].
  specialize (Hx x eq_refl). lia.
Qed.
Lemma raise_unsigned entries b :
  unsigned b -> Forall (fun e => 0 <= e.2) entries -> unsigned (fold_left raise_boundary entries b).
Proof.
  intros Hb H. revert b Hb. induction H as [|[device n] entries Hn H IH]; intros b Hb; [done|]. cbn [fold_left]. apply IH.
  intros i m. rewrite raise_lookup. case_decide; [|apply Hb]. apply join_unsigned; [apply Hb|]. by intros ? [= <-].
Qed.
Lemma union_unsigned b b' : unsigned b -> unsigned b' -> unsigned (union_boundary b b').
Proof. intros H H' i n. rewrite union_boundary_lookup. apply join_unsigned; [apply H|apply H']. Qed.
Lemma wire_unsigned op entries :
  wf_event (ProtoEvent.HistoryClearApply op entries) = true -> unsigned (boundary_from_wire entries).
Proof.
  cbn [wf_event]. intros [_ H]%andb_true_iff. apply raise_unsigned; [apply map_Forall_empty|].
  apply Forall_forall. intros [device n] Hin. unfold wf_boundary in H. rewrite forallb_forall in H.
  specialize (H _ (proj1 (list_elem_of_In _ _) Hin)). cbn in *. zbool.
Qed.
Lemma snapshot_unsigned w b : HistoryService.snapshot_boundary w = Ok b -> unsigned b.
Proof.
  cbn. unfold HistoryDb.snapshot_boundary. case_bool_decide as H; [|done]. cbn. by intros [= <-].
Qed.

(** ** Every step of the service is a run of the worker *)

Definition unsigned_clear s : Prop := forall c, clear s = Some c -> unsigned (boundary c).

Lemma add_boundary_unsigned (c : ClearCoordinator rstring) peer b :
  unsigned (boundary c) -> unsigned b -> unsigned (boundary (add_boundary c peer b).1).
Proof. intros Hc Hb. unfold add_boundary. case_bool_decide; [|done]. by apply union_unsigned. Qed.

(** From boundaries of unsigned sequences, [s'] is reached by running the worker. *)
Definition follows s s' : Prop := unsigned_clear s -> runs (store s) (store s') /\ unsigned_clear s'.
Lemma follows_same s s' : store s' = store s -> clear s' = clear s -> follows s s'.
Proof. intros E1 E2 H. unfold unsigned_clear. rewrite E1, E2. split; [apply Runs_refl|done]. Qed.
Lemma follows_clear s c : (unsigned_clear s -> forall c', c = Some c' -> unsigned (boundary c')) -> follows s (with_clear s c).
Proof. intros Hc H. split; [apply Runs_refl|]. intros c' E. exact (Hc H c' E). Qed.
Lemma follows_apply s op b : unsigned b -> follows s (with_store s (apply_clear (store s) op b).1).
Proof. intros Hb H. split; [|done]. cbn. by apply request_runs; [apply Runs_refl|]. Qed.

Lemma follows_trans s1 s2 s3 : follows s1 s2 -> follows s2 s3 -> follows s1 s3.
Proof. intros H1 H2 H. destruct (H1 H) as [R1 U]. destruct (H2 U) as [R2 U']. split; [by eapply runs_trans|done]. Qed.

Lemma chunk_deserialized (r : Reassembler Peer) peer request_id record_id index data r' e :
  chunk deserialize r peer request_id record_id index data = (r', Returned (Ok (Some e))) -> 0 <= (event_id e).2.
Proof using Hdeserialize.
  unfold chunk. repeat case_match; intros [=]; subst; eauto.
Qed.
Lemma apply_global_follows s c op now :
  unsigned (boundary c) -> follows s (apply_global_clear s c op now).1.
Proof.
  intros Hc. pose proof (follows_apply s (hex_operation op) (boundary c) Hc) as H. unfold apply_global_clear.
  destruct (apply_clear _ _ _) as [st [n|error]]; cbn [fst] in *; [|done]. eapply follows_trans; [exact H|].
  apply follows_clear. by intros _ ? [= <-].
Qed.
Lemma boundary_follows s identity op op' entries now :
  wf_event (ProtoEvent.HistoryClearApply op' entries) = true -> follows s (on_clear_boundary s identity op entries now).1.
Proof.
  intros He. unfold on_clear_boundary. destruct (clear s) as [c|] eqn:Ec; [|by apply follows_same].
  case_bool_decide; [|by apply follows_same]. intros Hs.
  pose proof (add_boundary_unsigned c identity _ (Hs c Ec) (wire_unsigned op' entries He)) as Hc'.
  destruct (add_boundary _ _ _) as [c' ready]. cbn [fst] in Hc'. revert Hs. destruct ready; cbn [fst].
  - apply (follows_trans _ (with_clear s None)); [by apply follows_clear|by apply apply_global_follows].
  - apply follows_clear. by intros _ ? [= <-].
Qed.
Lemma ack_follows s identity op n error : follows s (on_clear_ack s identity op n error).1.
Proof.
  unfold on_clear_ack. destruct (clear s) as [c|] eqn:Ec; [|by apply follows_same].
  destruct (_ && _); [|by apply follows_same]. destruct (add_ack c identity n error) as [c' finished] eqn:Ea.
  assert (boundary c' = boundary c) as Eb by (unfold add_ack in Ea; case_bool_decide; by injection Ea as <- _).
  destruct finished; apply follows_clear; [done|]. intros H ? [= <-]. rewrite Eb. by apply H.
Qed.
Lemma message_follows s peer e now s' out :
  wf_event e = true -> handle_history s peer e now = Returned (s', out) -> follows s s'.
Proof using Hdeserialize.
  intros He. unfold HistoryService.handle_history. destruct (authenticated s !! peer) as [identity|];
    [|by intros [= <- _]; apply follows_same].
  destruct e; try (by intros [= <- _]; apply follows_same).
  - unfold on_record_chunk. destruct (chunk _ _ _ _ _ _ _) as [r [[[e|]|]|]] eqn:Ec; [|by intros [= <- _]; apply follows_same..|done].
    intros [= <- _]. apply (follows_trans _ (with_reassembler s r)); [by apply follows_same|].
    intros H. split; [|done]. cbn. apply request_runs; [apply Runs_refl|]. by eapply chunk_deserialized.
  - intros [= E]. apply (f_equal fst) in E. cbn in E. subst s'. apply follows_same; unfold on_page_end; repeat case_match; done.
  - intros [= E]. apply (f_equal fst) in E. cbn in E. subst s'. by eapply boundary_follows.
  - unfold on_clear_apply. destruct (apply_clear _ _ _) as [st r] eqn:Ea. intros [= <- _].
    pose proof (follows_apply s (hex_operation operation_id) (boundary_from_wire boundary)) as H. rewrite Ea in H.
    by eapply H, wire_unsigned.
  - intros [= E]. apply (f_equal fst) in E. cbn in E. subst s'. apply ack_follows.
Qed.
Lemma sync_follows s s0 peer offset : store s0 = store s -> clear s0 = clear s -> follows s (request_history_sync s0 peer offset).1.
Proof. intros. by apply follows_same. Qed.
Lemma lost_follows s peer : follows s (history_peer_lost s peer).1.
Proof.
  unfold history_peer_lost. set (s0 := Build_HistoryState _ _ _ _ _ _ _).
  destruct (authenticated s !! peer) as [identity|]; [|by apply follows_same].
  destruct (connected_authenticated_peers s0 !! identity); [by apply follows_same|].
  apply (follows_trans _ s0); [by apply follows_same|]. apply follows_clear. intros H c Hc.
  destruct (clear s0) as [c0|] eqn:E; [|done]. injection Hc as <-. exact (H c0 E).
Qed.
Lemma start_clear_follows s operation now : follows s (start_global_history_clear s operation now).1.
Proof.
  unfold start_global_history_clear. destruct (clear s); [by apply follows_same|].
  destruct (HistoryService.snapshot_boundary (store s)) as [b|] eqn:Eb; [|by apply follows_same].
  apply snapshot_unsigned in Eb. cbv zeta iota beta delta [next_history_request_id]. case_bool_decide.
  - unfold finish_local_only_clear. match goal with |- context [apply_clear (store ?s0) ?op ?b0] =>
      pose proof (follows_apply s0 op b0 Eb) as Hf; apply (follows_trans _ s0); [by apply follows_same|];
      destruct (apply_clear (store s0) op b0) as [st r] end. exact Hf.
  - match goal with |- context [with_clear ?s0 _] => apply (follows_trans _ s0); [by apply follows_same|] end.
    apply follows_clear. by intros _ ? [= <-].
Qed.
Lemma step_follows s out s' : service_step serialize deserialize s out s' -> follows s s'.
Proof using Hdeserialize.
  intros Hs. destruct Hs as [s peer e now s' out He E|s peer offset s' out E|s record s' out E
    |s operation now s' out E|s peer s' out E|s now s' out E|s now|s addr fingerprint s' out E
    |s handle alive s' out E|s peer identity]; try (apply (f_equal fst) in E; cbn [fst] in E; subst s').
  - by eapply message_follows.
  - by apply sync_follows.
  - unfold broadcast_history_record. cbn. destruct (record_events _ _ _ _); by apply follows_same.
  - apply start_clear_follows.
  - apply lost_follows.
  - unfold clear_deadline. destruct (clear s); [|by apply follows_same]. destruct (_ <=? _); [by apply follows_clear|by apply follows_same].
  - by apply follows_same.
  - by apply sync_follows.
  - unfold capture_state_changed. destruct alive; [|apply lost_follows]. case_bool_decide; [by apply follows_same|by apply sync_follows].
  - by apply follows_same.
Qed.

(** ** The daemon *)

(** The service takes a step, or another part of the daemon asks the worker: the
    clipboard records, the user lists, searches and pins. *)
Inductive daemon_step s : HistoryState Worker -> Prop :=
| Service_step out s' : service_step serialize deserialize s out s' -> daemon_step s s'
| Worker_step now command : wf_command command ->
    daemon_step s (with_store s (handle_command local_device local_label (store s) now command).1).
Definition fresh_daemon (first_request : Z) : HistoryState Worker := {|
  store := fresh_worker; authenticated := ∅; connected := ∅; reassembler := empty_reassembler; progress := ∅;
  next_request := first_request; clear := None |}.

Lemma daemon_follows s s' : rtc daemon_step s s' -> follows s s'.
Proof using Hdeserialize.
  induction 1 as [|s s1 s2 Hs _ IH]; [by apply follows_same|]. refine (follows_trans _ _ _ _ IH).
  destruct Hs as [out s1 Hs|now command Hc]; [by eapply step_follows|]. intros H. split; [|done].
  by apply Runs_step; [apply Runs_refl|].
Qed.

(** C7: an acknowledged clear holds.  When the daemon acknowledges a clear to the
    peer that asked for it, then whatever happens afterwards, with every record,
    pin, import, replay and message of every peer: a record at or below the
    boundary of the clear that is visible was visible before the clear, and
    pinned when the clear was new; and a hidden record holds no text, image,
    media type or file names any more. *)
Theorem acknowledged_clear_holds first_request s peer op entries now n s' out s'' :
  rtc daemon_step (fresh_daemon first_request) s ->
  wf_event (ProtoEvent.HistoryClearApply op entries) = true ->
  handle_history s peer (ProtoEvent.HistoryClearApply op entries) now = Returned (s', out) ->
  Send peer (ProtoEvent.HistoryClearAck op n None) ∈ out ->
  rtc daemon_step s' s'' ->
  (forall id top, boundary_from_wire entries !! id.1 = Some top -> id.2 <= top -> visible (db (store s'')) id ->
     visible (db (store s)) id
     /\ (clear_operations (db (store s)) !! hex_operation op = None -> is_pinned (db (store s)) id = true))
  /\ (forall id row, history_events (db (store s'')) !! id = Some row -> ~ visible (db (store s'')) id ->
        text_payload row = None /\ image_payload row = None /\ row_media_type row = None /\ files_json row = None).
Proof using laws Hdeserialize.
  intros Hr He Hc Hout Hr'. pose proof (message_follows _ _ _ _ _ _ He Hc) as Hf.
  destruct (daemon_follows _ _ Hr) as [R U]; [by intros ? [=]|]. destruct (Hf U) as [_ U'].
  destruct (daemon_follows _ _ Hr' U') as [R' _]. revert Hc. unfold HistoryService.handle_history.
  destruct (authenticated s !! peer); [|intros [= _ <-]; by apply elem_of_nil in Hout]. unfold on_clear_apply.
  destruct (apply_clear _ _ _) as [st r] eqn:Ea. intros [= <- <-]. apply list_elem_of_singleton in Hout.
  destruct r as [m|]; [|done]. injection Hout as ->. apply request_answered in Ea as ([] & Ea & E); try done. injection E as ->.
  by eapply (cleared_records_stay_cleared local_device local_label); [exact R|by eapply wire_unsigned|exact Ea|exact R'].
Qed.
End replica.

(** ** A concrete clear *)

#[local] Existing Instances plain_json plain_json_laws list_order no_thumbnails.
Definition reject : bytes -> option ImportedHistoryEvent := fun _ => None.
Definition refuse : ImportedHistoryEvent -> result string bytes := fun _ => Err "not sent"%string.
Definition silent : HistoryError -> rstring := fun _ => [].
(** The daemon after the commands of [before_clear], with one authenticated peer *)
Definition asked : HistoryState Worker := {|
  store := ready; authenticated := {[Emulation 3 := str "lap"]}; connected := ∅; reassembler := empty_reassembler;
  progress := ∅; next_request := 7; clear := None |}.
Definition operation_16 : bytes := replicate 16 1.
Definition clear_two : ProtoEvent := ProtoEvent.HistoryClearApply operation_16 [(str "desk", 2)].
Definition answered : HistoryState Worker * list output :=
  match handle_history (HistoryStore0 := worker_store (str "desk") desk_label silent) refuse reject asked (Emulation 3) clear_two 0 with
  | Returned r => r
  | Panicked => (asked, [])
  end.

Lemma worker_steps s commands :
  Forall wf_command commands ->
  rtc (daemon_step (str "desk") desk_label silent refuse reject) s (with_store s (handle_all (store s) commands)).
Proof.
  intros H. revert s. induction H as [|command commands Hc H IH]; intros s; [by destruct s|].
  eapply rtc_l; [by apply Worker_step with (now := Some 7)|]. apply (IH (with_store s _)).
Qed.
Lemma acknowledged_clear_holds_witness :
  (forall id top, boundary_from_wire [(str "desk", 2)] !! id.1 = Some top -> id.2 <= top ->
    visible (db (store answered.1)) id -> visible (db ready) id
    /\ (clear_operations (db ready) !! hex_operation operation_16 = None -> is_pinned (db ready) id = true))
  /\ (forall id row, history_events (db (store answered.1)) !! id = Some row -> ~ visible (db (store answered.1)) id ->
        text_payload row = None /\ image_payload row = None /\ row_media_type row = None /\ files_json row = None).
Proof.
  pose proof (acknowledged_clear_holds (str "desk") desk_label silent refuse reject ltac:(done) 7 asked (Emulation 3)
    operation_16 [(str "desk", 2)] 0 1 answered.1 answered.2 answered.1) as H. apply H; clear H.
  - eapply rtc_r; [apply (worker_steps (fresh_daemon 7) before_clear); repeat constructor|].
    eapply (Service_step _ _ _ _ _ _ []).
    exact (step_authenticated refuse reject (with_store (fresh_daemon 7) ready) (Emulation 3) (str "lap")).
  - vm_compute. reflexivity.
  - vm_compute. reflexivity.
  - vm_compute. by left.
  - done.
Defined.
