(* ===== verification/PackageDigest.v ===== *)
(** * Plugins: the digest of a package

    [crates/syntra-plugin-api/src/package.rs]: which files belong to a package,
    how each is read, and the bytes the digest is of.  Other processes may change
    the files while they are read: every call of the file system ([PackageFs])
    has a state of its own.  A hasher is the bytes it absorbed; the buffer of a
    file is absorbed as a whole. *)

From stdpp Require Import sorting.
From S2P Require Import Prelude Wire ProtoValid UnixPath FileOs FileTransfer PluginApi Manifest.

Definition MAX_FILE_BYTES : Z := 512 * 1024 * 1024.
Definition MAX_FILES : Z := 4096.
Definition MAX_DEPTH : nat := 16.
Definition BUFFER : Z := 64 * 1024.

Inductive PackageError :=
| PackageIo (path : rstring) (source : IoError)
| Escapes (path : rstring)
| TooLarge (what : rstring)
| NotRegular (path : rstring)
| Unstable (path : rstring).

(** Calls of [std::fs] while the files may change; [display] and
    [to_string_lossy] of a path. *)
Class PackageFs := {
  Fs : Type;
  Handle : Type;
  lossy : rstring -> rstring;
  symlink_metadata : Fs -> rstring -> Fs * result IoError Metadata;
  metadata : Fs -> rstring -> Fs * result IoError Metadata;
  canonicalize : Fs -> rstring -> Fs * result IoError rstring;
  read_dir : Fs -> rstring -> Fs * result IoError (list (result IoError rstring));
  open : Fs -> rstring -> Fs * result IoError Handle;
  handle_metadata : Fs -> Handle -> Fs * result IoError Metadata;
  (** at most that many bytes *)
  read : Fs -> Handle -> Z -> Fs * Handle * result IoError bytes;
}.

(** A file that went into the digest *)
Record FileInput := {
  input_kind : rstring;
  input_path : rstring;
  input_label : rstring;
  input_length : Z;
  input_content : bytes;
}.
Record PackageDigestOf := { digest : rstring; files : list rstring; labels : list rstring }.

(** ** The bytes of the digest *)

Definition to_le_bytes (n : nat) (v : Z) : bytes := rev (to_be_bytes n v).
Definition section (tag : rstring) (data : bytes) : bytes :=
  to_le_bytes 8 (len tag) ++ tag ++ to_le_bytes 8 (len data) ++ data.
Definition file_bytes (f : FileInput) : bytes :=
  section (input_kind f) (input_label f) ++ to_le_bytes 8 (input_length f) ++ input_content f.
Definition capability_bytes (c : Capabilities) : bytes :=
  Z.b2z <$> [clipboard_read c; paste c; can_cancel c; requires_live_mount c; pointer_events c].
Definition hex (data : bytes) : rstring :=
  flat_map (fun byte => let digit n := if n <? 10 then 48 + n else 87 + n in
                        [digit (Z.shiftr byte 4); digit (Z.land byte 15)]) data.

Section package.
Context {json : ManifestJson} {fs : PackageFs} {sha : Sha256}.

Definition manifest_bytes (m : PluginManifest) : bytes :=
  section (str "identity") (mf_id m)
  ++ section (str "version") (mf_version m)
  ++ section (str "protocol") (to_le_bytes 4 (mf_protocol_version m))
  ++ section (str "flags") [Z.b2z (mf_on_demand m); Z.b2z (mf_owns_settings m)]
  ++ flat_map (section (str "arg")) (argv m)
  ++ section (str "capabilities") (capability_bytes (mf_capabilities m))
  ++ flat_map (section (str "mime")) (merge_sort name_le (mime_types (mf_capabilities m)))
  ++ flat_map (fun setting => section (str "setting") (setting_to_json setting)) (mf_settings m)
  ++ flat_map (section (str "handshake_id")) (mf_handshake_ids m).

(** ** Reading *)

(** The calls in order, until one fails *)
Definition call (A : Type) : Type := Fs -> Fs * result PackageError A.
Definition ret {A} (a : A) : call A := fun s => (s, Ok a).
Definition refuse {A} (e : PackageError) : call A := fun s => (s, Err e).
Definition bind {A B} (m : call A) (k : A -> call B) : call B :=
  fun s => let (s, r) := m s in match r with Ok a => k a s | Err e => (s, Err e) end.
#[local] Notation "'do' x '<-' m ';' k" := (bind m (fun x => k)) (at level 10, x binder, m at level 200, k at level 200).
Definition io_call {A} (path : rstring) (m : Fs -> Fs * result IoError A) : call A :=
  fun s => let (s, r) := m s in (s, match r with Ok a => Ok a | Err e => Err (PackageIo path e) end).

Definition identity (m : Metadata) : Z * Z := (md_dev m, md_ino m).

(** The loop over the buffer: exactly [remaining] bytes, a round reads one at least *)
Fixpoint read_exactly (rounds : nat) (label : rstring) (h : Handle) (remaining : Z) : call (Handle * bytes) :=
  if remaining <=? 0 then ret (h, [])
  else
    match rounds with
    | O => ret (h, [])
    | S rounds => fun s =>
        let '(s, h, r) := read s h (Z.min BUFFER remaining) in
        match r with
        | Err e => (s, Err (PackageIo label e))
        | Ok [] => (s, Err (Unstable label))
        | Ok data =>
            (do rest <- read_exactly rounds label h (remaining - len data);
             ret (rest.1, data ++ rest.2)) s
        end
    end.
Definition read_one_more (label : rstring) (h : Handle) : call bytes :=
  fun s => let '(s, _, r) := read s h 1 in
           (s, match r with Ok data => Ok data | Err e => Err (PackageIo label e) end).
(** [count]: the files hashed so far *)
Definition hash_file (count : Z) (kind path label : rstring) : call FileInput :=
  if MAX_FILES <=? count then refuse (TooLarge (str "more than 4096 files"))
  else
    do before <- io_call label (fun s => symlink_metadata s path);
    if negb (is_file before) then refuse (NotRegular label) else
    do h <- io_call label (fun s => open s path);
    do opened <- io_call label (fun s => handle_metadata s h);
    if negb (is_file opened) then refuse (NotRegular label) else
    if negb (bool_decide (identity before = identity opened)) then refuse (Unstable label) else
    let length := md_len opened in
    if MAX_FILE_BYTES <? length then refuse (TooLarge label) else
    do content <- read_exactly (Z.to_nat length) label h length;
    do extra <- read_one_more label content.1;
    if negb (bool_decide (extra = [])) then refuse (Unstable label) else
    do after <- io_call label (fun s => handle_metadata s content.1);
    if negb (md_len after =? length) || negb (bool_decide (md_modified after = md_modified opened))
    then refuse (Unstable label)
    else ret {| input_kind := kind; input_path := path; input_label := label; input_length := length;
               input_content := content.2 |}.

(** [levels]: how deep directories may still be nested; the files so far *)
Fixpoint walk (levels : nat) (root label path : rstring) (inputs : list FileInput) : call (list FileInput) :=
  match levels with
  | O => refuse (TooLarge label)
  | S levels =>
      do md <- io_call label (fun s => metadata s path);
      if is_dir md then
        do entries <- io_call label (fun s => read_dir s path);
        match collect_results entries with
        | Err e => refuse (PackageIo label e)
        | Ok names =>
            (fix children (names : list rstring) (inputs : list FileInput) : call (list FileInput) :=
               match names with
               | [] => ret inputs
               | name :: names =>
                   let child_label := label ++ SLASH :: lossy name in
                   do child <- io_call child_label (fun s => canonicalize s (push path name));
                   if negb (path_starts_with child root) then refuse (Escapes child_label) else
                   do inputs <- walk levels root child_label child inputs;
                   children names inputs
               end) (merge_sort name_le names) inputs
        end
      else
        do input <- hash_file (len inputs) (str "resource") path label;
        ret (inputs ++ [input])
  end.
Fixpoint walk_resources (root root_real : rstring) (resources : list rstring) (inputs : list FileInput)
    : call (list FileInput) :=
  match resources with
  | [] => ret inputs
  | resource :: resources =>
      do real <- io_call resource (fun s => canonicalize s (push root resource));
      if negb (path_starts_with real root_real) then refuse (Escapes resource) else
      do inputs <- walk (S MAX_DEPTH) root_real resource real inputs;
      walk_resources root root_real resources inputs
  end.
Definition package_inputs (m : PluginManifest) (manifest_path executable : rstring) : call (list FileInput) :=
  let root := default (str ".") (parent_path manifest_path) in
  do program <- hash_file 0 (str "executable") executable (lossy executable);
  do root_real <- io_call (lossy root) (fun s => canonicalize s root);
  walk_resources root root_real (mf_resources m) [program].
Definition digest_package (m : PluginManifest) (manifest_path executable : rstring) : call PackageDigestOf :=
  do inputs <- package_inputs m manifest_path executable;
  ret {| digest := hex (sha256_of (manifest_bytes m ++ flat_map file_bytes inputs));
         files := input_path <$> inputs; labels := input_label <$> inputs |}.
End package.
