(* ===== verification/PackageDigestTheorems.v ===== *)
(** * Plugins: what a digest stands for

    The bytes of a digest can be read back in one way only: a package with the
    same digest has the same identity, arguments, capabilities, settings and
    files, unless SHA-256 collides on the two. *)

From stdpp Require Import sorting.
From S2P Require Import Prelude Wire ProtoValid UnixPath FileOs FileTransfer PluginApi Manifest PackageDigest.

(** ** Sections are read back in one way *)

Definition word_len {A} (l : list A) : Prop := len l < 2 ^ 64.

Lemma to_le_bytes_inj n v w :
  0 <= v < 256 ^ Z.of_nat n -> 0 <= w < 256 ^ Z.of_nat n -> to_le_bytes n v = to_le_bytes n w -> v = w.
Proof.
  intros Hv Hw E. apply (f_equal (fun l => from_be_bytes (rev l))) in E. unfold to_le_bytes in E.
  rewrite !rev_involutive, !from_to_be_bytes in E. rewrite !Z.mod_small in E by lia. done.
Qed.
Lemma le_prefix_inj v w (r r' : bytes) :
  0 <= v < 2 ^ 64 -> 0 <= w < 2 ^ 64 -> to_le_bytes 8 v ++ r = to_le_bytes 8 w ++ r' -> v = w /\ r = r'.
Proof.
  intros Hv Hw E. apply app_inj_1 in E as [E ->]; [split; [|done]; by eapply (to_le_bytes_inj 8)|].
  unfold to_le_bytes. by rewrite !length_rev, !length_to_be_bytes.
Qed.
(** A length and that many bytes *)
Lemma counted_inj (a b r r' : bytes) :
  word_len a -> word_len b -> to_le_bytes 8 (len a) ++ a ++ r = to_le_bytes 8 (len b) ++ b ++ r' -> a = b /\ r = r'.
Proof.
  unfold word_len. intros Ha Hb E. pose proof (len_nonneg a). pose proof (len_nonneg b).
  apply le_prefix_inj in E as [El E]; [|lia..]. apply app_inj_1 in E; [done|]. unfold len in El. lia.
Qed.

(** A section, and the content after it if it is one of a file *)
Record item := { item_tag : rstring; item_data : bytes; item_content : option bytes }.
Definition item_bytes (i : item) : bytes :=
  section (item_tag i) (item_data i)
  ++ match item_content i with Some content => to_le_bytes 8 (len content) ++ content | None => [] end.
Definition is_file_tag (tag : rstring) : bool :=
  bool_decide (tag = str "executable") || bool_decide (tag = str "resource").
Record wf_item (i : item) : Prop := {
  wi_tag : word_len (item_tag i);
  wi_data : word_len (item_data i);
  wi_content content : item_content i = Some content -> word_len content;
  wi_kind : bool_decide (is_Some (item_content i)) = is_file_tag (item_tag i);
}.
Lemma item_inj i j r r' : wf_item i -> wf_item j -> item_bytes i ++ r = item_bytes j ++ r' -> i = j /\ r = r'.
Proof.
  intros Wi Wj. unfold item_bytes, section. rewrite <- !(assoc_L (++)). intros E.
  apply counted_inj in E as [Et E]; [|apply Wi|apply Wj]. apply counted_inj in E as [Ed E]; [|apply Wi|apply Wj].
  pose proof (wi_kind _ Wi) as Ki. pose proof (wi_kind _ Wj) as Kj. rewrite Et, <- Kj in Ki.
  destruct i as [ti di [ci|]], j as [tj dj [cj|]]; cbn in *; try done; [|by subst].
  rewrite <- !(assoc_L (++)) in E. apply counted_inj in E as [Ec E]; [by subst|by apply Wi|by apply Wj].
Qed.
Lemma item_bytes_cons i : exists b bs, item_bytes i = b :: bs.
Proof.
  unfold item_bytes, section. destruct (to_le_bytes 8 (len (item_tag i))) as [|b bs] eqn:E; [|by eexists _, _].
  apply (f_equal length) in E. unfold to_le_bytes in E. by rewrite length_rev, length_to_be_bytes in E.
Qed.
Lemma items_inj xs ys : Forall wf_item xs -> Forall wf_item ys -> flat_map item_bytes xs = flat_map item_bytes ys -> xs = ys.
Proof.
  intros Wi. revert ys. induction Wi as [|i xs Wi _ IH]; intros ys Wj E.
  - destruct ys as [|j ys]; [done|]. cbn in E. destruct (item_bytes_cons j) as (b & bs & Ej). by rewrite Ej in E.
  - destruct Wj as [|j ys Wj Wys]; cbn in E.
    + destruct (item_bytes_cons i) as (b & bs & Ei). by rewrite Ei in E.
    + apply item_inj in E as [-> E]; [|done..]. f_equal. by apply IH.
Qed.

(** ** The items of a package *)

Section digest.
Context {json : ManifestJson} {fs : PackageFs} {sha : Sha256}.

Definition text_item (tag : string) (data : bytes) : item := {| item_tag := str tag; item_data := data; item_content := None |}.
Definition file_item (f : FileInput) : item :=
  {| item_tag := input_kind f; item_data := input_label f; item_content := Some (input_content f) |}.
Definition manifest_items (m : PluginManifest) : list item :=
  [text_item "identity" (mf_id m); text_item "version" (mf_version m);
   text_item "protocol" (to_le_bytes 4 (mf_protocol_version m));
   text_item "flags" [Z.b2z (mf_on_demand m); Z.b2z (mf_owns_settings m)]]
  ++ (text_item "arg" <$> argv m)
  ++ [text_item "capabilities" (capability_bytes (mf_capabilities m))]
  ++ (text_item "mime" <$> merge_sort name_le (mime_types (mf_capabilities m)))
  ++ ((fun d => text_item "setting" (setting_to_json d)) <$> mf_settings m)
  ++ (text_item "handshake_id" <$> mf_handshake_ids m).
Definition package_items (m : PluginManifest) (inputs : list FileInput) : list item :=
  manifest_items m ++ (file_item <$> inputs).

(** The stated length of every file is that of what was read. *)
Definition lengths_stated (inputs : list FileInput) : Prop :=
  Forall (fun f => input_length f = len (input_content f)) inputs.

Lemma text_item_bytes tag data : item_bytes (text_item tag data) = section (str tag) data.
Proof. apply app_nil_r. Qed.
Lemma flat_map_items {A} (f : A -> item) (l : list A) : flat_map item_bytes (f <$> l) = flat_map (fun a => item_bytes (f a)) l.
Proof. induction l as [|a l IH]; cbn; [done|]. by rewrite IH. Qed.
Lemma flat_map_eq {A B} (f g : A -> list B) l : (forall a, f a = g a) -> flat_map f l = flat_map g l.
Proof. intros H. induction l as [|a l IH]; cbn; [done|]. by rewrite H, IH. Qed.
Lemma package_bytes m inputs :
  lengths_stated inputs ->
  manifest_bytes m ++ flat_map file_bytes inputs = flat_map item_bytes (package_items m inputs).
Proof.
  intros Hl. unfold package_items, manifest_items, manifest_bytes. rewrite !flat_map_app, !flat_map_items.
  cbn [flat_map]. rewrite !text_item_bytes, !app_nil_r, <- !(assoc_L (++)).
  do 4 f_equal. f_equal; [apply flat_map_eq; intros; by rewrite text_item_bytes|]. f_equal.
  f_equal; [apply flat_map_eq; intros; by rewrite text_item_bytes|].
  f_equal; [apply flat_map_eq; intros; by rewrite text_item_bytes|].
  f_equal; [apply flat_map_eq; intros; by rewrite text_item_bytes|].
  induction Hl as [|f inputs Hf _ IH]; [done|]. cbn [flat_map]. rewrite IH. f_equal. unfold file_bytes, item_bytes. cbn.
  by rewrite Hf.
Qed.

(** The data of the items with a tag *)
Definition tagged (tag : string) (items : list item) : list bytes :=
  omap (fun i => if bool_decide (item_tag i = str tag) then Some (item_data i) else None) items.
Lemma tagged_app tag xs ys : tagged tag (xs ++ ys) = tagged tag xs ++ tagged tag ys.
Proof. apply omap_app. Qed.
Lemma tagged_same {A} tag (f : A -> bytes) l : tagged tag ((fun a => text_item tag (f a)) <$> l) = f <$> l.
Proof. induction l as [|a l IH]; [done|]. cbn. rewrite bool_decide_eq_true_2 by done. by f_equal. Qed.
Lemma tagged_other {A} tag (f : A -> item) l : (forall a, item_tag (f a) <> str tag) -> tagged tag (f <$> l) = [].
Proof. intros H. induction l as [|a l IH]; [done|]. cbn. by rewrite bool_decide_eq_false_2 by done. Qed.

(** ** The files of a package *)

(** A read returns no more than was asked for; a length is unsigned. *)
Context (read_bounded : forall s h n s' h' data, read s h n = (s', h', Ok data) -> 0 <= n -> len data <= n).
Context (length_unsigned : forall s h s' md, handle_metadata s h = (s', Ok md) -> 0 <= md_len md).

Lemma bind_ok {A B} (m : call A) (k : A -> call B) s s' b :
  bind m k s = (s', Ok b) -> exists s1 a, m s = (s1, Ok a) /\ k a s1 = (s', Ok b).
Proof. unfold bind. destruct (m s) as [s1 [a|e]]; [|done]. intros H. by exists s1, a. Qed.
Lemma io_call_ok {A} path (m : Fs -> Fs * result IoError A) s s' a : io_call path m s = (s', Ok a) -> m s = (s', Ok a).
Proof. unfold io_call. destruct (m s) as [s1 [x|]]; [|done]. by intros [= <- <-]. Qed.

Lemma read_exactly_len rounds label h remaining s s' h' content :
  read_exactly rounds label h remaining s = (s', Ok (h', content)) -> 0 <= remaining <= Z.of_nat rounds -> len content = remaining.
Proof using read_bounded.
  revert h remaining s s' h' content. induction rounds as [|rounds IH]; intros h remaining s s' h' content; cbn [read_exactly].
  - destruct (Z.leb_spec remaining 0); intros [= _ _ <-] Hr; rewrite ?len_nil; lia.
  - destruct (Z.leb_spec remaining 0); [intros [= _ _ <-] ?; rewrite ?len_nil; lia|].
    destruct (read s h (Z.min BUFFER remaining)) as [[s1 h1] [data|e]] eqn:Er; [|done].
    destruct data as [|b data]; [done|]. intros (s2 & [h2 rest] & H1 & H2)%bind_ok Hrem.
    apply IH in H1; pose proof (read_bounded _ _ _ _ _ _ Er ltac:(unfold BUFFER; lia)); rewrite len_cons in *;
      pose proof (len_nonneg data); [|lia]. injection H2 as _ _ <-. cbn [snd] in *. rewrite app_comm_cons, len_app, len_cons. lia.
Qed.
Definition good_input (kind : rstring) (f : FileInput) : Prop :=
  input_kind f = kind /\ input_length f = len (input_content f).
Lemma hash_file_good count kind path label s s' f :
  hash_file count kind path label s = (s', Ok f) -> good_input kind f /\ input_label f = label /\ input_path f = path.
Proof using read_bounded length_unsigned.
  unfold hash_file. destruct (MAX_FILES <=? count); [done|].
  intros (s1 & before & _ & H)%bind_ok. destruct (negb (is_file before)); [done|].
  apply bind_ok in H as (s2 & h & _ & H). apply bind_ok in H as (s3 & opened & Ho%io_call_ok & H).
  destruct (negb (is_file opened)); [done|]. destruct (negb (bool_decide _)); [done|]. cbv zeta in H.
  destruct (MAX_FILE_BYTES <? md_len opened); [done|]. apply bind_ok in H as (s4 & [h' content] & Hc & H).
  apply bind_ok in H as (s5 & extra & _ & H). destruct (negb (bool_decide (extra = []))); [done|].
  apply bind_ok in H as (s6 & after & _ & H). destruct (_ || _); [done|]. injection H as _ <-. cbn.
  repeat split; try done. cbn. apply length_unsigned in Ho. apply read_exactly_len in Hc; [done|lia].
Qed.
(** What [walk] adds are files of the kind of a resource. *)
Definition extends (inputs out : list FileInput) : Prop :=
  exists added, out = inputs ++ added /\ Forall (good_input (str "resource")) added.
Lemma extends_refl inputs : extends inputs inputs.
Proof. exists []. by rewrite app_nil_r. Qed.
Lemma extends_trans a b c : extends a b -> extends b c -> extends a c.
Proof.
  intros (x & -> & Hx) (y & -> & Hy). exists (x ++ y). split; [by rewrite (assoc_L (++))|by apply Forall_app].
Qed.
Lemma walk_extends levels : forall root label path inputs s s' out,
  walk levels root label path inputs s = (s', Ok out) -> extends inputs out.
Proof using read_bounded length_unsigned.
  induction levels as [|levels IH]; intros root label path inputs s s' out; [done|]. cbn [walk].
  intros (s1 & md & _ & H)%bind_ok. destruct (is_dir md).
  - apply bind_ok in H as (s2 & entries & _ & H). destruct (collect_results entries) as [names|]; [|done].
    revert inputs s2 H. induction (merge_sort name_le names) as [|name l IHl]; intros inputs s2 H.
    + injection H as _ <-. apply extends_refl.
    + apply bind_ok in H as (s3 & child & _ & H). destruct (negb (path_starts_with child root)); [done|].
      apply bind_ok in H as (s4 & inputs' & Hw%IH & H). eapply extends_trans; [exact Hw|by eapply IHl].
  - apply bind_ok in H as (s2 & f & [Hf _]%hash_file_good & H). injection H as _ <-. exists [f]. split; [done|]. by apply Forall_singleton.
Qed.
Lemma resources_extend root root_real resources : forall inputs s s' out,
  walk_resources root root_real resources inputs s = (s', Ok out) -> extends inputs out.
Proof using read_bounded length_unsigned.
  induction resources as [|resource resources IH]; intros inputs s s' out; cbn [walk_resources].
  - intros [= _ <-]. apply extends_refl.
  - intros (s1 & real & _ & H)%bind_ok. destruct (negb _); [done|].
    apply bind_ok in H as (s2 & inputs' & Hw%walk_extends & H). eapply extends_trans; [exact Hw|by eapply IH].
Qed.
Lemma package_inputs_shape m manifest_path executable s s' inputs :
  package_inputs m manifest_path executable s = (s', Ok inputs) ->
  exists program resources, inputs = program :: resources
    /\ good_input (str "executable") program /\ input_label program = lossy executable /\ input_path program = executable
    /\ Forall (good_input (str "resource")) resources.
Proof using read_bounded length_unsigned.
  unfold package_inputs. intros (s1 & program & (Hp & Hl & Hx)%hash_file_good & H)%bind_ok.
  apply bind_ok in H as (s2 & real & _ & (added & -> & Ha)%resources_extend). by exists program, added.
Qed.

(** ** What a digest stands for *)

(** Lengths of everything hashed fit a machine word. *)
Definition word_lengths (m : PluginManifest) (inputs : list FileInput) : Prop :=
  Forall (fun i => word_len (item_data i) /\ forall content, item_content i = Some content -> word_len content)
    (package_items m inputs).

Definition kinds_ok (inputs : list FileInput) : Prop :=
  Forall (fun f => is_file_tag (input_kind f) = true /\ word_len (input_kind f)) inputs.
Lemma package_items_wf m inputs : word_lengths m inputs -> kinds_ok inputs -> Forall wf_item (package_items m inputs).
Proof.
  intros Hw Hk. apply Forall_forall. intros i Hi. unfold word_lengths in Hw. rewrite Forall_forall in Hw.
  destruct (Hw i Hi) as [Hd Hc]. apply elem_of_app in Hi as [Hi|(f & -> & Hf)%list_elem_of_fmap].
  - assert (H : exists tag data, i = text_item tag data /\ is_file_tag (str tag) = false /\ word_len (str tag)).
    { unfold manifest_items in Hi. repeat setoid_rewrite elem_of_app in Hi. repeat setoid_rewrite list_elem_of_fmap in Hi.
      set_unfold. naive_solver. }
    destruct H as (tag & data & -> & Ht & Hl). by split.
  - unfold kinds_ok in Hk. rewrite Forall_forall in Hk. destruct (Hk f Hf) as [H1 H2]. by split.
Qed.

Lemma filter_all {A} (p : A -> bool) l : Forall (fun a => p a = true) l -> List.filter p l = l.
Proof. induction 1 as [|a l Ha _ IH]; [done|]. cbn. by rewrite Ha, IH. Qed.
Lemma filter_none {A} (p : A -> bool) l : Forall (fun a => p a = false) l -> List.filter p l = [].
Proof. induction 1 as [|a l Ha _ IH]; [done|]. cbn. by rewrite Ha, IH. Qed.
Definition has_content (i : item) : bool := bool_decide (is_Some (item_content i)).
Lemma manifest_items_text m : Forall (fun i => has_content i = false) (manifest_items m).
Proof.
  unfold manifest_items. repeat (apply Forall_app; split); repeat constructor; apply Forall_fmap, Forall_true; done.
Qed.
Lemma file_items_content inputs : Forall (fun i => has_content i = true) (file_item <$> inputs).
Proof. apply Forall_fmap, Forall_true. done. Qed.
Lemma package_items_split m inputs m' inputs' :
  package_items m inputs = package_items m' inputs' ->
  manifest_items m = manifest_items m' /\ file_item <$> inputs = file_item <$> inputs'.
Proof.
  intros E. split.
  - apply (f_equal (List.filter (fun i => negb (has_content i)))) in E. unfold package_items in E. rewrite !List.filter_app in E.
    rewrite !(filter_all _ (manifest_items _)), !(filter_none _ (file_item <$> _)), !app_nil_r in E; [done|..];
      (eapply Forall_impl; [apply manifest_items_text || apply file_items_content|]); by intros ? ->.
  - apply (f_equal (List.filter has_content)) in E. unfold package_items in E. rewrite !List.filter_app in E.
    by rewrite !(filter_none _ (manifest_items _)), !(filter_all _ (file_item <$> _)) in E
      by (apply manifest_items_text || apply file_items_content).
Qed.
Lemma tagged_texts tag l : tagged tag (text_item tag <$> l) = l.
Proof. rewrite <- (list_fmap_id l) at 2. apply (tagged_same tag id). Qed.
Lemma tagged_cons_same tag data l : tagged tag (text_item tag data :: l) = data :: tagged tag l.
Proof. cbn. by rewrite bool_decide_eq_true_2. Qed.
Lemma tagged_cons_other tag tag' data l : str tag' <> str tag -> tagged tag (text_item tag' data :: l) = tagged tag l.
Proof. intros H. cbn. by rewrite bool_decide_eq_false_2. Qed.
(** The data of a tag, on both sides of an equation of items *)
Ltac by_tag E tag :=
  let H := fresh "T" in
  pose proof (f_equal (tagged tag) E) as H; unfold manifest_items in H; rewrite !tagged_app in H;
  rewrite ?tagged_cons_same in H; rewrite ?(tagged_cons_other tag) in H by done;
  rewrite ?tagged_texts, ?(tagged_same "setting" setting_to_json) in H; rewrite ?(tagged_other tag) in H by done;
  change (tagged tag []) with (@nil bytes) in H; rewrite ?app_nil_r in H; cbn [app] in H; revert H.

(** What a digest covers of a manifest *)
Record covered (m m' : PluginManifest) : Prop := {
  cv_id : mf_id m = mf_id m';
  cv_version : mf_version m = mf_version m';
  cv_protocol : to_le_bytes 4 (mf_protocol_version m) = to_le_bytes 4 (mf_protocol_version m');
  cv_on_demand : mf_on_demand m = mf_on_demand m';
  cv_owns_settings : mf_owns_settings m = mf_owns_settings m';
  cv_args : argv m = argv m';
  cv_capabilities : capability_bytes (mf_capabilities m) = capability_bytes (mf_capabilities m');
  cv_mimes : mime_types (mf_capabilities m) ≡ₚ mime_types (mf_capabilities m');
  cv_settings : setting_to_json <$> mf_settings m = setting_to_json <$> mf_settings m';
  cv_handshake_ids : mf_handshake_ids m = mf_handshake_ids m';
}.
Lemma b2z_inj b b' : Z.b2z b = Z.b2z b' -> b = b'.
Proof. by destruct b, b'. Qed.
Lemma covered_items m m' : manifest_items m = manifest_items m' -> covered m m'.
Proof.
  intros E. by_tag E "identity"%string. intros [= E1]. by_tag E "version"%string. intros [= E2].
  by_tag E "protocol"%string. intros E3. apply (f_equal (hd [])) in E3. cbn [hd] in E3.
  by_tag E "flags"%string. intros [= E4%b2z_inj E5%b2z_inj]. by_tag E "arg"%string. intros E6.
  by_tag E "capabilities"%string. intros E7. apply (f_equal (hd [])) in E7. cbn [hd] in E7.
  by_tag E "mime"%string. intros E8. by_tag E "setting"%string. intros E9. by_tag E "handshake_id"%string. intros E10.
  split; try done. rewrite <- (merge_sort_Permutation name_le (mime_types (mf_capabilities m))), E8.
  apply merge_sort_Permutation.
Qed.

Definition hex_pair (byte : Z) : rstring :=
  let digit n := if n <? 10 then 48 + n else 87 + n in [digit (Z.shiftr byte 4); digit (Z.land byte 15)].
Lemma hex_pair_inj b b' : is_u8 b = true -> is_u8 b' = true -> hex_pair b = hex_pair b' -> b = b'.
Proof.
  unfold is_uint. intros H H' [= E1 E2]. boolsplit.
  rewrite !Z.shiftr_div_pow2 in E1 by lia. change 15 with (Z.ones 4) in E2. rewrite !Z.land_ones in E2 by lia.
  pose proof (Z.div_mod b (2 ^ 4)). pose proof (Z.div_mod b' (2 ^ 4)). pose proof (Z.mod_pos_bound b (2 ^ 4)).
  pose proof (Z.mod_pos_bound b' (2 ^ 4)).
  destruct (Z.ltb_spec (b / 2 ^ 4) 10), (Z.ltb_spec (b' / 2 ^ 4) 10), (Z.ltb_spec (b mod 2 ^ 4) 10), (Z.ltb_spec (b' mod 2 ^ 4) 10); lia.
Qed.
Lemma hex_inj a b : all_u8 a = true -> all_u8 b = true -> hex a = hex b -> a = b.
Proof.
  change hex with (flat_map hex_pair). revert b. induction a as [|x a IH]; intros [|y b]; try done.
  rewrite !all_u8_cons. intros [Hx Ha]%andb_prop [Hy Hb]%andb_prop E. cbn [flat_map] in E.
  apply app_inj_1 in E as [Ex E]; [|done]. f_equal; [by apply hex_pair_inj|by apply IH].
Qed.
Lemma good_inputs program resources :
  good_input (str "executable") program -> Forall (good_input (str "resource")) resources ->
  lengths_stated (program :: resources) /\ kinds_ok (program :: resources).
Proof.
  intros [Hk Hl] Hr. split; constructor; try done; try (eapply Forall_impl; [exact Hr|]; by intros f []).
  - by rewrite Hk.
  - eapply Forall_impl; [exact Hr|]. intros f [-> _]. done.
Qed.

(** C16: a digest stands for the whole package.  Two packages with the same digest,
    computed at any two times while anybody changes files, have the same id,
    version, arguments, capabilities, settings and handshake ids, the executable
    of the same name, and files with the same names and the same content, byte
    for byte as they were read: unless SHA-256 gives the same hash for the two. *)
Theorem digest_determines_package m path x s s1 d inputs m' path' x' s' s1' d' inputs' :
  (forall data, all_u8 (sha256_of data) = true) ->
  digest_package m path x s = (s1, Ok d) -> digest_package m' path' x' s' = (s1', Ok d') ->
  (package_inputs m path x s).2 = Ok inputs -> (package_inputs m' path' x' s').2 = Ok inputs' ->
  word_lengths m inputs -> word_lengths m' inputs' ->
  (let a := manifest_bytes m ++ flat_map file_bytes inputs in
   let b := manifest_bytes m' ++ flat_map file_bytes inputs' in sha256_of a = sha256_of b -> a = b) ->
  digest d = digest d' ->
  covered m m' /\ lossy x = lossy x' /\ labels d = labels d'
  /\ input_content <$> inputs = input_content <$> inputs'.
Proof using read_bounded length_unsigned.
  intros Hsha Hd Hd' Hi Hi' Hw Hw' Hcol E. apply bind_ok in Hd as (s2 & ins & Hp & Hd), Hd' as (s2' & ins' & Hp' & Hd').
  rewrite Hp in Hi. rewrite Hp' in Hi'. cbn in Hi, Hi'. injection Hi as ->. injection Hi' as ->.
  injection Hd as _ <-. injection Hd' as _ <-. cbn [digest labels] in *. apply hex_inj, Hcol in E; [|apply Hsha..].
  apply package_inputs_shape in Hp as (f & fs1 & -> & Hf & Lf & _ & Hfs), Hp' as (f' & fs1' & -> & Hf' & Lf' & _ & Hfs').
  destruct (good_inputs f fs1 Hf Hfs) as [L K]. destruct (good_inputs f' fs1' Hf' Hfs') as [L' K'].
  rewrite !package_bytes in E by done. apply items_inj in E; [|by apply package_items_wf..].
  apply package_items_split in E as [Em Ef]. split; [by apply covered_items|].
  assert (Elab : input_label <$> f :: fs1 = input_label <$> f' :: fs1').
  { apply (f_equal (fmap item_data)) in Ef. by rewrite <- !list_fmap_compose in Ef. }
  split; [|split; [done|]].
  - rewrite <- Lf, <- Lf'. by injection Elab.
  - apply (f_equal (fmap (fun i => default [] (item_content i)))) in Ef. by rewrite <- !list_fmap_compose in Ef.
Qed.
End digest.

(** ** An example

    A file system in memory, and a package of an executable and a directory with a
    resource, read twice: before and after a file beside the package changed. *)

Module MemoryFs.
Definition Tree : Type := list (rstring * (bytes + list rstring)).
Definition refused (reason : string) : IoError := {| io_kind := IoKind.Other; io_message := str reason |}.
Definition find_node (t : Tree) (path : rstring) : option (bytes + list rstring) :=
  snd <$> List.find (fun node => bool_decide (node.1 = path)) t.
Definition node_metadata (node : bytes + list rstring) : Metadata :=
  match node with
  | inl content => {| md_kind := FileKind.Regular; md_len := len content; md_modified := Some 7; md_dev := 1; md_ino := len content |}
  | inr names => {| md_kind := FileKind.Directory; md_len := 0; md_modified := Some 7; md_dev := 1; md_ino := 0 |}
  end.
Definition stat_node (t : Tree) (path : rstring) : Tree * result IoError Metadata :=
  (t, match find_node t path with Some node => Ok (node_metadata node) | None => Err (refused "not found") end).
#[export] Instance memory_fs : PackageFs := {
  Fs := Tree;
  (** the content and what is still to read *)
  Handle := bytes * bytes;
  lossy path := path;
  symlink_metadata := stat_node;
  metadata := stat_node;
  canonicalize t path := (t, match find_node t path with Some _ => Ok path | None => Err (refused "not found") end);
  read_dir t path := (t, match find_node t path with Some (inr names) => Ok (Ok <$> names) | _ => Err (refused "not a directory") end);
  open t path := (t, match find_node t path with Some (inl content) => Ok (content, content) | _ => Err (refused "not a file") end);
  handle_metadata t h := (t, Ok (node_metadata (inl h.1)));
  read t h n := (t, (h.1, drop (Z.to_nat n) h.2), Ok (take (Z.to_nat n) h.2));
}.
#[export] Instance plain_json : ManifestJson := {
  JsonValue := unit;
  json_from_str _ := Ok tt;
  get_u64 _ _ := None;
  get_str _ _ := None;
  manifest_from_value _ := Err [];
  setting_to_json setting := decl_key setting;
}.
#[export] Instance low_bytes : Sha256 := fun data => (fun b => b mod 256) <$> data.

Definition clip : PluginManifest := {|
  mf_manifest_version := 1; mf_protocol_version := 1; mf_id := str "clip"; mf_name := str "Clipboard"; mf_executable := str "clip";
  mf_args := [str "--daemon"]; mf_description := []; mf_version := str "1.0"; mf_author := []; mf_homepage := None;
  mf_source := None; mf_update_url := None; mf_license := None; mf_bundled := false; mf_on_demand := false;
  mf_owns_settings := false;
  mf_capabilities := {| clipboard_read := true; paste := false; can_cancel := false; requires_live_mount := false;
                        pointer_events := false; mime_types := [str "text/plain"] |};
  mf_settings := []; mf_handshake_ids := [str "clip-2"]; mf_resources := [str "theme"] |}.
Definition package : Tree := [
  (str "/p", inr [str "clip"; str "theme"]); (str "/p/clip", inl [127; 69; 76; 70]);
  (str "/p/theme", inr [str "dark"]); (str "/p/theme/dark", inl (str "#000000"))].
Definition other_file : Tree := (str "/p/notes", inl (str "todo")) :: package.
Definition read_package (t : Tree) : Tree * result PackageError PackageDigestOf :=
  digest_package clip (str "/p/syntra-plugin.json") (str "/p/clip") t.
Definition found (t : Tree) : PackageDigestOf :=
  match (read_package t).2 with Ok d => d | Err _ => {| digest := []; files := []; labels := [] |} end.
Definition inputs (t : Tree) : list FileInput :=
  match (package_inputs clip (str "/p/syntra-plugin.json") (str "/p/clip") t).2 with Ok l => l | Err _ => [] end.

Lemma low_bytes_u8 data : all_u8 (sha256_of data) = true.
Proof.
  unfold all_u8. apply forallb_forall. intros b Hb%list_elem_of_In. apply list_elem_of_fmap in Hb as (x & -> & _).
  pose proof (Z.mod_pos_bound x 256). unfold is_u8. lia.
Qed.
Example package_read : labels (found package) = [str "/p/clip"; str "theme/dark"] /\ len (digest (found package)) = 646.
Proof. by vm_compute. Qed.
Lemma short_words m l : forallb (fun i => (len (item_data i) <? 2 ^ 64) && match item_content i with Some content => len content <? 2 ^ 64 | None => true end)
    (package_items m l) = true -> word_lengths m l.
Proof.
  rewrite forallb_forall. intros H. apply Forall_forall. intros i Hi%list_elem_of_In. apply H in Hi. unfold word_len.
  apply andb_prop in Hi as [H1 H2]. split; [lia|]. intros content E. rewrite E in H2. lia.
Qed.
Lemma digest_determines_package_witness :
  covered clip clip /\ lossy (str "/p/clip") = lossy (str "/p/clip") /\ labels (found package) = labels (found other_file)
  /\ input_content <$> inputs package = input_content <$> inputs other_file.
Proof.
  apply (digest_determines_package (fs := memory_fs) (sha := low_bytes)) with
    (path := str "/p/syntra-plugin.json") (s := package) (s1 := package) (path' := str "/p/syntra-plugin.json")
    (s' := other_file) (s1' := other_file).
  - intros s h n s' h' data [= _ _ <-] Hn. unfold len. rewrite length_take. lia.
  - intros s h s' md [= _ <-]. apply len_nonneg.
  - exact low_bytes_u8.
  - vm_compute. reflexivity.
  - vm_compute. reflexivity.
  - vm_compute. reflexivity.
  - vm_compute. reflexivity.
  - apply short_words. vm_compute. reflexivity.
  - apply short_words. vm_compute. reflexivity.
  - intros a b _. vm_compute. reflexivity.
  - vm_compute. reflexivity.
Defined.
End MemoryFs.
