(* ===== verification/PluginTrust.v ===== *)
(** * Plugins: what the user has approved

    [crates/syntra-core/src/plugins/trust.rs]: approvals bound to the digest of a
    package, and the providers the user prefers, kept in a file.  The daemon's own
    files are a map from paths to texts; a write replaces a file as a whole or
    fails with a reason. *)

From S2P Require Import Prelude Wire PluginRouting.

Definition Files : Type := gmap rstring rstring.
(** Why a write to a path fails now, if it does *)
Definition write_file (fails : rstring -> option rstring) (files : Files) (path text : rstring) : result rstring Files :=
  match fails path with Some reason => Err reason | None => Ok (<[path := text]> files) end.

Module Trust.
Inductive t := Bundled | Unapproved | Approved | ChangedSinceApproval.
#[global] Instance t_eq_dec : EqDecision t.
Proof. solve_decision. Defined.
End Trust.

Inductive TrustError := Stale | NothingApproved | SaveFailed (kind : rstring).
(** The [Display] of the error *)
Definition trust_error_text (e : TrustError) : rstring :=
  match e with
  | Stale => str "the plugin changed since it was reviewed; review it again"
  | NothingApproved => str "the plugin has no approval to withdraw"
  | SaveFailed kind => str "approvals could not be saved (" ++ kind ++ str ")"
  end.

Record TrustRecord := {
  approved_digests : gmap rstring rstring;
  preferred_ids : gmap rstring rstring;
}.
Definition empty_record : TrustRecord := {| approved_digests := ∅; preferred_ids := ∅ |}.
(** serde's JSON of the record *)
Class TrustJson := {
  record_to_json : TrustRecord -> rstring;
  record_from_json : rstring -> option TrustRecord;
}.

Record TrustStore := { trust_path : option rstring; trust_record : TrustRecord }.
Definition in_memory : TrustStore := {| trust_path := None; trust_record := empty_record |}.

Section trust.
Context {json : TrustJson}.

Definition load (files : Files) (path : rstring) : TrustStore := {|
  trust_path := Some path;
  trust_record := default empty_record (files !! path ≫= record_from_json) |}.

Definition commit (fails : rstring -> option rstring) (files : Files) (t : TrustStore) (change : TrustRecord -> TrustRecord)
    : Files * TrustStore * result TrustError unit :=
  let after := change (trust_record t) in
  let changed := {| trust_path := trust_path t; trust_record := after |} in
  match trust_path t with
  | None => (files, changed, Ok tt)
  | Some path =>
      match write_file fails files path (record_to_json after) with
      | Ok files => (files, changed, Ok tt)
      | Err kind => (files, t, Err (SaveFailed kind))
      end
  end.

Definition on_approved f (r : TrustRecord) : TrustRecord :=
  {| approved_digests := f (approved_digests r); preferred_ids := preferred_ids r |}.
Definition on_preferred f (r : TrustRecord) : TrustRecord :=
  {| approved_digests := approved_digests r; preferred_ids := f (preferred_ids r) |}.

Definition trust_of (t : TrustStore) (id digest : rstring) (bundled : bool) : Trust.t :=
  if bundled then Trust.Bundled
  else
    match approved_digests (trust_record t) !! id with
    | None => Trust.Unapproved
    | Some approved =>
        if negb (bool_decide (digest = [])) && bool_decide (approved = digest) then Trust.Approved
        else Trust.ChangedSinceApproval
    end.
Definition approved_digest (t : TrustStore) (id : rstring) : option rstring := approved_digests (trust_record t) !! id.

Definition approve_digest fails files (t : TrustStore) (id shown current : rstring)
    : Files * TrustStore * result TrustError unit :=
  if bool_decide (shown = []) || negb (bool_decide (shown = current)) then (files, t, Err Stale)
  else commit fails files t (on_approved (insert id shown)).
Definition revoke_digest fails files (t : TrustStore) (id : rstring) : Files * TrustStore * result TrustError unit :=
  if negb (bool_decide (is_Some (approved_digests (trust_record t) !! id))) then (files, t, Err NothingApproved)
  else commit fails files t (on_approved (delete id)).
Definition forget_plugin fails files (t : TrustStore) (id : rstring) : Files * TrustStore * result TrustError unit :=
  let has_approval := bool_decide (is_Some (approved_digests (trust_record t) !! id)) in
  let has_preference := existsb (fun '(_, preferred) => bool_decide (preferred = id)) (map_to_list (preferred_ids (trust_record t))) in
  if negb has_approval && negb has_preference then (files, t, Ok tt)
  else commit fails files t
         (fun r => on_preferred (filter (fun p => p.2 <> id)) (on_approved (delete id) r)).

(** [role_key] is the text form of the role. *)
Definition role_key (role : PluginRole.t) : rstring := PluginRole.as_str role.
Definition preferred (t : TrustStore) (role : PluginRole.t) : option rstring := preferred_ids (trust_record t) !! role_key role.
Definition set_preferred fails files (t : TrustStore) (role : PluginRole.t) (id : option rstring)
    : Files * TrustStore * result TrustError unit :=
  commit fails files t (on_preferred (match id with Some id => insert (role_key role) id | None => delete (role_key role) end)).
End trust.
