(* ===== verification/PluginDiscovery.v ===== *)
(** * Plugins: finding them

    [crates/syntra-core/src/plugins/discovery.rs]: the plugins of the distribution,
    whose descriptors are compiled in, and the manifests in the user's directory
    and in the store of installed packages.  What is on disk is the [Disk] of the
    moment. *)

From stdpp Require Import sorting.
From S2P Require Import Prelude Wire ProtoValid UnixPath FileOs FileTransfer PluginApi Manifest.

Definition CLIPBOARD_PLUGIN_ID : rstring := str "clipboard".
Definition FUSE_PLUGIN_ID : rstring := str "fuse".
Definition EDGE_GLOW_PLUGIN_ID : rstring := str "edge-glow".

Module Origin.
Inductive t := Bundled | DropIn | Installed.
#[global] Instance t_eq_dec : EqDecision t.
Proof. solve_decision. Defined.
End Origin.

Record Discovered := {
  found_manifest : PluginManifest;
  origin : Origin.t;
  found_path : rstring;
  found_executable : rstring;
}.
Record Unsupported := {
  un_id : option rstring;
  un_name : option rstring;
  un_origin : Origin.t;
  un_path : rstring;
  un_versions : Z * Z;
}.
Record Found := { found_plugins : list Discovered; found_unsupported : list Unsupported }.

(** The directories and files of plugins: the entries of a directory with their
    kind (links are not followed), whether a path is a file, its kind and size
    (following links), its text. *)
Record Disk := {
  dir_entries : rstring -> option (list (rstring * option FileKind.t));
  path_is_file : rstring -> bool;
  file_info : rstring -> result rstring (bool * Z);
  file_text : rstring -> result rstring rstring;
}.
(** [include_str!] of the packaged descriptors, by id *)
Class Descriptors := descriptor : rstring -> rstring.

Section discovery.
Context {json : ManifestJson} {descriptors : Descriptors}.

Definition BUNDLED : list (rstring * rstring * rstring) := [
  (CLIPBOARD_PLUGIN_ID, descriptor CLIPBOARD_PLUGIN_ID, str "syntra-plugin-clipboard");
  (FUSE_PLUGIN_ID, descriptor FUSE_PLUGIN_ID, str "syntra-plugin-fuse");
  (EDGE_GLOW_PLUGIN_ID, descriptor EDGE_GLOW_PLUGIN_ID, str "syntra-plugin-edge-glow")].
Definition bundled (daemon_directory : rstring) : list Discovered :=
  omap (fun '(id, descriptor, executable) =>
    match parse descriptor with
    | Ok (Valid manifest) =>
        if bool_decide (mf_id manifest = id) then
          Some {| found_manifest := manifest; origin := Origin.Bundled; found_path := [];
                  found_executable := push daemon_directory executable |}
        else None
    | _ => None
    end) BUNDLED.

(** [read_manifest]: a plugin or an unsupported manifest *)
Definition read_manifest (d : Disk) (path : rstring) (from : Origin.t) : result rstring (Discovered + Unsupported) :=
  let* (is_file, length) := file_info d path in
  fail_if negb is_file || (MAX_MANIFEST_BYTES <? length) with str "not a regular file, or larger than a manifest may be" in
  let* text := file_text d path in
  match parse text with
  | Err _ => Err (str "invalid manifest")
  | Ok (Valid manifest) =>
      Ok (inl {| found_manifest := manifest; origin := from; found_path := path;
                 found_executable := executable_path manifest path |})
  | Ok (UnsupportedManifest id name manifest_version protocol_version) =>
      Ok (inr {| un_id := id; un_name := name; un_origin := from; un_path := path;
                 un_versions := (manifest_version, protocol_version) |})
  end.

(** [extension] is [json]: the name ends so and is more than that *)
Definition has_json_extension (name : rstring) : bool :=
  bool_decide (str ".json" = drop (length name - 5) name) && (5 <? len name).
(** The order of paths is that of their components. *)
Fixpoint names_le (a b : list rstring) : bool :=
  match a, b with
  | [], _ => true
  | _ :: _, [] => false
  | x :: a, y :: b => if bool_decide (x = y) then names_le a b else bytes_le x y
  end.
Definition path_le (a b : rstring) : Prop := names_le (as_os_str <$> components a) (as_os_str <$> components b) = true.
#[global] Instance path_le_dec : RelDecision path_le.
Proof. intros a b. unfold path_le. apply _. Defined.
Definition id_le (a b : Discovered) : Prop := bytes_le (mf_id (found_manifest a)) (mf_id (found_manifest b)) = true.
#[global] Instance id_le_dec : RelDecision id_le.
Proof. intros a b. unfold id_le. apply _. Defined.

Definition manifest_candidate (d : Disk) (directory : rstring) (entry : rstring * option FileKind.t) : option rstring :=
  let '(name, kind) := entry in
  match kind with
  | Some FileKind.Directory =>
      if starts_with 46 name then None
      else
        let inside := push (push directory name) (str "syntra-plugin.json") in
        if path_is_file d inside then Some inside else None
  | Some FileKind.Regular => if has_json_extension name then Some (push directory name) else None
  | _ => None
  end.
Definition read_directory (d : Disk) (directory : rstring) (from : Origin.t) : list Discovered * list Unsupported :=
  match dir_entries d directory with
  | None => ([], [])
  | Some entries =>
      let paths := merge_sort path_le (omap (manifest_candidate d directory) entries) in
      let reads := omap (fun path => match read_manifest d path from with Ok read => Some read | Err _ => None end) paths in
      (merge_sort id_le (omap (fun read => match read with inl plugin => Some plugin | inr _ => None end) reads),
       omap (fun read => match read with inl _ => None | inr entry => Some entry end) reads)
  end.

(** A later plugin of the same id takes the place of the earlier one. *)
Fixpoint place (plugin : Discovered) (plugins : list Discovered) : list Discovered :=
  match plugins with
  | [] => [plugin]
  | existing :: plugins =>
      if bool_decide (mf_id (found_manifest existing) = mf_id (found_manifest plugin)) then plugin :: plugins
      else existing :: place plugin plugins
  end.
Definition add_directory (d : Disk) (found : Found) (directory : option rstring) (from : Origin.t) : Found :=
  match directory with
  | None => found
  | Some directory =>
      let (plugins, unsupported) := read_directory d directory from in
      {| found_plugins := foldl (fun l plugin => place plugin l) (found_plugins found) plugins;
         found_unsupported := found_unsupported found ++ unsupported |}
  end.
Definition discover (d : Disk) (daemon_directory : rstring) (drop_in store : option rstring) : Found :=
  let found := {| found_plugins := bundled daemon_directory; found_unsupported := [] |} in
  let found := add_directory d found drop_in Origin.DropIn in
  add_directory d found store Origin.Installed.
End discovery.
