(* ===== verification/PackageStore.v ===== *)
(** * Plugins: the store of installed packages

    [crates/syntra-core/src/plugins/package_store.rs]: copying a package beside its
    place, putting it in place of an earlier one, removing one.  The store is what
    lies directly in its directory, by name; the package that is copied is read by
    calls whose answers may change from one to the next ([SourceFs]).  Any call
    that writes may fail, and every state of the store on the way is kept, so that
    the theorems speak of a daemon that dies at any moment. *)

From stdpp Require Import sorting.
From S2P Require Import Prelude Wire ProtoValid UnixPath FileOs FileTransfer PluginApi PluginRouting Manifest PluginDiscovery.

Definition MARKER : rstring := str ".syntra-installed".
Definition STAGING : rstring := str ".staging-".
Definition BACKUP : rstring := str ".backup-".

Inductive StoreError :=
| NoStore
| InvalidPackage (why : rstring)
| NotRegularFile
| StoreIo (what : rstring)
| NotOwned.
(** The [Display] of the error *)
Definition store_error_text (e : StoreError) : rstring :=
  match e with
  | NoStore => str "there is no place to install plugins on this system"
  | InvalidPackage why => str "the package is not valid: " ++ why
  | NotRegularFile => str "the package contains a file that is not a regular file"
  | StoreIo what => str "the package could not be installed (" ++ what ++ str ")"
  | NotOwned => str "only a plugin installed by Syntra can be uninstalled"
  end.

(** ** The store *)

(** A link leads somewhere or not. *)
Inductive Node := RegularFile (content : bytes) (mode : Z) | Folder | Link (leads : bool) | Device.
#[global] Instance node_eq_dec : EqDecision Node.
Proof. solve_decision. Defined.
(** What lies at a name of the store, with everything below it by the names that
    lead there *)
Abbreviation Entry := (gmap (list rstring) Node).
Abbreviation Store := (gmap rstring Entry).
Definition root_of (e : Entry) : option Node := e !! [].
Definition empty_folder : Entry := {[ [] := Folder ]}.

Class SourceFs := {
  Src : Type;
  Opened : Type;
  (** [symlink_metadata]: kind and permissions; [metadata]: a regular file, its size *)
  src_kind : Src -> rstring -> Src * option (FileKind.t * Z);
  src_info : Src -> rstring -> Src * option (bool * Z);
  src_is_dir : Src -> rstring -> Src * bool;
  src_text : Src -> rstring -> Src * option rstring;
  src_canonicalize : Src -> rstring -> Src * option rstring;
  (** [read_dir] without the entries that could not be read *)
  src_names : Src -> rstring -> Src * option (list rstring);
  src_open : Src -> rstring -> Src * option Opened;
  (** [io::copy]: what was copied, and whether that was all *)
  src_copy : Src -> Opened -> Src * (bytes * bool);
}.

Section store.
Context {json : ManifestJson} {sources : SourceFs}.
(** Which calls that write fail, the names a temporary directory tries, the mode of
    a new file, what is left of a tree while it is removed: by the number of calls
    before *)
Record Writes := {
  fails : nat -> bool;
  draws : nat -> list rstring;
  new_mode : Z;
  left_of : nat -> Entry -> Entry;
}.
Context (writes : Writes).

Record Disk := {
  source : Src;
  store : Store;
  calls : nat;
  (** the states of the store before *)
  past : list Store;
}.
Definition call (A : Type) : Type := Disk -> Disk * result StoreError A.
Definition ret {A} (a : A) : call A := fun d => (d, Ok a).
Definition refuse {A} (e : StoreError) : call A := fun d => (d, Err e).
Definition bind {A B} (m : call A) (k : A -> call B) : call B :=
  fun d => let (d, r) := m d in match r with Ok a => k a d | Err e => (d, Err e) end.
#[local] Notation "'do' x '<-' m ';' k" := (bind m (fun x => k)) (at level 10, x binder, m at level 200, k at level 200).
Definition ignore {A} (m : call A) : call unit := fun d => ((m d).1, Ok tt).
(** [map_err] of a reading call *)
Definition reading {A} (f : Src -> Src * option A) (e : StoreError) : call A := fun d =>
  let (s, a) := f (source d) in
  ({| source := s; store := store d; calls := calls d; past := past d |}, match a with Some a => Ok a | None => Err e end).
Definition looking {A} (f : Src -> Src * A) : call A := fun d =>
  let (s, a) := f (source d) in ({| source := s; store := store d; calls := calls d; past := past d |}, Ok a).
Definition now_stored (f : Store -> Store) (d : Disk) : Disk :=
  {| source := source d; store := f (store d); calls := S (calls d); past := past d ++ [store d] |}.
(** A call that writes: it fails, or changes the store and perhaps fails then *)
Definition writing (f : Store -> Store * bool) (what : rstring) : call unit := fun d =>
  if fails writes (calls d) then (now_stored (fun s => s) d, Err (StoreIo what))
  else (now_stored (fun s => (f s).1) d, if (f (store d)).2 then Ok tt else Err (StoreIo what)).

(** [tempdir_in]: the first name that is free *)
Definition tempdir (prefix what : rstring) : call rstring := fun d =>
  match (if fails writes (calls d) then None
         else List.find (fun name => negb (bool_decide (is_Some (store d !! name)))) (app prefix <$> draws writes (calls d))) with
  | Some name => (now_stored (insert name empty_folder) d, Ok name)
  | None => (now_stored (fun s => s) d, Err (StoreIo what))
  end.
(** [remove_dir_all]: a moment on the way shows a part of it, and so does a failure *)
Definition remove_dir_all (name what : rstring) : call unit := fun d =>
  match store d !! name with
  | None => (now_stored (fun s => s) d, Err (StoreIo what))
  | Some e =>
      let partly := now_stored (insert name (left_of writes (calls d) e)) d in
      if fails writes (calls d) then (partly, Err (StoreIo what)) else (now_stored (delete name) partly, Ok tt)
  end.
(** [remove_dir]: an empty directory *)
Definition remove_dir (name what : rstring) : call unit :=
  writing (fun s => if bool_decide (s !! name = Some empty_folder) then (delete name s, true) else (s, false)) what.
(** [rename] within the store: onto a free name, or a directory onto an empty one *)
Definition may_rename (s : Store) (from to : rstring) : bool :=
  match s !! from, s !! to with
  | None, _ => false
  | Some _, None => true
  | Some e, Some t => bool_decide (root_of e = Some Folder) && bool_decide (t = empty_folder)
  end.
Definition renamed (s : Store) (from to : rstring) : Store :=
  match s !! from with Some e => <[to := e]> (delete from s) | None => s end.
Definition rename (from to what : rstring) : call unit :=
  writing (fun s => if may_rename s from to then (renamed s from to, true) else (s, false)) what.

(** ** Writing into the staged copy *)

Definition in_entry (name : rstring) (f : Entry -> Entry * bool) (what : rstring) : call unit :=
  writing (fun s => match s !! name with Some e => (<[name := (f e).1]> s, (f e).2) | None => (s, false) end) what.
(** [create_dir_all] of a path below a directory that is there *)
Fixpoint make_dirs (above below : list rstring) (e : Entry) : Entry * bool :=
  match e !! above with
  | Some Folder | None =>
      let e := <[above := Folder]> e in
      match below with [] => (e, true) | name :: below => make_dirs (above ++ [name]) below e end
  | Some _ => (e, false)
  end.
(** [File::create] *)
Definition create_file (path : list rstring) (e : Entry) : Entry * bool :=
  match e !! path with
  | Some (RegularFile _ mode) => (<[path := RegularFile [] mode]> e, true)
  | None => (<[path := RegularFile [] (new_mode writes)]> e, true)
  | Some _ => (e, false)
  end.
Definition put_content (path : list rstring) (content : bytes) (e : Entry) : Entry * bool :=
  match e !! path with Some (RegularFile _ mode) => (<[path := RegularFile content mode]> e, true) | _ => (e, false) end.
Definition put_mode (path : list rstring) (mode : Z) (e : Entry) : Entry * bool :=
  match e !! path with Some (RegularFile content _) => (<[path := RegularFile content mode]> e, true) | _ => (e, false) end.

(** The names of a relative path, as the operating system goes along them; there
    is no [..] in the paths that are copied to *)
Definition names_of (path : list Component) : list rstring :=
  omap (fun c => match c with Component.Normal name => Some name | _ => None end) path.

Definition copy_regular (from : rstring) (staging : rstring) (to : list rstring) : call unit :=
  do kind <- reading (fun s => src_kind s from) (StoreIo (str "cannot read a file"));
  if negb (bool_decide (kind.1 = FileKind.Regular)) then refuse NotRegularFile else
  do _ <- in_entry staging (make_dirs [] (removelast to)) (str "cannot create a directory");
  do opened <- reading (fun s => src_open s from) (StoreIo (str "cannot read a file"));
  do _ <- in_entry staging (create_file to) (str "cannot write a file");
  do copied <- looking (fun s => src_copy s opened);
  do _ <- in_entry staging (fun e => let (e, done) := put_content to copied.1 e in (e, done && copied.2)) (str "cannot copy a file");
  do _ <- writing (fun s => (s, true)) (str "cannot write a file");
  in_entry staging (put_mode to kind.2) (str "cannot set permissions").

(** A path of the system has at most 4096 bytes: deeper trees cannot be read. *)
Definition PATH_LEVELS : nat := 2048.
Fixpoint copy_tree (levels : nat) (from : rstring) (staging : rstring) (to : list rstring) (root : rstring) : call unit :=
  match levels with
  | O => refuse (StoreIo (str "cannot read a file"))
  | S levels =>
      do kind <- reading (fun s => src_kind s from) (StoreIo (str "cannot read a file"));
      if bool_decide (kind.1 = FileKind.Symlink) then refuse NotRegularFile else
      do real <- reading (fun s => src_canonicalize s from) (StoreIo (str "cannot read a file"));
      do real_root <- reading (fun s => src_canonicalize s root) (StoreIo (str "cannot read a file"));
      if negb (path_starts_with real real_root) then refuse (InvalidPackage (str "a resource is outside the package")) else
      if bool_decide (kind.1 = FileKind.Directory) then
        do _ <- in_entry staging (make_dirs [] to) (str "cannot create a directory");
        do names <- reading (fun s => src_names s from) (StoreIo (str "cannot read a directory"));
        (fix children (names : list rstring) : call unit :=
           match names with
           | [] => ret tt
           | name :: names =>
               do _ <- copy_tree levels (push from name) staging (to ++ [name]) root;
               children names
           end) (merge_sort name_le names)
      else copy_regular from staging to
  end.
Fixpoint copy_resources (root : rstring) (resources : list rstring) (staging : rstring) : call unit :=
  match resources with
  | [] => ret tt
  | resource :: resources =>
      do _ <- copy_tree PATH_LEVELS (push root resource) staging (names_of (components resource)) root;
      copy_resources root resources staging
  end.

(** ** Operations *)

Definition package_manifest_path (path : rstring) : call rstring :=
  do directory <- looking (fun s => src_is_dir s path);
  ret (if directory then push path (str "syntra-plugin.json") else path).
Definition read_package (manifest_path : rstring) : call (PluginManifest * rstring) :=
  do info <- reading (fun s => src_info s manifest_path) (InvalidPackage (str "the manifest cannot be read"));
  if negb info.1 || (MAX_MANIFEST_BYTES <? info.2)
  then refuse (InvalidPackage (str "the manifest is not a regular file of a sensible size")) else
  do text <- reading (fun s => src_text s manifest_path) (InvalidPackage (str "the manifest cannot be read"));
  match parse text with
  | Ok (Valid manifest) => ret (manifest, default [] (parent_path manifest_path))
  | Ok (UnsupportedManifest _ _ _ _) => refuse (InvalidPackage (str "needs a newer version"))
  | Err _ => refuse (InvalidPackage (str "invalid manifest"))
  end.
Definition relative_inside (path root : rstring) : result StoreError (list rstring) :=
  match strip_components (components root) (components path) with
  | None => Err (InvalidPackage (str "the executable is outside the package"))
  | Some relative =>
      if existsb (fun c => negb (is_normal c)) relative
      then Err (InvalidPackage (str "the executable path is not contained in the package"))
      else Ok (names_of relative)
  end.
(** [target.parent() == Some(store)] of [store.join(id)] *)
Definition directly_inside (directory name : rstring) : bool :=
  match parent_path (push directory name) with Some above => path_eqb above directory | None => false end.
Definition is_owned (directory : rstring) (s : Store) (name : rstring) : bool :=
  directly_inside directory name
  && match s !! name with
     | Some e =>
         bool_decide (root_of e = Some Folder)
         && match e !! [MARKER] with Some (RegularFile _ _) => true | _ => false end
     | None => false
     end.
(** [exists] follows links. *)
Definition target_exists (s : Store) (name : rstring) : bool :=
  match s !! name with
  | None => false
  | Some e => match root_of e with Some (Link leads) => leads | _ => true end
  end.
Definition stored {A} (f : Store -> A) : call A := fun d => (d, Ok (f (store d))).
Definition KEPT : rstring := str "cannot move the package into place; the previous version is kept in the store".

(** From the moment the name of the backup is free *)
Definition exchange_packages (staged target backup : rstring) : call unit :=
  do _ <- rename target backup (str "cannot replace the old version");
  fun d =>
    let (d, moved) := rename staged target [] d in
    match moved with
    | Err _ =>
        let (d, back) := rename backup target [] d in
        (d, Err (StoreIo (match back with Ok _ => str "cannot move the package into place" | Err _ => KEPT end)))
    | Ok _ => ignore (remove_dir_all backup []) d
    end.
Definition swap_into_place (staged target : rstring) : call unit :=
  do there <- stored (fun s => target_exists s target);
  if negb there then rename staged target (str "cannot move the package into place") else
  do backup <- tempdir BACKUP (str "cannot keep the old version");
  do _ <- remove_dir backup (str "cannot keep the old version");
  exchange_packages staged target backup.
(** An error drops the [TempDir] and removes it, before [keep] as after it. *)
Definition or_remove {A} (name : rstring) (m : call A) : call A := fun d =>
  let (d, r) := m d in
  match r with Ok a => (d, Ok a) | Err e => ((remove_dir_all name [] d).1, Err e) end.
Definition find_package (path : rstring) : call (rstring * (PluginManifest * rstring)) :=
  do manifest_path <- package_manifest_path path;
  do package <- read_package manifest_path;
  ret (manifest_path, package).
Definition copy_package (manifest_path root : rstring) (manifest : PluginManifest) (staging : rstring) : call unit :=
  do _ <- copy_regular manifest_path staging [str "syntra-plugin.json"];
  let executable := executable_path manifest manifest_path in
  do relative <- (fun d => (d, relative_inside executable root));
  do _ <- copy_regular executable staging relative;
  copy_resources root (mf_resources manifest) staging.
Definition mark_package (id staging : rstring) : call unit :=
  in_entry staging (fun e => let (e, created) := create_file [MARKER] e in
                             if created then put_content [MARKER] id e else (e, false)) (str "cannot mark the package").
Definition replace_package (directory id staging : rstring) : call unit :=
  do taken <- stored (fun s => target_exists s id && negb (is_owned directory s id));
  if taken then refuse NotOwned else swap_into_place staging id.
Definition install (path directory : rstring) : call rstring :=
  do package <- find_package path;
  let '(manifest_path, (manifest, root)) := package in
  do _ <- writing (fun s => (s, true)) (str "cannot create the store");
  do staging <- tempdir STAGING (str "cannot stage the package");
  or_remove staging (
    do _ <- copy_package manifest_path root manifest staging;
    do _ <- mark_package (mf_id manifest) staging;
    do _ <- replace_package directory (mf_id manifest) staging;
    ret (mf_id manifest)).
Definition uninstall (id directory : rstring) : call unit :=
  if negb (is_safe_id id) then refuse NotOwned else
  do owned <- stored (fun s => is_owned directory s id);
  if negb owned then refuse NotOwned else remove_dir_all id (str "cannot remove the package").

(** ** While the copy is staged *)

Implicit Types (d : Disk) (s before : Store) (e : Entry).
Definition moments d : list Store := past d ++ [store d].
(** Only directories and regular files *)
Definition plain e : Prop :=
  root_of e = Some Folder /\ forall path node, e !! path = Some node -> node = Folder \/ exists content mode, node = RegularFile content mode.
Definition tame (f : Entry -> Entry * bool) : Prop := forall e, plain e -> plain (f e).1.

Lemma plain_file path content mode e :
  plain e -> path <> [] -> plain (<[path := RegularFile content mode]> e).
Proof.
  intros [Hr Hp] Hne. split; [unfold root_of; by rewrite lookup_insert_ne|]. intros path' node [[_ <-]|[_ H]]%lookup_insert_Some; eauto.
Qed.
Lemma plain_folder path e : plain e -> plain (<[path := Folder]> e).
Proof.
  intros [Hr Hp]. split.
  - unfold root_of. destruct (decide (path = [])) as [->|]; [by rewrite lookup_insert_eq|by rewrite lookup_insert_ne].
  - intros path' node [[_ <-]|[_ H]]%lookup_insert_Some; eauto.
Qed.
Lemma plain_no_file e content mode : plain e -> e !! [] <> Some (RegularFile content mode).
Proof. intros [Hr _]. unfold root_of in Hr. by rewrite Hr. Qed.
Lemma tame_make_dirs above below : tame (make_dirs above below).
Proof.
  revert above. induction below as [|name below IH]; intros above e Hp; cbn.
  - destruct (e !! above) as [[]|]; cbn; try done; by apply plain_folder.
  - destruct (e !! above) as [[]|]; cbn; try done; by apply IH, plain_folder.
Qed.
Lemma tame_create path : tame (create_file path).
Proof.
  intros e Hp. unfold create_file. destruct (e !! path) as [[content mode| | |]|] eqn:E; cbn; try done; apply plain_file; try done.
  - intros ->. by eapply plain_no_file.
  - intros ->. destruct Hp as [Hr _]. unfold root_of in Hr. by rewrite Hr in E.
Qed.
Lemma tame_content path content : tame (put_content path content).
Proof.
  intros e Hp. unfold put_content. destruct (e !! path) as [[old mode| | |]|] eqn:E; cbn; try done. apply plain_file; [done|].
  intros ->. by eapply plain_no_file.
Qed.
Lemma tame_mode path mode : tame (put_mode path mode).
Proof.
  intros e Hp. unfold put_mode. destruct (e !! path) as [[content old| | |]|] eqn:E; cbn; try done. apply plain_file; [done|].
  intros ->. by eapply plain_no_file.
Qed.

(** Only the staged copy has changed, and it is plain. *)
Definition staging_only (t : rstring) before d : Prop :=
  (forall s, s ∈ moments d -> forall name, name <> t -> s !! name = before !! name)
  /\ exists e, store d !! t = Some e /\ plain e.
Definition stages {A} (m : call A) (t : rstring) : Prop :=
  forall before d, staging_only t before d -> staging_only t before (m d).1.

Lemma stages_ret {A} (a : A) t : stages (ret a) t.
Proof. by intros before d. Qed.
Lemma stages_refuse {A} error t : stages (refuse error : call A) t.
Proof. by intros before d. Qed.
Lemma stages_bind {A B} (m : call A) (k : A -> call B) t : stages m t -> (forall a, stages (k a) t) -> stages (bind m k) t.
Proof.
  intros Hm Hk before d Hd. unfold bind. specialize (Hm before d Hd). destruct (m d) as [d1 [a|e]]; [|done]. by apply Hk.
Qed.
Lemma stages_reading {A} (f : Src -> Src * option A) error t : stages (reading f error) t.
Proof. intros before d Hd. unfold reading. by destruct (f (source d)). Qed.
Lemma stages_looking {A} (f : Src -> Src * A) t : stages (looking f) t.
Proof. intros before d Hd. unfold looking. by destruct (f (source d)). Qed.
Lemma moments_stored f d s : s ∈ moments (now_stored f d) <-> s ∈ moments d \/ s = f (store d).
Proof. unfold moments, now_stored. cbn. rewrite elem_of_app, list_elem_of_singleton. done. Qed.
Lemma stages_same d t before : staging_only t before d -> staging_only t before (now_stored (fun s => s) d).
Proof.
  intros [Hm He]. split; [|done]. intros s [H| ->]%moments_stored; [by apply Hm|]. apply Hm. unfold moments. apply elem_of_app.
  right. by apply list_elem_of_singleton.
Qed.
Lemma stages_in_entry f what t : tame f -> stages (in_entry t f what) t.
Proof.
  intros Hf before d [Hm (e & He & Hp)]. unfold in_entry, writing. destruct (fails writes (calls d)); [apply stages_same; split; eauto|].
  cbn [fst snd]. split.
  - intros s [H| ->]%moments_stored; [by apply Hm|]. rewrite He. intros name Hne. cbn. rewrite lookup_insert_ne by done. apply Hm; [|done].
    unfold moments. apply elem_of_app. right. by apply list_elem_of_singleton.
  - cbn. rewrite He. cbn. exists (f e).1. split; [apply lookup_insert_eq|]. by apply Hf.
Qed.
Lemma stages_flush what t : stages (writing (fun s => (s, true)) what) t.
Proof. intros before d Hd. unfold writing. destruct (fails writes (calls d)); by apply stages_same. Qed.
Lemma stages_copy_regular from t to : stages (copy_regular from t to) t.
Proof.
  apply stages_bind; [apply stages_reading|]. intros kind. destruct (negb _); [apply stages_refuse|].
  apply stages_bind; [apply stages_in_entry, tame_make_dirs|]. intros _. apply stages_bind; [apply stages_reading|]. intros opened.
  apply stages_bind; [apply stages_in_entry, tame_create|]. intros _. apply stages_bind; [apply stages_looking|]. intros copied.
  apply stages_bind; [|intros _; apply stages_bind; [apply stages_flush|intros _; apply stages_in_entry, tame_mode]].
  apply stages_in_entry. intros e Hp. pose proof (tame_content to copied.1 e Hp). by destruct (put_content to copied.1 e).
Qed.
Lemma stages_copy_tree levels from t to root : stages (copy_tree levels from t to root) t.
Proof.
  revert from to. induction levels as [|levels IH]; intros from to; [apply stages_refuse|]. cbn [copy_tree].
  apply stages_bind; [apply stages_reading|]. intros kind. destruct (bool_decide _); [apply stages_refuse|].
  apply stages_bind; [apply stages_reading|]. intros real. apply stages_bind; [apply stages_reading|]. intros real_root.
  destruct (negb _); [apply stages_refuse|]. destruct (bool_decide _); [|apply stages_copy_regular].
  apply stages_bind; [apply stages_in_entry, tame_make_dirs|]. intros _. apply stages_bind; [apply stages_reading|]. intros names.
  induction (merge_sort name_le names) as [|name l IHl]; [apply stages_ret|]. apply stages_bind; [apply IH|]. intros _. apply IHl.
Qed.
Lemma stages_copy_resources root resources t : stages (copy_resources root resources t) t.
Proof.
  induction resources as [|resource l IH]; [apply stages_ret|]. apply stages_bind; [apply stages_copy_tree|]. intros _. apply IH.
Qed.

(** ** What the copy holds

    A source that nobody changes while it is read answers every call the same. *)
Definition still (s : Src) : Prop :=
  (forall path, (src_kind s path).1 = s /\ (src_info s path).1 = s /\ (src_is_dir s path).1 = s
                /\ (src_text s path).1 = s /\ (src_canonicalize s path).1 = s
                /\ (src_names s path).1 = s /\ (src_open s path).1 = s)
  /\ forall opened, (src_copy s opened).1 = s.
(** A regular file of the source with its mode and all of its content *)
Definition file_of (s : Src) (from : rstring) (content : bytes) (mode : Z) : Prop :=
  (src_kind s from).2 = Some (FileKind.Regular, mode)
  /\ exists opened, (src_open s from).2 = Some opened /\ (src_copy s opened).2 = (content, true).
(** The regular files at or below a path of the source, each with its place in a
    copy of that path at [to] *)
Inductive below (s : Src) : rstring -> list rstring -> rstring -> list rstring -> Prop :=
| BelowFile from to mode :
    (src_kind s from).2 = Some (FileKind.Regular, mode) -> below s from to from to
| BelowFolder from to mode names name from' to' :
    (src_kind s from).2 = Some (FileKind.Directory, mode) -> (src_names s from).2 = Some names -> name ∈ names ->
    below s (push from name) (to ++ [name]) from' to' -> below s from to from' to'.
(** The files of a package, each with its place in the copy *)
Inductive package_file (s : Src) (manifest_path root : rstring) (manifest : PluginManifest) : rstring -> list rstring -> Prop :=
| ManifestFile : package_file s manifest_path root manifest manifest_path [str "syntra-plugin.json"]
| ExecutableFile relative :
    relative_inside (executable_path manifest manifest_path) root = Ok relative ->
    package_file s manifest_path root manifest (executable_path manifest manifest_path) relative
| ResourceFile resource from to :
    resource ∈ mf_resources manifest -> below s (push root resource) (names_of (components resource)) from to ->
    package_file s manifest_path root manifest from to.
(** Every regular file of the entry is the whole of one of [files], and every one
    of [files] has its file; [but] is left open. *)
Definition holds_but (s : Src) (but : option (list rstring)) (files : rstring -> list rstring -> Prop) e : Prop :=
  (forall path content mode, e !! path = Some (RegularFile content mode) -> Some path <> but ->
     exists from, files from path /\ file_of s from content mode)
  /\ (forall from path, files from path -> Some path <> but -> exists content mode, e !! path = Some (RegularFile content mode)).
Abbreviation holds s files := (holds_but s None files).

Section copies.
Context (s : Src) (t : rstring) (Hstill : still s).
Definition staged (I : Entry -> Prop) d : Prop := source d = s /\ exists e, store d !! t = Some e /\ I e.
(** What a call that succeeds makes of the staged copy *)
Definition makes {A} (m : call A) (I : Entry -> Prop) (J : A -> Entry -> Prop) : Prop :=
  forall d d' a, staged I d -> m d = (d', Ok a) -> staged (J a) d'.

Lemma makes_bind {A B} (m : call A) (k : A -> call B) (I : Entry -> Prop) (J : A -> Entry -> Prop) (K : B -> Entry -> Prop) :
  makes m I J -> (forall a, makes (k a) (J a) K) -> makes (bind m k) I K.
Proof.
  intros Hm Hk d d' b Hd. unfold bind. destruct (m d) as [d1 [a|e]] eqn:E; [|done]. apply Hk. by eapply Hm.
Qed.
Lemma makes_ret {A} (a : A) (I : Entry -> Prop) (J : A -> Entry -> Prop) : (forall e, I e -> J a e) -> makes (ret a) I J.
Proof. intros H d d' b (Hs & e & He & Hi) [= <- <-]. split; [done|]. eauto. Qed.
Lemma makes_refuse {A : Type} (error : StoreError) (I : Entry -> Prop) (J : A -> Entry -> Prop) : makes (refuse error) I J.
Proof. done. Qed.
Lemma makes_reading {A} (f : Src -> Src * option A) (error : StoreError) (I : Entry -> Prop) :
  (f s).1 = s -> makes (reading f error) I (fun a e => I e /\ (f s).2 = Some a).
Proof.
  intros Hf d d' a (Hs & e & He & Hi). unfold reading. rewrite Hs. destruct (f s) as [s' [b|]]; [|done]. cbn in *.
  intros [= <- <-]. split; [done|]. by exists e.
Qed.
Lemma makes_looking {A} (f : Src -> Src * A) (I : Entry -> Prop) : (f s).1 = s -> makes (looking f) I (fun a e => I e /\ (f s).2 = a).
Proof.
  intros Hf d d' a (Hs & e & He & Hi). unfold looking. rewrite Hs. destruct (f s) as [s' b]. cbn in *.
  intros [= <- <-]. split; [done|]. by exists e.
Qed.
Lemma makes_in_entry (f : Entry -> Entry * bool) (what : rstring) (I : Entry -> Prop) (J : unit -> Entry -> Prop) :
  (forall e, I e -> (f e).2 = true -> J tt (f e).1) -> makes (in_entry t f what) I J.
Proof.
  intros H d d' [] (Hs & e & He & Hi). unfold in_entry, writing. destruct (fails writes (calls d)); [done|].
  rewrite He. cbn. destruct (f e).2 eqn:E; intros [= <-]. split; [done|]. cbn. rewrite He. cbn.
  eexists. split; [apply lookup_insert_eq|]. by apply H.
Qed.
Lemma makes_flush (what : rstring) (I : Entry -> Prop) : makes (writing (fun s => (s, true)) what) I (fun _ => I).
Proof.
  intros d d' [] (Hs & e & He & Hi). unfold writing. destruct (fails writes (calls d)); [done|]. intros [= <-].
  split; [done|]. by exists e.
Qed.
Lemma makes_weaken {A} (m : call A) (I I' : Entry -> Prop) (J J' : A -> Entry -> Prop) :
  makes m I' J -> (forall e, I e -> I' e) -> (forall a e, J a e -> J' a e) -> makes m I J'.
Proof.
  intros Hm HI HJ d d' a (Hs & e & He & Hi) E. destruct (Hm d d' a) as (Hs' & e' & He' & Hj); [split; [done|]; eauto|done|].
  split; [done|]. eauto.
Qed.
(** A condition known from the call before *)
Lemma makes_pure {A} (m : call A) (P : Prop) (I : Entry -> Prop) (J : A -> Entry -> Prop) : (P -> makes m I J) -> makes m (fun e => I e /\ P) J.
Proof. intros H d d' a (Hs & e & He & Hi & Hp) E. eapply H; [done| |exact E]. split; [done|]. eauto. Qed.

Lemma make_dirs_files above below e path content mode :
  (make_dirs above below e).1 !! path = Some (RegularFile content mode) <-> e !! path = Some (RegularFile content mode).
Proof.
  revert above e. induction below as [|name below IH]; intros above e; cbn.
  all: destruct (e !! above) as [[]|] eqn:E; cbn; rewrite ?IH; try done.
  all: destruct (decide (path = above)) as [->|]; [rewrite lookup_insert_eq, E|by rewrite lookup_insert_ne]; done.
Qed.
Lemma holds_make_dirs but files above below e : holds_but s but files e -> holds_but s but files (make_dirs above below e).1.
Proof.
  intros [H1 H2]. split.
  - intros path content mode H%make_dirs_files. by apply H1.
  - intros from path Hf Hn. destruct (H2 from path Hf Hn) as (content & mode & H). exists content, mode. by apply make_dirs_files.
Qed.
Lemma makes_dirs files to what :
  makes (in_entry t (make_dirs [] to) what) (holds s files) (fun _ => holds s files).
Proof. apply makes_in_entry. intros e He _. by apply holds_make_dirs. Qed.
(** Writing one file leaves it open what that file holds. *)
Lemma holds_open files to content mode e :
  holds s files e -> holds_but s (Some to) files (<[to := RegularFile content mode]> e).
Proof.
  intros [H1 H2]. split.
  - intros path c m [[<- _]|[_ H]]%lookup_insert_Some Hn; [done|]. by apply H1.
  - intros from path Hf Hn. rewrite lookup_insert_ne by congruence. by apply (H2 from).
Qed.
Lemma holds_rewrite files to content mode e :
  holds_but s (Some to) files e -> holds_but s (Some to) files (<[to := RegularFile content mode]> e).
Proof.
  intros [H1 H2]. split.
  - intros path c m [[<- _]|[_ H]]%lookup_insert_Some Hn; [done|]. by apply H1.
  - intros from path Hf Hn. rewrite lookup_insert_ne by congruence. by apply (H2 from).
Qed.
Definition and_file (files : rstring -> list rstring -> Prop) (from : rstring) (to : list rstring) : rstring -> list rstring -> Prop :=
  fun from' to' => files from' to' \/ from' = from /\ to' = to.
Lemma holds_close files from to content mode e :
  holds_but s (Some to) files e -> e !! to = Some (RegularFile content mode) -> file_of s from content mode ->
  holds s (and_file files from to) e.
Proof.
  intros [H1 H2] He Hf. split.
  - intros path c m H _. destruct (decide (path = to)) as [->|Hne].
    + rewrite He in H. injection H as <- <-. exists from. split; [by right|done].
    + destruct (H1 path c m H) as (from' & ? & ?); [congruence|]. exists from'. split; [by left|done].
  - intros from' path [H|[-> ->]] _; [|eauto]. destruct (decide (path = to)) as [->|Hne]; [eauto|].
    apply (H2 from' path H). congruence.
Qed.
Lemma makes_copy_regular files from to :
  makes (copy_regular from t to) (holds s files) (fun _ => holds s (and_file files from to)).
Proof using Hstill.
  destruct Hstill as [Hp Hc]. destruct (Hp from) as (Hk & _ & _ & _ & _ & _ & Ho).
  eapply makes_bind; [apply (makes_reading (fun x => src_kind x from)), Hk|]. intros [kind mode]. cbn [fst snd].
  apply makes_pure. intros Ek. case_bool_decide as E; cbn [negb]; [subst kind|apply makes_refuse].
  eapply makes_bind; [apply makes_dirs|]. intros [].
  eapply makes_bind; [apply (makes_reading (fun x => src_open x from)), Ho|]. intros opened.
  apply makes_pure. intros Eo.
  apply (makes_bind _ _ _ (fun _ e => holds_but s (Some to) files e)).
  { apply makes_in_entry. intros e He. unfold create_file. destruct (e !! to) as [[]|]; try done; intros _; by apply holds_open. }
  intros []. eapply makes_bind; [apply (makes_looking (fun x => src_copy x opened)), Hc|]. intros [content whole].
  apply makes_pure. intros Ec. cbn [fst snd].
  apply (makes_bind _ _ _ (fun _ e => holds_but s (Some to) files e /\ (exists m, e !! to = Some (RegularFile content m)) /\ whole = true)).
  { apply makes_in_entry. intros e He. unfold put_content. destruct (e !! to) as [[]|]; try done. cbn. intros ->.
    split; [by apply holds_rewrite|]. split; [|done]. eexists. apply lookup_insert_eq. }
  intros []. eapply makes_bind; [apply makes_flush|]. intros []. apply makes_in_entry.
  intros e (He & (m & Em) & ->). unfold put_mode. rewrite Em. intros _. cbn.
  eapply holds_close; [by apply holds_rewrite|apply lookup_insert_eq|]. split; [done|]. by exists opened.
Qed.
(** The same files, named otherwise *)
Lemma holds_ext but files files' e :
  (forall from to, files from to <-> files' from to) -> holds_but s but files e -> holds_but s but files' e.
Proof.
  intros H [H1 H2]. split.
  - intros path content mode He Hn. destruct (H1 path content mode He Hn) as (from & Hf & ?). exists from. by rewrite <- H.
  - intros from path Hf. apply (H2 from path). by apply H.
Qed.
Definition and_files (files more : rstring -> list rstring -> Prop) : rstring -> list rstring -> Prop :=
  fun from to => files from to \/ more from to.
Lemma makes_copy_tree levels files from to root :
  makes (copy_tree levels from t to root) (holds s files) (fun _ => holds s (and_files files (below s from to))).
Proof using Hstill.
  revert files from to. induction levels as [|levels IH]; intros files from to; [apply makes_refuse|]. cbn [copy_tree].
  destruct Hstill as [Hp Hc]. destruct (Hp from) as (Hk & _ & _ & _ & Hcan & Hnames & _). destruct (Hp root) as (_ & _ & _ & _ & Hroot & _).
  eapply makes_bind; [apply (makes_reading (fun x => src_kind x from)), Hk|]. intros [kind mode]. cbn [fst snd].
  apply makes_pure. intros Ek. destruct (bool_decide (kind = FileKind.Symlink)); [apply makes_refuse|].
  eapply makes_bind; [apply (makes_reading (fun x => src_canonicalize x from)), Hcan|]. intros real. apply makes_pure. intros _.
  eapply makes_bind; [apply (makes_reading (fun x => src_canonicalize x root)), Hroot|]. intros real_root. apply makes_pure. intros _.
  destruct (negb _); [apply makes_refuse|]. case_bool_decide as Ed.
  - subst kind. eapply makes_bind; [apply makes_dirs|]. intros [].
    eapply makes_bind; [apply (makes_reading (fun x => src_names x from)), Hnames|]. intros names. apply makes_pure. intros En.
    set (seen := fun (done : list rstring) from' to' => exists name, name ∈ done /\ below s (push from name) (to ++ [name]) from' to').
    assert (Hall : forall l done, makes ((fix children (names : list rstring) : call unit :=
           match names with
           | [] => ret tt
           | name :: names => bind (copy_tree levels (push from name) t (to ++ [name]) root) (fun _ => children names)
           end) l) (holds s (and_files files (seen done))) (fun _ => holds s (and_files files (seen (done ++ l))))).
    { induction l as [|name l IHl]; intros don.
      - apply makes_ret. intros e. by rewrite app_nil_r.
      - eapply makes_bind; [apply IH|]. intros []. eapply makes_weaken; [apply (IHl (don ++ [name]))| |].
        + intros e. apply holds_ext. intros from' to'. unfold and_files, seen. setoid_rewrite elem_of_app.
          setoid_rewrite list_elem_of_singleton. naive_solver.
        + intros [] e. by rewrite <- app_assoc. }
    eapply makes_weaken; [apply (Hall _ [])| |].
    + intros e. apply holds_ext. intros from' to'. unfold and_files, seen. set_solver.
    + intros [] e. apply holds_ext. intros from' to'. unfold and_files, seen. cbn [app].
      setoid_rewrite (merge_sort_Permutation name_le names). split; (intros [?|H]; [by left|right]).
      * destruct H as (name & Hin & Hb). by eapply BelowFolder.
      * inversion H as [? ? mode' Ek'|? ? mode' names' name ? ? Ek' En' Hin Hb]; subst; rewrite Ek in Ek'; [done|].
        rewrite En in En'. injection En' as <-. by exists name.
  - destruct (decide (kind = FileKind.Regular)) as [->|Hreg].
    + eapply makes_weaken; [apply (makes_copy_regular files from to)|done|].
      intros [] e. apply holds_ext. intros from' to'. unfold and_file, and_files. split; (intros [?|H]; [by left|right]).
      * destruct H as [-> ->]. by eapply BelowFile.
      * inversion H as [|? ? mode' names' name ? ? Ek']; subst; [done|]. by rewrite Ek in Ek'.
    + eapply makes_bind; [apply (makes_reading (fun x => src_kind x from)), Hk|]. intros [kind' mode']. apply makes_pure.
      intros Ek'. rewrite Ek in Ek'. injection Ek' as <- <-. rewrite bool_decide_false by done. apply makes_refuse.
Qed.
Lemma makes_copy_resources files root resources :
  makes (copy_resources root resources t) (holds s files)
    (fun _ => holds s (and_files files (fun from to => exists resource, resource ∈ resources
                         /\ below s (push root resource) (names_of (components resource)) from to))).
Proof using Hstill.
  revert files. induction resources as [|resource l IH]; intros files; cbn [copy_resources].
  - apply makes_ret. intros e. apply holds_ext. intros from to. unfold and_files. set_solver.
  - eapply makes_bind; [apply makes_copy_tree|]. intros []. eapply makes_weaken; [apply IH|done|].
    intros [] e. apply holds_ext. intros from to. unfold and_files. setoid_rewrite elem_of_cons. naive_solver.
Qed.
Lemma makes_copy_package manifest_path root manifest :
  makes (copy_package manifest_path root manifest t) (holds s (fun _ _ => False))
    (fun _ => holds s (package_file s manifest_path root manifest)).
Proof using Hstill.
  eapply makes_bind; [apply makes_copy_regular|]. intros [].
  set (after := holds s _). apply (makes_bind _ _ _ (fun relative e => after e
    /\ relative_inside (executable_path manifest manifest_path) root = Ok relative)).
  { intros d d' relative (Hs & e & He & Hi) [= <- E]. split; [done|]. by exists e. }
  intros relative. apply makes_pure. intros E. subst after.
  eapply makes_bind; [apply makes_copy_regular|]. intros []. eapply makes_weaken; [apply makes_copy_resources|done|].
  intros [] e. apply holds_ext. intros from to. unfold and_files, and_file. split.
  - intros [[[[]|[-> ->]]|[-> ->]]|(resource & ? & ?)]; [apply ManifestFile|by apply ExecutableFile|by eapply ResourceFile].
  - intros [|relative' E'|resource from' to' ? ?]; [by left; left; right|left; right; split; congruence|right; by exists resource].
Qed.
(** The mark is written over whatever the package has at its place. *)
Lemma makes_mark id files :
  makes (mark_package id t) (holds s files) (fun _ => holds_but s (Some [MARKER]) files).
Proof.
  apply makes_in_entry. intros e He. unfold create_file. destruct (e !! [MARKER]) as [[]|]; try done;
    unfold put_content; rewrite lookup_insert_eq; intros _; cbn; by apply holds_rewrite, holds_open.
Qed.
End copies.

(** ** While it takes the place of the earlier package *)

Definition scratch (name : rstring) : Prop := exists tail, name = STAGING ++ tail \/ name = BACKUP ++ tail.
(** Besides [id] everything is as before, but for new scratch directories. *)
Definition others_kept before (id : rstring) s : Prop :=
  (forall name e, name <> id -> before !! name = Some e -> s !! name = Some e)
  /\ (forall name e, name <> id -> s !! name = Some e -> before !! name = None -> scratch name).
Definition in_backup before (id : rstring) s : Prop :=
  s !! id = None /\ exists tail e, before !! id = Some e /\ s !! (BACKUP ++ tail) = Some e.

Lemma kept_insert before id s name e :
  name = id \/ scratch name /\ before !! name = None -> others_kept before id s -> others_kept before id (<[name := e]> s).
Proof.
  intros Hn [H1 H2]. split.
  - intros name' e' Hne H. rewrite lookup_insert_ne; [by apply H1|]. intros ->. destruct Hn as [->|[_ Hn]]; congruence.
  - intros name' e' Hne [[<- <-]|[_ H]]%lookup_insert_Some Hb; [|by eapply H2]. by destruct Hn as [->|[Hn _]].
Qed.
Lemma kept_delete before id s name :
  name = id \/ scratch name /\ before !! name = None -> others_kept before id s -> others_kept before id (delete name s).
Proof.
  intros Hn [H1 H2]. split.
  - intros name' e' Hne H. rewrite lookup_delete_ne; [by apply H1|]. intros ->. destruct Hn as [->|[_ Hn]]; congruence.
  - intros name' e' Hne [_ H]%lookup_delete_Some Hb. by eapply H2.
Qed.
Definition visible_id (id : rstring) : Prop := starts_with 46 id = false.
Lemma visible_not_scratch id name : visible_id id -> scratch name -> name <> id.
Proof. intros Hv (tail & [->| ->]) <-; by vm_compute in Hv. Qed.
Lemma staging_not_backup tail tail' : STAGING ++ tail <> BACKUP ++ tail'.
Proof. done. Qed.

(** What a moment may show before the new package is in place: the earlier one at
    its place or in a backup *)
Definition old_kept before (id : rstring) s : Prop := others_kept before id s /\ (s !! id = before !! id \/ in_backup before id s).

(** A call that writes adds one moment. *)
Definition writes_once d d' : Prop := past d' = moments d.
Lemma moments_once (P : Store -> Prop) d d' :
  writes_once d d' -> (forall s, s ∈ moments d -> P s) -> P (store d') -> forall s, s ∈ moments d' -> P s.
Proof.
  intros Hw Hd Hs s. unfold moments at 1. rewrite Hw, elem_of_app, list_elem_of_singleton. intros [H| ->]; [by apply Hd|done].
Qed.
Lemma last_moment d : store d ∈ moments d.
Proof. unfold moments. apply elem_of_app. right. by apply list_elem_of_singleton. Qed.
Lemma rename_spec from to what d d' r :
  rename from to what d = (d', r) -> writes_once d d' /\
  (r = Err (StoreIo what) /\ store d' = store d
   \/ r = Ok tt /\ exists e, store d !! from = Some e /\ store d' = <[to := e]> (delete from (store d)) /\ may_rename (store d) from to = true).
Proof.
  unfold rename, writing. destruct (fails writes (calls d)); [intros [= <- <-]; split; [done|by left]|].
  destruct (may_rename (store d) from to) eqn:Em; intros [= <- <-]; (split; [done|]); cbn; rewrite Em; [right|by left].
  split; [done|]. unfold may_rename in Em. unfold renamed. destruct (store d !! from) as [e|]; [|done]. by exists e.
Qed.
Lemma tempdir_spec prefix what d d' r :
  tempdir prefix what d = (d', r) -> writes_once d d' /\
  (r = Err (StoreIo what) /\ store d' = store d
   \/ exists tail, r = Ok (prefix ++ tail) /\ store d !! (prefix ++ tail) = None /\ store d' = <[prefix ++ tail := empty_folder]> (store d)).
Proof.
  unfold tempdir. destruct (if fails writes (calls d) then None else _) as [name|] eqn:E; intros [= <- <-]; (split; [done|]); [right|by left].
  destruct (fails writes (calls d)); [done|]. apply List.find_some in E as [Hin Hf]. apply list_elem_of_In, list_elem_of_fmap in Hin as (tail & -> & _).
  exists tail. split; [done|]. split; [|done]. apply negb_true_iff, bool_decide_eq_false in Hf. by apply eq_None_not_Some.
Qed.
Lemma remove_dir_spec name what d d' r :
  remove_dir name what d = (d', r) -> writes_once d d' /\
  (r = Err (StoreIo what) /\ store d' = store d \/ r = Ok tt /\ store d' = delete name (store d)).
Proof.
  unfold remove_dir, writing. destruct (fails writes (calls d)); [intros [= <- <-]; split; [done|by left]|].
  intros [= <- <-]. split; [done|]. cbn. case_bool_decide; [by right|by left].
Qed.
Lemma tempdir_source prefix what d d' r : tempdir prefix what d = (d', r) -> source d' = source d.
Proof. unfold tempdir. case_match; by intros [= <- _]. Qed.
(** Removing a tree shows only states with a part of it, or without it. *)
Lemma remove_dir_all_spec (P : Store -> Prop) name what d :
  (forall s, s ∈ moments d -> P s) -> (forall e, P (<[name := e]> (store d))) -> P (delete name (store d)) ->
  forall s, s ∈ moments (remove_dir_all name what d).1 -> P s.
Proof.
  intros Hd Hi Hx. unfold remove_dir_all. destruct (store d !! name) as [e|].
  - assert (H1 : forall s, s ∈ moments (now_stored (insert name (left_of writes (calls d) e)) d) -> P s)
      by (intros s [H| ->]%moments_stored; [by apply Hd|by apply Hi]).
    destruct (fails writes (calls d)); [done|]. intros s [H| ->]%moments_stored; [by apply H1|]. cbn.
    by rewrite delete_insert_eq.
  - intros s [H| ->]%moments_stored; [by apply Hd|]. apply Hd, last_moment.
Qed.
Lemma remove_dir_all_store (P : Store -> Prop) name what d :
  P (store d) -> (forall e, P (<[name := e]> (store d))) -> P (delete name (store d)) -> P (store (remove_dir_all name what d).1).
Proof.
  intros H Hi Hx. unfold remove_dir_all. destruct (store d !! name) as [e|]; [|done]. destruct (fails writes (calls d)); [apply Hi|].
  cbn. by rewrite delete_insert_eq.
Qed.
Lemma remove_dir_all_other name other what d : other <> name -> store (remove_dir_all name what d).1 !! other = store d !! other.
Proof.
  intros Hne. unfold remove_dir_all. destruct (store d !! name); [|done]. destruct (fails writes (calls d)); cbn.
  - by rewrite lookup_insert_ne.
  - by rewrite lookup_delete_ne, lookup_insert_ne.
Qed.

Section swap.
Context (before : Store) (id tail : rstring) (new : Entry).
Context (Hid : visible_id id) (Hfree : before !! (STAGING ++ tail) = None).
#[local] Abbreviation t := (STAGING ++ tail).
Definition untouched s : Prop := others_kept before id s /\ s !! id = before !! id.
Definition in_place s : Prop := others_kept before id s /\ s !! id = Some new.
Definition swapped d (r : result StoreError unit) : Prop :=
  match r with
  | Ok _ => (forall s, s ∈ moments d -> old_kept before id s \/ in_place s) /\ in_place (store d)
  | Err error => (forall s, s ∈ moments d -> old_kept before id s)
                 /\ (store d !! id = before !! id \/ error = StoreIo KEPT /\ in_backup before id (store d))
  end.

Lemma scratch_t : scratch t.
Proof. by exists tail; left. Qed.
Lemma scratch_backup tail' : scratch (BACKUP ++ tail').
Proof. by exists tail'; right. Qed.
Lemma t_not_id : t <> id.
Proof using Hid. apply visible_not_scratch; [done|apply scratch_t]. Qed.
Lemma backup_not_id tail' : BACKUP ++ tail' <> id.
Proof using Hid. apply visible_not_scratch; [done|apply scratch_backup]. Qed.
Lemma untouched_old s : untouched s -> old_kept before id s.
Proof. intros []. split; [done|by left]. Qed.
Lemma untouched_stays d d' : writes_once d d' -> store d' = store d -> (forall s, s ∈ moments d -> untouched s) -> forall s, s ∈ moments d' -> untouched s.
Proof. intros Hw E Hm. eapply moments_once; [exact Hw|exact Hm|]. rewrite E. apply Hm, last_moment. Qed.
(** A rename of the staged copy to a free place *)
Lemma staged_in_place s : others_kept before id s -> in_place (<[id := new]> (delete t s)).
Proof using Hfree.
  intros H. split; [|apply lookup_insert_eq]. apply kept_insert; [by left|]. apply kept_delete; [|done]. right. split; [apply scratch_t|done].
Qed.
Lemma swap_free d what :
  (forall s, s ∈ moments d -> untouched s) -> store d !! t = Some new -> plain new -> target_exists (store d) id = false ->
  let '(d', r) := rename t id what d in swapped d' r.
Proof using Hfree.
  intros Hm Hn Hp Hx. destruct (rename t id what d) as [d' r] eqn:E. apply rename_spec in E as [Hw [[-> E]|[-> (e & He & E & Hr)]]].
  - assert (H := untouched_stays d d' Hw E Hm). split; [by intros s Hs; apply untouched_old, H|]. left. apply H, last_moment.
  - rewrite Hn in He. injection He as <-. assert (Hin : in_place (store d')) by (rewrite E; apply staged_in_place, (Hm _ (last_moment d))).
    split; [|done]. apply (moments_once _ d); [done| |by right]. intros s Hs. left. by apply untouched_old, Hm.
Qed.
Lemma in_backup_of d d' tail' :
  untouched (store d) -> before !! (BACKUP ++ tail') = None -> (exists e, store d !! id = Some e /\ store d' = <[BACKUP ++ tail' := e]> (delete id (store d))) ->
  others_kept before id (store d') /\ in_backup before id (store d').
Proof using Hid.
  intros [Ho Ei] Hb (e & He & ->). split.
  - apply kept_insert; [right; split; [apply scratch_backup|done]|]. apply kept_delete; [by left|done].
  - split.
    + rewrite lookup_insert_ne by apply backup_not_id. apply lookup_delete_eq.
    + exists tail', e. split; [congruence|apply lookup_insert_eq].
Qed.
Lemma in_place_without tail' s : before !! (BACKUP ++ tail') = None -> in_place s ->
  (forall e, in_place (<[BACKUP ++ tail' := e]> s)) /\ in_place (delete (BACKUP ++ tail') s).
Proof using Hid.
  intros Hb [Ho Hi]. assert (Hs : BACKUP ++ tail' = id \/ scratch (BACKUP ++ tail') /\ before !! (BACKUP ++ tail') = None)
    by (right; split; [apply scratch_backup|done]).
  split; [intros e|]; split.
  - by apply kept_insert.
  - by rewrite lookup_insert_ne by apply backup_not_id.
  - by apply kept_delete.
  - by rewrite lookup_delete_ne by apply backup_not_id.
Qed.
Lemma exchange_packages_spec d tail' :
  (forall s, s ∈ moments d -> untouched s) -> store d !! t = Some new -> before !! (BACKUP ++ tail') = None ->
  let '(d', r) := exchange_packages t id (BACKUP ++ tail') d in swapped d' r.
Proof using Hfree Hid.
  intros Hm Hn Hb. unfold exchange_packages, bind. destruct (rename id _ _ d) as [d1 r1] eqn:E1.
  apply rename_spec in E1 as [W1 [[-> E1]|[-> (e & He & E1 & _)]]].
  { assert (H := untouched_stays d d1 W1 E1 Hm). split; [by intros s Hs; apply untouched_old, H|]. left. apply H, last_moment. }
  destruct (in_backup_of d d1 tail' (Hm _ (last_moment d)) Hb) as [Ho1 Hi1]; [by exists e|].
  assert (Hm1 : forall s, s ∈ moments d1 -> old_kept before id s).
  { apply (moments_once _ d); [done| |by split; [|right]]. intros s Hs. by apply untouched_old, Hm. }
  assert (Hn1 : store d1 !! t = Some new).
  { rewrite E1, lookup_insert_ne by (intros E; symmetry in E; by eapply staging_not_backup).
    rewrite lookup_delete_ne; [done|]. intros E. by apply t_not_id. }
  destruct (rename t id [] d1) as [d2 r2] eqn:E2. apply rename_spec in E2 as [W2 [[-> E2]|[-> (e2 & He2 & E2 & _)]]].
  - assert (Hm2 : forall s, s ∈ moments d2 -> old_kept before id s).
    { apply (moments_once _ d1); [done..|]. rewrite E2. by split; [|right]. }
    destruct (rename (BACKUP ++ tail') id [] d2) as [d3 r3] eqn:E3. apply rename_spec in E3 as [W3 [[-> E3]|[-> (e3 & He3 & E3 & _)]]].
    + split; [apply (moments_once _ d2); [done..|]; rewrite E3, E2; by split; [|right]|]. right. split; [done|]. by rewrite E3, E2.
    + rewrite E2, E1, lookup_insert_eq in He3. injection He3 as <-. destruct (Hm _ (last_moment d)) as [_ Ei].
      assert (Hid3 : store d3 !! id = before !! id) by (rewrite E3, lookup_insert_eq; congruence).
      split; [|by left]. apply (moments_once _ d2); [done..|]. split; [|by left]. rewrite E3. apply kept_insert; [by left|].
      apply kept_delete; [right; split; [apply scratch_backup|done]|]. by rewrite E2.
  - rewrite Hn1 in He2. injection He2 as <-. assert (Hp2 : in_place (store d2)) by (rewrite E2; by apply staged_in_place).
    destruct (in_place_without tail' (store d2) Hb Hp2) as [Hi Hx]. split.
    + apply remove_dir_all_spec; [|intros e'; right; apply Hi|right; apply Hx].
      apply (moments_once _ d1); [done| |by right]. intros s Hs. left. by apply Hm1.
    + by apply remove_dir_all_store.
Qed.
Lemma swap_spec d :
  (forall s, s ∈ moments d -> untouched s) -> store d !! t = Some new -> plain new ->
  let '(d', r) := swap_into_place t id d in swapped d' r.
Proof using Hfree Hid.
  intros Hm Hn Hp. unfold swap_into_place, bind at 1, stored. destruct (target_exists (store d) id) eqn:Hx; cbn [negb].
  2:{ by apply swap_free. }
  unfold bind at 1. destruct (tempdir _ _ d) as [d1 r1] eqn:E1. apply tempdir_spec in E1 as [W1 [[-> E1]|(tail' & -> & F1 & E1)]].
  { assert (H := untouched_stays d d1 W1 E1 Hm). split; [by intros s Hs; apply untouched_old, H|]. left. apply H, last_moment. }
  destruct (Hm _ (last_moment d)) as [Ho Ei].
  assert (Hb : before !! (BACKUP ++ tail') = None).
  { destruct (before !! (BACKUP ++ tail')) as [e|] eqn:Hb; [|done]. apply Ho in Hb; [congruence|apply backup_not_id]. }
  assert (Hm1 : forall s, s ∈ moments d1 -> untouched s).
  { apply (moments_once _ d); [done..|]. rewrite E1. split; [apply kept_insert; [right; split; [apply scratch_backup|done]|done]|].
    rewrite lookup_insert_ne by apply backup_not_id. done. }
  unfold bind at 1. destruct (remove_dir _ _ d1) as [d2 r2] eqn:E2. apply remove_dir_spec in E2 as [W2 [[-> E2]|[-> E2]]].
  { assert (H := untouched_stays d1 d2 W2 E2 Hm1). split; [by intros s Hs; apply untouched_old, H|]. left. apply H, last_moment. }
  destruct (Hm1 _ (last_moment d1)) as [Ho1 Ei1].
  assert (Hm2 : forall s, s ∈ moments d2 -> untouched s).
  { apply (moments_once _ d1); [done..|]. rewrite E2. split; [apply kept_delete; [right; split; [apply scratch_backup|done]|done]|].
    rewrite lookup_delete_ne by apply backup_not_id. done. }
  apply exchange_packages_spec; [done| |done]. rewrite E2, lookup_delete_ne by (intros E; symmetry in E; by eapply staging_not_backup).
  by rewrite E1, lookup_insert_ne by (intros E; symmetry in E; by eapply staging_not_backup).
Qed.
End swap.

(** ** Installing *)

Lemma stages_copy_package path root manifest t : stages (copy_package path root manifest t) t.
Proof.
  apply stages_bind; [apply stages_copy_regular|]. intros _. apply stages_bind; [by intros before d|]. intros relative.
  apply stages_bind; [apply stages_copy_regular|]. intros _. apply stages_copy_resources.
Qed.
Lemma tame_mark id : tame (fun e => let (e, created) := create_file [MARKER] e in if created then put_content [MARKER] id e else (e, false)).
Proof.
  intros e Hp. pose proof (tame_create [MARKER] e Hp) as H. destruct (create_file [MARKER] e) as [e1 []]; [|done]. by apply tame_content.
Qed.
Definition marked (id : rstring) e : Prop := exists mode, e !! [MARKER] = Some (RegularFile id mode).
Lemma marked_after id t d d' :
  mark_package id t d = (d', Ok tt) -> exists e, store d' !! t = Some e /\ marked id e.
Proof.
  unfold mark_package, in_entry, writing. destruct (fails writes (calls d)); [done|]. intros [= <- Hr]. cbn.
  destruct (store d !! t) as [e|]; [|done]. cbn in *. eexists. split; [apply lookup_insert_eq|].
  unfold create_file, put_content in *. destruct (e !! [MARKER]) as [[content mode| | |]|] eqn:E; try done;
    rewrite lookup_insert_eq in *; cbn; eexists; apply lookup_insert_eq.
Qed.
Lemma is_owned_ext directory s s' id : s !! id = s' !! id -> is_owned directory s id = is_owned directory s' id.
Proof. intros E. unfold is_owned. by rewrite E. Qed.
Lemma staging_untouched before id tail d :
  visible_id id -> before !! (STAGING ++ tail) = None -> staging_only (STAGING ++ tail) before d ->
  forall s, s ∈ moments d -> untouched before id s.
Proof.
  intros Hid Hfree [Hm _] s Hs. specialize (Hm s Hs). split.
  - split.
    + intros name e Hne H. rewrite Hm; [done|]. intros ->. congruence.
    + intros name e Hne H Hb. destruct (decide (name = STAGING ++ tail)) as [->|Hn]; [apply scratch_t|]. rewrite Hm in H by done. congruence.
  - apply Hm. intros ->. by vm_compute in Hid.
Qed.

(** What installing leaves, in the store and on the way; [complete] says that an
    entry holds the package. *)
Definition installs (complete : Entry -> Prop) before directory (id : rstring) d (r : result StoreError unit) : Prop :=
  (forall s, s ∈ moments d -> others_kept before id s
     /\ (s !! id = before !! id \/ in_backup before id s \/ r = Ok tt /\ s !! id = store d !! id))
  /\ (forall e, before !! id = Some e -> is_owned directory before id = true \/ forall s, s ∈ moments d -> s !! id = Some e)
  /\ match r with
     | Ok _ => exists e, store d !! id = Some e /\ plain e /\ marked id e /\ complete e
     | Err error => store d !! id = before !! id \/ error = StoreIo KEPT /\ in_backup before id (store d)
     end.
Lemma installs_complete (complete complete' : Entry -> Prop) before directory id d r :
  (forall e, complete e -> complete' e) -> installs complete before directory id d r -> installs complete' before directory id d r.
Proof.
  intros H (H1 & H2 & H3). split; [done|]. split; [done|]. destruct r; [|done]. destruct H3 as (e & ? & ? & ? & ?). exists e. auto.
Qed.
Lemma installs_untouched (complete : Entry -> Prop) before directory id d error :
  (forall s, s ∈ moments d -> untouched before id s) -> installs complete before directory id d (Err error).
Proof.
  intros H. split; [|split].
  - intros s Hs. destruct (H s Hs). split; [done|by left].
  - intros e He. right. intros s Hs. destruct (H s Hs). congruence.
  - left. apply H, last_moment.
Qed.
Lemma replace_installs (complete : Entry -> Prop) before directory id tail d :
  visible_id id -> before !! (STAGING ++ tail) = None -> staging_only (STAGING ++ tail) before d ->
  (forall e, store d !! (STAGING ++ tail) = Some e -> marked id e /\ complete e) ->
  let '(d', r) := replace_package directory id (STAGING ++ tail) d in installs complete before directory id d' r.
Proof.
  intros Hid Hfree Hs Hmark. pose proof (staging_untouched before id tail d Hid Hfree Hs) as Hm.
  destruct Hs as [_ (new & Hn & Hp)]. destruct (Hm _ (last_moment d)) as [_ Ei].
  unfold replace_package, bind at 1, stored. destruct (target_exists (store d) id && _) eqn:Et; [by apply installs_untouched|].
  pose proof (swap_spec before id tail new Hid Hfree d Hm Hn Hp) as H.
  assert (Hown : forall e, before !! id = Some e -> is_owned directory before id = true
    \/ exists what d' , swap_into_place (STAGING ++ tail) id d = (d', Err (StoreIo what)) /\ writes_once d d' /\ store d' = store d).
  { intros e He. rewrite (is_owned_ext directory before (store d)) by done. destruct (is_owned directory (store d) id); [by left|right].
    rewrite andb_true_r in Et. unfold swap_into_place, bind at 1, stored. rewrite Et. cbn [negb].
    destruct (rename _ _ _ d) as [d' r] eqn:Er. apply rename_spec in Er as [Hw [[-> Es]|[-> (e' & _ & _ & Hr)]]]; [by eexists _, d'|].
    unfold may_rename in Hr. rewrite Hn, Ei, He in Hr. apply andb_prop in Hr as [_ Hr]. apply bool_decide_eq_true in Hr as ->.
    unfold target_exists in Et. by rewrite Ei, He in Et. }
  destruct (swap_into_place _ id d) as [d' r] eqn:E. unfold installs.
  split; [|split].
  - intros s Hs. destruct r as [[]|error]; destruct H as [H Hf].
    + destruct (H s Hs) as [[Ho [Hi|Hi]]|[Ho Hi]]; (split; [done|]); [by left|by right; left|]. right. right. split; [done|].
      destruct Hf. congruence.
    + destruct (H s Hs) as [Ho [Hi|Hi]]; (split; [done|]); [by left|by right; left].
  - intros e He. destruct (Hown e He) as [|(what & d1 & Ed & Hw & Es)]; [by left|right]. injection Ed as <- _. intros s Hs.
    destruct (untouched_stays before id d d' Hw Es Hm s Hs). congruence.
  - destruct r as [[]|error]; destruct H as [_ H]; [|done]. exists new. destruct H as [_ H]. split; [done|]. split; [done|]. by apply Hmark.
Qed.
Lemma installs_removed (complete : Entry -> Prop) before directory id tail d error :
  visible_id id -> before !! (STAGING ++ tail) = None -> installs complete before directory id d (Err error) ->
  installs complete before directory id (remove_dir_all (STAGING ++ tail) [] d).1 (Err error).
Proof.
  intros Hid Hfree (H1 & H2 & H3). pose proof (t_not_id id tail Hid) as Hne.
  assert (Hsc : STAGING ++ tail = id \/ scratch (STAGING ++ tail) /\ before !! (STAGING ++ tail) = None)
    by (right; split; [apply scratch_t|done]).
  assert (Hback : forall s e, in_backup before id s -> in_backup before id (<[STAGING ++ tail := e]> s) /\ in_backup before id (delete (STAGING ++ tail) s)).
  { intros s e (Hn & tail' & old & Ho & Hb). pose proof (staging_not_backup tail tail') as Hsb. split; split.
    - by rewrite lookup_insert_ne.
    - exists tail', old. by rewrite lookup_insert_ne.
    - by rewrite lookup_delete_ne.
    - exists tail', old. by rewrite lookup_delete_ne. }
  split; [|split].
  - destruct (H1 _ (last_moment d)) as [Ho Hi]. apply remove_dir_all_spec.
    + intros s Hs. destruct (H1 s Hs) as [Hs1 Hs2]. split; [done|]. destruct Hs2 as [|[|[? _]]]; [by left|by right; left|done].
    + intros e. split; [by apply kept_insert|]. rewrite lookup_insert_ne by done.
      destruct Hi as [|[Hi|[? _]]]; [by left|right; left; by apply Hback|done].
    + split; [by apply kept_delete|]. rewrite lookup_delete_ne by done.
      destruct Hi as [|[Hi|[? _]]]; [by left|right; left; by apply (Hback _ ∅)|done].
  - intros e He. destruct (H2 e He) as [|Hall]; [by left|right]. apply remove_dir_all_spec; [done| |].
    + intros e'. rewrite lookup_insert_ne by done. apply Hall, last_moment.
    + rewrite lookup_delete_ne by done. apply Hall, last_moment.
  - rewrite remove_dir_all_other by done. destruct H3 as [|[-> Hi]]; [by left|right]. split; [done|].
    apply remove_dir_all_store; [done| |]; intros; by apply (Hback _ ∅) || by apply Hback.
Qed.

(** The id of the manifest that is read, if one is *)
Definition named_id (path : rstring) d : rstring :=
  match (find_package path d).2 with Ok (_, (manifest, _)) => mf_id manifest | Err _ => [] end.
Lemma find_package_reads path d : store (find_package path d).1 = store d /\ past (find_package path d).1 = past d.
Proof.
  unfold find_package, package_manifest_path, read_package, bind, looking, reading, ret, refuse.
  repeat (case_match; simplify_eq/=); done.
Qed.
Definition in_unit {A} (r : result StoreError A) : result StoreError unit := match r with Ok _ => Ok tt | Err e => Err e end.
Lemma untouched_refl before id : untouched before id before.
Proof. split; [|done]. split; [done|]. intros name e _ H H'. congruence. Qed.
(** The files of the package with all of their content, and nothing else but the
    mark: what the entry holds when nobody changes the source meanwhile *)
Definition holds_package (source : Src) (manifest_path root : rstring) (manifest : PluginManifest) e : Prop :=
  still source -> holds_but source (Some [MARKER]) (package_file source manifest_path root manifest) e.
Lemma staged_installs directory manifest_path root manifest (from : Src) before tail d :
  visible_id (mf_id manifest) -> before !! (STAGING ++ tail) = None -> staging_only (STAGING ++ tail) before d ->
  (still from -> source d = from) -> store d !! (STAGING ++ tail) = Some empty_folder ->
  let '(d', r) := or_remove (STAGING ++ tail) (
      bind (copy_package manifest_path root manifest (STAGING ++ tail)) (fun _ =>
      bind (mark_package (mf_id manifest) (STAGING ++ tail)) (fun _ =>
      bind (replace_package directory (mf_id manifest) (STAGING ++ tail)) (fun _ => ret (mf_id manifest))))) d in
  (forall id', r = Ok id' -> id' = mf_id manifest)
  /\ installs (holds_package from manifest_path root manifest) before directory (mf_id manifest) d' (in_unit r).
Proof.
  intros Hid Hfree Hd Hfrom Hempty. unfold or_remove, bind.
  pose proof (stages_copy_package manifest_path root manifest (STAGING ++ tail) before d Hd) as H1.
  destruct (copy_package manifest_path root manifest _ d) as [d1 [[]|e1]] eqn:E1; cbn [fst] in H1.
  2:{ split; [done|]. apply installs_removed; [done..|]. apply installs_untouched. by eapply staging_untouched. }
  assert (C1 : still from -> staged from (STAGING ++ tail) (holds from (package_file from manifest_path root manifest)) d1).
  { intros Hst. eapply (makes_copy_package from (STAGING ++ tail) Hst); [|exact E1]. split; [by apply Hfrom|].
    exists empty_folder. split; [done|]. split; [|done]. unfold empty_folder.
    by intros path content mode [_ [=]]%lookup_singleton_Some. }
  pose proof (stages_in_entry _ (str "cannot mark the package") (STAGING ++ tail) (tame_mark (mf_id manifest)) before d1 H1) as H2.
  pose proof (marked_after (mf_id manifest) (STAGING ++ tail) d1) as H2'.
  pose proof (makes_mark from (STAGING ++ tail) (mf_id manifest) (package_file from manifest_path root manifest) d1) as C2.
  unfold mark_package in *. destruct (in_entry _ _ _ d1) as [d2 [[]|e2]]; cbn [fst] in H2.
  2:{ split; [done|]. apply installs_removed; [done..|]. apply installs_untouched. by eapply staging_untouched. }
  assert (Hgood : forall e, store d2 !! (STAGING ++ tail) = Some e ->
            marked (mf_id manifest) e /\ holds_package from manifest_path root manifest e).
  { intros e He. destruct (H2' d2 eq_refl) as (e' & He' & Hmark). split; [congruence|].
    intros Hst. destruct (C2 d2 tt (C1 Hst) eq_refl) as (_ & e2 & He2 & Hh). congruence. }
  pose proof (replace_installs _ before directory (mf_id manifest) tail d2 Hid Hfree H2 Hgood) as H3.
  destruct (replace_package _ _ _ d2) as [d3 [[]|e3]].
  - split; [by intros id' [= <-]|done].
  - split; [done|]. by apply installs_removed.
Qed.
Lemma find_package_still path d : still (source d) -> source (find_package path d).1 = source d.
Proof.
  intros [Hp _]. unfold find_package, package_manifest_path, read_package, bind, looking, reading, ret, refuse.
  destruct (src_is_dir (source d) path) as [s1 b] eqn:E1.
  assert (s1 = source d) as -> by (destruct (Hp path) as (_ & _ & H & _); by rewrite E1 in H).
  cbn [source]. set (file := if b then _ else _).
  destruct (src_info (source d) file) as [s2 i] eqn:E2.
  assert (s2 = source d) as -> by (destruct (Hp file) as (_ & H & _); by rewrite E2 in H).
  destruct i as [i|]; [|done]. destruct (_ || _); [done|].
  destruct (src_text (source d) file) as [s3 text] eqn:E3.
  assert (s3 = source d) as -> by (destruct (Hp file) as (_ & _ & _ & H & _); by rewrite E3 in H).
  cbn [source]. rewrite E3. destruct text as [text|]; [|done]. by destruct (parse text) as [[]|].
Qed.
(** The entry holds the package that was found at the path. *)
Definition holds_found path d e : Prop :=
  forall manifest_path manifest root, (find_package path d).2 = Ok (manifest_path, (manifest, root)) ->
    holds_package (source d) manifest_path root manifest e.

(** C39: installing a package is all or nothing, whichever calls fail and whenever the
    daemon dies.  At every moment, everything else in the store is as it was, but
    for scratch directories, and the place of the package holds what it held, or
    nothing while a backup holds that, or the new package, and then the installation
    succeeds.  Only a package the daemon installed is ever replaced.  An installed
    package holds plain files and directories only, and the mark of its id; and if
    nobody changes the source meanwhile, it is complete: the manifest, the program
    and every regular file at or below a resource have their file in it, each file
    but the mark is one of those with its whole content and its mode, and there are
    no others.  (Where two files of the package share a place, as a resource named
    [syntra-plugin.json] does with the manifest, it holds one of the two.)  An error
    leaves the earlier package in its place, or, when the error says so, in a
    backup.  (Ids that begin with a dot are left out: no such package is found
    again.) *)
Theorem install_is_atomic path directory d d' r :
  past d = [] -> visible_id (named_id path d) -> install path directory d = (d', r) ->
  (forall id, r = Ok id -> id = named_id path d)
  /\ installs (holds_found path d) (store d) directory (named_id path d) d' (in_unit r).
Proof.
  intros Hpast. unfold named_id, install, bind at 1. pose proof (find_package_reads path d) as [Hs Hp].
  pose proof (find_package_still path d) as Hst.
  destruct (find_package path d) as [d1 [[manifest_path [manifest root]]|error]] eqn:Ef; cbn [fst snd] in *; intros Hid.
  2:{ intros [= <- <-]. split; [done|]. apply installs_untouched. unfold moments. rewrite Hp, Hpast, Hs. cbn.
      intros s ->%list_elem_of_singleton. apply untouched_refl. }
  assert (Hm1 : forall s, s ∈ moments d1 -> s = store d) by (unfold moments; rewrite Hp, Hpast, Hs; by intros s ->%list_elem_of_singleton).
  unfold bind at 1, writing. set (d2 := now_stored (fun s => s) d1).
  assert (Hm2 : forall s, s ∈ moments d2 -> s = store d) by (intros s [H| ->]%moments_stored; [by apply Hm1|apply Hm1, last_moment]).
  assert (Hstop : forall d3 error, (forall s, s ∈ moments d3 -> s = store d) -> (forall id, (Err error : result StoreError rstring) = Ok id -> id = mf_id manifest)
      /\ installs (holds_found path d) (store d) directory (mf_id manifest) d3 (Err error)).
  { intros d3 error H. split; [done|]. apply installs_untouched. intros s ->%H. apply untouched_refl. }
  destruct (fails writes (calls d1)); [intros [= <- <-]; by apply Hstop|]. change (now_stored _ d1) with d2.
  unfold bind at 1. destruct (tempdir STAGING _ d2) as [d3 r3] eqn:E3. pose proof (tempdir_source _ _ _ _ _ E3) as Hsrc.
  apply tempdir_spec in E3 as [Hw [[-> E3]|(tail & -> & Hf & E3)]].
  - intros [= <- <-]. apply Hstop. apply (moments_once _ d2); [done..|]. rewrite E3. apply Hm2, last_moment.
  - rewrite (Hm2 _ (last_moment d2)) in *. intros E.
    pose proof (staged_installs directory manifest_path root manifest (source d) (store d) tail d3 Hid Hf) as H.
    cbn [snd] in E. rewrite E in H. destruct H as [Hid' H].
    + split.
      * apply (moments_once (fun s => forall name, name <> STAGING ++ tail -> s !! name = store d !! name) d2); [done|by intros s ->%Hm2|].
        intros name Hne. rewrite E3. by rewrite lookup_insert_ne.
      * exists empty_folder. rewrite E3. split; [apply lookup_insert_eq|]. split; [apply lookup_singleton_eq|].
        unfold empty_folder. intros p node [_ <-]%lookup_singleton_Some. by left.
    + intros Hstill. rewrite Hsrc. by apply Hst.
    + rewrite E3. apply lookup_insert_eq.
    + split; [done|]. eapply installs_complete; [|exact H].
      intros e He mp m rt Hfound. rewrite Ef in Hfound. cbn in Hfound. injection Hfound as <- <- <-. done.
Qed.
(** Removing a package touches nothing else, and only what the daemon installed. *)
Lemma uninstall_removes_one id directory d d' r :
  past d = [] -> uninstall id directory d = (d', r) ->
  (forall s, s ∈ moments d' -> forall name, name <> id -> s !! name = store d !! name)
  /\ (store d' = store d \/ is_safe_id id = true /\ is_owned directory (store d) id = true)
  /\ (r = Ok tt -> store d' !! id = None).
Proof.
  intros Hpast. assert (Hsame : (forall s, s ∈ moments d -> forall name, name <> id -> s !! name = store d !! name)).
  { unfold moments. rewrite Hpast. by intros s ->%list_elem_of_singleton. }
  unfold uninstall. destruct (is_safe_id id); cbn [negb]; [|by intros [= <- <-]; split; [|split; [left|]]].
  unfold bind, stored. destruct (is_owned directory (store d) id) eqn:Eo; cbn [negb]; [|by intros [= <- <-]; split; [|split; [left|]]].
  intros E. split; [|split; [by right|]].
  - replace d' with (remove_dir_all id (str "cannot remove the package") d).1 by by rewrite E.
    apply (remove_dir_all_spec (fun s => forall name, name <> id -> s !! name = store d !! name)); [done| |].
    + intros e name Hne. by rewrite lookup_insert_ne.
    + intros name Hne. by rewrite lookup_delete_ne.
  - intros ->. unfold remove_dir_all in E. destruct (store d !! id); [|done]. destruct (fails writes (calls d)); [done|].
    injection E as <-. apply lookup_delete_eq.
Qed.
End store.

(** ** An example

    A package with a program and a directory of resources, installed over an earlier
    one, with and without calls that fail. *)

Module Installing.
Definition Tree : Type := list (rstring * (FileKind.t * bytes)).
Definition node_at (t : Tree) (path : rstring) : option (FileKind.t * bytes) :=
  snd <$> List.find (fun node => path_eqb node.1 path) t.
Definition clip (id : string) (resources : list string) : PluginManifest := {|
  mf_manifest_version := 1; mf_protocol_version := 1; mf_id := str id; mf_name := str "Clipboard"; mf_executable := str "bin/clip";
  mf_args := []; mf_description := []; mf_version := str "1.0"; mf_author := []; mf_homepage := None;
  mf_source := None; mf_update_url := None; mf_license := None; mf_bundled := false; mf_on_demand := false;
  mf_owns_settings := false;
  mf_capabilities := {| clipboard_read := true; paste := true; can_cancel := true; requires_live_mount := false;
                        pointer_events := false; mime_types := [URI_LIST_MIME] |};
  mf_settings := []; mf_handshake_ids := []; mf_resources := str <$> resources |}.
(** Three texts that are manifests *)
#[export] Instance three_manifests : ManifestJson := {
  JsonValue := rstring;
  json_from_str text := Ok text;
  get_u64 _ _ := Some 1;
  get_str _ _ := None;
  manifest_from_value text :=
    if bool_decide (text = str "clip") then Ok (clip "clip" ["lib"])
    else if bool_decide (text = str "hidden") then Ok (clip ".clip" [])
    else if bool_decide (text = str "loose") then Ok (clip "clip" ["syntra-plugin.json"]) else Err [];
  setting_to_json setting := decl_key setting;
}.
#[export] Instance tree_source : SourceFs := {
  Src := Tree;
  Opened := bytes;
  src_kind t path := (t, (fun node => (node.1, 493)) <$> node_at t path);
  src_info t path := (t, (fun node => (bool_decide (node.1 = FileKind.Regular), len node.2)) <$> node_at t path);
  src_is_dir t path := (t, match node_at t path with Some node => bool_decide (node.1 = FileKind.Directory) | None => false end);
  src_text t path := (t, snd <$> node_at t path);
  src_canonicalize t path := (t, (fun _ => path) <$> node_at t path);
  src_names t path := (t, Some (omap (fun node => match parent_path node.1 with
                                                  | Some above => if path_eqb above path then file_name node.1 else None
                                                  | None => None end) t));
  src_open t path := (t, snd <$> node_at t path);
  src_copy t content := (t, (content, true));
}.
Definition file (path content : string) : rstring * (FileKind.t * bytes) := (str path, (FileKind.Regular, str content)).
Definition folder (path : string) : rstring * (FileKind.t * bytes) := (str path, (FileKind.Directory, [])).
Definition sources : Tree := [
  folder "/p"; file "/p/syntra-plugin.json" "clip"; folder "/p/bin"; file "/p/bin/clip" "program"; folder "/p/lib"; file "/p/lib/data" "data";
  file "/p/hidden.json" "hidden"; file "/p/loose.json" "loose"].
Definition all_work : Writes := {| fails _ := false; draws _ := [str "x"]; new_mode := 420; left_of _ e := e |}.
(** The call of that number fails. *)
Definition failing (n : nat) : Writes := {| fails m := bool_decide (m = n); draws _ := [str "x"]; new_mode := 420; left_of _ e := e |}.
Definition earlier : Entry := <[[MARKER] := RegularFile (str "clip") 420]> (<[[str "old"] := RegularFile (str "old") 420]> empty_folder).
Definition start : Disk := {| source := sources; store := {[ str "clip" := earlier; str "mine" := empty_folder ]}; calls := 0; past := [] |}.
Definition directory : rstring := str "/c/plugin-store".
Definition install_from (w : Writes) (path : string) : Disk * result StoreError rstring := install w (str path) directory start.
Definition placed (d : Disk) (id : string) (path : list string) : option Node := store d !! str id ≫= fun e => e !! (str <$> path).

Example installed :
  let '(d, r) := install_from all_work "/p" in
  r = Ok (str "clip") /\ placed d "clip" ["lib"; "data"]%string = Some (RegularFile (str "data") 493) /\ placed d "clip" ["old"]%string = None.
Proof. vm_compute. repeat split. Qed.
(** When neither the new package nor the earlier one can be moved, a backup is left. *)
Definition both_moves : Writes :=
  {| fails m := bool_decide (m = 22%nat \/ m = 23%nat); draws _ := [str "x"]; new_mode := 420; left_of _ e := e |}.
Example backup_left :
  let '(d, r) := install_from both_moves "/p" in
  r = Err (StoreIo KEPT) /\ store d !! str "clip" = None /\ store d !! str ".backup-x" = Some earlier.
Proof. vm_compute. repeat split. Qed.
(** The calls of [tree_source] leave the tree as it is. *)
Lemma install_is_atomic_witness :
  (install_from all_work "/p").2 = Ok (str "clip") /\ still sources
  /\ named_id (str "/p") start = str "clip"
  /\ installs (holds_found (str "/p") start) (store start) directory (str "clip") (install_from all_work "/p").1 (Ok tt).
Proof.
  assert (E : (install_from all_work "/p").2 = Ok (str "clip")) by (vm_compute; reflexivity).
  assert (N : named_id (str "/p") start = str "clip") by (vm_compute; reflexivity).
  split; [exact E|]. split; [split; intros; repeat split|]. split; [exact N|].
  destruct (install_from all_work "/p") as [d' r] eqn:Ei. unfold install_from in Ei. cbn [snd] in E. subst r.
  rewrite <- N at 1. apply (install_is_atomic all_work (str "/p") directory start d' (Ok (str "clip"))).
  - reflexivity.
  - rewrite N. reflexivity.
  - exact Ei.
Defined.
(** Of a package whose resource cannot be read to its end nothing is installed. *)
Definition cut_short : SourceFs := {|
  Src := Tree; Opened := bytes;
  src_kind := @src_kind tree_source; src_info := @src_info tree_source; src_is_dir := @src_is_dir tree_source;
  src_text := @src_text tree_source; src_canonicalize := @src_canonicalize tree_source;
  src_names := @src_names tree_source; src_open := @src_open tree_source;
  src_copy t content := (t, (take 2 content, bool_decide (content <> str "data"))) |}.
Example unreadable_resource :
  let '(d, r) := install (sources := cut_short) all_work (str "/p") directory
                  {| source := sources : @Src cut_short; store := store start; calls := 0; past := [] |} in
  r = Err (StoreIo (str "cannot copy a file")) /\ store d !! str "clip" = Some earlier.
Proof. vm_compute. repeat split. Qed.

(** An id may begin with a dot: the package is installed, in a directory that
    discovery skips. *)
Example hidden_package_is_not_found :
  (install_from all_work "/p/hidden.json").2 = Ok (str ".clip")
  /\ forall d, manifest_candidate d directory (str ".clip", Some FileKind.Directory) = None.
Proof. split; [vm_compute; reflexivity|]. by intros d. Qed.
(** A resource of the name [syntra-plugin.json] takes the place of the manifest
    that was read: [loose] named the package, [clip] is what is found. *)
Example installed_manifest_is_another :
  (install_from all_work "/p/loose.json").2 = Ok (str "clip")
  /\ placed (install_from all_work "/p/loose.json").1 "clip" ["syntra-plugin.json"]%string = Some (RegularFile (str "clip") 493).
Proof. vm_compute. repeat split. Qed.
End Installing.
