(* ===== verification/PluginRegistry.v ===== *)
(** * Plugins: the registry

    [crates/syntra-core/src/plugins/registry.rs]: which plugins there are, who
    vouches for each, what the user chose, what was observed of their processes,
    and which of them may start.  A call reads the [Moment]: the clock, the files
    of the plugins and whether a write fails.  The cache of digests is part of the
    state, as the code fills it while it reads. *)

From stdpp Require Import sorting.
From S2P Require Import Prelude Wire ProtoValid UnixPath FileOs FileTransfer PluginApi Manifest Supervisor PluginRouting PluginTrust PluginDiscovery.

(** Milliseconds *)
Definition HANDSHAKE_TIMEOUT : Z := 10 * 1000.
Definition CRASH_LOOP_RESTARTS : Z := 3.

Module Health.
Inductive t := Disabled | NotInstalled | Stopped | OnDemand | Starting | Healthy | Unresponsive | Failed.
#[global] Instance t_eq_dec : EqDecision t.
Proof. solve_decision. Defined.
End Health.
Module Life.
Inductive t := Installed | Approved | Enabled | Starting | Ready | Running | Failed | Unsupported.
#[global] Instance t_eq_dec : EqDecision t.
Proof. solve_decision. Defined.
End Life.
Module Pending.
Inductive t := Approving | Revoking | Enabling | Disabling | Installing | Removing.
End Pending.

Record SavedState := { saved_disabled : bool; saved_enabled : bool; saved_values : gmap rstring rstring }.
Class StateJson := {
  state_to_json : SavedState -> rstring;
  state_from_json : rstring -> option SavedState;
}.

Inductive Refusal :=
| Unknown | Disabled | NotApproved | Changed | NotInstalled | Unreadable (why : rstring) | UnsupportedHere (why : rstring).
Definition refusal_text (r : Refusal) : rstring :=
  match r with
  | Unknown => str "the plugin is not known"
  | Disabled => str "the plugin is switched off"
  | NotApproved => str "approve the plugin's content to run it"
  | Changed => str "the plugin changed since it was approved; review and approve it again"
  | NotInstalled => str "the plugin's executable is missing or not runnable"
  | Unreadable why => str "the plugin cannot be checked: " ++ why
  | UnsupportedHere why => why
  end.
Record LaunchPlan := { plan_spec : LaunchSpec; plan_settings : list (rstring * rstring) }.

Definition Fingerprint : Type := list (rstring * option Z * option Z).
Record CachedDigest := { cached_fingerprint : Fingerprint; cached : result rstring rstring }.
Record PluginReview := {
  rv_path : rstring; rv_valid : bool; rv_error : option rstring; rv_unsupported : bool; rv_id : rstring; rv_name : rstring;
  rv_version : rstring; rv_author : rstring; rv_source : option rstring; rv_license : option rstring;
  rv_executable : rstring; rv_args : list rstring; rv_mime_types : list rstring; rv_roles : list PluginRole.t;
  rv_pointer_events : bool; rv_requires_live_mount : bool; rv_digest : rstring; rv_files : list rstring;
  rv_replaces_existing : bool;
}.

(** The clock, failing writes, the files of plugins, the digest of a package with
    the names of its files, sizes and times of files. *)
Record Moment := {
  now : Z;
  write_fails : rstring -> option rstring;
  disk : Disk;
  package_digest : PluginManifest -> rstring -> rstring -> result rstring (rstring * list rstring);
  stat : rstring -> option (Z * option Z);
}.

(** ** State *)

Record PluginRegistry := {
  plugins : list Discovered;
  unsupported : list Unsupported;
  trust : TrustStore;
  enabled_ids : gmap rstring bool;
  running_ids : gmap rstring bool;
  starting_at : gmap rstring Z;
  restart_counts : gmap rstring Z;
  failures : gmap rstring rstring;
  pids : gmap rstring Z;
  chosen : gmap rstring (gmap rstring rstring);
  state_dir : option rstring;
  owned_settings : gmap rstring (list SettingControl);
  declared : gmap rstring PluginMetadata;
  pending_requests : gmap rstring Pending.t;
  action_errors : gmap rstring rstring;
  diagnostics_of : gmap rstring (list rstring);
  reviews : list PluginReview;
  store_dir : option rstring;
  digest_cache : gmap rstring CachedDigest;
}.
Definition on_found f (r : PluginRegistry) : PluginRegistry := {|
  plugins := f (plugins r); unsupported := unsupported r; trust := trust r; enabled_ids := enabled_ids r;
  running_ids := running_ids r; starting_at := starting_at r; restart_counts := restart_counts r;
  failures := failures r; pids := pids r; chosen := chosen r; state_dir := state_dir r;
  owned_settings := owned_settings r; declared := declared r; pending_requests := pending_requests r;
  action_errors := action_errors r; diagnostics_of := diagnostics_of r; reviews := reviews r;
  store_dir := store_dir r; digest_cache := digest_cache r |}.
Definition on_unsupported f (r : PluginRegistry) : PluginRegistry := {|
  plugins := plugins r; unsupported := f (unsupported r); trust := trust r; enabled_ids := enabled_ids r;
  running_ids := running_ids r; starting_at := starting_at r; restart_counts := restart_counts r;
  failures := failures r; pids := pids r; chosen := chosen r; state_dir := state_dir r;
  owned_settings := owned_settings r; declared := declared r; pending_requests := pending_requests r;
  action_errors := action_errors r; diagnostics_of := diagnostics_of r; reviews := reviews r;
  store_dir := store_dir r; digest_cache := digest_cache r |}.
Definition on_trust f (r : PluginRegistry) : PluginRegistry := {|
  plugins := plugins r; unsupported := unsupported r; trust := f (trust r); enabled_ids := enabled_ids r;
  running_ids := running_ids r; starting_at := starting_at r; restart_counts := restart_counts r;
  failures := failures r; pids := pids r; chosen := chosen r; state_dir := state_dir r;
  owned_settings := owned_settings r; declared := declared r; pending_requests := pending_requests r;
  action_errors := action_errors r; diagnostics_of := diagnostics_of r; reviews := reviews r;
  store_dir := store_dir r; digest_cache := digest_cache r |}.
Definition on_enabled f (r : PluginRegistry) : PluginRegistry := {|
  plugins := plugins r; unsupported := unsupported r; trust := trust r; enabled_ids := f (enabled_ids r);
  running_ids := running_ids r; starting_at := starting_at r; restart_counts := restart_counts r;
  failures := failures r; pids := pids r; chosen := chosen r; state_dir := state_dir r;
  owned_settings := owned_settings r; declared := declared r; pending_requests := pending_requests r;
  action_errors := action_errors r; diagnostics_of := diagnostics_of r; reviews := reviews r;
  store_dir := store_dir r; digest_cache := digest_cache r |}.
Definition on_running f (r : PluginRegistry) : PluginRegistry := {|
  plugins := plugins r; unsupported := unsupported r; trust := trust r; enabled_ids := enabled_ids r;
  running_ids := f (running_ids r); starting_at := starting_at r; restart_counts := restart_counts r;
  failures := failures r; pids := pids r; chosen := chosen r; state_dir := state_dir r;
  owned_settings := owned_settings r; declared := declared r; pending_requests := pending_requests r;
  action_errors := action_errors r; diagnostics_of := diagnostics_of r; reviews := reviews r;
  store_dir := store_dir r; digest_cache := digest_cache r |}.
Definition on_starting f (r : PluginRegistry) : PluginRegistry := {|
  plugins := plugins r; unsupported := unsupported r; trust := trust r; enabled_ids := enabled_ids r;
  running_ids := running_ids r; starting_at := f (starting_at r); restart_counts := restart_counts r;
  failures := failures r; pids := pids r; chosen := chosen r; state_dir := state_dir r;
  owned_settings := owned_settings r; declared := declared r; pending_requests := pending_requests r;
  action_errors := action_errors r; diagnostics_of := diagnostics_of r; reviews := reviews r;
  store_dir := store_dir r; digest_cache := digest_cache r |}.
Definition on_restart_counts f (r : PluginRegistry) : PluginRegistry := {|
  plugins := plugins r; unsupported := unsupported r; trust := trust r; enabled_ids := enabled_ids r;
  running_ids := running_ids r; starting_at := starting_at r; restart_counts := f (restart_counts r);
  failures := failures r; pids := pids r; chosen := chosen r; state_dir := state_dir r;
  owned_settings := owned_settings r; declared := declared r; pending_requests := pending_requests r;
  action_errors := action_errors r; diagnostics_of := diagnostics_of r; reviews := reviews r;
  store_dir := store_dir r; digest_cache := digest_cache r |}.
Definition on_failures f (r : PluginRegistry) : PluginRegistry := {|
  plugins := plugins r; unsupported := unsupported r; trust := trust r; enabled_ids := enabled_ids r;
  running_ids := running_ids r; starting_at := starting_at r; restart_counts := restart_counts r;
  failures := f (failures r); pids := pids r; chosen := chosen r; state_dir := state_dir r;
  owned_settings := owned_settings r; declared := declared r; pending_requests := pending_requests r;
  action_errors := action_errors r; diagnostics_of := diagnostics_of r; reviews := reviews r;
  store_dir := store_dir r; digest_cache := digest_cache r |}.
Definition on_pids f (r : PluginRegistry) : PluginRegistry := {|
  plugins := plugins r; unsupported := unsupported r; trust := trust r; enabled_ids := enabled_ids r;
  running_ids := running_ids r; starting_at := starting_at r; restart_counts := restart_counts r;
  failures := failures r; pids := f (pids r); chosen := chosen r; state_dir := state_dir r;
  owned_settings := owned_settings r; declared := declared r; pending_requests := pending_requests r;
  action_errors := action_errors r; diagnostics_of := diagnostics_of r; reviews := reviews r;
  store_dir := store_dir r; digest_cache := digest_cache r |}.
Definition on_chosen f (r : PluginRegistry) : PluginRegistry := {|
  plugins := plugins r; unsupported := unsupported r; trust := trust r; enabled_ids := enabled_ids r;
  running_ids := running_ids r; starting_at := starting_at r; restart_counts := restart_counts r;
  failures := failures r; pids := pids r; chosen := f (chosen r); state_dir := state_dir r;
  owned_settings := owned_settings r; declared := declared r; pending_requests := pending_requests r;
  action_errors := action_errors r; diagnostics_of := diagnostics_of r; reviews := reviews r;
  store_dir := store_dir r; digest_cache := digest_cache r |}.
Definition on_state_dir f (r : PluginRegistry) : PluginRegistry := {|
  plugins := plugins r; unsupported := unsupported r; trust := trust r; enabled_ids := enabled_ids r;
  running_ids := running_ids r; starting_at := starting_at r; restart_counts := restart_counts r;
  failures := failures r; pids := pids r; chosen := chosen r; state_dir := f (state_dir r);
  owned_settings := owned_settings r; declared := declared r; pending_requests := pending_requests r;
  action_errors := action_errors r; diagnostics_of := diagnostics_of r; reviews := reviews r;
  store_dir := store_dir r; digest_cache := digest_cache r |}.
Definition on_owned f (r : PluginRegistry) : PluginRegistry := {|
  plugins := plugins r; unsupported := unsupported r; trust := trust r; enabled_ids := enabled_ids r;
  running_ids := running_ids r; starting_at := starting_at r; restart_counts := restart_counts r;
  failures := failures r; pids := pids r; chosen := chosen r; state_dir := state_dir r;
  owned_settings := f (owned_settings r); declared := declared r; pending_requests := pending_requests r;
  action_errors := action_errors r; diagnostics_of := diagnostics_of r; reviews := reviews r;
  store_dir := store_dir r; digest_cache := digest_cache r |}.
Definition on_declared f (r : PluginRegistry) : PluginRegistry := {|
  plugins := plugins r; unsupported := unsupported r; trust := trust r; enabled_ids := enabled_ids r;
  running_ids := running_ids r; starting_at := starting_at r; restart_counts := restart_counts r;
  failures := failures r; pids := pids r; chosen := chosen r; state_dir := state_dir r;
  owned_settings := owned_settings r; declared := f (declared r); pending_requests := pending_requests r;
  action_errors := action_errors r; diagnostics_of := diagnostics_of r; reviews := reviews r;
  store_dir := store_dir r; digest_cache := digest_cache r |}.
Definition on_pending f (r : PluginRegistry) : PluginRegistry := {|
  plugins := plugins r; unsupported := unsupported r; trust := trust r; enabled_ids := enabled_ids r;
  running_ids := running_ids r; starting_at := starting_at r; restart_counts := restart_counts r;
  failures := failures r; pids := pids r; chosen := chosen r; state_dir := state_dir r;
  owned_settings := owned_settings r; declared := declared r; pending_requests := f (pending_requests r);
  action_errors := action_errors r; diagnostics_of := diagnostics_of r; reviews := reviews r;
  store_dir := store_dir r; digest_cache := digest_cache r |}.
Definition on_errors f (r : PluginRegistry) : PluginRegistry := {|
  plugins := plugins r; unsupported := unsupported r; trust := trust r; enabled_ids := enabled_ids r;
  running_ids := running_ids r; starting_at := starting_at r; restart_counts := restart_counts r;
  failures := failures r; pids := pids r; chosen := chosen r; state_dir := state_dir r;
  owned_settings := owned_settings r; declared := declared r; pending_requests := pending_requests r;
  action_errors := f (action_errors r); diagnostics_of := diagnostics_of r; reviews := reviews r;
  store_dir := store_dir r; digest_cache := digest_cache r |}.
Definition on_lines f (r : PluginRegistry) : PluginRegistry := {|
  plugins := plugins r; unsupported := unsupported r; trust := trust r; enabled_ids := enabled_ids r;
  running_ids := running_ids r; starting_at := starting_at r; restart_counts := restart_counts r;
  failures := failures r; pids := pids r; chosen := chosen r; state_dir := state_dir r;
  owned_settings := owned_settings r; declared := declared r; pending_requests := pending_requests r;
  action_errors := action_errors r; diagnostics_of := f (diagnostics_of r); reviews := reviews r;
  store_dir := store_dir r; digest_cache := digest_cache r |}.
Definition on_reviews f (r : PluginRegistry) : PluginRegistry := {|
  plugins := plugins r; unsupported := unsupported r; trust := trust r; enabled_ids := enabled_ids r;
  running_ids := running_ids r; starting_at := starting_at r; restart_counts := restart_counts r;
  failures := failures r; pids := pids r; chosen := chosen r; state_dir := state_dir r;
  owned_settings := owned_settings r; declared := declared r; pending_requests := pending_requests r;
  action_errors := action_errors r; diagnostics_of := diagnostics_of r; reviews := f (reviews r);
  store_dir := store_dir r; digest_cache := digest_cache r |}.
Definition on_cache f (r : PluginRegistry) : PluginRegistry := {|
  plugins := plugins r; unsupported := unsupported r; trust := trust r; enabled_ids := enabled_ids r;
  running_ids := running_ids r; starting_at := starting_at r; restart_counts := restart_counts r;
  failures := failures r; pids := pids r; chosen := chosen r; state_dir := state_dir r;
  owned_settings := owned_settings r; declared := declared r; pending_requests := pending_requests r;
  action_errors := action_errors r; diagnostics_of := diagnostics_of r; reviews := reviews r;
  store_dir := store_dir r; digest_cache := f (digest_cache r) |}.


Section registry.
Context {json : ManifestJson} {descriptors : Descriptors} {trust_json : TrustJson} {state_json : StateJson}.
(** [Path::display] *)
Context (display : rstring -> rstring).
Implicit Types (r : PluginRegistry) (w : Moment) (id : rstring).

Definition SETTINGS_FILE (directory id : rstring) : rstring := push (push directory id) (str "settings.json").
Definition read_state (files : Files) (directory id : rstring) : option SavedState :=
  files !! SETTINGS_FILE directory id ≫= state_from_json.
(** A failure is only logged *)
Definition write_state w (files : Files) (directory id : rstring) (state : SavedState) : Files :=
  match write_file (write_fails w) files (SETTINGS_FILE directory id) (state_to_json state) with
  | Ok files => files
  | Err _ => files
  end.

(** [daemon_executable.parent().unwrap_or_default()] *)
Definition daemon_directory (daemon_executable : rstring) : rstring := default [] (parent_path daemon_executable).
Definition discovered w (daemon_executable : rstring) (drop_in store : option rstring) : PluginRegistry :=
  let found := discover (disk w) (daemon_directory daemon_executable) drop_in store in
  {| plugins := found_plugins found; unsupported := found_unsupported found; trust := in_memory; enabled_ids := ∅;
     running_ids := ∅; starting_at := ∅; restart_counts := ∅; failures := ∅; pids := ∅; chosen := ∅; state_dir := None;
     owned_settings := ∅; declared := ∅; pending_requests := ∅; action_errors := ∅; diagnostics_of := ∅; reviews := [];
     store_dir := store; digest_cache := ∅ |}.
Definition APPROVALS_FILE (directory : rstring) : rstring := push directory (str "approvals.json").
Definition load_saved (files : Files) (directory : rstring) r (plugin : Discovered) : PluginRegistry :=
  let id := mf_id (found_manifest plugin) in
  match read_state files directory id with
  | None => r
  | Some saved =>
      let r := if saved_disabled saved then on_enabled (insert id false) r
               else if saved_enabled saved then on_enabled (insert id true) r else r in
      if bool_decide (saved_values saved = ∅) then r else on_chosen (insert id (saved_values saved)) r
  end.
Definition with_state_dir (files : Files) (directory : rstring) r : PluginRegistry :=
  let r := on_trust (fun _ => load files (APPROVALS_FILE directory)) r in
  on_state_dir (fun _ => Some directory) (foldl (load_saved files directory) r (plugins r)).

Definition find r id : option Discovered := List.find (fun p => bool_decide (mf_id (found_manifest p) = id)) (plugins r).
Definition is_bundled (p : Discovered) : bool := bool_decide (origin p = Origin.Bundled).
(** [Path::with_file_name] *)
Definition with_file_name (path name : rstring) : rstring :=
  match file_name path with
  | Some _ => push (default [] (parent_path path)) name
  | None => push path name
  end.
Definition manifest_path_of (p : Discovered) : rstring :=
  if bool_decide (found_path p = []) then with_file_name (found_executable p) (str "syntra-plugin.json") else found_path p.
Definition digest_of w (p : Discovered) : result rstring rstring :=
  let* (digest, _) := package_digest w (found_manifest p) (manifest_path_of p) (found_executable p) in Ok digest.

Definition running_plugins r : list rstring :=
  let ids := (map_to_list (pids r)).*1 ++ (List.filter (fun '(_, up) => up) (map_to_list (running_ids r))).*1 in
  remove_dups (merge_sort name_le ids).

Definition fingerprint w (p : Discovered) : Fingerprint :=
  let manifest_path := manifest_path_of p in
  let root := default [] (parent_path manifest_path) in
  (fun path => match stat w path with
               | Some (length, modified) => (path, Some length, modified)
               | None => (path, None, None)
               end) <$> manifest_path :: found_executable p :: (push root <$> mf_resources (found_manifest p)).
Definition cached_digest w (p : Discovered) r : PluginRegistry * result rstring rstring :=
  let now_fingerprint := fingerprint w p in
  let id := mf_id (found_manifest p) in
  let compute :=
    let digest := digest_of w p in
    (on_cache (insert id {| cached_fingerprint := now_fingerprint; cached := digest |}) r, digest) in
  match digest_cache r !! id with
  | Some entry => if bool_decide (cached_fingerprint entry = now_fingerprint) then (r, cached entry) else compute
  | None => compute
  end.
Definition trust_now w (p : Discovered) r : PluginRegistry * (Trust.t * rstring) :=
  if is_bundled p then (r, (Trust.Bundled, []))
  else
    let (r, digest) := cached_digest w p r in
    let digest := match digest with Ok digest => digest | Err _ => [] end in
    (r, (trust_of (trust r) (mf_id (found_manifest p)) digest false, digest)).

Definition is_enabled r id : bool :=
  match find r id with
  | None => false
  | Some plugin => default (is_bundled plugin) (enabled_ids r !! id)
  end.

(** ** Settings *)

Definition save_state w (files : Files) r id : Files :=
  match state_dir r with
  | None => files
  | Some directory =>
      write_state w files directory id
        {| saved_disabled := bool_decide (enabled_ids r !! id = Some false);
           saved_enabled := bool_decide (enabled_ids r !! id = Some true);
           saved_values := default ∅ (chosen r !! id) |}
  end.
Definition set_enabled w (files : Files) r id (on : bool) : Files * PluginRegistry * bool :=
  if bool_decide (find r id = None) then (files, r, false)
  else
    let r := on_pending (delete id) (on_enabled (insert id on) r) in
    let r := if on then r else on_running (insert id false) r in
    (save_state w files r id, r, true).
Definition settings_of r id : list (rstring * rstring) :=
  match find r id with
  | None => []
  | Some plugin =>
      (fun decl => (decl_key decl, effective decl (chosen r !! id ≫= fun values => values !! decl_key decl)))
        <$> mf_settings (found_manifest plugin)
  end.
Definition find_setting r id (key : rstring) : option SettingDecl :=
  plugin ← find r id; List.find (fun decl => bool_decide (decl_key decl = key)) (mf_settings (found_manifest plugin)).
Definition set_setting w (files : Files) r id (key value : rstring) : Files * PluginRegistry * bool :=
  let accepted := match find_setting r id key with Some decl => accepts decl value | None => false end in
  if accepted then
    let r := on_chosen (fun c => <[id := <[key := value]> (default ∅ (c !! id))]> c) r in
    (save_state w files r id, r, true)
  else (files, r, false).
Definition owns_settings r id : bool :=
  bool_decide (is_Some (owned_settings r !! id))
  || existsb (fun p => bool_decide (mf_id (found_manifest p) = id) && mf_owns_settings (found_manifest p)) (plugins r).
(** The first control of the key gets the value. *)
Fixpoint request_value (key value : rstring) (settings : list SettingControl) : option (list SettingControl) :=
  match settings with
  | [] => None
  | c :: settings =>
      if bool_decide (sc_key c = key) then
        Some ({| sc_key := sc_key c; sc_label := sc_label c; sc_kind := sc_kind c; sc_value := value;
                 sc_default := sc_default c |} :: settings)
      else cons c <$> request_value key value settings
  end.
Definition request_owned_setting r id (key value : rstring) : PluginRegistry * bool :=
  match owned_settings r !! id ≫= request_value key value with
  | Some settings => (on_owned (insert id settings) r, true)
  | None => (r, false)
  end.
Definition if_known r id (change : PluginRegistry -> PluginRegistry) : PluginRegistry :=
  if bool_decide (find r id = None) then r else change r.
Definition adopt_owned_settings r id (settings : list SettingControl) : PluginRegistry :=
  if_known r id (on_owned (insert id settings)).

(** ** Launching *)

Definition launch_plan w r id (wanted : option PluginRole.t) : result Refusal LaunchPlan :=
  match List.find (fun entry => bool_decide (un_id entry = Some id)) (unsupported r), find r id with
  | Some entry, None => Err (UnsupportedHere (str "needs a newer version"))
  | _, None => Err Unknown
  | _, Some plugin =>
      fail_if negb (is_enabled r id) with Disabled in
      fail_if negb (path_is_file (disk w) (found_executable plugin)) with NotInstalled in
      let* digest :=
        if is_bundled plugin then Ok []
        else
          match digest_of w plugin with
          | Err why => Err (Unreadable why)
          | Ok digest =>
              match trust_of (trust r) id digest false with
              | Trust.Approved => Ok digest
              | Trust.ChangedSinceApproval => Err Changed
              | _ => Err NotApproved
              end
          end in
      fail_if match wanted with Some wanted => negb (fills (mf_capabilities (found_manifest plugin)) wanted) | None => false end
        with UnsupportedHere (str "the plugin does not declare the capability for this role") in
      Ok {| plan_spec := {|
              executable := found_executable plugin; args := argv (found_manifest plugin);
              approved := mf_capabilities (found_manifest plugin);
              handshake_ids := mf_handshake_ids (found_manifest plugin); role := wanted; digest := digest;
              integrity := if is_bundled plugin then None
                           else Some {| manifest := found_manifest plugin; manifest_path := manifest_path_of plugin |} |};
            plan_settings := settings_of r id |}
  end.

(** ** Roles *)

Fixpoint candidates_among w (wanted : PluginRole.t) (l : list Discovered) r : PluginRegistry * list Candidate :=
  match l with
  | [] => (r, [])
  | plugin :: l =>
      if fills (mf_capabilities (found_manifest plugin)) wanted then
        let id := mf_id (found_manifest plugin) in
        let '(r, (t, _)) := trust_now w plugin r in
        let (r, rest) := candidates_among w wanted l r in
        (r, {| candidate_id := id; PluginRouting.bundled := is_bundled plugin; enabled := is_enabled r id;
               trusted := bool_decide (t = Trust.Bundled) || bool_decide (t = Trust.Approved);
               launchable := path_is_file (disk w) (found_executable plugin) |} :: rest)
      else candidates_among w wanted l r
  end.
Definition candidates w (wanted : PluginRole.t) r : PluginRegistry * list Candidate :=
  candidates_among w wanted (plugins r) r.
Definition active_provider w (wanted : PluginRole.t) r : PluginRegistry * option rstring :=
  let (r, l) := candidates w wanted r in
  (r, candidate_id <$> select_provider l (preferred (trust r) wanted)).
Definition set_role_preference w (files : Files) r (wanted : PluginRole.t) (id : option rstring)
    : Files * PluginRegistry * result rstring unit :=
  let provides :=
    match id with
    | Some id => match find r id with Some plugin => fills (mf_capabilities (found_manifest plugin)) wanted | None => false end
    | None => true
    end in
  if negb provides then (files, r, Err (str "that plugin does not provide this role"))
  else
    let '(files, t, result) := set_preferred (write_fails w) files (trust r) wanted id in
    (files, on_trust (fun _ => t) r, match result with Ok _ => Ok tt | Err error => Err (trust_error_text error) end).
Definition resident_plugins w r : PluginRegistry * list (rstring * PluginRole.t) :=
  let (r, provider) := active_provider w PluginRole.FileClipboard r in
  let wanted := match provider with Some id => [(id, PluginRole.FileClipboard)] | None => [] end in
  let (r, pointers) := candidates w PluginRole.Pointer r in
  (r, foldl (fun wanted c =>
        if eligible c && negb (existsb (fun '(id, _) => bool_decide (id = candidate_id c)) wanted)
        then wanted ++ [(candidate_id c, PluginRole.Pointer)] else wanted) wanted pointers).
Definition pointer_plugins w r : PluginRegistry * list rstring :=
  let (r, l) := candidates w PluginRole.Pointer r in (r, candidate_id <$> List.filter eligible l).
Definition listens_to_pointer r id : bool :=
  match find r id with Some plugin => pointer_events (mf_capabilities (found_manifest plugin)) | None => false end.
Definition is_on_demand r id : bool :=
  match find r id with Some plugin => mf_on_demand (found_manifest plugin) | None => false end.

(** ** Approval and lifecycle *)

Definition note_result id (result : result rstring unit) r : PluginRegistry :=
  on_errors (match result with Ok _ => delete id | Err reason => insert id reason end) (on_pending (delete id) r).
Definition mark_pending id (p : Pending.t) r : PluginRegistry := on_pending (insert id p) r.
Definition in_text (r : result TrustError unit) : result rstring unit :=
  match r with Ok _ => Ok tt | Err error => Err (trust_error_text error) end.
Definition approve w (files : Files) r id (shown : rstring) : Files * PluginRegistry * result rstring unit :=
  match find r id with
  | None => (files, r, Err (str "the plugin is not known"))
  | Some plugin =>
      if is_bundled plugin then (files, r, Err (str "a bundled plugin needs no approval"))
      else
        match digest_of w plugin with
        | Err why => (files, r, Err (str "cannot be checked: " ++ why))
        | Ok current =>
            let '(files, t, result) := approve_digest (write_fails w) files (trust r) id shown current in
            (files, note_result id (in_text result) (on_trust (fun _ => t) r), in_text result)
        end
  end.
Definition revoke w (files : Files) r id : Files * PluginRegistry * result rstring unit :=
  let '(files, t, result) := revoke_digest (write_fails w) files (trust r) id in
  (files, note_result id (in_text result) (on_trust (fun _ => t) r), in_text result).
Definition record_review (review : PluginReview) r : PluginRegistry :=
  let review := {|
    rv_path := rv_path review; rv_valid := rv_valid review; rv_error := rv_error review; rv_unsupported := rv_unsupported review;
    rv_id := rv_id review; rv_name := rv_name review; rv_version := rv_version review; rv_author := rv_author review;
    rv_source := rv_source review; rv_license := rv_license review; rv_executable := rv_executable review;
    rv_args := rv_args review; rv_mime_types := rv_mime_types review; rv_roles := rv_roles review;
    rv_pointer_events := rv_pointer_events review; rv_requires_live_mount := rv_requires_live_mount review;
    rv_digest := rv_digest review; rv_files := rv_files review;
    rv_replaces_existing := negb (bool_decide (rv_id review = [])) && negb (bool_decide (find r (rv_id review) = None)) |} in
  let kept := List.filter (fun existing => negb (bool_decide (rv_path existing = rv_path review))) (reviews r) ++ [review] in
  on_reviews (fun _ => if 8 <? len kept then tail kept else kept) r.
Definition resident_role_of w r id : PluginRegistry * option PluginRole.t :=
  let (r, wanted) := resident_plugins w r in (r, snd <$> List.find (fun '(other, _) => bool_decide (other = id)) wanted).
Definition forget_review id r : PluginRegistry :=
  on_reviews (List.filter (fun review => negb (bool_decide (rv_id review = id)))) r.

(** [inspect_package]: [is_dir] of what the user named *)
Definition inspect_package w (path_is_dir : bool) (path : rstring) : PluginReview :=
  let manifest_path := if path_is_dir then push path (str "syntra-plugin.json") else path in
  let review valid error unsupported id name version author source license executable args mimes roles pointer mount digest files := {|
    rv_path := display path; rv_valid := valid; rv_error := error; rv_unsupported := unsupported; rv_id := id; rv_name := name;
    rv_version := version; rv_author := author; rv_source := source; rv_license := license; rv_executable := executable;
    rv_args := args; rv_mime_types := mimes; rv_roles := roles; rv_pointer_events := pointer;
    rv_requires_live_mount := mount; rv_digest := digest; rv_files := files; rv_replaces_existing := false |} in
  let refused error unsupported id name :=
    review false (Some error) unsupported id name [] [] None None [] [] [] [] false false [] [] in
  match read_manifest (disk w) manifest_path Origin.DropIn with
  | Err error => refused error false [] []
  | Ok (inr entry) => refused (str "needs a newer version") true (default [] (un_id entry)) (default [] (un_name entry))
  | Ok (inl found) =>
      let m := found_manifest found in
      let shown valid error digest files :=
        review valid error false (mf_id m) (mf_name m) (mf_version m) (mf_author m) (mf_source m) (mf_license m)
          (display (found_executable found)) (argv m) (mime_types (mf_capabilities m)) (roles m)
          (pointer_events (mf_capabilities m)) (requires_live_mount (mf_capabilities m)) digest files in
      match package_digest w m manifest_path (found_executable found) with
      | Ok (digest, files) => shown true None digest files
      | Err error => shown false (Some error) [] []
      end
  end.

Definition is_unknown r id : bool := bool_decide (find r id = None).
Definition reload_chosen (files : Files) r (plugin : Discovered) : PluginRegistry :=
  let id := mf_id (found_manifest plugin) in
  match state_dir r with
  | None => r
  | Some directory =>
      if bool_decide (is_Some (chosen r !! id)) then r
      else
        match read_state files directory id with
        | Some saved => if bool_decide (saved_values saved = ∅) then r else on_chosen (insert id (saved_values saved)) r
        | None => r
        end
  end.
Definition rediscover w (files : Files) (daemon_executable : rstring) (drop_in : option rstring) r : PluginRegistry :=
  let found := discover (disk w) (daemon_directory daemon_executable) drop_in (store_dir r) in
  let r := on_unsupported (fun _ => found_unsupported found) (on_found (fun _ => found_plugins found) r) in
  foldl (reload_chosen files) r (plugins r).
Definition is_installed_package r id : bool :=
  match find r id with Some plugin => bool_decide (origin plugin = Origin.Installed) | None => false end.
Definition forget w (files : Files) r id : Files * PluginRegistry * result rstring unit :=
  let '(files, t, result) := forget_plugin (write_fails w) files (trust r) id in
  let r := on_trust (fun _ => t) r in
  match result with
  | Err error => (files, r, Err (trust_error_text error))
  | Ok _ =>
      (files,
       on_enabled (delete id) (on_lines (delete id) (on_pending (delete id) (on_declared (delete id) (on_owned (delete id)
         (on_pids (delete id) (on_failures (delete id) (on_restart_counts (delete id) (on_starting (delete id)
           (on_running (delete id) r))))))))), Ok tt)
  end.

(** ** Observed processes *)

Definition is_running r id : bool := default false (running_ids r !! id).
Definition set_running id (up : bool) r : PluginRegistry :=
  let r := on_running (insert id up) r in
  if up then on_failures (delete id) (on_starting (delete id) r) else r.
Definition set_starting w id (pid : Z) r : PluginRegistry :=
  on_pids (insert id pid) (on_running (insert id false) (on_starting (insert id (now w)) r)).
Definition set_stopped id r : PluginRegistry :=
  on_pids (delete id) (on_failures (delete id) (on_starting (delete id) (on_running (insert id false) r))).
Definition adopt_declared id (metadata : PluginMetadata) r : PluginRegistry := if_known r id (on_declared (insert id metadata)).
Definition set_diagnostics id (lines : list rstring) r : PluginRegistry := if_known r id (on_lines (insert id lines)).
Definition set_failed id (reason : rstring) r : PluginRegistry :=
  on_pids (delete id) (on_starting (delete id) (on_running (insert id false) (on_failures (insert id reason) r))).
Definition set_exited id (reason : rstring) r : PluginRegistry :=
  if is_on_demand r id then set_stopped id r else set_failed id reason r.
(** [u32]; overflow is not reached *)
Definition record_restart id r : PluginRegistry :=
  on_failures (delete id) (on_pids (delete id) (on_running (insert id false) (on_starting (delete id)
    (on_restart_counts (fun c => <[id := default 0 (c !! id) + 1]> c) r)))).

(** ** Presentation *)

Definition health w r id (installed on on_demand : bool) : Health.t :=
  if negb on then Health.Disabled
  else if bool_decide (is_Some (failures r !! id)) then Health.Failed
  else if is_running r id then
    if CRASH_LOOP_RESTARTS <=? default 0 (restart_counts r !! id) then Health.Unresponsive else Health.Healthy
  else
    match starting_at r !! id with
    | Some since => if now w - since <? HANDSHAKE_TIMEOUT then Health.Starting else Health.Unresponsive
    | None =>
        if negb installed then Health.NotInstalled else if on_demand then Health.OnDemand else Health.Stopped
    end.
Definition life (t : Trust.t) (installed on : bool) (h : Health.t) (on_demand : bool) : Life.t :=
  if negb installed then Life.Unsupported
  else
    match h with
    | Health.Failed | Health.Unresponsive => Life.Failed
    | Health.Starting => Life.Starting
    | Health.Healthy => if on_demand then Life.Running else Life.Ready
    | _ =>
        if negb (bool_decide (t = Trust.Bundled) || bool_decide (t = Trust.Approved)) then Life.Installed
        else if on then Life.Enabled else Life.Approved
    end.
Definition setting_status r id (decl : SettingDecl) : SettingControl := {|
  sc_key := decl_key decl; sc_label := decl_label decl;
  sc_kind :=
    if bool_decide (decl_kind decl = str "choice") then
      Choice ((fun o => {| so_value := choice_value o; so_label := choice_label o |}) <$> decl_options decl)
    else if bool_decide (decl_kind decl = str "color") then Color
    else if bool_decide (decl_kind decl = str "number") then let '(min, max) := range decl in Number min max
    else Toggle;
  sc_value := effective decl (chosen r !! id ≫= fun values => values !! decl_key decl);
  sc_default := decl_default decl |}.
Record PluginRoleStatus := {
  rs_role : PluginRole.t; rs_active : bool; rs_preferred : bool; rs_unavailable : option Unavailable }.
Fixpoint role_statuses_among w id (l : list PluginRole.t) r : PluginRegistry * list PluginRoleStatus :=
  match l with
  | [] => (r, [])
  | role :: l =>
      let (r, all) := candidates w role r in
      let (r, active) := active_provider w role r in
      let chosen := preferred (trust r) role in
      let me := List.find (fun c => bool_decide (candidate_id c = id)) all in
      let status := {|
        rs_role := role; rs_active := bool_decide (active = Some id); rs_preferred := bool_decide (chosen = Some id);
        rs_unavailable := me ≫= fun c => unavailable_reason c active chosen |} in
      let (r, rest) := role_statuses_among w id l r in (r, status :: rest)
  end.
Definition role_statuses w (p : Discovered) r : PluginRegistry * list PluginRoleStatus :=
  role_statuses_among w (mf_id (found_manifest p)) (roles (found_manifest p)) r.
(** What a running plugin said of itself is shown in place of its manifest. *)
Definition displayed_on_demand r (p : Discovered) : bool :=
  match declared r !! mf_id (found_manifest p) with
  | Some metadata => pm_on_demand metadata
  | None => mf_on_demand (found_manifest p)
  end.

(** The state of a plugin as the interface is told; the descriptive texts are left
    out. *)
Record PluginStatus := {
  ps_id : rstring; ps_health : Health.t; ps_pid : option Z; ps_restarts : Z; ps_bundled : bool; ps_owns_settings : bool;
  ps_settings : list SettingControl; ps_installed : bool; ps_enabled : bool; ps_running : bool; ps_error : option rstring;
  ps_trust : Trust.t; ps_origin : Origin.t; ps_digest : rstring; ps_approved_digest : option rstring;
  ps_roles : list PluginRoleStatus; ps_diagnostics : list rstring; ps_removable : bool; ps_state : Life.t;
  ps_pending : option Pending.t; ps_review : option PluginReview; ps_action_error : option rstring;
}.
Definition status_of w (p : Discovered) r : PluginRegistry * PluginStatus :=
  let id := mf_id (found_manifest p) in
  let installed := path_is_file (disk w) (found_executable p) in
  let on := is_enabled r id in
  let on_demand := displayed_on_demand r p in
  let h := health w r id installed on on_demand in
  let '(r, (t, digest)) := trust_now w p r in
  let hint :=
    if on then
      match t with
      | Trust.Unapproved => Some (refusal_text NotApproved)
      | Trust.ChangedSinceApproval => Some (refusal_text Changed)
      | _ => None
      end
    else None in
  let error :=
    match action_errors r !! id, failures r !! id with
    | Some reason, _ => Some reason
    | None, Some reason => Some reason
    | None, None =>
        if installed then hint
        else Some (display (found_executable p) ++ str " was not found; the plugin is declared but not installed")
    end in
  let (r, statuses) := role_statuses w p r in
  (r, {|
    ps_id := id; ps_health := h; ps_pid := pids r !! id; ps_restarts := default 0 (restart_counts r !! id);
    ps_bundled := is_bundled p; ps_owns_settings := owns_settings r id;
    ps_settings := match owned_settings r !! id with
                   | Some owned => owned
                   | None => setting_status r id <$> mf_settings (found_manifest p)
                   end;
    ps_installed := installed; ps_enabled := on; ps_running := installed && on && is_running r id; ps_error := error;
    ps_trust := t; ps_origin := origin p; ps_digest := digest; ps_approved_digest := approved_digest (trust r) id;
    ps_roles := statuses; ps_diagnostics := default [] (diagnostics_of r !! id);
    ps_removable := bool_decide (origin p = Origin.Installed); ps_state := life t installed on h on_demand;
    ps_pending := pending_requests r !! id; ps_review := None; ps_action_error := action_errors r !! id |}).
Definition unsupported_status (entry : Unsupported) : PluginStatus := {|
  ps_id := default [] (un_id entry); ps_health := Health.NotInstalled; ps_pid := None; ps_restarts := 0; ps_bundled := false;
  ps_owns_settings := false; ps_settings := []; ps_installed := false; ps_enabled := false; ps_running := false;
  ps_error := Some (str "needs a newer version"); ps_trust := Trust.Unapproved; ps_origin := un_origin entry; ps_digest := [];
  ps_approved_digest := None; ps_roles := []; ps_diagnostics := []; ps_removable := false; ps_state := Life.Unsupported;
  ps_pending := None; ps_review := None; ps_action_error := None |}.
Definition candidate_status (review : PluginReview) : PluginStatus := {|
  ps_id := rv_id review; ps_health := Health.NotInstalled; ps_pid := None; ps_restarts := 0; ps_bundled := false;
  ps_owns_settings := false; ps_settings := []; ps_installed := false; ps_enabled := false; ps_running := false;
  ps_error := rv_error review; ps_trust := Trust.Unapproved; ps_origin := Origin.DropIn; ps_digest := rv_digest review;
  ps_approved_digest := None; ps_roles := []; ps_diagnostics := []; ps_removable := false;
  ps_state := if rv_unsupported review then Life.Unsupported else Life.Installed;
  ps_pending := None; ps_review := Some review; ps_action_error := None |}.
Fixpoint statuses_of w (l : list Discovered) r : PluginRegistry * list PluginStatus :=
  match l with
  | [] => (r, [])
  | p :: l => let (r, status) := status_of w p r in let (r, rest) := statuses_of w l r in (r, status :: rest)
  end.
Definition snapshot w r : PluginRegistry * list PluginStatus :=
  let (r, l) := statuses_of w (plugins r) r in
  (r, l ++ (unsupported_status <$> unsupported r) ++ (candidate_status <$> reviews r)).
End registry.
