(* ===== verification/PluginService.v ===== *)
(** * Plugins: the daemon around the registry

    The plugin requests of [service/frontend.rs], the results of its blocking jobs,
    what [service/transfers.rs] notes of plugin processes, and the start of the main
    loop in [service/mod.rs]: which plugins are started and stopped.  A handler
    reads the [Moment]; what it does outside is a list of [PluginOutput]s. *)

From S2P Require Import Prelude Wire ProtoValid UnixPath FileOs FileTransfer PluginApi Manifest TransferService Supervisor PluginRouting PluginTrust PluginDiscovery PluginRegistry Actions.

Abbreviation ManagerCommand := Supervisor.ManagerCommand.

Record PluginDaemon := {
  registry : PluginRegistry;
  files : Files;
  (** [transfers.file_clipboard_adapter()] *)
  file_clipboard : rstring;
  (** [adapter_manager] *)
  manager : bool;
}.
Definition on_registry f (d : PluginDaemon) : PluginDaemon :=
  {| registry := f (registry d); files := files d; file_clipboard := file_clipboard d; manager := manager d |}.
Definition on_files f (d : PluginDaemon) : PluginDaemon :=
  {| registry := registry d; files := f (files d); file_clipboard := file_clipboard d; manager := manager d |}.
Definition on_clipboard f (d : PluginDaemon) : PluginDaemon :=
  {| registry := registry d; files := files d; file_clipboard := f (file_clipboard d); manager := manager d |}.

Inductive PluginOutput :=
| Send (command : ManagerCommand)
| Publish (plugins : list PluginStatus)
| SpawnReview (source : rstring)
| SpawnInstall (source store : rstring) (replacing : option rstring).

Inductive PluginRequest :=
| QueryPlugins
| SetPluginEnabled (id : rstring) (enabled : bool)
| RestartPluginRequest (id : rstring)
| SetPluginSetting (id key value : rstring)
| OpenPluginSettings (id : rstring) (theme : list (rstring * rstring))
| ReviewPlugin (path : rstring)
| InstallPlugin (path : rstring)
| UpdatePlugin (id path : rstring)
| ApprovePlugin (id digest : rstring)
| RevokePluginApproval (id : rstring)
| UninstallPlugin (id : rstring)
| SetPluginRolePreference (role : PluginRole.t) (id : option rstring).

Inductive PluginJob :=
| Reviewed (review : PluginReview)
| InstalledJob (id : rstring) (review : PluginReview) (result : result rstring unit).

Section service.
Context {json : ManifestJson} {descriptors : Descriptors} {trust_json : TrustJson} {state_json : StateJson}.
Context (display : rstring -> rstring).
(** [current_exe] and [config_dir] *)
Context (current_exe : rstring) (config_dir : option rstring).
Abbreviation action := (act PluginDaemon PluginOutput).
Implicit Types (w : Moment) (id : rstring).

Definition drop_in : option rstring := (fun directory => push directory (str "plugins")) <$> config_dir.
Definition plugin_store : option rstring := (fun directory => push directory (str "plugin-store")) <$> config_dir.
(** [Service::new]: the registry over what is on disk *)
Definition new_registry w (files : Files) : PluginRegistry :=
  let r := discovered w current_exe drop_in plugin_store in
  match config_dir with
  | Some directory => with_state_dir files (push directory (str "plugin-state")) r
  | None => r
  end.

Definition first_daemon w (files : Files) : PluginDaemon :=
  {| registry := new_registry w files; files := files; file_clipboard := []; manager := true |}.

(** Reading the registry may fill its cache. *)
Definition consult {A} (f : PluginRegistry -> PluginRegistry * A) (k : A -> action) : action :=
  fun d => let (r, a) := f (registry d) in k a (on_registry (fun _ => r) d).
(** A change that is saved *)
Definition saving {A} (f : Files -> PluginRegistry -> Files * PluginRegistry * A) (k : A -> action) : action :=
  fun d => let '(saved, r, a) := f (files d) (registry d) in k a (on_files (fun _ => saved) (on_registry (fun _ => r) d)).
Definition change (f : PluginRegistry -> PluginRegistry) : action := modify (on_registry f).
Definition registered (f : PluginRegistry -> action) : action := with_state (fun d => f (registry d)).

Definition send_plugin_command (command : ManagerCommand) : action :=
  with_state (fun d => only_when (manager d) (out (Send command))).
Definition publish_plugins w : action := consult (snapshot display w) (fun l => out (Publish l)).

Definition start_resident_plugin w id (role : option PluginRole.t) (restart : bool) : action :=
  registered (fun r =>
    match launch_plan w r id role with
    | Err Unknown | Err Disabled => nothing
    | Err refusal => change (note_result id (Err (refusal_text refusal)))
    | Ok plan =>
        only_when restart (send_plugin_command (Supervisor.StopPlugin id)) >>>
        change (note_result id (Ok tt)) >>>
        send_plugin_command (Supervisor.StartPlugin id (plan_spec plan) (plan_settings plan))
    end).
Definition sync_file_clipboard_provider w : action :=
  consult (active_provider w PluginRole.FileClipboard) (fun provider =>
    let provider := default [] provider in
    with_state (fun d => only_when (negb (bool_decide (file_clipboard d = provider))) (modify (on_clipboard (fun _ => provider))))).
Definition reconcile_plugins w : action :=
  consult (resident_plugins w) (fun wanted =>
    registered (fun r =>
      let running := running_plugins r in
      each (fun id =>
        registered (fun r =>
          only_when (negb (existsb (fun '(other, _) => bool_decide (other = id)) wanted) && negb (is_on_demand r id))
            (send_plugin_command (Supervisor.StopPlugin id)))) running >>>
      each (fun '(id, role) =>
        only_when (negb (bool_decide (id ∈ running))) (start_resident_plugin w id (Some role) false)) wanted >>>
      sync_file_clipboard_provider w)).
(** The start of [run] *)
Definition start_plugins w : action :=
  sync_file_clipboard_provider w >>>
  consult (resident_plugins w) (fun wanted =>
    each (fun '(id, role) => start_resident_plugin w id (Some role) false) wanted).

(** The part of [start_mounted_receive] that asks the registry *)
Definition start_mounted_receive w (m : RemoteManifest) : action :=
  consult (active_provider w PluginRole.MountedFileReceive) (fun provider =>
    match provider with
    | None => nothing
    | Some provider =>
        registered (fun r =>
          match launch_plan w r provider (Some PluginRole.MountedFileReceive) with
          | Err refusal => change (note_result provider (Err (refusal_text refusal))) >>> publish_plugins w
          | Ok plan => send_plugin_command (Supervisor.StartTransfer provider (plan_spec plan) m)
          end)
    end).

Definition plugin_action_failed w (id : option rstring) (reason : rstring) : action :=
  match id with Some id => change (note_result id (Err reason)) | None => nothing end >>> publish_plugins w.
Definition install_plugin w (source : rstring) (replacing : option rstring) : action :=
  registered (fun r =>
    match store_dir r with
    | None => plugin_action_failed w replacing (str "there is no place to install plugins on this system")
    | Some store =>
        let spawn := out (SpawnInstall source store replacing) in
        match replacing with
        | Some id =>
            if negb (is_installed_package r id) then
              plugin_action_failed w (Some id) (str "only a plugin installed by Syntra can be updated by Syntra")
            else
              change (mark_pending id Pending.Installing) >>>
              send_plugin_command (Supervisor.StopPlugin id) >>> publish_plugins w >>> spawn
        | None => spawn
        end
    end).
(** The blocking task of [install_plugin]; [copied] is the result of the copy *)
Definition install_job w (source_is_dir : bool) (source : rstring) (replacing : option rstring) (copied : result rstring unit)
    : PluginJob :=
  let review := inspect_package display w source_is_dir source in
  let outcome :=
    if negb (rv_valid review) then Err (default (str "the package is not valid") (rv_error review))
    else if match replacing with Some id => negb (bool_decide (id = rv_id review)) | None => false end
    then Err (str "the package is a different plugin than the one being updated")
    else copied in
  InstalledJob (if bool_decide (rv_id review = []) then default [] replacing else rv_id review) review outcome.
Definition rediscover_now w : action :=
  fun d => (on_registry (rediscover w (files d) current_exe drop_in) d, []).
Definition finish_plugin_job w (job : PluginJob) : action :=
  match job with
  | Reviewed review => change (record_review review)
  | InstalledJob id review result =>
      match result with
      | Ok _ => rediscover_now w >>> change (forget_review id)
      | Err _ =>
          registered (fun r => only_when (negb (rv_valid review) && is_unknown r id) (change (record_review review)))
      end >>>
      only_when (negb (bool_decide (id = []))) (change (note_result id result)) >>>
      reconcile_plugins w
  end >>>
  publish_plugins w.
(** [removed] is the result of deleting the package *)
Definition uninstall_plugin w id (removed : result rstring unit) : action :=
  let finish result := change (note_result id result) >>> reconcile_plugins w in
  registered (fun r =>
    if negb (is_installed_package r id) then finish (Err (str "only a plugin installed by Syntra can be uninstalled"))
    else
      match store_dir r with
      | None => finish (Err (str "there is no place to install plugins on this system"))
      | Some _ =>
          send_plugin_command (Supervisor.StopPlugin id) >>>
          match removed with
          | Err error => finish (Err error)
          | Ok _ =>
              saving (fun files r => forget w files r id) (fun result =>
                match result with
                | Err error => finish (Err error)
                | Ok _ => rediscover_now w >>> finish (Ok tt)
                end)
          end
      end).

(** The plugin arms of [handle_frontend_request] *)
Definition handle_plugin_request w (removed : result rstring unit) (request : PluginRequest) : action :=
  match request with
  | QueryPlugins => publish_plugins w
  | SetPluginEnabled id on =>
      saving (fun files r => set_enabled w files r id on) (fun known =>
        only_when known
          (only_when (negb on) (send_plugin_command (Supervisor.StopPlugin id)) >>> reconcile_plugins w)) >>>
      publish_plugins w
  | RestartPluginRequest id =>
      registered (fun r =>
        only_when (is_enabled r id)
          (change (record_restart id) >>>
           consult (fun r => resident_role_of w r id) (fun role => start_resident_plugin w id role true))) >>>
      publish_plugins w
  | SetPluginSetting id key value =>
      registered (fun r =>
        if owns_settings r id then
          consult (fun r => request_owned_setting r id key value) (fun shown =>
            only_when (negb shown) (saving (fun files r => set_setting w files r id key value) (fun _ => nothing))) >>>
          send_plugin_command (Supervisor.PluginChangeSetting id key value)
        else
          saving (fun files r => set_setting w files r id key value) (fun accepted =>
            only_when accepted
              (registered (fun r => only_when (is_running r id)
                 (send_plugin_command (Supervisor.PluginSettings id (settings_of r id))))))) >>>
      publish_plugins w
  | OpenPluginSettings id theme =>
      registered (fun r =>
        if negb (owns_settings r id) then nothing
        else if is_running r id then send_plugin_command (Supervisor.PluginOpenSettings id theme)
        else
          match launch_plan w r id None with
          | Ok plan => send_plugin_command (Supervisor.OpenSettingsWindow id (plan_spec plan) theme)
          | Err refusal => change (note_result id (Err (refusal_text refusal))) >>> publish_plugins w
          end)
  | ReviewPlugin path => out (SpawnReview path)
  | InstallPlugin path => install_plugin w path None
  | UpdatePlugin id path => install_plugin w path (Some id)
  | ApprovePlugin id digest =>
      change (mark_pending id Pending.Approving) >>>
      saving (fun files r => approve w files r id digest) (fun result => change (note_result id result)) >>>
      reconcile_plugins w >>> publish_plugins w
  | RevokePluginApproval id =>
      change (mark_pending id Pending.Revoking) >>>
      send_plugin_command (Supervisor.StopPlugin id) >>>
      saving (fun files r => revoke w files r id) (fun result => change (note_result id result)) >>>
      reconcile_plugins w >>> publish_plugins w
  | UninstallPlugin id =>
      change (mark_pending id Pending.Removing) >>> uninstall_plugin w id removed >>> publish_plugins w
  | SetPluginRolePreference role id =>
      saving (fun files r => set_role_preference w files r role id) (fun result =>
        match id with Some id => change (note_result id result) | None => nothing end) >>>
      reconcile_plugins w >>> publish_plugins w
  end.

(** The calls of [handle_adapter_event] on the registry *)
Definition apply_call w (call : RegistryCall) : action :=
  change (match call with
          | SetStarting id pid => set_starting w id pid
          | SetStopped id => set_stopped id
          | AdoptDeclared id metadata => adopt_declared id metadata
          | SetRunning id up => set_running id up
          | AdoptOwnedSettings id settings => fun r => adopt_owned_settings r id settings
          | SetDiagnostics id lines => set_diagnostics id lines
          | SetExited id status => set_exited id status
          | NoteRefusal id refusal => note_result id (Err refusal)
          end).
End service.
