(* ===== verification/PluginConsent.v ===== *)
(** * Plugins: what a launch relies on

    The part of the daemon's state that decides whether a plugin may start, and
    the actions that leave it as it is: what they start is switched on, and of the
    distribution or approved as it is on disk now. *)

From S2P Require Import Prelude Wire ProtoValid UnixPath FileOs FileTransfer PluginApi Manifest TransferService Supervisor PluginRouting PluginTrust PluginDiscovery PluginRegistry PluginService Actions.

(** ** Files of their own *)

Lemma safe_id_bytes id : is_safe_id id = true -> id <> [] /\ forall b, b ∈ id -> b <> SLASH.
Proof.
  unfold is_safe_id. intros H. boolsplit. split; [by intros ->|]. intros b Hb ->.
  match goal with H : forallb _ _ = true |- _ => rewrite forallb_forall in H; apply list_elem_of_In, H in Hb; done end.
Qed.
Lemma push_below (directory part : rstring) :
  starts_with SLASH part = false -> exists before, push directory part = before ++ part
    /\ forall other, starts_with SLASH other = false -> push directory other = before ++ other.
Proof.
  intros Hp. unfold push. rewrite Hp. destruct ((len directory =? 0) || ends_with SLASH directory).
  - exists directory. split; [done|]. by intros other ->.
  - exists (directory ++ [SLASH]). rewrite <- (assoc_L (++)). split; [done|]. intros other ->. by rewrite <- (assoc_L (++)).
Qed.
Lemma safe_id_start id : is_safe_id id = true -> starts_with SLASH id = false.
Proof.
  intros [Hne Hb]%safe_id_bytes. destruct id as [|b id]; [done|]. cbn. apply Z.eqb_neq. apply Hb. by left.
Qed.
Lemma settings_file_below directory id :
  is_safe_id id = true -> SETTINGS_FILE directory id = push directory id ++ SLASH :: str "settings.json".
Proof.
  intros Hid. destruct (safe_id_bytes id Hid) as [Hne Hb]. destruct (push_below directory id (safe_id_start id Hid)) as (before & E & _).
  unfold SETTINGS_FILE. rewrite E. unfold push at 1. change (starts_with SLASH (str "settings.json")) with false. cbv iota.
  replace (len (before ++ id) =? 0) with false.
  - replace (ends_with SLASH (before ++ id)) with false; [done|]. symmetry. unfold ends_with. rewrite last_app.
    destruct (last id) as [b|] eqn:El; [|by apply last_None in El]. apply Z.eqb_neq, Hb.
    apply last_Some in El as [l ->]. apply elem_of_app. right. by left.
  - symmetry. apply Z.eqb_neq. rewrite len_app. pose proof (len_nonneg before). destruct id; [done|]. rewrite len_cons.
    pose proof (len_nonneg id). lia.
Qed.
Lemma settings_file_inj directory id id' :
  is_safe_id id = true -> is_safe_id id' = true -> SETTINGS_FILE directory id = SETTINGS_FILE directory id' -> id = id'.
Proof.
  intros H H'. rewrite !settings_file_below by done. intros E%app_inj_2; [|done]. destruct E as [E _].
  destruct (push_below directory id (safe_id_start id H)) as (before & E1 & E2). rewrite E1, (E2 id') in E by by apply safe_id_start.
  by apply app_inv_head in E.
Qed.
Lemma settings_not_approvals directory id : is_safe_id id = true -> SETTINGS_FILE directory id <> APPROVALS_FILE directory.
Proof.
  intros H E. rewrite settings_file_below in E by done. unfold APPROVALS_FILE in E.
  destruct (push_below directory (str "approvals.json") eq_refl) as (before & E' & _). rewrite E' in E.
  apply app_inj_2 in E as [_ E]; done.
Qed.

(** ** What decides about launches *)

Record Core := {
  core_trust : TrustStore;
  core_enabled : gmap rstring bool;
  core_plugins : list Discovered;
  core_state_dir : option rstring;
  core_store_dir : option rstring;
  core_files : Files;
}.
Definition core_of (r : PluginRegistry) (files : Files) : Core := {|
  core_trust := trust r; core_enabled := enabled_ids r; core_plugins := plugins r; core_state_dir := state_dir r;
  core_store_dir := store_dir r; core_files := files |}.
Definition core (d : PluginDaemon) : Core := core_of (registry d) (files d).
Definition approvals (c : Core) : gmap rstring rstring := approved_digests (trust_record (core_trust c)).

(** The commands that start a process *)
Definition starts (o : PluginOutput) : option (rstring * LaunchSpec) :=
  match o with
  | Send (Supervisor.StartPlugin id spec _) | Send (Supervisor.StartTransfer id spec _)
  | Send (Supervisor.OpenSettingsWindow id spec _) => Some (id, spec)
  | _ => None
  end.

Section consent.
Context {json : ManifestJson} {descriptors : Descriptors} {trust_json : TrustJson} {state_json : StateJson}.
Context (display : rstring -> rstring).
Implicit Types (c : Core) (d : PluginDaemon) (w : Moment) (r : PluginRegistry).
Abbreviation action := (act PluginDaemon PluginOutput).

(** A specification made from a plugin that is switched on: one of the
    distribution, or one whose digest now is approved *)
Definition launch_ok w c (id : rstring) (spec : LaunchSpec) : Prop :=
  exists p, p ∈ core_plugins c /\ mf_id (found_manifest p) = id
    /\ executable spec = found_executable p /\ args spec = argv (found_manifest p)
    /\ Supervisor.approved spec = mf_capabilities (found_manifest p)
    /\ if is_bundled p then integrity spec = None
       else core_enabled c !! id = Some true
         /\ integrity spec = Some {| manifest := found_manifest p; manifest_path := manifest_path_of p |}
         /\ (exists names, package_digest w (found_manifest p) (manifest_path_of p) (found_executable p) = Ok (digest spec, names))
         /\ approvals c !! id = Some (digest spec).
Definition out_ok w c (o : PluginOutput) : Prop :=
  match starts o with Some (id, spec) => launch_ok w c id spec | None => True end.

Lemma find_in r id p : PluginRegistry.find r id = Some p -> p ∈ plugins r /\ mf_id (found_manifest p) = id.
Proof.
  unfold PluginRegistry.find. intros H. apply List.find_some in H as [H1 H2]. apply bool_decide_eq_true in H2.
  split; [by apply list_elem_of_In|done].
Qed.
Lemma launch_plan_ok w r files id role plan :
  launch_plan w r id role = Ok plan -> launch_ok w (core_of r files) id (plan_spec plan).
Proof.
  unfold launch_plan. destruct (PluginRegistry.find r id) as [p|] eqn:Ef; [|by destruct (List.find _ _)].
  assert (Hif : forall A (x : option Unsupported) (y : A), match x with Some _ | None => y end = y) by by intros ? [].
  rewrite Hif. destruct (is_enabled r id) eqn:Ee; [|done]. cbn [negb].
  destruct (path_is_file _ _); [|done]. cbn [negb]. destruct (find_in r id p Ef) as [Hin Hid].
  unfold is_enabled in Ee. rewrite Ef in Ee. destruct (is_bundled p) eqn:Eb.
  - destruct (match role with Some _ => _ | None => _ end); [done|]. intros [= <-]. exists p. cbn. rewrite Eb. done.
  - destruct (digest_of w p) as [dg|] eqn:Ed; [|done].
    destruct (trust_of (trust r) id dg false) eqn:Et; try done.
    destruct (match role with Some _ => _ | None => _ end); [done|]. intros [= <-]. exists p. cbn. rewrite Eb.
    split; [done|]. split; [done|]. split; [done|]. split; [done|]. split; [done|].
    split; [by destruct (enabled_ids r !! id) as [[]|]|]. split; [done|].
    unfold digest_of in Ed. destruct (package_digest w _ _ _) as [[dg' names]|] eqn:Ep; [|done]. injection Ed as ->.
    split; [by exists names|]. unfold trust_of in Et. unfold approvals. cbn.
    destruct (approved_digests (trust_record (trust r)) !! id) as [a|]; [|done].
    destruct (negb _ && bool_decide (a = dg)) eqn:Ea; [|done]. apply andb_prop in Ea as [_ Ea].
    by apply bool_decide_eq_true in Ea as ->.
Qed.

(** ** Actions that leave it as it is *)

Definition keeps w (a : action) : Prop := forall d, core (a d).1 = core d /\ Forall (out_ok w (core d)) (a d).2.
Definition same_core r r' : Prop := forall files, core_of r' files = core_of r files.

Lemma keeps_nothing w : keeps w nothing.
Proof. by intros d. Qed.
Lemma keeps_out w o : starts o = None -> keeps w (out o).
Proof. intros H d. split; [done|]. constructor; [|constructor]. unfold out_ok. by rewrite H. Qed.
Lemma keeps_next w a b : keeps w a -> keeps w b -> keeps w (a >>> b).
Proof.
  intros Ha Hb d. rewrite next_act_run. destruct (Ha d) as [H1 H2], (Hb (a d).1) as [H3 H4]. cbn. rewrite H3, H1 in *.
  split; [done|]. by apply Forall_app.
Qed.
Lemma keeps_only_when w b a : keeps w a -> keeps w (only_when b a).
Proof. destruct b; [done|]. intros _. apply keeps_nothing. Qed.
Lemma keeps_each w {A} (f : A -> action) l : (forall x, keeps w (f x)) -> keeps w (each f l).
Proof. intros H. induction l as [|x l IH]; [apply keeps_nothing|]. by apply keeps_next. Qed.
Lemma keeps_change w f : (forall r, same_core r (f r)) -> keeps w (change f).
Proof. intros H d. split; [|constructor]. apply H. Qed.
Lemma keeps_with w f : (forall d, keeps w (f d)) -> keeps w (with_state f).
Proof. intros H d. apply H. Qed.
Lemma keeps_registered w f : (forall r, keeps w (f r)) -> keeps w (registered f).
Proof. intros H. by apply keeps_with. Qed.
Lemma keeps_consult w {A} (f : PluginRegistry -> PluginRegistry * A) k :
  (forall r, same_core r (f r).1) -> (forall a, keeps w (k a)) -> keeps w (consult f k).
Proof.
  intros Hf Hk d. unfold consult. specialize (Hf (registry d)). destruct (f (registry d)) as [r a]. cbn in Hf.
  destruct (Hk a (on_registry (fun _ => r) d)) as [H1 H2]. unfold core in *. cbn [registry files on_registry] in *.
  rewrite Hf in *. done.
Qed.
Lemma keeps_command w command : starts (Send command) = None -> keeps w (send_plugin_command command).
Proof. intros H. apply keeps_with. intros d. by apply keeps_only_when, keeps_out. Qed.

Lemma same_core_refl r : same_core r r.
Proof. by intros files. Qed.
Lemma same_core_trans r1 r2 r3 : same_core r1 r2 -> same_core r2 r3 -> same_core r1 r3.
Proof. intros H1 H2 files. by rewrite H2, H1. Qed.
Lemma cached_digest_same w p r : same_core r (cached_digest w p r).1.
Proof. unfold cached_digest. repeat case_match; by intros files. Qed.
Lemma trust_now_same w p r : same_core r (trust_now w p r).1.
Proof.
  unfold trust_now. destruct (is_bundled p); [apply same_core_refl|]. pose proof (cached_digest_same w p r) as H.
  by destruct (cached_digest w p r).
Qed.
Lemma candidates_among_same w role l r : same_core r (candidates_among w role l r).1.
Proof.
  revert r. induction l as [|p l IH]; intros r; cbn; [apply same_core_refl|]. destruct (fills _ _); [|apply IH].
  pose proof (trust_now_same w p r) as H. destruct (trust_now w p r) as [r1 [t dg]]. specialize (IH r1).
  destruct (candidates_among w role l r1) as [r2 rest]. by eapply same_core_trans.
Qed.
Lemma candidates_same w role r : same_core r (candidates w role r).1.
Proof. apply candidates_among_same. Qed.
Lemma active_provider_same w role r : same_core r (active_provider w role r).1.
Proof. unfold active_provider. pose proof (candidates_same w role r) as H. by destruct (candidates w role r). Qed.
Lemma resident_plugins_same w r : same_core r (resident_plugins w r).1.
Proof.
  unfold resident_plugins. pose proof (active_provider_same w PluginRole.FileClipboard r) as H1.
  destruct (active_provider w _ r) as [r1 provider]. pose proof (candidates_same w PluginRole.Pointer r1) as H2.
  destruct (candidates w _ r1) as [r2 l]. by eapply same_core_trans.
Qed.
Lemma resident_role_same w id r : same_core r (resident_role_of w r id).1.
Proof. unfold resident_role_of. pose proof (resident_plugins_same w r) as H. by destruct (resident_plugins w r). Qed.
Lemma role_statuses_same w id l r : same_core r (role_statuses_among w id l r).1.
Proof.
  revert r. induction l as [|role l IH]; intros r; cbn; [apply same_core_refl|].
  pose proof (candidates_same w role r) as H1. destruct (candidates w role r) as [r1 all].
  pose proof (active_provider_same w role r1) as H2. destruct (active_provider w role r1) as [r2 active]. specialize (IH r2).
  destruct (role_statuses_among w id l r2). by eapply same_core_trans; [|eapply same_core_trans].
Qed.
Lemma status_of_same w p r : same_core r (status_of display w p r).1.
Proof.
  unfold status_of. pose proof (trust_now_same w p r) as H1. destruct (trust_now w p r) as [r1 [t dg]].
  unfold role_statuses. pose proof (role_statuses_same w (mf_id (found_manifest p)) (roles (found_manifest p)) r1) as H2.
  destruct (role_statuses_among _ _ _ r1). by eapply same_core_trans.
Qed.
Lemma snapshot_same w r : same_core r (snapshot display w r).1.
Proof.
  unfold snapshot. assert (H : forall l r, same_core r (statuses_of display w l r).1).
  { induction l as [|p l IH]; intros r0; cbn; [apply same_core_refl|]. pose proof (status_of_same w p r0) as H1.
    destruct (status_of display w p r0) as [r1 st]. specialize (IH r1). destruct (statuses_of display w l r1). by eapply same_core_trans. }
  specialize (H (plugins r) r). by destruct (statuses_of display w (plugins r) r).
Qed.

Lemma keeps_start w id role restart : keeps w (start_resident_plugin w id role restart).
Proof.
  intros d. unfold start_resident_plugin, registered, with_state.
  destruct (launch_plan w (registry d) id role) as [plan|refusal] eqn:E.
  - assert (Hc : keeps w (only_when restart (send_plugin_command (Supervisor.StopPlugin id)) >>> change (note_result id (Ok tt))))
      by (apply keeps_next; [by apply keeps_only_when, keeps_command|by apply keeps_change]).
    destruct (Hc d) as [H1 H2]. rewrite next_act_run in H1, H2. rewrite next_act_run, next_act_run. cbn [fst snd] in *.
    rewrite (assoc_L (++)). set (d1 := (change _ _).1) in *. unfold send_plugin_command, with_state.
    destruct (manager d1); cbn; [|rewrite app_nil_r; done]. split; [done|]. apply Forall_app. split; [done|].
    constructor; [|constructor]. unfold out_ok. cbn. by eapply launch_plan_ok.
  - assert (H : keeps w (change (note_result id (Err (refusal_text refusal))))) by by apply keeps_change.
    destruct refusal; try apply H; by apply keeps_nothing.
Qed.
Lemma keeps_publish w : keeps w (publish_plugins display w).
Proof. apply keeps_consult; [intros; apply snapshot_same|]. intros l. by apply keeps_out. Qed.
Lemma keeps_sync w : keeps w (sync_file_clipboard_provider w).
Proof.
  apply keeps_consult; [intros; apply active_provider_same|]. intros provider. apply keeps_with. intros d.
  apply keeps_only_when. intros d'. by split; [|constructor].
Qed.
Lemma keeps_reconcile w : keeps w (reconcile_plugins w).
Proof.
  apply keeps_consult; [intros; apply resident_plugins_same|]. intros wanted. apply keeps_registered. intros r.
  apply keeps_next; [|apply keeps_next; [|apply keeps_sync]].
  - apply keeps_each. intros id. apply keeps_registered. intros r'. by apply keeps_only_when, keeps_command.
  - apply keeps_each. intros [id role]. apply keeps_only_when, keeps_start.
Qed.
Lemma keeps_start_plugins w : keeps w (start_plugins w).
Proof.
  apply keeps_next; [apply keeps_sync|]. apply keeps_consult; [intros; apply resident_plugins_same|]. intros wanted.
  apply keeps_each. intros [id role]. apply keeps_start.
Qed.
(** A launch with a plan of the state it is sent from *)
Lemma keeps_planned w id role (command : LaunchPlan -> ManagerCommand) (other : Refusal -> action) :
  (forall plan, starts (Send (command plan)) = Some (id, plan_spec plan)) -> (forall refusal, keeps w (other refusal)) ->
  keeps w (registered (fun r => match launch_plan w r id role with
                                | Ok plan => send_plugin_command (command plan)
                                | Err refusal => other refusal
                                end)).
Proof.
  intros Hs Ho d. unfold registered, with_state. destruct (launch_plan w (registry d) id role) as [plan|refusal] eqn:E; [|apply Ho].
  unfold send_plugin_command, with_state. destruct (manager d); [|by apply keeps_nothing]. split; [done|].
  constructor; [|constructor]. unfold out_ok. rewrite Hs. by eapply launch_plan_ok.
Qed.
Lemma keeps_mounted w m : keeps w (PluginService.start_mounted_receive display w m).
Proof.
  apply keeps_consult; [intros; apply active_provider_same|]. intros [provider|]; [|apply keeps_nothing].
  apply (keeps_planned w provider (Some PluginRole.MountedFileReceive) (fun plan => Supervisor.StartTransfer provider (plan_spec plan) m)
    (fun refusal => change (note_result provider (Err (refusal_text refusal))) >>> publish_plugins display w)); [done|].
  intros refusal. apply keeps_next; [by apply keeps_change|apply keeps_publish].
Qed.
Lemma keeps_call w call : keeps w (apply_call w call).
Proof.
  apply keeps_change. intros r files. destruct call; cbn; try done;
    unfold set_running, adopt_declared, adopt_owned_settings, set_diagnostics, set_exited, if_known; repeat case_match; done.
Qed.
Lemma record_review_same review r : same_core r (record_review review r).
Proof. by intros files. Qed.
Lemma request_owned_same id key value r : same_core r (request_owned_setting r id key value).1.
Proof. unfold request_owned_setting. by destruct (_ ≫= _). Qed.

End consent.
