(* ===== verification/ConsentTheorems.v ===== *)
(** * Plugins: nothing starts without consent

    Every command of the daemon to start a plugin is for one of the distribution,
    or for one the user switched on and whose content, as it is on disk at that
    moment, the user approved by its digest and did not withdraw since: across
    installations, updates, failed writes and restarts of the daemon. *)

From stdpp Require Import sorting.
From S2P Require Import Prelude Wire ProtoValid UnixPath FileOs FileTransfer PluginApi Manifest TransferService Supervisor PluginRouting PluginTrust PluginDiscovery PluginRegistry PluginService Actions PluginConsent.

(** ** What the user decided *)

Inductive UserEvent :=
| SwitchedOn (id : rstring)
| ApprovedDigest (id digest : rstring)
| Withdrawn (id : rstring).
(** Approved, and not withdrawn after that *)
Definition approved_since (log : list UserEvent) (id digest : rstring) : Prop :=
  exists before after, log = before ++ ApprovedDigest id digest :: after /\ Withdrawn id ∉ after.
Lemma approved_since_more log events id digest :
  Withdrawn id ∉ events -> approved_since log id digest -> approved_since (log ++ events) id digest.
Proof.
  intros He (before & after & -> & Ha). exists before, (after ++ events). rewrite <- (assoc_L (++)). split; [done|].
  rewrite elem_of_app. tauto.
Qed.
Lemma approved_since_now log id digest : approved_since (log ++ [ApprovedDigest id digest]) id digest.
Proof. exists log, []. split; [done|]. by apply not_elem_of_nil. Qed.

(** What happens to the daemon: a request, with what deleting a package would
    give, the end of a blocking job, a note of a plugin process, a mounted transfer,
    the start of the main loop, a restart over the files that are left *)
Inductive Stimulus :=
| Requested (request : PluginRequest) (removed : result rstring unit)
| JobDone (job : PluginJob)
| Noted (call : RegistryCall)
| Mounted (m : RemoteManifest)
| Begun
| Restarted.

Section consent.
Context {json : ManifestJson} {descriptors : Descriptors} {trust_json : TrustJson} {state_json : StateJson}.
Context (display : rstring -> rstring) (current_exe : rstring) (config_dir : option rstring).
(** serde reads what it wrote. *)
Context (record_round_trip : forall r, record_from_json (record_to_json r) = Some r).
Context (state_round_trip : forall s, state_from_json (state_to_json s) = Some s).
Implicit Types (c : Core) (d : PluginDaemon) (w : Moment) (r : PluginRegistry).
Abbreviation action := (act PluginDaemon PluginOutput).

(** ** The invariant *)

(** Approvals are among [A], plugins switched on, now or in a file, among [S]; the
    file of approvals holds what the daemon believes; every plugin has a safe id,
    and those of the distribution are the built-in ones. *)
Record Inv (A : rstring -> rstring -> Prop) (S : rstring -> Prop) c : Prop := {
  inv_trust id dg : approvals c !! id = Some dg -> A id dg;
  inv_enabled id : core_enabled c !! id = Some true -> S id;
  inv_plugins p : p ∈ core_plugins c ->
    is_safe_id (mf_id (found_manifest p)) = true
    /\ (origin p = Origin.Bundled -> p ∈ PluginDiscovery.bundled (daemon_directory current_exe));
  inv_paths :
    match config_dir with
    | None => trust_path (core_trust c) = None /\ core_state_dir c = None
    | Some directory =>
        let state := push directory (str "plugin-state") in
        trust_path (core_trust c) = Some (APPROVALS_FILE state) /\ core_state_dir c = Some state
    end;
  inv_kept path : trust_path (core_trust c) = Some path ->
    default empty_record (core_files c !! path ≫= record_from_json) = trust_record (core_trust c);
  inv_saved directory id saved : core_state_dir c = Some directory -> is_safe_id id = true ->
    read_state (core_files c) directory id = Some saved -> saved_enabled saved = true -> S id;
}.
Lemma inv_mono (A A' : rstring -> rstring -> Prop) (S S' : rstring -> Prop) c :
  (forall id dg, A id dg -> A' id dg) -> (forall id, S id -> S' id) -> Inv A S c -> Inv A' S' c.
Proof. intros HA HS []. split; eauto. Qed.
Lemma inv_approvals_path A S c path directory :
  Inv A S c -> trust_path (core_trust c) = Some path -> core_state_dir c = Some directory -> path = APPROVALS_FILE directory.
Proof.
  intros I. pose proof (inv_paths _ _ _ I) as H. destruct config_dir; destruct H as [H1 H2]; congruence.
Qed.

Ltac core_simpl :=
  cbn [core core_of core_trust core_enabled core_plugins core_state_dir core_store_dir core_files trust_path trust_record on_trust trust
       enabled_ids plugins state_dir on_enabled on_chosen on_found on_unsupported registry files on_registry on_files] in *.
Lemma file_written (files : Files) path text : <[path := text]> files !! path = Some text.
Proof. apply lookup_insert_eq. Qed.
Lemma file_other (files : Files) path path' text : path <> path' -> <[path := text]> files !! path' = files !! path'.
Proof. apply lookup_insert_ne. Qed.
Lemma inv_restrict A (A' : rstring -> rstring -> Prop) S c :
  Inv A S c -> (forall id dg, approvals c !! id = Some dg -> A' id dg) -> Inv A' S c.
Proof. by intros [] ?; split. Qed.
(** A committed change of the approvals *)
Lemma commit_record fails files t f files' t' res :
  commit fails files t f = (files', t', res) -> trust_record t' = if is_ok res then f (trust_record t) else trust_record t.
Proof. unfold commit. intros Hc. repeat case_match; by injection Hc as <- <- <-. Qed.
Lemma inv_commit (A A' : rstring -> rstring -> Prop) S r files fails (f : TrustRecord -> TrustRecord) files' t res :
  Inv A S (core_of r files) -> commit fails files (trust r) f = (files', t, res) ->
  (forall id dg, approved_digests (trust_record t) !! id = Some dg -> A' id dg) ->
  Inv A' S (core_of (on_trust (fun _ => t) r) files').
Proof using record_round_trip.
  intros I Hc Hf. unfold commit in Hc. destruct (trust_path (trust r)) as [path|] eqn:Ep.
  - unfold write_file in Hc. destruct (fails path) as [kind|]; injection Hc as <- <- <-.
    + destruct I. by split.
    + pose proof I as []. core_simpl. split; core_simpl; try done.
      * by rewrite Ep in *.
      * intros q Hq. injection Hq as <-. rewrite file_written. cbn. by rewrite record_round_trip.
      * intros directory id saved Hd Hid. unfold read_state. rewrite file_other; [by apply inv_saved0|].
        rewrite (inv_approvals_path _ _ _ path directory I) by done. intros E. by eapply settings_not_approvals.
  - injection Hc as <- <- <-. destruct I. core_simpl. rewrite Ep in *. by split.
Qed.

Lemma inv_approve (A : rstring -> rstring -> Prop) S w r files id shown :
  Inv A S (core_of r files) -> A id shown ->
  let '(files', r', _) := approve w files r id shown in Inv A S (core_of r' files').
Proof using record_round_trip.
  intros I Ha. unfold approve. destruct (PluginRegistry.find r id) as [p|]; [|done]. destruct (is_bundled p); [done|].
  destruct (digest_of w p) as [current|]; [|done]. unfold approve_digest.
  destruct (bool_decide (shown = []) || _); [by destruct r|].
  destruct (commit _ _ _ _) as [[files' t] res] eqn:Ec. pose proof (commit_record _ _ _ _ _ _ _ Ec) as Er.
  apply (inv_commit A A S r files) in Ec; [exact Ec|done|]. intros id' dg. rewrite Er. destruct (is_ok res); [|apply I].
  cbn. intros [[<- <-]|[_ H]]%lookup_insert_Some; [done|]. by apply (inv_trust _ _ _ I).
Qed.
(** A withdrawal that succeeds leaves no approval of the plugin. *)
Lemma inv_revoke (A : rstring -> rstring -> Prop) S w r files id :
  Inv A S (core_of r files) ->
  let '(files', r', res) := revoke w files r id in
  Inv (fun id' dg => A id' dg /\ (is_ok res = true -> id' <> id)) S (core_of r' files').
Proof using record_round_trip.
  intros I. unfold revoke, revoke_digest. destruct (negb _).
  { cbn. destruct r. eapply inv_mono; [| |exact I]; [|done]. cbn. by intros. }
  destruct (commit _ _ _ _) as [[files' t] res] eqn:Ec. pose proof (commit_record _ _ _ _ _ _ _ Ec) as Er.
  assert (Eo : is_ok (in_text res) = is_ok res) by by destruct res.
  eapply (inv_commit A) in Ec; [exact Ec|done|]. intros id' dg. rewrite Er, Eo. destruct (is_ok res).
  - cbn. intros [? H]%lookup_delete_Some. split; [by apply (inv_trust _ _ _ I)|done].
  - intros H. split; [by apply (inv_trust _ _ _ I)|done].
Qed.
Lemma inv_forget (A : rstring -> rstring -> Prop) (S : rstring -> Prop) w r files id :
  Inv A S (core_of r files) ->
  let '(files', r', res) := forget w files r id in
  Inv (fun id' dg => A id' dg /\ (is_ok res = true -> id' <> id)) S (core_of r' files').
Proof using record_round_trip.
  intros I. unfold forget, forget_plugin.
  assert (Hd : forall A' r' r'' files', Inv A' S (core_of r' files') ->
      core_of r'' files' = core_of (on_enabled (delete id) r') files' -> Inv A' S (core_of r'' files')).
  { intros A' r' r'' files' I' ->. destruct I'. split; core_simpl; try done. intros id' [_ H]%lookup_delete_Some. by apply inv_enabled0. }
  destruct (negb _ && _) eqn:En.
  { apply andb_prop in En as [En _]. apply negb_true_iff, bool_decide_eq_false in En. cbn.
    eapply (Hd _ r); [|by destruct r]. apply (inv_restrict A); [done|]. intros id' dg H. split; [by apply I|].
    intros _ ->. apply En. by exists dg. }
  destruct (commit _ _ _ _) as [[files' t] res] eqn:Ec. pose proof (commit_record _ _ _ _ _ _ _ Ec) as Er.
  destruct res as [[]|error]; cbn in Er.
  - eapply Hd; [|reflexivity]. eapply (inv_commit A) in Ec; [exact Ec|done|]. intros id' dg. rewrite Er. cbn.
    intros [? H]%lookup_delete_Some. split; [by apply (inv_trust _ _ _ I)|done].
  - eapply (inv_commit A) in Ec; [exact Ec|done|]. intros id' dg. rewrite Er. split; [by apply (inv_trust _ _ _ I)|done].
Qed.
Lemma inv_prefer A S w r files role id :
  Inv A S (core_of r files) ->
  let '(files', r', _) := set_role_preference w files r role id in Inv A S (core_of r' files').
Proof using record_round_trip.
  intros I. unfold set_role_preference. destruct (negb _); [done|]. unfold set_preferred.
  destruct (commit _ _ _ _) as [[files' t] res] eqn:Ec. pose proof (commit_record _ _ _ _ _ _ _ Ec) as Er.
  eapply (inv_commit A A) in Ec; [exact Ec|done|]. intros id' dg. rewrite Er. destruct (is_ok res); apply I.
Qed.

Lemma inv_save_state A S w r files id :
  is_safe_id id = true -> Inv A S (core_of r files) -> Inv A S (core_of r (save_state w files r id)).
Proof using state_round_trip.
  intros Hid I. pose proof I as []. unfold save_state. destruct (state_dir r) as [directory|] eqn:Ed; [|done].
  unfold write_state, write_file. destruct (write_fails w _); [done|]. split; try done; core_simpl.
  - intros path Hp. rewrite file_other; [by apply inv_kept0|].
    rewrite (inv_approvals_path _ _ _ path directory I) by done. by apply settings_not_approvals.
  - intros directory' id' saved Hd Hid'. rewrite Ed in Hd. injection Hd as <-. unfold read_state.
    destruct (decide (id = id')) as [<-|Hne].
    + rewrite file_written. cbn. rewrite state_round_trip. intros [= <-]. cbn. intros H%bool_decide_eq_true. by apply inv_enabled0.
    + rewrite file_other; [by apply inv_saved0|]. intros E. by apply Hne, (settings_file_inj directory).
Qed.
Lemma known_safe A S r files id p : Inv A S (core_of r files) -> PluginRegistry.find r id = Some p -> is_safe_id id = true.
Proof. intros I [Hp <-]%find_in. by apply (inv_plugins _ _ _ I). Qed.
Lemma inv_switch A (S : rstring -> Prop) w r files id on :
  Inv A S (core_of r files) -> (on = true -> S id) ->
  let '(files', r', _) := set_enabled w files r id on in Inv A S (core_of r' files').
Proof using state_round_trip.
  intros I Hs. unfold set_enabled. destruct (PluginRegistry.find r id) as [p|] eqn:Ef; [|done]. cbn [bool_decide decide].
  rewrite bool_decide_false by done. apply inv_save_state; [by eapply known_safe|].
  assert (I' : Inv A S (core_of (on_enabled (insert id on) r) files)).
  { destruct I. split; core_simpl; try done. intros id' [[<- ->]|[_ H]]%lookup_insert_Some; [by apply Hs|by apply inv_enabled0]. }
  by destruct on.
Qed.
Lemma inv_set_setting A S w r files id key value :
  Inv A S (core_of r files) ->
  let '(files', r', _) := set_setting w files r id key value in Inv A S (core_of r' files').
Proof using state_round_trip.
  intros I. unfold set_setting, find_setting. destruct (PluginRegistry.find r id) as [p|] eqn:Ef; [|done]. cbn.
  destruct (match List.find _ _ with Some _ => _ | None => _ end); [|done].
  apply inv_save_state; [by eapply known_safe|]. done.
Qed.

(** ** Finding plugins *)

Lemma parse_safe text m : parse text = Ok (Valid m) -> is_safe_id (mf_id m) = true.
Proof.
  unfold parse. destruct (json_from_str text) as [value|]; [|done]. destruct (get_u64 value _); [|done].
  destruct (_ || _); [done|]. destruct (manifest_from_value value) as [m'|]; [|done].
  destruct (validate m') as [[]|] eqn:Ev; [|done]. intros [= <-]. unfold validate in Ev.
  destruct (negb (_ =? _) || _); [done|]. by destruct (is_safe_id (mf_id m')).
Qed.
Abbreviation sound := (fun p => is_safe_id (mf_id (found_manifest p)) = true
  /\ (origin p = Origin.Bundled -> p ∈ PluginDiscovery.bundled (daemon_directory current_exe))).
Lemma bundled_sound : Forall sound (PluginDiscovery.bundled (daemon_directory current_exe)).
Proof.
  apply Forall_forall. intros p Hp. split; [|done]. unfold PluginDiscovery.bundled in Hp.
  apply list_elem_of_omap in Hp as ([[id text] program] & _ & H). destruct (parse text) as [[m|]|] eqn:Ep; try done.
  case_bool_decide; [|done]. injection H as <-. by apply parse_safe in Ep.
Qed.
Lemma read_directory_sound disk directory from :
  from <> Origin.Bundled -> Forall sound (read_directory disk directory from).1.
Proof.
  intros Hf. unfold read_directory. destruct (dir_entries disk directory) as [entries|]; [|constructor]. cbn [fst].
  rewrite merge_sort_Permutation. apply Forall_forall. intros p Hp.
  apply list_elem_of_omap in Hp as (read & Hread & H). destruct read as [p'|]; [|done]. injection H as ->.
  apply list_elem_of_omap in Hread as (path & _ & H). destruct (read_manifest disk path from) as [read|] eqn:Er; [|done].
  injection H as ->. unfold read_manifest in Er. destruct (file_info disk path) as [[? ?]|]; [|done].
  destruct (_ || _); [done|]. destruct (file_text disk path); [|done].
  destruct (parse _) as [[m|]|] eqn:Ep; try done. injection Er as <-. split; [by apply parse_safe in Ep|done].
Qed.
Lemma place_sound (P : Discovered -> Prop) p l : P p -> Forall P l -> Forall P (place p l).
Proof. intros Hp. induction 1; cbn; [by constructor|]. case_bool_decide; by constructor. Qed.
Lemma add_directory_sound disk found directory from :
  from <> Origin.Bundled -> Forall sound (found_plugins found) -> Forall sound (found_plugins (add_directory disk found directory from)).
Proof.
  intros Hf H. destruct directory as [directory|]; [|done]. cbn. pose proof (read_directory_sound disk directory from Hf) as Hd.
  destruct (read_directory disk directory from) as [l ?]. cbn in *. revert H. generalize (found_plugins found).
  induction Hd as [|p l Hp _ IH]; intros base H; [done|]. cbn. apply IH. by apply place_sound.
Qed.
Lemma discover_sound disk drop_in store :
  Forall sound (found_plugins (discover disk (daemon_directory current_exe) drop_in store)).
Proof. unfold discover. do 2 (apply add_directory_sound; [done|]). apply bundled_sound. Qed.

Lemma reload_chosen_same files l r : same_core r (foldl (reload_chosen files) r l).
Proof.
  revert r. induction l as [|p l IH]; intros r; [apply same_core_refl|]. cbn. eapply same_core_trans; [|apply IH].
  intros files'. unfold reload_chosen. by repeat case_match.
Qed.
Lemma inv_rediscover A S w r files drop_in :
  Inv A S (core_of r files) -> Inv A S (core_of (rediscover w files current_exe drop_in r) files).
Proof.
  intros I. unfold rediscover. rewrite (reload_chosen_same files). destruct I. split; core_simpl; try done.
  intros p Hp. eapply (proj1 (Forall_forall sound _)) in Hp; [exact Hp|]. apply discover_sound.
Qed.
Lemma load_saved_core files directory l r :
  let r' := foldl (load_saved files directory) r l in
  plugins r' = plugins r /\ trust r' = trust r
  /\ forall id, enabled_ids r' !! id = Some true -> enabled_ids r !! id = Some true
       \/ exists p saved, p ∈ l /\ mf_id (found_manifest p) = id /\ read_state files directory id = Some saved /\ saved_enabled saved = true.
Proof.
  revert r. induction l as [|p l IH]; intros r; cbn; [by split; [|split; [|left]]|].
  destruct (IH (load_saved files directory r p)) as (E1 & E2 & E3). clear IH. cbn in E1, E2. rewrite E1, E2.
  unfold load_saved in *. destruct (read_state files directory _) as [saved|] eqn:Es.
  - split; [by repeat case_match|]. split; [by repeat case_match|]. intros id H. apply E3 in H as [H|(q & s' & Hq & H)].
    + assert (H' : enabled_ids (if saved_disabled saved then on_enabled (insert (mf_id (found_manifest p)) false) r
                      else if saved_enabled saved then on_enabled (insert (mf_id (found_manifest p)) true) r else r) !! id = Some true)
        by by destruct (bool_decide _).
      destruct (saved_disabled saved); [|destruct (saved_enabled saved) eqn:Ee].
      * core_simpl. apply lookup_insert_Some in H' as [[_ ?]|[_ ?]]; [done|by left].
      * core_simpl. apply lookup_insert_Some in H' as [[<- _]|[_ ?]]; [|by left]. right. exists p, saved. split; [by left|done].
      * by left.
    + right. exists q, s'. split; [by right|done].
  - split; [done|]. split; [done|]. intros id H. apply E3 in H as [H|(q & s' & Hq & H)]; [by left|].
    right. exists q, s'. split; [by right|done].
Qed.
(** A daemon that starts over the files of an earlier one *)
Lemma inv_new_registry A S w r files :
  Inv A S (core_of r files) -> Inv A S (core_of (new_registry current_exe config_dir w files) files).
Proof.
  intros I. pose proof (inv_paths _ _ _ I) as Hp. unfold new_registry.
  pose proof (discover_sound (disk w) (drop_in config_dir) (plugin_store config_dir)) as Hs. rewrite Forall_forall in Hs.
  destruct config_dir as [directory|] eqn:Ec.
  - cbn in Hp. destruct Hp as [Hp Hd]. pose proof (inv_kept _ _ _ I _ Hp) as Hk. core_simpl.
    set (state := push directory _) in *. unfold with_state_dir. core_simpl.
    set (r0 := on_trust _ _). destruct (load_saved_core files state (plugins r0) r0) as (E1 & E2 & E3).
    set (r1 := foldl _ _ _) in *.
    assert (E : core_of (on_state_dir (fun _ => Some state) r1) files = {|
        core_trust := trust r; core_enabled := enabled_ids r1; core_plugins := plugins r0;
        core_state_dir := Some state; core_store_dir := store_dir r1; core_files := files |}).
    { unfold core_of. cbn [on_state_dir trust enabled_ids plugins state_dir store_dir]. rewrite E1, E2. f_equal. unfold r0, load.
      cbn [trust on_trust]. rewrite Hk, <- Hp. by destruct (trust r). }
    rewrite E. split; core_simpl; try done.
    + apply (inv_trust _ _ _ I).
    + intros id H. apply E3 in H as [H|(p & saved & Hin & <- & Hr & He)]; [change ((∅ : gmap rstring bool) !! id = Some true) in H; by rewrite lookup_empty in H|].
      eapply (inv_saved _ _ _ I); [exact Hd| |exact Hr|exact He]. by apply Hs.
    + by rewrite Ec.
    + intros path Hq. core_simpl. rewrite Hp in Hq. injection Hq as <-. exact Hk.
    + intros directory' id saved [= <-]. by apply (inv_saved _ _ _ I).
  - split; core_simpl; try done.
    by rewrite Ec.
Qed.
Lemma inv_first w : Inv (fun _ _ => False) (fun _ => False) (core_of (new_registry current_exe config_dir w ∅) ∅).
Proof.
  pose (r := discovered w current_exe (drop_in config_dir) (plugin_store config_dir)).
  pose (state := (fun directory => push directory (str "plugin-state")) <$> config_dir).
  apply (inv_new_registry _ _ w (on_state_dir (fun _ => state)
    (on_trust (fun _ => {| trust_path := APPROVALS_FILE <$> state; trust_record := empty_record |}) r))).
  split; core_simpl; cbn [on_state_dir trust enabled_ids plugins state_dir].
  - intros id dg H. change ((∅ : gmap rstring rstring) !! id = Some dg) in H. by rewrite lookup_empty in H.
  - intros id H. change ((∅ : gmap rstring bool) !! id = Some true) in H. by rewrite lookup_empty in H.
  - intros p Hp. eapply (proj1 (Forall_forall sound _)) in Hp; [exact Hp|]. apply discover_sound.
  - unfold state. by destruct config_dir.
  - done.
  - done.
Qed.

(** ** Actions that change it first *)

Definition settled w (J : Core -> Prop) (a : action) d : Prop :=
  J (core (a d).1) /\ Forall (out_ok w (core (a d).1)) (a d).2.
Definition settles w (I J : Core -> Prop) (a : action) : Prop := forall d, I (core d) -> settled w J a d.
Definition silent (a : action) : Prop := forall d, core (a d).1 = core d /\ Forall (fun o => starts o = None) (a d).2.

Lemma out_ok_silent w c l : Forall (fun o => starts o = None) l -> Forall (out_ok w c) l.
Proof. intros Hl. eapply Forall_impl; [exact Hl|]. intros o H. unfold out_ok. by rewrite H. Qed.
Lemma settles_kept w (I : Core -> Prop) a : keeps w a -> settles w I I a.
Proof. intros H d Hd. destruct (H d) as [H1 H2]. unfold settled. by rewrite H1. Qed.
Lemma settles_then w I J a b : settles w I J a -> keeps w b -> settles w I J (a >>> b).
Proof.
  intros Ha Hb d Hd. unfold settled. rewrite next_act_run. destruct (Ha d Hd) as [H1 H2], (Hb (a d).1) as [H3 H4]. cbn. rewrite H3.
  split; [done|]. by apply Forall_app.
Qed.
Lemma settles_after w I J a b : silent a -> settles w I J b -> settles w I J (a >>> b).
Proof.
  intros Ha Hb d Hd. unfold settled. rewrite next_act_run. destruct (Ha d) as [H1 H2]. rewrite <- H1 in Hd. destruct (Hb _ Hd) as [H3 H4]. cbn.
  split; [done|]. apply Forall_app. split; [by apply out_ok_silent|done].
Qed.
Lemma settles_saving {A} w I J K (f : Files -> PluginRegistry -> Files * PluginRegistry * A) k :
  (forall files r, I (core_of r files) -> let '(files', r', a) := f files r in J a (core_of r' files')) ->
  (forall a, settles w (J a) K (k a)) -> settles w I K (saving f k).
Proof.
  intros Hf Hk d Hd. unfold settled, saving. specialize (Hf (files d) (registry d) Hd). destruct (f (files d) (registry d)) as [[saved r] a].
  by apply Hk.
Qed.
Lemma settles_registered w I J f : (forall r, settles w I J (f r)) -> settles w I J (registered f).
Proof. intros H d Hd. by apply H. Qed.
Lemma settles_when w (I : Core -> Prop) b a : settles w I I a -> settles w I I (only_when b a).
Proof. destruct b; [done|]. intros _. apply settles_kept, keeps_nothing. Qed.
Lemma settles_consult {A} w I J (f : PluginRegistry -> PluginRegistry * A) k :
  (forall r, same_core r (f r).1) -> (forall a, settles w I J (k a)) -> settles w I J (consult f k).
Proof.
  intros Hf Hk d Hd. unfold settled, consult. specialize (Hf (registry d)). destruct (f (registry d)) as [r a]. apply Hk.
  unfold core. cbn [registry PluginService.files on_registry]. by rewrite Hf.
Qed.
Lemma settles_rediscover A S w : settles w (Inv A S) (Inv A S) (rediscover_now current_exe config_dir w).
Proof. intros d Hd. split; [|constructor]. by apply inv_rediscover. Qed.
Lemma silent_change f : (forall r, same_core r (f r)) -> silent (change f).
Proof. intros H d. split; [|constructor]. apply H. Qed.
Lemma silent_send command : starts (Send command) = None -> silent (send_plugin_command command).
Proof. intros H d. unfold send_plugin_command, with_state. destruct (manager d); (split; [done|]); by repeat constructor. Qed.

(** ** The handlers *)

Lemma settles_switch A (S : rstring -> Prop) w id on removed :
  (on = true -> S id) ->
  settles w (Inv A S) (Inv A S) (handle_plugin_request display current_exe config_dir w removed (SetPluginEnabled id on)).
Proof using state_round_trip.
  intros Hs. apply settles_then; [|apply keeps_publish]. eapply (settles_saving _ _ (fun _ => Inv A S)).
  - intros files r I. by apply inv_switch.
  - intros known. apply settles_kept, keeps_only_when, keeps_next; [by apply keeps_only_when, keeps_command|apply keeps_reconcile].
Qed.
Lemma settles_setting A S w id key value removed :
  settles w (Inv A S) (Inv A S) (handle_plugin_request display current_exe config_dir w removed (SetPluginSetting id key value)).
Proof using state_round_trip.
  apply settles_then; [|apply keeps_publish]. apply settles_registered. intros r. destruct (owns_settings r id).
  - apply settles_then; [|by apply keeps_command]. apply settles_consult; [intros; apply request_owned_same|]. intros shown.
    apply settles_when. eapply (settles_saving _ _ (fun _ => Inv A S)); [intros; by apply inv_set_setting|].
    intros _. apply settles_kept, keeps_nothing.
  - eapply (settles_saving _ _ (fun _ => Inv A S)); [intros; by apply inv_set_setting|].
    intros accepted. apply settles_kept, keeps_only_when, keeps_registered. intros r'. by apply keeps_only_when, keeps_command.
Qed.
Lemma keeps_finish w : keeps w (reconcile_plugins w >>> publish_plugins display w).
Proof. apply keeps_next; [apply keeps_reconcile|apply keeps_publish]. Qed.
Lemma settles_approve (A : rstring -> rstring -> Prop) S w id shown removed :
  A id shown ->
  settles w (Inv A S) (Inv A S) (handle_plugin_request display current_exe config_dir w removed (ApprovePlugin id shown)).
Proof using record_round_trip.
  intros Ha. apply settles_after; [by apply silent_change|]. apply settles_then.
  - eapply (settles_saving _ _ (fun _ => Inv A S)); [intros files r I; by apply inv_approve|].
    intros result. by apply settles_kept, keeps_change.
  - apply keeps_finish.
Qed.
Lemma settles_prefer A S w role id removed :
  settles w (Inv A S) (Inv A S) (handle_plugin_request display current_exe config_dir w removed (SetPluginRolePreference role id)).
Proof using record_round_trip.
  apply settles_then.
  - eapply (settles_saving _ _ (fun _ => Inv A S)); [intros files r I; by apply inv_prefer|].
    intros result. apply settles_kept. destruct id; [by apply keeps_change|apply keeps_nothing].
  - apply keeps_finish.
Qed.
(** The approvals left by a withdrawal *)
Definition left_over (A : rstring -> rstring -> Prop) (ok : bool) id : rstring -> rstring -> Prop :=
  fun id' dg => A id' dg /\ (ok = true -> id' <> id).
Lemma settles_revoke A S w d0 id removed :
  settles w (fun c => c = core d0 /\ Inv A S c)
    (Inv (left_over A (is_ok (revoke w (files d0) (registry d0) id).2) id) S)
    (handle_plugin_request display current_exe config_dir w removed (RevokePluginApproval id)).
Proof using record_round_trip.
  apply settles_after; [by apply silent_change|]. apply settles_after; [by apply silent_send|]. apply settles_then.
  - eapply (settles_saving _ _ (fun _ => Inv (left_over A (is_ok (revoke w (files d0) (registry d0) id).2) id) S)).
    + intros files r [E I]. assert (Ef : files = PluginService.files d0) by apply (f_equal core_files E).
      assert (Et : trust r = trust (registry d0)) by apply (f_equal core_trust E).
      assert (Er : (revoke w (PluginService.files d0) (registry d0) id).2 = (revoke w files r id).2).
      { unfold revoke. rewrite Et, Ef. by destruct (revoke_digest _ _ _ _) as [[? ?] ?]. }
      rewrite Er. pose proof (inv_revoke A S w r files id I) as H. by destruct (revoke w files r id) as [[files' r'] res].
    + intros result. by apply settles_kept, keeps_change.
  - apply keeps_finish.
Qed.
Definition uninstalled w d (removed : result rstring unit) id : bool :=
  is_installed_package (registry d) id && bool_decide (is_Some (store_dir (registry d))) && is_ok removed
  && is_ok (forget w (files d) (registry d) id).2.
Lemma core_forget w d d' id : core d = core d' -> (forget w (files d) (registry d) id).2 = (forget w (files d') (registry d') id).2.
Proof.
  intros E. pose proof (f_equal core_files E) as Ef. pose proof (f_equal core_trust E) as Et. cbn in Ef, Et. unfold forget.
  rewrite Ef, Et. by destruct (forget_plugin _ _ _ _) as [[? ?] []].
Qed.
Lemma core_uninstalled w d d' removed id : core d = core d' -> uninstalled w d removed id = uninstalled w d' removed id.
Proof.
  intros E. pose proof (f_equal core_plugins E) as Ep. pose proof (f_equal core_store_dir E) as Es. cbn in Ep, Es.
  unfold uninstalled, is_installed_package, PluginRegistry.find. by rewrite (core_forget w d d' id E), Ep, Es.
Qed.
Lemma forget_settled A S w id d :
  Inv A S (core d) ->
  settled w (Inv (left_over A (is_ok (forget w (files d) (registry d) id).2) id) S)
    (saving (fun files r => forget w files r id) (fun result =>
       match result with
       | Err error => change (note_result id (Err error)) >>> reconcile_plugins w
       | Ok _ => rediscover_now current_exe config_dir w >>> change (note_result id (Ok tt)) >>> reconcile_plugins w
       end)) d.
Proof using record_round_trip.
  intros I. unfold settled, saving. pose proof (inv_forget A S w (registry d) (files d) id I) as H.
  destruct (forget w (files d) (registry d) id) as [[saved r] [[]|error]]; cbn [snd is_ok] in *.
  - eapply settles_then; [apply settles_rediscover|apply keeps_next; [by apply keeps_change|apply keeps_reconcile]|exact H].
  - eapply settles_kept; [apply keeps_next; [by apply keeps_change|apply keeps_reconcile]|exact H].
Qed.
Lemma settles_uninstall A S w d0 id removed :
  settles w (fun c => c = core d0 /\ Inv A S c) (Inv (left_over A (uninstalled w d0 removed id) id) S)
    (handle_plugin_request display current_exe config_dir w removed (UninstallPlugin id)).
Proof using record_round_trip.
  apply settles_after; [by apply silent_change|]. apply settles_then; [|apply keeps_publish].
  intros d [E I]. rewrite <- (core_uninstalled w d d0 removed id E). clear d0 E. unfold uninstalled.
  assert (Hk : forall result, settled w (Inv (left_over A false id) S) (change (note_result id result) >>> reconcile_plugins w) d).
  { intros result. eapply settles_kept; [apply keeps_next; [by apply keeps_change|apply keeps_reconcile]|].
    eapply inv_mono; [| |exact I]; [|done]. by split. }
  unfold uninstall_plugin, registered, with_state. unfold settled.
  destruct (is_installed_package (registry d) id); [|apply Hk]. cbn [negb andb].
  destruct (store_dir (registry d)) as [store|] eqn:Es; [|apply Hk]. rewrite bool_decide_true by by exists store. cbn [andb].
  assert (Hs : forall J b, (forall d', core d' = core d -> settled w J b d') ->
      settled w J (send_plugin_command (Supervisor.StopPlugin id) >>> b) d).
  { intros J b Hb. eapply (settles_after w (fun c => c = core d)); [by apply silent_send| |done]. exact Hb. }
  destruct removed as [[]|error]; cbn [is_ok andb]; apply Hs; intros d' E.
  - rewrite <- (core_forget w d' d id E). apply forget_settled. by rewrite E.
  - eapply settles_kept; [apply keeps_next; [by apply keeps_change|apply keeps_reconcile]|]. rewrite E.
    eapply inv_mono; [| |exact I]; [|done]. by split.
Qed.
Lemma keeps_install w source replacing : keeps w (install_plugin display w source replacing).
Proof.
  assert (Hf : forall id reason, keeps w (plugin_action_failed display w id reason)).
  { intros id reason. apply keeps_next; [|apply keeps_publish]. destruct id; [by apply keeps_change|apply keeps_nothing]. }
  apply keeps_registered. intros r. destruct (store_dir r); [|apply Hf]. destruct replacing as [id|]; [|by apply keeps_out].
  destruct (negb _); [apply Hf|]. repeat apply keeps_next; [by apply keeps_change|by apply keeps_command|apply keeps_publish|by apply keeps_out].
Qed.
Lemma keeps_open w id theme removed :
  keeps w (handle_plugin_request display current_exe config_dir w removed (OpenPluginSettings id theme)).
Proof.
  intros d. cbn [handle_plugin_request]. unfold registered at 1 2, with_state.
  destruct (negb _); [by apply keeps_nothing|]. destruct (is_running _ _); [by apply keeps_command|].
  apply (keeps_planned w id None (fun plan => Supervisor.OpenSettingsWindow id (plan_spec plan) theme)
    (fun refusal => change (note_result id (Err (refusal_text refusal))) >>> publish_plugins display w)); [done|].
  intros refusal. apply keeps_next; [by apply keeps_change|apply keeps_publish].
Qed.
Lemma keeps_restart w id removed :
  keeps w (handle_plugin_request display current_exe config_dir w removed (RestartPluginRequest id)).
Proof.
  apply keeps_next; [|apply keeps_publish]. apply keeps_registered. intros r. apply keeps_only_when, keeps_next; [by apply keeps_change|].
  apply keeps_consult; [intros; apply resident_role_same|]. intros role. apply keeps_start.
Qed.
Lemma settles_job A S w job : settles w (Inv A S) (Inv A S) (finish_plugin_job display current_exe config_dir w job).
Proof.
  apply settles_then; [|apply keeps_publish]. destruct job as [review|id review result].
  { apply settles_kept, keeps_change. intros r. apply record_review_same. }
  apply settles_then; [|apply keeps_next; [by apply keeps_only_when, keeps_change|apply keeps_reconcile]].
  destruct result.
  - apply settles_then; [apply settles_rediscover|by apply keeps_change].
  - apply settles_kept, keeps_registered. intros r. apply keeps_only_when, keeps_change. intros r'. apply record_review_same.
Qed.

(** ** The system *)

Definition apply_stimulus w (stimulus : Stimulus) : action :=
  match stimulus with
  | Requested request removed => handle_plugin_request display current_exe config_dir w removed request
  | JobDone job => finish_plugin_job display current_exe config_dir w job
  | Noted call => apply_call w call
  | Mounted m => PluginService.start_mounted_receive display w m
  | Begun => start_plugins w
  | Restarted => fun d => (first_daemon current_exe config_dir w (files d), [])
  end.
(** What the user decided with a request; a withdrawal counts when it succeeds. *)
Definition decided w d (stimulus : Stimulus) : list UserEvent :=
  match stimulus with
  | Requested (SetPluginEnabled id true) _ => [SwitchedOn id]
  | Requested (ApprovePlugin id digest) _ => [ApprovedDigest id digest]
  | Requested (RevokePluginApproval id) _ => if is_ok (revoke w (files d) (registry d) id).2 then [Withdrawn id] else []
  | Requested (UninstallPlugin id) removed => if uninstalled w d removed id then [Withdrawn id] else []
  | _ => []
  end.
Inductive reachable : list UserEvent -> PluginDaemon -> Prop :=
| reachable_first w : reachable [] (first_daemon current_exe config_dir w ∅)
| reachable_step w stimulus log d :
    reachable log d -> reachable (log ++ decided w d stimulus) (apply_stimulus w stimulus d).1.

Definition consistent (log : list UserEvent) c : Prop :=
  Inv (approved_since log) (fun id => SwitchedOn id ∈ log) c.
Lemma consistent_more log events c : (forall id, Withdrawn id ∉ events) -> consistent log c -> consistent (log ++ events) c.
Proof.
  intros He. apply inv_mono.
  - intros id dg H. by apply approved_since_more.
  - intros id H. apply elem_of_app. by left.
Qed.
Lemma consistent_withdrawn log (ok : bool) id c :
  Inv (left_over (approved_since log) ok id) (fun id => SwitchedOn id ∈ log) c ->
  consistent (log ++ (if ok then [Withdrawn id] else [])) c.
Proof.
  destruct ok; [|rewrite app_nil_r]; apply inv_mono.
  - intros id' dg [H Hne]. apply approved_since_more; [|done]. intros E%list_elem_of_singleton. injection E. by apply Hne.
  - intros id' H. apply elem_of_app. by left.
  - by intros id' dg [H _].
  - done.
Qed.
Lemma settled_mono w (J J' : Core -> Prop) a d : (forall c, J c -> J' c) -> settled w J a d -> settled w J' a d.
Proof. intros H []. split; [by apply H|done]. Qed.
Lemma settles_stimulus w stimulus log d :
  consistent log (core d) -> settled w (consistent (log ++ decided w d stimulus)) (apply_stimulus w stimulus) d.
Proof using record_round_trip state_round_trip.
  intros I.
  assert (Hkeep : forall a, keeps w a -> settled w (consistent (log ++ [])) a d).
  { intros a Ha. eapply settles_kept; [exact Ha|]. by rewrite app_nil_r. }
  assert (Hsame : forall a, settles w (consistent log) (consistent log) a -> settled w (consistent (log ++ [])) a d).
  { intros a Ha. rewrite app_nil_r. by apply Ha. }
  assert (Hone : forall event, (forall id, event <> Withdrawn id) -> consistent (log ++ [event]) (core d)).
  { intros event He. apply consistent_more; [|done]. intros id E%list_elem_of_singleton. by apply (He id). }
  destruct stimulus as [request removed|job|call|m| |]; cbn [apply_stimulus decided].
  - destruct request as [|id on|id|id key value|id theme|path|path|id path|id digest|id|id|role id]; cbn [decided].
    + apply Hkeep, keeps_publish.
    + destruct on.
      * apply settles_switch; [|by apply Hone]. intros _. apply elem_of_app. right. by left.
      * by apply Hsame, settles_switch.
    + apply Hkeep, keeps_restart.
    + apply Hsame, settles_setting.
    + apply Hkeep, keeps_open.
    + by apply Hkeep, keeps_out.
    + apply Hkeep, keeps_install.
    + apply Hkeep, keeps_install.
    + apply settles_approve; [apply approved_since_now|by apply Hone].
    + eapply settled_mono; [intros c; apply consistent_withdrawn|]. by apply (settles_revoke _ _ w d).
    + eapply settled_mono; [intros c; apply consistent_withdrawn|]. by apply (settles_uninstall _ _ w d).
    + apply Hsame, settles_prefer.
  - apply Hsame, settles_job.
  - apply Hkeep, keeps_call.
  - apply Hkeep, keeps_mounted.
  - apply Hkeep, keeps_start_plugins.
  - rewrite app_nil_r. split; [|constructor]. by eapply inv_new_registry.
Qed.
Lemma reachable_consistent log d : reachable log d -> consistent log (core d).
Proof using record_round_trip state_round_trip.
  induction 1 as [w|w stimulus log d _ IH].
  - eapply inv_mono; [| |apply (inv_first w)]; by intros.
  - by apply (settles_stimulus w stimulus).
Qed.

(** C25: the daemon starts a plugin only with the user's consent.  Whatever happens
    to a daemon that began without files (requests, installations and updates that
    succeed or fail, notes of plugin processes, failed writes, restarts over the
    files left behind, packages changed on disk), every command that starts a plugin
    names the executable, the arguments and the capabilities of a plugin that was
    discovered, and that plugin is one of the distribution, which is built in, or
    the user had switched it on and had approved the digest that its package has on
    disk at that moment, without a successful withdrawal or removal since; and the
    command carries that digest and the manifest, for the supervisor to check. *)
Theorem plugins_start_by_consent w stimulus log d command id spec :
  reachable log d -> Send command ∈ (apply_stimulus w stimulus d).2 -> starts (Send command) = Some (id, spec) ->
  let after := (apply_stimulus w stimulus d).1 in
  let log' := log ++ decided w d stimulus in
  exists p, p ∈ plugins (registry after) /\ mf_id (found_manifest p) = id
    /\ executable spec = found_executable p /\ args spec = argv (found_manifest p)
    /\ Supervisor.approved spec = mf_capabilities (found_manifest p)
    /\ (p ∈ PluginDiscovery.bundled (daemon_directory current_exe)
        \/ SwitchedOn id ∈ log'
          /\ integrity spec = Some {| manifest := found_manifest p; manifest_path := manifest_path_of p |}
          /\ (exists names, package_digest w (found_manifest p) (manifest_path_of p) (found_executable p) = Ok (digest spec, names))
          /\ approved_since log' id (digest spec)).
Proof using record_round_trip state_round_trip.
  intros Hr%reachable_consistent Hin Hs after log'. destruct (settles_stimulus w stimulus log d Hr) as [I Ho].
  rewrite Forall_forall in Ho. specialize (Ho _ Hin). unfold out_ok in Ho. rewrite Hs in Ho.
  destruct Ho as (p & Hp & Hid & He & Ha & Hc & H). exists p. split; [done|]. split; [done|]. split; [done|]. split; [done|].
  split; [done|]. unfold is_bundled in H. case_bool_decide; [left; by apply (inv_plugins _ _ _ I)|right].
  destruct H as (Hon & Hi & Hd & Happ). split; [by apply (inv_enabled _ _ _ I)|]. split; [done|]. split; [done|].
  by apply (inv_trust _ _ _ I).
Qed.
End consent.

(** ** An example

    A manifest in the user's directory; the user switches the plugin on and approves
    its digest, the daemon restarts and starts the plugin from the saved files. *)

Module DropInPlugin.
Definition clip : PluginManifest := {|
  mf_manifest_version := 1; mf_protocol_version := 1; mf_id := str "clip"; mf_name := str "Clipboard"; mf_executable := str "clip";
  mf_args := [str "--daemon"]; mf_description := []; mf_version := str "1.0"; mf_author := []; mf_homepage := None;
  mf_source := None; mf_update_url := None; mf_license := None; mf_bundled := false; mf_on_demand := false;
  mf_owns_settings := false;
  mf_capabilities := {| clipboard_read := true; paste := true; can_cancel := true; requires_live_mount := false;
                        pointer_events := false; mime_types := [URI_LIST_MIME; GNOME_COPIED_FILES_MIME] |};
  mf_settings := []; mf_handshake_ids := []; mf_resources := [] |}.
(** The only text that is JSON *)
#[export] Instance one_manifest : ManifestJson := {
  JsonValue := unit;
  json_from_str text := if bool_decide (text = str "clip") then Ok tt else Err (str "not JSON");
  get_u64 _ _ := Some 1;
  get_str _ _ := None;
  manifest_from_value _ := Ok clip;
  setting_to_json setting := decl_key setting;
}.
#[export] Instance no_descriptors : Descriptors := fun _ => [].
Definition coded {A} `{Countable A} (a : A) : rstring := [Zpos (encode a)].
Definition decoded {A} `{Countable A} (text : rstring) : option A := match text with [Zpos p] => decode p | _ => None end.
Lemma decoded_coded {A} `{Countable A} (a : A) : decoded (coded a) = Some a.
Proof. apply decode_encode. Qed.
#[export] Instance coded_trust : TrustJson := {
  record_to_json r := coded (approved_digests r, preferred_ids r);
  record_from_json text :=
    (fun '(approved, preferred) => {| approved_digests := approved; preferred_ids := preferred |}) <$> decoded text;
}.
#[export] Instance coded_state : StateJson := {
  state_to_json s := coded (saved_disabled s, saved_enabled s, saved_values s);
  state_from_json text :=
    (fun '(off, on, values) => {| saved_disabled := off; saved_enabled := on; saved_values := values |}) <$> decoded text;
}.
Lemma record_coded r : record_from_json (record_to_json r) = Some r.
Proof. unfold record_from_json, record_to_json, coded_trust. rewrite decoded_coded. by destruct r. Qed.
Lemma state_coded s : state_from_json (state_to_json s) = Some s.
Proof. unfold state_from_json, state_to_json, coded_state. rewrite decoded_coded. by destruct s. Qed.

Definition directory : rstring := str "/c/plugins".
Definition moment : Moment := {|
  now := 0;
  write_fails _ := None;
  disk := {|
    dir_entries d := if bool_decide (d = directory) then Some [(str "clip.json", Some FileKind.Regular)] else None;
    path_is_file path := bool_decide (path = str "/c/plugins/clip");
    file_info path := Ok (true, 100);
    file_text path := Ok (str "clip");
  |};
  package_digest _ _ _ := Ok (str "abc", []);
  stat _ := None;
|}.
Definition exe : rstring := str "/usr/bin/syntra".
Abbreviation apply := (apply_stimulus (fun path => path) exe (Some (str "/c")) moment).
Definition run (l : list Stimulus) : PluginDaemon :=
  foldl (fun d stimulus => (apply stimulus d).1) (first_daemon exe (Some (str "/c")) moment ∅) l.
Definition consent : list Stimulus := [
  Requested (SetPluginEnabled (str "clip") true) (Ok tt); Requested (ApprovePlugin (str "clip") (str "abc")) (Ok tt); Restarted].
Definition events : list UserEvent := [SwitchedOn (str "clip"); ApprovedDigest (str "clip") (str "abc")].
Definition command : ManagerCommand :=
  match (apply Begun (run consent)).2 with Send command :: _ => command | _ => Supervisor.StopPlugin [] end.
Definition spec : LaunchSpec := {|
  executable := str "/c/plugins/clip"; args := [str "--daemon"]; approved := mf_capabilities clip; handshake_ids := [];
  role := Some PluginRole.FileClipboard; digest := str "abc";
  integrity := Some {| manifest := clip; manifest_path := str "/c/plugins/clip.json" |} |}.
Example command_starts : command = Supervisor.StartPlugin (str "clip") spec [].
Proof. vm_compute. reflexivity. Qed.
Lemma plugins_start_by_consent_witness :
  exists p, p ∈ plugins (registry (run (consent ++ [Begun]))) /\ mf_id (found_manifest p) = str "clip"
    /\ executable spec = found_executable p /\ args spec = argv (found_manifest p)
    /\ Supervisor.approved spec = mf_capabilities (found_manifest p)
    /\ (p ∈ PluginDiscovery.bundled (daemon_directory exe)
        \/ SwitchedOn (str "clip") ∈ events
          /\ integrity spec = Some {| manifest := found_manifest p; manifest_path := manifest_path_of p |}
          /\ (exists names, package_digest moment (found_manifest p) (manifest_path_of p) (found_executable p) = Ok (digest spec, names))
          /\ approved_since events (str "clip") (digest spec)).
Proof.
  assert (Hr : reachable (fun path => path) exe (Some (str "/c")) events (run consent)).
  { pose proof (reachable_first (fun path => path) exe (Some (str "/c")) moment) as H.
    apply (reachable_step _ _ _ moment (Requested (SetPluginEnabled (str "clip") true) (Ok tt))) in H.
    apply (reachable_step _ _ _ moment (Requested (ApprovePlugin (str "clip") (str "abc")) (Ok tt))) in H.
    apply (reachable_step _ _ _ moment Restarted) in H. exact H. }
  pose proof (plugins_start_by_consent (fun path => path) exe (Some (str "/c")) record_coded state_coded moment Begun events
    (run consent) command (str "clip") spec Hr) as H.
  apply H.
  - vm_compute. left.
  - vm_compute. reflexivity.
Defined.

(** The same package in the store of installed packages, and a disk without it.
    Removing the package forgets the approval but not the saved settings: installed
    again, the plugin is switched on when the daemon next starts, and waits for an
    approval only. *)
Definition in_store (present : bool) : Moment := {|
  now := 0;
  write_fails _ := None;
  disk := {|
    dir_entries d := if present && bool_decide (d = str "/c/plugin-store") then Some [(str "clip", Some FileKind.Directory)] else None;
    path_is_file path := present && (bool_decide (path = str "/c/plugin-store/clip/clip")
                                     || bool_decide (path = str "/c/plugin-store/clip/syntra-plugin.json"));
    file_info path := Ok (true, 100);
    file_text path := Ok (str "clip");
  |};
  package_digest _ _ _ := Ok (str "abc", []);
  stat _ := None;
|}.
Definition reinstalled : PluginDaemon :=
  let go present stimulus d := (apply_stimulus (fun path => path) exe (Some (str "/c")) (in_store present) stimulus d).1 in
  let d := first_daemon exe (Some (str "/c")) (in_store true) ∅ in
  let d := go true (Requested (SetPluginEnabled (str "clip") true) (Ok tt)) d in
  let d := go true (Requested (ApprovePlugin (str "clip") (str "abc")) (Ok tt)) d in
  let d := go false (Requested (UninstallPlugin (str "clip")) (Ok tt)) d in
  go true Restarted d.
Example reinstalled_is_switched_on :
  is_enabled (registry reinstalled) (str "clip") = true
  /\ launch_plan (in_store true) (registry reinstalled) (str "clip") None = Err NotApproved.
Proof. split; vm_compute; reflexivity. Qed.
End DropInPlugin.
